(* ===== verification/_CoqProject ===== *)
-Q . S2P
Prelude.v
CStr.v
ConstTime.v
Endian.v
Mem.v
Base64.v
Cbs.v
Cbb.v
Der.v
Ber.v
Stack.v
Lhash.v
Buf.v
Asn1Time.v
Asn1Text.v
Poly1305.v
ChaCha.v
Md32.v
Sha2.v
Sha256.v
Sha512.v
Sha1.v
Regs4.v
Md5.v
Md4.v
Digest.v
Hmac.v
Digests.v
Aead.v
BnWords.v
BnMont.v
Bignum.v
UvIdna.v
UvInet.v
UvHeap.v
UvQueue.v
UvTimer.v
UvLoop.v
PbStream.v
PbMem.v
PbEncode.v
PbDecode.v
PbSafe.v
