(* ===== verification/Prelude.v ===== *)
(** * Verification of the C code under the Globo collection app

    ** The program

    The repository is an iOS app (Swift, [src/collection/collection]) and the
    libraries it is linked with ([src/collection/Pods]).  Everything in C is
    in those libraries, and it is the part of the app that parses bytes from
    the network and drives its connections: BoringSSL reads and writes ASN.1
    and PEM, seals records and computes with big numbers, nanopb reads and
    writes the messages of Firestore, libuv resolves host names, keeps the
    timers and runs the loop under gRPC.  This development models that code,
    as it is compiled for the app (64-bit little-endian Darwin,
    [uint_fast8_t] of eight bits, 128-bit integers, BoringSSL without
    assembly; nanopb with PB_FIELD_32BIT, PB_NO_PACKED_STRUCTS and
    PB_ENABLE_MALLOC).

    ** The files

    - [Prelude]: machine words ([wrap]), two's complement ([sint]), byte
      strings as numbers, the state-and-failure monad [SE] with its notation
      and its inversion tactic [se_inv], list lemmas, the hint base [word].
    - [CStr]: [strlen], [strchr] and the digits of [snprintf].
    - [ConstTime]: the masks of BoringSSL's [crypto/internal.h].
    - [Endian]: the loads, stores, byte swaps and rotations of the same file.
    - [Mem]: [crypto/mem.c]: allocation with its size prefix over a [malloc]
      parameter, string helpers, [CRYPTO_memcmp].
    - [Base64]: [crypto/base64/base64.c], block and streaming.
    - [Cbs]: the parser of [crypto/bytestring/cbs.c].  A [CBS] is a state and
      every getter an [SE] program on it, composed as the code composes them.
    - [Cbb]: the builder of [crypto/bytestring/cbb.c]: a store of CBB structs
      over one shared buffer; a child's length prefix is written when its
      parent is flushed, as in the code.
    - [Der]: what uses parser and builder together: object identifiers as
      text, the sorting of SET OF, [CBB_finish_i2d].
    - [Ber]: [crypto/bytestring/ber.c], the conversion of BER to DER, which
      reads with [Cbs] and writes with [Cbb].
    - [Stack], [Lhash], [Buf]: the containers of BoringSSL: [stack/stack.c],
      the hash tables of [lhash/lhash.c] with their items in memory, and
      [buf/buf.c] over the blocks of [Mem].
    - [Asn1Time]: days and seconds of [crypto/asn1/time_support.c],
      [OPENSSL_gmtime_adj] and [OPENSSL_gmtime_diff].
    - [Asn1Text]: the times of [a_utctm.c], [a_gentm.c] and [a_time.c], read,
      printed and converted, and the strings of [asn1_lib.c] they live in.
    - [Poly1305]: [crypto/poly1305/poly1305.c], its state of five limbs, and
      the reference modulo [2^130 - 5].
    - [ChaCha]: [crypto/chacha/chacha.c], against the block function of RFC
      8439.
    - [Md32]: [fipsmodule/digest/md32_common.h], which cuts the input of a hash
      into blocks, counts its bits and pads it, over any function of blocks.
    - [Sha2]: the reference of the SHA-2 family (FIPS 180-4) for both word
      sizes, and that rounds on turning registers and a ring of words are its
      rounds; [Sha256] and [Sha512]: [sha/sha256.c] and [sha/sha512.c].
    - [Sha1], [Md5], [Md4]: [sha/sha1.c], [md5/md5.c] and [md4/md4.c], over
      [Md32]; [Regs4] is what the two hashes with four registers share.
    - [Digest]: the contexts of [digest/digest.c] over any table of a hash, and
      the class [Hash] of what a table promises.
    - [Hmac]: [hmac/hmac.c] and [hkdf/hkdf.c], proved against [Hash].
    - [Digests]: the nine tables of [digest/digests.c], which are its instances,
      and so the theorems on digests, HMAC and HKDF.
    - [Aead]: the [EVP_AEAD_CTX_*] functions of [fipsmodule/cipher/aead.c],
      over the class [Sealing] of what a cipher's table promises; the two
      ciphers of [e_chacha20poly1305.c], made of [ChaCha] and [Poly1305], are
      its instances.
    - [BnWords]: the word arrays of [fipsmodule/bn]: [generic.c], [add.c],
      [cmp.c] and the small products of [mul.c].
    - [BnMont]: Montgomery reduction and the exponentiation of small numbers
      ([montgomery.c], [montgomery_inv.c], [exponentiation.c]), up to the nine
      words of [BN_SMALL_MAX_WORDS].
    - [Bignum]: [BIGNUM]s with their sign and width: [bn.c], [bytes.c],
      [shift.c], [add.c] and the constant-time division of [div.c].
    - [UvIdna]: libuv's [idna.c] and [strscpy.c].
    - [UvInet]: libuv's [inet.c]; it writes with [uv__strscpy] of [UvIdna].
    - [UvHeap]: libuv's [heap-inl.h], pointers in a finite map, and the class
      [PriorityQueue] of what a client may rely on, which the heap implements.
    - [UvQueue]: the rings of libuv's [queue.h], pointers in a finite map.
    - [UvTimer]: libuv's [timer.c] and the handle macros of [uv-common.h],
      written and proved over any [PriorityQueue] and used with the heap.
    - [UvLoop]: [loop-watcher.c] and the loop of [core.c]: watchers in the
      queues of [UvQueue], closing, pending callbacks, and [uv_run] with its
      phases around [UvTimer]; the clock and the poll are parameters.
    - [PbStream]: the streams and wire primitives of nanopb's [pb_decode.c]
      and [pb_encode.c], over classes of input and output callbacks.
    - [PbMem]: a byte-addressed memory, the field descriptors of [pb.h], the
      iterator of [pb_common.c] that walks a struct by its table, and the
      monad [M] of programs that may fail, fault or run out of fuel.
    - [PbEncode], [PbDecode]: the message encoder and decoder of
      [pb_encode.c] and [pb_decode.c] on that memory, with submessages,
      arrays, oneofs, extensions, callbacks, allocation and release.
    - [PbSafe]: the proof that the decoder is memory safe and ends.

    ** What the theorems show

    - Round trips: base64 blocks and streams, DER trees, length-prefixed
      strings, integers, object identifiers, IPv4 and IPv6 addresses, ASN.1
      times, big numbers as bytes, sealed messages and Protocol Buffers fields
      come back as they were written.
    - Equivalence with a reference: the DER parser accepts exactly the
      canonical encodings, the integer readers exactly the minimal contents,
      the streaming base64 encoder equals the block encoder on lines,
      [inet_pton4] accepts exactly canonical dotted quads, [pb_decode_varint]
      exactly the varints of up to ten bytes.  [CRYPTO_chacha_20] and
      [CRYPTO_poly1305_*] compute what their RFC says, in whatever pieces the
      input comes.
    - Arithmetic: Montgomery reduction, exponentiation and inversion, constant-
      time division, addition, subtraction and shifts of big numbers compute
      the numbers they stand for, with every carry and every width.
    - Authentication: [EVP_AEAD_CTX_open] returns a message only for a
      ciphertext whose tag is the one of its key, nonce and associated data.
    - Refinement: what [CBS_asn1_ber_to_der] converts was a sequence of BER
      values and becomes the DER of the same values, with their constructed
      strings in one piece ([ber_to_der_converts]); the pointer heap is a
      complete ordered tree over exactly the nodes inserted.
    - Containers: a stack is a list and a hash table a finite map, through
      every growth and failed allocation; the search by halves finds what the
      search in order finds, and iterating a table survives deletions.
    - State: the timer invariant holds after every operation, due timers fire
      once and in order, and whatever callbacks do, the loop fires the least
      due timer in every round and stops when none is left.  A phase of
      watchers calls each once whatever the callbacks start, stop or close.
    - Hashes: any pieces a message is cut into give the SHA-2 hash of the
      whole ([SHA256_correct], [SHA512_correct]), and so for SHA-1, MD5 and MD4.
      Used through their tables, also one after the other in one context, all
      nine digests are those of their standards, and HMAC and HKDF over any of
      them those of RFC 2104 and RFC 5869 ([EVP_Digest_correct],
      [HMAC_correct], [HKDF_correct]).
    - Liveness: in a loop with nothing but timers that do not repeat and
      callbacks that do nothing, with a clock that does not go back and a poll
      that waits, [uv_run] fires every timer and returns ([uv_run_fires_all]).
    - Bounds and errors: fixed buffers are filled exactly when the encoding
      fits, errors are sticky, nothing is written past an end.
    - Messages: the size [pb_get_encoded_size] counts is the size [pb_encode]
      writes ([pb_encode_size_agrees]); on any input at all [pb_decode] ends,
      keeps inside its struct and reads only its input ([pb_decode_safe]).
    - Findings, each a theorem on concrete inputs: see [find_ber_overlooks_nested],
      [ber_to_der_takes_all],
      [utf8_decode_ignores_end], [utf8_decode_accepts_malformed],
      [inet_ntop6_empty_buffer], [pb_decode_varint32_misses_overflow],
      [pb_decode_fixed_count_overruns], [pb_decode_accepts_field_zero],
      [CRYPTO_poly1305_loses_carry], [BN_conversions_keep_sign],
      [extra_in_reuses_key_block] and [sk_set_breaks_find].

    ** Fuel

    Loops that C leaves unbounded take fuel, and the theorems prove that
    enough is given: the converter of [Ber] gets one round more than its input
    has bytes ([convert_ber_fuel_enough]), the walks of [UvHeap] one more than
    the heap has nodes, varint loops as many as the stream has bytes, and so
    do the loops of the message decoder, whose other fuel is the depth of the
    message ([pb_decode_safe] asks for no more than that depth); [limit]
    bounds the strings and lists of extensions found in memory, which C walks
    until their end.  The keystream loop of [ChaCha] has one round for each
    block of the input, [HKDF_expand] one more than its at most 255 blocks, the
    loops of [UvLoop] one more than the watchers that are active, and [uv_run]
    one for each millisecond to the last expiry.
    Only [uv__run_timers] can go on forever, when callbacks keep starting
    timers that are due; its theorems say how long it runs and what it has done
    when the fuel ends.

    ** Not modelled

    - The rest of BoringSSL: block ciphers, elliptic curves, RSA,
      X.509 and TLS (TLS is C++).  Of [fipsmodule/bn]: Karatsuba products,
      the division of variable time, primes, square roots, and exponentiation
      beyond nine words.  [malloc] and the scratch numbers of a [BN_CTX] are
      parameters.
    - The rest of libuv: sockets, files, processes, threads and the polling of
      the kernel are system calls; [UvLoop] has timers and watchers as handles.
    - nanopb's generated tables, the allocator and the callbacks of its users
      are parameters; the decoder is modelled for memory streams.
    - gRPC, Abseil, LevelDB and Firestore are C++; the other pods are
      Objective-C or Swift, as is the app itself.
    - The upb code and the root certificates are generated. *)

From Stdlib Require Import ZArith Lia List Bool Btauto.
Import ListNotations.

#[global] Open Scope Z_scope.
#[global] Open Scope list_scope.

(** ** Machine words

    A [w]-bit unsigned word is a [Z] in [0, 2^w); C's conversions and the
    arithmetic of unsigned types reduce modulo [2^w]. *)

Definition wrap (w x : Z) : Z := x mod 2 ^ w.

(** The two's complement reading of a [w]-bit word. *)
Definition sint (w x : Z) : Z :=
  if Z.testbit x (w - 1) then wrap w x - 2 ^ w else wrap w x.

Abbreviation u8 := (wrap 8).
Abbreviation u16 := (wrap 16).
Abbreviation u32 := (wrap 32).
Abbreviation u64 := (wrap 64).
Abbreviation size_t := (wrap 64).

Definition SIZE_MAX : Z := 2 ^ 64 - 1.
Definition UINT64_MAX : Z := 2 ^ 64 - 1.
Definition INT_MAX : Z := 2 ^ 31 - 1.

Definition word_ok (w x : Z) : Prop := 0 <= x < 2 ^ w.
Abbreviation byte_ok := (word_ok 8).
Abbreviation bytes_ok := (Forall (word_ok 8)).

Lemma wrap_range w x : 0 <= w -> word_ok w (wrap w x).
Proof. intros. apply Z.mod_pos_bound. lia. Qed.

Lemma wrap_small w x : word_ok w x -> wrap w x = x.
Proof. apply Z.mod_small. Qed.

Lemma wrap_wrap w x : wrap w (wrap w x) = wrap w x.
Proof. unfold wrap. now rewrite Zmod_mod. Qed.

Lemma byte_ok_iff b : byte_ok b <-> 0 <= b < 256.
Proof. reflexivity. Qed.

Create HintDb word.
#[export] Hint Resolve wrap_range : word.

(** *** Bit operations as arithmetic *)

Lemma shiftl_lor_add a b n :
  0 <= n -> 0 <= b < 2 ^ n -> Z.lor (Z.shiftl a n) b = a * 2 ^ n + b.
Proof.
  intros Hn Hb. rewrite <- Z.shiftl_mul_pow2 by lia.
  rewrite Z.add_nocarry_lxor.
  - apply Z.bits_inj'. intros i Hi. rewrite Z.lor_spec, Z.lxor_spec.
    destruct (Z.testbit b i) eqn:E; [|now rewrite orb_false_r, xorb_false_r].
    assert (i < n).
    { destruct (Z.lt_ge_cases i n) as [|Hge]; [assumption|].
      rewrite <- (Z.mod_small b (2 ^ n)), Z.mod_pow2_bits_high in E by lia. discriminate. }
    now rewrite Z.shiftl_spec_low by lia.
  - apply Z.bits_inj'. intros i Hi. rewrite Z.land_spec, Z.bits_0.
    destruct (Z.lt_ge_cases i n) as [Hlt|Hge].
    + now rewrite Z.shiftl_spec_low by lia.
    + rewrite <- (Z.mod_small b (2 ^ n)), Z.mod_pow2_bits_high, andb_false_r by lia. reflexivity.
Qed.

Lemma land_mask a n : 0 <= n -> Z.land a (2 ^ n - 1) = a mod 2 ^ n.
Proof. intros. rewrite <- Z.land_ones by lia. f_equal. rewrite Z.ones_equiv. lia. Qed.

Lemma land_le a m : 0 <= m -> 0 <= Z.land a m <= m.
Proof.
  intros Hm. assert (E : Z.land a m + Z.ldiff m a = m).
  { rewrite Z.add_nocarry_lxor.
    - apply Z.bits_inj'. intros i Hi. rewrite Z.lxor_spec, Z.land_spec, Z.ldiff_spec. now destruct (Z.testbit a i), (Z.testbit m i).
    - apply Z.bits_inj'. intros i Hi. rewrite !Z.land_spec, Z.ldiff_spec, Z.bits_0. now destruct (Z.testbit a i), (Z.testbit m i). }
  assert (0 <= Z.land a m) by (apply Z.land_nonneg; now right). assert (0 <= Z.ldiff m a) by (apply Z.ldiff_nonneg; now left). lia.
Qed.

Lemma land_split n a b c d : 0 <= n -> 0 <= a < 2 ^ n -> 0 <= c < 2 ^ n ->
  Z.land (a + 2 ^ n * b) (c + 2 ^ n * d) = Z.land a c + 2 ^ n * Z.land b d.
Proof.
  intros Hn Ha Hc. pose proof (land_le a c ltac:(lia)) as L.
  rewrite !(Z.add_comm _ (2 ^ n * _)), !(Z.mul_comm (2 ^ n)), <- !shiftl_lor_add by lia.
  apply Z.bits_inj'. intros i Hi. rewrite !Z.land_spec, !Z.lor_spec, Z.land_spec. destruct (Z.lt_ge_cases i n) as [I|I].
  - now rewrite !Z.shiftl_spec_low by lia.
  - rewrite !Z.shiftl_spec, Z.land_spec by lia.
    rewrite <- (Z.mod_small a (2 ^ n)), <- (Z.mod_small c (2 ^ n)), !Z.mod_pow2_bits_high by lia. now rewrite !orb_false_r.
Qed.

Lemma land_mod_mask x m n : 0 <= n -> 0 <= m < 2 ^ n -> Z.land x m = Z.land (x mod 2 ^ n) m.
Proof.
  intros Hn Hm. apply Z.bits_inj'. intros i Hi. rewrite !Z.land_spec. destruct (Z.lt_ge_cases i n) as [I|I].
  - now rewrite Z.mod_pow2_bits_low by lia.
  - rewrite <- (Z.mod_small m (2 ^ n)), Z.mod_pow2_bits_high, !andb_false_r by lia. reflexivity.
Qed.

Lemma prod_bound a b x y : 0 <= a <= x -> 0 <= b <= y -> 0 <= a * b <= x * y.
Proof. intros Ha Hb. split; [lia|]. apply Z.mul_le_mono_nonneg; lia. Qed.

(** The bit [w-1] of a [w]-bit word is its magnitude test. *)
Lemma testbit_top w x :
  0 < w -> word_ok w x -> Z.testbit x (w - 1) = (2 ^ (w - 1) <=? x).
Proof.
  intros Hw Hx. unfold word_ok in Hx.
  assert (E : 2 ^ w = 2 * 2 ^ (w - 1)) by (rewrite <- Z.pow_succ_r by lia; f_equal; lia).
  rewrite Z.testbit_odd, Z.shiftr_div_pow2 by lia.
  destruct (Z.leb_spec (2 ^ (w - 1)) x).
  - replace (x / 2 ^ (w - 1)) with 1; [reflexivity|].
    apply Z.div_unique with (x - 2 ^ (w - 1)); lia.
  - now rewrite Z.div_small by lia.
Qed.

(** *** Exhaustive checks over bytes *)

Definition all_bytes : list Z := map Z.of_nat (seq 0 256).

Lemma in_all_bytes b : byte_ok b -> In b all_bytes.
Proof.
  intros Hb. apply in_map_iff. exists (Z.to_nat b). unfold word_ok in Hb.
  rewrite in_seq. lia.
Qed.

Lemma byte_cases (P : Z -> bool) :
  forallb P all_bytes = true -> forall b, byte_ok b -> P b = true.
Proof. intros H b Hb. rewrite forallb_forall in H. auto using in_all_bytes. Qed.

Lemma bytes_ok_firstn n l : bytes_ok l -> bytes_ok (firstn n l).
Proof. intros H. rewrite <- (firstn_skipn n l) in H. now apply Forall_app in H. Qed.

Lemma bytes_ok_skipn n l : bytes_ok l -> bytes_ok (skipn n l).
Proof. intros H. rewrite <- (firstn_skipn n l) in H. now apply Forall_app in H. Qed.

(** Concrete bytes *)
Lemma bytes_ok_check bs : forallb (fun b => (0 <=? b) && (b <? 256)) bs = true -> bytes_ok bs.
Proof.
  intros F. apply Forall_forall. intros b Hb. rewrite forallb_forall in F. specialize (F b Hb).
  apply andb_prop in F as [F1%Z.leb_le F2%Z.ltb_lt]. unfold word_ok. lia.
Qed.

(** ** Big- and little-endian readings of byte strings *)

Definition be_val (l : list Z) : Z := fold_left (fun acc b => acc * 256 + b) l 0.

Fixpoint be_bytes (n : nat) (v : Z) : list Z :=
  match n with
  | O => []
  | S n' => be_bytes n' (v / 256) ++ [v mod 256]
  end.

Fixpoint le_val (l : list Z) : Z :=
  match l with
  | [] => 0
  | b :: t => b + 256 * le_val t
  end.

Fixpoint le_bytes (n : nat) (v : Z) : list Z :=
  match n with
  | O => []
  | S n' => v mod 256 :: le_bytes n' (v / 256)
  end.

Lemma be_val_snoc l b : be_val (l ++ [b]) = be_val l * 256 + b.
Proof. unfold be_val. now rewrite fold_left_app. Qed.

Lemma be_val_cons b l : be_val (b :: l) = b * 256 ^ Z.of_nat (length l) + be_val l.
Proof.
  induction l as [|c l IH] using rev_ind; [cbn; lia|].
  change (b :: l ++ [c]) with ((b :: l) ++ [c]).
  rewrite !be_val_snoc, IH, length_app. cbn [length].
  replace (Z.of_nat (length l + 1)) with (Z.of_nat (length l) + 1) by lia.
  rewrite Z.pow_add_r by lia. lia.
Qed.

Lemma be_val_bound l : bytes_ok l -> 0 <= be_val l < 256 ^ Z.of_nat (length l).
Proof.
  induction 1 as [|b l Hb Hl IH]; [cbn; lia|].
  rewrite be_val_cons. cbn [length]. rewrite Nat2Z.inj_succ, Z.pow_succ_r by lia.
  unfold word_ok in Hb. nia.
Qed.

Lemma length_be_bytes n v : length (be_bytes n v) = n.
Proof. revert v. induction n; intros v; cbn; [|rewrite length_app, IHn; cbn]; lia. Qed.

Lemma byte_ok_mod v : byte_ok (v mod 256).
Proof. apply (Z.mod_pos_bound v 256). lia. Qed.

Lemma be_bytes_ok n v : bytes_ok (be_bytes n v).
Proof.
  revert v. induction n; intros v; cbn; [constructor|].
  apply Forall_app; auto using byte_ok_mod.
Qed.

Lemma be_val_be_bytes n v : be_val (be_bytes n v) = v mod 256 ^ Z.of_nat n.
Proof.
  revert v. induction n; intros v; cbn [be_bytes].
  - now rewrite Z.mod_1_r.
  - rewrite be_val_snoc, IHn, Nat2Z.inj_succ, Z.pow_succ_r by lia.
    rewrite Z.rem_mul_r by lia. lia.
Qed.

Lemma be_bytes_be_val l : bytes_ok l -> be_bytes (length l) (be_val l) = l.
Proof.
  induction l as [|c l IH] using rev_ind; [reflexivity|]. intros H.
  apply Forall_app in H as [Hl Hc]. inversion Hc as [|? ? Hb _]; subst.
  unfold word_ok in Hb. rewrite length_app, Nat.add_comm, be_val_snoc. cbn [length Nat.add be_bytes].
  rewrite Z.div_add_l, (Z.div_small c) by lia.
  rewrite Z.add_0_r, IH by assumption. do 2 f_equal.
  rewrite Z.add_comm, Z_mod_plus_full. now apply Z.mod_small.
Qed.

Lemma length_le_bytes n v : length (le_bytes n v) = n.
Proof. revert v. induction n; intros v; cbn; auto. Qed.

Lemma le_bytes_ok n v : bytes_ok (le_bytes n v).
Proof. revert v. induction n; intros v; cbn; constructor; auto using byte_ok_mod. Qed.

Lemma le_val_le_bytes n v : le_val (le_bytes n v) = v mod 256 ^ Z.of_nat n.
Proof.
  revert v. induction n; intros v; cbn [le_bytes le_val].
  - now rewrite Z.mod_1_r.
  - rewrite IHn, Nat2Z.inj_succ, Z.pow_succ_r by lia. now rewrite Z.rem_mul_r by lia.
Qed.

Lemma rev_le_bytes n : forall v, rev (le_bytes n v) = be_bytes n v.
Proof. induction n as [|n IH]; intros v; cbn [le_bytes rev be_bytes]; [|rewrite IH]; reflexivity. Qed.

Lemma le_val_bound l : bytes_ok l -> 0 <= le_val l < 256 ^ Z.of_nat (length l).
Proof.
  induction 1 as [|b l Hb Hl IH]; [cbn; lia|].
  cbn [le_val length]. rewrite Nat2Z.inj_succ, Z.pow_succ_r by lia.
  unfold word_ok in Hb. lia.
Qed.

Lemma le_val_app l r : le_val (l ++ r) = le_val l + 256 ^ Z.of_nat (length l) * le_val r.
Proof.
  induction l as [|b l IH]; [cbn [app le_val length]; change (256 ^ Z.of_nat 0) with 1; lia|].
  cbn [app le_val length].
  rewrite IH, Nat2Z.inj_succ, Z.pow_succ_r by lia. lia.
Qed.

Lemma le_val_rev l : le_val (rev l) = be_val l.
Proof.
  induction l as [|b l IH]; [reflexivity|].
  cbn [rev]. rewrite le_val_app, IH, be_val_cons, length_rev. cbn [le_val]. lia.
Qed.

Lemma le_val_repeat0 n : le_val (repeat 0 n) = 0.
Proof. induction n; cbn [repeat le_val]; lia. Qed.

Lemma le_val_repeat255 n : le_val (repeat 255 n) = 256 ^ Z.of_nat n - 1.
Proof.
  induction n; [reflexivity|]. cbn [repeat le_val]. rewrite Nat2Z.inj_succ, Z.pow_succ_r by lia. lia.
Qed.

(** Two's complement, for words in range. *)
Lemma sint_spec w x :
  0 < w -> word_ok w x -> sint w x = if 2 ^ (w - 1) <=? x then x - 2 ^ w else x.
Proof. intros Hw Hx. unfold sint. now rewrite testbit_top, wrap_small by assumption. Qed.

(** ** Fallible operations on a mutable state

    C functions of this code return 0 (or [false], or a negative number) on
    failure and keep whatever they had already changed.  [SE S A] is such a
    function on a state [S] with a result [A]. *)

Definition SE (S A : Type) : Type := S -> option A * S.

Section StateError.
Context {S : Type}.

Definition ret {A} (a : A) : SE S A := fun s => (Some a, s).
Definition fail {A} : SE S A := fun s => (None, s).
Definition bind {A B} (m : SE S A) (k : A -> SE S B) : SE S B :=
  fun s => match m s with
           | (Some a, s') => k a s'
           | (None, s') => (None, s')
           end.
Definition get : SE S S := fun s => (Some s, s).
Definition put (s : S) : SE S unit := fun _ => (Some tt, s).
Definition guard (b : bool) : SE S unit := if b then ret tt else fail.

Lemma bind_inv {A B} (m : SE S A) (k : A -> SE S B) s b s' :
  bind m k s = (Some b, s') ->
  exists a s1, m s = (Some a, s1) /\ k a s1 = (Some b, s').
Proof. unfold bind. destruct (m s) as [[a|] s1]; [eauto|discriminate]. Qed.

Lemma bind_some {A B} (m : SE S A) (k : A -> SE S B) s a s1 :
  m s = (Some a, s1) -> bind m k s = k a s1.
Proof. unfold bind. now intros ->. Qed.

Lemma bind_none {A B} (m : SE S A) (k : A -> SE S B) s s1 :
  m s = (None, s1) -> bind m k s = (None, s1).
Proof. unfold bind. now intros ->. Qed.

Lemma guard_inv b s (u : unit) s' : guard b s = (Some u, s') -> b = true /\ s' = s.
Proof. unfold guard. destruct b; cbn; [|discriminate]. intros [= <- <-]; auto. Qed.
End StateError.

Declare Scope se_scope.
Delimit Scope se_scope with se.
Notation "x <- m ;; k" := (bind m (fun x => k))
  (at level 100, m at next level, right associativity) : se_scope.
Notation "m ;;; k" := (bind m (fun _ => k))
  (at level 100, right associativity) : se_scope.

(** Invert a successful run of a monadic program, step by step. *)
Ltac se_inv :=
  repeat match goal with
  | H : bind _ _ _ = (Some _, _) |- _ =>
      let a := fresh "a" in let s := fresh "s" in
      let E := fresh "E" in
      apply bind_inv in H as (a & s & E & H)
  | H : guard _ _ = (Some _, _) |- _ =>
      let E := fresh "E" in apply guard_inv in H as [E ?]; subst
  | H : ret _ _ = (Some _, _) |- _ => injection H as ? ?; subst
  | H : (Some _, _) = (Some _, _) |- _ => injection H as ? ?; subst
  | H : fail _ = (Some _, _) |- _ => discriminate H
  | H : (None, _) = (Some _, _) |- _ => discriminate H
  end.

(** ** Lists as memory blocks *)

(** The byte at [p[i]]; 0 outside the block, which no modelled code reads. *)
Definition at_ (p : list Z) (i : Z) : Z := nth (Z.to_nat i) p 0.

(** [p[i] = b] *)
Fixpoint set_nth {A} (n : nat) (b : A) (l : list A) : list A :=
  match n, l with
  | _, [] => []
  | O, _ :: t => b :: t
  | S n', a :: t => a :: set_nth n' b t
  end.

(** [memcpy(p + off, src, length src)] inside a block. *)
Definition splice (off : nat) (src p : list Z) : list Z :=
  firstn off p ++ src ++ skipn (off + length src) p.

Lemma length_set_nth {A} n (b : A) l : length (set_nth n b l) = length l.
Proof. revert n. induction l; intros [|n]; cbn; auto. Qed.

Lemma nth_set_nth_eq {A} (d x : A) : forall l i, (i < length l)%nat -> nth i (set_nth i x l) d = x.
Proof. induction l as [|a l IH]; intros [|i] H; cbn in *; auto; try lia. apply IH. lia. Qed.

Lemma nth_set_nth_neq {A} (d x : A) : forall l i j, i <> j -> nth j (set_nth i x l) d = nth j l d.
Proof.
  induction l as [|a l IH]; intros [|i] [|j] H; cbn; auto; congruence.
Qed.

Lemma set_nth_app {A} (l1 l2 : list A) a b :
  set_nth (length l1) b (l1 ++ a :: l2) = l1 ++ b :: l2.
Proof. induction l1; cbn; [|rewrite IHl1]; reflexivity. Qed.

Lemma length_splice off src p :
  (off + length src <= length p)%nat -> length (splice off src p) = length p.
Proof. intros. unfold splice. rewrite !length_app, length_firstn, length_skipn. lia. Qed.

Lemma firstn_splice off src p :
  (off + length src <= length p)%nat ->
  firstn (off + length src) (splice off src p) = firstn off p ++ src.
Proof.
  intros. unfold splice. rewrite app_assoc, firstn_app, firstn_all2.
  - rewrite length_app, length_firstn, Nat.min_l by lia.
    rewrite Nat.sub_diag. cbn. now rewrite app_nil_r.
  - rewrite length_app, length_firstn. lia.
Qed.

(** Two ways to cut a list: the longer prefix extends the shorter one. *)
Lemma app_prefix {A} (h p x y : list A) :
  h ++ x = p ++ y -> (length h <= length p)%nat -> p = h ++ skipn (length h) p.
Proof.
  intros E L. apply (f_equal (firstn (length h))) in E.
  rewrite firstn_app, firstn_all, Nat.sub_diag, firstn_O, app_nil_r, firstn_app in E.
  replace (length h - length p)%nat with 0%nat in E by lia.
  rewrite firstn_O, app_nil_r in E. rewrite E at 1. symmetry. apply firstn_skipn.
Qed.

Lemma skipn_app_length {A} (l r : list A) : skipn (length l) (l ++ r) = r.
Proof. rewrite skipn_app, skipn_all, Nat.sub_diag. reflexivity. Qed.

Lemma firstn_app_length {A} (l r : list A) : firstn (length l) (l ++ r) = l.
Proof. rewrite firstn_app, firstn_all, Nat.sub_diag. apply app_nil_r. Qed.

Lemma rev_last_case {A} (l : list A) : l = [] \/ exists l' x, l = l' ++ [x].
Proof. destruct l as [|x l' _] using rev_ind; [now left|right; eauto]. Qed.

(** Induction three elements at a time. *)
Lemma list_ind3 {A} (P : list A -> Prop) :
  P [] -> (forall a, P [a]) -> (forall a b, P [a; b]) ->
  (forall a b c l, P l -> P (a :: b :: c :: l)) -> forall l, P l.
Proof.
  intros H0 H1 H2 H3. fix IH 1. intros [|a [|b [|c l]]]; [assumption|auto|auto|].
  apply H3, IH.
Qed.

(** Injectivity of [Some] that leaves the argument as it is. *)
Lemma some_inj {A} (a b : A) : Some a = Some b -> a = b.
Proof. congruence. Qed.

(** Arithmetic with constant divisors. *)
Ltac lia_div := Z.to_euclidean_division_equations; lia.
