(* ===== verification/CStr.v ===== *)
(** * C strings

    The functions of the C library the modelled code calls on strings:
    [strlen], [strchr] and the digits [snprintf] writes for [%u], [%lu] and
    [%x].  A C string is the list of the bytes from the pointer on, its NUL
    among them. *)

From Stdlib Require Import ZArith Lia List Bool.
From S2P Require Import Prelude.
Import ListNotations.

Fixpoint strlen (s : list Z) : Z :=
  match s with
  | [] => 0
  | c :: s => if c =? 0 then 0 else 1 + strlen s
  end.

(** The digits [snprintf("%" PRIu64)] writes for a 64-bit [v]. *)
Fixpoint decimal_digits (fuel : nat) (v : Z) : list Z :=
  match fuel with
  | O => []
  | S fuel => (if v <? 10 then [] else decimal_digits fuel (v / 10)) ++ [48 + v mod 10]
  end.

Definition decimal (v : Z) : list Z := decimal_digits 20 v.

(** The digits [snprintf("%x")] writes for a 32-bit [v]. *)
Definition hex_digit (d : Z) : Z := if d <? 10 then 48 + d else 87 + d.

Fixpoint hex_digits (fuel : nat) (v : Z) : list Z :=
  match fuel with
  | O => []
  | S fuel => (if v <? 16 then [] else hex_digits fuel (v / 16)) ++ [hex_digit (v mod 16)]
  end.

Definition hexadecimal (v : Z) : list Z := hex_digits 8 v.

(** [strchr(s, c) - s] for a [c] other than NUL, or NULL. *)
Fixpoint strchr (s : list Z) (c : Z) : option Z :=
  match s with
  | [] => None
  | x :: s => if x =? c then Some 0 else if x =? 0 then None else option_map (Z.add 1) (strchr s c)
  end.

Lemma strlen_nonneg s : 0 <= strlen s.
Proof. induction s as [|a t IH]; cbn [strlen]; [lia|]. destruct (a =? 0); lia. Qed.

Lemma strlen_le_length s : strlen s <= Z.of_nat (length s).
Proof. induction s as [|c s IH]; cbn [strlen length]; [lia|]. destruct (c =? 0); lia. Qed.

(** A prefix of the text is a text. *)
Lemma strlen_prefix s n : 0 <= n <= strlen s -> strlen (firstn (Z.to_nat n) s ++ [0]) = n.
Proof.
  revert n. induction s as [|c s IH]; intros n Hn; cbn [strlen] in Hn.
  - assert (n = 0) by lia. now subst.
  - destruct (Z.eq_dec n 0) as [->|N]; [reflexivity|].
    destruct (Z.eqb_spec c 0) as [|Nc]; [lia|].
    replace (Z.to_nat n) with (S (Z.to_nat (n - 1))) by lia. cbn [firstn app strlen].
    destruct (Z.eqb_spec c 0); [contradiction|]. rewrite IH by lia. lia.
Qed.

Lemma strlen_app_nul l r : strlen (l ++ [0] ++ r) = strlen (l ++ [0]).
Proof. induction l as [|c l IH]; [reflexivity|]. cbn [app strlen] in *. now rewrite IH. Qed.

(** ** Decimal numbers *)

Lemma decimal_fuel f : forall g v, 0 <= v < 10 ^ Z.of_nat f -> v < 10 ^ Z.of_nat g -> (0 < f)%nat -> (0 < g)%nat ->
  decimal_digits f v = decimal_digits g v.
Proof.
  induction f as [|f IH]; intros [|g] v Hf Hg Pf Pg; try lia.
  rewrite Nat2Z.inj_succ, Z.pow_succ_r in * by lia. cbn [decimal_digits].
  destruct (Z.ltb_spec v 10); [reflexivity|]. f_equal.
  destruct f as [|f]; [change (10 ^ Z.of_nat 0) with 1 in *; lia|].
  destruct g as [|g]; [change (10 ^ Z.of_nat 0) with 1 in *; lia|].
  apply IH; lia_div || lia.
Qed.

Lemma decimal_unfold v :
  decimal v = (if v <? 10 then [] else decimal_digits 19 (v / 10)) ++ [48 + v mod 10].
Proof. reflexivity. Qed.

Lemma decimal_nonempty v : decimal v <> [].
Proof. rewrite decimal_unfold. intros E. apply app_eq_nil in E as [_ E]. discriminate E. Qed.

Lemma decimal_step v d :
  0 < v -> 0 <= d < 10 -> v * 10 + d < 2 ^ 64 -> decimal (v * 10 + d) = decimal v ++ [48 + d].
Proof.
  intros Hv Hd L. rewrite decimal_unfold. destruct (Z.ltb_spec (v * 10 + d) 10); [lia|].
  replace ((v * 10 + d) / 10) with v by lia_div. replace ((v * 10 + d) mod 10) with d by lia_div.
  unfold decimal. rewrite (decimal_fuel 19 20 v) by lia. reflexivity.
Qed.

Lemma decimal_digit d : 0 <= d < 10 -> decimal d = [48 + d].
Proof.
  intros Hd. rewrite decimal_unfold. destruct (Z.ltb_spec d 10); [|lia].
  now rewrite Z.mod_small by lia.
Qed.

Lemma decimal_digits_ok f v : 0 <= v -> Forall (fun b => 48 <= b <= 57) (decimal_digits f v).
Proof.
  revert v. induction f as [|f IH]; intros v Hv; cbn [decimal_digits]; [constructor|].
  apply Forall_app. split; [destruct (v <? 10); [constructor|apply IH; lia_div]|].
  constructor; [|constructor]. pose proof (Z.mod_pos_bound v 10). lia.
Qed.

Lemma decimal_ok v : 0 <= v -> Forall (fun b => 48 <= b <= 57) (decimal v).
Proof. apply decimal_digits_ok. Qed.

Lemma length_decimal_digits f v : (length (decimal_digits f v) <= f)%nat.
Proof.
  revert v. induction f as [|f IH]; intros v; cbn [decimal_digits]; [auto|].
  rewrite length_app. cbn [length]. destruct (v <? 10); [cbn; lia|]. specialize (IH (v / 10)). lia.
Qed.

Lemma strlen_no_nul l : Forall (fun b => b <> 0) l -> strlen (l ++ [0]) = Z.of_nat (length l).
Proof.
  induction 1 as [|b l Hb _ IH]; [reflexivity|]. cbn [app strlen length].
  destruct (Z.eqb_spec b 0); [contradiction|]. rewrite IH. lia.
Qed.

Lemma strlen_decimal v : 0 <= v -> strlen (decimal v ++ [0]) = Z.of_nat (length (decimal v)).
Proof. intros Hv. apply strlen_no_nul. eapply Forall_impl; [|apply decimal_ok, Hv]. intros b Hb. cbn in Hb. lia. Qed.

(** ** Hexadecimal numbers *)

Lemma hexadecimal_unfold v :
  hexadecimal v = (if v <? 16 then [] else hex_digits 7 (v / 16)) ++ [hex_digit (v mod 16)].
Proof. reflexivity. Qed.

Lemma hex_fuel f : forall g v, 0 <= v < 16 ^ Z.of_nat f -> v < 16 ^ Z.of_nat g -> (0 < f)%nat -> (0 < g)%nat ->
  hex_digits f v = hex_digits g v.
Proof.
  induction f as [|f IH]; intros [|g] v Hf Hg Pf Pg; try lia.
  rewrite Nat2Z.inj_succ, Z.pow_succ_r in * by lia. cbn [hex_digits].
  destruct (Z.ltb_spec v 16); [reflexivity|]. f_equal.
  destruct f as [|f]; [change (16 ^ Z.of_nat 0) with 1 in *; lia|].
  destruct g as [|g]; [change (16 ^ Z.of_nat 0) with 1 in *; lia|].
  apply IH; lia_div || lia.
Qed.

(** One digit more: an induction principle for what is printed. *)
Lemma hexadecimal_step v :
  16 <= v < 2 ^ 32 -> hexadecimal v = hexadecimal (v / 16) ++ [hex_digit (v mod 16)].
Proof.
  intros Hv. rewrite (hexadecimal_unfold v). destruct (Z.ltb_spec v 16); [lia|].
  unfold hexadecimal. rewrite (hex_fuel 7 8) by (lia_div || lia). reflexivity.
Qed.

Lemma hexadecimal_digit d : 0 <= d < 16 -> hexadecimal d = [hex_digit d].
Proof.
  intros Hd. rewrite hexadecimal_unfold. destruct (Z.ltb_spec d 16); [|lia]. now rewrite Z.mod_small by lia.
Qed.

(** The same for decimals. *)
Lemma decimal_step' v : 10 <= v < 2 ^ 64 -> decimal v = decimal (v / 10) ++ [48 + v mod 10].
Proof.
  intros Hv. replace v with (v / 10 * 10 + v mod 10) at 1 by lia_div.
  apply decimal_step; lia_div.
Qed.

Lemma strchr_in l c i : strchr l c = Some i -> 0 <= i < Z.of_nat (length l) /\ at_ l i = c.
Proof.
  revert i. induction l as [|x l IH]; intros i; cbn [strchr length]; [discriminate|].
  destruct (Z.eqb_spec x c) as [->|N]; [intros [= <-]; split; [lia|reflexivity]|].
  destruct (x =? 0); [discriminate|]. destruct (strchr l c) as [j|]; [|discriminate].
  cbn [option_map]. intros E%some_inj. subst i. destruct (IH j eq_refl) as [B E]. split; [lia|].
  unfold at_ in *. replace (Z.to_nat (1 + j)) with (S (Z.to_nat j)) by lia. exact E.
Qed.
