(* ===== verification/ConstTime.v ===== *)
(** * Constant-time word primitives

    The [static inline] helpers of BoringSSL's [crypto/internal.h] that
    [base64.c] and the record code build on, for [crypto_word_t] = 64 bits.
    Each returns an all-ones or all-zeros mask; the theorems say which. *)

From Stdlib Require Import ZArith Lia Bool Btauto.
From S2P Require Import Prelude.

(** ** Word operations of C *)

Definition not_w (w a : Z) : Z := wrap w (Z.lnot a).
Definition sub_w (w a b : Z) : Z := wrap w (a - b).
Definition add_w (w a b : Z) : Z := wrap w (a + b).

Definition CONSTTIME_TRUE_W : Z := not_w 64 0.
Definition CONSTTIME_FALSE_W : Z := 0.
Definition CONSTTIME_TRUE_8 : Z := 255.
Definition CONSTTIME_FALSE_8 : Z := 0.

(** The barriers are opaque to the optimiser and the identity on values. *)
Definition value_barrier_w (a : Z) : Z := a.

Definition constant_time_msb_w (a : Z) : Z := sub_w 64 0 (Z.shiftr a (64 - 1)).

Definition constant_time_lt_w (a b : Z) : Z :=
  constant_time_msb_w (Z.lxor a (Z.lor (Z.lxor a b) (Z.lxor (sub_w 64 a b) a))).

Definition constant_time_lt_8 (a b : Z) : Z := u8 (constant_time_lt_w a b).

Definition constant_time_ge_w (a b : Z) : Z := not_w 64 (constant_time_lt_w a b).

Definition constant_time_ge_8 (a b : Z) : Z := u8 (constant_time_ge_w a b).

Definition constant_time_is_zero_w (a : Z) : Z :=
  constant_time_msb_w (Z.land (not_w 64 a) (sub_w 64 a 1)).

Definition constant_time_is_zero_8 (a : Z) : Z := u8 (constant_time_is_zero_w a).

Definition constant_time_eq_w (a b : Z) : Z := constant_time_is_zero_w (Z.lxor a b).

Definition constant_time_eq_8 (a b : Z) : Z := u8 (constant_time_eq_w a b).

(** [int] arguments are converted to [crypto_word_t]: sign extension. *)
Definition constant_time_eq_int (a b : Z) : Z := constant_time_eq_w (u64 a) (u64 b).

Definition constant_time_eq_int_8 (a b : Z) : Z := constant_time_eq_8 (u64 a) (u64 b).

Definition constant_time_select_w (mask a b : Z) : Z :=
  Z.lor (Z.land (value_barrier_w mask) a) (Z.land (value_barrier_w (not_w 64 mask)) b).

(** The [uint8_t] mask is zero-extended, so [~mask] has its high bits set; they
    are cut off by the conversion of the result. *)
Definition constant_time_select_8 (mask a b : Z) : Z := u8 (constant_time_select_w mask a b).

Definition constant_time_select_int (mask a b : Z) : Z :=
  sint 32 (u32 (constant_time_select_w mask (u64 a) (u64 b))).

(** ** Masks *)

Definition mask (w : Z) (b : bool) : Z := if b then 2 ^ w - 1 else 0.

Lemma mask_ok w b : 0 <= w -> word_ok w (mask w b).
Proof. intros. assert (0 < 2 ^ w) by (apply Z.pow_pos_nonneg; lia). destruct b; unfold word_ok; cbn; lia. Qed.

Lemma not_w_eq w a : word_ok w a -> not_w w a = 2 ^ w - 1 - a.
Proof.
  intros H. unfold not_w, wrap, Z.lnot, word_ok in *.
  symmetry. apply Z.mod_unique with (-1); lia.
Qed.

Lemma not_w_ok w a : 0 <= w -> word_ok w (not_w w a).
Proof. unfold not_w. auto with word. Qed.

Lemma sub_w_ok w a b : 0 <= w -> word_ok w (sub_w w a b).
Proof. unfold sub_w. auto with word. Qed.

Lemma not_mask b : not_w 64 (mask 64 b) = mask 64 (negb b).
Proof. destruct b; reflexivity. Qed.

Lemma u8_mask b : u8 (mask 64 b) = mask 8 b.
Proof. destruct b; reflexivity. Qed.

Lemma land_mask_word w b a : 0 <= w -> word_ok w a -> Z.land (mask w b) a = if b then a else 0.
Proof.
  intros Hw Ha. destruct b; [|reflexivity].
  unfold mask. rewrite Z.land_comm, land_mask by lia. now apply Z.mod_small.
Qed.

Lemma log2_word w a : 0 < w -> word_ok w a -> Z.log2 a < w.
Proof.
  intros Hw Ha. unfold word_ok in Ha. destruct (Z.eq_dec a 0) as [->|]; [exact Hw|].
  apply Z.log2_lt_pow2; lia.
Qed.

Lemma word_ok_log2 w a : 0 <= a -> Z.log2 a < w -> word_ok w a.
Proof.
  intros Ha Hl. assert (0 <= w) by (pose proof (Z.log2_nonneg a); lia). split; [assumption|].
  destruct (Z.eq_dec a 0) as [->|]; [now apply Z.pow_pos_nonneg|].
  apply Z.log2_lt_pow2; lia.
Qed.

Section Bitwise.
Variable w : Z.
Hypothesis Hw : 0 < w.

Lemma lxor_ok a b : word_ok w a -> word_ok w b -> word_ok w (Z.lxor a b).
Proof.
  intros Ha Hb. pose proof (log2_word w a Hw Ha). pose proof (log2_word w b Hw Hb).
  apply word_ok_log2.
  - unfold word_ok in *. apply Z.lxor_nonneg. lia.
  - pose proof (Z.log2_lxor a b). unfold word_ok in *. lia.
Qed.

Lemma lor_ok a b : word_ok w a -> word_ok w b -> word_ok w (Z.lor a b).
Proof.
  intros Ha Hb. pose proof (log2_word w a Hw Ha). pose proof (log2_word w b Hw Hb).
  apply word_ok_log2.
  - unfold word_ok in *. apply Z.lor_nonneg. lia.
  - unfold word_ok in *. rewrite Z.log2_lor; lia.
Qed.

Lemma land_ok a b : word_ok w a -> word_ok w b -> word_ok w (Z.land a b).
Proof.
  intros Ha Hb. pose proof (log2_word w a Hw Ha).
  apply word_ok_log2.
  - unfold word_ok in *. apply Z.land_nonneg. lia.
  - pose proof (Z.log2_land a b). unfold word_ok in *. lia.
Qed.
End Bitwise.

#[export] Hint Resolve not_w_ok sub_w_ok lxor_ok lor_ok land_ok mask_ok : word.
#[export] Hint Extern 1 (0 < _) => lia : word.
#[export] Hint Extern 1 (0 <= _) => lia : word.

(** ** What the primitives compute *)

Lemma constant_time_msb_w_spec a :
  word_ok 64 a -> constant_time_msb_w a = mask 64 (Z.testbit a 63).
Proof.
  intros Ha. rewrite (testbit_top 64) by (auto; lia). unfold constant_time_msb_w.
  rewrite Z.shiftr_div_pow2 by lia. change (64 - 1) with 63. unfold word_ok in Ha.
  destruct (Z.leb_spec (2 ^ 63) a).
  - replace (a / 2 ^ 63) with 1; [reflexivity|]. apply Z.div_unique with (a - 2 ^ 63); lia.
  - rewrite Z.div_small by lia. reflexivity.
Qed.

Lemma constant_time_lt_w_spec a b :
  word_ok 64 a -> word_ok 64 b -> constant_time_lt_w a b = mask 64 (a <? b).
Proof.
  intros Ha Hb. unfold constant_time_lt_w.
  rewrite constant_time_msb_w_spec by auto 10 with word. f_equal.
  rewrite Z.lxor_spec, Z.lor_spec, !Z.lxor_spec.
  rewrite !(testbit_top 64) by auto with word. change (64 - 1) with 63.
  assert (Hs : sub_w 64 a b = if a <? b then a - b + 2 ^ 64 else a - b).
  { unfold sub_w, wrap, word_ok in *. destruct (Z.ltb_spec a b).
    - symmetry. apply Z.mod_unique with (-1); lia.
    - apply Z.mod_small. lia. }
  rewrite Hs. unfold word_ok in *.
  destruct (Z.ltb_spec a b), (Z.leb_spec (2 ^ 63) a), (Z.leb_spec (2 ^ 63) b); cbn [xorb orb];
    try lia; destruct (Z.leb_spec (2 ^ 63) (a - b + 2 ^ 64)), (Z.leb_spec (2 ^ 63) (a - b));
    cbn; try reflexivity; lia.
Qed.

Lemma constant_time_is_zero_w_spec a :
  word_ok 64 a -> constant_time_is_zero_w a = mask 64 (a =? 0).
Proof.
  intros Ha. unfold constant_time_is_zero_w.
  rewrite constant_time_msb_w_spec by auto with word. f_equal.
  rewrite Z.land_spec, !(testbit_top 64) by auto with word.
  rewrite not_w_eq by assumption. change (64 - 1) with 63. unfold word_ok in Ha.
  destruct (Z.eqb_spec a 0) as [->|]; [reflexivity|].
  unfold sub_w. rewrite wrap_small by (unfold word_ok; lia).
  destruct (Z.leb_spec (2 ^ 63) (2 ^ 64 - 1 - a)), (Z.leb_spec (2 ^ 63) (a - 1)); cbn; lia.
Qed.

Lemma constant_time_eq_w_spec a b :
  word_ok 64 a -> word_ok 64 b -> constant_time_eq_w a b = mask 64 (a =? b).
Proof.
  intros Ha Hb. unfold constant_time_eq_w.
  rewrite constant_time_is_zero_w_spec by auto with word. f_equal.
  destruct (Z.eqb_spec a b) as [->|Hn]; [now rewrite Z.lxor_nilpotent|].
  apply Z.eqb_neq. intros H. now apply Hn, Z.lxor_eq.
Qed.

Lemma constant_time_select_w_spec c a b :
  word_ok 64 a -> word_ok 64 b -> constant_time_select_w (mask 64 c) a b = if c then a else b.
Proof.
  intros Ha Hb. unfold constant_time_select_w, value_barrier_w.
  rewrite not_mask, !land_mask_word by auto with word.
  destruct c; cbn [negb]; [apply Z.lor_0_r|apply Z.lor_0_l].
Qed.

Lemma constant_time_select_8_spec c a b :
  byte_ok a -> byte_ok b -> constant_time_select_8 (mask 8 c) a b = if c then a else b.
Proof.
  intros Ha Hb. destruct c; unfold constant_time_select_8, constant_time_select_w, value_barrier_w.
  - change (not_w 64 (mask 8 true)) with (Z.shiftl (2 ^ 56 - 1) 8).
    rewrite land_mask_word by auto with word. unfold wrap.
    apply Z.bits_inj'. intros i Hi. destruct (Z.lt_ge_cases i 8).
    + rewrite Z.mod_pow2_bits_low, Z.lor_spec, Z.land_spec, Z.shiftl_spec_low by lia.
      apply orb_false_r.
    + rewrite Z.mod_pow2_bits_high by lia. symmetry. rewrite <- (wrap_small 8 a) by assumption.
      apply Z.mod_pow2_bits_high. lia.
  - change (mask 8 false) with (mask 64 false). rewrite not_mask, !land_mask_word.
    + cbn [negb]. rewrite Z.lor_0_l. now apply wrap_small.
    + lia.
    + unfold word_ok in *. lia.
    + lia.
    + unfold word_ok in *. lia.
Qed.

(** The comparison masks of the header, at both widths. *)
Theorem constant_time_comparisons (a b : Z) (Ha : word_ok 64 a) (Hb : word_ok 64 b) :
  constant_time_lt_w a b = mask 64 (a <? b) /\
  constant_time_ge_w a b = mask 64 (b <=? a) /\
  constant_time_eq_w a b = mask 64 (a =? b) /\
  constant_time_lt_8 a b = mask 8 (a <? b) /\
  constant_time_ge_8 a b = mask 8 (b <=? a) /\
  constant_time_eq_8 a b = mask 8 (a =? b) /\
  forall c, constant_time_select_w (mask 64 c) a b = if c then a else b.
Proof.
  unfold constant_time_lt_8, constant_time_ge_8, constant_time_eq_8, constant_time_ge_w.
  rewrite constant_time_lt_w_spec, constant_time_eq_w_spec, not_mask, !u8_mask by assumption.
  rewrite Z.leb_antisym. auto 10 using constant_time_select_w_spec.
Qed.
