(* ===== verification/Endian.v ===== *)
(** * Byte order and rotations ([crypto/internal.h])

    Loads and stores of words in either byte order, for a little-endian
    machine on which [memcpy] of a word is its little-endian encoding, the byte
    swaps they are made of, and the rotations of the hash functions and
    ciphers. *)

From Stdlib Require Import ZArith Lia List Bool.
From S2P Require Import Prelude.
Import ListNotations.

(** ** Definitions *)

Definition CRYPTO_bswap2 (x : Z) : Z := Z.lor (Z.shiftr x 8) (u16 (Z.shiftl x 8)).

Definition CRYPTO_bswap4 (x : Z) : Z :=
  let x := Z.lor (Z.shiftr x 16) (u32 (Z.shiftl x 16)) in
  Z.lor (Z.shiftr (Z.land x 4278255360) 8) (u32 (Z.shiftl (Z.land x 16711935) 8)).

Definition CRYPTO_bswap8 (x : Z) : Z :=
  Z.lor (CRYPTO_bswap4 (Z.shiftr x 32)) (u64 (Z.shiftl (CRYPTO_bswap4 (u32 x)) 32)).

Definition CRYPTO_rotl_u32 (value shift : Z) : Z :=
  Z.lor (u32 (Z.shiftl value shift)) (Z.shiftr value (Z.land (- shift) 31)).

Definition CRYPTO_rotr_u32 (value shift : Z) : Z :=
  Z.lor (Z.shiftr value shift) (u32 (Z.shiftl value (Z.land (- shift) 31))).

Definition CRYPTO_rotr_u64 (value shift : Z) : Z :=
  Z.lor (Z.shiftr value shift) (u64 (Z.shiftl value (Z.land (- shift) 63))).

Definition CRYPTO_load_u32_le (b : list Z) : Z := le_val (firstn 4 b).

Definition CRYPTO_store_u32_le (v : Z) : list Z := le_bytes 4 v.

Definition CRYPTO_load_u32_be (b : list Z) : Z := CRYPTO_bswap4 (le_val (firstn 4 b)).

Definition CRYPTO_store_u32_be (v : Z) : list Z := le_bytes 4 (CRYPTO_bswap4 v).

Definition CRYPTO_load_u64_be (b : list Z) : Z := CRYPTO_bswap8 (le_val (firstn 8 b)).

Definition CRYPTO_store_u64_be (v : Z) : list Z := le_bytes 8 (CRYPTO_bswap8 v).

(** ** Byte swaps *)

Lemma land_ff00ff y : Z.land y 16711935 = y / 65536 mod 256 * 65536 + y mod 256.
Proof.
  change 16711935 with (Z.lor (Z.shiftl (2 ^ 8 - 1) 16) (2 ^ 8 - 1)).
  rewrite Z.land_lor_distr_r, (land_mask y 8) by lia.
  replace (Z.land y (Z.shiftl (2 ^ 8 - 1) 16)) with (Z.shiftl (y / 65536 mod 256) 16).
  - rewrite shiftl_lor_add; [reflexivity|lia|lia_div].
  - change (y / 65536 mod 256) with (y / 2 ^ 16 mod 2 ^ 8).
    rewrite <- (land_mask (y / 2 ^ 16) 8), <- (Z.shiftr_div_pow2 y 16), Z.shiftl_land by lia.
    apply Z.bits_inj'. intros i Hi. rewrite !Z.land_spec.
    destruct (Z.lt_ge_cases i 16).
    + rewrite (Z.shiftl_spec_low (2 ^ 8 - 1)) by lia. now rewrite !andb_false_r.
    + rewrite (Z.shiftl_spec_high (Z.shiftr y 16)), Z.shiftr_spec by lia. do 2 f_equal. lia.
Qed.

Lemma bswap2_spec a b : byte_ok a -> byte_ok b -> CRYPTO_bswap2 (be_val [a; b]) = le_val [a; b].
Proof.
  unfold word_ok. intros Ha Hb. unfold CRYPTO_bswap2, be_val, wrap. cbn [fold_left le_val].
  rewrite Z.shiftr_div_pow2, Z.shiftl_mul_pow2 by lia.
  replace (((0 * 256 + a) * 256 + b) / 2 ^ 8) with a by lia_div.
  replace (((0 * 256 + a) * 256 + b) * 2 ^ 8 mod 2 ^ 16) with (b * 2 ^ 8) by lia_div.
  rewrite <- Z.shiftl_mul_pow2, Z.lor_comm, shiftl_lor_add by lia. lia.
Qed.

Lemma bswap4_spec a b c d :
  byte_ok a -> byte_ok b -> byte_ok c -> byte_ok d ->
  CRYPTO_bswap4 (be_val [a; b; c; d]) = le_val [a; b; c; d].
Proof.
  unfold word_ok. intros Ha Hb Hc Hd. unfold CRYPTO_bswap4, be_val, wrap. cbn [fold_left le_val].
  set (x := (((0 * 256 + a) * 256 + b) * 256 + c) * 256 + d).
  rewrite (Z.shiftr_div_pow2 x), (Z.shiftl_mul_pow2 x) by lia.
  replace (x / 2 ^ 16) with (a * 256 + b) by (unfold x; lia_div).
  replace (x * 2 ^ 16 mod 2 ^ 32) with ((c * 256 + d) * 2 ^ 16) by (unfold x; lia_div).
  rewrite <- (Z.shiftl_mul_pow2 (c * 256 + d)), (Z.lor_comm (a * 256 + b)), shiftl_lor_add by lia.
  cbv zeta. clear x.
  set (y := (c * 256 + d) * 2 ^ 16 + (a * 256 + b)).
  change 4278255360 with (Z.shiftl 16711935 8).
  replace (Z.shiftr (Z.land y (Z.shiftl 16711935 8)) 8) with (Z.land (Z.shiftr y 8) 16711935)
    by (rewrite Z.shiftr_land; now rewrite Z.shiftr_shiftl_l by lia).
  rewrite !land_ff00ff, Z.shiftr_div_pow2, (Z.shiftl_mul_pow2 _ 8) by lia.
  replace (y / 2 ^ 8 / 65536 mod 256) with c by (unfold y; lia_div).
  replace (y / 2 ^ 8 mod 256) with a by (unfold y; lia_div).
  replace (y / 65536 mod 256) with d by (unfold y; lia_div).
  replace (y mod 256) with b by (unfold y; lia_div).
  rewrite (Z.mod_small ((d * 65536 + b) * 2 ^ 8)) by lia.
  replace ((d * 65536 + b) * 2 ^ 8) with (d * 2 ^ 24 + b * 256) by lia.
  rewrite <- (shiftl_lor_add d (b * 256) 24) by lia.
  change 65536 with (2 ^ 16). rewrite <- (shiftl_lor_add c a 16) by lia.
  replace (b * 256) with (Z.shiftl b 8) by (rewrite Z.shiftl_mul_pow2; lia).
  rewrite Z.lor_comm, <- Z.lor_assoc, (Z.lor_comm (Z.shiftl b 8)), <- Z.lor_assoc, (Z.lor_comm a).
  rewrite (shiftl_lor_add b a), (shiftl_lor_add c), (shiftl_lor_add d) by lia. lia.
Qed.

Lemma bswap8_spec l :
  length l = 8%nat -> bytes_ok l -> CRYPTO_bswap8 (be_val l) = le_val l.
Proof.
  intros L Hl. destruct l as [|a [|b [|c [|d r]]]]; try discriminate.
  assert (Hh : bytes_ok [a; b; c; d] /\ bytes_ok r).
  { now apply (Forall_app (word_ok 8) [a; b; c; d] r). }
  destruct Hh as [Hh Hr]. cbn [length] in L. injection L as L.
  change (a :: b :: c :: d :: r) with ([a; b; c; d] ++ r).
  pose proof (be_val_bound _ Hh) as Bh. pose proof (be_val_bound _ Hr) as Br. rewrite L in Br.
  cbn [length] in Bh. change (256 ^ Z.of_nat 4) with (2 ^ 32) in *.
  assert (S : be_val ([a; b; c; d] ++ r) = be_val [a; b; c; d] * 2 ^ 32 + be_val r).
  { cbn [app]. rewrite !be_val_cons. cbn [length]. rewrite L. cbn. lia. }
  unfold CRYPTO_bswap8. rewrite S, Z.shiftr_div_pow2, Z.div_add_l, (Z.div_small (be_val r)), Z.add_0_r by lia.
  replace (u32 (be_val [a; b; c; d] * 2 ^ 32 + be_val r)) with (be_val r).
  2: { revert Br. generalize (be_val r) (be_val [a; b; c; d]). intros x y Br. unfold wrap. lia_div. }
  rewrite Forall_forall in Hh. rewrite bswap4_spec by (apply Hh; cbn; auto).
  rewrite <- Forall_forall in Hh.
  destruct r as [|e [|f [|g [|h [|]]]]]; try discriminate.
  rewrite Forall_forall in Hr. rewrite bswap4_spec by (apply Hr; cbn; auto).
  rewrite <- Forall_forall in Hr.
  pose proof (le_val_bound _ Hh). pose proof (le_val_bound _ Hr). cbn [length] in *.
  rewrite wrap_small by (unfold word_ok; rewrite Z.shiftl_mul_pow2; lia).
  rewrite Z.lor_comm, shiftl_lor_add, (le_val_app [a; b; c; d]) by lia. cbn [length]. lia.
Qed.

(** ** Loads and stores *)

Lemma le_bytes_le_val l : bytes_ok l -> le_bytes (length l) (le_val l) = l.
Proof.
  induction 1 as [|b l Hb _ IH]; [reflexivity|]. cbn [length le_bytes le_val]. rewrite byte_ok_iff in Hb.
  f_equal; [lia_div|]. replace (_ / 256) with (le_val l) by lia_div. exact IH.
Qed.

Lemma bswap4_le l : length l = 4%nat -> bytes_ok l -> CRYPTO_bswap4 (le_val l) = be_val l.
Proof.
  intros L H. rewrite <- (rev_involutive l), le_val_rev.
  destruct l as [|a [|b [|c [|d [|]]]]]; try discriminate. cbn [rev app].
  rewrite !Forall_cons_iff in H. destruct H as (Ha & Hb & Hc & Hd & _).
  rewrite bswap4_spec by assumption. change [d; c; b; a] with (rev [a; b; c; d]). apply le_val_rev.
Qed.

Lemma bswap8_le l : length l = 8%nat -> bytes_ok l -> CRYPTO_bswap8 (le_val l) = be_val l.
Proof.
  intros L H. rewrite <- (rev_involutive l), le_val_rev, bswap8_spec, le_val_rev, rev_involutive; [reflexivity| |].
  - now rewrite length_rev.
  - now apply Forall_rev.
Qed.

Lemma load_u32_be_spec b : (4 <= length b)%nat -> bytes_ok b -> CRYPTO_load_u32_be b = be_val (firstn 4 b).
Proof. intros L H. apply bswap4_le; [rewrite length_firstn; lia|now apply bytes_ok_firstn]. Qed.

Lemma load_u64_be_spec b : (8 <= length b)%nat -> bytes_ok b -> CRYPTO_load_u64_be b = be_val (firstn 8 b).
Proof. intros L H. apply bswap8_le; [rewrite length_firstn; lia|now apply bytes_ok_firstn]. Qed.

Lemma le_bytes_be_val l : bytes_ok l -> le_bytes (length l) (be_val l) = rev l.
Proof.
  intros H. rewrite <- (le_val_rev l), <- (length_rev l). apply le_bytes_le_val. now apply Forall_rev.
Qed.

Lemma store_u32_be_spec v : word_ok 32 v -> CRYPTO_store_u32_be v = be_bytes 4 v.
Proof.
  intros H. unfold CRYPTO_store_u32_be.
  replace v with (le_val (le_bytes 4 v)) at 1 by (rewrite le_val_le_bytes; now apply Z.mod_small).
  rewrite bswap4_le by (apply length_le_bytes || apply le_bytes_ok).
  rewrite <- (length_le_bytes 4 v) at 1. rewrite le_bytes_be_val by apply le_bytes_ok. apply rev_le_bytes.
Qed.

Lemma store_u64_be_spec v : word_ok 64 v -> CRYPTO_store_u64_be v = be_bytes 8 v.
Proof.
  intros H. unfold CRYPTO_store_u64_be.
  replace v with (le_val (le_bytes 8 v)) at 1 by (rewrite le_val_le_bytes; now apply Z.mod_small).
  rewrite bswap8_le by (apply length_le_bytes || apply le_bytes_ok).
  rewrite <- (length_le_bytes 8 v) at 1. rewrite le_bytes_be_val by apply le_bytes_ok. apply rev_le_bytes.
Qed.
