(* ===== verification/Mem.v ===== *)
(** * Memory and C-string helpers: BoringSSL's [crypto/mem.c]

    [malloc] of the C library is a parameter: a request of [n] bytes gives a
    block of [n] bytes of arbitrary contents, or nothing.  A block made by
    [OPENSSL_malloc] carries the size stored in its 8-byte prefix.  The
    [OPENSSL_memory_*] hooks are weak symbols only on ELF targets; on the
    app's platform they are null pointers, so the branches that call them are
    not taken.  A C string is the list of its bytes; the list's end stands for
    its NUL when it holds none. *)

From Stdlib Require Import ZArith Lia List Bool.
From S2P Require Import Prelude CStr ConstTime.
Import ListNotations.

Record block := mk_block {
  blk_size : Z;          (* the size_t in the prefix *)
  blk_bytes : list Z     (* what the returned pointer points to *)
}.

Definition OPENSSL_MALLOC_PREFIX : Z := 8.

(** ** C strings *)

Definition schar (c : Z) : Z := sint 8 c.

Fixpoint strnlen_loop (s : list Z) (i : Z) (n : nat) : option Z :=
  match n with
  | O => None
  | S n => if at_ s i =? 0 then Some i else strnlen_loop s (i + 1) n
  end.

Definition OPENSSL_strnlen (s : list Z) (len : Z) : Z :=
  match strnlen_loop s 0 (Z.to_nat len) with Some i => i | None => len end.

Definition OPENSSL_tolower (c : Z) : Z :=
  if (65 <=? c) && (c <=? 90) then c + (97 - 65) else c.

(** The loop shared by [OPENSSL_strcasecmp] and [OPENSSL_strncasecmp]; [n]
    rounds, then 0. *)
Fixpoint strcasecmp_loop (n : nat) (i : Z) (a b : list Z) : Z :=
  match n with
  | O => 0
  | S n =>
      let aa := OPENSSL_tolower (schar (at_ a i)) in
      let bb := OPENSSL_tolower (schar (at_ b i)) in
      if aa <? bb then -1
      else if bb <? aa then 1
      else if aa =? 0 then 0
      else strcasecmp_loop n (i + 1) a b
  end.

(** The unbounded loop ends at the NUL of [a] at the latest. *)
Definition OPENSSL_strcasecmp (a b : list Z) : Z := strcasecmp_loop (S (length a)) 0 a b.

Definition OPENSSL_strncasecmp (a b : list Z) (n : Z) : Z := strcasecmp_loop (Z.to_nat n) 0 a b.

(** [(dst', characters copied, what is left of src)] for
    [for (; dst_size > 1 && *src; dst_size--) *dst++ = *src++]. *)
Fixpoint strlcpy_loop (dst src : list Z) (dst_size : Z) {struct src} : list Z * Z * list Z :=
  match src, dst with
  | c :: src', _ :: dst' =>
      if (1 <? dst_size) && negb (c =? 0) then
        let '(d, l, r) := strlcpy_loop dst' src' (dst_size - 1) in (c :: d, l + 1, r)
      else
        (if negb (dst_size =? 0) then 0 :: dst' else dst, 0, src)
  | _, _ => (if negb (dst_size =? 0) then set_nth 0 0 dst else dst, 0, src)
  end.

Definition OPENSSL_strlcpy (dst src : list Z) (dst_size : Z) : list Z * Z :=
  let '(d, l, r) := strlcpy_loop dst src dst_size in (d, l + strlen r).

Fixpoint OPENSSL_strlcat (dst src : list Z) (dst_size : Z) : list Z * Z :=
  match dst with
  | c :: dst' =>
      if (0 <? dst_size) && negb (c =? 0) then
        let (d, n) := OPENSSL_strlcat dst' src (dst_size - 1) in (c :: d, n + 1)
      else OPENSSL_strlcpy dst src dst_size
  | [] => OPENSSL_strlcpy [] src dst_size
  end.

(** ** Comparison and hashing *)

Fixpoint memcmp_loop (x : Z) (a b : list Z) (len : nat) : Z :=
  match len with
  | O => x
  | S len => memcmp_loop (Z.lor x (Z.lxor (hd 0 a) (hd 0 b))) (tl a) (tl b) len
  end.

Definition CRYPTO_memcmp (a b : list Z) (len : Z) : Z := memcmp_loop 0 a b (Z.to_nat len).

Definition OPENSSL_hash32 (ptr : list Z) (len : Z) : Z :=
  fold_left (fun h b => u32 (Z.lxor h b * 16777619)) (firstn (Z.to_nat len) ptr) 2166136261.

Definition OPENSSL_strhash (s : list Z) : Z := OPENSSL_hash32 s (strlen s).

(** ** Allocation *)

Section Alloc.
Variable malloc : Z -> option (list Z).

Definition OPENSSL_malloc (size : Z) : option block :=
  if size_t (size + OPENSSL_MALLOC_PREFIX) <? size then None
  else
    match malloc (size_t (size + OPENSSL_MALLOC_PREFIX)) with
    | None => None
    | Some ptr => Some (mk_block size (skipn (Z.to_nat OPENSSL_MALLOC_PREFIX) ptr))
    end.

Definition OPENSSL_realloc (orig : option block) (new_size : Z) : option block :=
  match orig with
  | None => OPENSSL_malloc new_size
  | Some b =>
      let old_size := blk_size b in
      match OPENSSL_malloc new_size with
      | None => None
      | Some ret =>
          let to_copy := if old_size <? new_size then old_size else new_size in
          Some (mk_block (blk_size ret)
                  (splice 0 (firstn (Z.to_nat to_copy) (blk_bytes b)) (blk_bytes ret)))
      end
  end.

(** [data] points to at least [size] bytes. *)
Definition OPENSSL_memdup (data : list Z) (size : Z) : option block :=
  if size =? 0 then None
  else
    match OPENSSL_malloc size with
    | None => None
    | Some ret =>
        Some (mk_block (blk_size ret) (splice 0 (firstn (Z.to_nat size) data) (blk_bytes ret)))
    end.

Definition OPENSSL_strdup (s : option (list Z)) : option block :=
  match s with
  | None => None
  | Some s =>
      let len := size_t (strlen s + 1) in
      match OPENSSL_malloc len with
      | None => None
      | Some ret =>
          Some (mk_block (blk_size ret)
                  (splice 0 (firstn (Z.to_nat (len - 1)) s ++ [0]) (blk_bytes ret)))
      end
  end.

Definition OPENSSL_strndup (str : list Z) (size : Z) : option block :=
  let size := OPENSSL_strnlen str size in
  let alloc_size := size_t (size + 1) in
  if alloc_size <? size then None
  else
    match OPENSSL_malloc alloc_size with
    | None => None
    | Some ret =>
        let bytes := splice 0 (firstn (Z.to_nat size) str) (blk_bytes ret) in
        Some (mk_block (blk_size ret) (set_nth (Z.to_nat size) 0 bytes))
    end.
End Alloc.

(** What the C standard says of [malloc]. *)
Definition malloc_ok (malloc : Z -> option (list Z)) : Prop :=
  forall n p, malloc n = Some p -> Z.of_nat (length p) = n.

(** A [malloc] that never fails and clears its blocks, for the examples. *)
Definition zero_malloc (n : Z) : option (list Z) :=
  if n <? 0 then None else Some (repeat 0 (Z.to_nat n)).

(** A block holds as many bytes as its prefix says. *)
Definition block_ok (b : block) : Prop := Z.of_nat (length (blk_bytes b)) = blk_size b.

Section AllocFacts.
Variable malloc : Z -> option (list Z).
Hypothesis Hm : malloc_ok malloc.

Lemma OPENSSL_malloc_ok n b :
  word_ok 64 n -> OPENSSL_malloc malloc n = Some b -> block_ok b /\ blk_size b = n.
Proof.
  unfold OPENSSL_malloc, OPENSSL_MALLOC_PREFIX, word_ok. intros Hn.
  destruct (Z.ltb_spec (size_t (n + 8)) n) as [|H]; [discriminate|].
  assert (E : size_t (n + 8) = n + 8).
  { destruct (Z.lt_ge_cases (n + 8) (2 ^ 64)); [apply wrap_small; unfold word_ok; lia|].
    replace (size_t (n + 8)) with (n + 8 - 2 ^ 64) in H by (apply Z.mod_unique with 1; lia). lia. }
  rewrite E. destruct (malloc (n + 8)) as [p|] eqn:Ep; [|discriminate].
  intros H'. apply some_inj in H' as <-.
  apply Hm in Ep. unfold block_ok. cbn [blk_size blk_bytes]. rewrite length_skipn.
  change (Z.to_nat 8) with 8%nat. lia.
Qed.

Lemma OPENSSL_realloc_ok b n b' :
  block_ok b -> word_ok 64 n -> OPENSSL_realloc malloc (Some b) n = Some b' ->
  block_ok b' /\ blk_size b' = n /\
  forall k, Z.of_nat k <= n -> Z.of_nat k <= blk_size b ->
    firstn k (blk_bytes b') = firstn k (blk_bytes b).
Proof.
  intros Hb Hn. unfold OPENSSL_realloc, block_ok in *.
  destruct (OPENSSL_malloc malloc n) as [ret|] eqn:E; [|discriminate]. intros [= <-].
  apply OPENSSL_malloc_ok in E as [Er Es]; [|assumption]. unfold block_ok in Er.
  cbn [blk_size blk_bytes]. set (m := Z.to_nat (if blk_size b <? n then blk_size b else n)).
  assert (Hm' : (m <= length (blk_bytes b))%nat /\ (m <= length (blk_bytes ret))%nat /\
                forall k, Z.of_nat k <= n -> Z.of_nat k <= blk_size b -> (k <= m)%nat).
  { unfold m, word_ok in *. destruct (Z.ltb_spec (blk_size b) n); repeat split; intros; lia. }
  destruct Hm' as (M1 & M2 & M3). repeat split; [|assumption|].
  - rewrite length_splice; [lia|]. rewrite length_firstn. lia.
  - intros k K1 K2. specialize (M3 k K1 K2). unfold splice. cbn [firstn app].
    rewrite firstn_app, firstn_firstn, length_firstn.
    replace (k - Nat.min m (length (blk_bytes b)))%nat with O by lia.
    rewrite firstn_O, app_nil_r. f_equal. lia.
Qed.
End AllocFacts.

(** ** Correctness of the string and memory helpers *)

Lemma memcmp_loop_zero x a b n :
  0 <= x -> (n <= length a)%nat -> (n <= length b)%nat -> bytes_ok a -> bytes_ok b ->
  memcmp_loop x a b n = 0 <-> x = 0 /\ firstn n a = firstn n b.
Proof.
  revert x a b. induction n as [|n IH]; intros x a b Hx Ha Hb Oa Ob; cbn [memcmp_loop].
  - cbn. intuition.
  - destruct a as [|c a], b as [|d b]; cbn in Ha, Hb; try lia. cbn [hd tl firstn].
    inversion Oa as [|? ? Oc Oa']; inversion Ob as [|? ? Od Ob']; subst. unfold word_ok in *.
    assert (Hxor : 0 <= Z.lxor c d) by (apply Z.lxor_nonneg; lia).
    rewrite IH by (auto; try lia; apply Z.lor_nonneg; lia).
    rewrite Z.lor_eq_0_iff, Z.lxor_eq_0_iff. split.
    + intros [[-> ->] ->]. auto.
    + intros [-> [= -> ->]]. auto.
Qed.

Lemma strnlen_loop_spec s i n :
  0 <= i ->
  match strnlen_loop s i n with
  | Some k => i <= k < i + Z.of_nat n /\ at_ s k = 0 /\ forall j, i <= j < k -> at_ s j <> 0
  | None => forall j, i <= j < i + Z.of_nat n -> at_ s j <> 0
  end.
Proof.
  revert i. induction n as [|n IH]; intros i Hi; cbn [strnlen_loop]; [intros; lia|].
  destruct (Z.eqb_spec (at_ s i) 0) as [E|E]; [split; [lia|split; [assumption|lia]]|].
  specialize (IH (i + 1) ltac:(lia)). destruct (strnlen_loop s (i + 1) n) as [k|].
  - destruct IH as (H1 & H2 & H3). split; [lia|]. split; [assumption|].
    intros j Hj. destruct (Z.eq_dec j i) as [->|]; [assumption|apply H3; lia].
  - intros j Hj. destruct (Z.eq_dec j i) as [->|]; [assumption|apply IH; lia].
Qed.

Lemma OPENSSL_strnlen_le s n : 0 <= n -> 0 <= OPENSSL_strnlen s n <= n.
Proof.
  intros Hn. unfold OPENSSL_strnlen. pose proof (strnlen_loop_spec s 0 (Z.to_nat n) ltac:(lia)) as H.
  destruct (strnlen_loop s 0 (Z.to_nat n)); [destruct H as [H _]|]; lia.
Qed.

Lemma splice_0 src p : (length src <= length p)%nat -> splice 0 src p = src ++ skipn (length src) p.
Proof. reflexivity. Qed.

Lemma strlcpy_loop_spec dst src n :
  0 <= n <= Z.of_nat (length dst) ->
  let '(d, l, r) := strlcpy_loop dst src n in
  length d = length dst /\ l + strlen r = strlen src /\
  (0 < n -> l = Z.min (strlen src) (n - 1) /\
            firstn (Z.to_nat (l + 1)) d = firstn (Z.to_nat l) src ++ [0]) /\
  (n = 0 -> d = dst).
Proof.
  revert dst n. induction src as [|c src IH]; intros dst n Hn.
  - cbn [strlcpy_loop strlen]. destruct (Z.eqb_spec n 0) as [->|N]; cbn [negb].
    + split; [reflexivity|]. split; [lia|]. split; [lia|reflexivity].
    + rewrite length_set_nth. split; [reflexivity|]. split; [lia|]. split; [|lia].
      intros _. split; [lia|]. destruct dst; cbn in *; [lia|reflexivity].
  - pose proof (strlen_nonneg src) as Hnn. destruct dst as [|x dst].
    + assert (n = 0) by (cbn in Hn; lia). subst.
      split; [reflexivity|]. split; [reflexivity|]. split; [lia|reflexivity].
    + cbn [strlcpy_loop]. destruct (Z.ltb_spec 1 n) as [H1|H1]; cbn [andb].
      * cbn [strlen]. destruct (Z.eqb_spec c 0) as [->|Hc]; cbn [negb].
        -- destruct (Z.eqb_spec n 0); [lia|]. split; [reflexivity|]. split; [reflexivity|].
           split; [|lia]. intros _. split; [lia|reflexivity].
        -- specialize (IH dst (n - 1) ltac:(cbn [length] in Hn; lia)).
           destruct (strlcpy_loop dst src (n - 1)) as [[d l] r].
           destruct IH as (L & S & P & _). destruct (P ltac:(lia)) as [P1 P2].
           split; [cbn [length]; lia|]. split; [lia|]. split; [|lia]. intros _. split; [lia|].
           replace (Z.to_nat (l + 1 + 1)) with (Datatypes.S (Z.to_nat (l + 1))) by lia.
           replace (Z.to_nat (l + 1)) with (Datatypes.S (Z.to_nat l)) at 2 by lia.
           cbn [firstn app]. now rewrite P2.
      * destruct (Z.eqb_spec n 0) as [->|N]; cbn [negb].
        -- split; [reflexivity|]. split; [reflexivity|]. split; [lia|reflexivity].
        -- assert (n = 1) by lia. subst. split; [reflexivity|]. split; [reflexivity|].
           split; [|lia]. intros _. split; [|reflexivity].
           cbn [strlen]. destruct (c =? 0); lia.
Qed.

Lemma zero_malloc_ok : malloc_ok zero_malloc.
Proof.
  intros n p. unfold zero_malloc. destruct (Z.ltb_spec n 0); [discriminate|].
  intros H'. apply some_inj in H' as <-. rewrite repeat_length. lia.
Defined.

Lemma OPENSSL_memdup_spec malloc data n b :
  malloc_ok malloc -> word_ok 64 n -> (Z.to_nat n <= length data)%nat ->
  OPENSSL_memdup malloc data n = Some b ->
  blk_bytes b = firstn (Z.to_nat n) data /\ blk_size b = n.
Proof.
  intros Hm Hn Hd. unfold OPENSSL_memdup. destruct (Z.eqb_spec n 0); [discriminate|].
  destruct (OPENSSL_malloc malloc n) as [r|] eqn:E; [|discriminate]. intros H.
  apply some_inj in H as <-. apply OPENSSL_malloc_ok in E as [Hb Hs]; [|assumption..].
  unfold block_ok, word_ok in *. cbn [blk_bytes blk_size]. split; [|assumption].
  unfold splice. rewrite length_firstn, skipn_all2 by lia. cbn [firstn app]. apply app_nil_r.
Qed.

(** ** Properties *)

(** [CRYPTO_memcmp] returns 0 exactly when the two blocks agree on their
    first [len] bytes. *)
Theorem crypto_memcmp_equal (a b : list Z) (len : nat)
  (Ha : bytes_ok a) (Hb : bytes_ok b) (La : (len <= length a)%nat) (Lb : (len <= length b)%nat) :
  CRYPTO_memcmp a b (Z.of_nat len) = 0 <-> firstn len a = firstn len b.
Proof.
  unfold CRYPTO_memcmp. rewrite Nat2Z.id, memcmp_loop_zero by (assumption || lia). intuition.
Qed.

Lemma crypto_memcmp_equal_witness :
  CRYPTO_memcmp [1; 2; 3] [1; 2; 4] 2 = 0 <-> firstn 2 [1; 2; 3] = firstn 2 [1; 2; 4].
Proof.
  exact (crypto_memcmp_equal [1; 2; 3] [1; 2; 4] 2 ltac:(repeat constructor; discriminate)
    ltac:(repeat constructor; discriminate) ltac:(cbn; lia) ltac:(cbn; lia)).
Defined.

(** [OPENSSL_strlcpy] returns the length of the source, never writes
    outside the destination's [dst_size] bytes, and leaves there the longest
    prefix of the source that fits, followed by a NUL. *)
Theorem openssl_strlcpy_bounded (dst src : list Z) (dst_size : Z)
  (Hsize : 0 <= dst_size <= Z.of_nat (length dst)) :
  let (d, n) := OPENSSL_strlcpy dst src dst_size in
  n = strlen src /\ length d = length dst /\
  (0 < dst_size ->
   exists l, l = Z.min (strlen src) (dst_size - 1) /\
             firstn (Z.to_nat (l + 1)) d = firstn (Z.to_nat l) src ++ [0]) /\
  (dst_size = 0 -> d = dst).
Proof.
  unfold OPENSSL_strlcpy. pose proof (strlcpy_loop_spec dst src dst_size Hsize) as H.
  destruct (strlcpy_loop dst src dst_size) as [[d l] r].
  destruct H as (L & S & P & Z0). split; [lia|]. split; [assumption|]. split; [|assumption].
  intros Hp. exists l. auto.
Qed.

Lemma openssl_strlcpy_bounded_witness :
  OPENSSL_strlcpy [9; 9; 9] [104; 105; 33; 0] 3 = ([104; 105; 0], 3) /\ 3 = strlen [104; 105; 33; 0].
Proof.
  split; [reflexivity|].
  exact (proj1 (openssl_strlcpy_bounded [9; 9; 9] [104; 105; 33; 0] 3 ltac:(cbn; lia))).
Defined.

(** when [OPENSSL_realloc] succeeds the new block has the requested size
    and starts with the bytes of the old one, as many as fit in both. *)
Theorem openssl_realloc_preserves (malloc : Z -> option (list Z)) (b b' : block) (n : Z)
  (Hm : malloc_ok malloc) (Hb : block_ok b) (Hn : word_ok 64 n)
  (Hr : OPENSSL_realloc malloc (Some b) n = Some b') :
  block_ok b' /\ blk_size b' = n /\
  forall k, Z.of_nat k <= n -> Z.of_nat k <= blk_size b ->
    firstn k (blk_bytes b') = firstn k (blk_bytes b).
Proof. exact (OPENSSL_realloc_ok malloc Hm b n b' Hb Hn Hr). Qed.

Lemma openssl_realloc_preserves_witness :
  exists b', OPENSSL_realloc zero_malloc (Some (mk_block 2 [7; 8])) 3 = Some b' /\
  (block_ok b' /\ blk_size b' = 3 /\
   forall k, Z.of_nat k <= 3 -> Z.of_nat k <= 2 -> firstn k (blk_bytes b') = firstn k [7; 8]).
Proof.
  eexists. split; [reflexivity|].
  exact (openssl_realloc_preserves zero_malloc (mk_block 2 [7; 8]) _ 3 zero_malloc_ok
    eq_refl ltac:(split; [discriminate|reflexivity]) eq_refl).
Defined.

(** *** Copying and appending what fits *)

Lemma strlcpy_loop_fits x r : forall dst n, Forall (fun c => c <> 0) x -> Z.of_nat (length x) < n <= Z.of_nat (length dst) ->
  strlcpy_loop dst (x ++ 0 :: r) n = (x ++ 0 :: skipn (S (length x)) dst, Z.of_nat (length x), 0 :: r).
Proof.
  induction x as [|c x IH]; intros dst n Hx Hn; destruct dst as [|d dst]; cbn [length] in Hn; try lia; cbn [app strlcpy_loop].
  - rewrite andb_false_r. destruct (Z.eqb_spec n 0); [lia|]. reflexivity.
  - inversion Hx as [|? ? Hc Hx']; subst. rewrite (proj2 (Z.ltb_lt 1 n)) by lia. rewrite (proj2 (Z.eqb_neq c 0)) by exact Hc. cbn [negb andb].
    rewrite IH by (exact Hx' || lia). cbn [skipn app length]. f_equal. f_equal. lia.
Qed.

Lemma OPENSSL_strlcpy_fits x r dst n : Forall (fun c => c <> 0) x -> Z.of_nat (length x) < n <= Z.of_nat (length dst) ->
  OPENSSL_strlcpy dst (x ++ 0 :: r) n = (x ++ 0 :: skipn (S (length x)) dst, Z.of_nat (length x)).
Proof. intros Hx Hn. unfold OPENSSL_strlcpy. rewrite strlcpy_loop_fits by assumption. cbn [strlen Z.eqb]. f_equal. lia. Qed.

Lemma OPENSSL_strlcat_fits p x r d : forall n, Forall (fun c => c <> 0) p -> Forall (fun c => c <> 0) x ->
  Z.of_nat (length p) + Z.of_nat (length x) < n <= Z.of_nat (length p) + Z.of_nat (length d) + 1 ->
  OPENSSL_strlcat (p ++ 0 :: d) (x ++ 0 :: r) n = (p ++ x ++ 0 :: skipn (length x) d, Z.of_nat (length p) + Z.of_nat (length x)).
Proof.
  induction p as [|c p IH]; intros n Hp Hx Hn; cbn [app OPENSSL_strlcat length] in *.
  - rewrite andb_false_r. now rewrite (OPENSSL_strlcpy_fits x r (0 :: d) n) by (exact Hx || cbn [length]; lia).
  - inversion Hp as [|? ? Hc Hp']; subst. rewrite (proj2 (Z.ltb_lt 0 n)) by lia. rewrite (proj2 (Z.eqb_neq c 0)) by exact Hc. cbn [negb andb].
    rewrite IH by (assumption || lia). f_equal. lia.
Qed.
