(* ===== verification/Base64.v ===== *)
(** * Base64: BoringSSL's [crypto/base64/base64.c]

    Character codes are written as numbers: '+' 43, '/' 47, '0' 48, '=' 61,
    'A' 65, 'a' 97, newline 10, carriage return 13, tab 9, space 32.
    An output buffer is the list of the bytes written to it, in order; the
    terminating NUL that the encoder stores after its text is kept in it. *)

From Stdlib Require Import ZArith Lia List Bool.
From S2P Require Import Prelude ConstTime.
Import ListNotations.

(** ** Characters *)

Definition constant_time_lt_args_8 (a b : Z) : Z :=
  u8 (constant_time_msb_w (sub_w 64 a b)).

Definition constant_time_in_range_8 (a min max : Z) : Z :=
  constant_time_lt_args_8 (u8 (a - min)) (u8 (max - min + 1)).

Definition conv_bin2ascii (a : Z) : Z :=
  let a := Z.land a 63 in
  let ret := constant_time_select_8 (constant_time_eq_8 a 62) 43 47 in
  let ret := constant_time_select_8 (constant_time_lt_args_8 a 62) (u8 (a - 52 + 48)) ret in
  let ret := constant_time_select_8 (constant_time_lt_args_8 a 52) (u8 (a - 26 + 97)) ret in
  constant_time_select_8 (constant_time_lt_args_8 a 26) (u8 (a + 65)) ret.

Definition base64_ascii_to_bin (a : Z) : Z :=
  let is_upper := constant_time_in_range_8 a 65 90 in
  let is_lower := constant_time_in_range_8 a 97 122 in
  let is_digit := constant_time_in_range_8 a 48 57 in
  let is_plus := constant_time_eq_8 a 43 in
  let is_slash := constant_time_eq_8 a 47 in
  let is_equals := constant_time_eq_8 a 61 in
  let ret := 0 in
  let ret := Z.lor ret (u8 (Z.land is_upper (a - 65))) in
  let ret := Z.lor ret (u8 (Z.land is_lower (a - 97 + 26))) in
  let ret := Z.lor ret (u8 (Z.land is_digit (a - 48 + 52))) in
  let ret := Z.lor ret (Z.land is_plus 62) in
  let ret := Z.lor ret (Z.land is_slash 63) in
  let is_valid := Z.lor (Z.lor (Z.lor (Z.lor (Z.lor is_upper is_lower) is_digit) is_plus) is_slash)
                        is_equals in
  u8 (Z.lor ret (Z.lnot is_valid)).

(** ** Encoding *)

Definition EVP_EncodedLength (len : Z) : option Z :=
  if size_t (len + 2) <? len then None
  else
    let len := size_t (len + 2) / 3 in
    if negb (Z.shiftr (size_t (Z.shiftl len 2)) 2 =? len) then None
    else
      let len := size_t (Z.shiftl len 2) in
      if size_t (len + 1) <? len then None
      else Some (size_t (len + 1)).

(** The body of the loop of [EVP_EncodeBlock], without the final NUL; the
    returned length is four per iteration. *)
Fixpoint EVP_EncodeBlock_loop (src : list Z) : list Z * Z :=
  match src with
  | [] => ([], 0)
  | [s0] =>
      let l := u32 (Z.shiftl s0 16) in
      ([conv_bin2ascii (u8 (Z.shiftr l 18)); conv_bin2ascii (u8 (Z.shiftr l 12)); 61; 61], 4)
  | [s0; s1] =>
      let l := u32 (Z.shiftl s0 16) in
      let l := Z.lor l (u32 (Z.shiftl s1 8)) in
      ([conv_bin2ascii (u8 (Z.shiftr l 18)); conv_bin2ascii (u8 (Z.shiftr l 12));
        conv_bin2ascii (u8 (Z.shiftr l 6)); 61], 4)
  | s0 :: s1 :: s2 :: src' =>
      let l := Z.lor (Z.lor (u32 (Z.shiftl s0 16)) (u32 (Z.shiftl s1 8))) s2 in
      let (dst, ret) := EVP_EncodeBlock_loop src' in
      ([conv_bin2ascii (u8 (Z.shiftr l 18)); conv_bin2ascii (u8 (Z.shiftr l 12));
        conv_bin2ascii (u8 (Z.shiftr l 6)); conv_bin2ascii (u8 l)] ++ dst, ret + 4)
  end.

Definition EVP_EncodeBlock (src : list Z) : list Z * Z :=
  let (dst, ret) := EVP_EncodeBlock_loop src in (dst ++ [0], ret).

(** The text alone. *)
Definition encoded (src : list Z) : list Z := fst (EVP_EncodeBlock_loop src).

Record EVP_ENCODE_CTX := mk_ctx {
  data_used : Z;
  data : list Z;            (* uint8_t data[48] *)
  eof_seen : bool;
  error_encountered : bool
}.

Definition EVP_EncodeInit : EVP_ENCODE_CTX := mk_ctx 0 (repeat 0 48) false false.

(** The [while (in_len >= sizeof(ctx->data))] loop: text written, [total], the
    input left over, and false when the loop returned on overflow of [total].
    Each iteration drops 48 bytes of the input, so its length is enough fuel. *)
Fixpoint EncodeUpdate_loop (fuel : nat) (total : Z) (inp : list Z) : list Z * Z * list Z * bool :=
  match fuel with
  | O => ([], total, inp, true)
  | S fuel =>
      if (length inp <? 48)%nat then ([], total, inp, true)
      else
        let (line, enc) := EVP_EncodeBlock_loop (firstn 48 inp) in
        if size_t (total + enc + 1) <? total then (line ++ [10], total, skipn 48 inp, false)
        else
          let '(out, total, rest, ok) :=
            EncodeUpdate_loop fuel (size_t (total + enc + 1)) (skipn 48 inp) in
          (line ++ [10] ++ out, total, rest, ok)
  end.

(** Every line is followed by a NUL, which the next line overwrites. *)
Definition terminated (text : list Z) : list Z :=
  match text with [] => [] | _ => text ++ [0] end.

(** [(ctx', bytes written to out, *out_len)]. *)
Definition EVP_EncodeUpdate (ctx : EVP_ENCODE_CTX) (inp : list Z) : EVP_ENCODE_CTX * list Z * Z :=
  if (length inp =? 0)%nat then (ctx, [], 0)
  else if Z.of_nat (length inp) <? 48 - data_used ctx then
    (mk_ctx (u32 (data_used ctx + Z.of_nat (length inp)))
            (splice (Z.to_nat (data_used ctx)) inp (data ctx))
            (eof_seen ctx) (error_encountered ctx), [], 0)
  else
    let todo := 48 - data_used ctx in
    let '(ctx, head, total, inp) :=
      if data_used ctx =? 0 then (ctx, [], 0, inp)
      else
        let data' := splice (Z.to_nat (data_used ctx)) (firstn (Z.to_nat todo) inp) (data ctx) in
        let (line, enc) := EVP_EncodeBlock_loop data' in
        (mk_ctx 0 data' (eof_seen ctx) (error_encountered ctx),
         line ++ [10], enc + 1, skipn (Z.to_nat todo) inp) in
    let '(lines, total, rest, ok) := EncodeUpdate_loop (length inp) total inp in
    if negb ok then (ctx, terminated (head ++ lines), 0)
    else
      (mk_ctx (u32 (Z.of_nat (length rest))) (splice 0 rest (data ctx))
              (eof_seen ctx) (error_encountered ctx),
       terminated (head ++ lines), if INT_MAX <? total then 0 else total).

Definition EVP_EncodeFinal (ctx : EVP_ENCODE_CTX) : EVP_ENCODE_CTX * list Z * Z :=
  if data_used ctx =? 0 then (ctx, [], 0)
  else
    let (line, enc) := EVP_EncodeBlock_loop (firstn (Z.to_nat (data_used ctx)) (data ctx)) in
    (mk_ctx 0 (data ctx) (eof_seen ctx) (error_encountered ctx), terminated (line ++ [10]), enc + 1).

(** ** Decoding *)

Definition EVP_DecodedLength (len : Z) : option Z :=
  if negb (len mod 4 =? 0) then None else Some (size_t (len / 4 * 3)).

Definition EVP_DecodeInit : EVP_ENCODE_CTX := mk_ctx 0 (repeat 0 48) false false.

(** The bytes one quad decodes to, [None] for the error return. *)
Definition base64_decode_quad (i0 i1 i2 i3 : Z) : option (list Z) :=
  let a := base64_ascii_to_bin i0 in
  let b := base64_ascii_to_bin i1 in
  let c := base64_ascii_to_bin i2 in
  let d := base64_ascii_to_bin i3 in
  if (a =? 255) || (b =? 255) || (c =? 255) || (d =? 255) then None
  else
    let v := Z.lor (Z.lor (Z.lor (u32 (Z.shiftl a 18)) (u32 (Z.shiftl b 12)))
                          (u32 (Z.shiftl c 6))) d in
    let padding_pattern := Z.lor (Z.lor (Z.lor (Z.shiftl (Z.b2z (i0 =? 61)) 3)
                                               (Z.shiftl (Z.b2z (i1 =? 61)) 2))
                                        (Z.shiftl (Z.b2z (i2 =? 61)) 1)) (Z.b2z (i3 =? 61)) in
    if padding_pattern =? 0 then
      Some [u8 (Z.shiftr v 16); u8 (Z.shiftr v 8); u8 v]
    else if padding_pattern =? 1 then
      Some [u8 (Z.shiftr v 16); u8 (Z.shiftr v 8)]
    else if padding_pattern =? 3 then
      Some [u8 (Z.shiftr v 16)]
    else None.

Definition is_b64_space (c : Z) : bool := (c =? 32) || (c =? 9) || (c =? 13) || (c =? 10).

Definition set_error (ctx : EVP_ENCODE_CTX) : EVP_ENCODE_CTX :=
  mk_ctx (data_used ctx) (data ctx) (eof_seen ctx) true.

(** The [for] loop of [EVP_DecodeUpdate]: context, bytes written to [out],
    and whether the loop ran to its end. *)
Fixpoint DecodeUpdate_loop (ctx : EVP_ENCODE_CTX) (inp : list Z) : EVP_ENCODE_CTX * list Z * bool :=
  match inp with
  | [] => (ctx, [], true)
  | c :: inp' =>
      if is_b64_space c then DecodeUpdate_loop ctx inp'
      else if eof_seen ctx then (set_error ctx, [], false)
      else
        let data' := set_nth (Z.to_nat (data_used ctx)) c (data ctx) in
        let used := data_used ctx + 1 in
        if used =? 4 then
          match base64_decode_quad (at_ data' 0) (at_ data' 1) (at_ data' 2) (at_ data' 3) with
          | None => (mk_ctx used data' (eof_seen ctx) true, [], false)
          | Some bytes =>
              let ctx' := mk_ctx 0 data' (length bytes <? 3)%nat (error_encountered ctx) in
              let '(ctx'', out, ok) := DecodeUpdate_loop ctx' inp' in
              (ctx'', bytes ++ out, ok)
          end
        else DecodeUpdate_loop (mk_ctx used data' (eof_seen ctx) (error_encountered ctx)) inp'
  end.

(** [(ctx', bytes written, *out_len, return value)]. *)
Definition EVP_DecodeUpdate (ctx : EVP_ENCODE_CTX) (inp : list Z)
    : EVP_ENCODE_CTX * list Z * Z * Z :=
  if error_encountered ctx then (ctx, [], 0, -1)
  else
    let '(ctx, out, ok) := DecodeUpdate_loop ctx inp in
    if negb ok then (ctx, out, 0, -1)
    else if INT_MAX <? Z.of_nat (length out) then (set_error ctx, out, 0, -1)
    else (ctx, out, Z.of_nat (length out), if eof_seen ctx then 0 else 1).

Definition EVP_DecodeFinal (ctx : EVP_ENCODE_CTX) : Z :=
  if error_encountered ctx || negb (data_used ctx =? 0) then -1 else 1.

Fixpoint DecodeBase64_loop (inp : list Z) : option (list Z) :=
  match inp with
  | i0 :: i1 :: i2 :: i3 :: inp' =>
      match base64_decode_quad i0 i1 i2 i3 with
      | None => None
      | Some bytes =>
          if negb (length bytes =? 3)%nat && negb (length inp' =? 0)%nat then None
          else
            match DecodeBase64_loop inp' with
            | None => None
            | Some out => Some (bytes ++ out)
            end
      end
  | _ => Some []
  end.

Definition EVP_DecodeBase64 (max_out : Z) (inp : list Z) : option (list Z) :=
  if negb (Z.of_nat (length inp) mod 4 =? 0) then None
  else
    match EVP_DecodedLength (Z.of_nat (length inp)) with
    | None => None
    | Some max_len => if max_out <? max_len then None else DecodeBase64_loop inp
    end.

Fixpoint drop_while (p : Z -> bool) (l : list Z) : list Z :=
  match l with
  | [] => []
  | c :: t => if p c then drop_while p t else l
  end.

(** [while (dst_len % 3 != 0) dst[dst_len++] = 0], at most two rounds. *)
Fixpoint pad_nuls (fuel : nat) (dst : list Z) : list Z :=
  match fuel with
  | O => dst
  | S fuel => if (length dst mod 3 =? 0)%nat then dst else pad_nuls fuel (dst ++ [0])
  end.

(** The bytes at [dst] (their number is the return value), [None] for -1. *)
Definition EVP_DecodeBlock (src : list Z) : option (list Z) :=
  let src := drop_while (fun c => (c =? 32) || (c =? 9)) src in
  let src := rev (drop_while is_b64_space (rev src)) in
  match EVP_DecodedLength (Z.of_nat (length src)) with
  | None => None
  | Some dst_len =>
      if INT_MAX <? dst_len then None
      else
        match EVP_DecodeBase64 dst_len src with
        | None => None
        | Some dst => Some (pad_nuls 2 dst)
        end
  end.

(** ** Characters and quads *)

Lemma conv_roundtrip a :
  byte_ok a ->
  base64_ascii_to_bin (conv_bin2ascii a) = a mod 64 /\ conv_bin2ascii a <> 61 /\
  byte_ok (conv_bin2ascii a) /\ is_b64_space (conv_bin2ascii a) = false.
Proof.
  intros Ha.
  assert (H : (base64_ascii_to_bin (conv_bin2ascii a) =? a mod 64) &&
              negb (conv_bin2ascii a =? 61) &&
              ((0 <=? conv_bin2ascii a) && (conv_bin2ascii a <? 256)) &&
              negb (is_b64_space (conv_bin2ascii a)) = true).
  { revert a Ha. apply byte_cases. vm_compute. reflexivity. }
  rewrite !andb_true_iff, !negb_true_iff, Z.eqb_eq, Z.eqb_neq, Z.leb_le, Z.ltb_lt in H.
  unfold word_ok. intuition lia.
Qed.

Lemma base64_ascii_to_bin_range a :
  byte_ok a -> base64_ascii_to_bin a < 64 \/ base64_ascii_to_bin a = 255.
Proof.
  intros Ha.
  assert (H : ((base64_ascii_to_bin a <? 64) || (base64_ascii_to_bin a =? 255)) = true).
  { revert a Ha. apply byte_cases. vm_compute. reflexivity. }
  rewrite orb_true_iff, Z.ltb_lt, Z.eqb_eq in H. exact H.
Qed.

(** Three bytes as one 24-bit number, and its four sextets. *)
Lemma quad_bits b0 b1 b2 :
  byte_ok b0 -> byte_ok b1 -> byte_ok b2 ->
  Z.lor (Z.lor (u32 (Z.shiftl b0 16)) (u32 (Z.shiftl b1 8))) b2 = b0 * 65536 + b1 * 256 + b2.
Proof.
  unfold word_ok. intros H0 H1 H2.
  rewrite !wrap_small by (unfold word_ok; rewrite Z.shiftl_mul_pow2 by lia; lia).
  replace (Z.shiftl b0 16) with (Z.shiftl (Z.shiftl b0 8) 8)
    by (rewrite Z.shiftl_shiftl by lia; f_equal; lia).
  rewrite <- Z.shiftl_lor, (shiftl_lor_add b0 b1 8), shiftl_lor_add by lia. lia.
Qed.

Lemma sextet_bits a b c d :
  0 <= a < 64 -> 0 <= b < 64 -> 0 <= c < 64 -> 0 <= d < 64 ->
  Z.lor (Z.lor (Z.lor (u32 (Z.shiftl a 18)) (u32 (Z.shiftl b 12))) (u32 (Z.shiftl c 6))) d
  = a * 262144 + b * 4096 + c * 64 + d.
Proof.
  intros Ha Hb Hc Hd.
  rewrite !wrap_small by (unfold word_ok; rewrite Z.shiftl_mul_pow2 by lia; lia).
  replace (Z.shiftl a 18) with (Z.shiftl (Z.shiftl (Z.shiftl a 6) 6) 6)
    by (rewrite !Z.shiftl_shiftl by lia; f_equal; lia).
  replace (Z.shiftl b 12) with (Z.shiftl (Z.shiftl b 6) 6)
    by (rewrite !Z.shiftl_shiftl by lia; f_equal; lia).
  rewrite <- !Z.shiftl_lor.
  rewrite (shiftl_lor_add a b 6), (shiftl_lor_add _ c 6), shiftl_lor_add by lia. lia.
Qed.

(** Decoding a quad whose characters stand for the sextets [a b c d]. *)
Lemma decode_quad_sextets i0 i1 i2 i3 a b c d :
  base64_ascii_to_bin i0 = a -> base64_ascii_to_bin i1 = b ->
  base64_ascii_to_bin i2 = c -> base64_ascii_to_bin i3 = d ->
  0 <= a < 64 -> 0 <= b < 64 -> 0 <= c < 64 -> 0 <= d < 64 ->
  i0 <> 61 -> i1 <> 61 ->
  let v := a * 262144 + b * 4096 + c * 64 + d in
  base64_decode_quad i0 i1 i2 i3 =
    if negb (i2 =? 61) then
      if negb (i3 =? 61) then Some [u8 (v / 65536); u8 (v / 256); u8 v]
      else Some [u8 (v / 65536); u8 (v / 256)]
    else if i3 =? 61 then Some [u8 (v / 65536)] else None.
Proof.
  intros Ea Eb Ec Ed Ha Hb Hc Hd N0 N1 v. unfold base64_decode_quad. rewrite Ea, Eb, Ec, Ed.
  replace ((a =? 255) || (b =? 255) || (c =? 255) || (d =? 255)) with false.
  2: { symmetry. rewrite !orb_false_iff, !Z.eqb_neq. lia. }
  rewrite sextet_bits by assumption. fold v.
  rewrite (proj2 (Z.eqb_neq i0 61) N0), (proj2 (Z.eqb_neq i1 61) N1).
  rewrite !Z.shiftr_div_pow2 by lia.
  destruct (i2 =? 61), (i3 =? 61); reflexivity.
Qed.

(** ** One-shot round trip *)

Lemma conv_u8 x : 0 <= x -> base64_ascii_to_bin (conv_bin2ascii (u8 x)) = x mod 64.
Proof.
  intros Hx. rewrite (proj1 (conv_roundtrip _ (wrap_range 8 x ltac:(lia)))).
  unfold wrap. rewrite Z.mod_mod_divide; [reflexivity|exists 4; reflexivity].
Qed.

Lemma conv_u8_not_pad x : conv_bin2ascii (u8 x) <> 61.
Proof. apply (conv_roundtrip (u8 x)). auto with word. Qed.

Lemma bin_of_pad : base64_ascii_to_bin 61 = 0.
Proof. reflexivity. Qed.

(** The sextets of a 24-bit number, put together again. *)
Lemma sextets_sum l :
  0 <= l < 2 ^ 24 ->
  l / 2 ^ 18 mod 64 * 262144 + l / 2 ^ 12 mod 64 * 4096 + l / 2 ^ 6 mod 64 * 64 + l mod 64 = l.
Proof.
  intros Hl.
  change (2 ^ 18) with (64 * 64 * 64). change (2 ^ 12) with (64 * 64). change (2 ^ 6) with 64.
  rewrite <- !Z.div_div by lia.
  assert (H1 : 0 <= l / 64 < 2 ^ 18) by lia_div.
  assert (H2 : 0 <= l / 64 / 64 < 2 ^ 12) by lia_div.
  rewrite (Z.mod_small (l / 64 / 64 / 64)) by lia_div.
  pose proof (Z.div_mod l 64). pose proof (Z.div_mod (l / 64) 64).
  pose proof (Z.div_mod (l / 64 / 64) 64). lia.
Qed.

(** The bytes of a 24-bit number. *)
Lemma bytes_of_24 b0 b1 b2 :
  byte_ok b0 -> byte_ok b1 -> byte_ok b2 ->
  let v := b0 * 65536 + b1 * 256 + b2 in
  u8 (v / 65536) = b0 /\ u8 (v / 256) = b1 /\ u8 v = b2.
Proof. unfold word_ok, wrap. intros. repeat split; lia_div. Qed.

Lemma mod64_range x : 0 <= x mod 64 < 64.
Proof. now apply Z.mod_pos_bound. Qed.

Lemma decode_quad_3 b0 b1 b2 :
  byte_ok b0 -> byte_ok b1 -> byte_ok b2 ->
  let l := Z.lor (Z.lor (u32 (Z.shiftl b0 16)) (u32 (Z.shiftl b1 8))) b2 in
  base64_decode_quad (conv_bin2ascii (u8 (Z.shiftr l 18))) (conv_bin2ascii (u8 (Z.shiftr l 12)))
    (conv_bin2ascii (u8 (Z.shiftr l 6))) (conv_bin2ascii (u8 l)) = Some [b0; b1; b2].
Proof.
  intros H0 H1 H2. cbv zeta. rewrite quad_bits, !Z.shiftr_div_pow2 by (assumption || lia).
  destruct (bytes_of_24 b0 b1 b2 H0 H1 H2) as (E0 & E1 & E2). unfold word_ok in *.
  set (l := b0 * 65536 + b1 * 256 + b2) in *.
  erewrite decode_quad_sextets
    by (apply mod64_range || apply conv_u8_not_pad || (apply conv_u8; lia_div)).
  rewrite !(fun x => proj2 (Z.eqb_neq _ 61) (conv_u8_not_pad x)). cbn [negb].
  rewrite sextets_sum by lia. now rewrite E0, E1, E2.
Qed.

Lemma decode_quad_2 b0 b1 :
  byte_ok b0 -> byte_ok b1 ->
  let l := Z.lor (u32 (Z.shiftl b0 16)) (u32 (Z.shiftl b1 8)) in
  base64_decode_quad (conv_bin2ascii (u8 (Z.shiftr l 18))) (conv_bin2ascii (u8 (Z.shiftr l 12)))
    (conv_bin2ascii (u8 (Z.shiftr l 6))) 61 = Some [b0; b1].
Proof.
  intros H0 H1. cbv zeta. assert (Hz : byte_ok 0) by (unfold word_ok; lia).
  rewrite <- (Z.lor_0_r (Z.lor _ _)), quad_bits, !Z.shiftr_div_pow2 by (assumption || lia).
  destruct (bytes_of_24 b0 b1 0 H0 H1 Hz) as (E0 & E1 & E2). unfold word_ok in *.
  pose proof (sextets_sum (b0 * 65536 + b1 * 256 + 0) ltac:(lia)) as S.
  assert (M : (b0 * 65536 + b1 * 256 + 0) mod 64 = 0) by lia_div. rewrite M in S.
  set (l := b0 * 65536 + b1 * 256 + 0) in *.
  erewrite decode_quad_sextets
    by (apply mod64_range || apply conv_u8_not_pad || apply bin_of_pad
        || (apply conv_u8; lia_div) || lia).
  rewrite !(fun x => proj2 (Z.eqb_neq _ 61) (conv_u8_not_pad x)).
  cbn [negb Z.eqb Pos.eqb]. now rewrite S, E0, E1.
Qed.

Lemma decode_quad_1 b0 :
  byte_ok b0 ->
  let l := u32 (Z.shiftl b0 16) in
  base64_decode_quad (conv_bin2ascii (u8 (Z.shiftr l 18))) (conv_bin2ascii (u8 (Z.shiftr l 12)))
    61 61 = Some [b0].
Proof.
  intros H0. cbv zeta. unfold word_ok in *.
  rewrite (wrap_small 32) by (unfold word_ok; rewrite Z.shiftl_mul_pow2 by lia; lia).
  rewrite !Z.shiftr_div_pow2, Z.shiftl_mul_pow2 by lia. change (2 ^ 16) with 65536.
  pose proof (sextets_sum (b0 * 65536) ltac:(lia)) as S.
  assert (M : (b0 * 65536) mod 64 = 0) by lia_div. rewrite M in S.
  assert (M' : b0 * 65536 / 2 ^ 6 mod 64 = 0) by lia_div. rewrite M' in S.
  set (l := b0 * 65536) in *.
  erewrite decode_quad_sextets
    by (apply mod64_range || apply conv_u8_not_pad || apply bin_of_pad
        || (apply conv_u8; lia_div) || lia).
  cbn [negb Z.eqb Pos.eqb]. rewrite S. unfold l.
  rewrite Z.div_mul, wrap_small by (unfold word_ok; lia). reflexivity.
Qed.

Lemma encode_loop_ret src :
  snd (EVP_EncodeBlock_loop src) = Z.of_nat (length (encoded src)) /\
  Z.of_nat (length (encoded src)) = 4 * ((Z.of_nat (length src) + 2) / 3).
Proof.
  unfold encoded. induction src as [|a|a b|a b c l IH] using list_ind3; [split; reflexivity..|].
  cbn [EVP_EncodeBlock_loop]. destruct (EVP_EncodeBlock_loop l) as [dst ret].
  cbn [fst snd length app] in *. rewrite !Nat2Z.inj_succ.
  replace (Z.succ (Z.succ (Z.succ (Z.of_nat (length l)))) + 2)
    with (Z.of_nat (length l) + 2 + 1 * 3) by lia.
  rewrite Z.div_add by lia. lia.
Qed.

Lemma encoded_bytes_ok src : bytes_ok (encoded src).
Proof.
  assert (Hc : forall x, byte_ok (conv_bin2ascii (u8 x)))
    by (intros; apply (conv_roundtrip (u8 x)); auto with word).
  assert (Hp : byte_ok 61) by (unfold word_ok; lia).
  unfold encoded. induction src as [|a|a b|a b c l IH] using list_ind3;
    cbn [EVP_EncodeBlock_loop fst]; auto 10.
  destruct (EVP_EncodeBlock_loop l). cbn. auto 10.
Qed.

Lemma DecodeBase64_loop_encoded src :
  bytes_ok src -> DecodeBase64_loop (encoded src) = Some src.
Proof.
  unfold encoded. induction src as [|a|a b|a b c l IH] using list_ind3; intros H;
    repeat match goal with H : Forall _ (_ :: _) |- _ => inversion H; clear H; subst end;
    cbn [EVP_EncodeBlock_loop fst DecodeBase64_loop].
  - reflexivity.
  - now rewrite decode_quad_1.
  - now rewrite decode_quad_2.
  - specialize (IH ltac:(assumption)). destruct (EVP_EncodeBlock_loop l) as [dst ret]. cbn in IH.
    cbn [fst app DecodeBase64_loop]. rewrite decode_quad_3 by assumption. cbn. now rewrite IH.
Qed.

(** ** Streaming encoder

    [lines48 s] is the text of the full 48-byte chunks of [s], one line each,
    and the bytes left over. *)

Fixpoint lines48_fuel (fuel : nat) (s : list Z) : list Z * list Z :=
  match fuel with
  | O => ([], s)
  | S fuel =>
      if (length s <? 48)%nat then ([], s)
      else
        let (t, r) := lines48_fuel fuel (skipn 48 s) in
        (encoded (firstn 48 s) ++ [10] ++ t, r)
  end.

Definition lines48 (s : list Z) : list Z * list Z := lines48_fuel (length s) s.

(** The whole armoured text of [s]. *)
Definition pem_text (s : list Z) : list Z :=
  let (t, r) := lines48 s in
  t ++ match r with [] => [] | _ => encoded r ++ [10] end.

(** A client that encodes its input piece by piece and keeps what the calls
    report as output. *)
Fixpoint encode_all (ctx : EVP_ENCODE_CTX) (pieces : list (list Z)) : list Z :=
  match pieces with
  | [] => let '(_, out, n) := EVP_EncodeFinal ctx in firstn (Z.to_nat n) out
  | p :: pieces =>
      let '(ctx, out, n) := EVP_EncodeUpdate ctx p in
      firstn (Z.to_nat n) out ++ encode_all ctx pieces
  end.

Lemma lines48_fuel_enough f s : (length s <= f)%nat -> lines48_fuel f s = lines48 s.
Proof.
  enough (H : forall g f s, (length s <= f)%nat -> (length s <= g)%nat ->
                            lines48_fuel f s = lines48_fuel g s) by (intros; apply H; lia).
  clear. intros g. induction g as [|g IH]; intros [|f] s Hf Hg; cbn [lines48_fuel]; try reflexivity;
    destruct (Nat.ltb_spec (length s) 48); try reflexivity; try lia.
  rewrite (IH f); [reflexivity|rewrite length_skipn; lia..].
Qed.

Lemma lines48_short s : (length s < 48)%nat -> lines48 s = ([], s).
Proof.
  intros H. unfold lines48. destruct (length s) eqn:E; [reflexivity|].
  cbn [lines48_fuel]. rewrite E. destruct (Nat.ltb_spec (S n) 48); [reflexivity|lia].
Qed.

Lemma lines48_step s :
  (48 <= length s)%nat ->
  lines48 s = (encoded (firstn 48 s) ++ [10] ++ fst (lines48 (skipn 48 s)), snd (lines48 (skipn 48 s))).
Proof.
  intros H. unfold lines48 at 1. destruct (length s) eqn:E; [lia|].
  cbn [lines48_fuel]. rewrite E. destruct (Nat.ltb_spec (S n) 48); [lia|].
  rewrite lines48_fuel_enough by (rewrite length_skipn; lia).
  now destruct (lines48 (skipn 48 s)).
Qed.

(** Induction over the 48-byte chunks. *)
Lemma chunk_ind (P : list Z -> Prop) :
  (forall s, (length s < 48)%nat -> P s) ->
  (forall s, (48 <= length s)%nat -> P (skipn 48 s) -> P s) -> forall s, P s.
Proof.
  intros H0 H1 s. induction s as [s IH] using (well_founded_induction (Wf_nat.well_founded_ltof _ (@length Z))).
  destruct (Nat.lt_ge_cases (length s) 48); [auto|].
  apply H1; [assumption|]. apply IH. unfold Wf_nat.ltof. rewrite length_skipn. lia.
Qed.

Lemma lines48_app s t :
  lines48 (s ++ t) =
    (fst (lines48 s) ++ fst (lines48 (snd (lines48 s) ++ t)), snd (lines48 (snd (lines48 s) ++ t))).
Proof.
  induction s as [s Hs|s Hs IH] using chunk_ind.
  - rewrite (lines48_short s) by assumption. cbn [fst snd app]. apply surjective_pairing.
  - rewrite (lines48_step (s ++ t)) by (rewrite length_app; lia).
    rewrite (lines48_step s) by assumption.
    rewrite firstn_app, skipn_app. replace (48 - length s)%nat with O by lia.
    rewrite firstn_O, skipn_O, app_nil_r, IH. cbn [fst snd]. now rewrite !app_assoc.
Qed.

Lemma lines48_rest s : (length (snd (lines48 s)) < 48)%nat.
Proof.
  induction s as [s Hs|s Hs IH] using chunk_ind.
  - now rewrite lines48_short.
  - now rewrite lines48_step.
Qed.

Lemma encoded_48 s : length s = 48%nat -> Z.of_nat (length (encoded s)) = 64.
Proof. intros E. rewrite (proj2 (encode_loop_ret s)), E. reflexivity. Qed.

Lemma lines48_length s : Z.of_nat (length (fst (lines48 s))) = 65 * (Z.of_nat (length s) / 48).
Proof.
  induction s as [s Hs|s Hs IH] using chunk_ind.
  - rewrite lines48_short, Z.div_small by lia. reflexivity.
  - rewrite lines48_step by assumption. cbn [fst]. rewrite !length_app, !Nat2Z.inj_add, IH.
    rewrite encoded_48, length_skipn by (rewrite length_firstn; lia).
    cbn [length]. lia_div.
Qed.

Lemma EncodeUpdate_loop_spec f total s :
  (length s <= f)%nat -> 0 <= total ->
  total + Z.of_nat (length (fst (lines48 s))) < 2 ^ 64 ->
  EncodeUpdate_loop f total s =
    (fst (lines48 s), total + Z.of_nat (length (fst (lines48 s))), snd (lines48 s), true).
Proof.
  revert total s. induction f as [|f IH]; intros total s Hf Ht Hlim.
  - destruct s; [|cbn in Hf; lia]. cbn. now rewrite Z.add_0_r.
  - cbn [EncodeUpdate_loop]. destruct (Nat.ltb_spec (length s) 48) as [H|H].
    + rewrite lines48_short by assumption. cbn. now rewrite Z.add_0_r.
    + rewrite lines48_step in * by assumption.
      specialize (IH (total + 65) (skipn 48 s)). rewrite length_skipn in IH.
      pose proof (encode_loop_ret (firstn 48 s)) as [Hr _].
      pose proof (encoded_48 (firstn 48 s) ltac:(rewrite length_firstn; lia)) as H64.
      destruct (lines48 (skipn 48 s)) as [t r]. unfold encoded in *.
      destruct (EVP_EncodeBlock_loop (firstn 48 s)) as [line enc]. cbn [fst snd] in *.
      rewrite !length_app, !Nat2Z.inj_add in *. change (Z.of_nat (length [10])) with 1 in *.
      assert (E64 : enc = 64) by lia. clear Hr. subst enc.
      replace (total + 64 + 1) with (total + 65) by lia.
      rewrite wrap_small by (unfold word_ok; lia).
      destruct (Z.ltb_spec (total + 65) total); [lia|].
      rewrite IH by lia. do 3 f_equal. lia.
Qed.

(** [ctx] holds the pending bytes [p]. *)
Definition pending (ctx : EVP_ENCODE_CTX) (p : list Z) : Prop :=
  (length p < 48)%nat /\ data_used ctx = Z.of_nat (length p) /\
  firstn (length p) (data ctx) = p /\ length (data ctx) = 48%nat.

Lemma pending_init : pending EVP_EncodeInit [].
Proof. repeat split; cbn; lia. Qed.

Lemma firstn_terminated l : firstn (length l) (terminated l) = l.
Proof.
  destruct l; [reflexivity|]. unfold terminated.
  rewrite firstn_app, firstn_all, Nat.sub_diag. apply app_nil_r.
Qed.

Lemma splice_fill p q d :
  length d = 48%nat -> (length p + length q <= 48)%nat -> firstn (length p) d = p ->
  firstn (length (p ++ q)) (splice (length p) q d) = p ++ q /\
  length (splice (length p) q d) = 48%nat.
Proof.
  intros Hd Hl Hp. split.
  - rewrite length_app, firstn_splice by lia. now rewrite Hp.
  - rewrite length_splice; lia.
Qed.

Lemma EncodeUpdate_spec ctx p inp :
  pending ctx p -> Z.of_nat (length inp) <= 2 ^ 30 ->
  exists ctx' out,
    EVP_EncodeUpdate ctx inp = (ctx', out, Z.of_nat (length (fst (lines48 (p ++ inp))))) /\
    firstn (length (fst (lines48 (p ++ inp)))) out = fst (lines48 (p ++ inp)) /\
    pending ctx' (snd (lines48 (p ++ inp))).
Proof.
  intros (Hp & Hu & Hd & Hl) Hlen. unfold EVP_EncodeUpdate.
  destruct (Nat.eqb_spec (length inp) 0) as [E|Hne].
  { destruct inp; [|discriminate]. rewrite app_nil_r, lines48_short by assumption.
    exists ctx, []. repeat split; auto. }
  rewrite Hu. destruct (Z.ltb_spec (Z.of_nat (length inp)) (48 - Z.of_nat (length p))) as [Hs|Hs].
  { rewrite lines48_short by (rewrite length_app; lia).
    eexists _, _. split; [reflexivity|]. split; [reflexivity|].
    rewrite Nat2Z.id. destruct (splice_fill p inp (data ctx)) as [F L]; [assumption|lia|assumption|].
    repeat split; cbn [snd data data_used]; auto.
    - rewrite length_app. lia.
    - rewrite wrap_small by (unfold word_ok; lia). rewrite length_app. lia. }
  pose proof (lines48_length (p ++ inp)) as Htot. rewrite length_app in Htot.
  pose proof (lines48_rest (p ++ inp)) as Hrest.
  set (todo := Z.to_nat (48 - Z.of_nat (length p))).
  assert (Hcut : forall c head total inp',
    length (data c) = 48%nat ->
    lines48 (p ++ inp) = (head ++ fst (lines48 inp'), snd (lines48 inp')) ->
    total = Z.of_nat (length head) ->
    exists ctx' out,
      (let '(lines, total, rest, ok) := EncodeUpdate_loop (length inp') total inp' in
       if negb ok then (c, terminated (head ++ lines), 0)
       else (mk_ctx (u32 (Z.of_nat (length rest))) (splice 0 rest (data c))
                    (eof_seen c) (error_encountered c),
             terminated (head ++ lines), if INT_MAX <? total then 0 else total))
      = (ctx', out, Z.of_nat (length (fst (lines48 (p ++ inp))))) /\
      firstn (length (fst (lines48 (p ++ inp)))) out = fst (lines48 (p ++ inp)) /\
      pending ctx' (snd (lines48 (p ++ inp)))).
  { intros c head total inp' Hc E ->. rewrite E in *. cbn [fst snd] in *.
    rewrite length_app, Nat2Z.inj_add in *.
    rewrite EncodeUpdate_loop_spec by (try reflexivity; lia_div). cbn [negb].
    eexists _, _. unfold INT_MAX. destruct (Z.ltb_spec (2 ^ 31 - 1)
      (Z.of_nat (length head) + Z.of_nat (length (fst (lines48 inp'))))); [lia_div|].
    split; [reflexivity|]. split; [rewrite <- length_app; apply firstn_terminated|].
    destruct (splice_fill [] (snd (lines48 inp')) (data c)) as [F L]; [assumption|cbn; lia|reflexivity|].
    repeat split; cbn [data data_used]; auto. apply wrap_small. unfold word_ok. lia. }
  destruct (Z.eqb_spec (Z.of_nat (length p)) 0) as [E0|N0].
  - destruct p; [|cbn in E0; lia]. apply Hcut; auto. apply surjective_pairing.
  - assert (Hf : length (firstn todo inp) = (48 - length p)%nat) by (rewrite length_firstn; lia).
    destruct (splice_fill p (firstn todo inp) (data ctx)) as [F L]; [assumption|lia|assumption|].
    rewrite length_app, Hf in F. replace (length p + (48 - length p))%nat with 48%nat in F by lia.
    rewrite <- L, firstn_all in F. rewrite Nat2Z.id. fold todo. rewrite F.
    pose proof (encode_loop_ret (p ++ firstn todo inp)) as [Hr _].
    pose proof (encoded_48 (p ++ firstn todo inp) ltac:(rewrite length_app; lia)) as H64.
    unfold encoded in *. destruct (EVP_EncodeBlock_loop (p ++ firstn todo inp)) as [line enc] eqn:EL.
    cbn [fst snd] in *. apply Hcut; cbn [data].
    + rewrite <- F. assumption.
    + rewrite lines48_step by (rewrite length_app; lia).
      rewrite firstn_app, skipn_app, firstn_all2, skipn_all2 by lia.
      replace (48 - length p)%nat with todo by lia. unfold encoded. rewrite EL. cbn [fst app].
      now rewrite <- app_assoc.
    + rewrite length_app. cbn [length]. lia.
Qed.

Lemma EncodeFinal_spec ctx p :
  pending ctx p ->
  (let '(_, out, n) := EVP_EncodeFinal ctx in firstn (Z.to_nat n) out)
  = match p with [] => [] | _ => encoded p ++ [10] end.
Proof.
  intros (Hp & Hu & Hd & Hl). unfold EVP_EncodeFinal. rewrite Hu.
  destruct p as [|b p]; [reflexivity|].
  destruct (Z.eqb_spec (Z.of_nat (length (b :: p))) 0) as [E|_]; [cbn in E; lia|].
  rewrite Nat2Z.id, Hd. pose proof (encode_loop_ret (b :: p)) as [Hr _].
  unfold encoded in *. destruct (EVP_EncodeBlock_loop (b :: p)) as [line enc]. cbn [fst snd] in *.
  replace (Z.to_nat (enc + 1)) with (length (line ++ [10])) by (rewrite length_app; cbn; lia).
  apply firstn_terminated.
Qed.

Lemma encode_all_spec ctx p pieces :
  pending ctx p -> Forall (fun i => Z.of_nat (length i) <= 2 ^ 30) pieces ->
  encode_all ctx pieces = pem_text (p ++ concat pieces).
Proof.
  intros Hp H. revert ctx p Hp. induction H as [|i pieces Hi _ IH]; intros ctx p Hp.
  - cbn [concat encode_all]. rewrite app_nil_r, (EncodeFinal_spec ctx p Hp).
    unfold pem_text. destruct Hp as [Hp _]. now rewrite lines48_short.
  - cbn [concat encode_all]. destruct (EncodeUpdate_spec ctx p i Hp Hi) as (ctx' & out & E & F & Hp').
    rewrite E, Nat2Z.id, F, (IH _ _ Hp'). unfold pem_text.
    rewrite app_assoc, (lines48_app (p ++ i)).
    destruct (lines48 (snd (lines48 (p ++ i)) ++ concat pieces)) as [t r]. cbn [fst snd].
    apply app_assoc.
Qed.

(** ** Streaming decoder *)

Lemma DecodeUpdate_loop_app ctx a b :
  DecodeUpdate_loop ctx (a ++ b) =
    let '(c, o, ok) := DecodeUpdate_loop ctx a in
    if ok then let '(c', o', ok') := DecodeUpdate_loop c b in (c', o ++ o', ok')
    else (c, o, false).
Proof.
  revert ctx. induction a as [|x a IH]; intros ctx; cbn [app DecodeUpdate_loop].
  - now destruct (DecodeUpdate_loop ctx b) as [[? ?] ?].
  - destruct (is_b64_space x); [apply IH|]. destruct (eof_seen ctx); [reflexivity|].
    destruct (data_used ctx + 1 =? 4); [|apply IH].
    match goal with |- context [base64_decode_quad ?p ?q ?r ?t] =>
      destruct (base64_decode_quad p q r t) as [bytes|]; [|reflexivity] end.
    rewrite IH.
    match goal with |- context [DecodeUpdate_loop ?c a] =>
      destruct (DecodeUpdate_loop c a) as [[c1 o1] [|]]; [|reflexivity] end.
    destruct (DecodeUpdate_loop c1 b) as [[c2 o2] ok2]. now rewrite app_assoc.
Qed.

(** Four characters that decode. *)
Lemma DecodeUpdate_loop_quad d e i0 i1 i2 i3 bytes rest :
  (4 <= length d)%nat ->
  Forall (fun c => is_b64_space c = false) [i0; i1; i2; i3] ->
  base64_decode_quad i0 i1 i2 i3 = Some bytes ->
  exists d', length d' = length d /\
    DecodeUpdate_loop (mk_ctx 0 d false e) (i0 :: i1 :: i2 :: i3 :: rest) =
      let '(c, o, ok) := DecodeUpdate_loop (mk_ctx 0 d' (length bytes <? 3)%nat e) rest in
      (c, bytes ++ o, ok).
Proof.
  intros Hd Hs Hq. destruct d as [|d0 [|d1 [|d2 [|d3 d]]]]; cbn in Hd; try lia.
  repeat match goal with H : Forall _ (_ :: _) |- _ => inversion H; clear H; subst end.
  exists (i0 :: i1 :: i2 :: i3 :: d). split; [reflexivity|].
  cbn -[base64_decode_quad is_b64_space].
  repeat match goal with H : is_b64_space _ = false |- _ => rewrite H; clear H; cbn -[base64_decode_quad is_b64_space] end.
  change (Pos.to_nat 1) with 1%nat. change (Pos.to_nat 2) with 2%nat.
  change (Pos.to_nat 3) with 3%nat. cbn [set_nth nth].
  now rewrite Hq.
Qed.

Lemma encoded_no_space s : Forall (fun c => is_b64_space c = false) (encoded s).
Proof.
  assert (Hc : forall x, is_b64_space (conv_bin2ascii (u8 x)) = false)
    by (intros; apply (conv_roundtrip (u8 x)); auto with word).
  unfold encoded. induction s as [|a|a b|a b c l IH] using list_ind3;
    cbn [EVP_EncodeBlock_loop fst]; auto 10.
  destruct (EVP_EncodeBlock_loop l). cbn. auto 10.
Qed.

Lemma DecodeUpdate_loop_encoded s d e rest :
  bytes_ok s -> length d = 48%nat -> ((length s mod 3 = 0)%nat \/ rest = [10]) ->
  exists d' f, length d' = 48%nat /\ (length s mod 3 = 0 -> f = false)%nat /\
    DecodeUpdate_loop (mk_ctx 0 d false e) (encoded s ++ rest) =
      let '(c, o, ok) := DecodeUpdate_loop (mk_ctx 0 d' f e) rest in (c, s ++ o, ok).
Proof.
  pose proof (encoded_no_space s) as Hns. unfold encoded in *. revert d Hns.
  induction s as [|a|a b|a b c s IH] using list_ind3; intros d Hns Hb Hd Hr;
    repeat match goal with H : Forall _ (_ :: _) |- _ => inversion H; clear H; subst end.
  - exists d, false. repeat split; auto. cbn.
    now destruct (DecodeUpdate_loop _ rest) as [[? ?] ?].
  - cbn [EVP_EncodeBlock_loop fst] in *.
    edestruct (DecodeUpdate_loop_quad d e) with (rest := rest) as (d' & L & E);
      [lia|exact Hns|now apply decode_quad_1|].
    exists d', true. repeat split; [lia|discriminate|exact E].
  - cbn [EVP_EncodeBlock_loop fst] in *.
    edestruct (DecodeUpdate_loop_quad d e) with (rest := rest) as (d' & L & E);
      [lia|exact Hns|now apply decode_quad_2|].
    exists d', true. repeat split; [lia|discriminate|exact E].
  - cbn [EVP_EncodeBlock_loop] in *. destruct (EVP_EncodeBlock_loop s) as [dst ret]. cbn [fst] in *.
    apply Forall_app in Hns as [Hq Hns].
    edestruct (DecodeUpdate_loop_quad d e) with (rest := dst ++ rest) as (d1 & L1 & E1);
      [lia|exact Hq|now apply decode_quad_3|].
    assert (M : (length (a :: b :: c :: s) mod 3 = length s mod 3)%nat).
    { cbn [length]. replace (S (S (S (length s)))) with (length s + 1 * 3)%nat by lia.
      apply Nat.Div0.mod_add. }
    rewrite M in *.
    destruct (IH d1) as (d' & f & Ld & Lf & E); auto; [lia|].
    exists d', f. repeat split; auto.
    rewrite <- app_assoc. cbn [app] in *. rewrite E1. cbn [length Nat.ltb Nat.leb]. rewrite E.
    now destruct (DecodeUpdate_loop _ rest) as [[? ?] ?].
Qed.

Lemma DecodeUpdate_loop_newline ctx rest :
  DecodeUpdate_loop ctx (10 :: rest) = DecodeUpdate_loop ctx rest.
Proof. reflexivity. Qed.

(** The decoder's buffer is empty and no error is recorded. *)
Definition at_boundary (ctx : EVP_ENCODE_CTX) : Prop :=
  data_used ctx = 0 /\ error_encountered ctx = false.

Lemma DecodeUpdate_loop_pem s d :
  bytes_ok s -> length d = 48%nat ->
  exists ctx, at_boundary ctx /\ DecodeUpdate_loop (mk_ctx 0 d false false) (pem_text s) = (ctx, s, true).
Proof.
  intros Hs. revert d. induction s as [s Hl|s Hl IH] using chunk_ind; intros d Hd.
  - unfold pem_text. rewrite lines48_short by assumption. cbn [app].
    destruct s as [|b s]; [exists (mk_ctx 0 d false false); repeat split|].
    destruct (DecodeUpdate_loop_encoded (b :: s) d false [10] Hs Hd) as (d' & f & _ & _ & E); [auto|].
    exists (mk_ctx 0 d' f false). split; [split; reflexivity|]. rewrite E. cbn.
    now rewrite app_nil_r.
  - rewrite <- (firstn_skipn 48 s) in Hs at 1. apply Forall_app in Hs as [H1 H2].
    unfold pem_text in *. rewrite lines48_step by assumption.
    specialize (IH H2). destruct (lines48 (skipn 48 s)) as [t r]. cbn [fst snd].
    destruct (DecodeUpdate_loop_encoded (firstn 48 s) d false
                ([10] ++ t ++ match r with [] => [] | _ => encoded r ++ [10] end) H1 Hd)
      as (d' & f & Ld & Hf & E); [left; rewrite length_firstn, Nat.min_l by lia; reflexivity|].
    rewrite length_firstn, Nat.min_l in Hf by lia. rewrite (Hf eq_refl) in E.
    destruct (IH d' Ld) as (ctx & Hctx & E'). exists ctx. split; [assumption|].
    rewrite <- !app_assoc, E. cbn [app]. rewrite DecodeUpdate_loop_newline, E'.
    now rewrite firstn_skipn.
Qed.

(** A client that decodes its input piece by piece: the bytes reported as
    output, [None] when a call fails. *)
Fixpoint decode_all (ctx : EVP_ENCODE_CTX) (pieces : list (list Z)) : option (list Z) :=
  match pieces with
  | [] => if EVP_DecodeFinal ctx =? 1 then Some [] else None
  | p :: pieces =>
      let '(ctx, out, n, r) := EVP_DecodeUpdate ctx p in
      if r <? 0 then None
      else
        match decode_all ctx pieces with
        | None => None
        | Some out' => Some (firstn (Z.to_nat n) out ++ out')
        end
  end.

Lemma DecodeUpdate_loop_error ctx inp c o :
  DecodeUpdate_loop ctx inp = (c, o, true) -> error_encountered c = error_encountered ctx.
Proof.
  revert ctx c o. induction inp as [|x inp IH]; intros ctx c o; cbn [DecodeUpdate_loop].
  - now intros [= <- _].
  - destruct (is_b64_space x); [apply IH|]. destruct (eof_seen ctx); [discriminate|].
    destruct (data_used ctx + 1 =? 4); [|intros H; now apply IH in H].
    destruct (base64_decode_quad _ _ _ _) as [bytes|]; [|discriminate].
    destruct (DecodeUpdate_loop _ inp) as [[c1 o1] ok] eqn:E. intros [= <- _ ->].
    now apply IH in E.
Qed.

Lemma decode_all_spec pieces ctx ctx' out :
  error_encountered ctx = false -> at_boundary ctx' ->
  DecodeUpdate_loop ctx (concat pieces) = (ctx', out, true) ->
  Z.of_nat (length out) <= INT_MAX ->
  decode_all ctx pieces = Some out.
Proof.
  revert ctx out. induction pieces as [|p pieces IH]; intros ctx out He [Hu He'] E Hlen.
  - cbn in E. injection E as <- <-. cbn [decode_all]. unfold EVP_DecodeFinal.
    now rewrite Hu, He'.
  - cbn [concat decode_all] in *. rewrite DecodeUpdate_loop_app in E. unfold EVP_DecodeUpdate.
    rewrite He. destruct (DecodeUpdate_loop ctx p) as [[c o] [|]] eqn:Ep; [|discriminate].
    destruct (DecodeUpdate_loop c (concat pieces)) as [[c2 o2] ok2] eqn:Er.
    injection E as -> <- ->. rewrite length_app in Hlen. cbn [negb].
    destruct (Z.ltb_spec INT_MAX (Z.of_nat (length o))); [lia|].
    rewrite (IH c o2); [|now rewrite (DecodeUpdate_loop_error _ _ _ _ Ep)|split; assumption|assumption|lia].
    rewrite Nat2Z.id, firstn_all. now destruct (eof_seen c).
Qed.

Lemma decode_quad_length i0 i1 i2 i3 bytes :
  base64_decode_quad i0 i1 i2 i3 = Some bytes -> (1 <= length bytes <= 3)%nat /\ bytes_ok bytes.
Proof.
  assert (H : forall x, byte_ok (u8 x)) by auto with word.
  unfold base64_decode_quad. cbv zeta. destruct (_ || _); [discriminate|].
  match goal with |- context [Some [u8 (Z.shiftr ?v 16); _; _]] => generalize v end.
  match goal with |- context [if ?pp =? 0 then _ else _] => generalize pp end.
  intros pp v. destruct (pp =? 0); [|destruct (pp =? 1); [|destruct (pp =? 3); [|discriminate]]];
    intros E; injection E as E; subst bytes; (split; [cbn [length]; lia|]);
    repeat (apply Forall_cons; [apply H|]); apply Forall_nil.
Qed.

Lemma list_ind4 (P : list Z -> Prop) :
  (forall l, (length l < 4)%nat -> P l) ->
  (forall a b c d l, P l -> P (a :: b :: c :: d :: l)) -> forall l, P l.
Proof.
  intros H0 H1. fix IH 1. intros [|a [|b [|c [|d l]]]]; try (apply H0; cbn; lia).
  apply H1, IH.
Qed.

Lemma DecodeBase64_loop_length inp out :
  DecodeBase64_loop inp = Some out ->
  (length out <= length inp / 4 * 3)%nat /\ bytes_ok out.
Proof.
  revert out. induction inp as [l Hl|a b c d l IH] using list_ind4; intros out.
  - destruct l as [|? [|? [|? [|? ?]]]]; cbn in Hl; try lia; intros [= <-]; cbn; split; auto; lia.
  - cbn [DecodeBase64_loop]. destruct (base64_decode_quad a b c d) as [bytes|] eqn:E; [|discriminate].
    apply decode_quad_length in E as [E1 E2].
    destruct (negb _ && negb _); [discriminate|].
    destruct (DecodeBase64_loop l) as [o|]; [|discriminate]. intros [= <-].
    destruct (IH o eq_refl) as [L B]. rewrite length_app. cbn [length].
    replace (S (S (S (S (length l))))) with (length l + 1 * 4)%nat by lia.
    rewrite Nat.div_add by lia. split; [lia|]. apply Forall_app; auto.
Qed.

(** ** Properties *)

(** C6: encoding any byte string with [EVP_EncodeBlock] and decoding the
    [ret] bytes it reports with [EVP_DecodeBase64], into a buffer of the size
    [EVP_DecodedLength] asks for, gives the byte string back. *)
Theorem base64_block_roundtrip (src : list Z) (max_out : Z)
  (Hsrc : bytes_ok src) (Hlen : Z.of_nat (length src) < 2 ^ 62)
  (Hmax : (Z.of_nat (length src) + 2) / 3 * 3 <= max_out) :
  let (dst, ret) := EVP_EncodeBlock src in
  EVP_DecodeBase64 max_out (firstn (Z.to_nat ret) dst) = Some src.
Proof.
  unfold EVP_EncodeBlock. pose proof (encode_loop_ret src) as [Hr Hl].
  pose proof (DecodeBase64_loop_encoded src Hsrc) as Hd. unfold encoded in *.
  destruct (EVP_EncodeBlock_loop src) as [dst ret]. cbn [fst snd] in *. subst ret.
  rewrite Nat2Z.id, firstn_app, firstn_all, Nat.sub_diag, firstn_O, app_nil_r.
  unfold EVP_DecodeBase64, EVP_DecodedLength. rewrite Hl, Z.mul_comm, Z_mod_mult, Z.div_mul by lia.
  cbn [Z.eqb negb]. rewrite wrap_small by (unfold word_ok; lia_div).
  destruct (Z.ltb_spec max_out ((Z.of_nat (length src) + 2) / 3 * 3)); [lia|assumption].
Qed.

Lemma base64_block_roundtrip_witness :
  EVP_DecodeBase64 6 [77; 87; 69; 61] = Some [49; 97].
Proof.
  exact (base64_block_roundtrip [49; 97] 6
    ltac:(repeat constructor; discriminate) eq_refl ltac:(discriminate)).
Defined.

(** [EVP_EncodedLength] computes exactly the room [EVP_EncodeBlock] needs,
    its NUL included, and fails exactly when that does not fit a [size_t]. *)
Theorem base64_encoded_length_exact (len : Z) (Hlen : word_ok 64 len) :
  EVP_EncodedLength len =
    (if 4 * ((len + 2) / 3) + 1 <=? SIZE_MAX then Some (4 * ((len + 2) / 3) + 1) else None) /\
  forall src, Z.of_nat (length src) = len ->
    Z.of_nat (length (fst (EVP_EncodeBlock src))) = 4 * ((len + 2) / 3) + 1 /\
    snd (EVP_EncodeBlock src) = 4 * ((len + 2) / 3).
Proof.
  unfold word_ok in Hlen. split.
  - unfold EVP_EncodedLength, SIZE_MAX. destruct (Z.lt_ge_cases (len + 2) (2 ^ 64)) as [H|H].
    + rewrite (wrap_small 64 (len + 2)) by (unfold word_ok; lia).
      destruct (Z.ltb_spec (len + 2) len); [lia|].
      set (n := (len + 2) / 3) in *. assert (Hn : 0 <= n < 2 ^ 63) by (unfold n; lia_div).
      rewrite Z.shiftr_div_pow2, !Z.shiftl_mul_pow2 by lia. change (2 ^ 2) with 4.
      destruct (Z.leb_spec (4 * n + 1) (2 ^ 64 - 1)).
      * rewrite !(wrap_small 64 (n * 4)) by (unfold word_ok; lia). rewrite Z.div_mul, Z.eqb_refl by lia.
        cbn [negb]. rewrite !wrap_small by (unfold word_ok; lia).
        destruct (Z.ltb_spec (n * 4 + 1) (n * 4)); [lia|]. f_equal. lia.
      * replace (wrap 64 (n * 4) / 4 =? n) with false; [reflexivity|].
        symmetry. apply Z.eqb_neq. pose proof (wrap_range 64 (n * 4) ltac:(lia)) as W.
        unfold word_ok in W. lia_div.
    + replace (wrap 64 (len + 2)) with (len + 2 - 2 ^ 64)
        by (apply Z.mod_unique with 1; lia).
      destruct (Z.ltb_spec (len + 2 - 2 ^ 64) len); [|lia].
      destruct (Z.leb_spec (4 * ((len + 2) / 3) + 1) (2 ^ 64 - 1)); [lia_div|reflexivity].
  - intros src <-. unfold EVP_EncodeBlock. pose proof (encode_loop_ret src) as [Hr Hl].
    unfold encoded in *. destruct (EVP_EncodeBlock_loop src) as [dst ret]. cbn [fst snd] in *.
    rewrite length_app. cbn [length]. lia.
Qed.

Lemma base64_encoded_length_exact_witness :
  word_ok 64 5 /\ EVP_EncodedLength 5 = Some 9.
Proof.
  split; [split; [discriminate|reflexivity]|].
  exact (proj1 (base64_encoded_length_exact 5 ltac:(split; [discriminate|reflexivity]))).
Defined.

(** C8: the streaming encoder is independent of how its input is cut into
    [EVP_EncodeUpdate] calls: the bytes it reports, with those of
    [EVP_EncodeFinal], are the 48-byte lines of the whole input. *)
Theorem base64_stream_encode (pieces : list (list Z))
  (Hlen : Forall (fun i => Z.of_nat (length i) <= 2 ^ 30) pieces) :
  encode_all EVP_EncodeInit pieces = pem_text (concat pieces).
Proof. exact (encode_all_spec EVP_EncodeInit [] pieces pending_init Hlen). Qed.

Lemma base64_stream_encode_witness :
  encode_all EVP_EncodeInit [[1; 2]; [3]; []] = pem_text [1; 2; 3].
Proof.
  exact (base64_stream_encode [[1; 2]; [3]; []] ltac:(repeat constructor; discriminate)).
Defined.

(** C7: however the text made by the encoder is cut into [EVP_DecodeUpdate]
    calls, no call fails, [EVP_DecodeFinal] accepts, and the bytes reported
    are the encoded bytes. *)
Theorem base64_stream_decode (s : list Z) (pieces : list (list Z))
  (Hs : bytes_ok s) (Hlen : Z.of_nat (length s) <= INT_MAX)
  (Hcut : concat pieces = pem_text s) :
  decode_all EVP_DecodeInit pieces = Some s.
Proof.
  destruct (DecodeUpdate_loop_pem s (repeat 0 48) Hs eq_refl) as (ctx & Hc & E).
  rewrite <- Hcut in E. now apply decode_all_spec with ctx.
Qed.

Lemma base64_stream_decode_witness :
  decode_all EVP_DecodeInit [[65; 81]; [73; 68; 66; 65]; [61; 61; 10]] = Some [1; 2; 3; 4].
Proof.
  exact (base64_stream_decode [1; 2; 3; 4] [[65; 81]; [73; 68; 66; 65]; [61; 61; 10]]
    ltac:(repeat constructor; discriminate) ltac:(discriminate) eq_refl).
Defined.

(** [EVP_DecodeBase64] never reports more bytes than the buffer it was
    given holds, and every reported byte is in range. *)
Theorem base64_decode_bound (max_out : Z) (inp out : list Z)
  (Hlen : Z.of_nat (length inp) < 2 ^ 63)
  (Hdec : EVP_DecodeBase64 max_out inp = Some out) :
  Z.of_nat (length out) <= max_out /\ bytes_ok out.
Proof.
  unfold EVP_DecodeBase64, EVP_DecodedLength in Hdec.
  destruct (Z.of_nat (length inp) mod 4 =? 0); [|discriminate]. cbn [negb] in Hdec.
  rewrite wrap_small in Hdec by (unfold word_ok; lia_div).
  destruct (Z.ltb_spec max_out (Z.of_nat (length inp) / 4 * 3)); [discriminate|].
  apply DecodeBase64_loop_length in Hdec as [L B]. split; [|assumption].
  apply inj_le in L. rewrite Nat2Z.inj_mul, Nat2Z.inj_div in L. lia.
Qed.

Lemma base64_decode_bound_witness :
  Z.of_nat (length [1; 2; 3]) <= 3 /\ bytes_ok [1; 2; 3].
Proof. exact (base64_decode_bound 3 [65; 81; 73; 68] [1; 2; 3] eq_refl eq_refl). Defined.
