(* ===== verification/Cbs.v ===== *)
(** * CBS, the parsing half of BoringSSL's [crypto/bytestring]

    A [CBS] is the pointer and length of [cbs.c]: [cbs_data] is the memory from
    the pointer on (to the end of its block) and [cbs_len] the number of bytes
    of it that belong to the CBS.  A function that returns 0 or 1 and advances
    its argument is an [SE CBS] program: [None] is the return value 0, and the
    state left behind is the CBS as the C code leaves it, advanced or not.
    Results of out-parameters are the result of the program. *)

From Stdlib Require Import ZArith Lia List Bool.
From S2P Require Import Prelude ConstTime Endian Mem.
Import ListNotations.
Open Scope se_scope.

Record CBS := mk_cbs {
  cbs_data : list Z;
  cbs_len : Z
}.

(** The bytes of a CBS, and when the pointer is good for all of them. *)
Definition cbs_bytes (c : CBS) : list Z := firstn (Z.to_nat (cbs_len c)) (cbs_data c).

Definition cbs_ok (c : CBS) : Prop :=
  word_ok 64 (cbs_len c) /\ cbs_len c <= Z.of_nat (length (cbs_data c)) /\ bytes_ok (cbs_bytes c).

Definition CBS_init (data : list Z) (len : Z) : CBS := mk_cbs data len.

Definition cbs_get (n : Z) : SE CBS (list Z) := fun cbs =>
  if cbs_len cbs <? n then (None, cbs)
  else (Some (cbs_data cbs),
        mk_cbs (skipn (Z.to_nat n) (cbs_data cbs)) (size_t (cbs_len cbs - n))).

Definition CBS_skip (len : Z) : SE CBS unit := cbs_get len ;;; ret tt.

Definition CBS_data (cbs : CBS) : list Z := cbs_data cbs.

Definition CBS_len (cbs : CBS) : Z := cbs_len cbs.

Section Copies.
Variable malloc : Z -> option (list Z).

(** [(return value, *out_ptr, *out_len)]. *)
Definition CBS_stow (cbs : CBS) : bool * option block * Z :=
  if cbs_len cbs =? 0 then (true, None, 0)
  else
    match OPENSSL_memdup malloc (cbs_data cbs) (cbs_len cbs) with
    | None => (false, None, 0)
    | Some p => (true, Some p, cbs_len cbs)
    end.

Definition CBS_strdup (cbs : CBS) : option block :=
  OPENSSL_strndup malloc (cbs_data cbs) (cbs_len cbs).
End Copies.

(** The index of the first byte equal to [c] among the first [n], as
    [memchr]'s pointer minus its argument. *)
Fixpoint memchr_idx (s : list Z) (c : Z) (n : nat) : option Z :=
  match n, s with
  | S n, b :: s =>
      if b =? c then Some 0
      else match memchr_idx s c n with Some i => Some (i + 1) | None => None end
  | _, _ => None
  end.

Definition CBS_contains_zero_byte (cbs : CBS) : bool :=
  match memchr_idx (cbs_data cbs) 0 (Z.to_nat (cbs_len cbs)) with Some _ => true | None => false end.

Definition CBS_mem_equal (cbs : CBS) (data : list Z) (len : Z) : bool :=
  if negb (len =? cbs_len cbs) then false
  else CRYPTO_memcmp (cbs_data cbs) data len =? 0.

(** ** Fixed-size integers *)

Definition cbs_get_u (len : Z) : SE CBS Z :=
  data <- cbs_get len ;;
  ret (fold_left (fun result b => Z.lor (u64 (Z.shiftl result 8)) b) (firstn (Z.to_nat len) data) 0).

Definition CBS_get_u8 : SE CBS Z := v <- cbs_get 1 ;; ret (at_ v 0).

Definition CBS_get_u16 : SE CBS Z := v <- cbs_get_u 2 ;; ret (u16 v).

Definition CBS_get_u16le : SE CBS Z := v <- CBS_get_u16 ;; ret (CRYPTO_bswap2 v).

Definition CBS_get_u24 : SE CBS Z := v <- cbs_get_u 3 ;; ret (u32 v).

Definition CBS_get_u32 : SE CBS Z := v <- cbs_get_u 4 ;; ret (u32 v).

Definition CBS_get_u32le : SE CBS Z := v <- CBS_get_u32 ;; ret (CRYPTO_bswap4 v).

Definition CBS_get_u64 : SE CBS Z := cbs_get_u 8.

Definition CBS_get_u64le : SE CBS Z := v <- cbs_get_u 8 ;; ret (CRYPTO_bswap8 v).

Definition CBS_get_last_u8 : SE CBS Z := fun cbs =>
  if cbs_len cbs =? 0 then (None, cbs)
  else (Some (at_ (cbs_data cbs) (cbs_len cbs - 1)), mk_cbs (cbs_data cbs) (cbs_len cbs - 1)).

Definition CBS_get_bytes (len : Z) : SE CBS CBS := v <- cbs_get len ;; ret (CBS_init v len).

Definition CBS_copy_bytes (len : Z) : SE CBS (list Z) :=
  v <- cbs_get len ;; ret (firstn (Z.to_nat len) v).

Definition cbs_get_length_prefixed (len_len : Z) : SE CBS CBS :=
  len <- cbs_get_u len_len ;; CBS_get_bytes len.

Definition CBS_get_u8_length_prefixed : SE CBS CBS := cbs_get_length_prefixed 1.
Definition CBS_get_u16_length_prefixed : SE CBS CBS := cbs_get_length_prefixed 2.
Definition CBS_get_u24_length_prefixed : SE CBS CBS := cbs_get_length_prefixed 3.

Definition CBS_get_until_first (c : Z) : SE CBS CBS := fun cbs =>
  match memchr_idx (CBS_data cbs) c (Z.to_nat (CBS_len cbs)) with
  | None => (None, cbs)
  | Some i => CBS_get_bytes i cbs
  end.

(** ** ASN.1 identifiers and elements *)

Definition CBS_ASN1_TAG_SHIFT : Z := 24.
Definition CBS_ASN1_CONSTRUCTED : Z := Z.shiftl 32 CBS_ASN1_TAG_SHIFT.
Definition CBS_ASN1_CONTEXT_SPECIFIC : Z := Z.shiftl 128 CBS_ASN1_TAG_SHIFT.
Definition CBS_ASN1_CLASS_MASK : Z := Z.shiftl 192 CBS_ASN1_TAG_SHIFT.
Definition CBS_ASN1_TAG_NUMBER_MASK : Z := Z.shiftl 1 (5 + CBS_ASN1_TAG_SHIFT) - 1.
Definition CBS_ASN1_BOOLEAN : Z := 1.
Definition CBS_ASN1_INTEGER : Z := 2.
Definition CBS_ASN1_BITSTRING : Z := 3.
Definition CBS_ASN1_OCTETSTRING : Z := 4.
Definition CBS_ASN1_SEQUENCE : Z := Z.lor 16 CBS_ASN1_CONSTRUCTED.
Definition CBS_ASN1_SET : Z := Z.lor 17 CBS_ASN1_CONSTRUCTED.

(** The [do ... while] loop.  Every round reads a byte, so one more round than
    there are bytes is never reached. *)
Fixpoint parse_base128_loop (fuel : nat) (v : Z) : SE CBS Z :=
  match fuel with
  | O => fail
  | S fuel =>
      b <- CBS_get_u8 ;;
      if negb (Z.shiftr v (64 - 7) =? 0) then fail
      else if (v =? 0) && (b =? 128) then fail
      else
        let v := Z.lor (u64 (Z.shiftl v 7)) (Z.land b 127) in
        if negb (Z.land b 128 =? 0) then parse_base128_loop fuel v else ret v
  end.

Definition parse_base128_integer : SE CBS Z := fun cbs =>
  parse_base128_loop (S (Z.to_nat (cbs_len cbs))) 0 cbs.

Definition parse_asn1_tag : SE CBS Z :=
  tag_byte <- CBS_get_u8 ;;
  let tag := u32 (Z.shiftl (Z.land tag_byte 224) CBS_ASN1_TAG_SHIFT) in
  let tag_number := Z.land tag_byte 31 in
  if tag_number =? 31 then
    v <- parse_base128_integer ;;
    if (CBS_ASN1_TAG_NUMBER_MASK <? v) || (v <? 31) then fail
    else ret (Z.lor tag (u32 v))
  else ret (Z.lor tag tag_number).

(** What [cbs_get_any_asn1_element] reports. *)
Record element := mk_element {
  el_out : CBS;
  el_tag : Z;
  el_header_len : Z;
  el_ber_found : bool
}.

Definition cbs_get_any_asn1_element (ber_ok : bool) : SE CBS element := fun cbs =>
  match parse_asn1_tag cbs with
  | (None, _) => (None, cbs)
  | (Some tag, header) =>
    match CBS_get_u8 header with
    | (None, _) => (None, cbs)
    | (Some length_byte, header) =>
      let header_len := size_t (CBS_len cbs - CBS_len header) in
      if Z.land length_byte 128 =? 0 then
        (out <- CBS_get_bytes (size_t (length_byte + header_len)) ;;
         ret (mk_element out tag header_len false)) cbs
      else
        let num_bytes := Z.land length_byte 127 in
        if ber_ok && negb (Z.land tag CBS_ASN1_CONSTRUCTED =? 0) && (num_bytes =? 0) then
          (out <- CBS_get_bytes header_len ;;
           ret (mk_element out tag header_len true)) cbs
        else if (num_bytes =? 0) || (4 <? num_bytes) then (None, cbs)
        else
          match cbs_get_u num_bytes header with
          | (None, _) => (None, cbs)
          | (Some len64, header) =>
            let short := len64 <? 128 in
            let padded := Z.shiftr len64 ((num_bytes - 1) * 8) =? 0 in
            if (short || padded) && negb ber_ok then (None, cbs)
            else
              let len := size_t len64 in
              if size_t (len + header_len + num_bytes) <? len then (None, cbs)
              else
                (out <- CBS_get_bytes (size_t (len + header_len + num_bytes)) ;;
                 ret (mk_element out tag (header_len + num_bytes) (short || padded))) cbs
          end
    end
  end.

Definition CBS_get_any_asn1_element : SE CBS element := cbs_get_any_asn1_element false.

Definition CBS_get_any_ber_asn1_element : SE CBS element := cbs_get_any_asn1_element true.

(** Run a program on a CBS held in a result. *)
Definition on_cbs {A} (c : CBS) (m : SE CBS A) : SE CBS (A * CBS) := fun cbs =>
  match m c with
  | (Some a, c') => (Some (a, c'), cbs)
  | (None, _) => (None, cbs)
  end.

Definition CBS_get_any_asn1 : SE CBS (CBS * Z) :=
  e <- CBS_get_any_asn1_element ;;
  oc <- on_cbs (el_out e) (CBS_skip (el_header_len e)) ;;
  let '(_, out) := oc in
  ret (out, el_tag e).

Definition cbs_get_asn1 (tag_value : Z) (skip_header : bool) : SE CBS CBS :=
  e <- CBS_get_any_asn1_element ;;
  if negb (el_tag e =? tag_value) then fail
  else if skip_header then
    oc <- on_cbs (el_out e) (CBS_skip (el_header_len e)) ;;
    let '(_, out) := oc in ret out
  else ret (el_out e).

Definition CBS_get_asn1 (tag_value : Z) : SE CBS CBS := cbs_get_asn1 tag_value true.

Definition CBS_get_asn1_element (tag_value : Z) : SE CBS CBS := cbs_get_asn1 tag_value false.

Definition CBS_peek_asn1_tag (cbs : CBS) (tag_value : Z) : bool :=
  if CBS_len cbs <? 1 then false
  else
    match parse_asn1_tag cbs with
    | (Some actual_tag, _) => tag_value =? actual_tag
    | (None, _) => false
    end.

(** ** INTEGER, BOOLEAN, BIT STRING *)

(** [Some is_negative] when the contents are a minimal INTEGER. *)
Definition CBS_is_valid_asn1_integer (cbs : CBS) : option bool :=
  match CBS_get_u8 cbs with
  | (None, _) => None
  | (Some first_byte, copy) =>
      let is_negative := negb (Z.land first_byte 128 =? 0) in
      match CBS_get_u8 copy with
      | (None, _) => Some is_negative
      | (Some second_byte, _) =>
          if ((first_byte =? 0) && (Z.land second_byte 128 =? 0))
             || ((first_byte =? 255) && negb (Z.land second_byte 128 =? 0))
          then None
          else Some is_negative
      end
  end.

Definition CBS_is_unsigned_asn1_integer (cbs : CBS) : bool :=
  match CBS_is_valid_asn1_integer cbs with Some is_negative => negb is_negative | None => false end.

(** The accumulation loop of [CBS_get_asn1_uint64]. *)
Fixpoint asn1_uint64_loop (out : Z) (data : list Z) : option Z :=
  match data with
  | [] => Some out
  | b :: data =>
      if negb (Z.shiftr out 56 =? 0) then None
      else asn1_uint64_loop (Z.lor (u64 (Z.shiftl out 8)) b) data
  end.

Definition CBS_get_asn1_uint64 : SE CBS Z :=
  bytes <- CBS_get_asn1 CBS_ASN1_INTEGER ;;
  if negb (CBS_is_unsigned_asn1_integer bytes) then fail
  else
    match asn1_uint64_loop 0 (firstn (Z.to_nat (CBS_len bytes)) (CBS_data bytes)) with
    | Some out => ret out
    | None => fail
    end.

(** The union of [CBS_get_asn1_int64]: eight sign-extension bytes, the low
    ones overwritten with the contents reversed, read as a little-endian
    [int64_t]. *)
Definition CBS_get_asn1_int64 : SE CBS Z :=
  bytes <- CBS_get_asn1 CBS_ASN1_INTEGER ;;
  match CBS_is_valid_asn1_integer bytes with
  | None => fail
  | Some is_negative =>
      let len := CBS_len bytes in
      if 8 <? len then fail
      else
        let data := firstn (Z.to_nat len) (CBS_data bytes) in
        let u := splice 0 (rev data) (repeat (if is_negative then 255 else 0) 8) in
        ret (sint 64 (le_val u))
  end.

Definition CBS_get_asn1_bool : SE CBS bool :=
  bytes <- CBS_get_asn1 CBS_ASN1_BOOLEAN ;;
  if negb (CBS_len bytes =? 1) then fail
  else
    let value := at_ (CBS_data bytes) 0 in
    if negb (value =? 0) && negb (value =? 255) then fail
    else ret (negb (value =? 0)).

(** ** Optional elements *)

(** [None] in the result is [*out_present = 0]. *)
Definition CBS_get_optional_asn1 (tag : Z) : SE CBS (option CBS) := fun cbs =>
  if CBS_peek_asn1_tag cbs tag then
    (out <- CBS_get_asn1 tag ;; ret (Some out)) cbs
  else (Some None, cbs).

Definition CBS_get_optional_asn1_octet_string (tag : Z) : SE CBS (CBS * bool) :=
  child <- CBS_get_optional_asn1 tag ;;
  match child with
  | Some child =>
      oc <- on_cbs child (CBS_get_asn1 CBS_ASN1_OCTETSTRING) ;;
      let '(out, child) := oc in
      if negb (CBS_len child =? 0) then fail else ret (out, true)
  | None => ret (CBS_init [] 0, false)
  end.

Definition CBS_get_optional_asn1_uint64 (tag default_value : Z) : SE CBS Z :=
  child <- CBS_get_optional_asn1 tag ;;
  match child with
  | Some child =>
      oc <- on_cbs child CBS_get_asn1_uint64 ;;
      let '(out, child) := oc in
      if negb (CBS_len child =? 0) then fail else ret out
  | None => ret default_value
  end.

Definition CBS_get_optional_asn1_bool (tag default_value : Z) : SE CBS Z :=
  child <- CBS_get_optional_asn1 tag ;;
  match child with
  | Some child =>
      oc <- on_cbs child (CBS_get_asn1 CBS_ASN1_BOOLEAN) ;;
      let '(child2, child) := oc in
      if negb (CBS_len child2 =? 1) || negb (CBS_len child =? 0) then fail
      else
        let boolean := at_ (CBS_data child2) 0 in
        if boolean =? 0 then ret 0
        else if boolean =? 255 then ret 1
        else fail
  | None => ret default_value
  end.

Definition CBS_is_valid_asn1_bitstring (cbs : CBS) : bool :=
  match CBS_get_u8 cbs with
  | (None, _) => false
  | (Some num_unused_bits, inp) =>
      if 7 <? num_unused_bits then false
      else if num_unused_bits =? 0 then true
      else
        match CBS_get_last_u8 inp with
        | (None, _) => false
        | (Some last, _) => Z.land last (Z.shiftl 1 num_unused_bits - 1) =? 0
        end
  end.

Definition CBS_asn1_bitstring_has_bit (cbs : CBS) (bit : Z) : bool :=
  if negb (CBS_is_valid_asn1_bitstring cbs) then false
  else
    let byte_num := u32 (Z.shiftr bit 3 + 1) in
    let bit_num := 7 - Z.land bit 7 in
    (byte_num <? CBS_len cbs)
    && negb (Z.land (at_ (CBS_data cbs) byte_num) (Z.shiftl 1 bit_num) =? 0).

(** ** How the primitives move a CBS

    [advances c p c'] : from [c] the bytes [p] were consumed, leaving [c']. *)

Definition advances (c : CBS) (p : list Z) (c' : CBS) : Prop :=
  cbs_ok c' /\ cbs_bytes c = p ++ cbs_bytes c'.

(** [cbs_ok] of a concrete CBS. *)
Ltac cbs_ok_tac :=
  split; [split; [discriminate|reflexivity]|split; [discriminate|repeat constructor; discriminate]].

Lemma length_cbs_bytes c : cbs_ok c -> Z.of_nat (length (cbs_bytes c)) = cbs_len c.
Proof. intros (H1 & H2 & _). unfold cbs_bytes, word_ok in *. rewrite length_firstn. lia. Qed.

Lemma cbs_bytes_ok c : cbs_ok c -> bytes_ok (cbs_bytes c).
Proof. now intros (_ & _ & H). Qed.

Lemma CBS_init_ok l : bytes_ok l -> Z.of_nat (length l) < 2 ^ 64 ->
  cbs_ok (CBS_init l (Z.of_nat (length l))) /\ cbs_bytes (CBS_init l (Z.of_nat (length l))) = l.
Proof.
  intros H L. unfold cbs_ok, cbs_bytes, word_ok. cbn [cbs_len cbs_data CBS_init].
  rewrite Nat2Z.id, firstn_all. repeat split; auto; lia.
Qed.

(** A CBS over the first bytes of a block. *)
Lemma CBS_init_prefix l n : 0 <= n <= Z.of_nat (length l) -> n < 2 ^ 64 ->
  bytes_ok (firstn (Z.to_nat n) l) -> cbs_ok (CBS_init l n).
Proof. intros. unfold cbs_ok, word_ok, cbs_bytes. cbn [cbs_len cbs_data CBS_init]. split; [lia|]. split; [lia|assumption]. Qed.

Lemma advances_app c p c1 q c2 : advances c p c1 -> advances c1 q c2 -> advances c (p ++ q) c2.
Proof. intros [_ E1] [H2 E2]. split; [assumption|]. now rewrite E1, E2, app_assoc. Qed.

Lemma advances_bytes_ok c p c' : cbs_ok c -> advances c p c' -> bytes_ok p.
Proof. intros Hc [_ E]. apply cbs_bytes_ok in Hc. rewrite E in Hc. now apply Forall_app in Hc. Qed.

Lemma cbs_get_ok c p r :
  cbs_ok c -> cbs_bytes c = p ++ r ->
  exists c', cbs_get (Z.of_nat (length p)) c = (Some (cbs_data c), c') /\
    advances c p c' /\ cbs_bytes c' = r /\ firstn (length p) (cbs_data c) = p.
Proof.
  intros Hc E. pose proof (length_cbs_bytes c Hc) as L. rewrite E, length_app in L.
  destruct Hc as (H1 & H2 & H3). unfold word_ok in H1. unfold cbs_get.
  destruct (Z.ltb_spec (cbs_len c) (Z.of_nat (length p))); [lia|].
  rewrite Nat2Z.id, wrap_small by (unfold word_ok; lia).
  assert (Hp : firstn (length p) (cbs_data c) = p).
  { unfold cbs_bytes in E. apply (f_equal (firstn (length p))) in E.
    rewrite firstn_firstn, firstn_app, firstn_all, Nat.sub_diag, firstn_O, app_nil_r in E.
    rewrite Nat.min_l in E by lia. exact E. }
  assert (Hr : firstn (Z.to_nat (cbs_len c - Z.of_nat (length p))) (skipn (length p) (cbs_data c)) = r).
  { unfold cbs_bytes in E. rewrite <- (firstn_skipn (length p) (cbs_data c)), Hp in E.
    rewrite firstn_app, firstn_all2 in E by lia. apply app_inv_head in E.
    rewrite <- E. f_equal. lia. }
  eexists. split; [reflexivity|]. unfold advances, cbs_ok, cbs_bytes.
  cbn [cbs_len cbs_data]. rewrite Hr. repeat split; auto; try (unfold word_ok; lia).
  - rewrite length_skipn. lia.
  - rewrite E in H3. now apply Forall_app in H3.
Qed.

Lemma cbs_get_none c n : cbs_ok c -> Z.of_nat (length (cbs_bytes c)) < n -> cbs_get n c = (None, c).
Proof.
  intros Hc H. rewrite length_cbs_bytes in H by assumption. unfold cbs_get.
  destruct (Z.ltb_spec (cbs_len c) n); [reflexivity|lia].
Qed.

Lemma cbs_get_inv c n d c' :
  cbs_ok c -> 0 <= n -> cbs_get n c = (Some d, c') ->
  exists p, Z.of_nat (length p) = n /\ d = cbs_data c /\ firstn (Z.to_nat n) d = p /\ advances c p c'.
Proof.
  intros Hc Hn E. pose proof (length_cbs_bytes c Hc) as L.
  destruct (Z.lt_ge_cases (cbs_len c) n) as [H|H].
  { rewrite cbs_get_none in E by (assumption || lia). discriminate. }
  destruct (cbs_get_ok c (firstn (Z.to_nat n) (cbs_bytes c)) (skipn (Z.to_nat n) (cbs_bytes c)) Hc)
    as (c1 & E1 & A & _ & F); [now rewrite firstn_skipn|].
  rewrite length_firstn, Nat.min_l in * by lia. rewrite Z2Nat.id in E1 by lia.
  rewrite E in E1. injection E1 as -> ->.
  exists (firstn (Z.to_nat n) (cbs_bytes c)). rewrite length_firstn. repeat split; auto; try apply A. lia.
Qed.

Lemma fold_be p :
  bytes_ok p -> (length p <= 8)%nat ->
  fold_left (fun result b => Z.lor (u64 (Z.shiftl result 8)) b) p 0 = be_val p.
Proof.
  induction p as [|b p IH] using rev_ind; intros Hp Hl; [reflexivity|].
  apply Forall_app in Hp as [Hp Hb]. inversion Hb as [|? ? B _]; subst.
  rewrite length_app in Hl. cbn [length] in Hl.
  rewrite fold_left_app, be_val_snoc. cbn [fold_left]. rewrite IH by (assumption || lia).
  pose proof (be_val_bound p Hp) as V.
  assert (256 ^ Z.of_nat (length p) <= 256 ^ 7) by (apply Z.pow_le_mono_r; lia).
  rewrite wrap_small by (unfold word_ok; rewrite Z.shiftl_mul_pow2 by lia; lia).
  unfold word_ok in B. rewrite shiftl_lor_add by lia. reflexivity.
Qed.

Lemma cbs_get_u_ok c p r :
  cbs_ok c -> cbs_bytes c = p ++ r -> (length p <= 8)%nat ->
  exists c', cbs_get_u (Z.of_nat (length p)) c = (Some (be_val p), c') /\
    advances c p c' /\ cbs_bytes c' = r.
Proof.
  intros Hc E L. destruct (cbs_get_ok c p r Hc E) as (c' & G & A & R & F).
  exists c'. repeat split; try apply A; auto. unfold cbs_get_u. rewrite (bind_some _ _ _ _ _ G).
  unfold ret. rewrite Nat2Z.id, F, fold_be; auto. eapply advances_bytes_ok; eauto.
Qed.

Lemma cbs_get_u_inv c n v c' :
  cbs_ok c -> 0 <= n <= 8 -> cbs_get_u n c = (Some v, c') ->
  exists p, Z.of_nat (length p) = n /\ v = be_val p /\ bytes_ok p /\ advances c p c'.
Proof.
  intros Hc Hn E. unfold cbs_get_u in E. se_inv.
  match goal with H : cbs_get _ _ = _ |- _ => apply cbs_get_inv in H as (p & L & -> & F & A); [|assumption|lia] end.
  pose proof (advances_bytes_ok _ _ _ Hc A) as B. exists p. rewrite F, fold_be by (assumption || lia). auto.
Qed.

Lemma CBS_get_u8_ok c b r :
  cbs_ok c -> cbs_bytes c = b :: r ->
  exists c', CBS_get_u8 c = (Some b, c') /\ advances c [b] c' /\ cbs_bytes c' = r.
Proof.
  intros Hc E. destruct (cbs_get_ok c [b] r Hc E) as (c' & G & A & R & F).
  exists c'. split; [|auto]. unfold CBS_get_u8. change 1 with (Z.of_nat (length [b])).
  rewrite (bind_some _ _ _ _ _ G). unfold ret, at_. destruct (cbs_data c); [discriminate|].
  cbn in *. congruence.
Qed.

Lemma CBS_get_u8_none c : cbs_ok c -> cbs_bytes c = [] -> CBS_get_u8 c = (None, c).
Proof.
  intros Hc E. unfold CBS_get_u8. apply bind_none, cbs_get_none; [assumption|]. rewrite E. reflexivity.
Qed.

Lemma CBS_get_u8_inv c b c' :
  cbs_ok c -> CBS_get_u8 c = (Some b, c') -> byte_ok b /\ advances c [b] c'.
Proof.
  intros Hc E. destruct (cbs_bytes c) as [|b0 r] eqn:Eb.
  - rewrite CBS_get_u8_none in E by assumption. discriminate.
  - destruct (CBS_get_u8_ok c b0 r Hc Eb) as (c1 & E1 & A & _). rewrite E in E1.
    injection E1 as -> ->. split; [|assumption].
    apply advances_bytes_ok in A; [|assumption]. now inversion A.
Qed.

Lemma CBS_get_bytes_ok c p r :
  cbs_ok c -> cbs_bytes c = p ++ r ->
  exists o c', CBS_get_bytes (Z.of_nat (length p)) c = (Some o, c') /\
    cbs_ok o /\ cbs_bytes o = p /\ advances c p c' /\ cbs_bytes c' = r.
Proof.
  intros Hc E. destruct (cbs_get_ok c p r Hc E) as (c' & G & A & R & F).
  eexists _, c'. unfold CBS_get_bytes. rewrite (bind_some _ _ _ _ _ G).
  split; [reflexivity|]. pose proof (length_cbs_bytes c Hc) as L. rewrite E, length_app in L.
  destruct Hc as (H1 & H2 & H3).
  unfold cbs_ok, cbs_bytes, word_ok in *. cbn [cbs_len cbs_data CBS_init]. rewrite Nat2Z.id.
  repeat split; try apply A; auto; try lia.
  unfold cbs_bytes in F. rewrite F. rewrite E in H3. now apply Forall_app in H3.
Qed.

Lemma CBS_get_bytes_inv c n o c' :
  cbs_ok c -> 0 <= n -> CBS_get_bytes n c = (Some o, c') ->
  exists p, Z.of_nat (length p) = n /\ cbs_ok o /\ cbs_bytes o = p /\ advances c p c'.
Proof.
  intros Hc Hn E. pose proof E as E'. unfold CBS_get_bytes in E'. se_inv.
  match goal with H : cbs_get _ _ = _ |- _ => apply cbs_get_inv in H as (p & L & -> & F & A); [|assumption|lia] end.
  destruct (CBS_get_bytes_ok c p (cbs_bytes c') Hc) as (o & c1 & E1 & Ho & Eo & A1 & _); [apply A|].
  rewrite L, E in E1. injection E1 as <- <-. exists p. auto.
Qed.

(** ** DER identifiers and lengths, as byte strings

    The reference encoding the parser is compared with (and which [Cbb]
    produces): base-128 numbers, identifier octets, definite lengths in the
    minimal form, and the element they head. *)

(** The continuation octets for the leading base-128 digits of [v]. *)
Fixpoint base128_hi_fuel (fuel : nat) (v : Z) : list Z :=
  match fuel with
  | O => []
  | S fuel => if v <=? 0 then [] else base128_hi_fuel fuel (v / 128) ++ [128 + v mod 128]
  end.

Definition base128_hi (v : Z) : list Z := base128_hi_fuel (Z.to_nat (Z.log2 v + 1)) v.

Definition base128 (v : Z) : list Z := base128_hi (v / 128) ++ [v mod 128].

Definition der_tag (tag : Z) : list Z :=
  let n := tag mod 2 ^ 29 in
  if n <? 31 then [tag / 2 ^ 29 * 32 + n] else (tag / 2 ^ 29 * 32 + 31) :: base128 n.

Definition der_length (n : Z) : list Z :=
  if n <? 128 then [n]
  else if n <? 256 then 129 :: be_bytes 1 n
  else if n <? 65536 then 130 :: be_bytes 2 n
  else if n <? 16777216 then 131 :: be_bytes 3 n
  else 132 :: be_bytes 4 n.

Definition der_header (tag n : Z) : list Z := der_tag tag ++ der_length n.

Definition der_tlv (tag : Z) (body : list Z) : list Z :=
  der_header tag (Z.of_nat (length body)) ++ body.

Lemma base128_hi_fuel_enough f g v :
  v < 2 ^ Z.of_nat f -> v < 2 ^ Z.of_nat g -> base128_hi_fuel f v = base128_hi_fuel g v.
Proof.
  revert g v. induction f as [|f IH]; intros [|g] v Hf Hg; cbn [base128_hi_fuel];
    destruct (Z.leb_spec v 0); try reflexivity; try (cbn in *; lia).
  rewrite Nat2Z.inj_succ, Z.pow_succ_r in * by lia.
  rewrite (IH g) by lia_div. reflexivity.
Qed.

Lemma base128_hi_unfold v :
  base128_hi v = if v <=? 0 then [] else base128_hi (v / 128) ++ [128 + v mod 128].
Proof.
  unfold base128_hi. destruct (Z.leb_spec v 0) as [H|H].
  - destruct v; [reflexivity|lia|reflexivity].
  - pose proof (Z.log2_spec v H). pose proof (Z.log2_nonneg v).
    replace (Z.to_nat (Z.log2 v + 1)) with (S (Z.to_nat (Z.log2 v))) by lia.
    cbn [base128_hi_fuel]. destruct (Z.leb_spec v 0); [lia|]. f_equal.
    apply base128_hi_fuel_enough.
    + rewrite Z2Nat.id by lia. rewrite Z.pow_succ_r in * by lia. lia_div.
    + destruct (Z.eq_dec (v / 128) 0) as [->|N]; [cbn; lia|].
      pose proof (Z.log2_spec (v / 128) ltac:(lia_div)).
      pose proof (Z.log2_nonneg (v / 128)). rewrite Z2Nat.id by lia. now rewrite Z.add_1_r.
Qed.

Lemma base128_hi_snoc v b :
  0 <= v -> 0 <= b < 128 -> v * 128 + b <> 0 ->
  base128_hi (v * 128 + b) = base128_hi v ++ [128 + b].
Proof.
  intros Hv Hb Hn. rewrite base128_hi_unfold. destruct (Z.leb_spec (v * 128 + b) 0); [lia|].
  replace ((v * 128 + b) / 128) with v by lia_div.
  now replace ((v * 128 + b) mod 128) with b by lia_div.
Qed.

Lemma base128_snoc v b : 0 <= v -> 0 <= b < 128 -> base128 (v * 128 + b) = base128_hi v ++ [b].
Proof.
  intros Hv Hb. unfold base128.
  replace ((v * 128 + b) / 128) with v by lia_div.
  now replace ((v * 128 + b) mod 128) with b by lia_div.
Qed.

Lemma base128_hi_ind (P : Z -> Prop) :
  P 0 -> (forall v, 0 < v -> P (v / 128) -> P v) -> forall v, 0 <= v -> P v.
Proof.
  intros H0 H1 v. induction v as [v IH] using (well_founded_induction (Z.lt_wf 0)).
  intros Hv. destruct (Z.eq_dec v 0) as [->|]; [assumption|]. apply H1; [lia|]. apply IH; lia_div.
Qed.

Lemma base128_ok v : 0 <= v -> bytes_ok (base128 v).
Proof.
  intros Hv. unfold base128. apply Forall_app. split.
  - assert (H : 0 <= v / 128) by lia_div. revert H. generalize (v / 128). clear.
    intros v Hv. pattern v. apply base128_hi_ind; [constructor| |assumption].
    clear. intros v Hv IH. rewrite base128_hi_unfold. destruct (v <=? 0); [constructor|].
    apply Forall_app. split; [assumption|]. constructor; [|constructor].
    unfold word_ok. pose proof (Z.mod_pos_bound v 128). lia.
  - constructor; [|constructor]. unfold word_ok. pose proof (Z.mod_pos_bound v 128). lia.
Qed.

(** *** The octets the parser reads *)

Lemma base128_digit b :
  byte_ok b ->
  Z.land b 127 = b mod 128 /\ negb (Z.land b 128 =? 0) = (128 <=? b).
Proof.
  intros Hb. split; [apply (land_mask b 7); lia|].
  apply eqb_prop. revert b Hb. apply byte_cases. vm_compute. reflexivity.
Qed.

Lemma base128_shift v b :
  0 <= v < 2 ^ 57 -> 0 <= b < 128 -> Z.lor (u64 (Z.shiftl v 7)) b = v * 128 + b.
Proof.
  intros Hv Hb. rewrite wrap_small by (unfold word_ok; rewrite Z.shiftl_mul_pow2 by lia; lia).
  now rewrite shiftl_lor_add by lia.
Qed.

(** One round of the loop on a byte [b]. *)
Lemma parse_base128_round f v c b c1 :
  0 <= v -> CBS_get_u8 c = (Some b, c1) -> byte_ok b ->
  parse_base128_loop (S f) v c =
    if 2 ^ 57 <=? v then (None, c1)
    else if (v =? 0) && (b =? 128) then (None, c1)
    else if 128 <=? b then parse_base128_loop f (v * 128 + (b - 128)) c1
    else (Some (v * 128 + b), c1).
Proof.
  intros Hv E Hb. cbn [parse_base128_loop]. rewrite (bind_some _ _ _ _ _ E).
  destruct (base128_digit b Hb) as [D1 D2]. rewrite D1, D2, Z.shiftr_div_pow2 by lia.
  change (64 - 7) with 57. unfold word_ok in Hb.
  destruct (Z.leb_spec (2 ^ 57) v) as [H|H].
  - replace (v / 2 ^ 57 =? 0) with false; [reflexivity|].
    symmetry. apply Z.eqb_neq. pose proof (Z.div_le_mono (2 ^ 57) v (2 ^ 57)). 
    rewrite Z.div_same in * by lia. lia.
  - rewrite (Z.div_small v) by lia. cbn [Z.eqb negb].
    destruct ((v =? 0) && (b =? 128)); [reflexivity|].
    rewrite base128_shift by (try apply Z.mod_pos_bound; lia).
    destruct (Z.leb_spec 128 b).
    + now replace (b mod 128) with (b - 128) by lia_div.
    + now rewrite (Z.mod_small b) by lia.
Qed.

Lemma parse_base128_loop_inv f v c r c' :
  cbs_ok c -> 0 <= v -> parse_base128_loop f v c = (Some r, c') ->
  0 <= r < 2 ^ 64 /\
  exists p, advances c p c' /\ base128_hi v ++ p = base128 r.
Proof.
  revert v c. induction f as [|f IH]; intros v c Hc Hv E; [discriminate|].
  destruct (CBS_get_u8 c) as [[b|] c1] eqn:Eb.
  2: { cbn [parse_base128_loop] in E. rewrite (bind_none _ _ _ _ Eb) in E. discriminate. }
  destruct (CBS_get_u8_inv c b c1 Hc Eb) as [Ob A].
  rewrite (parse_base128_round f v c b c1 Hv Eb Ob) in E. unfold word_ok in Ob.
  destruct (Z.leb_spec (2 ^ 57) v); [discriminate|].
  assert (Nz : v <> 0 \/ b <> 128).
  { destruct (Z.eqb_spec v 0), (Z.eqb_spec b 128); [discriminate| | |]; auto. }
  destruct ((v =? 0) && (b =? 128)); [discriminate|].
  destruct (Z.leb_spec 128 b) as [B|B].
  - apply IH in E as (R & p & A' & P); [|apply A|lia]. split; [assumption|].
    exists ([b] ++ p). split; [eapply advances_app; eauto|].
    rewrite base128_hi_snoc in P by lia. rewrite <- P, <- app_assoc. cbn [app].
    do 2 f_equal. lia.
  - injection E as <- <-. split; [lia|]. exists [b]. split; [assumption|].
    rewrite base128_snoc by lia. reflexivity.
Qed.

Lemma parse_base128_integer_inv c r c' :
  cbs_ok c -> parse_base128_integer c = (Some r, c') ->
  0 <= r < 2 ^ 64 /\ advances c (base128 r) c'.
Proof.
  intros Hc E. apply parse_base128_loop_inv in E as (R & p & A & P); [|assumption|lia].
  split; [assumption|]. now rewrite <- P.
Qed.


(** *** The parser accepts every minimal encoding of a 64-bit number *)

Lemma parse_base128_hi_ok u : 0 <= u -> u < 2 ^ 64 -> forall f c rest,
  cbs_ok c -> cbs_bytes c = base128_hi u ++ rest ->
  exists c1, parse_base128_loop (f + length (base128_hi u)) 0 c = parse_base128_loop f u c1 /\
    advances c (base128_hi u) c1 /\ cbs_bytes c1 = rest.
Proof.
  intros Hu. pattern u. apply base128_hi_ind; [| |assumption]; clear u Hu.
  - intros _ f c rest Hc E. exists c. cbn [base128_hi base128_hi_fuel Z.to_nat length].
    rewrite Nat.add_0_r. repeat split; try apply Hc; assumption.
  - intros u Hu IH Hb f c rest Hc E. rewrite base128_hi_unfold in E |- *.
    destruct (Z.leb_spec u 0); [lia|]. rewrite <- app_assoc in E. cbn [app] in E.
    destruct (IH ltac:(lia_div) (S f) c _ Hc E) as (c1 & P & A & R).
    destruct (CBS_get_u8_ok c1 _ _ (proj1 A) R) as (c2 & G & A2 & R2).
    exists c2. split; [|split; [eapply advances_app; eauto|assumption]].
    rewrite length_app. cbn [length].
    replace (f + (length (base128_hi (u / 128)) + 1))%nat
      with (S f + length (base128_hi (u / 128)))%nat by lia.
    rewrite P. erewrite parse_base128_round; [|lia_div|eassumption|unfold word_ok; lia_div].
    destruct (Z.leb_spec (2 ^ 57) (u / 128)); [exfalso; lia_div|].
    destruct (Z.eqb_spec (u / 128) 0), (Z.eqb_spec (128 + u mod 128) 128); cbn [andb];
      try (exfalso; lia_div);
      (destruct (Z.leb_spec 128 (128 + u mod 128)); [f_equal; lia_div|exfalso; lia_div]).
Qed.

Lemma parse_base128_integer_ok r c rest :
  cbs_ok c -> 0 <= r < 2 ^ 64 -> cbs_bytes c = base128 r ++ rest ->
  exists c', parse_base128_integer c = (Some r, c') /\ advances c (base128 r) c' /\ cbs_bytes c' = rest.
Proof.
  intros Hc Hr E. unfold base128 in E. rewrite <- app_assoc in E. cbn [app] in E.
  pose proof (length_cbs_bytes c Hc) as L. rewrite E, length_app in L. cbn [length] in L.
  destruct (parse_base128_hi_ok (r / 128) ltac:(lia_div) ltac:(lia_div)
              (S (S (length rest))) c _ Hc E) as (c1 & P & A & R).
  destruct (CBS_get_u8_ok c1 _ _ (proj1 A) R) as (c2 & G & A2 & R2).
  exists c2. split; [|split; [eapply advances_app; eauto|assumption]].
  unfold parse_base128_integer.
  replace (S (Z.to_nat (cbs_len c))) with (S (S (length rest)) + length (base128_hi (r / 128)))%nat
    by lia.
  rewrite P. erewrite parse_base128_round; [|lia_div|eassumption|unfold word_ok; lia_div].
  destruct (Z.leb_spec (2 ^ 57) (r / 128)); [exfalso; lia_div|].
  destruct (Z.eqb_spec (r mod 128) 128); [exfalso; lia_div|]. rewrite andb_false_r.
  destruct (Z.leb_spec 128 (r mod 128)); [exfalso; lia_div|]. do 2 f_equal. lia_div.
Qed.

(** ** Identifiers *)

Lemma tag_class b :
  byte_ok b ->
  (u32 (Z.shiftl (Z.land b 224) 24) =? b / 32 * 2 ^ 29) && (Z.land b 31 =? b mod 32) = true.
Proof. revert b. apply byte_cases. vm_compute. reflexivity. Qed.

Lemma tag_join cls n : 0 <= n < 2 ^ 29 -> Z.lor (cls * 2 ^ 29) n = cls * 2 ^ 29 + n.
Proof. intros. rewrite <- (Z.shiftl_mul_pow2 cls) at 1 by lia. now apply shiftl_lor_add. Qed.

(** One identifier, from its first octet on. *)
Lemma parse_asn1_tag_round c b c1 :
  byte_ok b -> CBS_get_u8 c = (Some b, c1) ->
  parse_asn1_tag c =
    if b mod 32 =? 31 then
      match parse_base128_integer c1 with
      | (Some v, c2) =>
          if (v <? 2 ^ 29) && (31 <=? v) then (Some (b / 32 * 2 ^ 29 + v), c2) else (None, c2)
      | (None, c2) => (None, c2)
      end
    else (Some (b / 32 * 2 ^ 29 + b mod 32), c1).
Proof.
  intros Hb E. unfold parse_asn1_tag. rewrite (bind_some _ _ _ _ _ E).
  pose proof (tag_class b Hb) as T. apply andb_prop in T as [T1 T2].
  apply Z.eqb_eq in T1, T2. change CBS_ASN1_TAG_SHIFT with 24. rewrite T1, T2.
  destruct (Z.eqb_spec (b mod 32) 31) as [H|H].
  - unfold bind. destruct (parse_base128_integer c1) as [[v|] c2]; [|reflexivity].
    change CBS_ASN1_TAG_NUMBER_MASK with (2 ^ 29 - 1).
    destruct (Z.ltb_spec (2 ^ 29 - 1) v), (Z.ltb_spec v 31), (Z.ltb_spec v (2 ^ 29)), (Z.leb_spec 31 v);
      cbn [orb andb]; try reflexivity; try lia.
    rewrite (wrap_small 32) by (unfold word_ok; lia). unfold ret. now rewrite tag_join by lia.
  - unfold ret. rewrite tag_join; [reflexivity|]. lia_div.
Qed.

Lemma parse_asn1_tag_inv c t c' :
  cbs_ok c -> parse_asn1_tag c = (Some t, c') -> word_ok 32 t /\ advances c (der_tag t) c'.
Proof.
  intros Hc E. destruct (CBS_get_u8 c) as [[b|] c1] eqn:Eb.
  2: { unfold parse_asn1_tag in E. rewrite (bind_none _ _ _ _ Eb) in E. discriminate. }
  destruct (CBS_get_u8_inv c b c1 Hc Eb) as [Ob A].
  rewrite (parse_asn1_tag_round c b c1 Ob Eb) in E. unfold word_ok in Ob.
  destruct (Z.eqb_spec (b mod 32) 31) as [H|H].
  - destruct (parse_base128_integer c1) as [[v|] c2] eqn:Ev; [|discriminate].
    apply parse_base128_integer_inv in Ev as [_ Av]; [|apply A].
    destruct (Z.ltb_spec v (2 ^ 29)); [|discriminate]. destruct (Z.leb_spec 31 v); [|discriminate].
    cbn [andb] in E. injection E as <- <-. split; [unfold word_ok; lia_div|].
    unfold der_tag. rewrite Z.div_add_l, (Z.div_small v), Z.add_0_r by lia.
    rewrite (Z.add_comm _ v), Z_mod_plus_full, (Z.mod_small v) by lia.
    destruct (Z.ltb_spec v 31); [lia|].
    replace (b / 32 * 32 + 31) with b by lia_div.
    change (b :: base128 v) with ([b] ++ base128 v). eapply advances_app; eauto.
  - injection E as <- <-. split; [unfold word_ok; lia_div|].
    assert (0 <= b mod 32 < 31) by lia_div. unfold der_tag.
    rewrite Z.div_add_l, (Z.div_small (b mod 32)), Z.add_0_r by lia.
    rewrite (Z.add_comm _ (b mod 32)), Z_mod_plus_full, (Z.mod_small (b mod 32)) by lia.
    destruct (Z.ltb_spec (b mod 32) 31); [|lia].
    now replace (b / 32 * 32 + b mod 32) with b by lia_div.
Qed.

Lemma parse_asn1_tag_ok c t rest :
  cbs_ok c -> word_ok 32 t -> cbs_bytes c = der_tag t ++ rest ->
  exists c', parse_asn1_tag c = (Some t, c') /\ advances c (der_tag t) c' /\ cbs_bytes c' = rest.
Proof.
  intros Hc Ht E. unfold word_ok in Ht. unfold der_tag in *.
  assert (Hn : 0 <= t mod 2 ^ 29 < 2 ^ 29) by lia_div.
  assert (Hk : 0 <= t / 2 ^ 29 < 8) by lia_div.
  assert (Et : t / 2 ^ 29 * 2 ^ 29 + t mod 2 ^ 29 = t) by lia_div.
  revert E Hn Hk Et. generalize (t / 2 ^ 29) (t mod 2 ^ 29). intros k n E Hn Hk Et.
  destruct (Z.ltb_spec n 31) as [H|H]; cbn [app] in E;
    destruct (CBS_get_u8_ok c _ _ Hc E) as (c1 & G & A & R).
  - exists c1. split; [|auto]. rewrite (parse_asn1_tag_round c (k * 32 + n) c1) by (assumption || (unfold word_ok; lia)).
    replace ((k * 32 + n) mod 32) with n by lia_div.
    replace ((k * 32 + n) / 32) with k by lia_div.
    destruct (Z.eqb_spec n 31); [lia|]. now rewrite Et.
  - destruct (parse_base128_integer_ok n c1 rest (proj1 A) ltac:(lia) R) as (c2 & P & A2 & R2).
    exists c2. split; [|split; [change (?b :: ?l) with ([b] ++ l); eapply advances_app; eauto|assumption]].
    rewrite (parse_asn1_tag_round c (k * 32 + 31) c1) by (assumption || (unfold word_ok; lia)).
    replace ((k * 32 + 31) mod 32) with 31 by lia_div.
    replace ((k * 32 + 31) / 32) with k by lia_div. cbn [Z.eqb Pos.eqb]. rewrite P.
    destruct (Z.ltb_spec n (2 ^ 29)); [|lia]. destruct (Z.leb_spec 31 n); [|lia].
    cbn [andb]. now rewrite Et.
Qed.

(** ** Lengths *)

Lemma der_length_cases n :
  0 <= n < 2 ^ 32 ->
  (n < 128 /\ der_length n = [n]) \/
  (128 <= n /\ exists k, (1 <= k <= 4)%nat /\ der_length n = 128 + Z.of_nat k :: be_bytes k n /\
     256 ^ (Z.of_nat k - 1) <= n < 256 ^ Z.of_nat k).
Proof.
  intros H. unfold der_length. destruct (Z.ltb_spec n 128); [auto|]. right. split; [assumption|].
  destruct (Z.ltb_spec n 256); [exists 1%nat; repeat split; lia|].
  destruct (Z.ltb_spec n 65536); [exists 2%nat; repeat split; lia|].
  destruct (Z.ltb_spec n 16777216); [exists 3%nat; repeat split; lia|].
  exists 4%nat; repeat split; lia.
Qed.

Lemma der_length_be q :
  bytes_ok q -> (1 <= length q <= 4)%nat -> 128 <= be_val q ->
  be_val q / 256 ^ (Z.of_nat (length q) - 1) <> 0 ->
  der_length (be_val q) = 128 + Z.of_nat (length q) :: q.
Proof.
  intros Hq Hl H1 H2. pose proof (be_val_bound q Hq) as B.
  pose proof (be_bytes_be_val q Hq) as E.
  assert (L : 256 ^ (Z.of_nat (length q) - 1) <= be_val q).
  { destruct (Z.lt_ge_cases (be_val q) (256 ^ (Z.of_nat (length q) - 1))); [|assumption].
    rewrite Z.div_small in H2 by lia. congruence. }
  revert E L B H1. generalize (be_val q). intros v E L B H1.
  destruct q as [|a [|b [|d [|f [|]]]]]; cbn [length] in *; try lia;
    change (Z.of_nat 1) with 1 in *; change (Z.of_nat 2) with 2 in *;
    change (Z.of_nat 3) with 3 in *; change (Z.of_nat 4) with 4 in *;
    cbn [Z.sub Z.add Z.opp Z.pos_sub Pos.pred_double Z.pow Z.pow_pos Pos.iter Z.mul Pos.mul Pos.add] in B, L;
    unfold der_length;
    (destruct (Z.ltb_spec v 128); [lia|]);
    (destruct (Z.ltb_spec v 256); [try lia|]); try (rewrite E; reflexivity);
    (destruct (Z.ltb_spec v 65536); [try lia|]); try (rewrite E; reflexivity);
    (destruct (Z.ltb_spec v 16777216); [try lia|]); try (rewrite E; reflexivity); lia.
Qed.

Lemma der_length_ok n : 0 <= n < 2 ^ 32 -> bytes_ok (der_length n).
Proof.
  intros H. destruct (der_length_cases n H) as [[L ->]|(L & k & Hk & -> & _)].
  - repeat constructor; lia.
  - constructor; [unfold word_ok; lia|apply be_bytes_ok].
Qed.

Lemma length_base128_hi k : forall v, v < 128 ^ Z.of_nat k -> (length (base128_hi v) <= k)%nat.
Proof.
  induction k as [|k IH]; intros v Hv; rewrite base128_hi_unfold; (destruct (Z.leb_spec v 0); [cbn [length]; lia|]).
  { cbn in Hv. lia. }
  rewrite length_app. cbn [length]. rewrite Nat2Z.inj_succ, Z.pow_succ_r in Hv by lia.
  pose proof (IH (v / 128) ltac:(lia_div)). lia.
Qed.

Lemma length_der_tag t : word_ok 32 t -> (length (der_tag t) <= 6)%nat.
Proof.
  intros Ht. unfold der_tag. destruct (_ <? 31); [cbn; lia|].
  unfold base128. cbn [length]. rewrite length_app. cbn [length].
  pose proof (length_base128_hi 4 (t mod 2 ^ 29 / 128) ltac:(lia_div)). lia.
Qed.

(** Reading a header again together with what follows it. *)
Lemma CBS_get_bytes_header c h h' m o c' :
  cbs_ok c -> advances c h h' -> 0 <= m ->
  CBS_get_bytes (Z.of_nat (length h) + m) c = (Some o, c') ->
  exists body, Z.of_nat (length body) = m /\ cbs_ok o /\ cbs_bytes o = h ++ body /\
    advances c (h ++ body) c'.
Proof.
  intros Hc [Hh Eh] Hm E. apply CBS_get_bytes_inv in E as (p & L & Ho & Eo & A); [|assumption|lia].
  destruct A as [Hc' Ec]. exists (skipn (length h) p).
  pose proof (app_prefix h p _ _ (eq_trans (eq_sym Eh) Ec) ltac:(lia)) as P.
  rewrite length_skipn, <- P. unfold advances. split; [lia|auto].
Qed.

(** The offset of a reader that has advanced, without wrap-around. *)
Lemma advances_offset c h h' :
  cbs_ok c -> advances c h h' -> size_t (CBS_len c - CBS_len h') = Z.of_nat (length h).
Proof.
  intros Hc [Hh E]. pose proof (length_cbs_bytes c Hc) as L1. pose proof (length_cbs_bytes h' Hh) as L2.
  rewrite E, length_app in L1. unfold CBS_len. destruct Hc as [Hc _]. unfold word_ok in Hc.
  rewrite wrap_small by (unfold word_ok; lia). lia.
Qed.

Lemma advances_fits c h h' : cbs_ok c -> advances c h h' -> Z.of_nat (length h) < 2 ^ 64.
Proof.
  intros Hc [Hh E]. pose proof (length_cbs_bytes c Hc) as L1.
  rewrite E, length_app in L1. destruct Hc as [Hc _]. unfold word_ok in Hc. lia.
Qed.

(** ** Elements *)

Lemma der_element_inv c e c' :
  cbs_ok c -> CBS_get_any_asn1_element c = (Some e, c') ->
  exists body,
    word_ok 32 (el_tag e) /\ Z.of_nat (length body) < 2 ^ 32 /\ el_ber_found e = false /\
    el_header_len e = Z.of_nat (length (der_header (el_tag e) (Z.of_nat (length body)))) /\
    cbs_ok (el_out e) /\ cbs_bytes (el_out e) = der_tlv (el_tag e) body /\
    advances c (der_tlv (el_tag e) body) c'.
Proof.
  intros Hc E. unfold CBS_get_any_asn1_element, cbs_get_any_asn1_element in E.
  destruct (parse_asn1_tag c) as [[t|] h1] eqn:E1; [|discriminate].
  apply parse_asn1_tag_inv in E1 as [Ht A1]; [|assumption].
  destruct (CBS_get_u8 h1) as [[lb|] h2] eqn:E2; [|discriminate].
  apply CBS_get_u8_inv in E2 as [Hb A2]; [|apply A1].
  pose proof (advances_app _ _ _ _ _ A1 A2) as A12. cbv zeta in E.
  rewrite (advances_offset c _ h2 Hc A12) in E.
  pose proof (advances_fits c _ h2 Hc A12) as F12.
  destruct (base128_digit lb Hb) as [D1 D2].
  assert (D3 : (Z.land lb 128 =? 0) = (lb <? 128)).
  { rewrite Z.ltb_antisym, <- D2. now rewrite negb_involutive. }
  rewrite D3, D1 in E. cbn [andb] in E. unfold word_ok in Hb.
  destruct (Z.ltb_spec lb 128) as [S|S].
  - assert (Lh : Z.of_nat (length (der_tag t ++ [lb])) <= 7).
    { rewrite length_app. cbn [length]. pose proof (length_der_tag t Ht). lia. }
    rewrite wrap_small, Z.add_comm in E by (unfold word_ok; lia). se_inv.
    match goal with H : CBS_get_bytes _ _ = _ |- _ =>
      apply (CBS_get_bytes_header c _ h2) in H as (body & L & Ho & Eo & A); [|assumption..|lia] end.
    exists body. cbn [el_tag el_ber_found el_header_len el_out]. unfold der_tlv, der_header, der_length.
    rewrite L. destruct (Z.ltb_spec lb 128); [|lia].
    split; [assumption|]. split; [lia|]. auto.
  - replace (lb mod 128) with (lb - 128) in E by lia_div.
    destruct (Z.eqb_spec (lb - 128) 0); [discriminate|]. destruct (Z.ltb_spec 4 (lb - 128)); [discriminate|].
    cbn [orb] in E. destruct (cbs_get_u (lb - 128) h2) as [[len|] h3] eqn:E3; [|discriminate].
    apply cbs_get_u_inv in E3 as (q & Lq & -> & Hq & A3); [|apply A12|lia].
    pose proof (advances_app _ _ _ _ _ A12 A3) as A123.
    pose proof (advances_fits c _ h3 Hc A123) as F123. rewrite length_app in F123.
    pose proof (be_val_bound q Hq) as Bq.
    assert (256 ^ Z.of_nat (length q) <= 256 ^ 4) by (apply Z.pow_le_mono_r; lia).
    destruct (Z.ltb_spec (be_val q) 128); [discriminate|]. cbn [orb negb] in E.
    rewrite Z.shiftr_div_pow2 in E by lia.
    rewrite (wrap_small 64 (be_val q)) in E by (unfold word_ok; lia).
    destruct (Z.eqb_spec (be_val q / 2 ^ ((lb - 128 - 1) * 8)) 0) as [|Np]; [discriminate|].
    cbn [andb] in E. rewrite <- Lq, Z.mul_comm, Z.pow_mul_r in Np by lia. change (2 ^ 8) with 256 in Np.
    destruct (Z.ltb_spec (size_t (be_val q + Z.of_nat (length (der_tag t ++ [lb])) + (lb - 128))) (be_val q));
      [discriminate|].
    se_inv.
    match goal with H : CBS_get_bytes ?n _ = _ |- _ =>
      replace n with (Z.of_nat (length ((der_tag t ++ [lb]) ++ q)) + be_val q) in H;
      [apply (CBS_get_bytes_header c _ h3) in H as (body & L & Ho & Eo & A); [|assumption..|lia]|] end.
    2: { rewrite !length_app in *. unfold wrap in *. lia_div. }
    exists body. cbn [el_tag el_ber_found el_header_len el_out].
    assert (DL : der_length (be_val q) = lb :: q).
    { rewrite der_length_be by (assumption || lia). f_equal. lia. }
    unfold der_tlv, der_header. rewrite L, DL, <- !app_assoc in *. cbn [app] in *.
    split; [assumption|]. split; [lia|]. split; [reflexivity|]. split; [|auto].
    rewrite !length_app. cbn [length]. lia.
Qed.

(** The BER parser accepts them as well, and finds no BER in them. *)
Lemma der_element_ok_gen ber_ok c t body rest :
  cbs_ok c -> word_ok 32 t -> Z.of_nat (length body) < 2 ^ 32 ->
  cbs_bytes c = der_tlv t body ++ rest ->
  exists o c',
    cbs_get_any_asn1_element ber_ok c =
      (Some (mk_element o t (Z.of_nat (length (der_header t (Z.of_nat (length body))))) false), c') /\
    cbs_ok o /\ cbs_bytes o = der_tlv t body /\ cbs_ok c' /\ cbs_bytes c' = rest.
Proof.
  intros Hc Ht Hl E.
  destruct (CBS_get_bytes_ok c _ _ Hc E) as (o & c' & G & Ho & Eo & A & R).
  exists o, c'. split; [|pose proof (proj1 A); auto].
  unfold cbs_get_any_asn1_element.
  pose proof (length_cbs_bytes c Hc) as Lc. pose proof (proj1 Hc) as Wc. unfold word_ok in Wc.
  unfold der_tlv, der_header in *. rewrite <- !app_assoc in E.
  destruct (parse_asn1_tag_ok c t _ Hc Ht E) as (h1 & P1 & A1 & R1). rewrite P1.
  rewrite E, !length_app in Lc. rewrite !length_app in G |- *.
  destruct (der_length_cases (Z.of_nat (length body)) ltac:(lia)) as [[S DL]|(S & k & Hk & DL & B)];
    rewrite DL in *; rewrite ?length_app in G; cbn [app length] in *.
  - destruct (CBS_get_u8_ok h1 _ _ (proj1 A1) R1) as (h2 & P2 & A2 & R2). rewrite P2.
    pose proof (advances_app _ _ _ _ _ A1 A2) as A12. cbv zeta.
    rewrite (advances_offset c _ h2 Hc A12).
    destruct (base128_digit (Z.of_nat (length body)) ltac:(unfold word_ok; lia)) as [D1 D2].
    destruct (Z.leb_spec 128 (Z.of_nat (length body))); [lia|].
    destruct (Z.land (Z.of_nat (length body)) 128 =? 0); [|discriminate].
    rewrite length_app. cbn [length]. rewrite wrap_small by (unfold word_ok; lia).
    erewrite bind_some; [reflexivity|]. rewrite <- G. f_equal. lia.
  - destruct (CBS_get_u8_ok h1 _ _ (proj1 A1) R1) as (h2 & P2 & A2 & R2). rewrite P2.
    pose proof (advances_app _ _ _ _ _ A1 A2) as A12. cbv zeta.
    rewrite (advances_offset c _ h2 Hc A12).
    destruct (base128_digit (128 + Z.of_nat k) ltac:(unfold word_ok; lia)) as [D1 D2].
    destruct (Z.leb_spec 128 (128 + Z.of_nat k)); [|lia].
    destruct (Z.land (128 + Z.of_nat k) 128 =? 0); [discriminate|]. rewrite D1.
    replace ((128 + Z.of_nat k) mod 128) with (Z.of_nat k) by lia_div. cbn [andb].
    destruct (Z.eqb_spec (Z.of_nat k) 0); [lia|]. rewrite andb_false_r.
    destruct (Z.ltb_spec 4 (Z.of_nat k)); [lia|]. cbn [orb].
    destruct (cbs_get_u_ok h2 _ _ (proj1 A2) R2) as (h3 & P3 & A3 & R3);
      [rewrite length_be_bytes; lia|].
    rewrite length_be_bytes in *. rewrite P3, be_val_be_bytes, (Z.mod_small (Z.of_nat (length body))) by lia.
    destruct (Z.ltb_spec (Z.of_nat (length body)) 128); [lia|]. cbn [orb negb].
    rewrite (wrap_small 64 (Z.of_nat (length body))) by (unfold word_ok; lia).
    rewrite Z.shiftr_div_pow2, (Z.mul_comm _ 8), Z.pow_mul_r by lia. change (2 ^ 8) with 256.
    destruct (Z.eqb_spec (Z.of_nat (length body) / 256 ^ (Z.of_nat k - 1)) 0) as [N|N].
    { apply Z.div_small_iff in N; lia. }
    cbn [andb]. rewrite length_app. cbn [length].
    rewrite wrap_small by (unfold word_ok; lia).
    destruct (Z.ltb_spec (Z.of_nat (length body) + Z.of_nat (length (der_tag t) + 1) + Z.of_nat k)
                (Z.of_nat (length body))); [lia|].
    erewrite bind_some; [unfold ret|rewrite <- G; f_equal; lia]. do 3 f_equal. lia.
Qed.

Lemma der_element_ok c t body rest :
  cbs_ok c -> word_ok 32 t -> Z.of_nat (length body) < 2 ^ 32 ->
  cbs_bytes c = der_tlv t body ++ rest ->
  exists o c',
    CBS_get_any_asn1_element c =
      (Some (mk_element o t (Z.of_nat (length (der_header t (Z.of_nat (length body))))) false), c') /\
    cbs_ok o /\ cbs_bytes o = der_tlv t body /\ cbs_ok c' /\ cbs_bytes c' = rest.
Proof. apply der_element_ok_gen. Qed.

Lemma der_element_fail c c' : CBS_get_any_asn1_element c = (None, c') -> c' = c.
Proof.
  unfold CBS_get_any_asn1_element, cbs_get_any_asn1_element.
  repeat match goal with
  | |- bind (CBS_get_bytes _) _ _ = _ -> _ =>
      unfold CBS_get_bytes, bind, ret, cbs_get; cbv beta
  | |- context [match ?x with _ => _ end] =>
      match x with context [match _ with _ => _ end] => fail 1 | _ => destruct x end
  | |- context [if ?x then _ else _] =>
      match x with context [if _ then _ else _] => fail 1 | _ => destruct x end
  end; cbv zeta; try (intros; congruence).
Qed.

(** *** The element parser and its prefixes *)

(** C5: The DER element parser accepts exactly the DER encodings: it succeeds
    with tag [tag], an element whose contents are [body], and [rest] left in
    the CBS if and only if the input is the canonical encoding of [tag] and
    [body] followed by [rest].  An element has thus a single accepted form
    (no long-form short lengths, no padded lengths, no padded tag numbers, no
    indefinite lengths), and a failing parse leaves the CBS where it was. *)
Theorem CBS_get_any_asn1_element_der (c : CBS) (Hc : cbs_ok c) :
  (forall tag body rest,
    (exists e c', CBS_get_any_asn1_element c = (Some e, c') /\ el_tag e = tag /\
       skipn (Z.to_nat (el_header_len e)) (cbs_bytes (el_out e)) = body /\ cbs_bytes c' = rest)
    <-> word_ok 32 tag /\ Z.of_nat (length body) < 2 ^ 32 /\ cbs_bytes c = der_tlv tag body ++ rest) /\
  (forall c', CBS_get_any_asn1_element c = (None, c') -> c' = c).
Proof.
  split; [intros tag body rest; split|].
  - intros (e & c' & E & <- & <- & <-).
    destruct (der_element_inv c e c' Hc E) as (body & Ht & Hl & _ & Hh & _ & Eo & _ & Ec).
    replace (skipn (Z.to_nat (el_header_len e)) (cbs_bytes (el_out e))) with body; [auto|].
    rewrite Eo, Hh, Nat2Z.id. symmetry. apply skipn_app_length.
  - intros (Ht & Hl & E).
    destruct (der_element_ok c tag body rest Hc Ht Hl E) as (o & c' & G & _ & Eo & _ & R).
    do 2 eexists. split; [exact G|]. cbn [el_tag el_header_len el_out]. repeat split; auto.
    rewrite Eo, Nat2Z.id. unfold der_tlv. apply skipn_app_length.
  - intros c' E. now apply der_element_fail in E.
Qed.

Lemma CBS_get_any_asn1_element_der_witness :
  (exists e c', CBS_get_any_asn1_element (mk_cbs [48; 2; 5; 0; 7] 5) = (Some e, c') /\
     el_tag e = CBS_ASN1_SEQUENCE /\
     skipn (Z.to_nat (el_header_len e)) (cbs_bytes (el_out e)) = [5; 0] /\ cbs_bytes c' = [7]).
Proof.
  apply (proj1 (CBS_get_any_asn1_element_der (mk_cbs [48; 2; 5; 0; 7] 5) ltac:(cbs_ok_tac))).
  split; [split; [discriminate|reflexivity]|]. split; reflexivity.
Defined.

(** ** Skipping the header *)

Lemma CBS_skip_ok c p r :
  cbs_ok c -> cbs_bytes c = p ++ r ->
  exists c', CBS_skip (Z.of_nat (length p)) c = (Some tt, c') /\ cbs_ok c' /\ cbs_bytes c' = r.
Proof.
  intros Hc E. destruct (cbs_get_ok c p r Hc E) as (c' & G & A & R & _).
  exists c'. unfold CBS_skip. rewrite (bind_some _ _ _ _ _ G). split; [reflexivity|].
  split; [apply A|assumption].
Qed.

Lemma on_cbs_some {A} c (m : SE CBS A) a c1 cbs :
  m c = (Some a, c1) -> on_cbs c m cbs = (Some (a, c1), cbs).
Proof. unfold on_cbs. now intros ->. Qed.

Lemma CBS_get_asn1_ok c t body rest :
  cbs_ok c -> word_ok 32 t -> Z.of_nat (length body) < 2 ^ 32 ->
  cbs_bytes c = der_tlv t body ++ rest ->
  exists o c', CBS_get_asn1 t c = (Some o, c') /\
    cbs_ok o /\ cbs_bytes o = body /\ cbs_ok c' /\ cbs_bytes c' = rest.
Proof.
  intros Hc Ht Hl E.
  destruct (der_element_ok c t body rest Hc Ht Hl E) as (o & c' & G & Ho & Eo & Hc' & R).
  unfold CBS_get_asn1, cbs_get_asn1. rewrite (bind_some _ _ _ _ _ G). cbn [el_tag el_out el_header_len].
  rewrite Z.eqb_refl. cbn [negb].
  destruct (CBS_skip_ok o _ _ Ho Eo) as (o' & Sk & Ho' & Eo').
  rewrite (bind_some _ _ _ _ _ (on_cbs_some _ _ _ _ c' Sk)). exists o', c'. cbv beta iota. auto.
Qed.

Lemma CBS_get_asn1_inv c t o c' :
  cbs_ok c -> CBS_get_asn1 t c = (Some o, c') ->
  word_ok 32 t /\ Z.of_nat (length (cbs_bytes o)) < 2 ^ 32 /\ cbs_ok o /\
  advances c (der_tlv t (cbs_bytes o)) c'.
Proof.
  intros Hc E. pose proof E as E0. unfold CBS_get_asn1, cbs_get_asn1 in E. apply bind_inv in E as (e & c1 & G & E).
  destruct (der_element_inv c e c1 Hc G) as (body & Ht & Hl & _ & Hh & Ho & Eo & A).
  destruct (Z.eqb_spec (el_tag e) t) as [<-|]; [|discriminate]. cbn [negb] in E.
  destruct (CBS_get_asn1_ok c (el_tag e) body (cbs_bytes c1) Hc Ht Hl (proj2 A))
    as (o' & c2 & G2 & Ho' & Eo' & Hc2 & R2).
  rewrite G2 in E0. injection E0 as <- <-. rewrite Eo'. split; [assumption|]. split; [lia|].
  split; [assumption|]. split; [assumption|]. rewrite R2. apply A.
Qed.

(** Parsing a tagged element returns exactly the contents: [CBS_get_asn1]
    succeeds if and only if the input starts with the DER encoding of [tag]
    and some contents, and then hands out these contents and leaves the rest. *)
Theorem CBS_get_asn1_contents (c : CBS) (Hc : cbs_ok c) (tag : Z) (Ht : word_ok 32 tag) (body rest : list Z) :
  (exists o c', CBS_get_asn1 tag c = (Some o, c') /\ cbs_bytes o = body /\ cbs_bytes c' = rest)
  <-> Z.of_nat (length body) < 2 ^ 32 /\ cbs_bytes c = der_tlv tag body ++ rest.
Proof.
  split.
  - intros (o & c' & E & <- & <-). destruct (CBS_get_asn1_inv c tag o c' Hc E) as (_ & Hl & _ & A).
    split; [lia|apply A].
  - intros [Hl E]. destruct (CBS_get_asn1_ok c tag body rest Hc Ht Hl E) as (o & c' & G & _ & Eo & _ & R).
    exists o, c'. auto.
Qed.

Lemma CBS_get_asn1_contents_witness :
  exists o c', CBS_get_asn1 4 (mk_cbs [4; 2; 8; 9; 1; 99] 5) = (Some o, c') /\
    cbs_bytes o = [8; 9] /\ cbs_bytes c' = [1].
Proof.
  apply (CBS_get_asn1_contents (mk_cbs [4; 2; 8; 9; 1; 99] 5) ltac:(cbs_ok_tac) 4
    ltac:(split; [discriminate|reflexivity])).
  split; reflexivity.
Defined.

Lemma cbs_of l : bytes_ok l -> Z.of_nat (length l) < 2 ^ 64 ->
  { c | cbs_ok c /\ cbs_bytes c = l }.
Proof. intros H L. exists (CBS_init l (Z.of_nat (length l))). now apply CBS_init_ok. Qed.

(** ** The contents of an INTEGER *)

(** Minimal contents: not empty, and the first nine bits not all equal. *)
Definition int_minimal (body : list Z) : bool :=
  match body with
  | [] => false
  | [_] => true
  | a :: b :: _ => negb ((a =? 0) && (b <? 128)) && negb ((a =? 255) && (128 <=? b))
  end.

(** The two's complement value of big-endian contents. *)
Definition be_sval (body : list Z) : Z :=
  match body with
  | [] => 0
  | a :: _ => be_val body - (if 128 <=? a then 256 ^ Z.of_nat (length body) else 0)
  end.

Lemma byte_sign b : byte_ok b -> (Z.land b 128 =? 0) = (b <? 128).
Proof. intros Hb. apply eqb_prop. revert b Hb. apply byte_cases. vm_compute. reflexivity. Qed.

Lemma is_valid_asn1_integer_spec c :
  cbs_ok c ->
  CBS_is_valid_asn1_integer c =
    if int_minimal (cbs_bytes c) then Some (be_sval (cbs_bytes c) <? 0) else None.
Proof.
  intros Hc. pose proof (cbs_bytes_ok c Hc) as Hb. unfold CBS_is_valid_asn1_integer.
  destruct (cbs_bytes c) as [|a l] eqn:E.
  { now rewrite CBS_get_u8_none. }
  inversion Hb as [|? ? Ha Hl]; subst. pose proof (be_val_bound _ Hb) as V.
  destruct (CBS_get_u8_ok c a l Hc E) as (c1 & G1 & A1 & R1). rewrite G1.
  rewrite (byte_sign a) by assumption.
  assert (Neg : negb (a <? 128) = (be_sval (a :: l) <? 0)).
  { cbn [be_sval]. rewrite Z.ltb_antisym, negb_involutive.
    destruct (Z.leb_spec 128 a) as [S|S]; symmetry; [apply Z.ltb_lt|apply Z.ltb_ge]; lia. }
  destruct l as [|b l].
  { rewrite CBS_get_u8_none by (apply A1 || assumption). cbn [int_minimal]. now rewrite Neg. }
  inversion Hl as [|? ? Hbb _]; subst.
  destruct (CBS_get_u8_ok c1 b l (proj1 A1) R1) as (c2 & G2 & _). rewrite G2, (byte_sign b) by assumption.
  cbn [int_minimal]. rewrite (Z.leb_antisym b 128), Neg.
  destruct (_ && _), (_ && _); reflexivity.
Qed.

Lemma asn1_uint64_loop_spec l : forall v,
  bytes_ok l -> 0 <= v < 2 ^ 64 ->
  asn1_uint64_loop v l =
    let r := v * 256 ^ Z.of_nat (length l) + be_val l in
    if r <? 2 ^ 64 then Some r else None.
Proof.
  induction l as [|b l IH]; intros v Hl Hv; cbv zeta.
  - replace (v * 256 ^ Z.of_nat (length (@nil Z)) + be_val []) with v by (cbn; lia).
    now destruct (Z.ltb_spec v (2 ^ 64)); [|lia].
  - inversion Hl as [|? ? Hb Hl']; subst. cbn [asn1_uint64_loop length].
    rewrite be_val_cons, Nat2Z.inj_succ, Z.pow_succ_r by lia.
    pose proof (be_val_bound l Hl'). unfold word_ok in Hb.
    assert (1 <= 256 ^ Z.of_nat (length l)) by (apply Z.lt_pred_le, Z.pow_pos_nonneg; lia).
    rewrite Z.shiftr_div_pow2 by lia.
    destruct (Z.eqb_spec (v / 2 ^ 56) 0) as [N|N]; cbn [negb].
    + assert (v < 2 ^ 56) by lia_div.
      rewrite wrap_small by (unfold word_ok; rewrite Z.shiftl_mul_pow2 by lia; lia).
      rewrite shiftl_lor_add, IH by (assumption || lia). cbv zeta.
      now replace ((v * 2 ^ 8 + b) * 256 ^ Z.of_nat (length l) + be_val l)
        with (v * (256 * 256 ^ Z.of_nat (length l)) + (b * 256 ^ Z.of_nat (length l) + be_val l)) by lia.
    + assert (2 ^ 56 <= v) by lia_div.
      destruct (Z.ltb_spec (v * (256 * 256 ^ Z.of_nat (length l)) + (b * 256 ^ Z.of_nat (length l) + be_val l)) (2 ^ 64));
        [|reflexivity]. nia.
Qed.

(** ** Integer elements *)

Lemma cbs_loop_data o : firstn (Z.to_nat (CBS_len o)) (CBS_data o) = cbs_bytes o.
Proof. reflexivity. Qed.

Lemma is_unsigned_spec c :
  cbs_ok c ->
  CBS_is_unsigned_asn1_integer c = int_minimal (cbs_bytes c) && (0 <=? be_sval (cbs_bytes c)).
Proof.
  intros Hc. unfold CBS_is_unsigned_asn1_integer. rewrite is_valid_asn1_integer_spec by assumption.
  destruct (int_minimal _); [|reflexivity]. now rewrite Z.ltb_antisym, negb_involutive.
Qed.

Lemma be_sval_nonneg l : bytes_ok l -> 0 <= be_sval l -> be_sval l = be_val l.
Proof.
  intros Hl H. pose proof (be_val_bound l Hl). destruct l as [|a l]; [reflexivity|].
  cbn [be_sval] in *. destruct (128 <=? a); lia.
Qed.

(** The sign-extended union of [CBS_get_asn1_int64] holds the value. *)
Lemma int64_union l :
  bytes_ok l -> (1 <= length l <= 8)%nat ->
  sint 64 (le_val (splice 0 (rev l) (repeat (if be_sval l <? 0 then 255 else 0) 8))) = be_sval l.
Proof.
  intros Hl L. pose proof (be_val_bound l Hl) as V.
  destruct l as [|a t]; [cbn in L; lia|]. set (l := a :: t) in *.
  assert (Bs : be_sval l = be_val l - (if 128 <=? a then 256 ^ Z.of_nat (length l) else 0)) by reflexivity.
  assert (Sg : (128 <=? a) = (128 * 256 ^ (Z.of_nat (length l) - 1) <=? be_val l)).
  { unfold l in *. cbn [length] in *. rewrite be_val_cons.
    replace (Z.of_nat (S (length t)) - 1) with (Z.of_nat (length t)) by lia.
    inversion Hl as [|? ? _ Ht]; subst. pose proof (be_val_bound t Ht).
    destruct (Z.leb_spec 128 a); symmetry; [apply Z.leb_le|apply Z.leb_gt]; nia. }
  assert (Pw : 256 ^ Z.of_nat (length l) = 256 * 256 ^ (Z.of_nat (length l) - 1)).
  { rewrite <- Z.pow_succ_r by lia. f_equal. lia. }
  assert (Pe : 256 ^ Z.of_nat (length l) * 256 ^ Z.of_nat (8 - length l) = 2 ^ 64).
  { rewrite <- Z.pow_add_r by lia. replace (Z.of_nat (length l) + Z.of_nat (8 - length l)) with 8 by lia. reflexivity. }
  assert (Pn : 1 <= 256 ^ Z.of_nat (8 - length l)) by (apply Z.lt_pred_le, Z.pow_pos_nonneg; lia).
  unfold splice. rewrite firstn_O, length_rev. cbn [app Nat.add].
  assert (Sk : forall b : Z, skipn (length l) (repeat b 8) = repeat b (8 - length l)).
  { intros b. replace 8%nat with (length l + (8 - length l))%nat at 1 by lia.
    rewrite repeat_app. rewrite <- (repeat_length b (length l)) at 1. apply skipn_app_length. }
  rewrite Sk, le_val_app, le_val_rev, length_rev.
  clearbody l. revert Pw Pe Pn V Bs Sg. generalize (be_sval l) (be_val l) (256 ^ (Z.of_nat (length l) - 1)).
  intros s v P Pw Pe Pn V Bs Sg.
  assert (Rg : forall x, word_ok 64 x -> sint 64 x = if 2 ^ 63 <=? x then x - 2 ^ 64 else x)
    by (intros; now apply sint_spec).
  destruct (Z.leb_spec 128 a) as [A|A], (Z.leb_spec (128 * P) v); try discriminate; subst s.
  - destruct (Z.ltb_spec (v - 256 ^ Z.of_nat (length l)) 0); [|lia].
    rewrite le_val_repeat255.
    revert Pw Pe Pn V. generalize (256 ^ Z.of_nat (length l)) (256 ^ Z.of_nat (8 - length l)).
    intros X Y Pw Pe Pn V.
    assert (v + X * (Y - 1) = v - X + 2 ^ 64) as -> by nia.
    rewrite Rg by (unfold word_ok; nia). destruct (Z.leb_spec (2 ^ 63) (v - X + 2 ^ 64)); [lia|nia].
  - rewrite Z.sub_0_r in *. destruct (Z.ltb_spec v 0); [lia|].
    rewrite le_val_repeat0, Z.mul_0_r, Z.add_0_r.
    revert Pw Pe Pn V. generalize (256 ^ Z.of_nat (length l)) (256 ^ Z.of_nat (8 - length l)).
    intros X Y Pw Pe Pn V.
    rewrite Rg by (unfold word_ok; nia). destruct (Z.leb_spec (2 ^ 63) v); [nia|reflexivity].
Qed.

Lemma word_ok_INTEGER : word_ok 32 CBS_ASN1_INTEGER.
Proof. unfold word_ok, CBS_ASN1_INTEGER. lia. Qed.

Lemma CBS_get_asn1_uint64_ok c body rest :
  cbs_ok c -> int_minimal body = true -> 0 <= be_sval body < 2 ^ 64 ->
  Z.of_nat (length body) < 2 ^ 32 -> cbs_bytes c = der_tlv CBS_ASN1_INTEGER body ++ rest ->
  exists c', CBS_get_asn1_uint64 c = (Some (be_sval body), c') /\ cbs_bytes c' = rest /\ cbs_ok c'.
Proof.
  intros Hc M V L E. unfold CBS_get_asn1_uint64.
  destruct (CBS_get_asn1_ok c _ body rest Hc word_ok_INTEGER L E) as (o & c' & G & Ho & Eo & Hc' & R).
  pose proof (cbs_bytes_ok o Ho) as Ob. rewrite Eo in Ob.
  exists c'. split; [|auto]. rewrite (bind_some _ _ _ _ _ G).
  rewrite is_unsigned_spec, cbs_loop_data, Eo, M by assumption. cbn [andb].
  destruct (Z.leb_spec 0 (be_sval body)); [|lia]. cbn [negb].
  rewrite asn1_uint64_loop_spec by (assumption || lia). cbv zeta.
  rewrite Z.mul_0_l, Z.add_0_l, <- be_sval_nonneg by (assumption || lia).
  now destruct (Z.ltb_spec (be_sval body) (2 ^ 64)); [|lia].
Qed.

Lemma CBS_get_asn1_int64_ok c body rest :
  cbs_ok c -> int_minimal body = true -> (length body <= 8)%nat ->
  cbs_bytes c = der_tlv CBS_ASN1_INTEGER body ++ rest ->
  exists c', CBS_get_asn1_int64 c = (Some (be_sval body), c') /\ cbs_bytes c' = rest /\ cbs_ok c'.
Proof.
  intros Hc M L E. unfold CBS_get_asn1_int64.
  destruct (CBS_get_asn1_ok c _ body rest Hc word_ok_INTEGER ltac:(lia) E) as (o & c' & G & Ho & Eo & Hc' & R).
  pose proof (cbs_bytes_ok o Ho) as Ob. pose proof (length_cbs_bytes o Ho) as Lo. rewrite Eo in Ob, Lo.
  exists c'. split; [|auto]. rewrite (bind_some _ _ _ _ _ G).
  rewrite is_valid_asn1_integer_spec, cbs_loop_data, Eo, M by assumption.
  cbv zeta. unfold CBS_len. destruct (Z.ltb_spec 8 (cbs_len o)); [lia|].
  rewrite int64_union; [reflexivity|assumption|].
  destruct body; [discriminate|]. cbn [length] in *. lia.
Qed.

(** Reading an unsigned 64-bit INTEGER succeeds exactly on the minimal
    DER encodings of the values 0 to 2^64-1, and returns the value. *)
Theorem CBS_get_asn1_uint64_exact (c : CBS) (Hc : cbs_ok c) (v : Z) (rest : list Z) :
  (exists c', CBS_get_asn1_uint64 c = (Some v, c') /\ cbs_bytes c' = rest)
  <-> exists body, int_minimal body = true /\ be_sval body = v /\ 0 <= v < 2 ^ 64 /\
        Z.of_nat (length body) < 2 ^ 32 /\ cbs_bytes c = der_tlv CBS_ASN1_INTEGER body ++ rest.
Proof.
  split.
  - intros (c' & E & <-). unfold CBS_get_asn1_uint64 in E. apply bind_inv in E as (o & c1 & G & E).
    destruct (CBS_get_asn1_inv _ _ _ _ Hc G) as (_ & L & Ho & A).
    rewrite is_unsigned_spec in E by assumption. rewrite cbs_loop_data in E.
    pose proof (cbs_bytes_ok o Ho) as Ob.
    rewrite asn1_uint64_loop_spec in E by (assumption || lia). cbv zeta in E.
    rewrite Z.mul_0_l, Z.add_0_l in E.
    destruct (int_minimal (cbs_bytes o)) eqn:M; [|discriminate]. cbn [andb] in E.
    destruct (Z.leb_spec 0 (be_sval (cbs_bytes o))) as [S|]; [|discriminate]. cbn [negb] in E.
    destruct (Z.ltb_spec (be_val (cbs_bytes o)) (2 ^ 64)); [|discriminate]. se_inv.
    exists (cbs_bytes o). pose proof (be_val_bound _ Ob). rewrite be_sval_nonneg by assumption.
    repeat split; auto; try lia. apply A.
  - intros (body & M & <- & V & L & E).
    destruct (CBS_get_asn1_uint64_ok c body rest Hc M V L E) as (c' & G & R & _). eauto.
Qed.

Lemma CBS_get_asn1_uint64_exact_witness :
  exists c', CBS_get_asn1_uint64 (mk_cbs [2; 2; 0; 200; 5] 5) = (Some 200, c') /\ cbs_bytes c' = [5].
Proof.
  apply (CBS_get_asn1_uint64_exact (mk_cbs [2; 2; 0; 200; 5] 5) ltac:(cbs_ok_tac)).
  exists [0; 200]. repeat split; discriminate.
Defined.

(** Reading a signed 64-bit INTEGER succeeds exactly on the minimal
    contents of at most eight octets, and returns their two's complement
    value, negative values included. *)
Theorem CBS_get_asn1_int64_exact (c : CBS) (Hc : cbs_ok c) (v : Z) (rest : list Z) :
  (exists c', CBS_get_asn1_int64 c = (Some v, c') /\ cbs_bytes c' = rest)
  <-> exists body, int_minimal body = true /\ be_sval body = v /\ (length body <= 8)%nat /\
        cbs_bytes c = der_tlv CBS_ASN1_INTEGER body ++ rest.
Proof.
  split.
  - intros (c' & E & <-). unfold CBS_get_asn1_int64 in E. apply bind_inv in E as (o & c1 & G & E).
    destruct (CBS_get_asn1_inv _ _ _ _ Hc G) as (_ & L & Ho & A).
    rewrite is_valid_asn1_integer_spec in E by assumption. rewrite cbs_loop_data in E.
    pose proof (cbs_bytes_ok o Ho) as Ob. pose proof (length_cbs_bytes o Ho) as Lo.
    destruct (int_minimal (cbs_bytes o)) eqn:M; [|discriminate].
    cbv zeta in E. unfold CBS_len in E. destruct (Z.ltb_spec 8 (cbs_len o)); [discriminate|].
    rewrite int64_union in E;
      [|assumption|destruct (cbs_bytes o); [discriminate|]; cbn [length] in *; lia].
    se_inv. exists (cbs_bytes o). repeat split; auto; try lia. apply A.
  - intros (body & M & <- & L & E).
    destruct (CBS_get_asn1_int64_ok c body rest Hc M L E) as (c' & G & R & _). eauto.
Qed.

Lemma CBS_get_asn1_int64_exact_witness :
  exists c', CBS_get_asn1_int64 (mk_cbs [2; 2; 254; 12] 4) = (Some (-500), c') /\ cbs_bytes c' = [].
Proof.
  apply (CBS_get_asn1_int64_exact (mk_cbs [2; 2; 254; 12] 4) ltac:(cbs_ok_tac)).
  exists [254; 12]. split; [reflexivity|]. split; [reflexivity|]. split; [cbn; lia|reflexivity].
Defined.

(** ** Byte order *)

Lemma cbs_u_ok n c p rest :
  cbs_ok c -> length p = n -> (n <= 8)%nat -> cbs_bytes c = p ++ rest ->
  exists c', cbs_get_u (Z.of_nat n) c = (Some (be_val p), c') /\ cbs_bytes c' = rest /\
    bytes_ok p /\ 0 <= be_val p < 256 ^ Z.of_nat n.
Proof.
  intros Hc <- L E. destruct (cbs_get_u_ok c p rest Hc E L) as (c' & G & A & R).
  exists c'. pose proof (advances_bytes_ok _ _ _ Hc A). auto using be_val_bound.
Qed.

(** The fixed-width readers return the value of exactly their width of
    input, in the byte order of their name, and leave the rest in the CBS; on
    shorter input they fail without consuming anything. *)
Theorem CBS_get_fixed_width (c : CBS) (Hc : cbs_ok c) (p rest : list Z) (E : cbs_bytes c = p ++ rest) :
  let reads n (m : SE CBS Z) v :=
    length p = n -> exists c', m c = (Some v, c') /\ cbs_bytes c' = rest in
  reads 1%nat CBS_get_u8 (be_val p) /\
  reads 2%nat CBS_get_u16 (be_val p) /\ reads 2%nat CBS_get_u16le (le_val p) /\
  reads 3%nat CBS_get_u24 (be_val p) /\
  reads 4%nat CBS_get_u32 (be_val p) /\ reads 4%nat CBS_get_u32le (le_val p) /\
  reads 8%nat CBS_get_u64 (be_val p) /\ reads 8%nat CBS_get_u64le (le_val p) /\
  ((length p < 8)%nat -> rest = [] -> CBS_get_u64le c = (None, c)).
Proof.
  cbv zeta. repeat split; intros L.
  - destruct p as [|b []]; try discriminate. destruct (CBS_get_u8_ok c b rest Hc E) as (c' & G & _ & R).
    exists c'. unfold be_val. cbn [fold_left]. rewrite Z.mul_0_l, Z.add_0_l. auto.
  - destruct (cbs_u_ok 2 c p rest Hc L ltac:(lia) E) as (c' & G & R & B & V).
    exists c'. split; [|assumption]. unfold CBS_get_u16. rewrite (bind_some _ _ _ _ _ G).
    unfold ret. now rewrite wrap_small.
  - destruct (cbs_u_ok 2 c p rest Hc L ltac:(lia) E) as (c' & G & R & B & V).
    exists c'. split; [|assumption]. unfold CBS_get_u16le, CBS_get_u16, bind.
    change 2 with (Z.of_nat 2). rewrite G.
    unfold ret. rewrite wrap_small by assumption.
    destruct p as [|x [|y []]]; try discriminate. rewrite Forall_forall in B.
    now rewrite bswap2_spec by (apply B; cbn; auto).
  - destruct (cbs_u_ok 3 c p rest Hc L ltac:(lia) E) as (c' & G & R & B & V).
    exists c'. split; [|assumption]. unfold CBS_get_u24. rewrite (bind_some _ _ _ _ _ G).
    unfold ret. rewrite wrap_small by (unfold word_ok; lia). reflexivity.
  - destruct (cbs_u_ok 4 c p rest Hc L ltac:(lia) E) as (c' & G & R & B & V).
    exists c'. split; [|assumption]. unfold CBS_get_u32. rewrite (bind_some _ _ _ _ _ G).
    unfold ret. now rewrite wrap_small.
  - destruct (cbs_u_ok 4 c p rest Hc L ltac:(lia) E) as (c' & G & R & B & V).
    exists c'. split; [|assumption]. unfold CBS_get_u32le, CBS_get_u32, bind.
    change 4 with (Z.of_nat 4). rewrite G.
    unfold ret. rewrite wrap_small by assumption.
    destruct p as [|x [|y [|z [|w []]]]]; try discriminate. rewrite Forall_forall in B.
    now rewrite bswap4_spec by (apply B; cbn; auto).
  - destruct (cbs_u_ok 8 c p rest Hc L ltac:(lia) E) as (c' & G & R & B & V).
    exists c'. auto.
  - destruct (cbs_u_ok 8 c p rest Hc L ltac:(lia) E) as (c' & G & R & B & V).
    exists c'. split; [|assumption]. unfold CBS_get_u64le. rewrite (bind_some _ _ _ _ _ G).
    unfold ret. now rewrite bswap8_spec.
  - intros ->. rewrite app_nil_r in E. unfold CBS_get_u64le, cbs_get_u.
    do 2 (apply bind_none). apply cbs_get_none; [assumption|]. rewrite E. lia.
Qed.

Lemma CBS_get_fixed_width_witness :
  exists c', CBS_get_u32le (mk_cbs [1; 2; 3; 4; 9] 5) = (Some 67305985, c') /\ cbs_bytes c' = [9].
Proof.
  destruct (CBS_get_fixed_width (mk_cbs [1; 2; 3; 4; 9] 5) ltac:(cbs_ok_tac) [1; 2; 3; 4] [9] eq_refl)
    as (_ & _ & _ & _ & _ & H & _).
  exact (H eq_refl).
Defined.
