(* ===== verification/Cbb.v ===== *)
(** * CBB, the building half of BoringSSL's [crypto/bytestring]

    A tree of [CBB]s writes into one growing buffer.  [w_base] is that buffer
    ([struct cbb_buffer_st]) and [w_cbbs] the [CBB] structs by address (their
    index); the pointer fields of a struct are [cbb_base] (whether it points to
    the buffer or is NULL) and [cbb_child] (the address of the open child).
    Every function of [cbb.c] that returns 0 or 1 is an [SE] program on this
    store; [None] is the return value 0 and the store is as the C code leaves
    it.  Pointers into the buffer are offsets from its start. *)

From Stdlib Require Import ZArith Lia List Bool Permutation Sorted.
From S2P Require Import Prelude ConstTime Mem Endian Cbs.
Import ListNotations.
Open Scope se_scope.

(** [struct cbb_buffer_st] *)
Record cbb_buffer := mk_buffer {
  b_buf : option block;
  b_len : Z;
  b_cap : Z;
  b_can_resize : bool;
  b_error : bool
}.

(** [struct cbb_st] *)
Record CBB := mk_CBB {
  cbb_base : bool;
  cbb_child : option nat;
  cbb_offset : Z;
  cbb_pending_len_len : Z;
  cbb_pending_is_asn1 : bool;
  cbb_is_child : bool
}.

Record world := mk_world {
  w_cbbs : list CBB;
  w_base : cbb_buffer
}.

Definition CBB_zero : CBB := mk_CBB false None 0 0 false false.

(** The struct at an address. *)
Definition cbb_at (w : world) (c : nat) : CBB := nth c (w_cbbs w) CBB_zero.

Definition set_cbb (c : nat) (r : CBB) : SE world unit := fun w =>
  (Some tt, mk_world (set_nth c r (w_cbbs w)) (w_base w)).

Definition set_child (c : nat) (k : option nat) : SE world unit := fun w =>
  let r := cbb_at w c in
  set_cbb c (mk_CBB (cbb_base r) k (cbb_offset r) (cbb_pending_len_len r)
                    (cbb_pending_is_asn1 r) (cbb_is_child r)) w.

Definition set_base_null (c : nat) : SE world unit := fun w =>
  let r := cbb_at w c in
  set_cbb c (mk_CBB false (cbb_child r) (cbb_offset r) (cbb_pending_len_len r)
                    (cbb_pending_is_asn1 r) (cbb_is_child r)) w.

Definition set_prefix (c : nat) (offset pending_len_len : Z) : SE world unit := fun w =>
  let r := cbb_at w c in
  set_cbb c (mk_CBB (cbb_base r) (cbb_child r) offset pending_len_len
                    (cbb_pending_is_asn1 r) (cbb_is_child r)) w.

(** A [CBB] declared as a local variable: a fresh address. *)
Definition new_cbb : SE world nat := fun w =>
  (Some (length (w_cbbs w)), mk_world (w_cbbs w ++ [CBB_zero]) (w_base w)).

(** Run a buffer function on the buffer of the world. *)
Definition on_base {A} (m : SE cbb_buffer A) : SE world A := fun w =>
  let (r, b) := m (w_base w) in (r, mk_world (w_cbbs w) b).

Definition set_error : SE cbb_buffer unit := fun base =>
  (Some tt, mk_buffer (b_buf base) (b_len base) (b_cap base) (b_can_resize base) true).

Definition set_len (n : Z) : SE cbb_buffer unit := fun base =>
  (Some tt, mk_buffer (b_buf base) n (b_cap base) (b_can_resize base) (b_error base)).

Definition buf_bytes (base : cbb_buffer) : list Z :=
  match b_buf base with Some p => blk_bytes p | None => [] end.

(** [memcpy(base->buf + off, src, length src)] *)
Definition poke (off : Z) (src : list Z) : SE cbb_buffer unit := fun base =>
  match b_buf base with
  | None => (Some tt, base)
  | Some p =>
      (Some tt, mk_buffer (Some (mk_block (blk_size p) (splice (Z.to_nat off) src (blk_bytes p))))
                          (b_len base) (b_cap base) (b_can_resize base) (b_error base))
  end.

(** The loops that store the low [n] bytes of [v] big-endian, the last byte
    first, and keep shifting [v]: the bytes and what is left of [v]. *)
Fixpoint store_be (n : nat) (v : Z) (tail : list Z) : list Z * Z :=
  match n with
  | O => (tail, v)
  | S n => store_be n (Z.shiftr v 8) (u8 v :: tail)
  end.

Section Builder.
Variable malloc : Z -> option (list Z).

Definition cbb_init (buf : option block) (cap : Z) : option cbb_buffer :=
  (* sizeof(struct cbb_buffer_st) *)
  match OPENSSL_malloc malloc 32 with
  | None => None
  | Some _ => Some (mk_buffer buf 0 cap true false)
  end.

(** The new world has the one top-level CBB at address 0. *)
Definition CBB_init (initial_capacity : Z) : option world :=
  let buf := OPENSSL_malloc malloc initial_capacity in
  match buf with
  | None => if 0 <? initial_capacity then None else
      match cbb_init buf initial_capacity with
      | None => None
      | Some base => Some (mk_world [mk_CBB true None 0 0 false false] base)
      end
  | Some _ =>
      match cbb_init buf initial_capacity with
      | None => None
      | Some base => Some (mk_world [mk_CBB true None 0 0 false false] base)
      end
  end.

Definition CBB_init_fixed (buf : list Z) (len : Z) : option world :=
  match cbb_init (Some (mk_block len buf)) len with
  | None => None
  | Some base =>
      Some (mk_world [mk_CBB true None 0 0 false false]
                     (mk_buffer (b_buf base) (b_len base) (b_cap base) false (b_error base)))
  end.

(** The result is [*out], the offset of the room. *)
Definition cbb_buffer_reserve (len : Z) : SE cbb_buffer Z := fun base =>
  let newlen := size_t (b_len base + len) in
  let err := (set_error ;;; fail) base in
  if newlen <? b_len base then err
  else if b_cap base <? newlen then
    let newcap := size_t (b_cap base * 2) in
    if negb (b_can_resize base) then err
    else
      let newcap := if (newcap <? b_cap base) || (newcap <? newlen) then newlen else newcap in
      match OPENSSL_realloc malloc (b_buf base) newcap with
      | None => err
      | Some newbuf =>
          (Some (b_len base), mk_buffer (Some newbuf) (b_len base) newcap (b_can_resize base) (b_error base))
      end
  else (Some (b_len base), base).

Definition cbb_buffer_add (len : Z) : SE cbb_buffer Z :=
  out <- cbb_buffer_reserve len ;;
  base <- get ;;
  set_len (size_t (b_len base + len)) ;;;
  ret out.

Definition cbb_buffer_add_u (v len_len : Z) : SE cbb_buffer unit :=
  if len_len =? 0 then ret tt
  else
    buf <- cbb_buffer_add len_len ;;
    let (bytes, v) := store_be (Z.to_nat len_len) v [] in
    poke buf bytes ;;;
    if negb (v =? 0) then set_error ;;; fail else ret tt.

(** The header of an ASN.1 child whose contents have [len] bytes:
    [len_len], [initial_length_byte] and the [len] left to write. *)
Definition asn1_length_bytes (len : Z) : option (Z * Z * Z) :=
  if 4294967294 <? len then None
  else if 16777215 <? len then Some (5, 132, len)
  else if 65535 <? len then Some (4, 131, len)
  else if 255 <? len then Some (3, 130, len)
  else if 127 <? len then Some (2, 129, len)
  else Some (1, u8 len, 0).

(** The [goto err] of [CBB_flush]. *)
Definition flush_err : SE world unit := on_base set_error ;;; fail.

(** [if (len_len != 1)]: move the contents along in order to make space. *)
Definition asn1_make_room (child_start len_len len : Z) : SE world unit := fun w =>
  if negb (len_len =? 1) then
    let extra_bytes := len_len - 1 in
    match on_base (cbb_buffer_add extra_bytes) w with
    | (None, w) => flush_err w
    | (Some _, w) =>
        let moved := firstn (Z.to_nat len)
                       (skipn (Z.to_nat child_start) (buf_bytes (w_base w))) in
        on_base (poke (child_start + extra_bytes) moved) w
    end
  else (Some tt, w).

(** [CBB_flush] after the child itself has been flushed: write the child's
    length prefix over the bytes reserved for it and close the child. *)
Definition flush_prefix (cbb child : nat) (child_start : Z) : SE world unit :=
  w <- get ;;
  let len := size_t (b_len (w_base w) - child_start) in
  len <- (if cbb_pending_is_asn1 (cbb_at w child) then
            match asn1_length_bytes len with
            | None => flush_err ;;; ret len
            | Some (len_len, initial_length_byte, len) =>
                asn1_make_room child_start len_len len ;;;
                let offset := cbb_offset (cbb_at w child) in
                on_base (poke offset [initial_length_byte]) ;;;
                set_prefix child (offset + 1) (len_len - 1) ;;;
                ret len
            end
          else ret len) ;;
  w <- get ;;
  let r := cbb_at w child in
  let (bytes, len) := store_be (Z.to_nat (cbb_pending_len_len r)) len [] in
  on_base (poke (cbb_offset r) bytes) ;;;
  if negb (len =? 0) then flush_err
  else
    set_base_null child ;;;
    set_child cbb None.

(** The recursion follows the [child] pointers: [fuel] bounds their chain. *)
Fixpoint CBB_flush_fuel (fuel : nat) (cbb : nat) : SE world unit := fun w =>
  match fuel with
  | O => (None, w)
  | S fuel =>
    let r := cbb_at w cbb in
    if negb (cbb_base r) || b_error (w_base w) then (None, w)
    else
      match cbb_child r with
      | None => (Some tt, w)
      | Some child =>
          let rc := cbb_at w child in
          if cbb_pending_len_len rc =? 0 then (Some tt, w)
          else
            let child_start := size_t (cbb_offset rc + cbb_pending_len_len rc) in
            match CBB_flush_fuel fuel child w with
            | (None, w) => flush_err w
            | (Some _, w) =>
                if (child_start <? cbb_offset (cbb_at w child)) || (b_len (w_base w) <? child_start)
                then flush_err w
                else flush_prefix cbb child child_start w
            end
      end
  end.

Definition CBB_flush (cbb : nat) : SE world unit := fun w =>
  CBB_flush_fuel (S (length (w_cbbs w))) cbb w.

(** Functions that begin with [if (!CBB_flush(cbb)) return 0;] *)
Definition CBB_data (w : world) (cbb : nat) : Z :=
  cbb_offset (cbb_at w cbb) + cbb_pending_len_len (cbb_at w cbb).

Definition CBB_len (w : world) (cbb : nat) : Z :=
  size_t (b_len (w_base w) - cbb_offset (cbb_at w cbb) - cbb_pending_len_len (cbb_at w cbb)).

Definition CBB_cleanup (cbb : nat) : SE world unit := fun w =>
  if cbb_is_child (cbb_at w cbb) then (Some tt, w)
  else
    (on_base (fun base => (Some tt, mk_buffer None (b_len base) (b_cap base) (b_can_resize base) (b_error base))) ;;;
     set_base_null cbb) w.

(** [out_data] and [out_len] say whether the pointers are given; the result
    is the buffer and its length. *)
Definition CBB_finish (cbb : nat) (out_data out_len : bool) : SE world (option block * Z) :=
  w <- get ;;
  if cbb_is_child (cbb_at w cbb) then fail
  else
    CBB_flush cbb ;;;
    w <- get ;;
    if b_can_resize (w_base w) && (negb out_data || negb out_len) then fail
    else
      CBB_cleanup cbb ;;;
      ret (b_buf (w_base w), b_len (w_base w)).

(** The tail shared by the functions that open a child: [OPENSSL_memset] of
    the struct and the assignments to its fields. *)
Definition open_child (cbb out_contents : nat) (offset len_len : Z) (is_asn1 : bool) : SE world unit :=
  set_cbb out_contents (mk_CBB true None offset len_len is_asn1 true) ;;;
  set_child cbb (Some out_contents).

Definition cbb_add_length_prefixed (cbb out_contents : nat) (len_len : Z) : SE world unit :=
  CBB_flush cbb ;;;
  w <- get ;;
  let offset := b_len (w_base w) in
  prefix_bytes <- on_base (cbb_buffer_add len_len) ;;
  on_base (poke prefix_bytes (repeat 0 (Z.to_nat len_len))) ;;;
  open_child cbb out_contents offset len_len false.

Definition CBB_add_u8_length_prefixed (cbb out_contents : nat) : SE world unit :=
  cbb_add_length_prefixed cbb out_contents 1.
Definition CBB_add_u16_length_prefixed (cbb out_contents : nat) : SE world unit :=
  cbb_add_length_prefixed cbb out_contents 2.
Definition CBB_add_u24_length_prefixed (cbb out_contents : nat) : SE world unit :=
  cbb_add_length_prefixed cbb out_contents 3.

Definition add_u (len_len : Z) (cbb : nat) (value : Z) : SE world unit :=
  CBB_flush cbb ;;; on_base (cbb_buffer_add_u value len_len).

Definition CBB_add_u8 : nat -> Z -> SE world unit := add_u 1.
Definition CBB_add_u16 : nat -> Z -> SE world unit := add_u 2.
Definition CBB_add_u24 : nat -> Z -> SE world unit := add_u 3.
Definition CBB_add_u32 : nat -> Z -> SE world unit := add_u 4.
Definition CBB_add_u64 : nat -> Z -> SE world unit := add_u 8.

Definition CBB_add_u16le (cbb : nat) (value : Z) : SE world unit := CBB_add_u16 cbb (CRYPTO_bswap2 value).
Definition CBB_add_u32le (cbb : nat) (value : Z) : SE world unit := CBB_add_u32 cbb (CRYPTO_bswap4 value).
Definition CBB_add_u64le (cbb : nat) (value : Z) : SE world unit := CBB_add_u64 cbb (CRYPTO_bswap8 value).

(** [while (copy > 0) { len_len++; copy >>= 7; }], at most ten rounds for a
    64-bit [copy]. *)
Fixpoint base128_len (fuel : nat) (copy : Z) : nat :=
  match fuel with
  | O => O
  | S fuel => if 0 <? copy then S (base128_len fuel (Z.shiftr copy 7)) else O
  end.

(** The bytes from index [i - 1] down to 0. *)
Fixpoint add_base128_bytes (cbb : nat) (v : Z) (i : nat) : SE world unit :=
  match i with
  | O => ret tt
  | S i =>
      let byte := Z.land (Z.shiftr v (7 * Z.of_nat i)) 127 in
      let byte := if negb (Nat.eqb i 0) then Z.lor byte 128 else byte in
      CBB_add_u8 cbb byte ;;; add_base128_bytes cbb v i
  end.

Definition add_base128_integer (cbb : nat) (v : Z) : SE world unit :=
  let len_len := base128_len 10 v in
  let len_len := if Nat.eqb len_len 0 then 1%nat else len_len in
  add_base128_bytes cbb v len_len.

Definition CBB_add_asn1 (cbb out_contents : nat) (tag : Z) : SE world unit :=
  CBB_flush cbb ;;;
  let tag_bits := Z.land (Z.shiftr tag CBS_ASN1_TAG_SHIFT) 224 in
  let tag_number := Z.land tag CBS_ASN1_TAG_NUMBER_MASK in
  (if 31 <=? tag_number then
     CBB_add_u8 cbb (Z.lor tag_bits 31) ;;; add_base128_integer cbb tag_number
   else CBB_add_u8 cbb (Z.lor tag_bits tag_number)) ;;;
  w <- get ;;
  let offset := b_len (w_base w) in
  CBB_add_u8 cbb 0 ;;;
  open_child cbb out_contents offset 1 true.

Definition CBB_add_bytes (cbb : nat) (data : list Z) (len : Z) : SE world unit :=
  CBB_flush cbb ;;;
  dest <- on_base (cbb_buffer_add len) ;;
  on_base (poke dest (firstn (Z.to_nat len) data)).

(** [*out_data], an offset. *)
Definition CBB_add_space (cbb : nat) (len : Z) : SE world Z :=
  CBB_flush cbb ;;; on_base (cbb_buffer_add len).

Definition CBB_add_zeros (cbb : nat) (len : Z) : SE world unit :=
  out <- CBB_add_space cbb len ;;
  on_base (poke out (repeat 0 (Z.to_nat len))).

Definition CBB_reserve (cbb : nat) (len : Z) : SE world Z :=
  CBB_flush cbb ;;; on_base (cbb_buffer_reserve len).

Definition CBB_did_write (cbb : nat) (len : Z) : SE world unit :=
  w <- get ;;
  let newlen := size_t (b_len (w_base w) + len) in
  if (match cbb_child (cbb_at w cbb) with Some _ => true | None => false end)
     || (newlen <? b_len (w_base w)) || (b_cap (w_base w) <? newlen)
  then fail
  else on_base (set_len newlen).

Definition CBB_discard_child (cbb : nat) : SE world unit := fun w =>
  match cbb_child (cbb_at w cbb) with
  | None => (Some tt, w)
  | Some child =>
      (on_base (set_len (cbb_offset (cbb_at w child))) ;;;
       set_base_null child ;;;
       set_child cbb None) w
  end.

(** The loop of [CBB_add_asn1_uint64] over the bytes [8 - n] to 7; the
    result is [started]. *)
Fixpoint asn1_uint64_bytes (child : nat) (value : Z) (n : nat) (started : bool) : SE world bool :=
  match n with
  | O => ret started
  | S n =>
      let byte := Z.land (Z.shiftr value (8 * Z.of_nat n)) 255 in
      if negb started && (byte =? 0) then asn1_uint64_bytes child value n started
      else
        (if negb started && negb (Z.land byte 128 =? 0) then CBB_add_u8 child 0 else ret tt) ;;;
        CBB_add_u8 child byte ;;;
        asn1_uint64_bytes child value n true
  end.

Definition CBB_add_asn1_uint64 (cbb : nat) (value : Z) : SE world unit :=
  child <- new_cbb ;;
  CBB_add_asn1 cbb child CBS_ASN1_INTEGER ;;;
  started <- asn1_uint64_bytes child value 8 false ;;
  (if negb started then CBB_add_u8 child 0 else ret tt) ;;;
  CBB_flush cbb.

(** [while (start > 0 && u.bytes[start] == 0xff && (u.bytes[start-1] & 0x80)) start--] *)
Fixpoint int64_start (u : list Z) (start : nat) : nat :=
  match start with
  | O => O
  | S s =>
      if (nth start u 0 =? 255) && negb (Z.land (nth s u 0) 128 =? 0) then int64_start u s else start
  end.

(** [for (int i = start; i >= 0; i--)], with [n = start + 1]. *)
Fixpoint asn1_int64_bytes (child : nat) (u : list Z) (n : nat) : SE world unit :=
  match n with
  | O => ret tt
  | S i => CBB_add_u8 child (nth i u 0) ;;; asn1_int64_bytes child u i
  end.

(** [value] is the [int64_t] itself; [le_bytes 8] are its bytes in memory. *)
Definition CBB_add_asn1_int64 (cbb : nat) (value : Z) : SE world unit :=
  if 0 <=? value then CBB_add_asn1_uint64 cbb value
  else
    let u := le_bytes 8 (u64 value) in
    let start := int64_start u 7 in
    child <- new_cbb ;;
    CBB_add_asn1 cbb child CBS_ASN1_INTEGER ;;;
    asn1_int64_bytes child u (S start) ;;;
    CBB_flush cbb.

Definition CBB_add_asn1_octet_string (cbb : nat) (data : list Z) (data_len : Z) : SE world unit :=
  child <- new_cbb ;;
  CBB_add_asn1 cbb child CBS_ASN1_OCTETSTRING ;;;
  CBB_add_bytes child data data_len ;;;
  CBB_flush cbb.

Definition CBB_add_asn1_bool (cbb : nat) (value : Z) : SE world unit :=
  child <- new_cbb ;;
  CBB_add_asn1 cbb child CBS_ASN1_BOOLEAN ;;;
  CBB_add_u8 child (if negb (value =? 0) then 255 else 0) ;;;
  CBB_flush cbb.

(** The [for (;;)] loop of [parse_dotted_decimal]; every round that does not
    leave it reads a byte. *)
Fixpoint dotted_decimal_loop (fuel : nat) (out : Z) (seen_digit : bool) (cbs : CBS) : option Z * CBS :=
  match fuel with
  | O => (None, cbs)
  | S fuel =>
      let stop (cbs : CBS) := (if seen_digit then Some out else None, cbs) in
      match CBS_get_u8 cbs with
      | (None, cbs) => stop cbs
      | (Some u, cbs) =>
          if (u =? 46) && (0 <? Cbs.CBS_len cbs) then stop cbs
          else if (u <? 48) || (57 <? u) || (seen_digit && (out =? 0))
                  || (UINT64_MAX / 10 <? out) || (UINT64_MAX - (u - 48) <? out * 10)
          then (None, cbs)
          else dotted_decimal_loop fuel (out * 10 + (u - 48)) true cbs
      end
  end.

Definition parse_dotted_decimal : SE CBS Z := fun cbs =>
  dotted_decimal_loop (S (Z.to_nat (Cbs.CBS_len cbs))) 0 false cbs.

(** [while (CBS_len(&cbs) > 0)]: every component takes a byte or more. *)
Fixpoint oid_components (fuel : nat) (cbb : nat) (cbs : CBS) : SE world unit :=
  match fuel with
  | O => fail
  | S fuel =>
      if 0 <? Cbs.CBS_len cbs then
        match parse_dotted_decimal cbs with
        | (None, _) => fail
        | (Some a, cbs) => add_base128_integer cbb a ;;; oid_components fuel cbb cbs
        end
      else ret tt
  end.

Definition CBB_add_asn1_oid_from_text (cbb : nat) (text : list Z) (len : Z) : SE world unit :=
  CBB_flush cbb ;;;
  match parse_dotted_decimal (CBS_init text len) with
  | (None, _) => fail
  | (Some a, cbs) =>
      match parse_dotted_decimal cbs with
      | (None, _) => fail
      | (Some b, cbs) =>
          if (2 <? a) || ((a <? 2) && (39 <? b)) || (UINT64_MAX - 80 <? b) then fail
          else
            add_base128_integer cbb (u64 (40 * a + b)) ;;;
            oid_components (S (Z.to_nat (Cbs.CBS_len cbs))) cbb cbs
      end
  end.
End Builder.

(** ** Invariants *)

(** The buffer: its block has [b_cap] bytes, [b_len] of them in use. *)
Definition buffer_ok (b : cbb_buffer) : Prop :=
  0 <= b_len b <= b_cap b /\ b_cap b < 2 ^ 64 /\ Z.of_nat (length (buf_bytes b)) = b_cap b /\
  match b_buf b with Some p => blk_size p = b_cap b | None => True end.

(** What has been written. *)
Definition contents (b : cbb_buffer) : list Z := firstn (Z.to_nat (b_len b)) (buf_bytes b).

(** Room for [n] more bytes: there already, or to be had from an allocator
    that serves any request below a terabyte. *)
Definition roomy (malloc : Z -> option (list Z)) (b : cbb_buffer) (n : Z) : Prop :=
  b_len b + n <= 4294967294 /\
  (b_len b + n <= b_cap b \/
   b_can_resize b = true /\ b_cap b < 2 ^ 34 /\ forall m, 0 <= m < 2 ^ 40 -> malloc m <> None).

(** The capacity never shrinks, and never changes when it is the caller's. *)
Definition cap_grows (b b' : cbb_buffer) : Prop :=
  b_cap b <= b_cap b' /\ (b_can_resize b = false -> b_cap b' = b_cap b).

(** [b'] is [b] with more contents. *)
Definition grows (b : cbb_buffer) (bs : list Z) (b' : cbb_buffer) : Prop :=
  buffer_ok b' /\ contents b' = contents b ++ bs /\ b_error b' = b_error b /\
  b_can_resize b' = b_can_resize b /\ cap_grows b b' /\
  (b_cap b < 2 ^ 34 -> b_len b' <= 4294967294 -> b_cap b' < 2 ^ 34).

Lemma length_contents b : buffer_ok b -> Z.of_nat (length (contents b)) = b_len b.
Proof. intros (H1 & H2 & H3 & _). unfold contents. rewrite length_firstn. lia. Qed.

Lemma grows_len b bs b' :
  buffer_ok b -> grows b bs b' -> b_len b' = b_len b + Z.of_nat (length bs).
Proof.
  intros Hb (Hb' & E & _). apply length_contents in Hb, Hb'. rewrite E, length_app in Hb'. lia.
Qed.

Lemma cap_grows_trans b b1 b2 :
  b_can_resize b1 = b_can_resize b -> cap_grows b b1 -> cap_grows b1 b2 -> cap_grows b b2.
Proof. unfold cap_grows. intros E [L1 K1] [L2 K2]. split; [lia|]. intros R. rewrite K2, K1; congruence. Qed.

Lemma cap_grows_refl b : cap_grows b b.
Proof. split; [lia|reflexivity]. Qed.

Lemma grows_trans b bs b1 cs b2 :
  buffer_ok b -> grows b bs b1 -> grows b1 cs b2 -> grows b (bs ++ cs) b2.
Proof.
  intros Hb H1 H2. pose proof (grows_len _ _ _ (proj1 H1) H2).
  destruct H1 as (O1 & C1 & E1 & R1 & P1 & Q1), H2 as (O2 & C2 & E2 & R2 & P2 & Q2).
  unfold grows. rewrite C2, C1, app_assoc, E2, E1, R2, R1.
  repeat (split; [assumption || reflexivity || eapply cap_grows_trans; eauto|]). intros. apply Q2; [apply Q1|]; lia.
Qed.

Lemma roomy_mono malloc b bs b1 n :
  buffer_ok b -> grows b bs b1 -> 0 <= n ->
  roomy malloc b (Z.of_nat (length bs) + n) -> roomy malloc b1 n.
Proof.
  intros Hb H Hn [L R]. pose proof (grows_len _ _ _ Hb H).
  destruct H as (O1 & C1 & E1 & R1 & [P1 _] & Q1). split; [lia|].
  destruct R as [R|(R & C & M)]; [left; lia|right]. rewrite R1. repeat split; auto. apply Q1; lia.
Qed.

Lemma splice_app a b c src :
  length src = length b -> splice (length a) src (a ++ b ++ c) = a ++ src ++ c.
Proof.
  intros L. unfold splice. rewrite firstn_app_length. do 2 f_equal.
  rewrite L, <- length_app, app_assoc. apply skipn_app_length.
Qed.

Lemma store_be_spec n : forall v tail,
  0 <= v -> store_be n v tail = (be_bytes n v ++ tail, v / 256 ^ Z.of_nat n).
Proof.
  induction n as [|n IH]; intros v tail Hv; cbn [store_be be_bytes app].
  - now rewrite Z.div_1_r.
  - rewrite Z.shiftr_div_pow2, IH by (apply Z.shiftr_nonneg || lia || (apply Z.div_pos; lia)).
    change (2 ^ 8) with 256. rewrite Z.div_div, <- Z.pow_succ_r, Nat2Z.inj_succ by lia.
    rewrite <- app_assoc. reflexivity.
Qed.

Section BufferFacts.
Variable malloc : Z -> option (list Z).
Hypothesis Hm : malloc_ok malloc.

Lemma OPENSSL_malloc_some n :
  (forall m, 0 <= m < 2 ^ 40 -> malloc m <> None) -> 0 <= n < 2 ^ 36 -> OPENSSL_malloc malloc n <> None.
Proof.
  intros M Hn. unfold OPENSSL_malloc, OPENSSL_MALLOC_PREFIX.
  rewrite wrap_small by (unfold word_ok; lia). destruct (Z.ltb_spec (n + 8) n); [lia|].
  specialize (M (n + 8) ltac:(lia)). now destruct (malloc (n + 8)).
Qed.

(** The block given back by [realloc] keeps what was written. *)
Lemma realloc_keeps b n p :
  buffer_ok b -> word_ok 64 n -> b_cap b <= n -> OPENSSL_realloc malloc (b_buf b) n = Some p ->
  block_ok p /\ blk_size p = n /\
  firstn (Z.to_nat (b_len b)) (blk_bytes p) = contents b.
Proof.
  intros (H1 & H2 & H3 & H4) Hn Hc E. unfold contents, buf_bytes in *. destruct (b_buf b) as [q|].
  - apply OPENSSL_realloc_ok in E as (P1 & P2 & P3);
      [|assumption|unfold block_ok; lia|assumption].
    split; [assumption|]. split; [assumption|]. apply P3; lia.
  - apply OPENSSL_malloc_ok in E as [P1 P2]; [|assumption..]. cbn [length] in H3.
    replace (b_len b) with 0 by lia. auto.
Qed.

(** Reserving keeps the contents; it fails only when there is no room, and
    then flags the error. *)
Lemma reserve_spec b n :
  buffer_ok b -> word_ok 64 n ->
  let (r, b') := cbb_buffer_reserve malloc n b in
  match r with
  | Some off => off = b_len b /\ b_len b' = b_len b /\ b_len b + n <= b_cap b' /\
      buffer_ok b' /\ contents b' = contents b /\ b_error b' = b_error b /\
      b_can_resize b' = b_can_resize b /\ cap_grows b b' /\
      (b_cap b < 2 ^ 34 -> b_len b + n <= 4294967294 -> b_cap b' < 2 ^ 34)
  | None => b_error b' = true /\ buffer_ok b' /\ contents b' = contents b /\ ~ roomy malloc b n
  end.
Proof.
  intros Hb Hn. unfold cbb_buffer_reserve. pose proof Hb as (H1 & H2 & H3 & H4).
  unfold word_ok in Hn. destruct (Z.lt_ge_cases (b_len b + n) (2 ^ 64)) as [L|L].
  2: { replace (size_t (b_len b + n)) with (b_len b + n - 2 ^ 64)
         by (unfold wrap; apply Z.mod_unique with 1; lia).
       destruct (Z.ltb_spec (b_len b + n - 2 ^ 64) (b_len b)); [|lia]. cbn.
       split; [reflexivity|split; [exact Hb|split; [reflexivity|]]]. intros [? _]. lia. }
  rewrite wrap_small by (unfold word_ok; lia).
  destruct (Z.ltb_spec (b_len b + n) (b_len b)); [lia|].
  destruct (Z.ltb_spec (b_cap b) (b_len b + n)) as [C|C].
  2: { repeat split; auto; try apply Hb; lia. }
  destruct (b_can_resize b) eqn:R; cbn [negb].
  2: { cbn. split; [reflexivity|split; [exact Hb|split; [reflexivity|]]].
       unfold roomy. rewrite R. intros [_ [?|[? _]]]; [lia|discriminate]. }
  set (newcap := if _ || _ then _ else _).
  assert (NC : b_len b + n <= newcap < 2 ^ 64 /\ (b_cap b < 2 ^ 34 -> b_len b + n <= 4294967294 -> newcap < 2 ^ 34)).
  { subst newcap. unfold wrap.
    destruct (Z.lt_ge_cases (b_cap b * 2) (2 ^ 64)).
    - rewrite Z.mod_small by lia.
      destruct (Z.ltb_spec (b_cap b * 2) (b_cap b)), (Z.ltb_spec (b_cap b * 2) (b_len b + n)); cbn; lia.
    - replace ((b_cap b * 2) mod 2 ^ 64) with (b_cap b * 2 - 2 ^ 64) by (apply Z.mod_unique with 1; lia).
      destruct (Z.ltb_spec (b_cap b * 2 - 2 ^ 64) (b_cap b)); [cbn; lia|lia]. }
  clearbody newcap. destruct (OPENSSL_realloc malloc (b_buf b) newcap) as [p|] eqn:E.
  - destruct (realloc_keeps b newcap p Hb ltac:(unfold word_ok; lia) ltac:(lia) E) as (P1 & P2 & P3).
    unfold buffer_ok, contents at 1, buf_bytes. cbn [b_buf b_len b_cap b_error b_can_resize].
    unfold block_ok in P1. repeat split; auto; cbn [b_cap]; lia || congruence.
  - cbn. split; [reflexivity|split; [exact Hb|split; [reflexivity|]]].
    intros [? [?|(_ & ? & M)]]; [lia|].
    assert (Nn : OPENSSL_malloc malloc newcap <> None) by (apply OPENSSL_malloc_some; [assumption|lia]).
    apply Nn. unfold OPENSSL_realloc in E. destruct (b_buf b); [|assumption].
    destruct (OPENSSL_malloc malloc newcap); [discriminate|reflexivity].
Qed.

Lemma add_unfold n b :
  cbb_buffer_add malloc n b =
    match cbb_buffer_reserve malloc n b with
    | (Some off, b') =>
        (Some off, mk_buffer (b_buf b') (size_t (b_len b' + n)) (b_cap b') (b_can_resize b') (b_error b'))
    | (None, b') => (None, b')
    end.
Proof. unfold cbb_buffer_add, bind. destruct (cbb_buffer_reserve malloc n b) as [[off|] b']; reflexivity. Qed.

(** Adding [n] bytes leaves them as they are in the block. *)
Lemma add_spec b n :
  buffer_ok b -> word_ok 64 n ->
  let (r, b') := cbb_buffer_add malloc n b in
  match r with
  | Some off => off = b_len b /\ exists junk, Z.of_nat (length junk) = n /\ grows b junk b'
  | None => b_error b' = true /\ buffer_ok b' /\ contents b' = contents b /\ ~ roomy malloc b n
  end.
Proof.
  intros Hb Hn. rewrite add_unfold. pose proof (reserve_spec b n Hb Hn) as R.
  destruct (cbb_buffer_reserve malloc n b) as [[off|] b1]; [|exact R].
  destruct R as (-> & L1 & C1 & O1 & T1 & E1 & R1 & P1 & Q1). split; [reflexivity|].
  pose proof O1 as (H1 & H2 & H3 & H4). unfold word_ok in Hn.
  rewrite wrap_small by (unfold word_ok; lia).
  exists (skipn (Z.to_nat (b_len b)) (firstn (Z.to_nat (b_len b + n)) (buf_bytes b1))). split.
  - rewrite length_skipn, length_firstn. lia.
  - unfold grows, buffer_ok, contents in *. cbn [b_len b_cap b_error b_can_resize].
    rewrite <- T1, L1 in *. repeat split; auto; try (unfold buf_bytes in *; cbn [b_buf]; assumption || lia);
      try exact (proj1 P1); try exact (proj2 P1).
    rewrite <- (firstn_skipn (Z.to_nat (b_len b)) (firstn (Z.to_nat (b_len b + n)) _)) at 1.
    f_equal. rewrite firstn_firstn. unfold buf_bytes. cbn [b_buf]. f_equal. lia.
Qed.
End BufferFacts.

(** Everything but the bytes is the same. *)
Definition same_shape (b b' : cbb_buffer) : Prop :=
  buffer_ok b' /\ b_len b' = b_len b /\ b_cap b' = b_cap b /\ b_error b' = b_error b /\
  b_can_resize b' = b_can_resize b.

(** Writing over [m] in the contents. *)
Lemma poke_spec b off src a m c :
  buffer_ok b -> contents b = a ++ m ++ c -> Z.of_nat (length a) = off -> length src = length m ->
  exists b', poke off src b = (Some tt, b') /\ same_shape b b' /\ contents b' = a ++ src ++ c.
Proof.
  intros Hb E La Ls. pose proof (length_contents b Hb) as L. rewrite E, !length_app in L.
  destruct Hb as (H1 & H2 & H3 & H4). unfold poke, contents, buf_bytes in *.
  destruct (b_buf b) as [p|] eqn:Ep.
  - eexists. split; [reflexivity|].
    set (rest := skipn (Z.to_nat (b_len b)) (blk_bytes p)).
    assert (Ep' : blk_bytes p = a ++ m ++ (c ++ rest)).
    { rewrite <- (firstn_skipn (Z.to_nat (b_len b)) (blk_bytes p)), E. now rewrite <- !app_assoc. }
    assert (Sp : splice (Z.to_nat off) src (blk_bytes p) = a ++ src ++ (c ++ rest)).
    { rewrite Ep', <- La, Nat2Z.id. now apply splice_app. }
    unfold same_shape, buffer_ok, buf_bytes. cbn [b_buf b_len b_cap b_error b_can_resize blk_bytes blk_size].
    rewrite Sp. split; [repeat split; try assumption; try lia|].
    + rewrite Ep' in H3. rewrite !length_app in *. lia.
    + replace (Z.to_nat (b_len b)) with (length (a ++ src ++ c)) by (rewrite !length_app; lia).
      replace (a ++ src ++ c ++ rest) with ((a ++ src ++ c) ++ rest) by (now rewrite <- !app_assoc).
      apply firstn_app_length.
  - exists b. cbn [length] in H3. destruct a, m, c; cbn [length] in *; try lia.
    destruct src; [|discriminate]. split; [reflexivity|]. unfold same_shape, buffer_ok, buf_bytes.
    rewrite Ep, firstn_nil. repeat split; auto; lia.
Qed.

Lemma same_shape_trans b b1 b2 : same_shape b b1 -> same_shape b1 b2 -> same_shape b b2.
Proof. unfold same_shape. intuition congruence. Qed.

Lemma grows_shape b bs b1 b2 bs' :
  buffer_ok b -> grows b bs b1 -> same_shape b1 b2 -> contents b2 = contents b ++ bs' -> grows b bs' b2.
Proof.
  intros Hb (O1 & C1 & E1 & R1 & P1 & Q1) (O2 & L2 & K2 & E2 & R2) C2.
  unfold grows, cap_grows. rewrite L2, K2, E2, R2. repeat (split; [assumption|]). assumption.
Qed.

(** Filling the bytes that were added. *)
Lemma poke_new b junk b1 src :
  buffer_ok b -> grows b junk b1 -> length src = length junk ->
  exists b2, poke (b_len b) src b1 = (Some tt, b2) /\ grows b src b2.
Proof.
  intros Hb G L. destruct (poke_spec b1 (b_len b) src (contents b) junk []) as (b2 & P & S & C); auto.
  - apply G.
  - rewrite app_nil_r. apply G.
  - now apply length_contents.
  - exists b2. split; [assumption|]. rewrite app_nil_r in C. eapply grows_shape; eauto.
Qed.

(** What a buffer program that appends [bs] does. *)
Definition buf_appends (malloc : Z -> option (list Z)) (m : SE cbb_buffer unit) (bs : list Z) : Prop :=
  forall b, buffer_ok b ->
    let (r, b') := m b in
    match r with
    | Some _ => grows b bs b'
    | None => b_error b' = true /\ buffer_ok b' /\ ~ roomy malloc b (Z.of_nat (length bs))
    end.

Lemma add_u_appends malloc v n :
  malloc_ok malloc -> 0 <= v < 256 ^ Z.of_nat n -> (n <= 8)%nat ->
  buf_appends malloc (cbb_buffer_add_u malloc v (Z.of_nat n)) (be_bytes n v).
Proof.
  intros Hm Hv Hn b Hb. unfold cbb_buffer_add_u. destruct (Z.eqb_spec (Z.of_nat n) 0) as [N|N].
  { replace n with 0%nat by lia. cbn. unfold grows. rewrite app_nil_r.
    repeat (split; [assumption || reflexivity || apply cap_grows_refl|]). auto. }
  pose proof (add_spec malloc Hm b (Z.of_nat n) Hb ltac:(unfold word_ok; lia)) as A.
  unfold bind at 1. rewrite length_be_bytes.
  destruct (cbb_buffer_add malloc (Z.of_nat n) b) as [[off|] b1]; [|tauto].
  destruct A as (-> & junk & J & G). rewrite Nat2Z.id, store_be_spec, app_nil_r by lia.
  destruct (poke_new b junk b1 (be_bytes n v) Hb G) as (b2 & P & G2); [rewrite length_be_bytes; lia|].
  rewrite (bind_some _ _ _ _ _ P), Z.div_small by lia. exact G2.
Qed.

Lemma add_u_byte malloc v :
  malloc_ok malloc -> byte_ok v -> buf_appends malloc (cbb_buffer_add_u malloc v 1) [v].
Proof.
  intros Hm Hv. pose proof (add_u_appends malloc v 1 Hm ltac:(exact Hv) ltac:(lia)) as H.
  cbn [be_bytes app] in H. rewrite Z.mod_small in H by exact Hv. exact H.
Qed.

(** [cbb_buffer_add] followed by a [memcpy] or [memset] of the new bytes. *)
Lemma add_poke_appends malloc src n :
  malloc_ok malloc -> Z.of_nat (length src) = n -> n < 2 ^ 64 ->
  buf_appends malloc (off <- cbb_buffer_add malloc n ;; poke off src) src.
Proof.
  intros Hm L N b Hb. subst n.
  pose proof (add_spec malloc Hm b (Z.of_nat (length src)) Hb ltac:(unfold word_ok; lia)) as A. unfold bind.
  destruct (cbb_buffer_add malloc _ b) as [[off|] b1]; [|tauto].
  destruct A as (-> & junk & J & G).
  destruct (poke_new b junk b1 src Hb G) as (b2 & P & G2); [lia|]. now rewrite P.
Qed.

(** ** Programs on the store *)

(** The CBB at [c] is open, has no open child, and nothing has failed. *)
Definition ready (c : nat) (w : world) : Prop :=
  buffer_ok (w_base w) /\ b_error (w_base w) = false /\ (c < length (w_cbbs w))%nat /\
  cbb_base (cbb_at w c) = true /\ cbb_child (cbb_at w c) = None.

(** The structs up to [c] are untouched. *)
Definition below (c : nat) (w w' : world) : Prop :=
  (length (w_cbbs w) <= length (w_cbbs w'))%nat /\
  forall i, (i <= c)%nat -> cbb_at w' i = cbb_at w i.

(** [m], run on the open CBB [c], appends [bs] and returns [a]; it fails only
    for want of room.  CBBs it opens on the way have addresses above [c]. *)
Definition appends {A} (malloc : Z -> option (list Z)) (c : nat) (m : SE world A) (bs : list Z) (a : A) : Prop :=
  forall w, ready c w ->
    let (r, w') := m w in
    match r with
    | Some a' => a' = a /\ grows (w_base w) bs (w_base w') /\ below c w w'
    | None => ~ roomy malloc (w_base w) (Z.of_nat (length bs))
    end.

Lemma ready_grows c w bs w' :
  ready c w -> grows (w_base w) bs (w_base w') -> below c w w' -> ready c w'.
Proof.
  intros (H1 & H2 & H3 & H4 & H5) G [L B]. unfold ready. rewrite B by lia.
  destruct G as (O & _ & E & _). repeat split; auto; try apply O; [congruence|lia].
Qed.

Lemma below_trans c w w1 w2 : below c w w1 -> below c w1 w2 -> below c w w2.
Proof. intros [L1 B1] [L2 B2]. split; [lia|]. intros i Hi. rewrite B2, B1 by lia. reflexivity. Qed.

Lemma flush_ready malloc c w : ready c w -> CBB_flush malloc c w = (Some tt, w).
Proof.
  intros (_ & E & _ & B & C). unfold CBB_flush. cbn [CBB_flush_fuel]. now rewrite B, E, C.
Qed.

Section Append.
Variable malloc : Z -> option (list Z).
Hypothesis Hm : malloc_ok malloc.

Abbreviation Appends := (appends malloc).

Lemma appends_ret {A} c (a : A) : Appends c (ret a) [] a.
Proof.
  intros w (H & _). unfold ret. split; [reflexivity|]. split; [|split; auto].
  unfold grows. rewrite app_nil_r.
  repeat (split; [assumption || reflexivity || apply cap_grows_refl|]). auto.
Qed.

Lemma appends_bind {A B} c (m : SE world A) (k : A -> SE world B) bs a cs b :
  Appends c m bs a -> Appends c (k a) cs b -> Appends c (bind m k) (bs ++ cs) b.
Proof.
  intros H1 H2 w R. pose proof (H1 w R) as S1. unfold bind.
  destruct (m w) as [[a'|] w1].
  - destruct S1 as (-> & G1 & B1). pose proof (ready_grows c w bs w1 R G1 B1) as R1.
    pose proof (H2 w1 R1) as S2. destruct (k a w1) as [[b'|] w2].
    + destruct S2 as (-> & G2 & B2). split; [reflexivity|]. split; [|eapply below_trans; eauto].
      eapply grows_trans; eauto. apply R.
    + intros Rm. apply S2. rewrite length_app, Nat2Z.inj_add in Rm.
      eapply roomy_mono; eauto; [apply R|lia].
  - intros [Rm1 Rm2]. apply S1. rewrite length_app, Nat2Z.inj_add in Rm1, Rm2.
    split; [lia|]. destruct Rm2; [left; lia|right; assumption].
Qed.

(** The functions that flush and then write through the buffer. *)
Lemma appends_on_base c m bs :
  buf_appends malloc m bs -> Appends c (CBB_flush malloc c ;;; on_base m) bs tt.
Proof.
  intros H w R. unfold bind. rewrite flush_ready by assumption. unfold on_base.
  pose proof (H (w_base w) (proj1 R)) as S. destruct (m (w_base w)) as [[[]|] b'].
  - split; [reflexivity|]. split; [exact S|]. split; [cbn; lia|reflexivity].
  - tauto.
Qed.

Lemma add_u_append c n v :
  0 <= v < 256 ^ Z.of_nat n -> (n <= 8)%nat -> Appends c (add_u malloc (Z.of_nat n) c v) (be_bytes n v) tt.
Proof. intros. now apply appends_on_base, add_u_appends. Qed.

Lemma add_u8_append c v : byte_ok v -> Appends c (CBB_add_u8 malloc c v) [v] tt.
Proof. intros. now apply appends_on_base, add_u_byte. Qed.

Lemma on_base_bind {A B} (m : SE cbb_buffer A) (k : A -> SE cbb_buffer B) w :
  (x <- on_base m ;; on_base (k x)) w = on_base (bind m k) w.
Proof. unfold bind, on_base. destruct (m (w_base w)) as [[a|] b]; reflexivity. Qed.

Lemma appends_ext {A} c (m m' : SE world A) bs a :
  (forall w, m w = m' w) -> Appends c m' bs a -> Appends c m bs a.
Proof. intros E H w R. rewrite E. exact (H w R). Qed.

Lemma add_bytes_append c data :
  Z.of_nat (length data) < 2 ^ 64 -> Appends c (CBB_add_bytes malloc c data (Z.of_nat (length data))) data tt.
Proof.
  intros L. unfold CBB_add_bytes. rewrite Nat2Z.id, firstn_all.
  apply appends_ext with (m' := CBB_flush malloc c ;;;
    on_base (off <- cbb_buffer_add malloc (Z.of_nat (length data)) ;; poke off data)).
  - intros w. unfold bind at 1 3. destruct (CBB_flush malloc c w) as [[]w1]; [apply on_base_bind|reflexivity].
  - apply appends_on_base. now apply add_poke_appends.
Qed.

Lemma add_zeros_append c n :
  Z.of_nat n < 2 ^ 64 -> Appends c (CBB_add_zeros malloc c (Z.of_nat n)) (repeat 0 n) tt.
Proof.
  intros L. unfold CBB_add_zeros, CBB_add_space. rewrite Nat2Z.id.
  apply appends_ext with (m' := CBB_flush malloc c ;;;
    on_base (off <- cbb_buffer_add malloc (Z.of_nat n) ;; poke off (repeat 0 n))).
  - intros w. unfold bind at 1 2 3. destruct (CBB_flush malloc c w) as [[]w1]; [apply on_base_bind|reflexivity].
  - apply appends_on_base. apply add_poke_appends; [assumption|now rewrite repeat_length|assumption].
Qed.

(** *** Base-128 numbers *)

Lemma base128_len_spec fuel : forall v, 0 <= v < 128 ^ Z.of_nat fuel ->
  length (base128_hi v) = base128_len fuel v.
Proof.
  induction fuel as [|f IH]; intros v Hv; cbn [base128_len].
  - change (128 ^ Z.of_nat 0) with 1 in Hv. replace v with 0 by lia. reflexivity.
  - rewrite Nat2Z.inj_succ, Z.pow_succ_r in Hv by lia. rewrite base128_hi_unfold.
    destruct (Z.leb_spec v 0); destruct (Z.ltb_spec 0 v); try lia; [reflexivity|].
    rewrite length_app, Z.shiftr_div_pow2 by lia. change (2 ^ 7) with 128.
    rewrite <- IH by lia_div. cbn [length]. lia.
Qed.

(** [n] base-128 digits of [v], all with the continuation bit. *)
Fixpoint digits128 (n : nat) (v : Z) : list Z :=
  match n with
  | O => []
  | S n => (128 + v / 128 ^ Z.of_nat n mod 128) :: digits128 n v
  end.

Lemma digits128_snoc n : forall v, 0 <= v ->
  digits128 (S n) v = digits128 n (v / 128) ++ [128 + v mod 128].
Proof.
  induction n as [|n IH]; intros v Hv; [cbn; now rewrite Z.div_1_r|].
  change (digits128 (S (S n)) v) with ((128 + v / 128 ^ Z.of_nat (S n) mod 128) :: digits128 (S n) v).
  rewrite IH by assumption. cbn [digits128 app].
  rewrite Nat2Z.inj_succ, Z.pow_succ_r, Z.div_div by (try apply Z.pow_nonzero; lia). reflexivity.
Qed.

Lemma base128_hi_digits v : 0 <= v -> base128_hi v = digits128 (length (base128_hi v)) v.
Proof.
  intros Hv. pattern v. apply base128_hi_ind; [reflexivity| |assumption]. clear. intros v Hv IH.
  rewrite (base128_hi_unfold v). destruct (Z.leb_spec v 0); [lia|].
  rewrite length_app, Nat.add_1_r, digits128_snoc, <- IH by lia. reflexivity.
Qed.

Lemma base128_byte v i : 0 <= v ->
  Z.land (Z.shiftr v (7 * Z.of_nat i)) 127 = v / 128 ^ Z.of_nat i mod 128.
Proof.
  intros Hv. rewrite Z.shiftr_div_pow2, Z.pow_mul_r by lia. exact (land_mask _ 7 ltac:(lia)).
Qed.

(** The bytes from [i] down to 0 for a number of at least [i + 1] digits. *)
Lemma add_base128_bytes_append c v i : 0 <= v ->
  Appends c (add_base128_bytes malloc c v (S i)) (digits128 i (v / 128) ++ [v mod 128]) tt.
Proof.
  intros Hv. induction i as [|i IH].
  - cbn [add_base128_bytes digits128 app Nat.eqb negb]. rewrite base128_byte by assumption.
    change (128 ^ Z.of_nat 0) with 1. rewrite Z.div_1_r, <- (app_nil_r [_]).
    eapply appends_bind; [apply add_u8_append; unfold word_ok; lia_div|apply appends_ret].
  - remember (S i) as k. cbn [add_base128_bytes]. subst k. cbn [Nat.eqb negb].
    rewrite base128_byte by assumption. cbn [digits128]. rewrite <- app_comm_cons.
    change (?a :: ?l) with ([a] ++ l).
    rewrite Z.div_div, <- Z.pow_succ_r, <- Nat2Z.inj_succ by (try apply Z.pow_nonzero; lia).
    set (d := v / 128 ^ Z.of_nat (S i) mod 128).
    assert (Hd : 0 <= d < 128) by (apply Z.mod_pos_bound; lia).
    replace (Z.lor d 128) with (128 + d).
    2: { rewrite Z.lor_comm. change 128 with (Z.shiftl 1 7) at 2. now rewrite shiftl_lor_add by lia. }
    eapply appends_bind; [apply add_u8_append; unfold word_ok; lia|apply IH].
Qed.

Lemma add_base128_append c v :
  0 <= v < 2 ^ 64 -> Appends c (add_base128_integer malloc c v) (base128 v) tt.
Proof.
  intros Hv. unfold add_base128_integer. rewrite <- base128_len_spec by (cbn; lia).
  rewrite base128_hi_unfold. unfold base128. destruct (Z.leb_spec v 0).
  - replace v with 0 by lia. apply (add_base128_bytes_append c 0 0). lia.
  - rewrite length_app. cbn [length]. rewrite Nat.add_1_r. cbn [Nat.eqb].
    pose proof (add_base128_bytes_append c v (length (base128_hi (v / 128))) ltac:(lia)) as P.
    rewrite <- base128_hi_digits in P by lia_div. exact P.
Qed.
End Append.

(** ** Opening and closing children *)

(** The buffer has changed, but not its kind. *)
Definition evolves (b b' : cbb_buffer) : Prop :=
  buffer_ok b' /\ b_error b' = b_error b /\ b_can_resize b' = b_can_resize b /\ cap_grows b b' /\
  (b_cap b < 2 ^ 34 -> b_len b' <= 4294967294 -> b_cap b' < 2 ^ 34).

Lemma grows_evolves b bs b' : grows b bs b' <-> evolves b b' /\ contents b' = contents b ++ bs.
Proof. unfold grows, evolves. tauto. Qed.

Lemma evolves_shape b b1 b2 : evolves b b1 -> same_shape b1 b2 -> evolves b b2.
Proof.
  intros (O1 & E1 & R1 & P1 & Q1) (O2 & L2 & K2 & E2 & R2). unfold evolves, cap_grows.
  rewrite L2, K2, E2, R2. auto.
Qed.

Lemma evolves_trans b b1 b2 : evolves b b1 -> evolves b1 b2 -> b_len b1 <= b_len b2 -> evolves b b2.
Proof.
  intros (O1 & E1 & R1 & P1 & Q1) (O2 & E2 & R2 & P2 & Q2) L. unfold evolves.
  rewrite E2, R2. repeat (split; [assumption || eapply cap_grows_trans; eauto|]). intros.
  destruct P1. apply Q2; [apply Q1|]; lia.
Qed.

Lemma evolves_refl b : buffer_ok b -> evolves b b.
Proof. intros. unfold evolves. repeat (split; [assumption || reflexivity || apply cap_grows_refl|]). auto. Qed.

(** [c]'s open child is [k], whose prefix is at [off] and has [pll] bytes. *)
Definition opened (c k : nat) (off pll : Z) (asn1 : bool) (w : world) : Prop :=
  (c < k)%nat /\ (k < length (w_cbbs w))%nat /\
  cbb_base (cbb_at w c) = true /\ cbb_child (cbb_at w c) = Some k /\
  cbb_at w k = mk_CBB true None off pll asn1 true.

(** What closing [k] does to the structs. *)
Definition closed (c k : nat) (w w' : world) : Prop :=
  length (w_cbbs w') = length (w_cbbs w) /\
  cbb_at w' c = mk_CBB (cbb_base (cbb_at w c)) None (cbb_offset (cbb_at w c))
                  (cbb_pending_len_len (cbb_at w c)) (cbb_pending_is_asn1 (cbb_at w c))
                  (cbb_is_child (cbb_at w c)) /\
  cbb_base (cbb_at w' k) = false /\
  forall i, i <> c -> i <> k -> cbb_at w' i = cbb_at w i.

Section Closing.
Variable malloc : Z -> option (list Z).
Hypothesis Hm : malloc_ok malloc.

(** Up to the length prefix, a flush with one open child is [flush_prefix]. *)
Lemma flush_opened c k off pll asn1 w :
  opened c k off pll asn1 w -> buffer_ok (w_base w) -> b_error (w_base w) = false ->
  0 <= off -> 0 < pll -> off + pll <= b_len (w_base w) ->
  CBB_flush malloc c w = flush_prefix malloc c k (off + pll) w.
Proof.
  intros (Hck & Hk & Bc & Cc & Rk) (L & C & _) E Ho Hp Hl.
  unfold CBB_flush. destruct (length (w_cbbs w)) as [|n]; [lia|].
  remember (S n) as f. cbn [CBB_flush_fuel]. subst f. rewrite Bc, E, Cc, Rk.
  cbn [negb orb cbb_offset cbb_pending_len_len].
  destruct (Z.eqb_spec pll 0); [lia|]. cbn [CBB_flush_fuel]. rewrite Rk, E. cbn [cbb_base cbb_child negb orb].
  rewrite Rk. cbn [cbb_offset]. rewrite wrap_small by (unfold word_ok; lia).
  destruct (Z.ltb_spec (off + pll) off); [lia|].
  destruct (Z.ltb_spec (b_len (w_base w)) (off + pll)); [lia|]. reflexivity.
Qed.

(** The last steps: forget the child. *)
Lemma close_child c k off pll asn1 w :
  opened c k off pll asn1 w ->
  exists w', (set_base_null k ;;; set_child c None) w = (Some tt, w') /\
    closed c k w w' /\ w_base w' = w_base w.
Proof.
  intros (Hck & Hk & Bc & Cc & Rk). eexists. split; [reflexivity|]. split; [|reflexivity].
  unfold closed, cbb_at. cbn [w_cbbs w_base]. rewrite !length_set_nth.
  split; [reflexivity|]. split; [|split].
  - rewrite nth_set_nth_eq by (rewrite length_set_nth; lia).
    rewrite !(nth_set_nth_neq _ _ _ k c) by lia. reflexivity.
  - rewrite nth_set_nth_neq, nth_set_nth_eq by lia. reflexivity.
  - intros i Hc Hi. now rewrite !nth_set_nth_neq by auto.
Qed.

(** A fixed-width prefix receives the length, when it is wide enough. *)
Lemma flush_prefix_fixed c k n w pre ph body :
  (n <= 8)%nat -> opened c k (Z.of_nat (length pre)) (Z.of_nat n) false w ->
  buffer_ok (w_base w) -> contents (w_base w) = pre ++ ph ++ body -> length ph = n ->
  let (r, w') := flush_prefix malloc c k (Z.of_nat (length pre) + Z.of_nat n) w in
  match r with
  | Some _ => Z.of_nat (length body) < 256 ^ Z.of_nat n /\ closed c k w w' /\
      evolves (w_base w) (w_base w') /\
      contents (w_base w') = pre ++ be_bytes n (Z.of_nat (length body)) ++ body
  | None => 256 ^ Z.of_nat n <= Z.of_nat (length body)
  end.
Proof.
  intros Hn Op Hb E Lp. pose proof (length_contents _ Hb) as L.
  rewrite E, !length_app in L. pose proof Op as (_ & _ & _ & _ & Rk).
  pose proof Hb as ((B1 & B2) & B3 & _).
  unfold flush_prefix. unfold bind at 1. unfold get at 1. rewrite Rk. cbn [cbb_pending_is_asn1].
  replace (size_t (b_len (w_base w) - (Z.of_nat (length pre) + Z.of_nat n))) with (Z.of_nat (length body))
    by (rewrite wrap_small by (unfold word_ok; lia); lia).
  unfold bind at 1. unfold ret at 1. unfold bind at 1. unfold get at 1. rewrite Rk.
  cbn [cbb_pending_len_len cbb_offset]. rewrite Nat2Z.id, store_be_spec, app_nil_r by lia.
  destruct (poke_spec (w_base w) (Z.of_nat (length pre)) (be_bytes n (Z.of_nat (length body))) pre ph body Hb E
              eq_refl ltac:(rewrite length_be_bytes; lia)) as (b1 & P & S & C).
  unfold bind at 1. unfold on_base. rewrite P.
  assert (Pw : 0 < 256 ^ Z.of_nat n) by (apply Z.pow_pos_nonneg; lia).
  destruct (Z.eqb_spec (Z.of_nat (length body) / 256 ^ Z.of_nat n) 0) as [Q|Q]; cbn [negb].
  - apply Z.div_small_iff in Q; [|lia].
    destruct (close_child c k (Z.of_nat (length pre)) (Z.of_nat n) false (mk_world (w_cbbs w) b1) Op) as (w' & F & Cl & Eb).
    rewrite F. split; [lia|]. split; [exact Cl|]. rewrite Eb. cbn [w_base]. split; [|exact C].
    eapply evolves_shape; [now apply evolves_refl|exact S].
  - cbn. rewrite Z.div_small_iff in Q by lia. lia.
Qed.
End Closing.

(** *** Closing an ASN.1 child *)

Lemma asn1_length_bytes_spec len :
  0 <= len ->
  match asn1_length_bytes len with
  | None => 4294967294 < len
  | Some (len_len, b, len') =>
      exists e, len_len = Z.of_nat e + 1 /\ (e <= 4)%nat /\ der_length len = b :: be_bytes e len' /\
        0 <= len' < 256 ^ Z.of_nat e /\ (e <> 0%nat -> len' = len) /\ len < 2 ^ 32
  end.
Proof.
  intros H. unfold asn1_length_bytes, der_length.
  destruct (Z.ltb_spec 4294967294 len); [assumption|].
  destruct (Z.ltb_spec 16777215 len);
    [exists 4%nat; repeat split; try lia;
     destruct (Z.ltb_spec len 128), (Z.ltb_spec len 256), (Z.ltb_spec len 65536), (Z.ltb_spec len 16777216); reflexivity || lia|].
  destruct (Z.ltb_spec 65535 len);
    [exists 3%nat; repeat split; try lia;
     destruct (Z.ltb_spec len 128), (Z.ltb_spec len 256), (Z.ltb_spec len 65536), (Z.ltb_spec len 16777216); reflexivity || lia|].
  destruct (Z.ltb_spec 255 len);
    [exists 2%nat; repeat split; try lia;
     destruct (Z.ltb_spec len 128), (Z.ltb_spec len 256), (Z.ltb_spec len 65536); reflexivity || lia|].
  destruct (Z.ltb_spec 127 len);
    [exists 1%nat; repeat split; try lia; destruct (Z.ltb_spec len 128), (Z.ltb_spec len 256); reflexivity || lia|].
  exists 0%nat. destruct (Z.ltb_spec len 128); [|lia]. rewrite wrap_small by (unfold word_ok; lia).
  repeat split; lia.
Qed.

(** The [memmove] of [CBB_flush]: the body makes way for [e] more bytes. *)
Lemma shift_body b0 b pre x body junk e :
  buffer_ok b0 -> contents b0 = pre ++ x :: body -> grows b0 junk b -> length junk = e ->
  let child_start := Z.of_nat (length pre) + 1 in
  firstn (length body) (skipn (Z.to_nat child_start) (buf_bytes b)) = body /\
  exists b' m, poke (child_start + Z.of_nat e) body b = (Some tt, b') /\ same_shape b b' /\
    length m = e /\ contents b' = pre ++ x :: m ++ body.
Proof.
  intros H0 E G Lj. cbv zeta. pose proof (proj1 G) as Hb. destruct (proj1 (grows_evolves _ _ _) G) as [_ C].
  rewrite E, <- app_assoc in C. cbn [app] in C. split.
  - unfold contents in C.
    rewrite <- (firstn_skipn (Z.to_nat (b_len b)) (buf_bytes b)), C.
    change (pre ++ x :: body ++ junk) with (pre ++ [x] ++ body ++ junk).
    rewrite (app_assoc pre), <- (app_assoc (pre ++ [x])).
    replace (Z.to_nat (Z.of_nat (length pre) + 1)) with (length (pre ++ [x])) by (rewrite length_app; cbn [length]; lia).
    rewrite skipn_app_length, <- app_assoc. apply firstn_app_length.
  - set (m := firstn e (body ++ junk)). set (m' := skipn e (body ++ junk)).
    assert (Lm : length m = e) by (unfold m; rewrite length_firstn, length_app; lia).
    destruct (poke_spec b (Z.of_nat (length pre) + 1 + Z.of_nat e) body (pre ++ x :: m) m' []) as (b' & P & S & C'); auto.
    + rewrite C, app_nil_r, <- app_assoc. cbn [app]. do 2 f_equal. symmetry. apply firstn_skipn.
    + rewrite length_app. cbn [length]. lia.
    + unfold m'. rewrite length_skipn, length_app. lia.
    + exists b', m. rewrite app_nil_r, <- app_assoc in C'. auto.
Qed.

(** The header bytes, once there is room for them. *)
Lemma write_header b pre x m body ib e len' :
  buffer_ok b -> contents b = pre ++ x :: m ++ body -> length m = e ->
  exists b1 b2,
    poke (Z.of_nat (length pre)) [ib] b = (Some tt, b1) /\
    poke (Z.of_nat (length pre) + 1) (be_bytes e len') b1 = (Some tt, b2) /\
    same_shape b b2 /\ contents b2 = pre ++ ib :: be_bytes e len' ++ body.
Proof.
  intros Hb E Lm.
  destruct (poke_spec b (Z.of_nat (length pre)) [ib] pre [x] (m ++ body) Hb E eq_refl eq_refl) as (b1 & P1 & S1 & C1).
  destruct (poke_spec b1 (Z.of_nat (length pre) + 1) (be_bytes e len') (pre ++ [ib]) m body) as (b2 & P2 & S2 & C2).
  - apply S1.
  - rewrite C1, <- app_assoc. reflexivity.
  - rewrite length_app. cbn [length]. lia.
  - now rewrite length_be_bytes.
  - exists b1, b2. split; [assumption|]. split; [assumption|]. split; [eapply same_shape_trans; eauto|].
    rewrite C2, <- app_assoc. reflexivity.
Qed.

Section ClosingAsn1.
Variable malloc : Z -> option (list Z).
Hypothesis Hm : malloc_ok malloc.

(** Making the room: nothing for the short form, [e] bytes otherwise. *)
Lemma asn1_room (w : world) pre x body e (len : Z) :
  buffer_ok (w_base w) -> contents (w_base w) = pre ++ x :: body -> (e <= 4)%nat ->
  (e <> 0%nat -> len = Z.of_nat (length body)) ->
  let (r, w') := asn1_make_room malloc (Z.of_nat (length pre) + 1) (Z.of_nat e + 1) len w in
  match r with
  | Some _ => w_cbbs w' = w_cbbs w /\ evolves (w_base w) (w_base w') /\
      exists m, length m = e /\ contents (w_base w') = pre ++ x :: m ++ body
  | None => ~ roomy malloc (w_base w) (Z.of_nat e)
  end.
Proof.
  intros Hb E He Hl. unfold asn1_make_room. destruct (Z.eqb_spec (Z.of_nat e + 1) 1) as [N|N]; cbn [negb].
  - split; [reflexivity|]. split; [now apply evolves_refl|]. exists []. split; [cbn; lia|assumption].
  - rewrite Hl by lia. cbv zeta. replace (Z.of_nat e + 1 - 1) with (Z.of_nat e) by lia. unfold on_base at 1.
    pose proof (add_spec malloc Hm (w_base w) (Z.of_nat e) Hb ltac:(unfold word_ok; lia)) as A.
    destruct (cbb_buffer_add malloc (Z.of_nat e) (w_base w)) as [[off|] b1].
    + destruct A as (-> & junk & J & G). cbn [w_base w_cbbs].
      destruct (shift_body (w_base w) b1 pre x body junk e Hb E G ltac:(lia)) as (F & b' & m & P & S & Lm & C).
      rewrite Nat2Z.id, F. unfold on_base. cbn [w_base w_cbbs]. rewrite P. split; [reflexivity|].
      cbn [w_base]. split; [|eauto]. eapply evolves_shape; [apply (proj1 (grows_evolves _ _ _) G)|exact S].
    + cbn. tauto.
Qed.

Lemma flush_prefix_asn1 c k w pre x body :
  opened c k (Z.of_nat (length pre)) 1 true w ->
  buffer_ok (w_base w) -> contents (w_base w) = pre ++ x :: body ->
  let (r, w') := flush_prefix malloc c k (Z.of_nat (length pre) + 1) w in
  match r with
  | Some _ => Z.of_nat (length body) < 2 ^ 32 /\ closed c k w w' /\
      evolves (w_base w) (w_base w') /\
      contents (w_base w') = pre ++ der_length (Z.of_nat (length body)) ++ body
  | None => ~ roomy malloc (w_base w) (Z.of_nat (length (der_length (Z.of_nat (length body)))) - 1)
  end.
Proof.
  intros Op Hb E. pose proof (length_contents _ Hb) as L.
  rewrite E, !length_app in L. cbn [length] in L. pose proof Op as (Hck & Hk & Bc & Cc & Rk).
  pose proof Hb as ((B1 & B2) & B3 & _).
  unfold flush_prefix. unfold bind at 1. unfold get at 1. rewrite Rk. cbn [cbb_pending_is_asn1].
  replace (size_t (b_len (w_base w) - (Z.of_nat (length pre) + 1))) with (Z.of_nat (length body))
    by (rewrite wrap_small by (unfold word_ok; lia); lia).
  pose proof (asn1_length_bytes_spec (Z.of_nat (length body)) ltac:(lia)) as A.
  destruct (asn1_length_bytes _) as [[[ll ib] len']|].
  2: { cbn. intros [R _]. unfold der_length in R.
       repeat match type of R with context [if ?t then _ else _] => destruct t end; cbn [length] in R; lia. }
  destruct A as (e & -> & He & D & Hl & Hn & HL). rewrite D. cbn [length]. rewrite length_be_bytes.
  replace (Z.of_nat (S e) - 1) with (Z.of_nat e) by lia.
  pose proof (asn1_room w pre x body e len' Hb E He Hn) as R. cbv zeta.
  unfold bind at 1. unfold bind at 1.
  destruct (asn1_make_room malloc _ _ len' w) as [[[]|] w1]; [|exact R].
  destruct R as (Ec & Ev & m & Lm & C1).
  destruct (write_header (w_base w1) pre x m body ib e len' (proj1 Ev) C1 Lm) as (b1 & b2 & P1 & P2 & S & C2).
  assert (Rk1 : cbb_at w1 k = mk_CBB true None (Z.of_nat (length pre)) 1 true true)
    by (unfold cbb_at in *; now rewrite Ec).
  unfold bind at 1. unfold on_base at 1. cbn [cbb_offset]. rewrite P1.
  unfold bind at 1. unfold set_prefix, set_cbb. unfold cbb_at at 1 2 3 4. cbn [w_cbbs w_base].
  change (nth k (w_cbbs w1) CBB_zero) with (cbb_at w1 k). rewrite Rk1. unfold ret at 1.
  cbn [cbb_base cbb_child cbb_pending_is_asn1 cbb_is_child].
  set (r' := mk_CBB true None (Z.of_nat (length pre) + 1) (Z.of_nat e + 1 - 1) true true).
  assert (Op' : forall b, opened c k (Z.of_nat (length pre) + 1) (Z.of_nat e + 1 - 1) true
                            (mk_world (set_nth k r' (w_cbbs w1)) b)).
  { intros b. unfold opened, cbb_at in *. cbn [w_cbbs]. rewrite Ec, length_set_nth.
    rewrite nth_set_nth_neq, nth_set_nth_eq by lia. auto. }
  unfold bind at 1. unfold get at 1. unfold cbb_at at 1 2. cbn [w_cbbs].
  rewrite nth_set_nth_eq by (rewrite Ec; lia). unfold r' at 1 2. cbn [cbb_pending_len_len cbb_offset].
  replace (Z.to_nat (Z.of_nat e + 1 - 1)) with e by lia.
  rewrite store_be_spec, app_nil_r by lia.
  unfold bind at 1. unfold on_base at 1. cbn [w_base w_cbbs]. rewrite P2, (Z.div_small len') by lia.
  cbn [Z.eqb negb].
  destruct (close_child c k _ _ true _ (Op' b2)) as (w' & F & Cl & Eb). rewrite F.
  split; [assumption|]. split; [|split].
  - destruct Cl as (C3 & C4 & C5 & C6). unfold closed, cbb_at in *. cbn [w_cbbs] in *.
    rewrite Ec, length_set_nth in *. split; [assumption|]. rewrite (nth_set_nth_neq _ _ _ k c) in C4 by lia.
    split; [assumption|]. split; [assumption|]. intros i I1 I2. rewrite C6 by assumption.
    now apply nth_set_nth_neq.
  - rewrite Eb. eapply evolves_shape; eauto.
  - rewrite Eb. cbn [w_base app]. exact C2.
Qed.
End ClosingAsn1.

(** ** Whole elements *)

Lemma roomy_le malloc b m n : roomy malloc b n -> m <= n -> roomy malloc b m.
Proof. intros [L R] H. split; [lia|]. destruct R; [left; lia|right; assumption]. Qed.

(** [m] writes [hdr] and opens [k] under [c] with a prefix of [n] bytes. *)
Definition opens malloc (c k n : nat) (asn1 : bool) (hdr : list Z) (m : SE world unit) : Prop :=
  forall w, ready c w -> (c < k < length (w_cbbs w))%nat ->
    let (r, w') := m w in
    match r with
    | Some _ =>
        grows (w_base w) (hdr ++ repeat 0 n) (w_base w') /\
        opened c k (b_len (w_base w) + Z.of_nat (length hdr)) (Z.of_nat n) asn1 w' /\
        (length (w_cbbs w) <= length (w_cbbs w'))%nat /\
        cbb_at w' c = mk_CBB (cbb_base (cbb_at w c)) (Some k) (cbb_offset (cbb_at w c))
                        (cbb_pending_len_len (cbb_at w c)) (cbb_pending_is_asn1 (cbb_at w c))
                        (cbb_is_child (cbb_at w c)) /\
        forall i, (i < c)%nat -> cbb_at w' i = cbb_at w i
    | None => ~ roomy malloc (w_base w) (Z.of_nat (length hdr) + Z.of_nat n)
    end.

(** Closing such a child turns its prefix and contents into [lp ++ body]. *)
Definition closes malloc (n : nat) (asn1 : bool) (body lp : list Z) : Prop :=
  (n <= length lp)%nat /\
  forall c k w pre ph,
    opened c k (Z.of_nat (length pre)) (Z.of_nat n) asn1 w ->
    buffer_ok (w_base w) -> b_error (w_base w) = false ->
    contents (w_base w) = pre ++ ph ++ body -> length ph = n ->
    let (r, w') := CBB_flush malloc c w in
    match r with
    | Some _ => closed c k w w' /\ evolves (w_base w) (w_base w') /\
        contents (w_base w') = pre ++ lp ++ body
    | None => ~ roomy malloc (w_base w) (Z.of_nat (length lp) - Z.of_nat n)
    end.

(** Declare a child, open it, fill it, close it. *)
Definition with_child {A} malloc (c : nat) (op : nat -> SE world unit) (m : nat -> SE world A) : SE world A :=
  child <- new_cbb ;;
  op child ;;;
  a <- m child ;;
  CBB_flush malloc c ;;;
  ret a.

Section Children.
Variable malloc : Z -> option (list Z).
Hypothesis Hm : malloc_ok malloc.

Abbreviation Appends := (appends malloc).

Lemma new_cbb_at w i : (i < length (w_cbbs w))%nat ->
  cbb_at (mk_world (w_cbbs w ++ [CBB_zero]) (w_base w)) i = cbb_at w i.
Proof. intros. unfold cbb_at. cbn [w_cbbs]. now apply app_nth1. Qed.

Lemma ready_new c w : ready c w -> ready c (mk_world (w_cbbs w ++ [CBB_zero]) (w_base w)).
Proof.
  intros (H1 & H2 & H3 & H4 & H5). unfold ready. rewrite new_cbb_at by assumption. cbn [w_base w_cbbs].
  rewrite length_app. repeat split; auto; try apply H1. lia.
Qed.

Lemma evolves_len b b' bs : buffer_ok b -> evolves b b' -> contents b' = contents b ++ bs -> b_len b <= b_len b'.
Proof. intros Hb E C. rewrite (grows_len b bs b'); [lia|assumption|]. now apply grows_evolves. Qed.

Theorem with_child_append {A} c n asn1 hdr op (m : nat -> SE world A) body lp a :
  (forall k, (c < k)%nat -> opens malloc c k n asn1 hdr (op k)) ->
  (forall k, (c < k)%nat -> Appends k (m k) body a) ->
  closes malloc n asn1 body lp ->
  Appends c (with_child malloc c op m) (hdr ++ lp ++ body) a.
Proof.
  intros Hop Hmk [Hn Hcl] w R. unfold with_child, new_cbb. unfold bind at 1.
  set (k := length (w_cbbs w)). set (w0 := mk_world _ _).
  pose proof R as (Ob & Er & Hc & _). pose proof (ready_new c w R) as R0. fold w0 in R0.
  assert (L0 : length (w_cbbs w0) = S k) by (unfold w0; cbn [w_cbbs]; rewrite length_app; cbn; lia).
  rewrite !length_app, !Nat2Z.inj_add.
  pose proof (Hop k Hc w0 R0 ltac:(lia)) as H1. unfold bind at 1.
  destruct (op k w0) as [[[]|] w1].
  2: { intros Rm. apply H1. eapply roomy_le; [exact Rm|lia]. }
  destruct H1 as (G1 & Op1 & L1 & C1 & F1).
  assert (R1 : ready k w1).
  { destruct Op1 as (_ & Lk & _ & _ & Rk). unfold ready. rewrite Rk. cbn [cbb_base cbb_child].
    destruct G1 as (O & _ & E & _). unfold w0 in E. cbn [w_base] in E. repeat split; auto; try apply O; congruence. }
  pose proof (Hmk k Hc w1 R1) as H2. unfold bind at 1.
  destruct (m k w1) as [[a'|] w2].
  2: { intros Rm. apply H2. change (w_base w) with (w_base w0) in Rm.
       eapply roomy_mono; [apply R0|exact G1|lia|].
       eapply roomy_le; [exact Rm|]. rewrite length_app, repeat_length. lia. }
  destruct H2 as (-> & G2 & L2 & B2).
  pose proof (grows_trans _ _ _ _ _ Ob G1 G2) as G12. rewrite <- app_assoc in G12.
  assert (Op2 : opened c k (Z.of_nat (length (contents (w_base w) ++ hdr))) (Z.of_nat n) asn1 w2).
  { destruct Op1 as (? & Lk & Bc & Cc & Rk). unfold opened. rewrite !B2 by lia.
    rewrite length_app, Nat2Z.inj_add, length_contents by assumption. repeat split; auto. lia. }
  destruct (proj1 (grows_evolves _ _ _) G12) as [Ev12 C12]. change (w_base w0) with (w_base w) in *.
  pose proof (Hcl c k w2 (contents (w_base w) ++ hdr) (repeat 0 n) Op2 (proj1 G12)
                ltac:(destruct G12 as (_ & _ & E & _); congruence)
                ltac:(now rewrite C12, <- app_assoc) (repeat_length _ _)) as H3.
  unfold bind at 1. destruct (CBB_flush malloc c w2) as [[[]|] w3].
  2: { intros Rm. apply H3. eapply roomy_mono; [exact Ob|exact G12|lia|].
       eapply roomy_le; [exact Rm|]. rewrite !length_app, repeat_length. lia. }
  destruct H3 as ((L3 & C3 & _ & F3) & Ev3 & C4). unfold ret. split; [reflexivity|].
  rewrite <- app_assoc in C4. split.
  - apply grows_evolves. split; [|exact C4]. eapply evolves_trans; [exact Ev12|exact Ev3|].
    pose proof (length_contents _ (proj1 Ev3)) as La. pose proof (length_contents _ (proj1 Ev12)) as Lb.
    rewrite C4, !length_app in La. rewrite C12, !length_app, repeat_length in Lb. lia.
  - split; [rewrite L3; lia|]. intros i Hi. destruct (Nat.eq_dec i c) as [->|N].
    + rewrite C3, !B2, C1 by lia. cbn [cbb_base cbb_offset cbb_pending_len_len cbb_pending_is_asn1 cbb_is_child].
      unfold w0. rewrite !new_cbb_at by assumption. destruct R as (_ & _ & _ & _ & <-).
      now destruct (cbb_at w c).
    + rewrite F3, B2, F1 by lia. unfold w0. now rewrite new_cbb_at by lia.
Qed.
End Children.

Section OpenClose.
Variable malloc : Z -> option (list Z).
Hypothesis Hm : malloc_ok malloc.

Lemma closes_fixed n body :
  (1 <= n <= 8)%nat -> Z.of_nat (length body) < 256 ^ Z.of_nat n ->
  closes malloc n false body (be_bytes n (Z.of_nat (length body))).
Proof.
  intros Hn Hb. split; [rewrite length_be_bytes; lia|]. intros c k w pre ph Op O E C L.
  pose proof (length_contents _ O) as Lc. rewrite C, !length_app in Lc.
  rewrite (flush_opened malloc c k _ _ _ w Op O E) by lia.
  pose proof (flush_prefix_fixed malloc c k n w pre ph body ltac:(lia) Op O C L) as F.
  destruct (flush_prefix malloc c k _ w) as [[u|] w']; [tauto|lia].
Qed.

Lemma closes_asn1 body : closes malloc 1 true body (der_length (Z.of_nat (length body))).
Proof.
  split.
  { unfold der_length. repeat match goal with |- context [if ?t then _ else _] => destruct t end; cbn; lia. }
  intros c k w pre ph Op O E C L. destruct ph as [|x []]; try discriminate.
  pose proof (length_contents _ O) as Lc. rewrite C, !length_app in Lc. cbn [length] in Lc.
  rewrite (flush_opened malloc c k _ _ _ w Op O E) by lia.
  pose proof (flush_prefix_asn1 malloc Hm c k w pre x body Op O C) as F.
  change (Z.of_nat 1) with 1. destruct (flush_prefix malloc c k _ w) as [[u|] w']; tauto.
Qed.

(** The tail of the functions that open a child. *)
Lemma open_child_spec c k off pll asn1 w :
  (c < k < length (w_cbbs w))%nat -> cbb_base (cbb_at w c) = true ->
  exists w', open_child c k off pll asn1 w = (Some tt, w') /\ w_base w' = w_base w /\
    opened c k off pll asn1 w' /\ length (w_cbbs w') = length (w_cbbs w) /\
    cbb_at w' c = mk_CBB (cbb_base (cbb_at w c)) (Some k) (cbb_offset (cbb_at w c))
                    (cbb_pending_len_len (cbb_at w c)) (cbb_pending_is_asn1 (cbb_at w c))
                    (cbb_is_child (cbb_at w c)) /\
    forall i, (i < c)%nat -> cbb_at w' i = cbb_at w i.
Proof.
  intros Hk B. eexists. split; [reflexivity|]. split; [reflexivity|].
  unfold opened, cbb_at in *. cbn [w_cbbs]. rewrite !length_set_nth.
  rewrite (nth_set_nth_neq _ _ _ c k) by lia.
  rewrite !(nth_set_nth_eq _ _ _ c) by (rewrite length_set_nth; lia).
  rewrite nth_set_nth_eq by lia. rewrite !(nth_set_nth_neq _ _ _ k c) by lia.
  cbn [cbb_base cbb_child]. repeat split; auto; try lia.
  intros i Hi. now rewrite !nth_set_nth_neq by lia.
Qed.

Lemma opens_after c k n asn1 hdr (m : SE world unit) (write : SE world unit) :
  appends malloc c write (hdr ++ repeat 0 n) tt ->
  (forall w, ready c w -> m w = match write w with
     | (Some _, w1) =>
         open_child c k (b_len (w_base w) + Z.of_nat (length hdr)) (Z.of_nat n) asn1 w1
     | (None, w1) => (None, w1) end) ->
  opens malloc c k n asn1 hdr m.
Proof.
  intros Hw E w R Hk. rewrite E by assumption. pose proof (Hw w R) as H.
  destruct (write w) as [[[]|] w1].
  - destruct H as (_ & G & L & B). pose proof (ready_grows _ _ _ _ R G (conj L B)) as R1.
    destruct (open_child_spec c k (b_len (w_base w) + Z.of_nat (length hdr)) (Z.of_nat n) asn1 w1)
      as (w' & F & Eb & Op & L' & C' & B'); [lia|apply R1|].
    rewrite F, Eb. split; [exact G|]. split; [exact Op|]. split; [lia|]. split.
    + rewrite C'. now rewrite B by lia.
    + intros i Hi. rewrite B', B by lia. reflexivity.
  - rewrite length_app, repeat_length, Nat2Z.inj_add in H. exact H.
Qed.

Lemma opens_prefixed c k n :
  (n <= 8)%nat -> opens malloc c k n false [] (cbb_add_length_prefixed malloc c k (Z.of_nat n)).
Proof.
  intros Hn. apply opens_after with (write := CBB_add_zeros malloc c (Z.of_nat n)).
  - apply add_zeros_append; [assumption|lia].
  - intros w R. unfold cbb_add_length_prefixed, CBB_add_zeros, CBB_add_space.
    unfold bind. rewrite (flush_ready malloc c w R). unfold get. cbn [length]. rewrite Z.add_0_r.
    destruct (on_base (cbb_buffer_add malloc (Z.of_nat n)) w) as [[off|] w1]; [|reflexivity].
    destruct (on_base _ w1) as [[[]|] w']; reflexivity.
Qed.

Lemma tag_bits tag :
  word_ok 32 tag ->
  Z.land (Z.shiftr tag CBS_ASN1_TAG_SHIFT) 224 = tag / 2 ^ 29 * 32 /\
  Z.land tag CBS_ASN1_TAG_NUMBER_MASK = tag mod 2 ^ 29.
Proof.
  unfold word_ok. intros Ht. split; [|exact (land_mask tag 29 ltac:(lia))].
  change CBS_ASN1_TAG_SHIFT with 24. rewrite Z.shiftr_div_pow2 by lia.
  replace (tag / 2 ^ 29) with (tag / 2 ^ 24 / 32) by (rewrite Z.div_div by lia; reflexivity).
  assert (Hb : byte_ok (tag / 2 ^ 24)) by (unfold word_ok; lia_div).
  apply Z.eqb_eq. revert Hb. generalize (tag / 2 ^ 24). apply byte_cases. vm_compute. reflexivity.
Qed.

Lemma tag_lor q n : 0 <= n < 32 -> Z.lor (q * 32) n = q * 32 + n.
Proof. intros. change 32 with (2 ^ 5). rewrite <- (Z.shiftl_mul_pow2 q) at 1 by lia. now apply shiftl_lor_add. Qed.

Lemma add_tag_append c tag :
  word_ok 32 tag ->
  let tag_bits := Z.land (Z.shiftr tag CBS_ASN1_TAG_SHIFT) 224 in
  let tag_number := Z.land tag CBS_ASN1_TAG_NUMBER_MASK in
  appends malloc c
    (if 31 <=? tag_number then
       CBB_add_u8 malloc c (Z.lor tag_bits 31) ;;; add_base128_integer malloc c tag_number
     else CBB_add_u8 malloc c (Z.lor tag_bits tag_number)) (der_tag tag) tt.
Proof.
  intros Ht. cbv zeta. destruct (tag_bits tag Ht) as [-> ->]. unfold der_tag. unfold word_ok in Ht.
  destruct (Z.leb_spec 31 (tag mod 2 ^ 29)), (Z.ltb_spec (tag mod 2 ^ 29) 31); try lia;
    rewrite tag_lor by lia_div.
  - change (?a :: ?l) with ([a] ++ l). eapply appends_bind.
    + apply add_u8_append; [assumption|unfold word_ok; lia_div].
    + apply add_base128_append; [assumption|lia_div].
  - apply add_u8_append; [assumption|unfold word_ok; lia_div].
Qed.

Lemma opens_asn1 c k tag :
  word_ok 32 tag -> opens malloc c k 1 true (der_tag tag) (CBB_add_asn1 malloc c k tag).
Proof.
  intros Ht. pose proof (add_tag_append c tag Ht) as T. cbv zeta in T.
  match type of T with appends _ _ ?t _ _ =>
    apply opens_after with (write := t ;;; CBB_add_u8 malloc c 0) end.
  - cbn [repeat]. eapply appends_bind; [exact T|].
    apply add_u8_append; [assumption|unfold word_ok; lia].
  - intros w R. unfold CBB_add_asn1. unfold bind at 1. rewrite (flush_ready malloc c w R). cbv zeta.
    pose proof (T w R) as S. match type of T with appends _ _ ?t _ _ => generalize dependent t end.
    intros write _ S. unfold bind. destruct (write w) as [[[]|] w1]; [|reflexivity].
    destruct S as (_ & G & _). apply (grows_len _ _ _ (proj1 R)) in G. rewrite <- G. unfold get.
    destruct (CBB_add_u8 malloc c 0 w1) as [[[]|] w2]; reflexivity.
Qed.

(** A length-prefixed element and an ASN.1 element, with any contents. *)
Lemma prefixed_append {A} c n (m : nat -> SE world A) body a :
  (1 <= n <= 8)%nat -> Z.of_nat (length body) < 256 ^ Z.of_nat n ->
  (forall k, (c < k)%nat -> appends malloc k (m k) body a) ->
  appends malloc c (with_child malloc c (fun k => cbb_add_length_prefixed malloc c k (Z.of_nat n)) m)
    (be_bytes n (Z.of_nat (length body)) ++ body) a.
Proof.
  intros Hn Hb H. apply (with_child_append malloc c n false []).
  - intros k _. apply opens_prefixed. lia.
  - assumption.
  - now apply closes_fixed.
Qed.

Lemma asn1_append {A} c tag (m : nat -> SE world A) body a :
  word_ok 32 tag -> (forall k, (c < k)%nat -> appends malloc k (m k) body a) ->
  appends malloc c (with_child malloc c (fun k => CBB_add_asn1 malloc c k tag) m) (der_tlv tag body) a.
Proof.
  intros Ht H. unfold der_tlv, der_header. rewrite <- app_assoc.
  apply (with_child_append malloc c 1 true).
  - intros k _. now apply opens_asn1.
  - assumption.
  - apply closes_asn1.
Qed.
End OpenClose.

(** ** The element writers *)

(** The contents [CBB_add_asn1_uint64] writes for the low [n] bytes of
    [value], and whether it has started. *)
Fixpoint uint64_contents (value : Z) (n : nat) (started : bool) : list Z * bool :=
  match n with
  | O => ([], started)
  | S n =>
      let byte := value / 256 ^ Z.of_nat n mod 256 in
      if negb started && (byte =? 0) then uint64_contents value n started
      else
        let (l, s) := uint64_contents value n true in
        ((if negb started && (128 <=? byte) then [0] else []) ++ byte :: l, s)
  end.

Definition uint64_body (value : Z) : list Z :=
  let (l, s) := uint64_contents value 8 false in if negb s then l ++ [0] else l.

Definition int64_body (value : Z) : list Z :=
  let u := le_bytes 8 (u64 value) in rev (firstn (S (int64_start u 7)) u).

Lemma uint64_contents_started v n : uint64_contents v n true = (be_bytes n v, true).
Proof.
  assert (B : forall n v, be_bytes (S n) v = v / 256 ^ Z.of_nat n mod 256 :: be_bytes n v).
  { clear. induction n as [|n IH]; intros v; [cbn; now rewrite Z.div_1_r|].
    remember (S n) as k. cbn [be_bytes]. subst k. rewrite IH.
    rewrite Z.div_div, <- Z.pow_succ_r, <- Nat2Z.inj_succ by (try apply Z.pow_nonzero; lia). reflexivity. }
  revert v. induction n as [|n IH]; intros v; [reflexivity|].
  rewrite B. cbn [uint64_contents negb andb]. now rewrite IH.
Qed.

Lemma uint64_contents_spec v n : 0 <= v -> (n <= 8)%nat ->
  let (l, s) := uint64_contents v n false in
  let x := v mod 256 ^ Z.of_nat n in
  if s then int_minimal l = true /\ be_sval l = x /\ bytes_ok l /\ (length l <= S n)%nat else l = [] /\ x = 0.
Proof.
  intros Hv. induction n as [|n IH]; intros Hn; cbn [uint64_contents].
  { split; [reflexivity|]. now rewrite Z.mod_1_r. }
  specialize (IH ltac:(lia)). cbv zeta in *. rewrite Nat2Z.inj_succ, Z.pow_succ_r by lia.
  assert (Pw : 0 < 256 ^ Z.of_nat n) by (apply Z.pow_pos_nonneg; lia).
  rewrite (Z.mul_comm 256), Z.rem_mul_r by lia.
  assert (Hb : 0 <= v / 256 ^ Z.of_nat n mod 256 < 256) by (apply Z.mod_pos_bound; lia).
  pose proof (uint64_contents_started v n) as St.
  revert Hb. generalize (v / 256 ^ Z.of_nat n mod 256). intros b Hb.
  cbn [negb andb]. destruct (Z.eqb_spec b 0) as [->|N].
  { rewrite Z.mul_0_r, Z.add_0_r. destruct (uint64_contents v n false) as [l []]; [|assumption].
    destruct IH as (? & ? & ? & ?). repeat split; auto. }
  rewrite St. pose proof (be_bytes_ok n v) as Ob.
  assert (V : be_val (b :: be_bytes n v) = v mod 256 ^ Z.of_nat n + 256 ^ Z.of_nat n * b)
    by (rewrite be_val_cons, length_be_bytes, be_val_be_bytes; lia).
  assert (Ok : bytes_ok (b :: be_bytes n v)) by (constructor; auto).
  destruct (Z.leb_spec 128 b) as [B|B]; cbn [app].
  - repeat split.
    + cbn [int_minimal]. destruct (Z.ltb_spec b 128); [lia|]. reflexivity.
    + cbn [be_sval Z.leb Z.compare]. rewrite be_val_cons. lia.
    + constructor; [unfold word_ok; lia|assumption].
    + cbn [length]. rewrite length_be_bytes. lia.
  - repeat split.
    + destruct (be_bytes n v); [reflexivity|]. cbn [int_minimal].
      destruct (Z.eqb_spec b 0), (Z.eqb_spec b 255); reflexivity || lia.
    + cbn [be_sval]. destruct (Z.leb_spec 128 b); [lia|]. lia.
    + assumption.
    + cbn [length]. rewrite length_be_bytes. lia.
Qed.

Lemma uint64_body_spec v : 0 <= v < 2 ^ 64 ->
  int_minimal (uint64_body v) = true /\ be_sval (uint64_body v) = v /\
  bytes_ok (uint64_body v) /\ (length (uint64_body v) <= 9)%nat.
Proof.
  intros Hv. pose proof (uint64_contents_spec v 8 ltac:(lia) ltac:(lia)) as H. unfold uint64_body.
  destruct (uint64_contents v 8 false) as [l s]. cbv zeta in H.
  change (256 ^ Z.of_nat 8) with (2 ^ 64) in H. rewrite Z.mod_small in H by lia.
  destruct s; cbn [negb]; [assumption|]. destruct H as [-> ->]. cbn. repeat split; try lia.
  repeat constructor; lia.
Qed.

Lemma firstn_S_rev (u : list Z) s : (s < length u)%nat -> rev (firstn (S s) u) = nth s u 0 :: rev (firstn s u).
Proof.
  revert s. induction u as [|a u IH]; intros [|s] H; cbn [length] in H; try lia; [reflexivity|].
  change (firstn (S (S s)) (a :: u)) with (a :: firstn (S s) u).
  cbn [rev nth]. rewrite IH by lia. reflexivity.
Qed.

(** Dropping a redundant sign byte. *)
Lemma be_sval_strip b l : byte_ok b -> 128 <= b -> be_sval (255 :: b :: l) = be_sval (b :: l).
Proof.
  intros Hb H. cbn [be_sval]. rewrite (be_val_cons 255). destruct (Z.leb_spec 128 b); [|lia].
  change (128 <=? 255) with true. cbn iota. remember (b :: l) as l'. cbn [length].
  rewrite Nat2Z.inj_succ, Z.pow_succ_r by lia. lia.
Qed.

Lemma int64_start_spec u : bytes_ok u -> forall s, (s < length u)%nat -> 128 <= nth s u 0 ->
  let l := rev (firstn (S (int64_start u s)) u) in
  be_sval l = be_sval (rev (firstn (S s) u)) /\ int_minimal l = true /\ (length l <= S s)%nat.
Proof.
  intros Hu. assert (Ub : forall i, byte_ok (nth i u 0)).
  { intros i. destruct (Nat.lt_ge_cases i (length u)).
    - rewrite Forall_forall in Hu. apply Hu, nth_In. assumption.
    - rewrite nth_overflow by assumption. unfold word_ok. lia. }
  induction s as [|s IH]; intros Hs Hneg; cbv zeta.
  - cbn [int64_start]. destruct u as [|a u]; [cbn in Hs; lia|]. repeat split. cbn. lia.
  - cbn [int64_start]. rewrite byte_sign, <- Z.leb_antisym by apply Ub.
    destruct (Z.eqb_spec (nth (S s) u 0) 255) as [E|N], (Z.leb_spec 128 (nth s u 0)) as [B|B]; cbn [andb].
    2-4: repeat split; [rewrite firstn_S_rev, (firstn_S_rev u s) by lia; cbn [int_minimal] |
                        rewrite length_rev, length_firstn; lia].
    + specialize (IH ltac:(lia) B). cbv zeta in IH. destruct IH as (I1 & I2 & I3).
      rewrite I1. repeat split; [|assumption|lia].
      rewrite (firstn_S_rev u (S s)), E, (firstn_S_rev u s) by lia. symmetry. now apply be_sval_strip.
    + rewrite E. destruct (Z.leb_spec 128 (nth s u 0)); [lia|]. reflexivity.
    + destruct (Z.eqb_spec (nth (S s) u 0) 255), (Z.eqb_spec (nth (S s) u 0) 0); reflexivity || lia.
    + destruct (Z.eqb_spec (nth (S s) u 0) 255), (Z.eqb_spec (nth (S s) u 0) 0); reflexivity || lia.
Qed.

Lemma int64_body_spec v : - 2 ^ 63 <= v < 0 ->
  int_minimal (int64_body v) = true /\ be_sval (int64_body v) = v /\
  bytes_ok (int64_body v) /\ (length (int64_body v) <= 8)%nat.
Proof.
  intros Hv. unfold int64_body. cbv zeta.
  assert (E : u64 v = v + 2 ^ 64) by (unfold wrap; symmetry; apply Z.mod_unique with (-1); lia).
  rewrite E. pose proof (le_bytes_ok 8 (v + 2 ^ 64)) as Ob.
  assert (H7 : nth 7 (le_bytes 8 (v + 2 ^ 64)) 0 = (v + 2 ^ 64) / 2 ^ 56).
  { cbn [le_bytes nth]. rewrite !Z.div_div by lia. apply Z.mod_small. lia_div. }
  destruct (int64_start_spec _ Ob 7 ltac:(rewrite length_le_bytes; lia) ltac:(rewrite H7; lia_div)) as (S1 & S2 & S3).
  split; [assumption|]. split; [|split; [|assumption]].
  - rewrite S1. rewrite firstn_all2 by (rewrite length_le_bytes; lia). rewrite rev_le_bytes.
    assert (Hd : exists t, be_bytes 8 (v + 2 ^ 64) = (v + 2 ^ 64) / 2 ^ 56 :: t).
    { rewrite <- rev_le_bytes, <- (firstn_all (le_bytes 8 (v + 2 ^ 64))), length_le_bytes, firstn_S_rev, H7
        by (rewrite length_le_bytes; lia). eauto. }
    destruct Hd as [t Et]. pose proof (be_val_be_bytes 8 (v + 2 ^ 64)) as V.
    pose proof (length_be_bytes 8 (v + 2 ^ 64)) as Lb. rewrite Et in *. unfold be_sval.
    rewrite V, Lb. change (256 ^ Z.of_nat 8) with (2 ^ 64). rewrite Z.mod_small by lia.
    destruct (Z.leb_spec 128 ((v + 2 ^ 64) / 2 ^ 56)); [lia|lia_div].
  - apply Forall_rev. rewrite <- (firstn_skipn (S (int64_start (le_bytes 8 (v + 2 ^ 64)) 7))) in Ob.
    apply Forall_app in Ob. exact (proj1 Ob).
Qed.

(** [CBB_init], a program on the top-level CBB, [CBB_finish]. *)
Definition build (malloc : Z -> option (list Z)) (cap : Z) (m : SE world unit) : option (option block * Z) :=
  match CBB_init malloc cap with
  | None => None
  | Some w => fst ((m ;;; CBB_finish malloc 0 true true) w)
  end.

(** The same into a caller's buffer of [length buf] bytes. *)
Definition build_fixed (malloc : Z -> option (list Z)) (buf : list Z) (m : SE world unit) : option (option block * Z) :=
  match CBB_init_fixed malloc buf (Z.of_nat (length buf)) with
  | None => None
  | Some w => fst ((m ;;; CBB_finish malloc 0 true true) w)
  end.

Definition malloc_total (malloc : Z -> option (list Z)) : Prop :=
  forall m, 0 <= m < 2 ^ 40 -> malloc m <> None.

Section Writers.
Variable malloc : Z -> option (list Z).
Hypothesis Hm : malloc_ok malloc.

Abbreviation Appends := (appends malloc).

Lemma uint64_bytes_append c v n s :
  0 <= v -> Appends c (asn1_uint64_bytes malloc c v n s) (fst (uint64_contents v n s)) (snd (uint64_contents v n s)).
Proof.
  intros Hv. revert s. induction n as [|n IH]; intros s; cbn [asn1_uint64_bytes uint64_contents].
  - apply appends_ret.
  - rewrite Z.shiftr_div_pow2, Z.pow_mul_r by lia. change 255 with (2 ^ 8 - 1). rewrite land_mask by lia.
    change (2 ^ 8) with 256. set (b := v / 256 ^ Z.of_nat n mod 256).
    assert (Hb : byte_ok b) by apply byte_ok_mod.
    destruct (negb s && (b =? 0)); [apply IH|].
    specialize (IH true). destruct (uint64_contents v n true) as [l s']. cbn [fst snd] in *.
    rewrite (byte_sign b Hb), <- Z.leb_antisym.
    eapply appends_bind with (bs := if negb s && (128 <=? b) then [0] else []).
    + destruct (negb s && (128 <=? b)).
      * apply add_u8_append; [assumption|unfold word_ok; lia].
      * apply appends_ret.
    + change (b :: l) with ([b] ++ l). eapply appends_bind; [now apply add_u8_append|exact IH].
Qed.

(** The functions with a local child are instances of [with_child]. *)
Lemma with_child_unit c (op m : nat -> SE world unit) w :
  (child <- new_cbb ;; op child ;;; m child ;;; CBB_flush malloc c) w = with_child malloc c op m w.
Proof.
  unfold with_child, bind, new_cbb. destruct (op _ _) as [[u|] w1]; [|reflexivity].
  destruct (m _ w1) as [[[]|] w2]; [|reflexivity].
  destruct (CBB_flush malloc c w2) as [[[]|] w3]; reflexivity.
Qed.

Lemma asn1_element_append c tag (m : nat -> SE world unit) (f : SE world unit) body :
  word_ok 32 tag ->
  (forall w, f w = (child <- new_cbb ;; CBB_add_asn1 malloc c child tag ;;; m child ;;; CBB_flush malloc c) w) ->
  (forall k, Appends k (m k) body tt) -> Appends c f (der_tlv tag body) tt.
Proof.
  intros Ht E H. eapply appends_ext; [|apply asn1_append with (m := m); auto].
  intros w. now rewrite E, with_child_unit.
Qed.

Lemma add_asn1_uint64_append c v :
  0 <= v < 2 ^ 64 -> Appends c (CBB_add_asn1_uint64 malloc c v) (der_tlv CBS_ASN1_INTEGER (uint64_body v)) tt.
Proof.
  intros Hv.
  apply asn1_element_append with (m := fun child =>
    started <- asn1_uint64_bytes malloc child v 8 false ;;
    (if negb started then CBB_add_u8 malloc child 0 else ret tt)).
  - apply word_ok_INTEGER.
  - intros w. unfold CBB_add_asn1_uint64, bind. destruct (new_cbb w) as [[k|] w0]; [|reflexivity].
    destruct (CBB_add_asn1 _ _ _ _ w0) as [[[]|] w1]; [|reflexivity].
    destruct (asn1_uint64_bytes _ _ _ _ _ w1) as [[s|] w2]; [|reflexivity].
    destruct s; reflexivity.
  - intros k. unfold uint64_body. pose proof (uint64_bytes_append k v 8 false ltac:(lia)) as U.
    destruct (uint64_contents v 8 false) as [l s]. cbn [fst snd] in U. destruct s; cbn [negb].
    + rewrite <- (app_nil_r l). eapply appends_bind; [exact U|apply appends_ret].
    + eapply appends_bind; [exact U|]. apply add_u8_append; [assumption|unfold word_ok; lia].
Qed.

Lemma int64_bytes_append c u n :
  bytes_ok u -> (n <= length u)%nat -> Appends c (asn1_int64_bytes malloc c u n) (rev (firstn n u)) tt.
Proof.
  intros Hu. induction n as [|n IH]; intros Hn; cbn [asn1_int64_bytes]; [apply appends_ret|].
  rewrite firstn_S_rev by lia. change (?a :: ?l) with ([a] ++ l).
  eapply appends_bind; [apply add_u8_append; [assumption|]|apply IH; lia].
  rewrite Forall_forall in Hu. apply Hu, nth_In. lia.
Qed.

Definition asn1_int64_body (v : Z) : list Z := if 0 <=? v then uint64_body v else int64_body v.

Lemma int64_start_le u s : (int64_start u s <= s)%nat.
Proof. induction s; cbn [int64_start]; [lia|]. destruct (_ && _); lia. Qed.

Lemma add_asn1_int64_append c v :
  - 2 ^ 63 <= v < 2 ^ 63 -> Appends c (CBB_add_asn1_int64 malloc c v) (der_tlv CBS_ASN1_INTEGER (asn1_int64_body v)) tt.
Proof.
  intros Hv. unfold CBB_add_asn1_int64, asn1_int64_body. destruct (Z.leb_spec 0 v).
  - apply add_asn1_uint64_append. lia.
  - apply asn1_element_append with
      (m := fun child => asn1_int64_bytes malloc child (le_bytes 8 (u64 v)) (S (int64_start (le_bytes 8 (u64 v)) 7))).
    + apply word_ok_INTEGER.
    + reflexivity.
    + intros k. apply int64_bytes_append; [apply le_bytes_ok|].
      rewrite length_le_bytes. pose proof (int64_start_le (le_bytes 8 (u64 v)) 7). lia.
Qed.

Lemma add_asn1_octet_string_append c data :
  Z.of_nat (length data) < 2 ^ 64 ->
  Appends c (CBB_add_asn1_octet_string malloc c data (Z.of_nat (length data))) (der_tlv CBS_ASN1_OCTETSTRING data) tt.
Proof.
  intros L. eapply asn1_element_append; [split; [discriminate|reflexivity]|reflexivity|].
  intros k. now apply add_bytes_append.
Qed.

Lemma add_asn1_bool_append c v :
  Appends c (CBB_add_asn1_bool malloc c v) (der_tlv CBS_ASN1_BOOLEAN [if negb (v =? 0) then 255 else 0]) tt.
Proof.
  eapply asn1_element_append; [split; [discriminate|reflexivity]|reflexivity|].
  intros k. apply add_u8_append; [assumption|]. destruct (negb _); unfold word_ok; lia.
Qed.

(** *** Complete runs *)

Lemma CBB_init_ready cap w :
  word_ok 64 cap -> CBB_init malloc cap = Some w ->
  ready 0 w /\ cbb_is_child (cbb_at w 0) = false /\ contents (w_base w) = [] /\ b_cap (w_base w) = cap /\
  b_can_resize (w_base w) = true.
Proof.
  intros Hc. unfold CBB_init, cbb_init. unfold word_ok in Hc.
  destruct (OPENSSL_malloc malloc cap) as [p|] eqn:E.
  - apply OPENSSL_malloc_ok in E as [P1 P2]; [|assumption..]. unfold block_ok in P1.
    destruct (OPENSSL_malloc malloc 32); [|discriminate]. intros H'. apply some_inj in H' as <-.
    unfold ready, buffer_ok, contents, buf_bytes. cbn. repeat split; auto; lia.
  - destruct (Z.ltb_spec 0 cap); [discriminate|].
    destruct (OPENSSL_malloc malloc 32); [|discriminate]. intros H'. apply some_inj in H' as <-.
    unfold ready, buffer_ok, contents, buf_bytes. cbn. repeat split; auto; lia.
Qed.

Lemma finish_ready w :
  ready 0 w -> cbb_is_child (cbb_at w 0) = false ->
  exists w', CBB_finish malloc 0 true true w = (Some (b_buf (w_base w), b_len (w_base w)), w').
Proof.
  intros R C. eexists. unfold CBB_finish. unfold bind at 1. unfold get at 1. rewrite C. unfold bind at 1.
  rewrite (flush_ready malloc 0 w R). unfold bind, get. cbn [negb orb]. rewrite andb_false_r.
  unfold CBB_cleanup. rewrite C. reflexivity.
Qed.

(** What a run hands out. *)
Definition handed_out (r : option block * Z) (bs : list Z) : Prop :=
  snd r = Z.of_nat (length bs) /\
  let block := match fst r with Some p => blk_bytes p | None => [] end in
  (length bs <= length block)%nat /\ firstn (length bs) block = bs.

Lemma run_build w m bs :
  ready 0 w -> cbb_is_child (cbb_at w 0) = false -> contents (w_base w) = [] -> Appends 0 m bs tt ->
  match fst ((m ;;; CBB_finish malloc 0 true true) w) with
  | Some r => handed_out r bs /\
      (b_can_resize (w_base w) = false -> Z.of_nat (length bs) <= b_cap (w_base w))
  | None => ~ roomy malloc (w_base w) (Z.of_nat (length bs))
  end.
Proof.
  intros R C E H. pose proof (H w R) as S. unfold bind. destruct (m w) as [[[]|] w1]; [|exact S].
  destruct S as (_ & G & B). pose proof (ready_grows _ _ _ _ R G B) as R1.
  destruct (finish_ready w1 R1) as (w2 & F); [rewrite (proj2 B) by lia; exact C|].
  rewrite F. cbn [fst]. destruct (proj1 (grows_evolves _ _ _) G) as [Ev G']. clear G. rename G' into G. rewrite E in G.
  cbn [app] in G. pose proof Ev as (Hb & _). pose proof (length_contents _ Hb) as L. rewrite G in L.
  unfold contents in G. rewrite <- L, Nat2Z.id in G. split.
  - unfold handed_out. cbn [fst snd]. split; [auto|]. change (match b_buf (w_base w1) with
      Some p => blk_bytes p | None => [] end) with (buf_bytes (w_base w1)).
    destruct Hb as (H1 & H2 & H3 & _). split; [lia|assumption].
  - intros Rz. destruct Ev as (_ & _ & _ & [_ K] & _). rewrite <- (K Rz). destruct Hb as (? & _). lia.
Qed.
End Writers.

(** A CBS over what a run handed out. *)
Definition cbs_of_run (r : option block * Z) : CBS :=
  CBS_init (match fst r with Some p => blk_bytes p | None => [] end) (snd r).

Lemma cbs_of_run_ok r bs :
  handed_out r bs -> bytes_ok bs -> Z.of_nat (length bs) < 2 ^ 64 ->
  cbs_ok (cbs_of_run r) /\ cbs_bytes (cbs_of_run r) = bs.
Proof.
  intros (L & D & E) Hb Hl. cbv zeta in *. unfold cbs_of_run. rewrite L.
  split; [apply CBS_init_prefix|]; rewrite ?Nat2Z.id, ?E; auto; try lia.
  unfold cbs_bytes. cbn [cbs_len cbs_data CBS_init]. now rewrite Nat2Z.id.
Qed.

Lemma build_spec malloc cap m bs :
  malloc_ok malloc -> word_ok 64 cap -> appends malloc 0 m bs tt ->
  match build malloc cap m with
  | Some r => handed_out r bs
  | None => ~ (malloc_total malloc /\ cap < 2 ^ 34 /\ Z.of_nat (length bs) <= 4294967294)
  end.
Proof.
  intros Hm Hc H. unfold build. destruct (CBB_init malloc cap) as [w|] eqn:E.
  - destruct (CBB_init_ready malloc Hm cap w Hc E) as (R & C & K & P & Z).
    pose proof (run_build malloc w m bs R C K H) as S.
    destruct (fst _) as [r|]; [apply S|]. intros (M & L & N). apply S.
    pose proof (length_contents _ (proj1 R)) as Ln. rewrite K in Ln. cbn [length] in Ln.
    split; [lia|]. right. rewrite P, Z. auto.
  - intros (M & L & N). unfold word_ok in Hc. unfold CBB_init, cbb_init in E.
    pose proof (OPENSSL_malloc_some malloc 32 M ltac:(lia)) as A.
    pose proof (OPENSSL_malloc_some malloc cap M ltac:(lia)) as B.
    destruct (OPENSSL_malloc malloc cap); [|congruence].
    destruct (OPENSSL_malloc malloc 32); [discriminate|congruence].
Qed.

Lemma der_tlv_ok tag body :
  word_ok 32 tag -> Z.of_nat (length body) < 2 ^ 32 -> bytes_ok body -> bytes_ok (der_tlv tag body).
Proof.
  intros Ht Hl Hb. unfold der_tlv, der_header, der_tag. unfold word_ok in Ht.
  assert (Hx : 0 <= tag / 2 ^ 29 < 8) by lia_div.
  apply Forall_app. split; [apply Forall_app; split|assumption].
  - destruct (Z.ltb_spec (tag mod 2 ^ 29) 31).
    + constructor; [unfold word_ok; lia_div|constructor].
    + constructor; [unfold word_ok; lia|]. apply base128_ok. lia_div.
  - apply der_length_ok. lia.
Qed.

Lemma length_der_tlv tag body :
  word_ok 32 tag -> Z.of_nat (length (der_tlv tag body)) <= Z.of_nat (length body) + 11.
Proof.
  intros Ht. unfold der_tlv, der_header. rewrite !length_app. pose proof (length_der_tag tag Ht).
  assert (length (der_length (Z.of_nat (length body))) <= 5)%nat.
  { unfold der_length. repeat match goal with |- context [if ?t then _ else _] => destruct t end; cbn; lia. }
  lia.
Qed.

Lemma asn1_int64_body_spec v : - 2 ^ 63 <= v < 2 ^ 63 ->
  let l := asn1_int64_body v in
  int_minimal l = true /\ be_sval l = v /\ bytes_ok l /\ (length l <= 8)%nat.
Proof.
  intros Hv. cbv zeta. unfold asn1_int64_body. destruct (Z.leb_spec 0 v); [|apply int64_body_spec; lia].
  destruct (uint64_body_spec v ltac:(lia)) as (M & S & B & L). repeat split; auto.
  destruct (Nat.eq_dec (length (uint64_body v)) 9) as [N|]; [exfalso|lia].
  (* nine bytes would make the value 2^63 or more *)
  pose proof (be_sval_nonneg _ B ltac:(lia)) as V. rewrite S in V.
  destruct (uint64_body v) as [|a [|b l]]; try discriminate. rewrite be_val_cons in V.
  inversion B as [|? ? Ba Bl]; subst. inversion Bl as [|? ? Bb Bl']; subst.
  pose proof (be_val_bound _ Bl') as Bv. rewrite be_val_cons in V. cbn [length] in *.
  injection N as N. rewrite N in *. cbn [int_minimal] in M. unfold word_ok in Ba, Bb.
  change (256 ^ Z.of_nat 8) with (2 ^ 64) in V. change (256 ^ Z.of_nat 7) with (2 ^ 56) in V.
  destruct (Z.eqb_spec a 0) as [->|]; [|lia].
  destruct (Z.ltb_spec b 128); [discriminate|lia].
Qed.

(** Signed integers survive encoding and parsing: whatever 64-bit value is
    written with [CBB_add_asn1_int64], a run that hands out its buffer hands
    out bytes from which [CBS_get_asn1_int64] reads the same value back and
    leaves nothing; with an allocator that does not fail, the run succeeds. *)
Theorem CBB_int64_roundtrip (malloc : Z -> option (list Z)) (cap v : Z)
  (Hm : malloc_ok malloc) (Hc : word_ok 34 cap) (Hv : - 2 ^ 63 <= v < 2 ^ 63) :
  match build malloc cap (CBB_add_asn1_int64 malloc 0 v) with
  | Some r => exists c', CBS_get_asn1_int64 (cbs_of_run r) = (Some v, c') /\ cbs_bytes c' = []
  | None => ~ malloc_total malloc
  end.
Proof.
  unfold word_ok in Hc. destruct (asn1_int64_body_spec v Hv) as (M & S & B & L).
  pose proof (length_der_tlv CBS_ASN1_INTEGER (asn1_int64_body v) word_ok_INTEGER) as Ll.
  pose proof (build_spec malloc cap _ _ Hm ltac:(unfold word_ok; lia) (add_asn1_int64_append malloc Hm 0 v Hv)) as H.
  destruct (build malloc cap _) as [r|]; [|intros T; apply H; repeat split; auto; lia].
  destruct (cbs_of_run_ok r _ H) as [Ok E].
  - apply der_tlv_ok; auto using word_ok_INTEGER. lia.
  - lia.
  - rewrite <- (app_nil_r (der_tlv _ _)) in E.
    destruct (CBS_get_asn1_int64_ok _ _ _ Ok M L E) as (c' & G & R & _).
    rewrite S in G. eauto.
Qed.

Lemma CBB_int64_roundtrip_witness :
  exists r, build zero_malloc 1 (CBB_add_asn1_int64 zero_malloc 0 (-129)) = Some r /\
    exists c', CBS_get_asn1_int64 (cbs_of_run r) = (Some (-129), c') /\ cbs_bytes c' = [].
Proof.
  eexists. split; [vm_compute; reflexivity|].
  exact (CBB_int64_roundtrip zero_malloc 1 (-129) zero_malloc_ok
    ltac:(split; [discriminate|reflexivity]) ltac:(split; [discriminate|reflexivity])).
Defined.

(** ** Nested structures *)

(** An ASN.1 value as a client of CBB holds it. *)
Inductive asn1_tree :=
| Prim (tag : Z) (body : list Z)
| Cons (tag : Z) (children : list asn1_tree).

Fixpoint der_tree (t : asn1_tree) : list Z :=
  match t with
  | Prim tag body => der_tlv tag body
  | Cons tag children => der_tlv tag (concat (map der_tree children))
  end.

Fixpoint tree_ok (t : asn1_tree) : Prop :=
  match t with
  | Prim tag body => word_ok 32 tag /\ Z.of_nat (length body) < 2 ^ 64
  | Cons tag children => word_ok 32 tag /\ fold_right (fun t P => tree_ok t /\ P) True children
  end.

(** The client: one child CBB per element, each closed by a flush of its
    parent. *)
Fixpoint write_tree (malloc : Z -> option (list Z)) (c : nat) (t : asn1_tree) : SE world unit :=
  match t with
  | Prim tag body =>
      with_child malloc c (fun k => CBB_add_asn1 malloc c k tag)
        (fun k => CBB_add_bytes malloc k body (Z.of_nat (length body)))
  | Cons tag children =>
      with_child malloc c (fun k => CBB_add_asn1 malloc c k tag)
        (fun k => fold_right (fun t rest => write_tree malloc k t ;;; rest) (ret tt) children)
  end.

Section TreeInd.
Variable P : asn1_tree -> Prop.
Hypothesis Hprim : forall tag body, P (Prim tag body).
Hypothesis Hcons : forall tag l, Forall P l -> P (Cons tag l).

Fixpoint asn1_tree_ind' (t : asn1_tree) : P t :=
  match t with
  | Prim tag body => Hprim tag body
  | Cons tag l =>
      Hcons tag l ((fix go l : Forall P l :=
        match l with [] => Forall_nil P | t :: l => Forall_cons t (asn1_tree_ind' t) (go l) end) l)
  end.
End TreeInd.

Lemma write_tree_append malloc t :
  malloc_ok malloc -> tree_ok t -> forall c, appends malloc c (write_tree malloc c t) (der_tree t) tt.
Proof.
  intros Hm. induction t as [tag body|tag l IH] using asn1_tree_ind'; cbn [tree_ok write_tree der_tree];
    intros [Ht Hl] c.
  - apply asn1_append; auto. intros k _. now apply add_bytes_append.
  - apply asn1_append; auto. intros k _. clear Ht c. induction IH as [|t l Pt _ IHl]; cbn in *.
    + apply appends_ret.
    + destruct Hl as [H1 H2]. eapply appends_bind; [now apply Pt|now apply IHl].
Qed.

(** C2: Building nested ASN.1 with child CBBs produces the DER encoding: for
    every tree of tags and contents, of any depth and with contents of any
    size, the bytes handed out are the nested [der_tlv]s, with all the length
    prefixes that were not known when the headers were written; with an
    allocator that does not fail and a result below 4 GB the run succeeds. *)
Theorem CBB_nested_der (malloc : Z -> option (list Z)) (cap : Z) (t : asn1_tree)
  (Hm : malloc_ok malloc) (Hc : word_ok 34 cap) (Ht : tree_ok t) :
  match build malloc cap (write_tree malloc 0 t) with
  | Some r => handed_out r (der_tree t)
  | None => ~ (malloc_total malloc /\ Z.of_nat (length (der_tree t)) <= 4294967294)
  end.
Proof.
  unfold word_ok in Hc.
  pose proof (build_spec malloc cap _ _ Hm ltac:(unfold word_ok; lia) (write_tree_append malloc t Hm Ht 0)) as H.
  destruct (build malloc cap _) as [r|]; [exact H|]. intros [T L]. apply H. repeat split; auto; lia.
Qed.

Lemma CBB_nested_der_witness :
  let t := Cons 536870928 [Prim 2 [5]; Cons 536870928 [Prim 4 (repeat 7 200)]] in
  exists r, build zero_malloc 0 (write_tree zero_malloc 0 t) = Some r /\ handed_out r (der_tree t).
Proof.
  cbv zeta. eexists. split; [vm_compute; reflexivity|].
  exact (CBB_nested_der zero_malloc 0 (Cons 536870928 [Prim 2 [5]; Cons 536870928 [Prim 4 (repeat 7 200)]])
    zero_malloc_ok ltac:(split; [discriminate|reflexivity])
    ltac:(cbn; repeat split; reflexivity || discriminate)).
Defined.

(** ** Other guarantees *)

(** Length-prefixed strings (the vectors of TLS) survive building and
    parsing: contents that fit the prefix, written into a child opened with
    an [n]-byte prefix, are handed out behind their length, and the reader of
    that prefix width returns them and nothing else. *)
Theorem CBB_length_prefixed_roundtrip (malloc : Z -> option (list Z)) (cap : Z) (n : nat) (data : list Z)
  (Hm : malloc_ok malloc) (Hc : word_ok 34 cap) (Hn : (1 <= n <= 3)%nat)
  (Hd : bytes_ok data) (Hl : Z.of_nat (length data) < 256 ^ Z.of_nat n) :
  match build malloc cap
    (with_child malloc 0 (fun k => cbb_add_length_prefixed malloc 0 k (Z.of_nat n))
       (fun k => CBB_add_bytes malloc k data (Z.of_nat (length data)))) with
  | Some r => exists o c', cbs_get_length_prefixed (Z.of_nat n) (cbs_of_run r) = (Some o, c') /\
      cbs_bytes o = data /\ cbs_bytes c' = []
  | None => ~ malloc_total malloc
  end.
Proof.
  unfold word_ok in Hc.
  assert (Pw : 256 ^ Z.of_nat n <= 256 ^ 3) by (apply Z.pow_le_mono_r; lia).
  pose proof (build_spec malloc cap _ _ Hm ltac:(unfold word_ok; lia)
    (prefixed_append malloc Hm 0 n _ data tt ltac:(lia) Hl
       (fun k _ => add_bytes_append malloc Hm k data ltac:(lia)))) as H.
  destruct (build malloc cap _) as [r|].
  2: { intros T. apply H. rewrite length_app, length_be_bytes. repeat split; auto; lia. }
  destruct (cbs_of_run_ok r _ H) as [Ok E].
  - apply Forall_app. split; [apply be_bytes_ok|assumption].
  - rewrite length_app, length_be_bytes. lia.
  - destruct (cbs_get_u_ok _ _ _ Ok E) as (c1 & G & A & R); [rewrite length_be_bytes; lia|].
    rewrite length_be_bytes, be_val_be_bytes, Z.mod_small in G by lia.
    rewrite <- (app_nil_r data) in R.
    destruct (CBS_get_bytes_ok c1 data [] (proj1 A) R) as (o & c' & G2 & _ & Eo & _ & R').
    exists o, c'. unfold cbs_get_length_prefixed. rewrite (bind_some _ _ _ _ _ G). auto.
Qed.

Lemma CBB_length_prefixed_roundtrip_witness :
  exists r, build zero_malloc 4
    (with_child zero_malloc 0 (fun k => cbb_add_length_prefixed zero_malloc 0 k 2)
       (fun k => CBB_add_bytes zero_malloc k [1; 2; 3] 3)) = Some r /\
    exists o c', cbs_get_length_prefixed 2 (cbs_of_run r) = (Some o, c') /\
      cbs_bytes o = [1; 2; 3] /\ cbs_bytes c' = [].
Proof.
  eexists. split; [vm_compute; reflexivity|].
  exact (CBB_length_prefixed_roundtrip zero_malloc 4 2 [1; 2; 3] zero_malloc_ok
    ltac:(split; [discriminate|reflexivity]) ltac:(lia) ltac:(repeat constructor; discriminate)
    ltac:(reflexivity)).
Defined.

(** Writing into a caller's buffer is exact: an OCTET STRING is written
    into a fixed buffer if and only if its whole encoding fits there, and then
    the encoding is what the buffer starts with; a buffer that is too small is
    never written past its end. *)
Theorem CBB_fixed_buffer_exact (malloc : Z -> option (list Z)) (buf data : list Z)
  (Hm : malloc_ok malloc) (Ht : malloc_total malloc)
  (Hb : Z.of_nat (length buf) < 2 ^ 32 - 1) (Hd : Z.of_nat (length data) < 2 ^ 64) :
  let tlv := der_tlv CBS_ASN1_OCTETSTRING data in
  match build_fixed malloc buf (CBB_add_asn1_octet_string malloc 0 data (Z.of_nat (length data))) with
  | Some r => (length tlv <= length buf)%nat /\ handed_out r tlv
  | None => (length buf < length tlv)%nat
  end.
Proof.
  cbv zeta. unfold build_fixed, CBB_init_fixed, cbb_init.
  pose proof (OPENSSL_malloc_some malloc 32 Ht ltac:(lia)) as A.
  destruct (OPENSSL_malloc malloc 32); [clear A|congruence]. cbn [b_buf b_len b_error].
  set (w := mk_world _ _).
  assert (R : ready 0 w).
  { unfold ready, buffer_ok, buf_bytes, w. cbn. repeat split; auto; lia. }
  pose proof (run_build malloc w _ _ R eq_refl eq_refl (add_asn1_octet_string_append malloc Hm 0 data Hd)) as S.
  destruct (fst _) as [r|].
  - destruct S as [S1 S2]. specialize (S2 eq_refl). cbn [w_base b_cap w] in S2. split; [lia|assumption].
  - destruct (Nat.lt_ge_cases (length buf) (length (der_tlv CBS_ASN1_OCTETSTRING data))); [assumption|].
    exfalso. apply S. cbn [w_base w]. unfold roomy. cbn [b_len b_cap]. split; [lia|left; lia].
Qed.

Lemma CBB_fixed_buffer_exact_witness :
  build_fixed zero_malloc [0; 0; 0; 0] (CBB_add_asn1_octet_string zero_malloc 0 [1; 2; 3] 3) = None /\
  Nat.lt 4 (length (der_tlv CBS_ASN1_OCTETSTRING [1; 2; 3])).
Proof.
  split; [vm_compute; reflexivity|].
  assert (T : malloc_total zero_malloc).
  { intros m [H _]. unfold zero_malloc. destruct (Z.ltb_spec m 0) as [L|]; [|discriminate].
    exfalso. apply (Z.lt_irrefl 0). eapply Z.le_lt_trans; eauto. }
  exact (CBB_fixed_buffer_exact zero_malloc [0; 0; 0; 0] [1; 2; 3] zero_malloc_ok T eq_refl eq_refl).
Defined.

Lemma flush_error malloc c w : b_error (w_base w) = true -> CBB_flush malloc c w = (None, w).
Proof.
  intros E. unfold CBB_flush. cbn [CBB_flush_fuel]. rewrite E, orb_true_r. reflexivity.
Qed.

(** Errors are sticky: once the buffer of a CBB has failed, every
    operation on every CBB that writes to it returns 0 and changes nothing, so
    a broken serialisation is never handed out. *)
Theorem CBB_error_sticky (malloc : Z -> option (list Z)) (w : world) (c k : nat) (v tag n : Z) (data : list Z)
  (He : b_error (w_base w) = true) :
  CBB_flush malloc c w = (None, w) /\
  CBB_add_u8 malloc c v w = (None, w) /\
  CBB_add_u64le malloc c v w = (None, w) /\
  CBB_add_bytes malloc c data n w = (None, w) /\
  CBB_add_zeros malloc c n w = (None, w) /\
  CBB_reserve malloc c n w = (None, w) /\
  CBB_add_asn1 malloc c k tag w = (None, w) /\
  cbb_add_length_prefixed malloc c k n w = (None, w) /\
  CBB_add_asn1_oid_from_text malloc c data n w = (None, w) /\
  CBB_finish malloc c true true w = (None, w).
Proof.
  pose proof (flush_error malloc c w He) as F. split; [exact F|].
  repeat (split; [first [apply bind_none; exact F | apply bind_none, bind_none; exact F]|]).
  unfold CBB_finish. unfold bind at 1. unfold get at 1. destruct (cbb_is_child (cbb_at w c)); [reflexivity|].
  now apply bind_none.
Qed.

Lemma CBB_error_sticky_witness :
  exists w, CBB_add_bytes zero_malloc 0 [1; 2] 2 (mk_world [mk_CBB true None 0 0 false false] (mk_buffer None 0 0 false false)) = (None, w) /\
    b_error (w_base w) = true /\ CBB_add_bytes zero_malloc 0 [] 0 w = (None, w).
Proof.
  eexists. split; [vm_compute; reflexivity|]. split; [reflexivity|].
  exact (proj1 (proj2 (proj2 (proj2 (CBB_error_sticky zero_malloc
    (mk_world [mk_CBB true None 0 0 false false] (mk_buffer None 0 0 false true)) 0 1 0 0 0 [] eq_refl))))).
Defined.
