(* ===== verification/Der.v ===== *)
(** * Users of CBS and CBB together

    Object identifiers as dotted text ([CBB_add_asn1_oid_from_text] of [cbb.c]
    and [CBS_asn1_oid_to_text] of [cbs.c]), the sorting of SET OF elements
    ([CBB_flush_asn1_set_of]) and [CBB_finish_i2d] of [asn1_compat.c]. *)

From Stdlib Require Import ZArith Lia List Bool Permutation Sorted.
From S2P Require Import Prelude CStr ConstTime Mem Cbs Cbb.
Import ListNotations.
Open Scope se_scope.

Section Users.
Variable malloc : Z -> option (list Z).

Definition add_decimal (out : nat) (v : Z) : SE world unit :=
  let buf := decimal v ++ [0] in
  CBB_add_bytes malloc out buf (strlen buf).

(** [while (CBS_len(&copy) != 0)]: every number takes a byte or more. *)
Fixpoint oid_text_components (fuel : nat) (copy : CBS) : SE world unit :=
  match fuel with
  | O => fail
  | S fuel =>
      if Cbs.CBS_len copy =? 0 then ret tt
      else
        match parse_base128_integer copy with
        | (None, _) => fail
        | (Some v, copy) =>
            CBB_add_u8 malloc 0 46 ;;; add_decimal 0 v ;;; oid_text_components fuel copy
        end
  end.

(** What is written to the CBB of [CBS_asn1_oid_to_text], its address 0. *)
Definition oid_to_text_body (cbs : CBS) : SE world unit :=
  match parse_base128_integer cbs with
  | (None, _) => fail
  | (Some v, copy) =>
      (if 80 <=? v then
         CBB_add_bytes malloc 0 [50; 46] 2 ;;; add_decimal 0 (v - 80)
       else
         add_decimal 0 (v / 40) ;;; CBB_add_u8 malloc 0 46 ;;; add_decimal 0 (v mod 40)) ;;;
      oid_text_components (S (Z.to_nat (Cbs.CBS_len copy))) copy ;;;
      CBB_add_u8 malloc 0 0
  end.

(** The C string, NUL included, or NULL. *)
Definition CBS_asn1_oid_to_text (cbs : CBS) : option (list Z) :=
  match build malloc 32 (oid_to_text_body cbs) with
  | Some (Some p, n) => Some (firstn (Z.to_nat n) (blk_bytes p))
  | _ => None
  end.
End Users.

Lemma add_decimal_append malloc c v :
  malloc_ok malloc -> 0 <= v -> appends malloc c (add_decimal malloc c v) (decimal v) tt.
Proof.
  intros Hm Hv. unfold add_decimal. rewrite strlen_decimal by assumption.
  pose proof (length_decimal_digits 20 v : (length (decimal v) <= 20)%nat).
  pose proof (add_bytes_append malloc Hm c (decimal v) ltac:(lia)) as A.
  unfold CBB_add_bytes in *. rewrite Nat2Z.id in *. rewrite firstn_all in A.
  now rewrite firstn_app_length.
Qed.

(** ** Parsing dotted decimal *)

(** The text up to a component boundary: the end, or a dot with text after it. *)
Definition component_end (c c' : CBS) (ds : list Z) : Prop :=
  cbs_ok c' /\
  ((cbs_bytes c = ds /\ cbs_bytes c' = []) \/
   (cbs_bytes c = ds ++ 46 :: cbs_bytes c' /\ cbs_bytes c' <> [])).

Lemma CBS_len_pos c : cbs_ok c -> (0 <? Cbs.CBS_len c) = true <-> cbs_bytes c <> [].
Proof.
  intros Hc. pose proof (length_cbs_bytes c Hc) as L. unfold Cbs.CBS_len.
  destruct (cbs_bytes c); cbn [length] in L; destruct (Z.ltb_spec 0 (cbs_len c)); split; congruence || lia.
Qed.

Lemma dotted_decimal_loop_inv f : forall out seen c v c',
  cbs_ok c -> 0 <= out < 2 ^ 64 -> (seen = false -> out = 0) ->
  dotted_decimal_loop f out seen c = (Some v, c') ->
  0 <= v < 2 ^ 64 /\ exists ds, component_end c c' ds /\ (if seen then decimal out else []) ++ ds = decimal v.
Proof.
  induction f as [|f IH]; intros out seen c v c' Hc Ho Hs E; [discriminate|].
  cbn [dotted_decimal_loop] in E.
  destruct (CBS_get_u8 c) as [[u|] c1] eqn:G.
  - destruct (CBS_get_u8_inv c u c1 Hc G) as [Hu [Hc1 A]].
    destruct (Z.eqb_spec u 46) as [->|N]; cbn [andb] in E.
    + destruct (0 <? Cbs.CBS_len c1) eqn:P.
      * destruct seen; [|discriminate]. injection E as <- <-. split; [assumption|]. exists [].
        rewrite app_nil_r. split; [|reflexivity]. split; [assumption|]. right. split; [exact A|].
        now apply CBS_len_pos in P.
      * cbn in E. discriminate.
    + destruct ((u <? 48) || (57 <? u) || seen && (out =? 0) || (UINT64_MAX / 10 <? out)
                || (UINT64_MAX - (u - 48) <? out * 10)) eqn:Bad; [discriminate|].
      repeat (apply orb_false_elim in Bad as [Bad ?]).
      repeat match goal with H : (_ <? _) = false |- _ => apply Z.ltb_ge in H end.
      unfold UINT64_MAX in *.
      apply IH in E as (V & ds & (Hc' & CE) & D); [|assumption|lia|discriminate].
      split; [assumption|]. exists (u :: ds). split.
      * split; [assumption|]. rewrite A. cbn [app]. destruct CE as [[C1 C2]|[C1 C2]]; [left|right];
          (split; [congruence|assumption]).
      * rewrite <- D. destruct seen.
        -- assert (out <> 0) by (match goal with H : true && (out =? 0) = false |- _ =>
             cbn [andb] in H; now apply Z.eqb_neq in H end).
           rewrite decimal_step, <- app_assoc by lia. cbn [app]. do 2 f_equal. lia.
        -- rewrite Hs by reflexivity. rewrite decimal_digit by lia. cbn [app]. f_equal. lia.
  - assert (Ec : cbs_bytes c = [] /\ c1 = c).
    { destruct (cbs_bytes c) as [|b r] eqn:Eb.
      - rewrite CBS_get_u8_none in G by assumption. injection G as <-. auto.
      - destruct (CBS_get_u8_ok c b r Hc Eb) as (c2 & G2 & _). congruence. }
    destruct Ec as [Ec ->]. destruct seen; [|discriminate]. injection E as <- <-.
    split; [assumption|]. exists []. rewrite app_nil_r. split; [|reflexivity].
    split; [assumption|]. left. auto.
Qed.

Lemma parse_dotted_decimal_inv c v c' :
  cbs_ok c -> parse_dotted_decimal c = (Some v, c') ->
  0 <= v < 2 ^ 64 /\ component_end c c' (decimal v).
Proof.
  intros Hc E. apply dotted_decimal_loop_inv in E as (V & ds & C & D); [|assumption|lia|reflexivity].
  cbn [app] in D. subst ds. auto.
Qed.

(** ** Object identifiers *)

Fixpoint dotted (l : list Z) : list Z :=
  match l with
  | [] => []
  | [v] => decimal v
  | v :: l => decimal v ++ 46 :: dotted l
  end.

Lemma dotted_cons v l : l <> [] -> dotted (v :: l) = decimal v ++ 46 :: dotted l.
Proof. destruct l; [congruence|reflexivity]. Qed.

(** The components a text holds, as the loop of [CBB_add_asn1_oid_from_text]
    reads them. *)
Fixpoint parse_components (fuel : nat) (cbs : CBS) : option (list Z) :=
  match fuel with
  | O => None
  | S fuel =>
      if 0 <? Cbs.CBS_len cbs then
        match parse_dotted_decimal cbs with
        | (None, _) => None
        | (Some a, cbs) => match parse_components fuel cbs with Some l => Some (a :: l) | None => None end
        end
      else Some []
  end.

Abbreviation u64_ok := (word_ok 64).

Lemma component_shorter c c' ds : component_end c c' ds -> (length (cbs_bytes c') <= length (cbs_bytes c))%nat.
Proof.
  intros (_ & [[E E']|[E _]]); rewrite ?E', E, ?length_app; cbn [length]; lia.
Qed.

Lemma component_dotted c c' v l :
  component_end c c' (decimal v) -> cbs_bytes c' = dotted l -> Forall u64_ok l ->
  cbs_bytes c = dotted (v :: l).
Proof.
  intros (Hc' & [[E E']|[E N]]) D Hl.
  - destruct l as [|a l]; [exact E|]. rewrite E' in D. exfalso.
    inversion Hl as [|? ? Ha _]; subst. unfold word_ok in Ha.
    destruct l; cbn [dotted] in D; symmetry in D; [now apply decimal_nonempty in D|].
    apply app_eq_nil in D as [_ D]. discriminate D.
  - rewrite dotted_cons; [congruence|]. intros ->. rewrite D in N. now apply N.
Qed.

Lemma parse_components_spec f : forall c l,
  cbs_ok c -> parse_components f c = Some l -> Forall u64_ok l /\ cbs_bytes c = dotted l.
Proof.
  induction f as [|f IH]; intros c l Hc E; [discriminate|]. cbn [parse_components] in E.
  destruct (0 <? Cbs.CBS_len c) eqn:P.
  - destruct (parse_dotted_decimal c) as [[a|] c'] eqn:G; [|discriminate].
    destruct (parse_dotted_decimal_inv c a c' Hc G) as [Ha C].
    destruct (parse_components f c') as [l'|] eqn:E'; [|discriminate]. injection E as <-.
    destruct (IH c' l' (proj1 C) E') as [Hl D]. split; [constructor; assumption|].
    eapply component_dotted; eauto.
  - injection E as <-. split; [constructor|]. cbn [dotted].
    destruct (cbs_bytes c) eqn:Eb; [reflexivity|].
    assert ((0 <? Cbs.CBS_len c) = true) by (apply CBS_len_pos; congruence). congruence.
Qed.

Lemma oid_components_fail malloc k f : forall c w,
  parse_components f c = None -> fst (oid_components malloc f k c w) = None.
Proof.
  induction f as [|f IH]; intros c w E; [reflexivity|]. cbn [parse_components oid_components] in *.
  destruct (0 <? Cbs.CBS_len c); [|discriminate].
  destruct (parse_dotted_decimal c) as [[a|] c']; [|reflexivity].
  unfold bind. destruct (add_base128_integer malloc k a w) as [[[]|] w1]; [|reflexivity].
  apply IH. now destruct (parse_components f c').
Qed.

Lemma oid_components_append malloc k f : forall c l,
  malloc_ok malloc -> cbs_ok c -> parse_components f c = Some l ->
  appends malloc k (oid_components malloc f k c) (concat (map base128 l)) tt.
Proof.
  induction f as [|f IH]; intros c l Hm Hc E; [discriminate|]. cbn [parse_components oid_components] in *.
  destruct (0 <? Cbs.CBS_len c); [|injection E as <-; apply appends_ret].
  destruct (parse_dotted_decimal c) as [[a|] c'] eqn:G; [|discriminate].
  destruct (parse_dotted_decimal_inv c a c' Hc G) as [Ha C].
  destruct (parse_components f c') as [l'|] eqn:E'; [|discriminate]. injection E as <-.
  cbn [map concat]. eapply appends_bind; [now apply add_base128_append|]. apply IH; auto. apply C.
Qed.

(** The whole text: first two components, the others. *)
Definition parse_oid (text : list Z) (len : Z) : option (Z * Z * list Z) :=
  match parse_dotted_decimal (CBS_init text len) with
  | (None, _) => None
  | (Some a, cbs) =>
      match parse_dotted_decimal cbs with
      | (None, _) => None
      | (Some b, cbs) =>
          if (2 <? a) || ((a <? 2) && (39 <? b)) || (UINT64_MAX - 80 <? b) then None
          else
            match parse_components (S (Z.to_nat (Cbs.CBS_len cbs))) cbs with
            | Some l => Some (a, b, l)
            | None => None
            end
      end
  end.

Definition oid_content (a b : Z) (l : list Z) : list Z := base128 (40 * a + b) ++ concat (map base128 l).

Lemma oid_from_text_cases malloc k text len :
  malloc_ok malloc -> cbs_ok (CBS_init text len) ->
  match parse_oid text len with
  | None => forall w, fst (CBB_add_asn1_oid_from_text malloc k text len w) = None
  | Some (a, b, l) =>
      0 <= a <= 2 /\ 0 <= b < 2 ^ 64 - 80 /\ (a < 2 -> b < 40) /\ Forall u64_ok l /\
      cbs_bytes (CBS_init text len) = dotted (a :: b :: l) /\
      appends malloc k (CBB_add_asn1_oid_from_text malloc k text len) (oid_content a b l) tt
  end.
Proof.
  intros Hm Hc. unfold parse_oid, CBB_add_asn1_oid_from_text.
  destruct (parse_dotted_decimal (CBS_init text len)) as [[a|] c1] eqn:G1.
  2: { intros w. unfold bind. destruct (CBB_flush malloc k w) as [[[]|] w1]; reflexivity. }
  destruct (parse_dotted_decimal_inv _ a c1 Hc G1) as [Ha C1].
  destruct (parse_dotted_decimal c1) as [[b|] c2] eqn:G2.
  2: { intros w. unfold bind. destruct (CBB_flush malloc k w) as [[[]|] w1]; reflexivity. }
  destruct (parse_dotted_decimal_inv _ b c2 (proj1 C1) G2) as [Hb C2].
  destruct ((2 <? a) || ((a <? 2) && (39 <? b)) || (UINT64_MAX - 80 <? b)) eqn:Bad.
  { intros w. unfold bind. destruct (CBB_flush malloc k w) as [[[]|] w1]; reflexivity. }
  repeat (apply orb_false_elim in Bad as [Bad ?]). unfold UINT64_MAX in *.
  destruct (parse_components _ c2) as [l|] eqn:E.
  - destruct (parse_components_spec _ c2 l (proj1 C2) E) as [Hl D].
    destruct (Z.ltb_spec 2 a); [discriminate|]. destruct (Z.ltb_spec (2 ^ 64 - 1 - 80) b); [discriminate|].
    split; [lia|]. split; [lia|]. split.
    { intros. destruct (Z.ltb_spec a 2); [|lia]. destruct (Z.ltb_spec 39 b); [discriminate|lia]. }
    split; [assumption|]. split.
    { eapply component_dotted; [exact C1| |constructor; assumption]. eapply component_dotted; eauto. }
    unfold oid_content. intros w R. unfold bind at 1. rewrite (flush_ready malloc k w R).
    rewrite (wrap_small 64 (40 * a + b)) by (unfold word_ok; lia).
    apply (appends_bind malloc k _ (fun _ => _) _ tt _ tt); [apply add_base128_append; auto; lia| |exact R].
    apply oid_components_append; auto. apply C2.
  - intros w. unfold bind at 1. destruct (CBB_flush malloc k w) as [[[]|] w1]; [|reflexivity].
    unfold bind. destruct (add_base128_integer _ _ _ w1) as [[[]|] w2]; [|reflexivity].
    now apply oid_components_fail.
Qed.

(** ** Back to text *)

Lemma oid_text_components_append malloc f : forall c l,
  malloc_ok malloc -> cbs_ok c -> Forall u64_ok l -> cbs_bytes c = concat (map base128 l) ->
  (length (cbs_bytes c) < f)%nat ->
  appends malloc 0 (oid_text_components malloc f c) (concat (map (fun v => 46 :: decimal v) l)) tt.
Proof.
  induction f as [|f IH]; intros c l Hm Hc Hl E Hf; [lia|]. cbn [oid_text_components].
  pose proof (length_cbs_bytes c Hc) as L. unfold Cbs.CBS_len. rewrite E in L.
  destruct l as [|v l]; cbn [map concat] in *.
  - cbn [length] in L. destruct (Z.eqb_spec (cbs_len c) 0); [apply appends_ret|lia].
  - inversion Hl as [|? ? Hv Hl']; subst. rewrite length_app in L.
    assert (Lv : (1 <= length (base128 v))%nat) by (unfold base128; rewrite length_app; cbn [length]; lia).
    destruct (Z.eqb_spec (cbs_len c) 0); [lia|].
    destruct (parse_base128_integer_ok v c _ Hc Hv E) as (c' & G & A & R). rewrite G.
    change (46 :: decimal v) with ([46] ++ decimal v). rewrite <- app_assoc.
    eapply appends_bind; [apply add_u8_append; [assumption|unfold word_ok; lia]|].
    unfold word_ok in Hv. eapply appends_bind; [apply add_decimal_append; [assumption|lia]|].
    apply IH; auto; [apply A|]. rewrite E, length_app in Hf. rewrite R. lia.
Qed.

Lemma dotted_tail v l : dotted (v :: l) = decimal v ++ concat (map (fun v => 46 :: decimal v) l).
Proof.
  revert v. induction l as [|a l IH]; intros v; [cbn; now rewrite app_nil_r|].
  rewrite dotted_cons by discriminate. rewrite IH. reflexivity.
Qed.

Lemma base128_nonempty v : base128 v <> [].
Proof. unfold base128. intros H. now apply app_eq_nil in H. Qed.

Lemma oid_to_text_append malloc c a b l :
  malloc_ok malloc -> cbs_ok c -> 0 <= a <= 2 -> 0 <= b < 2 ^ 64 - 80 -> (a < 2 -> b < 40) ->
  Forall u64_ok l -> cbs_bytes c = oid_content a b l ->
  appends malloc 0 (oid_to_text_body malloc c) (dotted (a :: b :: l) ++ [0]) tt.
Proof.
  intros Hm Hc Ha Hb Hab Hl E. unfold oid_to_text_body.
  destruct (parse_base128_integer_ok (40 * a + b) c _ Hc ltac:(lia) E) as (c' & G & A & R). rewrite G.
  rewrite dotted_tail. cbn [map concat]. change (46 :: decimal b) with ([46] ++ decimal b).
  rewrite !app_assoc. rewrite <- (app_assoc _ _ [0]).
  eapply appends_bind with (bs := (decimal a ++ [46]) ++ decimal b).
  - destruct (Z.leb_spec 80 (40 * a + b)).
    + replace a with 2 by lia. replace (40 * 2 + b - 80) with b by lia.
      eapply appends_bind; [exact (add_bytes_append malloc Hm 0 [50; 46] ltac:(cbn; lia))|].
      apply add_decimal_append; [assumption|lia].
    + replace ((40 * a + b) / 40) with a by lia_div. replace ((40 * a + b) mod 40) with b by lia_div.
      rewrite <- app_assoc. eapply appends_bind; [apply add_decimal_append; [assumption|lia]|].
      eapply appends_bind; [apply add_u8_append; [assumption|unfold word_ok; lia]|].
      apply add_decimal_append; [assumption|lia].
  - eapply appends_bind; [|apply add_u8_append; [assumption|unfold word_ok; lia]].
    apply oid_text_components_append; auto; [apply A|].
    pose proof (length_cbs_bytes c' (proj1 A)) as L. unfold Cbs.CBS_len. lia.
Qed.

Lemma length_base128 v : word_ok 64 v -> (length (base128 v) <= 10)%nat.
Proof.
  unfold word_ok. intros Hv. unfold base128. rewrite length_app. cbn [length].
  pose proof (length_base128_hi 9 (v / 128) ltac:(change (128 ^ Z.of_nat 9) with (2 ^ 63); lia_div)). lia.
Qed.

Lemma oid_content_ok a b l :
  0 <= a <= 2 -> 0 <= b -> Forall u64_ok l -> bytes_ok (oid_content a b l).
Proof.
  intros Ha Hb Hl. unfold oid_content. apply Forall_app. split; [apply base128_ok; lia|].
  induction Hl as [|v l Hv _ IH]; cbn [map concat]; [constructor|].
  apply Forall_app. split; [apply base128_ok, Hv|assumption].
Qed.

(** A component takes as many bytes of text as of contents, up to a factor. *)
Lemma length_components l : Forall u64_ok l ->
  (length (concat (map base128 l)) <= 10 * length (concat (map (fun v => 46%Z :: decimal v) l)))%nat.
Proof.
  induction 1 as [|v l Hv _ IH]; cbn [map concat]; [lia|]. rewrite !length_app. cbn [length].
  pose proof (length_base128 v Hv). lia.
Qed.

(** C21: Object identifiers survive the trip through their encoding: a text
    that [CBB_add_asn1_oid_from_text] accepts is exactly the text
    [CBS_asn1_oid_to_text] prints for the contents it wrote (so leading zeros,
    empty components, out-of-range first components and overflowing numbers
    are all rejected), and with an allocator that does not fail the printing
    succeeds. *)
Theorem oid_text_roundtrip (malloc : Z -> option (list Z)) (cap : Z) (text : list Z)
  (Hm : malloc_ok malloc) (Hc : word_ok 34 cap) (Ht : bytes_ok text) (Hl : Z.of_nat (length text) < 2 ^ 20)
  (r : option block * Z)
  (Hr : build malloc cap (CBB_add_asn1_oid_from_text malloc 0 text (Z.of_nat (length text))) = Some r) :
  match CBS_asn1_oid_to_text malloc (cbs_of_run r) with
  | Some s => s = text ++ [0]
  | None => ~ malloc_total malloc
  end.
Proof.
  unfold word_ok in Hc. destruct (CBS_init_ok text Ht ltac:(lia)) as [Ok Et].
  pose proof (oid_from_text_cases malloc 0 text _ Hm Ok) as S. rewrite Et in S.
  destruct (parse_oid text _) as [[[a b] l]|].
  2: { exfalso. unfold build in Hr. destruct (CBB_init malloc cap) as [w|]; [|discriminate].
       unfold bind in Hr. specialize (S w). destruct (CBB_add_asn1_oid_from_text _ _ _ _ w) as [[u|] w1];
         [discriminate S|discriminate Hr]. }
  destruct S as (Ha & Hb & Hab & Hl' & -> & Ap).
  pose proof (build_spec malloc cap _ _ Hm ltac:(unfold word_ok; lia) Ap) as B. rewrite Hr in B.
  assert (Lb : (length (concat (map base128 l)) <= 10 * length (dotted (a :: b :: l)))%nat).
  { pose proof (length_components l Hl'). rewrite dotted_tail. cbn [map concat].
    rewrite !length_app. cbn [length]. lia. }
  destruct (cbs_of_run_ok r _ B) as [Ok2 E2].
  { apply oid_content_ok; auto; lia. }
  { unfold oid_content. rewrite length_app. pose proof (length_base128 (40 * a + b) ltac:(unfold word_ok; lia)). lia. }
  pose proof (oid_to_text_append malloc _ a b l Hm Ok2 Ha Hb Hab Hl' E2) as Ap2.
  pose proof (build_spec malloc 32 _ _ Hm ltac:(unfold word_ok; lia) Ap2) as B2. unfold CBS_asn1_oid_to_text.
  revert B2 Hl. generalize (dotted (a :: b :: l)). intros T B2 Hl.
  destruct (build malloc 32 _) as [[p n]|].
  - destruct B2 as (N & L & F). cbn [fst snd] in *. destruct p as [p|].
    + rewrite N, Nat2Z.id. exact F.
    + rewrite length_app in L. cbn [length] in L. lia.
  - intros M. apply B2. rewrite length_app. cbn [length]. repeat split; auto; lia.
Qed.

Lemma oid_text_roundtrip_witness :
  let text := [49; 46; 50; 46; 56; 52; 48] in
  exists r, build zero_malloc 8 (CBB_add_asn1_oid_from_text zero_malloc 0 text 7) = Some r /\
    match CBS_asn1_oid_to_text zero_malloc (cbs_of_run r) with
    | Some s => s = text ++ [0]
    | None => ~ malloc_total zero_malloc
    end.
Proof.
  cbv zeta. eexists. split; [vm_compute; reflexivity|].
  match goal with |- match CBS_asn1_oid_to_text _ (cbs_of_run ?r) with _ => _ end =>
    apply (oid_text_roundtrip zero_malloc 8 [49; 46; 50; 46; 56; 52; 48] zero_malloc_ok
      ltac:(split; [discriminate|reflexivity]) ltac:(repeat constructor; discriminate) eq_refl r
      ltac:(vm_compute; reflexivity)) end.
Defined.

(** ** SET OF *)

(** [memcmp]: the difference at the first byte that differs. *)
Fixpoint memcmp (a b : list Z) (n : nat) : Z :=
  match n, a, b with
  | S n, x :: a, y :: b => if x =? y then memcmp a b n else x - y
  | _, _, _ => 0
  end.

Definition compare_set_of_element (a b : CBS) : Z :=
  let a_len := Cbs.CBS_len a in
  let b_len := Cbs.CBS_len b in
  let min_len := if a_len <? b_len then a_len else b_len in
  let ret := memcmp (Cbs.CBS_data a) (Cbs.CBS_data b) (Z.to_nat min_len) in
  if negb (ret =? 0) then ret
  else if a_len =? b_len then 0
  else if a_len <? b_len then -1 else 1.

(** The first loop: [while (CBS_len(&cbs) != 0)]. *)
Fixpoint count_children (fuel : nat) (cbs : CBS) : option nat :=
  match fuel with
  | O => None
  | S fuel =>
      if Cbs.CBS_len cbs =? 0 then Some O
      else
        match CBS_get_any_asn1_element cbs with
        | (None, _) => None
        | (Some _, cbs) => match count_children fuel cbs with Some n => Some (S n) | None => None end
        end
  end.

(** The second: the elements of the copy. *)
Fixpoint get_children (n : nat) (cbs : CBS) : option (list CBS) :=
  match n with
  | O => Some []
  | S n =>
      match CBS_get_any_asn1_element cbs with
      | (None, _) => None
      | (Some e, cbs) => match get_children n cbs with Some l => Some (el_out e :: l) | None => None end
      end
  end.

Section SetOf.
Variable malloc : Z -> option (list Z).
(** [qsort] of the C library. *)
Variable qsort : (CBS -> CBS -> Z) -> list CBS -> list CBS.

Definition CBB_flush_asn1_set_of (cbb : nat) : SE world unit :=
  CBB_flush malloc cbb ;;;
  w <- get ;;
  let data := skipn (Z.to_nat (Cbb.CBB_data w cbb)) (buf_bytes (w_base w)) in
  let buf_len := Cbb.CBB_len w cbb in
  match count_children (S (Z.to_nat buf_len)) (CBS_init data buf_len) with
  | None => fail
  | Some num_children =>
      if (num_children <? 2)%nat then ret tt
      else if SIZE_MAX / 16 <? Z.of_nat num_children then fail
      else
        match OPENSSL_memdup malloc data buf_len, OPENSSL_malloc malloc (Z.of_nat num_children * 16) with
        | Some buf, Some _ =>
            match get_children num_children (CBS_init (blk_bytes buf) buf_len) with
            | None => fail
            | Some children =>
                let r := cbb_at w cbb in
                on_base (set_len (cbb_offset r + cbb_pending_len_len r)) ;;;
                fold_right (fun child rest =>
                    CBB_add_bytes malloc cbb (Cbs.CBS_data child) (Cbs.CBS_len child) ;;; rest)
                  (ret tt) (qsort compare_set_of_element children)
            end
        | _, _ => fail
        end
  end.
End SetOf.

(** ** [CBB_finish_i2d] *)

(** What [outp] is: NULL, a pointer to NULL, or a pointer to a caller's
    buffer. *)
Inductive i2d_out :=
| Outp_null
| Outp_alloc
| Outp_buffer (buf : list Z).

(** The return value, and what is left behind [*outp]: the new block, or the
    caller's buffer and how far the pointer has moved. *)
Definition CBB_finish_i2d (malloc : Z -> option (list Z)) (cbb : nat) (outp : i2d_out) (w : world)
  : Z * option (list Z * Z) :=
  match CBB_finish malloc cbb true true w with
  | (None, _) => (-1, None)
  | (Some (der, der_len), _) =>
      let bytes := match der with Some p => blk_bytes p | None => [] end in
      if INT_MAX <? der_len then (-1, None)
      else
        match outp with
        | Outp_null => (der_len, None)
        | Outp_alloc => (der_len, Some (bytes, 0))
        | Outp_buffer buf => (der_len, Some (splice 0 (firstn (Z.to_nat der_len) bytes) buf, der_len))
        end
  end.

(** The order of X.690, section 11.6, on encodings. *)
Fixpoint lex_le (a b : list Z) : Prop :=
  match a, b with
  | [], _ => True
  | _ :: _, [] => False
  | x :: a, y :: b => x < y \/ (x = y /\ lex_le a b)
  end.

(** What the C standard says of [qsort]. *)
Definition qsort_ok (qsort : (CBS -> CBS -> Z) -> list CBS -> list CBS) : Prop :=
  forall cmp l, Permutation l (qsort cmp l) /\
    ((forall a b, In a l -> In b l -> cmp a b <= 0 \/ cmp b a <= 0) ->
     (forall a b c, In a l -> In b l -> In c l -> cmp a b <= 0 -> cmp b c <= 0 -> cmp a c <= 0) ->
     StronglySorted (fun a b => cmp a b <= 0) (qsort cmp l)).

Lemma memcmp_firstn a b n : memcmp (firstn n a) (firstn n b) n = memcmp a b n.
Proof.
  revert a b. induction n as [|n IH]; intros [|x a] [|y b]; cbn [firstn memcmp]; auto.
  now rewrite IH.
Qed.

Lemma memcmp_lex a b :
  (if negb (memcmp a b (Nat.min (length a) (length b)) =? 0) then memcmp a b (Nat.min (length a) (length b))
   else if Z.of_nat (length a) =? Z.of_nat (length b) then 0
   else if Z.of_nat (length a) <? Z.of_nat (length b) then -1 else 1) <= 0 <-> lex_le a b.
Proof.
  revert b. induction a as [|x a IH]; intros [|y b].
  - cbn. split; [auto|lia].
  - cbn [length Nat.min memcmp lex_le]. split; [auto|]. intros _. cbn [Z.eqb negb].
    destruct (Z.eqb_spec (Z.of_nat 0) (Z.of_nat (S (length b)))); [lia|].
    destruct (Z.ltb_spec (Z.of_nat 0) (Z.of_nat (S (length b)))); lia.
  - cbn [length Nat.min memcmp lex_le]. cbn [Z.eqb negb].
    destruct (Z.eqb_spec (Z.of_nat (S (length a))) (Z.of_nat 0)); [lia|].
    destruct (Z.ltb_spec (Z.of_nat (S (length a))) (Z.of_nat 0)); lia.
  - cbn [length Nat.min memcmp lex_le]. destruct (Z.eqb_spec x y) as [->|N].
    + rewrite <- (IH b) in *. 
      replace (Z.of_nat (S (length a)) =? Z.of_nat (S (length b))) with (Z.of_nat (length a) =? Z.of_nat (length b))
        by (destruct (Z.eqb_spec (Z.of_nat (length a)) (Z.of_nat (length b))); symmetry; [apply Z.eqb_eq|apply Z.eqb_neq]; lia).
      replace (Z.of_nat (S (length a)) <? Z.of_nat (S (length b))) with (Z.of_nat (length a) <? Z.of_nat (length b))
        by (destruct (Z.ltb_spec (Z.of_nat (length a)) (Z.of_nat (length b))); symmetry; [apply Z.ltb_lt|apply Z.ltb_ge]; lia).
      intuition lia.
    + destruct (Z.eqb_spec (x - y) 0); [lia|]. cbn [negb]. lia.
Qed.

Lemma compare_spec a b :
  cbs_ok a -> cbs_ok b -> compare_set_of_element a b <= 0 <-> lex_le (cbs_bytes a) (cbs_bytes b).
Proof.
  intros Ha Hb. pose proof (length_cbs_bytes a Ha) as La. pose proof (length_cbs_bytes b Hb) as Lb.
  rewrite <- memcmp_lex. unfold compare_set_of_element, Cbs.CBS_len, Cbs.CBS_data. rewrite La, Lb.
  set (n := Z.to_nat (if cbs_len a <? cbs_len b then cbs_len a else cbs_len b)).
  assert (En : n = Nat.min (length (cbs_bytes a)) (length (cbs_bytes b)))
    by (unfold n; destruct (Z.ltb_spec (cbs_len a) (cbs_len b)); lia).
  assert (Em : memcmp (cbs_data a) (cbs_data b) n = memcmp (cbs_bytes a) (cbs_bytes b) n).
  { rewrite <- memcmp_firstn, <- (memcmp_firstn (cbs_bytes a)). unfold cbs_bytes. rewrite !firstn_firstn.
    f_equal; f_equal; lia. }
  rewrite Em, En. reflexivity.
Qed.

Lemma lex_le_total a b : lex_le a b \/ lex_le b a.
Proof.
  revert b. induction a as [|x a IH]; intros [|y b]; cbn [lex_le]; auto.
  destruct (Z.lt_trichotomy x y) as [|[->|]]; auto. destruct (IH b); auto.
Qed.

Lemma lex_le_trans a b c : lex_le a b -> lex_le b c -> lex_le a c.
Proof.
  revert b c. induction a as [|x a IH]; intros [|y b] [|z c]; cbn [lex_le]; auto; try contradiction.
  intros [H1|[-> H1]] [H2|[-> H2]]; try (left; lia); right; eauto.
Qed.

(** A sequence of elements as the parser hands it out. *)
Definition elements (els : list (Z * list Z)) : Prop :=
  Forall (fun e => word_ok 32 (fst e) /\ Z.of_nat (length (snd e)) < 2 ^ 32) els.

Definition der_seq (els : list (Z * list Z)) : list (list Z) := map (fun e => der_tlv (fst e) (snd e)) els.

Lemma der_tlv_nonempty t b : (1 <= length (der_tlv t b))%nat.
Proof.
  unfold der_tlv, der_header, der_tag. rewrite !length_app. destruct (_ <? 31); cbn [length]; lia.
Qed.

Lemma children_spec els : forall c,
  elements els -> cbs_ok c -> cbs_bytes c = concat (der_seq els) ->
  (forall f, (length (cbs_bytes c) < f)%nat -> count_children f c = Some (length els)) /\
  exists l, get_children (length els) c = Some l /\ Forall cbs_ok l /\ map cbs_bytes l = der_seq els.
Proof.
  induction els as [|[t b] els IH]; intros c He Hc E; cbn [der_seq map concat length] in *.
  - split; [|exists []; repeat split; constructor]. intros [|f] Hf; [lia|]. cbn [count_children].
    pose proof (length_cbs_bytes c Hc) as L. rewrite E in L. cbn [length] in L. unfold Cbs.CBS_len.
    now destruct (Z.eqb_spec (cbs_len c) 0); [|lia].
  - inversion He as [|? ? [Ht Hl] He']; subst. cbn [fst snd] in *.
    destruct (der_element_ok c t b _ Hc Ht Hl E) as (o & c' & G & Ho & Eo & Hc' & R).
    destruct (IH c' He' Hc' R) as (C1 & l & C2 & C3 & C4).
    pose proof (der_tlv_nonempty t b) as Nn. split.
    + intros [|f] Hf; [lia|]. cbn [count_children]. pose proof (length_cbs_bytes c Hc) as L.
      rewrite E, length_app in L, Hf. unfold Cbs.CBS_len. destruct (Z.eqb_spec (cbs_len c) 0); [lia|].
      rewrite G, C1; [reflexivity|]. rewrite R. fold der_seq in *. lia.
    + exists (o :: l). cbn [get_children map]. rewrite G, C2. repeat split; auto. cbn [el_out]. f_equal; auto.
Qed.

Lemma add_children_append malloc k l :
  malloc_ok malloc -> Forall cbs_ok l ->
  appends malloc k (fold_right (fun child rest =>
      CBB_add_bytes malloc k (Cbs.CBS_data child) (Cbs.CBS_len child) ;;; rest) (ret tt) l)
    (concat (map cbs_bytes l)) tt.
Proof.
  intros Hm. induction 1 as [|c l Hc _ IH]; cbn [fold_right map concat]; [apply appends_ret|].
  eapply appends_bind; [|exact IH].
  pose proof (length_cbs_bytes c Hc) as L. destruct Hc as [W _]. unfold word_ok in W.
  pose proof (add_bytes_append malloc Hm k (cbs_bytes c) ltac:(lia)) as A.
  unfold CBB_add_bytes, Cbs.CBS_data, Cbs.CBS_len in *. rewrite L in A.
  unfold cbs_bytes in A. rewrite firstn_firstn, Nat.min_id in A. exact A.
Qed.

(** Rewinding to a length that was reached before. *)
Lemma rewind w c n pre body :
  ready c w -> contents (w_base w) = pre ++ body -> Z.of_nat (length pre) = n ->
  exists w', on_base (set_len n) w = (Some tt, w') /\ ready c w' /\ contents (w_base w') = pre /\
    w_cbbs w' = w_cbbs w /\ b_cap (w_base w') = b_cap (w_base w).
Proof.
  intros R E L. eexists. split; [reflexivity|]. pose proof R as (Hb & Er & Hc & B & C).
  pose proof (length_contents _ Hb) as Lc. rewrite E, length_app in Lc.
  destruct Hb as (H1 & H2 & H3 & H4).
  assert (Ep : firstn (Z.to_nat n) (buf_bytes (w_base w)) = pre).
  { unfold contents in E. apply (f_equal (firstn (length pre))) in E.
    rewrite firstn_firstn, firstn_app_length in E. etransitivity; [|exact E]. f_equal. lia. }
  unfold ready, buffer_ok, contents, buf_bytes, cbb_at in *. cbn [w_base w_cbbs b_buf b_len b_cap b_error].
  repeat split; auto; lia.
Qed.

Lemma skipn_buf w n pre body :
  buffer_ok (w_base w) -> contents (w_base w) = pre ++ body -> Z.of_nat (length pre) = n ->
  firstn (length body) (skipn (Z.to_nat n) (buf_bytes (w_base w))) = body /\
  (length body <= length (skipn (Z.to_nat n) (buf_bytes (w_base w))))%nat.
Proof.
  intros Hb E L. pose proof (length_contents _ Hb) as Lc. rewrite E, length_app in Lc.
  destruct Hb as (H1 & H2 & H3 & H4). unfold contents in E. split; [|rewrite length_skipn; lia].
  rewrite <- (firstn_skipn (Z.to_nat (b_len (w_base w))) (buf_bytes (w_base w))), E, <- app_assoc.
  replace (Z.to_nat n) with (length pre) by lia. rewrite skipn_app_length. apply firstn_app_length.
Qed.

Lemma sorted_small {A} (R : A -> A -> Prop) (l : list A) : (length l < 2)%nat -> StronglySorted R l.
Proof. destruct l as [|a [|]]; cbn; intros; try lia; repeat constructor. Qed.

Lemma strongly_sorted_map {A B} (f : A -> B) (R : A -> A -> Prop) (S : B -> B -> Prop) l :
  (forall a b, In a l -> In b l -> R a b -> S (f a) (f b)) -> StronglySorted R l -> StronglySorted S (map f l).
Proof.
  intros H. induction 1 as [|a l Hs IH Ha]; cbn [map]; [constructor|]. constructor.
  - apply IH. intros x y Hx Hy. apply H; now right.
  - rewrite Forall_forall in *. intros y Hy. apply in_map_iff in Hy as (x & <- & Hx).
    apply H; [now left|now right|auto].
Qed.

(** The copy the elements are taken from while the buffer is rewritten. *)
Lemma memdup_children malloc els data n buf :
  malloc_ok malloc -> elements els -> bytes_ok (concat (der_seq els)) ->
  n = Z.of_nat (length (concat (der_seq els))) ->
  firstn (length (concat (der_seq els))) data = concat (der_seq els) -> n < 2 ^ 64 ->
  OPENSSL_memdup malloc data n = Some buf ->
  exists l, get_children (length els) (CBS_init (blk_bytes buf) n) = Some l /\ Forall cbs_ok l /\
    map cbs_bytes l = der_seq els.
Proof.
  intros Hm He Hb En D L E. unfold OPENSSL_memdup in E. destruct (n =? 0); [discriminate|].
  destruct (OPENSSL_malloc malloc n) as [p|] eqn:Ep; [|discriminate]. injection E as <-.
  apply OPENSSL_malloc_ok in Ep as [P1 P2]; [|assumption|unfold word_ok; lia].
  unfold block_ok in P1. cbn [blk_bytes].
  assert (Z.to_nat n = length (concat (der_seq els))) as En' by lia. rewrite En', D.
  set (b := concat (der_seq els)) in *.
  assert (F : firstn (Z.to_nat n) (splice 0 b (blk_bytes p)) = b).
  { rewrite En'. exact (firstn_splice 0 b (blk_bytes p) ltac:(cbn [Nat.add]; lia)). }
  assert (Ok : cbs_ok (CBS_init (splice 0 b (blk_bytes p)) n)).
  { apply CBS_init_prefix; try lia; [|now rewrite F]. rewrite length_splice by (cbn [Nat.add]; lia). lia. }
  exact (proj2 (children_spec els _ He Ok F)).
Qed.

Lemma sorted_children qsort l :
  qsort_ok qsort -> Forall cbs_ok l ->
  StronglySorted lex_le (map cbs_bytes (qsort compare_set_of_element l)).
Proof.
  intros Hq Hl. destruct (Hq compare_set_of_element l) as [P S]. rewrite Forall_forall in Hl.
  eapply strongly_sorted_map; [|apply S].
  - intros a b Ia Ib. apply compare_spec; apply Hl; eapply Permutation_in; try eassumption; now apply Permutation_sym.
  - intros a b Ia Ib. rewrite !compare_spec by auto. apply lex_le_total.
  - intros a b c Ia Ib Ic. rewrite !compare_spec by auto. apply lex_le_trans.
Qed.

Lemma Permutation_concat_map {A B} (f : A -> list B) l l' :
  Permutation l l' -> Permutation (concat (map f l)) (concat (map f l')).
Proof.
  induction 1; cbn [map concat]; auto.
  - now apply Permutation_app_head.
  - rewrite !app_assoc. apply Permutation_app_tail, Permutation_app_comm.
  - eapply Permutation_trans; eauto.
Qed.

(** C22: [CBB_flush_asn1_set_of] puts the elements of a SET OF in DER order:
    run on an open CBB whose contents are any sequence of DER elements, it
    either fails for want of memory or leaves there the same elements, sorted
    by their encodings, and nothing else changed.  [qsort] is the C library's. *)
Theorem set_of_sorted malloc qsort (k : nat) (w : world) (pre : list Z) (els : list (Z * list Z))
  (Hm : malloc_ok malloc) (Hq : qsort_ok qsort) (Hr : ready k w) (He : elements els)
  (Hb : bytes_ok (concat (der_seq els)))
  (Hp : Z.of_nat (length pre) = Cbb.CBB_data w k)
  (Hc : contents (w_base w) = pre ++ concat (der_seq els)) :
  match CBB_flush_asn1_set_of malloc qsort k w with
  | (Some _, w') => exists els', Permutation (der_seq els) els' /\ StronglySorted lex_le els' /\
      contents (w_base w') = pre ++ concat els' /\ ready k w'
  | (None, _) => ~ malloc_total malloc \/ 2 ^ 28 <= Z.of_nat (length els) \/
      2 ^ 32 - 1 <= b_len (w_base w)
  end.
Proof.
  unfold CBB_flush_asn1_set_of. unfold bind at 1. rewrite (flush_ready malloc k w Hr). unfold bind at 1, get at 1.
  pose proof Hr as (Ob & _). pose proof (length_contents _ Ob) as L. rewrite Hc, length_app in L.
  pose proof Ob as ((B1 & B2) & B3 & _).
  destruct (skipn_buf w _ pre _ Ob Hc Hp) as [D1 D2].
  set (data := skipn _ _) in *.
  assert (EL : Cbb.CBB_len w k = Z.of_nat (length (concat (der_seq els)))).
  { unfold Cbb.CBB_len, Cbb.CBB_data in *. rewrite wrap_small by (unfold word_ok; lia). lia. }
  rewrite EL. remember (Z.of_nat (length (concat (der_seq els)))) as n eqn:En.
  assert (Oc : cbs_ok (CBS_init data n) /\ cbs_bytes (CBS_init data n) = concat (der_seq els)).
  { subst n. split; [apply CBS_init_prefix|]; rewrite ?Nat2Z.id, ?D1; auto; try lia.
    unfold cbs_bytes. cbn [cbs_len cbs_data CBS_init]. now rewrite Nat2Z.id. }
  destruct (children_spec els _ He (proj1 Oc) (proj2 Oc)) as [Cn _]. rewrite Cn.
  2: { rewrite (proj2 Oc). lia. }
  destruct (Nat.ltb_spec (length els) 2) as [Sm|Lg].
  { exists (der_seq els). split; [reflexivity|]. split; [apply sorted_small; unfold der_seq; now rewrite length_map|]. auto. }
  unfold SIZE_MAX. destruct (Z.ltb_spec ((2 ^ 64 - 1) / 16) (Z.of_nat (length els))); [right; left; lia_div|].
  destruct (OPENSSL_memdup malloc data n) as [buf|] eqn:Em.
  2: { destruct (Z.lt_ge_cases n (2 ^ 32)) as [Sn|]; [left|right; right; lia]. intros T.
       unfold OPENSSL_memdup in Em. destruct (Z.eqb_spec n 0) as [N0|N0].
       - destruct els as [|[t b] els]; cbn [length] in Lg; [lia|]. rewrite N0 in En. cbn [der_seq map concat fst snd] in En.
         rewrite length_app in En. pose proof (der_tlv_nonempty t b). lia.
       - pose proof (OPENSSL_malloc_some malloc n T ltac:(lia)). now destruct (OPENSSL_malloc malloc n). }
  destruct (OPENSSL_malloc malloc (Z.of_nat (length els) * 16)) eqn:Ec.
  2: { destruct (Z.lt_ge_cases (Z.of_nat (length els)) (2 ^ 28)); [left; intros T|right; left; assumption].
       exact (OPENSSL_malloc_some malloc (Z.of_nat (length els) * 16) T ltac:(lia) Ec). }
  destruct (memdup_children malloc els data n buf Hm He Hb En D1 ltac:(lia) Em) as (l & G & Ol & El).
  rewrite G. cbv zeta. unfold bind at 1.
  destruct (rewind w k (cbb_offset (cbb_at w k) + cbb_pending_len_len (cbb_at w k)) pre _ Hr Hc Hp)
    as (w1 & F & R1 & C1 & Eq & Cap). rewrite F.
  destruct (Hq compare_set_of_element l) as [Pm Sd].
  assert (Oq : Forall cbs_ok (qsort compare_set_of_element l)) by (eapply Permutation_Forall; eauto).
  pose proof (add_children_append malloc k _ Hm Oq w1 R1) as A.
  match type of A with (let (r, w') := ?t in _) => destruct t as [[[]|] w2] end.
  - destruct A as (_ & G2 & Be). exists (map cbs_bytes (qsort compare_set_of_element l)). rewrite <- El.
    split; [now apply Permutation_map|]. split; [now apply sorted_children|].
    split; [rewrite <- C1; apply G2|eapply ready_grows; eauto].
  - right; right. destruct (Z.lt_ge_cases (b_len (w_base w)) (2 ^ 32 - 1)); [exfalso|lia]. apply A.
    assert (Lp : length (concat (map cbs_bytes (qsort compare_set_of_element l))) = length (concat (der_seq els))).
    { rewrite <- El. apply Permutation_length, Permutation_concat_map. now apply Permutation_sym. }
    pose proof (length_contents _ (proj1 R1)) as L1. rewrite C1 in L1. rewrite Lp.
    split; [lia|left; lia].
Qed.

(** A [qsort] for the examples. *)
Fixpoint insert_by (cmp : CBS -> CBS -> Z) (a : CBS) (l : list CBS) : list CBS :=
  match l with
  | [] => [a]
  | b :: l' => if cmp a b <=? 0 then a :: l else b :: insert_by cmp a l'
  end.

Definition insertion_sort (cmp : CBS -> CBS -> Z) (l : list CBS) : list CBS :=
  fold_right (insert_by cmp) [] l.

Lemma insert_by_perm cmp a l : Permutation (a :: l) (insert_by cmp a l).
Proof.
  induction l as [|b l IH]; cbn [insert_by]; [auto|]. destruct (cmp a b <=? 0); [auto|].
  eapply Permutation_trans; [apply perm_swap|]. now constructor.
Qed.

Lemma insertion_sort_perm cmp l : Permutation l (insertion_sort cmp l).
Proof.
  induction l as [|a l IH]; cbn; [auto|].
  eapply Permutation_trans; [apply perm_skip, IH|apply insert_by_perm].
Qed.

Lemma insert_by_sorted cmp (P : CBS -> Prop) a l :
  (forall x y, P x -> P y -> cmp x y <= 0 \/ cmp y x <= 0) ->
  (forall x y z, P x -> P y -> P z -> cmp x y <= 0 -> cmp y z <= 0 -> cmp x z <= 0) ->
  P a -> Forall P l -> StronglySorted (fun x y => cmp x y <= 0) l ->
  StronglySorted (fun x y => cmp x y <= 0) (insert_by cmp a l).
Proof.
  intros T R Pa Pl S. induction S as [|b l S IH F]; cbn [insert_by]; [repeat constructor|].
  inversion Pl as [|? ? Pb Pl']; subst. destruct (Z.leb_spec (cmp a b) 0) as [Le|Gt].
  - constructor; [constructor; assumption|]. constructor; [assumption|].
    rewrite Forall_forall in *. intros x Hx. eapply R; [| | |exact Le|]; auto.
  - constructor; [auto|]. eapply Permutation_Forall; [apply insert_by_perm|]. constructor; [|assumption].
    destruct (T a b); auto; lia.
Qed.

Lemma insertion_sort_ok : qsort_ok insertion_sort.
Proof.
  intros cmp l. split; [apply insertion_sort_perm|]. intros T R.
  assert (H : forall l', (forall x, In x l' -> In x l) -> StronglySorted (fun a b => cmp a b <= 0) (insertion_sort cmp l')).
  { induction l' as [|a l' IH]; intros I; cbn; [constructor|].
    apply insert_by_sorted with (P := fun x => In x l); auto.
    - apply I. now left.
    - eapply Permutation_Forall; [apply insertion_sort_perm|]. apply Forall_forall. intros x Hx. apply I. now right.
    - apply IH. intros x Hx. apply I. now right. }
  apply H. auto.
Qed.

Lemma set_of_sorted_witness :
  let w := mk_world [mk_CBB true None 0 0 false false]
             (mk_buffer (Some (mk_block 6 [2; 1; 9; 2; 1; 5])) 6 6 true false) in
  exists w', CBB_flush_asn1_set_of zero_malloc insertion_sort 0 w = (Some tt, w') /\
    contents (w_base w') = [2; 1; 5; 2; 1; 9] /\
    exists els', Permutation [[2; 1; 9]; [2; 1; 5]] els' /\ StronglySorted lex_le els' /\
      contents (w_base w') = [] ++ concat els' /\ ready 0 w'.
Proof.
  cbv zeta. eexists. split; [vm_compute; reflexivity|]. split; [reflexivity|].
  refine (set_of_sorted zero_malloc insertion_sort 0 (mk_world [mk_CBB true None 0 0 false false]
    (mk_buffer (Some (mk_block 6 [2; 1; 9; 2; 1; 5])) 6 6 true false)) [] [(2, [9]); (2, [5])]
    zero_malloc_ok insertion_sort_ok _ _ _ eq_refl eq_refl).
  - unfold ready, buffer_ok. cbn. repeat split; auto; lia.
  - repeat constructor; discriminate.
  - repeat constructor; discriminate.
Defined.
