(* ===== verification/Ber.v ===== *)
(** * BER to DER conversion ([crypto/bytestring/ber.c])

    [cbs_find_ber], [cbs_convert_ber], [CBS_asn1_ber_to_der] and
    [CBS_get_asn1_implicit_string].  The converter reads a CBS and writes into
    a CBB; its recursion follows the nesting of the input and is cut at
    [kMaxDepth].  Every round of a loop takes an element off its input, and a
    nested call works on part of that element, so one more than the length of
    the input is enough fuel. *)

From Stdlib Require Import ZArith Lia List Bool.
From S2P Require Import Prelude ConstTime Mem Cbs Cbb.
Import ListNotations.
Open Scope se_scope.

Definition kMaxDepth : Z := 2048.

(** UTF8, NUMERIC, PRINTABLE, T61, VIDEOTEX, IA5, GRAPHIC, VISIBLE, GENERAL,
    UNIVERSAL and BMP STRING. *)
Definition string_tags : list Z :=
  [CBS_ASN1_OCTETSTRING; 12; 18; 19; 20; 21; 22; 25; 26; 27; 28; 30].

(** [tag & ~CBS_ASN1_CONSTRUCTED] *)
Definition clear_constructed (tag : Z) : Z := Z.land tag (Z.lxor CBS_ASN1_CONSTRUCTED (2 ^ 32 - 1)).

Definition is_constructed (tag : Z) : bool := negb (Z.land tag CBS_ASN1_CONSTRUCTED =? 0).

Definition is_string_type (tag : Z) : bool :=
  existsb (Z.eqb (clear_constructed tag)) string_tags.

(** The loop of [cbs_find_ber]; [ber_found] is [*ber_found]. *)
Fixpoint find_ber_loop (fuel : nat) (inp : CBS) (ber_found : bool) (depth : Z) : option bool :=
  match fuel with
  | O => None
  | S fuel =>
      if negb (0 <? Cbs.CBS_len inp) then Some ber_found
      else
        match CBS_get_any_ber_asn1_element inp with
        | (None, _) => None
        | (Some e, inp) =>
            if el_ber_found e then Some true
            else if is_constructed (el_tag e) then
              if is_string_type (el_tag e) then Some true
              else
                match CBS_skip (el_header_len e) (el_out e) with
                | (None, _) => None
                | (Some _, contents) =>
                    if kMaxDepth <? depth + 1 then None
                    else
                      match find_ber_loop fuel contents false (depth + 1) with
                      | None => None
                      | Some ber_found => find_ber_loop fuel inp ber_found depth
                      end
                end
            else find_ber_loop fuel inp false depth
        end
  end.

Definition cbs_find_ber (orig_in : CBS) (depth : Z) : option bool :=
  if kMaxDepth <? depth then None
  else find_ber_loop (S (Z.to_nat (Cbs.CBS_len orig_in))) orig_in false depth.

Definition is_eoc (header_len : Z) (contents : CBS) : bool :=
  (header_len =? 2) && (Cbs.CBS_len contents =? 2)
  && (at_ (Cbs.CBS_data contents) 0 =? 0) && (at_ (Cbs.CBS_data contents) 1 =? 0).

Section Convert.
Variable malloc : Z -> option (list Z).

(** The contents of the element [e] written to [out_contents]; [inp] is the
    input after [e], and the result what is left of it.  [recurse] is the
    nested call of [cbs_convert_ber]. *)
Definition convert_contents (recurse : CBS -> nat -> Z -> bool -> SE world CBS)
    (e : element) (inp : CBS) (out_contents : nat) (child_string_tag : Z) : SE world CBS :=
  let contents := el_out e in
  let header_len := el_header_len e in
  if (Cbs.CBS_len contents =? header_len) && (0 <? header_len)
     && (at_ (Cbs.CBS_data contents) (header_len - 1) =? 128) then
    recurse inp out_contents child_string_tag true
  else
    match CBS_skip header_len contents with
    | (None, _) => fail
    | (Some _, contents) =>
        if is_constructed (el_tag e) then
          recurse contents out_contents child_string_tag false ;;; ret inp
        else
          CBB_add_bytes malloc out_contents (Cbs.CBS_data contents) (Cbs.CBS_len contents) ;;;
          ret inp
    end.

(** One element that is not an EOC. *)
Definition convert_element (recurse : CBS -> nat -> Z -> bool -> SE world CBS)
    (e : element) (inp : CBS) (out : nat) (string_tag : Z) : SE world CBS :=
  let tag := el_tag e in
  if negb (string_tag =? 0) then
    if negb (clear_constructed tag =? string_tag) then fail
    else
      inp <- convert_contents recurse e inp out string_tag ;;
      CBB_flush malloc out ;;;
      ret inp
  else
    let is_str := is_constructed tag && is_string_type tag in
    let out_tag := if is_str then clear_constructed tag else tag in
    let child_string_tag := if is_str then out_tag else string_tag in
    with_child malloc out (fun child => CBB_add_asn1 malloc out child out_tag)
      (fun child => convert_contents recurse e inp child child_string_tag).

(** The loop of [cbs_convert_ber]; the result is [*in] as the call leaves
    it.  [string_tag = 0] is "not inside a constructed string". *)
Fixpoint convert_loop (fuel : nat) (inp : CBS) (out : nat) (string_tag : Z)
    (looking_for_eoc : bool) (depth : Z) : SE world CBS :=
  match fuel with
  | O => fail
  | S fuel =>
      let recurse inp out string_tag looking_for_eoc :=
        if kMaxDepth <? depth + 1 then fail
        else convert_loop fuel inp out string_tag looking_for_eoc (depth + 1) in
      if negb (0 <? Cbs.CBS_len inp) then
        if looking_for_eoc then fail else ret inp
      else
        match CBS_get_any_ber_asn1_element inp with
        | (None, _) => fail
        | (Some e, inp) =>
            if is_eoc (el_header_len e) (el_out e) then
              if looking_for_eoc then ret inp else fail
            else
              inp <- convert_element recurse e inp out string_tag ;;
              convert_loop fuel inp out string_tag looking_for_eoc depth
        end
  end.

Definition cbs_convert_ber (inp : CBS) (out : nat) (string_tag : Z) (looking_for_eoc : bool)
    (depth : Z) : SE world CBS :=
  if kMaxDepth <? depth then fail
  else convert_loop (S (Z.to_nat (Cbs.CBS_len inp))) inp out string_tag looking_for_eoc depth.

(** [(return value, *in, *out, *out_storage)]; the first three when the
    return value is 1. *)
Definition CBS_asn1_ber_to_der (inp : CBS) : option (CBS * CBS * option (option block)) :=
  match cbs_find_ber inp 0 with
  | None => None
  | Some false =>
      match CBS_get_any_asn1_element inp with
      | (None, _) => None
      | (Some e, inp) => Some (inp, el_out e, None)
      end
  | Some true =>
      match CBB_init malloc (Cbs.CBS_len inp) with
      | None => None
      | Some w =>
          match (inp <- cbs_convert_ber inp 0 0 false 0 ;;
                 r <- CBB_finish malloc 0 true true ;; ret (inp, r)) w with
          | (None, _) => None
          | (Some (inp, r), _) => Some (inp, cbs_of_run r, Some (fst r))
          end
      end
  end.

(** The chunks of [CBS_get_asn1_implicit_string]. *)
Fixpoint implicit_chunks (fuel : nat) (child : CBS) (inner_tag : Z) : SE world unit :=
  match fuel with
  | O => fail
  | S fuel =>
      if negb (0 <? Cbs.CBS_len child) then ret tt
      else
        match CBS_get_asn1 inner_tag child with
        | (None, _) => fail
        | (Some chunk, child) =>
            CBB_add_bytes malloc 0 (Cbs.CBS_data chunk) (Cbs.CBS_len chunk) ;;;
            implicit_chunks fuel child inner_tag
        end
  end.

Definition CBS_get_asn1_implicit_string (outer_tag inner_tag : Z) : SE CBS (CBS * option (option block)) :=
  fun inp =>
    if CBS_peek_asn1_tag inp outer_tag then (out <- CBS_get_asn1 outer_tag ;; ret (out, None)) inp
    else
      match CBB_init malloc (Cbs.CBS_len inp) with
      | None => (None, inp)
      | Some w =>
          match CBS_get_asn1 (Z.lor outer_tag CBS_ASN1_CONSTRUCTED) inp with
          | (None, inp) => (None, inp)
          | (Some child, inp) =>
              match (implicit_chunks (S (Z.to_nat (Cbs.CBS_len child))) child inner_tag ;;;
                     CBB_finish malloc 0 true true) w with
              | (None, _) => (None, inp)
              | (Some r, _) => (Some (cbs_of_run r, Some (fst r)), inp)
              end
          end
      end.
End Convert.

(** ** The grammar of BER and what a value means *)

(** Values in BER: a tag with contents, or with values inside *)
Inductive ber_tree :=
| BPrim (tag : Z) (body : list Z)
| BCons (tag : Z) (children : list ber_tree).

(** The definite lengths of at most four octets, minimal or not *)
Definition ber_length (n : Z) (l : list Z) : Prop :=
  (0 <= n < 128 /\ l = [n]) \/
  exists q, (1 <= length q <= 4)%nat /\ bytes_ok q /\ be_val q = n /\ l = (128 + Z.of_nat (length q)) :: q.

(** The encodings of X.690 for a value and for a sequence of values: a
    constructed value may have an indefinite length and then ends with two
    zeros, the end of contents, which no value of its own may be. *)
Inductive ber_value : ber_tree -> list Z -> Prop :=
| value_prim tag l body :
    word_ok 32 tag -> is_constructed tag = false -> ber_length (Z.of_nat (length body)) l ->
    der_tag tag ++ l ++ body <> [0; 0] -> ber_value (BPrim tag body) (der_tag tag ++ l ++ body)
| value_cons tag ts l body :
    word_ok 32 tag -> is_constructed tag = true -> ber_length (Z.of_nat (length body)) l ->
    ber_values ts body -> ber_value (BCons tag ts) (der_tag tag ++ l ++ body)
| value_indefinite tag ts body :
    word_ok 32 tag -> is_constructed tag = true -> ber_values ts body ->
    ber_value (BCons tag ts) (der_tag tag ++ [128] ++ body ++ [0; 0])
with ber_values : list ber_tree -> list Z -> Prop :=
| values_nil : ber_values [] []
| values_cons t ts b bs : ber_value t b -> ber_values ts bs -> ber_values (t :: ts) (b ++ bs).

Scheme ber_value_min := Minimality for ber_value Sort Prop
with ber_values_min := Minimality for ber_values Sort Prop.
Combined Scheme ber_mutind from ber_value_min, ber_values_min.

(** Every one of a list has a value. *)
Fixpoint all_some {A} (l : list (option A)) : option (list A) :=
  match l with
  | [] => Some []
  | None :: _ => None
  | Some a :: l => option_map (cons a) (all_some l)
  end.

(** The octets of a string of type [tag], joined over its fragments, which must
    all be of that type *)
Fixpoint octets (tag : Z) (t : ber_tree) : option (list Z) :=
  match t with
  | BPrim tag' body => if tag' =? tag then Some body else None
  | BCons tag' l =>
      if clear_constructed tag' =? tag then option_map (@concat Z) (all_some (map (octets tag) l)) else None
  end.

(** The value with its strings in one piece; all else stays as it is, also the
    contents of primitive values and constructed BIT STRINGs, which the header
    leaves to the caller. *)
Fixpoint one_piece (t : ber_tree) : option asn1_tree :=
  match t with
  | BPrim tag body => Some (Prim tag body)
  | BCons tag l =>
      if is_string_type tag then
        option_map (fun p => Prim (clear_constructed tag) (concat p)) (all_some (map (octets (clear_constructed tag)) l))
      else option_map (Cons tag) (all_some (map one_piece l))
  end.

(** How deep constructed values are nested *)
Fixpoint ber_height (t : ber_tree) : Z :=
  match t with
  | BPrim _ _ => 0
  | BCons _ l => 1 + fold_right (fun t h => Z.max (ber_height t) h) 0 l
  end.

Definition ber_within (limit : Z) (ts : list ber_tree) : Prop := Forall (fun t => ber_height t <= limit) ts.

(** ** Elements of the input *)

(** What the BER parser guarantees of an element: its bytes are a tag and a
    length, and contents of that length, or none if it is indefinite. *)
Lemma ber_element_inv ber_ok c e c' :
  cbs_ok c -> cbs_get_any_asn1_element ber_ok c = (Some e, c') ->
  word_ok 32 (el_tag e) /\ cbs_ok (el_out e) /\ advances c (cbs_bytes (el_out e)) c' /\
  exists l body, cbs_bytes (el_out e) = (der_tag (el_tag e) ++ l) ++ body /\
    el_header_len e = Z.of_nat (length (der_tag (el_tag e) ++ l)) /\
    (ber_length (Z.of_nat (length body)) l \/ is_constructed (el_tag e) = true /\ l = [128] /\ body = []).
Proof.
  intros Hc E. unfold cbs_get_any_asn1_element in E.
  destruct (parse_asn1_tag c) as [[t|] h1] eqn:E1; [|discriminate].
  apply parse_asn1_tag_inv in E1 as [Ht A1]; [|assumption].
  destruct (CBS_get_u8 h1) as [[lb|] h2] eqn:E2; [|discriminate].
  apply CBS_get_u8_inv in E2 as [Hb A2]; [|apply A1].
  pose proof (advances_app _ _ _ _ _ A1 A2) as A12. cbv zeta in E.
  rewrite (advances_offset c _ h2 Hc A12) in E.
  pose proof (advances_fits c _ h2 Hc A12) as F12.
  pose proof (length_der_tag t Ht) as Lt.
  rewrite byte_sign in E by assumption. change 127 with (2 ^ 7 - 1) in E. rewrite land_mask in E by lia.
  change (2 ^ 7) with 128 in E. unfold word_ok in Hb.
  assert (Lh : Z.of_nat (length (der_tag t ++ [lb])) = Z.of_nat (length (der_tag t)) + 1)
    by (rewrite length_app; cbn [length]; lia).
  assert (Fin : forall l h' m o c'' ber,
    advances c (der_tag t ++ l) h' -> 0 <= m ->
    ber_length m l \/ is_constructed t = true /\ l = [128] /\ m = 0 ->
    CBS_get_bytes (Z.of_nat (length (der_tag t ++ l)) + m) c = (Some o, c'') ->
    let e := mk_element o t (Z.of_nat (length (der_tag t ++ l))) ber in
    word_ok 32 (el_tag e) /\ cbs_ok (el_out e) /\ advances c (cbs_bytes (el_out e)) c'' /\
    exists l body, cbs_bytes (el_out e) = (der_tag (el_tag e) ++ l) ++ body /\
      el_header_len e = Z.of_nat (length (der_tag (el_tag e) ++ l)) /\
      (ber_length (Z.of_nat (length body)) l \/ is_constructed (el_tag e) = true /\ l = [128] /\ body = [])).
  { intros l h' m o c'' ber A Hm K G. cbv zeta. cbn [el_tag el_out el_header_len].
    apply (CBS_get_bytes_header c _ h') in G as (body & Lb & Ho & Eo & A'); auto.
    split; [assumption|]. split; [assumption|]. split; [congruence|].
    exists l, body. split; [assumption|]. split; [reflexivity|]. subst m.
    destruct K as [K|(K1 & K2 & K3)]; [auto|right]. destruct body; [auto|discriminate K3]. }
  destruct (Z.ltb_spec lb 128) as [S|S].
  - rewrite wrap_small, Z.add_comm in E by (unfold word_ok; lia). apply bind_inv in E as (o & c1 & G & E).
    injection E as <- <-. apply (Fin [lb] h2 lb o c1 false A12); [lia| |assumption].
    left. left. split; [lia|reflexivity].
  - replace (lb mod 128) with (lb - 128) in E by lia_div.
    destruct (ber_ok && _ && _) eqn:Ind.
    + apply bind_inv in E as (o & c1 & G & E). injection E as <- <-.
      apply andb_prop in Ind as [Ind N0%Z.eqb_eq]. apply andb_prop in Ind as [_ Ind].
      apply (Fin [lb] h2 0 o c1 true A12); [lia| |now rewrite Z.add_0_r].
      right. split; [exact Ind|]. split; [f_equal; lia|reflexivity].
    + destruct (Z.eqb_spec (lb - 128) 0) as [|N0]; [discriminate|]. destruct (Z.ltb_spec 4 (lb - 128)); [discriminate|].
      cbn [orb] in E. destruct (cbs_get_u (lb - 128) h2) as [[len|] h3] eqn:E3; [|discriminate].
      apply cbs_get_u_inv in E3 as (q & Lq & -> & Hq & A3); [|apply A12|lia].
      pose proof (advances_app _ _ _ _ _ A12 A3) as A123. pose proof (be_val_bound q Hq) as Bq.
      assert (256 ^ Z.of_nat (length q) <= 256 ^ 4) by (apply Z.pow_le_mono_r; lia).
      destruct (_ && negb ber_ok); [discriminate|].
      rewrite (wrap_small 64 (be_val q)) in E by (unfold word_ok; lia).
      rewrite wrap_small in E by (unfold word_ok; lia).
      destruct (Z.ltb_spec (be_val q + Z.of_nat (length (der_tag t ++ [lb])) + (lb - 128)) (be_val q)); [discriminate|].
      apply bind_inv in E as (o & c1 & G & E). injection E as <- <-.
      assert (Lall : Z.of_nat (length (der_tag t ++ [lb] ++ q)) = Z.of_nat (length (der_tag t ++ [lb])) + (lb - 128))
        by (rewrite app_assoc, (length_app _ q); lia).
      rewrite <- Lall. rewrite <- app_assoc in A123. apply (Fin _ h3 (be_val q) o c1 _ A123); [lia| |].
      * left. right. exists q. repeat (split; [lia || assumption || reflexivity|]). cbn [app]. f_equal. lia.
      * rewrite <- G. f_equal. lia.
Qed.

Lemma der_tag_first t : word_ok 32 t -> is_constructed t = true -> exists b r, der_tag t = b :: r /\ b <> 0.
Proof.
  intros Ht C. unfold is_constructed, CBS_ASN1_CONSTRUCTED in C. unfold word_ok in Ht.
  assert (K : t / 2 ^ 29 <> 0).
  { intros K. assert (t < 2 ^ 29) by lia_div. apply negb_true_iff, Z.eqb_neq in C. apply C.
    change (Z.shiftl 32 CBS_ASN1_TAG_SHIFT) with (2 ^ 29). apply Z.bits_inj'. intros n Hn.
    rewrite Z.land_spec, Z.pow2_bits_eqb, Z.bits_0 by lia. destruct (Z.eqb_spec 29 n) as [<-|]; [|apply andb_false_r].
    rewrite (proj2 (Z.testbit_false t 29 ltac:(lia))); [reflexivity|]. rewrite K. reflexivity. }
  assert (0 <= t / 2 ^ 29) by (apply Z.div_pos; lia). unfold der_tag.
  pose proof (Z.mod_pos_bound t (2 ^ 29) ltac:(lia)).
  destruct (_ <? 31); eexists _, _; (split; [reflexivity|lia]).
Qed.

Lemma string_tag_primitive tag : is_string_type tag = true -> is_constructed (clear_constructed tag) = false /\
  clear_constructed tag <> 0 /\ word_ok 32 (clear_constructed tag).
Proof.
  unfold is_string_type. generalize (clear_constructed tag). intros x H.
  apply existsb_exists in H as (y & Hy & E). apply Z.eqb_eq in E. subst y.
  assert (A : forallb (fun x => negb (is_constructed x) && negb (x =? 0) && (0 <=? x) && (x <? 2 ^ 32)) string_tags = true)
    by (vm_compute; reflexivity).
  rewrite forallb_forall in A. specialize (A x Hy). repeat (apply andb_prop in A as [A ?]).
  unfold word_ok. destruct (is_constructed x), (Z.eqb_spec x 0); try discriminate.
  repeat split; auto; lia.
Qed.

Lemma fst_bind_none {S A B} (m : SE S A) (k : A -> SE S B) w : fst (m w) = None -> fst (bind m k w) = None.
Proof. unfold bind. destruct (m w) as [[a|] w1]; [discriminate|reflexivity]. Qed.

Lemma fst_bind_none_r {S A B} (m : SE S A) (k : A -> SE S B) w :
  (forall a w, fst (k a w) = None) -> fst (bind m k w) = None.
Proof. intros H. unfold bind. destruct (m w) as [[a|] w1]; [apply H|reflexivity]. Qed.

(** A program that ends in [ret c] returns [c]. *)
Lemma fst_bind_inv {S A B} (m : SE S A) (k : A -> SE S B) w b :
  fst (bind m k w) = Some b -> exists a w1, m w = (Some a, w1) /\ fst (k a w1) = Some b.
Proof. unfold bind. destruct (m w) as [[a|] w1]; [eauto|discriminate]. Qed.

Ltac ret_inv :=
  repeat match goal with
  | H : fst (bind _ _ _) = Some _ |- _ =>
      let a := fresh "a" in let w := fresh "w" in let E := fresh "E" in
      apply fst_bind_inv in H as (a & w & E & H)
  | H : fst (ret _ _) = Some _ |- _ => injection H as <-
  end.

(** Skipping the header of an element. *)
Lemma CBS_skip_inv n c c' :
  cbs_ok c -> 0 <= n -> CBS_skip n c = (Some tt, c') ->
  cbs_ok c' /\ (length (cbs_bytes c') + Z.to_nat n = length (cbs_bytes c))%nat.
Proof.
  intros Hc Hn E. unfold CBS_skip in E. apply bind_inv in E as (d & c1 & G & E). injection E as <-.
  apply cbs_get_inv in G as (p & L & _ & _ & [A1 A2]); [|assumption..]. split; [assumption|].
  rewrite A2, length_app. lia.
Qed.

Lemma clear_primitive t : word_ok 32 t -> is_constructed t = false -> clear_constructed t = t.
Proof.
  intros Ht C. unfold is_constructed, clear_constructed, CBS_ASN1_CONSTRUCTED in *. apply negb_false_iff, Z.eqb_eq in C.
  change (Z.shiftl 32 CBS_ASN1_TAG_SHIFT) with (2 ^ 29) in *. unfold word_ok in Ht. apply Z.bits_inj'. intros n Hn.
  apply (f_equal (fun x => Z.testbit x n)) in C. rewrite Z.land_spec, Z.bits_0 in C.
  rewrite Z.land_spec, Z.lxor_spec. change (2 ^ 32 - 1) with (Z.ones 32). rewrite Z.testbit_ones by lia.
  destruct (Z.ltb_spec n 32).
  - rewrite (proj2 (Z.leb_le 0 n)) by lia. destruct (Z.testbit t n), (Z.testbit (2 ^ 29) n); try reflexivity. discriminate C.
  - rewrite (Z.bits_above_log2 t n); [reflexivity|lia|]. destruct (Z.eq_dec t 0) as [->|]; [cbn; lia|].
    assert (Z.log2 t < 32) by (apply Z.log2_lt_pow2; lia). lia.
Qed.

Lemma ber_length_pos n l : ber_length n l -> (1 <= length l)%nat.
Proof. intros [[_ ->]|(q & _ & _ & _ & ->)]; cbn [length]; lia. Qed.

(** *** Recognising what the code looks at *)

Lemma at_bytes c i : cbs_ok c -> 0 <= i < cbs_len c -> at_ (Cbs.CBS_data c) i = nth (Z.to_nat i) (cbs_bytes c) 0.
Proof.
  intros (H1 & H2 & _) Hi. unfold at_, cbs_bytes, Cbs.CBS_data. symmetry. rewrite nth_firstn.
  destruct (Nat.ltb_spec (Z.to_nat i) (Z.to_nat (cbs_len c))); [reflexivity|lia].
Qed.

Lemma is_eoc_iff c h body : cbs_ok c -> cbs_bytes c = h ++ body -> (2 <= length h)%nat ->
  is_eoc (Z.of_nat (length h)) c = true <-> cbs_bytes c = [0; 0].
Proof.
  intros Hc E L. pose proof (length_cbs_bytes c Hc) as Lc. unfold is_eoc. rewrite !andb_true_iff, !Z.eqb_eq. unfold Cbs.CBS_len. split.
  - intros [[[H1 H2] H3] H4]. rewrite at_bytes in H3, H4 by (assumption || lia). rewrite H2 in Lc.
    destruct (cbs_bytes c) as [|a [|b [|]]]; try discriminate Lc; [|cbn [length] in Lc; lia]. change (a = 0) in H3. change (b = 0) in H4. now subst.
  - intros E2. rewrite E2 in Lc. cbn [length] in Lc. rewrite !at_bytes by (assumption || lia). rewrite E2.
    apply (f_equal (@length Z)) in E. rewrite E2, length_app in E. cbn [length] in E.
    change (nth (Z.to_nat 0) [0; 0] 0) with 0. change (nth (Z.to_nat 1) [0; 0] 0) with 0. lia.
Qed.

(** The test for an indefinite length *)
Lemma indefinite_iff c t l body : cbs_ok c -> cbs_bytes c = (der_tag t ++ l) ++ body ->
  let h := Z.of_nat (length (der_tag t ++ l)) in
  let test := (Cbs.CBS_len c =? h) && (0 <? h) && (at_ (Cbs.CBS_data c) (h - 1) =? 128) in
  (ber_length (Z.of_nat (length body)) l -> test = false) /\ (l = [128] -> body = [] -> test = true).
Proof.
  intros Hc E h test. pose proof (length_cbs_bytes c Hc) as Lc. rewrite E, length_app in Lc. subst h test. unfold Cbs.CBS_len.
  assert (Last : forall p b, l = p ++ [b] -> body = [] ->
    at_ (Cbs.CBS_data c) (Z.of_nat (length (der_tag t ++ l)) - 1) = b).
  { intros p b El Eb. subst body. cbn [length] in Lc. rewrite at_bytes by (assumption || (rewrite El, !length_app in *; cbn [length] in *; lia)).
    rewrite E, app_nil_r, El, app_assoc, (length_app _ [b]). cbn [length].
    replace (Z.to_nat _) with (length (der_tag t ++ p)) by lia. rewrite app_nth2, Nat.sub_diag by lia. reflexivity. }
  split.
  - intros K. apply not_true_iff_false. rewrite !andb_true_iff, !Z.eqb_eq. intros [[H1 _] H2].
    assert (Eb : body = []) by (destruct body; [reflexivity|cbn [length] in Lc; lia]). rewrite Eb in K. cbn [length] in K.
    destruct K as [[K1 K2]|(q & Lq & Hq & V & K2)].
    + rewrite (Last [] _ K2 Eb) in H2. discriminate H2.
    + destruct (exists_last (l := q)) as (p & b & ->); [destruct q; [cbn in Lq; lia|discriminate]|].
      rewrite (Last ((128 + Z.of_nat (length (p ++ [b]))) :: p) b K2 Eb) in H2. subst b.
      apply Forall_app in Hq as [Hp _]. rewrite be_val_snoc in V. pose proof (be_val_bound p Hp). lia.
  - intros El Eb. rewrite (Last [] 128 El Eb). subst. rewrite length_app in *. cbn [length] in *.
    rewrite !andb_true_iff, !Z.eqb_eq, Z.ltb_lt. lia.
Qed.

(** *** What values put into the output, inside a string of type [st] or, if it
    is 0, outside of strings *)

Definition emitted (st : Z) (ts : list ber_tree) : option (list Z) :=
  if st =? 0 then option_map (fun ds => concat (map der_tree ds)) (all_some (map one_piece ts))
  else option_map (@concat Z) (all_some (map (octets st) ts)).

Lemma emitted_nil st : emitted st [] = Some [].
Proof. unfold emitted. now destruct (st =? 0). Qed.

Lemma emitted_cons st t ts :
  emitted st (t :: ts) = match emitted st [t], emitted st ts with Some a, Some b => Some (a ++ b) | _, _ => None end.
Proof.
  unfold emitted. destruct (st =? 0); cbn [map all_some].
  - destruct (one_piece t); [|reflexivity]. destruct (all_some (map one_piece ts)); cbn [option_map map concat]; now rewrite ?app_nil_r.
  - destruct (octets st t); [|reflexivity]. destruct (all_some (map (octets st) ts)); cbn [option_map map concat]; now rewrite ?app_nil_r.
Qed.

Lemma emitted_prim tag body : emitted 0 [BPrim tag body] = Some (der_tlv tag body).
Proof. cbn. now rewrite app_nil_r. Qed.

Lemma emitted_string tag l : is_string_type tag = true ->
  emitted 0 [BCons tag l] = option_map (der_tlv (clear_constructed tag)) (emitted (clear_constructed tag) l).
Proof.
  intros S. unfold emitted. cbn [Z.eqb map one_piece all_some]. rewrite S.
  destruct (string_tag_primitive tag S) as (_ & N & _). rewrite (proj2 (Z.eqb_neq _ _) N).
  destruct (all_some _); cbn [option_map map concat der_tree]; now rewrite ?app_nil_r.
Qed.

Lemma emitted_nested tag l : is_string_type tag = false -> emitted 0 [BCons tag l] = option_map (der_tlv tag) (emitted 0 l).
Proof.
  intros S. unfold emitted. cbn [Z.eqb map one_piece all_some]. rewrite S.
  destruct (all_some _); cbn [option_map map concat der_tree]; now rewrite ?app_nil_r.
Qed.

Lemma emitted_fragment st t : st <> 0 -> emitted st [t] =
  match t with
  | BPrim tag body => if tag =? st then Some body else None
  | BCons tag l => if clear_constructed tag =? st then emitted st l else None
  end.
Proof.
  intros N. unfold emitted. rewrite (proj2 (Z.eqb_neq _ _) N). cbn [map]. destruct t as [tag body|tag l]; cbn [octets];
    (destruct (_ =? st); [|reflexivity]); cbn [all_some].
  - cbn. now rewrite app_nil_r.
  - destruct (all_some (map _ l)); cbn; now rewrite ?app_nil_r.
Qed.

(** ** The output of the converter *)

(** A program that never succeeds, or that appends a string and returns what
    is left of its input, related by [R]. *)
Definition decided (malloc : Z -> option (list Z)) (m : nat -> SE world CBS) (R : list Z -> CBS -> Prop) : Prop :=
  (forall out w, fst (m out w) = None) \/
  exists bs c', (forall out, appends malloc out (m out) bs c') /\ (forall out w a, fst (m out w) = Some a -> a = c') /\ R bs c'.

Section Output.
Variable malloc : Z -> option (list Z).
Hypothesis Hm : malloc_ok malloc.

Abbreviation Decided := (decided malloc).

Lemma decided_fail R : Decided (fun _ => fail) R.
Proof. left. reflexivity. Qed.

Lemma decided_weaken m (R R' : list Z -> CBS -> Prop) : Decided m R -> (forall bs c, R bs c -> R' bs c) -> Decided m R'.
Proof. intros [F|(bs & c & A & V & H)] W; [now left|right]. exists bs, c. auto. Qed.

Lemma decided_ret c (R : list Z -> CBS -> Prop) : R [] c -> Decided (fun _ => ret c) R.
Proof. intros H. right. exists [], c. split; [intros; apply appends_ret|]. split; [intros; now ret_inv|exact H]. Qed.

Lemma copy_append contents out : cbs_ok contents ->
  appends malloc out (CBB_add_bytes malloc out (Cbs.CBS_data contents) (Cbs.CBS_len contents)) (cbs_bytes contents) tt.
Proof.
  intros Ho. pose proof (length_cbs_bytes contents Ho) as Lc. destruct Ho as [W _]. unfold word_ok in W.
  pose proof (add_bytes_append malloc Hm out (cbs_bytes contents) ltac:(lia)) as A.
  unfold CBB_add_bytes, Cbs.CBS_data, Cbs.CBS_len in *. rewrite Lc in A.
  unfold cbs_bytes in A at 1. rewrite firstn_firstn, Nat.min_id in A. exact A.
Qed.

Lemma appends_then {A B} out (m : SE world A) bs a (b : B) :
  appends malloc out m bs a -> appends malloc out (m ;;; ret b) bs b.
Proof. intros H. rewrite <- (app_nil_r bs). eapply appends_bind; [exact H|apply appends_ret]. Qed.

Lemma appends_flushed out (m : SE world CBS) bs c :
  appends malloc out m bs c -> appends malloc out (c <- m ;; CBB_flush malloc out ;;; ret c) bs c.
Proof.
  intros H. rewrite <- (app_nil_r bs). eapply appends_bind; [exact H|].
  change [] with ([] ++ [] : list Z). eapply appends_bind; [|apply appends_ret].
  intros w R. rewrite flush_ready by assumption. exact (appends_ret malloc out tt w R).
Qed.

(** Copying primitive contents *)
Lemma decided_copy contents c (R : list Z -> CBS -> Prop) : cbs_ok contents -> R (cbs_bytes contents) c ->
  Decided (fun out => CBB_add_bytes malloc out (Cbs.CBS_data contents) (Cbs.CBS_len contents) ;;; ret c) R.
Proof.
  intros Ho H. right. exists (cbs_bytes contents), c. split; [|split; [intros; now ret_inv|exact H]].
  intros out. apply appends_then with tt. now apply copy_append.
Qed.

(** A nested call whose position is dropped *)
Lemma decided_then m c (P R : list Z -> CBS -> Prop) : Decided m P -> (forall bs c', P bs c' -> R bs c) ->
  Decided (fun out => m out ;;; ret c) R.
Proof.
  intros [F|(bs & c1 & A & _ & H)] W; [left; intros; now apply fst_bind_none|right].
  exists bs, c. split; [|split; [intros; now ret_inv|eauto]]. intros out. exact (appends_then out (m out) bs c1 c (A out)).
Qed.

(** Inside a constructed string: the body goes to the same CBB. *)
Lemma decided_same m R : Decided m R -> Decided (fun out => c <- m out ;; CBB_flush malloc out ;;; ret c) R.
Proof.
  intros [F|(bs & c1 & A & V & H)]; [left; intros; now apply fst_bind_none|right].
  exists bs, c1. split; [intros out; apply appends_flushed, A|]. split; [|exact H].
  intros out w a X. ret_inv. eapply V. rewrite E. reflexivity.
Qed.

(** A new element around the body *)
Lemma decided_child m tag (P R : list Z -> CBS -> Prop) : Decided m P -> word_ok 32 tag ->
  (forall bs c, P bs c -> R (der_tlv tag bs) c) ->
  Decided (fun out => with_child malloc out (fun child => CBB_add_asn1 malloc out child tag) m) R.
Proof.
  intros [F|(bs & c1 & A & V & H)] Ht W.
  - left. intros out w. unfold with_child. apply fst_bind_none_r. intros k w1.
    apply fst_bind_none_r. intros _ w2. now apply fst_bind_none.
  - right. exists (der_tlv tag bs), c1. split; [intros out; apply asn1_append; auto|]. split; [|auto].
    intros out w a X. unfold with_child in X. ret_inv. eapply V. rewrite E1. reflexivity.
Qed.

(** One round of the loop, then the others *)
Lemma decided_seq m (k : CBS -> nat -> SE world CBS) (P R : list Z -> CBS -> Prop) (Q : list Z -> CBS -> list Z -> CBS -> Prop) :
  Decided m P -> (forall bs c, P bs c -> Decided (k c) (Q bs c)) ->
  (forall bs c bs2 c2, P bs c -> Q bs c bs2 c2 -> R (bs ++ bs2) c2) ->
  Decided (fun out => c <- m out ;; k c out) R.
Proof.
  intros [F|(bs & c1 & A & V & H)] Hk W; [left; intros; now apply fst_bind_none|].
  destruct (Hk bs c1 H) as [F|(bs2 & c2 & A2 & V2 & H2)].
  - left. intros out w. unfold bind. pose proof (V out w) as Vw.
    destruct (m out w) as [[c|] w1]; [|reflexivity]. rewrite (Vw c eq_refl). apply F.
  - right. exists (bs ++ bs2), c2. split; [intros out; eapply appends_bind; [apply A|apply A2]|]. split; [|eauto].
    intros out w a X. ret_inv. pose proof (V out w) as Vw. rewrite E in Vw. rewrite (Vw _ eq_refl) in X. eauto.
Qed.

(** What a call of the converter has read and written *)
Definition converted (inp : CBS) (st : Z) (looking : bool) (bs : list Z) (c' : CBS) : Prop :=
  cbs_ok c' /\ exists ts b, ber_values ts b /\ emitted st ts = Some bs /\
    cbs_bytes inp = b ++ (if looking then [0; 0] else []) ++ cbs_bytes c' /\ (looking = false -> cbs_bytes c' = []).

(** The same for one value *)
Definition converted_one (inp : list Z) (st : Z) (bs : list Z) (c' : CBS) : Prop :=
  cbs_ok c' /\ exists t b, ber_value t b /\ emitted st [t] = Some bs /\ inp = b ++ cbs_bytes c'.

(** The same for its contents *)
Definition converted_contents (inp : list Z) (tag cst : Z) (bs : list Z) (c' : CBS) : Prop :=
  cbs_ok c' /\ exists t b, ber_value t b /\ inp = b ++ cbs_bytes c' /\
    match t with
    | BPrim tag' body => tag' = tag /\ is_constructed tag = false /\ bs = body
    | BCons tag' ts => tag' = tag /\ is_constructed tag = true /\ emitted cst ts = Some bs
    end.

Section Recursion.
Variable rec : CBS -> nat -> Z -> bool -> SE world CBS.
Hypothesis Hrec : forall c st looking, cbs_ok c -> Decided (fun out => rec c out st looking) (converted c st looking).

Lemma convert_contents_decided e inp l body cst :
  word_ok 32 (el_tag e) -> cbs_ok (el_out e) -> cbs_ok inp ->
  cbs_bytes (el_out e) = (der_tag (el_tag e) ++ l) ++ body -> el_header_len e = Z.of_nat (length (der_tag (el_tag e) ++ l)) ->
  ber_length (Z.of_nat (length body)) l \/ is_constructed (el_tag e) = true /\ l = [128] /\ body = [] ->
  cbs_bytes (el_out e) <> [0; 0] ->
  Decided (fun out => convert_contents malloc rec e inp out cst) (converted_contents (cbs_bytes (el_out e) ++ cbs_bytes inp) (el_tag e) cst).
Proof.
  intros Ht Ho Hc E Lh K Ne. unfold convert_contents. rewrite Lh.
  destruct (indefinite_iff (el_out e) (el_tag e) l body Ho E) as [D1 D2]. destruct K as [K|(C & El & Eb)].
  - rewrite (D1 K). destruct (CBS_skip_ok (el_out e) _ _ Ho E) as (con & Sk & Hcon & Econ). rewrite Sk.
    destruct (is_constructed (el_tag e)) eqn:C.
    + eapply decided_then; [apply Hrec; exact Hcon|]. intros bs c' (Hc' & ts & b & Hv & Em & Eq & Z). specialize (Z eq_refl).
      rewrite Z, !app_nil_r, Econ in Eq. subst b. split; [exact Hc|]. exists (BCons (el_tag e) ts), (der_tag (el_tag e) ++ l ++ body).
      split; [now constructor|]. rewrite E, <- !app_assoc. auto.
    + apply decided_copy; [exact Hcon|]. rewrite Econ. split; [exact Hc|].
      exists (BPrim (el_tag e) body), (der_tag (el_tag e) ++ l ++ body). rewrite E, <- !app_assoc in *. split; [now constructor|auto].
  - rewrite (D2 El Eb). subst l body. rewrite app_nil_r in E. eapply decided_weaken; [apply Hrec; exact Hc|].
    intros bs c' (Hc' & ts & b & Hv & Em & Eq & _). split; [exact Hc'|].
    exists (BCons (el_tag e) ts), (der_tag (el_tag e) ++ [128] ++ b ++ [0; 0]). split; [now constructor|].
    rewrite E, Eq, <- !app_assoc. auto.
Qed.

Lemma convert_element_decided e inp l body st :
  word_ok 32 (el_tag e) -> cbs_ok (el_out e) -> cbs_ok inp ->
  cbs_bytes (el_out e) = (der_tag (el_tag e) ++ l) ++ body -> el_header_len e = Z.of_nat (length (der_tag (el_tag e) ++ l)) ->
  ber_length (Z.of_nat (length body)) l \/ is_constructed (el_tag e) = true /\ l = [128] /\ body = [] ->
  cbs_bytes (el_out e) <> [0; 0] ->
  Decided (fun out => convert_element malloc rec e inp out st) (converted_one (cbs_bytes (el_out e) ++ cbs_bytes inp) st).
Proof.
  intros Ht Ho Hc E Lh K Ne. pose proof (fun cst => convert_contents_decided e inp l body cst Ht Ho Hc E Lh K Ne) as B.
  unfold convert_element. destruct (Z.eqb_spec st 0) as [->|N]; cbn [negb].
  - destruct (is_constructed (el_tag e) && is_string_type (el_tag e)) eqn:Str.
    + apply andb_prop in Str as [C0 Str]. destruct (string_tag_primitive _ Str) as (_ & _ & P3).
      eapply decided_child; [apply B|assumption|]. intros bs c (Hc' & [tg bd|tg ts] & b & Hv & Eq & -> & C & Em).
      * congruence.
      * split; [exact Hc'|]. exists (BCons (el_tag e) ts), b. rewrite emitted_string, Em by assumption. auto.
    + eapply decided_child; [apply B|assumption|]. intros bs c (Hc' & [tg bd|tg ts] & b & Hv & Eq & -> & C & Em);
        (split; [exact Hc'|]); eexists _, b; (split; [exact Hv|]); (split; [|exact Eq]).
      * rewrite emitted_prim. now subst.
      * rewrite C in Str. rewrite emitted_nested, Em by assumption. reflexivity.
  - destruct (Z.eqb_spec (clear_constructed (el_tag e)) st) as [Et|]; cbn [negb]; [|apply decided_fail].
    apply decided_same. eapply decided_weaken; [apply B|]. intros bs c (Hc' & [tg bd|tg ts] & b & Hv & Eq & -> & C & Em);
      (split; [exact Hc'|]); eexists _, b; (split; [exact Hv|]); (split; [|exact Eq]); rewrite emitted_fragment by assumption.
    + rewrite clear_primitive in Et by assumption. subst. now rewrite Z.eqb_refl.
    + subst. now rewrite Z.eqb_refl.
Qed.
End Recursion.

Lemma header_length t l n : ber_length n l \/ is_constructed t = true /\ l = [128] /\ n = 0 -> (2 <= length (der_tag t ++ l))%nat.
Proof.
  intros K. assert (1 <= length l)%nat by (destruct K as [K|(_ & -> & _)]; [now apply ber_length_pos in K|apply le_n]).
  rewrite length_app. unfold der_tag. destruct (_ <? 31); cbn [length]; lia.
Qed.

(** A successful call has read values and written their conversions. *)
Lemma convert_loop_decided fuel : forall inp st looking depth, cbs_ok inp ->
  Decided (fun out => convert_loop malloc fuel inp out st looking depth) (converted inp st looking).
Proof.
  induction fuel as [|f IH]; intros inp st looking depth Hc; cbn [convert_loop]; [apply decided_fail|].
  pose proof (length_cbs_bytes inp Hc) as Lc. unfold Cbs.CBS_len. destruct (Z.ltb_spec 0 (cbs_len inp)) as [P|P]; cbn [negb].
  2: { destruct looking; [apply decided_fail|]. apply decided_ret. assert (Z : cbs_bytes inp = []) by (apply length_zero_iff_nil; lia).
       split; [exact Hc|]. exists [], []. rewrite emitted_nil, Z. split; [constructor|auto]. }
  destruct (CBS_get_any_ber_asn1_element inp) as [[e|] inp1] eqn:G; [|apply decided_fail].
  destruct (ber_element_inv true inp e inp1 Hc G) as (Ht & Ho & [Hc1 A] & l & body & Eo & Lh & K).
  assert (K' : ber_length (Z.of_nat (length body)) l \/ is_constructed (el_tag e) = true /\ l = [128] /\ Z.of_nat (length body) = 0)
    by (destruct K as [K|(K1 & K2 & ->)]; auto).
  pose proof (is_eoc_iff (el_out e) _ body Ho Eo (header_length _ _ _ K')) as Eoc. rewrite Lh.
  destruct (is_eoc _ _).
  { destruct looking; [|apply decided_fail]. apply decided_ret. split; [exact Hc1|]. exists [], [].
    rewrite emitted_nil, A, (proj1 Eoc eq_refl). split; [constructor|]. split; [reflexivity|]. split; [reflexivity|discriminate]. }
  eapply decided_seq with (Q := fun bs c => converted c st looking).
  - eapply (convert_element_decided _ _ e inp1 l body); try assumption. intros X. apply Eoc in X. discriminate X.
    Unshelve. intros c cst lk Hcc. destruct (kMaxDepth <? depth + 1); [apply decided_fail|now apply IH].
  - intros bs c (Hcc & _). now apply IH.
  - intros bs c bs2 c2 (_ & t & b & Hv & Em & Eq) (Hc2 & ts & b2 & Hvs & Em2 & Eq2 & Z). split; [exact Hc2|].
    exists (t :: ts), (b ++ b2). split; [now constructor|]. split; [now rewrite emitted_cons, Em, Em2|].
    rewrite A, Eq, Eq2, <- app_assoc. auto.
Qed.

(** *** Every encoding is converted *)

Lemma ber_element_ok c t l body rest : cbs_ok c -> word_ok 32 t -> ber_length (Z.of_nat (length body)) l ->
  cbs_bytes c = (der_tag t ++ l ++ body) ++ rest ->
  exists e c', CBS_get_any_ber_asn1_element c = (Some e, c') /\ el_tag e = t /\ cbs_ok (el_out e) /\
    cbs_bytes (el_out e) = (der_tag t ++ l) ++ body /\ el_header_len e = Z.of_nat (length (der_tag t ++ l)) /\
    cbs_ok c' /\ cbs_bytes c' = rest.
Proof.
  intros Hc Ht K E. destruct (CBS_get_bytes_ok c _ _ Hc E) as (o & c' & G & Ho & Eo & A & R).
  pose proof (length_cbs_bytes c Hc) as Lc. pose proof (proj1 Hc) as Wc. unfold word_ok in Wc. rewrite E, !length_app in Lc.
  rewrite !length_app in G. rewrite <- !app_assoc in E.
  destruct (parse_asn1_tag_ok c t _ Hc Ht E) as (h1 & P1 & A1 & R1).
  assert (Fin : forall ber, (out <- CBS_get_bytes (Z.of_nat (length (der_tag t) + (length l + length body))) ;;
      ret (mk_element out t (Z.of_nat (length (der_tag t ++ l))) ber)) c = (Some (mk_element o t (Z.of_nat (length (der_tag t ++ l))) ber), c')).
  { intros ber. now rewrite (bind_some _ _ _ _ _ G). }
  assert (Res : forall ber, exists e c'', (Some (mk_element o t (Z.of_nat (length (der_tag t ++ l))) ber), c') = (Some e, c'') /\ el_tag e = t /\ cbs_ok (el_out e) /\
    cbs_bytes (el_out e) = (der_tag t ++ l) ++ body /\ el_header_len e = Z.of_nat (length (der_tag t ++ l)) /\
    cbs_ok c'' /\ cbs_bytes c'' = rest).
  { intros ber. eexists _, _. split; [reflexivity|]. cbn [el_tag el_out el_header_len]. rewrite <- app_assoc. destruct A. auto 8. }
  unfold CBS_get_any_ber_asn1_element, cbs_get_any_asn1_element. rewrite P1.
  destruct K as [[K1 ->]|(q & Lq & Hq & V & ->)]; cbn [app length] in *;
    destruct (CBS_get_u8_ok h1 _ _ (proj1 A1) R1) as (h2 & P2 & A2 & R2); rewrite P2;
    pose proof (advances_app _ _ _ _ _ A1 A2) as A12; cbv zeta; rewrite (advances_offset c _ h2 Hc A12).
  - rewrite byte_sign by (unfold word_ok; lia). rewrite (proj2 (Z.ltb_lt _ _)) by lia. cbn [negb].
    rewrite wrap_small by (unfold word_ok; rewrite length_app; cbn [length]; lia).
    replace (_ + Z.of_nat _) with (Z.of_nat (length (der_tag t) + (1 + length body))) by (rewrite length_app; cbn [length]; lia).
    rewrite Fin. apply Res.
  - set (n := Z.of_nat (length q)) in *. rewrite byte_sign by (unfold word_ok; lia).
    rewrite (proj2 (Z.ltb_ge (128 + n) 128)) by lia. cbn [negb]. change 127 with (2 ^ 7 - 1). rewrite land_mask by lia.
    change (2 ^ 7) with 128. replace ((128 + n) mod 128) with n by lia_div.
    rewrite (proj2 (Z.eqb_neq n 0)) by lia. rewrite andb_false_r. rewrite (proj2 (Z.ltb_ge 4 n)) by lia. cbn [orb].
    destruct (cbs_get_u_ok h2 q _ (proj1 A2) R2) as (h3 & P3 & A3 & R3); [lia|]. subst n. rewrite P3, V. rewrite andb_false_r.
    rewrite (wrap_small 64 (Z.of_nat (length body))) by (unfold word_ok; lia).
    rewrite wrap_small by (unfold word_ok; rewrite length_app; cbn [length]; lia).
    rewrite (proj2 (Z.ltb_ge _ (Z.of_nat (length body)))) by lia.
    replace (Z.of_nat (length body) + _ + _) with (Z.of_nat (length (der_tag t) + (S (length q) + length body))) by (rewrite length_app; cbn [length]; lia).
    replace (Z.of_nat (length (der_tag t ++ [128 + _])) + _) with (Z.of_nat (length (der_tag t ++ 128 + Z.of_nat (length q) :: q)))
      by (rewrite !length_app; cbn [length]; lia).
    rewrite Fin. apply Res.
Qed.

Lemma ber_element_indefinite c t rest : cbs_ok c -> word_ok 32 t -> is_constructed t = true ->
  cbs_bytes c = (der_tag t ++ [128]) ++ rest ->
  exists e c', CBS_get_any_ber_asn1_element c = (Some e, c') /\ el_tag e = t /\ cbs_ok (el_out e) /\
    cbs_bytes (el_out e) = der_tag t ++ [128] /\ el_header_len e = Z.of_nat (length (der_tag t ++ [128])) /\
    cbs_ok c' /\ cbs_bytes c' = rest.
Proof.
  intros Hc Ht C E. destruct (CBS_get_bytes_ok c _ _ Hc E) as (o & c' & G & Ho & Eo & A & R). rewrite <- app_assoc in E.
  destruct (parse_asn1_tag_ok c t _ Hc Ht E) as (h1 & P1 & A1 & R1).
  destruct (CBS_get_u8_ok h1 _ _ (proj1 A1) R1) as (h2 & P2 & A2 & R2). pose proof (advances_app _ _ _ _ _ A1 A2) as A12.
  unfold CBS_get_any_ber_asn1_element, cbs_get_any_asn1_element. rewrite P1, P2. cbv zeta. rewrite (advances_offset c _ h2 Hc A12).
  change (Z.land 128 128 =? 0) with false. change (Z.land 128 127 =? 0) with true. unfold is_constructed in C. rewrite C. cbn [andb].
  rewrite (bind_some _ _ _ _ _ G). eexists _, _. split; [reflexivity|]. cbn [el_tag el_out el_header_len]. destruct A. auto 8.
Qed.
End Output.

Section Complete.
Variable malloc : Z -> option (list Z).
Hypothesis Hm : malloc_ok malloc.

(** What the contents of a value write, and the value around them *)
Definition contents_emit (t : ber_tree) (cst : Z) (bs : list Z) : Prop :=
  match t with BPrim _ body => bs = body | BCons _ ts => emitted cst ts = Some bs end.

Lemma element_appends e t st bs :
  word_ok 32 (el_tag e) ->
  match t with
  | BPrim tag _ => tag = el_tag e /\ is_constructed tag = false
  | BCons tag _ => tag = el_tag e /\ is_constructed tag = true
  end ->
  emitted st [t] = Some bs ->
  exists cst cbs, contents_emit t cst cbs /\ forall rec inp c',
    (forall out, appends malloc out (convert_contents malloc rec e inp out cst) cbs c') ->
    forall out, appends malloc out (convert_element malloc rec e inp out st) bs c'.
Proof.
  intros Ht K Em. unfold convert_element. destruct (Z.eqb_spec st 0) as [->|N]; cbn [negb].
  - destruct t as [tag body|tag ts]; destruct K as [-> C]; rewrite C; cbn [andb].
    + rewrite emitted_prim in Em. injection Em as <-. exists 0, body. split; [reflexivity|]. intros rec inp c' B out.
      apply asn1_append; [assumption..|]. intros k _. apply B.
    + destruct (is_string_type (el_tag e)) eqn:Str.
      * rewrite emitted_string in Em by assumption. destruct (emitted _ ts) as [cbs|] eqn:Ec; [|discriminate Em]. injection Em as <-.
        exists (clear_constructed (el_tag e)), cbs. split; [exact Ec|]. intros rec inp c' B out.
        apply asn1_append; [assumption|now apply string_tag_primitive|]. intros k _. apply B.
      * rewrite emitted_nested in Em by assumption. destruct (emitted 0 ts) as [cbs|] eqn:Ec; [|discriminate Em]. injection Em as <-.
        exists 0, cbs. split; [exact Ec|]. intros rec inp c' B out. apply asn1_append; [assumption..|]. intros k _. apply B.
  - exists st, bs. rewrite emitted_fragment in Em by assumption. destruct t as [tag body|tag ts]; destruct K as [-> C].
    + rewrite clear_primitive by assumption. destruct (el_tag e =? st); [|discriminate Em]. injection Em as <-.
      split; [reflexivity|]. intros rec inp c' B out. apply appends_flushed, B.
    + destruct (_ =? st); [|discriminate Em]. split; [exact Em|]. intros rec inp c' B out. apply appends_flushed, B.
Qed.

(** The nested calls of the loop *)
Definition nested (f : nat) (depth : Z) (inp : CBS) (out : nat) (st : Z) (looking : bool) : SE world CBS :=
  if kMaxDepth <? depth + 1 then fail else convert_loop malloc f inp out st looking (depth + 1).

Definition reads_one (t : ber_tree) (b : list Z) : Prop :=
  forall f inp tail st depth bs, cbs_ok inp -> cbs_bytes inp = b ++ tail -> (length (cbs_bytes inp) <= f)%nat ->
  ber_height t <= kMaxDepth - depth -> emitted st [t] = Some bs ->
  exists e inp1 c', CBS_get_any_ber_asn1_element inp = (Some e, inp1) /\ is_eoc (el_header_len e) (el_out e) = false /\
    cbs_ok c' /\ cbs_bytes c' = tail /\ forall out, appends malloc out (convert_element malloc (nested f depth) e inp1 out st) bs c'.

Definition reads_all (ts : list ber_tree) (b : list Z) : Prop :=
  forall f inp tail st looking depth bs, cbs_ok inp -> cbs_bytes inp = b ++ (if looking : bool then [0; 0] ++ tail else []) ->
  (length (cbs_bytes inp) < f)%nat -> ber_within (kMaxDepth - depth) ts -> emitted st ts = Some bs ->
  exists c', cbs_ok c' /\ cbs_bytes c' = (if looking then tail else []) /\
    forall out, appends malloc out (convert_loop malloc f inp out st looking depth) bs c'.

Lemma height_children tag ts depth : ber_height (BCons tag ts) <= kMaxDepth - depth ->
  (kMaxDepth <? depth + 1) = false /\ ber_within (kMaxDepth - (depth + 1)) ts.
Proof.
  cbn [ber_height]. intros H.
  assert (G : ber_within (fold_right (fun t h => Z.max (ber_height t) h) 0 ts) ts /\ 0 <= fold_right (fun t h => Z.max (ber_height t) h) 0 ts).
  { clear H. induction ts as [|t l [IH1 IH2]]; cbn [fold_right]; [split; [constructor|lia]|].
    split; [|lia]. constructor; [lia|]. eapply Forall_impl; [|exact IH1]. cbn. intros. lia. }
  destruct G as [G1 G2]. split; [apply Z.ltb_ge; lia|]. eapply Forall_impl; [|exact G1]. cbv beta. intros. lia.
Qed.

Lemma constructed_not_eoc t l body : word_ok 32 t -> is_constructed t = true -> (der_tag t ++ l) ++ body <> [0; 0].
Proof. intros Ht C X. destruct (der_tag_first t Ht C) as (b & r & E & N). rewrite E in X. cbn [app] in X. congruence. Qed.

Lemma not_eoc e t l body : cbs_ok (el_out e) -> cbs_bytes (el_out e) = (der_tag t ++ l) ++ body ->
  el_header_len e = Z.of_nat (length (der_tag t ++ l)) -> (2 <= length (der_tag t ++ l))%nat -> (der_tag t ++ l) ++ body <> [0; 0] ->
  is_eoc (el_header_len e) (el_out e) = false.
Proof.
  intros Ho Eo Lh L N. apply not_true_iff_false. rewrite Lh. intros X. apply (is_eoc_iff _ _ _ Ho Eo L) in X. congruence.
Qed.

Lemma reads_prim tag l body : word_ok 32 tag -> is_constructed tag = false -> ber_length (Z.of_nat (length body)) l ->
  der_tag tag ++ l ++ body <> [0; 0] -> reads_one (BPrim tag body) (der_tag tag ++ l ++ body).
Proof.
  intros Ht C K N f inp tail st depth bs Hc E _ _ Em. rewrite app_assoc in N.
  destruct (ber_element_ok inp tag l body tail Hc Ht K E) as (e & c' & G & <- & Ho & Eo & Lh & Hc' & R).
  exists e, c', c'. split; [exact G|]. split; [eapply not_eoc; eauto using header_length|]. split; [exact Hc'|]. split; [exact R|].
  destruct (element_appends e (BPrim (el_tag e) body) st bs Ht (conj eq_refl C) Em) as (cst & cbs & -> & B). apply B. intros out.
  unfold convert_contents. rewrite Lh. destruct (indefinite_iff (el_out e) (el_tag e) l body Ho Eo) as [D _]. rewrite (D K), C.
  destruct (CBS_skip_ok (el_out e) _ _ Ho Eo) as (con & Sk & Hcon & Econ). rewrite Sk, <- Econ. apply appends_then with tt. now apply copy_append.
Qed.

Lemma reads_cons tag ts l body : word_ok 32 tag -> is_constructed tag = true -> ber_length (Z.of_nat (length body)) l ->
  reads_all ts body -> reads_one (BCons tag ts) (der_tag tag ++ l ++ body).
Proof.
  intros Ht C K IH f inp tail st depth bs Hc E F H Em. destruct (height_children _ _ _ H) as [Dp W].
  destruct (ber_element_ok inp tag l body tail Hc Ht K E) as (e & c' & G & <- & Ho & Eo & Lh & Hc' & R).
  exists e, c', c'. split; [exact G|]. split; [eapply not_eoc; eauto using header_length, constructed_not_eoc|]. split; [exact Hc'|]. split; [exact R|].
  destruct (element_appends e (BCons (el_tag e) ts) st bs Ht (conj eq_refl C) Em) as (cst & cbs & Ec & B). apply B. intros out.
  unfold convert_contents. rewrite Lh. destruct (indefinite_iff (el_out e) (el_tag e) l body Ho Eo) as [D _]. rewrite (D K), C.
  destruct (CBS_skip_ok (el_out e) _ _ Ho Eo) as (con & Sk & Hcon & Econ). rewrite Sk. unfold nested. rewrite Dp.
  pose proof (header_length (el_tag e) l _ (or_introl K)) as L2. rewrite length_app in L2. rewrite E, !length_app in F.
  destruct (IH f con [] cst false (depth + 1) cbs Hcon) as (c1 & _ & _ & A); [now rewrite app_nil_r| |exact W|exact Ec|]; [rewrite Econ; lia|].
  apply appends_then with c1, A.
Qed.

Lemma reads_indefinite tag ts body : word_ok 32 tag -> is_constructed tag = true ->
  reads_all ts body -> reads_one (BCons tag ts) (der_tag tag ++ [128] ++ body ++ [0; 0]).
Proof.
  intros Ht C IH f inp tail st depth bs Hc E F H Em. destruct (height_children _ _ _ H) as [Dp W].
  assert (L2 : (2 <= length (der_tag tag ++ [128]%Z))%nat) by (apply (header_length tag [128] 0); auto).
  assert (E' : cbs_bytes inp = (der_tag tag ++ [128]) ++ body ++ [0; 0] ++ tail) by (rewrite E, <- !app_assoc; reflexivity).
  destruct (ber_element_indefinite inp tag _ Hc Ht C E') as (e & inp1 & G & <- & Ho & Eo & Lh & Hc1 & R).
  rewrite <- (app_nil_r (_ ++ [128])) in Eo.
  destruct (element_appends e (BCons (el_tag e) ts) st bs Ht (conj eq_refl C) Em) as (cst & cbs & Ec & B).
  rewrite E', length_app in F.
  destruct (IH f inp1 tail cst true (depth + 1) cbs Hc1 R) as (c1 & Hcc & Rc & A); [rewrite R; lia|exact W|exact Ec|].
  exists e, inp1, c1. split; [exact G|]. split; [eapply not_eoc; eauto using constructed_not_eoc|]. split; [exact Hcc|]. split; [exact Rc|].
  apply B. intros out. unfold convert_contents. rewrite Lh. destruct (indefinite_iff (el_out e) (el_tag e) [128] [] Ho Eo) as [_ D].
  rewrite (D eq_refl eq_refl). unfold nested. rewrite Dp. apply A.
Qed.

Lemma reads_nil : reads_all [] [].
Proof.
  intros f inp tail st looking depth bs Hc E F _ Em. rewrite emitted_nil in Em. injection Em as <-.
  destruct f as [|f]; [lia|]. cbn [convert_loop app] in *. pose proof (length_cbs_bytes inp Hc) as Lc. unfold Cbs.CBS_len.
  destruct looking.
  - destruct (ber_element_ok inp 0 [0] [] tail Hc) as (e & c' & G & Et & Ho & Eo & Lh & Hc' & R); [now split|left; now split|exact E|].
    rewrite E in Lc. cbn [length app] in Lc. rewrite (proj2 (Z.ltb_lt 0 _)), G by lia. cbn [negb].
    rewrite Lh, (proj2 (is_eoc_iff (el_out e) _ [] Ho Eo ltac:(apply (header_length 0 [0] 0); left; left; easy))) by exact Eo.
    exists c'. split; [exact Hc'|]. split; [exact R|]. intros out. apply appends_ret.
  - rewrite E in Lc. rewrite (proj2 (Z.ltb_ge 0 _)) by (cbn in Lc; lia). exists inp. split; [exact Hc|]. split; [exact E|].
    intros out. apply appends_ret.
Qed.

Lemma ber_value_pos t b : ber_value t b -> (0 < length b)%nat.
Proof. intros Hv. inversion Hv; subst; unfold der_tag; destruct (_ <? 31); cbn [app length]; lia. Qed.

Lemma reads_step t ts b body : ber_value t b -> reads_one t b -> reads_all ts body -> reads_all (t :: ts) (b ++ body).
Proof.
  intros Hv H1 H2 f inp tail st looking depth bs Hc E F W Em. rewrite <- app_assoc in E.
  rewrite emitted_cons in Em. destruct (emitted st [t]) as [bs1|] eqn:E1; [|discriminate Em].
  destruct (emitted st ts) as [bs2|] eqn:E2; [|discriminate Em]. injection Em as <-.
  apply Forall_cons_iff in W as [Wt Wts]. destruct f as [|f]; [lia|].
  destruct (H1 f inp _ st depth bs1 Hc E ltac:(lia) Wt E1) as (e & inp1 & c1 & G & Eoc & Hc1 & R1 & A1).
  pose proof (ber_value_pos t b Hv) as Lb.
  destruct (H2 f c1 tail st looking depth bs2 Hc1 R1) as (c2 & Hc2 & R2 & A2); [rewrite R1; rewrite E, length_app in F; lia|exact Wts|exact E2|].
  exists c2. split; [exact Hc2|]. split; [exact R2|]. intros out. cbn [convert_loop].
  pose proof (length_cbs_bytes inp Hc) as Lc. rewrite E, length_app in Lc. unfold Cbs.CBS_len.
  rewrite (proj2 (Z.ltb_lt 0 _)), G, Eoc by lia. cbn [negb]. eapply appends_bind; [apply A1|apply A2].
Qed.

Lemma converter_reads : (forall t b, ber_value t b -> reads_one t b) /\ (forall ts b, ber_values ts b -> reads_all ts b).
Proof.
  assert (G : (forall t b, ber_value t b -> ber_value t b /\ reads_one t b) /\ (forall ts b, ber_values ts b -> reads_all ts b)).
  { apply ber_mutind.
    - intros. split; [now constructor|now apply reads_prim].
    - intros. split; [now constructor|now apply reads_cons].
    - intros. split; [now constructor|now apply reads_indefinite].
    - apply reads_nil.
    - intros t ts b bs Hv [Hv' H1] Hvs H2. now apply reads_step. }
  destruct G as [G1 G2]. split; [intros t b Hv; now apply G1|exact G2].
Qed.
End Complete.

(** The runs of the two halves of [CBS_asn1_ber_to_der] *)
Lemma converting_run malloc inp w c1 bs : malloc_ok malloc -> cbs_ok inp -> CBB_init malloc (cbs_len inp) = Some w ->
  appends malloc 0 (cbs_convert_ber malloc inp 0 0 false 0) bs c1 ->
  match (inp <- cbs_convert_ber malloc inp 0 0 false 0 ;; r <- CBB_finish malloc 0 true true ;; ret (inp, r)) w with
  | (Some (inp', r), _) => inp' = c1 /\ cbs_bytes (cbs_of_run r) = bs
  | (None, _) => ~ roomy malloc (w_base w) (Z.of_nat (length bs))
  end.
Proof.
  intros Hm Hc I A. destruct (CBB_init_ready malloc Hm _ w (proj1 Hc) I) as (R & Ch & Cz & _).
  specialize (A w R). unfold bind at 1. destruct (cbs_convert_ber _ _ _ _ _ _ w) as [[c|] w1]; [|exact A].
  destruct A as (-> & G & Bl). pose proof (ready_grows _ _ _ _ R G Bl) as R1.
  destruct (finish_ready malloc w1 R1) as (w2 & Fin); [rewrite (proj2 Bl) by lia; exact Ch|].
  rewrite (bind_some _ _ _ _ _ Fin). unfold ret. split; [reflexivity|].
  destruct (proj1 (grows_evolves _ _ _) G) as [(Hb & _) C]. rewrite Cz in C. exact C.
Qed.

Lemma init_roomy malloc cap w n : malloc_ok malloc -> word_ok 64 cap -> malloc_total malloc -> cap < 2 ^ 34 -> n <= 4294967294 ->
  CBB_init malloc cap = Some w -> roomy malloc (w_base w) n.
Proof.
  intros Hm Hc M L N E. destruct (CBB_init_ready malloc Hm cap w Hc E) as (R & _ & K & P & Z).
  pose proof (length_contents _ (proj1 R)) as Ln. rewrite K in Ln. cbn [length] in Ln. split; [lia|]. right. rewrite P, Z. auto.
Qed.

Lemma init_some malloc cap : word_ok 64 cap -> malloc_total malloc -> cap < 2 ^ 34 -> CBB_init malloc cap <> None.
Proof.
  intros Hc M L. unfold word_ok in Hc. unfold CBB_init, cbb_init.
  pose proof (OPENSSL_malloc_some malloc 32 M ltac:(lia)) as A. pose proof (OPENSSL_malloc_some malloc cap M ltac:(lia)) as B.
  destruct (OPENSSL_malloc malloc cap); [|congruence]. destruct (OPENSSL_malloc malloc 32); [discriminate|congruence].
Qed.

(** C3: [CBS_asn1_ber_to_der] and the grammar of BER.  When it converts, the
    input was a sequence of BER values - indefinite lengths, lengths that are
    not minimal and chunked strings at any depth - and the output is the DER
    encoding of the same values in the same order, each constructed string
    (BIT STRINGs, which it leaves as they are, apart) in one primitive piece
    with the octets of its fragments joined; the input is used up.  When it
    does not convert, it returns the bytes of the first value, which has
    minimal tag and length.  And every sequence of values nested at most
    [kMaxDepth] deep, whose strings have fragments of their own type, is
    converted if [cbs_find_ber] asks for it and there is memory. *)
Theorem ber_to_der_converts (malloc : Z -> option (list Z)) (inp : CBS) (Hm : malloc_ok malloc) (Hc : cbs_ok inp) :
  (forall inp' out storage, CBS_asn1_ber_to_der malloc inp = Some (inp', out, Some storage) ->
     exists ts ds, ber_values ts (cbs_bytes inp) /\ all_some (map one_piece ts) = Some ds /\
       cbs_bytes out = concat (map der_tree ds) /\ cbs_ok inp' /\ cbs_bytes inp' = []) /\
  (forall inp' out, CBS_asn1_ber_to_der malloc inp = Some (inp', out, None) ->
     exists tag body, word_ok 32 tag /\ cbs_bytes out = der_tlv tag body /\ cbs_bytes inp = der_tlv tag body ++ cbs_bytes inp') /\
  (forall ts ds, ber_values ts (cbs_bytes inp) -> ber_within kMaxDepth ts -> all_some (map one_piece ts) = Some ds ->
     cbs_find_ber inp 0 = Some true -> malloc_total malloc -> cbs_len inp < 2 ^ 34 ->
     Z.of_nat (length (concat (map der_tree ds))) <= 4294967294 ->
     exists inp' out storage, CBS_asn1_ber_to_der malloc inp = Some (inp', out, Some storage) /\
       cbs_bytes out = concat (map der_tree ds)).
Proof.
  assert (Em : forall ts, emitted 0 ts = option_map (fun ds => concat (map der_tree ds)) (all_some (map one_piece ts))) by reflexivity.
  unfold CBS_asn1_ber_to_der, Cbs.CBS_len. split; [|split].
  - intros inp' out storage E. destruct (cbs_find_ber inp 0) as [[|]|]; try discriminate E.
    2: { destruct (CBS_get_any_asn1_element inp) as [[e|] c]; discriminate E. }
    destruct (CBB_init malloc (cbs_len inp)) as [w|] eqn:I; [|discriminate E].
    destruct (convert_loop_decided malloc Hm (S (Z.to_nat (cbs_len inp))) inp 0 false 0 Hc) as [F|(bs & c1 & A & _ & Hc1 & ts & b & Hv & Ets & Eq & Z)].
    { specialize (F 0%nat w). change (convert_loop _ _ _ _ _ _ _) with (cbs_convert_ber malloc inp 0 0 false 0) in F.
      unfold bind at 1 in E. destruct (cbs_convert_ber _ _ _ _ _ _ w) as [[c|] w1]; [discriminate F|discriminate E]. }
    pose proof (converting_run malloc inp w c1 bs Hm Hc I (A 0%nat)) as X.
    destruct (bind _ _ w) as [[[i r]|] w1]; [|discriminate E]. destruct X as [-> X]. injection E as <- <- _.
    specialize (Z eq_refl). rewrite Z, !app_nil_r in Eq. subst b. rewrite Em in Ets.
    destruct (all_some (map one_piece ts)) as [ds|] eqn:Ed; [|discriminate Ets]. injection Ets as <-.
    exists ts, ds. auto.
  - intros inp' out E. destruct (cbs_find_ber inp 0) as [[|]|]; try discriminate E.
    { destruct (CBB_init malloc (cbs_len inp)); [|discriminate E]. destruct (bind _ _ _) as [[[i r]|] w1]; discriminate E. }
    destruct (CBS_get_any_asn1_element inp) as [[e|] c] eqn:G; [|discriminate E]. injection E as <- <-.
    destruct (der_element_inv inp e c Hc G) as (body & Ht & _ & _ & _ & _ & Eo & _ & A). exists (el_tag e), body. auto.
  - intros ts ds Hv W Ed Fb M L N. rewrite Fb.
    destruct (proj2 (converter_reads malloc Hm) ts _ Hv (S (Z.to_nat (cbs_len inp))) inp [] 0 false 0 (concat (map der_tree ds)) Hc) as (c1 & _ & _ & A).
    { now rewrite app_nil_r. } { pose proof (length_cbs_bytes inp Hc). lia. } { now rewrite Z.sub_0_r. } { now rewrite Em, Ed. }
    destruct (CBB_init malloc (cbs_len inp)) as [w|] eqn:I; [|destruct (init_some malloc (cbs_len inp) (proj1 Hc) M L I)].
    pose proof (converting_run malloc inp w c1 _ Hm Hc I (A 0%nat)) as X.
    destruct (bind _ _ w) as [[[i r]|] w1]; [|destruct X; apply (init_roomy malloc (cbs_len inp)); try assumption; apply Hc].
    destruct X as [-> X]. do 3 eexists. split; [reflexivity|exact X].
Qed.

Lemma ber_to_der_converts_witness :
  exists ts ds, ber_values ts [48; 128; 36; 6; 4; 1; 7; 4; 1; 8; 0; 0] /\ all_some (map one_piece ts) = Some ds /\
    concat (map der_tree ds) = [48; 4; 4; 2; 7; 8].
Proof.
  pose (inp := CBS_init [48; 128; 36; 6; 4; 1; 7; 4; 1; 8; 0; 0] 12).
  destruct (CBS_asn1_ber_to_der zero_malloc inp) as [[[inp' out] [storage|]]|] eqn:E; [|vm_compute in E; discriminate E..].
  assert (O : cbs_bytes out = [48; 4; 4; 2; 7; 8]) by (vm_compute in E; injection E as _ <- _; reflexivity).
  destruct (proj1 (ber_to_der_converts zero_malloc inp zero_malloc_ok ltac:(cbs_ok_tac)) inp' out storage E) as (ts & ds & Hv & Ed & Eo & _).
  exists ts, ds. split; [exact Hv|]. split; [exact Ed|]. now rewrite <- Eo.
Defined.

(** The header says that the input is advanced over one element.  A conversion
    takes in all there are: here a NULL that follows the element. *)
Example ber_to_der_takes_all :
  (let r := CBS_asn1_ber_to_der zero_malloc (CBS_init [48; 128; 0; 0; 5; 0] 6) in
   option_map (fun r => (cbs_bytes (fst (fst r)), cbs_bytes (snd (fst r)))) r) = Some ([], [48; 0; 5; 0]) /\
  (let r := CBS_asn1_ber_to_der zero_malloc (CBS_init [48; 0; 5; 0] 4) in
   option_map (fun r => (cbs_bytes (fst (fst r)), cbs_bytes (snd (fst r)))) r) = Some ([5; 0], [48; 0]).
Proof. split; vm_compute; reflexivity. Qed.

(** ** DER in, DER out *)

(** DER as far as [cbs_find_ber] looks: no constructed strings *)
Fixpoint der_wf (t : asn1_tree) : Prop :=
  match t with
  | Prim tag _ => word_ok 32 tag /\ is_constructed tag = false
  | Cons tag children =>
      word_ok 32 tag /\ is_constructed tag = true /\ is_string_type tag = false /\
      fold_right (fun t P => der_wf t /\ P) True children
  end.

Fixpoint tree_height (t : asn1_tree) : Z :=
  match t with
  | Prim _ _ => 0
  | Cons _ children => 1 + fold_right (fun t h => Z.max (tree_height t) h) 0 children
  end.

Definition within (limit : Z) (ts : list asn1_tree) : Prop := Forall (fun t => tree_height t <= limit) ts.

Lemma within_children tag children limit :
  tree_height (Cons tag children) <= limit -> within (limit - 1) children /\ 0 <= limit - 1.
Proof.
  cbn [tree_height]. intros H.
  assert (G : within (fold_right (fun t h => Z.max (tree_height t) h) 0 children) children /\
              0 <= fold_right (fun t h => Z.max (tree_height t) h) 0 children).
  { clear H. induction children as [|t l [IH1 IH2]]; cbn [fold_right]; [split; [constructor|lia]|].
    split; [|lia]. constructor; [lia|]. eapply Forall_impl; [|exact IH1]. cbn. intros. lia. }
  destruct G as [G1 G2]. split; [|lia]. eapply Forall_impl; [|exact G1]. cbn. intros. lia.
Qed.

Lemma unfold_wf ts : fold_right (fun t P => der_wf t /\ P) True ts -> Forall der_wf ts.
Proof. induction ts as [|t l IH]; cbn [fold_right]; [constructor|intros [H1 H2]; auto]. Qed.

(** The tag and the contents of the first value. *)
Lemma der_tree_tlv t : der_wf t ->
  exists tag body, der_tree t = der_tlv tag body /\ word_ok 32 tag /\
    match t with
    | Prim _ _ => is_constructed tag = false
    | Cons _ l => is_constructed tag = true /\ is_string_type tag = false /\
        Forall der_wf l /\ body = concat (map der_tree l)
    end.
Proof.
  destruct t as [tag body|tag l]; cbn [der_wf der_tree].
  - intros [H1 H2]. exists tag, body. auto.
  - intros (H1 & H2 & H3 & H4). exists tag, (concat (map der_tree l)).
    split; [reflexivity|]. split; [assumption|]. auto using unfold_wf.
Qed.

Lemma length_der_header t n : (2 <= length (der_header t n))%nat.
Proof.
  unfold der_header, der_tag, der_length. rewrite length_app.
  repeat match goal with |- context [if ?t then _ else _] => destruct t end; cbn [length]; lia.
Qed.

Lemma length_tlv t b : (length b + 2 <= length (der_tlv t b))%nat.
Proof. unfold der_tlv. rewrite length_app. pose proof (length_der_header t (Z.of_nat (length b))). lia. Qed.

Lemma find_ber_loop_der f : forall ts inp found depth,
  cbs_ok inp -> Forall der_wf ts -> within (kMaxDepth - depth) ts ->
  cbs_bytes inp = concat (map der_tree ts) -> Z.of_nat (length (cbs_bytes inp)) < 2 ^ 32 ->
  (length (cbs_bytes inp) < f)%nat ->
  find_ber_loop f inp found depth = Some (match ts with [] => found | _ => false end).
Proof.
  induction f as [|f IH]; intros ts inp found depth Hc Hw Hd E L F; [lia|]. cbn [find_ber_loop].
  pose proof (length_cbs_bytes inp Hc) as Lc. unfold Cbs.CBS_len.
  destruct ts as [|t ts]; cbn [map concat] in E.
  { rewrite E in Lc. cbn [length] in Lc. now destruct (Z.ltb_spec 0 (cbs_len inp)); [lia|]. }
  inversion Hw as [|? ? Wt Wts]; subst. inversion Hd as [|? ? Dt Dts]; subst.
  destruct (der_tree_tlv t Wt) as (tag & body & Et & Ht & Kind).
  rewrite Et in E. pose proof (length_tlv tag body) as Lt.
  rewrite E, length_app in L, F, Lc.
  destruct (Z.ltb_spec 0 (cbs_len inp)); [cbn [negb]|lia].
  destruct (der_element_ok_gen true inp tag body _ Hc Ht ltac:(lia) E) as (o & c' & G & Ho & Eo & Hc' & R).
  unfold CBS_get_any_ber_asn1_element. rewrite G. cbn [el_ber_found el_tag el_out el_header_len].
  assert (Rest : forall b, find_ber_loop f c' b depth = Some (match ts with [] => b | _ => false end)).
  { intros b. apply IH; auto; rewrite ?R; lia. }
  destruct t as [tg bd|tg l].
  - rewrite Kind, Rest. now destruct ts.
  - destruct Kind as (K1 & K2 & K3 & ->). rewrite K1, K2.
    destruct (CBS_skip_ok o _ _ Ho Eo) as (con & Sk & Hcon & Econ). rewrite Sk.
    destruct (within_children tg l _ Dt) as [Dl D0].
    destruct (Z.ltb_spec kMaxDepth (depth + 1)); [lia|].
    rewrite (IH l con false (depth + 1)); auto.
    + rewrite Rest. destruct ts; [destruct l|]; reflexivity.
    + replace (kMaxDepth - (depth + 1)) with (kMaxDepth - depth - 1) by lia. exact Dl.
    + rewrite Econ. lia.
    + rewrite Econ. lia.
Qed.

(** DER passes through untouched: on a sequence of DER values nested no
    deeper than the limit, [CBS_asn1_ber_to_der] finds nothing to convert,
    allocates nothing, takes the first value off the input and returns its
    very bytes. *)
Theorem ber_to_der_keeps_der (malloc : Z -> option (list Z)) (inp : CBS) (t : asn1_tree) (ts : list asn1_tree)
  (Hc : cbs_ok inp) (Hl : cbs_len inp < 2 ^ 32)
  (Hw : Forall der_wf (t :: ts)) (Hd : within kMaxDepth (t :: ts))
  (E : cbs_bytes inp = concat (map der_tree (t :: ts))) :
  exists inp' out, CBS_asn1_ber_to_der malloc inp = Some (inp', out, None) /\
    cbs_bytes out = der_tree t /\ cbs_bytes inp' = concat (map der_tree ts).
Proof.
  pose proof (length_cbs_bytes inp Hc) as Lc.
  unfold CBS_asn1_ber_to_der, cbs_find_ber. change (kMaxDepth <? 0) with false. cbv iota.
  rewrite (find_ber_loop_der _ (t :: ts)); auto; try (unfold Cbs.CBS_len; lia).
  inversion Hw as [|? ? Wt _]; subst. destruct (der_tree_tlv t Wt) as (tag & body & Et & Ht & _).
  cbn [map concat] in E. rewrite Et in E. pose proof (length_tlv tag body).
  rewrite E, length_app in Lc.
  destruct (der_element_ok inp tag body (concat (map der_tree ts)) Hc Ht ltac:(lia) E)
    as (o & c' & G & _ & Eo & _ & R).
  rewrite G. cbn [el_out]. exists c', o. rewrite Et. auto.
Qed.

Lemma ber_to_der_keeps_der_witness :
  exists inp' out, CBS_asn1_ber_to_der zero_malloc (CBS_init [48; 3; 2; 1; 5; 5; 0] 7) = Some (inp', out, None) /\
    cbs_bytes out = [48; 3; 2; 1; 5] /\ cbs_bytes inp' = [5; 0].
Proof.
  refine (ber_to_der_keeps_der zero_malloc (CBS_init [48; 3; 2; 1; 5; 5; 0] 7) (Cons 536870928 [Prim 2 [5]])
    [Prim 5 []] ltac:(cbs_ok_tac) eq_refl _ _ eq_refl).
  - repeat constructor; discriminate.
  - repeat constructor; discriminate.
Defined.

(** [cbs_find_ber] overlooks BER in a nested element that has a later
    sibling, because the flag set by the nested call is overwritten by the
    next round of the loop: here the inner [30 80 00 00] is found when it comes
    last and missed when a NULL follows, and [CBS_asn1_ber_to_der] then hands
    out the indefinite-length encoding as if it were DER. *)
Theorem find_ber_overlooks_nested :
  cbs_find_ber (CBS_init [48; 6; 48; 4; 48; 128; 0; 0] 8) 0 = Some true /\
  cbs_find_ber (CBS_init [48; 8; 48; 4; 48; 128; 0; 0; 5; 0] 10) 0 = Some false /\
  forall malloc, exists inp' out,
    CBS_asn1_ber_to_der malloc (CBS_init [48; 8; 48; 4; 48; 128; 0; 0; 5; 0] 10) = Some (inp', out, None) /\
    cbs_bytes out = [48; 8; 48; 4; 48; 128; 0; 0; 5; 0].
Proof.
  split; [vm_compute; reflexivity|]. split; [vm_compute; reflexivity|].
  intros malloc. do 2 eexists. split; [vm_compute; reflexivity|]. reflexivity.
Qed.

(** ** Fuel *)

Lemma bind_ext {S A B} (m m' : SE S A) (k k' : A -> SE S B) w :
  m w = m' w -> (forall a w', m' w = (Some a, w') -> k a w' = k' a w') -> bind m k w = bind m' k' w.
Proof. unfold bind. intros -> H. destruct (m' w) as [[a|] w1]; auto. Qed.

Lemma with_child_ext {A} malloc c op (m m' : nat -> SE world A) w :
  (forall k w, m k w = m' k w) -> with_child malloc c op m w = with_child malloc c op m' w.
Proof.
  intros H. unfold with_child. apply bind_ext; [reflexivity|]. intros k w1 _.
  apply bind_ext; [reflexivity|]. intros _ w2 _. apply bind_ext; auto.
Qed.

(** The contents handed to a nested call are shorter than the input. *)
Lemma convert_contents_ext malloc rec rec' e inp limit out cst w :
  cbs_ok (el_out e) -> cbs_ok inp -> 0 < el_header_len e ->
  (length (cbs_bytes (el_out e)) <= limit)%nat -> (length (cbs_bytes inp) < limit)%nat ->
  (forall c out cst looking w, cbs_ok c -> (length (cbs_bytes c) < limit)%nat ->
     rec c out cst looking w = rec' c out cst looking w) ->
  convert_contents malloc rec e inp out cst w = convert_contents malloc rec' e inp out cst w.
Proof.
  intros Ho Hc Hh L1 L2 H. unfold convert_contents. destruct (_ && (_ <? _) && _); [now apply H|].
  destruct (CBS_skip (el_header_len e) (el_out e)) as [[[]|] con] eqn:Sk; [|reflexivity].
  apply CBS_skip_inv in Sk as [Hcon L]; [|assumption|lia].
  destruct (is_constructed (el_tag e)); [|reflexivity]. apply bind_ext; [|reflexivity].
  apply H; [assumption|lia].
Qed.

Lemma convert_element_ext malloc rec rec' e inp limit out st w :
  cbs_ok (el_out e) -> cbs_ok inp -> 0 < el_header_len e ->
  (length (cbs_bytes (el_out e)) <= limit)%nat -> (length (cbs_bytes inp) < limit)%nat ->
  (forall c out cst looking w, cbs_ok c -> (length (cbs_bytes c) < limit)%nat ->
     rec c out cst looking w = rec' c out cst looking w) ->
  convert_element malloc rec e inp out st w = convert_element malloc rec' e inp out st w.
Proof.
  intros Ho Hc Hh L1 L2 H. unfold convert_element. destruct (negb (st =? 0)).
  - destruct (negb _); [reflexivity|]. apply bind_ext; [|reflexivity]. now apply convert_contents_ext with limit.
  - apply with_child_ext. intros k w1. now apply convert_contents_ext with limit.
Qed.

Lemma decided_result malloc m R out w c w' : decided malloc m R -> m out w = (Some c, w') -> exists bs, R bs c.
Proof.
  intros [F|(bs & c1 & _ & V & H)] E.
  - specialize (F out w). rewrite E in F. discriminate.
  - specialize (V out w c). rewrite E in V. rewrite (V eq_refl). eauto.
Qed.

(** The fuel is never what stops the converter: [cbs_convert_ber] allows
    itself one round more than the input has bytes, and any larger allowance
    gives the same result on every input, store, nesting depth and mode. *)
Theorem convert_ber_fuel_enough (malloc : Z -> option (list Z)) (f : nat) (inp : CBS) (out : nat)
  (st : Z) (looking : bool) (depth : Z) (w : world)
  (Hm : malloc_ok malloc) (Hc : cbs_ok inp) (Hd : depth <= kMaxDepth)
  (Hf : (length (cbs_bytes inp) < f)%nat) :
  convert_loop malloc f inp out st looking depth w = cbs_convert_ber malloc inp out st looking depth w.
Proof.
  unfold cbs_convert_ber. destruct (Z.ltb_spec kMaxDepth depth); [lia|]. clear Hd.
  assert (G : forall f g inp out st looking depth w, cbs_ok inp ->
    (length (cbs_bytes inp) < f)%nat -> (length (cbs_bytes inp) < g)%nat ->
    convert_loop malloc f inp out st looking depth w = convert_loop malloc g inp out st looking depth w).
  { clear - Hm. induction f as [|f IH]; intros [|g] inp out st looking depth w Hc Hf Hg; try lia.
    cbn [convert_loop]. destruct (negb (0 <? Cbs.CBS_len inp)); [reflexivity|].
    destruct (CBS_get_any_ber_asn1_element inp) as [[e|] inp1] eqn:G; [|reflexivity].
    destruct (ber_element_inv true inp e inp1 Hc G) as (Ht & Ho & [Hc1 A] & l & body & Eo & Lh & K).
    assert (K' : ber_length (Z.of_nat (length body)) l \/ is_constructed (el_tag e) = true /\ l = [128] /\ Z.of_nat (length body) = 0)
      by (destruct K as [K|(K1 & K2 & ->)]; auto).
    pose proof (header_length _ _ _ K') as L2. pose proof (is_eoc_iff (el_out e) _ body Ho Eo L2) as Eoc. rewrite <- Lh in Eoc.
    assert (Lo : (length (cbs_bytes (el_out e)) + length (cbs_bytes inp1) = length (cbs_bytes inp))%nat) by (rewrite A, length_app; lia).
    assert (Lo2 : (2 <= length (cbs_bytes (el_out e)))%nat) by (rewrite Eo, length_app; lia).
    destruct (is_eoc _ _); [reflexivity|]. apply bind_ext.
    - apply convert_element_ext with (length (cbs_bytes inp)); auto; try lia.
      intros c o cst lk w1 Hcc Lc. destruct (kMaxDepth <? depth + 1); [reflexivity|]. apply IH; auto; lia.
    - intros c w1 E. eapply (decided_result malloc (fun out => convert_element malloc _ e inp1 out st)) in E.
      2: { apply (convert_element_decided malloc Hm) with (l := l) (body := body); try assumption; [|intros X; apply Eoc in X; discriminate X].
           intros c' cst lk Hcc. destruct (kMaxDepth <? depth + 1); [apply decided_fail|now apply convert_loop_decided]. }
      destruct E as (bs & Hcc & t & b & Hv & _ & Eq). pose proof (ber_value_pos t b Hv).
      apply (f_equal (@length Z)) in Eq. rewrite !length_app in Eq. apply IH; auto; lia. }
  pose proof (length_cbs_bytes inp Hc). apply G; auto. unfold Cbs.CBS_len. lia.
Qed.

Lemma convert_ber_fuel_enough_witness :
  let w := mk_world [mk_CBB true None 0 0 false false] (mk_buffer (Some (mk_block 1 [0])) 0 1 true false) in
  convert_loop zero_malloc 20 (CBS_init [36; 3; 4; 1; 7] 5) 0 0 false 0 w =
  cbs_convert_ber zero_malloc (CBS_init [36; 3; 4; 1; 7] 5) 0 0 false 0 w.
Proof.
  exact (convert_ber_fuel_enough zero_malloc 20 (CBS_init [36; 3; 4; 1; 7] 5) 0 0 false 0 _
    zero_malloc_ok ltac:(cbs_ok_tac) ltac:(discriminate) ltac:(apply Nat.ltb_lt; reflexivity)).
Defined.
