(* ===== verification/Stack.v ===== *)
(** * Stacks ([crypto/stack/stack.c])

    A growing array of pointers, with an optional comparison function by which
    it can be sorted and searched.  A pointer is a number, 0 is NULL; a
    [_STACK *] is an option.  The functions are in the option monad: [None] is
    an access out of the array, or a failed assertion.

    [OPENSSL_malloc] is the parameter [alloc], which gives the uninitialised
    slots of a block, as many as its size has room for; [qsort] of the C
    library and the comparison functions behind [call_cmp_func] are parameters,
    too. *)

From Stdlib Require Import ZArith Lia Bool Sorted Permutation.
From stdpp Require Import list.
From S2P Require Import Prelude.

#[local] Open Scope Z_scope.

(** ** Definitions *)

Definition kMinSize : Z := 4.

(** [sizeof(_STACK)] *)
Definition STACK_SIZE : Z := 40.

(** [stack_st]; [num_alloc] is the length of [data], which the code keeps. *)
Record stack_st := mk_stack {
  num : Z;
  data : list Z;
  sorted : Z;
  num_alloc : Z;
  comp : Z
}.

Definition with_data (d : list Z) (sk : stack_st) : stack_st := mk_stack (num sk) d (sorted sk) (num_alloc sk) (comp sk).
Definition with_num (n : Z) (sk : stack_st) : stack_st := mk_stack n (data sk) (sorted sk) (num_alloc sk) (comp sk).
Definition with_sorted (s : Z) (sk : stack_st) : stack_st := mk_stack (num sk) (data sk) s (num_alloc sk) (comp sk).
Definition with_comp (c : Z) (sk : stack_st) : stack_st := mk_stack (num sk) (data sk) (sorted sk) (num_alloc sk) c.
Definition with_alloc (d : list Z) (n : Z) (sk : stack_st) : stack_st := mk_stack (num sk) d (sorted sk) n (comp sk).

(** [data[i]] and [data[i] = x] *)
Definition get (sk : stack_st) (i : Z) : option Z := data sk !! Z.to_nat i.

Definition put (i x : Z) (sk : stack_st) : option stack_st :=
  _ ← get sk i; Some (with_data (<[Z.to_nat i := x]> (data sk)) sk).

(** [OPENSSL_memmove] of [n] slots from [src] to [dst] *)
Definition move_slots (dst src n : Z) (sk : stack_st) : option stack_st :=
  if (dst + n <=? Z.of_nat (length (data sk))) && (src + n <=? Z.of_nat (length (data sk))) then
    Some (with_data (take (Z.to_nat dst) (data sk) ++ take (Z.to_nat n) (drop (Z.to_nat src) (data sk)) ++ drop (Z.to_nat (dst + n)) (data sk)) sk)
  else None.

Section Stack.
Context (alloc : Z -> option (list Z)) (call_cmp_func : Z -> Z -> Z -> Z) (qsort : (Z -> Z -> Z) -> list Z -> list Z).

(** [OPENSSL_realloc] of slots *)
Definition realloc_slots (d : list Z) (alloc_size : Z) : option (list Z) :=
  new ← alloc alloc_size; Some (take (length new) d ++ drop (length d) new).

Definition sk_new (c : Z) : option stack_st :=
  _ ← alloc STACK_SIZE;
  d ← alloc (8 * kMinSize);
  Some (mk_stack 0 (repeat 0 (length d)) 0 kMinSize c).

Definition sk_new_null : option stack_st := sk_new 0.

Definition sk_num (sk : option stack_st) : Z := match sk with None => 0 | Some sk => num sk end.

Definition sk_zero (sk : option stack_st) : option (option stack_st) :=
  match sk with
  | None => Some None
  | Some sk =>
      if num sk =? 0 then Some (Some sk)
      else if Z.of_nat (length (data sk)) <? num sk then None
      else Some (Some (with_sorted 0 (with_num 0 (with_data (repeat 0 (Z.to_nat (num sk)) ++ drop (Z.to_nat (num sk)) (data sk)) sk))))
  end.

Definition sk_value (sk : option stack_st) (i : Z) : option Z :=
  match sk with
  | None => Some 0
  | Some sk => if num sk <=? i then Some 0 else get sk i
  end.

Definition sk_set (sk : option stack_st) (i value : Z) : option (Z * option stack_st) :=
  match sk with
  | None => Some (0, None)
  | Some sk => if num sk <=? i then Some (0, Some sk) else sk ← put i value sk; Some (value, Some sk)
  end.

(** The array of [new_alloc] slots has no size. *)
Definition overflows (sk : stack_st) (new_alloc : Z) : bool :=
  (new_alloc <? num_alloc sk) || negb (size_t (new_alloc * 8) / 8 =? new_alloc).

(** The first part of [sk_insert]: room for one more element and a spare one *)
Definition grow (sk : stack_st) : option stack_st :=
  if num_alloc sk <=? size_t (num sk + 1) then
    let new_alloc := size_t (num_alloc sk * 2) in
    let new_alloc := if overflows sk new_alloc then size_t (num_alloc sk + 1) else new_alloc in
    if overflows sk new_alloc then None
    else d ← realloc_slots (data sk) (size_t (new_alloc * 8)); Some (with_alloc d new_alloc sk)
  else Some sk.

Definition sk_insert (sk : option stack_st) (p whr : Z) : option (Z * option stack_st) :=
  match sk with
  | None => Some (0, None)
  | Some sk =>
      match grow sk with
      | None => Some (0, Some sk)
      | Some sk =>
          sk ← (if num sk <=? whr then put (num sk) p sk
                else sk ← move_slots (whr + 1) whr (num sk - whr) sk; put whr p sk);
          let sk := with_sorted 0 (with_num (size_t (num sk + 1)) sk) in
          Some (num sk, Some sk)
      end
  end.

Definition sk_delete (sk : option stack_st) (whr : Z) : option (Z * option stack_st) :=
  match sk with
  | None => Some (0, None)
  | Some sk =>
      if num sk <=? whr then Some (0, Some sk)
      else
        ret ← get sk whr;
        sk ← (if negb (whr =? size_t (num sk - 1)) then move_slots whr (whr + 1) (num sk - whr - 1) sk else Some sk);
        Some (ret, Some (with_num (size_t (num sk - 1)) sk))
  end.

(** The first index from [i] on at which the element satisfies [eq] *)
Fixpoint scan (fuel : nat) (eq : Z -> bool) (sk : stack_st) (i : Z) : option (option Z) :=
  if i <? num sk then
    match fuel with
    | O => None
    | S fuel => x ← get sk i; if eq x then Some (Some i) else scan fuel eq sk (i + 1)
    end
  else Some None.

Definition sk_delete_ptr (sk : option stack_st) (p : Z) : option (Z * option stack_st) :=
  match sk with
  | None => Some (0, None)
  | Some sk =>
      r ← scan (Z.to_nat (num sk)) (fun x => x =? p) sk 0;
      match r with
      | Some i => sk_delete (Some sk) i
      | None => Some (0, Some sk)
      end
  end.

Definition sk_is_sorted (sk : option stack_st) : Z := match sk with None => 1 | Some sk => sorted sk end.

(** The binary search of [sk_find] *)
Fixpoint search (fuel : nat) (sk : stack_st) (p lo hi : Z) : option (option Z) :=
  if lo <? hi then
    match fuel with
    | O => None
    | S fuel =>
        let mid := lo + (hi - lo - 1) / 2 in
        if negb ((lo <=? mid) && (mid <? hi)) then None
        else
          elem ← get sk mid;
          let r := call_cmp_func (comp sk) p elem in
          if 0 <? r then search fuel sk p (mid + 1) hi
          else if r <? 0 then search fuel sk p lo mid
          else if hi - lo =? 1 then Some (Some mid)
          else if negb (mid + 1 <? hi) then None
          else search fuel sk p lo (mid + 1)
    end
  else if negb (lo =? hi) then None
  else Some None.

(** [Some i] is the index written to [*out_index] when 1 is returned. *)
Definition sk_find (sk : option stack_st) (p : Z) : option (option Z) :=
  match sk with
  | None => Some None
  | Some sk =>
      if comp sk =? 0 then scan (Z.to_nat (num sk)) (fun x => x =? p) sk 0
      else if p =? 0 then Some None
      else if sk_is_sorted (Some sk) =? 0 then scan (Z.to_nat (num sk)) (fun x => call_cmp_func (comp sk) p x =? 0) sk 0
      else search (Z.to_nat (num sk)) sk p 0 (num sk)
  end.

Definition sk_shift (sk : option stack_st) : option (Z * option stack_st) :=
  if sk_num sk =? 0 then Some (0, sk) else sk_delete sk 0.

Definition sk_push (sk : option stack_st) (p : Z) : option (Z * option stack_st) :=
  match sk with
  | None => Some (0, None)
  | Some s => sk_insert sk p (num s)
  end.

Definition sk_pop (sk : option stack_st) : option (Z * option stack_st) :=
  if sk_num sk =? 0 then Some (0, sk) else sk_delete sk (size_t (sk_num sk - 1)).

Definition sk_dup (sk : option stack_st) : option (option stack_st) :=
  match sk with
  | None => Some None
  | Some sk =>
      match alloc STACK_SIZE, alloc (size_t (8 * num_alloc sk)) with
      | Some _, Some d =>
          if (Z.of_nat (length (data sk)) <? num sk) || (Z.of_nat (length d) <? num sk) then None
          else Some (Some (mk_stack (num sk) (take (Z.to_nat (num sk)) (data sk) ++ drop (Z.to_nat (num sk)) d) (sorted sk) (num_alloc sk) (comp sk)))
      | _, _ => Some None
      end
  end.

Definition sk_sort (sk : option stack_st) : option (option stack_st) :=
  match sk with
  | None => Some None
  | Some sk =>
      if (comp sk =? 0) || negb (sorted sk =? 0) then Some (Some sk)
      else if Z.of_nat (length (data sk)) <? num sk then None
      else
        let n := Z.to_nat (num sk) in
        let sk := if 2 <=? num sk then with_data (qsort (call_cmp_func (comp sk)) (take n (data sk)) ++ drop n (data sk)) sk else sk in
        Some (Some (with_sorted 1 sk))
  end.

(** The old function and the stack *)
Definition sk_set_cmp_func (sk : stack_st) (c : Z) : Z * stack_st :=
  (comp sk, with_comp c (if negb (comp sk =? c) then with_sorted 0 sk else sk)).

(** The elements that are passed to [free_func], in their order *)
Definition sk_pop_free_ex (sk : option stack_st) : option (list Z) :=
  match sk with
  | None => Some []
  | Some sk =>
      if Z.of_nat (length (data sk)) <? num sk then None
      else Some (filter (fun x => x <> 0) (take (Z.to_nat (num sk)) (data sk)))
  end.

(** The loop of [sk_deep_copy]: the copies, or those that are freed when one
    of them fails.  [copy_func] numbers its calls. *)
Fixpoint copy_loop (copy_func : nat -> Z -> Z) (k : nat) (todo done_ : list Z) : list Z + list Z :=
  match todo with
  | [] => inl done_
  | x :: todo =>
      if x =? 0 then copy_loop copy_func k todo (done_ ++ [x])
      else
        let y := copy_func k x in
        if y =? 0 then inr (filter (fun z => z <> 0) done_)
        else copy_loop copy_func (S k) todo (done_ ++ [y])
  end.

(** The copy, or NULL with the elements that were passed to [free_func] *)
Definition sk_deep_copy (sk : option stack_st) (copy_func : nat -> Z -> Z) : option (option stack_st * list Z) :=
  ret ← sk_dup sk;
  match ret with
  | None => Some (None, [])
  | Some ret =>
      let n := Z.to_nat (num ret) in
      match copy_loop copy_func 0 (take n (data ret)) [] with
      | inl copies => Some (Some (with_data (copies ++ drop n (data ret)) ret), [])
      | inr freed => Some (None, freed)
      end
  end.
End Stack.

(** ** The elements *)

Definition elems (sk : stack_st) : list Z := take (Z.to_nat (num sk)) (data sk).

(** The array has the length that is kept, and a bound on its size in bytes. *)
Record stack_ok (sk : stack_st) : Prop := {
  ok_array : Z.of_nat (length (data sk)) = num_alloc sk;
  ok_num : 0 <= num sk <= num_alloc sk;
  ok_alloc : 1 <= num_alloc sk /\ 8 * num_alloc sk < 2 ^ 64
}.

Lemma elems_length sk : stack_ok sk -> length (elems sk) = Z.to_nat (num sk).
Proof. intros [A N _]. unfold elems. rewrite length_take. lia. Qed.

Lemma elems_get sk i : stack_ok sk -> 0 <= i < num sk -> exists x, get sk i = Some x /\ elems sk !! Z.to_nat i = Some x.
Proof.
  intros [A N _] Hi. destruct (lookup_lt_is_Some_2 (data sk) (Z.to_nat i) ltac:(lia)) as [x E]. exists x. split; [done|].
  unfold elems. by rewrite lookup_take_lt by lia.
Qed.

(** What C asks of a comparison: it orders the pointers, equal ones aside. *)
Record total_cmp (f : Z -> Z -> Z) : Prop := {
  cmp_flip : forall x y, Z.sgn (f y x) = - Z.sgn (f x y);
  cmp_trans : forall x y z, f x y <= 0 -> f y z <= 0 -> f x z <= 0
}.

(** What the C standard says of [qsort] *)
Definition qsort_ok (qsort : (Z -> Z -> Z) -> list Z -> list Z) : Prop :=
  forall f l, l ≡ₚ qsort f l /\ (total_cmp f -> StronglySorted (fun x y => f x y <= 0) (qsort f l)).

Section Facts.
Context (alloc : Z -> option (list Z)) (call_cmp_func : Z -> Z -> Z -> Z) (qsort : (Z -> Z -> Z) -> list Z -> list Z).
Context (alloc_size : forall n b, alloc n = Some b -> Z.of_nat (length b) = n / 8).
Context (Cmp : forall c, c <> 0 -> total_cmp (call_cmp_func c)) (Qsort : qsort_ok qsort).

(** The [sorted] flag tells the truth. *)
Definition flag_ok (sk : stack_st) : Prop :=
  sorted sk <> 0 -> comp sk <> 0 /\ StronglySorted (fun x y => call_cmp_func (comp sk) x y <= 0) (elems sk).

(** ** Searching *)

Lemma scan_spec (eq : Z -> bool) sk fuel : forall i, stack_ok sk -> 0 <= i -> (Z.to_nat (num sk - i) <= fuel)%nat ->
  exists r, scan fuel eq sk i = Some r /\
    match r with
    | Some j => i <= j < num sk /\ exists x, elems sk !! Z.to_nat j = Some x /\ eq x = true /\ forall k y, i <= k < j -> elems sk !! Z.to_nat k = Some y -> eq y = false
    | None => forall k y, i <= k < num sk -> elems sk !! Z.to_nat k = Some y -> eq y = false
    end.
Proof.
  induction fuel as [|fuel IH]; intros i I Hi Fu; cbn [scan]; (destruct (Z.ltb_spec i (num sk)) as [L|L]; [|exists None; split; [done|]; intros k y Hk; lia]); [lia|].
  destruct (elems_get sk i I ltac:(lia)) as (x & G & E). rewrite G. cbn [mbind option_bind]. destruct (eq x) eqn:Q.
  - exists (Some i). split; [done|]. split; [lia|]. exists x. split; [done|]. split; [done|]. intros k y Hk. lia.
  - destruct (IH (i + 1) I ltac:(lia) ltac:(lia)) as (r & R & S). exists r. split; [done|].
    assert (First : forall k y, i <= k -> elems sk !! Z.to_nat k = Some y -> i = k \/ i + 1 <= k) by (intros; lia).
    destruct r as [j|].
    + destruct S as (Hj & z & Ez & Qz & N). split; [lia|]. exists z. split; [done|]. split; [done|]. intros k y Hk Ey.
      destruct (First k y ltac:(lia) Ey) as [<-|?]; [congruence|]. apply (N k); [lia|done].
    + intros k y Hk Ey. destruct (First k y ltac:(lia) Ey) as [<-|?]; [congruence|]. apply (S k); [lia|done].
Qed.

(** The first index of an equal element, if there is one *)
Definition first_equal (eq : Z -> bool) (l : list Z) : option Z := (fun r => Z.of_nat (fst r)) <$> list_find (fun x => eq x = true) l.

Lemma first_equal_some eq l j x : 0 <= j -> l !! Z.to_nat j = Some x -> eq x = true -> (forall k y, 0 <= k < j -> l !! Z.to_nat k = Some y -> eq y = false) ->
  first_equal eq l = Some j.
Proof.
  intros Hj E Q N. unfold first_equal. assert (F : list_find (fun x => eq x = true) l = Some (Z.to_nat j, x)).
  { apply list_find_Some. split; [done|]. split; [done|]. intros k y Ek Lk. rewrite (N (Z.of_nat k) y); [done|lia|by rewrite Nat2Z.id]. }
  rewrite F. cbn. f_equal. lia.
Qed.

Lemma first_equal_none eq l : (forall k y, 0 <= k -> l !! Z.to_nat k = Some y -> eq y = false) -> first_equal eq l = None.
Proof.
  intros N. unfold first_equal. assert (F : list_find (fun x => eq x = true) l = None); [|by rewrite F].
  apply list_find_None, Forall_forall. intros y [k Ek]%list_elem_of_lookup. rewrite (N (Z.of_nat k) y); [done|lia|by rewrite Nat2Z.id].
Qed.

Lemma scan_first eq sk : stack_ok sk -> scan (Z.to_nat (num sk)) eq sk 0 = Some (first_equal eq (elems sk)).
Proof.
  intros I. destruct (scan_spec eq sk (Z.to_nat (num sk)) 0 I ltac:(lia) ltac:(lia)) as (r & R & S). rewrite R. f_equal. destruct r as [j|]; symmetry.
  - destruct S as (Hj & x & E & Q & N). apply (first_equal_some _ _ j x); [lia|done..].
  - apply first_equal_none. intros k y Hk E. apply (S k); [|done]. apply lookup_lt_Some in E. rewrite elems_length in E by done. lia.
Qed.

(** In a sorted list, what is before a greater element or an equal one is
    not less, and so on: [f p] does not grow. *)
Lemma sorted_before f l p i j x y : total_cmp f -> StronglySorted (fun x y => f x y <= 0) l -> (i < j)%nat -> l !! i = Some x -> l !! j = Some y ->
  (f p x < 0 -> f p y < 0) /\ (f p y = 0 -> 0 <= f p x) /\ (0 < f p y -> 0 < f p x).
Proof.
  intros T S L Ei Ej. assert (Le : f x y <= 0).
  { revert i j L Ei Ej. induction S as [|z l S IH F]; intros i j L Ei Ej; [done|]. destruct j as [|j]; [lia|]. destruct i as [|i]; cbn in Ei, Ej.
    - injection Ei as ->. rewrite Forall_forall in F. apply F. by apply list_elem_of_lookup_2 in Ej.
    - by apply (IH i j); [lia|..]. }
  pose proof (cmp_flip _ T p x) as Fx. pose proof (cmp_flip _ T p y) as Fy. pose proof (cmp_flip _ T x y) as Fxy.
  pose proof (cmp_trans _ T p x y) as T1. pose proof (cmp_trans _ T x y p) as T2. pose proof (cmp_trans _ T y p x) as T3.
  split; [|split]; intros Hp.
  - assert (X1 : f p y <= 0) by (apply T1; lia). destruct (Z.eq_dec (f p y) 0) as [X2|X2]; [|lia].
    assert (f x p <= 0) by (apply T2; lia). lia.
  - assert (f x p <= 0) by (apply T2; lia). lia.
  - assert (f x p <= 0) by (apply T2; lia). destruct (Z.eq_dec (f p x) 0) as [X2|X2]; [|lia]. assert (f p y <= 0) by (apply T1; lia). lia.
Qed.

Lemma search_spec sk p fuel : forall lo hi, stack_ok sk -> comp sk <> 0 -> StronglySorted (fun x y => call_cmp_func (comp sk) x y <= 0) (elems sk) ->
  0 <= lo <= hi -> hi <= num sk -> (Z.to_nat (hi - lo) <= fuel)%nat ->
  (forall k y, 0 <= k < lo -> elems sk !! Z.to_nat k = Some y -> 0 < call_cmp_func (comp sk) p y) ->
  ((forall k y, hi <= k -> elems sk !! Z.to_nat k = Some y -> call_cmp_func (comp sk) p y < 0) \/
   lo < hi /\ exists y, elems sk !! Z.to_nat (hi - 1) = Some y /\ call_cmp_func (comp sk) p y = 0) ->
  search call_cmp_func fuel sk p lo hi = Some (first_equal (fun x => call_cmp_func (comp sk) p x =? 0) (elems sk)).
Proof.
  intros lo hi I Nc S. set (f := call_cmp_func (comp sk)) in *. pose proof (Cmp (comp sk) Nc) as T. fold f in T. revert lo hi.
  induction fuel as [|fuel IH]; intros lo hi Hl Hh Fu Below Above; cbn [search].
  { rewrite (proj2 (Z.ltb_ge lo hi)), (proj2 (Z.eqb_eq lo hi)) by lia. cbn [negb]. f_equal. symmetry. apply first_equal_none. intros k y Hk E.
    destruct Above as [Above|]; [|lia]. destruct (Z.lt_ge_cases k lo); [pose proof (Below k y ltac:(lia) E)|pose proof (Above k y ltac:(lia) E)]; apply Z.eqb_neq; lia. }
  destruct (Z.ltb_spec lo hi) as [L|L].
  2: { rewrite (proj2 (Z.eqb_eq lo hi)) by lia. cbn [negb]. f_equal. symmetry. apply first_equal_none. intros k y Hk E.
    destruct Above as [Above|]; [|lia]. destruct (Z.lt_ge_cases k lo); [pose proof (Below k y ltac:(lia) E)|pose proof (Above k y ltac:(lia) E)]; apply Z.eqb_neq; lia. }
  set (mid := lo + (hi - lo - 1) / 2). assert (Hm : lo <= mid < hi) by (unfold mid; lia_div).
  rewrite (proj2 (Z.leb_le lo mid)), (proj2 (Z.ltb_lt mid hi)) by lia. cbn [andb negb].
  destruct (elems_get sk mid I ltac:(lia)) as (x & G & E). rewrite G. cbn [mbind option_bind]. fold f.
  assert (Ord : forall i j y z, 0 <= i < j -> elems sk !! Z.to_nat i = Some y -> elems sk !! Z.to_nat j = Some z ->
    (f p y < 0 -> f p z < 0) /\ (f p z = 0 -> 0 <= f p y) /\ (0 < f p z -> 0 < f p y)).
  { intros i j y z Hij. apply sorted_before; [done|done|lia]. }
  destruct (Z.ltb_spec 0 (f p x)) as [P|P]; [|destruct (Z.ltb_spec (f p x) 0) as [P'|P']].
  - (* mid is too low *)
    assert (Ne : forall y, elems sk !! Z.to_nat (hi - 1) = Some y -> f p y = 0 -> mid + 1 < hi).
    { intros y Ey Qy. destruct (Z.eq_dec mid (hi - 1)) as [X|X]; [rewrite X in E; replace y with x in * by congruence; lia|lia]. }
    apply IH; [|lia|lia| |].
    + lia.
    + intros k y Hk Ey. destruct (Z.eq_dec k mid) as [->|N]; [replace y with x by congruence; done|]. by apply (Ord k mid y x ltac:(lia) Ey E).
    + destruct Above as [Above|[_ (y & Ey & Qy)]]; [by left|]. right. split; [by apply (Ne y)|by exists y].
  - (* mid is too high *)
    apply IH; [lia|lia|lia|done|]. left. intros k y Hk Ey. destruct (Z.eq_dec k mid) as [->|N]; [replace y with x by congruence; done|].
    by apply (Ord mid k x y ltac:(lia) E Ey).
  - assert (Q : f p x = 0) by lia. destruct (Z.eqb_spec (hi - lo) 1) as [One|One].
    + f_equal. symmetry. assert (mid = lo) as M by lia. apply (first_equal_some _ _ mid x); [lia|done|by apply Z.eqb_eq|].
      intros k y Hk Ey. pose proof (Below k y ltac:(lia) Ey). apply Z.eqb_neq. lia.
    + assert (Hm1 : mid + 1 < hi) by (unfold mid; lia_div). rewrite (proj2 (Z.ltb_lt (mid + 1) hi)) by lia. cbn [negb].
      apply IH; [lia|lia|lia|done|]. right. split; [lia|]. exists x. replace (mid + 1 - 1) with mid by lia. done.
Qed.

(** ** Changing *)

(** An element is inserted at [n], or at the end. *)
Definition insert_at (n : nat) (p : Z) (l : list Z) : list Z := take n l ++ p :: drop n l.

(** The slots are the elements and the room that is left. *)
Lemma slots sk : stack_ok sk -> exists c, data sk = elems sk ++ c /\ Z.of_nat (length c) = num_alloc sk - num sk.
Proof.
  intros I. exists (drop (Z.to_nat (num sk)) (data sk)). split; [symmetry; apply take_drop|]. destruct I as [A N _]. rewrite length_drop. lia.
Qed.

Lemma elems_of sk l c : data sk = l ++ c -> Z.of_nat (length l) = num sk -> elems sk = l.
Proof. intros E L. unfold elems. rewrite E. apply take_app_length'. lia. Qed.

Lemma move_up (l1 l2 c : list Z) z p :
  <[length l1 := p]> (take (length l1 + 1) (l1 ++ l2 ++ z :: c) ++ take (length l2) (drop (length l1) (l1 ++ l2 ++ z :: c)) ++
    drop (length l1 + 1 + length l2) (l1 ++ l2 ++ z :: c)) = l1 ++ p :: l2 ++ c.
Proof.
  rewrite take_app_add, drop_app_length, take_app_length. replace (length l1 + 1 + length l2)%nat with (length l1 + (length l2 + 1))%nat by lia.
  rewrite drop_app_add, drop_app_add. cbn [drop]. assert (X : exists y, take 1 (l2 ++ z :: c) = [y]) by (destruct l2 as [|y l2]; eexists; done).
  destruct X as [y ->]. rewrite <- app_assoc. cbn [app]. rewrite insert_app_r_alt, Nat.sub_diag by done. cbn. by rewrite drop_0.
Qed.

Lemma move_down (l1 l2 c : list Z) x :
  take (length l1) (l1 ++ x :: l2 ++ c) ++ take (length l2) (drop (length l1 + 1) (l1 ++ x :: l2 ++ c)) ++ drop (length l1 + length l2) (l1 ++ x :: l2 ++ c) =
  l1 ++ l2 ++ drop (length l2) (x :: l2 ++ c).
Proof. rewrite take_app_length, drop_app_add. cbn [drop]. rewrite drop_0, take_app_length, drop_app_add. done. Qed.

Lemma put_ok i x sk : stack_ok sk -> 0 <= i < num_alloc sk -> put i x sk = Some (with_data (<[Z.to_nat i := x]> (data sk)) sk).
Proof.
  intros [A _ _] Hi. unfold put, get. destruct (lookup_lt_is_Some_2 (data sk) (Z.to_nat i) ltac:(lia)) as [y E]. by rewrite E.
Qed.

(** The array that [sk_insert] grows, when it has to *)
Lemma realloc_ok d n d' : realloc_slots alloc d n = Some d' -> Z.of_nat (length d) <= n / 8 -> 0 <= n ->
  Z.of_nat (length d') = n / 8 /\ exists c, d' = d ++ c.
Proof.
  unfold realloc_slots. destruct (alloc n) as [new|] eqn:E; [|done]. intros [= <-] L Hn. pose proof (alloc_size n new E) as Ln.
  rewrite take_ge by lia. split; [rewrite length_app, length_drop; lia|by eexists].
Qed.

Lemma grow_spec sk : stack_ok sk ->
  grow alloc sk = None /\ num_alloc sk <= num sk + 1 \/
  exists sk1 c, grow alloc sk = Some sk1 /\ stack_ok sk1 /\ num sk1 = num sk /\ comp sk1 = comp sk /\ data sk1 = elems sk ++ c /\ num sk < num_alloc sk1.
Proof.
  intros I. unfold grow. destruct (slots sk I) as (c & Dc & Lc). pose proof I as [A N [S1 S2]]. rewrite (wrap_small 64 (num sk + 1)) by (unfold word_ok; lia).
  destruct (Z.leb_spec (num_alloc sk) (num sk + 1)) as [L|L]; [|right; exists sk, c; split; [done|]; split; [done|]; split; [done|]; split; [done|]; split; [done|lia]].
  rewrite (wrap_small 64 (num_alloc sk * 2)), (wrap_small 64 (num_alloc sk + 1)) by (unfold word_ok; lia).
  set (n := if overflows sk (num_alloc sk * 2) then _ else _). assert (Hn : num_alloc sk < n < 2 ^ 64) by (unfold n; destruct (overflows _ _); lia).
  destruct (overflows sk n) eqn:O; [by left|]. unfold overflows in O. apply orb_false_elim in O as [_ O%negb_false_iff%Z.eqb_eq].
  destruct (realloc_slots alloc (data sk) (size_t (n * 8))) as [d|] eqn:R; [|by left]. right.
  pose proof (wrap_range 64 (n * 8) ltac:(lia)) as W. unfold word_ok in W.
  destruct (realloc_ok _ _ _ R ltac:(lia) ltac:(lia)) as (Ld & c' & ->). exists (with_alloc (data sk ++ c') n sk), (c ++ c'). split; [done|].
  split; [split; cbn [data num_alloc num with_alloc]; [lia|lia|]|].
  { split; [lia|]. rewrite <- O. pose proof (Z.mul_div_le (size_t (n * 8)) 8 ltac:(lia)). lia. }
  split; [done|]. split; [done|]. split; [|cbn [num_alloc with_alloc]; lia]. cbn [data with_alloc]. rewrite Dc at 1. by rewrite app_assoc.
Qed.

(** The stack when the array has been filled in *)
Lemma insert_done sk sk1 d c' p whr : stack_ok sk -> stack_ok sk1 -> num sk1 = num sk -> comp sk1 = comp sk -> num sk < num_alloc sk1 ->
  Z.of_nat (length d) = num_alloc sk1 -> d = insert_at (Z.to_nat whr) p (elems sk) ++ c' ->
  let sk' := with_sorted 0 (with_num (size_t (num sk1 + 1)) (with_data d sk1)) in
  stack_ok sk' /\ comp sk' = comp sk /\ num sk' = num sk + 1 /\ elems sk' = insert_at (Z.to_nat whr) p (elems sk) /\ sorted sk' = 0.
Proof.
  intros I I1 N1 C1 L1 Ld Ed sk'. pose proof (elems_length sk I) as Le. pose proof I1 as [A1 N2 [S3 S4]].
  assert (Ns : num sk' = num sk + 1) by (unfold sk'; cbn [num with_sorted with_num]; rewrite wrap_small; [lia|unfold word_ok; lia]).
  split; [split; [exact Ld|rewrite Ns; unfold sk'; cbn [num_alloc with_sorted with_num with_data]; lia|done]|]. split; [done|]. split; [done|]. split; [|done].
  apply (elems_of _ _ c'); [exact Ed|]. rewrite Ns. unfold insert_at. rewrite length_app, length_take. cbn [length]. rewrite length_drop. lia.
Qed.

Lemma insert_spec sk p whr : stack_ok sk -> 0 <= whr ->
  exists r sk', sk_insert alloc (Some sk) p whr = Some (r, Some sk') /\ stack_ok sk' /\ comp sk' = comp sk /\
    (r = 0 /\ sk' = sk /\ num_alloc sk <= num sk + 1 \/
     r = num sk + 1 /\ elems sk' = insert_at (Z.to_nat whr) p (elems sk) /\ sorted sk' = 0).
Proof.
  intros I Hw. unfold sk_insert.
  destruct (grow_spec sk I) as [[-> L]|(sk1 & c & -> & I1 & N1 & C1 & D1 & L1)]; [exists 0, sk; split; [done|]; split; [done|]; split; [done|]; by left|].
  pose proof (fun d c' => insert_done sk sk1 d c' p whr I I1 N1 C1 L1) as Fin. rewrite N1. pose proof (elems_length sk I) as Le. pose proof I as [_ N _]. pose proof I1 as [A1 N2 _].
  destruct c as [|z c]; [rewrite D1, app_nil_r in A1; lia|]. destruct (Z.leb_spec (num sk) whr) as [Lw|Lw].
  - rewrite put_ok by (done || lia). cbn [mbind option_bind].
    destruct (Fin (<[Z.to_nat (num sk) := p]> (data sk1)) c) as (F1 & F2 & F3 & F4 & F5).
    + by rewrite length_insert.
    + unfold insert_at. rewrite take_ge, drop_ge, D1 by lia. rewrite insert_app_r_alt by lia.
      replace (Z.to_nat (num sk) - length (elems sk))%nat with 0%nat by lia. cbn. by rewrite <- app_assoc.
    + eexists _, _. split; [reflexivity|]. split; [exact F1|]. split; [exact F2|]. right. split; [exact F3|done].
  - set (l1 := take (Z.to_nat whr) (elems sk)). set (l2 := drop (Z.to_nat whr) (elems sk)).
    assert (Hl1 : length l1 = Z.to_nat whr) by (unfold l1; rewrite length_take; lia). assert (Hl2 : length l2 = Z.to_nat (num sk - whr)) by (unfold l2; rewrite length_drop; lia).
    assert (Dd : data sk1 = l1 ++ l2 ++ z :: c) by (rewrite D1, app_assoc; unfold l1, l2; by rewrite take_drop).
    unfold move_slots. rewrite (proj2 (Z.leb_le _ _)), (proj2 (Z.leb_le _ _)) by lia. cbn [andb mbind option_bind].
    pose proof (move_up l1 l2 c z p) as Mv.
    replace (length l1 + 1)%nat with (Z.to_nat (whr + 1)) in Mv by lia. replace (Z.to_nat (whr + 1) + length l2)%nat with (Z.to_nat (whr + 1 + (num sk - whr))) in Mv by lia.
    rewrite Hl1, Hl2, <- Dd in Mv. set (d1 := take (Z.to_nat (whr + 1)) (data sk1) ++ _) in *.
    assert (Ld1 : length (<[Z.to_nat whr := p]> d1) = length (data sk1)) by (rewrite Mv, Dd, !length_app; cbn [length]; rewrite !length_app; cbn [length]; lia).
    rewrite length_insert in Ld1.
    rewrite put_ok; [|split; cbn [data num num_alloc with_data]; [lia|lia|exact (ok_alloc _ I1)]|cbn [num_alloc with_data]; lia]. cbn [mbind option_bind data with_data].
    destruct (Fin (<[Z.to_nat whr := p]> d1) c) as (F1 & F2 & F3 & F4 & F5).
    + rewrite length_insert. lia.
    + rewrite Mv. unfold insert_at. fold l1 l2. by rewrite <- app_assoc.
    + eexists _, _. split; [reflexivity|]. split; [exact F1|]. split; [exact F2|]. right. split; [exact F3|done].
Qed.

Lemma delete_spec sk whr : stack_ok sk -> 0 <= whr ->
  exists sk', sk_delete (Some sk) whr = Some (default 0 (elems sk !! Z.to_nat whr), Some sk') /\ stack_ok sk' /\ comp sk' = comp sk /\
    elems sk' = delete (Z.to_nat whr) (elems sk) /\ (sorted sk' = sorted sk).
Proof.
  intros I Hw. unfold sk_delete. pose proof I as [A N [S1 S2]]. pose proof (elems_length sk I) as Le. destruct (Z.leb_spec (num sk) whr) as [L|L].
  - exists sk. rewrite lookup_ge_None_2 by lia. split; [done|]. split; [done|]. split; [done|]. split; [|done]. by rewrite delete_take_drop, take_ge, drop_ge, app_nil_r by lia.
  - destruct (elems_get sk whr I ltac:(lia)) as (x & G & E). rewrite G, E. cbn [mbind option_bind default from_option id].
    assert (W : size_t (num sk - 1) = num sk - 1) by (apply wrap_small; unfold word_ok; lia). rewrite W. destruct (slots sk I) as (c & Dc & Lc).
    assert (Fin : forall d c', Z.of_nat (length d) = num_alloc sk -> d = delete (Z.to_nat whr) (elems sk) ++ c' ->
      let sk' := with_num (num sk - 1) (with_data d sk) in stack_ok sk' /\ comp sk' = comp sk /\ elems sk' = delete (Z.to_nat whr) (elems sk) /\ sorted sk' = sorted sk).
    { intros d c' Ld Ed sk'. split; [split; cbn [data num num_alloc with_num with_data sk']; [done|lia|done]|]. split; [done|]. split; [|done].
      apply (elems_of _ _ c'); [exact Ed|]. rewrite length_delete, Le by (by eexists). cbn [num with_num sk']. lia. }
    set (l1 := take (Z.to_nat whr) (elems sk)). set (l2 := drop (S (Z.to_nat whr)) (elems sk)).
    assert (El : elems sk = l1 ++ x :: l2) by (unfold l1, l2; by rewrite take_drop_middle).
    assert (Dl : delete (Z.to_nat whr) (elems sk) = l1 ++ l2) by (rewrite delete_take_drop; done).
    assert (Hl1 : length l1 = Z.to_nat whr) by (unfold l1; rewrite length_take; lia). assert (Hl2 : length l2 = Z.to_nat (num sk - whr - 1)) by (unfold l2; rewrite length_drop; lia).
    destruct (Z.eqb_spec whr (num sk - 1)) as [X|X]; cbn [negb mbind option_bind].
    + destruct l2 as [|]; [|cbn [length] in Hl2; lia]. assert (Dd : data sk = l1 ++ [] ++ x :: c) by (rewrite Dc, El, <- app_assoc; done).
      destruct (Fin (data sk) (x :: c) A) as (F1 & F2 & F3 & F4); [by rewrite Dl, <- app_assoc|].
      exists (with_num (num sk - 1) sk). rewrite W. split; [done|]. split; [exact F1|]. split; [exact F2|]. split; [exact F3|exact F4].
    + assert (Dd : data sk = l1 ++ x :: l2 ++ c) by (rewrite Dc, El, <- app_assoc; done).
      unfold move_slots. rewrite (proj2 (Z.leb_le _ _)), (proj2 (Z.leb_le _ _)) by lia. cbn [andb mbind option_bind].
      pose proof (move_down l1 l2 c x) as Mv. rewrite <- Dd, Hl1, Hl2 in Mv.
      replace (Z.to_nat whr + 1)%nat with (Z.to_nat (whr + 1)) in Mv by lia. replace (Z.to_nat whr + Z.to_nat (num sk - whr - 1))%nat with (Z.to_nat (whr + (num sk - whr - 1))) in Mv by lia.
      rewrite Mv. set (d := l1 ++ l2 ++ _).
      destruct (Fin d (drop (Z.to_nat (num sk - whr - 1)) (x :: l2 ++ c))) as (F1 & F2 & F3 & F4).
      * unfold d. rewrite !length_app, length_drop. cbn [length]. rewrite length_app. pose proof (f_equal length Dd) as Y. rewrite length_app in Y. cbn [length] in Y. rewrite length_app in Y. lia.
      * unfold d. by rewrite Dl, <- app_assoc.
      * exists (with_num (num sk - 1) (with_data d sk)). cbn [num with_data]. rewrite W. split; [done|]. split; [exact F1|]. split; [exact F2|]. split; [exact F3|exact F4].
Qed.

Lemma delete_ptr_spec sk p : stack_ok sk ->
  exists r sk', sk_delete_ptr (Some sk) p = Some (r, Some sk') /\ stack_ok sk' /\ comp sk' = comp sk /\ sorted sk' = sorted sk /\
    match first_equal (fun x => x =? p) (elems sk) with
    | Some i => r = p /\ elems sk' = delete (Z.to_nat i) (elems sk)
    | None => r = 0 /\ sk' = sk
    end.
Proof.
  intros I. unfold sk_delete_ptr. rewrite (scan_first _ _ I). cbn [mbind option_bind]. destruct (first_equal _ _) as [i|] eqn:F; [|by exists 0, sk].
  unfold first_equal in F. destruct (list_find _ (elems sk)) as [[n x]|] eqn:L; [|done]. injection F as <-. cbn [fst] in *.
  apply list_find_Some in L as (E & Q%Z.eqb_eq & _). subst x.
  destruct (delete_spec sk (Z.of_nat n) I ltac:(lia)) as (sk' & R & I' & C' & E' & S'). rewrite Nat2Z.id in *. rewrite E in R. cbn [default from_option id] in R.
  exists p, sk'. done.
Qed.

Lemma set_spec sk i x : stack_ok sk -> 0 <= i ->
  exists sk', sk_set (Some sk) i x = Some (if num sk <=? i then 0 else x, Some sk') /\ stack_ok sk' /\ comp sk' = comp sk /\ sorted sk' = sorted sk /\
    elems sk' = <[Z.to_nat i := x]> (elems sk).
Proof.
  intros I Hi. unfold sk_set. pose proof I as [A N S]. pose proof (elems_length sk I) as Le. destruct (Z.leb_spec (num sk) i) as [L|L].
  - exists sk. split; [done|]. split; [done|]. split; [done|]. split; [done|]. by rewrite list_insert_ge by lia.
  - rewrite put_ok by (done || lia). cbn [mbind option_bind]. eexists. split; [done|]. split; [split; cbn [data num num_alloc with_data]; [by rewrite length_insert|done|done]|].
    split; [done|]. split; [done|]. unfold elems. cbn [data num with_data]. by rewrite take_insert_lt by lia.
Qed.

Lemma zero_spec sk : stack_ok sk -> exists sk', sk_zero (Some sk) = Some (Some sk') /\ stack_ok sk' /\ comp sk' = comp sk /\ elems sk' = [] /\ (elems sk = [] \/ sorted sk' = 0).
Proof.
  intros I. unfold sk_zero. pose proof I as [A N S]. pose proof (elems_length sk I) as Le. destruct (Z.eqb_spec (num sk) 0) as [Z0|NZ].
  - exists sk. split; [done|]. split; [done|]. split; [done|]. assert (elems sk = []) by (apply length_zero_iff_nil; lia). split; [done|]. by left.
  - rewrite (proj2 (Z.ltb_ge _ _)) by lia. eexists. split; [done|]. split; [|split; [done|split; [done|by right]]].
    split; cbn [data num num_alloc with_data with_num with_sorted]; [|lia|done]. rewrite length_app, repeat_length, length_drop. lia.
Qed.

Lemma sort_spec sk : stack_ok sk -> flag_ok sk ->
  exists sk', sk_sort call_cmp_func qsort (Some sk) = Some (Some sk') /\ stack_ok sk' /\ comp sk' = comp sk /\ flag_ok sk' /\
    elems sk' ≡ₚ elems sk /\ (comp sk <> 0 -> sorted sk' <> 0).
Proof.
  intros I F. unfold sk_sort. pose proof I as [A N S]. destruct (Z.eqb_spec (comp sk) 0) as [C|C]; cbn [orb]; [exists sk; done|].
  destruct (Z.eqb_spec (sorted sk) 0) as [Z0|NZ]; cbn [negb orb]; [|exists sk; done].
  rewrite (proj2 (Z.ltb_ge _ _)) by lia. destruct (Qsort (call_cmp_func (comp sk)) (elems sk)) as [P So]. specialize (So (Cmp _ C)).
  destruct (Z.leb_spec 2 (num sk)) as [L|L].
  - eexists. split; [done|]. fold (elems sk). set (sk' := with_sorted 1 _).
    assert (E : elems sk' = qsort (call_cmp_func (comp sk)) (elems sk)).
    { apply (elems_of _ _ (drop (Z.to_nat (num sk)) (data sk))); [done|]. rewrite <- P, elems_length by done. cbn [num sk' with_sorted with_data]. lia. }
    split; [split; cbn [data num num_alloc sk' with_sorted with_data]; [|done|done]|].
    { rewrite length_app, <- P, elems_length, length_drop by done. lia. }
    split; [done|]. split; [intros _; split; [exact C|by rewrite E]|]. split; [by rewrite E, <- P|done].
  - eexists. split; [done|]. split; [done|]. split; [done|]. split; [|done]. intros _. split; [exact C|]. change (elems (with_sorted 1 sk)) with (elems sk).
    assert (Le : (length (elems sk) < 2)%nat) by (rewrite elems_length by done; lia). destruct (elems sk) as [|x [|y l]]; [constructor|repeat constructor|cbn [length] in Le; lia].
Qed.

Lemma dup_spec sk : stack_ok sk ->
  sk_dup alloc (Some sk) = Some None \/
  exists sk', sk_dup alloc (Some sk) = Some (Some sk') /\ stack_ok sk' /\ comp sk' = comp sk /\ sorted sk' = sorted sk /\ elems sk' = elems sk /\ num_alloc sk' = num_alloc sk.
Proof.
  intros I. unfold sk_dup. pose proof I as [A N [S1 S2]]. rewrite wrap_small by (unfold word_ok; lia). destruct (alloc STACK_SIZE) as [s|]; [|by left].
  destruct (alloc (8 * num_alloc sk)) as [d|] eqn:E; [|by left]. right. apply alloc_size in E. replace (8 * num_alloc sk / 8) with (num_alloc sk) in E by (symmetry; rewrite Z.mul_comm; by apply Z.div_mul).
  rewrite (proj2 (Z.ltb_ge _ _)), (proj2 (Z.ltb_ge _ _)) by lia. cbn [orb]. eexists. split; [done|].
  split; [split; cbn [data num num_alloc]; [rewrite length_app, length_take, length_drop; lia|done|done]|]. split; [done|]. split; [done|]. split; [|done].
  apply (elems_of _ _ (drop (Z.to_nat (num sk)) d)); [done|]. cbn [num]. rewrite elems_length by done. lia.
Qed.

Lemma sorted_delete {A} (R : A -> A -> Prop) l : forall n, StronglySorted R l -> StronglySorted R (delete n l).
Proof.
  induction l as [|x l IH]; intros [|n] S; [done..| |]; inversion S as [|? ? S' F]; subst; [done|]. change (delete (Datatypes.S n) (x :: l)) with (x :: delete n l). constructor; [by apply IH|].
  rewrite Forall_forall in F |- *. intros y Hy. apply F. by apply list_elem_of_delete_inv in Hy.
Qed.

Lemma flag_same sk sk' : comp sk' = comp sk -> elems sk' = elems sk -> (sorted sk' = sorted sk \/ sorted sk' = 0) -> flag_ok sk -> flag_ok sk'.
Proof. intros C E S F N. rewrite C, E. apply F. destruct S; congruence. Qed.

Lemma flag_delete sk sk' n : comp sk' = comp sk -> elems sk' = delete n (elems sk) -> sorted sk' = sorted sk -> flag_ok sk -> flag_ok sk'.
Proof. intros C E S F N. rewrite S in N. destruct (F N) as [F1 F2]. rewrite C, E. split; [done|]. by apply sorted_delete. Qed.

Lemma flag_insert sk' : sorted sk' = 0 -> flag_ok sk'.
Proof. intros S N. by destruct N. Qed.

(** Room for elements, or the array that is refused *)
Lemma insert_flag sk p whr : stack_ok sk -> flag_ok sk -> 0 <= whr ->
  exists r sk', sk_insert alloc (Some sk) p whr = Some (r, Some sk') /\ stack_ok sk' /\ flag_ok sk' /\ comp sk' = comp sk /\
    (r = 0 /\ sk' = sk /\ num_alloc sk <= num sk + 1 \/ r = num sk + 1 /\ elems sk' = insert_at (Z.to_nat whr) p (elems sk)).
Proof.
  intros I F Hw. destruct (insert_spec sk p whr I Hw) as (r & sk' & R & I' & C' & D). exists r, sk'. split; [done|]. split; [done|].
  destruct D as [(-> & -> & L)|(-> & E & S)]; (split; [first [done|by apply flag_insert]|]); (split; [done|]); [left|right]; done.
Qed.

Lemma delete_flag sk whr : stack_ok sk -> flag_ok sk -> 0 <= whr ->
  exists sk', sk_delete (Some sk) whr = Some (default 0 (elems sk !! Z.to_nat whr), Some sk') /\ stack_ok sk' /\ flag_ok sk' /\ comp sk' = comp sk /\
    elems sk' = delete (Z.to_nat whr) (elems sk).
Proof.
  intros I F Hw. destruct (delete_spec sk whr I Hw) as (sk' & R & I' & C' & E & S). exists sk'. split; [done|]. split; [done|].
  split; [by apply (flag_delete sk sk' (Z.to_nat whr))|done].
Qed.

(** ** The claims *)

(** C18: [sk_find] finds the first of the elements that are equal to [p], for
    the comparison of the stack, or for pointers when there is none, and no
    element if none is equal (NULL is not compared); the binary search in a
    sorted stack gives the same index as the linear search, and ends. *)
Theorem sk_find_correct (sk : stack_st) (p : Z) (I : stack_ok sk) (F : flag_ok sk) :
  sk_find call_cmp_func (Some sk) p =
    Some (if comp sk =? 0 then first_equal (fun x => x =? p) (elems sk)
          else if p =? 0 then None
          else first_equal (fun x => call_cmp_func (comp sk) p x =? 0) (elems sk)).
Proof.
  unfold sk_find, sk_is_sorted. destruct (Z.eqb_spec (comp sk) 0) as [C|C]; [by apply scan_first|]. destruct (p =? 0); [done|].
  destruct (Z.eqb_spec (sorted sk) 0) as [S|S]; [by apply scan_first|]. destruct (F S) as [_ So]. pose proof (ok_num _ I) as N.
  apply search_spec; [done|done|done|lia|lia|lia| |].
  - intros k y Hk. lia.
  - left. intros k y Hk E. apply lookup_lt_Some in E. rewrite elems_length in E by done. lia.
Qed.

(** C19: A stack is a list.  Inserting, pushing, deleting by index, shifting,
    popping, emptying, sorting, copying and looking an element up are the
    operations of lists, an index beyond the end is the end when inserting
    and nothing when deleting, and NULL comes back when there is no element;
    only a larger array may be refused, and then nothing changes.  The
    operations named here leave a [sorted] flag that tells the truth; [sk_set]
    is not one of them ([sk_set_breaks_find] below). *)
Theorem stack_refines_list (sk : stack_st) (I : stack_ok sk) (F : flag_ok sk) :
  (forall p whr, 0 <= whr -> exists r sk', sk_insert alloc (Some sk) p whr = Some (r, Some sk') /\ stack_ok sk' /\ flag_ok sk' /\
     (r = 0 /\ sk' = sk /\ num_alloc sk <= num sk + 1 \/ r = num sk + 1 /\ elems sk' = insert_at (Z.to_nat whr) p (elems sk))) /\
  (forall p, exists r sk', sk_push alloc (Some sk) p = Some (r, Some sk') /\ stack_ok sk' /\ flag_ok sk' /\
     (r = 0 /\ sk' = sk /\ num_alloc sk <= num sk + 1 \/ r = num sk + 1 /\ elems sk' = elems sk ++ [p])) /\
  (forall whr, 0 <= whr -> exists sk', sk_delete (Some sk) whr = Some (default 0 (elems sk !! Z.to_nat whr), Some sk') /\ stack_ok sk' /\ flag_ok sk' /\
     elems sk' = delete (Z.to_nat whr) (elems sk)) /\
  (exists sk', sk_shift (Some sk) = Some (default 0 (head (elems sk)), Some sk') /\ stack_ok sk' /\ flag_ok sk' /\ elems sk' = tail (elems sk)) /\
  (exists sk', sk_pop (Some sk) = Some (default 0 (last (elems sk)), Some sk') /\ stack_ok sk' /\ flag_ok sk' /\ elems sk' = removelast (elems sk)) /\
  (exists sk', sk_zero (Some sk) = Some (Some sk') /\ stack_ok sk' /\ flag_ok sk' /\ elems sk' = []) /\
  (exists sk', sk_sort call_cmp_func qsort (Some sk) = Some (Some sk') /\ stack_ok sk' /\ flag_ok sk' /\ elems sk' ≡ₚ elems sk /\
     (comp sk <> 0 -> StronglySorted (fun x y => call_cmp_func (comp sk) x y <= 0) (elems sk'))) /\
  (sk_dup alloc (Some sk) = Some None \/ exists sk', sk_dup alloc (Some sk) = Some (Some sk') /\ stack_ok sk' /\ flag_ok sk' /\ elems sk' = elems sk) /\
  (forall i, 0 <= i -> sk_value (Some sk) i = Some (default 0 (elems sk !! Z.to_nat i))).
Proof.
  pose proof (elems_length sk I) as Le. pose proof (ok_num _ I) as N. pose proof (ok_alloc _ I) as [S1 S2].
  split; [|split; [|split; [|split; [|split; [|split; [|split; [|split]]]]]]].
  - intros p whr Hw. destruct (insert_flag sk p whr I F Hw) as (r & sk' & R & I' & F' & _ & D). by exists r, sk'.
  - intros p. destruct (insert_flag sk p (num sk) I F ltac:(lia)) as (r & sk' & R & I' & F' & _ & D). exists r, sk'. split; [done|]. split; [done|]. split; [done|].
    destruct D as [D|[-> E]]; [by left|right]. split; [done|]. rewrite E. unfold insert_at. by rewrite take_ge, drop_ge by lia.
  - intros whr Hw. destruct (delete_flag sk whr I F Hw) as (sk' & R & I' & F' & _ & E). by exists sk'.
  - unfold sk_shift. cbn [sk_num]. destruct (Z.eqb_spec (num sk) 0) as [Z0|NZ].
    + exists sk. destruct (elems sk); [done|cbn [length] in Le; lia].
    + destruct (delete_flag sk 0 I F ltac:(lia)) as (sk' & R & I' & F' & _ & E). exists sk'. rewrite R, E. destruct (elems sk); done.
  - unfold sk_pop. cbn [sk_num]. destruct (Z.eqb_spec (num sk) 0) as [Z0|NZ].
    + exists sk. destruct (elems sk); [done|cbn [length] in Le; lia].
    + rewrite wrap_small by (unfold word_ok; lia). destruct (delete_flag sk (num sk - 1) I F ltac:(lia)) as (sk' & R & I' & F' & _ & E). exists sk'. rewrite R, E.
      destruct (exists_last (l := elems sk)) as (l & x & El); [intros X; rewrite X in Le; cbn [length] in Le; lia|].
      rewrite El in *. rewrite length_app in Le. cbn [length] in Le. replace (Z.to_nat (num sk - 1)) with (length l) by lia.
      rewrite list_lookup_middle, last_snoc, delete_middle, removelast_last, app_nil_r by done. done.
  - destruct (zero_spec sk I) as (sk' & R & I' & C' & E & S). exists sk'. split; [done|]. split; [done|]. split; [|done]. intros Ns. destruct S as [S|S]; [|done].
    unfold sk_zero in R. destruct (Z.eqb_spec (num sk) 0) as [Z0|NZ]; [injection R as <-; by apply F|]. rewrite S in Le. cbn [length] in Le. lia.
  - destruct (sort_spec sk I F) as (sk' & R & I' & C' & F' & P & S). exists sk'. split; [done|]. split; [done|]. split; [done|]. split; [done|].
    intros C. rewrite <- C'. by apply F', S.
  - destruct (dup_spec sk I) as [?|(sk' & R & I' & C' & S & E & _)]; [by left|right]. exists sk'. split; [done|]. split; [done|]. split; [|done].
    apply (flag_same sk); [done|done|by left|done].
  - intros i Hi. unfold sk_value. destruct (Z.leb_spec (num sk) i); [by rewrite lookup_ge_None_2 by lia|].
    destruct (elems_get sk i I ltac:(lia)) as (x & G & E). by rewrite G, E.
Qed.

(** [sk_delete_ptr] and [sk_set] on the list; [sk_set] leaves the flag as it is. *)
Theorem sk_delete_ptr_set (sk : stack_st) (p i : Z) (I : stack_ok sk) (Hi : 0 <= i) :
  (exists r sk', sk_delete_ptr (Some sk) p = Some (r, Some sk') /\ stack_ok sk' /\
     match first_equal (fun x => x =? p) (elems sk) with
     | Some k => r = p /\ elems sk' = delete (Z.to_nat k) (elems sk)
     | None => r = 0 /\ sk' = sk
     end) /\
  exists sk', sk_set (Some sk) i p = Some (if num sk <=? i then 0 else p, Some sk') /\ stack_ok sk' /\ sorted sk' = sorted sk /\ elems sk' = <[Z.to_nat i := p]> (elems sk).
Proof.
  split.
  - destruct (delete_ptr_spec sk p I) as (r & sk' & R & I' & _ & _ & E). by exists r, sk'.
  - destruct (set_spec sk i p I Hi) as (sk' & R & I' & _ & S & E). by exists sk'.
Qed.
End Facts.

(** ** An example: numbers *)

Definition number_cmp (_ x y : Z) : Z := x - y.
Definition number_alloc (n : Z) : option (list Z) := if n <? 0 then None else Some (repeat 7 (Z.to_nat (n / 8))).

(** Insertion sort *)
Fixpoint insert_sorted (f : Z -> Z -> Z) (x : Z) (l : list Z) : list Z :=
  match l with
  | [] => [x]
  | y :: l' => if f x y <=? 0 then x :: l else y :: insert_sorted f x l'
  end.

Definition number_qsort (f : Z -> Z -> Z) (l : list Z) : list Z := foldr (insert_sorted f) [] l.

Lemma number_alloc_size n b : number_alloc n = Some b -> Z.of_nat (length b) = n / 8.
Proof. unfold number_alloc. destruct (Z.ltb_spec n 0); [done|]. intros [= <-]. rewrite repeat_length. pose proof (Z.div_pos n 8). lia. Qed.

Lemma number_cmp_total c : c <> 0 -> total_cmp (number_cmp c).
Proof. intros _. unfold number_cmp. split; lia. Qed.

Lemma insert_sorted_perm f x l : insert_sorted f x l ≡ₚ x :: l.
Proof. induction l as [|y l IH]; [done|]. cbn [insert_sorted]. destruct (_ <=? _); [done|]. rewrite IH. by constructor. Qed.

Lemma insert_sorted_sorted f x l : total_cmp f -> StronglySorted (fun x y => f x y <= 0) l -> StronglySorted (fun x y => f x y <= 0) (insert_sorted f x l).
Proof.
  intros T S. induction S as [|y l S IH Fy]; [repeat constructor|]. cbn [insert_sorted]. destruct (Z.leb_spec (f x y) 0) as [L|L].
  - constructor; [by constructor|]. constructor; [done|]. rewrite Forall_forall in Fy |- *. intros z Hz. by apply (cmp_trans _ T x y z L), Fy.
  - constructor; [done|]. rewrite insert_sorted_perm. constructor; [|done]. pose proof (cmp_flip _ T x y). lia.
Qed.

Lemma number_qsort_ok : qsort_ok number_qsort.
Proof.
  intros f l. split.
  - induction l as [|x l IH]; [done|]. cbn [number_qsort foldr]. rewrite insert_sorted_perm. by constructor.
  - intros T. induction l as [|x l IH]; [constructor|]. cbn [number_qsort foldr]. by apply insert_sorted_sorted.
Qed.

(** A sorted stack of 1, 2, 2, 9 *)
Definition numbers : stack_st := mk_stack 4 [1; 2; 2; 9; 7; 7; 7; 7] 1 8 5.

Lemma numbers_ok : stack_ok numbers /\ flag_ok number_cmp numbers.
Proof. split; [split; cbn; lia|]. intros _. split; [done|]. change (elems numbers) with [1; 2; 2; 9]. unfold number_cmp.
  repeat first [apply SSorted_nil|apply SSorted_cons|apply Forall_nil_2|apply Forall_cons_2|lia].
Qed.

Lemma sk_find_correct_witness : sk_find number_cmp (Some numbers) 2 = Some (Some 1).
Proof.
  rewrite (sk_find_correct number_cmp number_cmp_total numbers 2 (proj1 numbers_ok) (proj2 numbers_ok)). reflexivity.
Defined.

Lemma stack_refines_list_witness : exists r sk', sk_insert number_alloc (Some numbers) 3 3 = Some (r, Some sk') /\ flag_ok number_cmp sk'.
Proof.
  destruct (stack_refines_list number_alloc number_cmp number_qsort number_alloc_size number_cmp_total number_qsort_ok numbers (proj1 numbers_ok) (proj2 numbers_ok)) as (Ins & _).
  destruct (Ins 3 3 ltac:(discriminate)) as (r & sk' & E & _ & F & _). exists r, sk'. split; [exact E|exact F].
Defined.

Lemma sk_delete_ptr_set_witness : exists sk', sk_set (Some numbers) 0 5 = Some (5, Some sk') /\ elems sk' = [5; 2; 2; 9].
Proof.
  destruct (sk_delete_ptr_set numbers 5 0 (proj1 numbers_ok) ltac:(discriminate)) as (_ & sk' & E & _ & _ & El). exists sk'. split; [exact E|exact El].
Defined.

(** [sk_set] on a sorted stack leaves the flag, and [sk_find] then misses an
    element that is there. *)
Theorem sk_set_breaks_find : exists sk',
  sk_set (Some numbers) 0 5 = Some (5, Some sk') /\ 5 ∈ elems sk' /\ sk_is_sorted (Some sk') = 1 /\ sk_find number_cmp (Some sk') 5 = Some None.
Proof. eexists. split; [vm_compute; reflexivity|]. split; [vm_compute; left|]. split; vm_compute; reflexivity. Qed.
