(* ===== verification/Lhash.v ===== *)
(** * Hash tables ([crypto/lhash/lhash.c])

    A table is an array of chains.  An [LHASH_ITEM] has an address, and the
    memory of the items is a finite map; a pointer to a pointer, with which the
    code finds the place of an item, is a bucket or the [next] of an item.
    The functions are in the option monad: [None] is an access to something
    that is not an item or a bucket, a double free, or a failed assertion.

    The elements are pointers, of which the table knows what [hash] and
    [comp] tell; both are parameters, as are the successes of [OPENSSL_malloc]:
    [alloc_item] gives the address of an item, and [alloc_buckets] says whether
    there is room for an array. *)

From Stdlib Require Import ZArith Lia Bool.
From stdpp Require Import gmap list sorting.
From S2P Require Import Prelude.

#[local] Open Scope Z_scope.

(** ** Definitions *)

Definition kMinNumBuckets : Z := 16.
Definition kMaxAverageChainLength : Z := 2.
Definition kMinAverageChainLength : Z := 1.

(** [UINT_MAX], where [callback_depth] saturates *)
Definition MAX_DEPTH : Z := 2 ^ 32 - 1.

Abbreviation addr := positive.

Record LHASH_ITEM := mk_item { data : Z; next : option addr; hash : Z }.

Definition with_next (n : option addr) (it : LHASH_ITEM) : LHASH_ITEM := mk_item (data it) n (hash it).
Definition with_data (x : Z) (it : LHASH_ITEM) : LHASH_ITEM := mk_item x (next it) (hash it).

(** [lhash_st] and the memory of the items *)
Record lhash_st := mk_lhash {
  num_items : Z;
  buckets : list (option addr);
  num_buckets : Z;
  callback_depth : Z;
  items : gmap addr LHASH_ITEM
}.

Definition with_buckets (bs : list (option addr)) (lh : lhash_st) : lhash_st :=
  mk_lhash (num_items lh) bs (num_buckets lh) (callback_depth lh) (items lh).
Definition with_items (its : gmap addr LHASH_ITEM) (lh : lhash_st) : lhash_st :=
  mk_lhash (num_items lh) (buckets lh) (num_buckets lh) (callback_depth lh) its.
Definition with_num_items (n : Z) (lh : lhash_st) : lhash_st :=
  mk_lhash n (buckets lh) (num_buckets lh) (callback_depth lh) (items lh).
Definition with_depth (n : Z) (lh : lhash_st) : lhash_st :=
  mk_lhash (num_items lh) (buckets lh) (num_buckets lh) n (items lh).

(** An [LHASH_ITEM **] *)
Variant ptr := Bucket (i : nat) | Next (a : addr).

Definition deref (lh : lhash_st) (p : ptr) : option (option addr) :=
  match p with
  | Bucket i => buckets lh !! i
  | Next a => next <$> items lh !! a
  end.

Definition assign (p : ptr) (v : option addr) (lh : lhash_st) : option lhash_st :=
  match p with
  | Bucket i => _ ← buckets lh !! i; Some (with_buckets (<[i := v]> (buckets lh)) lh)
  | Next a => it ← items lh !! a; Some (with_items (<[a := with_next v it]> (items lh)) lh)
  end.

(** The loop of [get_next_ptr_and_hash] and [get_next_ptr_by_key]; [equal] is
    the comparison with what is looked for. *)
Fixpoint find_ptr (fuel : nat) (equal : Z -> bool) (lh : lhash_st) (ret : ptr) : option ptr :=
  match fuel with
  | O => None
  | S fuel =>
      cur ← deref lh ret;
      match cur with
      | None => Some ret
      | Some a =>
          it ← items lh !! a;
          if equal (data it) then Some ret else find_ptr fuel equal lh (Next a)
      end
  end.

(** [sizeof(_LHASH)] with eight-byte pointers. *)
Definition sizeof_LHASH : Z := 48.

Section Table.
Context (hash_func : Z -> Z) (comp : Z -> Z -> Z).
Context (alloc_item : gmap addr LHASH_ITEM -> option addr) (alloc_buckets : Z -> bool).

Definition OPENSSL_lh_new : option lhash_st :=
  if negb (alloc_buckets sizeof_LHASH) then None
  else if negb (alloc_buckets (8 * kMinNumBuckets)) then None
  else Some (mk_lhash 0 (repeat None (Z.to_nat kMinNumBuckets)) kMinNumBuckets 0 ∅).

Definition OPENSSL_lh_num_items (lh : lhash_st) : Z := num_items lh.

Definition get_next_ptr (equal : Z -> bool) (h : Z) (lh : lhash_st) : option ptr :=
  find_ptr (S (size (items lh))) equal lh (Bucket (Z.to_nat (h mod num_buckets lh))).

Definition get_next_ptr_and_hash (lh : lhash_st) (x : Z) : option (Z * ptr) :=
  let h := hash_func x in
  p ← get_next_ptr (fun y => comp y x =? 0) h lh;
  Some (h, p).

Definition get_next_ptr_by_key (lh : lhash_st) (key key_hash : Z) (cmp_key : Z -> Z -> Z) : option ptr :=
  get_next_ptr (fun y => cmp_key key y =? 0) key_hash lh.

(** [*next_ptr == NULL ? NULL : ( *next_ptr)->data] *)
Definition data_at (lh : lhash_st) (p : ptr) : option Z :=
  cur ← deref lh p;
  match cur with
  | None => Some 0
  | Some a => data <$> items lh !! a
  end.

Definition OPENSSL_lh_retrieve (lh : lhash_st) (x : Z) : option Z :=
  r ← get_next_ptr_and_hash lh x; data_at lh (snd r).

Definition OPENSSL_lh_retrieve_key (lh : lhash_st) (key key_hash : Z) (cmp_key : Z -> Z -> Z) : option Z :=
  p ← get_next_ptr_by_key lh key key_hash cmp_key; data_at lh p.

(** The inner loop of [lh_rebucket]: a chain moves to the new array. *)
Fixpoint move_chain (fuel : nat) (cur : option addr) (new_num_buckets : Z) (new_buckets : list (option addr)) (its : gmap addr LHASH_ITEM)
  : option (list (option addr) * gmap addr LHASH_ITEM) :=
  match cur with
  | None => Some (new_buckets, its)
  | Some a =>
      match fuel with
      | O => None
      | S fuel =>
          it ← its !! a;
          let new_bucket := Z.to_nat (hash it mod new_num_buckets) in
          b ← new_buckets !! new_bucket;
          move_chain fuel (next it) new_num_buckets (<[new_bucket := Some a]> new_buckets) (<[a := with_next b it]> its)
      end
  end.

Fixpoint move_chains (bs : list (option addr)) (new_num_buckets : Z) (new_buckets : list (option addr)) (its : gmap addr LHASH_ITEM)
  : option (list (option addr) * gmap addr LHASH_ITEM) :=
  match bs with
  | [] => Some (new_buckets, its)
  | b :: bs =>
      r ← move_chain (size its) b new_num_buckets new_buckets its;
      move_chains bs new_num_buckets (fst r) (snd r)
  end.

Definition lh_rebucket (lh : lhash_st) (new_num_buckets : Z) : option lhash_st :=
  let alloc_size := size_t (8 * new_num_buckets) in
  if negb (alloc_size / 8 =? new_num_buckets) then Some lh
  else if negb (alloc_buckets alloc_size) then Some lh
  else
    r ← move_chains (buckets lh) new_num_buckets (repeat None (Z.to_nat new_num_buckets)) (items lh);
    Some (mk_lhash (num_items lh) (fst r) new_num_buckets (callback_depth lh) (snd r)).

Definition lh_maybe_resize (lh : lhash_st) : option lhash_st :=
  if 0 <? callback_depth lh then Some lh
  else if num_buckets lh <? kMinNumBuckets then None
  else
    let avg_chain_length := num_items lh / num_buckets lh in
    if kMaxAverageChainLength <? avg_chain_length then
      let new_num_buckets := size_t (num_buckets lh * 2) in
      if num_buckets lh <? new_num_buckets then lh_rebucket lh new_num_buckets else Some lh
    else if (avg_chain_length <? kMinAverageChainLength) && (kMinNumBuckets <? num_buckets lh) then
      let new_num_buckets := num_buckets lh / 2 in
      let new_num_buckets := if new_num_buckets <? kMinNumBuckets then kMinNumBuckets else new_num_buckets in
      lh_rebucket lh new_num_buckets
    else Some lh.

(** The result, the old element and the table *)
Definition OPENSSL_lh_insert (lh : lhash_st) (x : Z) : option (Z * Z * lhash_st) :=
  r ← get_next_ptr_and_hash lh x;
  let (h, next_ptr) := (r : Z * ptr) in
  cur ← deref lh next_ptr;
  match cur with
  | Some a =>
      it ← items lh !! a;
      Some (1, data it, with_items (<[a := with_data x it]> (items lh)) lh)
  | None =>
      match alloc_item (items lh) with
      | None => Some (0, 0, lh)
      | Some a =>
          let lh := with_items (<[a := mk_item x None h]> (items lh)) lh in
          lh ← assign next_ptr (Some a) lh;
          lh ← lh_maybe_resize (with_num_items (size_t (num_items lh + 1)) lh);
          Some (1, 0, lh)
      end
  end.

Definition OPENSSL_lh_delete (lh : lhash_st) (x : Z) : option (Z * lhash_st) :=
  r ← get_next_ptr_and_hash lh x;
  let (_, next_ptr) := (r : Z * ptr) in
  cur ← deref lh next_ptr;
  match cur with
  | None => Some (0, lh)
  | Some a =>
      it ← items lh !! a;
      lh ← assign next_ptr (next it) lh;
      let ret := data it in
      let lh := with_items (delete a (items lh)) lh in
      lh ← lh_maybe_resize (with_num_items (size_t (num_items lh - 1)) lh);
      Some (ret, lh)
  end.

(** [func data arg] is the effect of the callback on the table. *)
Fixpoint doall_chain (func : Z -> lhash_st -> option lhash_st) (fuel : nat) (cur : option addr) (lh : lhash_st) : option (list Z * lhash_st) :=
  match cur with
  | None => Some ([], lh)
  | Some a =>
      match fuel with
      | O => None
      | S fuel =>
          it ← items lh !! a;
          lh ← func (data it) lh;
          r ← doall_chain func fuel (next it) lh;
          Some (data it :: fst r, snd r)
      end
  end.

Fixpoint doall_buckets (func : Z -> lhash_st -> option lhash_st) (rounds fuel : nat) (i : Z) (lh : lhash_st) : option (list Z * lhash_st) :=
  if i <? num_buckets lh then
    match rounds with
    | O => None
    | S rounds =>
        b ← buckets lh !! Z.to_nat i;
        r ← doall_chain func fuel b lh;
        s ← doall_buckets func rounds fuel (i + 1) (snd r);
        Some (fst r ++ fst s, snd s)
    end
  else Some ([], lh).

(** The elements passed to the callback are returned. *)
Definition OPENSSL_lh_doall_arg (func : Z -> lhash_st -> option lhash_st) (rounds fuel : nat) (lh : lhash_st) : option (list Z * lhash_st) :=
  let lh := if callback_depth lh <? MAX_DEPTH then with_depth (callback_depth lh + 1) lh else lh in
  r ← doall_buckets func rounds fuel 0 lh;
  let (seen, lh) := (r : list Z * lhash_st) in
  let lh := if callback_depth lh <? MAX_DEPTH then with_depth (callback_depth lh - 1) lh else lh in
  lh ← lh_maybe_resize lh;
  Some (seen, lh).

(** The memory of the items that is left *)
Fixpoint free_chain (fuel : nat) (n : option addr) (its : gmap addr LHASH_ITEM) : option (gmap addr LHASH_ITEM) :=
  match n with
  | None => Some its
  | Some a =>
      match fuel with
      | O => None
      | S fuel => it ← its !! a; free_chain fuel (next it) (delete a its)
      end
  end.

Fixpoint free_chains (bs : list (option addr)) (its : gmap addr LHASH_ITEM) : option (gmap addr LHASH_ITEM) :=
  match bs with
  | [] => Some its
  | b :: bs => its ← free_chain (size its) b its; free_chains bs its
  end.

Definition OPENSSL_lh_free (lh : option lhash_st) : option (gmap addr LHASH_ITEM) :=
  match lh with
  | None => Some ∅
  | Some lh => free_chains (buckets lh) (items lh)
  end.
End Table.

(** ** Chains *)

(** [l] are the items from [p] on. *)
Fixpoint chain (its : gmap addr LHASH_ITEM) (p : option addr) (l : list addr) : Prop :=
  match l with
  | [] => p = None
  | a :: l => p = Some a /\ exists it, its !! a = Some it /\ chain its (next it) l
  end.

(** What the table holds: data and hash values, whatever the chains are *)
Definition content (its : gmap addr LHASH_ITEM) : gmap addr (Z * Z) := (fun it => (data it, hash it)) <$> its.

Lemma content_lookup its a x h : content its !! a = Some (x, h) <-> exists n, its !! a = Some (mk_item x n h).
Proof.
  unfold content. rewrite lookup_fmap, fmap_Some. split.
  - intros ([x' n h'] & E & [= -> ->]). by exists n.
  - intros [n E]. by exists (mk_item x n h).
Qed.

Lemma content_next its a it v : its !! a = Some it -> content (<[a := with_next v it]> its) = content its.
Proof.
  intros E. unfold content. rewrite fmap_insert. apply insert_id. by rewrite lookup_fmap, E.
Qed.

Lemma content_dom its : dom (content its) = dom its.
Proof. apply dom_fmap_L. Qed.

Lemma items_frame its its' l : forall p, (forall a, a ∈ l -> its' !! a = its !! a) -> chain its p l -> chain its' p l.
Proof.
  induction l as [|a l IH]; intros p F C; [done|]. destruct C as (-> & it & E & C). split; [done|]. exists it.
  split; [rewrite F; [done|left]|]. apply IH; [intros b Hb; apply F; by right|done].
Qed.

Lemma chains_frame its its' bs cs : (forall a, a ∈ concat cs -> its' !! a = its !! a) -> Forall2 (chain its) bs cs -> Forall2 (chain its') bs cs.
Proof.
  intros F C. induction C as [|b c bs cs Cb C IH]; [constructor|]. cbn [concat] in F. constructor.
  - apply (items_frame its); [intros a Ha; apply F, elem_of_app; by left|done].
  - apply IH. intros a Ha. apply F, elem_of_app. by right.
Qed.

Lemma chain_dom its l : forall p a, chain its p l -> a ∈ l -> a ∈ dom its.
Proof.
  induction l as [|b l IH]; intros p a C Ha; [by apply elem_of_nil in Ha|]. destruct C as (_ & it & E & C).
  apply elem_of_cons in Ha as [->|Ha]; [by apply elem_of_dom_2 in E|by apply (IH (next it))].
Qed.

(** A chain is not longer than the memory. *)
Lemma chain_length its l p : chain its p l -> NoDup l -> (length l <= size its)%nat.
Proof.
  intros C N. rewrite <- size_dom, <- (size_list_to_set (C := gset addr) l N). apply subseteq_size. intros a Ha%elem_of_list_to_set. by apply (chain_dom its l p).
Qed.

(** The [next] of [b] is set to [v]. *)
Lemma items_relink its b it v l2 l3 l1 : forall p, chain its p (l1 ++ b :: l2) -> its !! b = Some it -> b ∉ l1 -> b ∉ l3 -> chain its v l3 ->
  chain (<[b := with_next v it]> its) p (l1 ++ b :: l3).
Proof.
  induction l1 as [|a l1 IH]; intros p C E N1 N3 C3; cbn [app] in *.
  - destruct C as (-> & _). split; [done|]. exists (with_next v it). rewrite lookup_insert_eq. split; [done|]. cbn [next with_next].
    apply (items_frame its); [|done]. intros x Hx. rewrite lookup_insert_ne; [done|]. by intros ->.
  - destruct C as (-> & ia & Ea & C). split; [done|]. exists ia. rewrite elem_of_cons in N1.
    rewrite lookup_insert_ne by (intros ->; apply N1; by left). split; [done|]. apply IH; [done..| |done|done]. intros ?. apply N1. by right.
Qed.

Lemma concat_insert {A} (cs : list (list A)) i (c c' : list A) : cs !! i = Some c ->
  exists r, concat cs ≡ₚ c ++ r /\ concat (<[i := c']> cs) ≡ₚ c' ++ r /\ forall j d, j <> i -> cs !! j = Some d -> forall x, x ∈ d -> x ∈ r.
Proof.
  revert i. induction cs as [|d cs IH]; intros [|i] E; [done..| |]; cbn [lookup list_lookup] in E.
  - injection E as ->. exists (concat cs). split; [done|]. split; [done|]. intros [|j] d N Ej x Hx; [done|]. cbn in Ej.
    apply list_elem_of_In, in_concat. exists d. split; [|by apply list_elem_of_In]. apply list_elem_of_In. by apply list_elem_of_lookup_2 in Ej.
  - destruct (IH i E) as (r & E1 & E2 & M). exists (d ++ r). cbn [concat]. split; [rewrite E1; solve_Permutation|]. split.
    + change (<[S i := c']> (d :: cs)) with (d :: <[i := c']> cs). cbn [concat]. rewrite E2. solve_Permutation.
    + intros [|j] d' N Ej x Hx; cbn in Ej; apply elem_of_app; [injection Ej as ->; by left|right]. apply (M j d'); [congruence|done..].
Qed.

(** The place after [l1] in the chain of bucket [i] *)
Definition place (i : nat) (l1 : list addr) : ptr := match last l1 with Some b => Next b | None => Bucket i end.

Lemma find_ptr_spec (equal : Z -> bool) lh i l : forall fuel l1 p, deref lh (place i l1) = Some p -> chain (items lh) p l -> (length l < fuel)%nat ->
  exists l2 l3 q, l = l2 ++ l3 /\ find_ptr fuel equal lh (place i l1) = Some (place i (l1 ++ l2)) /\
    deref lh (place i (l1 ++ l2)) = Some q /\ chain (items lh) q l3 /\
    (forall a it, a ∈ l2 -> items lh !! a = Some it -> equal (data it) = false) /\
    (forall a l4 it, l3 = a :: l4 -> items lh !! a = Some it -> equal (data it) = true).
Proof.
  induction l as [|a l IH]; intros fuel l1 p D C F; (destruct fuel as [|fuel]; [cbn [length] in F; lia|]); cbn [find_ptr]; rewrite D; cbn [mbind option_bind].
  - cbn [chain] in C. subst p. exists [], [], None. rewrite !app_nil_r. split; [done|]. split; [done|]. split; [done|]. split; [done|].
    split; [by intros a it ?%elem_of_nil|done].
  - destruct C as (-> & it & E & C). rewrite E. cbn [mbind option_bind]. destruct (equal (data it)) eqn:Q.
    + exists [], (a :: l), (Some a). rewrite app_nil_r. split; [done|]. split; [done|]. split; [done|]. split; [split; [done|by exists it]|].
      split; [by intros b ib ?%elem_of_nil|]. intros b l4 ib [= <- <-] Eb. congruence.
    + assert (P : place i (l1 ++ [a]) = Next a) by (unfold place; by rewrite last_snoc).
      destruct (IH fuel (l1 ++ [a]) (next it)) as (l2 & l3 & q & -> & R & Dq & Cq & N & Y); [by rewrite P; cbn [deref]; rewrite E|done|cbn [length] in F; lia|].
      rewrite P in R. rewrite <- app_assoc in R, Dq. exists (a :: l2), l3, q. split; [done|]. split; [done|]. split; [done|]. split; [done|].
      split; [|done]. intros b ib [->|Hb]%elem_of_cons Eb; [congruence|by apply (N b)].
Qed.

Lemma nodup_parts {A} (cs : list (list A)) c r : NoDup (concat cs) -> concat cs ≡ₚ c ++ r -> NoDup c /\ NoDup r /\ forall x, x ∈ c -> x ∉ r.
Proof. intros N P. rewrite P in N. apply NoDup_app in N as (N1 & D & N2). done. Qed.

(** The chain of bucket [i] is cut after [l1] and goes on with [l3]. *)
Lemma splice_spec lh cs i l1 l2 l3 v : Forall2 (chain (items lh)) (buckets lh) cs -> NoDup (concat cs) -> cs !! i = Some (l1 ++ l2) ->
  chain (items lh) v l3 -> (forall a, a ∈ l3 -> a ∈ l2 \/ a ∉ concat cs) ->
  exists bs its, assign (place i l1) v lh = Some (mk_lhash (num_items lh) bs (num_buckets lh) (callback_depth lh) its) /\
    Forall2 (chain its) bs (<[i := l1 ++ l3]> cs) /\ content its = content (items lh) /\ length bs = length (buckets lh).
Proof.
  intros C N Ei C3 Sub. destruct (concat_insert cs i _ (l1 ++ l3) Ei) as (r & P & _ & Other). destruct (nodup_parts cs _ _ N P) as (Nc & _ & Dj).
  pose proof (proj1 (Forall2_lookup _ _ _) C) as CL. pose proof (CL i) as Ci. rewrite Ei in Ci. inversion Ci as [p l Cp Eb|]; subst. symmetry in Eb.
  assert (Li : (i < length (buckets lh))%nat) by (by apply lookup_lt_Some in Eb). assert (Lc : (i < length cs)%nat) by (by apply lookup_lt_Some in Ei).
  destruct l1 as [|b l1' _] using rev_ind.
  - exists (<[i := v]> (buckets lh)), (items lh). cbn [place last assign]. rewrite Eb. cbn [mbind option_bind app]. split; [done|].
    split; [by apply Forall2_insert|]. split; [done|]. apply length_insert.
  - unfold place. rewrite last_snoc. cbn [assign]. rewrite <- app_assoc in Cp, Nc, Ei. cbn [app] in Cp, Nc, Ei.
    assert (Hb : b ∈ dom (items lh)) by (apply (chain_dom _ (l1' ++ b :: l2) p); [done|apply elem_of_app; right; left]).
    apply elem_of_dom in Hb as [it E]. rewrite E. cbn [mbind option_bind].
    exists (buckets lh), (<[b := with_next v it]> (items lh)). split; [done|].
    apply NoDup_app in Nc as (_ & D1 & Nc). apply NoDup_cons in Nc as [D2 _].
    assert (B1 : b ∉ l1') by (intros X; apply (D1 b X); left).
    assert (Bc : b ∈ concat cs) by (rewrite P; apply elem_of_app; left; rewrite <- app_assoc; apply elem_of_app; right; left).
    assert (B3 : b ∉ l3) by (intros X; destruct (Sub b X); done).
    assert (Br : b ∉ r) by (apply Dj; rewrite <- app_assoc; apply elem_of_app; right; left).
    split; [|split; [by apply content_next|done]]. apply Forall2_lookup. intros j. destruct (decide (j = i)) as [->|Nj].
    + rewrite list_lookup_insert_eq, Eb by done. constructor. rewrite <- app_assoc. by apply (items_relink _ _ _ _ l2).
    + rewrite list_lookup_insert_ne by done. specialize (CL j). inversion CL as [q m Cq E1 E2|]; [|constructor]. constructor.
      apply (items_frame (items lh)); [|done]. intros a Ha. rewrite lookup_insert_ne; [done|]. intros ->. apply Br. by apply (Other j m).
Qed.

(** ** Tables *)

(** Where items belong *)
Definition placed (n : Z) (C : gmap addr (Z * Z)) (cs : list (list addr)) : Prop :=
  forall i c a x h, cs !! i = Some c -> a ∈ c -> C !! a = Some (x, h) -> Z.to_nat (h mod n) = i.

Lemma concat_lookup {A} (cs : list (list A)) a : a ∈ concat cs <-> exists i c, cs !! i = Some c /\ a ∈ c.
Proof.
  rewrite list_elem_of_In, in_concat. split.
  - intros (c & Hc & Ha). apply list_elem_of_In in Ha. apply list_elem_of_In, list_elem_of_lookup in Hc as [i Hi]. by exists i, c.
  - intros (i & c & Hi & Ha). exists c. split; [apply list_elem_of_In; by apply list_elem_of_lookup_2 in Hi|by apply list_elem_of_In].
Qed.

(** The buckets, the items and the count belong together; [cs] are the
    chains. *)
Record table_ok (lh : lhash_st) (cs : list (list addr)) : Prop := {
  ok_chains : Forall2 (chain (items lh)) (buckets lh) cs;
  ok_nodup : NoDup (concat cs);
  ok_dom : forall a, a ∈ dom (items lh) <-> a ∈ concat cs;
  ok_length : Z.of_nat (length (buckets lh)) = num_buckets lh;
  ok_min : kMinNumBuckets <= num_buckets lh /\ 8 * num_buckets lh < 2 ^ 64;
  ok_count : num_items lh = Z.of_nat (size (items lh));
  ok_word : word_ok 64 (num_items lh);
  ok_placed : placed (num_buckets lh) (content (items lh)) cs;
  ok_depth : word_ok 32 (callback_depth lh)
}.

(** *** Moving to another array *)

Lemma move_chain_spec n (Hn : 0 < n) C l : forall fuel cur nb its ncs rest rcs,
  chain its cur l -> Forall2 (chain its) nb ncs -> Forall2 (chain its) rest rcs -> NoDup (l ++ concat ncs ++ concat rcs) ->
  Z.of_nat (length nb) = n -> (length l <= fuel)%nat -> content its = C -> placed n C ncs ->
  exists nb' its' ncs', move_chain fuel cur n nb its = Some (nb', its') /\ Forall2 (chain its') nb' ncs' /\ Forall2 (chain its') rest rcs /\
    content its' = C /\ concat ncs' ≡ₚ l ++ concat ncs /\ placed n C ncs' /\ Z.of_nat (length nb') = n.
Proof.
  induction l as [|a l IH]; intros fuel cur nb its ncs rest rcs Cc Cn Cr N Ln Fu Ct Pl; cbn [chain] in Cc.
  - subst cur. exists nb, its, ncs. destruct fuel; done.
  - destruct Cc as (-> & it & E & Cc). destruct fuel as [|fuel]; [cbn [length] in Fu; lia|]. cbn [move_chain]. rewrite E. cbn [mbind option_bind].
    set (j := Z.to_nat (hash it mod n)). pose proof (Z.mod_pos_bound (hash it) n Hn) as Hm. assert (Lj : (j < length nb)%nat) by (unfold j; lia).
    pose proof (Forall2_length _ _ _ Cn) as Len. destruct (lookup_lt_is_Some_2 nb j Lj) as [b Eb]. rewrite Eb. cbn [mbind option_bind].
    destruct (lookup_lt_is_Some_2 ncs j ltac:(lia)) as [c Ec]. pose proof (Forall2_lookup_lr _ _ _ _ _ _ Cn Eb Ec) as Cb.
    cbn [app] in N. apply NoDup_cons in N as [Na N]. rewrite !elem_of_app in Na. set (its1 := <[a := with_next b it]> its).
    assert (Fr : forall m : list addr, a ∉ m -> forall x, x ∈ m -> its1 !! x = its !! x) by (intros m Hm' x Hx; apply lookup_insert_ne; by intros ->).
    assert (Ac : a ∉ c) by (intros X; apply Na; right; left; apply concat_lookup; by exists j, c).
    assert (Cn1 : Forall2 (chain its1) (<[j := Some a]> nb) (<[j := a :: c]> ncs)).
    { apply Forall2_insert; [apply (chains_frame its); [apply Fr; tauto|done]|]. split; [done|]. exists (with_next b it). split; [apply lookup_insert_eq|].
      cbn [next with_next]. apply (items_frame its); [by apply Fr|done]. }
    destruct (concat_insert ncs j c (a :: c) Ec) as (r & P1 & P2 & _).
    assert (P : concat (<[j := a :: c]> ncs) ≡ₚ a :: concat ncs) by (rewrite P1, P2; done).
    destruct (IH fuel (next it) (<[j := Some a]> nb) its1 (<[j := a :: c]> ncs) rest rcs) as (nb' & its' & ncs' & R & C1 & C2 & C3 & C4 & C5 & C6).
    + apply (items_frame its); [apply Fr; tauto|done].
    + done.
    + apply (chains_frame its); [apply Fr; tauto|done].
    + rewrite P. cbn [app]. rewrite <- Permutation_middle. constructor; [rewrite !elem_of_app; tauto|done].
    + by rewrite length_insert.
    + cbn [length] in Fu. lia.
    + unfold its1. by rewrite (content_next _ _ _ _ E).
    + intros i d x y h Ei Hx Ex. destruct (decide (i = j)) as [->|Ni].
      * rewrite list_lookup_insert_eq in Ei by lia. injection Ei as <-. apply elem_of_cons in Hx as [->|Hx]; [|by apply (Pl j c x y h)].
        rewrite <- Ct in Ex. apply content_lookup in Ex as [nx Ex]. rewrite E in Ex. injection Ex as ->. done.
      * rewrite list_lookup_insert_ne in Ei by done. by apply (Pl i d x y h).
    + exists nb', its', ncs'. split; [done|]. split; [done|]. split; [done|]. split; [done|]. split; [|done]. rewrite C4, P. cbn [app]. by rewrite <- Permutation_middle.
Qed.

Lemma move_chains_spec n (Hn : 0 < n) C bs : forall cs nb its ncs, Forall2 (chain its) bs cs -> Forall2 (chain its) nb ncs ->
  NoDup (concat cs ++ concat ncs) -> Z.of_nat (length nb) = n -> content its = C -> placed n C ncs ->
  exists nb' its' ncs', move_chains bs n nb its = Some (nb', its') /\ Forall2 (chain its') nb' ncs' /\
    content its' = C /\ concat ncs' ≡ₚ concat cs ++ concat ncs /\ placed n C ncs' /\ Z.of_nat (length nb') = n.
Proof.
  induction bs as [|b bs IH]; intros cs nb its ncs Cb Cn N Ln Ct Pl; inversion Cb as [|? c ? cs' Cb1 Cb2]; subst; cbn [move_chains concat] in *.
  - exists nb, its, ncs. done.
  - assert (N' : NoDup (c ++ concat ncs ++ concat cs')) by (rewrite (Permutation_app_comm (concat ncs)), app_assoc; exact N).
    pose proof (chain_length its c b Cb1 (proj1 (proj1 (NoDup_app _ _) N'))) as L.
    destruct (move_chain_spec _ Hn _ c (size its) b nb its ncs bs cs' Cb1 Cn Cb2 N' eq_refl L eq_refl Pl) as (nb1 & its1 & ncs1 & R & C1 & C2 & C3 & P1 & Pl1 & L1).
    rewrite R. cbn [mbind option_bind fst snd].
    destruct (IH cs' nb1 its1 ncs1 C2 C1) as (nb' & its' & ncs' & R' & D1 & D2 & D3 & D4 & D5); try done.
    + by rewrite P1, (Permutation_app_comm (concat cs')), <- app_assoc.
    + exists nb', its', ncs'. split; [done|]. split; [done|]. split; [done|]. split; [|done]. rewrite D3, P1. solve_Permutation.
Qed.

Lemma repeat_chains its n : Forall2 (chain its) (repeat None n) (repeat [] n).
Proof. induction n; by constructor. Qed.

Lemma concat_repeat_nil {A} n : concat (repeat (@nil A) n) = [].
Proof. by induction n. Qed.

Section Operations.
Context (hash_func : Z -> Z) (comp : Z -> Z -> Z).
Context (alloc_item : gmap addr LHASH_ITEM -> option addr) (alloc_buckets : Z -> bool).

(** Resizing leaves the content, and fails only by doing nothing. *)
Definition resized (lh lh' : lhash_st) : Prop :=
  (exists cs, table_ok lh' cs) /\ content (items lh') = content (items lh) /\ callback_depth lh' = callback_depth lh.

Lemma resized_refl lh cs : table_ok lh cs -> resized lh lh.
Proof. intros I. split; [by exists cs|done]. Qed.

Lemma same_size its its' : content its' = content its -> size its' = size its.
Proof. intros E. by rewrite <- !size_dom, <- !content_dom, E. Qed.

Lemma rebucket_spec lh cs n : table_ok lh cs -> kMinNumBuckets <= n -> exists lh', lh_rebucket alloc_buckets lh n = Some lh' /\ resized lh lh'.
Proof.
  intros I Hn. unfold lh_rebucket. unfold kMinNumBuckets in Hn.
  destruct (Z.eqb_spec (size_t (8 * n) / 8) n) as [E|E]; cbn [negb]; [|exists lh; split; [done|by eapply resized_refl]].
  destruct (alloc_buckets _); cbn [negb]; [|exists lh; split; [done|by eapply resized_refl]].
  assert (B : 8 * n < 2 ^ 64).
  { assert (size_t (8 * n) / 8 < 2 ^ 61) by (apply Z.div_lt_upper_bound; [done|]; apply Z.mod_pos_bound; done). lia. }
  destruct (move_chains_spec n ltac:(lia) (content (items lh)) (buckets lh) cs (repeat None (Z.to_nat n)) (items lh) (repeat [] (Z.to_nat n)) (ok_chains _ _ I) (repeat_chains _ _))
    as (nb & its & ncs & R & C1 & C2 & C3 & C4 & C5).
  - rewrite concat_repeat_nil, app_nil_r. exact (ok_nodup _ _ I).
  - rewrite repeat_length. lia.
  - reflexivity.
  - intros i c a x h E1 E2. apply list_elem_of_lookup_2, list_elem_of_In, repeat_spec in E1. subst c. by apply elem_of_nil in E2.
  - rewrite R. cbn [mbind option_bind fst snd]. eexists. split; [done|]. rewrite concat_repeat_nil, app_nil_r in C3.
    split; [|done]. exists ncs. destruct I as [I1 I2 I3 I4 I5 I6 Iw I7 I8]. split; try done; cbn [items buckets num_buckets num_items].
    + by rewrite C3.
    + intros a. rewrite <- content_dom, C2, content_dom, C3. apply I3.
    + by rewrite (same_size (items lh) its).
    + by rewrite C2.
Qed.

Lemma maybe_resize_spec lh cs : table_ok lh cs -> exists lh', lh_maybe_resize alloc_buckets lh = Some lh' /\ resized lh lh'.
Proof.
  intros I. unfold lh_maybe_resize. destruct (ok_min _ _ I) as [M1 M2]. pose proof (resized_refl _ _ I) as Same.
  destruct (0 <? callback_depth lh); [by exists lh|]. destruct (Z.ltb_spec (num_buckets lh) kMinNumBuckets); [lia|].
  unfold kMinNumBuckets in *. destruct (_ <? _).
  - destruct (Z.ltb_spec (num_buckets lh) (size_t (num_buckets lh * 2))) as [L|L]; [|by exists lh]. apply (rebucket_spec lh cs); [done|]. unfold kMinNumBuckets. lia.
  - destruct (_ && _); [|by exists lh]. apply (rebucket_spec lh cs); [done|]. unfold kMinNumBuckets.
    destruct (Z.ltb_spec (num_buckets lh / 2) 16); lia.
Qed.

(** No resizing while the table is iterated over *)
Lemma no_resize lh : 0 < callback_depth lh -> lh_maybe_resize alloc_buckets lh = Some lh.
Proof. intros L. unfold lh_maybe_resize. by rewrite (proj2 (Z.ltb_lt _ _) L). Qed.

Lemma bucket_lookup lh cs h : table_ok lh cs ->
  exists c b, cs !! Z.to_nat (h mod num_buckets lh) = Some c /\ buckets lh !! Z.to_nat (h mod num_buckets lh) = Some b /\ chain (items lh) b c /\ NoDup c.
Proof.
  intros I. destruct (ok_min _ _ I) as [M1 M2]. unfold kMinNumBuckets in M1. pose proof (ok_length _ _ I) as L. pose proof (Forall2_length _ _ _ (ok_chains _ _ I)) as L2.
  pose proof (Z.mod_pos_bound h (num_buckets lh) ltac:(lia)). destruct (lookup_lt_is_Some_2 (buckets lh) (Z.to_nat (h mod num_buckets lh)) ltac:(lia)) as [b Eb].
  destruct (lookup_lt_is_Some_2 cs (Z.to_nat (h mod num_buckets lh)) ltac:(lia)) as [c Ec]. exists c, b. split; [done|]. split; [done|].
  split; [by apply (Forall2_lookup_lr _ _ _ _ _ _ (ok_chains _ _ I) Eb Ec)|]. destruct (concat_insert cs _ c [] Ec) as (r & P & _).
  by destruct (nodup_parts cs c r (ok_nodup _ _ I) P).
Qed.

(** The search stops at the first item of the bucket that is equal. *)
Lemma get_next_ptr_spec (equal : Z -> bool) h lh cs : table_ok lh cs -> exists i l2 l3 q,
  i = Z.to_nat (h mod num_buckets lh) /\ cs !! i = Some (l2 ++ l3) /\ get_next_ptr equal h lh = Some (place i l2) /\
  deref lh (place i l2) = Some q /\ chain (items lh) q l3 /\
  (forall a it, a ∈ l2 -> items lh !! a = Some it -> equal (data it) = false) /\
  (forall a l4 it, l3 = a :: l4 -> items lh !! a = Some it -> equal (data it) = true).
Proof.
  intros I. destruct (bucket_lookup lh cs h I) as (c & b & Ec & Eb & Cb & Nc). set (i := Z.to_nat (h mod num_buckets lh)) in *.
  pose proof (chain_length _ _ _ Cb Nc) as L.
  destruct (find_ptr_spec equal lh i c (S (size (items lh))) [] b Eb Cb ltac:(lia)) as (l2 & l3 & q & -> & R & Dq & Cq & N & Y).
  exists i, l2, l3, q. done.
Qed.
End Operations.

(** ** The elements by their keys

    [comp] and [hash_func] are compatible: elements that compare equal have one
    key, and the hash value depends on the key. *)
Section Keyed.
Context (hash_func : Z -> Z) (comp : Z -> Z -> Z).
Context (alloc_item : gmap addr LHASH_ITEM -> option addr) (alloc_buckets : Z -> bool).
Context {K : Type} `{Countable K} (key : Z -> K).
Context (comp_key : forall x y, comp x y = 0 <-> key x = key y) (hash_key : forall x y, key x = key y -> hash_func x = hash_func y).
Context (alloc_fresh : forall its a, alloc_item its = Some a -> a ∉ dom its).

(** The content is that of the map [M], each element at one address. *)
Record stores (C : gmap addr (Z * Z)) (M : gmap K Z) : Prop := {
  st_map : forall k x, M !! k = Some x <-> key x = k /\ exists a h, C !! a = Some (x, h);
  st_one : forall a b x y h h', C !! a = Some (x, h) -> C !! b = Some (y, h') -> key x = key y -> a = b;
  st_hash : forall a x h, C !! a = Some (x, h) -> h = hash_func x;
  st_size : size C = size M
}.

Lemma stores_none C M a x h k : stores C M -> C !! a = Some (x, h) -> key x = k -> M !! k = None -> False.
Proof. intros I E Ek N. assert (X : M !! k = Some x) by (apply (st_map _ _ I); split; [done|by exists a, h]). congruence. Qed.

Lemma stores_insert C M a x : stores C M -> C !! a = None -> M !! key x = None -> stores (<[a := (x, hash_func x)]> C) (<[key x := x]> M).
Proof.
  intros I Ea Ek. pose proof (fun b y h => stores_none C M b y h (key x) I) as No. destruct I as [I1 I2 I3 I4]. split.
  - intros k y. rewrite lookup_insert. case_decide as D.
    + subst k. split; [intros [= <-]; split; [done|]; exists a, (hash_func x); by rewrite lookup_insert_eq|].
      intros [Ky (b & h & Eb)]. rewrite lookup_insert in Eb. case_decide; [congruence|]. by destruct (No b y h Eb Ky Ek).
    + rewrite I1. split; intros [Ky (b & h & Eb)]; (split; [done|]); exists b, h.
      * rewrite lookup_insert_ne; [done|]. intros <-. congruence.
      * rewrite lookup_insert in Eb. case_decide; [congruence|done].
  - intros b c y z h h'. rewrite !lookup_insert. repeat case_decide; intros E1 E2 Ky; [congruence| | |by eapply I2].
    + injection E1 as <- <-. destruct (No c z h' E2 ltac:(congruence) Ek).
    + injection E2 as <- <-. destruct (No b y h E1 Ky Ek).
  - intros b y h. rewrite lookup_insert. case_decide; [congruence|apply I3].
  - rewrite !map_size_insert_None by done. by rewrite I4.
Qed.

Lemma stores_replace C M a x y h : stores C M -> C !! a = Some (y, h) -> key y = key x -> stores (<[a := (x, h)]> C) (<[key x := x]> M).
Proof.
  intros I Ea Ek. assert (Em : M !! key x = Some y) by (apply (st_map _ _ I); split; [done|by exists a, h]). destruct I as [I1 I2 I3 I4]. split.
  - intros k z. rewrite lookup_insert. case_decide as D.
    + subst k. split; [intros [= <-]; split; [done|]; exists a, h; by rewrite lookup_insert_eq|].
      intros [Kz (b & h' & Eb)]. rewrite lookup_insert in Eb. case_decide as X; [congruence|]. destruct X. apply (I2 a b y z h h'); congruence.
    + rewrite I1. split; intros [Kz (b & h' & Eb)]; (split; [done|]); exists b, h'.
      * rewrite lookup_insert_ne; [done|]. intros <-. congruence.
      * rewrite lookup_insert in Eb. case_decide; [congruence|done].
  - intros b c z w h1 h2. rewrite !lookup_insert. repeat case_decide; intros E1 E2 Kz; [congruence| | |by eapply I2].
    + injection E1 as <- <-. subst b. apply (I2 a c y w h h2); congruence.
    + injection E2 as <- <-. subst c. apply (I2 b a z y h1 h); congruence.
  - intros b z h'. rewrite lookup_insert. case_decide; [|apply I3]. intros [= <- <-]. rewrite (I3 _ _ _ Ea). by apply hash_key.
  - by rewrite (map_size_insert_Some _ _ _ (mk_is_Some _ _ Ea)), (map_size_insert_Some _ _ _ (mk_is_Some _ _ Em)).
Qed.

Lemma stores_delete C M a y h : stores C M -> C !! a = Some (y, h) -> stores (delete a C) (delete (key y) M).
Proof.
  intros I Ea. assert (Em : M !! key y = Some y) by (apply (st_map _ _ I); split; [done|by exists a, h]). destruct I as [I1 I2 I3 I4]. split.
  - intros k z. rewrite lookup_delete. case_decide as D.
    + subst k. split; [done|]. intros [Kz (b & h' & Eb)]. rewrite lookup_delete in Eb. case_decide as X; [done|]. destruct X. by apply (I2 a b y z h h').
    + rewrite I1. split; intros [Kz (b & h' & Eb)]; (split; [done|]); exists b, h'.
      * rewrite lookup_delete_ne; [done|]. intros <-. congruence.
      * rewrite lookup_delete in Eb. by case_decide.
  - intros b c z w h1 h2. rewrite !lookup_delete. repeat case_decide; try done. by apply I2.
  - intros b z h'. rewrite lookup_delete. case_decide; [done|apply I3].
  - by rewrite (map_size_delete_Some _ _ (mk_is_Some _ _ Ea)), (map_size_delete_Some _ _ (mk_is_Some _ _ Em)), I4.
Qed.

(** *** Searching *)

(** What the search for a key finds in the chain of its hash value *)
Lemma lh_search_spec (equal : Z -> bool) h k lh cs M : table_ok lh cs -> stores (content (items lh)) M ->
  (forall y, equal y = true <-> key y = k) -> (forall y, key y = k -> hash_func y = h) ->
  exists i l2 q, get_next_ptr equal h lh = Some (place i l2) /\ deref lh (place i l2) = Some q /\
    match q with
    | None => M !! k = None /\ cs !! i = Some l2 /\ i = Z.to_nat (h mod num_buckets lh)
    | Some a => exists it l4, items lh !! a = Some it /\ key (data it) = k /\ M !! k = Some (data it) /\
        cs !! i = Some (l2 ++ a :: l4) /\ chain (items lh) (next it) l4
    end.
Proof.
  intros I St Eq Hh. destruct (get_next_ptr_spec equal h lh cs I) as (i & l2 & l3 & q & Di & Ec & R & D & C & N & Y).
  exists i, l2, q. split; [done|]. split; [done|]. destruct l3 as [|a l4]; cbn [chain] in C.
  - subst q. rewrite app_nil_r in Ec. split; [|done]. destruct (M !! k) as [y|] eqn:Em; [|done]. apply (st_map _ _ St) in Em as [Ky (b & h' & Eb)].
    pose proof (st_hash _ _ St _ _ _ Eb) as Eh. rewrite (Hh y Ky) in Eh. subst h'.
    pose proof Eb as Eb'. apply content_lookup in Eb' as [nx Eb']. pose proof (elem_of_dom_2 _ _ _ Eb') as Db. apply (ok_dom _ _ I), concat_lookup in Db as (j & c & Ej & Hb).
    assert (j = i) as -> by (rewrite <- (ok_placed _ _ I j c b y h Ej Hb Eb); done). rewrite Ec in Ej. injection Ej as <-.
    specialize (N b _ Hb Eb'). cbn [data] in N. apply Eq in Ky. congruence.
  - destruct C as (-> & it & E & C). exists it, l4. specialize (Y a l4 it eq_refl E). apply Eq in Y. split; [done|]. split; [done|].
    split; [|done]. apply (st_map _ _ St). split; [done|]. exists a, (hash it). apply content_lookup. exists (next it). by destruct it.
Qed.

(** The search of [get_next_ptr_and_hash] *)
Lemma search_data x lh cs M : table_ok lh cs -> stores (content (items lh)) M ->
  exists i l2 q, get_next_ptr_and_hash hash_func comp lh x = Some (hash_func x, place i l2) /\ deref lh (place i l2) = Some q /\
    match q with
    | None => M !! key x = None /\ cs !! i = Some l2 /\ i = Z.to_nat (hash_func x mod num_buckets lh)
    | Some a => exists it l4, items lh !! a = Some it /\ key (data it) = key x /\ M !! key x = Some (data it) /\
        cs !! i = Some (l2 ++ a :: l4) /\ chain (items lh) (next it) l4
    end.
Proof.
  intros I St. destruct (lh_search_spec (fun y => comp y x =? 0) (hash_func x) (key x) lh cs M I St) as (i & l2 & q & R & D & Q).
  - intros y. by rewrite Z.eqb_eq, comp_key.
  - intros y. apply hash_key.
  - exists i, l2, q. unfold get_next_ptr_and_hash. by rewrite R.
Qed.

(** *** The operations *)

(** The table stands for [M]. *)
Definition represents (lh : lhash_st) (M : gmap K Z) : Prop := exists cs, table_ok lh cs /\ stores (content (items lh)) M.

Lemma resized_represents lh lh' M : stores (content (items lh)) M -> resized lh lh' -> represents lh' M.
Proof. intros St [[cs I] [E _]]. exists cs. by rewrite E. Qed.

Lemma new_spec lh : OPENSSL_lh_new alloc_buckets = Some lh -> represents lh ∅ /\ callback_depth lh = 0.
Proof.
  unfold OPENSSL_lh_new. destruct (negb _); [done|]. destruct (negb _); [done|]. intros [= <-]. split; [|done]. exists (repeat [] (Z.to_nat kMinNumBuckets)). split.
  - split; cbn [items buckets num_buckets num_items callback_depth].
    + exact (repeat_chains ∅ 16).
    + rewrite concat_repeat_nil. constructor.
    + intros a. rewrite concat_repeat_nil, dom_empty_L. split; [by intros ?%elem_of_empty|by intros ?%elem_of_nil].
    + done.
    + done.
    + by rewrite map_size_empty.
    + done.
    + by intros i c a x h _ _ X.
    + done.
  - split; [|done|done|by rewrite !map_size_empty]. intros k x. split; [done|]. by intros [_ (a & h & X)].
Qed.

Lemma retrieve_spec x lh M : represents lh M -> OPENSSL_lh_retrieve hash_func comp lh x = Some (default 0 (M !! key x)).
Proof.
  intros (cs & I & St). destruct (search_data x lh cs M I St) as (i & l2 & q & R & D & Q). unfold OPENSSL_lh_retrieve, data_at. rewrite R. cbn [mbind option_bind snd].
  rewrite D. cbn [mbind option_bind]. destruct q as [a|]; [|destruct Q as [-> _]; done]. destruct Q as (it & l4 & E & _ & -> & _). by rewrite E.
Qed.

Lemma retrieve_key_spec k y h cmp_key lh M : represents lh M -> (forall x, cmp_key y x = 0 <-> key x = k) -> (forall x, key x = k -> hash_func x = h) ->
  OPENSSL_lh_retrieve_key lh y h cmp_key = Some (default 0 (M !! k)).
Proof.
  intros (cs & I & St) Eq Hh. destruct (lh_search_spec (fun x => cmp_key y x =? 0) h k lh cs M I St) as (i & l2 & q & R & D & Q); [intros x; by rewrite Z.eqb_eq|done|].
  unfold OPENSSL_lh_retrieve_key, get_next_ptr_by_key, data_at. rewrite R. cbn [mbind option_bind]. rewrite D. cbn [mbind option_bind].
  destruct q as [a|]; [|destruct Q as [-> _]; done]. destruct Q as (it & l4 & E & _ & -> & _). by rewrite E.
Qed.

(** Replacing the data of an item *)
Lemma replace_ok lh cs a it x : table_ok lh cs -> items lh !! a = Some it -> table_ok (with_items (<[a := with_data x it]> (items lh)) lh) cs.
Proof.
  intros [I1 I2 I3 I4 I5 I6 Iw I7 I8] E. split; try done; cbn [items buckets num_buckets num_items with_items].
  - eapply Forall2_impl; [exact I1|]. intros p l. revert p. induction l as [|b l IH]; intros p C; [done|]. destruct C as (-> & ib & Eb & C).
    split; [done|]. rewrite lookup_insert. case_decide as D; [|exists ib; split; [done|by apply IH]].
    subst b. exists (with_data x it). split; [done|]. apply IH. cbn [next with_data]. congruence.
  - intros b. rewrite dom_insert_L. apply elem_of_dom_2 in E. rewrite <- I3. set_solver.
  - by rewrite (map_size_insert_Some _ _ _ (mk_is_Some _ _ E)).
  - intros i c b y h Ei Hb. unfold content. rewrite fmap_insert, lookup_insert. case_decide as D; [|by apply (I7 i c)].
    subst b. intros [= <- <-]. apply (I7 i c a (data it) (hash it) Ei Hb). unfold content. by rewrite lookup_fmap, E.
Qed.

(** A new item at the end of the chain of its hash value *)
Lemma append_ok lh cs i l2 a x h : table_ok lh cs -> cs !! i = Some l2 -> i = Z.to_nat (h mod num_buckets lh) -> a ∉ dom (items lh) ->
  num_items lh + 1 < 2 ^ 64 ->
  exists lh1, assign (place i l2) (Some a) (with_items (<[a := mk_item x None h]> (items lh)) lh) = Some lh1 /\
    num_items lh1 = num_items lh /\ callback_depth lh1 = callback_depth lh /\ content (items lh1) = <[a := (x, h)]> (content (items lh)) /\
    table_ok (with_num_items (size_t (num_items lh1 + 1)) lh1) (<[i := l2 ++ [a]]> cs).
Proof.
  intros I Ec Di Na B. pose proof (ok_dom _ _ I) as Dm. assert (Nc : a ∉ concat cs) by (by rewrite <- Dm).
  set (lh0 := with_items (<[a := mk_item x None h]> (items lh)) lh).
  assert (C0 : Forall2 (chain (items lh0)) (buckets lh0) cs).
  { apply (chains_frame (items lh)); [|exact (ok_chains _ _ I)]. intros b Hb. apply lookup_insert_ne. by intros <-. }
  destruct (splice_spec lh0 cs i l2 [] [a] (Some a) C0 (ok_nodup _ _ I)) as (bs & its & R & C1 & C2 & C3).
  - by rewrite app_nil_r.
  - split; [done|]. exists (mk_item x None h). split; [apply lookup_insert_eq|done].
  - intros b ->%list_elem_of_singleton. by right.
  - assert (Ct : content its = <[a := (x, h)]> (content (items lh))) by (rewrite C2; unfold lh0, content; cbn [items with_items]; by rewrite fmap_insert).
    exists (mk_lhash (num_items lh) bs (num_buckets lh) (callback_depth lh) its). split; [done|]. split; [done|]. split; [done|]. split; [done|].
    destruct (concat_insert cs i l2 (l2 ++ [a]) Ec) as (r & P1 & P2 & _).
    assert (P : concat (<[i := l2 ++ [a]]> cs) ≡ₚ a :: concat cs) by (rewrite P1, P2, <- app_assoc; cbn [app]; by rewrite <- Permutation_middle).
    assert (Sz : size its = S (size (items lh))).
    { rewrite <- !size_dom, <- content_dom, Ct, dom_insert_L, content_dom, size_union, size_singleton by set_solver. done. }
    pose proof (ok_count _ _ I) as Cn. destruct I as [I1 I2 I3 I4 I5 I6 Iw I7 I8]. split; cbn [items buckets num_buckets num_items callback_depth with_num_items]; try done.
    + rewrite P. by constructor.
    + intros b. rewrite <- content_dom, Ct, dom_insert_L, content_dom, P, elem_of_cons, <- I3. set_solver.
    + rewrite C3. exact I4.
    + rewrite wrap_small by (unfold word_ok in *; lia). rewrite Sz. lia.
    + by apply wrap_range.
    + rewrite Ct. intros j c b y h' Ej Hb. rewrite lookup_insert. case_decide as D.
      * intros [= <- <-]. subst b. destruct (decide (j = i)) as [->|Nj]; [done|]. rewrite list_lookup_insert_ne in Ej by done.
        destruct Nc. apply concat_lookup. by exists j, c.
      * intros Eb. destruct (decide (j = i)) as [->|Nj]; [|rewrite list_lookup_insert_ne in Ej by done; by apply (I7 j c b y)].
        rewrite list_lookup_insert_eq in Ej by (by apply lookup_lt_Some in Ec). injection Ej as <-. apply elem_of_app in Hb as [Hb|Hb%list_elem_of_singleton]; [|congruence].
        by apply (I7 i l2 b y).
Qed.

(** An item leaves its chain and the memory. *)
Lemma unlink_ok lh cs i l2 l4 a it : table_ok lh cs -> cs !! i = Some (l2 ++ a :: l4) -> items lh !! a = Some it -> chain (items lh) (next it) l4 ->
  exists lh1, assign (place i l2) (next it) lh = Some lh1 /\
    num_items lh1 = num_items lh /\ callback_depth lh1 = callback_depth lh /\ content (delete a (items lh1)) = delete a (content (items lh)) /\
    table_ok (with_num_items (size_t (num_items lh1 - 1)) (with_items (delete a (items lh1)) lh1)) (<[i := l2 ++ l4]> cs).
Proof.
  intros I Ec Ea C4. destruct (concat_insert cs i _ (l2 ++ l4) Ec) as (r & P1 & P2 & _).
  assert (P : concat cs ≡ₚ a :: concat (<[i := l2 ++ l4]> cs)) by (rewrite P1, P2, <- Permutation_middle; done).
  pose proof (ok_nodup _ _ I) as Nd. rewrite P in Nd. apply NoDup_cons in Nd as [Na Nd].
  destruct (splice_spec lh cs i l2 (a :: l4) l4 (next it) (ok_chains _ _ I) (ok_nodup _ _ I) Ec C4) as (bs & its & R & C1 & C2 & C3); [intros b Hb; left; by right|].
  exists (mk_lhash (num_items lh) bs (num_buckets lh) (callback_depth lh) its). split; [done|]. split; [done|]. split; [done|].
  assert (Ct : content (delete a its) = delete a (content (items lh))) by (unfold content; rewrite fmap_delete; fold (content its); by rewrite C2).
  split; [done|]. assert (Da : a ∈ dom (items lh)) by (by apply elem_of_dom_2 in Ea).
  assert (Sz : size (items lh) = S (size (delete a its))).
  { rewrite <- !size_dom, <- (content_dom (delete a its)), Ct, dom_delete_L, content_dom, size_difference, size_singleton by set_solver.
    assert (size (dom (items lh)) <> 0%nat); [|lia]. intros X%size_empty_inv. set_solver. }
  pose proof (ok_count _ _ I) as Cn. destruct I as [I1 I2 I3 I4 I5 I6 Iw I7 I8]. split; cbn [items buckets num_buckets num_items callback_depth with_num_items with_items]; try done.
  - apply (chains_frame its); [|done]. intros b Hb. apply lookup_delete_ne. by intros <-.
  - intros b. rewrite <- content_dom, Ct, dom_delete_L, content_dom. split.
    + intros [Hb Nb]%elem_of_difference. apply I3 in Hb. rewrite P in Hb. apply elem_of_cons in Hb as [->|Hb]; [set_solver|done].
    + intros Hb. apply elem_of_difference. split; [apply I3; rewrite P; by right|]. intros ->%elem_of_singleton. done.
  - rewrite C3. exact I4.
  - rewrite wrap_small; [lia|]. unfold word_ok in *. lia.
  - by apply wrap_range.
  - rewrite Ct. intros j c b y h Ej Hb. rewrite lookup_delete. case_decide; [done|]. intros Eb. destruct (decide (j = i)) as [->|Nj].
    + rewrite list_lookup_insert_eq in Ej by (by apply lookup_lt_Some in Ec). injection Ej as <-. apply (I7 i _ b y h Ec); [|done].
      rewrite elem_of_app in *. rewrite elem_of_cons. tauto.
    + rewrite list_lookup_insert_ne in Ej by done. by apply (I7 j c b y).
Qed.

Lemma lh_insert_spec x lh M : represents lh M -> num_items lh + 1 < 2 ^ 64 ->
  exists ok old lh', OPENSSL_lh_insert hash_func comp alloc_item alloc_buckets lh x = Some (ok, old, lh') /\ callback_depth lh' = callback_depth lh /\
    (ok = 1 /\ old = default 0 (M !! key x) /\ represents lh' (<[key x := x]> M) \/
     ok = 0 /\ old = 0 /\ lh' = lh /\ M !! key x = None /\ alloc_item (items lh) = None).
Proof.
  intros (cs & I & St) B. destruct (search_data x lh cs M I St) as (i & l2 & q & R & D & Q). unfold OPENSSL_lh_insert. rewrite R. cbn [mbind option_bind].
  rewrite D. cbn [mbind option_bind]. destruct q as [a|].
  - destruct Q as (it & l4 & E & Ek & Em & _). rewrite E, Em. cbn [mbind option_bind]. eexists _, _, _. split; [done|]. split; [done|]. left.
    split; [done|]. split; [done|]. exists cs. split; [by apply replace_ok|]. cbn [items with_items]. unfold content. rewrite fmap_insert. cbn [data hash with_data].
    apply (stores_replace _ _ _ _ (data it)); [done| |done]. apply content_lookup. exists (next it). by destruct it.
  - destruct Q as (Em & Ec & Di). rewrite Em. destruct (alloc_item (items lh)) as [a|] eqn:Al.
    2: { exists 0, 0, lh. split; [done|]. split; [done|]. by right. }
    pose proof (alloc_fresh _ _ Al) as Na. destruct (append_ok lh cs i l2 a x (hash_func x) I Ec Di Na B) as (lh1 & A & N1 & D1 & C1 & I1).
    rewrite A. cbn [mbind option_bind]. destruct (maybe_resize_spec alloc_buckets _ _ I1) as (lh2 & R2 & Rz). rewrite R2. cbn [mbind option_bind].
    exists 1, 0, lh2. split; [done|]. pose proof Rz as (_ & _ & D2). cbn [callback_depth with_num_items] in D2. split; [congruence|]. left. split; [done|]. split; [done|].
    apply (resized_represents (with_num_items (size_t (num_items lh1 + 1)) lh1)); [|done]. cbn [items with_num_items]. rewrite C1.
    apply stores_insert; [done| |done]. apply not_elem_of_dom. by rewrite content_dom.
Qed.

(** Deleting an element that is present, up to the resizing *)
Lemma delete_found x lh cs M a it : table_ok lh cs -> stores (content (items lh)) M -> items lh !! a = Some it -> key (data it) = key x ->
  exists i l2 l4 lh1, cs !! i = Some (l2 ++ a :: l4) /\ chain (items lh) (next it) l4 /\
    OPENSSL_lh_delete hash_func comp alloc_buckets lh x = (lh2 ← lh_maybe_resize alloc_buckets lh1; Some (data it, lh2)) /\
    table_ok lh1 (<[i := l2 ++ l4]> cs) /\ content (items lh1) = delete a (content (items lh)) /\ callback_depth lh1 = callback_depth lh.
Proof.
  intros I St E Ek. assert (Ct : content (items lh) !! a = Some (data it, hash it)) by (apply content_lookup; exists (next it); by destruct it).
  assert (Em : M !! key x = Some (data it)) by (apply (st_map _ _ St); split; [done|by exists a, (hash it)]).
  destruct (search_data x lh cs M I St) as (i & l2 & q & R & D & Q). unfold OPENSSL_lh_delete. rewrite R. cbn [mbind option_bind]. rewrite D. cbn [mbind option_bind].
  destruct q as [b|]; [|destruct Q as [Q _]; congruence]. destruct Q as (ib & l4 & Eb & Kb & _ & Ec & C4).
  assert (b = a) as ->.
  { apply (st_one _ _ St b a (data ib) (data it) (hash ib) (hash it)); [|done|congruence]. apply content_lookup. exists (next ib). by destruct ib. }
  rewrite E in Eb. injection Eb as <-. rewrite E. cbn [mbind option_bind].
  destruct (unlink_ok lh cs i l2 l4 a it I Ec E C4) as (lh1 & A & N1 & D1 & C1 & I1). rewrite A. cbn [mbind option_bind].
  exists i, l2, l4, (with_num_items (size_t (num_items lh1 - 1)) (with_items (delete a (items lh1)) lh1)). done.
Qed.

Lemma lh_delete_spec x lh M : represents lh M ->
  exists lh', OPENSSL_lh_delete hash_func comp alloc_buckets lh x = Some (default 0 (M !! key x), lh') /\
    represents lh' (delete (key x) M) /\ callback_depth lh' = callback_depth lh.
Proof.
  intros (cs & I & St). destruct (M !! key x) as [y|] eqn:Em.
  - pose proof Em as Em'. apply (st_map _ _ St) in Em' as [Ky (a & h & Ea)]. pose proof Ea as Ea'. apply content_lookup in Ea' as [nx Ea'].
    destruct (delete_found x lh cs M a _ I St Ea' Ky) as (i & l2 & l4 & lh1 & _ & _ & R & I1 & C1 & D1). rewrite R.
    destruct (maybe_resize_spec alloc_buckets _ _ I1) as (lh2 & R2 & Rz). rewrite R2. cbn [mbind option_bind data default]. exists lh2. split; [done|].
    pose proof Rz as (_ & _ & D2). split; [|congruence]. apply (resized_represents lh1); [|done]. rewrite C1, <- Ky. by apply (stores_delete _ _ a y h).
  - destruct (search_data x lh cs M I St) as (i & l2 & q & R & D & Q). unfold OPENSSL_lh_delete. rewrite R. cbn [mbind option_bind]. rewrite D. cbn [mbind option_bind].
    destruct q as [b|]; [destruct Q as (? & ? & _ & _ & Q & _); congruence|]. exists lh. split; [done|]. split; [|done]. exists cs. by rewrite delete_id.
Qed.

(** *** Iterating

    The callback may delete the element it is called with. *)

Definition prune (del : Z -> bool) (x : Z) (lh : lhash_st) : option lhash_st :=
  if del x then snd <$> OPENSSL_lh_delete hash_func comp alloc_buckets lh x else Some lh.

Lemma chain_head its p l : chain its p l -> p = head l.
Proof. destruct l; [done|by intros [? _]]. Qed.

Lemma chain_suffix its l1 l : forall p, chain its p (l1 ++ l) -> chain its (head l) l.
Proof.
  induction l1 as [|a l1 IH]; intros p C; cbn [app] in C; [by rewrite <- (chain_head _ _ _ C)|]. destruct C as (_ & it & _ & C). by apply (IH (next it)).
Qed.

(** The data of the items at [l] *)
Definition data_of (C : gmap addr (Z * Z)) (l : list addr) : list Z := (fun a => fst (default (0, 0) (C !! a))) <$> l.

(** What is left of a map when [xs] have been visited *)
Definition pruned (del : Z -> bool) (xs : list Z) (M : gmap K Z) : gmap K Z := filter (fun p => ~ (p.2 ∈ xs /\ del p.2 = true)) M.

Lemma pruned_nil del M : pruned del [] M = M.
Proof. apply map_filter_id. intros k x _ [X _]. by apply elem_of_nil in X. Qed.

(** Every element of [M] is under its own key. *)
Definition keyed (M : gmap K Z) : Prop := forall k x, M !! k = Some x -> key x = k.

Lemma stores_keyed C M : stores C M -> keyed M.
Proof. intros I k x E. by apply (st_map _ _ I) in E as [? _]. Qed.

Lemma pruned_cons del x xs M : keyed M -> M !! key x = Some x -> pruned del (x :: xs) M = pruned del xs (if del x then delete (key x) M else M).
Proof.
  intros Kd Ex. apply map_eq. intros k. apply option_eq. intros y. unfold pruned. rewrite !map_lookup_filter_Some. cbn [snd]. rewrite elem_of_cons. split.
  - intros [E N]. destruct (del x) eqn:Dx; [|split; [done|tauto]]. split; [|tauto]. rewrite lookup_delete_ne; [done|]. intros <-. apply N. split; [left; congruence|congruence].
  - destruct (del x) eqn:Dx; [rewrite lookup_delete_Some; intros [[Nk E] N]|intros [E N]]; (split; [done|]); intros [[->|Hy] Dy]; [|tauto|congruence|tauto].
    apply Nk. by apply Kd in E.
Qed.

Lemma pivot_unique {A} (a : A) (l1 l2 l3 l4 : list A) : NoDup (l1 ++ a :: l2) -> l1 ++ a :: l2 = l3 ++ a :: l4 -> l1 = l3 /\ l2 = l4.
Proof.
  revert l3. induction l1 as [|b l1 IH]; intros [|c l3] N E; cbn [app] in *.
  - by injection E.
  - injection E as -> E. subst l2. apply NoDup_cons in N as [N _]. destruct N. apply elem_of_app. right. left.
  - injection E as -> E. apply NoDup_cons in N as [N _]. destruct N. apply elem_of_app. right. left.
  - injection E as -> E. apply NoDup_cons in N as [_ N]. destruct (IH l3 N E) as [-> ->]. done.
Qed.

(** An item is in one place. *)
Lemma one_place lh cs i j a (l1 l2 l3 l4 : list addr) : table_ok lh cs -> a ∈ dom (items lh) -> cs !! i = Some (l1 ++ a :: l2) -> cs !! j = Some (l3 ++ a :: l4) ->
  i = j /\ l1 = l3 /\ l2 = l4.
Proof.
  intros I Da Ei Ej. rewrite <- content_dom in Da. apply elem_of_dom in Da as [[x h] Da].
  assert (i = j) as <-.
  { pose proof (ok_placed _ _ I i _ a x h Ei ltac:(apply elem_of_app; right; left) Da). pose proof (ok_placed _ _ I j _ a x h Ej ltac:(apply elem_of_app; right; left) Da). congruence. }
  split; [done|]. rewrite Ei in Ej. injection Ej as Ej. apply (pivot_unique a); [|done].
  destruct (concat_insert cs i _ [] Ei) as (r & P & _). by destruct (nodup_parts cs _ r (ok_nodup _ _ I) P).
Qed.

(** Where the item [a] is in its chain *)
Lemma item_at lh cs i l1 a l : table_ok lh cs -> cs !! i = Some (l1 ++ a :: l) -> a ∉ l /\ exists it, items lh !! a = Some it /\ next it = head l.
Proof.
  intros I Ei. destruct (Forall2_lookup_r _ _ _ _ _ (ok_chains _ _ I) Ei) as (b & _ & C).
  destruct (chain_suffix _ _ _ _ C) as (_ & it & E & C2). split; [|exists it; split; [done|by apply (chain_head (items lh))]].
  destruct (concat_insert cs i _ [] Ei) as (r & P & _). destruct (nodup_parts cs _ r (ok_nodup _ _ I) P) as [N _].
  apply NoDup_app in N as (_ & _ & N). by apply NoDup_cons in N as [N _].
Qed.

Lemma data_of_ext C C' l : (forall a, a ∈ l -> C' !! a = C !! a) -> data_of C' l = data_of C l.
Proof. intros E. apply list_fmap_ext. intros i a Ha%list_elem_of_lookup_2. by rewrite (E a Ha). Qed.

Lemma doall_chain_spec del l : forall fuel lh cs M i l1, table_ok lh cs -> stores (content (items lh)) M -> 0 < callback_depth lh ->
  cs !! i = Some (l1 ++ l) -> (length l <= fuel)%nat ->
  exists lh' l', doall_chain (prune del) fuel (head l) lh = Some (data_of (content (items lh)) l, lh') /\ table_ok lh' (<[i := l1 ++ l']> cs) /\
    stores (content (items lh')) (pruned del (data_of (content (items lh)) l) M) /\
    callback_depth lh' = callback_depth lh /\ num_buckets lh' = num_buckets lh /\ (forall a, a ∉ l -> content (items lh') !! a = content (items lh) !! a).
Proof.
  induction l as [|a l IH]; intros fuel lh cs M i l1 I St D Ei Fu.
  - exists lh, []. destruct fuel; (split; [done|]); rewrite list_insert_id by done; (split; [done|]); unfold data_of; cbn [fmap list_fmap]; rewrite pruned_nil; done.
  - destruct fuel as [|fuel]; [cbn [length] in Fu; lia|]. destruct (item_at lh cs i l1 a l I Ei) as (Na & it & E & Nx). cbn [head doall_chain]. rewrite E. cbn [mbind option_bind].
    assert (Ct : content (items lh) !! a = Some (data it, hash it)) by (apply content_lookup; exists (next it); by destruct it).
    assert (Em : M !! key (data it) = Some (data it)) by (apply (st_map _ _ St); split; [done|by exists a, (hash it)]).
    assert (Do : data_of (content (items lh)) (a :: l) = data it :: data_of (content (items lh)) l) by (unfold data_of; cbn [fmap list_fmap]; by rewrite Ct).
    rewrite Nx, Do, (pruned_cons _ _ _ _ (stores_keyed _ _ St) Em).
    change (prune del (data it) lh) with (if del (data it) then snd <$> OPENSSL_lh_delete hash_func comp alloc_buckets lh (data it) else Some lh).
    cbn [length] in Fu. destruct (del (data it)).
    + destruct (delete_found (data it) lh cs M a it I St E eq_refl) as (j & l2 & l4 & lh1 & Ej & _ & R & I1 & C1 & D1).
      destruct (one_place lh cs i j a _ _ _ _ I (elem_of_dom_2 _ _ _ E) Ei Ej) as (<- & <- & <-).
      rewrite R, no_resize by congruence. cbn [mbind option_bind fmap option_fmap option_map snd].
      assert (St1 : stores (content (items lh1)) (delete (key (data it)) M)) by (rewrite C1; by apply (stores_delete _ _ a (data it) (hash it))).
      assert (Li : (i < length cs)%nat) by (by apply lookup_lt_Some in Ei).
      destruct (IH fuel lh1 _ _ i l1 I1 St1 ltac:(congruence) (list_lookup_insert_eq _ _ _ Li) ltac:(lia)) as (lh' & l' & R' & I' & St' & D' & B' & F').
      assert (De : data_of (content (items lh1)) l = data_of (content (items lh)) l).
      { apply data_of_ext. intros b Hb. rewrite C1. apply lookup_delete_ne. by intros <-. }
      rewrite De in R', St'. rewrite R'. cbn [mbind option_bind fst snd]. exists lh', l'. split; [done|]. rewrite list_insert_insert_eq in I'. split; [done|].
      split; [done|]. split; [congruence|]. split.
      * rewrite B'. rewrite <- (ok_length _ _ I1), <- (ok_length _ _ I). pose proof (Forall2_length _ _ _ (ok_chains _ _ I1)) as X1. pose proof (Forall2_length _ _ _ (ok_chains _ _ I)) as X2.
        rewrite length_insert in X1. congruence.
      * intros b Hb. rewrite elem_of_cons in Hb. rewrite F', C1 by tauto. apply lookup_delete_ne. intros <-. tauto.
    + cbn [mbind option_bind]. assert (Ei' : cs !! i = Some ((l1 ++ [a]) ++ l)) by (by rewrite <- app_assoc).
      destruct (IH fuel lh cs M i (l1 ++ [a]) I St D Ei' ltac:(lia)) as (lh' & l' & R' & I' & St' & D' & B' & F'). rewrite R'. cbn [mbind option_bind fst snd].
      exists lh', (a :: l'). split; [done|]. rewrite <- app_assoc in I'. split; [done|]. split; [done|]. split; [done|]. split; [done|].
      intros b Hb. apply F'. rewrite elem_of_cons in Hb. tauto.
Qed.

Lemma pruned_app del xs ys M : pruned del ys (pruned del xs M) = pruned del (xs ++ ys) M.
Proof.
  unfold pruned. rewrite map_filter_filter. apply map_filter_ext. intros k x _. cbn [snd]. rewrite elem_of_app. tauto.
Qed.

Lemma data_of_app C l l' : data_of C (l ++ l') = data_of C l ++ data_of C l'.
Proof. apply fmap_app. Qed.

Lemma doall_buckets_spec del fuel : forall rounds k lh cs M, table_ok lh cs -> stores (content (items lh)) M -> 0 < callback_depth lh ->
  (Z.to_nat (num_buckets lh) <= rounds + k)%nat -> (size (items lh) <= fuel)%nat ->
  exists lh' cs', doall_buckets (prune del) rounds fuel (Z.of_nat k) lh = Some (data_of (content (items lh)) (concat (drop k cs)), lh') /\ table_ok lh' cs' /\
    stores (content (items lh')) (pruned del (data_of (content (items lh)) (concat (drop k cs))) M) /\ callback_depth lh' = callback_depth lh.
Proof.
  induction rounds as [|rounds IH]; intros k lh cs M I St D Rd Fu; pose proof (ok_length _ _ I) as L; pose proof (Forall2_length _ _ _ (ok_chains _ _ I)) as L2;
    cbn [doall_buckets]; (destruct (Z.ltb_spec (Z.of_nat k) (num_buckets lh)) as [Lk|Lk];
      [|exists lh, cs; rewrite drop_ge by lia; cbn [concat]; (split; [done|]); (split; [done|]); unfold data_of; cbn [fmap list_fmap]; by rewrite pruned_nil]).
  - lia.
  - destruct (lookup_lt_is_Some_2 cs k ltac:(lia)) as [c Ec]. destruct (lookup_lt_is_Some_2 (buckets lh) k ltac:(lia)) as [b Eb].
    rewrite Nat2Z.id, Eb. cbn [mbind option_bind]. pose proof (Forall2_lookup_lr _ _ _ _ _ _ (ok_chains _ _ I) Eb Ec) as Cb. rewrite (chain_head _ _ _ Cb).
    destruct (concat_insert cs k c [] Ec) as (r & P & _ & Other). destruct (nodup_parts cs c r (ok_nodup _ _ I) P) as (Nc & _ & Dj).
    destruct (doall_chain_spec del c fuel lh cs M k [] I St D Ec) as (lh1 & l' & R & I1 & St1 & D1 & B1 & F1).
    { pose proof (chain_length _ _ _ Cb Nc). lia. }
    rewrite R. cbn [mbind option_bind fst snd app] in *. replace (Z.of_nat k + 1) with (Z.of_nat (S k)) by lia.
    assert (Sz : (size (items lh1) <= fuel)%nat).
    { etrans; [|exact Fu]. rewrite <- !size_dom. apply subseteq_size. intros a Ha. apply (ok_dom _ _ I). apply (ok_dom _ _ I1), concat_lookup in Ha as (j & d & Ej & Ha).
      destruct (decide (a ∈ c)) as [X|X]; [apply concat_lookup; by exists k, c|]. apply (ok_dom _ _ I).
      assert (Da : a ∈ dom (items lh1)) by (apply (ok_dom _ _ I1), concat_lookup; by exists j, d).
      rewrite <- content_dom in Da |- *. apply elem_of_dom in Da. rewrite F1 in Da by done. by apply elem_of_dom. }
    destruct (IH (S k) lh1 _ _ I1 St1 ltac:(congruence) ltac:(rewrite B1; lia) Sz) as (lh' & cs' & R' & I' & St' & D').
    assert (De : data_of (content (items lh1)) (concat (drop (S k) (<[k := l']> cs))) = data_of (content (items lh)) (concat (drop (S k) cs))).
    { rewrite drop_insert_lt by lia. apply data_of_ext. intros a Ha. apply F1. intros X. apply (Dj a X).
      apply concat_lookup in Ha as (j & d & Ej & Ha). rewrite lookup_drop in Ej. apply (Other (S k + j)%nat d); [lia|done..]. }
    rewrite De in R', St'. rewrite R'. cbn [mbind option_bind fst snd]. rewrite (drop_S cs c k Ec). cbn [concat]. rewrite data_of_app.
    exists lh', cs'. split; [done|]. split; [done|]. split; [|congruence]. by rewrite <- pruned_app.
Qed.

(** All elements are seen, each once. *)
Lemma seen_all lh cs M : table_ok lh cs -> stores (content (items lh)) M ->
  NoDup (data_of (content (items lh)) (concat cs)) /\ forall x, x ∈ data_of (content (items lh)) (concat cs) <-> M !! key x = Some x.
Proof.
  intros I St. set (C := content (items lh)) in *.
  assert (Known : forall a, a ∈ concat cs -> exists x h, C !! a = Some (x, h)).
  { intros a Ha%(ok_dom _ _ I). unfold C. rewrite <- content_dom in Ha. apply elem_of_dom in Ha as [[x h] E]. by exists x, h. }
  split.
  - apply NoDup_fmap_2_strong; [|exact (ok_nodup _ _ I)]. intros a b Ha Hb Eq. destruct (Known a Ha) as (x & h & Ea), (Known b Hb) as (y & h' & Eb).
    rewrite Ea, Eb in Eq. cbn [default from_option fst id] in Eq. apply (st_one _ _ St a b x y h h' Ea Eb). congruence.
  - intros x. rewrite (st_map _ _ St). unfold data_of. rewrite list_elem_of_fmap. split.
    + intros (a & -> & Ha). destruct (Known a Ha) as (y & h & Ea). rewrite Ea. cbn [default from_option fst id]. split; [done|]. by exists a, h.
    + intros [_ (a & h & Ea)]. exists a. rewrite Ea. split; [done|]. apply (ok_dom _ _ I). unfold C in Ea. rewrite <- content_dom. by apply elem_of_dom_2 in Ea.
Qed.

Lemma with_depth_ok n lh cs : word_ok 32 n -> table_ok lh cs -> table_ok (with_depth n lh) cs.
Proof. intros W [I1 I2 I3 I4 I5 I6 Iw I7 I8]. by split. Qed.

Lemma doall_spec del rounds fuel lh M : represents lh M -> callback_depth lh + 1 < MAX_DEPTH ->
  (Z.to_nat (num_buckets lh) <= rounds)%nat -> (size (items lh) <= fuel)%nat ->
  exists seen lh', OPENSSL_lh_doall_arg alloc_buckets (prune del) rounds fuel lh = Some (seen, lh') /\ NoDup seen /\ (forall x, x ∈ seen <-> M !! key x = Some x) /\
    represents lh' (filter (fun p => del p.2 = false) M) /\ callback_depth lh' = callback_depth lh.
Proof.
  intros (cs & I & St) D Rd Fu. pose proof (ok_depth _ _ I) as Wd. unfold OPENSSL_lh_doall_arg. unfold word_ok, MAX_DEPTH in *.
  rewrite (proj2 (Z.ltb_lt _ _)) by lia. set (lh0 := with_depth (callback_depth lh + 1) lh).
  assert (I0 : table_ok lh0 cs) by (apply with_depth_ok; [unfold word_ok; lia|done]).
  destruct (doall_buckets_spec del fuel rounds 0 lh0 cs M I0 St) as (lh1 & cs1 & R & I1 & St1 & D1); [cbn; lia|cbn [num_buckets with_depth lh0]; lia|done|].
  change (Z.of_nat 0) with 0 in R. rewrite R. cbn [mbind option_bind]. rewrite drop_0 in *. change (content (items lh0)) with (content (items lh)) in *.
  destruct (seen_all lh cs M I St) as [Nd Me]. set (seen := data_of (content (items lh)) (concat cs)) in *.
  change (callback_depth lh0) with (callback_depth lh + 1) in D1. rewrite D1, (proj2 (Z.ltb_lt _ _)) by lia. replace (callback_depth lh + 1 - 1) with (callback_depth lh) by lia.
  assert (I2 : table_ok (with_depth (callback_depth lh) lh1) cs1) by (apply with_depth_ok; done).
  destruct (maybe_resize_spec alloc_buckets _ _ I2) as (lh2 & R2 & Rz). rewrite R2. cbn [mbind option_bind]. exists seen, lh2.
  split; [done|]. split; [done|]. split; [done|]. pose proof Rz as (_ & _ & D2). split; [|done]. apply (resized_represents (with_depth (callback_depth lh) lh1)); [|done].
  replace (filter (fun p => del p.2 = false) M) with (pruned del seen M); [done|]. apply map_filter_ext. intros k x E. cbn [snd]. rewrite Me, (stores_keyed _ _ St k x E).
  split; [intros Hn; destruct (del x); [by destruct Hn|done]|by intros -> [_ X]].
Qed.

(** *** Freeing *)

Lemma free_chain_spec l : forall fuel cur its, chain its cur l -> NoDup l -> (length l <= fuel)%nat ->
  exists its', free_chain fuel cur its = Some its' /\ dom its' = dom its ∖ list_to_set l /\ forall a, a ∉ l -> its' !! a = its !! a.
Proof.
  induction l as [|a l IH]; intros fuel cur its C N Fu; cbn [chain] in C.
  - subst cur. exists its. destruct fuel; (split; [done|]); (split; [set_solver|done]).
  - destruct C as (-> & it & E & C). apply NoDup_cons in N as [Na N]. destruct fuel as [|fuel]; [cbn [length] in Fu; lia|]. cbn [free_chain]. rewrite E. cbn [mbind option_bind].
    assert (Fr : forall b, b ∈ l -> delete a its !! b = its !! b) by (intros b Hb; apply lookup_delete_ne; by intros <-).
    destruct (IH fuel (next it) (delete a its)) as (its' & R & D & F); [by apply (items_frame its)|done|cbn [length] in Fu; lia|].
    exists its'. split; [done|]. rewrite D, dom_delete_L. split; [set_solver|]. intros b Hb. rewrite elem_of_cons in Hb. rewrite F by tauto. apply lookup_delete_ne. intros <-. tauto.
Qed.

Lemma free_chains_spec bs : forall cs its, Forall2 (chain its) bs cs -> NoDup (concat cs) ->
  exists its', free_chains bs its = Some its' /\ dom its' = dom its ∖ list_to_set (concat cs).
Proof.
  induction bs as [|b bs IH]; intros cs its C N; inversion C as [|? c ? cs' C1 C2]; subst; cbn [free_chains concat] in *.
  - exists its. split; [done|]. set_solver.
  - apply NoDup_app in N as (Nc & Dj & N). destruct (free_chain_spec c (size its) b its C1 Nc (chain_length _ _ _ C1 Nc)) as (its1 & R & D1 & F1).
    rewrite R. cbn [mbind option_bind]. destruct (IH cs' its1) as (its' & R' & D'); [|done|].
    + apply (chains_frame its); [|done]. intros a Ha. apply F1. intros X. by apply (Dj a X).
    + exists its'. split; [done|]. rewrite D', D1, list_to_set_app_L. set_solver.
Qed.

(** ** The claims *)

(** C16: A hash table is a finite map from the keys of its elements, whatever
    the chains and however often it was resized: a new table is empty,
    [OPENSSL_lh_retrieve] and [OPENSSL_lh_retrieve_key] return the element of a
    key or NULL, [OPENSSL_lh_insert] puts an element in the place of the equal
    one, which it returns, [OPENSSL_lh_delete] takes the equal element out and
    returns it, and the count is the number of keys.  Only a new item may be
    refused, when there is no memory, and then nothing changes; an array that
    cannot be allocated is not noticed. *)
Theorem OPENSSL_lh_refines_map (lh : lhash_st) (M : gmap K Z) (I : represents lh M) (B : num_items lh + 1 < 2 ^ 64) :
  (forall x, OPENSSL_lh_retrieve hash_func comp lh x = Some (default 0 (M !! key x))) /\
  (forall k y h cmp_key, (forall x, cmp_key y x = 0 <-> key x = k) -> (forall x, key x = k -> hash_func x = h) ->
     OPENSSL_lh_retrieve_key lh y h cmp_key = Some (default 0 (M !! k))) /\
  (forall x, exists ok old lh', OPENSSL_lh_insert hash_func comp alloc_item alloc_buckets lh x = Some (ok, old, lh') /\
     (ok = 1 /\ old = default 0 (M !! key x) /\ represents lh' (<[key x := x]> M) \/
      ok = 0 /\ old = 0 /\ lh' = lh /\ M !! key x = None /\ alloc_item (items lh) = None)) /\
  (forall x, exists lh', OPENSSL_lh_delete hash_func comp alloc_buckets lh x = Some (default 0 (M !! key x), lh') /\ represents lh' (delete (key x) M)) /\
  OPENSSL_lh_num_items lh = Z.of_nat (size M) /\
  (forall lh', OPENSSL_lh_new alloc_buckets = Some lh' -> represents lh' ∅).
Proof.
  split; [intros x; by apply retrieve_spec|]. split; [intros k y h cmp_key Eq Hh; by apply retrieve_key_spec|].
  split; [|split; [|split]].
  - intros x. destruct (lh_insert_spec x lh M I B) as (ok & old & lh' & R & _ & P). by exists ok, old, lh'.
  - intros x. destruct (lh_delete_spec x lh M I) as (lh' & R & I' & _). by exists lh'.
  - unfold OPENSSL_lh_num_items. destruct I as (cs & It & St). rewrite (ok_count _ _ It), <- (st_size _ _ St). unfold content. by rewrite map_size_fmap.
  - intros lh' E. by destruct (new_spec lh' E).
Qed.

(** C17: [OPENSSL_lh_doall_arg] calls its callback with every element once,
    also when the callback deletes the element it is called with, as long as
    calls are not nested 2^32 deep: the chains are walked while they shrink and
    the array is only resized at the end.  Then exactly the elements that were
    not deleted are left. *)
Theorem OPENSSL_lh_doall_arg_correct (del : Z -> bool) (rounds fuel : nat) (lh : lhash_st) (M : gmap K Z) (I : represents lh M)
  (D : callback_depth lh + 1 < MAX_DEPTH) (Rd : (Z.to_nat (num_buckets lh) <= rounds)%nat) (Fu : (size (items lh) <= fuel)%nat) :
  exists seen lh', OPENSSL_lh_doall_arg alloc_buckets (prune del) rounds fuel lh = Some (seen, lh') /\
    NoDup seen /\ (forall x, x ∈ seen <-> M !! key x = Some x) /\
    represents lh' (filter (fun p => del p.2 = false) M) /\ callback_depth lh' = callback_depth lh.
Proof. by apply doall_spec. Qed.

(** [OPENSSL_lh_free] frees every item, and none twice. *)
Theorem OPENSSL_lh_free_all (lh : lhash_st) (M : gmap K Z) (I : represents lh M) : OPENSSL_lh_free (Some lh) = Some ∅.
Proof.
  destruct I as (cs & I & _). unfold OPENSSL_lh_free. destruct (free_chains_spec _ _ _ (ok_chains _ _ I) (ok_nodup _ _ I)) as (its & R & D). rewrite R. f_equal.
  apply dom_empty_inv_L. rewrite D. pose proof (ok_dom _ _ I). set_solver.
Qed.
End Keyed.

(** ** An example: numbers that are equal modulo 100, fifty of them *)

Definition example_key (x : Z) : Z := x mod 100.
Definition example_hash (x : Z) : Z := example_key x * 7.
Definition example_comp (x y : Z) : Z := if example_key x =? example_key y then 0 else 1.
Definition example_alloc (its : gmap addr LHASH_ITEM) : option addr := Some (fresh (dom its)).

Lemma example_comp_key x y : example_comp x y = 0 <-> example_key x = example_key y.
Proof. unfold example_comp. by destruct (Z.eqb_spec (example_key x) (example_key y)). Qed.

Lemma example_hash_key x y : example_key x = example_key y -> example_hash x = example_hash y.
Proof. unfold example_hash. by intros ->. Qed.

Lemma example_alloc_fresh its a : example_alloc its = Some a -> a ∉ dom its.
Proof. intros [= <-]. apply is_fresh. Qed.

Definition empty_table : lhash_st := default (mk_lhash 0 [] 0 0 ∅) (OPENSSL_lh_new (fun _ => true)).

Definition add_all (xs : list Z) (lh : lhash_st) : lhash_st :=
  foldl (fun lh x => default lh (snd <$> OPENSSL_lh_insert example_hash example_comp example_alloc (fun _ => true) lh x)) lh xs.

Definition fifty : lhash_st := add_all (seqZ 200 50) empty_table.

(** The table has grown; an equal element replaces the first. *)
Example fifty_run :
  (num_items fifty, num_buckets fifty) = (50, 32) /\
  OPENSSL_lh_retrieve example_hash example_comp fifty 17 = Some 217 /\
  fst <$> OPENSSL_lh_insert example_hash example_comp example_alloc (fun _ => true) fifty 317 = Some (1, 217) /\
  (fun r => (length r.1, num_items r.2, num_buckets r.2)) <$>
    OPENSSL_lh_doall_arg (fun _ => true) (prune example_hash example_comp (fun _ => true) (fun x => x <? 248)) 32 50 fifty = Some (50%nat, 2, 16).
Proof. vm_compute. done. Qed.

Lemma empty_represents : represents example_hash example_key empty_table ∅.
Proof. exact (proj1 (new_spec example_hash (fun _ => true) example_key empty_table eq_refl)). Qed.

Lemma OPENSSL_lh_refines_map_witness : exists lh',
  OPENSSL_lh_insert example_hash example_comp example_alloc (fun _ => true) empty_table 5 = Some (1, 0, lh') /\
  represents example_hash example_key lh' {[5 := 5]}.
Proof.
  destruct (OPENSSL_lh_refines_map example_hash example_comp example_alloc (fun _ => true) example_key example_comp_key example_hash_key example_alloc_fresh
    empty_table ∅ empty_represents eq_refl) as (_ & _ & Ins & _).
  destruct (Ins 5) as (ok & old & lh' & E & [(-> & -> & R)|(_ & _ & _ & _ & X)]); [exists lh'; split; [exact E|exact R]|discriminate X].
Defined.

(** The keys of the elements that are added *)
Definition add_keys (xs : list Z) (M : gmap Z Z) : gmap Z Z := foldl (fun M x => <[example_key x := x]> M) M xs.

Lemma count_represents lh M : represents example_hash example_key lh M -> num_items lh = Z.of_nat (size M).
Proof. intros (cs & I & St). rewrite (ok_count _ _ I), <- (st_size _ _ _ _ St). unfold content. by rewrite map_size_fmap. Qed.

Lemma add_all_represents xs : forall lh M, represents example_hash example_key lh M -> num_items lh + Z.of_nat (length xs) < 2 ^ 64 ->
  represents example_hash example_key (add_all xs lh) (add_keys xs M).
Proof.
  induction xs as [|x xs IH]; intros lh M R B; [done|]. cbn [add_all add_keys foldl length] in *. pose proof (count_represents lh M R) as Cn.
  destruct (lh_insert_spec example_hash example_comp example_alloc (fun _ => true) example_key example_comp_key example_hash_key example_alloc_fresh x lh M R ltac:(lia))
    as (ok & old & lh' & E & _ & [(-> & _ & R')|(_ & _ & _ & _ & X)]); [|discriminate X].
  rewrite E. cbn [fmap option_fmap option_map snd default from_option id]. apply IH; [done|]. rewrite (count_represents _ _ R'), map_size_insert. destruct (_ !! _); cbn; lia.
Qed.

Lemma fifty_represents : represents example_hash example_key fifty (add_keys (seqZ 200 50) ∅).
Proof. apply add_all_represents; [exact empty_represents|vm_compute; reflexivity]. Qed.

Lemma OPENSSL_lh_doall_arg_correct_witness : exists seen lh',
  OPENSSL_lh_doall_arg (fun _ => true) (prune example_hash example_comp (fun _ => true) (fun x => x <? 248)) 32 50 fifty = Some (seen, lh') /\
  represents example_hash example_key lh' (filter (fun p => (p.2 <? 248) = false) (add_keys (seqZ 200 50) ∅)).
Proof.
  destruct (OPENSSL_lh_doall_arg_correct example_hash example_comp example_alloc (fun _ => true) example_key example_comp_key example_hash_key
    example_alloc_fresh (fun x => x <? 248) 32 50 fifty _ fifty_represents ltac:(vm_compute; reflexivity)
    ltac:(apply Nat.leb_le; vm_compute; reflexivity) ltac:(apply Nat.leb_le; vm_compute; reflexivity)) as (seen & lh' & E & _ & _ & R & _).
  exists seen, lh'. split; [exact E|exact R].
Defined.

Lemma OPENSSL_lh_free_all_witness : OPENSSL_lh_free (Some fifty) = Some ∅.
Proof. exact (OPENSSL_lh_free_all example_hash example_comp example_alloc example_key example_comp_key example_hash_key example_alloc_fresh fifty _ fifty_represents). Defined.
