(* ===== verification/Buf.v ===== *)
(** * Growing buffers ([crypto/buf/buf.c])

    A [BUF_MEM] has a block of [Mem] that is allocated when it is first needed.
    Its functions return the C result and the new buffer; [None] is a write out
    of the block, which the theorems exclude.  Of the error queue the model has
    nothing. *)

From Stdlib Require Import ZArith Lia List Bool.
Import ListNotations.
From S2P Require Import Prelude CStr Mem.

#[local] Open Scope Z_scope.

(** ** Definitions *)

(** [buf_mem_st] *)
Record BUF_MEM := mk_buf { buf_length : Z; buf_data : option block; buf_max : Z }.

(** [sizeof(BUF_MEM)] *)
Definition BUF_MEM_SIZE : Z := 24.

Section Buf.
Variable malloc : Z -> option (list Z).

Definition BUF_MEM_new : option BUF_MEM :=
  match OPENSSL_malloc malloc BUF_MEM_SIZE with
  | None => None
  | Some _ => Some (mk_buf 0 None 0)
  end.

Definition BUF_MEM_reserve (buf : BUF_MEM) (cap : Z) : Z * BUF_MEM :=
  if cap <=? buf_max buf then (1, buf)
  else
    let n := size_t (cap + 3) in
    if n <? cap then (0, buf)
    else
      let n := n / 3 in
      let alloc_size := size_t (n * 4) in
      if negb (alloc_size / 4 =? n) then (0, buf)
      else
        match OPENSSL_realloc malloc (buf_data buf) alloc_size with
        | None => (0, buf)
        | Some new_buf => (1, mk_buf (buf_length buf) (Some new_buf) alloc_size)
        end.

(** Bytes are written at [off] of the buffer. *)
Definition write_data (off : Z) (bs : list Z) (buf : BUF_MEM) : option BUF_MEM :=
  match buf_data buf with
  | None => None
  | Some b =>
      if Z.of_nat (length (blk_bytes b)) <? off + Z.of_nat (length bs) then None
      else Some (mk_buf (buf_length buf) (Some (mk_block (blk_size b) (splice (Z.to_nat off) bs (blk_bytes b)))) (buf_max buf))
  end.

Definition BUF_MEM_grow (buf : BUF_MEM) (n : Z) : option (Z * BUF_MEM) :=
  let (ok, buf) := BUF_MEM_reserve buf n in
  if ok =? 0 then Some (0, buf)
  else
    match (if buf_length buf <? n then write_data (buf_length buf) (repeat 0 (Z.to_nat (n - buf_length buf))) buf else Some buf) with
    | None => None
    | Some buf => Some (n, mk_buf n (buf_data buf) (buf_max buf))
    end.

Definition BUF_MEM_grow_clean (buf : BUF_MEM) (n : Z) : option (Z * BUF_MEM) := BUF_MEM_grow buf n.

(** [inp] has [n] bytes at least. *)
Definition BUF_MEM_append (buf : BUF_MEM) (inp : list Z) (n : Z) : option (Z * BUF_MEM) :=
  if n =? 0 then Some (1, buf)
  else
    let new_len := size_t (buf_length buf + n) in
    if new_len <? n then Some (0, buf)
    else
      let (ok, buf) := BUF_MEM_reserve buf new_len in
      if ok =? 0 then Some (0, buf)
      else
        match write_data (buf_length buf) (firstn (Z.to_nat n) inp) buf with
        | None => None
        | Some buf => Some (1, mk_buf new_len (buf_data buf) (buf_max buf))
        end.

Definition BUF_strdup (str : option (list Z)) : option block := OPENSSL_strdup malloc str.
Definition BUF_strnlen (str : list Z) (max_len : Z) : Z := OPENSSL_strnlen str max_len.
Definition BUF_strndup (str : list Z) (size : Z) : option block := OPENSSL_strndup malloc str size.
Definition BUF_strlcpy (dst src : list Z) (dst_size : Z) : list Z * Z := OPENSSL_strlcpy dst src dst_size.
Definition BUF_strlcat (dst src : list Z) (dst_size : Z) : list Z * Z := OPENSSL_strlcat dst src dst_size.
Definition BUF_memdup (data : list Z) (size : Z) : option block := OPENSSL_memdup malloc data size.
End Buf.

(** ** The bytes of a buffer *)

Definition bytes_of (buf : BUF_MEM) : list Z :=
  match buf_data buf with
  | None => []
  | Some b => firstn (Z.to_nat (buf_length buf)) (blk_bytes b)
  end.

Definition buf_ok (buf : BUF_MEM) : Prop :=
  0 <= buf_length buf <= buf_max buf /\ buf_max buf < 2 ^ 64 /\
  match buf_data buf with
  | None => buf_max buf = 0
  | Some b => block_ok b /\ blk_size b = buf_max buf
  end.

Lemma bytes_of_length buf : buf_ok buf -> Z.of_nat (length (bytes_of buf)) = buf_length buf.
Proof.
  unfold buf_ok, bytes_of. intros (L & _ & D). destruct (buf_data buf) as [b|]; [|cbn [length]; lia].
  destruct D as [Ob Sz]. unfold block_ok in Ob. rewrite length_firstn. lia.
Qed.

Section Facts.
Variable malloc : Z -> option (list Z).
Hypothesis Hm : malloc_ok malloc.

(** Room for [cap] bytes, or nothing changes. *)
Lemma buf_reserve_spec buf cap : buf_ok buf -> word_ok 64 cap ->
  exists ok buf', BUF_MEM_reserve malloc buf cap = (ok, buf') /\
    (ok = 0 /\ buf' = buf /\ buf_max buf < cap \/
     ok = 1 /\ buf_ok buf' /\ cap <= buf_max buf' /\ buf_length buf' = buf_length buf /\ bytes_of buf' = bytes_of buf).
Proof.
  intros I Hc. unfold BUF_MEM_reserve. destruct (Z.leb_spec cap (buf_max buf)) as [L|L]; [exists 1, buf; split; [reflexivity|]; right; auto|].
  destruct (Z.ltb_spec (size_t (cap + 3)) cap) as [|L2]; [exists 0, buf; split; [reflexivity|]; left; auto|].
  destruct (Z.eqb_spec (size_t (size_t (cap + 3) / 3 * 4) / 4) (size_t (cap + 3) / 3)) as [E|E]; cbn [negb]; [|exists 0, buf; split; [reflexivity|]; left; auto].
  assert (E3 : size_t (cap + 3) = cap + 3).
  { unfold word_ok in *. destruct (Z.lt_ge_cases (cap + 3) (2 ^ 64)); [apply wrap_small; unfold word_ok; lia|].
    replace (size_t (cap + 3)) with (cap + 3 - 2 ^ 64) in L2 by (apply Z.mod_unique with 1; lia). lia. }
  rewrite E3 in *. set (n := (cap + 3) / 3) in *. assert (Hn : cap <= n * 4 /\ 0 <= n) by (unfold n, word_ok in *; lia_div).
  pose proof (wrap_range 64 (n * 4) ltac:(lia)) as W.
  assert (E4 : size_t (n * 4) = n * 4).
  { apply wrap_small. unfold word_ok in *. split; [lia|]. assert (size_t (n * 4) / 4 < 2 ^ 62) by (apply Z.div_lt_upper_bound; lia). lia. }
  rewrite E4 in *. destruct (OPENSSL_realloc malloc (buf_data buf) (n * 4)) as [b'|] eqn:R; [|exists 0, buf; split; [reflexivity|]; left; auto].
  exists 1, (mk_buf (buf_length buf) (Some b') (n * 4)). split; [reflexivity|]. right. split; [reflexivity|].
  destruct I as (Il & Im & Id). unfold buf_ok, bytes_of. cbn [buf_data buf_length buf_max].
  destruct (buf_data buf) as [b|].
  - destruct Id as [Ob Sz]. destruct (OPENSSL_realloc_ok malloc Hm b (n * 4) b' Ob W R) as (Ob' & Sz' & Pre).
    unfold word_ok in W. split; [split; [lia|split; [lia|split; [exact Ob'|exact Sz']]]|]. split; [lia|]. split; [reflexivity|]. apply Pre; lia.
  - cbn [OPENSSL_realloc] in R. destruct (OPENSSL_malloc_ok malloc Hm (n * 4) b' W R) as [Ob' Sz'].
    unfold word_ok in W. split; [split; [lia|split; [lia|split; [exact Ob'|exact Sz']]]|]. split; [lia|]. split; [reflexivity|].
    replace (buf_length buf) with 0 by lia. reflexivity.
Qed.

(** Bytes written behind the bytes of the buffer *)
Lemma write_spec buf bs n : buf_ok buf -> n = buf_length buf + Z.of_nat (length bs) -> n <= buf_max buf -> 0 < n ->
  exists buf', write_data (buf_length buf) bs buf = Some buf' /\ buf_ok (mk_buf n (buf_data buf') (buf_max buf')) /\ bytes_of (mk_buf n (buf_data buf') (buf_max buf')) = bytes_of buf ++ bs.
Proof.
  intros (Il & Im & Id) Hn L P. unfold write_data. destruct (buf_data buf) as [b|] eqn:Db; [|lia].
  destruct Id as [Ob Sz]. unfold block_ok in Ob. destruct (Z.ltb_spec (Z.of_nat (length (blk_bytes b))) (buf_length buf + Z.of_nat (length bs))); [lia|].
  eexists. split; [reflexivity|]. unfold buf_ok, bytes_of, block_ok. cbn [buf_data buf_length buf_max blk_bytes blk_size]. rewrite Db.
  rewrite length_splice by lia. split; [auto with zarith|]. unfold splice. rewrite app_assoc, firstn_app.
  rewrite !length_app, length_firstn. replace (Z.to_nat n - _)%nat with 0%nat by lia. rewrite firstn_O, app_nil_r. apply firstn_all2.
  rewrite length_app, length_firstn. lia.
Qed.

(** Appending and growing are appending to the bytes: [BUF_MEM_append] adds
    the bytes given, [BUF_MEM_grow] zeros or cuts the bytes off; they
    return 0 only when there is no memory, or no such size, and then the
    buffer is as it was. *)
Theorem BUF_MEM_correct (buf : BUF_MEM) (inp : list Z) (n : Z) (I : buf_ok buf) (Hn : word_ok 64 n) (Hi : n <= Z.of_nat (length inp)) :
  (exists ok buf', BUF_MEM_append malloc buf inp n = Some (ok, buf') /\ buf_ok buf' /\
     (ok = 0 /\ buf' = buf \/ ok = 1 /\ bytes_of buf' = bytes_of buf ++ firstn (Z.to_nat n) inp)) /\
  exists r buf', BUF_MEM_grow malloc buf n = Some (r, buf') /\ buf_ok buf' /\
    (r = 0 /\ buf' = buf \/ r = n /\ bytes_of buf' = firstn (Z.to_nat n) (bytes_of buf) ++ repeat 0 (Z.to_nat (n - buf_length buf))).
Proof.
  unfold word_ok in Hn. split.
  - unfold BUF_MEM_append. destruct (Z.eqb_spec n 0) as [->|N0]; [exists 1, buf; split; [reflexivity|]; split; [exact I|]; right; rewrite app_nil_r; auto|].
    destruct (Z.ltb_spec (size_t (buf_length buf + n)) n) as [L|L]; [exists 0, buf; auto|].
    assert (E : size_t (buf_length buf + n) = buf_length buf + n).
    { destruct I as (Il & Im & _). destruct (Z.lt_ge_cases (buf_length buf + n) (2 ^ 64)); [apply wrap_small; unfold word_ok; lia|].
      replace (size_t (buf_length buf + n)) with (buf_length buf + n - 2 ^ 64) in L by (apply Z.mod_unique with 1; lia). lia. }
    destruct (buf_reserve_spec buf (size_t (buf_length buf + n)) I ltac:(apply wrap_range; lia)) as (ok & buf1 & R & [(-> & -> & _)|(-> & I1 & M1 & L1 & B1)]); rewrite R; cbn [Z.eqb].
    + exists 0, buf. auto.
    + rewrite E in *. assert (Lf : Z.of_nat (length (firstn (Z.to_nat n) inp)) = n) by (rewrite length_firstn; lia).
      destruct I as (Il & _). destruct (write_spec buf1 (firstn (Z.to_nat n) inp) (buf_length buf + n) I1 ltac:(lia) M1 ltac:(lia)) as (buf2 & W & I2 & B2).
      rewrite W. eexists _, _. split; [reflexivity|]. split; [exact I2|]. right. split; [reflexivity|]. now rewrite B2, B1.
  - unfold BUF_MEM_grow. destruct (buf_reserve_spec buf n I Hn) as (ok & buf1 & R & [(-> & -> & _)|(-> & I1 & M1 & L1 & B1)]); rewrite R; cbn [Z.eqb].
    + exists 0, buf. auto.
    + rewrite L1. destruct I as (Il & _). pose proof (bytes_of_length buf1 I1) as Lb. destruct (Z.ltb_spec (buf_length buf) n) as [L|L].
      * destruct (write_spec buf1 (repeat 0 (Z.to_nat (n - buf_length buf))) n I1) as (buf2 & W & I2 & B2); [rewrite repeat_length; lia|lia|lia|].
        rewrite L1 in W. rewrite W. eexists _, _. split; [reflexivity|]. split; [exact I2|]. right. split; [reflexivity|]. rewrite B2, B1. f_equal.
        symmetry. apply firstn_all2. rewrite <- B1. lia.
      * eexists _, _. split; [reflexivity|]. replace (Z.to_nat (n - buf_length buf)) with 0%nat by lia. cbn [repeat]. rewrite app_nil_r, <- B1.
        unfold buf_ok, bytes_of in *. cbn [buf_data buf_length buf_max]. destruct (buf_data buf1) as [b|].
        -- split; [intuition lia|]. right. split; [reflexivity|]. rewrite firstn_firstn. f_equal. lia.
        -- split; [intuition lia|]. right. split; [reflexivity|]. now rewrite firstn_nil.
Qed.
End Facts.

Lemma BUF_MEM_correct_witness : exists ok buf',
  BUF_MEM_append zero_malloc (mk_buf 2 (Some (mk_block 4 [1; 2; 0; 0])) 4) [7; 8; 9] 3 = Some (ok, buf') /\ buf_ok buf'.
Proof.
  destruct (BUF_MEM_correct zero_malloc zero_malloc_ok (mk_buf 2 (Some (mk_block 4 [1; 2; 0; 0])) 4) [7; 8; 9] 3
    ltac:(split; [cbn; lia|split; [reflexivity|split; reflexivity]]) ltac:(unfold word_ok; lia) ltac:(reflexivity || (cbn; lia))) as ((ok & buf' & E & I & _) & _).
  exists ok, buf'. split; [exact E|exact I].
Defined.
