(* ===== verification/Asn1Time.v ===== *)
(** * Times of certificates

    BoringSSL's [asn1/time_support.c]: calendar arithmetic by Julian day
    numbers, and [asn1/a_utctm.c], [asn1/a_gentm.c] and [asn1/a_time.c]: the
    ASN.1 texts of times.  The C library's [gmtime_r] is a parameter.  An
    [int] is a [Z]; where the code's signed arithmetic leaves its range the
    behaviour is undefined, and the definition has no result ([int]). *)

From Stdlib Require Import ZArith Lia ZifyBool List Bool.
From S2P Require Import Prelude CStr.
Import ListNotations.

(** ** Definitions *)

(** *** Signed arithmetic

    [None] is undefined behaviour. *)
Definition int (x : Z) : option Z := if (- 2 ^ 31 <=? x) && (x <? 2 ^ 31) then Some x else None.

Definition then_ {A B} (m : option A) (k : A -> option B) : option B :=
  match m with
  | Some a => k a
  | None => None
  end.

Declare Scope ub_scope.
Delimit Scope ub_scope with ub.
Notation "x <- m ;; k" := (then_ m (fun x => k)) (at level 100, m at next level, right associativity) : ub_scope.
#[local] Open Scope ub_scope.

(** C's [/] and [%] *)
#[local] Infix "//" := Z.quot (at level 40, left associativity).
#[local] Infix "%%" := Z.rem (at level 40, left associativity).

Definition SECS_PER_DAY : Z := 24 * 60 * 60.

(** [struct tm], without what the code does not use *)
Record tm := mk_tm { tm_sec : Z; tm_min : Z; tm_hour : Z; tm_mday : Z; tm_mon : Z; tm_year : Z }.

Definition date_to_julian (y m d : Z) : option Z :=
  let q := (m - 14) // 12 in
  a <- int (1461 * (y + 4800 + q)) ;;
  b <- int (367 * (m - 2 - 12 * q)) ;;
  c <- int (3 * ((y + 4900 + q) // 100)) ;;
  int (a // 4 + b // 12 - c // 4 + d - 32075).

(** In [long], which is wide enough for every day of an [int] year *)
Definition julian_to_date (jd : Z) : Z * Z * Z :=
  let L := jd + 68569 in
  let n := (4 * L) // 146097 in
  let L := L - (146097 * n + 3) // 4 in
  let i := (4000 * (L + 1)) // 1461001 in
  let L := L - (1461 * i) // 4 + 31 in
  let j := (80 * L) // 2447 in
  let d := L - (2447 * j) // 80 in
  let L := j // 11 in
  let m := j + 2 - 12 * L in
  let y := 100 * (n - 49) + i + L in
  (y, m, d).

(** The inner option is the function's failure. *)
Definition julian_adj (t : tm) (off_day offset_sec : Z) : option (option (Z * Z)) :=
  let offset_day := sint 32 (u32 (offset_sec // SECS_PER_DAY)) in
  secs <- int (offset_day * SECS_PER_DAY) ;;
  let offset_hms := sint 32 (u32 (offset_sec - secs)) in
  offset_day <- int (offset_day + off_day) ;;
  hour <- int (tm_hour t * 3600) ;;
  min <- int (tm_min t * 60) ;;
  hms <- int (hour + min) ;;
  hms <- int (hms + tm_sec t) ;;
  offset_hms <- int (offset_hms + hms) ;;
  offset_day <- int (if SECS_PER_DAY <=? offset_hms then offset_day + 1
                     else if offset_hms <? 0 then offset_day - 1
                     else offset_day) ;;
  let offset_hms :=
    if SECS_PER_DAY <=? offset_hms then offset_hms - SECS_PER_DAY
    else if offset_hms <? 0 then offset_hms + SECS_PER_DAY
    else offset_hms in
  time_year <- int (tm_year t + 1900) ;;
  time_month <- int (tm_mon t + 1) ;;
  time_jd <- date_to_julian time_year time_month (tm_mday t) ;;
  let time_jd := time_jd + offset_day in
  Some (if time_jd <? 0 then None else Some (time_jd, offset_hms)).

Definition OPENSSL_gmtime_adj (t : tm) (off_day offset_sec : Z) : option (option tm) :=
  r <- julian_adj t off_day offset_sec ;;
  Some
    match r with
    | None => None
    | Some (time_jd, time_sec) =>
        let '(time_year, time_month, time_day) := julian_to_date time_jd in
        if (time_year <? 1900) || (9999 <? time_year) then None
        else Some (mk_tm (time_sec %% 60) ((time_sec // 60) %% 60) (time_sec // 3600)
                     time_day (time_month - 1) (time_year - 1900))
    end.

(** [out_days] and [out_secs] are the result. *)
Definition OPENSSL_gmtime_diff (from to : tm) : option (option (Z * Z)) :=
  f <- julian_adj from 0 0 ;;
  match f with
  | None => Some None
  | Some (from_jd, from_sec) =>
      t <- julian_adj to 0 0 ;;
      match t with
      | None => Some None
      | Some (to_jd, to_sec) =>
          let diff_day := to_jd - from_jd in
          let diff_sec := to_sec - from_sec in
          let (diff_day, diff_sec) :=
            if (0 <? diff_day) && (diff_sec <? 0) then (diff_day - 1, diff_sec + SECS_PER_DAY) else (diff_day, diff_sec) in
          let (diff_day, diff_sec) :=
            if (diff_day <? 0) && (0 <? diff_sec) then (diff_day + 1, diff_sec - SECS_PER_DAY) else (diff_day, diff_sec) in
          Some (Some (sint 32 (u32 diff_day), diff_sec))
      end
  end.

(** ** The calendar *)

Definition leap (y : Z) : bool := (y mod 4 =? 0) && (negb (y mod 100 =? 0) || (y mod 400 =? 0)).

Definition days_in_month (y m : Z) : Z :=
  if m =? 2 then if leap y then 29 else 28
  else if (m =? 4) || (m =? 6) || (m =? 9) || (m =? 11) then 30 else 31.

Definition date_ok (y m d : Z) : Prop := 1 <= m <= 12 /\ 1 <= d <= days_in_month y m.

(** Days before the first of a month *)
Definition days_before (y m : Z) : Z :=
  nth (Z.to_nat m) [0; 0; 31; 59; 90; 120; 151; 181; 212; 243; 273; 304; 334] 0 + (if (2 <? m) && leap y then 1 else 0).

(** The number of a day of the Gregorian calendar: 1 January 1970 is 2440588. *)
Definition day_number (y m d : Z) : Z :=
  365 * (y - 1) + (y - 1) / 4 - (y - 1) / 100 + (y - 1) / 400 + days_before y m + d + 1721425.

(** The day after *)
Definition next_day (y m d : Z) : Z * Z * Z :=
  if d <? days_in_month y m then (y, m, d + 1) else if m <? 12 then (y, m + 1, 1) else (y + 1, 1, 1).

Lemma month_cases (P : Z -> Prop) : P 1 -> P 2 -> P 3 -> P 4 -> P 5 -> P 6 -> P 7 -> P 8 -> P 9 -> P 10 -> P 11 -> P 12 ->
  forall m, 1 <= m <= 12 -> P m.
Proof.
  intros. assert (m = 1 \/ m = 2 \/ m = 3 \/ m = 4 \/ m = 5 \/ m = 6 \/ m = 7 \/ m = 8 \/ m = 9 \/ m = 10 \/ m = 11 \/ m = 12) as C by lia.
  repeat (destruct C as [->|C]; [assumption|]). now subst.
Qed.

Lemma div_pred y k : 0 < k -> (y - 1) / k = y / k - (if y mod k =? 0 then 1 else 0).
Proof.
  intros Hk. pose proof (Z.div_mod y k ltac:(lia)) as E. pose proof (Z.mod_pos_bound y k Hk) as B. symmetry.
  destruct (Z.eqb_spec (y mod k) 0); [apply Z.div_unique with (k - 1)|apply Z.div_unique with (y mod k - 1)]; lia.
Qed.

(** Leap years in terms of quotients *)
Lemma leap_spec y : (if leap y then 1 else 0) = (y / 4 - y / 100 + y / 400) - ((y - 1) / 4 - (y - 1) / 100 + (y - 1) / 400).
Proof.
  rewrite !div_pred by lia. unfold leap.
  assert (y mod 400 = 0 -> y mod 100 = 0) by (intros; lia_div). assert (y mod 100 = 0 -> y mod 4 = 0) by (intros; lia_div).
  destruct (Z.eqb_spec (y mod 4) 0), (Z.eqb_spec (y mod 100) 0), (Z.eqb_spec (y mod 400) 0); cbn [andb negb orb]; lia.
Qed.

Lemma day_number_next y m d : date_ok y m d ->
  let '(y', m', d') := next_day y m d in date_ok y' m' d' /\ day_number y' m' d' = day_number y m d + 1.
Proof.
  intros (Hm & Hd). unfold next_day. pose proof (leap_spec y) as L. destruct (Z.ltb_spec d (days_in_month y m)).
  - split; [split; lia|]. unfold day_number. lia.
  - destruct (Z.ltb_spec m 12) as [M|M].
    + cut (days_before y (m + 1) = days_before y m + days_in_month y m /\ 1 <= days_in_month y (m + 1)).
      { intros (E1 & E2). split; [split; lia|]. unfold day_number. lia. }
      clear Hd H L. unfold days_before, days_in_month. generalize (leap y). intros b.
      revert m Hm M. refine (month_cases _ _ _ _ _ _ _ _ _ _ _ _ _); intros M; try lia; cbn; destruct b; now vm_compute.
    + assert (m = 12) as -> by lia. change (days_in_month y 12) with 31 in *.
      split; [split; [lia|change (days_in_month (y + 1) 1) with 31; lia]|].
      unfold day_number. change (days_before (y + 1) 1) with 0. change (days_before y 12) with (334 + (if leap y then 1 else 0)).
      replace (y + 1 - 1) with y by lia. lia.
Qed.

(** ** Julian days *)

Lemma days_in_month_range y m : 28 <= days_in_month y m <= 31.
Proof.
  unfold days_in_month. destruct (m =? 2); [destruct (leap y); lia|]. destruct (_ || _); lia.
Qed.

(** January and February count with the year before. *)
Lemma julian_quot m : 1 <= m <= 12 -> (m - 14) // 12 = if m <=? 2 then - 1 else 0.
Proof. revert m. now apply month_cases. Qed.

Lemma int_some x : - 2 ^ 31 <= x < 2 ^ 31 -> int x = Some x.
Proof. intros Hx. unfold int. now rewrite (proj2 (Z.leb_le _ _)), (proj2 (Z.ltb_lt _ _)) by lia. Qed.

(** The quotients of the formula for a year [Y] that begins in March *)
Lemma julian_year Y : 0 <= Y + 1 ->
  (1461 * (Y + 4800)) / 4 - (3 * ((Y + 4900) / 100)) / 4 = 365 * Y + Y / 4 - Y / 100 + Y / 400 + 1753164.
Proof.
  intros HY. assert (E1 : (1461 * (Y + 4800)) / 4 = 365 * Y + Y / 4 + 1753200) by lia_div.
  assert (E2 : (Y + 4900) / 100 = Y / 100 + 49) by lia_div.
  assert (E3 : Y / 400 = Y / 100 / 4) by (rewrite Z.div_div by lia; reflexivity).
  rewrite E1, E2, E3. generalize (Y / 100). intros c. lia_div.
Qed.

(** Counted by years that begin in March *)
Lemma day_number_march y m d : 1 <= m <= 12 -> let q := if m <=? 2 then -1 else 0 in
  365 * (y + q) + (y + q) / 4 - (y + q) / 100 + (y + q) / 400 + (367 * (m - 2 - 12 * q)) / 12 + d + 1721089 = day_number y m d.
Proof.
  intros Hm q. unfold day_number, days_before. pose proof (leap_spec y) as L. subst q. revert m Hm.
  refine (month_cases _ _ _ _ _ _ _ _ _ _ _ _ _).
  all: match goal with |- context [nth ?n ?l 0] => let v := eval vm_compute in (nth n l 0) in change (nth n l 0) with v end.
  all: match goal with |- context [(367 * ?e) / 12] => let v := eval vm_compute in ((367 * e) / 12) in change ((367 * e) / 12) with v end.
  all: cbn [Z.leb Z.ltb Z.compare Pos.compare Pos.compare_cont andb]; rewrite ?Z.add_0_r; change (y + -1) with (y - 1); lia.
Qed.

(** The formula of Fliegel and Van Flandern counts the days. *)
Lemma date_to_julian_spec y m d : 1 <= m <= 12 -> 1 <= d <= 31 -> 0 <= y < 1400000 ->
  date_to_julian y m d = Some (day_number y m d).
Proof.
  intros Hm Hd Hy. unfold date_to_julian. rewrite (julian_quot m Hm).
  set (q := if m <=? 2 then -1 else 0).
  assert (Q : (q = -1 /\ m <= 2) \/ (q = 0 /\ 3 <= m)) by (subst q; destruct (Z.leb_spec m 2); lia).
  rewrite (int_some (1461 * _)) by lia. cbn [then_]. rewrite (int_some (367 * _)) by lia. cbn [then_].
  rewrite (Z.quot_div_nonneg (y + 4900 + q)) by lia. rewrite (int_some (3 * _)) by lia_div. cbn [then_].
  rewrite !Z.quot_div_nonneg by lia_div. pose proof (julian_year (y + q) ltac:(lia)) as J.
  replace (y + 4800 + q) with (y + q + 4800) by lia. replace (y + 4900 + q) with (y + q + 4900) by lia.
  pose proof (day_number_march y m d Hm) as E. fold q in E. cbv zeta in E.
  rewrite int_some; [f_equal; lia|].
  assert (0 <= (367 * (m - 2 - 12 * q)) / 12 <= 400) by lia_div. lia_div.
Qed.

(** Back from the day of the year [31 + D], counted from March, of the year
    [100 * C + r] *)
Lemma julian_to_date_year C r D : 0 <= C -> 0 <= r < 100 -> 0 <= D <= 365 -> (D = 365 -> r mod 4 = 3 /\ (r = 99 -> C mod 4 = 3)) ->
  julian_to_date (36524 * C + C / 4 + 365 * r + r / 4 + D + 1721120) =
  (let j := 80 * (D + 31) / 2447 in (100 * C + r + j / 11, j + 2 - 12 * (j / 11), D + 31 - 2447 * j / 80)).
Proof.
  intros HC Hr HD HL. unfold julian_to_date. set (L := 36524 * C + C / 4 + 365 * r + r / 4 + D + 1721120 + 68569).
  assert (N : (4 * L) // 146097 = C + 49).
  { rewrite Z.quot_div_nonneg by (subst L; lia_div). symmetry. apply Z.div_unique with (4 * L - 146097 * (C + 49)); [left|lia].
    subst L. destruct (Z.eq_dec D 365) as [->|]; [destruct (HL eq_refl) as (H4 & H99)|]; lia_div. }
  rewrite N. assert (L2 : L - (146097 * (C + 49) + 3) // 4 = 365 * r + r / 4 + D).
  { rewrite Z.quot_div_nonneg by lia. subst L. lia_div. }
  rewrite L2. assert (I : 4000 * (365 * r + r / 4 + D + 1) // 1461001 = r).
  { rewrite Z.quot_div_nonneg by lia_div. symmetry. apply Z.div_unique with (4000 * (365 * r + r / 4 + D + 1) - 1461001 * r); [left|lia].
    destruct (Z.eq_dec D 365) as [->|]; [destruct (HL eq_refl) as (H4 & _)|]; lia_div. }
  rewrite I. assert (L3 : 365 * r + r / 4 + D - 1461 * r // 4 + 31 = D + 31).
  { rewrite Z.quot_div_nonneg by lia. lia_div. }
  rewrite L3. rewrite (Z.quot_div_nonneg (80 * _)) by lia. cbv zeta. set (j := 80 * (D + 31) / 2447).
  assert (0 <= j) by (subst j; lia_div). rewrite !Z.quot_div_nonneg by lia. f_equal. f_equal. lia.
Qed.

(** The day of the year, counted from March *)
Lemma march_day y m d : date_ok y m d -> let q := if m <=? 2 then -1 else 0 in let D := 367 * (m - 2 - 12 * q) / 12 + d - 31 in
  0 <= D <= 365 /\ (D = 365 -> leap y = true /\ q = -1) /\
  let j := 80 * (D + 31) / 2447 in j / 11 = - q /\ j + 2 - 12 * (j / 11) = m /\ D + 31 - 2447 * j / 80 = d.
Proof.
  intros (Hm & Hd) q D. subst D q. revert m Hm Hd. unfold days_in_month. generalize (leap y). intros b.
  refine (month_cases _ _ _ _ _ _ _ _ _ _ _ _ _).
  all: match goal with |- context [(367 * ?e) / 12] => let v := eval vm_compute in ((367 * e) / 12) in change ((367 * e) / 12) with v end.
  all: cbn [Z.leb Z.ltb Z.eqb Z.compare Pos.compare Pos.compare_cont Pos.eqb orb]; intros Hd; try (destruct b).
  all: cbv zeta; match goal with |- context [80 * ?e / 2447] => remember (80 * e / 2447) as j eqn:Ej end.
  all: repeat split; try discriminate; try lia_div.
Qed.

Lemma julian_to_date_spec y m d : date_ok y m d -> 0 < y -> julian_to_date (day_number y m d) = (y, m, d).
Proof.
  intros Hd Hy. pose proof (day_number_march y m d (proj1 Hd)) as E. pose proof (march_day y m d Hd) as (R & F & J1 & J2 & J3).
  pose proof (leap_spec y) as L. set (q := if m <=? 2 then -1 else 0) in *.
  assert (Q : -1 <= q <= 0) by (subst q; destruct (m <=? 2); lia). clearbody q. cbv zeta in E, F, J1, J2, J3.
  set (D := 367 * (m - 2 - 12 * q) / 12 + d - 31) in *.
  assert (E' : day_number y m d = 36524 * ((y + q) / 100) + (y + q) / 100 / 4 + 365 * ((y + q) mod 100) + (y + q) mod 100 / 4 + D + 1721120).
  { rewrite <- E. subst D. generalize (367 * (m - 2 - 12 * q) / 12). intros M. lia_div. }
  rewrite E', julian_to_date_year; [|lia_div|lia_div|lia|].
  - cbv zeta. rewrite J2, J3, J1. f_equal. f_equal. lia_div.
  - intros ED. destruct (F ED) as (Ly & ->). rewrite Ly in L. lia_div.
Qed.

(** Every day from 1 January of year 1 on has a date. *)
Lemma day_has_date jd : 1721426 <= jd -> exists y m d, date_ok y m d /\ 0 < y /\ day_number y m d = jd.
Proof.
  intros Hj. replace jd with (1721426 + Z.of_nat (Z.to_nat (jd - 1721426))) by lia. generalize (Z.to_nat (jd - 1721426)). clear.
  induction n as [|n (y & m & d & Hd & Hy & E)]; [exists 1, 1, 1; split; [split; cbn; lia|split; [lia|reflexivity]]|].
  pose proof (day_number_next y m d Hd) as N. destruct (next_day y m d) as [[y' m'] d'] eqn:En. destruct N as (Hd' & E').
  exists y', m', d'. split; [exact Hd'|]. split; [|lia]. unfold next_day in En. destruct (d <? _); [|destruct (m <? 12)]; injection En; lia.
Qed.

(** Earlier days are in no year that matters. *)
Lemma julian_to_date_early jd : 0 <= jd < 1721426 -> fst (fst (julian_to_date jd)) < 1900.
Proof.
  intros Hj. unfold julian_to_date. cbn [fst]. set (n := (4 * (jd + 68569)) // 146097).
  assert (N : n = 4 * (jd + 68569) / 146097) by (apply Z.quot_div_nonneg; lia). clearbody n.
  set (L := jd + 68569 - (146097 * n + 3) // 4).
  assert (HL : 0 <= L <= 36524) by (subst L; rewrite Z.quot_div_nonneg by lia_div; lia_div).
  set (i := 4000 * (L + 1) // 1461001). assert (I : i = 4000 * (L + 1) / 1461001) by (apply Z.quot_div_nonneg; lia). clearbody i.
  rewrite (Z.quot_div_nonneg (1461 * i)) by lia_div. set (L3 := L - 1461 * i / 4 + 31).
  assert (H3 : 0 <= L3 <= 400) by (subst L3; lia_div). rewrite (Z.quot_div_nonneg (80 * L3)) by lia. rewrite Z.quot_div_nonneg by lia_div. lia_div.
Qed.

Lemma days_before_range y m : 1 <= m <= 12 -> 0 <= days_before y m <= 340.
Proof.
  intros Hm. unfold days_before. assert (0 <= nth (Z.to_nat m) [0; 0; 31; 59; 90; 120; 151; 181; 212; 243; 273; 304; 334] 0 <= 334).
  { revert m Hm. now apply month_cases. }
  destruct ((2 <? m) && leap y); lia.
Qed.

Lemma day_number_bound y m d : 1 <= m <= 12 -> 1 <= d <= 31 -> 0 <= y ->
  1721060 <= day_number y m d <= 366 * y + 1721500 + 366 /\ (0 < y -> 1721426 <= day_number y m d).
Proof. intros Hm Hd Hy. pose proof (days_before_range y m Hm). unfold day_number. lia_div. Qed.

(** ** Times *)

Definition tm_ok (t : tm) : Prop :=
  date_ok (tm_year t + 1900) (tm_mon t + 1) (tm_mday t) /\ 0 < tm_year t + 1900 < 1400000 /\
  0 <= tm_hour t < 24 /\ 0 <= tm_min t < 60 /\ 0 <= tm_sec t < 60.

(** Every field is in its range; the month may have fewer days. *)
Definition tm_fields (t : tm) : Prop :=
  1 <= tm_mon t + 1 <= 12 /\ 1 <= tm_mday t <= 31 /\ 0 <= tm_year t + 1900 < 1400000 /\
  0 <= tm_hour t < 24 /\ 0 <= tm_min t < 60 /\ 0 <= tm_sec t < 60.

Lemma tm_ok_fields t : tm_ok t -> tm_fields t.
Proof.
  intros ((M & D) & Y & T). pose proof (days_in_month_range (tm_year t + 1900) (tm_mon t + 1)). unfold tm_fields. lia.
Qed.

Lemma tm_ok_day t : tm_ok t -> 1721426 <= day_number (tm_year t + 1900) (tm_mon t + 1) (tm_mday t).
Proof.
  intros Ok. destruct (tm_ok_fields t Ok) as (M & D & Y & _). destruct Ok as (_ & Y' & _). now apply day_number_bound.
Qed.

(** Seconds since the beginning of the first Julian day *)
Definition seconds (t : tm) : Z :=
  86400 * day_number (tm_year t + 1900) (tm_mon t + 1) (tm_mday t) + 3600 * tm_hour t + 60 * tm_min t + tm_sec t.

Lemma seconds_inj t t' : tm_ok t -> tm_ok t' -> seconds t = seconds t' -> t = t'.
Proof.
  intros (D & Y & H & M & S) (D' & Y' & H' & M' & S') E. unfold seconds in E.
  assert (Ed : day_number (tm_year t + 1900) (tm_mon t + 1) (tm_mday t) = day_number (tm_year t' + 1900) (tm_mon t' + 1) (tm_mday t')) by lia.
  pose proof (julian_to_date_spec _ _ _ D ltac:(lia)) as J. rewrite Ed, (julian_to_date_spec _ _ _ D' ltac:(lia)) in J.
  injection J as Ey Em Edd. destruct t, t'. cbn [tm_sec tm_min tm_hour tm_mday tm_mon tm_year] in *. f_equal; lia.
Qed.

Lemma sint32_small x : - 2 ^ 31 <= x < 2 ^ 31 -> sint 32 (u32 x) = x.
Proof.
  intros Hx. rewrite sint_spec by (lia || now apply wrap_range). unfold wrap. destruct (Z.lt_ge_cases x 0).
  - replace (x mod 2 ^ 32) with (x + 2 ^ 32); [destruct (Z.leb_spec (2 ^ (32 - 1)) (x + 2 ^ 32)); lia|].
    rewrite <- (Z_mod_plus_full x 1). symmetry. apply Z.mod_small. lia.
  - rewrite Z.mod_small by lia. destruct (Z.leb_spec (2 ^ (32 - 1)) x); lia.
Qed.

(** The day and the second of the day of a time and an offset *)
Lemma julian_adj_spec t off_day offset_sec : tm_fields t -> Z.abs off_day < 2 ^ 30 -> Z.abs offset_sec < 2 ^ 31 ->
  exists day sec, 0 <= sec < 86400 /\ 86400 * day + sec = seconds t + 86400 * off_day + offset_sec /\
    julian_adj t off_day offset_sec = Some (if day <? 0 then None else Some (day, sec)).
Proof.
  intros (Mo & D & Y & H & M & S) Hd Hs. pose proof (day_number_bound (tm_year t + 1900) _ _ Mo D ltac:(lia)) as (B & _).
  unfold julian_adj, SECS_PER_DAY. change (24 * 60 * 60) with 86400.
  pose proof (Z.quot_rem offset_sec 86400 ltac:(lia)) as Q. set (q := offset_sec // 86400) in *.
  assert (R : - 86400 < Z.rem offset_sec 86400 < 86400) by (pose proof (Z.rem_bound_abs offset_sec 86400 ltac:(lia)); lia).
  assert (0 <= offset_sec -> 0 <= Z.rem offset_sec 86400) by (apply Z.rem_nonneg; lia).
  assert (offset_sec <= 0 -> Z.rem offset_sec 86400 <= 0) by (apply Z.rem_nonpos; lia).
  assert (Qb : - 24856 < q < 24856) by lia. rewrite (sint32_small q) by lia. rewrite (int_some (q * 86400)) by lia. cbn [then_].
  replace (offset_sec - q * 86400) with (Z.rem offset_sec 86400) by lia. set (r := Z.rem offset_sec 86400) in *. rewrite (sint32_small r) by lia.
  rewrite (int_some (q + off_day)) by lia. cbn [then_]. rewrite (int_some (tm_hour t * 3600)) by lia. cbn [then_]. rewrite (int_some (tm_min t * 60)) by lia. cbn [then_].
  rewrite (int_some (tm_hour t * 3600 + _)) by lia. cbn [then_]. rewrite (int_some (_ + tm_sec t)) by lia. cbn [then_]. rewrite (int_some (r + _)) by lia. cbn [then_].
  set (hms := r + _). assert (Hh : -86400 < hms < 2 * 86400) by (subst hms; lia).
  rewrite int_some by (destruct (86400 <=? hms), (hms <? 0); lia). cbn [then_].
  rewrite (int_some (tm_year t + 1900)), (int_some (tm_mon t + 1)) by lia. cbn [then_].
  rewrite (date_to_julian_spec (tm_year t + 1900) _ _ Mo D ltac:(lia)).
  destruct (Z.leb_spec 86400 hms); [|destruct (Z.ltb_spec hms 0)]; cbn [then_]; eexists _, _; (split; [|split; [|reflexivity]]); unfold seconds; subst hms; lia.
Qed.

(** The time at a second of a day *)
Lemma time_of_day y m d sec : date_ok y m d -> 0 < y < 1400000 -> 0 <= sec < 86400 ->
  let t := mk_tm (sec %% 60) ((sec // 60) %% 60) (sec // 3600) d (m - 1) (y - 1900) in
  tm_ok t /\ seconds t = 86400 * day_number y m d + sec.
Proof.
  intros D Y S. unfold tm_ok, seconds. cbn [tm_sec tm_min tm_hour tm_mday tm_mon tm_year]. rewrite !Z.sub_add.
  rewrite (Z.quot_div_nonneg sec 60), (Z.quot_div_nonneg sec 3600), !Z.rem_mod_nonneg by lia_div.
  split; [|lia_div]. split; [exact D|]. split; [lia|lia_div].
Qed.

Lemma gmtime_adj_spec (t : tm) (off_day offset_sec : Z)
  (Ht : tm_fields t) (Hday : Z.abs off_day < 2 ^ 30) (Hsec : Z.abs offset_sec < 2 ^ 31) :
  exists r, OPENSSL_gmtime_adj t off_day offset_sec = Some r /\
    forall t', r = Some t' <->
      tm_ok t' /\ 1900 <= tm_year t' + 1900 <= 9999 /\ seconds t' = seconds t + 86400 * off_day + offset_sec.
Proof.
  destruct (julian_adj_spec t off_day offset_sec Ht Hday Hsec) as (day & sec & Hs & E & J).
  unfold OPENSSL_gmtime_adj. rewrite J. cbn [then_]. eexists. split; [reflexivity|]. rewrite <- E. clear E J Ht Hday Hsec. intros t'.
  assert (Back : tm_ok t' -> seconds t' = 86400 * day + sec -> day = day_number (tm_year t' + 1900) (tm_mon t' + 1) (tm_mday t')).
  { intros (_ & _ & H & M & S) E'. unfold seconds in E'. lia. }
  destruct (Z.ltb_spec day 0) as [Neg|Pos].
  { split; [discriminate|]. intros (Ok & Y & E'). pose proof (Back Ok E'). pose proof (tm_ok_day t' Ok). lia. }
  destruct (Z.lt_ge_cases day 1721426) as [Early|Late].
  { pose proof (julian_to_date_early day ltac:(lia)) as Hy. destruct (julian_to_date day) as [[y m] d]. cbn [fst] in Hy.
    rewrite (proj2 (Z.ltb_lt y 1900)) by lia. split; [discriminate|]. intros (Ok & Y & E'). pose proof (Back Ok E'). pose proof (tm_ok_day t' Ok). lia. }
  destruct (day_has_date day Late) as (y & m & d & D & Y & Ed). rewrite <- Ed, (julian_to_date_spec y m d D Y).
  destruct (Z.ltb_spec y 1900), (Z.ltb_spec 9999 y); cbn [orb].
  1-3: split; [discriminate|]; intros (Ok & Y' & E'); rewrite Ed in E'; pose proof (Back Ok E') as Eb; pose proof Ok as (D' & _);
    rewrite <- Ed in Eb; pose proof (julian_to_date_spec y m d D Y) as J1; rewrite Eb, (julian_to_date_spec _ _ _ D') in J1 by lia; injection J1; lia.
  pose proof (time_of_day y m d sec D ltac:(lia) Hs) as (Ok & E). split.
  - intros [= <-]. split; [exact Ok|]. split; [cbn [tm_year]; lia|exact E].
  - intros (Ok' & _ & E'). f_equal. apply seconds_inj; [exact Ok|exact Ok'|now rewrite E, E'].
Qed.

(** C40: Moving a time by days and seconds gives the calendar time that many
    seconds later or earlier, over month ends, leap years and year ends,
    whenever the fields are in their ranges, and fails exactly when that time is not in the years
    1900 to 9999; the arithmetic does not overflow when the offsets are less
    than [2^30] days and [2^31] seconds. *)
Theorem OPENSSL_gmtime_adj_correct (t : tm) (off_day offset_sec : Z)
  (Ht : tm_fields t) (Hday : Z.abs off_day < 2 ^ 30) (Hsec : Z.abs offset_sec < 2 ^ 31) :
  exists r, OPENSSL_gmtime_adj t off_day offset_sec = Some r /\
    forall t', r = Some t' <->
      tm_ok t' /\ 1900 <= tm_year t' + 1900 <= 9999 /\ seconds t' = seconds t + 86400 * off_day + offset_sec.
Proof. exact (gmtime_adj_spec t off_day offset_sec Ht Hday Hsec). Qed.

Lemma OPENSSL_gmtime_adj_correct_witness :
  OPENSSL_gmtime_adj (mk_tm 30 59 23 28 1 120) 1 60 = Some (Some (mk_tm 30 0 0 1 2 120)) /\
  seconds (mk_tm 30 0 0 1 2 120) = seconds (mk_tm 30 59 23 28 1 120) + 86400 * 1 + 60.
Proof.
  destruct (OPENSSL_gmtime_adj_correct (mk_tm 30 59 23 28 1 120) 1 60) as (r & E & H); [unfold tm_fields; cbn; lia|lia|lia|].
  assert (E' : OPENSSL_gmtime_adj (mk_tm 30 59 23 28 1 120) 1 60 = Some (Some (mk_tm 30 0 0 1 2 120))) by reflexivity.
  split; [exact E'|]. rewrite E' in E. injection E as <-. now apply H.
Defined.

Lemma gmtime_diff_spec (from to : tm) (Hfrom : tm_fields from) (Hto : tm_fields to) :
  exists days secs, OPENSSL_gmtime_diff from to = Some (Some (days, secs)) /\
    86400 * days + secs = seconds to - seconds from /\ Z.abs secs < 86400 /\ 0 <= days * secs.
Proof.
  destruct (julian_adj_spec from 0 0 Hfrom) as (d1 & s1 & H1 & E1 & J1); [lia..|].
  destruct (julian_adj_spec to 0 0 Hto) as (d2 & s2 & H2 & E2 & J2); [lia..|].
  assert (Pos : forall t, tm_fields t -> 0 < seconds t < 86400 * 600000000).
  { intros t (Mo & D & Y & H & M & S). pose proof (day_number_bound (tm_year t + 1900) _ _ Mo D ltac:(lia)). unfold seconds. lia. }
  pose proof (Pos _ Hfrom). pose proof (Pos _ Hto). unfold OPENSSL_gmtime_diff, SECS_PER_DAY. change (24 * 60 * 60) with 86400.
  rewrite J1, J2. cbn [then_]. rewrite (proj2 (Z.ltb_ge d1 0)), (proj2 (Z.ltb_ge d2 0)) by lia. cbv zeta.
  destruct (Z.ltb_spec 0 (d2 - d1)), (Z.ltb_spec (s2 - s1) 0); cbn [andb].
  2-4: destruct (Z.ltb_spec (d2 - d1) 0), (Z.ltb_spec 0 (s2 - s1)); cbn [andb].
  1: rewrite (proj2 (Z.ltb_ge (d2 - d1 - 1) 0)) by lia; cbn [andb].
  all: rewrite sint32_small by lia; eexists _, _; (split; [reflexivity|]); split; [lia|split; [lia|nia]].
Qed.

(** The difference of two times in days and seconds is exact: the
    days and the seconds have the same sign, the seconds are less than a day,
    and together they are the seconds between the times. *)
Theorem OPENSSL_gmtime_diff_correct (from to : tm) (Hfrom : tm_fields from) (Hto : tm_fields to) :
  exists days secs, OPENSSL_gmtime_diff from to = Some (Some (days, secs)) /\
    86400 * days + secs = seconds to - seconds from /\ Z.abs secs < 86400 /\ 0 <= days * secs.
Proof. exact (gmtime_diff_spec from to Hfrom Hto). Qed.

Lemma OPENSSL_gmtime_diff_correct_witness : exists days secs,
  OPENSSL_gmtime_diff (mk_tm 30 59 23 28 1 120) (mk_tm 0 0 12 1 0 100) = Some (Some (days, secs)) /\
  86400 * days + secs = seconds (mk_tm 0 0 12 1 0 100) - seconds (mk_tm 30 59 23 28 1 120).
Proof.
  destruct (OPENSSL_gmtime_diff_correct (mk_tm 30 59 23 28 1 120) (mk_tm 0 0 12 1 0 100)) as (days & secs & E & H & _);
    [unfold tm_fields; cbn; lia..|]. exists days, secs. now split.
Defined.
