(* ===== verification/Asn1Text.v ===== *)
(** * ASN.1 texts of times

    BoringSSL's [asn1/a_utctm.c], [asn1/a_gentm.c] and [asn1/a_time.c], with
    [ASN1_STRING_set] of [asn1/asn1_lib.c]: UTCTime and GeneralizedTime are
    parsed into a [struct tm], printed, compared and converted.  The C
    library's [gmtime_r] and [time], and the object constructors a macro
    generates from a template, are parameters; so is [malloc].

    A text is read through a pointer: a read outside of the block has no
    result (undefined behaviour, the outer [None]); the inner [None] is the
    failure the function reports.  What a failing parser leaves in the
    caller's [struct tm] is not modelled: every caller drops it. *)

From Stdlib Require Import ZArith Lia ZifyBool List Bool.
From S2P Require Import Prelude CStr ConstTime Mem Asn1Time.
Import ListNotations.
#[local] Open Scope ub_scope.

(** ** Definitions *)

(** *** Undefined behaviour and failure *)

Definition outcome (A : Type) : Type := option (option A).

Definition done {A} (a : A) : outcome A := Some (Some a).

Definition err {A} : outcome A := Some None.

Definition check {A} (b : bool) (k : outcome A) : outcome A := if b then k else err.

Definition after {A B} (m : outcome A) (k : A -> outcome B) : outcome B :=
  r <- m ;;
  match r with
  | Some a => k a
  | None => err
  end.

Notation "x <-- m ;; k" := (after m (fun x => k)) (at level 100, m at next level, right associativity) : ub_scope.

(** *** Strings *)

Definition V_ASN1_UTCTIME : Z := 23.
Definition V_ASN1_GENERALIZEDTIME : Z := 24.

Record ASN1_STRING := mk_string { str_length : Z; str_type : Z; str_data : option block; str_flags : Z }.

(** [a[o]], a [char] *)
Definition char_at (a : option block) (o : Z) : outcome Z :=
  match a with
  | Some b =>
      match nth_error (blk_bytes b) (Z.to_nat o) with
      | Some c => done (schar c)
      | None => None
      end
  | None => None
  end.

Definition is_digit (c : Z) : bool := (48 <=? c) && (c <=? 57).

Section Strings.
Variable malloc : Z -> option (list Z).

(** For a [_data] outside of the string; its block's prefix is not used.
    [len] is below [INT_MAX]. *)
Definition ASN1_STRING_set (str : ASN1_STRING) (_data : option block) (len : Z) : ASN1_STRING * bool :=
  let start :=
    if len <? 0 then
      match _data with
      | None => None
      | Some d => Some (strlen (blk_bytes d))
      end
    else Some len in
  match start with
  | None => (str, false)
  | Some len =>
      let buffer :=
        if (str_length str <=? len) || (match str_data str with None => true | Some _ => false end)
        then OPENSSL_realloc malloc (str_data str) (len + 1) else str_data str in
      match buffer with
      | None => (str, false)
      | Some c =>
          let bytes :=
            match _data with
            | Some d => set_nth (Z.to_nat len) 0 (splice 0 (firstn (Z.to_nat len) (blk_bytes d)) (blk_bytes c))
            | None => blk_bytes c
            end in
          (mk_string len (str_type str) (Some (mk_block (blk_size c) bytes)) (str_flags str), true)
      end
  end.

Definition ASN1_STRING_copy (dst str : ASN1_STRING) : ASN1_STRING * bool :=
  let (dst, ok) := ASN1_STRING_set dst (str_data str) (str_length str) in
  if ok then (mk_string (str_length dst) (str_type str) (str_data dst) (str_flags str), true) else (dst, false).
End Strings.

(** *** Fields of two digits *)

(** One turn of the loops: a field between [lo] and [hi] *)
Definition two_digits (a : option block) (l o lo hi : Z) : outcome (Z * Z) :=
  c <-- char_at a o ;;
  check (is_digit c)
    (let n := c - 48 in
     let o := o + 1 in
     check (o <=? l)
       (c <-- char_at a o ;;
        check (is_digit c)
          (let n := n * 10 + c - 48 in
           let o := o + 1 in
           check (o <=? l) (check ((lo <=? n) && (n <=? hi)) (done (n, o)))))).

Definition is_zone (c : Z) : bool := (c =? 90) || (c =? 43) || (c =? 45).

Definition with_sec (n : Z) (t : tm) : tm := mk_tm n (tm_min t) (tm_hour t) (tm_mday t) (tm_mon t) (tm_year t).

(** The loop over the fields from [i] on; seconds, the field [last], may be
    missing.  [tm] is null or the caller's struct. *)
Fixpoint time_fields (fuel : nat) (last : Z) (min max : list Z) (set : Z -> Z -> tm -> tm)
  (a : option block) (l : Z) (t : option tm) (o i : Z) : outcome (option tm * Z) :=
  match fuel with
  | O => done (t, o)
  | S fuel =>
      stop <-- (if i =? last then c <-- char_at a o ;; done (is_zone c) else done false) ;;
      if stop then done (option_map (with_sec 0) t, o)
      else
        r <-- two_digits a l o (at_ min i) (at_ max i) ;;
        time_fields fuel last min max set a l (option_map (set i (fst r)) t) (snd r) (i + 1)
  end.

(** Two digits of the zone, whose length has been checked *)
Definition zone_digits (a : option block) (o lo hi : Z) : outcome (Z * Z) :=
  c <-- char_at a o ;;
  check (is_digit c)
    (let n := c - 48 in
     let o := o + 1 in
     c <-- char_at a o ;;
     check (is_digit c)
       (let n := n * 10 + c - 48 in
        check ((lo <=? n) && (n <=? hi)) (done (n, o + 1)))).

(** Behind a sign [c]; [i] is the index of the hours in the tables. *)
Definition time_zone (i : Z) (min max : list Z) (a : option block) (l : Z) (t : option tm) (c o : Z) :
  outcome (option tm * Z) :=
  let offsign := if c =? 45 then 1 else -1 in
  let o := o + 1 in
  check (o + 4 <=? l)
    (h <-- zone_digits a o (at_ min i) (at_ max i) ;;
     m <-- zone_digits a (snd h) (at_ min (i + 1)) (at_ max (i + 1)) ;;
     match t with
     | None => done (t, snd m)
     | Some tm =>
         let offset := fst h * 3600 + fst m * 60 in
         if offset =? 0 then done (t, snd m)
         else
           tm <-- OPENSSL_gmtime_adj tm 0 (offset * offsign) ;;
           done (Some tm, snd m)
     end).

(** *** UTCTime *)

Definition utc_min : list Z := [0; 1; 1; 0; 0; 0; 0; 0].
Definition utc_max : list Z := [99; 12; 31; 23; 59; 59; 12; 59].

(** The switch *)
Definition utc_set (i n : Z) (t : tm) : tm :=
  if i =? 0 then mk_tm (tm_sec t) (tm_min t) (tm_hour t) (tm_mday t) (tm_mon t) (if n <? 50 then n + 100 else n)
  else if i =? 1 then mk_tm (tm_sec t) (tm_min t) (tm_hour t) (tm_mday t) (n - 1) (tm_year t)
  else if i =? 2 then mk_tm (tm_sec t) (tm_min t) (tm_hour t) n (tm_mon t) (tm_year t)
  else if i =? 3 then mk_tm (tm_sec t) (tm_min t) n (tm_mday t) (tm_mon t) (tm_year t)
  else if i =? 4 then mk_tm (tm_sec t) n (tm_hour t) (tm_mday t) (tm_mon t) (tm_year t)
  else if i =? 5 then with_sec n t
  else t.

Definition asn1_utctime_to_tm (t : option tm) (d : ASN1_STRING) : outcome (option tm) :=
  check (str_type d =? V_ASN1_UTCTIME)
    (let l := str_length d in
     let a := str_data d in
     check (11 <=? l)
       (f <-- time_fields 6 5 utc_min utc_max utc_set a l t 0 0 ;;
        let (t, o) := f : option tm * Z in
        c <-- char_at a o ;;
        z <-- (if c =? 90 then done (t, o + 1)
               else if (c =? 43) || (c =? 45) then time_zone 6 utc_min utc_max a l t c o
               else done (t, o)) ;;
        let (t, o) := z : option tm * Z in
        check (o =? l) (done t))).

(** *** GeneralizedTime *)

Definition gen_min : list Z := [0; 0; 1; 1; 0; 0; 0; 0; 0].
Definition gen_max : list Z := [99; 99; 12; 31; 23; 59; 59; 12; 59].

Definition gen_set (i n : Z) (t : tm) : tm :=
  if i =? 0 then mk_tm (tm_sec t) (tm_min t) (tm_hour t) (tm_mday t) (tm_mon t) (n * 100 - 1900)
  else if i =? 1 then mk_tm (tm_sec t) (tm_min t) (tm_hour t) (tm_mday t) (tm_mon t) (tm_year t + n)
  else if i =? 2 then mk_tm (tm_sec t) (tm_min t) (tm_hour t) (tm_mday t) (n - 1) (tm_year t)
  else if i =? 3 then mk_tm (tm_sec t) (tm_min t) (tm_hour t) n (tm_mon t) (tm_year t)
  else if i =? 4 then mk_tm (tm_sec t) (tm_min t) n (tm_mday t) (tm_mon t) (tm_year t)
  else if i =? 5 then mk_tm (tm_sec t) n (tm_hour t) (tm_mday t) (tm_mon t) (tm_year t)
  else if i =? 6 then with_sec n t
  else t.

(** The loop over the digits of a fraction; it stops at [l] at the latest. *)
Fixpoint fraction_loop (fuel : nat) (a : option block) (l o : Z) : outcome Z :=
  match fuel with
  | O => done o
  | S fuel =>
      c <-- char_at a o ;;
      if is_digit c && (o <=? l) then fraction_loop fuel a l (o + 1) else done o
  end.

Definition fraction (a : option block) (l o : Z) : outcome Z :=
  c <-- char_at a o ;;
  if c =? 46 then
    let o := o + 1 in
    check (o <=? l)
      (let i := o in
       o <-- fraction_loop (S (S (Z.to_nat l))) a l o ;;
       check (negb (i =? o)) (done o))
  else done o.

Definition asn1_generalizedtime_to_tm (t : option tm) (d : ASN1_STRING) : outcome (option tm) :=
  check (str_type d =? V_ASN1_GENERALIZEDTIME)
    (let l := str_length d in
     let a := str_data d in
     check (13 <=? l)
       (f <-- time_fields 7 6 gen_min gen_max gen_set a l t 0 0 ;;
        let (t, o) := f : option tm * Z in
        o <-- fraction a l o ;;
        c <-- char_at a o ;;
        z <-- (if c =? 90 then done (t, o + 1)
               else if (c =? 43) || (c =? 45) then time_zone 7 gen_min gen_max a l t c o
               else check (c =? 0) (done (t, o))) ;;
        let (t, o) := z : option tm * Z in
        check (o =? l) (done t))).

(** [o == l], a value of a check without a struct *)
Definition ASN1_UTCTIME_check (d : ASN1_STRING) : outcome unit := _ <-- asn1_utctime_to_tm None d ;; done tt.

Definition ASN1_GENERALIZEDTIME_check (d : ASN1_STRING) : outcome unit :=
  _ <-- asn1_generalizedtime_to_tm None d ;; done tt.

Definition ASN1_TIME_check (t : ASN1_STRING) : outcome unit :=
  if str_type t =? V_ASN1_GENERALIZEDTIME then ASN1_GENERALIZEDTIME_check t
  else if str_type t =? V_ASN1_UTCTIME then ASN1_UTCTIME_check t
  else err.

(** *** Printing *)

(** [%0<w>d] *)
Definition format_int (w : nat) (v : Z) : list Z :=
  let sign := if v <? 0 then [45] else [] in
  let digits := decimal (Z.abs v) in
  sign ++ repeat 48 (w - length sign - length digits) ++ digits.

(** [BIO_snprintf(p, len, ...)] of a text *)
Definition snprintf (p : block) (len : Z) (text : list Z) : block :=
  mk_block (blk_size p) (splice 0 (firstn (Z.to_nat (len - 1)) text ++ [0]) (blk_bytes p)).

Definition day_text (t : tm) : list Z :=
  format_int 2 (tm_mon t + 1) ++ format_int 2 (tm_mday t) ++ format_int 2 (tm_hour t) ++ format_int 2 (tm_min t) ++
  format_int 2 (tm_sec t) ++ [90].

Definition utc_text (t : tm) : list Z := format_int 2 (Z.rem (tm_year t) 100) ++ day_text t.

Definition gen_text (t : tm) : list Z := format_int 4 (tm_year t + 1900) ++ day_text t.

Section Times.
Variable malloc : Z -> option (list Z).
(** The object constructors, [gmtime_r] and [time] *)
Variable ASN1_UTCTIME_new ASN1_GENERALIZEDTIME_new : option ASN1_STRING.
Variable gmtime_r : Z -> option tm.
Variable now : Z.

Definition OPENSSL_gmtime (time : Z) : option tm := gmtime_r time.

(** The broken-down time [t] moved by the offsets, which every one of the
    functions begins with *)
Definition gmtime_moved (t offset_day offset_sec : Z) : outcome tm :=
  match OPENSSL_gmtime t with
  | None => err
  | Some ts => if (offset_day =? 0) && (offset_sec =? 0) then done ts else OPENSSL_gmtime_adj ts offset_day offset_sec
  end.

(** Storing a text in a string whose buffer is large enough or replaced *)
Definition store_text (s : ASN1_STRING) (text : list Z) (ty : Z) : outcome ASN1_STRING :=
  let len := 20 in
  match
    match str_data s with
    | Some p => if size_t (str_length s) <? len then OPENSSL_malloc malloc len else Some p
    | None => OPENSSL_malloc malloc len
    end
  with
  | None => err
  | Some p => let p := snprintf p len text in done (mk_string (strlen (blk_bytes p)) ty (Some p) (str_flags s))
  end.

Definition ASN1_UTCTIME_adj (s : option ASN1_STRING) (t offset_day offset_sec : Z) : outcome ASN1_STRING :=
  match (match s with None => ASN1_UTCTIME_new | Some s => Some s end) with
  | None => err
  | Some s =>
      ts <-- gmtime_moved t offset_day offset_sec ;;
      if (tm_year ts <? 50) || (150 <=? tm_year ts) then err
      else store_text s (utc_text ts) V_ASN1_UTCTIME
  end.

Definition ASN1_UTCTIME_set (s : option ASN1_STRING) (t : Z) : outcome ASN1_STRING := ASN1_UTCTIME_adj s t 0 0.

Definition ASN1_GENERALIZEDTIME_adj (s : option ASN1_STRING) (t offset_day offset_sec : Z) : outcome ASN1_STRING :=
  match (match s with None => ASN1_GENERALIZEDTIME_new | Some s => Some s end) with
  | None => err
  | Some tmps =>
      ts <-- gmtime_moved t offset_day offset_sec ;;
      if (tm_year ts <? 0 - 1900) || (9999 - 1900 <? tm_year ts) then err
      else store_text tmps (gen_text ts) V_ASN1_GENERALIZEDTIME
  end.

Definition ASN1_GENERALIZEDTIME_set (s : option ASN1_STRING) (t : Z) : outcome ASN1_STRING := ASN1_GENERALIZEDTIME_adj s t 0 0.

Definition ASN1_TIME_adj (s : option ASN1_STRING) (t offset_day offset_sec : Z) : outcome ASN1_STRING :=
  ts <-- gmtime_moved t offset_day offset_sec ;;
  if (50 <=? tm_year ts) && (tm_year ts <? 150) then ASN1_UTCTIME_adj s t offset_day offset_sec
  else ASN1_GENERALIZEDTIME_adj s t offset_day offset_sec.

Definition ASN1_TIME_set (s : option ASN1_STRING) (t : Z) : outcome ASN1_STRING := ASN1_TIME_adj s t 0 0.

(** *** Comparing and converting *)

(** The contents of an uninitialised [struct tm] *)
Variable stack : tm.

Definition ASN1_UTCTIME_cmp_time_t (s : ASN1_STRING) (t : Z) : option Z :=
  stm <- asn1_utctime_to_tm (Some stack) s ;;
  match stm, OPENSSL_gmtime t with
  | Some (Some stm), Some ttm =>
      r <- OPENSSL_gmtime_diff ttm stm ;;
      Some
        match r with
        | None => -2
        | Some (day, sec) =>
            if 0 <? day then 1 else if day <? 0 then -1 else if 0 <? sec then 1 else if sec <? 0 then -1 else 0
        end
  | _, _ => Some (-2)
  end.

Definition asn1_time_to_tm (t : option ASN1_STRING) : outcome (option tm) :=
  match t with
  | None => match OPENSSL_gmtime now with Some tm => done (Some tm) | None => err end
  | Some t =>
      if str_type t =? V_ASN1_UTCTIME then asn1_utctime_to_tm (Some stack) t
      else if str_type t =? V_ASN1_GENERALIZEDTIME then asn1_generalizedtime_to_tm (Some stack) t
      else err
  end.

Definition ASN1_TIME_diff (from to : option ASN1_STRING) : outcome (Z * Z) :=
  f <-- asn1_time_to_tm from ;;
  t <-- asn1_time_to_tm to ;;
  match f, t with
  | Some tm_from, Some tm_to => OPENSSL_gmtime_diff tm_from tm_to
  | _, _ => err
  end.

(** The [char*] arguments of [set_string] are a block whose prefix is not used. *)
Definition text_string (ty : Z) (str : list Z) : ASN1_STRING := mk_string (strlen str) ty (Some (mk_block 0 str)) 0.

(** The outer option of [s] is a null pointer. *)
Definition set_string (ty : Z) (s : option ASN1_STRING) (str : list Z) : option ASN1_STRING * bool :=
  match s with
  | None => (None, true)
  | Some s =>
      let (s, ok) := ASN1_STRING_set malloc s (Some (mk_block 0 str)) (strlen str) in
      if ok then (Some (mk_string (str_length s) ty (str_data s) (str_flags s)), true) else (Some s, false)
  end.

Definition ASN1_UTCTIME_set_string (s : option ASN1_STRING) (str : list Z) : option (option ASN1_STRING * bool) :=
  ok <- ASN1_UTCTIME_check (text_string V_ASN1_UTCTIME str) ;;
  Some (if ok then set_string V_ASN1_UTCTIME s str else (s, false)).

Definition ASN1_GENERALIZEDTIME_set_string (s : option ASN1_STRING) (str : list Z) : option (option ASN1_STRING * bool) :=
  ok <- ASN1_GENERALIZEDTIME_check (text_string V_ASN1_GENERALIZEDTIME str) ;;
  Some (if ok then set_string V_ASN1_GENERALIZEDTIME s str else (s, false)).

Definition ASN1_TIME_set_string (s : option ASN1_STRING) (str : list Z) : option (option ASN1_STRING * bool) :=
  let copy t :=
    match s with
    | None => (None, true)
    | Some s => let (s, ok) := ASN1_STRING_copy malloc s t in (Some s, ok)
    end in
  ok <- ASN1_TIME_check (text_string V_ASN1_UTCTIME str) ;;
  if ok then Some (copy (text_string V_ASN1_UTCTIME str))
  else
    ok <- ASN1_TIME_check (text_string V_ASN1_GENERALIZEDTIME str) ;;
    Some (if ok then copy (text_string V_ASN1_GENERALIZEDTIME str) else (s, false)).

(** [out] is [*out] of a non-null argument, for a string other than [t]. *)
Definition ASN1_TIME_to_generalizedtime (t : ASN1_STRING) (out : option ASN1_STRING) : outcome ASN1_STRING :=
  _ <-- ASN1_TIME_check t ;;
  match (match out with None => ASN1_GENERALIZEDTIME_new | Some ret => Some ret end) with
  | None => err
  | Some ret =>
      if str_type t =? V_ASN1_GENERALIZEDTIME then
        let (ret, ok) := ASN1_STRING_set malloc ret (str_data t) (str_length t) in
        check ok (done ret)
      else
        let (ret, ok) := ASN1_STRING_set malloc ret None (str_length t + 2) in
        check ok
          (let newlen := str_length t + 2 + 1 in
           match str_data ret, str_data t with
           | Some str, Some d =>
               match nth_error (blk_bytes d) 0 with
               | None => None
               | Some c =>
                   let century := if 53 <=? c then [49; 57; 0] else [50; 48; 0] in
                   let (str1, _) := OPENSSL_strlcpy (blk_bytes str) century newlen in
                   let (str2, _) := OPENSSL_strlcat str1 (blk_bytes d) newlen in
                   done (mk_string (str_length ret) (str_type ret) (Some (mk_block (blk_size str) str2)) (str_flags ret))
               end
           | _, _ => None
           end)
  end.
End Times.

(** ** What the texts say *)

(** Two digits *)
Definition dd (n : Z) : list Z := [48 + n / 10; 48 + n mod 10].

Inductive zone := NoZone | Zulu | Offset (west : bool) (hh mm : Z).

Definition zone_text (z : zone) : list Z :=
  match z with
  | NoZone => []
  | Zulu => [90]
  | Offset west hh mm => (if west then 45 else 43) :: dd hh ++ dd mm
  end.

Definition zone_ok (z : zone) : Prop :=
  match z with
  | Offset _ hh mm => 0 <= hh <= 12 /\ 0 <= mm <= 59
  | _ => True
  end.

(** The seconds by which the clocks of a zone are ahead *)
Definition zone_offset (z : zone) : Z :=
  match z with
  | Offset west hh mm => if west then - (hh * 3600 + mm * 60) else hh * 3600 + mm * 60
  | _ => 0
  end.

(** [t] is the local time in universal time: the fields as they stand if the
    clocks agree, and else the calendar time of the second that is the zone's
    offset earlier, in the years 1900 to 9999. *)
Definition in_utc (local : tm) (z : zone) (t : tm) : Prop :=
  if zone_offset z =? 0 then t = local
  else tm_ok t /\ 1900 <= tm_year t + 1900 <= 9999 /\ seconds t = seconds local - zone_offset z.

(** The same as the code computes it, for the proofs *)
Definition to_utc (t : tm) (z : zone) : outcome tm :=
  match z with
  | Offset west hh mm =>
      let offset := hh * 3600 + mm * 60 in
      if offset =? 0 then done t else OPENSSL_gmtime_adj t 0 (if west then offset else - offset)
  | _ => done t
  end.

(** The part both texts share: month, day, hour, minute, and seconds unless a
    zone stands in their place *)
Definition day_form (mo d h mi : Z) (sec : option Z) (q q' : list Z) : Prop :=
  1 <= mo <= 12 /\ 1 <= d <= 31 /\ 0 <= h <= 23 /\ 0 <= mi <= 59 /\
  q = dd mo ++ dd d ++ dd h ++ dd mi ++ (match sec with Some n => dd n | None => [] end) ++ q' /\
  match sec with
  | Some n => 0 <= n <= 59
  | None => is_zone (hd 0 q') = true
  end.

Definition seconds_of (sec : option Z) : Z := match sec with Some n => n | None => 0 end.

(** [YYMMDDhhmm[ss][Z|+hhmm|-hhmm]] *)
Definition utc_form (s : list Z) (local : tm) (z : zone) : Prop :=
  exists yy mo d h mi sec q, 0 <= yy <= 99 /\ s = dd yy ++ q /\ day_form mo d h mi sec q (zone_text z) /\ zone_ok z /\
    local = mk_tm (seconds_of sec) mi h d (mo - 1) (if yy <? 50 then yy + 100 else yy).

(** [YYYYMMDDhhmm[ss][.s...][Z|+hhmm|-hhmm]] *)
Definition gen_form (s : list Z) (local : tm) (z : zone) : Prop :=
  exists cc yy mo d h mi sec fr q, 0 <= cc <= 99 /\ 0 <= yy <= 99 /\ s = dd cc ++ dd yy ++ q /\
    day_form mo d h mi sec q (fr ++ zone_text z) /\ zone_ok z /\
    (fr = [] \/ exists ds, fr = 46 :: ds /\ ds <> [] /\ Forall (fun c => is_digit c = true) ds) /\
    local = mk_tm (seconds_of sec) mi h d (mo - 1) (cc * 100 - 1900 + yy).

(** [d] holds the text [s]. *)
Definition text_of (d : ASN1_STRING) (s : list Z) : Prop :=
  str_length d = Z.of_nat (length s) /\ bytes_ok s /\
  exists b r, str_data d = Some b /\ blk_bytes b = s ++ 0 :: r.

(** ** Lemmas on parsing *)

Lemma schar_ascii (P : Z -> bool) c : byte_ok c -> (forall x, (x < 0 \/ 128 <= x) -> P x = false) -> P (schar c) = P c.
Proof.
  intros Hc HP. rewrite byte_ok_iff in Hc. unfold schar. rewrite sint_spec by (unfold word_ok; lia).
  destruct (Z.leb_spec (2 ^ (8 - 1)) c) as [L|L]; [|reflexivity]. change (2 ^ (8 - 1)) with 128 in L. now rewrite !HP by lia.
Qed.

Lemma schar_digit c : byte_ok c -> is_digit (schar c) = is_digit c.
Proof. intros Hc. apply schar_ascii; [exact Hc|]. unfold is_digit. lia. Qed.

Lemma schar_eqb c k : byte_ok c -> 0 <= k < 128 -> (schar c =? k) = (c =? k).
Proof. intros Hc Hk. apply (schar_ascii (fun x => x =? k)); [exact Hc|]. lia. Qed.

Lemma schar_zone c : byte_ok c -> is_zone (schar c) = is_zone c.
Proof. intros Hc. apply schar_ascii; [exact Hc|]. unfold is_zone. lia. Qed.

Lemma schar_of_digit c : byte_ok c -> is_digit c = true -> schar c = c.
Proof.
  intros Hc D. rewrite byte_ok_iff in Hc. unfold is_digit in D. unfold schar. rewrite sint_spec by (unfold word_ok; lia).
  change (2 ^ (8 - 1)) with 128. destruct (Z.leb_spec 128 c); lia.
Qed.

(** The parsers on lists *)
Definition two (lo hi : Z) (q : list Z) : option (Z * list Z) :=
  match q with
  | c1 :: c2 :: q' =>
      let n := (c1 - 48) * 10 + c2 - 48 in
      if is_digit c1 && is_digit c2 && ((lo <=? n) && (n <=? hi)) then Some (n, q') else None
  | _ => None
  end.

Fixpoint fields_of (fuel : nat) (last : Z) (min max : list Z) (set : Z -> Z -> tm -> tm) (t : option tm) (q : list Z) (i : Z) :
  option (option tm * list Z) :=
  match fuel with
  | O => Some (t, q)
  | S fuel =>
      if (i =? last) && is_zone (hd 0 q) then Some (option_map (with_sec 0) t, q)
      else
        match two (at_ min i) (at_ max i) q with
        | None => None
        | Some (n, q') => fields_of fuel last min max set (option_map (set i n) t) q' (i + 1)
        end
  end.

(** The zone up to the end *)
Definition zone_of (t : option tm) (q : list Z) : outcome (option tm) :=
  match q with
  | [] => done t
  | c :: q =>
      if c =? 90 then match q with [] => done t | _ => err end
      else if (c =? 43) || (c =? 45) then
        match two 0 12 q with
        | Some (hh, q) =>
            match two 0 59 q with
            | Some (mm, []) =>
                match t with
                | None => done None
                | Some tm => u <-- to_utc tm (Offset (c =? 45) hh mm) ;; done (Some u)
                end
            | Some (mm, _) =>
                match t with
                | None => err
                | Some tm => _ <-- to_utc tm (Offset (c =? 45) hh mm) ;; err
                end
            | None => err
            end
        | None => err
        end
      else err
  end.

Section Text.
Variable b : block.
Variable s r : list Z.
Hypothesis Hb : blk_bytes b = s ++ 0 :: r.
Hypothesis Hs : bytes_ok s.

Let l : Z := Z.of_nat (length s).

Definition pos (q : list Z) : Z := Z.of_nat (length s) - Z.of_nat (length q).

Definition suffix (q : list Z) : Prop := exists p, s = p ++ q.

Lemma suffix_tail c q : suffix (c :: q) -> suffix q.
Proof. intros (p & E). exists (p ++ [c]). now rewrite <- app_assoc. Qed.

Lemma suffix_byte c q : suffix (c :: q) -> byte_ok c.
Proof. intros (p & E). rewrite E in Hs. apply Forall_app in Hs as (_ & H). now inversion H. Qed.

Lemma pos_tail c q : pos (c :: q) + 1 = pos q.
Proof. unfold pos. cbn [length]. lia. Qed.

Lemma pos_le q : suffix q -> 0 <= pos q <= l.
Proof. intros (p & E). unfold l, pos. rewrite E, length_app. lia. Qed.

Lemma pos_end q : suffix q -> (pos q =? l) = match q with [] => true | _ => false end.
Proof. intros _. unfold l, pos. destruct q; cbn [length]; lia. Qed.

Lemma char_at_pos q : suffix q -> char_at (Some b) (pos q) = done (schar (hd 0 q)).
Proof.
  intros (p & E). unfold char_at, pos. rewrite Hb, E, length_app, <- app_assoc, nth_error_app2 by lia.
  replace (Z.to_nat _ - length p)%nat with O by lia. destruct q; reflexivity.
Qed.

Lemma two_digits_pos q lo hi : suffix q ->
  two_digits (Some b) l (pos q) lo hi = match two lo hi q with Some (n, q') => done (n, pos q') | None => err end.
Proof.
  intros Hq. unfold two_digits. rewrite (char_at_pos q Hq). cbn [after then_ done].
  destruct q as [|c1 q1]; [reflexivity|]. cbn [hd]. pose proof (suffix_byte _ _ Hq) as B1. pose proof (suffix_tail _ _ Hq) as H1.
  rewrite (schar_digit _ B1). destruct (is_digit c1) eqn:D1; [|destruct q1; cbn [two]; rewrite ?D1; reflexivity]. cbn [check]. rewrite pos_tail.
  rewrite (proj2 (Z.leb_le _ _)) by (apply pos_le; exact H1). cbn [check]. rewrite (char_at_pos q1 H1). cbn [after then_ done].
  destruct q1 as [|c2 q2]; [reflexivity|]. cbn [hd]. pose proof (suffix_byte _ _ H1) as B2. pose proof (suffix_tail _ _ H1) as H2.
  rewrite (schar_digit _ B2). cbn [two]. rewrite D1. destruct (is_digit c2) eqn:D2; [|reflexivity]. cbn [check andb]. rewrite pos_tail.
  rewrite (proj2 (Z.leb_le _ _)) by (apply pos_le; exact H2). cbn [check].
  rewrite (schar_of_digit c1), (schar_of_digit c2) by assumption. destruct (_ && _); reflexivity.
Qed.

Lemma zone_digits_pos q lo hi : suffix q ->
  zone_digits (Some b) (pos q) lo hi = match two lo hi q with Some (n, q') => done (n, pos q') | None => err end.
Proof.
  intros Hq. unfold zone_digits. rewrite (char_at_pos q Hq). cbn [after then_ done].
  destruct q as [|c1 q1]; [reflexivity|]. cbn [hd]. pose proof (suffix_byte _ _ Hq) as B1. pose proof (suffix_tail _ _ Hq) as H1.
  rewrite (schar_digit _ B1). destruct (is_digit c1) eqn:D1; [|destruct q1; cbn [two]; rewrite ?D1; reflexivity]. cbn [check]. rewrite pos_tail.
  rewrite (char_at_pos q1 H1). cbn [after then_ done].
  destruct q1 as [|c2 q2]; [reflexivity|]. cbn [hd]. pose proof (suffix_byte _ _ H1) as B2.
  rewrite (schar_digit _ B2). cbn [two]. rewrite D1. destruct (is_digit c2) eqn:D2; [|reflexivity]. cbn [check andb]. rewrite pos_tail.
  rewrite (schar_of_digit c1), (schar_of_digit c2) by assumption. destruct (_ && _); reflexivity.
Qed.

Lemma two_suffix lo hi q n q' : suffix q -> two lo hi q = Some (n, q') -> suffix q'.
Proof.
  intros Hq. destruct q as [|c1 [|c2 q2]]; try discriminate. cbn [two]. destruct (_ && _); [|discriminate]. intros [= _ <-].
  eapply suffix_tail, suffix_tail, Hq.
Qed.

Lemma suffix_hd_byte q : suffix q -> byte_ok (hd 0 q).
Proof. intros Hq. destruct q; [now apply byte_ok_iff|exact (suffix_byte _ _ Hq)]. Qed.

Lemma time_fields_pos fuel last min max set : forall t q i, suffix q ->
  time_fields fuel last min max set (Some b) l t (pos q) i =
    match fields_of fuel last min max set t q i with Some (t', q') => done (t', pos q') | None => err end /\
  forall t' q', fields_of fuel last min max set t q i = Some (t', q') -> suffix q'.
Proof.
  induction fuel as [|fuel IH]; intros t q i Hq; cbn [time_fields fields_of].
  - split; [reflexivity|]. now intros t' q' [= _ <-].
  - assert (E : (if i =? last then c <-- char_at (Some b) (pos q);; done (is_zone c) else done false) = done ((i =? last) && is_zone (hd 0 q))).
    { destruct (i =? last); [|reflexivity]. rewrite (char_at_pos q Hq). cbn [after then_ done andb]. now rewrite schar_zone by now apply suffix_hd_byte. }
    rewrite E. cbn [after then_ done]. destruct (_ && _).
    + split; [reflexivity|]. now intros t' q' [= _ <-].
    + rewrite (two_digits_pos q _ _ Hq). destruct (two _ _ q) as [[n q1]|] eqn:T; cbn [after then_ done err]; [|split; [reflexivity|discriminate]].
      apply IH. exact (two_suffix _ _ _ _ _ Hq T).
Qed.

(** The rest of the text behind the fields *)
Lemma zone_pos i min max t q alt : suffix q -> alt = done (t, pos q) \/ (alt = err /\ q <> []) -> at_ min i = 0 -> at_ max i = 12 -> at_ min (i + 1) = 0 -> at_ max (i + 1) = 59 ->
  (z <-- (if schar (hd 0 q) =? 90 then done (t, pos q + 1)
          else if (schar (hd 0 q) =? 43) || (schar (hd 0 q) =? 45) then time_zone i min max (Some b) l t (schar (hd 0 q)) (pos q)
          else alt) ;;
   let (t, o) := z : option tm * Z in check (o =? l) (done t)) = zone_of t q.
Proof.
  intros Hq Alt M1 M2 M3 M4. pose proof (suffix_hd_byte q Hq) as B. rewrite !schar_eqb by (exact B || lia).
  destruct q as [|c q].
  { destruct Alt as [->|(_ & N)]; [|congruence]. cbn [hd Z.eqb orb after then_ done zone_of]. now rewrite (pos_end [] Hq). }
  cbn [hd] in *. cbn [zone_of]. pose proof (suffix_tail _ _ Hq) as Hq'. destruct (Z.eqb_spec c 90) as [->|N].
  { cbn [after then_ done]. rewrite pos_tail, pos_end by assumption. destruct q; reflexivity. }
  destruct (_ || _) eqn:S; [|destruct Alt as [->|(-> & _)]; cbn [after then_ done err]; [now rewrite pos_end|reflexivity]].
  unfold time_zone. rewrite M1, M2, M3, M4, pos_tail, schar_eqb by (exact B || lia).
  rewrite zone_digits_pos by assumption. destruct (Z.leb_spec (pos q + 4) l) as [L|L]; cbn [check].
  2: { destruct q as [|c1 [|c2 [|c3 [|c4 q4]]]]; cbn [two]; try reflexivity; try (destruct (_ && _); reflexivity).
       exfalso. unfold l, pos in L. cbn [length] in L. lia. }
  destruct (two 0 12 q) as [[hh q1]|] eqn:T1; [|reflexivity]. cbn [after then_ done fst snd].
  pose proof (two_suffix _ _ _ _ _ Hq' T1) as H1. rewrite zone_digits_pos by assumption.
  destruct (two 0 59 q1) as [[mm q2]|] eqn:T2; [|reflexivity]. cbn [after then_ done fst snd].
  pose proof (two_suffix _ _ _ _ _ H1 T2) as H2. unfold to_utc.
  destruct t as [t|]; cbn [after then_ done].
  2: { rewrite (pos_end q2 H2). destruct q2; reflexivity. }
  destruct (Z.eqb_spec (hh * 3600 + mm * 60) 0) as [E|E]; cbn [after then_ done].
  { rewrite (pos_end q2 H2). destruct q2; reflexivity. }
  replace ((hh * 3600 + mm * 60) * (if c =? 45 then 1 else -1)) with (if c =? 45 then hh * 3600 + mm * 60 else - (hh * 3600 + mm * 60)) by (destruct (c =? 45); lia).
  destruct (OPENSSL_gmtime_adj t 0 _) as [[t'|]|]; cbn [after then_ done err]; [rewrite (pos_end q2 H2)|..]; destruct q2; reflexivity.
Qed.
End Text.

(** Two digits are read back. *)
Lemma is_digit_inv c : is_digit c = true -> 48 <= c <= 57.
Proof. unfold is_digit. lia. Qed.

Lemma two_dd lo hi n q : 0 <= lo -> lo <= n <= hi -> n < 100 -> two lo hi (dd n ++ q) = Some (n, q).
Proof.
  intros Hlo Hn H. unfold dd. cbn [app two]. assert (0 <= n / 10 <= 9) by lia_div. assert (0 <= n mod 10 <= 9) by lia_div.
  assert (D : forall k, 0 <= k <= 9 -> is_digit (48 + k) = true) by (intros; unfold is_digit; lia). rewrite !D by assumption.
  replace ((48 + n / 10 - 48) * 10 + (48 + n mod 10) - 48) with n by lia_div.
  now rewrite (proj2 (Z.leb_le lo n)), (proj2 (Z.leb_le n hi)) by lia.
Qed.

Lemma two_inv lo hi q n q' : two lo hi q = Some (n, q') -> q = dd n ++ q' /\ lo <= n <= hi /\ 0 <= n < 100.
Proof.
  destruct q as [|c1 [|c2 q2]]; try discriminate. cbn [two]. destruct (is_digit c1) eqn:D1, (is_digit c2) eqn:D2; cbn [andb]; try discriminate.
  apply is_digit_inv in D1, D2. destruct (Z.leb_spec lo ((c1 - 48) * 10 + c2 - 48)), (Z.leb_spec ((c1 - 48) * 10 + c2 - 48) hi); cbn [andb]; try discriminate.
  intros E. injection E as <- <-. split; [|lia]. unfold dd. cbn [app]. f_equal; [lia_div|f_equal; lia_div].
Qed.

Lemma zone_dd n q : 0 <= n < 100 -> is_zone (hd 0 (dd n ++ q)) = false.
Proof. intros Hn. unfold dd. cbn [app hd]. assert (0 <= n / 10 <= 9) by lia_div. unfold is_zone. lia. Qed.

Lemma zone_of_exact t q t' : zone_of (Some t) q = Some (Some (Some t')) <-> exists z, q = zone_text z /\ zone_ok z /\ to_utc t z = Some (Some t').
Proof.
  split.
  - destruct q as [|c q]; cbn [zone_of].
    { intros [= <-]. now exists NoZone. }
    destruct (Z.eqb_spec c 90) as [->|N]; [destruct q; [|discriminate]; intros [= <-]; now exists Zulu|].
    destruct (Z.eqb_spec c 43) as [->|N1]; [|destruct (Z.eqb_spec c 45) as [->|]; [|discriminate]].
    all: cbn [orb]; destruct (two 0 12 q) as [[hh q1]|] eqn:T1; [|discriminate]; destruct (two 0 59 q1) as [[mm q2]|] eqn:T2; [|discriminate].
    all: apply two_inv in T1 as (-> & H1 & _), T2 as (-> & H2 & _).
    all: intros E. 1: exists (Offset false hh mm). 2: exists (Offset true hh mm).
    all: change (45 =? 45) with true in *; change (43 =? 45) with false in *; revert E; destruct (to_utc t _) as [[u|]|]; cbn [after then_ done]; destruct q2; intros [= <-]; rewrite app_nil_r; (split; [reflexivity|]; split; [split; assumption|reflexivity]).
  - intros (z & -> & Hz & E). destruct z as [| |west hh mm]; [injection E as <-; reflexivity..|]. cbn [zone_text zone_of] in *. destruct Hz as (H1 & H2).
    destruct west; cbn [Z.eqb Pos.eqb orb]; rewrite two_dd by lia; rewrite <- (app_nil_r (dd mm)), two_dd by lia; rewrite E; reflexivity.
Qed.

(** One field *)
Lemma fields_step fuel last min max set t q i t' q' : i <> last ->
  fields_of (S fuel) last min max set t q i = Some (t', q') ->
  exists n q1, q = dd n ++ q1 /\ at_ min i <= n <= at_ max i /\ 0 <= n < 100 /\
    fields_of fuel last min max set (option_map (set i n) t) q1 (i + 1) = Some (t', q').
Proof.
  intros Hi. cbn [fields_of]. rewrite (proj2 (Z.eqb_neq i last) Hi). cbn [andb].
  destruct (two _ _ q) as [[n q1]|] eqn:T; [|discriminate]. apply two_inv in T as (-> & H1 & H2). intros E. now exists n, q1.
Qed.

Lemma fields_step_dd fuel last min max set t n q i : i <> last -> 0 <= at_ min i <= n -> n <= at_ max i -> n < 100 ->
  fields_of (S fuel) last min max set t (dd n ++ q) i = fields_of fuel last min max set (option_map (set i n) t) q (i + 1).
Proof.
  intros Hi H1 H2 H3. cbn [fields_of]. rewrite (proj2 (Z.eqb_neq i last) Hi). cbn [andb]. now rewrite two_dd by lia.
Qed.

(** Seconds or a zone *)
Lemma fields_last min max set t q i t' q' : at_ min i = 0 -> at_ max i = 59 -> (forall n u, set i n u = with_sec n u) ->
  fields_of 1 i min max set (Some t) q i = Some (t', q') <->
  exists sec, q = (match sec with Some n => dd n | None => [] end) ++ q' /\ t' = Some (with_sec (seconds_of sec) t) /\
    match sec with Some n => 0 <= n <= 59 | None => is_zone (hd 0 q') = true end.
Proof.
  intros M1 M2 HS. cbn [fields_of]. rewrite Z.eqb_refl, M1, M2. cbn [andb]. split.
  - destruct (is_zone (hd 0 q)) eqn:Z.
    { intros [= <- <-]. exists None. auto. }
    destruct (two 0 59 q) as [[n q1]|] eqn:T; [|discriminate]. apply two_inv in T as (-> & H1 & _). intros [= <- <-].
    exists (Some n). cbn [option_map seconds_of]. now rewrite HS.
  - intros (sec & -> & -> & H). destruct sec as [n|]; cbn [app seconds_of].
    + rewrite zone_dd, two_dd by lia. cbn [option_map]. now rewrite HS.
    + now rewrite H.
Qed.

(** The fields from the month on *)
Lemma day_fields min max set t q i t' q' :
  (forall k, 0 <= k < 4 -> at_ min (i + k) = at_ [1; 1; 0; 0] k /\ at_ max (i + k) = at_ [12; 31; 23; 59] k) ->
  at_ min (i + 4) = 0 -> at_ max (i + 4) = 59 -> (forall n u, set (i + 4) n u = with_sec n u) ->
  (forall mo d h mi u, set (i + 3) mi (set (i + 2) h (set (i + 1) d (set i mo u))) = mk_tm (tm_sec u) mi h d (mo - 1) (tm_year u)) ->
  fields_of 5 (i + 4) min max set (Some t) q i = Some (t', q') <->
  exists mo d h mi sec, day_form mo d h mi sec q q' /\ t' = Some (mk_tm (seconds_of sec) mi h d (mo - 1) (tm_year t)).
Proof.
  intros B M1 M2 S4 S. pose proof (B 0 ltac:(lia)) as B0. pose proof (B 1 ltac:(lia)) as B1.
  pose proof (B 2 ltac:(lia)) as B2. pose proof (B 3 ltac:(lia)) as B3. rewrite Z.add_0_r in B0. clear B.
  repeat match goal with H : context [at_ (?x :: ?l) ?k] |- _ => let v := eval vm_compute in (at_ (x :: l) k) in change (at_ (x :: l) k) with v in H end.
  assert (A1 : i + 1 + 1 = i + 2) by lia. assert (A2 : i + 2 + 1 = i + 3) by lia. assert (A3 : i + 3 + 1 = i + 4) by lia. split.
  - intros F. apply fields_step in F as (mo & q1 & -> & Hmo & _ & F); [|lia]. apply fields_step in F as (d & q2 & -> & Hd & _ & F); [|lia]. rewrite A1 in F.
    apply fields_step in F as (h & q3 & -> & Hh & _ & F); [|lia]. rewrite A2 in F. apply fields_step in F as (mi & q4 & -> & Hmi & _ & F); [|lia]. rewrite A3 in F.
    cbn [option_map] in F. apply fields_last in F as (sec & -> & -> & Hsec); try assumption. rewrite S. unfold with_sec. cbn [tm_min tm_hour tm_mday tm_mon tm_year].
    exists mo, d, h, mi, sec. split; [|reflexivity]. unfold day_form. repeat (split; [lia || reflexivity|]). exact Hsec.
  - intros (mo & d & h & mi & sec & (Hmo & Hd & Hh & Hmi & -> & Hsec) & ->). rewrite fields_step_dd by lia. rewrite fields_step_dd, A1 by lia. rewrite fields_step_dd, A2 by lia. rewrite fields_step_dd, A3 by lia. cbn [option_map].
    apply fields_last; try assumption. exists sec. rewrite S. split; [reflexivity|]. split; [reflexivity|exact Hsec].
Qed.

(** ** The parsers *)

(** Checks of the whole: on any text in a string, the UTCTime parser does
    this. *)
Lemma utctime_list d s t0 : str_type d = V_ASN1_UTCTIME -> text_of d s ->
  asn1_utctime_to_tm t0 d =
  check (11 <=? Z.of_nat (length s))
    match fields_of 6 5 utc_min utc_max utc_set t0 s 0 with
    | Some (t, q) => zone_of t q
    | None => err
    end.
Proof.
  intros T (L & Hs & b & r & D & Hb). unfold asn1_utctime_to_tm. rewrite T, L, D, Z.eqb_refl. cbn [check].
  destruct (_ <=? _); [|reflexivity]. cbn [check]. assert (P : suffix s s) by now exists [].
  destruct (time_fields_pos b s r Hb Hs 6 5 utc_min utc_max utc_set t0 s 0 P) as (E & P').
  replace (pos s s) with 0 in E by (unfold pos; lia). rewrite E.
  destruct (fields_of _ _ _ _ _ _ _ _) as [[t q]|]; [|reflexivity]. specialize (P' _ _ eq_refl). cbn [after then_ done].
  rewrite (char_at_pos b s r Hb q P'). cbn [after then_ done]. apply (zone_pos b s r Hb Hs 6); try reflexivity; [exact P'|now left].
Qed.

Lemma moved_defined t off : tm_fields t -> Z.abs off < 2 ^ 31 -> exists r, OPENSSL_gmtime_adj t 0 off = Some r.
Proof. intros Ht Ho. destruct (gmtime_adj_spec t 0 off Ht) as (r & E & _); [lia|lia|]. now exists r. Qed.

Lemma zone_of_defined t q : match t with Some t => tm_fields t | None => True end -> exists r, zone_of t q = Some r.
Proof.
  intros Ht. destruct q as [|c q]; cbn [zone_of]; [now eexists|]. destruct (c =? 90); [destruct q; now eexists|].
  destruct (_ || _); [|now eexists]. destruct (two 0 12 q) as [[hh q1]|] eqn:T1; [|now eexists].
  destruct (two 0 59 q1) as [[mm q2]|] eqn:T2; [|now eexists]. apply two_inv in T1 as (_ & H1 & _), T2 as (_ & H2 & _).
  destruct t as [t|]; [|destruct q2; now eexists]. unfold to_utc.
  assert (E : exists r, (if hh * 3600 + mm * 60 =? 0 then done t
    else OPENSSL_gmtime_adj t 0 (if c =? 45 then hh * 3600 + mm * 60 else - (hh * 3600 + mm * 60))) = Some r).
  { destruct (_ =? 0); [now eexists|]. apply moved_defined; [exact Ht|]. destruct (c =? 45); lia. }
  destruct E as ([u|] & ->); destruct q2; cbn [after then_ done]; now eexists.
Qed.

Lemma utc_fields_exact t0 s t q :
  fields_of 6 5 utc_min utc_max utc_set (Some t0) s 0 = Some (t, q) <->
  exists yy mo d h mi sec q0, 0 <= yy <= 99 /\ s = dd yy ++ q0 /\ day_form mo d h mi sec q0 q /\
    t = Some (mk_tm (seconds_of sec) mi h d (mo - 1) (if yy <? 50 then yy + 100 else yy)).
Proof.
  assert (D : forall u q0, fields_of 5 5 utc_min utc_max utc_set (Some u) q0 1 = Some (t, q) <->
    exists mo d h mi sec, day_form mo d h mi sec q0 q /\ t = Some (mk_tm (seconds_of sec) mi h d (mo - 1) (tm_year u))).
  { intros u q0. apply (day_fields utc_min utc_max utc_set u q0 1); try reflexivity.
    intros k Hk. assert (k = 0 \/ k = 1 \/ k = 2 \/ k = 3) as [->|[->|[->| ->]]] by lia; split; reflexivity. }
  split.
  - intros F. apply fields_step in F as (yy & q0 & -> & Hy & _ & F); [|lia]. cbn [option_map] in F.
    apply D in F as (mo & d & h & mi & sec & Hd & ->). exists yy, mo, d, h, mi, sec, q0. now repeat (split; [assumption || reflexivity|]).
  - intros (yy & mo & d & h & mi & sec & q0 & Hy & -> & Hd & ->). rewrite fields_step_dd by (cbn; lia). cbn [option_map].
    apply D. now exists mo, d, h, mi, sec.
Qed.

Lemma day_form_length mo d h mi sec q q' : day_form mo d h mi sec q q' -> (9 <= length q)%nat.
Proof.
  intros (_ & _ & _ & _ & -> & H). rewrite !length_app. unfold dd. cbn [length].
  destruct sec; cbn [length]; [lia|]. destruct q'; [discriminate|cbn [length]; lia].
Qed.

Lemma day_form_fields mo d h mi sec q q' y : day_form mo d h mi sec q q' -> 0 <= y + 1900 < 1400000 ->
  tm_fields (mk_tm (seconds_of sec) mi h d (mo - 1) y).
Proof.
  intros (Hmo & Hd & Hh & Hmi & _ & Hs) Hy. unfold tm_fields. cbn [tm_sec tm_min tm_hour tm_mday tm_mon tm_year].
  destruct sec; cbn [seconds_of]; lia.
Qed.

Lemma to_utc_spec local z t : tm_fields local -> zone_ok z -> to_utc local z = Some (Some t) <-> in_utc local z t.
Proof.
  intros Hl Hz. unfold in_utc. destruct z as [| |west hh mm]; cbn [to_utc zone_offset]; [split; [now intros [= <-]|now intros ->]..|].
  cbn [zone_ok] in Hz. set (o := hh * 3600 + mm * 60). assert (Ho : 0 <= o < 2 ^ 31) by (subst o; lia). cbv zeta.
  replace ((if west then - o else o) =? 0) with (o =? 0) by (destruct west; lia).
  destruct (Z.eqb_spec o 0); [split; [now intros [= <-]|now intros ->]|].
  destruct (gmtime_adj_spec local 0 (if west then o else - o) Hl ltac:(lia) ltac:(destruct west; lia)) as (r & -> & H).
  replace (seconds local - (if west then - o else o)) with (seconds local + 86400 * 0 + (if west then o else - o)) by (destruct west; lia).
  rewrite <- H. split; [now intros [= ->]|now intros ->].
Qed.

(** What a parser accepts, from what its fields are *)
Lemma exact_from (f : option (option tm * list Z)) (form : tm -> zone -> Prop) :
  (forall local z, form local z <-> zone_ok z /\ f = Some (Some local, zone_text z)) ->
  (forall t q, f = Some (t, q) -> exists u, t = Some u /\ tm_fields u) ->
  exists r, match f with Some (t, q) => zone_of t q | None => err end = Some r /\
    forall t, r = Some (Some t) <-> exists local z, form local z /\ in_utc local z t.
Proof.
  intros F Fields. destruct f as [[t0 q]|].
  - destruct (Fields _ _ eq_refl) as (u & -> & Hu). destruct (zone_of_defined (Some u) q Hu) as (r & E). exists r. split; [exact E|]. intros t. split.
    + intros ->. apply zone_of_exact in E as (z & -> & Hz & E). exists u, z. split; [now apply F|now apply to_utc_spec].
    + intros (local & z & Hf & E'). apply F in Hf as (Hz & E2). injection E2 as -> ->. apply some_inj. rewrite <- E. apply zone_of_exact.
      exists z. split; [reflexivity|]. split; [exact Hz|]. now apply to_utc_spec.
  - exists None. split; [reflexivity|]. intros t. split; [discriminate|]. intros (local & z & Hf & _). apply F in Hf as (_ & Hf). discriminate.
Qed.

(** A failed check of the length changes nothing. *)
Lemma exact_check (c : bool) (m : outcome (option tm)) (form : tm -> zone -> Prop) :
  (forall local z, form local z -> c = true) ->
  (exists r, m = Some r /\ forall t, r = Some (Some t) <-> exists local z, form local z /\ in_utc local z t) ->
  exists r, check c m = Some r /\ forall t, r = Some (Some t) <-> exists local z, form local z /\ in_utc local z t.
Proof.
  intros C H. destruct c; [exact H|]. exists None. split; [reflexivity|]. intros t. split; [discriminate|].
  intros (local & z & Hf & _). now apply C in Hf.
Qed.

Lemma utc_form_fields t0 s local z : utc_form s local z <->
  zone_ok z /\ fields_of 6 5 utc_min utc_max utc_set (Some t0) s 0 = Some (Some local, zone_text z).
Proof.
  rewrite utc_fields_exact. split.
  - intros (yy & mo & d & h & mi & sec & q & Hy & -> & Hd & Hz & ->). split; [exact Hz|].
    exists yy, mo, d, h, mi, sec, q. now repeat (split; [assumption || reflexivity|]).
  - intros (Hz & yy & mo & d & h & mi & sec & q & Hy & -> & Hd & [= ->]).
    exists yy, mo, d, h, mi, sec, q. now repeat (split; [assumption || reflexivity|]).
Qed.

Lemma utc_parse_exact d s t0 : str_type d = V_ASN1_UTCTIME -> text_of d s ->
  exists r, asn1_utctime_to_tm (Some t0) d = Some r /\
    forall t, r = Some (Some t) <-> exists local z, utc_form s local z /\ in_utc local z t.
Proof.
  intros Htype Htext. rewrite (utctime_list d s (Some t0) Htype Htext). apply exact_check.
  - intros local z (yy & mo & d' & h & mi & sec & q & Hy & -> & Hd & _). apply day_form_length in Hd.
    rewrite length_app. unfold dd. cbn [length]. lia.
  - apply exact_from; [intros local z; apply utc_form_fields|]. intros t q F.
    apply utc_fields_exact in F as (yy & mo & d' & h & mi & sec & q0 & Hy & _ & Hd & ->).
    eexists. split; [reflexivity|]. apply (day_form_fields _ _ _ _ _ _ _ _ Hd). destruct (yy <? 50); lia.
Qed.

(** *** GeneralizedTime *)

Fixpoint skip_digits (q : list Z) : list Z :=
  match q with
  | c :: q' => if is_digit c then skip_digits q' else q
  | [] => []
  end.

Definition frac_of (q : list Z) : option (list Z) :=
  match q with
  | c :: q' => if c =? 46 then if is_digit (hd 0 q') then Some (skip_digits q') else None else Some q
  | [] => Some []
  end.

Section Fraction.
Variable b : block.
Variable s r : list Z.
Hypothesis Hb : blk_bytes b = s ++ 0 :: r.
Hypothesis Hs : bytes_ok s.

Lemma skip_digits_suffix q : suffix s q -> suffix s (skip_digits q).
Proof.
  induction q as [|c q IH]; intros Hq; cbn [skip_digits]; [exact Hq|]. destruct (is_digit c); [|exact Hq]. apply IH, (suffix_tail _ _ _ Hq).
Qed.

Lemma fraction_loop_pos fuel : forall q, suffix s q -> (length q < fuel)%nat ->
  fraction_loop fuel (Some b) (Z.of_nat (length s)) (pos s q) = done (pos s (skip_digits q)).
Proof.
  induction fuel as [|fuel IH]; intros q Hq F; [lia|]. cbn [fraction_loop]. rewrite (char_at_pos b s r Hb q Hq). cbn [after then_ done].
  rewrite schar_digit by now apply (suffix_hd_byte s Hs). rewrite (proj2 (Z.leb_le _ _)) by now apply pos_le. rewrite andb_true_r.
  destruct q as [|c q]; [reflexivity|]. cbn [hd skip_digits]. destruct (is_digit c); [|reflexivity].
  rewrite pos_tail. apply IH; [exact (suffix_tail _ _ _ Hq)|cbn [length] in F; lia].
Qed.

Lemma length_skip_digits q : (length (skip_digits q) <= length q)%nat.
Proof. induction q as [|c q IH]; cbn [skip_digits length]; [lia|]. destruct (is_digit c); cbn [length]; lia. Qed.

Lemma fraction_pos q : suffix s q ->
  fraction (Some b) (Z.of_nat (length s)) (pos s q) = match frac_of q with Some q' => done (pos s q') | None => err end /\
  forall q', frac_of q = Some q' -> suffix s q'.
Proof.
  intros Hq. unfold fraction. rewrite (char_at_pos b s r Hb q Hq). cbn [after then_ done].
  rewrite schar_eqb by (now apply (suffix_hd_byte s Hs) || lia). destruct q as [|c q]; [split; [reflexivity|now intros q' [= <-]]|].
  cbn [hd frac_of]. pose proof (suffix_tail _ _ _ Hq) as H1. destruct (c =? 46); [|split; [reflexivity|now intros q' [= <-]]].
  rewrite pos_tail, (proj2 (Z.leb_le _ _)) by now apply pos_le. cbn [check].
  assert (Hl : (length q < S (S (length s)))%nat) by (destruct H1 as (p & ->); rewrite length_app; lia).
  rewrite Nat2Z.id, fraction_loop_pos by assumption. cbn [after then_ done].
  destruct q as [|d q]; cbn [hd skip_digits]; [rewrite Z.eqb_refl; split; [reflexivity|discriminate]|].
  destruct (is_digit d) eqn:D.
  - pose proof (length_skip_digits q) as Ls. rewrite (proj2 (Z.eqb_neq _ _)) by (unfold pos; cbn [length]; lia). cbn [negb check].
    split; [reflexivity|]. intros q' [= <-]. exact (skip_digits_suffix q (suffix_tail _ _ _ H1)).
  - rewrite Z.eqb_refl. split; [reflexivity|discriminate].
Qed.
End Fraction.

(** The fields and the fraction *)
Definition gen_fields (t0 : option tm) (s : list Z) : option (option tm * list Z) :=
  match fields_of 7 6 gen_min gen_max gen_set t0 s 0 with
  | Some (t, q) => match frac_of q with Some q' => Some (t, q') | None => None end
  | None => None
  end.

Lemma generalizedtime_list d s t0 : str_type d = V_ASN1_GENERALIZEDTIME -> text_of d s ->
  asn1_generalizedtime_to_tm t0 d =
  check (13 <=? Z.of_nat (length s)) match gen_fields t0 s with Some (t, q) => zone_of t q | None => err end.
Proof.
  intros T (L & Hs & b & r & D & Hb). unfold asn1_generalizedtime_to_tm, gen_fields. rewrite T, L, D, Z.eqb_refl. cbn [check].
  destruct (_ <=? _); [|reflexivity]. cbn [check]. assert (P : suffix s s) by now exists [].
  destruct (time_fields_pos b s r Hb Hs 7 6 gen_min gen_max gen_set t0 s 0 P) as (E & P').
  replace (pos s s) with 0 in E by (unfold pos; lia). rewrite E.
  destruct (fields_of _ _ _ _ _ _ _ _) as [[t q]|]; [|reflexivity]. specialize (P' _ _ eq_refl). cbn [after then_ done].
  destruct (fraction_pos b s r Hb Hs q P') as (E' & P''). rewrite E'. destruct (frac_of q) as [q'|]; [|reflexivity]. specialize (P'' _ eq_refl).
  cbn [after then_ done]. rewrite (char_at_pos b s r Hb q' P''). cbn [after then_ done]. apply (zone_pos b s r Hb Hs 7); try reflexivity; [exact P''|].
  rewrite schar_eqb by (now apply (suffix_hd_byte s Hs) || lia). destruct q' as [|c q']; [now left|]. cbn [hd].
  destruct (c =? 0); [now left|right]. split; [reflexivity|discriminate].
Qed.

Definition frac_ok (fr : list Z) : Prop :=
  fr = [] \/ exists ds, fr = 46 :: ds /\ ds <> [] /\ Forall (fun c => is_digit c = true) ds.

Lemma skip_digits_split q : exists ds, q = ds ++ skip_digits q /\ Forall (fun c => is_digit c = true) ds /\ (is_digit (hd 0 q) = true -> ds <> []).
Proof.
  induction q as [|c q (ds & E & H & _)]; cbn [skip_digits]; [exists []; repeat (split; [easy|]); discriminate|].
  destruct (is_digit c) eqn:D; [|exists []; cbn [hd]; rewrite D; repeat (split; [easy|]); discriminate].
  exists (c :: ds). split; [cbn [app]; now rewrite <- E|]. split; [now constructor|discriminate].
Qed.

Lemma frac_of_inv q q' : frac_of q = Some q' -> exists fr, q = fr ++ q' /\ frac_ok fr.
Proof.
  destruct q as [|c q]; cbn [frac_of]; [intros [= <-]; exists []; split; [easy|now left]|].
  destruct (Z.eqb_spec c 46) as [->|N]; [|intros [= <-]; exists []; split; [easy|now left]].
  destruct (is_digit (hd 0 q)) eqn:D; [|discriminate]. intros [= <-]. destruct (skip_digits_split q) as (ds & E & H & N).
  exists (46 :: ds). split; [cbn [app]; now rewrite <- E|]. right. exists ds. auto.
Qed.

Lemma skip_digits_app ds q : Forall (fun c => is_digit c = true) ds -> is_digit (hd 0 q) = false -> skip_digits (ds ++ q) = q.
Proof.
  intros H Hq. induction H as [|c ds Hc _ IH]; cbn [app skip_digits]; [|now rewrite Hc].
  destruct q as [|c q]; [reflexivity|]. cbn [hd skip_digits] in *. now rewrite Hq.
Qed.

Lemma frac_of_zone fr z : frac_ok fr -> frac_of (fr ++ zone_text z) = Some (zone_text z).
Proof.
  intros [->|(ds & -> & N & H)]; [destruct z as [| |[] ? ?]; reflexivity|]. cbn [app frac_of Z.eqb Pos.eqb].
  rewrite skip_digits_app; [|exact H|destruct z as [| |[] ? ?]; reflexivity].
  destruct H as [|c ds Hc _]; [congruence|]. cbn [app hd]. now rewrite Hc.
Qed.

Lemma gen_fields_inv t0 s t q : gen_fields (Some t0) s = Some (t, q) ->
  exists cc yy mo d h mi sec fr q0, 0 <= cc <= 99 /\ 0 <= yy <= 99 /\ s = dd cc ++ dd yy ++ q0 /\
    day_form mo d h mi sec q0 (fr ++ q) /\ frac_ok fr /\ t = Some (mk_tm (seconds_of sec) mi h d (mo - 1) (cc * 100 - 1900 + yy)).
Proof.
  unfold gen_fields. destruct (fields_of _ _ _ _ _ _ _ _) as [[t' q1]|] eqn:F; [|discriminate].
  destruct (frac_of q1) as [q2|] eqn:Q; [|discriminate]. intros E. injection E as -> ->. apply frac_of_inv in Q as (fr & -> & Hfr).
  apply fields_step in F as (cc & q2 & -> & Hc & _ & F); [|lia]. apply fields_step in F as (yy & q3 & -> & Hy & _ & F); [|lia]. cbn [option_map] in F.
  apply (day_fields gen_min gen_max gen_set _ q3 2) in F; try reflexivity.
  - destruct F as (mo & d & h & mi & sec & Hd & ->). exists cc, yy, mo, d, h, mi, sec, fr, q3. now repeat (split; [assumption || reflexivity|]).
  - intros k Hk. assert (k = 0 \/ k = 1 \/ k = 2 \/ k = 3) as [->|[->|[->| ->]]] by lia; split; reflexivity.
Qed.

Lemma gen_fields_intro t0 cc yy mo d h mi sec q0 q1 q : 0 <= cc <= 99 -> 0 <= yy <= 99 -> day_form mo d h mi sec q0 q1 -> frac_of q1 = Some q ->
  gen_fields (Some t0) (dd cc ++ dd yy ++ q0) = Some (Some (mk_tm (seconds_of sec) mi h d (mo - 1) (cc * 100 - 1900 + yy)), q).
Proof.
  intros Hc Hy Hd Hq. unfold gen_fields. pose proof (eq_refl : at_ gen_min 0 = 0). pose proof (eq_refl : at_ gen_max 0 = 99).
  pose proof (eq_refl : at_ gen_min (0 + 1) = 0). pose proof (eq_refl : at_ gen_max (0 + 1) = 99). rewrite !fields_step_dd by lia. cbn [option_map].
  assert (F : fields_of 5 6 gen_min gen_max gen_set (Some (gen_set (0 + 1) yy (gen_set 0 cc t0))) q0 (0 + 1 + 1) =
    Some (Some (mk_tm (seconds_of sec) mi h d (mo - 1) (cc * 100 - 1900 + yy)), q1)).
  { apply (day_fields gen_min gen_max gen_set _ q0 2); try reflexivity.
    - intros k Hk. assert (k = 0 \/ k = 1 \/ k = 2 \/ k = 3) as [->|[->|[->| ->]]] by lia; split; reflexivity.
    - now exists mo, d, h, mi, sec. }
  now rewrite F, Hq.
Qed.

Lemma gen_form_fields t0 s local z : gen_form s local z <-> zone_ok z /\ gen_fields (Some t0) s = Some (Some local, zone_text z).
Proof.
  split.
  - intros (cc & yy & mo & d & h & mi & sec & fr & q & Hc & Hy & -> & Hd & Hz & Hfr & ->). split; [exact Hz|].
    apply (gen_fields_intro t0 cc yy mo d h mi sec q (fr ++ zone_text z)); try assumption. now apply frac_of_zone.
  - intros (Hz & E). apply gen_fields_inv in E as (cc & yy & mo & d & h & mi & sec & fr & q & Hc & Hy & -> & Hd & Hfr & [= ->]).
    exists cc, yy, mo, d, h, mi, sec, fr, q. now repeat (split; [assumption || reflexivity|]).
Qed.

Lemma gen_parse_exact d s t0 : str_type d = V_ASN1_GENERALIZEDTIME -> text_of d s ->
  exists r, asn1_generalizedtime_to_tm (Some t0) d = Some r /\
    forall t, r = Some (Some t) <-> exists local z, gen_form s local z /\ in_utc local z t.
Proof.
  intros Htype Htext. rewrite (generalizedtime_list d s (Some t0) Htype Htext). apply exact_check.
  - intros local z (cc & yy & mo & d' & h & mi & sec & fr & q & Hc & Hy & -> & Hd & _). apply day_form_length in Hd.
    rewrite !length_app. unfold dd. cbn [length]. lia.
  - apply exact_from; [intros local z; apply gen_form_fields|]. intros t q F.
    apply gen_fields_inv in F as (cc & yy & mo & d' & h & mi & sec & fr & q0 & Hc & Hy & _ & Hd & _ & ->).
    eexists. split; [reflexivity|]. apply (day_form_fields _ _ _ _ _ _ _ _ Hd). lia.
Qed.

(** ** Correctness of the parsers *)

(** C37: On any string the UTCTime parser is defined: it reads no byte behind
    the terminator and its arithmetic does not overflow.  It accepts exactly
    the texts of the form [YYMMDDhhmm[ss][Z|+hhmm|-hhmm]] with every field in
    its range, a zone being needed only where there are no seconds, and
    returns the time in universal time: the calendar time of the second that
    is the zone's offset before the one the fields name, over days, months,
    leap years and years; it fails if that is not in the years 1900 to 9999. *)
Theorem asn1_utctime_to_tm_exact (d : ASN1_STRING) (s : list Z) (t0 : tm)
  (Htype : str_type d = V_ASN1_UTCTIME) (Htext : text_of d s) :
  exists r, asn1_utctime_to_tm (Some t0) d = Some r /\
    forall t, r = Some (Some t) <-> exists local z, utc_form s local z /\ in_utc local z t.
Proof. exact (utc_parse_exact d s t0 Htype Htext). Qed.

(** A string for a text *)
Definition string_of (ty : Z) (s : list Z) : ASN1_STRING := mk_string (Z.of_nat (length s)) ty (Some (mk_block 0 (s ++ [0]))) 0.

Lemma text_of_string ty s : bytes_ok s -> text_of (string_of ty s) s.
Proof. intros Hs. split; [reflexivity|]. split; [exact Hs|]. exists (mk_block 0 (s ++ [0])), []. split; reflexivity. Qed.

Lemma asn1_utctime_to_tm_exact_witness :
  let d := string_of V_ASN1_UTCTIME [50; 48; 48; 50; 50; 57; 50; 51; 51; 48; 43; 48; 49; 48; 48] in
  asn1_utctime_to_tm (Some (mk_tm 0 0 0 0 0 0)) d = Some (Some (Some (mk_tm 0 30 22 29 1 120))) /\
  exists local z, utc_form [50; 48; 48; 50; 50; 57; 50; 51; 51; 48; 43; 48; 49; 48; 48] local z /\
    in_utc local z (mk_tm 0 30 22 29 1 120).
Proof.
  intros d. assert (E : asn1_utctime_to_tm (Some (mk_tm 0 0 0 0 0 0)) d = Some (Some (Some (mk_tm 0 30 22 29 1 120)))) by reflexivity.
  split; [exact E|].
  destruct (asn1_utctime_to_tm_exact d [50; 48; 48; 50; 50; 57; 50; 51; 51; 48; 43; 48; 49; 48; 48] (mk_tm 0 0 0 0 0 0)) as (r & E' & H).
  - reflexivity.
  - now apply text_of_string, bytes_ok_check.
  - rewrite E in E'. injection E' as <-. now apply H.
Defined.

(** ** Printing and reading back *)

(** The buffer of a string is as long as the string. *)
Definition string_ok (s : ASN1_STRING) : Prop :=
  match str_data s with
  | Some b => block_ok b /\ 0 <= str_length s < 2 ^ 31 /\ str_length s <= Z.of_nat (length (blk_bytes b))
  | None => True
  end.

Lemma format_int_2 n : 0 <= n < 100 -> format_int 2 n = dd n.
Proof.
  intros Hn. unfold format_int, dd. rewrite (proj2 (Z.ltb_ge n 0)), Z.abs_eq by lia. destruct (Z.lt_ge_cases n 10).
  - rewrite decimal_digit by lia. cbn [length app Nat.sub repeat]. rewrite Z.div_small, Z.mod_small by lia. reflexivity.
  - rewrite decimal_step', decimal_digit by lia_div. reflexivity.
Qed.

Lemma format_int_4 n : 0 <= n < 10000 -> format_int 4 n = dd (n / 100) ++ dd (n mod 100).
Proof.
  intros Hn. unfold format_int, dd. rewrite (proj2 (Z.ltb_ge n 0)), Z.abs_eq by lia. cbn [length Nat.sub app].
  assert (E : n / 100 / 10 = n / 1000 /\ n / 100 mod 10 = n / 100 - 10 * (n / 1000) /\ n mod 100 / 10 = n / 10 - 10 * (n / 100) /\ (n mod 100) mod 10 = n mod 10)
    by (split; [|split; [|split]]; lia_div).
  destruct E as (-> & -> & -> & ->).
  destruct (Z.lt_ge_cases n 10); [|destruct (Z.lt_ge_cases n 100); [|destruct (Z.lt_ge_cases n 1000)]].
  - rewrite decimal_digit by lia. cbn [length Nat.sub app repeat]. repeat (f_equal; [lia_div|]). f_equal. lia_div.
  - rewrite decimal_step', decimal_digit by lia_div. cbn [length Nat.sub app repeat]. repeat (f_equal; [lia_div|]). f_equal. lia_div.
  - rewrite (decimal_step' n), (decimal_step' (n / 10)), decimal_digit by lia_div. cbn [length Nat.sub app repeat]. repeat (f_equal; [lia_div|]). f_equal. lia_div.
  - rewrite (decimal_step' n), (decimal_step' (n / 10)), (decimal_step' (n / 10 / 10)), decimal_digit by lia_div. cbn [length Nat.sub app repeat].
    repeat (f_equal; [lia_div|]). f_equal. lia_div.
Qed.

Lemma dd_ascii n : 0 <= n < 100 -> Forall (fun c => 48 <= c <= 57) (dd n).
Proof. intros Hn. unfold dd. repeat constructor; lia_div. Qed.

(** A printed day and time, without the year *)
Lemma day_text_spec t : tm_ok t -> exists s, day_text t = s /\ length s = 11%nat /\ Forall (fun c => 48 <= c <= 90) s /\
  day_form (tm_mon t + 1) (tm_mday t) (tm_hour t) (tm_min t) (Some (tm_sec t)) s (zone_text Zulu).
Proof.
  intros Ok. destruct (tm_ok_fields t Ok) as (Mo & D & _ & H & M & S). eexists. split; [reflexivity|]. unfold day_text.
  rewrite !format_int_2 by lia. split; [reflexivity|]. split.
  - repeat apply Forall_app_2 || (rewrite ?Forall_app; repeat split).
    all: try (eapply Forall_impl; [|apply dd_ascii; lia]; cbn; intros; lia). repeat constructor; lia.
  - unfold day_form. repeat (split; [lia || reflexivity|]). lia.
Qed.

Lemma utc_text_form t : tm_ok t -> 50 <= tm_year t < 150 ->
  length (utc_text t) = 13%nat /\ Forall (fun c => 48 <= c <= 90) (utc_text t) /\ utc_form (utc_text t) t Zulu.
Proof.
  intros Ok Y. destruct (day_text_spec t Ok) as (s & E & L & A & F). unfold utc_text. rewrite E.
  assert (R : 0 <= Z.rem (tm_year t) 100 < 100 /\ (if Z.rem (tm_year t) 100 <? 50 then Z.rem (tm_year t) 100 + 100 else Z.rem (tm_year t) 100) = tm_year t).
  { rewrite Z.rem_mod_nonneg by lia. split; [lia_div|]. destruct (Z.ltb_spec (tm_year t mod 100) 50); lia_div. }
  destruct R as (R1 & R2). rewrite format_int_2 by exact R1. split; [rewrite length_app, L; reflexivity|]. split.
  - apply Forall_app. split; [|exact A]. eapply Forall_impl; [|now apply dd_ascii]. cbn. intros; lia.
  - exists (Z.rem (tm_year t) 100), (tm_mon t + 1), (tm_mday t), (tm_hour t), (tm_min t), (Some (tm_sec t)), s.
    split; [lia|]. split; [reflexivity|]. split; [exact F|]. split; [exact I|]. rewrite R2, Z.add_simpl_r. now destruct t.
Qed.

Lemma gen_text_form t : tm_ok t -> 0 <= tm_year t + 1900 <= 9999 ->
  length (gen_text t) = 15%nat /\ Forall (fun c => 48 <= c <= 90) (gen_text t) /\ gen_form (gen_text t) t Zulu.
Proof.
  intros Ok Y. destruct (day_text_spec t Ok) as (s & E & L & A & F). unfold gen_text. rewrite E.
  rewrite format_int_4, <- app_assoc by lia. split; [rewrite !length_app, L; reflexivity|]. split.
  - apply Forall_app. split; [|apply Forall_app; split; [|exact A]]; (eapply Forall_impl; [|apply dd_ascii; lia_div]); cbn; intros; lia.
  - exists ((tm_year t + 1900) / 100), ((tm_year t + 1900) mod 100), (tm_mon t + 1), (tm_mday t), (tm_hour t), (tm_min t), (Some (tm_sec t)), [], s.
    split; [lia_div|]. split; [lia_div|]. split; [reflexivity|]. split; [exact F|]. split; [exact I|]. split; [now left|].
    rewrite Z.add_simpl_r. replace (_ * 100 - 1900 + _) with (tm_year t) by lia_div. now destruct t.
Qed.

Section Storing.
Variable malloc : Z -> option (list Z).
Hypothesis Hmalloc : malloc_ok malloc.

Lemma store_text_spec s text ty : string_ok s -> (length text < 20)%nat -> Forall (fun c => 48 <= c <= 90) text ->
  store_text malloc s text ty = err \/
  exists s', store_text malloc s text ty = done s' /\ str_type s' = ty /\ text_of s' text.
Proof.
  intros Hs Ht A. unfold store_text, string_ok in *.
  set (buffer := match str_data s with Some p => _ | None => _ end).
  assert (B : forall p, buffer = Some p -> (20 <= length (blk_bytes p))%nat).
  { intros p. subst buffer. assert (M : OPENSSL_malloc malloc 20 = Some p -> (20 <= length (blk_bytes p))%nat).
    { intros E. apply (OPENSSL_malloc_ok malloc Hmalloc) in E as (Hb & E); [unfold block_ok in Hb; lia|unfold word_ok; lia]. }
    destruct (str_data s) as [b|]; [|exact M]. destruct (Z.ltb_spec (size_t (str_length s)) 20) as [|L]; [exact M|].
    destruct Hs as (_ & L1 & L2). rewrite wrap_small in L by (unfold word_ok; lia). intros [= <-]. lia. }
  clearbody buffer. destruct buffer as [p|]; [right|now left]. specialize (B p eq_refl). eexists. split; [reflexivity|].
  cbn [str_type]. split; [reflexivity|]. unfold snprintf. cbn [blk_bytes].
  rewrite firstn_all2 by (change (Z.to_nat (20 - 1)) with 19%nat; lia).
  rewrite splice_0 by (rewrite length_app; cbn [length]; lia). rewrite <- app_assoc. cbn [app].
  assert (N : strlen (text ++ [0] ++ skipn (length (text ++ [0])) (blk_bytes p)) = Z.of_nat (length text)).
  { rewrite strlen_app_nul. apply strlen_no_nul. eapply Forall_impl; [|exact A]. cbn. intros; lia. }
  split; [exact N|]. split; [eapply Forall_impl; [|exact A]; intros c Hc; apply byte_ok_iff; cbn in Hc; lia|].
  cbn [str_data]. eexists _, _. split; [reflexivity|]. cbn [blk_bytes]. reflexivity.
Qed.
End Storing.

(** ** Times as seconds *)

(** [time_t] counts from the midnight of 1 January 1970. *)
Definition epoch : Z := 86400 * 2440588.

(** What POSIX says of [gmtime_r], from year 1 on *)
Definition gmtime_ok (gmtime_r : Z -> option tm) : Prop :=
  forall t ts, -62135596800 <= t < 2 ^ 40 -> gmtime_r t = Some ts -> tm_ok ts /\ seconds ts = epoch + t.

Section Clock.
Variable malloc : Z -> option (list Z).
Hypothesis Hmalloc : malloc_ok malloc.
Variable new_utc new_gen : option ASN1_STRING.
Variable gmtime_r : Z -> option tm.
Hypothesis Hgmtime : gmtime_ok gmtime_r.

Lemma gmtime_moved_spec t day sec : -62135596800 <= t < 2 ^ 40 -> Z.abs day < 2 ^ 30 -> Z.abs sec < 2 ^ 31 ->
  exists r, gmtime_moved gmtime_r t day sec = Some r /\
    forall ts, r = Some ts -> tm_ok ts /\ seconds ts = epoch + t + 86400 * day + sec.
Proof.
  intros Ht Hd Hs. unfold gmtime_moved, OPENSSL_gmtime. destruct (gmtime_r t) as [ts|] eqn:E; [|exists None; split; [reflexivity|discriminate]].
  destruct (Hgmtime t ts Ht E) as (Ok & S). destruct (_ && _) eqn:Z.
  - exists (Some ts). split; [reflexivity|]. intros ? [= <-]. split; [exact Ok|]. rewrite S. lia.
  - destruct (gmtime_adj_spec ts day sec (tm_ok_fields ts Ok) Hd Hs) as (r & -> & H). exists r. split; [reflexivity|].
    intros ts' ->. destruct (proj1 (H ts') eq_refl) as (Ok' & _ & S'). split; [exact Ok'|]. lia.
Qed.

Lemma utc_parse_back s text t0 ts : str_type s = V_ASN1_UTCTIME -> text_of s text -> utc_form text ts Zulu ->
  asn1_utctime_to_tm (Some t0) s = done (Some ts).
Proof.
  intros T X F. destruct (utc_parse_exact s text t0 T X) as (r & -> & H).
  enough (r = Some (Some ts)) as -> by reflexivity. apply H. now exists ts, Zulu.
Qed.

Lemma gen_parse_back s text t0 ts : str_type s = V_ASN1_GENERALIZEDTIME -> text_of s text -> gen_form text ts Zulu ->
  asn1_generalizedtime_to_tm (Some t0) s = done (Some ts).
Proof.
  intros T X F. destruct (gen_parse_exact s text t0 T X) as (r & -> & H).
  enough (r = Some (Some ts)) as -> by reflexivity. apply H. now exists ts, Zulu.
Qed.

(** Storing in a given string or a new one *)
Definition target_ok (s new : option ASN1_STRING) : Prop :=
  match (match s with None => new | Some s => Some s end) with Some s => string_ok s | None => True end.

Definition holds_time (now : Z) (s : ASN1_STRING) (ts : tm) : Prop :=
  forall stack, asn1_time_to_tm gmtime_r now stack (Some s) = done (Some ts).

Lemma utctime_adj_spec s t day sec now r : target_ok s new_utc -> gmtime_moved gmtime_r t day sec = Some r ->
  (forall ts, r = Some ts -> tm_ok ts) ->
  exists r', ASN1_UTCTIME_adj malloc new_utc gmtime_r s t day sec = Some r' /\
    forall s', r' = Some s' -> exists ts, r = Some ts /\ holds_time now s' ts /\ str_type s' = V_ASN1_UTCTIME /\ 50 <= tm_year ts < 150.
Proof.
  intros Hs E Ok. unfold ASN1_UTCTIME_adj, target_ok in *. destruct (match s with None => _ | _ => _ end) as [s1|]; [|exists None; split; [reflexivity|discriminate]].
  rewrite E. destruct r as [ts|]; [|exists None; split; [reflexivity|discriminate]]. cbn [after then_].
  destruct (_ || _) eqn:Y; [exists None; split; [reflexivity|discriminate]|]. assert (HY : 50 <= tm_year ts < 150) by lia.
  destruct (utc_text_form ts (Ok ts eq_refl) HY) as (L & A & F).
  destruct (store_text_spec malloc Hmalloc s1 (utc_text ts) V_ASN1_UTCTIME Hs ltac:(lia) A) as [->|(s2 & -> & T & X)];
    [exists None; split; [reflexivity|discriminate]|].
  exists (Some s2). split; [reflexivity|]. intros s' [= <-]. exists ts. split; [reflexivity|]. split; [|split; [exact T|exact HY]].
  intros stack. unfold asn1_time_to_tm. rewrite T. exact (utc_parse_back s2 _ stack ts T X F).
Qed.

Lemma generalizedtime_adj_spec s t day sec now r : target_ok s new_gen -> gmtime_moved gmtime_r t day sec = Some r ->
  (forall ts, r = Some ts -> tm_ok ts) ->
  exists r', ASN1_GENERALIZEDTIME_adj malloc new_gen gmtime_r s t day sec = Some r' /\
    forall s', r' = Some s' -> exists ts, r = Some ts /\ holds_time now s' ts /\ str_type s' = V_ASN1_GENERALIZEDTIME.
Proof.
  intros Hs E Ok. unfold ASN1_GENERALIZEDTIME_adj, target_ok in *. destruct (match s with None => _ | _ => _ end) as [s1|]; [|exists None; split; [reflexivity|discriminate]].
  rewrite E. destruct r as [ts|]; [|exists None; split; [reflexivity|discriminate]]. cbn [after then_].
  destruct (_ || _) eqn:Y; [exists None; split; [reflexivity|discriminate]|].
  destruct (gen_text_form ts (Ok ts eq_refl) ltac:(lia)) as (L & A & F).
  destruct (store_text_spec malloc Hmalloc s1 (gen_text ts) V_ASN1_GENERALIZEDTIME Hs ltac:(lia) A) as [->|(s2 & -> & T & X)];
    [exists None; split; [reflexivity|discriminate]|].
  exists (Some s2). split; [reflexivity|]. intros s' [= <-]. exists ts. split; [reflexivity|]. split; [|exact T].
  intros stack. unfold asn1_time_to_tm. rewrite T. exact (gen_parse_back s2 _ stack ts T X F).
Qed.

(** C38: What ASN1_TIME_adj stores for a time and offsets is read back by
    asn1_time_to_tm as the calendar time of exactly that second: a UTCTime in
    the years 1950 to 2049, a GeneralizedTime in the others.  It is defined
    for every [time_t] from year 1 to year 36000 and all offsets below [2^30]
    days and [2^31] seconds. *)
Theorem ASN1_TIME_adj_roundtrip (s : option ASN1_STRING) (t day sec now : Z)
  (Hutc : target_ok s new_utc) (Hgen : target_ok s new_gen)
  (Ht : -62135596800 <= t < 2 ^ 40) (Hday : Z.abs day < 2 ^ 30) (Hsec : Z.abs sec < 2 ^ 31) :
  exists r, ASN1_TIME_adj malloc new_utc new_gen gmtime_r s t day sec = Some r /\
    forall s', r = Some s' -> exists ts, (forall stack, asn1_time_to_tm gmtime_r now stack (Some s') = done (Some ts)) /\
      tm_ok ts /\ seconds ts = epoch + t + 86400 * day + sec /\
      str_type s' = (if (1950 <=? tm_year ts + 1900) && (tm_year ts + 1900 <? 2050) then V_ASN1_UTCTIME else V_ASN1_GENERALIZEDTIME).
Proof.
  destruct (gmtime_moved_spec t day sec Ht Hday Hsec) as (r & E & Hr). unfold ASN1_TIME_adj. rewrite E.
  destruct r as [ts|]; [|exists None; split; [reflexivity|discriminate]]. cbn [after then_]. destruct (Hr ts eq_refl) as (Ok & S).
  destruct (_ && _) eqn:Y.
  - destruct (utctime_adj_spec s t day sec now _ Hutc E ltac:(intros ? H; apply (Hr _ H))) as (r' & -> & H'). exists r'. split; [reflexivity|].
    intros s' Es. destruct (H' s' Es) as (ts' & [= <-] & P & T & _). exists ts. rewrite T.
    split; [exact P|]. split; [exact Ok|]. split; [exact S|]. now replace (_ && _) with true by lia.
  - destruct (generalizedtime_adj_spec s t day sec now _ Hgen E ltac:(intros ? H; apply (Hr _ H))) as (r' & -> & H'). exists r'. split; [reflexivity|].
    intros s' Es. destruct (H' s' Es) as (ts' & [= <-] & P & T). exists ts. rewrite T.
    split; [exact P|]. split; [exact Ok|]. split; [exact S|]. now replace (_ && _) with false by lia.
Qed.

Lemma in_utc_fields local z t : tm_fields local -> in_utc local z t -> tm_fields t.
Proof. intros Hl. unfold in_utc. destruct (_ =? 0); [now intros ->|]. intros (Ok & _). now apply tm_ok_fields. Qed.

Lemma utc_form_tm_fields s local z : utc_form s local z -> zone_ok z /\ tm_fields local.
Proof.
  intros (yy & mo & d & h & mi & sec & q & Hy & _ & Hd & Hz & ->). split; [exact Hz|]. apply (day_form_fields _ _ _ _ _ _ _ _ Hd). destruct (yy <? 50); lia.
Qed.

(** ASN1_UTCTIME_cmp_time_t returns the order of the instant a UTCTime
    text names, zone included, and a [time_t]. *)
Theorem ASN1_UTCTIME_cmp_time_t_correct (stack local ttm stm : tm) (d : ASN1_STRING) (s : list Z) (z : zone) (t : Z)
  (Htype : str_type d = V_ASN1_UTCTIME) (Htext : text_of d s) (Hform : utc_form s local z) (Hutc : in_utc local z stm)
  (Ht : -62135596800 <= t < 2 ^ 40) (Hg : gmtime_r t = Some ttm) :
  ASN1_UTCTIME_cmp_time_t gmtime_r stack d t = Some (Z.sgn (seconds stm - (epoch + t))).
Proof.
  unfold ASN1_UTCTIME_cmp_time_t, OPENSSL_gmtime. destruct (utc_parse_exact d s stack Htype Htext) as (r & -> & H).
  rewrite (proj2 (H stm)) by (now exists local, z). cbn [then_]. rewrite Hg.
  destruct (Hgmtime t ttm Ht Hg) as (Ok & S). destruct (utc_form_tm_fields s local z Hform) as (Hz & Hl).
  destruct (gmtime_diff_spec ttm stm (tm_ok_fields ttm Ok) (in_utc_fields local z stm Hl Hutc)) as (days & secs & -> & E & B & Sg).
  cbn [then_]. rewrite <- S. f_equal.
  destruct (Z.ltb_spec 0 days); [|destruct (Z.ltb_spec days 0); [|destruct (Z.ltb_spec 0 secs); [|destruct (Z.ltb_spec secs 0)]]]; symmetry.
  - apply Z.sgn_pos. nia.
  - apply Z.sgn_neg. nia.
  - apply Z.sgn_pos. nia.
  - apply Z.sgn_neg. nia.
  - rewrite Z.sgn_null; [reflexivity|]. nia.
Qed.
End Clock.

(** A [gmtime_r] by the calendar, for the examples *)
Definition calendar_gmtime (t : Z) : option tm :=
  let day := (epoch + t) / 86400 in
  let sec := (epoch + t) mod 86400 in
  let '(y, m, d) := julian_to_date day in
  Some (mk_tm (Z.rem sec 60) (Z.rem (Z.quot sec 60) 60) (Z.quot sec 3600) d (m - 1) (y - 1900)).

Lemma calendar_gmtime_ok : gmtime_ok calendar_gmtime.
Proof.
  intros t ts Ht. unfold calendar_gmtime. set (day := (epoch + t) / 86400). set (sec := (epoch + t) mod 86400).
  assert (B : 1721426 <= day < 16000000) by (subst day; unfold epoch; lia_div). assert (S : 0 <= sec < 86400) by (subst sec; lia_div).
  assert (Z : 86400 * day + sec = epoch + t) by (subst day sec; lia_div). clearbody day sec.
  destruct (day_has_date day ltac:(lia)) as (y & m & d & D & Y & <-). rewrite (julian_to_date_spec y m d D Y). intros [= <-].
  assert (Yb : y < 1400000) by (pose proof (days_before_range y m (proj1 D)); destruct D; unfold day_number in B; lia_div).
  destruct (time_of_day y m d sec D ltac:(lia) S) as (Ok & E). split; [exact Ok|]. rewrite E. exact Z.
Qed.


Lemma ASN1_TIME_adj_roundtrip_witness :
  ASN1_TIME_adj zero_malloc None None calendar_gmtime (Some (mk_string 0 4 None 0)) 951782400 (-1) 3600 =
    done (mk_string 13 V_ASN1_UTCTIME (Some (mk_block 20 ([48; 48; 48; 50; 50; 56; 48; 49; 48; 48; 48; 48; 90; 0] ++ repeat 0 6))) 0) /\
  exists ts, tm_ok ts /\ seconds ts = epoch + 951782400 + 86400 * -1 + 3600.
Proof.
  set (s' := mk_string 13 V_ASN1_UTCTIME (Some (mk_block 20 ([48; 48; 48; 50; 50; 56; 48; 49; 48; 48; 48; 48; 90; 0] ++ repeat 0 6))) 0).
  assert (E : ASN1_TIME_adj zero_malloc None None calendar_gmtime (Some (mk_string 0 4 None 0)) 951782400 (-1) 3600 = done s') by (vm_compute; reflexivity).
  split; [exact E|].
  destruct (ASN1_TIME_adj_roundtrip zero_malloc zero_malloc_ok None None calendar_gmtime calendar_gmtime_ok (Some (mk_string 0 4 None 0)) 951782400 (-1) 3600 0)
    as (r & E' & H); [exact I|exact I|lia..|].
  rewrite E in E'. apply some_inj in E'. destruct (H s' (eq_sym E')) as (ts & _ & Ok & S & _). exists ts. split; [exact Ok|exact S].
Defined.

Lemma ASN1_UTCTIME_cmp_time_t_correct_witness :
  ASN1_UTCTIME_cmp_time_t calendar_gmtime (mk_tm 0 0 0 0 0 0)
    (string_of V_ASN1_UTCTIME [48; 48; 48; 49; 48; 49; 48; 48; 48; 48; 48; 48; 43; 48; 49; 48; 48]) 946681199 = Some 1.
Proof.
  set (s := [48; 48; 48; 49; 48; 49; 48; 48; 48; 48; 48; 48; 43; 48; 49; 48; 48]).
  refine (ASN1_UTCTIME_cmp_time_t_correct calendar_gmtime calendar_gmtime_ok (mk_tm 0 0 0 0 0 0) (mk_tm 0 0 0 1 0 100)
    (mk_tm 59 59 22 31 11 99) (mk_tm 0 0 23 31 11 99) (string_of V_ASN1_UTCTIME s) s (Offset false 1 0) 946681199 _ _ _ _ _ _).
  - reflexivity.
  - now apply text_of_string, bytes_ok_check.
  - exists 0, 1, 1, 0, 0, (Some 0), (tl (tl s)). split; [lia|]. split; [reflexivity|]. split; [|split; [split; lia|reflexivity]].
    unfold day_form. repeat (split; [lia || reflexivity|]). lia.
  - unfold in_utc. cbn [zone_offset Z.eqb]. split; [unfold tm_ok, date_ok; cbn; lia|]. split; [cbn; lia|reflexivity].
  - lia.
  - reflexivity.
Defined.

(** ** Converting to GeneralizedTime *)

Lemma fields_of_null fuel last min max set t : forall q i,
  fields_of fuel last min max set None q i =
  match fields_of fuel last min max set (Some t) q i with Some (_, q') => Some (None, q') | None => None end.
Proof.
  revert t. induction fuel as [|fuel IH]; intros t q i; cbn [fields_of]; [reflexivity|]. destruct (_ && _); [reflexivity|].
  destruct (two _ _ q) as [[n q1]|]; [|reflexivity]. cbn [option_map]. apply IH.
Qed.

Lemma gen_fields_null t s : gen_fields None s = match gen_fields (Some t) s with Some (_, q') => Some (None, q') | None => None end.
Proof.
  unfold gen_fields. rewrite (fields_of_null _ _ _ _ _ t). destruct (fields_of _ _ _ _ _ (Some t) _ _) as [[t' q]|]; [|reflexivity].
  destruct (frac_of q); reflexivity.
Qed.

Lemma zone_of_head q r : zone_of None q = Some (Some r) -> frac_of q = Some q.
Proof.
  destruct q as [|c q]; [reflexivity|]. cbn [zone_of frac_of]. destruct (Z.eqb_spec c 46) as [->|]; [discriminate|reflexivity].
Qed.

Lemma zone_of_null q r : zone_of None q = Some (Some r) -> exists z, q = zone_text z /\ zone_ok z.
Proof.
  destruct q as [|c q]; cbn [zone_of]; [now exists NoZone|].
  destruct (Z.eqb_spec c 90) as [->|N]; [destruct q; [now exists Zulu|discriminate]|].
  destruct (Z.eqb_spec c 43) as [->|N1]; [|destruct (Z.eqb_spec c 45) as [->|]; [|discriminate]].
  all: cbn [orb]; destruct (two 0 12 q) as [[hh q1]|] eqn:T1; [|discriminate]; destruct (two 0 59 q1) as [[mm q2]|] eqn:T2; [|discriminate].
  all: apply two_inv in T1 as (-> & H1 & _), T2 as (-> & H2 & _); destruct q2; [intros _|discriminate]; rewrite app_nil_r.
  - now exists (Offset false hh mm).
  - now exists (Offset true hh mm).
Qed.

Lemma form_no_nul mo d h mi sec q z : day_form mo d h mi sec q (zone_text z) -> zone_ok z -> Forall (fun c => c <> 0) q.
Proof.
  intros (Hmo & Hd & Hh & Hmi & -> & Hs) Hz. assert (D : forall n, 0 <= n < 100 -> Forall (fun c => c <> 0) (dd n)).
  { intros n Hn. eapply Forall_impl; [|now apply dd_ascii]. cbn. intros; lia. }
  repeat (apply Forall_app; split); try (apply D; lia).
  - destruct sec; [apply D; lia|constructor].
  - destruct z as [| |west hh mm]; cbn [zone_text]; [constructor|now repeat constructor|]. destruct Hz.
    constructor; [destruct west; lia|]. apply Forall_app; split; apply D; lia.
Qed.

Lemma time_check_defined t s : text_of t s -> exists r, ASN1_TIME_check t = Some r.
Proof.
  intros X. unfold ASN1_TIME_check, ASN1_GENERALIZEDTIME_check, ASN1_UTCTIME_check. set (t0 := mk_tm 0 0 0 0 0 0).
  destruct (Z.eqb_spec (str_type t) V_ASN1_GENERALIZEDTIME) as [T|_].
  - rewrite (generalizedtime_list t s None T X), (gen_fields_null t0). destruct (_ <=? _); [|now eexists]. cbn [check].
    destruct (gen_fields _ s) as [[t' q]|]; [|now eexists]. destruct (zone_of_defined None q I) as ([r|] & ->); now eexists.
  - destruct (Z.eqb_spec (str_type t) V_ASN1_UTCTIME) as [T|_]; [|now eexists].
    rewrite (utctime_list t s None T X), (fields_of_null _ _ _ _ _ t0). destruct (_ <=? _); [|now eexists]. cbn [check].
    destruct (fields_of _ _ _ _ _ _ _ _) as [[t' q]|]; [|now eexists]. destruct (zone_of_defined None q I) as ([r|] & ->); now eexists.
Qed.

(** A UTCTime with its century is a GeneralizedTime. *)
Lemma utc_with_century t g s stack : str_type t = V_ASN1_UTCTIME -> text_of t s -> ASN1_UTCTIME_check t = done tt ->
  exists c s', s = c :: s' /\ 48 <= c <= 57 /\ Forall (fun c => c <> 0) s /\
    (str_type g = V_ASN1_GENERALIZEDTIME -> text_of g ((if 53 <=? c then [49; 57] else [50; 48]) ++ s) ->
     asn1_generalizedtime_to_tm (Some stack) g = asn1_utctime_to_tm (Some stack) t).
Proof.
  intros T X C. unfold ASN1_UTCTIME_check in C. rewrite (utctime_list t s None T X), (fields_of_null _ _ _ _ _ stack) in C.
  rewrite (utctime_list t s (Some stack) T X). destruct (11 <=? _) eqn:L; [|discriminate]. cbn [check] in C.
  destruct (fields_of _ _ _ _ _ _ _ _) as [[t' q]|] eqn:F; [|discriminate].
  destruct (zone_of None q) as [[r|]|] eqn:Z; try discriminate. apply utc_fields_exact in F as (yy & mo & d & h & mi & sec & q0 & Hy & -> & Hd & ->).
  destruct (zone_of_null q r Z) as (z & -> & Hz). unfold dd at 1. cbn [app]. eexists _, _. split; [reflexivity|].
  assert (0 <= yy / 10 <= 9) by lia_div. split; [lia|]. split.
  { apply (Forall_app _ (dd yy)). split; [eapply Forall_impl; [|apply dd_ascii; lia]; cbn; intros; lia|exact (form_no_nul _ _ _ _ _ _ _ Hd Hz)]. }
  intros Tg Xg. rewrite (generalizedtime_list g _ (Some stack) Tg Xg). pose proof (zone_of_head _ _ Z) as Hq.
  set (cc := if 53 <=? 48 + yy / 10 then 19 else 20).
  assert (Ec : (if 53 <=? 48 + yy / 10 then [49; 57] else [50; 48]) ++ dd yy ++ q0 = dd cc ++ dd yy ++ q0)
    by (subst cc; destruct (53 <=? _); reflexivity).
  rewrite Ec. rewrite (gen_fields_intro stack cc yy mo d h mi sec q0 _ _ ltac:(subst cc; destruct (53 <=? _); lia) Hy Hd Hq).
  rewrite !length_app in *. unfold dd in *. cbn [length] in *. replace (13 <=? _) with true by lia. cbn [check]. f_equal. f_equal. f_equal.
  subst cc. destruct (Z.leb_spec 53 (48 + yy / 10)), (Z.ltb_spec yy 50); lia_div.
Qed.

Section Converting.
Variable malloc : Z -> option (list Z).
Hypothesis Hmalloc : malloc_ok malloc.

Lemma set_null_spec ret n : string_ok ret -> 0 <= n < 2 ^ 31 - 1 ->
  let (ret', ok) := ASN1_STRING_set malloc ret None n in
  ok = true -> str_type ret' = str_type ret /\ str_length ret' = n /\
    exists c, str_data ret' = Some c /\ n < Z.of_nat (length (blk_bytes c)).
Proof.
  intros Hr Hn. unfold ASN1_STRING_set, string_ok in *. rewrite (proj2 (Z.ltb_ge n 0)) by lia.
  set (buffer := if _ || _ then _ else _).
  assert (B : forall c, buffer = Some c -> n < Z.of_nat (length (blk_bytes c))).
  { intros c. subst buffer. destruct (str_data ret) as [b|]; rewrite ?orb_true_r, ?orb_false_r.
    - destruct Hr as (Hb & Hl & Hl'). destruct (Z.leb_spec (str_length ret) n); [|intros [= <-]; lia].
      intros E. apply (OPENSSL_realloc_ok malloc Hmalloc) in E as (Hc & E & _); [unfold block_ok in Hc; lia|exact Hb|unfold word_ok; lia].
    - intros E. apply (OPENSSL_malloc_ok malloc Hmalloc) in E as (Hc & E); [unfold block_ok in Hc; lia|unfold word_ok; lia]. }
  clearbody buffer. destruct buffer as [c|]; [|discriminate]. intros _. cbn [str_type str_length str_data].
  split; [reflexivity|]. split; [reflexivity|]. eexists. split; [reflexivity|]. cbn [blk_bytes]. now apply B.
Qed.

Lemma set_data_spec ret b s r : string_ok ret -> blk_bytes b = s ++ 0 :: r -> bytes_ok s -> Z.of_nat (length s) < 2 ^ 31 - 1 ->
  let (ret', ok) := ASN1_STRING_set malloc ret (Some b) (Z.of_nat (length s)) in
  ok = true -> str_type ret' = str_type ret /\ text_of ret' s.
Proof.
  intros Hr Hb Hs Hl. pose proof (set_null_spec ret (Z.of_nat (length s)) Hr ltac:(lia)) as H.
  unfold ASN1_STRING_set in *. rewrite (proj2 (Z.ltb_ge (Z.of_nat (length s)) 0)) in * by lia.
  match type of H with let (_, _) := match ?bf with Some _ => _ | None => _ end in _ => destruct bf as [c|]; [|discriminate] end.
  intros _. destruct (H eq_refl) as (T & _ & c' & E & L). cbn [str_data str_type] in *. injection E as <-. cbn [blk_bytes] in L.
  destruct (skipn (length s) (blk_bytes c)) as [|x rest] eqn:K; [apply (f_equal (@length Z)) in K; rewrite length_skipn in K; cbn [length] in K; lia|].
  split; [reflexivity|]. split; [reflexivity|]. split; [exact Hs|]. eexists _, rest. split; [reflexivity|]. cbn [blk_bytes].
  rewrite Hb, Nat2Z.id, firstn_app_length, splice_0, K, set_nth_app by lia. reflexivity.
Qed.

(** ASN1_TIME_to_generalizedtime is defined on every text and fails or
    returns a GeneralizedTime that asn1_time_to_tm reads as the same time. *)
Theorem ASN1_TIME_to_generalizedtime_same (new out : option ASN1_STRING) (gmtime_r : Z -> option tm) (t : ASN1_STRING) (s : list Z)
  (Htarget : match (match out with None => new | Some ret => Some ret end) with
             | Some ret => string_ok ret /\ str_type ret = V_ASN1_GENERALIZEDTIME
             | None => True
             end)
  (Htext : text_of t s) (Hlen : Z.of_nat (length s) < 2 ^ 31 - 3) :
  exists r, ASN1_TIME_to_generalizedtime malloc new t out = Some r /\
    forall g, r = Some g -> str_type g = V_ASN1_GENERALIZEDTIME /\
      forall now stack, asn1_time_to_tm gmtime_r now stack (Some g) = asn1_time_to_tm gmtime_r now stack (Some t).
Proof.
  unfold ASN1_TIME_to_generalizedtime. destruct (time_check_defined t s Htext) as (k & Ck). rewrite Ck. destruct k as [[]|]; [|exists None; split; [reflexivity|discriminate]].
  cbn [after then_]. set (target := match out with None => new | Some ret => Some ret end) in *. destruct target as [ret|]; [|exists None; split; [reflexivity|discriminate]].
  destruct Htarget as (Hr & Tr). pose proof Htext as (L & Hs & b & r & D & Hb).
  destruct (Z.eqb_spec (str_type t) V_ASN1_GENERALIZEDTIME) as [T|T].
  - pose proof (set_data_spec ret b s r Hr Hb Hs ltac:(lia)) as H. rewrite L, D. destruct (ASN1_STRING_set _ _ _ _) as [g ok].
    destruct ok; [|exists None; split; [reflexivity|discriminate]]. destruct (H eq_refl) as (Tg & Xg). exists (Some g). split; [reflexivity|].
    intros g' [= <-]. rewrite Tg, Tr. split; [reflexivity|]. intros now stack. unfold asn1_time_to_tm. rewrite Tg, Tr, T.
    change (V_ASN1_GENERALIZEDTIME =? V_ASN1_UTCTIME) with false. cbn [Z.eqb Pos.eqb V_ASN1_GENERALIZEDTIME].
    now rewrite (generalizedtime_list g s _ ltac:(congruence) Xg), (generalizedtime_list t s _ T Htext).
  - unfold ASN1_TIME_check in Ck. destruct (Z.eqb_spec (str_type t) V_ASN1_GENERALIZEDTIME); [contradiction|].
    destruct (Z.eqb_spec (str_type t) V_ASN1_UTCTIME) as [Tu|]; [|discriminate].
    pose proof (set_null_spec ret (str_length t + 2) Hr ltac:(lia)) as H. destruct (ASN1_STRING_set _ _ _ _) as [g ok].
    destruct ok; [|exists None; split; [reflexivity|discriminate]]. destruct (H eq_refl) as (Tg & Lg & c & Dg & Lc). cbn [check]. rewrite Dg, D, Hb.
    pose proof (utc_with_century t) as U. destruct (U (mk_string 0 0 None 0) s (mk_tm 0 0 0 0 0 0) Tu Htext Ck) as (x & s' & Es & Hx & N & _).
    rewrite (eq_trans (f_equal (fun v => nth_error (v ++ 0 :: r) 0) Es) eq_refl : nth_error (s ++ 0 :: r) 0 = Some x). set (cent := if 53 <=? x then [49; 57; 0] else [50; 48; 0]).
    assert (Ec : cent = (if 53 <=? x then [49; 57] else [50; 48]) ++ 0 :: []) by (subst cent; destruct (53 <=? x); reflexivity).
    set (p := if 53 <=? x then [49; 57] else [50; 48]) in *. assert (Hp : Forall (fun c => c <> 0) p /\ bytes_ok p /\ length p = 2%nat)
      by (subst p; destruct (53 <=? x); (split; [now repeat constructor|split; [now apply bytes_ok_check|reflexivity]])).
    destruct Hp as (Np & Bp & Lp). rewrite Ec, OPENSSL_strlcpy_fits by (exact Np || lia).
    rewrite OPENSSL_strlcat_fits by (assumption || (rewrite length_skipn; lia)).
    eexists. split; [reflexivity|]. intros g' [= <-]. cbn [str_type]. rewrite Tg, Tr. split; [reflexivity|]. intros now stack.
    unfold asn1_time_to_tm. cbn [str_type]. rewrite Tu.
    change (V_ASN1_GENERALIZEDTIME =? V_ASN1_UTCTIME) with false. change (V_ASN1_UTCTIME =? V_ASN1_UTCTIME) with true.
    change (V_ASN1_GENERALIZEDTIME =? V_ASN1_GENERALIZEDTIME) with true. cbv iota.
    match goal with |- asn1_generalizedtime_to_tm _ ?g2 = _ => destruct (U g2 s stack Tu Htext Ck) as (x2 & s2 & Es2 & _ & _ & E) end.
    rewrite Es in Es2. injection Es2 as <- <-. apply E; [reflexivity|]. split; [cbn [str_length]; rewrite Lg, L; fold p; rewrite length_app, Lp; lia|].
    split; [apply Forall_app; split; [exact Bp|exact Hs]|]. eexists _, _. split; [reflexivity|]. cbn [blk_bytes]. fold p. now rewrite <- app_assoc.
Qed.
End Converting.

Lemma ASN1_TIME_to_generalizedtime_same_witness :
  let t := string_of V_ASN1_UTCTIME [57; 57; 49; 50; 51; 49; 50; 51; 53; 57; 90] in
  exists g, ASN1_TIME_to_generalizedtime zero_malloc (Some (mk_string 0 V_ASN1_GENERALIZEDTIME None 0)) t None = done g /\
    forall now stack, asn1_time_to_tm calendar_gmtime now stack (Some g) = asn1_time_to_tm calendar_gmtime now stack (Some t).
Proof.
  intros t. destruct (ASN1_TIME_to_generalizedtime_same zero_malloc zero_malloc_ok (Some (mk_string 0 V_ASN1_GENERALIZEDTIME None 0)) None calendar_gmtime
    t [57; 57; 49; 50; 51; 49; 50; 51; 53; 57; 90]) as (r & E & H).
  - split; [exact I|reflexivity].
  - now apply text_of_string, bytes_ok_check.
  - reflexivity.
  - destruct r as [g|]; [|vm_compute in E; discriminate]. exists g. split; [exact E|]. now apply H.
Defined.

(** The product [offset_day * SECS_PER_DAY] is an [int]: an offset of more
    than 24855 days, given in seconds, overflows it. *)
Lemma gmtime_adj_offset_overflow : OPENSSL_gmtime_adj (mk_tm 0 0 0 1 0 70) 0 (24856 * 86400) = None.
Proof. reflexivity. Qed.

(** A GeneralizedTime without a zone is accepted. *)
Lemma generalizedtime_without_zone :
  ASN1_GENERALIZEDTIME_check (string_of V_ASN1_GENERALIZEDTIME [50; 48; 50; 48; 48; 49; 48; 49; 48; 48; 48; 48; 48; 48]) = done tt.
Proof. reflexivity. Qed.
