(* ===== verification/Poly1305.v ===== *)
(** * Poly1305: BoringSSL's [crypto/poly1305/poly1305.c]

    The portable implementation, which the app's platform uses: the
    accumulator and the key in five 26-bit limbs of [uint32_t], products of
    [uint64_t].  Every word has its width; a carry that is cut to 32 bits in
    the code is cut here.  The alignment of the state inside of
    [poly1305_state] and the NEON variant of 32-bit ARM are not modelled. *)

From Stdlib Require Import ZArith Lia ZifyBool List Bool.
From S2P Require Import Prelude Endian.
Import ListNotations.

(** ** Definitions *)

Definition U8TO32_LE (m : list Z) : Z := le_val (firstn 4 m).

Definition U32TO8_LE (v : Z) : list Z := le_bytes 4 v.

Definition mul32x32_64 (a b : Z) : Z := u64 (a * b).

Record poly1305_state := mk_state {
  r0 : Z; r1 : Z; r2 : Z; r3 : Z; r4 : Z;
  s1 : Z; s2 : Z; s3 : Z; s4 : Z;
  h0 : Z; h1 : Z; h2 : Z; h3 : Z; h4 : Z;
  buf : list Z; buf_used : Z; key : list Z
}.

Definition with_h (st : poly1305_state) (h0 h1 h2 h3 h4 : Z) : poly1305_state :=
  mk_state (r0 st) (r1 st) (r2 st) (r3 st) (r4 st) (s1 st) (s2 st) (s3 st) (s4 st) h0 h1 h2 h3 h4
    (buf st) (buf_used st) (key st).

Definition with_buf (st : poly1305_state) (buf : list Z) (buf_used : Z) : poly1305_state :=
  mk_state (r0 st) (r1 st) (r2 st) (r3 st) (r4 st) (s1 st) (s2 st) (s3 st) (s4 st) (h0 st) (h1 st) (h2 st) (h3 st) (h4 st)
    buf buf_used (key st).

(** Adding the sixteen bytes [m]; [top] is the bit behind them *)
Definition add_block (st : poly1305_state) (m : list Z) (top : Z) : poly1305_state :=
  let t0 := U8TO32_LE m in
  let t1 := U8TO32_LE (skipn 4 m) in
  let t2 := U8TO32_LE (skipn 8 m) in
  let t3 := U8TO32_LE (skipn 12 m) in
  with_h st
    (u32 (h0 st + Z.land t0 0x3ffffff))
    (u32 (h1 st + Z.land (Z.shiftr (Z.lor (u64 (Z.shiftl t1 32)) t0) 26) 0x3ffffff))
    (u32 (h2 st + Z.land (Z.shiftr (Z.lor (u64 (Z.shiftl t2 32)) t1) 20) 0x3ffffff))
    (u32 (h3 st + Z.land (Z.shiftr (Z.lor (u64 (Z.shiftl t3 32)) t2) 14) 0x3ffffff))
    (u32 (h4 st + Z.lor (Z.shiftr t3 8) top)).

(** [poly1305_donna_mul] *)
Definition donna_mul (st : poly1305_state) : poly1305_state :=
  let sum5 a b c d e := u64 (u64 (u64 (u64 (a + b) + c) + d) + e) in
  let m := mul32x32_64 in
  let t0 := sum5 (m (h0 st) (r0 st)) (m (h1 st) (s4 st)) (m (h2 st) (s3 st)) (m (h3 st) (s2 st)) (m (h4 st) (s1 st)) in
  let t1 := sum5 (m (h0 st) (r1 st)) (m (h1 st) (r0 st)) (m (h2 st) (s4 st)) (m (h3 st) (s3 st)) (m (h4 st) (s2 st)) in
  let t2 := sum5 (m (h0 st) (r2 st)) (m (h1 st) (r1 st)) (m (h2 st) (r0 st)) (m (h3 st) (s4 st)) (m (h4 st) (s3 st)) in
  let t3 := sum5 (m (h0 st) (r3 st)) (m (h1 st) (r2 st)) (m (h2 st) (r1 st)) (m (h3 st) (r0 st)) (m (h4 st) (s4 st)) in
  let t4 := sum5 (m (h0 st) (r4 st)) (m (h1 st) (r3 st)) (m (h2 st) (r2 st)) (m (h3 st) (r1 st)) (m (h4 st) (r0 st)) in
  let h0' := Z.land (u32 t0) 0x3ffffff in
  let c := Z.shiftr t0 26 in
  let t1 := u64 (t1 + c) in
  let h1' := Z.land (u32 t1) 0x3ffffff in
  let b := u32 (Z.shiftr t1 26) in
  let t2 := u64 (t2 + b) in
  let h2' := Z.land (u32 t2) 0x3ffffff in
  let b := u32 (Z.shiftr t2 26) in
  let t3 := u64 (t3 + b) in
  let h3' := Z.land (u32 t3) 0x3ffffff in
  let b := u32 (Z.shiftr t3 26) in
  let t4 := u64 (t4 + b) in
  let h4' := Z.land (u32 t4) 0x3ffffff in
  let b := u32 (Z.shiftr t4 26) in
  with_h st (u32 (h0' + u32 (b * 5))) h1' h2' h3' h4'.

(** The loop over whole blocks and the final bytes *)
Fixpoint update_loop (fuel : nat) (st : poly1305_state) (inp : list Z) (len : Z) : poly1305_state :=
  match fuel with
  | O => st
  | S fuel =>
      if 16 <=? len then update_loop fuel (donna_mul (add_block st inp (Z.shiftl 1 24))) (skipn 16 inp) (len - 16)
      else if len =? 0 then st
      else
        let mp := firstn (Z.to_nat len) inp ++ [1] ++ repeat 0 (Z.to_nat (16 - len - 1)) in
        donna_mul (add_block st mp 0)
  end.

Definition poly1305_update (st : poly1305_state) (inp : list Z) (len : Z) : poly1305_state :=
  update_loop (S (Z.to_nat (len / 16))) st inp len.

(** [junk] is what the buffer held before. *)
Definition CRYPTO_poly1305_init (junk : list Z) (k : list Z) : poly1305_state :=
  let t0 := U8TO32_LE k in
  let t1 := U8TO32_LE (skipn 4 k) in
  let t2 := U8TO32_LE (skipn 8 k) in
  let t3 := U8TO32_LE (skipn 12 k) in
  let r0 := Z.land t0 0x3ffffff in
  let t0 := Z.shiftr t0 26 in
  let t0 := Z.lor t0 (u32 (Z.shiftl t1 6)) in
  let r1 := Z.land t0 0x3ffff03 in
  let t1 := Z.shiftr t1 20 in
  let t1 := Z.lor t1 (u32 (Z.shiftl t2 12)) in
  let r2 := Z.land t1 0x3ffc0ff in
  let t2 := Z.shiftr t2 14 in
  let t2 := Z.lor t2 (u32 (Z.shiftl t3 18)) in
  let r3 := Z.land t2 0x3f03fff in
  let t3 := Z.shiftr t3 8 in
  let r4 := Z.land t3 0x00fffff in
  mk_state r0 r1 r2 r3 r4 (u32 (r1 * 5)) (u32 (r2 * 5)) (u32 (r3 * 5)) (u32 (r4 * 5))
    0 0 0 0 0 junk 0 (firstn 16 (skipn 16 k)).

(** Filling the buffer first, which is run when it is full *)
Definition fill_buffer (st : poly1305_state) (inp : list Z) (in_len : Z) : poly1305_state * list Z * Z :=
  if buf_used st =? 0 then (st, inp, in_len)
  else
    let todo := 16 - buf_used st in
    let todo := if in_len <? todo then in_len else todo in
    let st := with_buf st (splice (Z.to_nat (buf_used st)) (firstn (Z.to_nat todo) inp) (buf st)) (buf_used st + todo) in
    let in_len := in_len - todo in
    let inp := skipn (Z.to_nat todo) inp in
    (if buf_used st =? 16 then with_buf (poly1305_update st (buf st) 16) (buf st) 0 else st, inp, in_len).

Definition CRYPTO_poly1305_update (st : poly1305_state) (inp : list Z) (in_len : Z) : poly1305_state :=
  let '(st, inp, in_len) := fill_buffer st inp in_len in
  let '(st, inp, in_len) :=
    if 16 <=? in_len then
      let todo := Z.land in_len (SIZE_MAX - 0xf) in
      (poly1305_update st inp todo, skipn (Z.to_nat todo) inp, Z.land in_len 0xf)
    else (st, inp, in_len) in
  if in_len =? 0 then st
  else with_buf st (splice 0 (firstn (Z.to_nat in_len) inp) (buf st)) in_len.

(** Carrying the accumulator once around *)
Definition carry_around (st : poly1305_state) : poly1305_state :=
  let b := Z.shiftr (h0 st) 26 in
  let h0' := Z.land (h0 st) 0x3ffffff in
  let h1' := u32 (h1 st + b) in
  let b := Z.shiftr h1' 26 in
  let h1' := Z.land h1' 0x3ffffff in
  let h2' := u32 (h2 st + b) in
  let b := Z.shiftr h2' 26 in
  let h2' := Z.land h2' 0x3ffffff in
  let h3' := u32 (h3 st + b) in
  let b := Z.shiftr h3' 26 in
  let h3' := Z.land h3' 0x3ffffff in
  let h4' := u32 (h4 st + b) in
  let b := Z.shiftr h4' 26 in
  let h4' := Z.land h4' 0x3ffffff in
  with_h st (u32 (h0' + u32 (b * 5))) h1' h2' h3' h4'.

(** The accumulator or the accumulator minus the prime *)
Definition select_reduced (st : poly1305_state) : poly1305_state :=
  let g0 := u32 (h0 st + 5) in
  let b := Z.shiftr g0 26 in
  let g0 := Z.land g0 0x3ffffff in
  let g1 := u32 (h1 st + b) in
  let b := Z.shiftr g1 26 in
  let g1 := Z.land g1 0x3ffffff in
  let g2 := u32 (h2 st + b) in
  let b := Z.shiftr g2 26 in
  let g2 := Z.land g2 0x3ffffff in
  let g3 := u32 (h3 st + b) in
  let b := Z.shiftr g3 26 in
  let g3 := Z.land g3 0x3ffffff in
  let g4 := u32 (h4 st + b - Z.shiftl 1 26) in
  let b := u32 (Z.shiftr g4 31 - 1) in
  let nb := u32 (Z.lnot b) in
  let select h g := Z.lor (Z.land h nb) (Z.land g b) in
  with_h st (select (h0 st) g0) (select (h1 st) g1) (select (h2 st) g2) (select (h3 st) g3) (select (h4 st) g4).

(** Adding the second half of the key *)
Definition add_key (st : poly1305_state) : list Z :=
  let f0 := u64 (Z.lor (h0 st) (u32 (Z.shiftl (h1 st) 26)) + U8TO32_LE (key st)) in
  let f1 := u64 (Z.lor (Z.shiftr (h1 st) 6) (u32 (Z.shiftl (h2 st) 20)) + U8TO32_LE (skipn 4 (key st))) in
  let f2 := u64 (Z.lor (Z.shiftr (h2 st) 12) (u32 (Z.shiftl (h3 st) 14)) + U8TO32_LE (skipn 8 (key st))) in
  let f3 := u64 (Z.lor (Z.shiftr (h3 st) 18) (u32 (Z.shiftl (h4 st) 8)) + U8TO32_LE (skipn 12 (key st))) in
  let f1 := u64 (f1 + Z.shiftr f0 32) in
  let f2 := u64 (f2 + Z.shiftr f1 32) in
  let f3 := u64 (f3 + Z.shiftr f2 32) in
  U32TO8_LE (u32 f0) ++ U32TO8_LE (u32 f1) ++ U32TO8_LE (u32 f2) ++ U32TO8_LE (u32 f3).

Definition CRYPTO_poly1305_finish (st : poly1305_state) : list Z :=
  let st := if buf_used st =? 0 then st else poly1305_update st (buf st) (buf_used st) in
  add_key (select_reduced (carry_around st)).

(** ** The authenticator *)

Definition p : Z := 2 ^ 130 - 5.

(** A block with the bit behind its bytes *)
Definition block_val (b : list Z) : Z := le_val b + 256 ^ Z.of_nat (length b).

(** The polynomial of a message, block by block; a round per block *)
Fixpoint poly (fuel : nat) (r acc : Z) (msg : list Z) : Z :=
  match fuel, msg with
  | S fuel, _ :: _ => poly fuel r ((acc + block_val (firstn 16 msg)) * r mod p) (skipn 16 msg)
  | _, _ => acc
  end.

Definition clamp (r : Z) : Z := Z.land r 0x0ffffffc0ffffffc0ffffffc0fffffff.

(** RFC 8439, section 2.5 *)
Definition accumulator (k msg : list Z) : Z := poly (length msg) (clamp (le_val (firstn 16 k))) 0 msg.

Definition poly1305_tag (k msg : list Z) : list Z :=
  le_bytes 16 (accumulator k msg + le_val (firstn 16 (skipn 16 k))).

(** ** Limbs *)

Definition M26 : Z := 2 ^ 26 - 1.

Definition H (st : poly1305_state) : Z := h0 st + 2 ^ 26 * h1 st + 2 ^ 52 * h2 st + 2 ^ 78 * h3 st + 2 ^ 104 * h4 st.

Definition R (st : poly1305_state) : Z := r0 st + 2 ^ 26 * r1 st + 2 ^ 52 * r2 st + 2 ^ 78 * r3 st + 2 ^ 104 * r4 st.

(** The limbs of a clamped key, and their multiples *)
Definition r_ok (st : poly1305_state) : Prop :=
  (0 <= r0 st <= 0x3ffffff /\ 0 <= r1 st <= 0x3ffff03 /\ 0 <= r2 st <= 0x3ffc0ff /\ 0 <= r3 st <= 0x3f03fff /\ 0 <= r4 st <= 0xfffff) /\
  s1 st = 5 * r1 st /\ s2 st = 5 * r2 st /\ s3 st = 5 * r3 st /\ s4 st = 5 * r4 st.

(** Between blocks the lowest limb has up to 32 bits. *)
Definition h_ok (st : poly1305_state) : Prop :=
  0 <= h0 st <= 2797000000 /\ 0 <= h1 st <= M26 /\ 0 <= h2 st <= M26 /\ 0 <= h3 st <= M26 /\ 0 <= h4 st <= M26.

(** After a block has been added *)
Definition h_wide (st : poly1305_state) : Prop :=
  0 <= h0 st <= 2797000000 + M26 /\ 0 <= h1 st <= 2 * M26 /\ 0 <= h2 st <= 2 * M26 /\ 0 <= h3 st <= 2 * M26 /\
  0 <= h4 st <= M26 + 2 ^ 25.

(** [st'] differs from [st] in the accumulator only. *)
Definition same_key (st st' : poly1305_state) : Prop := exists a b c d e, st' = with_h st a b c d e.

Lemma same_key_r st st' : same_key st st' -> r_ok st -> r_ok st' /\ R st' = R st /\ buf st' = buf st /\ buf_used st' = buf_used st /\ key st' = key st.
Proof. intros (a & b & c & d & e & ->) Hr. split; [exact Hr|]. repeat split. Qed.

Lemma same_key_trans s1 s2 s3 : same_key s1 s2 -> same_key s2 s3 -> same_key s1 s3.
Proof. intros (a & b & c & d & e & ->) (a' & b' & c' & d' & e' & ->). now exists a', b', c', d', e'. Qed.

Lemma same_key_refl st : same_key st st.
Proof. exists (h0 st), (h1 st), (h2 st), (h3 st), (h4 st). now destruct st. Qed.

(** *** Words of a block *)

Lemma word_le m : bytes_ok m -> 0 <= U8TO32_LE m < 2 ^ 32.
Proof.
  intros Hm. unfold U8TO32_LE. pose proof (le_val_bound (firstn 4 m) (bytes_ok_firstn 4 m Hm)) as B.
  assert (L : (length (firstn 4 m) <= 4)%nat) by (rewrite length_firstn; lia).
  assert (256 ^ Z.of_nat (length (firstn 4 m)) <= 256 ^ 4) by (apply Z.pow_le_mono_r; lia). lia.
Qed.

Lemma le_val_split (n : nat) m : (n <= length m)%nat -> le_val m = le_val (firstn n m) + 256 ^ Z.of_nat n * le_val (skipn n m).
Proof. intros Hn. rewrite <- (firstn_skipn n m) at 1. rewrite le_val_app, length_firstn, Nat.min_l by exact Hn. reflexivity. Qed.

Lemma words_of_16 m : (16 <= length m)%nat ->
  le_val (firstn 16 m) = U8TO32_LE m + 2 ^ 32 * U8TO32_LE (skipn 4 m) + 2 ^ 64 * U8TO32_LE (skipn 8 m) + 2 ^ 96 * U8TO32_LE (skipn 12 m).
Proof.
  intros L. do 16 (destruct m as [|? m]; [cbn in L; lia|]). unfold U8TO32_LE. cbn [firstn skipn le_val]. lia.
Qed.

Lemma land_M26 x : 0 <= x -> Z.land x 0x3ffffff = x mod 2 ^ 26.
Proof. intros _. change 0x3ffffff with (2 ^ 26 - 1). now apply land_mask. Qed.

(** The limb that straddles two words *)
Lemma straddle hi lo k : 0 <= lo < 2 ^ 32 -> 0 <= hi < 2 ^ 32 -> 6 <= k <= 32 ->
  Z.land (Z.shiftr (Z.lor (u64 (Z.shiftl hi 32)) lo) k) 0x3ffffff = (lo / 2 ^ k + 2 ^ (32 - k) * hi) mod 2 ^ 26.
Proof.
  intros Hlo Hhi Hk. rewrite land_M26 by (apply Z.shiftr_nonneg, Z.lor_nonneg; split; [unfold wrap; lia_div|lia]).
  rewrite wrap_small by (rewrite Z.shiftl_mul_pow2 by lia; unfold word_ok; lia).
  rewrite shiftl_lor_add by lia. rewrite Z.shiftr_div_pow2 by lia. f_equal.
  replace (hi * 2 ^ 32 + lo) with (lo + 2 ^ (32 - k) * hi * 2 ^ k); [now rewrite Z.div_add by lia|].
  replace (2 ^ 32) with (2 ^ (32 - k) * 2 ^ k) by (rewrite <- Z.pow_add_r by lia; f_equal; lia). lia.
Qed.

(** Adding a block adds its value. *)
Lemma add_block_spec st m top : bytes_ok m -> (16 <= length m)%nat -> top = 0 \/ top = 2 ^ 24 -> h_ok st ->
  same_key st (add_block st m top) /\ h_wide (add_block st m top) /\
  H (add_block st m top) = H st + le_val (firstn 16 m) + 2 ^ 104 * top.
Proof.
  intros Hm L Ht (B0 & B1 & B2 & B3 & B4). unfold M26 in *.
  pose proof (word_le m Hm) as W0. pose proof (word_le _ (bytes_ok_skipn 4 m Hm)) as W1.
  pose proof (word_le _ (bytes_ok_skipn 8 m Hm)) as W2. pose proof (word_le _ (bytes_ok_skipn 12 m Hm)) as W3.
  rewrite (words_of_16 m L). unfold add_block.
  set (t0 := U8TO32_LE m) in *. set (t1 := U8TO32_LE (skipn 4 m)) in *. set (t2 := U8TO32_LE (skipn 8 m)) in *. set (t3 := U8TO32_LE (skipn 12 m)) in *.
  clearbody t0 t1 t2 t3. rewrite (land_M26 t0) by lia. rewrite !straddle by lia.
  assert (E4 : Z.lor (Z.shiftr t3 8) top = t3 / 2 ^ 8 + top).
  { rewrite Z.shiftr_div_pow2 by lia. destruct Ht as [-> | ->]; [now rewrite Z.lor_0_r, Z.add_0_r|].
    change (2 ^ 24) with (Z.shiftl 1 24) at 1. rewrite Z.lor_comm, shiftl_lor_add by lia_div. lia. }
  rewrite E4. clear E4.
  set (l0 := t0 mod 2 ^ 26). set (l1 := (t0 / 2 ^ 26 + 2 ^ (32 - 26) * t1) mod 2 ^ 26).
  set (l2 := (t1 / 2 ^ 20 + 2 ^ (32 - 20) * t2) mod 2 ^ 26). set (l3 := (t2 / 2 ^ 14 + 2 ^ (32 - 14) * t3) mod 2 ^ 26). set (l4 := t3 / 2 ^ 8 + top).
  assert (L0 : 0 <= l0 < 2 ^ 26) by now apply Z.mod_pos_bound. assert (L1 : 0 <= l1 < 2 ^ 26) by now apply Z.mod_pos_bound.
  assert (L2 : 0 <= l2 < 2 ^ 26) by now apply Z.mod_pos_bound. assert (L3 : 0 <= l3 < 2 ^ 26) by now apply Z.mod_pos_bound.
  assert (L4 : 0 <= l4 < 2 ^ 25) by (subst l4; lia_div).
  assert (E : l0 + 2 ^ 26 * l1 + 2 ^ 52 * l2 + 2 ^ 78 * l3 + 2 ^ 104 * l4 = t0 + 2 ^ 32 * t1 + 2 ^ 64 * t2 + 2 ^ 96 * t3 + 2 ^ 104 * top)
    by (subst l0 l1 l2 l3 l4; clear - W0 W1 W2 W3; lia_div).
  clearbody l0 l1 l2 l3 l4. rewrite !wrap_small by (unfold word_ok; lia). split; [now eexists _, _, _, _, _|].
  unfold h_wide, H, with_h, M26. cbn [h0 h1 h2 h3 h4]. lia.
Qed.

(** The prime: [2^130] counts as [5]. *)
Lemma mod_p x y k : x = y + p * k -> x mod p = y mod p.
Proof. intros ->. rewrite (Z.mul_comm p k). apply Z_mod_plus_full. Qed.

(** One step of the carry chain *)
Lemma low26 x : Z.land (u32 x) 0x3ffffff = x mod 2 ^ 26.
Proof.
  rewrite land_M26 by (apply wrap_range; lia). unfold wrap. symmetry. apply Znumtheory.Zmod_div_mod; [lia|lia|]. exists (2 ^ 6). lia.
Qed.

Lemma carry_step t c : 0 <= t < 2 ^ 58 - 2 ^ 34 -> 0 <= c < 2 ^ 34 ->
  Z.land (u32 (u64 (t + c))) 0x3ffffff = (t + c) mod 2 ^ 26 /\ u32 (Z.shiftr (u64 (t + c)) 26) = (t + c) / 2 ^ 26.
Proof.
  intros Ht Hc. rewrite (wrap_small 64) by (unfold word_ok; lia). split; [apply low26|].
  rewrite Z.shiftr_div_pow2 by lia. apply wrap_small. unfold word_ok. lia_div.
Qed.

Lemma sum5_small a b c d e : 0 <= a -> 0 <= b -> 0 <= c -> 0 <= d -> 0 <= e -> a + b + c + d + e < 2 ^ 64 ->
  u64 (u64 (u64 (u64 (a + b) + c) + d) + e) = a + b + c + d + e.
Proof. intros. rewrite (wrap_small 64 (a + b)), (wrap_small 64 (a + b + c)), (wrap_small 64 (a + b + c + d)), wrap_small by (unfold word_ok; lia). reflexivity. Qed.

(** The five sums of products, their bounds and their value *)
Section Products.
Variables a0 a1 a2 a3 a4 k0 k1 k2 k3 k4 : Z.
Hypothesis B0 : 0 <= a0 <= 2797000000 + M26.
Hypothesis B1 : 0 <= a1 <= 2 * M26.
Hypothesis B2 : 0 <= a2 <= 2 * M26.
Hypothesis B3 : 0 <= a3 <= 2 * M26.
Hypothesis B4 : 0 <= a4 <= M26 + 2 ^ 25.
Hypothesis R0 : 0 <= k0 <= 0x3ffffff.
Hypothesis R1 : 0 <= k1 <= 0x3ffff03.
Hypothesis R2 : 0 <= k2 <= 0x3ffc0ff.
Hypothesis R3 : 0 <= k3 <= 0x3f03fff.
Hypothesis R4 : 0 <= k4 <= 0xfffff.

Definition T0 : Z := a0 * k0 + 5 * (a1 * k4) + 5 * (a2 * k3) + 5 * (a3 * k2) + 5 * (a4 * k1).
Definition T1 : Z := a0 * k1 + a1 * k0 + 5 * (a2 * k4) + 5 * (a3 * k3) + 5 * (a4 * k2).
Definition T2 : Z := a0 * k2 + a1 * k1 + a2 * k0 + 5 * (a3 * k4) + 5 * (a4 * k3).
Definition T3 : Z := a0 * k3 + a1 * k2 + a2 * k1 + a3 * k0 + 5 * (a4 * k4).
Definition T4 : Z := a0 * k4 + a1 * k3 + a2 * k2 + a3 * k1 + a4 * k0.

Lemma products_value : exists k,
  T0 + 2 ^ 26 * T1 + 2 ^ 52 * T2 + 2 ^ 78 * T3 + 2 ^ 104 * T4 =
  (a0 + 2 ^ 26 * a1 + 2 ^ 52 * a2 + 2 ^ 78 * a3 + 2 ^ 104 * a4) * (k0 + 2 ^ 26 * k1 + 2 ^ 52 * k2 + 2 ^ 78 * k3 + 2 ^ 104 * k4) + p * k.
Proof.
  exists (- (a1 * k4 + a2 * k3 + a3 * k2 + a4 * k1 + 2 ^ 26 * (a2 * k4 + a3 * k3 + a4 * k2) + 2 ^ 52 * (a3 * k4 + a4 * k3) + 2 ^ 78 * (a4 * k4))).
  unfold T0, T1, T2, T3, T4, p. ring.
Qed.

Lemma products_bound : 0 <= T0 < 2 ^ 59 /\ 0 <= T1 < 2 ^ 58 - 2 ^ 34 /\ 0 <= T2 < 2 ^ 58 - 2 ^ 34 /\ 0 <= T3 < 2 ^ 58 - 2 ^ 34 /\ 0 <= T4 < 2 ^ 26 * 545976000.
Proof.
  pose proof (prod_bound _ _ _ _ B0 R0). pose proof (prod_bound _ _ _ _ B0 R1). pose proof (prod_bound _ _ _ _ B0 R2). pose proof (prod_bound _ _ _ _ B0 R3).
  pose proof (prod_bound _ _ _ _ B0 R4). pose proof (prod_bound _ _ _ _ B1 R0). pose proof (prod_bound _ _ _ _ B1 R1). pose proof (prod_bound _ _ _ _ B1 R2).
  pose proof (prod_bound _ _ _ _ B1 R3). pose proof (prod_bound _ _ _ _ B1 R4). pose proof (prod_bound _ _ _ _ B2 R0). pose proof (prod_bound _ _ _ _ B2 R1).
  pose proof (prod_bound _ _ _ _ B2 R2). pose proof (prod_bound _ _ _ _ B2 R3). pose proof (prod_bound _ _ _ _ B2 R4). pose proof (prod_bound _ _ _ _ B3 R0).
  pose proof (prod_bound _ _ _ _ B3 R1). pose proof (prod_bound _ _ _ _ B3 R2). pose proof (prod_bound _ _ _ _ B3 R3). pose proof (prod_bound _ _ _ _ B3 R4).
  pose proof (prod_bound _ _ _ _ B4 R0). pose proof (prod_bound _ _ _ _ B4 R1). pose proof (prod_bound _ _ _ _ B4 R2). pose proof (prod_bound _ _ _ _ B4 R3).
  pose proof (prod_bound _ _ _ _ B4 R4). clear B0 B1 B2 B3 B4 R0 R1 R2 R3 R4. unfold T0, T1, T2, T3, T4.
  repeat match goal with H : 0 <= ?a * ?b <= ?m |- _ => let v := eval vm_compute in m in change m with v in H; let x := fresh "m" in set (x := a * b) in *; clearbody x end.
  split; [lia|]. split; [lia|]. split; [lia|]. split; lia.
Qed.
End Products.

(** The accumulator is multiplied by the key; no carry is cut, and the limbs
    are short again. *)
Lemma donna_mul_spec st : r_ok st -> h_wide st ->
  same_key st (donna_mul st) /\ h_ok (donna_mul st) /\ H (donna_mul st) mod p = H st * R st mod p.
Proof.
  intros ((R0 & R1 & R2 & R3 & R4) & S1 & S2 & S3 & S4) (B0 & B1 & B2 & B3 & B4). unfold donna_mul. rewrite S1, S2, S3, S4.
  pose proof (products_bound _ _ _ _ _ _ _ _ _ _ B0 B1 B2 B3 B4 R0 R1 R2 R3 R4) as (L0 & L1 & L2 & L3 & L4).
  destruct (products_value (h0 st) (h1 st) (h2 st) (h3 st) (h4 st) (r0 st) (r1 st) (r2 st) (r3 st) (r4 st)) as (k & T).
  assert (Mul : forall a b, 0 <= a <= 2797000000 + M26 -> 0 <= b <= 0x3ffffff -> mul32x32_64 a b = a * b).
  { intros a b Ha Hb. unfold mul32x32_64. apply wrap_small. pose proof (prod_bound _ _ _ _ Ha Hb) as P. unfold word_ok, M26 in *. lia. }
  assert (Mul5 : forall a b, 0 <= a <= 2 * M26 -> 0 <= b <= 0x3ffffff -> mul32x32_64 a (5 * b) = 5 * (a * b)).
  { intros a b Ha Hb. unfold mul32x32_64. rewrite wrap_small; [lia|]. pose proof (prod_bound _ _ _ _ Ha Hb) as P. unfold word_ok, M26 in *. lia. }
  unfold M26 in *. rewrite !Mul5, !Mul by lia. clear Mul Mul5.
  rewrite (sum5_small (h0 st * r0 st)), (sum5_small (h0 st * r1 st)), (sum5_small (h0 st * r2 st)), (sum5_small (h0 st * r3 st)), (sum5_small (h0 st * r4 st))
    by (solve [repeat first [apply Z.mul_nonneg_nonneg | lia]] || (unfold T0, T1, T2, T3, T4 in *; lia)).
  fold (T0 (h0 st) (h1 st) (h2 st) (h3 st) (h4 st) (r0 st) (r1 st) (r2 st) (r3 st) (r4 st)).
  fold (T1 (h0 st) (h1 st) (h2 st) (h3 st) (h4 st) (r0 st) (r1 st) (r2 st) (r3 st) (r4 st)).
  fold (T2 (h0 st) (h1 st) (h2 st) (h3 st) (h4 st) (r0 st) (r1 st) (r2 st) (r3 st) (r4 st)).
  fold (T3 (h0 st) (h1 st) (h2 st) (h3 st) (h4 st) (r0 st) (r1 st) (r2 st) (r3 st) (r4 st)).
  fold (T4 (h0 st) (h1 st) (h2 st) (h3 st) (h4 st) (r0 st) (r1 st) (r2 st) (r3 st) (r4 st)).
  set (t0 := T0 _ _ _ _ _ _ _ _ _ _) in *. set (t1 := T1 _ _ _ _ _ _ _ _ _ _) in *. set (t2 := T2 _ _ _ _ _ _ _ _ _ _) in *.
  set (t3 := T3 _ _ _ _ _ _ _ _ _ _) in *. set (t4 := T4 _ _ _ _ _ _ _ _ _ _) in *. clearbody t0 t1 t2 t3 t4.
  fold (H st) (R st) in T. cbv zeta. rewrite (Z.shiftr_div_pow2 t0), low26 by lia.
  set (c0 := t0 / 2 ^ 26). assert (C0 : 0 <= c0 < 2 ^ 34) by (subst c0; lia_div).
  destruct (carry_step t1 c0 L1 C0) as (-> & ->). set (c1 := (t1 + c0) / 2 ^ 26). assert (C1 : 0 <= c1 < 2 ^ 34) by (subst c1; lia_div).
  destruct (carry_step t2 c1 L2 C1) as (-> & ->). set (c2 := (t2 + c1) / 2 ^ 26). assert (C2 : 0 <= c2 < 2 ^ 34) by (subst c2; lia_div).
  destruct (carry_step t3 c2 L3 C2) as (-> & ->). set (c3 := (t3 + c2) / 2 ^ 26). assert (C3 : 0 <= c3 < 2 ^ 32) by (subst c3; lia_div).
  destruct (carry_step t4 c3 ltac:(lia) ltac:(lia)) as (-> & ->). set (c4 := (t4 + c3) / 2 ^ 26). assert (C4 : 0 <= c4 <= 545976064) by (subst c4; lia_div).
  rewrite (wrap_small 32 (c4 * 5)) by (unfold word_ok; lia). assert (M0 : 0 <= t0 mod 2 ^ 26 < 2 ^ 26) by now apply Z.mod_pos_bound.
  rewrite wrap_small by (unfold word_ok; lia). split; [now eexists _, _, _, _, _|]. unfold h_ok, M26, with_h. cbn [h0 h1 h2 h3 h4].
  assert (M1 : 0 <= (t1 + c0) mod 2 ^ 26 < 2 ^ 26) by now apply Z.mod_pos_bound. assert (M2 : 0 <= (t2 + c1) mod 2 ^ 26 < 2 ^ 26) by now apply Z.mod_pos_bound.
  assert (M3 : 0 <= (t3 + c2) mod 2 ^ 26 < 2 ^ 26) by now apply Z.mod_pos_bound. assert (M4 : 0 <= (t4 + c3) mod 2 ^ 26 < 2 ^ 26) by now apply Z.mod_pos_bound.
  split; [lia|]. apply (mod_p _ _ (k - c4)). unfold H at 1. cbn [h0 h1 h2 h3 h4]. rewrite Z.mul_sub_distr_l, Z.add_sub_assoc, <- T.
  pose proof (Z.div_mod t0 (2 ^ 26) ltac:(lia)) as D0. pose proof (Z.div_mod (t1 + c0) (2 ^ 26) ltac:(lia)) as D1. pose proof (Z.div_mod (t2 + c1) (2 ^ 26) ltac:(lia)) as D2.
  pose proof (Z.div_mod (t3 + c2) (2 ^ 26) ltac:(lia)) as D3. pose proof (Z.div_mod (t4 + c3) (2 ^ 26) ltac:(lia)) as D4.
  fold c0 in D0. fold c1 in D1. fold c2 in D2. fold c3 in D3. fold c4 in D4. unfold p. clear - D0 D1 D2 D3 D4. lia.
Qed.

(** ** The polynomial *)

Definition P (r acc : Z) (msg : list Z) : Z := poly (length msg) r acc msg.

Lemma poly_fuel r : forall f g acc msg, (length msg <= f)%nat -> (length msg <= g)%nat -> poly f r acc msg = poly g r acc msg.
Proof.
  induction f as [|f IH]; intros g acc msg Hf Hg; destruct msg as [|b msg]; [now destruct g|cbn in Hf; lia|now destruct g|].
  destruct g as [|g]; [cbn in Hg; lia|]. cbn [poly]. apply IH; rewrite length_skipn; cbn [length] in *; lia.
Qed.

Lemma P_step r acc msg : msg <> [] -> P r acc msg = P r ((acc + block_val (firstn 16 msg)) * r mod p) (skipn 16 msg).
Proof.
  intros N. destruct msg as [|b msg]; [congruence|]. unfold P at 1. cbn [length poly]. apply poly_fuel; rewrite length_skipn; cbn [length]; lia.
Qed.

Lemma P_mod r : forall n acc acc' msg, (length msg <= n)%nat -> acc mod p = acc' mod p -> P r acc msg mod p = P r acc' msg mod p.
Proof.
  induction n as [|n IH]; intros acc acc' msg Hn E; destruct msg as [|b msg]; [exact E|cbn in Hn; lia|exact E|].
  rewrite !(P_step r _ (b :: msg)) by discriminate. apply IH; [rewrite length_skipn; cbn [length] in *; lia|].
  f_equal. rewrite Z.mul_mod, (Z.mul_mod (acc' + _)), Z.add_mod, (Z.add_mod acc'), E by (unfold p; lia). reflexivity.
Qed.

Lemma P_range r acc msg : msg <> [] \/ 0 <= acc < p -> 0 <= P r acc msg < p.
Proof.
  assert (A : forall n acc msg, (length msg <= n)%nat -> 0 <= acc < p -> 0 <= P r acc msg < p).
  { clear. induction n as [|n IH]; intros acc msg Hn Ha; destruct msg as [|b msg]; [exact Ha|cbn in Hn; lia|exact Ha|].
    rewrite P_step by discriminate. apply IH; [rewrite length_skipn; cbn [length] in *; lia|]. apply Z.mod_pos_bound. unfold p. lia. }
  intros [N|Ha]; [|now apply (A (length msg))]. rewrite P_step by exact N.
  apply (A (length (skipn 16 msg))); [lia|]. apply Z.mod_pos_bound. unfold p. lia.
Qed.

(** Whole blocks first *)
Lemma P_app r a b : forall n acc, (length a = 16 * n)%nat -> P r acc (a ++ b) = P r (P r acc a) b.
Proof.
  intros n. revert a. induction n as [|n IH]; intros a acc L.
  - destruct a; [reflexivity|cbn in L; lia].
  - assert (N : a <> []) by (intros ->; cbn in L; lia). assert (N' : a ++ b <> []) by (destruct a; [congruence|discriminate]).
    rewrite (P_step r acc (a ++ b) N'), (P_step r acc a N). rewrite firstn_app, skipn_app. replace (16 - length a)%nat with O by lia.
    rewrite firstn_O, skipn_O, app_nil_r. apply IH. rewrite length_skipn. lia.
Qed.

(** ** Updating *)

Lemma le_val_zeros l n : le_val (l ++ [1] ++ repeat 0 n) = le_val l + 256 ^ Z.of_nat (length l).
Proof. rewrite le_val_app. cbn [app le_val]. rewrite le_val_repeat0. lia. Qed.

Lemma update_loop_spec fuel : forall st inp len, 0 <= len <= Z.of_nat (length inp) -> len / 16 < Z.of_nat fuel ->
  bytes_ok inp -> r_ok st -> h_ok st ->
  let st' := update_loop fuel st inp len in
  same_key st st' /\ h_ok st' /\ H st' mod p = P (R st) (H st) (firstn (Z.to_nat len) inp) mod p.
Proof.
  induction fuel as [|fuel IH]; intros st inp len Hlen Hf Hi Hr Hh; [lia_div|]. cbn [update_loop].
  destruct (Z.leb_spec 16 len) as [L|L].
  - destruct (add_block_spec st inp (2 ^ 24) Hi ltac:(lia) ltac:(now right) Hh) as (K1 & W1 & E1).
    destruct (same_key_r _ _ K1 Hr) as (Hr1 & R1 & _). destruct (donna_mul_spec _ Hr1 W1) as (K2 & Hh2 & E2).
    destruct (same_key_r _ _ (same_key_trans _ _ _ K1 K2) Hr) as (Hr2 & R2 & _). change (Z.shiftl 1 24) with (2 ^ 24).
    destruct (IH (donna_mul (add_block st inp (2 ^ 24))) (skipn 16 inp) (len - 16)) as (K3 & Hh3 & E3);
      [rewrite length_skipn; lia|lia_div|now apply bytes_ok_skipn|exact Hr2|exact Hh2|].
    split; [exact (same_key_trans _ _ _ (same_key_trans _ _ _ K1 K2) K3)|]. split; [exact Hh3|]. rewrite E3, R2.
    assert (N : firstn (Z.to_nat len) inp <> []) by (intros N; apply (f_equal (@length Z)) in N; rewrite length_firstn in N; cbn in N; lia).
    rewrite (P_step (R st) (H st) _ N). rewrite firstn_firstn, Nat.min_l by lia. rewrite skipn_firstn_comm.
    replace (Z.to_nat len - 16)%nat with (Z.to_nat (len - 16)) by lia. apply (P_mod _ _ _ _ _ (le_n _)).
    rewrite E2, R1, Zmod_mod, E1. f_equal. f_equal. unfold block_val. rewrite length_firstn, Nat.min_l by lia. change (256 ^ Z.of_nat 16) with (2 ^ 104 * 2 ^ 24). lia.
  - destruct (Z.eqb_spec len 0) as [->|N]; [split; [apply same_key_refl|]; split; [exact Hh|reflexivity]|].
    set (b := firstn (Z.to_nat len) inp). set (mp := b ++ [1] ++ repeat 0 (Z.to_nat (16 - len - 1))).
    assert (Lb : length b = Z.to_nat len) by (subst b; rewrite length_firstn; lia).
    assert (Lm : length mp = 16%nat) by (subst mp; rewrite !length_app, repeat_length, Lb; cbn [length]; lia).
    assert (Hm : bytes_ok mp).
    { subst mp. apply Forall_app. split; [now apply bytes_ok_firstn|]. constructor; [now apply byte_ok_iff|]. apply Forall_forall. intros x Hx. apply repeat_spec in Hx as ->. now apply byte_ok_iff. }
    destruct (add_block_spec st mp 0 Hm ltac:(lia) ltac:(now left) Hh) as (K1 & W1 & E1).
    destruct (same_key_r _ _ K1 Hr) as (Hr1 & R1 & _). destruct (donna_mul_spec _ Hr1 W1) as (K2 & Hh2 & E2).
    split; [exact (same_key_trans _ _ _ K1 K2)|]. split; [exact Hh2|]. rewrite E2, R1, E1, Z.mul_0_r, Z.add_0_r.
    assert (Nb : b <> []) by (intros Nb; rewrite Nb in Lb; cbn in Lb; lia). rewrite (P_step _ _ _ Nb).
    rewrite (firstn_all2 (n := 16) b), (skipn_all2 (n := 16) b) by lia. unfold P. cbn [length poly]. rewrite Zmod_mod. f_equal. f_equal.
    rewrite firstn_all2 by lia. subst mp. rewrite le_val_zeros. unfold block_val. lia.
Qed.

(** ** The key *)

(** Clamping by limbs *)
Lemma clamp_limbs l0 l1 l2 l3 l4 :
  0 <= l0 < 2 ^ 26 -> 0 <= l1 < 2 ^ 26 -> 0 <= l2 < 2 ^ 26 -> 0 <= l3 < 2 ^ 26 -> 0 <= l4 ->
  clamp (l0 + 2 ^ 26 * l1 + 2 ^ 52 * l2 + 2 ^ 78 * l3 + 2 ^ 104 * l4) =
  Z.land l0 0x3ffffff + 2 ^ 26 * Z.land l1 0x3ffff03 + 2 ^ 52 * Z.land l2 0x3ffc0ff + 2 ^ 78 * Z.land l3 0x3f03fff + 2 ^ 104 * Z.land l4 0x00fffff.
Proof.
  intros H0 H1 H2 H3 H4. unfold clamp.
  replace (l0 + 2 ^ 26 * l1 + 2 ^ 52 * l2 + 2 ^ 78 * l3 + 2 ^ 104 * l4) with (l0 + 2 ^ 26 * (l1 + 2 ^ 26 * (l2 + 2 ^ 26 * (l3 + 2 ^ 26 * l4)))) by lia.
  change 0x0ffffffc0ffffffc0ffffffc0fffffff with (0x3ffffff + 2 ^ 26 * (0x3ffff03 + 2 ^ 26 * (0x3ffc0ff + 2 ^ 26 * (0x3f03fff + 2 ^ 26 * 0x00fffff)))).
  rewrite !land_split by lia. lia.
Qed.

(** [junk] is left in the buffer. *)
Lemma init_spec junk k : bytes_ok k -> (32 <= length k)%nat ->
  let st := CRYPTO_poly1305_init junk k in
  r_ok st /\ h_ok st /\ H st = 0 /\ R st = clamp (le_val (firstn 16 k)) /\
  buf st = junk /\ buf_used st = 0 /\ key st = firstn 16 (skipn 16 k).
Proof.
  intros Hk L. unfold CRYPTO_poly1305_init. cbv zeta.
  pose proof (word_le k Hk) as W0. pose proof (word_le _ (bytes_ok_skipn 4 k Hk)) as W1.
  pose proof (word_le _ (bytes_ok_skipn 8 k Hk)) as W2. pose proof (word_le _ (bytes_ok_skipn 12 k Hk)) as W3.
  rewrite (words_of_16 k ltac:(lia)).
  set (t0 := U8TO32_LE k) in *. set (t1 := U8TO32_LE (skipn 4 k)) in *. set (t2 := U8TO32_LE (skipn 8 k)) in *. set (t3 := U8TO32_LE (skipn 12 k)) in *.
  clearbody t0 t1 t2 t3.
  assert (Join : forall lo hi s, 0 <= lo < 2 ^ 32 -> 0 <= hi < 2 ^ 32 -> 6 <= s <= 26 ->
    forall m, 0 <= m < 2 ^ 26 -> Z.land (Z.lor (Z.shiftr lo s) (u32 (Z.shiftl hi (32 - s)))) m = Z.land ((lo / 2 ^ s + 2 ^ (32 - s) * hi) mod 2 ^ 26) m).
  { intros lo hi s Hlo Hhi Hs m Hm. rewrite (land_mod_mask _ m 26) by lia. f_equal.
    apply Z.bits_inj'. intros i Hi. destruct (Z.lt_ge_cases i 26) as [I|I]; [|now rewrite !Z.mod_pow2_bits_high by lia].
    rewrite !Z.mod_pow2_bits_low by lia. rewrite Z.lor_spec. unfold wrap. rewrite Z.mod_pow2_bits_low by lia.
    rewrite <- Z.lor_spec, Z.lor_comm. f_equal. rewrite Z.shiftr_div_pow2 by lia. rewrite shiftl_lor_add; [lia|lia|].
    split; [apply Z.div_pos; lia|]. apply Z.div_lt_upper_bound; [lia|]. rewrite <- Z.pow_add_r by lia. replace (s + (32 - s)) with 32 by lia. lia. }
  change (Z.shiftl t1 6) with (Z.shiftl t1 (32 - 26)). rewrite (Join t0 t1 26) by lia. change (Z.shiftl t2 12) with (Z.shiftl t2 (32 - 20)). rewrite (Join t1 t2 20) by lia.
  change (Z.shiftl t3 18) with (Z.shiftl t3 (32 - 14)). rewrite (Join t2 t3 14) by lia. clear Join. rewrite Z.shiftr_div_pow2 by lia.
  set (l1 := (t0 / 2 ^ 26 + _) mod 2 ^ 26). set (l2 := (t1 / 2 ^ 20 + _) mod 2 ^ 26). set (l3 := (t2 / 2 ^ 14 + _) mod 2 ^ 26). set (l4 := t3 / 2 ^ 8).
  assert (L1 : 0 <= l1 < 2 ^ 26) by now apply Z.mod_pos_bound. assert (L2 : 0 <= l2 < 2 ^ 26) by now apply Z.mod_pos_bound.
  assert (L3 : 0 <= l3 < 2 ^ 26) by now apply Z.mod_pos_bound. assert (L4 : 0 <= l4) by (subst l4; lia_div).
  assert (E : t0 mod 2 ^ 26 + 2 ^ 26 * l1 + 2 ^ 52 * l2 + 2 ^ 78 * l3 + 2 ^ 104 * l4 = t0 + 2 ^ 32 * t1 + 2 ^ 64 * t2 + 2 ^ 96 * t3)
    by (subst l1 l2 l3 l4; clear - W0 W1 W2 W3; lia_div).
  assert (M0 : 0 <= t0 mod 2 ^ 26 < 2 ^ 26) by now apply Z.mod_pos_bound.
  rewrite <- E, clamp_limbs by assumption. rewrite (land_mod_mask t0 _ 26) by lia. clearbody l1 l2 l3 l4. clear E.
  pose proof (land_le (t0 mod 2 ^ 26) 0x3ffffff ltac:(lia)) as B0. pose proof (land_le l1 0x3ffff03 ltac:(lia)) as B1. pose proof (land_le l2 0x3ffc0ff ltac:(lia)) as B2.
  pose proof (land_le l3 0x3f03fff ltac:(lia)) as B3. pose proof (land_le l4 0x00fffff ltac:(lia)) as B4.
  rewrite !wrap_small by (unfold word_ok; lia).
  unfold r_ok, h_ok, H, R, M26. cbn [r0 r1 r2 r3 r4 s1 s2 s3 s4 h0 h1 h2 h3 h4 buf buf_used key].
  split; [lia|]. split; [lia|]. split; [reflexivity|]. split; [reflexivity|]. split; [reflexivity|]. split; reflexivity.
Qed.

(** ** The state between calls *)

(** [st] has seen [msg]: whole blocks are in the accumulator, the rest is in
    the buffer. *)
Record seen (k msg : list Z) (st : poly1305_state) : Prop := {
  seen_r : r_ok st;
  seen_h : h_ok st;
  seen_R : R st = clamp (le_val (firstn 16 k));
  seen_key : key st = firstn 16 (skipn 16 k);
  seen_buf : length (buf st) = 16%nat /\ bytes_ok (buf st);
  seen_used : 0 <= buf_used st < 16;
  seen_msg : exists full n, length full = (16 * n)%nat /\ msg = full ++ firstn (Z.to_nat (buf_used st)) (buf st) /\
    H st mod p = P (R st) 0 full mod p
}.

Lemma poly1305_update_spec st inp len : 0 <= len <= Z.of_nat (length inp) -> bytes_ok inp -> r_ok st -> h_ok st ->
  let st' := poly1305_update st inp len in
  same_key st st' /\ h_ok st' /\ H st' mod p = P (R st) (H st) (firstn (Z.to_nat len) inp) mod p.
Proof. intros Hl. apply update_loop_spec; [exact Hl|lia_div]. Qed.

(** Blocks behind a message without a rest *)
Lemma seen_blocks k msg st inp len : seen k msg st -> buf_used st = 0 -> 0 <= len <= Z.of_nat (length inp) -> len mod 16 = 0 -> bytes_ok inp ->
  seen k (msg ++ firstn (Z.to_nat len) inp) (poly1305_update st inp len) /\ buf_used (poly1305_update st inp len) = 0.
Proof.
  intros S U Hl Hm Hi. destruct (poly1305_update_spec st inp len Hl Hi (seen_r _ _ _ S) (seen_h _ _ _ S)) as (K & Hh & E).
  destruct (same_key_r _ _ K (seen_r _ _ _ S)) as (Hr & ER & EB & EU & EK). rewrite EU. split; [|exact U].
  destruct (seen_msg _ _ _ S) as (full & n & L & Em & Ef). rewrite U in Em. cbn [Z.to_nat firstn] in Em. rewrite app_nil_r in Em. subst msg.
  constructor; rewrite ?ER, ?EB, ?EU, ?EK; try apply S; try assumption.
  exists (full ++ firstn (Z.to_nat len) inp), (n + Z.to_nat (len / 16))%nat. split.
  { pose proof (Z_div_exact_2 len 16 ltac:(lia) Hm) as D. pose proof (Z.div_pos len 16 ltac:(lia) ltac:(lia)). rewrite length_app, length_firstn, Nat.min_l by lia. lia. }
  rewrite U. cbn [Z.to_nat firstn]. rewrite app_nil_r. split; [reflexivity|]. rewrite E, (P_app _ _ _ n) by exact L.
  now apply (P_mod _ _ _ _ _ (le_n _)).
Qed.

Lemma splice_bytes n src b : bytes_ok src -> bytes_ok b -> bytes_ok (splice n src b).
Proof. intros Hs Hb. unfold splice. apply Forall_app. split; [now apply bytes_ok_firstn|]. apply Forall_app. split; [exact Hs|now apply bytes_ok_skipn]. Qed.

(** Bytes that fit are put behind the rest. *)
Lemma seen_fill k msg st inp n : seen k msg st -> 0 <= n <= Z.of_nat (length inp) -> buf_used st + n <= 16 -> bytes_ok inp ->
  let st' := with_buf st (splice (Z.to_nat (buf_used st)) (firstn (Z.to_nat n) inp) (buf st)) (buf_used st + n) in
  length (buf st') = 16%nat /\ bytes_ok (buf st') /\
  firstn (Z.to_nat (buf_used st + n)) (buf st') = firstn (Z.to_nat (buf_used st)) (buf st) ++ firstn (Z.to_nat n) inp.
Proof.
  intros S Hn Hs Hi. cbv zeta. cbn [with_buf buf]. destruct (seen_buf _ _ _ S) as (Lb & Bb). pose proof (seen_used _ _ _ S) as U.
  assert (Ln : length (firstn (Z.to_nat n) inp) = Z.to_nat n) by (rewrite length_firstn; lia).
  split; [rewrite length_splice; [exact Lb|]; lia|]. split; [apply splice_bytes; [now apply bytes_ok_firstn|exact Bb]|].
  rewrite <- firstn_splice by lia. f_equal. lia.
Qed.

(** A full buffer has been run. *)
Lemma seen_full k full m d st1 st2 b : r_ok st1 -> R st1 = clamp (le_val (firstn 16 k)) -> key st1 = firstn 16 (skipn 16 k) ->
  H st1 mod p = P (R st1) 0 full mod p -> length full = (16 * m)%nat -> length d = 16%nat -> length b = 16%nat /\ bytes_ok b ->
  same_key st1 st2 -> h_ok st2 -> H st2 mod p = P (R st1) (H st1) d mod p ->
  seen k (full ++ d) (with_buf st2 b 0).
Proof.
  intros Hr1 ER1 EK1 Ef Lf Ld Lb K Hh E. destruct (same_key_r _ _ K Hr1) as (Hr & ER & EB & EU & EK).
  constructor; [exact Hr|exact Hh|exact (eq_trans ER ER1)|exact (eq_trans EK EK1)|exact Lb|cbn [with_buf buf_used]; lia|].
  exists (full ++ d), (m + 1)%nat. split; [rewrite length_app; lia|].
  change (Z.to_nat (buf_used (with_buf _ _ 0))) with O. rewrite firstn_O, app_nil_r. split; [reflexivity|].
  change (H (with_buf _ _ _)) with (H st2). change (R (with_buf _ _ _)) with (R st2).
  rewrite ER, E, (P_app _ _ _ m) by exact Lf. now apply (P_mod _ _ _ _ _ (le_n _)).
Qed.

Lemma length_firstn_16 (l : list Z) : length l = 16%nat -> length (firstn 16 l) = 16%nat.
Proof. intros L. now rewrite length_firstn, L. Qed.

Lemma todo_blocks n : 0 <= n < 2 ^ 64 -> Z.land n (SIZE_MAX - 0xf) = n - n mod 16 /\ Z.land n 0xf = n mod 16.
Proof.
  intros Hn. change 0xf with (2 ^ 4 - 1). rewrite (land_mask n 4) by lia. split; [|reflexivity].
  pose proof (Z.div_mod n 16 ltac:(lia)) as D. pose proof (Z.mod_pos_bound n 16 ltac:(lia)) as B.
  assert (Q : 0 <= n / 16 < 2 ^ 60) by lia_div. set (q := n / 16) in *. set (r := n mod 16) in *. clearbody q r.
  assert (E : Z.land (r + 2 ^ 4 * q) (0 + 2 ^ 4 * (2 ^ 60 - 1)) = 2 ^ 4 * q).
  { rewrite land_split by lia. rewrite Z.land_0_r, land_mask, Z.mod_small by lia. reflexivity. }
  change (SIZE_MAX - (2 ^ 4 - 1)) with (0 + 2 ^ 4 * (2 ^ 60 - 1)). replace n with (r + 2 ^ 4 * q) by lia. rewrite E. lia.
Qed.

Lemma fill_buffer_spec k msg st inp len : seen k msg st -> 0 <= len <= Z.of_nat (length inp) -> bytes_ok inp ->
  let '(st', inp', len') := fill_buffer st inp len in
  exists n, 0 <= n <= len /\ inp' = skipn (Z.to_nat n) inp /\ len' = len - n /\
    seen k (msg ++ firstn (Z.to_nat n) inp) st' /\ (len' = 0 \/ buf_used st' = 0).
Proof.
  intros S Hl Hi. unfold fill_buffer. destruct (Z.eqb_spec (buf_used st) 0) as [U|U].
  { exists 0. split; [lia|]. split; [reflexivity|]. split; [lia|]. rewrite app_nil_r. split; [exact S|now right]. }
  pose proof (seen_used _ _ _ S) as Us. set (todo := if len <? 16 - buf_used st then len else 16 - buf_used st).
  assert (T : 0 <= todo <= len /\ buf_used st + todo <= 16 /\ (buf_used st + todo = 16 \/ len = todo)) by (subst todo; destruct (Z.ltb_spec len (16 - buf_used st)); lia).
  destruct T as (T1 & T2 & T3). clearbody todo.
  destruct (seen_fill k msg st inp todo S ltac:(lia) T2 Hi) as (Lb & Bb & Eb). set (st1 := with_buf st _ _) in *.
  assert (U1 : buf_used st1 = buf_used st + todo) by reflexivity. rewrite <- U1 in Eb.
  destruct (seen_msg _ _ _ S) as (full & m & Lf & Em & Ef). exists todo. split; [exact T1|]. split; [reflexivity|]. split; [reflexivity|].
  destruct (Z.eqb_spec (buf_used st1) 16) as [F|F].
  - split; [|now right].
    assert (K1 : seen k ((full ++ firstn 16 (buf st1))) (with_buf (poly1305_update st1 (buf st1) 16) (buf st1) 0)).
    { destruct (poly1305_update_spec st1 (buf st1) 16 ltac:(lia) Bb (seen_r _ _ _ S) (seen_h _ _ _ S)) as (K & Hh & E).
      exact (seen_full k full m (firstn 16 (buf st1)) st1 _ (buf st1) (seen_r _ _ _ S) (seen_R _ _ _ S) (seen_key _ _ _ S) Ef Lf
        (length_firstn_16 _ Lb) (conj Lb Bb) K Hh E). }
    rewrite F in Eb. change (Z.to_nat 16) with 16%nat in Eb. rewrite Em, <- app_assoc, <- Eb. exact K1.
  - split; [|left; lia]. constructor; try apply S; [exact (conj Lb Bb)|lia|]. exists full, m. split; [exact Lf|]. split; [|exact Ef].
    rewrite Eb, Em, <- app_assoc. reflexivity.
Qed.

Lemma update_spec k msg st inp len : seen k msg st -> 0 <= len <= Z.of_nat (length inp) -> len < 2 ^ 64 -> bytes_ok inp ->
  seen k (msg ++ firstn (Z.to_nat len) inp) (CRYPTO_poly1305_update st inp len).
Proof.
  intros S Hl Hw Hi. unfold CRYPTO_poly1305_update. pose proof (fill_buffer_spec k msg st inp len S Hl Hi) as F.
  destruct (fill_buffer st inp len) as [[st1 inp1] len1]. destruct F as (n & Hn & -> & -> & S1 & U1).
  set (inp1 := skipn (Z.to_nat n) inp) in *. assert (Hi1 : bytes_ok inp1) by now apply bytes_ok_skipn.
  assert (L1 : 0 <= len - n <= Z.of_nat (length inp1)) by (subst inp1; rewrite length_skipn; lia).
  assert (E : firstn (Z.to_nat len) inp = firstn (Z.to_nat n) inp ++ firstn (Z.to_nat (len - n)) inp1).
  { subst inp1. rewrite <- (firstn_skipn (Z.to_nat n) (firstn (Z.to_nat len) inp)), firstn_firstn, Nat.min_l, skipn_firstn_comm by lia.
    f_equal. f_equal. lia. }
  rewrite E, app_assoc. clear E. set (msg1 := msg ++ _) in *. set (len1 := len - n) in *. assert (Hw1 : len1 < 2 ^ 64) by lia.
  clearbody inp1 len1 msg1. clear S Hl Hi Hn Hw st msg inp n len.
  set (next := if 16 <=? len1 then _ else _).
  assert (N : let '(st2, inp2, len2) := next in exists done, 0 <= len2 < 16 /\ len2 <= Z.of_nat (length inp2) /\ bytes_ok inp2 /\
    firstn (Z.to_nat len1) inp1 = done ++ firstn (Z.to_nat len2) inp2 /\ seen k (msg1 ++ done) st2 /\ (len2 = 0 \/ buf_used st2 = 0)).
  { subst next. destruct (Z.leb_spec 16 len1) as [G|G].
    - destruct (todo_blocks len1 ltac:(lia)) as (-> & ->). destruct U1 as [|U1]; [lia|].
      assert (D : 0 <= len1 - len1 mod 16 <= len1 /\ (len1 - len1 mod 16) mod 16 = 0) by lia_div. destruct D as (D1 & D2).
      destruct (seen_blocks k msg1 st1 inp1 (len1 - len1 mod 16) S1 U1 ltac:(lia) D2 Hi1) as (S2 & U2).
      exists (firstn (Z.to_nat (len1 - len1 mod 16)) inp1). split; [now apply Z.mod_pos_bound|]. split; [rewrite length_skipn; lia|]. split; [now apply bytes_ok_skipn|].
      split; [|split; [exact S2|now right]].
      rewrite <- (firstn_skipn (Z.to_nat (len1 - len1 mod 16)) (firstn (Z.to_nat len1) inp1)), firstn_firstn, Nat.min_l, skipn_firstn_comm by lia.
      f_equal. f_equal. lia.
    - exists []. rewrite app_nil_r. repeat (split; [assumption || lia || reflexivity|]). exact U1. }
  destruct next as [[st2 inp2] len2]. destruct N as (d & N1 & N2 & Hi2 & -> & S2 & U2). rewrite app_assoc. clear S1 U1 Hi1 L1 Hw1.
  destruct (Z.eqb_spec len2 0) as [->|Z2]; [now rewrite app_nil_r|]. destruct U2 as [|U2]; [lia|].
  destruct (seen_fill k _ st2 inp2 len2 S2 ltac:(lia) ltac:(lia) Hi2) as (Lb & Bb & Eb). rewrite U2 in Lb, Bb, Eb. cbn [Z.to_nat Z.add firstn app] in Lb, Bb, Eb.
  destruct (seen_msg _ _ _ S2) as (full & m & Lf & Em & Ef). rewrite U2 in Em. cbn [Z.to_nat firstn] in Em. rewrite app_nil_r in Em.
  constructor; try apply S2; [exact (conj Lb Bb)|cbn [with_buf buf_used]; lia|]. exists full, m. split; [exact Lf|]. split; [|exact Ef].
  cbn [with_buf buf_used]. rewrite Eb, Em. reflexivity.
Qed.

(** ** Finishing *)

Definition short (st : poly1305_state) : Prop :=
  0 <= h1 st <= M26 /\ 0 <= h2 st <= M26 /\ 0 <= h3 st <= M26 /\ 0 <= h4 st <= M26.

Lemma shift26 x : Z.shiftr x 26 = x / 2 ^ 26.
Proof. now rewrite Z.shiftr_div_pow2 by lia. Qed.

(** The carry of the highest limb is 0 or 1, and 1 only if all limbs above
    the second have become 0. *)
Lemma carry_around_spec st : h_ok st ->
  same_key st (carry_around st) /\ short (carry_around st) /\
  exists c, (c = 0 \/ c = 1 /\ h1 (carry_around st) < 42 /\ h2 (carry_around st) = 0 /\ h3 (carry_around st) = 0 /\ h4 (carry_around st) = 0) /\
    0 <= h0 (carry_around st) <= M26 + 5 * c /\ H (carry_around st) = H st - p * c.
Proof.
  intros (B0 & B1 & B2 & B3 & B4). unfold M26 in *. unfold carry_around. cbv zeta. rewrite !shift26.
  set (b0 := h0 st / 2 ^ 26). assert (C0 : 0 <= b0 <= 41) by (subst b0; lia_div).
  rewrite (wrap_small 32 (h1 st + b0)) by (unfold word_ok; lia). set (b1 := (h1 st + b0) / 2 ^ 26). assert (C1 : 0 <= b1 <= 1) by (subst b1; lia_div).
  rewrite (wrap_small 32 (h2 st + b1)) by (unfold word_ok; lia). set (b2 := (h2 st + b1) / 2 ^ 26). assert (C2 : 0 <= b2 <= 1) by (subst b2; lia_div).
  rewrite (wrap_small 32 (h3 st + b2)) by (unfold word_ok; lia). set (b3 := (h3 st + b2) / 2 ^ 26). assert (C3 : 0 <= b3 <= 1) by (subst b3; lia_div).
  rewrite (wrap_small 32 (h4 st + b3)) by (unfold word_ok; lia). set (b4 := (h4 st + b3) / 2 ^ 26). assert (C4 : 0 <= b4 <= 1) by (subst b4; lia_div).
  rewrite !land_M26 by lia. rewrite (wrap_small 32 (b4 * 5)) by (unfold word_ok; lia).
  assert (M0 : 0 <= h0 st mod 2 ^ 26 < 2 ^ 26) by now apply Z.mod_pos_bound. rewrite wrap_small by (unfold word_ok; lia).
  split; [now eexists _, _, _, _, _|]. unfold short, M26, H, with_h. cbn [h0 h1 h2 h3 h4].
  pose proof (Z.div_mod (h0 st) (2 ^ 26) ltac:(lia)) as D0. pose proof (Z.div_mod (h1 st + b0) (2 ^ 26) ltac:(lia)) as D1.
  pose proof (Z.div_mod (h2 st + b1) (2 ^ 26) ltac:(lia)) as D2. pose proof (Z.div_mod (h3 st + b2) (2 ^ 26) ltac:(lia)) as D3.
  pose proof (Z.div_mod (h4 st + b3) (2 ^ 26) ltac:(lia)) as D4. fold b0 in D0. fold b1 in D1. fold b2 in D2. fold b3 in D3. fold b4 in D4.
  assert (M1 : 0 <= (h1 st + b0) mod 2 ^ 26 < 2 ^ 26) by now apply Z.mod_pos_bound. assert (M2 : 0 <= (h2 st + b1) mod 2 ^ 26 < 2 ^ 26) by now apply Z.mod_pos_bound.
  assert (M3 : 0 <= (h3 st + b2) mod 2 ^ 26 < 2 ^ 26) by now apply Z.mod_pos_bound. assert (M4 : 0 <= (h4 st + b3) mod 2 ^ 26 < 2 ^ 26) by now apply Z.mod_pos_bound.
  set (x0 := h0 st mod 2 ^ 26) in *. set (x1 := (h1 st + b0) mod 2 ^ 26) in *. set (x2 := (h2 st + b1) mod 2 ^ 26) in *. set (x3 := (h3 st + b2) mod 2 ^ 26) in *. set (x4 := (h4 st + b3) mod 2 ^ 26) in *.
  clearbody x0 x1 x2 x3 x4 b0 b1 b2 b3 b4. split; [lia|]. exists b4. split; [lia|]. split; [lia|]. unfold p. lia.
Qed.

(** The mask of the choice *)
Lemma select_mask h g b : 0 <= h < 2 ^ 32 -> 0 <= g < 2 ^ 32 -> b = 0 \/ b = 1 ->
  Z.lor (Z.land h (u32 (Z.lnot (u32 (b - 1))))) (Z.land g (u32 (b - 1))) = if b =? 0 then g else h.
Proof.
  intros Hh Hg Hb. assert (A : forall x, 0 <= x < 2 ^ 32 -> Z.land x (2 ^ 32 - 1) = x) by (intros; rewrite land_mask, Z.mod_small by lia; reflexivity).
  destruct Hb as [-> | ->].
  - change (u32 (Z.lnot (u32 (0 - 1)))) with 0. change (u32 (0 - 1)) with (2 ^ 32 - 1). rewrite A, Z.land_0_r by exact Hg. reflexivity.
  - change (u32 (Z.lnot (u32 (1 - 1)))) with (2 ^ 32 - 1). change (u32 (1 - 1)) with 0. rewrite A, Z.land_0_r, Z.lor_0_r by exact Hh. reflexivity.
Qed.

(** At most one prime is subtracted. *)
Lemma select_reduced_spec st : short st -> 0 <= h0 st <= M26 + 5 -> H st < p + 2 ^ 26 ->
  if p <=? H st then short (select_reduced st) /\ 0 <= h0 (select_reduced st) <= M26 /\ H (select_reduced st) = H st - p /\ key (select_reduced st) = key st
  else select_reduced st = st.
Proof.
  intros (B1 & B2 & B3 & B4) B0 Hp. unfold M26 in *. unfold select_reduced. cbv zeta. rewrite !shift26.
  rewrite (wrap_small 32 (h0 st + 5)) by (unfold word_ok; lia). set (c0 := (h0 st + 5) / 2 ^ 26). assert (C0 : 0 <= c0 <= 1) by (subst c0; lia_div).
  rewrite (wrap_small 32 (h1 st + c0)) by (unfold word_ok; lia). set (c1 := (h1 st + c0) / 2 ^ 26). assert (C1 : 0 <= c1 <= 1) by (subst c1; lia_div).
  rewrite (wrap_small 32 (h2 st + c1)) by (unfold word_ok; lia). set (c2 := (h2 st + c1) / 2 ^ 26). assert (C2 : 0 <= c2 <= 1) by (subst c2; lia_div).
  rewrite (wrap_small 32 (h3 st + c2)) by (unfold word_ok; lia). set (c3 := (h3 st + c2) / 2 ^ 26). assert (C3 : 0 <= c3 <= 1) by (subst c3; lia_div).
  rewrite !land_M26 by lia. change (Z.shiftl 1 26) with (2 ^ 26).
  pose proof (Z.div_mod (h0 st + 5) (2 ^ 26) ltac:(lia)) as D0. pose proof (Z.div_mod (h1 st + c0) (2 ^ 26) ltac:(lia)) as D1.
  pose proof (Z.div_mod (h2 st + c1) (2 ^ 26) ltac:(lia)) as D2. pose proof (Z.div_mod (h3 st + c2) (2 ^ 26) ltac:(lia)) as D3.
  fold c0 in D0. fold c1 in D1. fold c2 in D2. fold c3 in D3.
  assert (M0 : 0 <= (h0 st + 5) mod 2 ^ 26 < 2 ^ 26) by now apply Z.mod_pos_bound. assert (M1 : 0 <= (h1 st + c0) mod 2 ^ 26 < 2 ^ 26) by now apply Z.mod_pos_bound.
  assert (M2 : 0 <= (h2 st + c1) mod 2 ^ 26 < 2 ^ 26) by now apply Z.mod_pos_bound. assert (M3 : 0 <= (h3 st + c2) mod 2 ^ 26 < 2 ^ 26) by now apply Z.mod_pos_bound.
  set (g0 := (h0 st + 5) mod 2 ^ 26) in *. set (g1 := (h1 st + c0) mod 2 ^ 26) in *. set (g2 := (h2 st + c1) mod 2 ^ 26) in *. set (g3 := (h3 st + c2) mod 2 ^ 26) in *.
  set (g4 := u32 (h4 st + c3 - 2 ^ 26)). assert (W4 : 0 <= g4 < 2 ^ 32) by (apply wrap_range; lia).
  assert (G4 : Z.shiftr g4 31 = (if p <=? H st then 0 else 1) /\ (p <= H st -> g4 = h4 st + c3 - 2 ^ 26)).
  { subst g4. unfold wrap. assert (E : h4 st + c3 - 2 ^ 26 < 0 <-> H st < p) by (unfold H, p; lia).
    rewrite Z.shiftr_div_pow2 by lia. destruct (Z.leb_spec p (H st)); split; intros; lia_div. }
  destruct G4 as (E4 & F4). rewrite E4. clearbody g0 g1 g2 g3 g4 c0 c1 c2 c3.
  rewrite !select_mask by (lia || destruct (p <=? H st); auto). destruct (Z.leb_spec p (H st)) as [L|L]; cbn [Z.eqb].
  - specialize (F4 L). unfold short, H, M26, with_h in *. cbn [h0 h1 h2 h3 h4 key] in *. unfold p in *. split; [lia|]. split; [lia|]. split; [lia|reflexivity].
  - now destruct st.
Qed.

Lemma join lo hi s : 0 <= s <= 32 -> 0 <= lo < 2 ^ s -> Z.lor lo (u32 (Z.shiftl hi s)) = lo + 2 ^ s * (hi mod 2 ^ (32 - s)).
Proof.
  intros Hs Hlo. rewrite Z.shiftl_mul_pow2 by lia. unfold wrap.
  replace (2 ^ 32) with (2 ^ (32 - s) * 2 ^ s) by (rewrite <- Z.pow_add_r by lia; f_equal; lia).
  rewrite Z.mul_mod_distr_r by (apply Z.pow_nonzero; lia). rewrite <- Z.shiftl_mul_pow2, Z.lor_comm, shiftl_lor_add by lia. lia.
Qed.

Lemma le_bytes_eq l n v : bytes_ok l -> length l = n -> le_val l = v mod 256 ^ Z.of_nat n -> l = le_bytes n v.
Proof.
  intros Hl <- E. rewrite <- (le_bytes_le_val l Hl), E at 1. rewrite <- (le_val_le_bytes (length l) v).
  rewrite <- (length_le_bytes (length l) v) at 1. apply le_bytes_le_val, le_bytes_ok.
Qed.

Lemma add_key_spec st : short st -> 0 <= h0 st <= M26 -> length (key st) = 16%nat -> bytes_ok (key st) ->
  add_key st = le_bytes 16 (H st + le_val (key st)).
Proof.
  intros (B1 & B2 & B3 & B4) B0 L Hk. unfold M26 in *. unfold add_key. cbv zeta.
  rewrite !join by (lia || (rewrite Z.shiftr_div_pow2 by lia; lia_div)). rewrite !Z.shiftr_div_pow2 by lia. cbn [Z.sub Z.opp Z.add Z.pos_sub].
  pose proof (word_le _ Hk) as W0. pose proof (word_le _ (bytes_ok_skipn 4 _ Hk)) as W1.
  pose proof (word_le _ (bytes_ok_skipn 8 _ Hk)) as W2. pose proof (word_le _ (bytes_ok_skipn 12 _ Hk)) as W3.
  pose proof (words_of_16 (key st) ltac:(lia)) as EK. rewrite firstn_all2 in EK by lia. rewrite EK. clear EK.
  set (k0 := U8TO32_LE (key st)) in *. set (k1 := U8TO32_LE (skipn 4 (key st))) in *. set (k2 := U8TO32_LE (skipn 8 (key st))) in *. set (k3 := U8TO32_LE (skipn 12 (key st))) in *.
  clearbody k0 k1 k2 k3. unfold H. set (a0 := h0 st) in *. set (a1 := h1 st) in *. set (a2 := h2 st) in *. set (a3 := h3 st) in *. set (a4 := h4 st) in *.
  clearbody a0 a1 a2 a3 a4.
  set (m1 := a1 mod _). set (m2 := a2 mod _). set (m3 := a3 mod _). set (m4 := a4 mod _).
  assert (X1 : 0 <= m1 < 2 ^ 6 /\ a1 = 2 ^ 6 * (a1 / 2 ^ 6) + m1) by (subst m1; lia_div). assert (X2 : 0 <= m2 < 2 ^ 12 /\ a2 = 2 ^ 12 * (a2 / 2 ^ 12) + m2) by (subst m2; lia_div).
  assert (X3 : 0 <= m3 < 2 ^ 18 /\ a3 = 2 ^ 18 * (a3 / 2 ^ 18) + m3) by (subst m3; lia_div). assert (X4 : 0 <= m4 < 2 ^ 24 /\ a4 = 2 ^ 24 * (a4 / 2 ^ 24) + m4) by (subst m4; lia_div).
  set (q1 := a1 / 2 ^ 6) in *. set (q2 := a2 / 2 ^ 12) in *. set (q3 := a3 / 2 ^ 18) in *. set (q4 := a4 / 2 ^ 24) in *.
  clearbody m1 m2 m3 m4 q1 q2 q3 q4.
  rewrite (wrap_small 64 (a0 + _ + k0)) by (unfold word_ok; lia). rewrite (wrap_small 64 (q1 + _ + k1)) by (unfold word_ok; lia).
  rewrite (wrap_small 64 (q2 + _ + k2)) by (unfold word_ok; lia). rewrite (wrap_small 64 (q3 + _ + k3)) by (unfold word_ok; lia).
  set (f0 := a0 + _ + k0). assert (F0 : 0 <= f0 < 2 ^ 33) by (subst f0; lia). set (f1 := q1 + _ + k1). assert (F1 : 0 <= f1 < 2 ^ 33) by (subst f1; lia).
  set (f2 := q2 + _ + k2). assert (F2 : 0 <= f2 < 2 ^ 33) by (subst f2; lia). set (f3 := q3 + _ + k3). assert (F3 : 0 <= f3 < 2 ^ 33) by (subst f3; lia).
  set (d0 := f0 / 2 ^ 32). assert (Y0 : 0 <= d0 <= 1) by (subst d0; lia_div). rewrite (wrap_small 64 (f1 + d0)) by (unfold word_ok; lia).
  set (d1 := (f1 + d0) / 2 ^ 32). assert (Y1 : 0 <= d1 <= 2) by (subst d1; lia_div). rewrite (wrap_small 64 (f2 + d1)) by (unfold word_ok; lia).
  set (d2 := (f2 + d1) / 2 ^ 32). assert (Y2 : 0 <= d2 <= 2) by (subst d2; lia_div). rewrite (wrap_small 64 (f3 + d2)) by (unfold word_ok; lia).
  apply le_bytes_eq; [unfold U32TO8_LE; repeat (apply Forall_app; split; [apply le_bytes_ok|]); apply le_bytes_ok|reflexivity|].
  unfold U32TO8_LE. rewrite !le_val_app, !le_val_le_bytes, !length_le_bytes. change (256 ^ Z.of_nat 4) with (2 ^ 32). change (256 ^ Z.of_nat 16) with (2 ^ 128). unfold wrap. rewrite !Zmod_mod.
  apply (Z.mod_unique _ _ (q4 + (f3 + d2) / 2 ^ 32)); [left; lia_div|].
  pose proof (Z.div_mod f0 (2 ^ 32) ltac:(lia)) as D0. pose proof (Z.div_mod (f1 + d0) (2 ^ 32) ltac:(lia)) as D1.
  pose proof (Z.div_mod (f2 + d1) (2 ^ 32) ltac:(lia)) as D2. pose proof (Z.div_mod (f3 + d2) (2 ^ 32) ltac:(lia)) as D3. fold d0 in D0. fold d1 in D1. fold d2 in D2.
  subst f0 f1 f2 f3. lia.
Qed.

(** ** Correctness *)

(** A message in parts *)
Definition update_all (st : poly1305_state) (parts : list (list Z)) : poly1305_state :=
  fold_left (fun st part => CRYPTO_poly1305_update st part (Z.of_nat (length part))) parts st.

Definition parts_ok (parts : list (list Z)) : Prop := Forall (fun part => bytes_ok part /\ Z.of_nat (length part) < 2 ^ 64) parts.

Lemma update_all_seen k parts : forall msg st, seen k msg st -> parts_ok parts -> seen k (msg ++ concat parts) (update_all st parts).
Proof.
  induction parts as [|part parts IH]; intros msg st S Hp; cbn [concat update_all fold_left]; [now rewrite app_nil_r|].
  inversion Hp as [|? ? (Hb & Hl) Hp']; subst. rewrite app_assoc. apply IH; [|exact Hp'].
  pose proof (update_spec k msg st part (Z.of_nat (length part)) S ltac:(lia) Hl Hb) as U. now rewrite Nat2Z.id, firstn_all in U.
Qed.

Lemma seen_init k junk : bytes_ok k -> (32 <= length k)%nat -> bytes_ok junk -> length junk = 16%nat -> seen k [] (CRYPTO_poly1305_init junk k).
Proof.
  intros Hk L Hj Lj. destruct (init_spec junk k Hk L) as (Hr & Hh & H0 & ER & EB & EU & EK).
  constructor; try assumption; [now rewrite EB|rewrite EU; lia|]. exists [], O. rewrite EU. cbn [Z.to_nat firstn app]. now rewrite H0.
Qed.

(** The accumulator a message ends with *)
Lemma finish_accumulator k msg st : seen k msg st ->
  let st' := if buf_used st =? 0 then st else poly1305_update st (buf st) (buf_used st) in
  h_ok st' /\ key st' = firstn 16 (skipn 16 k) /\ H st' mod p = accumulator k msg mod p.
Proof.
  intros S. destruct (seen_msg _ _ _ S) as (full & n & L & Em & Ef). pose proof (seen_used _ _ _ S) as U. cbv zeta.
  assert (A : accumulator k msg = P (R st) 0 msg) by (unfold accumulator, P; now rewrite (seen_R _ _ _ S)). rewrite A, Em.
  destruct (Z.eqb_spec (buf_used st) 0) as [Z|Z].
  - rewrite Z, firstn_O, app_nil_r. split; [apply S|]. split; [apply S|exact Ef].
  - destruct (seen_buf _ _ _ S) as (Lb & Bb).
    destruct (poly1305_update_spec st (buf st) (buf_used st) ltac:(lia) Bb (seen_r _ _ _ S) (seen_h _ _ _ S)) as (K & Hh & E).
    destruct (same_key_r _ _ K (seen_r _ _ _ S)) as (_ & _ & _ & _ & EK). split; [exact Hh|]. split; [rewrite EK; apply S|].
    rewrite E, (P_app _ _ _ n) by exact L. now apply (P_mod _ _ _ _ _ (le_n _)).
Qed.

(** C36: The code computes the Poly1305 authenticator of the key and the
    message, however the message is cut into calls, for every 32-byte key and
    every message whose accumulator does not end below [2^32] with its 26 low
    bits below 5; no carry between the limbs is lost on the way. *)
Theorem CRYPTO_poly1305_correct (k junk : list Z) (parts : list (list Z))
  (Hkey : bytes_ok k /\ length k = 32%nat) (Hjunk : bytes_ok junk /\ length junk = 16%nat) (Hparts : parts_ok parts)
  (Hacc : 5 <= accumulator k (concat parts) mod 2 ^ 26 \/ 2 ^ 32 <= accumulator k (concat parts)) :
  CRYPTO_poly1305_finish (update_all (CRYPTO_poly1305_init junk k) parts) = poly1305_tag k (concat parts).
Proof.
  destruct Hkey as (Bk & Lk), Hjunk as (Bj & Lj). pose proof (update_all_seen k parts [] _ (seen_init k junk Bk ltac:(lia) Bj Lj) Hparts) as S.
  cbn [app] in S. set (st := update_all _ _) in *. clearbody st. unfold CRYPTO_poly1305_finish. destruct (finish_accumulator k _ st S) as (Hh & EK & EH).
  set (st1 := if buf_used st =? 0 then st else poly1305_update st (buf st) (buf_used st)) in *. clearbody st1. set (a := accumulator k (concat parts)) in *.
  assert (Ra : 0 <= a < p) by (apply (P_range (clamp (le_val (firstn 16 k))) 0 (concat parts)); right; unfold p; lia).
  destruct (carry_around_spec st1 Hh) as (K2 & Sh & c & Hc & B0 & E2). set (st2 := carry_around st1) in *. clearbody st2.
  assert (E : H st2 mod p = a) by (rewrite (mod_p _ (H st1) (- c)) by lia; rewrite EH; now apply Z.mod_small).
  assert (EK2 : key st2 = firstn 16 (skipn 16 k)) by (destruct K2 as (x0 & x1 & x2 & x3 & x4 & ->); exact EK).
  assert (Lk2 : length (key st2) = 16%nat) by (rewrite EK2, length_firstn, length_skipn; lia).
  assert (Bk2 : bytes_ok (key st2)) by (rewrite EK2; now apply bytes_ok_firstn, bytes_ok_skipn).
  assert (Bh : 0 <= H st2 < p + 2 ^ 26) by (destruct Sh as (? & ? & ? & ?); unfold H, p, M26 in *; lia).
  pose proof (select_reduced_spec st2 Sh ltac:(lia) (proj2 Bh)) as F. unfold poly1305_tag. fold a. rewrite <- EK2.
  destruct (Z.leb_spec p (H st2)) as [G|G].
  - destruct F as (Sh3 & B3 & E3 & K3). rewrite (add_key_spec _ Sh3 B3) by (rewrite K3; assumption). rewrite K3, E3. f_equal. f_equal.
    rewrite <- E. apply (Z.mod_unique _ _ 1); [left; unfold p in *; lia|lia].
  - rewrite F. rewrite Z.mod_small in E by lia. rewrite <- E. apply add_key_spec; [exact Sh| |exact Lk2|exact Bk2].
    destruct Hc as [->|(-> & H1 & H2 & H3 & H4)]; [lia|]. destruct (Z.lt_ge_cases M26 (h0 st2)) as [X|]; [|lia].
    exfalso. destruct Sh as (S1 & _). assert (V : a = h0 st2 + 2 ^ 26 * h1 st2) by (rewrite <- E; unfold H; rewrite H2, H3, H4; lia).
    unfold M26 in *. destruct Hacc as [A|A]; [|lia]. rewrite V in A. lia_div.
Qed.

(** The test vector of RFC 8439, section 2.5.2 *)
Definition rfc_key : list Z := [133; 214; 190; 120; 87; 85; 109; 51; 127; 68; 82; 254; 66; 213; 6; 168; 1; 3; 128; 138; 251; 13; 178; 253; 74; 191; 246; 175; 65; 73; 245; 27].

Definition rfc_message : list (list Z) := [[67; 114; 121; 112; 116]; []; [111; 103; 114; 97; 112; 104; 105; 99; 32; 70; 111; 114; 117; 109; 32; 82; 101; 115; 101; 97; 114; 99; 104; 32; 71; 114; 111; 117; 112]].

Lemma CRYPTO_poly1305_correct_witness :
  CRYPTO_poly1305_finish (update_all (CRYPTO_poly1305_init (repeat 7 16) rfc_key) rfc_message) =
  [0xa8; 0x06; 0x1d; 0xc1; 0x30; 0x51; 0x36; 0xc6; 0xc2; 0x2b; 0x8b; 0xaf; 0x0c; 0x01; 0x27; 0xa9].
Proof.
  refine (eq_trans (CRYPTO_poly1305_correct rfc_key (repeat 7 16) rfc_message _ _ _ _) _).
  - split; [now apply bytes_ok_check|reflexivity].
  - split; [now apply bytes_ok_check|reflexivity].
  - repeat constructor; cbn; lia.
  - right. vm_compute. discriminate.
  - vm_compute. reflexivity.
Defined.

(** The condition on the accumulator is needed: for this key and this
    message of one block the tag differs from the authenticator.  The last
    carry into the lowest limb is not carried on, and its bit 26 is lost when
    the limbs are put together with [|]. *)
Theorem CRYPTO_poly1305_loses_carry :
  let k := [145; 147; 23; 61; 218; 201; 160; 220; 240; 9; 89; 224; 143; 72; 203; 100; 164; 96; 133; 62; 192; 55; 206; 23; 143; 149; 112; 46; 47; 217; 181; 217] in
  let m := [4; 85; 211; 56; 203; 123; 248; 119; 195; 52; 172; 166; 35; 8; 69; 232] in
  CRYPTO_poly1305_finish (CRYPTO_poly1305_update (CRYPTO_poly1305_init (repeat 0 16) k) m 16) =
    [168; 96; 133; 66; 192; 55; 206; 23; 143; 149; 112; 46; 47; 217; 181; 217] /\
  poly1305_tag k m = [168; 96; 133; 70; 192; 55; 206; 23; 143; 149; 112; 46; 47; 217; 181; 217].
Proof. vm_compute. split; reflexivity. Qed.

(** ** Calls may be cut anywhere

    The state after a message, as an exact value: the tag depends on the bytes
    alone, not on the calls that brought them. *)

(** [n] whole blocks *)
Fixpoint absorb (n : nat) (st : poly1305_state) (inp : list Z) : poly1305_state :=
  match n with
  | O => st
  | S n => absorb n (donna_mul (add_block st inp (Z.shiftl 1 24))) (skipn 16 inp)
  end.

(** [st] is [st0] after [msg]. *)
Definition after (st0 : poly1305_state) (msg : list Z) (st : poly1305_state) : Prop :=
  exists n full, length full = (16 * n)%nat /\ msg = full ++ firstn (Z.to_nat (buf_used st)) (buf st) /\
    0 <= buf_used st < 16 /\ length (buf st) = 16%nat /\ st = with_buf (absorb n st0 full) (buf st) (buf_used st).

Lemma add_block_firstn st inp n top : (16 <= n)%nat -> add_block st (firstn n inp) top = add_block st inp top.
Proof.
  intros Hn. unfold add_block, U8TO32_LE. rewrite !skipn_firstn_comm, !firstn_firstn, !Nat.min_l by lia. reflexivity.
Qed.

Lemma absorb_app a b : forall st x y, length x = (16 * a)%nat -> absorb (a + b) st (x ++ y) = absorb b (absorb a st x) y.
Proof.
  induction a as [|a IH]; intros st x y L; [destruct x; [reflexivity|cbn in L; lia]|].
  cbn [Nat.add absorb]. rewrite <- (add_block_firstn st (x ++ y) 16), <- (add_block_firstn st x 16), firstn_app by lia.
  replace (16 - length x)%nat with O by lia. rewrite firstn_O, app_nil_r, skipn_app.
  replace (16 - length x)%nat with O by lia. rewrite skipn_O. apply IH. rewrite length_skipn. lia.
Qed.

Lemma absorb_firstn n : forall st inp m, (16 * n <= m)%nat -> absorb n st (firstn m inp) = absorb n st inp.
Proof.
  induction n as [|n IH]; intros st inp m L; [reflexivity|]. cbn [absorb]. rewrite add_block_firstn, skipn_firstn_comm by lia. apply IH. lia.
Qed.

Lemma block_buf st inp top b u : donna_mul (add_block (with_buf st b u) inp top) = with_buf (donna_mul (add_block st inp top)) b u.
Proof.
  assert (A : add_block (with_buf st b u) inp top = with_buf (add_block st inp top) b u)
    by (unfold add_block, with_h, with_buf; cbn [r0 r1 r2 r3 r4 s1 s2 s3 s4 h0 h1 h2 h3 h4 buf buf_used key]; reflexivity).
  rewrite A. clear A. generalize (add_block st inp top). clear. intros st.
  unfold donna_mul, with_h, with_buf. cbv zeta. cbn [r0 r1 r2 r3 r4 s1 s2 s3 s4 h0 h1 h2 h3 h4 buf buf_used key]. reflexivity.
Qed.

Lemma absorb_buf n : forall st inp b u, absorb n (with_buf st b u) inp = with_buf (absorb n st inp) b u.
Proof. induction n as [|n IH]; intros st inp b u; [reflexivity|]. cbn [absorb]. now rewrite block_buf, IH. Qed.

Lemma with_buf_buf st b u b' u' : with_buf (with_buf st b u) b' u' = with_buf st b' u'.
Proof. reflexivity. Qed.

Lemma with_buf_id st : with_buf st (buf st) (buf_used st) = st.
Proof. now destruct st. Qed.

Lemma update_absorb st inp n : poly1305_update st inp (16 * Z.of_nat n) = absorb n st inp.
Proof.
  unfold poly1305_update. replace (16 * Z.of_nat n / 16) with (Z.of_nat n) by lia_div. rewrite Nat2Z.id.
  revert st inp. induction n as [|n IH]; intros st inp; [reflexivity|]. cbn [update_loop absorb].
  destruct (Z.leb_spec 16 (16 * Z.of_nat (S n))); [|lia]. replace (16 * Z.of_nat (S n) - 16) with (16 * Z.of_nat n) by lia. apply IH.
Qed.

(** Whole blocks behind a message that ends with a whole block *)
Lemma after_blocks st0 msg st inp n : after st0 msg st -> buf_used st = 0 -> (16 * n <= length inp)%nat ->
  after st0 (msg ++ firstn (16 * n) inp) (absorb n st inp) /\ buf_used (absorb n st inp) = 0.
Proof.
  intros (m & full & L & -> & _ & Lb & E) U Ln. rewrite U in *. cbn [Z.to_nat firstn]. rewrite app_nil_r.
  assert (X : absorb n st inp = with_buf (absorb (m + n) st0 (full ++ firstn (16 * n) inp)) (buf st) 0).
  { rewrite absorb_app by exact L. rewrite absorb_firstn by lia. rewrite E at 1. apply absorb_buf. }
  rewrite X. split; [|reflexivity]. exists (m + n)%nat, (full ++ firstn (16 * n) inp). cbn [with_buf buf buf_used Z.to_nat firstn].
  split; [rewrite length_app, length_firstn; lia|]. split; [now rewrite app_nil_r|]. split; [lia|]. split; [exact Lb|reflexivity].
Qed.

(** Bytes into the buffer *)
Lemma after_fill st0 msg st part : after st0 msg st -> buf_used st + Z.of_nat (length part) < 16 ->
  after st0 (msg ++ part) (with_buf st (splice (Z.to_nat (buf_used st)) part (buf st)) (buf_used st + Z.of_nat (length part))).
Proof.
  intros (n & full & L & -> & U & Lb & E) F. exists n, full. cbn [with_buf buf buf_used].
  split; [exact L|]. split; [|split; [lia|split; [rewrite length_splice by lia; exact Lb|now rewrite E]]].
  rewrite <- app_assoc. f_equal. rewrite <- firstn_splice by lia. f_equal. lia.
Qed.

(** A buffer that has become full *)
Lemma after_full st0 msg st part : after st0 msg st -> buf_used st + Z.of_nat (length part) = 16 ->
  let b := splice (Z.to_nat (buf_used st)) part (buf st) in
  after st0 (msg ++ part) (with_buf (poly1305_update (with_buf st b 16) b 16) b 0).
Proof.
  intros (n & full & L & -> & U & Lb & E) F. cbv zeta. set (b := splice _ _ _).
  assert (Lb' : length b = 16%nat) by (subst b; rewrite length_splice; lia).
  assert (Eb : b = firstn (Z.to_nat (buf_used st)) (buf st) ++ part).
  { rewrite <- (firstn_all b), Lb'. subst b. rewrite <- firstn_splice by lia. f_equal. lia. }
  change 16 with (16 * Z.of_nat 1) at 2. rewrite update_absorb, absorb_buf, with_buf_buf. rewrite <- app_assoc, <- Eb.
  exists (n + 1)%nat, (full ++ b). cbn [with_buf buf buf_used Z.to_nat firstn]. rewrite app_nil_r.
  split; [rewrite length_app; lia|]. split; [reflexivity|]. split; [lia|]. split; [exact Lb'|].
  rewrite absorb_app by exact L. rewrite E at 1. rewrite absorb_buf, with_buf_buf. reflexivity.
Qed.

Lemma after_fill_buffer st0 msg st inp len : after st0 msg st -> 0 <= len <= Z.of_nat (length inp) ->
  let '(st', inp', len') := fill_buffer st inp len in
  exists n, 0 <= n <= len /\ inp' = skipn (Z.to_nat n) inp /\ len' = len - n /\
    after st0 (msg ++ firstn (Z.to_nat n) inp) st' /\ (len' = 0 \/ buf_used st' = 0).
Proof.
  intros A Hl. unfold fill_buffer. destruct (Z.eqb_spec (buf_used st) 0) as [U|U].
  { exists 0. cbn [Z.to_nat firstn]. rewrite app_nil_r. split; [lia|]. split; [reflexivity|]. split; [lia|]. now split; [|right]. }
  set (todo := if len <? 16 - buf_used st then len else 16 - buf_used st).
  assert (Us : 0 <= buf_used st < 16) by (destruct A as (? & ? & ? & ? & ? & _); assumption).
  assert (T : 0 <= todo <= len /\ buf_used st + todo <= 16 /\ (buf_used st + todo = 16 \/ len = todo)) by (subst todo; destruct (Z.ltb_spec len (16 - buf_used st)); lia).
  destruct T as (T1 & T2 & T3). clearbody todo. exists todo. split; [exact T1|]. split; [reflexivity|]. split; [reflexivity|].
  assert (Lp : Z.of_nat (length (firstn (Z.to_nat todo) inp)) = todo) by (rewrite length_firstn; lia).
  cbn [with_buf buf_used]. destruct (Z.eqb_spec (buf_used st + todo) 16) as [F|F].
  - split; [|now right]. cbn [buf]. rewrite F. pose proof (after_full st0 msg st (firstn (Z.to_nat todo) inp) A ltac:(lia)) as X. cbv zeta in X. exact X.
  - split; [|left; lia]. pose proof (after_fill st0 msg st (firstn (Z.to_nat todo) inp) A) as X. rewrite Lp in X. apply X. lia.
Qed.

Lemma after_update st0 msg st inp : after st0 msg st -> Z.of_nat (length inp) < 2 ^ 64 ->
  after st0 (msg ++ inp) (CRYPTO_poly1305_update st inp (Z.of_nat (length inp))).
Proof.
  intros A Hw. unfold CRYPTO_poly1305_update. pose proof (after_fill_buffer st0 msg st inp (Z.of_nat (length inp)) A ltac:(lia)) as F.
  destruct (fill_buffer st inp (Z.of_nat (length inp))) as [[st1 inp1] len1]. destruct F as (n & Hn & -> & -> & A1 & U1).
  rewrite <- (firstn_skipn (Z.to_nat n) inp) at 1. rewrite app_assoc. set (msg1 := msg ++ _) in *. set (inp1 := skipn (Z.to_nat n) inp) in *.
  assert (E : Z.of_nat (length inp) - n = Z.of_nat (length inp1)) by (subst inp1; rewrite length_skipn; lia). rewrite E in *.
  clearbody inp1 msg1. assert (Hw1 : Z.of_nat (length inp1) < 2 ^ 64) by lia. clear A Hw Hn E msg st inp n.
  set (len1 := Z.of_nat (length inp1)) in *. set (q := Z.to_nat (len1 / 16)).
  assert (N : (if 16 <=? len1 then (poly1305_update st1 inp1 (Z.land len1 (SIZE_MAX - 0xf)), skipn (Z.to_nat (Z.land len1 (SIZE_MAX - 0xf))) inp1, Z.land len1 0xf) else (st1, inp1, len1)) =
    (absorb q st1 inp1, skipn (16 * q) inp1, Z.of_nat (length (skipn (16 * q) inp1))) /\ (16 * q <= length inp1)%nat /\ (len1 < 16 + Z.of_nat (16 * q))).
  { subst q. rewrite length_skipn. destruct (Z.leb_spec 16 len1) as [G|G].
    - destruct (todo_blocks len1 ltac:(lia)) as (-> & ->). pose proof (Z.div_pos len1 16 ltac:(lia) ltac:(lia)). pose proof (Z.div_mod len1 16 ltac:(lia)). pose proof (Z.mod_pos_bound len1 16 ltac:(lia)).
      replace (len1 - len1 mod 16) with (16 * Z.of_nat (Z.to_nat (len1 / 16))) by lia. rewrite update_absorb.
      split; [|lia]. f_equal; [f_equal; f_equal|]; lia.
    - rewrite Z.div_small by lia. cbn [Z.to_nat Nat.mul absorb skipn]. rewrite Nat.sub_0_r. now split; [|lia]. }
  destruct N as (-> & Lq & Lr). clearbody q. assert (B : after st0 (msg1 ++ firstn (16 * q) inp1) (absorb q st1 inp1) /\ (length (skipn (16 * q) inp1) <> O -> buf_used (absorb q st1 inp1) = 0)).
  { destruct q as [|q]; [change (16 * 0)%nat with O; rewrite firstn_O, skipn_O, app_nil_r; split; [exact A1|]; intros NZ; destruct U1; [subst len1; lia|assumption]|].
    destruct (after_blocks st0 msg1 st1 inp1 (S q) A1 ltac:(lia) Lq) as (X & Y). split; [exact X|intros; exact Y]. }
  destruct B as (A2 & U2). rewrite <- (firstn_skipn (16 * q) inp1) at 1. rewrite app_assoc. rewrite length_skipn in *.
  destruct (Z.eqb_spec (Z.of_nat (length inp1 - 16 * q)) 0) as [Z|Z].
  - rewrite (skipn_all2 inp1) by lia. now rewrite app_nil_r.
  - rewrite (firstn_all2 (skipn _ _)) by (rewrite length_skipn; lia). pose proof (after_fill st0 _ _ (skipn (16 * q) inp1) A2) as X.
    rewrite U2, length_skipn in X by lia. apply X. lia.
Qed.

Lemma after_init junk k : length junk = 16%nat -> after (CRYPTO_poly1305_init junk k) [] (CRYPTO_poly1305_init junk k).
Proof.
  intros L. exists O, []. change (buf_used (CRYPTO_poly1305_init junk k)) with 0. cbn [Z.to_nat firstn app absorb]. split; [reflexivity|].
  split; [reflexivity|]. split; [lia|]. now split.
Qed.

Lemma finish_buf st b u : add_key (select_reduced (carry_around (with_buf st b u))) = add_key (select_reduced (carry_around st)).
Proof.
  assert (A : forall x, select_reduced (with_buf x b u) = with_buf (select_reduced x) b u)
    by (intros []; unfold select_reduced, with_h, with_buf; cbv beta iota delta [h0 h1 h2 h3 h4 r0 r1 r2 r3 r4 s1 s2 s3 s4 buf buf_used key]; reflexivity).
  assert (B : carry_around (with_buf st b u) = with_buf (carry_around st) b u)
    by (destruct st; unfold carry_around, with_h, with_buf; cbv beta iota delta [h0 h1 h2 h3 h4 r0 r1 r2 r3 r4 s1 s2 s3 s4 buf buf_used key]; reflexivity).
  rewrite B, A. reflexivity.
Qed.

(** What the tag is computed from: the last block is completed with zeros. *)
Definition closing (st0 : poly1305_state) (msg : list Z) : list Z :=
  let n := (length msg / 16)%nat in
  let st := absorb n st0 msg in
  let rest := skipn (16 * n) msg in
  let st := if (length rest =? 0)%nat then st else poly1305_update st rest (Z.of_nat (length rest)) in
  add_key (select_reduced (carry_around st)).

Lemma finish_after st0 msg st : after st0 msg st -> CRYPTO_poly1305_finish st = closing st0 msg.
Proof.
  intros (n & full & L & -> & U & Lb & E). unfold CRYPTO_poly1305_finish, closing. set (rest := firstn _ (buf st)).
  assert (Lr : length rest = Z.to_nat (buf_used st)) by (subst rest; rewrite length_firstn; lia).
  assert (Q : (length (full ++ rest) / 16)%nat = n) by (rewrite length_app; symmetry; apply (Nat.div_unique _ 16 _ (length rest)); lia).
  rewrite Q, <- (absorb_firstn n st0 (full ++ rest) (16 * n)), <- L, firstn_app_length, skipn_app_length by lia. clear Q L.
  set (core := absorb n st0 full) in *. clearbody core. rewrite Lr.
  destruct (Z.eqb_spec (buf_used st) 0) as [Z|Z].
  - rewrite Z. cbn [Z.to_nat Nat.eqb]. rewrite E. apply finish_buf.
  - destruct (Nat.eqb_spec (Z.to_nat (buf_used st)) 0); [lia|]. rewrite Z2Nat.id by lia.
    unfold poly1305_update. rewrite !Z.div_small by lia. cbn [Z.to_nat update_loop].
    destruct (Z.leb_spec 16 (buf_used st)); [lia|]. destruct (Z.eqb_spec (buf_used st) 0); [contradiction|].
    subst rest. rewrite firstn_firstn, Nat.min_id. generalize (firstn (Z.to_nat (buf_used st)) (buf st) ++ [1] ++ repeat 0 (Z.to_nat (16 - buf_used st - 1))).
    intros mp. rewrite E, block_buf. apply finish_buf.
Qed.

(** Two ways to cut a message have the same tag. *)
Lemma finish_unique st0 msg st st' : after st0 msg st -> after st0 msg st' -> CRYPTO_poly1305_finish st = CRYPTO_poly1305_finish st'.
Proof. intros A B. now rewrite (finish_after _ _ _ A), (finish_after _ _ _ B). Qed.
