(* ===== verification/ChaCha.v ===== *)
(** * ChaCha20: BoringSSL's [crypto/chacha/chacha.c]

    The portable implementation, which the app's platform uses.  The sixteen
    words of the state are a list, [QUARTERROUND] changes four of them in
    place, and the stream is produced in blocks of 64 bytes.  The output may
    be the input's buffer: a byte is read before it is written, and nothing is
    read behind it, so that the result is the same.

    The reference: the state as a matrix of four rows, a round as four quarter
    rounds side by side, the diagonals reached by turning the rows, and the
    stream as a function of the position. *)

From Stdlib Require Import ZArith Lia ZifyBool List Bool.
From S2P Require Import Prelude ConstTime Endian.
Import ListNotations.

(** ** Definitions *)

(** "expand 32-byte k" *)
Definition sigma : list Z := [101; 120; 112; 97; 110; 100; 32; 51; 50; 45; 98; 121; 116; 101; 32; 107].

Definition word (x : list Z) (i : nat) : Z := nth i x 0.

Definition QUARTERROUND (a b c d : nat) (x : list Z) : list Z :=
  let x := set_nth a (u32 (word x a + word x b)) x in
  let x := set_nth d (CRYPTO_rotl_u32 (Z.lxor (word x d) (word x a)) 16) x in
  let x := set_nth c (u32 (word x c + word x d)) x in
  let x := set_nth b (CRYPTO_rotl_u32 (Z.lxor (word x b) (word x c)) 12) x in
  let x := set_nth a (u32 (word x a + word x b)) x in
  let x := set_nth d (CRYPTO_rotl_u32 (Z.lxor (word x d) (word x a)) 8) x in
  let x := set_nth c (u32 (word x c + word x d)) x in
  set_nth b (CRYPTO_rotl_u32 (Z.lxor (word x b) (word x c)) 7) x.

(** The body of the loop over the rounds, two rounds at a time *)
Definition two_rounds (x : list Z) : list Z :=
  let x := QUARTERROUND 0 4 8 12 x in
  let x := QUARTERROUND 1 5 9 13 x in
  let x := QUARTERROUND 2 6 10 14 x in
  let x := QUARTERROUND 3 7 11 15 x in
  let x := QUARTERROUND 0 5 10 15 x in
  let x := QUARTERROUND 1 6 11 12 x in
  let x := QUARTERROUND 2 7 8 13 x in
  QUARTERROUND 3 4 9 14 x.

Definition rounds (x : list Z) : list Z := Nat.iter 10 two_rounds x.

(** The words of [n] times four bytes, as [memcpy] reads them on a
    little-endian machine *)
Fixpoint load_words (n : nat) (b : list Z) : list Z :=
  match n with
  | O => []
  | S n => CRYPTO_load_u32_le b :: load_words n (skipn 4 b)
  end.

Definition CRYPTO_hchacha20 (key nonce : list Z) : list Z :=
  let x := load_words 4 sigma ++ load_words 8 key ++ load_words 4 nonce in
  let x := rounds x in
  concat (map CRYPTO_store_u32_le (firstn 4 x)) ++ concat (map CRYPTO_store_u32_le (firstn 4 (skipn 12 x))).

Fixpoint add_words (x y : list Z) : list Z :=
  match x, y with
  | a :: x, b :: y => u32 (a + b) :: add_words x y
  | _, _ => []
  end.

Definition chacha_core (input : list Z) : list Z :=
  concat (map CRYPTO_store_u32_le (add_words (rounds input) input)).

Fixpoint xor_bytes (x y : list Z) : list Z :=
  match x, y with
  | a :: x, b :: y => Z.lxor a b :: xor_bytes x y
  | _, _ => []
  end.

Fixpoint chacha_loop (fuel : nat) (inp : list Z) (in_len : Z) (input : list Z) : list Z :=
  match fuel with
  | O => []
  | S fuel =>
      if 0 <? in_len then
        let todo := if in_len <? 64 then in_len else 64 in
        let buf := chacha_core input in
        xor_bytes (firstn (Z.to_nat todo) inp) buf ++
        chacha_loop fuel (skipn (Z.to_nat todo) inp) (in_len - todo) (set_nth 12 (u32 (word input 12 + 1)) input)
      else []
  end.

Definition chacha_input (key nonce : list Z) (counter : Z) : list Z :=
  load_words 4 sigma ++ load_words 8 key ++ [counter] ++ load_words 3 nonce.

Definition CRYPTO_chacha_20 (inp : list Z) (in_len : Z) (key nonce : list Z) (counter : Z) : list Z :=
  chacha_loop (Z.to_nat ((in_len + 63) / 64)) inp in_len (chacha_input key nonce counter).

(** ** The reference

    RFC 8439, section 2.3, by rows *)

Definition row : Type := (Z * Z * Z * Z)%type.

Definition quarter (a b c d : Z) : row :=
  let a := u32 (a + b) in
  let d := CRYPTO_rotl_u32 (Z.lxor d a) 16 in
  let c := u32 (c + d) in
  let b := CRYPTO_rotl_u32 (Z.lxor b c) 12 in
  let a := u32 (a + b) in
  let d := CRYPTO_rotl_u32 (Z.lxor d a) 8 in
  let c := u32 (c + d) in
  let b := CRYPTO_rotl_u32 (Z.lxor b c) 7 in
  (a, b, c, d).

Record matrix := mk_matrix { row_a : row; row_b : row; row_c : row; row_d : row }.

(** Four quarter rounds side by side, one in each column *)
Definition column_round (m : matrix) : matrix :=
  let '(a0, a1, a2, a3) := row_a m in
  let '(b0, b1, b2, b3) := row_b m in
  let '(c0, c1, c2, c3) := row_c m in
  let '(d0, d1, d2, d3) := row_d m in
  let '(a0, b0, c0, d0) := quarter a0 b0 c0 d0 in
  let '(a1, b1, c1, d1) := quarter a1 b1 c1 d1 in
  let '(a2, b2, c2, d2) := quarter a2 b2 c2 d2 in
  let '(a3, b3, c3, d3) := quarter a3 b3 c3 d3 in
  mk_matrix (a0, a1, a2, a3) (b0, b1, b2, b3) (c0, c1, c2, c3) (d0, d1, d2, d3).

Definition turn (r : row) : row := let '(x0, x1, x2, x3) := r in (x1, x2, x3, x0).

(** The diagonals become columns and return. *)
Definition diagonalise (m : matrix) : matrix :=
  mk_matrix (row_a m) (turn (row_b m)) (turn (turn (row_c m))) (turn (turn (turn (row_d m)))).

Definition undiagonalise (m : matrix) : matrix :=
  mk_matrix (row_a m) (turn (turn (turn (row_b m)))) (turn (turn (row_c m))) (turn (row_d m)).

Definition double_round (m : matrix) : matrix :=
  undiagonalise (column_round (diagonalise (column_round m))).

Definition twenty_rounds (m : matrix) : matrix := Nat.iter 10 double_round m.

Definition row_words (r : row) : list Z := let '(x0, x1, x2, x3) := r in [x0; x1; x2; x3].

Definition matrix_words (m : matrix) : list Z :=
  row_words (row_a m) ++ row_words (row_b m) ++ row_words (row_c m) ++ row_words (row_d m).

(** The four words of sixteen bytes *)
Definition row_of (b : list Z) : row :=
  (le_val (firstn 4 b), le_val (firstn 4 (skipn 4 b)), le_val (firstn 4 (skipn 8 b)), le_val (firstn 4 (skipn 12 b))).

Definition initial (key nonce : list Z) (counter : Z) : matrix :=
  mk_matrix (row_of sigma) (row_of key) (row_of (skipn 16 key)) (row_of (le_bytes 4 counter ++ nonce)).

(** The block of a counter: 64 bytes *)
Definition chacha_block (key nonce : list Z) (counter : Z) : list Z :=
  let m := initial key nonce counter in
  concat (map (le_bytes 4) (map (fun '(x, y) => u32 (x + y)) (combine (matrix_words (twenty_rounds m)) (matrix_words m)))).

(** The byte at position [i] of the stream from block [counter] on *)
Definition keystream (key nonce : list Z) (counter : Z) (i : nat) : Z :=
  nth (i mod 64) (chacha_block key nonce (u32 (counter + Z.of_nat (i / 64)))) 0.

(** ** Blocks *)

Lemma two_rounds_spec m : two_rounds (matrix_words m) = matrix_words (double_round m).
Proof.
  destruct m as [[[[a0 a1] a2] a3] [[[b0 b1] b2] b3] [[[c0 c1] c2] c3] [[[d0 d1] d2] d3]].
  cbv [two_rounds QUARTERROUND word set_nth nth double_round undiagonalise column_round diagonalise turn quarter
    matrix_words row_words row_a row_b row_c row_d app].
  reflexivity.
Qed.

Lemma rounds_spec m : rounds (matrix_words m) = matrix_words (twenty_rounds m).
Proof.
  unfold rounds, twenty_rounds. generalize 10%nat. intros n. induction n as [|n IH]; [reflexivity|].
  change (two_rounds (Nat.iter n two_rounds (matrix_words m)) = matrix_words (double_round (Nat.iter n double_round m))). now rewrite IH, two_rounds_spec.
Qed.

Lemma add_words_combine x y : add_words x y = map (fun '(a, b) => u32 (a + b)) (combine x y).
Proof. revert y. induction x as [|a x IH]; intros [|b y]; [reflexivity..|]. cbn. now rewrite IH. Qed.

Lemma load_words_row b : load_words 4 b = row_words (row_of b).
Proof. unfold row_of. cbn [load_words row_words]. unfold CRYPTO_load_u32_le. now rewrite !skipn_skipn. Qed.

Lemma load_words_add n m b : load_words (n + m) b = load_words n b ++ load_words m (skipn (4 * n) b).
Proof.
  revert b. induction n as [|n IH]; intros b; [reflexivity|]. cbn [Nat.add load_words app]. rewrite IH, skipn_skipn.
  now replace (4 * S n)%nat with (4 * n + 4)%nat by lia.
Qed.

Lemma le_val_le_bytes_4 v : 0 <= v < 2 ^ 32 -> le_val (le_bytes 4 v) = v.
Proof. intros. rewrite le_val_le_bytes. now apply Z.mod_small. Qed.

Lemma input_spec key nonce counter : word_ok 32 counter -> chacha_input key nonce counter = matrix_words (initial key nonce counter).
Proof.
  intros Hc. unfold chacha_input, matrix_words, initial. cbn [row_a row_b row_c row_d]. change (load_words 8 key) with (load_words (4 + 4) key). rewrite load_words_add, !load_words_row, <- app_assoc.
  do 3 f_equal. rewrite <- load_words_row. cbn [load_words app]. unfold CRYPTO_load_u32_le. f_equal.
  rewrite firstn_app, firstn_all2, length_le_bytes, firstn_O, app_nil_r by (now rewrite length_le_bytes). symmetry. now apply le_val_le_bytes_4.
Qed.

Lemma core_spec key nonce counter : word_ok 32 counter -> chacha_core (chacha_input key nonce counter) = chacha_block key nonce counter.
Proof. intros Hc. unfold chacha_core, chacha_block. now rewrite input_spec, rounds_spec, add_words_combine. Qed.

Lemma length_store_all l : length (concat (map CRYPTO_store_u32_le l)) = (4 * length l)%nat.
Proof. induction l as [|x l IH]; [reflexivity|]. cbn [map concat length]. rewrite length_app, IH. cbn [length CRYPTO_store_u32_le le_bytes]. lia. Qed.

Lemma length_matrix_words m : length (matrix_words m) = 16%nat.
Proof. destruct m as [[[[? ?] ?] ?] [[[? ?] ?] ?] [[[? ?] ?] ?] [[[? ?] ?] ?]]. reflexivity. Qed.

Lemma length_block key nonce counter : length (chacha_block key nonce counter) = 64%nat.
Proof.
  unfold chacha_block. cbv zeta. change (le_bytes 4) with CRYPTO_store_u32_le. rewrite length_store_all, length_map, length_combine, !length_matrix_words. reflexivity.
Qed.

Lemma store_bytes l : bytes_ok (concat (map CRYPTO_store_u32_le l)).
Proof. induction l; cbn [map concat]; [constructor|]. apply Forall_app. split; [apply le_bytes_ok|assumption]. Qed.

Lemma block_bytes key nonce counter : bytes_ok (chacha_block key nonce counter).
Proof. apply store_bytes. Qed.

(** ** The stream *)

Lemma next_input key nonce counter : set_nth 12 (u32 (word (chacha_input key nonce counter) 12 + 1)) (chacha_input key nonce counter) =
  chacha_input key nonce (u32 (counter + 1)).
Proof. reflexivity. Qed.

Lemma length_xor_bytes x y : length (xor_bytes x y) = Nat.min (length x) (length y).
Proof. revert y. induction x as [|a x IH]; intros [|b y]; cbn; auto. Qed.

Lemma nth_xor_bytes x : forall y i, (i < length x)%nat -> (i < length y)%nat -> nth i (xor_bytes x y) 0 = Z.lxor (nth i x 0) (nth i y 0).
Proof. induction x as [|a x IH]; intros [|b y] [|i] Hx Hy; cbn in *; try lia. apply IH; lia. Qed.

Lemma nth_skipn_Z n (l : list Z) i : nth i (skipn n l) 0 = nth (n + i) l 0.
Proof. revert l. induction n as [|n IH]; intros [|a l]; cbn [skipn Nat.add nth]; [now destruct i..|apply IH]. Qed.

(** The stream from a block boundary on *)
Lemma keystream_block key nonce counter n i : keystream key nonce counter (64 * n + i) = keystream key nonce (u32 (counter + Z.of_nat n)) i.
Proof.
  unfold keystream. rewrite (Nat.mul_comm 64), Nat.add_comm, Nat.Div0.mod_add, Nat.div_add by lia.
  assert (E : u32 (counter + Z.of_nat (i / 64 + n)) = u32 (u32 (counter + Z.of_nat n) + Z.of_nat (i / 64)))
    by (unfold wrap; rewrite Zplus_mod_idemp_l; f_equal; lia).
  rewrite E. reflexivity.
Qed.

Lemma keystream_small key nonce counter i : word_ok 32 counter -> (i < 64)%nat -> keystream key nonce counter i = nth i (chacha_block key nonce counter) 0.
Proof. intros Hc Hi. unfold keystream. rewrite Nat.mod_small, Nat.div_small by lia. cbn [Z.of_nat]. rewrite Z.add_0_r. now rewrite (wrap_small 32 counter). Qed.

Lemma loop_spec key nonce fuel : forall inp len counter, word_ok 32 counter -> 0 <= len <= Z.of_nat (length inp) -> len <= 64 * Z.of_nat fuel ->
  let out := chacha_loop fuel inp len (chacha_input key nonce counter) in
  length out = Z.to_nat len /\
  forall i, (i < Z.to_nat len)%nat -> nth i out 0 = Z.lxor (nth i inp 0) (keystream key nonce counter i).
Proof.
  induction fuel as [|fuel IH]; intros inp len counter Hc Hl Hf; cbv zeta; cbn [chacha_loop].
  { replace len with 0 by lia. split; [reflexivity|]. intros i Hi. cbn in Hi. lia. }
  destruct (Z.ltb_spec 0 len) as [P|P]; [|replace len with 0 by lia; split; [reflexivity|intros i Hi; cbn in Hi; lia]].
  set (todo := if len <? 64 then len else 64). assert (T : 0 < todo <= 64 /\ (todo = len \/ todo = 64 /\ 64 <= len)) by (subst todo; destruct (Z.ltb_spec len 64); lia).
  clearbody todo. rewrite next_input, core_spec by exact Hc.
  destruct (IH (skipn (Z.to_nat todo) inp) (len - todo) (u32 (counter + 1)) ltac:(apply wrap_range; lia)) as (L & N); [rewrite length_skipn; lia|lia|].
  set (rest := chacha_loop _ _ _ _) in *. clearbody rest.
  assert (L1 : length (xor_bytes (firstn (Z.to_nat todo) inp) (chacha_block key nonce counter)) = Z.to_nat todo) by (rewrite length_xor_bytes, length_block, length_firstn; lia).
  split; [rewrite length_app, L1, L; lia|]. intros i Hi. destruct (Nat.lt_ge_cases i (Z.to_nat todo)) as [I|I].
  - rewrite app_nth1, nth_xor_bytes, keystream_small by (rewrite ?L1, ?length_block, ?length_firstn; lia || exact Hc). f_equal.
    rewrite <- (firstn_skipn (Z.to_nat todo) inp) at 2. rewrite app_nth1 by (rewrite length_firstn; lia). reflexivity.
  - rewrite app_nth2, L1 by lia. rewrite N, nth_skipn_Z by lia. f_equal; [f_equal; lia|].
    assert (todo = 64) by lia. subst todo. change (Z.to_nat 64) with 64%nat in *. replace i with (64 * 1 + (i - 64))%nat at 2 by lia.
    now rewrite keystream_block.
Qed.

Lemma chacha_20_spec inp len key nonce counter : word_ok 32 counter -> 0 <= len <= Z.of_nat (length inp) ->
  let out := CRYPTO_chacha_20 inp len key nonce counter in
  length out = Z.to_nat len /\ forall i, (i < Z.to_nat len)%nat -> nth i out 0 = Z.lxor (nth i inp 0) (keystream key nonce counter i).
Proof. intros Hc Hl. apply loop_spec; [exact Hc|exact Hl|]. lia_div. Qed.

(** C25: [CRYPTO_chacha_20] is the stream cipher of RFC 8439 at every length
    and from every counter: byte [i] of the output is byte [i] of the input
    xor byte [i mod 64] of the block with counter [counter + i / 64], modulo
    [2^32], and there are as many as were asked for. *)
Theorem CRYPTO_chacha_20_correct (key nonce inp : list Z) (in_len counter : Z)
  (Hcounter : word_ok 32 counter) (Hlen : 0 <= in_len <= Z.of_nat (length inp)) :
  length (CRYPTO_chacha_20 inp in_len key nonce counter) = Z.to_nat in_len /\
  forall i, (i < Z.to_nat in_len)%nat ->
    nth i (CRYPTO_chacha_20 inp in_len key nonce counter) 0 = Z.lxor (nth i inp 0) (keystream key nonce counter i).
Proof. exact (chacha_20_spec inp in_len key nonce counter Hcounter Hlen). Qed.

(** The key and the nonce of RFC 8439, section 2.3.2, and its block; a second
    block begins at the 65th byte. *)
Lemma CRYPTO_chacha_20_correct_witness :
  let key := map Z.of_nat (seq 0 32) in
  let nonce := [0; 0; 0; 9; 0; 0; 0; 74; 0; 0; 0; 0] in
  let out := CRYPTO_chacha_20 (repeat 7 70) 66 key nonce (2 ^ 32 - 1) in
  firstn 8 (chacha_block key nonce 1) = [16; 241; 231; 228; 209; 59; 89; 21] /\
  length out = 66%nat /\ nth 64 out 0 = Z.lxor 7 (nth 0 (chacha_block key nonce 0) 0).
Proof.
  cbv zeta. split; [vm_compute; reflexivity|].
  destruct (CRYPTO_chacha_20_correct (map Z.of_nat (seq 0 32)) [0; 0; 0; 9; 0; 0; 0; 74; 0; 0; 0; 0] (repeat 7 70) 66 (2 ^ 32 - 1)
    ltac:(unfold word_ok; lia) ltac:(cbn; lia)) as (L & N).
  split; [exact L|]. rewrite (N 64%nat) by (cbn; lia). vm_compute. reflexivity.
Defined.

(** Two streams that are equal byte by byte *)
Lemma list_eq_nth (x y : list Z) : length x = length y -> (forall i, (i < length x)%nat -> nth i x 0 = nth i y 0) -> x = y.
Proof. intros L N. now apply (nth_ext x y 0 0). Qed.

(** The cipher is its own inverse. *)
Lemma chacha_20_involutive inp key nonce counter : word_ok 32 counter ->
  let n := Z.of_nat (length inp) in
  CRYPTO_chacha_20 (CRYPTO_chacha_20 inp n key nonce counter) n key nonce counter = inp.
Proof.
  intros Hc. cbv zeta. destruct (chacha_20_spec inp (Z.of_nat (length inp)) key nonce counter Hc ltac:(lia)) as (L & N).
  set (c := CRYPTO_chacha_20 inp _ _ _ _) in *. clearbody c. rewrite Nat2Z.id in *.
  destruct (chacha_20_spec c (Z.of_nat (length inp)) key nonce counter Hc ltac:(lia)) as (L' & N'). rewrite Nat2Z.id in *.
  apply list_eq_nth; [exact L'|]. intros i Hi. rewrite L' in Hi. rewrite N', N, Z.lxor_assoc, Z.lxor_nilpotent, Z.lxor_0_r by exact Hi. reflexivity.
Qed.

(** The output is a byte string again. *)
Lemma chacha_20_bytes inp len key nonce counter : word_ok 32 counter -> bytes_ok inp -> 0 <= len <= Z.of_nat (length inp) ->
  bytes_ok (CRYPTO_chacha_20 inp len key nonce counter).
Proof.
  intros Hc Hi Hl. destruct (chacha_20_spec inp len key nonce counter Hc Hl) as (L & N). set (out := CRYPTO_chacha_20 _ _ _ _ _) in *. clearbody out.
  apply Forall_forall. intros b Hb. destruct (In_nth out b 0 Hb) as (i & I & <-). rewrite L in I. rewrite N by exact I.
  assert (A : byte_ok (nth i inp 0)) by (rewrite Forall_forall in Hi; apply Hi, nth_In; lia).
  assert (B : byte_ok (keystream key nonce counter i)).
  { unfold keystream. pose proof (block_bytes key nonce (u32 (counter + Z.of_nat (i / 64)))) as Y. rewrite Forall_forall in Y. apply Y, nth_In. rewrite length_block. apply Nat.mod_upper_bound. lia. }
  apply lxor_ok; [lia|exact A|exact B].
Qed.
