(* ===== verification/Md32.v ===== *)
(** * Collecting the input of a hash ([crypto/fipsmodule/digest/md32_common.h])

    The functions that MD4, MD5, SHA-1 and SHA-256 share: they cut the input
    into blocks, count its bits and pad it.  The hash itself is the parameter
    [block_func], which works a number of blocks into the chaining words.  An
    input [in], [len] is the list of its bytes.

    The reference: the padded message, cut into blocks and folded with the
    compression function.  A context is determined by what it has absorbed
    ([md32_of]), however that was cut into pieces. *)

From Stdlib Require Import ZArith Lia ZifyBool List Bool.
From S2P Require Import Prelude Endian.
Import ListNotations.

(** ** Definitions *)

(** The fields [h], [data], [num], [Nh] and [Nl] of a context, to which the
    functions have pointers *)
Record md32 := mk_md32 {
  md_h : list Z;
  md_data : list Z;
  md_num : Z;
  md_Nh : Z;
  md_Nl : Z
}.

Section Md32.
Context (block_func : list Z -> list Z -> Z -> list Z) (block_size : Z).

(** The end of [crypto_md32_update]: the whole blocks of the input, and the
    rest into the buffer *)
Definition md32_blocks (c : md32) (inp : list Z) : md32 :=
  let len := Z.of_nat (length inp) in
  let n := len / block_size in
  let h := if 0 <? n then block_func (md_h c) inp n else md_h c in
  let inp := if 0 <? n then skipn (Z.to_nat (n * block_size)) inp else inp in
  let len := if 0 <? n then len - n * block_size else len in
  if negb (len =? 0) then mk_md32 h (splice 0 inp (md_data c)) (u32 len) (md_Nh c) (md_Nl c)
  else mk_md32 h (md_data c) (md_num c) (md_Nh c) (md_Nl c).

Definition crypto_md32_update (c : md32) (inp : list Z) : md32 :=
  let len := Z.of_nat (length inp) in
  if len =? 0 then c
  else
    let l := u32 (md_Nl c + u32 (Z.shiftl (u32 len) 3)) in
    let Nh := if l <? md_Nl c then u32 (md_Nh c + 1) else md_Nh c in
    let Nh := u32 (Nh + u32 (Z.shiftr len 29)) in
    let c := mk_md32 (md_h c) (md_data c) (md_num c) Nh l in
    let n := md_num c in
    if negb (n =? 0) then
      if (block_size <=? len) || (block_size <=? u64 (len + n)) then
        let data := splice (Z.to_nat n) (firstn (Z.to_nat (block_size - n)) inp) (md_data c) in
        let h := block_func (md_h c) data 1 in
        md32_blocks (mk_md32 h (repeat 0 (Z.to_nat block_size)) 0 Nh l) (skipn (Z.to_nat (block_size - n)) inp)
      else
        mk_md32 (md_h c) (splice (Z.to_nat n) inp (md_data c)) (u32 (n + u32 len)) Nh l
    else md32_blocks c inp.

(** The assertion of the code, [n < block_size], is [md32_of_num]. *)
Definition crypto_md32_final (is_big_endian : bool) (c : md32) : md32 :=
  let n := md_num c in
  let data := set_nth (Z.to_nat n) 128 (md_data c) in
  let n := n + 1 in
  let full := block_size - 8 <? n in
  let data := if full then splice (Z.to_nat n) (repeat 0 (Z.to_nat (block_size - n))) data else data in
  let h := if full then block_func (md_h c) data 1 else md_h c in
  let n := if full then 0 else n in
  let data := splice (Z.to_nat n) (repeat 0 (Z.to_nat (block_size - 8 - n))) data in
  let length_bytes :=
    if is_big_endian then CRYPTO_store_u32_be (md_Nh c) ++ CRYPTO_store_u32_be (md_Nl c)
    else CRYPTO_store_u32_le (md_Nl c) ++ CRYPTO_store_u32_le (md_Nh c) in
  let data := splice (Z.to_nat (block_size - 8)) length_bytes data in
  mk_md32 (block_func h data 1) (repeat 0 (Z.to_nat block_size)) 0 (md_Nh c) (md_Nl c).

End Md32.

(** ** The reference *)

(** The first [k] blocks of [n] bytes *)
Fixpoint chunks (k n : nat) (l : list Z) : list (list Z) :=
  match k with
  | O => []
  | S k => firstn n l :: chunks k n (skipn n l)
  end.

(** The message, a one bit, zeros up to the end of a block less [L] bytes, and
    the encoding of the length in these *)
Definition padding (bs L : Z) (m enc : list Z) : list Z :=
  128 :: repeat 0 (Z.to_nat ((- (Z.of_nat (length m) + 1 + L)) mod bs)) ++ enc.

Definition bit_length (m : list Z) : Z := 8 * Z.of_nat (length m).

Lemma bit_length_app m x : bit_length (m ++ x) = bit_length m + Z.of_nat (length x) * 2 ^ 3.
Proof. unfold bit_length. rewrite length_app. lia. Qed.

(** Cutting the blocks off a message, with what is left *)
Section Absorb.
Context (compress : list Z -> list Z -> list Z) (bs : nat).

Definition absorb (h m : list Z) : list Z * list Z :=
  let k := (length m / bs)%nat in
  (fold_left compress (chunks k bs m) h, skipn (k * bs) m).

Definition hash_blocks (h m : list Z) : list Z := fst (absorb h m).

Context (bs_pos : (0 < bs)%nat).

Lemma chunks_app k : forall j a b, length a = (k * bs)%nat -> chunks (k + j) bs (a ++ b) = chunks k bs a ++ chunks j bs b.
Proof.
  induction k as [|k IH]; intros j a b L.
  - cbn in L. apply length_zero_iff_nil in L. now subst.
  - cbn [Nat.add chunks app]. cbn [Nat.mul] in L.
    rewrite firstn_app, skipn_app. replace (bs - length a)%nat with 0%nat by lia.
    rewrite firstn_O, skipn_O, app_nil_r. f_equal. apply IH. rewrite length_skipn. lia.
Qed.

Lemma chunks_firstn k m : (k * bs <= length m)%nat -> chunks k bs m = chunks k bs (firstn (k * bs) m).
Proof.
  intros L. rewrite <- (firstn_skipn (k * bs) m) at 1. rewrite <- (Nat.add_0_r k) at 1.
  rewrite chunks_app by (rewrite length_firstn; lia). apply app_nil_r.
Qed.

Lemma absorb_short h m : (length m < bs)%nat -> absorb h m = (h, m).
Proof. intros L. unfold absorb. now rewrite Nat.div_small. Qed.

Lemma absorb_split h m x : absorb h (m ++ x) = absorb (fst (absorb h m)) (snd (absorb h m) ++ x).
Proof.
  unfold absorb. cbn [fst snd]. set (q := (length m / bs)%nat).
  assert (Q : (q * bs <= length m)%nat) by (subst q; rewrite Nat.mul_comm; apply Nat.Div0.mul_div_le).
  assert (D : (length (m ++ x) / bs = q + length (skipn (q * bs) m ++ x) / bs)%nat).
  { rewrite !length_app, length_skipn.
    replace (length m + length x)%nat with (q * bs + (length m - q * bs + length x))%nat by lia.
    now rewrite Nat.div_add_l by lia. }
  rewrite D. set (j := (length (skipn (q * bs) m ++ x) / bs)%nat).
  assert (Lf : length (firstn (q * bs) m) = (q * bs)%nat) by (rewrite length_firstn; lia).
  f_equal.
  - rewrite (chunks_firstn q m) by assumption. rewrite <- fold_left_app, <- chunks_app by assumption.
    now rewrite app_assoc, firstn_skipn.
  - rewrite Nat.mul_add_distr_r, Nat.add_comm, <- skipn_skipn, skipn_app.
    now replace (q * bs - length m)%nat with 0%nat by lia.
Qed.

Lemma absorb_block h b x : length b = bs -> absorb h (b ++ x) = absorb (compress h b) x.
Proof.
  intros L. rewrite absorb_split. unfold absorb at 2 3. rewrite L, Nat.div_same by lia.
  cbn [chunks fold_left fst snd Nat.mul]. rewrite Nat.add_0_r, <- L, firstn_all, skipn_all. reflexivity.
Qed.

Lemma absorb_bytes h m : bytes_ok m -> bytes_ok (snd (absorb h m)).
Proof. apply bytes_ok_skipn. Qed.

Lemma length_absorb h m : length (snd (absorb h m)) = (length m mod bs)%nat.
Proof. unfold absorb. cbn [snd]. rewrite length_skipn, Nat.mul_comm. symmetry. apply Nat.Div0.mod_eq. Qed.

End Absorb.

(** ** Correctness *)

Lemma splice_0_app (src l r : list Z) : length src = length l -> splice 0 src (l ++ r) = src ++ r.
Proof. intros L. unfold splice. rewrite firstn_O, Nat.add_0_l, L, skipn_app_length. reflexivity. Qed.

(** Writing behind what is there, into a tail that starts with as many bytes *)
Lemma splice_tail (p src l r : list Z) n : length p = n -> length src = length l -> splice n src (p ++ l ++ r) = p ++ src ++ r.
Proof.
  intros <- L. unfold splice. rewrite firstn_app_length. f_equal. f_equal.
  rewrite L, <- length_app, app_assoc. apply skipn_app_length.
Qed.

Lemma repeat_split {A} (a : A) n k : (k <= n)%nat -> repeat a n = repeat a k ++ repeat a (n - k).
Proof. intros L. rewrite <- repeat_app. f_equal. lia. Qed.

Lemma repeat_0_bytes n : bytes_ok (repeat 0 n).
Proof. induction n; constructor; [now vm_compute|assumption]. Qed.

(** A list put together from byte strings is one. *)
Ltac bytes :=
  solve [repeat first [ assumption | apply Forall_app; split | apply repeat_0_bytes | apply bytes_ok_firstn | apply bytes_ok_skipn
               | apply be_bytes_ok | apply le_bytes_ok | apply Forall_cons; [now vm_compute|] | apply Forall_nil ]].

(** The zeros of the padding: up to the length in this block, or in the next *)
Lemma pad_zeros bs L (m : list Z) (r : nat) : 0 <= L < bs -> (Z.of_nat r = Z.of_nat (length m) mod bs) ->
  Z.to_nat ((- (Z.of_nat (length m) + 1 + L)) mod bs) =
  if bs - L <? Z.of_nat r + 1 then ((Z.to_nat bs - r - 1) + (Z.to_nat bs - Z.to_nat L))%nat else (Z.to_nat bs - r - 1 - Z.to_nat L)%nat.
Proof.
  intros HL E. pose proof (Z.div_mod (Z.of_nat (length m)) bs ltac:(lia)) as D.
  pose proof (Z.mod_pos_bound (Z.of_nat (length m)) bs ltac:(lia)) as B. rewrite <- E in D, B.
  destruct (Z.ltb_spec (bs - L) (Z.of_nat r + 1)).
  - rewrite <- (Z.mod_unique _ bs (- (Z.of_nat (length m) / bs) - 2) (2 * bs - Z.of_nat r - 1 - L)) by lia. lia.
  - rewrite <- (Z.mod_unique _ bs (- (Z.of_nat (length m) / bs) - 1) (bs - Z.of_nat r - 1 - L)) by lia. lia.
Qed.

(** Writing behind what is there, over whatever follows *)
Lemma splice_over p src t n : length p = n -> (length src <= length t)%nat -> splice n src (p ++ t) = p ++ src ++ skipn (length src) t.
Proof.
  intros Lp L. rewrite <- (firstn_skipn (length src) t) at 1. apply splice_tail; [assumption|]. rewrite length_firstn. lia.
Qed.

(** A counter in two words *)
Lemma count_bits w s c len :
  0 < s < w -> 0 <= c -> 0 <= len ->
  let Nl := wrap w c in let Nh := wrap w (c / 2 ^ w) in
  let l := wrap w (Nl + wrap w (len * 2 ^ s)) in
  l = wrap w (c + len * 2 ^ s) /\
  wrap w ((if l <? Nl then wrap w (Nh + 1) else Nh) + wrap w (len / 2 ^ (w - s))) = wrap w ((c + len * 2 ^ s) / 2 ^ w).
Proof.
  intros Hs Hc Hl. cbv zeta. unfold wrap.
  assert (E : 2 ^ w = 2 ^ (w - s) * 2 ^ s) by (rewrite <- Z.pow_add_r by lia; f_equal; lia).
  assert (P1 : 0 < 2 ^ (w - s)) by (apply Z.pow_pos_nonneg; lia).
  assert (P2 : 0 < 2 ^ s) by (apply Z.pow_pos_nonneg; lia).
  assert (D : len * 2 ^ s / 2 ^ w = len / 2 ^ (w - s)) by (rewrite E; apply Z.div_mul_cancel_r; lia).
  rewrite <- D. set (M := 2 ^ w) in *. set (a := len * 2 ^ s) in *.
  assert (PM : 0 < M) by nia.
  split; [symmetry; apply Zplus_mod|].
  pose proof (Z.div_mod c M ltac:(lia)) as Ec. pose proof (Z.div_mod a M ltac:(lia)) as Ea.
  pose proof (Z.mod_pos_bound c M PM) as Bc. pose proof (Z.mod_pos_bound a M PM) as Ba.
  set (cl := c mod M) in *. set (al := a mod M) in *. set (ch := c / M) in *. set (ah := a / M) in *.
  assert (S : c + a = (ch + ah) * M + (cl + al)) by lia.
  rewrite S, Z.div_add_l by lia.
  destruct (Z.ltb_spec ((cl + al) mod M) cl) as [H|H].
  - assert (C : (cl + al) / M = 1).
    { destruct (Z.lt_ge_cases (cl + al) M); [rewrite Z.mod_small in H by lia; lia|].
      symmetry. apply Z.div_unique with (cl + al - M); lia. }
    rewrite C, <- Zplus_mod, <- Z.add_assoc, Zplus_mod_idemp_l. f_equal. lia.
  - assert (C : (cl + al) / M = 0).
    { apply Z.div_small. destruct (Z.lt_ge_cases (cl + al) M); [lia|].
      rewrite <- (Z.mod_unique (cl + al) M 1 (cl + al - M)) in H by lia. lia. }
    rewrite C, <- Zplus_mod. f_equal. lia.
Qed.

Lemma be_bytes_app n k : forall v, be_bytes n (v / 256 ^ Z.of_nat k) ++ be_bytes k v = be_bytes (n + k) v.
Proof.
  induction k as [|k IH]; intros v.
  - cbn [be_bytes Z.of_nat]. now rewrite Z.div_1_r, app_nil_r, Nat.add_0_r.
  - rewrite Nat.add_succ_r. cbn [be_bytes]. rewrite app_assoc, <- IH. do 3 f_equal.
    rewrite Nat2Z.inj_succ, Z.pow_succ_r, Z.div_div by lia. reflexivity.
Qed.

Lemma be_bytes_mod k : forall v, be_bytes k (v mod 256 ^ Z.of_nat k) = be_bytes k v.
Proof.
  intros v. rewrite <- (be_val_be_bytes k v). rewrite <- (length_be_bytes k v) at 1. apply be_bytes_be_val, be_bytes_ok.
Qed.

Lemma be_bytes_halves v : be_bytes 4 (u32 (v / 2 ^ 32)) ++ be_bytes 4 (u32 v) = be_bytes 8 v.
Proof. unfold wrap. change (2 ^ 32) with (256 ^ Z.of_nat 4). rewrite !be_bytes_mod. apply (be_bytes_app 4 4). Qed.

Lemma le_bytes_halves v : le_bytes 4 (u32 v) ++ le_bytes 4 (u32 (v / 2 ^ 32)) = le_bytes 8 v.
Proof.
  apply rev_inj. rewrite rev_app_distr, !rev_le_bytes. apply be_bytes_halves.
Qed.

Section Stream.
Context (block_func : list Z -> list Z -> Z -> list Z) (block_size : Z) (compress : list Z -> list Z -> list Z).
Context (size_ok : 8 < block_size < 2 ^ 31).
Context (hn : nat) (compress_length : forall h b, length h = hn -> length (compress h b) = hn).
Context (block_ok : forall h data n, length h = hn -> 0 < n -> n * block_size <= Z.of_nat (length data) -> bytes_ok data ->
  block_func h data n = fold_left compress (chunks (Z.to_nat n) (Z.to_nat block_size) data) h).

Let bs : nat := Z.to_nat block_size.

(** The context that has absorbed [m] *)
Definition md32_of (h0 m : list Z) : md32 :=
  let '(h, r) := absorb compress bs h0 m in
  mk_md32 h (r ++ repeat 0 (bs - length r)) (Z.of_nat (length r)) (u32 (bit_length m / 2 ^ 32)) (u32 (bit_length m)).

Lemma fold_length l : forall h, length h = hn -> length (fold_left compress l h) = hn.
Proof. induction l as [|b l IH]; intros h L; cbn [fold_left]; auto. Qed.

Lemma absorb_h_length h m : length h = hn -> length (fst (absorb compress bs h m)) = hn.
Proof. apply fold_length. Qed.

Lemma md32_blocks_spec h inp Nh Nl : length h = hn -> bytes_ok inp -> md32_blocks block_func block_size (mk_md32 h (repeat 0 bs) 0 Nh Nl) inp =
  let '(h, r) := absorb compress bs h inp in mk_md32 h (r ++ repeat 0 (bs - length r)) (Z.of_nat (length r)) Nh Nl.
Proof.
  intros Lh Hb. unfold md32_blocks, absorb. cbn [md_h md_data md_num md_Nh md_Nl].
  assert (Hn : Z.of_nat (length inp) / block_size = Z.of_nat (length inp / bs)).
  { rewrite Nat2Z.inj_div. f_equal. subst bs. lia. }
  rewrite Hn. set (k := (length inp / bs)%nat).
  assert (K : (k * bs <= length inp < k * bs + bs)%nat).
  { subst k. pose proof (Nat.div_mod_eq (length inp) bs). pose proof (Nat.mod_upper_bound (length inp) bs ltac:(subst bs; lia)). lia. }
  assert (Eh : (if 0 <? Z.of_nat k then block_func h inp (Z.of_nat k) else h) = fold_left compress (chunks k bs inp) h).
  { destruct (Z.ltb_spec 0 (Z.of_nat k)).
    - rewrite block_ok, Nat2Z.id by (assumption || (subst bs; lia)). reflexivity.
    - now replace k with 0%nat by lia. }
  assert (Er : (if 0 <? Z.of_nat k then skipn (Z.to_nat (Z.of_nat k * block_size)) inp else inp) = skipn (k * bs) inp).
  { destruct (Z.ltb_spec 0 (Z.of_nat k)); [f_equal; subst bs; lia|]. now replace k with 0%nat by lia. }
  assert (El : (if 0 <? Z.of_nat k then Z.of_nat (length inp) - Z.of_nat k * block_size else Z.of_nat (length inp)) = Z.of_nat (length (skipn (k * bs) inp))).
  { rewrite length_skipn. destruct (Z.ltb_spec 0 (Z.of_nat k)); [subst bs; lia|]. replace k with 0%nat by lia. lia. }
  rewrite Eh, Er, El. set (r := skipn (k * bs) inp).
  assert (Lr : (length r < bs)%nat) by (subst r; rewrite length_skipn; lia).
  destruct (Z.eqb_spec (Z.of_nat (length r)) 0) as [E|E]; cbn [negb].
  - assert (r = []) as -> by (apply length_zero_iff_nil; lia). cbn [length app]. now rewrite Nat.sub_0_r.
  - rewrite (repeat_split 0 bs (length r)) by lia. rewrite splice_0_app by now rewrite repeat_length.
    f_equal. apply wrap_small. unfold word_ok. subst bs. lia.
Qed.

Lemma md32_block_once h data : length h = hn -> length data = bs -> bytes_ok data -> block_func h data 1 = compress h data.
Proof. intros Lh L Hb. rewrite block_ok by (assumption || (subst bs; lia)). change (Z.to_nat 1) with 1%nat. cbn [chunks fold_left]. now rewrite firstn_all2 by (subst bs; lia). Qed.

Lemma wrap_shiftl_wrap w x n : 0 <= n -> 0 <= w -> wrap w (Z.shiftl (wrap w x) n) = wrap w (x * 2 ^ n).
Proof. intros Hn Hw. unfold wrap. rewrite Z.shiftl_mul_pow2 by assumption. apply Zmult_mod_idemp_l. Qed.

(** The buffer has room for one byte at least. *)
Lemma md32_of_num h0 m : 0 <= md_num (md32_of h0 m) < block_size.
Proof.
  unfold md32_of. pose proof (length_absorb compress bs h0 m) as L. destruct (absorb compress bs h0 m) as [h r].
  cbn [md_num snd] in *. rewrite L. pose proof (Nat.mod_upper_bound (length m) bs ltac:(subst bs; lia)). subst bs. lia.
Qed.

(** A context is determined by the bytes absorbed. *)
Lemma crypto_md32_update_spec h0 m inp : length h0 = hn -> bytes_ok m -> bytes_ok inp -> Z.of_nat (length inp) < 2 ^ 64 ->
  crypto_md32_update block_func block_size (md32_of h0 m) inp = md32_of h0 (m ++ inp).
Proof.
  intros Lh Hm Hi Hl. pose proof (absorb_h_length h0 m Lh) as Lh'. unfold md32_of. rewrite absorb_split by (subst bs; lia). rewrite bit_length_app.
  pose proof (absorb_bytes compress bs h0 m Hm) as Br.
  pose proof (length_absorb compress bs h0 m) as Lr.
  destruct (absorb compress bs h0 m) as [h r]. cbn [fst snd] in *.
  assert (Hr : (length r < bs)%nat) by (rewrite Lr; apply Nat.mod_upper_bound; subst bs; lia). clear Lr.
  unfold crypto_md32_update. cbn [md_h md_data md_num md_Nh md_Nl].
  destruct (Z.eqb_spec (Z.of_nat (length inp)) 0) as [E|E].
  { assert (inp = []) as -> by (apply length_zero_iff_nil; lia).
    rewrite app_nil_r, absorb_short by assumption. cbn [length Z.of_nat Z.mul]. now rewrite Z.add_0_r. }
  destruct (count_bits 32 3 (bit_length m) (Z.of_nat (length inp))) as [El Eh]; [lia|unfold bit_length; lia|lia|].
  cbv zeta in El, Eh. rewrite wrap_shiftl_wrap, Z.shiftr_div_pow2 by lia. change (2 ^ (32 - 3)) with (2 ^ 29) in Eh.
  rewrite Eh, El. clear Eh El. set (Nh := u32 (_ / _)). set (Nl := u32 (_ + _)). clearbody Nh Nl.
  destruct (Z.eqb_spec (Z.of_nat (length r)) 0) as [E0|E0]; cbn [negb].
  { assert (r = []) as -> by (apply length_zero_iff_nil; lia). cbn [length app]. rewrite Nat.sub_0_r. now apply md32_blocks_spec. }
  rewrite Nat2Z.id. replace (Z.to_nat (block_size - Z.of_nat (length r))) with (bs - length r)%nat by (subst bs; lia).
  destruct ((block_size <=? Z.of_nat (length inp)) || (block_size <=? u64 (Z.of_nat (length inp) + Z.of_nat (length r)))) eqn:C.
  - assert (L : (bs <= length inp + length r)%nat).
    { destruct (Z.leb_spec block_size (Z.of_nat (length inp))) as [|Hs]; [subst bs; lia|].
      cbn [orb] in C. rewrite wrap_small in C by (unfold word_ok; subst bs; lia). subst bs. lia. }
    rewrite <- (app_nil_r (repeat 0 (bs - length r))), splice_tail by (rewrite ?length_firstn, ?repeat_length; lia).
    rewrite app_nil_r, md32_block_once by (assumption || bytes || (rewrite length_app, length_firstn; lia)). fold bs.
    rewrite md32_blocks_spec by (bytes || now apply compress_length). rewrite <- (firstn_skipn (bs - length r) inp) at 3.
    rewrite app_assoc, absorb_block by (rewrite ?length_app, ?length_firstn; subst bs; lia). reflexivity.
  - apply orb_false_iff in C as [C1 C2]. rewrite wrap_small in C2 by (unfold word_ok; subst bs; lia).
    rewrite absorb_short by (rewrite length_app; subst bs; lia).
    rewrite (repeat_split 0 (bs - length r) (length inp)) by (subst bs; lia).
    rewrite splice_tail by (now rewrite ?repeat_length). rewrite length_app, <- app_assoc, Nat.sub_add_distr.
    f_equal. rewrite !wrap_small; unfold word_ok; subst bs; lia || idtac.
    rewrite wrap_small; unfold word_ok; lia.
Qed.

Definition length_encoding (is_big_endian : bool) (m : list Z) : list Z :=
  if is_big_endian then be_bytes 8 (bit_length m) else le_bytes 8 (bit_length m).

Lemma length_length_encoding be m : length (length_encoding be m) = 8%nat.
Proof. destruct be; [apply length_be_bytes|apply length_le_bytes]. Qed.

Lemma length_encoding_bytes be m : bytes_ok (length_encoding be m).
Proof. destruct be; [apply be_bytes_ok|apply le_bytes_ok]. Qed.

Lemma stored_length_spec (be : bool) m :
  (if be then CRYPTO_store_u32_be (u32 (bit_length m / 2 ^ 32)) ++ CRYPTO_store_u32_be (u32 (bit_length m))
   else CRYPTO_store_u32_le (u32 (bit_length m)) ++ CRYPTO_store_u32_le (u32 (bit_length m / 2 ^ 32))) = length_encoding be m.
Proof.
  destruct be; [rewrite !store_u32_be_spec by (apply wrap_range; lia); apply be_bytes_halves|apply le_bytes_halves].
Qed.

Lemma write_80 r : (length r < bs)%nat ->
  set_nth (length r) 128 (r ++ repeat 0 (bs - length r)) = (r ++ [128]) ++ repeat 0 (bs - length r - 1).
Proof.
  intros L. replace (bs - length r)%nat with (S (bs - length r - 1)) at 1 by lia.
  cbn [repeat]. rewrite set_nth_app, <- app_assoc. reflexivity.
Qed.

(** Writing zeros over zeros *)
Lemma fill_zeros p n j k : length p = n -> (j <= k)%nat -> splice n (repeat 0 j) (p ++ repeat 0 k) = p ++ repeat 0 k.
Proof. intros Lp L. rewrite (repeat_split 0 k j) by assumption. now apply splice_tail. Qed.

Lemma write_enc p q enc : length p = (bs - 8)%nat -> length enc = length q -> splice (bs - 8) enc (p ++ q) = p ++ enc.
Proof. intros Lp L. rewrite <- (app_nil_r q), splice_tail by assumption. now rewrite app_nil_r. Qed.

(** The last blocks are those of the padded message. *)
Lemma crypto_md32_final_spec be h0 m : length h0 = hn -> bytes_ok m ->
  crypto_md32_final block_func block_size be (md32_of h0 m) =
  mk_md32 (hash_blocks compress bs h0 (m ++ padding block_size 8 m (length_encoding be m))) (repeat 0 bs) 0
    (u32 (bit_length m / 2 ^ 32)) (u32 (bit_length m)).
Proof.
  intros Lh Hm. pose proof (absorb_h_length h0 m Lh) as Lh'. unfold md32_of, hash_blocks. rewrite absorb_split by (subst bs; lia).
  pose proof (absorb_bytes compress bs h0 m Hm) as Br.
  pose proof (length_absorb compress bs h0 m) as Lr.
  destruct (absorb compress bs h0 m) as [h r]. cbn [fst snd] in *.
  assert (Hr : (length r < bs)%nat) by (rewrite Lr; apply Nat.mod_upper_bound; subst bs; lia).
  unfold crypto_md32_final, padding. cbn [md_h md_data md_num md_Nh md_Nl]. rewrite stored_length_spec, (pad_zeros block_size 8 m (length r))
    by (lia || (rewrite Lr, Nat2Z.inj_mod; f_equal; subst bs; lia)).
  pose proof (length_length_encoding be m) as Le. pose proof (length_encoding_bytes be m) as Be. set (enc := length_encoding be m) in *. clearbody enc.
  fold bs. change (Z.to_nat 8) with 8%nat. rewrite Nat2Z.id, write_80 by assumption.
  assert (Lp : length (r ++ [128]) = S (length r)) by (rewrite length_app; cbn; lia).
  replace (Z.to_nat (Z.of_nat (length r) + 1)) with (S (length r)) by lia.
  replace (Z.to_nat (block_size - 8)) with (bs - 8)%nat by (subst bs; lia).
  replace (Z.to_nat (block_size - (Z.of_nat (length r) + 1))) with (bs - length r - 1)%nat by (subst bs; lia).
  change (r ++ 128 :: ?z ++ enc) with (r ++ [128] ++ z ++ enc).
  f_equal. destruct (Z.ltb_spec (block_size - 8) (Z.of_nat (length r) + 1)) as [F|F].
  - rewrite (app_assoc r [128] (repeat 0 _ ++ enc)).
    rewrite fill_zeros by lia. rewrite repeat_app. set (b1 := (r ++ [128]) ++ repeat 0 (bs - length r - 1)).
    assert (L1 : length b1 = bs) by (subst b1; rewrite length_app, repeat_length; lia).
    rewrite (md32_block_once h b1) by (assumption || (subst b1; bytes)). change (Z.to_nat 0) with 0%nat. rewrite Z.sub_0_r.
    replace (Z.to_nat (block_size - 8)) with (bs - 8)%nat by (subst bs; lia).
    rewrite <- (firstn_skipn (bs - 8) b1) at 2. rewrite splice_0_app by (rewrite repeat_length, length_firstn; lia).
    rewrite write_enc by (rewrite ?repeat_length, ?length_skipn; subst bs; lia).
    rewrite md32_block_once by (now apply compress_length || bytes || (rewrite length_app, repeat_length; subst bs; lia)).
    rewrite <- (app_assoc (repeat 0 _) (repeat 0 _) enc), (app_assoc (r ++ [128])). fold b1.
    rewrite <- (app_nil_r (repeat 0 (bs - 8) ++ enc)), !absorb_block by (try assumption; rewrite ?length_app, ?repeat_length; subst bs; lia).
    now rewrite absorb_short, app_nil_r by (cbn; subst bs; lia).
  - rewrite (app_assoc r [128] (repeat 0 _ ++ enc)). replace (Z.to_nat (Z.of_nat (length r) + 1)) with (S (length r)) by lia.
    replace (Z.to_nat (block_size - 8 - (Z.of_nat (length r) + 1))) with (bs - length r - 1 - 8)%nat by (subst bs; lia).
    rewrite fill_zeros by lia.
    rewrite (repeat_split 0 (bs - length r - 1) (bs - length r - 1 - 8)), !(app_assoc (r ++ [128])) by lia.
    set (p := (r ++ [128]) ++ repeat 0 (bs - length r - 1 - 8)).
    assert (L1 : length p = (bs - 8)%nat) by (subst p; rewrite length_app, repeat_length; subst bs; lia).
    rewrite write_enc by (rewrite ?repeat_length; subst bs; lia).
    rewrite md32_block_once by (assumption || (subst p; bytes) || (rewrite length_app; subst bs; lia)).
    rewrite <- (app_nil_r (p ++ enc)) at 2. rewrite absorb_block by (rewrite ?length_app; subst bs; lia).
    now rewrite absorb_short by (cbn; subst bs; lia).
Qed.

Definition piece_ok (p : list Z) : Prop := bytes_ok p /\ Z.of_nat (length p) < 2 ^ 64.

Lemma pieces_bytes pieces : Forall piece_ok pieces -> bytes_ok (concat pieces).
Proof. induction 1 as [|p l [Hp _] _ IH]; cbn [concat]; bytes. Qed.
End Stream.

Lemma word_list_check w l : forallb (fun x => (0 <=? x) && (x <? 2 ^ w)) l = true -> Forall (word_ok w) l.
Proof.
  intros H. apply Forall_forall. intros x Hx. rewrite forallb_forall in H. specialize (H x Hx).
  apply andb_prop in H as [H1%Z.leb_le H2%Z.ltb_lt]. split; assumption.
Qed.


(** Absorbing pieces one after the other, for any context that a message
    determines *)
Lemma absorb_pieces {C} (ctx_of : list Z -> C) (update : C -> list Z -> C) :
  (forall m p, bytes_ok m -> piece_ok p -> update (ctx_of m) p = ctx_of (m ++ p)) ->
  forall pieces m, bytes_ok m -> Forall piece_ok pieces -> fold_left update pieces (ctx_of m) = ctx_of (m ++ concat pieces).
Proof.
  intros H. induction pieces as [|p l IH]; intros m Hm F; cbn [fold_left concat]; [now rewrite app_nil_r|].
  apply Forall_cons_iff in F as [Hp Hl]. rewrite H, IH, <- app_assoc by (assumption || (destruct Hp; bytes)). reflexivity.
Qed.

(** The same for contexts that only have to hold what matters *)
Lemma absorb_pieces_rep {C} (rep : list Z -> C -> Prop) (update : C -> list Z -> C) :
  (forall m p c, bytes_ok m -> piece_ok p -> rep m c -> rep (m ++ p) (update c p)) ->
  forall pieces m c, bytes_ok m -> Forall piece_ok pieces -> rep m c -> rep (m ++ concat pieces) (fold_left update pieces c).
Proof.
  intros H. induction pieces as [|p l IH]; intros m c Hm F R; cbn [fold_left concat]; [now rewrite app_nil_r|].
  apply Forall_cons_iff in F as [Hp Hl]. rewrite app_assoc. apply IH; [destruct Hp; bytes|assumption|now apply H].
Qed.

(** The context that the [*_Init] functions make *)
Lemma md32_of_nil block_size compress iv : 8 < block_size ->
  mk_md32 iv (repeat 0 (Z.to_nat block_size)) 0 0 0 = md32_of block_size compress iv [].
Proof.
  intros Hs. unfold md32_of. rewrite absorb_short by (cbn [length]; lia). cbn [length app]. now rewrite Nat.sub_0_r.
Qed.

(** Chaining values are words when the compression ends with a sum of words. *)
Lemma hash_blocks_forall (P : list Z -> Prop) compress bs h m : (forall h b, P h -> P (compress h b)) -> P h -> P (hash_blocks compress bs h m).
Proof.
  intros Hc. unfold hash_blocks, absorb. cbn [fst]. generalize (chunks (length m / bs) bs m). intros l. revert h.
  induction l as [|b l IH]; intros h Hh; cbn [fold_left]; auto.
Qed.
