(* ===== verification/Sha2.v ===== *)
(** * The reference of the SHA-2 family, and the code's way to compute it

    FIPS 180-4, sections 6.2.2 and 6.4.2, for words of [w] bits: the message
    schedule as a list that grows, a round as a shift of the eight working
    variables.  The code keeps the variables in eight registers whose roles
    turn with every round, and the schedule in a ring of sixteen words; the
    second part proves that this is the same, for the code of [sha256.c] and of
    [sha512.c]. *)

From Stdlib Require Import ZArith Lia List Bool.
From S2P Require Import Prelude Endian ChaCha Md32.
Import ListNotations.

(** ** The reference *)

(** The rotation to the right of a word *)
Definition ROTR (w n x : Z) : Z := Z.lor (Z.shiftr x n) (wrap w (Z.shiftl x (w - n))).

Definition SHR (n x : Z) : Z := Z.shiftr x n.

Definition fips_Ch (w x y z : Z) : Z := Z.lxor (Z.land x y) (Z.land (wrap w (Z.lnot x)) z).

Definition fips_Maj (x y z : Z) : Z := Z.lxor (Z.lxor (Z.land x y) (Z.land x z)) (Z.land y z).

(** A list of words from its first ones on, [n] words longer *)
Fixpoint extend (next : list Z -> nat -> Z) (n : nat) (W : list Z) : list Z :=
  match n with
  | O => W
  | S n => extend next n (W ++ [next W (length W)])
  end.

(** *** Lists that grow *)

Section Extend.
Context (next : list Z -> nat -> Z).

Lemma length_extend n : forall W, length (extend next n W) = (length W + n)%nat.
Proof. induction n as [|n IH]; intros W; cbn [extend]; [lia|]. rewrite IH, length_app. cbn. lia. Qed.

Lemma extend_app n : forall W, exists X, extend next n W = W ++ X.
Proof.
  induction n as [|n IH]; intros W; cbn [extend]; [exists []; now rewrite app_nil_r|].
  destruct (IH (W ++ [next W (length W)])) as [X E]. rewrite E, <- app_assoc. eauto.
Qed.

Lemma extend_prefix n W i : (i < length W)%nat -> word (extend next n W) i = word W i.
Proof. intros L. destruct (extend_app n W) as [X ->]. unfold word. now rewrite app_nth1. Qed.

(** New words look back at sixteen words at most. *)
Context (next_local : forall W X, (16 <= length W)%nat -> next (W ++ X) (length W) = next W (length W)).

Lemma extend_next n : forall W t, (16 <= length W <= t)%nat -> (t < length W + n)%nat ->
  word (extend next n W) t = next (extend next n W) t.
Proof.
  induction n as [|n IH]; intros W t L Lt; [lia|]. cbn [extend]. set (x := next W (length W)).
  assert (Lx : length (W ++ [x]) = S (length W)) by (rewrite length_app; cbn; lia).
  destruct (Nat.eq_dec t (length W)) as [->|N]; [|apply IH; lia].
  rewrite extend_prefix by lia. destruct (extend_app n (W ++ [x])) as [X ->].
  rewrite <- app_assoc, next_local by lia. unfold word. rewrite app_nth2, Nat.sub_diag by lia. reflexivity.
Qed.
End Extend.

(** *** The ring *)

Definition ring_ok (t : nat) (W X : list Z) : Prop :=
  length X = 16%nat /\ forall j, (j < t)%nat -> (t <= j + 16)%nat -> word X (j mod 16) = word W j.

Lemma ring_ok_set t W X : ring_ok t W X -> ring_ok (S t) W (set_nth (t mod 16) (word W t) X).
Proof.
  intros [L R]. split; [now rewrite length_set_nth|]. intros j Hj Ht.
  pose proof (Nat.mod_upper_bound t 16 ltac:(lia)).
  destruct (Nat.eq_dec j t) as [->|N].
  - unfold word at 1. rewrite nth_set_nth_eq by lia. reflexivity.
  - unfold word at 1. rewrite nth_set_nth_neq.
    + apply R; lia.
    + intros E. apply N. pose proof (Nat.div_mod_eq t 16). pose proof (Nat.div_mod_eq j 16). lia.
Qed.

Lemma land_15 t : Nat.land t 15 = (t mod 16)%nat.
Proof. apply (Nat.land_ones t 4). Qed.

Lemma ring_at t W X k : ring_ok t W X -> (16 <= t)%nat -> (k < 16)%nat -> word X (Nat.land (t + k) 15) = word W (t - (16 - k)).
Proof.
  intros [L R] Ht Hk. rewrite land_15. rewrite <- R by lia. f_equal.
  replace (t + k)%nat with (t - (16 - k) + 1 * 16)%nat by lia. apply Nat.Div0.mod_add.
Qed.

(** An invariant of a loop over numbers *)
Lemma fold_seq_inv {S} (I : nat -> S -> Prop) (f : S -> nat -> S) n : forall a s,
  (forall t s, (a <= t < a + n)%nat -> I t s -> I (Datatypes.S t) (f s t)) -> I a s -> I (a + n)%nat (fold_left f (seq a n) s).
Proof.
  induction n as [|n IH]; intros a s H Ha; cbn [seq fold_left]; [now rewrite Nat.add_0_r|].
  replace (a + Datatypes.S n)%nat with (Datatypes.S a + n)%nat by lia. apply IH; [intros t u Ht; apply H; lia|apply H; [lia|assumption]].
Qed.

(** The rotations of the standard: the functions of a word *)
Record sha2 := mk_sha2 {
  width : Z;
  Sigma_0 : Z -> Z;
  Sigma_1 : Z -> Z;
  sigma_0 : Z -> Z;
  sigma_1 : Z -> Z;
  constants : list Z
}.

Section Sha2.
Context (P : sha2).

Let w := width P.

(** A new word of the schedule *)
Definition sha2_next (W : list Z) (t : nat) : Z :=
  wrap w (sigma_1 P (word W (t - 2)) + word W (t - 7) + sigma_0 P (word W (t - 15)) + word W (t - 16)).

(** One round on the working variables a, b, c, d, e, f, g, h *)
Definition sha2_round (v : list Z) (K W : Z) : list Z :=
  match v with
  | [a; b; c; d; e; f; g; h] =>
      let T1 := wrap w (h + Sigma_1 P e + fips_Ch w e f g + K + W) in
      let T2 := wrap w (Sigma_0 P a + fips_Maj a b c) in
      [wrap w (T1 + T2); a; b; c; wrap w (d + T1); e; f; g]
  | _ => v
  end.

Definition sha2_rounds (n : nat) (W v : list Z) : list Z :=
  fold_left (fun v t => sha2_round v (word (constants P) t) (word W t)) (seq 0 n) v.

Definition add_lists (x y : list Z) : list Z := map (fun '(a, b) => wrap w (a + b)) (combine x y).

(** The words of a block, big-endian, of [n] bytes each *)
Definition block_words (n : nat) (block : list Z) : list Z := map be_val (chunks 16 n block).

Definition sha2_compress (H block : list Z) : list Z :=
  let rounds := length (constants P) in
  let W := extend sha2_next (rounds - 16) (block_words (Z.to_nat (w / 8)) block) in
  add_lists H (sha2_rounds rounds W H).

(** ** The code's rounds

    The registers are a list, the arguments of the macro their places. *)

Definition reg_round (K T1 : Z) (a b c d e f g h : nat) (v : list Z) : list Z :=
  let T1 := wrap w (T1 + (word v h + Sigma_1 P (word v e) + fips_Ch w (word v e) (word v f) (word v g) + K)) in
  let v := set_nth h (wrap w (Sigma_0 P (word v a) + fips_Maj (word v a) (word v b) (word v c))) v in
  let v := set_nth d (wrap w (word v d + T1)) v in
  set_nth h (wrap w (word v h + T1)) v.

(** The place of the variable [j] in round [t] *)
Definition place (t j : nat) : nat := (j + (8 - t mod 8)) mod 8.

Definition at_places (t : nat) (f : nat -> nat -> nat -> nat -> nat -> nat -> nat -> nat -> list Z -> list Z) : list Z -> list Z :=
  f (place t 0) (place t 1) (place t 2) (place t 3) (place t 4) (place t 5) (place t 6) (place t 7).

Definition reg_first (load : nat -> Z) (t : nat) (s : list Z * list Z) : list Z * list Z :=
  (at_places t (reg_round (word (constants P) t) (load t)) (fst s), set_nth t (load t) (snd s)).

Definition ring_word (t : nat) (X : list Z) : Z :=
  wrap w (word X (Nat.land t 15) + (sigma_0 P (word X (Nat.land (t + 1) 15)) + sigma_1 P (word X (Nat.land (t + 14) 15)) + word X (Nat.land (t + 9) 15))).

Definition reg_next (t : nat) (s : list Z * list Z) : list Z * list Z :=
  (at_places t (reg_round (word (constants P) t) (ring_word t (snd s))) (fst s), set_nth (Nat.land t 15) (ring_word t (snd s)) (snd s)).

(** The variables in their order before round [t] *)
Definition view (t : nat) (v : list Z) : list Z := map (fun j => word v (place t j)) (seq 0 8).

Lemma place_mod t j : place t j = place (t mod 8) j.
Proof. unfold place. now rewrite Nat.Div0.mod_mod. Qed.

Lemma view_mod t v : view t v = view (t mod 8) v.
Proof. unfold view. apply map_ext. intros j. now rewrite place_mod. Qed.

Lemma at_places_mod t f v : at_places t f v = at_places (t mod 8) f v.
Proof. unfold at_places. now rewrite !(place_mod t). Qed.

Lemma length_at_places K T1 t v : length (at_places t (reg_round K T1) v) = length v.
Proof. unfold at_places, reg_round. cbv zeta. now rewrite !length_set_nth. Qed.

Lemma round_sums h s c k x : wrap w (x + (h + s + c + k)) = wrap w (h + s + c + k + x).
Proof. f_equal. lia. Qed.

Lemma wrap_flip a b : wrap w (a + b) = wrap w (b + a).
Proof. f_equal. lia. Qed.

(** A round on the registers is a round on the variables in their order. *)
Lemma view_round K T1 t v : length v = 8%nat -> view (S t) (at_places t (reg_round K T1) v) = sha2_round (view t v) K T1.
Proof.
  intros L. rewrite at_places_mod, (view_mod t).
  rewrite (view_mod (S t)). replace (S t mod 8)%nat with ((t mod 8 + 1) mod 8)%nat
    by (rewrite Nat.Div0.add_mod_idemp_l; f_equal; lia).
  pose proof (Nat.mod_upper_bound t 8 ltac:(lia)) as B. generalize dependent (t mod 8)%nat. intros p B.
  do 8 (destruct v as [|? v]; [discriminate|]). destruct v; [|discriminate]. clear L.
  do 8 (destruct p as [|p]; [cbn; rewrite round_sums; now rewrite (wrap_flip (wrap w (Sigma_0 P _ + _)))|]). lia.
Qed.

(** *** All rounds *)

Context (load : nat -> Z) (W : list Z).

Definition run_ok (h : list Z) (t : nat) (s : list Z * list Z) : Prop :=
  length (fst s) = 8%nat /\ view t (fst s) = sha2_rounds t W h /\ ring_ok t W (snd s).

Lemma sha2_rounds_S t h : sha2_rounds (S t) W h = sha2_round (sha2_rounds t W h) (word (constants P) t) (word W t).
Proof. unfold sha2_rounds. now rewrite seq_S, fold_left_app. Qed.

Lemma view_0 v : length v = 8%nat -> view 0 v = v.
Proof. intros L. do 8 (destruct v as [|? v]; [discriminate|]). destruct v; [reflexivity|discriminate]. Qed.

Lemma run_start h X : length h = 8%nat -> length X = 16%nat -> run_ok h 0 (h, X).
Proof. intros L LX. split; [assumption|]. split; [now apply view_0|]. split; [assumption|]. lia. Qed.

Lemma run_first h t s : (t < 16)%nat -> load t = word W t -> run_ok h t s -> run_ok h (S t) (reg_first load t s).
Proof.
  intros Ht E (L & V & R). unfold reg_first, run_ok. cbn [fst snd].
  pose proof (ring_ok_set t W (snd s) R) as R'. rewrite Nat.mod_small in R' by assumption.
  rewrite length_at_places, view_round, V, E, sha2_rounds_S by assumption. auto.
Qed.

Lemma sha2_next_local X Y : (16 <= length X)%nat -> sha2_next (X ++ Y) (length X) = sha2_next X (length X).
Proof. intros L. unfold sha2_next, word. now rewrite !app_nth1 by lia. Qed.

Lemma run_next h n t s : W = extend sha2_next n (firstn 16 W) -> length (firstn 16 W) = 16%nat ->
  (16 <= t < 16 + n)%nat -> run_ok h t s -> run_ok h (S t) (reg_next t s).
Proof.
  intros EW LW Ht (L & V & R). unfold reg_next, run_ok. cbn [fst snd].
  assert (E : ring_word t (snd s) = word W t).
  { unfold ring_word. rewrite <- (Nat.add_0_r t) at 1. rewrite !(ring_at t W) by (assumption || lia).
    rewrite EW at 5. rewrite extend_next, <- EW by (lia || apply sha2_next_local). unfold sha2_next. f_equal.
    replace (t - (16 - 0))%nat with (t - 16)%nat by lia. replace (t - (16 - 1))%nat with (t - 15)%nat by lia.
    replace (t - (16 - 14))%nat with (t - 2)%nat by lia. replace (t - (16 - 9))%nat with (t - 7)%nat by lia. lia. }
  pose proof (ring_ok_set t W (snd s) R) as R'.
  rewrite land_15, E, length_at_places, view_round, V, sha2_rounds_S by assumption. auto.
Qed.

(** The rounds as the code unrolls them *)
Definition run_all (rounds : nat) (s : list Z * list Z) : list Z * list Z :=
  fold_left (fun s t => reg_next t s) (seq 16 (rounds - 16)) (fold_left (fun s t => reg_first load t s) (seq 0 16) s).

Lemma run_all_spec h X rounds : (16 <= rounds)%nat -> (rounds mod 8 = 0)%nat -> length h = 8%nat -> length X = 16%nat ->
  W = extend sha2_next (rounds - 16) (map load (seq 0 16)) -> fst (run_all rounds (h, X)) = sha2_rounds rounds W h.
Proof.
  intros Hr H8 Lh LX EW.
  assert (L16 : length (map load (seq 0 16)) = 16%nat) by now rewrite length_map.
  assert (F : firstn 16 W = map load (seq 0 16)).
  { apply nth_ext with 0 0; rewrite length_firstn, EW, length_extend, L16; [lia|]. intros i Hi.
    rewrite nth_firstn. replace (i <? 16)%nat with true by (symmetry; apply Nat.ltb_lt; lia).
    apply extend_prefix. lia. }
  assert (I : run_ok h (16 + (rounds - 16)) (run_all rounds (h, X))).
  { unfold run_all. apply (fold_seq_inv (run_ok h)).
    - intros t s Ht. apply run_next with (rounds - 16)%nat; [now rewrite F|now rewrite F|assumption].
    - change 16%nat with (0 + 16)%nat at 1. apply (fold_seq_inv (run_ok h)); [|now apply run_start].
      intros t s Ht. apply run_first; [lia|]. rewrite EW, extend_prefix by lia.
      unfold word. rewrite (nth_indep _ 0 (load 0)), map_nth, seq_nth by lia. reflexivity. }
  replace (16 + (rounds - 16))%nat with rounds in I by lia. destruct I as (L & V & _).
  now rewrite <- V, view_mod, H8, view_0.
Qed.

(** *** A block *)

Lemma length_add_lists x y : length (add_lists x y) = Nat.min (length x) (length y).
Proof. unfold add_lists. now rewrite length_map, length_combine. Qed.

Lemma add_lists_words x y : 0 <= width P -> Forall (word_ok (width P)) (add_lists x y).
Proof. intros Hw. apply Forall_map, Forall_forall. intros [a b] _. now apply wrap_range. Qed.
End Sha2.

(** Rounds that the code writes with other functions *)
Lemma run_all_steps P load step1 step2 rounds s :
  (forall s t, step1 s t = reg_first P load t s) -> (forall s t, step2 s t = reg_next P t s) ->
  fold_left step2 (seq 16 (rounds - 16)) (fold_left step1 (seq 0 16) s) = run_all P load rounds s.
Proof.
  intros H1 H2. unfold run_all.
  assert (E : forall f g l s, (forall s t, f s t = g s t :> list Z * list Z) -> fold_left f l s = fold_left g (l : list nat) s).
  { intros f g l. induction l as [|t l IH]; intros u H; cbn [fold_left]; [reflexivity|]. now rewrite H, IH. }
  rewrite (E step2 (fun s t => reg_next P t s)) by assumption. f_equal. now apply E.
Qed.

Lemma length_sha2_rounds P n W v : length (sha2_rounds P n W v) = length v.
Proof.
  unfold sha2_rounds. generalize (seq 0 n). intros l. revert v. induction l as [|t l IH]; intros v; cbn [fold_left]; [reflexivity|].
  rewrite IH. do 9 (destruct v as [|? v]; [reflexivity|]). reflexivity.
Qed.

Lemma length_sha2_compress P H block : length (sha2_compress P H block) = length H.
Proof. unfold sha2_compress. rewrite length_add_lists, length_sha2_rounds. apply Nat.min_id. Qed.

(** Chaining values are words. *)
Lemma hash_blocks_words P bs h m : 0 <= width P -> Forall (word_ok (width P)) h -> Forall (word_ok (width P)) (hash_blocks (sha2_compress P) bs h m).
Proof.
  intros Hw. unfold hash_blocks, absorb. cbn [fst]. generalize (chunks (length m / bs) bs m). intros l. revert h.
  induction l as [|b l IH]; intros h Hh; cbn [fold_left]; [assumption|]. apply IH. now apply add_lists_words.
Qed.

Lemma length_hash_blocks P bs h m : length (hash_blocks (sha2_compress P) bs h m) = length h.
Proof.
  unfold hash_blocks, absorb. cbn [fst]. generalize (chunks (length m / bs) bs m). intros l. revert h.
  induction l as [|b l IH]; intros h; cbn [fold_left]; [reflexivity|]. now rewrite IH, length_sha2_compress.
Qed.

(** The words of a block that starts a byte string *)
Lemma chunks_nth n : forall k i l, (i < k)%nat -> nth i (chunks k n l) [] = firstn n (skipn (n * i) l).
Proof.
  induction k as [|k IH]; intros i l L; [lia|]. destruct i as [|i]; cbn [chunks nth]; [now rewrite Nat.mul_0_r|].
  rewrite IH, skipn_skipn by lia. do 2 f_equal. lia.
Qed.

Lemma length_chunks n k : forall l, length (chunks k n l) = k.
Proof. induction k as [|k IH]; intros l; cbn; auto. Qed.

Lemma block_words_load (val : list Z -> Z) n (load : list Z -> Z) data : (16 * n <= length data)%nat ->
  (forall b, (n <= length b)%nat -> bytes_ok b -> load b = val (firstn n b)) -> bytes_ok data ->
  map val (chunks 16 n (firstn (16 * n) data)) = map (fun i => load (skipn (n * i) data)) (seq 0 16).
Proof.
  intros L H Hd. apply nth_ext with 0 0; [now rewrite !length_map, length_chunks|].
  rewrite length_map, length_chunks. intros i Hi.
  rewrite (nth_indep _ 0 (val [])), map_nth, chunks_nth by (rewrite ?length_map, ?length_chunks; lia).
  rewrite (nth_indep _ 0 (load (skipn (n * 0) data))) by (rewrite length_map, length_seq; lia).
  rewrite (map_nth (fun i => load (skipn (n * i) data))), seq_nth by lia. cbn [Nat.add].
  rewrite H by (rewrite ?length_skipn; bytes || nia). f_equal.
  rewrite skipn_firstn_comm, firstn_firstn. f_equal. nia.
Qed.

(** Sums of the words of a state *)
Lemma length_add_words x : forall y, length (add_words x y) = Nat.min (length x) (length y).
Proof. induction x as [|a x IH]; intros [|b y]; cbn [add_words length Nat.min]; auto. Qed.

Lemma add_words_ok x : forall y, Forall (word_ok 32) (add_words x y).
Proof. induction x as [|a x IH]; intros [|b y]; cbn [add_words]; constructor; auto. apply wrap_range. lia. Qed.
