(* ===== verification/Sha256.v ===== *)
(** * SHA-224 and SHA-256 ([crypto/fipsmodule/sha/sha256.c])

    The portable code, which the app's platform uses.  The variables [a] to [h]
    of a block are a list of eight registers; the arguments of the round macros
    are their places in it.  The rounds are written out as in the code.  The
    reference is FIPS 180-4 ([Sha2]). *)

From Stdlib Require Import ZArith Lia ZifyBool List Bool.
From S2P Require Import Prelude Endian ChaCha Md32 Sha2.
Import ListNotations.

(** ** Definitions *)

Definition SHA256_CBLOCK : Z := 64.
Definition SHA224_DIGEST_LENGTH : Z := 28.
Definition SHA256_DIGEST_LENGTH : Z := 32.

(** In decimal: 0x428a2f98 to 0xc67178f2 *)
Definition K256 : list Z :=
  [1116352408; 1899447441; 3049323471; 3921009573; 961987163; 1508970993;
   2453635748; 2870763221; 3624381080; 310598401; 607225278; 1426881987;
   1925078388; 2162078206; 2614888103; 3248222580; 3835390401; 4022224774;
   264347078; 604807628; 770255983; 1249150122; 1555081692; 1996064986;
   2554220882; 2821834349; 2952996808; 3210313671; 3336571891; 3584528711;
   113926993; 338241895; 666307205; 773529912; 1294757372; 1396182291;
   1695183700; 1986661051; 2177026350; 2456956037; 2730485921; 2820302411;
   3259730800; 3345764771; 3516065817; 3600352804; 4094571909; 275423344;
   430227734; 506948616; 659060556; 883997877; 958139571; 1322822218;
   1537002063; 1747873779; 1955562222; 2024104815; 2227730452; 2361852424;
   2428436474; 2756734187; 3204031479; 3329325298].

Definition Sigma0 (x : Z) : Z := Z.lxor (Z.lxor (CRYPTO_rotr_u32 x 2) (CRYPTO_rotr_u32 x 13)) (CRYPTO_rotr_u32 x 22).
Definition Sigma1 (x : Z) : Z := Z.lxor (Z.lxor (CRYPTO_rotr_u32 x 6) (CRYPTO_rotr_u32 x 11)) (CRYPTO_rotr_u32 x 25).
Definition sigma0 (x : Z) : Z := Z.lxor (Z.lxor (CRYPTO_rotr_u32 x 7) (CRYPTO_rotr_u32 x 18)) (Z.shiftr x 3).
Definition sigma1 (x : Z) : Z := Z.lxor (Z.lxor (CRYPTO_rotr_u32 x 17) (CRYPTO_rotr_u32 x 19)) (Z.shiftr x 10).

Definition Ch (x y z : Z) : Z := Z.lxor (Z.land x y) (Z.land (u32 (Z.lnot x)) z).
Definition Maj (x y z : Z) : Z := Z.lxor (Z.lxor (Z.land x y) (Z.land x z)) (Z.land y z).

Definition ROUND_00_15 (i : nat) (T1 : Z) (a b c d e f g h : nat) (v : list Z) : list Z :=
  let T1 := u32 (T1 + (word v h + Sigma1 (word v e) + Ch (word v e) (word v f) (word v g) + word K256 i)) in
  let v := set_nth h (u32 (Sigma0 (word v a) + Maj (word v a) (word v b) (word v c))) v in
  let v := set_nth d (u32 (word v d + T1)) v in
  set_nth h (u32 (word v h + T1)) v.

(** [T1 = X[i] = CRYPTO_load_u32_be(data)], and the round; the state is that of
    the registers and of the array [X]. *)
Definition first_round (data : list Z) (i : nat) (a b c d e f g h : nat) (s : list Z * list Z) : list Z * list Z :=
  let T1 := CRYPTO_load_u32_be (skipn (4 * i) data) in
  (ROUND_00_15 i T1 a b c d e f g h (fst s), set_nth i T1 (snd s)).

Definition ROUND_16_63 (i : nat) (a b c d e f g h : nat) (s : list Z * list Z) : list Z * list Z :=
  let X := snd s in
  let s0 := sigma0 (word X (Nat.land (i + 1) 15)) in
  let s1 := sigma1 (word X (Nat.land (i + 14) 15)) in
  let T1 := u32 (word X (Nat.land i 15) + (s0 + s1 + word X (Nat.land (i + 9) 15))) in
  (ROUND_00_15 i T1 a b c d e f g h (fst s), set_nth (Nat.land i 15) T1 X).

(** The rounds 0 to 15 *)
Definition first_rounds (data : list Z) (s : list Z * list Z) : list Z * list Z :=
  let s := first_round data 0 0 1 2 3 4 5 6 7 s in
  let s := first_round data 1 7 0 1 2 3 4 5 6 s in
  let s := first_round data 2 6 7 0 1 2 3 4 5 s in
  let s := first_round data 3 5 6 7 0 1 2 3 4 s in
  let s := first_round data 4 4 5 6 7 0 1 2 3 s in
  let s := first_round data 5 3 4 5 6 7 0 1 2 s in
  let s := first_round data 6 2 3 4 5 6 7 0 1 s in
  let s := first_round data 7 1 2 3 4 5 6 7 0 s in
  let s := first_round data 8 0 1 2 3 4 5 6 7 s in
  let s := first_round data 9 7 0 1 2 3 4 5 6 s in
  let s := first_round data 10 6 7 0 1 2 3 4 5 s in
  let s := first_round data 11 5 6 7 0 1 2 3 4 s in
  let s := first_round data 12 4 5 6 7 0 1 2 3 s in
  let s := first_round data 13 3 4 5 6 7 0 1 2 s in
  let s := first_round data 14 2 3 4 5 6 7 0 1 s in
  let s := first_round data 15 1 2 3 4 5 6 7 0 s in
  s.

(** The body of the loop over the rounds from 16 on *)
Definition eight_rounds (i : nat) (s : list Z * list Z) : list Z * list Z :=
  let s := ROUND_16_63 (i + 0) 0 1 2 3 4 5 6 7 s in
  let s := ROUND_16_63 (i + 1) 7 0 1 2 3 4 5 6 s in
  let s := ROUND_16_63 (i + 2) 6 7 0 1 2 3 4 5 s in
  let s := ROUND_16_63 (i + 3) 5 6 7 0 1 2 3 4 s in
  let s := ROUND_16_63 (i + 4) 4 5 6 7 0 1 2 3 s in
  let s := ROUND_16_63 (i + 5) 3 4 5 6 7 0 1 2 s in
  let s := ROUND_16_63 (i + 6) 2 3 4 5 6 7 0 1 s in
  let s := ROUND_16_63 (i + 7) 1 2 3 4 5 6 7 0 s in
  s.

(** The body of the loop over the blocks; [X] is not initialised. *)
Definition sha256_block (state data : list Z) : list Z :=
  let s := first_rounds data (state, repeat 0 16) in
  let s := fold_left (fun s i => eight_rounds i s) [16; 24; 32; 40; 48; 56]%nat s in
  add_words state (fst s).

Fixpoint block_loop (num : nat) (state data : list Z) : list Z :=
  match num with
  | O => state
  | S num => block_loop num (sha256_block state data) (skipn 64 data)
  end.

Definition sha256_block_data_order (state data : list Z) (num : Z) : list Z := block_loop (Z.to_nat num) state data.

Definition SHA256_TransformBlocks (state data : list Z) (num_blocks : Z) : list Z :=
  sha256_block_data_order state data num_blocks.

(** [sha256_state_st] *)
Record SHA256_CTX := mk_sha256 { md : md32; md_len : Z }.

Definition SHA224_Init : SHA256_CTX :=
  mk_sha256 (mk_md32
    [0xc1059ed8; 0x367cd507; 0x3070dd17; 0xf70e5939; 0xffc00b31; 0x68581511; 0x64f98fa7; 0xbefa4fa4]
    (repeat 0 64) 0 0 0) SHA224_DIGEST_LENGTH.

Definition SHA256_Init : SHA256_CTX :=
  mk_sha256 (mk_md32
    [0x6a09e667; 0xbb67ae85; 0x3c6ef372; 0xa54ff53a; 0x510e527f; 0x9b05688c; 0x1f83d9ab; 0x5be0cd19]
    (repeat 0 64) 0 0 0) SHA256_DIGEST_LENGTH.

Definition SHA256_Transform (c : SHA256_CTX) (data : list Z) : SHA256_CTX :=
  let m := md c in
  mk_sha256 (mk_md32 (sha256_block_data_order (md_h m) data 1) (md_data m) (md_num m) (md_Nh m) (md_Nl m)) (md_len c).

Definition SHA256_Update (c : SHA256_CTX) (data : list Z) : SHA256_CTX :=
  mk_sha256 (crypto_md32_update sha256_block_data_order SHA256_CBLOCK (md c) data) (md_len c).

Definition SHA224_Update (ctx : SHA256_CTX) (data : list Z) : SHA256_CTX := SHA256_Update ctx data.

(** [None] is the result 0; the output is what is written to [out]. *)
Definition sha256_final_impl (c : SHA256_CTX) : option (list Z) * SHA256_CTX :=
  let c := mk_sha256 (crypto_md32_final sha256_block_data_order SHA256_CBLOCK true (md c)) (md_len c) in
  if SHA256_DIGEST_LENGTH <? md_len c then (None, c)
  else
    let out_words := md_len c / 4 in
    (Some (concat (map CRYPTO_store_u32_be (firstn (Z.to_nat out_words) (md_h (md c))))), c).

Definition SHA256_Final (c : SHA256_CTX) : option (list Z) * SHA256_CTX := sha256_final_impl c.

(** An assertion that fails counts as the result 0. *)
Definition SHA224_Final (ctx : SHA256_CTX) : option (list Z) * SHA256_CTX :=
  if md_len ctx =? SHA224_DIGEST_LENGTH then sha256_final_impl ctx else (None, ctx).

Definition SHA224 (data : list Z) : option (list Z) := fst (SHA224_Final (SHA224_Update SHA224_Init data)).
Definition SHA256 (data : list Z) : option (list Z) := fst (SHA256_Final (SHA256_Update SHA256_Init data)).

(** ** The reference: FIPS 180-4, sections 4.1.2, 5.3 and 6.2 *)

Definition fips256 : sha2 := mk_sha2 32
  (fun x => Z.lxor (Z.lxor (ROTR 32 2 x) (ROTR 32 13 x)) (ROTR 32 22 x))
  (fun x => Z.lxor (Z.lxor (ROTR 32 6 x) (ROTR 32 11 x)) (ROTR 32 25 x))
  (fun x => Z.lxor (Z.lxor (ROTR 32 7 x) (ROTR 32 18 x)) (SHR 3 x))
  (fun x => Z.lxor (Z.lxor (ROTR 32 17 x) (ROTR 32 19 x)) (SHR 10 x))
  K256.

Definition sha256_words (H0 m : list Z) : list Z :=
  hash_blocks (sha2_compress fips256) 64 H0 (m ++ padding 64 8 m (be_bytes 8 (bit_length m))).

Definition sha256_hash (m : list Z) : list Z := concat (map (be_bytes 4) (sha256_words (md_h (md SHA256_Init)) m)).

Definition sha224_hash (m : list Z) : list Z := concat (map (be_bytes 4) (firstn 7 (sha256_words (md_h (md SHA224_Init)) m))).

(** The example of the standard: the hash of "abc" *)
Example sha256_abc : SHA256 [97; 98; 99] =
  Some (be_bytes 32 0xba7816bf8f01cfea414140de5dae2223b00361a396177a9cb410ff61f20015ad).
Proof. vm_compute. reflexivity. Qed.

(** ** Blocks *)

Definition step_first (data : list Z) (s : list Z * list Z) (t : nat) : list Z * list Z :=
  first_round data t (place t 0) (place t 1) (place t 2) (place t 3) (place t 4) (place t 5) (place t 6) (place t 7) s.

Definition step_next (s : list Z * list Z) (t : nat) : list Z * list Z :=
  ROUND_16_63 t (place t 0) (place t 1) (place t 2) (place t 3) (place t 4) (place t 5) (place t 6) (place t 7) s.

Lemma sha256_rounds_unrolled data s :
  fold_left (fun s i => eight_rounds i s) [16; 24; 32; 40; 48; 56]%nat (first_rounds data s) =
  run_all fips256 (fun i => CRYPTO_load_u32_be (skipn (4 * i) data)) 64 s.
Proof.
  rewrite <- (run_all_steps _ _ (step_first data) step_next) by (intros; reflexivity). change (64 - 16)%nat with 48%nat.
  cbv [fold_left seq first_rounds eight_rounds step_first step_next]. reflexivity.
Qed.

Lemma add_words_lists x : forall y, add_words x y = add_lists fips256 x y.
Proof. induction x as [|a x IH]; intros [|b y]; cbn [add_words]; [reflexivity..|]. now rewrite IH. Qed.

Lemma sha256_block_spec state data : length state = 8%nat -> (64 <= length data)%nat -> bytes_ok data ->
  sha256_block state data = sha2_compress fips256 state (firstn 64 data).
Proof.
  intros L Ld Hd. unfold sha256_block, sha2_compress. rewrite sha256_rounds_unrolled, add_words_lists.
  change (length (constants fips256)) with 64%nat. change (Z.to_nat (width fips256 / 8)) with 4%nat. f_equal.
  rewrite (run_all_spec _ _ (extend (sha2_next fips256) 48 (map (fun i => CRYPTO_load_u32_be (skipn (4 * i) data)) (seq 0 16))))
    by (reflexivity || assumption || lia).
  cbv zeta. f_equal. change (64 - 16)%nat with 48%nat. f_equal. symmetry.
  apply (block_words_load be_val 4 CRYPTO_load_u32_be); [lia|apply load_u32_be_spec|assumption].
Qed.

Lemma sha256_block_loop_spec n : forall state data, length state = 8%nat -> (n * 64 <= length data)%nat -> bytes_ok data ->
  block_loop n state data = fold_left (sha2_compress fips256) (chunks n 64 data) state.
Proof.
  induction n as [|n IH]; intros state data L Ld Hd; cbn [block_loop chunks fold_left]; [reflexivity|].
  rewrite sha256_block_spec by (assumption || lia).
  apply IH; [now rewrite length_sha2_compress|rewrite length_skipn; lia|bytes].
Qed.

(** ** Messages in pieces *)

Lemma blocks_ok h data n : length h = 8%nat -> 0 < n -> n * SHA256_CBLOCK <= Z.of_nat (length data) -> bytes_ok data ->
  sha256_block_data_order h data n = fold_left (sha2_compress fips256) (chunks (Z.to_nat n) (Z.to_nat SHA256_CBLOCK) data) h.
Proof. intros L Hn Hl Hd. apply sha256_block_loop_spec; [assumption| |assumption]. unfold SHA256_CBLOCK in *. lia. Qed.

(** The context that has absorbed [m] *)
Definition sha256_of (iv : list Z) (len : Z) (m : list Z) : SHA256_CTX := mk_sha256 (md32_of SHA256_CBLOCK (sha2_compress fips256) iv m) len.

Lemma sha256_update_of iv len m p : length iv = 8%nat -> bytes_ok m -> piece_ok p ->
  SHA256_Update (sha256_of iv len m) p = sha256_of iv len (m ++ p).
Proof.
  intros Li Hm [Hp Lp]. unfold SHA256_Update, sha256_of. cbn [md md_len]. f_equal.
  apply crypto_md32_update_spec with 8%nat; try assumption; [unfold SHA256_CBLOCK; lia| |exact blocks_ok].
  intros h b L. now rewrite length_sha2_compress.
Qed.

Lemma concat_store_u32 l : Forall (word_ok 32) l -> concat (map CRYPTO_store_u32_be l) = concat (map (be_bytes 4) l).
Proof. intros H. f_equal. apply map_ext_in. intros v Hv. rewrite Forall_forall in H. now apply store_u32_be_spec, H. Qed.

Lemma sha256_final_of iv len m : length iv = 8%nat -> Forall (word_ok 32) iv -> bytes_ok m -> len <= SHA256_DIGEST_LENGTH ->
  fst (sha256_final_impl (sha256_of iv len m)) = Some (concat (map (be_bytes 4) (firstn (Z.to_nat (len / 4)) (sha256_words iv m)))).
Proof.
  intros Li Wi Hm Hl. unfold sha256_final_impl, sha256_of. cbn [md md_len].
  rewrite crypto_md32_final_spec with (hn := 8%nat);
    [|unfold SHA256_CBLOCK; lia|intros; now rewrite length_sha2_compress|exact blocks_ok|assumption..].
  destruct (Z.ltb_spec SHA256_DIGEST_LENGTH len); [lia|]. cbn [fst md_h]. f_equal. apply concat_store_u32.
  rewrite <- (firstn_skipn (Z.to_nat (len / 4))) in Wi.
  assert (W : Forall (word_ok 32) (sha256_words iv m)) by (apply (hash_blocks_words fips256); [cbn; lia|];
    now rewrite firstn_skipn in Wi).
  rewrite <- (firstn_skipn (Z.to_nat (len / 4)) (sha256_words iv m)) in W. now apply Forall_app in W.
Qed.

Definition IV224 : list Z := md_h (md SHA224_Init).
Definition IV256 : list Z := md_h (md SHA256_Init).

Lemma sha256_pieces iv len pieces : forallb (fun x => (0 <=? x) && (x <? 2 ^ 32)) iv = true -> length iv = 8%nat ->
  len <= SHA256_DIGEST_LENGTH -> Forall piece_ok pieces ->
  fst (sha256_final_impl (fold_left SHA256_Update pieces (sha256_of iv len []))) =
  Some (concat (map (be_bytes 4) (firstn (Z.to_nat (len / 4)) (sha256_words iv (concat pieces))))) /\
  md_len (fold_left SHA256_Update pieces (sha256_of iv len [])) = len.
Proof.
  intros Hw Hi Hl Hp. rewrite (absorb_pieces (sha256_of iv len) SHA256_Update);
    [|intros; now apply sha256_update_of|constructor|assumption].
  split; [|reflexivity]. apply sha256_final_of; [assumption|now apply word_list_check|now apply pieces_bytes|assumption].
Qed.

Lemma length_sha256_words iv m : length (sha256_words iv m) = length iv.
Proof. apply length_hash_blocks. Qed.

(** C26: for all pieces of less than 2^64 bytes, [SHA256_Init], an update with
    each, and [SHA256_Final] write the SHA-256 hash of FIPS 180-4 of their
    concatenation - the message schedule and the 64 rounds for every block of
    the padded message, however the pieces are cut - and so do the functions of
    SHA-224, with 28 bytes. *)
Theorem SHA256_correct (pieces : list (list Z)) (pieces_ok : Forall piece_ok pieces) :
  fst (SHA256_Final (fold_left SHA256_Update pieces SHA256_Init)) = Some (sha256_hash (concat pieces)) /\
  fst (SHA224_Final (fold_left SHA224_Update pieces SHA224_Init)) = Some (sha224_hash (concat pieces)).
Proof.
  change SHA256_Init with (sha256_of IV256 SHA256_DIGEST_LENGTH []). change SHA224_Init with (sha256_of IV224 SHA224_DIGEST_LENGTH []).
  split.
  - unfold SHA256_Final. rewrite (proj1 (sha256_pieces IV256 _ pieces eq_refl eq_refl ltac:(easy) pieces_ok)).
    rewrite firstn_all2 by (rewrite length_sha256_words; cbn; lia). reflexivity.
  - change SHA224_Update with SHA256_Update. unfold SHA224_Final.
    destruct (sha256_pieces IV224 SHA224_DIGEST_LENGTH pieces eq_refl eq_refl ltac:(easy) pieces_ok) as [E ->]. exact E.
Qed.

Lemma SHA256_correct_witness :
  fst (SHA256_Final (fold_left SHA256_Update [[97]; [98; 99]] SHA256_Init)) = Some (sha256_hash [97; 98; 99]).
Proof.
  refine (proj1 (SHA256_correct [[97]; [98; 99]] _)).
  apply Forall_cons; [|apply Forall_cons; [|apply Forall_nil]]; split; now (apply bytes_ok_check || vm_compute).
Defined.
