(* ===== verification/Sha512.v ===== *)
(** * SHA-384, SHA-512 and SHA-512/256 ([crypto/fipsmodule/sha/sha512.c])

    The portable code for 64-bit platforms.  The file has a collector and a
    padding of its own, for blocks of 128 bytes and lengths of 128 bits; its
    buffer is not cleared.  The registers are as in [Sha256], with sixteen
    rounds in a body of the loop.  The reference is FIPS 180-4 ([Sha2]). *)

From Stdlib Require Import ZArith Lia ZifyBool List Bool.
From S2P Require Import Prelude Endian ChaCha Md32 Sha2.
Import ListNotations.

(** ** Definitions *)

Definition SHA384_DIGEST_LENGTH : Z := 48.
Definition SHA512_DIGEST_LENGTH : Z := 64.
Definition SHA512_256_DIGEST_LENGTH : Z := 32.

Definition K512 : list Z :=
  [0x428a2f98d728ae22; 0x7137449123ef65cd; 0xb5c0fbcfec4d3b2f; 0xe9b5dba58189dbbc;
   0x3956c25bf348b538; 0x59f111f1b605d019; 0x923f82a4af194f9b; 0xab1c5ed5da6d8118;
   0xd807aa98a3030242; 0x12835b0145706fbe; 0x243185be4ee4b28c; 0x550c7dc3d5ffb4e2;
   0x72be5d74f27b896f; 0x80deb1fe3b1696b1; 0x9bdc06a725c71235; 0xc19bf174cf692694;
   0xe49b69c19ef14ad2; 0xefbe4786384f25e3; 0x0fc19dc68b8cd5b5; 0x240ca1cc77ac9c65;
   0x2de92c6f592b0275; 0x4a7484aa6ea6e483; 0x5cb0a9dcbd41fbd4; 0x76f988da831153b5;
   0x983e5152ee66dfab; 0xa831c66d2db43210; 0xb00327c898fb213f; 0xbf597fc7beef0ee4;
   0xc6e00bf33da88fc2; 0xd5a79147930aa725; 0x06ca6351e003826f; 0x142929670a0e6e70;
   0x27b70a8546d22ffc; 0x2e1b21385c26c926; 0x4d2c6dfc5ac42aed; 0x53380d139d95b3df;
   0x650a73548baf63de; 0x766a0abb3c77b2a8; 0x81c2c92e47edaee6; 0x92722c851482353b;
   0xa2bfe8a14cf10364; 0xa81a664bbc423001; 0xc24b8b70d0f89791; 0xc76c51a30654be30;
   0xd192e819d6ef5218; 0xd69906245565a910; 0xf40e35855771202a; 0x106aa07032bbd1b8;
   0x19a4c116b8d2d0c8; 0x1e376c085141ab53; 0x2748774cdf8eeb99; 0x34b0bcb5e19b48a8;
   0x391c0cb3c5c95a63; 0x4ed8aa4ae3418acb; 0x5b9cca4f7763e373; 0x682e6ff3d6b2b8a3;
   0x748f82ee5defb2fc; 0x78a5636f43172f60; 0x84c87814a1f0ab72; 0x8cc702081a6439ec;
   0x90befffa23631e28; 0xa4506cebde82bde9; 0xbef9a3f7b2c67915; 0xc67178f2e372532b;
   0xca273eceea26619c; 0xd186b8c721c0c207; 0xeada7dd6cde0eb1e; 0xf57d4f7fee6ed178;
   0x06f067aa72176fba; 0x0a637dc5a2c898a6; 0x113f9804bef90dae; 0x1b710b35131c471b;
   0x28db77f523047d84; 0x32caab7b40c72493; 0x3c9ebe0a15c9bebc; 0x431d67c49c100d4c;
   0x4cc5d4becb3e42b6; 0x597f299cfc657e2a; 0x5fcb6fab3ad6faec; 0x6c44198c4a475817].

Definition Sigma0 (x : Z) : Z := Z.lxor (Z.lxor (CRYPTO_rotr_u64 x 28) (CRYPTO_rotr_u64 x 34)) (CRYPTO_rotr_u64 x 39).
Definition Sigma1 (x : Z) : Z := Z.lxor (Z.lxor (CRYPTO_rotr_u64 x 14) (CRYPTO_rotr_u64 x 18)) (CRYPTO_rotr_u64 x 41).
Definition sigma0 (x : Z) : Z := Z.lxor (Z.lxor (CRYPTO_rotr_u64 x 1) (CRYPTO_rotr_u64 x 8)) (Z.shiftr x 7).
Definition sigma1 (x : Z) : Z := Z.lxor (Z.lxor (CRYPTO_rotr_u64 x 19) (CRYPTO_rotr_u64 x 61)) (Z.shiftr x 6).

Definition Ch (x y z : Z) : Z := Z.lxor (Z.land x y) (Z.land (u64 (Z.lnot x)) z).
Definition Maj (x y z : Z) : Z := Z.lxor (Z.lxor (Z.land x y) (Z.land x z)) (Z.land y z).

Definition ROUND_00_15 (i : nat) (T1 : Z) (a b c d e f g h : nat) (v : list Z) : list Z :=
  let T1 := u64 (T1 + (word v h + Sigma1 (word v e) + Ch (word v e) (word v f) (word v g) + word K512 i)) in
  let v := set_nth h (u64 (Sigma0 (word v a) + Maj (word v a) (word v b) (word v c))) v in
  let v := set_nth d (u64 (word v d + T1)) v in
  set_nth h (u64 (word v h + T1)) v.

(** [T1 = X[i] = CRYPTO_load_u64_be(in + i * 8)], and the round *)
Definition first_round (data : list Z) (i : nat) (a b c d e f g h : nat) (s : list Z * list Z) : list Z * list Z :=
  let T1 := CRYPTO_load_u64_be (skipn (8 * i) data) in
  (ROUND_00_15 i T1 a b c d e f g h (fst s), set_nth i T1 (snd s)).

Definition ROUND_16_80 (i j : nat) (a b c d e f g h : nat) (s : list Z * list Z) : list Z * list Z :=
  let X := snd s in
  let s0 := sigma0 (word X (Nat.land (j + 1) 15)) in
  let s1 := sigma1 (word X (Nat.land (j + 14) 15)) in
  let T1 := u64 (word X (Nat.land j 15) + (s0 + s1 + word X (Nat.land (j + 9) 15))) in
  (ROUND_00_15 (i + j) T1 a b c d e f g h (fst s), set_nth (Nat.land j 15) T1 X).

(** The rounds 0 to 15 *)
Definition first_rounds (data : list Z) (s : list Z * list Z) : list Z * list Z :=
  let s := first_round data 0 0 1 2 3 4 5 6 7 s in
  let s := first_round data 1 7 0 1 2 3 4 5 6 s in
  let s := first_round data 2 6 7 0 1 2 3 4 5 s in
  let s := first_round data 3 5 6 7 0 1 2 3 4 s in
  let s := first_round data 4 4 5 6 7 0 1 2 3 s in
  let s := first_round data 5 3 4 5 6 7 0 1 2 s in
  let s := first_round data 6 2 3 4 5 6 7 0 1 s in
  let s := first_round data 7 1 2 3 4 5 6 7 0 s in
  let s := first_round data 8 0 1 2 3 4 5 6 7 s in
  let s := first_round data 9 7 0 1 2 3 4 5 6 s in
  let s := first_round data 10 6 7 0 1 2 3 4 5 s in
  let s := first_round data 11 5 6 7 0 1 2 3 4 s in
  let s := first_round data 12 4 5 6 7 0 1 2 3 s in
  let s := first_round data 13 3 4 5 6 7 0 1 2 s in
  let s := first_round data 14 2 3 4 5 6 7 0 1 s in
  let s := first_round data 15 1 2 3 4 5 6 7 0 s in
  s.

(** The body of the loop over the rounds from 16 on *)
Definition sixteen_rounds (i : nat) (s : list Z * list Z) : list Z * list Z :=
  let s := ROUND_16_80 i 0 0 1 2 3 4 5 6 7 s in
  let s := ROUND_16_80 i 1 7 0 1 2 3 4 5 6 s in
  let s := ROUND_16_80 i 2 6 7 0 1 2 3 4 5 s in
  let s := ROUND_16_80 i 3 5 6 7 0 1 2 3 4 s in
  let s := ROUND_16_80 i 4 4 5 6 7 0 1 2 3 s in
  let s := ROUND_16_80 i 5 3 4 5 6 7 0 1 2 s in
  let s := ROUND_16_80 i 6 2 3 4 5 6 7 0 1 s in
  let s := ROUND_16_80 i 7 1 2 3 4 5 6 7 0 s in
  let s := ROUND_16_80 i 8 0 1 2 3 4 5 6 7 s in
  let s := ROUND_16_80 i 9 7 0 1 2 3 4 5 6 s in
  let s := ROUND_16_80 i 10 6 7 0 1 2 3 4 5 s in
  let s := ROUND_16_80 i 11 5 6 7 0 1 2 3 4 s in
  let s := ROUND_16_80 i 12 4 5 6 7 0 1 2 3 s in
  let s := ROUND_16_80 i 13 3 4 5 6 7 0 1 2 s in
  let s := ROUND_16_80 i 14 2 3 4 5 6 7 0 1 s in
  let s := ROUND_16_80 i 15 1 2 3 4 5 6 7 0 s in
  s.

Fixpoint add_words64 (x y : list Z) : list Z :=
  match x, y with
  | a :: x, b :: y => u64 (a + b) :: add_words64 x y
  | _, _ => []
  end.

(** The body of the loop over the blocks; [X] is not initialised. *)
Definition sha512_block (state data : list Z) : list Z :=
  let s := first_rounds data (state, repeat 0 16) in
  let s := fold_left (fun s i => sixteen_rounds i s) [16; 32; 48; 64]%nat s in
  add_words64 state (fst s).

Fixpoint block_loop (num : nat) (state data : list Z) : list Z :=
  match num with
  | O => state
  | S num => block_loop num (sha512_block state data) (skipn 128 data)
  end.

Definition sha512_block_data_order (state data : list Z) (num : Z) : list Z := block_loop (Z.to_nat num) state data.

(** [sha512_state_st] *)
Record SHA512_CTX := mk_sha512 {
  h : list Z;
  Nl : Z;
  Nh : Z;
  p : list Z;
  num : Z;
  md_len : Z
}.

(** The buffer [p] of the context keeps what it held. *)
Definition SHA384_Init (p : list Z) : SHA512_CTX :=
  mk_sha512
    [0xcbbb9d5dc1059ed8; 0x629a292a367cd507; 0x9159015a3070dd17; 0x152fecd8f70e5939;
   0x67332667ffc00b31; 0x8eb44a8768581511; 0xdb0c2e0d64f98fa7; 0x47b5481dbefa4fa4]
    0 0 p 0 SHA384_DIGEST_LENGTH.

Definition SHA512_Init (p : list Z) : SHA512_CTX :=
  mk_sha512
    [0x6a09e667f3bcc908; 0xbb67ae8584caa73b; 0x3c6ef372fe94f82b; 0xa54ff53a5f1d36f1;
   0x510e527fade682d1; 0x9b05688c2b3e6c1f; 0x1f83d9abfb41bd6b; 0x5be0cd19137e2179]
    0 0 p 0 SHA512_DIGEST_LENGTH.

Definition SHA512_256_Init (p : list Z) : SHA512_CTX :=
  mk_sha512
    [0x22312194fc2bf72c; 0x9f555fa3c84c64c2; 0x2393b86b6f53b151; 0x963877195940eabd;
   0x96283ee2a88effe3; 0xbe5e1e2553863992; 0x2b0199fc2c85b8aa; 0x0eb72ddc81c52ca2]
    0 0 p 0 SHA512_256_DIGEST_LENGTH.

Definition SHA512_Transform (c : SHA512_CTX) (block : list Z) : SHA512_CTX :=
  mk_sha512 (sha512_block_data_order (h c) block 1) (Nl c) (Nh c) (p c) (num c) (md_len c).

(** [sizeof(c->p)] *)
Definition BLOCK : Z := 128.

(** The end of [SHA512_Update]: whole blocks, and the rest into the buffer *)
Definition update_blocks (c : SHA512_CTX) (data : list Z) : SHA512_CTX :=
  let len := Z.of_nat (length data) in
  let h' := if BLOCK <=? len then sha512_block_data_order (h c) data (len / BLOCK) else h c in
  let data := if BLOCK <=? len then skipn (Z.to_nat (len - len mod BLOCK)) data else data in
  let len := if BLOCK <=? len then len mod BLOCK else len in
  if negb (len =? 0) then mk_sha512 h' (Nl c) (Nh c) (splice 0 data (p c)) (u32 len) (md_len c)
  else mk_sha512 h' (Nl c) (Nh c) (p c) (num c) (md_len c).

Definition SHA512_Update (c : SHA512_CTX) (data : list Z) : SHA512_CTX :=
  let len := Z.of_nat (length data) in
  if len =? 0 then c
  else
    let l := u64 (Nl c + u64 (Z.shiftl len 3)) in
    let nh := if l <? Nl c then u64 (Nh c + 1) else Nh c in
    let nh := u64 (nh + Z.shiftr len 61) in
    let c := mk_sha512 (h c) l nh (p c) (num c) (md_len c) in
    if negb (num c =? 0) then
      let n := BLOCK - num c in
      if len <? n then
        mk_sha512 (h c) (Nl c) (Nh c) (splice (Z.to_nat (num c)) data (p c)) (u32 (num c + u32 len)) (md_len c)
      else
        let p' := splice (Z.to_nat (num c)) (firstn (Z.to_nat n) data) (p c) in
        let h' := sha512_block_data_order (h c) p' 1 in
        update_blocks (mk_sha512 h' (Nl c) (Nh c) p' 0 (md_len c)) (skipn (Z.to_nat n) data)
    else update_blocks c data.

Definition SHA384_Update (sha : SHA512_CTX) (data : list Z) : SHA512_CTX := SHA512_Update sha data.
Definition SHA512_256_Update (sha : SHA512_CTX) (data : list Z) : SHA512_CTX := SHA512_Update sha data.

(** [None] is the result 0; [out] tells whether there is an output buffer. *)
Definition sha512_final_impl (out : bool) (sha : SHA512_CTX) : option (list Z) * SHA512_CTX :=
  let n := num sha in
  let p' := set_nth (Z.to_nat n) 128 (p sha) in
  let n := n + 1 in
  let full := BLOCK - 16 <? n in
  let p' := if full then splice (Z.to_nat n) (repeat 0 (Z.to_nat (BLOCK - n))) p' else p' in
  let h' := if full then sha512_block_data_order (h sha) p' 1 else h sha in
  let n := if full then 0 else n in
  let p' := splice (Z.to_nat n) (repeat 0 (Z.to_nat (BLOCK - 16 - n))) p' in
  let p' := splice (Z.to_nat (BLOCK - 16)) (CRYPTO_store_u64_be (Nh sha)) p' in
  let p' := splice (Z.to_nat (BLOCK - 8)) (CRYPTO_store_u64_be (Nl sha)) p' in
  let h' := sha512_block_data_order h' p' 1 in
  let sha := mk_sha512 h' (Nl sha) (Nh sha) p' (num sha) (md_len sha) in
  if out then
    let out_words := md_len sha / 8 in
    (Some (concat (map CRYPTO_store_u64_be (firstn (Z.to_nat out_words) (h sha)))), sha)
  else (None, sha).

Definition SHA512_Final (out : bool) (sha : SHA512_CTX) : option (list Z) * SHA512_CTX := sha512_final_impl out sha.

(** An assertion that fails counts as the result 0. *)
Definition SHA384_Final (out : bool) (sha : SHA512_CTX) : option (list Z) * SHA512_CTX :=
  if md_len sha =? SHA384_DIGEST_LENGTH then sha512_final_impl out sha else (None, sha).

Definition SHA512_256_Final (out : bool) (sha : SHA512_CTX) : option (list Z) * SHA512_CTX :=
  if md_len sha =? SHA512_256_DIGEST_LENGTH then sha512_final_impl out sha else (None, sha).

(** [p0] is what the context on the stack holds before. *)
Definition SHA384 (p0 data : list Z) : option (list Z) := fst (SHA384_Final true (SHA384_Update (SHA384_Init p0) data)).
Definition SHA512 (p0 data : list Z) : option (list Z) := fst (SHA512_Final true (SHA512_Update (SHA512_Init p0) data)).
Definition SHA512_256 (p0 data : list Z) : option (list Z) := fst (SHA512_256_Final true (SHA512_256_Update (SHA512_256_Init p0) data)).

(** ** The reference: FIPS 180-4, sections 4.1.3, 5.3 and 6.4 *)

Definition fips512 : sha2 := mk_sha2 64
  (fun x => Z.lxor (Z.lxor (ROTR 64 28 x) (ROTR 64 34 x)) (ROTR 64 39 x))
  (fun x => Z.lxor (Z.lxor (ROTR 64 14 x) (ROTR 64 18 x)) (ROTR 64 41 x))
  (fun x => Z.lxor (Z.lxor (ROTR 64 1 x) (ROTR 64 8 x)) (SHR 7 x))
  (fun x => Z.lxor (Z.lxor (ROTR 64 19 x) (ROTR 64 61 x)) (SHR 6 x))
  K512.

Definition sha512_words (H0 m : list Z) : list Z :=
  hash_blocks (sha2_compress fips512) 128 H0 (m ++ padding 128 16 m (be_bytes 16 (bit_length m))).

Definition IV384 : list Z := h (SHA384_Init []).
Definition IV512 : list Z := h (SHA512_Init []).
Definition IV512_256 : list Z := h (SHA512_256_Init []).

Definition sha512_hash (m : list Z) : list Z := concat (map (be_bytes 8) (sha512_words IV512 m)).
Definition sha384_hash (m : list Z) : list Z := concat (map (be_bytes 8) (firstn 6 (sha512_words IV384 m))).
Definition sha512_256_hash (m : list Z) : list Z := concat (map (be_bytes 8) (firstn 4 (sha512_words IV512_256 m))).

Example sha512_abc : SHA512 (repeat 7 128) [97; 98; 99] =
  Some (be_bytes 64 0xddaf35a193617abacc417349ae20413112e6fa4e89a97ea20a9eeee64b55d39a2192992a274fc1a836ba3c23a3feebbd454d4423643ce80e2a9ac94fa54ca49f).
Proof. vm_compute. reflexivity. Qed.

(** ** Blocks *)

Definition step_first (data : list Z) (s : list Z * list Z) (t : nat) : list Z * list Z :=
  first_round data t (place t 0) (place t 1) (place t 2) (place t 3) (place t 4) (place t 5) (place t 6) (place t 7) s.

(** The code indexes [X] by the number of the round in the body. *)
Definition step_next (s : list Z * list Z) (t : nat) : list Z * list Z :=
  ROUND_16_80 (16 * (t / 16)) (t mod 16) (place t 0) (place t 1) (place t 2) (place t 3) (place t 4) (place t 5) (place t 6) (place t 7) s.

Lemma step_next_spec s t : step_next s t = reg_next fips512 t s.
Proof.
  unfold step_next, ROUND_16_80, reg_next, ring_word. cbv zeta.
  assert (E : forall k, Nat.land (t mod 16 + k) 15 = Nat.land (t + k) 15)
    by (intros k; rewrite !land_15; apply Nat.Div0.add_mod_idemp_l).
  assert (E0 : Nat.land (t mod 16) 15 = Nat.land t 15) by (rewrite !land_15; apply Nat.Div0.mod_mod).
  rewrite !E, E0, <- (Nat.div_mod_eq t 16). reflexivity.
Qed.

Lemma sha512_rounds_unrolled data s :
  fold_left (fun s i => sixteen_rounds i s) [16; 32; 48; 64]%nat (first_rounds data s) =
  run_all fips512 (fun i => CRYPTO_load_u64_be (skipn (8 * i) data)) 80 s.
Proof.
  rewrite <- (run_all_steps _ _ (step_first data) step_next) by (reflexivity || apply step_next_spec). change (80 - 16)%nat with 64%nat.
  cbv [fold_left seq first_rounds sixteen_rounds step_first step_next]. reflexivity.
Qed.

Lemma add_words64_lists x : forall y, add_words64 x y = add_lists fips512 x y.
Proof. induction x as [|a x IH]; intros [|b y]; cbn [add_words64]; [reflexivity..|]. now rewrite IH. Qed.

Lemma sha512_block_spec state data : length state = 8%nat -> (128 <= length data)%nat -> bytes_ok data ->
  sha512_block state data = sha2_compress fips512 state (firstn 128 data).
Proof.
  intros L Ld Hd. unfold sha512_block, sha2_compress. rewrite sha512_rounds_unrolled, add_words64_lists.
  change (length (constants fips512)) with 80%nat. change (Z.to_nat (width fips512 / 8)) with 8%nat. f_equal.
  rewrite (run_all_spec _ _ (extend (sha2_next fips512) 64 (map (fun i => CRYPTO_load_u64_be (skipn (8 * i) data)) (seq 0 16))))
    by (reflexivity || assumption || lia).
  cbv zeta. f_equal. change (80 - 16)%nat with 64%nat. f_equal. symmetry.
  apply (block_words_load be_val 8 CRYPTO_load_u64_be); [lia|apply load_u64_be_spec|assumption].
Qed.

Lemma sha512_block_loop_spec n : forall state data, length state = 8%nat -> (n * 128 <= length data)%nat -> bytes_ok data ->
  block_loop n state data = fold_left (sha2_compress fips512) (chunks n 128 data) state.
Proof.
  induction n as [|n IH]; intros state data L Ld Hd; cbn [block_loop chunks fold_left]; [reflexivity|].
  rewrite sha512_block_spec by (assumption || lia).
  apply IH; [now rewrite length_sha2_compress|rewrite length_skipn; lia|bytes].
Qed.

(** ** Messages in pieces *)

Notation absorbed := (absorb (sha2_compress fips512) 128).

(** The context has absorbed [m]; what the buffer holds behind the bytes that
    wait does not matter. *)
Definition sha512_rep (iv : list Z) (len : Z) (m : list Z) (c : SHA512_CTX) : Prop :=
  exists t, let r := snd (absorbed iv m) in
  c = mk_sha512 (fst (absorbed iv m)) (u64 (bit_length m)) (u64 (bit_length m / 2 ^ 64)) (r ++ t) (Z.of_nat (length r)) len /\
  length (r ++ t) = 128%nat /\ bytes_ok t.

Lemma fold_compress_length l : forall hh, length hh = 8%nat -> length (fold_left (sha2_compress fips512) l hh) = 8%nat.
Proof. induction l as [|b l IH]; intros hh L; cbn [fold_left]; [assumption|]. apply IH. now rewrite length_sha2_compress. Qed.

Lemma sha512_block_once hh data : length hh = 8%nat -> length data = 128%nat -> bytes_ok data ->
  sha512_block_data_order hh data 1 = sha2_compress fips512 hh data.
Proof.
  intros Lh L Hb. unfold sha512_block_data_order. rewrite sha512_block_loop_spec by (assumption || (change (Z.to_nat 1) with 1%nat; lia)).
  change (Z.to_nat 1) with 1%nat. cbn [chunks fold_left]. now rewrite firstn_all2 by lia.
Qed.

Lemma update_blocks_spec hh nl nh buf len data : length hh = 8%nat -> length buf = 128%nat -> bytes_ok data -> bytes_ok buf ->
  exists t, let r := snd (absorbed hh data) in
  update_blocks (mk_sha512 hh nl nh buf 0 len) data = mk_sha512 (fst (absorbed hh data)) nl nh (r ++ t) (Z.of_nat (length r)) len /\
  length (r ++ t) = 128%nat /\ bytes_ok t.
Proof.
  intros Lh Lb Hd Hb. unfold update_blocks, absorb, BLOCK. cbn [Sha512.h Nl Nh p num md_len fst snd].
  set (k := (length data / 128)%nat).
  assert (K : (k * 128 <= length data < k * 128 + 128)%nat).
  { subst k. pose proof (Nat.div_mod_eq (length data) 128). pose proof (Nat.mod_upper_bound (length data) 128 ltac:(lia)). lia. }
  clearbody k. assert (Ek : Z.of_nat (length data) / 128 = Z.of_nat k) by lia_div.
  assert (Em : Z.of_nat (length data) mod 128 = Z.of_nat (length data) - Z.of_nat k * 128) by lia_div.
  assert (Eh : (if 128 <=? Z.of_nat (length data) then sha512_block_data_order hh data (Z.of_nat (length data) / 128) else hh) =
               fold_left (sha2_compress fips512) (chunks k 128 data) hh).
  { destruct (Z.leb_spec 128 (Z.of_nat (length data))); [|now replace k with 0%nat by lia].
    unfold sha512_block_data_order. rewrite Ek, Nat2Z.id. apply sha512_block_loop_spec; [assumption|lia|assumption]. }
  assert (Er : (if 128 <=? Z.of_nat (length data) then skipn (Z.to_nat (Z.of_nat (length data) - Z.of_nat (length data) mod 128)) data else data) = skipn (k * 128) data).
  { destruct (Z.leb_spec 128 (Z.of_nat (length data))); [f_equal; lia|now replace k with 0%nat by lia]. }
  rewrite Eh, Er. set (r := skipn (k * 128) data).
  assert (Lr : (if 128 <=? Z.of_nat (length data) then Z.of_nat (length data) mod 128 else Z.of_nat (length data)) = Z.of_nat (length r)).
  { subst r. rewrite length_skipn. destruct (Z.leb_spec 128 (Z.of_nat (length data))); lia. }
  rewrite Lr. assert (Lr' : (length r < 128)%nat) by (subst r; rewrite length_skipn; lia).
  destruct (Z.eqb_spec (Z.of_nat (length r)) 0) as [E|E]; cbn [negb].
  - assert (r = []) as -> by (apply length_zero_iff_nil; lia). exists buf. cbn [app length]. auto.
  - exists (skipn (length r) buf). rewrite length_app, length_skipn. split; [|split; [lia|bytes]].
    f_equal. apply wrap_small. unfold word_ok. lia.
Qed.

Lemma sha512_update_rep iv len m d c : length iv = 8%nat -> bytes_ok m -> piece_ok d ->
  sha512_rep iv len m c -> sha512_rep iv len (m ++ d) (SHA512_Update c d).
Proof.
  intros Li Hm [Hd Ld] (t & -> & Lt & Ht). unfold sha512_rep. rewrite absorb_split by lia.
  pose proof (absorb_bytes (sha2_compress fips512) 128 iv m Hm) as Br.
  pose proof (length_absorb (sha2_compress fips512) 128 iv m) as Lr.
  assert (Lh : length (fst (absorbed iv m)) = 8%nat) by now apply fold_compress_length.
  destruct (absorbed iv m) as [hh r]. cbn [fst snd] in *.
  assert (Hr : (length r < 128)%nat) by (rewrite Lr; apply Nat.mod_upper_bound; lia). clear Lr. rewrite length_app in Lt.
  unfold SHA512_Update, BLOCK. cbn [Sha512.h Nl Nh p num md_len].
  destruct (Z.eqb_spec (Z.of_nat (length d)) 0) as [E|E].
  { assert (d = []) as -> by (apply length_zero_iff_nil; lia). exists t.
    rewrite !app_nil_r, absorb_short, length_app by assumption. auto. }
  destruct (count_bits 64 3 (bit_length m) (Z.of_nat (length d))) as [El Eh]; [lia|unfold bit_length; lia|lia|].
  cbv zeta in El, Eh. change (2 ^ (64 - 3)) with (2 ^ 61) in Eh. rewrite (wrap_small 64 (_ / 2 ^ 61)) in Eh by (unfold word_ok; lia_div).
  rewrite Z.shiftl_mul_pow2, Z.shiftr_div_pow2, Eh, El, <- bit_length_app by lia. clear Eh El.
  destruct (Z.eqb_spec (Z.of_nat (length r)) 0) as [E0|E0]; cbn [negb].
  { assert (r = []) as -> by (apply length_zero_iff_nil; lia). cbn [length app] in *. apply update_blocks_spec; assumption || lia. }
  rewrite Nat2Z.id. replace (Z.to_nat (128 - Z.of_nat (length r))) with (128 - length r)%nat by lia.
  destruct (Z.ltb_spec (Z.of_nat (length d)) (128 - Z.of_nat (length r))) as [S|S].
  - rewrite absorb_short by (rewrite length_app; lia). exists (skipn (length d) t). cbn [fst snd].
    rewrite !length_app, length_skipn, splice_over, <- app_assoc by (reflexivity || lia). split; [|split; [lia|bytes]].
    f_equal. rewrite !wrap_small; unfold word_ok; rewrite ?wrap_small; unfold word_ok; lia.
  - set (b1 := r ++ firstn (128 - length r) d).
    assert (L1 : length b1 = 128%nat) by (subst b1; rewrite length_app, length_firstn; lia).
    assert (Eb : splice (length r) (firstn (128 - length r) d) (r ++ t) = b1).
    { rewrite splice_over by (reflexivity || (rewrite length_firstn; lia)). rewrite skipn_all2, app_nil_r by (rewrite length_firstn; lia). reflexivity. }
    assert (B1 : bytes_ok b1) by (subst b1; bytes).
    rewrite Eb, sha512_block_once by assumption.
    assert (EA : absorbed hh (r ++ d) = absorbed (sha2_compress fips512 hh b1) (skipn (128 - length r) d)).
    { rewrite <- (firstn_skipn (128 - length r) d) at 1. rewrite app_assoc, absorb_block by (assumption || lia). reflexivity. }
    rewrite EA. apply update_blocks_spec; [now rewrite length_sha2_compress|assumption|bytes|assumption].
Qed.

Lemma be_bytes_halves64 v : be_bytes 8 (u64 (v / 2 ^ 64)) ++ be_bytes 8 (u64 v) = be_bytes 16 v.
Proof. unfold wrap. change (2 ^ 64) with (256 ^ Z.of_nat 8). rewrite !be_bytes_mod. apply (be_bytes_app 8 8). Qed.

(** The two halves of the length, at the end of the block *)
Lemma write_lengths q t m : length q = 112%nat -> length t = 16%nat ->
  splice (Z.to_nat (128 - 8)) (CRYPTO_store_u64_be (u64 (bit_length m)))
    (splice (Z.to_nat (128 - 16)) (CRYPTO_store_u64_be (u64 (bit_length m / 2 ^ 64))) (q ++ t)) = q ++ be_bytes 16 (bit_length m).
Proof.
  intros Lq Lt. rewrite !store_u64_be_spec by (apply wrap_range; lia). rewrite <- be_bytes_halves64.
  rewrite splice_over by (rewrite ?length_be_bytes, ?Lt; lia). rewrite app_assoc, splice_over by (rewrite ?length_app, ?length_skipn, !length_be_bytes; lia).
  rewrite skipn_all2, app_nil_r, <- app_assoc by (rewrite length_skipn, !length_be_bytes; lia). reflexivity.
Qed.

(** The last blocks are those of the padded message. *)
Lemma sha512_final_words iv len m c : length iv = 8%nat -> bytes_ok m -> sha512_rep iv len m c ->
  h (snd (sha512_final_impl true c)) = sha512_words iv m /\ md_len (snd (sha512_final_impl true c)) = len.
Proof.
  intros Li Hm (t & -> & Lt & Ht). unfold sha512_words, hash_blocks. rewrite absorb_split by lia.
  pose proof (absorb_bytes (sha2_compress fips512) 128 iv m Hm) as Br.
  pose proof (length_absorb (sha2_compress fips512) 128 iv m) as Lr.
  assert (Lh : length (fst (absorbed iv m)) = 8%nat) by now apply fold_compress_length.
  destruct (absorbed iv m) as [hh r]. cbn [fst snd] in *. split; [|reflexivity].
  assert (Hr : (length r < 128)%nat) by (rewrite Lr; apply Nat.mod_upper_bound; lia). rewrite length_app in Lt.
  unfold sha512_final_impl, padding. cbn [snd Sha512.h Nl Nh p num md_len]. unfold BLOCK.
  rewrite (pad_zeros 128 16 m (length r)) by (lia || (rewrite Lr, Nat2Z.inj_mod; reflexivity)).
  destruct t as [|x t]; [cbn [length] in Lt; lia|]. cbn [length] in Lt. apply Forall_cons_iff in Ht as [_ Ht].
  rewrite Nat2Z.id, set_nth_app. change (r ++ 128 :: t) with (r ++ [128] ++ t). rewrite (app_assoc r [128] t).
  assert (Lp : length (r ++ [128]) = S (length r)) by (rewrite length_app; cbn; lia).
  change (r ++ 128 :: ?z ++ be_bytes 16 (bit_length m)) with (r ++ [128] ++ z ++ be_bytes 16 (bit_length m)).
  rewrite (app_assoc r [128] (repeat 0 _ ++ _)).
  change (Z.to_nat 128) with 128%nat. change (Z.to_nat 16) with 16%nat.
  replace (Z.to_nat (Z.of_nat (length r) + 1)) with (S (length r)) by lia.
  destruct (Z.ltb_spec (128 - 16) (Z.of_nat (length r) + 1)) as [F|F].
  - replace (Z.to_nat (128 - (Z.of_nat (length r) + 1))) with (128 - length r - 1)%nat by lia.
    rewrite splice_over, skipn_all2, app_nil_r by (rewrite ?repeat_length; lia). rewrite repeat_app.
    rewrite <- (app_assoc (repeat 0 _) (repeat 0 _)), (app_assoc (r ++ [128])).
    set (b1 := (r ++ [128]) ++ repeat 0 (128 - length r - 1)).
    assert (L1 : length b1 = 128%nat) by (subst b1; rewrite length_app, repeat_length; lia).
    rewrite (sha512_block_once hh b1) by (assumption || (subst b1; bytes)).
    assert (E0 : splice (Z.to_nat 0) (repeat 0 (Z.to_nat (128 - 16 - 0))) b1 = repeat 0 112 ++ skipn 112 b1)
      by (apply (splice_over [] (repeat 0 112) b1 0); [reflexivity|rewrite repeat_length; lia]).
    rewrite E0.
    rewrite write_lengths by (rewrite ?length_skipn, ?repeat_length; lia).
    rewrite sha512_block_once; [|now rewrite length_sha2_compress|now rewrite length_app, repeat_length, length_be_bytes|
      apply Forall_app; split; [apply repeat_0_bytes|apply be_bytes_ok]].
    rewrite absorb_block by (assumption || lia). change (128 - 16)%nat with 112%nat.
    rewrite <- (app_nil_r (repeat 0 112 ++ _)) at 2.
    rewrite absorb_block by (lia || now rewrite length_app, repeat_length, length_be_bytes).
    now rewrite absorb_short by (cbn [length]; lia).
  - replace (Z.to_nat (Z.of_nat (length r) + 1)) with (S (length r)) by lia.
    replace (Z.to_nat (128 - 16 - (Z.of_nat (length r) + 1))) with (128 - length r - 1 - 16)%nat by lia.
    rewrite splice_over, !(app_assoc (r ++ [128])) by (rewrite ?repeat_length; lia).
    set (q := (r ++ [128]) ++ repeat 0 (128 - length r - 1 - 16)).
    assert (Lq : length q = 112%nat) by (subst q; rewrite length_app, repeat_length; lia).
    rewrite write_lengths by (rewrite ?length_skipn, ?repeat_length; assumption || lia).
    rewrite sha512_block_once; [|assumption|rewrite length_app, length_be_bytes; lia|subst q; apply Forall_app; split; [bytes|apply be_bytes_ok]].
    rewrite <- (app_nil_r (q ++ _)) at 2. rewrite absorb_block by (lia || (rewrite length_app, length_be_bytes; lia)).
    now rewrite absorb_short by (cbn [length]; lia).
Qed.

Lemma concat_store_u64 l : Forall (word_ok 64) l -> concat (map CRYPTO_store_u64_be l) = concat (map (be_bytes 8) l).
Proof. intros H. f_equal. apply map_ext_in. intros v Hv. rewrite Forall_forall in H. now apply store_u64_be_spec, H. Qed.

Lemma sha512_init_rep iv len p0 : length p0 = 128%nat -> bytes_ok p0 -> sha512_rep iv len [] (mk_sha512 iv 0 0 p0 0 len).
Proof. intros L H. exists p0. rewrite absorb_short by (cbn; lia). cbn [fst snd length app]. auto. Qed.

Lemma sha512_final_rep iv len m c : forallb (fun x => (0 <=? x) && (x <? 2 ^ 64)) iv = true -> length iv = 8%nat ->
  bytes_ok m -> sha512_rep iv len m c ->
  fst (sha512_final_impl true c) = Some (concat (map (be_bytes 8) (firstn (Z.to_nat (len / 8)) (sha512_words iv m)))) /\
  md_len c = len.
Proof.
  intros Hw Li Hm R. destruct (sha512_final_words iv len m c Li Hm R) as [E El].
  split; [|now destruct R as (t & -> & _)].
  change (fst (sha512_final_impl true c)) with
    (Some (concat (map CRYPTO_store_u64_be (firstn (Z.to_nat (md_len (snd (sha512_final_impl true c)) / 8)) (h (snd (sha512_final_impl true c))))))).
  rewrite E, El. f_equal. apply concat_store_u64.
  assert (W : Forall (word_ok 64) (sha512_words iv m))
    by (apply (hash_blocks_words fips512); [cbn; lia|now apply word_list_check]).
  rewrite <- (firstn_skipn (Z.to_nat (len / 8)) (sha512_words _ _)) in W. now apply Forall_app in W.
Qed.

Lemma sha512_pieces iv len p0 pieces : forallb (fun x => (0 <=? x) && (x <? 2 ^ 64)) iv = true -> length iv = 8%nat ->
  length p0 = 128%nat -> bytes_ok p0 -> Forall piece_ok pieces ->
  let c := fold_left SHA512_Update pieces (mk_sha512 iv 0 0 p0 0 len) in
  fst (sha512_final_impl true c) = Some (concat (map (be_bytes 8) (firstn (Z.to_nat (len / 8)) (sha512_words iv (concat pieces))))) /\
  md_len c = len.
Proof.
  intros Hw Li Lp Hp F. apply sha512_final_rep; [assumption..|now apply pieces_bytes|].
  apply (absorb_pieces_rep (sha512_rep iv len) SHA512_Update
    (fun m p c Hm Hq => sha512_update_rep iv len m p c Li Hm Hq) pieces []); [constructor|assumption|now apply sha512_init_rep].
Qed.

Lemma length_sha512_words iv m : length (sha512_words iv m) = length iv.
Proof. apply length_hash_blocks. Qed.

(** C27: whatever the buffer of the context held before, and however the message
    is cut into updates, [SHA512_Final], [SHA384_Final] and [SHA512_256_Final]
    write the hashes of FIPS 180-4 of the whole message; the bits are counted
    in 128 bits, with the carry from one word to the other. *)
Theorem SHA512_correct (pieces : list (list Z)) (p0 : list Z)
    (pieces_ok : Forall piece_ok pieces) (p0_ok : length p0 = 128%nat /\ bytes_ok p0) :
  fst (SHA512_Final true (fold_left SHA512_Update pieces (SHA512_Init p0))) = Some (sha512_hash (concat pieces)) /\
  fst (SHA384_Final true (fold_left SHA384_Update pieces (SHA384_Init p0))) = Some (sha384_hash (concat pieces)) /\
  fst (SHA512_256_Final true (fold_left SHA512_256_Update pieces (SHA512_256_Init p0))) = Some (sha512_256_hash (concat pieces)).
Proof.
  destruct p0_ok as [Lp Hp]. change SHA384_Update with SHA512_Update. change SHA512_256_Update with SHA512_Update.
  split; [|split].
  - change (SHA512_Init p0) with (mk_sha512 IV512 0 0 p0 0 SHA512_DIGEST_LENGTH). unfold SHA512_Final. rewrite (proj1 (sha512_pieces IV512 SHA512_DIGEST_LENGTH p0 pieces eq_refl eq_refl Lp Hp pieces_ok)).
    rewrite firstn_all2 by (rewrite length_sha512_words; cbn; lia). reflexivity.
  - unfold SHA384_Final. destruct (sha512_pieces IV384 SHA384_DIGEST_LENGTH p0 pieces eq_refl eq_refl Lp Hp pieces_ok) as [E El].
    change (mk_sha512 IV384 0 0 p0 0 SHA384_DIGEST_LENGTH) with (SHA384_Init p0) in *. rewrite El. exact E.
  - unfold SHA512_256_Final. destruct (sha512_pieces IV512_256 SHA512_256_DIGEST_LENGTH p0 pieces eq_refl eq_refl Lp Hp pieces_ok) as [E El].
    change (mk_sha512 IV512_256 0 0 p0 0 SHA512_256_DIGEST_LENGTH) with (SHA512_256_Init p0) in *. rewrite El. exact E.
Qed.

Lemma SHA512_correct_witness :
  fst (SHA512_Final true (fold_left SHA512_Update [[97]; [98; 99]] (SHA512_Init (repeat 7 128)))) = Some (sha512_hash [97; 98; 99]).
Proof.
  refine (proj1 (SHA512_correct [[97]; [98; 99]] (repeat 7 128) _ _)).
  - apply Forall_cons; [|apply Forall_cons; [|apply Forall_nil]]; split; now (apply bytes_ok_check || vm_compute).
  - split; [reflexivity|now apply bytes_ok_check].
Defined.
