(* ===== verification/Sha1.v ===== *)
(** * SHA-1 ([crypto/fipsmodule/sha/sha1.c])

    The portable code: the variables A, B, C, D, E and T are a list of six
    registers, whose places are the arguments of the round macros, and [XX0] to
    [XX15] a list of sixteen words.  The rounds are written out as in the code.
    The reference is FIPS 180-4. *)

From Stdlib Require Import ZArith Lia ZifyBool List Bool Btauto.
From S2P Require Import Prelude Endian ChaCha Md32 Sha2.
Import ListNotations.

(** ** Definitions *)

Definition SHA_CBLOCK : Z := 64.
Definition SHA_DIGEST_LENGTH : Z := 20.

Definition K_00_19 : Z := 0x5a827999.
Definition K_20_39 : Z := 0x6ed9eba1.
Definition K_40_59 : Z := 0x8f1bbcdc.
Definition K_60_79 : Z := 0xca62c1d6.

Definition F_00_19 (b c d : Z) : Z := Z.lxor (Z.land (Z.lxor c d) b) d.
Definition F_20_39 (b c d : Z) : Z := Z.lxor (Z.lxor b c) d.
Definition F_40_59 (b c d : Z) : Z := Z.lor (Z.land b c) (Z.land (Z.lor b c) d).
Definition F_60_79 (b c d : Z) : Z := F_20_39 b c d.

(** The registers and the words [X]; [Xupdate] writes the register [a] and the
    word [ix]. *)
Definition Xupdate (a ix ia ib ic id : nat) (s : list Z * list Z) : list Z * list Z :=
  let X := snd s in
  let x := Z.lxor (Z.lxor (Z.lxor (word X ia) (word X ib)) (word X ic)) (word X id) in
  let x := CRYPTO_rotl_u32 x 1 in
  (set_nth a x (fst s), set_nth ix x X).

Definition BODY_00_15 (a b c d e f xi : nat) (s : list Z * list Z) : list Z * list Z :=
  let '(v, X) := s in
  let v := set_nth f (u32 (word X xi + word v e + K_00_19 + CRYPTO_rotl_u32 (word v a) 5 + F_00_19 (word v b) (word v c) (word v d))) v in
  (set_nth b (CRYPTO_rotl_u32 (word v b) 30) v, X).

(** The rounds from 16 on, but for the last twenty, differ in [K] and [F]. *)
Definition body (K : Z) (F : Z -> Z -> Z -> Z) (a b c d e f xi xa xb xc xd : nat) (s : list Z * list Z) : list Z * list Z :=
  let '(v, X) := Xupdate f xi xa xb xc xd s in
  let v := set_nth f (u32 (word v f + (word v e + K + CRYPTO_rotl_u32 (word v a) 5 + F (word v b) (word v c) (word v d)))) v in
  (set_nth b (CRYPTO_rotl_u32 (word v b) 30) v, X).

Definition BODY_16_19 (a b c d e f xi xa xb xc xd : nat) : list Z * list Z -> list Z * list Z :=
  body K_00_19 F_00_19 a b c d e f xi xa xb xc xd.

Definition BODY_20_31 (a b c d e f xi xa xb xc xd : nat) : list Z * list Z -> list Z * list Z :=
  body K_20_39 F_20_39 a b c d e f xi xa xb xc xd.

Definition BODY_32_39 (a b c d e f xa xb xc xd : nat) : list Z * list Z -> list Z * list Z :=
  body K_20_39 F_20_39 a b c d e f xa xa xb xc xd.

Definition BODY_40_59 (a b c d e f xa xb xc xd : nat) : list Z * list Z -> list Z * list Z :=
  body K_40_59 F_40_59 a b c d e f xa xa xb xc xd.

Definition BODY_60_79 (a b c d e f xa xb xc xd : nat) (s : list Z * list Z) : list Z * list Z :=
  let '(v, X) := Xupdate f xa xa xb xc xd s in
  let v := set_nth f (u32 (word X xa + word v e + K_60_79 + CRYPTO_rotl_u32 (word v a) 5 + F_60_79 (word v b) (word v c) (word v d))) v in
  (set_nth b (CRYPTO_rotl_u32 (word v b) 30) v, X).

(** The word that [data] points to when it has been advanced [i] times *)
Definition word_at (data : list Z) (i : nat) : Z := CRYPTO_load_u32_be (skipn (4 * i) data).

(** [X(i) = CRYPTO_load_u32_be(data); data += 4] *)
Definition load (data : list Z) (i : nat) (s : list Z * list Z) : list Z * list Z :=
  (fst s, set_nth i (word_at data i) (snd s)).

Definition rounds_00_15 (data : list Z) (s : list Z * list Z) : list Z * list Z :=
  let s := load data 0 s in
  let s := load data 1 s in
  let s := BODY_00_15 0 1 2 3 4 5 0 s in
  let s := load data 2 s in
  let s := BODY_00_15 5 0 1 2 3 4 1 s in
  let s := load data 3 s in
  let s := BODY_00_15 4 5 0 1 2 3 2 s in
  let s := load data 4 s in
  let s := BODY_00_15 3 4 5 0 1 2 3 s in
  let s := load data 5 s in
  let s := BODY_00_15 2 3 4 5 0 1 4 s in
  let s := load data 6 s in
  let s := BODY_00_15 1 2 3 4 5 0 5 s in
  let s := load data 7 s in
  let s := BODY_00_15 0 1 2 3 4 5 6 s in
  let s := load data 8 s in
  let s := BODY_00_15 5 0 1 2 3 4 7 s in
  let s := load data 9 s in
  let s := BODY_00_15 4 5 0 1 2 3 8 s in
  let s := load data 10 s in
  let s := BODY_00_15 3 4 5 0 1 2 9 s in
  let s := load data 11 s in
  let s := BODY_00_15 2 3 4 5 0 1 10 s in
  let s := load data 12 s in
  let s := BODY_00_15 1 2 3 4 5 0 11 s in
  let s := load data 13 s in
  let s := BODY_00_15 0 1 2 3 4 5 12 s in
  let s := load data 14 s in
  let s := BODY_00_15 5 0 1 2 3 4 13 s in
  let s := load data 15 s in
  let s := BODY_00_15 4 5 0 1 2 3 14 s in
  let s := BODY_00_15 3 4 5 0 1 2 15 s in
  s.

Definition rounds_16_79 (s : list Z * list Z) : list Z * list Z :=
  let s := BODY_16_19 2 3 4 5 0 1 0 0 2 8 13 s in
  let s := BODY_16_19 1 2 3 4 5 0 1 1 3 9 14 s in
  let s := BODY_16_19 0 1 2 3 4 5 2 2 4 10 15 s in
  let s := BODY_16_19 5 0 1 2 3 4 3 3 5 11 0 s in
  let s := BODY_20_31 4 5 0 1 2 3 4 4 6 12 1 s in
  let s := BODY_20_31 3 4 5 0 1 2 5 5 7 13 2 s in
  let s := BODY_20_31 2 3 4 5 0 1 6 6 8 14 3 s in
  let s := BODY_20_31 1 2 3 4 5 0 7 7 9 15 4 s in
  let s := BODY_20_31 0 1 2 3 4 5 8 8 10 0 5 s in
  let s := BODY_20_31 5 0 1 2 3 4 9 9 11 1 6 s in
  let s := BODY_20_31 4 5 0 1 2 3 10 10 12 2 7 s in
  let s := BODY_20_31 3 4 5 0 1 2 11 11 13 3 8 s in
  let s := BODY_20_31 2 3 4 5 0 1 12 12 14 4 9 s in
  let s := BODY_20_31 1 2 3 4 5 0 13 13 15 5 10 s in
  let s := BODY_20_31 0 1 2 3 4 5 14 14 0 6 11 s in
  let s := BODY_20_31 5 0 1 2 3 4 15 15 1 7 12 s in
  let s := BODY_32_39 4 5 0 1 2 3 0 2 8 13 s in
  let s := BODY_32_39 3 4 5 0 1 2 1 3 9 14 s in
  let s := BODY_32_39 2 3 4 5 0 1 2 4 10 15 s in
  let s := BODY_32_39 1 2 3 4 5 0 3 5 11 0 s in
  let s := BODY_32_39 0 1 2 3 4 5 4 6 12 1 s in
  let s := BODY_32_39 5 0 1 2 3 4 5 7 13 2 s in
  let s := BODY_32_39 4 5 0 1 2 3 6 8 14 3 s in
  let s := BODY_32_39 3 4 5 0 1 2 7 9 15 4 s in
  let s := BODY_40_59 2 3 4 5 0 1 8 10 0 5 s in
  let s := BODY_40_59 1 2 3 4 5 0 9 11 1 6 s in
  let s := BODY_40_59 0 1 2 3 4 5 10 12 2 7 s in
  let s := BODY_40_59 5 0 1 2 3 4 11 13 3 8 s in
  let s := BODY_40_59 4 5 0 1 2 3 12 14 4 9 s in
  let s := BODY_40_59 3 4 5 0 1 2 13 15 5 10 s in
  let s := BODY_40_59 2 3 4 5 0 1 14 0 6 11 s in
  let s := BODY_40_59 1 2 3 4 5 0 15 1 7 12 s in
  let s := BODY_40_59 0 1 2 3 4 5 0 2 8 13 s in
  let s := BODY_40_59 5 0 1 2 3 4 1 3 9 14 s in
  let s := BODY_40_59 4 5 0 1 2 3 2 4 10 15 s in
  let s := BODY_40_59 3 4 5 0 1 2 3 5 11 0 s in
  let s := BODY_40_59 2 3 4 5 0 1 4 6 12 1 s in
  let s := BODY_40_59 1 2 3 4 5 0 5 7 13 2 s in
  let s := BODY_40_59 0 1 2 3 4 5 6 8 14 3 s in
  let s := BODY_40_59 5 0 1 2 3 4 7 9 15 4 s in
  let s := BODY_40_59 4 5 0 1 2 3 8 10 0 5 s in
  let s := BODY_40_59 3 4 5 0 1 2 9 11 1 6 s in
  let s := BODY_40_59 2 3 4 5 0 1 10 12 2 7 s in
  let s := BODY_40_59 1 2 3 4 5 0 11 13 3 8 s in
  let s := BODY_60_79 0 1 2 3 4 5 12 14 4 9 s in
  let s := BODY_60_79 5 0 1 2 3 4 13 15 5 10 s in
  let s := BODY_60_79 4 5 0 1 2 3 14 0 6 11 s in
  let s := BODY_60_79 3 4 5 0 1 2 15 1 7 12 s in
  let s := BODY_60_79 2 3 4 5 0 1 0 2 8 13 s in
  let s := BODY_60_79 1 2 3 4 5 0 1 3 9 14 s in
  let s := BODY_60_79 0 1 2 3 4 5 2 4 10 15 s in
  let s := BODY_60_79 5 0 1 2 3 4 3 5 11 0 s in
  let s := BODY_60_79 4 5 0 1 2 3 4 6 12 1 s in
  let s := BODY_60_79 3 4 5 0 1 2 5 7 13 2 s in
  let s := BODY_60_79 2 3 4 5 0 1 6 8 14 3 s in
  let s := BODY_60_79 1 2 3 4 5 0 7 9 15 4 s in
  let s := BODY_60_79 0 1 2 3 4 5 8 10 0 5 s in
  let s := BODY_60_79 5 0 1 2 3 4 9 11 1 6 s in
  let s := BODY_60_79 4 5 0 1 2 3 10 12 2 7 s in
  let s := BODY_60_79 3 4 5 0 1 2 11 13 3 8 s in
  let s := BODY_60_79 2 3 4 5 0 1 12 14 4 9 s in
  let s := BODY_60_79 1 2 3 4 5 0 13 15 5 10 s in
  let s := BODY_60_79 0 1 2 3 4 5 14 0 6 11 s in
  let s := BODY_60_79 5 0 1 2 3 4 15 1 7 12 s in
  s.

(** A block; [T] and the words are not initialised. *)
Definition sha1_block (state data : list Z) : list Z :=
  let s := rounds_16_79 (rounds_00_15 data (state ++ [0], repeat 0 16)) in
  let v := fst s in
  [u32 (word state 0 + word v 4); u32 (word state 1 + word v 5); u32 (word state 2 + word v 0);
   u32 (word state 3 + word v 1); u32 (word state 4 + word v 2)].

(** The loop tests [num] at its end: it is not called with 0. *)
Fixpoint block_loop (num : nat) (state data : list Z) : list Z :=
  match num with
  | O => state
  | S num => block_loop num (sha1_block state data) (skipn 64 data)
  end.

Definition sha1_block_data_order (state data : list Z) (num : Z) : list Z := block_loop (Z.to_nat num) state data.

(** [SHA_CTX] is the context of [Md32]. *)
Definition SHA1_Init : md32 :=
  mk_md32 [0x67452301; 0xefcdab89; 0x98badcfe; 0x10325476; 0xc3d2e1f0] (repeat 0 64) 0 0 0.

Definition SHA1_Transform (c : md32) (data : list Z) : md32 :=
  mk_md32 (sha1_block_data_order (md_h c) data 1) (md_data c) (md_num c) (md_Nh c) (md_Nl c).

Definition SHA1_Update (c : md32) (data : list Z) : md32 := crypto_md32_update sha1_block_data_order SHA_CBLOCK c data.

Definition SHA1_Final (c : md32) : list Z * md32 :=
  let c := crypto_md32_final sha1_block_data_order SHA_CBLOCK true c in
  (CRYPTO_store_u32_be (word (md_h c) 0) ++ CRYPTO_store_u32_be (word (md_h c) 1) ++ CRYPTO_store_u32_be (word (md_h c) 2) ++
   CRYPTO_store_u32_be (word (md_h c) 3) ++ CRYPTO_store_u32_be (word (md_h c) 4), c).

Definition SHA1 (data : list Z) : list Z := fst (SHA1_Final (SHA1_Update SHA1_Init data)).

(** ** The reference: FIPS 180-4, sections 4.1.1, 4.2.1 and 6.1.2 *)

Definition ROTL (w n x : Z) : Z := Z.lor (wrap w (Z.shiftl x n)) (Z.shiftr x (w - n)).

Definition sha1_f (t : nat) (x y z : Z) : Z :=
  if (t <? 20)%nat then Z.lxor (Z.land x y) (Z.ldiff z x)
  else if (t <? 40)%nat then Z.lxor (Z.lxor x y) z
  else if (t <? 60)%nat then fips_Maj x y z
  else Z.lxor (Z.lxor x y) z.

Definition sha1_K (t : nat) : Z :=
  if (t <? 20)%nat then K_00_19 else if (t <? 40)%nat then K_20_39 else if (t <? 60)%nat then K_40_59 else K_60_79.

Definition sha1_next (W : list Z) (t : nat) : Z :=
  ROTL 32 1 (Z.lxor (Z.lxor (Z.lxor (word W (t - 3)) (word W (t - 8))) (word W (t - 14))) (word W (t - 16))).

Definition sha1_step (f : Z -> Z -> Z -> Z) (K W : Z) (v : list Z) : list Z :=
  match v with
  | [a; b; c; d; e] => [u32 (ROTL 32 5 a + f b c d + e + K + W); a; ROTL 32 30 b; c; d]
  | _ => v
  end.

Definition sha1_rounds (n : nat) (W v : list Z) : list Z :=
  fold_left (fun v t => sha1_step (sha1_f t) (sha1_K t) (word W t) v) (seq 0 n) v.

Definition sha1_compress (H block : list Z) : list Z :=
  add_words H (sha1_rounds 80 (extend sha1_next 64 (block_words 4 block)) H).

Definition sha1_hash (m : list Z) : list Z :=
  concat (map (be_bytes 4) (hash_blocks sha1_compress 64 (md_h SHA1_Init) (m ++ padding 64 8 m (be_bytes 8 (bit_length m))))).

Example sha1_abc : SHA1 [97; 98; 99] = be_bytes 20 0xa9993e364706816aba3e25717850c26c9cd0d89d.
Proof. vm_compute. reflexivity. Qed.

Example sha1_hash_abc : sha1_hash [97; 98; 99] = be_bytes 20 0xa9993e364706816aba3e25717850c26c9cd0d89d.
Proof. vm_compute. reflexivity. Qed.

(** ** The code's functions *)

Lemma F_00_19_spec b c d : F_00_19 b c d = Z.lxor (Z.land b c) (Z.ldiff d b).
Proof.
  unfold F_00_19. apply Z.bits_inj'. intros i _. rewrite !Z.lxor_spec, !Z.land_spec, Z.lxor_spec, Z.ldiff_spec. btauto.
Qed.

Lemma F_40_59_spec b c d : F_40_59 b c d = fips_Maj b c d.
Proof.
  unfold F_40_59, fips_Maj. apply Z.bits_inj'. intros i _.
  rewrite !Z.lxor_spec, !Z.lor_spec, !Z.land_spec, Z.lor_spec. btauto.
Qed.

(** ** Registers *)

(** The place of the variable [j] in round [t]; the sixth is the next first one. *)
Definition place6 (t j : nat) : nat := (j + (6 - t mod 6)) mod 6.

Definition view6 (t : nat) (v : list Z) : list Z := map (fun j => word v (place6 t j)) (seq 0 5).

Definition at6 {A} (t : nat) (f : nat -> nat -> nat -> nat -> nat -> nat -> A) : A :=
  f (place6 t 0) (place6 t 1) (place6 t 2) (place6 t 3) (place6 t 4) (place6 t 5).

Lemma place6_mod t j : place6 t j = place6 (t mod 6) j.
Proof. unfold place6. now rewrite Nat.Div0.mod_mod. Qed.

Lemma view6_mod t v : view6 t v = view6 (t mod 6) v.
Proof. unfold view6. apply map_ext. intros j. now rewrite place6_mod. Qed.

Lemma at6_mod {A} t (f : _ -> _ -> _ -> _ -> _ -> _ -> A) : at6 t f = at6 (t mod 6) f.
Proof. unfold at6. now rewrite !(place6_mod t). Qed.

(** Writing the new variable and turning another: a step of the reference *)
Definition turn_regs (F : Z -> Z -> Z -> Z) (K x : Z) (v : list Z) (a b c d e f : nat) : list Z :=
  let v := set_nth f (u32 (x + (word v e + K + CRYPTO_rotl_u32 (word v a) 5 + F (word v b) (word v c) (word v d)))) v in
  set_nth b (CRYPTO_rotl_u32 (word v b) 30) v.

Lemma view6_turn F K x t v : length v = 6%nat -> view6 (S t) (at6 t (turn_regs F K x v)) = sha1_step F K x (view6 t v).
Proof.
  intros L. rewrite at6_mod, (view6_mod t), (view6_mod (S t)).
  replace (S t mod 6)%nat with ((t mod 6 + 1) mod 6)%nat by (rewrite Nat.Div0.add_mod_idemp_l; f_equal; lia).
  pose proof (Nat.mod_upper_bound t 6 ltac:(lia)) as B. generalize dependent (t mod 6)%nat. intros p B.
  assert (E : forall a b c, u32 (x + (a + K + b + c)) = u32 (b + c + a + K + x)) by (intros; f_equal; lia).
  do 6 (destruct v as [|? v]; [discriminate|]). destruct v; [|discriminate]. clear L.
  do 6 (destruct p as [|p]; [cbn -[Z.add]; rewrite E; reflexivity|]). lia.
Qed.

Lemma length_turn F K x v a b c d e f : length (turn_regs F K x v a b c d e f) = length v.
Proof. unfold turn_regs. cbv zeta. now rewrite !length_set_nth. Qed.

(** The word that [Xupdate] makes *)
Definition ring_xor (xa xb xc xd : nat) (X : list Z) : Z :=
  CRYPTO_rotl_u32 (Z.lxor (Z.lxor (Z.lxor (word X xa) (word X xb)) (word X xc)) (word X xd)) 1.

Lemma body_turn K F t xi xa xb xc xd s : length (fst s) = 6%nat ->
  at6 t (fun a b c d e f => body K F a b c d e f xi xa xb xc xd s) =
  (at6 t (turn_regs F K (ring_xor xa xb xc xd (snd s)) (fst s)), set_nth xi (ring_xor xa xb xc xd (snd s)) (snd s)).
Proof.
  destruct s as [v X]. cbn [fst snd]. intros L. rewrite (at6_mod t), (at6_mod t (turn_regs _ _ _ _)).
  pose proof (Nat.mod_upper_bound t 6 ltac:(lia)) as B. generalize dependent (t mod 6)%nat. intros p B.
  do 6 (destruct v as [|? v]; [discriminate|]). destruct v; [|discriminate].
  do 6 (destruct p as [|p]; [reflexivity|]). lia.
Qed.

Lemma last_body_turn t xa xb xc xd s : length (fst s) = 6%nat -> (xa < length (snd s))%nat ->
  at6 t (fun a b c d e f => BODY_60_79 a b c d e f xa xb xc xd s) =
  (at6 t (turn_regs F_60_79 K_60_79 (ring_xor xa xb xc xd (snd s)) (fst s)), set_nth xa (ring_xor xa xb xc xd (snd s)) (snd s)).
Proof.
  destruct s as [v X]. cbn [fst snd]. intros L LX. rewrite (at6_mod t), (at6_mod t (turn_regs _ _ _ _)).
  pose proof (Nat.mod_upper_bound t 6 ltac:(lia)) as B. generalize dependent (t mod 6)%nat. intros p B.
  assert (E : word (set_nth xa (ring_xor xa xb xc xd X) X) xa = ring_xor xa xb xc xd X) by now apply nth_set_nth_eq.
  assert (S : forall a b c d, u32 (ring_xor xa xb xc xd X + a + b + c + d) = u32 (ring_xor xa xb xc xd X + (a + b + c + d))) by (intros; f_equal; lia).
  do 6 (destruct v as [|? v]; [discriminate|]). destruct v; [|discriminate].
  unfold BODY_60_79, Xupdate, at6. cbn [fst snd]. fold (ring_xor xa xb xc xd X). cbv beta iota zeta. rewrite E, S.
  do 6 (destruct p as [|p]; [reflexivity|]). lia.
Qed.

Lemma body_00_turn a b c d e f xi v X :
  BODY_00_15 a b c d e f xi (v, X) = (turn_regs F_00_19 K_00_19 (word X xi) v a b c d e f, X).
Proof. unfold BODY_00_15, turn_regs. now rewrite <- !Z.add_assoc. Qed.

Lemma load_words data i v X : load data i (v, X) = (v, set_nth i (word_at data i) X).
Proof. reflexivity. Qed.

(** ** All rounds *)

Lemma rounds_00_15_spec data v : rounds_00_15 data (v, repeat 0 16) =
  (fold_left (fun v t => at6 t (turn_regs F_00_19 K_00_19 (word_at data t) v)) (seq 0 16) v, map (word_at data) (seq 0 16)).
Proof.
  unfold rounds_00_15. cbv zeta. repeat (rewrite load_words || rewrite body_00_turn). cbn [fst snd set_nth repeat word nth seq fold_left map]. unfold at6. reflexivity.
Qed.

(** The rounds from 16 on, with the places and the words of the ring computed *)
Definition step_next (s : list Z * list Z) (t : nat) : list Z * list Z :=
  let x k := Nat.land (t + k) 15 in
  if (t <? 20)%nat then at6 t (fun a b c d e f => BODY_16_19 a b c d e f (x 0%nat) (x 0%nat) (x 2%nat) (x 8%nat) (x 13%nat) s)
  else if (t <? 32)%nat then at6 t (fun a b c d e f => BODY_20_31 a b c d e f (x 0%nat) (x 0%nat) (x 2%nat) (x 8%nat) (x 13%nat) s)
  else if (t <? 40)%nat then at6 t (fun a b c d e f => BODY_32_39 a b c d e f (x 0%nat) (x 2%nat) (x 8%nat) (x 13%nat) s)
  else if (t <? 60)%nat then at6 t (fun a b c d e f => BODY_40_59 a b c d e f (x 0%nat) (x 2%nat) (x 8%nat) (x 13%nat) s)
  else at6 t (fun a b c d e f => BODY_60_79 a b c d e f (x 0%nat) (x 2%nat) (x 8%nat) (x 13%nat) s).

Lemma sha1_rounds_unrolled s : rounds_16_79 s = fold_left step_next (seq 16 64) s.
Proof. cbv [rounds_16_79 fold_left seq step_next at6 Nat.ltb Nat.leb]. reflexivity. Qed.

Definition code_F (t : nat) : Z -> Z -> Z -> Z :=
  if (t <? 20)%nat then F_00_19 else if (t <? 40)%nat then F_20_39 else if (t <? 60)%nat then F_40_59 else F_60_79.

Lemma code_F_spec t b c d : code_F t b c d = sha1_f t b c d.
Proof.
  unfold code_F, sha1_f. destruct (t <? 20)%nat; [apply F_00_19_spec|]. destruct (t <? 40)%nat; [reflexivity|].
  destruct (t <? 60)%nat; [apply F_40_59_spec|reflexivity].
Qed.

(** All kinds of rounds are one. *)
Lemma step_next_turn t s : length (fst s) = 6%nat -> length (snd s) = 16%nat ->
  let x k := Nat.land (t + k) 15 in
  let w := ring_xor (x 0%nat) (x 2%nat) (x 8%nat) (x 13%nat) (snd s) in
  step_next s t = (at6 t (turn_regs (code_F t) (sha1_K t) w (fst s)), set_nth (x 0%nat) w (snd s)).
Proof.
  intros L LX. cbv zeta. unfold step_next, code_F, sha1_K.
  destruct (Nat.ltb_spec t 20); [now apply body_turn|].
  destruct (Nat.ltb_spec t 32); [replace (t <? 40)%nat with true by (symmetry; apply Nat.ltb_lt; lia); now apply body_turn|].
  destruct (Nat.ltb_spec t 40); [now apply body_turn|].
  destruct (Nat.ltb_spec t 60); [now apply body_turn|].
  apply last_body_turn; [assumption|]. rewrite land_15, LX. apply Nat.mod_upper_bound. lia.
Qed.

Section Rounds.
Context (W h : list Z) (words : list Z) (words_16 : length words = 16%nat) (W_def : W = extend sha1_next 64 words).

Definition sha1_run_ok (t : nat) (s : list Z * list Z) : Prop :=
  length (fst s) = 6%nat /\ view6 t (fst s) = sha1_rounds t W h /\ ring_ok t W (snd s).

Lemma sha1_rounds_S t : sha1_rounds (S t) W h = sha1_step (sha1_f t) (sha1_K t) (word W t) (sha1_rounds t W h).
Proof. unfold sha1_rounds. now rewrite seq_S, fold_left_app. Qed.

Lemma sha1_step_ext f g K x v : (forall b c d, f b c d = g b c d) -> sha1_step f K x v = sha1_step g K x v.
Proof. intros H. unfold sha1_step. do 6 (destruct v as [|? v]; try reflexivity). now rewrite H. Qed.

Lemma length_at6 F K x v t : length (at6 t (turn_regs F K x v)) = length v.
Proof. apply length_turn. Qed.

Lemma sha1_next_local X Y : (16 <= length X)%nat -> sha1_next (X ++ Y) (length X) = sha1_next X (length X).
Proof. intros L. unfold sha1_next, word. now rewrite !app_nth1 by lia. Qed.

Lemma ring_xor_spec t X : (16 <= t < 80)%nat -> ring_ok t W X ->
  ring_xor (Nat.land (t + 0) 15) (Nat.land (t + 2) 15) (Nat.land (t + 8) 15) (Nat.land (t + 13) 15) X = word W t.
Proof.
  intros Ht R. unfold ring_xor. rewrite !(ring_at t W) by (assumption || lia).
  rewrite W_def at 5. rewrite extend_next, <- W_def by (lia || apply sha1_next_local). unfold sha1_next.
  change (CRYPTO_rotl_u32 ?x 1) with (ROTL 32 1 x). f_equal.
  replace (t - (16 - 0))%nat with (t - 16)%nat by lia. replace (t - (16 - 2))%nat with (t - 14)%nat by lia.
  replace (t - (16 - 8))%nat with (t - 8)%nat by lia. replace (t - (16 - 13))%nat with (t - 3)%nat by lia.
  apply Z.bits_inj'. intros i _. rewrite !Z.lxor_spec. btauto.
Qed.

Lemma sha1_run_next t s : (16 <= t < 80)%nat -> sha1_run_ok t s -> sha1_run_ok (S t) (step_next s t).
Proof.
  intros Ht (L & V & R). rewrite step_next_turn by (assumption || apply R). cbv zeta. rewrite ring_xor_spec by assumption.
  unfold sha1_run_ok. cbn [fst snd]. rewrite length_at6, view6_turn, V, sha1_rounds_S by assumption.
  split; [assumption|]. split; [apply sha1_step_ext, code_F_spec|]. rewrite Nat.add_0_r, land_15. now apply ring_ok_set.
Qed.

Lemma sha1_run_first v t : (t < 16)%nat -> length v = 6%nat /\ view6 t v = sha1_rounds t W h ->
  length (at6 t (turn_regs F_00_19 K_00_19 (word words t) v)) = 6%nat /\
  view6 (S t) (at6 t (turn_regs F_00_19 K_00_19 (word words t) v)) = sha1_rounds (S t) W h.
Proof.
  intros Ht [L V]. assert (Ew : word W t = word words t) by (rewrite W_def; apply extend_prefix; lia).
  rewrite length_at6, view6_turn, V, sha1_rounds_S, Ew by assumption. split; [assumption|].
  assert (E : code_F t = F_00_19 /\ sha1_K t = K_00_19).
  { assert (T : (t <? 20)%nat = true) by (apply Nat.ltb_lt; lia). unfold code_F, sha1_K. rewrite T. split; reflexivity. }
  destruct E as [<- <-]. apply sha1_step_ext, code_F_spec.
Qed.
End Rounds.

Lemma length_block_words n block : length (block_words n block) = 16%nat.
Proof. unfold block_words. now rewrite length_map, length_chunks. Qed.

Lemma view6_start h : length h = 5%nat -> view6 0 (h ++ [0]) = h.
Proof. intros L. do 5 (destruct h as [|? h]; [discriminate L|]). destruct h; [reflexivity|discriminate L]. Qed.

(** After 80 rounds the variables are in E, T, A, B and C. *)
Lemma add_to_state h v : length h = 5%nat -> length v = 6%nat ->
  [u32 (word h 0 + word v 4); u32 (word h 1 + word v 5); u32 (word h 2 + word v 0); u32 (word h 3 + word v 1); u32 (word h 4 + word v 2)] =
  add_words h (view6 80 v).
Proof.
  intros L Lv. do 5 (destruct h as [|? h]; [discriminate L|]). destruct h; [|discriminate L].
  do 6 (destruct v as [|? v]; [discriminate Lv|]). destruct v; [reflexivity|discriminate Lv].
Qed.

Lemma sha1_block_spec state data : length state = 5%nat -> (64 <= length data)%nat -> bytes_ok data ->
  sha1_block state data = sha1_compress state (firstn 64 data).
Proof.
  intros L Ld Hd. unfold sha1_compress. set (words := block_words 4 (firstn 64 data)).
  assert (Lw : length words = 16%nat) by apply length_block_words.
  assert (Ew : words = map (word_at data) (seq 0 16))
    by (apply (block_words_load be_val 4 CRYPTO_load_u32_be); [lia|apply load_u32_be_spec|assumption]).
  remember (extend sha1_next 64 words) as W eqn:EW.
  assert (I : sha1_run_ok W state (16 + 64) (rounds_16_79 (rounds_00_15 data (state ++ [0], repeat 0 16)))).
  { rewrite sha1_rounds_unrolled, rounds_00_15_spec, <- Ew.
    apply (fold_seq_inv (sha1_run_ok W state)); [intros t s Ht Hs; apply (sha1_run_next W state words Lw EW t s); [lia|exact Hs]|].
    assert (V : length (fold_left (fun v t => at6 t (turn_regs F_00_19 K_00_19 (word_at data t) v)) (seq 0 16) (state ++ [0])) = 6%nat /\
      view6 16 (fold_left (fun v t => at6 t (turn_regs F_00_19 K_00_19 (word_at data t) v)) (seq 0 16) (state ++ [0])) = sha1_rounds 16 W state).
    { apply (fold_seq_inv (fun t v => length v = 6%nat /\ view6 t v = sha1_rounds t W state) _ 16 0).
      - intros t v Ht Hv. assert (Et : word_at data t = word words t).
        { rewrite Ew. unfold word. rewrite (nth_indep _ 0 (word_at data 0)), map_nth, seq_nth by (rewrite ?length_map, ?length_seq; lia). reflexivity. }
        rewrite Et. apply (sha1_run_first W state words Lw EW v t); [lia|exact Hv].
      - split; [rewrite length_app, L; reflexivity|]. change (sha1_rounds 0 W state) with state. now apply view6_start. }
    split; [apply V|split; [apply V|]]. cbn [fst snd]. split; [assumption|]. intros j Hj _.
    rewrite Nat.mod_small by lia. rewrite EW. symmetry. apply extend_prefix. lia. }
  destruct I as (Lv & Vv & _). unfold sha1_block. cbv zeta.
  change (sha1_rounds 80 W state) with (sha1_rounds (16 + 64) W state). rewrite <- Vv. now apply add_to_state.
Qed.

Lemma length_sha1_rounds n W v : length (sha1_rounds n W v) = length v.
Proof.
  unfold sha1_rounds. generalize (seq 0 n). intros l. revert v. induction l as [|t l IH]; intros v; cbn [fold_left]; [reflexivity|].
  rewrite IH. do 6 (destruct v as [|? v]; [reflexivity|]). reflexivity.
Qed.

Lemma length_sha1_compress H block : length (sha1_compress H block) = length H.
Proof. unfold sha1_compress. rewrite length_add_words, length_sha1_rounds. apply Nat.min_id. Qed.

Lemma sha1_block_loop_spec n : forall state data, length state = 5%nat -> (n * 64 <= length data)%nat -> bytes_ok data ->
  block_loop n state data = fold_left sha1_compress (chunks n 64 data) state.
Proof.
  induction n as [|n IH]; intros state data L Ld Hd; cbn [block_loop chunks fold_left]; [reflexivity|].
  rewrite sha1_block_spec by (assumption || lia).
  apply IH; [now rewrite length_sha1_compress|rewrite length_skipn; lia|bytes].
Qed.

Lemma sha1_blocks_ok h data n : length h = 5%nat -> 0 < n -> n * SHA_CBLOCK <= Z.of_nat (length data) -> bytes_ok data ->
  sha1_block_data_order h data n = fold_left sha1_compress (chunks (Z.to_nat n) (Z.to_nat SHA_CBLOCK) data) h.
Proof. intros L Hn Hl Hd. apply sha1_block_loop_spec; [assumption| |assumption]. unfold SHA_CBLOCK in Hl. lia. Qed.

Lemma sha1_compress_5 h b : length h = 5%nat -> length (sha1_compress h b) = 5%nat.
Proof. intros L. now rewrite length_sha1_compress. Qed.

(** The context that has absorbed [m] *)
Definition sha1_of (m : list Z) : md32 := md32_of SHA_CBLOCK sha1_compress (md_h SHA1_Init) m.

Lemma sha1_init_of : SHA1_Init = sha1_of [].
Proof. now apply (md32_of_nil SHA_CBLOCK). Qed.

Lemma sha1_update_of m p : bytes_ok m -> piece_ok p -> SHA1_Update (sha1_of m) p = sha1_of (m ++ p).
Proof.
  intros Hm [Hp Lp]. apply crypto_md32_update_spec with 5%nat; [easy|exact sha1_compress_5|exact sha1_blocks_ok|reflexivity|assumption..].
Qed.

Lemma sha1_final_of m : bytes_ok m -> fst (SHA1_Final (sha1_of m)) = sha1_hash m.
Proof.
  intros Hm. unfold SHA1_Final, sha1_of.
  rewrite crypto_md32_final_spec with (hn := 5%nat);
    [|easy|exact sha1_compress_5|exact sha1_blocks_ok|reflexivity|assumption].
  cbn [fst md_h length_encoding]. unfold sha1_hash. change (Z.to_nat SHA_CBLOCK) with 64%nat. change SHA_CBLOCK with 64.
  set (X := hash_blocks _ _ _ _).
  assert (W : Forall (word_ok 32) X /\ length X = 5%nat).
  { apply (hash_blocks_forall (fun h => Forall (word_ok 32) h /\ length h = 5%nat)).
    - intros h b [_ L]. split; [apply add_words_ok|now apply sha1_compress_5].
    - split; [now apply word_list_check|reflexivity]. }
  destruct W as [W L]. do 5 (destruct X as [|? X]; [discriminate L|]). destruct X; [|discriminate L].
  rewrite !Forall_cons_iff in W. cbn [map concat word nth]. rewrite app_nil_r, !store_u32_be_spec by easy. reflexivity.
Qed.

(** however a message is cut into updates, [SHA1_Final] writes the SHA-1 hash
    of FIPS 180-4 of the whole: the code's simplified functions of three words,
    its six turning registers and its ring of sixteen words compute the eighty
    steps of the standard for every block of the padded message. *)
Theorem SHA1_correct (pieces : list (list Z)) (pieces_ok : Forall piece_ok pieces) :
  fst (SHA1_Final (fold_left SHA1_Update pieces SHA1_Init)) = sha1_hash (concat pieces).
Proof.
  rewrite sha1_init_of, (absorb_pieces sha1_of SHA1_Update sha1_update_of) by (assumption || constructor).
  apply sha1_final_of. now apply pieces_bytes.
Qed.

Lemma SHA1_correct_witness : fst (SHA1_Final (fold_left SHA1_Update [[97]; [98; 99]] SHA1_Init)) = sha1_hash [97; 98; 99].
Proof.
  refine (SHA1_correct [[97]; [98; 99]] _).
  apply Forall_cons; [|apply Forall_cons; [|apply Forall_nil]]; split; now (apply bytes_ok_check || vm_compute).
Defined.
