(* ===== verification/Regs4.v ===== *)
(** * Four turning registers

    What the rounds of MD4 and MD5 share: the variables A, B, C and D are a list
    of four registers, one of which a round changes; the next round has it for
    its second variable. *)

From Stdlib Require Import ZArith Lia List Bool.
From S2P Require Import Prelude Endian ChaCha Md32 Sha2.
Import ListNotations.

(** The reference's step: the variables move on by one. *)
Definition step4 (f : Z -> Z -> Z -> Z -> Z) (v : list Z) : list Z :=
  match v with
  | [a; b; c; d] => [d; f a b c d; b; c]
  | _ => v
  end.

(** The place of the variable [j] in round [t] *)
Definition place4 (t j : nat) : nat := (j + (4 - t mod 4)) mod 4.

Definition view4 (t : nat) (v : list Z) : list Z := map (fun j => word v (place4 t j)) (seq 0 4).

Definition at4 {A} (t : nat) (f : nat -> nat -> nat -> nat -> A) : A := f (place4 t 0) (place4 t 1) (place4 t 2) (place4 t 3).

Lemma place4_mod t j : place4 t j = place4 (t mod 4) j.
Proof. unfold place4. now rewrite Nat.Div0.mod_mod. Qed.

Lemma view4_mod t v : view4 t v = view4 (t mod 4) v.
Proof. unfold view4. apply map_ext. intros j. now rewrite place4_mod. Qed.

Lemma at4_mod {A} t (f : _ -> _ -> _ -> _ -> A) : at4 t f = at4 (t mod 4) f.
Proof. unfold at4. now rewrite !(place4_mod t). Qed.

(** A round that writes [f] of the variables into the first one's place *)
Definition turn4 (f : Z -> Z -> Z -> Z -> Z) (v : list Z) (a b c d : nat) : list Z :=
  set_nth a (f (word v a) (word v b) (word v c) (word v d)) v.

Lemma view4_turn f t v : length v = 4%nat -> view4 (S t) (at4 t (turn4 f v)) = step4 f (view4 t v).
Proof.
  intros L. rewrite at4_mod, (view4_mod t), (view4_mod (S t)).
  replace (S t mod 4)%nat with ((t mod 4 + 1) mod 4)%nat by (rewrite Nat.Div0.add_mod_idemp_l; f_equal; lia).
  pose proof (Nat.mod_upper_bound t 4 ltac:(lia)) as B. generalize dependent (t mod 4)%nat. intros p B.
  do 4 (destruct v as [|? v]; [discriminate L|]). destruct v; [|discriminate L]. clear L.
  do 4 (destruct p as [|p]; [reflexivity|]). lia.
Qed.

(** Rounds after one another *)
Section Rounds.
Context (code : nat -> list Z -> list Z) (f : nat -> Z -> Z -> Z -> Z -> Z).
Context (code_turn : forall t v, length v = 4%nat -> code t v = at4 t (turn4 (f t) v)).

Lemma rounds4 n v : length v = 4%nat ->
  length (fold_left (fun v t => code t v) (seq 0 n) v) = 4%nat /\
  view4 n (fold_left (fun v t => code t v) (seq 0 n) v) = fold_left (fun v t => step4 (f t) v) (seq 0 n) v.
Proof.
  intros L. induction n as [|n [IL IV]].
  - split; [assumption|]. do 4 (destruct v as [|? v]; [discriminate L|]). destruct v; [reflexivity|discriminate L].
  - rewrite seq_S, !fold_left_app. cbn [fold_left Nat.add]. rewrite code_turn by assumption.
    split; [unfold at4, turn4; now rewrite length_set_nth|]. now rewrite view4_turn, IV.
Qed.
End Rounds.

Lemma view4_whole n v : (n mod 4 = 0)%nat -> length v = 4%nat -> view4 n v = v.
Proof.
  intros N L. rewrite view4_mod, N. do 4 (destruct v as [|? v]; [discriminate L|]). destruct v; [reflexivity|discriminate L].
Qed.

Lemma length_step4 f v : length (step4 f v) = length v.
Proof. do 5 (destruct v as [|? v]; [reflexivity|]). reflexivity. Qed.

Lemma length_steps4 (f : nat -> Z -> Z -> Z -> Z -> Z) l : forall v, length (fold_left (fun v t => step4 (f t) v) l v) = length v.
Proof. induction l as [|t l IH]; intros v; cbn [fold_left]; [reflexivity|]. now rewrite IH, length_step4. Qed.

(** The rotation of the standards *)
Definition ROTL32 (n x : Z) : Z := Z.lor (u32 (Z.shiftl x n)) (Z.shiftr x (32 - n)).

Lemma rotl_spec x s : 0 < s < 32 -> CRYPTO_rotl_u32 x s = ROTL32 s x.
Proof.
  intros Hs. unfold CRYPTO_rotl_u32, ROTL32. do 2 f_equal. change 31 with (2 ^ 5 - 1). rewrite land_mask by lia.
  symmetry. apply Z.mod_unique with (-1); lia.
Qed.

(** The words of a block, little-endian *)
Definition block_words_le (block : list Z) : list Z := map le_val (chunks 16 4 block).

(** The word that [data] points to when it has been advanced [i] times *)
Definition word_le (data : list Z) (i : nat) : Z := CRYPTO_load_u32_le (skipn (4 * i) data).

Lemma word_le_spec data i : (64 <= length data)%nat -> bytes_ok data -> (i < 16)%nat ->
  word (block_words_le (firstn 64 data)) i = word_le data i.
Proof.
  intros L Hd Hi. unfold block_words_le. rewrite (block_words_load le_val 4 CRYPTO_load_u32_le) by (assumption || reflexivity || lia).
  unfold word. rewrite (nth_indep _ 0 (CRYPTO_load_u32_le (skipn (4 * 0) data))) by (rewrite length_map, length_seq; lia).
  rewrite (map_nth (fun i => CRYPTO_load_u32_le (skipn (4 * i) data))), seq_nth by lia. reflexivity.
Qed.

Lemma fold_left_eq {A B} (f g : A -> B -> A) l : (forall a b, In b l -> f a b = g a b) -> forall a, fold_left f l a = fold_left g l a.
Proof. induction l as [|b l IH]; intros H a; cbn [fold_left]; [reflexivity|]. rewrite H by now left. apply IH. intros. apply H. now right. Qed.
