(* ===== verification/Md5.v ===== *)
(** * MD5 ([crypto/fipsmodule/md5/md5.c])

    The code without assembly: A, B, C and D are a list of four registers
    ([Regs4]), the words of the block a list of sixteen, and the rounds are
    written out as in the code, with the loads between them.  The reference is
    RFC 1321. *)

From Stdlib Require Import ZArith Lia ZifyBool List Bool Btauto.
From S2P Require Import Prelude Endian ChaCha Md32 Sha2 Regs4.
Import ListNotations.

(** ** Definitions *)

Definition MD5_CBLOCK : Z := 64.
Definition MD5_DIGEST_LENGTH : Z := 16.

Definition F (b c d : Z) : Z := Z.lxor (Z.land (Z.lxor c d) b) d.
Definition G (b c d : Z) : Z := Z.lxor (Z.land (Z.lxor b c) d) c.
Definition H (b c d : Z) : Z := Z.lxor (Z.lxor b c) d.
Definition I (b c d : Z) : Z := Z.lxor (Z.lor (u32 (Z.lnot d)) b) c.

(** What the round macros have in common *)
Definition ROUND (f : Z -> Z -> Z -> Z) (a b c d : nat) (k s t : Z) (v : list Z) : list Z :=
  let v := set_nth a (u32 (word v a + (k + t + f (word v b) (word v c) (word v d)))) v in
  let v := set_nth a (CRYPTO_rotl_u32 (word v a) s) v in
  set_nth a (u32 (word v a + word v b)) v.

(** The words [X] are the second part of the state. *)
Definition R0 (a b c d k : nat) (s t : Z) (st : list Z * list Z) : list Z * list Z :=
  (ROUND F a b c d (word (snd st) k) s t (fst st), snd st).

Definition R1 (a b c d k : nat) (s t : Z) (st : list Z * list Z) : list Z * list Z :=
  (ROUND G a b c d (word (snd st) k) s t (fst st), snd st).

Definition R2 (a b c d k : nat) (s t : Z) (st : list Z * list Z) : list Z * list Z :=
  (ROUND H a b c d (word (snd st) k) s t (fst st), snd st).

Definition R3 (a b c d k : nat) (s t : Z) (st : list Z * list Z) : list Z * list Z :=
  (ROUND I a b c d (word (snd st) k) s t (fst st), snd st).

(** [X(i) = CRYPTO_load_u32_le(data); data += 4] *)
Definition load (data : list Z) (i : nat) (st : list Z * list Z) : list Z * list Z :=
  (fst st, set_nth i (word_le data i) (snd st)).

Definition md5_rounds (data : list Z) (s : list Z * list Z) : list Z * list Z :=
  let s := load data 0 s in
  let s := load data 1 s in
  let s := R0 0 1 2 3 0 7 0xd76aa478 s in
  let s := load data 2 s in
  let s := R0 3 0 1 2 1 12 0xe8c7b756 s in
  let s := load data 3 s in
  let s := R0 2 3 0 1 2 17 0x242070db s in
  let s := load data 4 s in
  let s := R0 1 2 3 0 3 22 0xc1bdceee s in
  let s := load data 5 s in
  let s := R0 0 1 2 3 4 7 0xf57c0faf s in
  let s := load data 6 s in
  let s := R0 3 0 1 2 5 12 0x4787c62a s in
  let s := load data 7 s in
  let s := R0 2 3 0 1 6 17 0xa8304613 s in
  let s := load data 8 s in
  let s := R0 1 2 3 0 7 22 0xfd469501 s in
  let s := load data 9 s in
  let s := R0 0 1 2 3 8 7 0x698098d8 s in
  let s := load data 10 s in
  let s := R0 3 0 1 2 9 12 0x8b44f7af s in
  let s := load data 11 s in
  let s := R0 2 3 0 1 10 17 0xffff5bb1 s in
  let s := load data 12 s in
  let s := R0 1 2 3 0 11 22 0x895cd7be s in
  let s := load data 13 s in
  let s := R0 0 1 2 3 12 7 0x6b901122 s in
  let s := load data 14 s in
  let s := R0 3 0 1 2 13 12 0xfd987193 s in
  let s := load data 15 s in
  let s := R0 2 3 0 1 14 17 0xa679438e s in
  let s := R0 1 2 3 0 15 22 0x49b40821 s in
  let s := R1 0 1 2 3 1 5 0xf61e2562 s in
  let s := R1 3 0 1 2 6 9 0xc040b340 s in
  let s := R1 2 3 0 1 11 14 0x265e5a51 s in
  let s := R1 1 2 3 0 0 20 0xe9b6c7aa s in
  let s := R1 0 1 2 3 5 5 0xd62f105d s in
  let s := R1 3 0 1 2 10 9 0x02441453 s in
  let s := R1 2 3 0 1 15 14 0xd8a1e681 s in
  let s := R1 1 2 3 0 4 20 0xe7d3fbc8 s in
  let s := R1 0 1 2 3 9 5 0x21e1cde6 s in
  let s := R1 3 0 1 2 14 9 0xc33707d6 s in
  let s := R1 2 3 0 1 3 14 0xf4d50d87 s in
  let s := R1 1 2 3 0 8 20 0x455a14ed s in
  let s := R1 0 1 2 3 13 5 0xa9e3e905 s in
  let s := R1 3 0 1 2 2 9 0xfcefa3f8 s in
  let s := R1 2 3 0 1 7 14 0x676f02d9 s in
  let s := R1 1 2 3 0 12 20 0x8d2a4c8a s in
  let s := R2 0 1 2 3 5 4 0xfffa3942 s in
  let s := R2 3 0 1 2 8 11 0x8771f681 s in
  let s := R2 2 3 0 1 11 16 0x6d9d6122 s in
  let s := R2 1 2 3 0 14 23 0xfde5380c s in
  let s := R2 0 1 2 3 1 4 0xa4beea44 s in
  let s := R2 3 0 1 2 4 11 0x4bdecfa9 s in
  let s := R2 2 3 0 1 7 16 0xf6bb4b60 s in
  let s := R2 1 2 3 0 10 23 0xbebfbc70 s in
  let s := R2 0 1 2 3 13 4 0x289b7ec6 s in
  let s := R2 3 0 1 2 0 11 0xeaa127fa s in
  let s := R2 2 3 0 1 3 16 0xd4ef3085 s in
  let s := R2 1 2 3 0 6 23 0x04881d05 s in
  let s := R2 0 1 2 3 9 4 0xd9d4d039 s in
  let s := R2 3 0 1 2 12 11 0xe6db99e5 s in
  let s := R2 2 3 0 1 15 16 0x1fa27cf8 s in
  let s := R2 1 2 3 0 2 23 0xc4ac5665 s in
  let s := R3 0 1 2 3 0 6 0xf4292244 s in
  let s := R3 3 0 1 2 7 10 0x432aff97 s in
  let s := R3 2 3 0 1 14 15 0xab9423a7 s in
  let s := R3 1 2 3 0 5 21 0xfc93a039 s in
  let s := R3 0 1 2 3 12 6 0x655b59c3 s in
  let s := R3 3 0 1 2 3 10 0x8f0ccc92 s in
  let s := R3 2 3 0 1 10 15 0xffeff47d s in
  let s := R3 1 2 3 0 1 21 0x85845dd1 s in
  let s := R3 0 1 2 3 8 6 0x6fa87e4f s in
  let s := R3 3 0 1 2 15 10 0xfe2ce6e0 s in
  let s := R3 2 3 0 1 6 15 0xa3014314 s in
  let s := R3 1 2 3 0 13 21 0x4e0811a1 s in
  let s := R3 0 1 2 3 4 6 0xf7537e82 s in
  let s := R3 3 0 1 2 11 10 0xbd3af235 s in
  let s := R3 2 3 0 1 2 15 0x2ad7d2bb s in
  let s := R3 1 2 3 0 9 21 0xeb86d391 s in
  s.

(** A block; the words are not initialised. *)
Definition md5_block (state data : list Z) : list Z := add_words state (fst (md5_rounds data (state, repeat 0 16))).

Fixpoint block_loop (num : nat) (state data : list Z) : list Z :=
  match num with
  | O => state
  | S num => block_loop num (md5_block state data) (skipn 64 data)
  end.

Definition md5_block_data_order (state data : list Z) (num : Z) : list Z := block_loop (Z.to_nat num) state data.

(** [MD5_CTX] is the context of [Md32]. *)
Definition MD5_Init : md32 :=
  mk_md32 [0x67452301; 0xefcdab89; 0x98badcfe; 0x10325476] (repeat 0 64) 0 0 0.

Definition MD5_Transform (c : md32) (data : list Z) : md32 :=
  mk_md32 (md5_block_data_order (md_h c) data 1) (md_data c) (md_num c) (md_Nh c) (md_Nl c).

Definition MD5_Update (c : md32) (data : list Z) : md32 := crypto_md32_update md5_block_data_order MD5_CBLOCK c data.

Definition MD5_Final (c : md32) : list Z * md32 :=
  let c := crypto_md32_final md5_block_data_order MD5_CBLOCK false c in
  (CRYPTO_store_u32_le (word (md_h c) 0) ++ CRYPTO_store_u32_le (word (md_h c) 1) ++
   CRYPTO_store_u32_le (word (md_h c) 2) ++ CRYPTO_store_u32_le (word (md_h c) 3), c).

Definition MD5 (data : list Z) : list Z := fst (MD5_Final (MD5_Update MD5_Init data)).

(** ** The reference: RFC 1321, section 3.4 *)

Definition md5_f (t : nat) (x y z : Z) : Z :=
  match (t / 16)%nat with
  | 0%nat => Z.lor (Z.land x y) (Z.ldiff z x)
  | 1%nat => Z.lor (Z.land x z) (Z.ldiff y z)
  | 2%nat => Z.lxor (Z.lxor x y) z
  | _ => Z.lxor y (Z.lor x (u32 (Z.lnot z)))
  end.

(** The word that step [t] adds, and how far it turns *)
Definition md5_k (t : nat) : nat :=
  (match t / 16 with
   | 0 => t
   | 1 => 5 * t + 1
   | 2 => 3 * t + 5
   | _ => 7 * t
   end mod 16)%nat.

Definition md5_s (t : nat) : Z :=
  word (match (t / 16)%nat with
        | 0%nat => [7; 12; 17; 22]
        | 1%nat => [5; 9; 14; 20]
        | 2%nat => [4; 11; 16; 23]
        | _ => [6; 10; 15; 21]
        end) (t mod 4).

(** The table [T] of the standard, the integer parts of 2^32 times |sin(i)| *)
Definition md5_T : list Z :=
  [0xd76aa478; 0xe8c7b756; 0x242070db; 0xc1bdceee; 0xf57c0faf; 0x4787c62a;
   0xa8304613; 0xfd469501; 0x698098d8; 0x8b44f7af; 0xffff5bb1; 0x895cd7be;
   0x6b901122; 0xfd987193; 0xa679438e; 0x49b40821; 0xf61e2562; 0xc040b340;
   0x265e5a51; 0xe9b6c7aa; 0xd62f105d; 0x02441453; 0xd8a1e681; 0xe7d3fbc8;
   0x21e1cde6; 0xc33707d6; 0xf4d50d87; 0x455a14ed; 0xa9e3e905; 0xfcefa3f8;
   0x676f02d9; 0x8d2a4c8a; 0xfffa3942; 0x8771f681; 0x6d9d6122; 0xfde5380c;
   0xa4beea44; 0x4bdecfa9; 0xf6bb4b60; 0xbebfbc70; 0x289b7ec6; 0xeaa127fa;
   0xd4ef3085; 0x04881d05; 0xd9d4d039; 0xe6db99e5; 0x1fa27cf8; 0xc4ac5665;
   0xf4292244; 0x432aff97; 0xab9423a7; 0xfc93a039; 0x655b59c3; 0x8f0ccc92;
   0xffeff47d; 0x85845dd1; 0x6fa87e4f; 0xfe2ce6e0; 0xa3014314; 0x4e0811a1;
   0xf7537e82; 0xbd3af235; 0x2ad7d2bb; 0xeb86d391].

(** The new variable of step [t] *)
Definition md5_value (t : nat) (X a b c d : Z) : Z :=
  u32 (b + ROTL32 (md5_s t) (u32 (a + md5_f t b c d + X + word md5_T t))).

Definition md5_compress (H block : list Z) : list Z :=
  let X := block_words_le block in
  add_words H (fold_left (fun v t => step4 (md5_value t (word X (md5_k t))) v) (seq 0 64) H).

Definition md5_hash (m : list Z) : list Z :=
  concat (map (le_bytes 4) (hash_blocks md5_compress 64 (md_h MD5_Init) (m ++ padding 64 8 m (le_bytes 8 (bit_length m))))).

Example md5_abc : MD5 [97; 98; 99] = be_bytes 16 0x900150983cd24fb0d6963f7d28e17f72.
Proof. vm_compute. reflexivity. Qed.

Example md5_hash_abc : md5_hash [97; 98; 99] = be_bytes 16 0x900150983cd24fb0d6963f7d28e17f72.
Proof. vm_compute. reflexivity. Qed.

(** ** Rounds *)

Lemma md5_F_spec b c d : F b c d = Z.lor (Z.land b c) (Z.ldiff d b).
Proof.
  unfold F. apply Z.bits_inj'. intros i _. rewrite Z.lxor_spec, Z.lor_spec, !Z.land_spec, Z.lxor_spec, Z.ldiff_spec. btauto.
Qed.

Lemma md5_G_spec b c d : G b c d = Z.lor (Z.land b d) (Z.ldiff c d).
Proof.
  unfold G. apply Z.bits_inj'. intros i _. rewrite Z.lxor_spec, Z.lor_spec, !Z.land_spec, Z.lxor_spec, Z.ldiff_spec. btauto.
Qed.

Definition code_f (t : nat) : Z -> Z -> Z -> Z := match (t / 16)%nat with 0%nat => F | 1%nat => G | 2%nat => H | _ => I end.

Lemma md5_code_f t b c d : code_f t b c d = md5_f t b c d.
Proof.
  unfold code_f, md5_f. destruct (t / 16)%nat as [|[|[|n]]]; [apply md5_F_spec|apply md5_G_spec|reflexivity|].
  unfold I. rewrite Z.lxor_comm. f_equal. apply Z.lor_comm.
Qed.

Definition code_round (data : list Z) (t : nat) (v : list Z) : list Z :=
  at4 t (fun a b c d => ROUND (code_f t) a b c d (word_le data (md5_k t)) (md5_s t) (word md5_T t) v).

Lemma md5_load_words data i v X : load data i (v, X) = (v, set_nth i (word_le data i) X).
Proof. reflexivity. Qed.

Lemma md5_round_words a b c d k s t v X :
  R0 a b c d k s t (v, X) = (ROUND F a b c d (word X k) s t v, X) /\
  R1 a b c d k s t (v, X) = (ROUND G a b c d (word X k) s t v, X) /\
  R2 a b c d k s t (v, X) = (ROUND H a b c d (word X k) s t v, X) /\ R3 a b c d k s t (v, X) = (ROUND I a b c d (word X k) s t v, X).
Proof. repeat split. Qed.

Lemma md5_rounds_spec data v :
  fst (md5_rounds data (v, repeat 0 16)) = fold_left (fun v t => code_round data t v) (seq 0 64) v.
Proof.
  pose proof md5_round_words as E. unfold md5_rounds. cbv zeta.
  repeat (rewrite md5_load_words || rewrite (proj1 (E _ _ _ _ _ _ _ _ _))).
  cbn [set_nth repeat].
  repeat (rewrite (proj1 (proj2 (E _ _ _ _ _ _ _ _ _)))).
  repeat (rewrite (proj1 (proj2 (proj2 (E _ _ _ _ _ _ _ _ _))))). repeat (rewrite (proj2 (proj2 (proj2 (E _ _ _ _ _ _ _ _ _))))).
  cbn [fst word nth seq fold_left]. unfold code_round, at4. reflexivity.
Qed.

Lemma md5_k_bound t : (md5_k t < 16)%nat.
Proof. apply Nat.mod_upper_bound. lia. Qed.

Lemma md5_s_bound t : 0 < md5_s t < 32.
Proof.
  unfold md5_s. pose proof (Nat.mod_upper_bound t 4 ltac:(lia)) as B. generalize dependent (t mod 4)%nat. intros p B.
  destruct (t / 16)%nat as [|[|[|n]]]; do 4 (destruct p as [|p]; [cbn; lia|]); lia.
Qed.

(** A round of the code writes the reference's value. *)
Lemma md5_code_turn data t v : length v = 4%nat -> code_round data t v = at4 t (turn4 (md5_value t (word_le data (md5_k t))) v).
Proof.
  intros L. unfold code_round. set (k := word_le data (md5_k t)). set (s := md5_s t). set (T := word md5_T t).
  rewrite (at4_mod t), (at4_mod t (turn4 _ _)).
  assert (E : forall a b c d, u32 (a + (k + T + code_f t b c d)) = u32 (a + md5_f t b c d + k + T))
    by (intros; rewrite md5_code_f; f_equal; lia).
  assert (Hs : 0 < s < 32) by apply md5_s_bound. assert (C : forall x y, u32 (x + y) = u32 (y + x)) by (intros; f_equal; lia).
  pose proof (Nat.mod_upper_bound t 4 ltac:(lia)) as B. unfold turn4, ROUND, md5_value. fold s. fold T. clearbody s T k.
  generalize dependent (t mod 4)%nat. intros p Bp. do 4 (destruct v as [|? v]; [discriminate L|]). destruct v; [|discriminate L].
  do 4 (destruct p as [|p]; [cbn -[Z.add]; rewrite E, rotl_spec by assumption; rewrite (C _ (ROTL32 _ _)); reflexivity|]). lia.
Qed.

Lemma md5_block_spec state data : length state = 4%nat -> (64 <= length data)%nat -> bytes_ok data ->
  md5_block state data = md5_compress state (firstn 64 data).
Proof.
  intros L Ld Hd. unfold md5_block, md5_compress. rewrite md5_rounds_spec. f_equal.
  destruct (rounds4 (code_round data) (fun t => md5_value t (word_le data (md5_k t))) (md5_code_turn data) 64 state L) as [IL IV].
  rewrite view4_whole in IV by (reflexivity || assumption). rewrite IV. apply fold_left_eq. intros v t Ht. apply in_seq in Ht.
  cbv zeta. rewrite word_le_spec by (assumption || (apply md5_k_bound)). reflexivity.
Qed.

Lemma length_md5_compress H block : length (md5_compress H block) = length H.
Proof. unfold md5_compress. cbv zeta. rewrite length_add_words, length_steps4. apply Nat.min_id. Qed.

Lemma md5_block_loop_spec n : forall state data, length state = 4%nat -> (n * 64 <= length data)%nat -> bytes_ok data ->
  block_loop n state data = fold_left md5_compress (chunks n 64 data) state.
Proof.
  induction n as [|n IH]; intros state data L Ld Hd; cbn [block_loop chunks fold_left]; [reflexivity|].
  rewrite md5_block_spec by (assumption || lia).
  apply IH; [now rewrite length_md5_compress|rewrite length_skipn; lia|bytes].
Qed.

Lemma md5_blocks_ok h data n : length h = 4%nat -> 0 < n -> n * MD5_CBLOCK <= Z.of_nat (length data) -> bytes_ok data ->
  md5_block_data_order h data n = fold_left md5_compress (chunks (Z.to_nat n) (Z.to_nat MD5_CBLOCK) data) h.
Proof. intros L Hn Hl Hd. apply md5_block_loop_spec; [assumption| |assumption]. unfold MD5_CBLOCK in Hl. lia. Qed.

Lemma md5_compress_4 h b : length h = 4%nat -> length (md5_compress h b) = 4%nat.
Proof. intros L. now rewrite length_md5_compress. Qed.

(** The context that has absorbed [m] *)
Definition md5_of (m : list Z) : md32 := md32_of MD5_CBLOCK md5_compress (md_h MD5_Init) m.

Lemma md5_init_of : MD5_Init = md5_of [].
Proof. now apply (md32_of_nil MD5_CBLOCK). Qed.

Lemma md5_update_of m p : bytes_ok m -> piece_ok p -> MD5_Update (md5_of m) p = md5_of (m ++ p).
Proof.
  intros Hm [Hp Lp]. apply crypto_md32_update_spec with 4%nat; [easy|exact md5_compress_4|exact md5_blocks_ok|reflexivity|assumption..].
Qed.

Lemma md5_final_of m : bytes_ok m -> fst (MD5_Final (md5_of m)) = md5_hash m.
Proof.
  intros Hm. unfold MD5_Final, md5_of.
  rewrite crypto_md32_final_spec with (hn := 4%nat);
    [|easy|exact md5_compress_4|exact md5_blocks_ok|reflexivity|assumption].
  cbn [fst md_h length_encoding]. unfold md5_hash. change (Z.to_nat MD5_CBLOCK) with 64%nat. change MD5_CBLOCK with 64.
  set (X := hash_blocks _ _ _ _).
  assert (L : length X = 4%nat) by (apply (hash_blocks_forall (fun h => length h = 4%nat)); [apply md5_compress_4|reflexivity]).
  do 4 (destruct X as [|? X]; [discriminate L|]). destruct X; [|discriminate L]. cbn [map concat word nth]. now rewrite app_nil_r.
Qed.

(** however a message is cut into updates, [MD5_Final] writes the MD5 hash of
    the standard of the whole message: its 64 steps for every block, and its
    length in little-endian order. *)
Theorem MD5_correct (pieces : list (list Z)) (pieces_ok : Forall piece_ok pieces) :
  fst (MD5_Final (fold_left MD5_Update pieces MD5_Init)) = md5_hash (concat pieces).
Proof.
  rewrite md5_init_of, (absorb_pieces md5_of MD5_Update md5_update_of) by (assumption || constructor).
  apply md5_final_of. now apply pieces_bytes.
Qed.

Lemma MD5_correct_witness : fst (MD5_Final (fold_left MD5_Update [[97]; [98; 99]] MD5_Init)) = md5_hash [97; 98; 99].
Proof.
  refine (MD5_correct [[97]; [98; 99]] _).
  apply Forall_cons; [|apply Forall_cons; [|apply Forall_nil]]; split; now (apply bytes_ok_check || vm_compute).
Defined.
