(* ===== verification/Md4.v ===== *)
(** * MD4 ([crypto/fipsmodule/md4/md4.c])

    The code without assembly: A, B, C and D are a list of four registers
    ([Regs4]), the words of the block a list of sixteen, and the rounds are
    written out as in the code, with the loads between them.  The reference is
    RFC 1320. *)

From Stdlib Require Import ZArith Lia ZifyBool List Bool Btauto.
From S2P Require Import Prelude Endian ChaCha Md32 Sha2 Regs4.
Import ListNotations.

(** ** Definitions *)

Definition MD4_CBLOCK : Z := 64.
Definition MD4_DIGEST_LENGTH : Z := 16.

Definition F (b c d : Z) : Z := Z.lxor (Z.land (Z.lxor c d) b) d.
Definition G (b c d : Z) : Z := Z.lor (Z.lor (Z.land b c) (Z.land b d)) (Z.land c d).
Definition H (b c d : Z) : Z := Z.lxor (Z.lxor b c) d.

(** What the round macros have in common *)
Definition ROUND (f : Z -> Z -> Z -> Z) (a b c d : nat) (k s t : Z) (v : list Z) : list Z :=
  let v := set_nth a (u32 (word v a + (k + t + f (word v b) (word v c) (word v d)))) v in
  set_nth a (CRYPTO_rotl_u32 (word v a) s) v.

(** The words [X] are the second part of the state. *)
Definition R0 (a b c d k : nat) (s t : Z) (st : list Z * list Z) : list Z * list Z :=
  (ROUND F a b c d (word (snd st) k) s t (fst st), snd st).

Definition R1 (a b c d k : nat) (s t : Z) (st : list Z * list Z) : list Z * list Z :=
  (ROUND G a b c d (word (snd st) k) s t (fst st), snd st).

Definition R2 (a b c d k : nat) (s t : Z) (st : list Z * list Z) : list Z * list Z :=
  (ROUND H a b c d (word (snd st) k) s t (fst st), snd st).

(** [X(i) = CRYPTO_load_u32_le(data); data += 4] *)
Definition load (data : list Z) (i : nat) (st : list Z * list Z) : list Z * list Z :=
  (fst st, set_nth i (word_le data i) (snd st)).

Definition md4_rounds (data : list Z) (s : list Z * list Z) : list Z * list Z :=
  let s := load data 0 s in
  let s := load data 1 s in
  let s := R0 0 1 2 3 0 3 0 s in
  let s := load data 2 s in
  let s := R0 3 0 1 2 1 7 0 s in
  let s := load data 3 s in
  let s := R0 2 3 0 1 2 11 0 s in
  let s := load data 4 s in
  let s := R0 1 2 3 0 3 19 0 s in
  let s := load data 5 s in
  let s := R0 0 1 2 3 4 3 0 s in
  let s := load data 6 s in
  let s := R0 3 0 1 2 5 7 0 s in
  let s := load data 7 s in
  let s := R0 2 3 0 1 6 11 0 s in
  let s := load data 8 s in
  let s := R0 1 2 3 0 7 19 0 s in
  let s := load data 9 s in
  let s := R0 0 1 2 3 8 3 0 s in
  let s := load data 10 s in
  let s := R0 3 0 1 2 9 7 0 s in
  let s := load data 11 s in
  let s := R0 2 3 0 1 10 11 0 s in
  let s := load data 12 s in
  let s := R0 1 2 3 0 11 19 0 s in
  let s := load data 13 s in
  let s := R0 0 1 2 3 12 3 0 s in
  let s := load data 14 s in
  let s := R0 3 0 1 2 13 7 0 s in
  let s := load data 15 s in
  let s := R0 2 3 0 1 14 11 0 s in
  let s := R0 1 2 3 0 15 19 0 s in
  let s := R1 0 1 2 3 0 3 0x5a827999 s in
  let s := R1 3 0 1 2 4 5 0x5a827999 s in
  let s := R1 2 3 0 1 8 9 0x5a827999 s in
  let s := R1 1 2 3 0 12 13 0x5a827999 s in
  let s := R1 0 1 2 3 1 3 0x5a827999 s in
  let s := R1 3 0 1 2 5 5 0x5a827999 s in
  let s := R1 2 3 0 1 9 9 0x5a827999 s in
  let s := R1 1 2 3 0 13 13 0x5a827999 s in
  let s := R1 0 1 2 3 2 3 0x5a827999 s in
  let s := R1 3 0 1 2 6 5 0x5a827999 s in
  let s := R1 2 3 0 1 10 9 0x5a827999 s in
  let s := R1 1 2 3 0 14 13 0x5a827999 s in
  let s := R1 0 1 2 3 3 3 0x5a827999 s in
  let s := R1 3 0 1 2 7 5 0x5a827999 s in
  let s := R1 2 3 0 1 11 9 0x5a827999 s in
  let s := R1 1 2 3 0 15 13 0x5a827999 s in
  let s := R2 0 1 2 3 0 3 0x6ed9eba1 s in
  let s := R2 3 0 1 2 8 9 0x6ed9eba1 s in
  let s := R2 2 3 0 1 4 11 0x6ed9eba1 s in
  let s := R2 1 2 3 0 12 15 0x6ed9eba1 s in
  let s := R2 0 1 2 3 2 3 0x6ed9eba1 s in
  let s := R2 3 0 1 2 10 9 0x6ed9eba1 s in
  let s := R2 2 3 0 1 6 11 0x6ed9eba1 s in
  let s := R2 1 2 3 0 14 15 0x6ed9eba1 s in
  let s := R2 0 1 2 3 1 3 0x6ed9eba1 s in
  let s := R2 3 0 1 2 9 9 0x6ed9eba1 s in
  let s := R2 2 3 0 1 5 11 0x6ed9eba1 s in
  let s := R2 1 2 3 0 13 15 0x6ed9eba1 s in
  let s := R2 0 1 2 3 3 3 0x6ed9eba1 s in
  let s := R2 3 0 1 2 11 9 0x6ed9eba1 s in
  let s := R2 2 3 0 1 7 11 0x6ed9eba1 s in
  let s := R2 1 2 3 0 15 15 0x6ed9eba1 s in
  s.

(** A block; the words are not initialised. *)
Definition md4_block (state data : list Z) : list Z := add_words state (fst (md4_rounds data (state, repeat 0 16))).

Fixpoint block_loop (num : nat) (state data : list Z) : list Z :=
  match num with
  | O => state
  | S num => block_loop num (md4_block state data) (skipn 64 data)
  end.

Definition md4_block_data_order (state data : list Z) (num : Z) : list Z := block_loop (Z.to_nat num) state data.

(** [MD4_CTX] is the context of [Md32]. *)
Definition MD4_Init : md32 :=
  mk_md32 [0x67452301; 0xefcdab89; 0x98badcfe; 0x10325476] (repeat 0 64) 0 0 0.

Definition MD4_Transform (c : md32) (data : list Z) : md32 :=
  mk_md32 (md4_block_data_order (md_h c) data 1) (md_data c) (md_num c) (md_Nh c) (md_Nl c).

Definition MD4_Update (c : md32) (data : list Z) : md32 := crypto_md32_update md4_block_data_order MD4_CBLOCK c data.

Definition MD4_Final (c : md32) : list Z * md32 :=
  let c := crypto_md32_final md4_block_data_order MD4_CBLOCK false c in
  (CRYPTO_store_u32_le (word (md_h c) 0) ++ CRYPTO_store_u32_le (word (md_h c) 1) ++
   CRYPTO_store_u32_le (word (md_h c) 2) ++ CRYPTO_store_u32_le (word (md_h c) 3), c).

Definition MD4 (data : list Z) : list Z := fst (MD4_Final (MD4_Update MD4_Init data)).

(** ** The reference: RFC 1320, section 3.4 *)

Definition md4_f (t : nat) (x y z : Z) : Z :=
  match (t / 16)%nat with
  | 0%nat => Z.lor (Z.land x y) (Z.ldiff z x)
  | 1%nat => Z.lor (Z.lor (Z.land x y) (Z.land x z)) (Z.land y z)
  | _ => Z.lxor (Z.lxor x y) z
  end.

(** The word that step [t] adds: by rows, by columns, and with the bits of the
    number in reverse order; and how far it turns *)
Definition md4_k (t : nat) : nat :=
  (match t / 16 with
   | 0 => t
   | 1 => 4 * (t mod 4) + (t / 4) mod 4
   | _ => 8 * (t mod 2) + 4 * ((t / 2) mod 2) + 2 * ((t / 4) mod 2) + (t / 8) mod 2
   end)%nat.

Definition md4_s (t : nat) : Z :=
  word (match (t / 16)%nat with
        | 0%nat => [3; 7; 11; 19]
        | 1%nat => [3; 5; 9; 13]
        | _ => [3; 9; 11; 15]
        end) (t mod 4).

(** The square roots of 2 and 3 *)
Definition md4_T (t : nat) : Z :=
  match (t / 16)%nat with 0%nat => 0 | 1%nat => 0x5a827999 | _ => 0x6ed9eba1 end.

(** The new variable of step [t] *)
Definition md4_value (t : nat) (X a b c d : Z) : Z :=
  ROTL32 (md4_s t) (u32 (a + md4_f t b c d + X + md4_T t)).

Definition md4_compress (H block : list Z) : list Z :=
  let X := block_words_le block in
  add_words H (fold_left (fun v t => step4 (md4_value t (word X (md4_k t))) v) (seq 0 48) H).

Definition md4_hash (m : list Z) : list Z :=
  concat (map (le_bytes 4) (hash_blocks md4_compress 64 (md_h MD4_Init) (m ++ padding 64 8 m (le_bytes 8 (bit_length m))))).

Example md4_abc : MD4 [97; 98; 99] = be_bytes 16 0xa448017aaf21d8525fc10ae87aa6729d.
Proof. vm_compute. reflexivity. Qed.

Example md4_hash_abc : md4_hash [97; 98; 99] = be_bytes 16 0xa448017aaf21d8525fc10ae87aa6729d.
Proof. vm_compute. reflexivity. Qed.

(** ** Rounds *)

Lemma md4_F_spec b c d : F b c d = Z.lor (Z.land b c) (Z.ldiff d b).
Proof.
  unfold F. apply Z.bits_inj'. intros i _. rewrite Z.lxor_spec, Z.lor_spec, !Z.land_spec, Z.lxor_spec, Z.ldiff_spec. btauto.
Qed.

Definition code_f (t : nat) : Z -> Z -> Z -> Z := match (t / 16)%nat with 0%nat => F | 1%nat => G | _ => H end.

Lemma md4_code_f t b c d : code_f t b c d = md4_f t b c d.
Proof. unfold code_f, md4_f. destruct (t / 16)%nat as [|[|n]]; [apply md4_F_spec|reflexivity|reflexivity]. Qed.

Definition code_round (data : list Z) (t : nat) (v : list Z) : list Z :=
  at4 t (fun a b c d => ROUND (code_f t) a b c d (word_le data (md4_k t)) (md4_s t) (md4_T t) v).

Lemma md4_load_words data i v X : load data i (v, X) = (v, set_nth i (word_le data i) X).
Proof. reflexivity. Qed.

Lemma md4_round_words a b c d k s t v X :
  R0 a b c d k s t (v, X) = (ROUND F a b c d (word X k) s t v, X) /\
  R1 a b c d k s t (v, X) = (ROUND G a b c d (word X k) s t v, X) /\
  R2 a b c d k s t (v, X) = (ROUND H a b c d (word X k) s t v, X).
Proof. repeat split. Qed.

Lemma md4_rounds_spec data v :
  fst (md4_rounds data (v, repeat 0 16)) = fold_left (fun v t => code_round data t v) (seq 0 48) v.
Proof.
  pose proof md4_round_words as E. unfold md4_rounds. cbv zeta.
  repeat (rewrite md4_load_words || rewrite (proj1 (E _ _ _ _ _ _ _ _ _))).
  cbn [set_nth repeat].
  repeat (rewrite (proj1 (proj2 (E _ _ _ _ _ _ _ _ _)))).
  repeat (rewrite (proj2 (proj2 (E _ _ _ _ _ _ _ _ _)))).
  cbn [fst word nth seq fold_left]. unfold code_round, at4. reflexivity.
Qed.

Lemma md4_k_bound t : (t < 48)%nat -> (md4_k t < 16)%nat.
Proof. intros Ht. do 48 (destruct t as [|t]; [cbv; lia|]). lia. Qed.

Lemma md4_s_bound t : 0 < md4_s t < 32.
Proof.
  unfold md4_s. pose proof (Nat.mod_upper_bound t 4 ltac:(lia)) as B. generalize dependent (t mod 4)%nat. intros p B.
  destruct (t / 16)%nat as [|[|[|n]]]; do 4 (destruct p as [|p]; [cbn; lia|]); lia.
Qed.

(** A round of the code writes the reference's value. *)
Lemma md4_code_turn data t v : length v = 4%nat -> code_round data t v = at4 t (turn4 (md4_value t (word_le data (md4_k t))) v).
Proof.
  intros L. unfold code_round. set (k := word_le data (md4_k t)). set (s := md4_s t). set (T := md4_T t).
  rewrite (at4_mod t), (at4_mod t (turn4 _ _)).
  assert (E : forall a b c d, u32 (a + (k + T + code_f t b c d)) = u32 (a + md4_f t b c d + k + T))
    by (intros; rewrite md4_code_f; f_equal; lia).
  assert (Hs : 0 < s < 32) by apply md4_s_bound. assert (C : forall x y, u32 (x + y) = u32 (y + x)) by (intros; f_equal; lia).
  pose proof (Nat.mod_upper_bound t 4 ltac:(lia)) as B. unfold turn4, ROUND, md4_value. fold s. fold T. clearbody s T k.
  generalize dependent (t mod 4)%nat. intros p Bp. do 4 (destruct v as [|? v]; [discriminate L|]). destruct v; [|discriminate L].
  do 4 (destruct p as [|p]; [cbn -[Z.add]; rewrite E, rotl_spec by assumption; reflexivity|]). lia.
Qed.

Lemma md4_block_spec state data : length state = 4%nat -> (64 <= length data)%nat -> bytes_ok data ->
  md4_block state data = md4_compress state (firstn 64 data).
Proof.
  intros L Ld Hd. unfold md4_block, md4_compress. rewrite md4_rounds_spec. f_equal.
  destruct (rounds4 (code_round data) (fun t => md4_value t (word_le data (md4_k t))) (md4_code_turn data) 48 state L) as [IL IV].
  rewrite view4_whole in IV by (reflexivity || assumption). rewrite IV. apply fold_left_eq. intros v t Ht. apply in_seq in Ht.
  cbv zeta. rewrite word_le_spec by (assumption || (apply md4_k_bound; lia)). reflexivity.
Qed.

Lemma length_md4_compress H block : length (md4_compress H block) = length H.
Proof. unfold md4_compress. cbv zeta. rewrite length_add_words, length_steps4. apply Nat.min_id. Qed.

Lemma md4_block_loop_spec n : forall state data, length state = 4%nat -> (n * 64 <= length data)%nat -> bytes_ok data ->
  block_loop n state data = fold_left md4_compress (chunks n 64 data) state.
Proof.
  induction n as [|n IH]; intros state data L Ld Hd; cbn [block_loop chunks fold_left]; [reflexivity|].
  rewrite md4_block_spec by (assumption || lia).
  apply IH; [now rewrite length_md4_compress|rewrite length_skipn; lia|bytes].
Qed.

Lemma md4_blocks_ok h data n : length h = 4%nat -> 0 < n -> n * MD4_CBLOCK <= Z.of_nat (length data) -> bytes_ok data ->
  md4_block_data_order h data n = fold_left md4_compress (chunks (Z.to_nat n) (Z.to_nat MD4_CBLOCK) data) h.
Proof. intros L Hn Hl Hd. apply md4_block_loop_spec; [assumption| |assumption]. unfold MD4_CBLOCK in Hl. lia. Qed.

Lemma md4_compress_4 h b : length h = 4%nat -> length (md4_compress h b) = 4%nat.
Proof. intros L. now rewrite length_md4_compress. Qed.

(** The context that has absorbed [m] *)
Definition md4_of (m : list Z) : md32 := md32_of MD4_CBLOCK md4_compress (md_h MD4_Init) m.

Lemma md4_init_of : MD4_Init = md4_of [].
Proof. now apply (md32_of_nil MD4_CBLOCK). Qed.

Lemma md4_update_of m p : bytes_ok m -> piece_ok p -> MD4_Update (md4_of m) p = md4_of (m ++ p).
Proof.
  intros Hm [Hp Lp]. apply crypto_md32_update_spec with 4%nat; [easy|exact md4_compress_4|exact md4_blocks_ok|reflexivity|assumption..].
Qed.

Lemma md4_final_of m : bytes_ok m -> fst (MD4_Final (md4_of m)) = md4_hash m.
Proof.
  intros Hm. unfold MD4_Final, md4_of.
  rewrite crypto_md32_final_spec with (hn := 4%nat);
    [|easy|exact md4_compress_4|exact md4_blocks_ok|reflexivity|assumption].
  cbn [fst md_h length_encoding]. unfold md4_hash. change (Z.to_nat MD4_CBLOCK) with 64%nat. change MD4_CBLOCK with 64.
  set (X := hash_blocks _ _ _ _).
  assert (L : length X = 4%nat) by (apply (hash_blocks_forall (fun h => length h = 4%nat)); [apply md4_compress_4|reflexivity]).
  do 4 (destruct X as [|? X]; [discriminate L|]). destruct X; [|discriminate L]. cbn [map concat word nth]. now rewrite app_nil_r.
Qed.

(** however a message is cut into updates, [MD4_Final] writes the MD4 hash of
    the standard of the whole message: its 48 steps for every block, and its
    length in little-endian order. *)
Theorem MD4_correct (pieces : list (list Z)) (pieces_ok : Forall piece_ok pieces) :
  fst (MD4_Final (fold_left MD4_Update pieces MD4_Init)) = md4_hash (concat pieces).
Proof.
  rewrite md4_init_of, (absorb_pieces md4_of MD4_Update md4_update_of) by (assumption || constructor).
  apply md4_final_of. now apply pieces_bytes.
Qed.

Lemma MD4_correct_witness : fst (MD4_Final (fold_left MD4_Update [[97]; [98; 99]] MD4_Init)) = md4_hash [97; 98; 99].
Proof.
  refine (MD4_correct [[97]; [98; 99]] _).
  apply Forall_cons; [|apply Forall_cons; [|apply Forall_nil]]; split; now (apply bytes_ok_check || vm_compute).
Defined.
