(* ===== verification/Digest.v ===== *)
(** * Message digests by table ([crypto/fipsmodule/digest/digest.c])

    An [EVP_MD] is a table of the functions of a hash over the memory of its
    context; here the memory is any type [D], which the tables of [Digests]
    instantiate.  A pointer to a table is an index [I] into the tables there
    are, so that the code's comparisons of pointers are decidable, and NULL is
    [None].  The functions are in the option monad: [None] is an access through
    NULL or a failed assertion; the result 0 or 1 of C is the first component.

    The contexts of signatures ([pctx]) are not modelled: it is NULL in a
    context that only hashes.  [OPENSSL_malloc] is the parameter [alloc], which
    gives the bytes of the block, and [raw] says what a context's memory is when
    it holds such bytes.

    The class [Hash] is what a table promises; [Hmac] is proved against it. *)

From Stdlib Require Import ZArith Lia Bool List.
From stdpp Require Import base option decidable.
From S2P Require Import Prelude Md32.
Import ListNotations.

#[local] Open Scope Z_scope.

(** ** Definitions *)

Definition EVP_MAX_MD_SIZE : Z := 64.
Definition EVP_MAX_MD_BLOCK_SIZE : Z := 128.

(** [env_md_st] *)
Record EVP_MD (D : Type) := mk_evp_md {
  type : Z;
  md_size : Z;
  flags : Z;
  init : D -> D;
  update : D -> list Z -> option D;
  final : D -> option (list Z * D);
  block_size : Z;
  ctx_size : Z
}.

Arguments mk_evp_md {D}.
Arguments type {D}.
Arguments md_size {D}.
Arguments flags {D}.
Arguments init {D}.
Arguments update {D}.
Arguments final {D}.
Arguments block_size {D}.
Arguments ctx_size {D}.

Definition EVP_MD_type {D} (md : EVP_MD D) : Z := type md.
Definition EVP_MD_nid {D} (md : EVP_MD D) : Z := EVP_MD_type md.
Definition EVP_MD_flags {D} (md : EVP_MD D) : Z := flags md.
Definition EVP_MD_size {D} (md : EVP_MD D) : Z := md_size md.
Definition EVP_MD_block_size {D} (md : EVP_MD D) : Z := block_size md.

(** [env_md_ctx_st] *)
Record EVP_MD_CTX (D I : Type) := mk_ctx {
  digest : option I;
  md_data : option D
}.

Arguments mk_ctx {D I}.
Arguments digest {D I}.
Arguments md_data {D I}.

Section Digest.
Context {D I : Type} `{EqDecision I} (method : I -> EVP_MD D) (raw : list Z -> D) (alloc : Z -> option (list Z)).

Abbreviation ctx := (EVP_MD_CTX D I).

Definition EVP_MD_CTX_init : ctx := mk_ctx None None.

Definition EVP_MD_CTX_new : option ctx := _ ← alloc 32; Some EVP_MD_CTX_init.

(** The block is freed. *)
Definition EVP_MD_CTX_cleanup (c : ctx) : ctx := EVP_MD_CTX_init.

Definition EVP_MD_CTX_reset (c : ctx) : Z * ctx := let c := EVP_MD_CTX_cleanup c in (1, EVP_MD_CTX_init).

Definition EVP_DigestFinalXOF (c : ctx) (len : Z) : Z := 0.

Definition EVP_MD_CTX_copy_ex (out : ctx) (inp : option ctx) : option (Z * ctx) :=
  match inp with
  | None => Some (0, out)
  | Some inp =>
      match digest inp with
      | None => Some (0, out)
      | Some d =>
          let tmp_buf :=
            if decide (digest out = Some d) then Some (md_data out)
            else match alloc (ctx_size (method d)) with None => None | Some l => Some (Some (raw l)) end in
          match tmp_buf with
          | None => Some (0, out)
          | Some tmp_buf =>
              let out := EVP_MD_CTX_cleanup out in
              _ ← tmp_buf;
              data ← md_data inp;
              Some (1, mk_ctx (digest inp) (Some data))
          end
      end
  end.

(** The new values of [out] and [in] *)
Definition EVP_MD_CTX_move (out inp : ctx) : ctx * ctx := let out := EVP_MD_CTX_cleanup out in (inp, EVP_MD_CTX_init).

Definition EVP_MD_CTX_copy (out : ctx) (inp : option ctx) : option (Z * ctx) := EVP_MD_CTX_copy_ex EVP_MD_CTX_init inp.

Definition EVP_DigestInit_ex (c : ctx) (t : I) : option (Z * ctx) :=
  let c' :=
    if decide (digest c = Some t) then Some c
    else match alloc (ctx_size (method t)) with None => None | Some l => Some (mk_ctx (Some t) (Some (raw l))) end in
  match c' with
  | None => Some (0, c)
  | Some c => data ← md_data c; Some (1, mk_ctx (digest c) (Some (init (method t) data)))
  end.

Definition EVP_DigestInit (c : ctx) (t : I) : option (Z * ctx) := EVP_DigestInit_ex EVP_MD_CTX_init t.

Definition EVP_DigestUpdate (c : ctx) (data : list Z) : option (Z * ctx) :=
  t ← digest c;
  d ← md_data c;
  d ← update (method t) d data;
  Some (1, mk_ctx (Some t) (Some d)).

(** The digest, its size and the context, whose memory is cleared *)
Definition EVP_DigestFinal_ex (c : ctx) : option (list Z * Z * ctx) :=
  t ← digest c;
  d ← md_data c;
  if md_size (method t) <=? EVP_MAX_MD_SIZE then
    r ← final (method t) d;
    Some (fst r, md_size (method t), mk_ctx (Some t) (Some (raw (repeat 0 (Z.to_nat (ctx_size (method t)))))))
  else None.

Definition EVP_DigestFinal (c : ctx) : option (list Z * Z * ctx) :=
  r ← EVP_DigestFinal_ex c;
  Some (fst r, EVP_MD_CTX_cleanup (snd r)).

(** The result 0, or the digest and its size *)
Definition EVP_Digest (data : list Z) (t : I) : option (option (list Z * Z)) :=
  r ← EVP_DigestInit_ex EVP_MD_CTX_init t;
  if fst r =? 0 then Some None
  else
    r ← EVP_DigestUpdate (snd r) data;
    if fst r =? 0 then Some None
    else
      r ← EVP_DigestFinal_ex (snd r);
      Some (Some (fst r)).

Definition EVP_MD_CTX_md (c : option ctx) : option I := match c with None => None | Some c => digest c end.
Definition EVP_MD_CTX_size (c : option ctx) : option Z := t ← EVP_MD_CTX_md c; Some (EVP_MD_size (method t)).
Definition EVP_MD_CTX_block_size (c : option ctx) : option Z := t ← EVP_MD_CTX_md c; Some (EVP_MD_block_size (method t)).
Definition EVP_MD_CTX_type (c : option ctx) : option Z := t ← EVP_MD_CTX_md c; Some (EVP_MD_type (method t)).

End Digest.

(** ** What a table promises *)

Class Hash {D : Type} (raw : list Z -> D) (md : EVP_MD D) := {
  hash : list Z -> list Z;
  (** the memory is a context that has absorbed a message *)
  rep : list Z -> D -> Prop;
  (** the memory has room for a context *)
  space : D -> Prop;
  sizes_ok : 0 < md_size md /\ md_size md <= EVP_MAX_MD_SIZE /\ md_size md <= block_size md /\
             block_size md <= EVP_MAX_MD_BLOCK_SIZE /\ 0 < ctx_size md;
  raw_space l : Z.of_nat (length l) = ctx_size md -> bytes_ok l -> space (raw l);
  rep_space m d : rep m d -> space d;
  init_rep d : space d -> rep [] (init md d);
  update_rep m p d : bytes_ok m -> piece_ok p -> rep m d -> exists d', update md d p = Some d' /\ rep (m ++ p) d';
  final_rep m d : bytes_ok m -> rep m d -> exists d', final md d = Some (hash m, d');
  hash_size m : Z.of_nat (length (hash m)) = md_size md;
  hash_bytes m : bytes_ok (hash m)
}.

Definition alloc_total (alloc : Z -> option (list Z)) : Prop :=
  forall n, 0 <= n -> exists l, alloc n = Some l /\ Z.of_nat (length l) = n /\ bytes_ok l.

Section Laws.
Context {D I : Type} `{EqDecision I} (method : I -> EVP_MD D) (raw : list Z -> D) (alloc : Z -> option (list Z)).
Context (t : I) `{H : Hash D raw (method t)} (alloc_ok : alloc_total alloc).

(** The context hashes with [t] and has absorbed [m]. *)
Definition holds (m : list Z) (c : EVP_MD_CTX D I) : Prop := exists d, c = mk_ctx (Some t) (Some d) /\ rep m d.

(** The context can be used with [t]: if it has memory for it, this has room. *)
Definition usable (c : EVP_MD_CTX D I) : Prop := digest c = Some t -> exists d, md_data c = Some d /\ space d.

Lemma holds_usable m c : holds m c -> usable c.
Proof. intros (d & -> & R) _. exists d. split; [reflexivity|]. now apply rep_space in R. Qed.

Lemma init_usable : usable EVP_MD_CTX_init.
Proof. intros [=]. Qed.

Lemma DigestInit_ex_spec c : usable c -> exists c', EVP_DigestInit_ex method raw alloc c t = Some (1, c') /\ holds [] c'.
Proof.
  intros U. unfold EVP_DigestInit_ex. destruct (decide (digest c = Some t)) as [E|E].
  - destruct (U E) as (d & Ed & S). rewrite Ed. eexists. split; [reflexivity|]. rewrite E. exists (init (method t) d). eauto using init_rep.
  - destruct sizes_ok as (_ & _ & _ & _ & Hs).
    destruct (alloc_ok (ctx_size (method t))) as (l & -> & Ll & Bl); [lia|]. eexists. split; [reflexivity|].
    exists (init (method t) (raw l)). split; [reflexivity|]. now apply init_rep, raw_space.
Qed.

Lemma DigestUpdate_spec m p c : bytes_ok m -> piece_ok p -> holds m c ->
  exists c', EVP_DigestUpdate method c p = Some (1, c') /\ holds (m ++ p) c'.
Proof.
  intros Hm Hp (d & -> & R). destruct (update_rep m p d Hm Hp R) as (d' & E & R').
  unfold EVP_DigestUpdate. cbn [digest md_data mbind option_bind]. rewrite E. eexists. split; [reflexivity|]. exists d'. auto.
Qed.

Lemma DigestFinal_ex_spec m c : bytes_ok m -> holds m c ->
  exists c', EVP_DigestFinal_ex method raw c = Some (hash m, md_size (method t), c') /\ usable c' /\ digest c' = Some t.
Proof.
  intros Hm (d & -> & R). destruct (final_rep m d Hm R) as (d' & E). destruct sizes_ok as (_ & Hs & _ & _ & Hc).
  unfold EVP_DigestFinal_ex. cbn [digest md_data mbind option_bind]. rewrite (proj2 (Z.leb_le _ _) Hs), E.
  eexists. split; [reflexivity|]. split; [|reflexivity]. intros _. eexists. split; [reflexivity|].
  apply raw_space; [rewrite repeat_length; lia|apply repeat_0_bytes].
Qed.

Lemma copy_ex_spec m out c : usable out -> holds m c ->
  EVP_MD_CTX_copy_ex method raw alloc out (Some c) = Some (1, c).
Proof.
  intros U (d & -> & R). unfold EVP_MD_CTX_copy_ex. cbn [digest md_data].
  destruct (decide (digest out = Some t)) as [E|E].
  - destruct (U E) as (d' & -> & _). reflexivity.
  - destruct sizes_ok as (_ & _ & _ & _ & Hs). destruct (alloc_ok (ctx_size (method t))) as (l & -> & _); [lia|reflexivity].
Qed.
End Laws.
