(* ===== verification/Hmac.v ===== *)
(** * HMAC and HKDF ([fipsmodule/hmac/hmac.c], [crypto/hkdf/hkdf.c])

    Over any tables of hashes ([Digest]).  A key is a pointer with a length:
    [None] is NULL with length 0.  The results are in the option monad of
    [Digest].  A context is kept by HKDF for all the blocks of its output: it is
    rewound to the key, which the functions promise to keep.

    The references are RFC 2104 and RFC 5869, over the function [hash] that a
    table promises. *)

From Stdlib Require Import ZArith Lia Bool List.
From stdpp Require Import base option decidable.
From S2P Require Import Prelude Md32 Digest.
Import ListNotations.

#[local] Open Scope Z_scope.

(** ** Definitions *)

(** [hmac_ctx_st] *)
Record HMAC_CTX (D I : Type) := mk_hmac {
  hmac_md : option I;
  md_ctx : EVP_MD_CTX D I;
  i_ctx : EVP_MD_CTX D I;
  o_ctx : EVP_MD_CTX D I
}.

Arguments mk_hmac {D I}.
Arguments hmac_md {D I}.
Arguments md_ctx {D I}.
Arguments i_ctx {D I}.
Arguments o_ctx {D I}.

Section Hmac.
Context {D I : Type} `{EqDecision I} (method : I -> EVP_MD D) (raw : list Z -> D) (alloc : Z -> option (list Z)).

Abbreviation hctx := (HMAC_CTX D I).

Definition HMAC_CTX_init : hctx := mk_hmac None EVP_MD_CTX_init EVP_MD_CTX_init EVP_MD_CTX_init.

Definition HMAC_CTX_new : option hctx := _ ← alloc 104; Some HMAC_CTX_init.

(** Frees the three contexts and clears the struct *)
Definition HMAC_CTX_cleanup (c : hctx) : hctx := HMAC_CTX_init.

Definition HMAC_CTX_reset (c : hctx) : hctx := let c := HMAC_CTX_cleanup c in HMAC_CTX_init.

Definition key_bytes (key : option (list Z)) : list Z := match key with Some k => k | None => [] end.

(** The key hashed if it is long: the context after that, and the start of
    [key_block]; or the result 0 *)
Definition hash_key (md : I) (c : EVP_MD_CTX D I) (key : list Z) : option (EVP_MD_CTX D I * option (list Z)) :=
  if block_size (method md) <? Z.of_nat (length key) then
    r ← EVP_DigestInit_ex method raw alloc c md;
    if fst r =? 0 then Some (snd r, None)
    else
      r ← EVP_DigestUpdate method (snd r) key;
      if fst r =? 0 then Some (snd r, None)
      else
        r ← EVP_DigestFinal_ex method raw (snd r);
        Some (snd r, Some (fst (fst r)))
  else if Z.of_nat (length key) <=? EVP_MAX_MD_BLOCK_SIZE then Some (c, Some key) else None.

(** [EVP_DigestInit_ex] and [EVP_DigestUpdate] of the key's pad *)
Definition start_pad (md : I) (c : EVP_MD_CTX D I) (pad : list Z) : option (Z * EVP_MD_CTX D I) :=
  r ← EVP_DigestInit_ex method raw alloc c md;
  if fst r =? 0 then Some r
  else EVP_DigestUpdate method (snd r) (firstn (Z.to_nat (EVP_MD_block_size (method md))) pad).

(** The part of [HMAC_Init_ex] that takes a new key *)
Definition new_key (c : hctx) (key : list Z) (md : I) : option (Z * hctx) :=
  if EVP_MAX_MD_BLOCK_SIZE <? block_size (method md) then None
  else
    r ← hash_key md (md_ctx c) key;
    let c := mk_hmac (hmac_md c) (fst r) (i_ctx c) (o_ctx c) in
    match snd r with
    | None => Some (0, c)
    | Some k =>
        let key_block := k ++ repeat 0 (Z.to_nat EVP_MAX_MD_BLOCK_SIZE - length k) in
        r ← start_pad md (i_ctx c) (map (Z.lxor 0x36) key_block);
        let c := mk_hmac (hmac_md c) (md_ctx c) (snd r) (o_ctx c) in
        if fst r =? 0 then Some (0, c)
        else
          r ← start_pad md (o_ctx c) (map (Z.lxor 0x5c) key_block);
          let c := mk_hmac (hmac_md c) (md_ctx c) (i_ctx c) (snd r) in
          if fst r =? 0 then Some (0, c)
          else Some (1, mk_hmac (Some md) (md_ctx c) (i_ctx c) (o_ctx c))
    end.

Definition HMAC_Init_ex (c : hctx) (key : option (list Z)) (md : option I) : option (Z * hctx) :=
  let md := match md with None => hmac_md c | Some _ => md end in
  r ← (if decide (md = hmac_md c /\ key = None) then Some (1, c)
       else md ← md; new_key c (key_bytes key) md);
  if fst r =? 0 then Some r
  else
    let c := snd r in
    r ← EVP_MD_CTX_copy_ex method raw alloc (md_ctx c) (Some (i_ctx c));
    Some (fst r, mk_hmac (hmac_md c) (snd r) (i_ctx c) (o_ctx c)).

Definition HMAC_Update (c : hctx) (data : list Z) : option (Z * hctx) :=
  r ← EVP_DigestUpdate method (md_ctx c) data;
  Some (fst r, mk_hmac (hmac_md c) (snd r) (i_ctx c) (o_ctx c)).

(** The result 0, or the digest and its size, and the context.  When it fails,
    the code writes to [out_len], which must not be NULL then. *)
Definition HMAC_Final (c : hctx) (out_len : bool) : option (option (list Z * Z) * hctx) :=
  let set x := mk_hmac (hmac_md c) x (i_ctx c) (o_ctx c) in
  let failure x := if out_len then Some (None, set x) else None in
  r ← EVP_DigestFinal_ex method raw (md_ctx c);
  let buf := fst (fst r) in
  r ← EVP_MD_CTX_copy_ex method raw alloc (snd r) (Some (o_ctx c));
  if fst r =? 0 then failure (snd r)
  else
    r ← EVP_DigestUpdate method (snd r) buf;
    if fst r =? 0 then failure (snd r)
    else
      r ← EVP_DigestFinal_ex method raw (snd r);
      Some (Some (fst r), set (snd r)).

Definition HMAC_size (c : hctx) : option Z := md ← hmac_md c; Some (EVP_MD_size (method md)).

Definition HMAC_CTX_copy_ex (dest src : hctx) : option (Z * hctx) :=
  r ← EVP_MD_CTX_copy_ex method raw alloc (i_ctx dest) (Some (i_ctx src));
  let dest := mk_hmac (hmac_md dest) (md_ctx dest) (snd r) (o_ctx dest) in
  if fst r =? 0 then Some (0, dest)
  else
    r ← EVP_MD_CTX_copy_ex method raw alloc (o_ctx dest) (Some (o_ctx src));
    let dest := mk_hmac (hmac_md dest) (md_ctx dest) (i_ctx dest) (snd r) in
    if fst r =? 0 then Some (0, dest)
    else
      r ← EVP_MD_CTX_copy_ex method raw alloc (md_ctx dest) (Some (md_ctx src));
      let dest := mk_hmac (hmac_md dest) (snd r) (i_ctx dest) (o_ctx dest) in
      if fst r =? 0 then Some (0, dest)
      else Some (1, mk_hmac (hmac_md src) (md_ctx dest) (i_ctx dest) (o_ctx dest)).

Definition HMAC_CTX_copy (dest src : hctx) : option (Z * hctx) := HMAC_CTX_copy_ex HMAC_CTX_init src.

Definition HMAC_Init (c : hctx) (key : option (list Z)) (md : option I) : option (Z * hctx) :=
  let c := if decide (key <> None /\ md <> None) then HMAC_CTX_init else c in
  HMAC_Init_ex c key md.

(** NULL, or the digest and its size *)
Definition HMAC (md : I) (key : option (list Z)) (data : list Z) : option (option (list Z * Z)) :=
  r ← HMAC_Init_ex HMAC_CTX_init key (Some md);
  if fst r =? 0 then Some None
  else
    r ← HMAC_Update (snd r) data;
    if fst r =? 0 then Some None
    else
      r ← HMAC_Final (snd r) true;
      Some (fst r).

(** *** HKDF: the result 0, or what is written to [out_key] *)

Definition HKDF_extract (md : I) (secret : list Z) (salt : option (list Z)) : option (option (list Z)) :=
  r ← HMAC md salt secret;
  match r with
  | None => Some None
  | Some (out, len) => if len =? md_size (method md) then Some (Some out) else None
  end.

(** The loop from [i] on; [previous] is the last block, [done] the output so far *)
Fixpoint expand_loop (fuel : nat) (i n : Z) (hmac : hctx) (digest_len out_len : Z) (previous info done : list Z) : option (option (list Z)) :=
  match fuel with
  | O => None
  | S fuel =>
      if i <? n then
        let ctr := u8 (i + 1) in
        r ← (if i =? 0 then Some (1, hmac)
             else
               r ← HMAC_Init_ex hmac None None;
               if fst r =? 0 then Some r
               else HMAC_Update (snd r) (firstn (Z.to_nat digest_len) previous));
        if fst r =? 0 then Some None
        else
          r ← HMAC_Update (snd r) info;
          if fst r =? 0 then Some None
          else
            r ← HMAC_Update (snd r) [ctr];
            if fst r =? 0 then Some None
            else
              r ← HMAC_Final (snd r) false;
              match fst r with
              | None => Some None
              | Some (previous, _) =>
                  let todo := digest_len in
                  let todo := if out_len <? size_t (Z.of_nat (length done) + todo) then out_len - Z.of_nat (length done) else todo in
                  expand_loop fuel (i + 1) n (snd r) digest_len out_len previous info (done ++ firstn (Z.to_nat todo) previous)
              end
      else Some (Some done)
  end.

Definition HKDF_expand (out_len : Z) (md : I) (prk info : list Z) : option (option (list Z)) :=
  let digest_len := EVP_MD_size (method md) in
  let n := size_t (size_t (out_len + digest_len) - 1) / digest_len in
  if (size_t (out_len + digest_len) <? out_len) || (255 <? n) then Some None
  else
    r ← HMAC_Init_ex HMAC_CTX_init (Some prk) (Some md);
    if fst r =? 0 then Some None
    else expand_loop (S (Z.to_nat n)) 0 n (snd r) digest_len out_len [] info [].

Definition HKDF (out_len : Z) (md : I) (secret : list Z) (salt : option (list Z)) (info : list Z) : option (option (list Z)) :=
  r ← HKDF_extract md secret salt;
  match r with
  | None => Some None
  | Some prk => HKDF_expand out_len md prk info
  end.

End Hmac.

(** ** The references *)

Section Reference.
Context (hash : list Z -> list Z) (B : Z).

(** RFC 2104: the key as a block *)
Definition rfc_key (key : list Z) : list Z :=
  let k := if B <? Z.of_nat (length key) then hash key else key in
  k ++ repeat 0 (Z.to_nat B - length k).

Definition rfc_hmac (key m : list Z) : list Z :=
  hash (map (Z.lxor 0x5c) (rfc_key key) ++ hash (map (Z.lxor 0x36) (rfc_key key) ++ m)).

(** RFC 5869: the blocks T(i) *)
Fixpoint rfc_T (prk info : list Z) (i : nat) : list Z :=
  match i with
  | O => []
  | S j => rfc_hmac prk (rfc_T prk info j ++ info ++ [Z.of_nat i])
  end.

Definition rfc_blocks (prk info : list Z) (n : nat) : list Z := concat (map (fun i => rfc_T prk info (S i)) (seq 0 n)).
End Reference.

(** ** Correctness *)

Lemma lxor_bytes c l : byte_ok c -> bytes_ok l -> bytes_ok (map (Z.lxor c) l).
Proof.
  intros Hc H. apply Forall_map. revert H. apply Forall_impl. intros b Hb.
  pose proof (byte_cases (fun c => forallb (fun b => (0 <=? Z.lxor c b) && (Z.lxor c b <? 256)) all_bytes) eq_refl c Hc) as F.
  cbv beta in F. rewrite forallb_forall in F. specialize (F b (in_all_bytes b Hb)).
  apply andb_prop in F as [F1%Z.leb_le F2%Z.ltb_lt]. split; assumption.
Qed.

Section Laws.
Context {D I : Type} `{EqDecision I} (method : I -> EVP_MD D) (raw : list Z -> D) (alloc : Z -> option (list Z)).
Context (t : I) `{H : Hash D raw (method t)} (alloc_ok : alloc_total alloc).

Abbreviation holds := (holds method raw t).
Abbreviation usable := (usable method raw t).
Abbreviation B := (block_size (method t)).
Abbreviation ipad key := (map (Z.lxor 0x36) (rfc_key hash B key)).
Abbreviation opad key := (map (Z.lxor 0x5c) (rfc_key hash B key)).

(** The context has the key: it can be rewound to it. *)
Definition keyed (key : list Z) (c : HMAC_CTX D I) : Prop :=
  hmac_md c = Some t /\ holds (ipad key) (i_ctx c) /\ holds (opad key) (o_ctx c) /\ usable (md_ctx c).

(** The context has the key and has absorbed [m]. *)
Definition hmac_holds (key m : list Z) (c : HMAC_CTX D I) : Prop :=
  hmac_md c = Some t /\ holds (ipad key) (i_ctx c) /\ holds (opad key) (o_ctx c) /\ holds (ipad key ++ m) (md_ctx c).

Lemma hash_piece m : piece_ok (hash m).
Proof.
  split; [apply hash_bytes|]. pose proof (hash_size m). destruct sizes_ok as (_ & Hs & _). unfold EVP_MAX_MD_SIZE in Hs. lia.
Qed.

Lemma rfc_key_ok key : bytes_ok key -> bytes_ok (rfc_key hash B key) /\ Z.of_nat (length (rfc_key hash B key)) = B.
Proof.
  intros Hk. unfold rfc_key. set (k := if B <? Z.of_nat (length key) then hash key else key).
  assert (K : bytes_ok k /\ Z.of_nat (length k) <= B).
  { subst k. destruct sizes_ok as (_ & _ & Hs & _). destruct (Z.ltb_spec B (Z.of_nat (length key))).
    - split; [apply hash_bytes|]. rewrite hash_size. assumption.
    - auto. }
  destruct K as [K1 K2]. split; [apply Forall_app; split; [assumption|apply repeat_0_bytes]|].
  rewrite length_app, repeat_length. lia.
Qed.

Lemma pad_bytes c key : byte_ok c -> bytes_ok key -> bytes_ok (map (Z.lxor c) (rfc_key hash B key)).
Proof. intros Hc Hk. apply lxor_bytes; [assumption|now apply rfc_key_ok]. Qed.

Lemma hash_key_spec c key : usable c -> piece_ok key ->
  exists c' k, hash_key method raw alloc t c key = Some (c', Some k) /\ usable c' /\
    k = (if B <? Z.of_nat (length key) then hash key else key) /\ Z.of_nat (length k) <= B.
Proof.
  intros U Hk. unfold hash_key. destruct sizes_ok as (_ & _ & Hs & HB & _).
  destruct (Z.ltb_spec B (Z.of_nat (length key))) as [L|L].
  - destruct (DigestInit_ex_spec method raw alloc t alloc_ok c U) as (c1 & E1 & R1).
    destruct (DigestUpdate_spec method raw t [] key c1 ltac:(constructor) Hk R1) as (c2 & E2 & R2).
    destruct (DigestFinal_ex_spec method raw t key c2 (proj1 Hk) R2) as (c3 & E3 & U3 & _).
    exists c3, (hash key). rewrite E1. cbn [mbind option_bind fst snd Z.eqb]. rewrite E2. cbn [mbind option_bind fst snd Z.eqb app].
    rewrite E3. split; [reflexivity|]. split; [assumption|]. split; [reflexivity|]. rewrite hash_size. assumption.
  - exists c, key. rewrite (proj2 (Z.leb_le _ _)) by lia. auto.
Qed.

Lemma start_pad_spec c x key : usable c -> byte_ok x -> bytes_ok key ->
  let k := if B <? Z.of_nat (length key) then hash key else key in
  Z.of_nat (length k) <= B ->
  exists c', start_pad method raw alloc t c (map (Z.lxor x) (k ++ repeat 0 (Z.to_nat EVP_MAX_MD_BLOCK_SIZE - length k))) = Some (1, c') /\
    holds (map (Z.lxor x) (rfc_key hash B key)) c'.
Proof.
  intros U Hx Hk k Lk. destruct (DigestInit_ex_spec method raw alloc t alloc_ok c U) as (c1 & E1 & R1).
  destruct (rfc_key_ok key Hk) as [_ LB]. destruct sizes_ok as (_ & _ & _ & HB & _).
  assert (P : firstn (Z.to_nat (EVP_MD_block_size (method t))) (map (Z.lxor x) (k ++ repeat 0 (Z.to_nat EVP_MAX_MD_BLOCK_SIZE - length k))) =
              map (Z.lxor x) (rfc_key hash B key)).
  { unfold EVP_MD_block_size, rfc_key. fold k. rewrite firstn_map. f_equal. rewrite firstn_app, firstn_all2 by lia. f_equal.
    rewrite (repeat_split 0 (Z.to_nat EVP_MAX_MD_BLOCK_SIZE - length k) (Z.to_nat B - length k)) by lia.
    rewrite <- (repeat_length 0 (Z.to_nat B - length k)) at 1. apply firstn_app_length. }
  assert (Q : piece_ok (map (Z.lxor x) (rfc_key hash B key))).
  { split; [now apply pad_bytes|]. rewrite length_map, LB. unfold EVP_MAX_MD_BLOCK_SIZE in HB. lia. }
  destruct (DigestUpdate_spec method raw t [] _ c1 ltac:(constructor) Q R1) as (c2 & E2 & R2).
  exists c2. split; [|exact R2]. unfold start_pad. rewrite E1. cbn [mbind option_bind fst snd Z.eqb]. now rewrite P.
Qed.

Lemma new_key_spec c key : usable (md_ctx c) -> usable (i_ctx c) -> usable (o_ctx c) -> piece_ok key ->
  exists c', new_key method raw alloc c key t = Some (1, c') /\ keyed key c'.
Proof.
  intros U Ui Uo Hk. destruct sizes_ok as (_ & _ & _ & HB & _). unfold new_key.
  rewrite (proj2 (Z.ltb_ge _ _)) by exact HB.
  destruct (hash_key_spec (md_ctx c) key U Hk) as (c1 & k & E1 & U1 & Ek & Lk). rewrite E1. cbn [mbind option_bind fst snd].
  cbv zeta. cbn [hmac_md md_ctx i_ctx o_ctx]. subst k.
  destruct (start_pad_spec (i_ctx c) 0x36 key Ui ltac:(easy) (proj1 Hk) Lk) as (c2 & E2 & R2). rewrite E2. cbn [mbind option_bind fst snd Z.eqb].
  destruct (start_pad_spec (o_ctx c) 0x5c key Uo ltac:(easy) (proj1 Hk) Lk) as (c3 & E3 & R3). rewrite E3. cbn [mbind option_bind fst snd Z.eqb].
  eexists. split; [reflexivity|]. split; [reflexivity|]. auto.
Qed.

Lemma start_message key c : keyed key c ->
  exists c', (r ← EVP_MD_CTX_copy_ex method raw alloc (md_ctx c) (Some (i_ctx c));
              Some (fst r, mk_hmac (hmac_md c) (snd r) (i_ctx c) (o_ctx c))) = Some (1, c') /\ hmac_holds key [] c'.
Proof.
  intros (Em & Ri & Ro & U). rewrite (copy_ex_spec method raw alloc t alloc_ok _ _ _ U Ri). eexists. split; [reflexivity|].
  unfold hmac_holds. rewrite app_nil_r. auto.
Qed.

(** A new key, and the rewinding to the old one *)
Lemma HMAC_Init_ex_key c key md : usable (md_ctx c) -> usable (i_ctx c) -> usable (o_ctx c) -> piece_ok (key_bytes key) ->
  (match md with None => hmac_md c | Some _ => md end) = Some t -> ~ (hmac_md c = Some t /\ key = None) ->
  exists c', HMAC_Init_ex method raw alloc c key md = Some (1, c') /\ hmac_holds (key_bytes key) [] c'.
Proof.
  intros U Ui Uo Hk Em N. unfold HMAC_Init_ex. rewrite Em.
  destruct (decide (Some t = hmac_md c /\ key = None)) as [[E1 E2]|_]; [destruct N; auto|].
  cbn [mbind option_bind]. destruct (new_key_spec c (key_bytes key) U Ui Uo Hk) as (c1 & E1 & K1). rewrite E1.
  cbn [fst snd Z.eqb]. now apply start_message.
Qed.

Lemma HMAC_Init_ex_rewind c key : keyed key c ->
  exists c', HMAC_Init_ex method raw alloc c None None = Some (1, c') /\ hmac_holds key [] c'.
Proof.
  intros K. unfold HMAC_Init_ex. destruct (decide (hmac_md c = hmac_md c /\ None = None)) as [_|N]; [|destruct N; auto].
  cbn [mbind option_bind fst snd Z.eqb]. now apply start_message.
Qed.

Lemma HMAC_Update_spec key m p c : bytes_ok key -> bytes_ok m -> piece_ok p -> hmac_holds key m c ->
  exists c', HMAC_Update method c p = Some (1, c') /\ hmac_holds key (m ++ p) c'.
Proof.
  intros Hk Hm Hp (Em & Ri & Ro & R).
  destruct (DigestUpdate_spec method raw t _ p _ ltac:(apply Forall_app; split; [apply (pad_bytes 0x36 key ltac:(easy) Hk)|exact Hm]) Hp R) as (c1 & E1 & R1).
  unfold HMAC_Update. rewrite E1. eexists. split; [reflexivity|]. unfold hmac_holds. rewrite app_assoc. auto.
Qed.

Lemma HMAC_Final_spec key m c out_len : bytes_ok key -> bytes_ok m -> hmac_holds key m c ->
  exists c', HMAC_Final method raw alloc c out_len = Some (Some (rfc_hmac hash B key m, md_size (method t)), c') /\ keyed key c'.
Proof.
  intros Hk Hm (Em & Ri & Ro & R).
  assert (Bi : bytes_ok (ipad key)) by now apply pad_bytes. assert (Bo : bytes_ok (opad key)) by now apply pad_bytes.
  assert (Bm : bytes_ok (ipad key ++ m)) by (apply Forall_app; auto).
  destruct (DigestFinal_ex_spec method raw t _ _ Bm R) as (c1 & E1 & U1 & _).
  destruct (DigestUpdate_spec method raw t _ _ _ Bo (hash_piece (ipad key ++ m)) Ro) as (c2 & E2 & R2).
  assert (Bh : bytes_ok (opad key ++ hash (ipad key ++ m))) by (apply Forall_app; split; [assumption|apply hash_bytes]).
  destruct (DigestFinal_ex_spec method raw t _ _ Bh R2) as (c3 & E3 & U3 & _).
  unfold HMAC_Final. cbv zeta. rewrite E1. cbn [mbind option_bind fst snd].
  rewrite (copy_ex_spec method raw alloc t alloc_ok _ _ _ U1 Ro). cbn [mbind option_bind fst snd Z.eqb].
  rewrite E2. cbn [mbind option_bind fst snd Z.eqb]. rewrite E3. eexists. split; [reflexivity|]. split; [assumption|]. auto.
Qed.

(** *** Whole messages *)

Abbreviation mac := (rfc_hmac hash B).

Lemma init_hmac_usable : usable (md_ctx HMAC_CTX_init) /\ usable (i_ctx HMAC_CTX_init) /\ usable (o_ctx HMAC_CTX_init).
Proof. repeat split; apply init_usable. Qed.

Lemma HMAC_start key : piece_ok (key_bytes key) ->
  exists c', HMAC_Init_ex method raw alloc HMAC_CTX_init key (Some t) = Some (1, c') /\ hmac_holds (key_bytes key) [] c'.
Proof.
  intros Hk. destruct init_hmac_usable as (U & Ui & Uo). apply HMAC_Init_ex_key; try assumption; [reflexivity|]. intros [[=] _].
Qed.

Lemma HMAC_spec key data : piece_ok (key_bytes key) -> piece_ok data ->
  HMAC method raw alloc t key data = Some (Some (mac (key_bytes key) data, md_size (method t))).
Proof.
  intros Hk Hd. destruct (HMAC_start key Hk) as (c1 & E1 & R1).
  destruct (HMAC_Update_spec _ [] data c1 (proj1 Hk) ltac:(constructor) Hd R1) as (c2 & E2 & R2).
  destruct (HMAC_Final_spec _ data c2 true (proj1 Hk) (proj1 Hd) R2) as (c3 & E3 & _).
  unfold HMAC. rewrite E1. cbn [mbind option_bind fst snd Z.eqb]. rewrite E2. cbn [mbind option_bind fst snd Z.eqb].
  rewrite E3. reflexivity.
Qed.

(** Updates with all the pieces of a message *)
Lemma HMAC_updates key pieces : bytes_ok key -> Forall piece_ok pieces -> forall m c, bytes_ok m -> hmac_holds key m c ->
  exists c', fold_left (fun (s : option (HMAC_CTX D I)) p => c ← s; r ← HMAC_Update method c p; if fst r =? 0 then None else Some (snd r)) pieces (Some c) = Some c' /\
    hmac_holds key (m ++ concat pieces) c'.
Proof.
  intros Hk. induction 1 as [|p l Hp Hl IH]; intros m c Hm R; cbn [fold_left concat]; [exists c; now rewrite app_nil_r|].
  destruct (HMAC_Update_spec key m p c Hk Hm Hp R) as (c1 & E1 & R1). cbn [mbind option_bind]. rewrite E1. cbn [fst snd Z.eqb].
  rewrite app_assoc. apply IH; [|assumption]. destruct Hp. apply Forall_app. auto.
Qed.

(** *** HKDF *)

Lemma length_rfc_hmac key m : Z.of_nat (length (mac key m)) = md_size (method t).
Proof. apply hash_size. Qed.

Abbreviation T prk info i := (rfc_T hash B prk info i).
Abbreviation blocks prk info n := (rfc_blocks hash B prk info n).

Lemma length_blocks prk info n : Z.of_nat (length (blocks prk info n)) = Z.of_nat n * md_size (method t).
Proof.
  induction n as [|n IH]; [reflexivity|]. unfold rfc_blocks in *. rewrite seq_S, map_app, concat_app, length_app. cbn [map concat Nat.add].
  rewrite app_nil_r, Nat2Z.inj_add, IH. cbn [rfc_T]. rewrite length_rfc_hmac. lia.
Qed.

Lemma blocks_S prk info n : blocks prk info (S n) = blocks prk info n ++ T prk info (S n).
Proof. unfold rfc_blocks. rewrite seq_S, map_app, concat_app. cbn [map concat Nat.add]. now rewrite app_nil_r. Qed.

Lemma T_bytes prk info i : bytes_ok (T prk info i).
Proof. destruct i; [constructor|apply hash_bytes]. Qed.

(** One block of the output: the context starts a message, for the first block
    without the rewinding *)
Lemma expand_start prk info i c : bytes_ok prk ->
  (if (i =? 0)%nat then hmac_holds prk [] c else keyed prk c) ->
  exists c', (if Z.of_nat i =? 0 then Some (1, c)
              else r ← HMAC_Init_ex method raw alloc c None None;
                   if fst r =? 0 then Some r else HMAC_Update method (snd r) (firstn (Z.to_nat (md_size (method t))) (T prk info i))) = Some (1, c') /\
    hmac_holds prk (T prk info i) c'.
Proof.
  intros Hp. destruct i as [|i]; cbn [Nat.eqb]; intros S.
  - exists c. auto.
  - rewrite (proj2 (Z.eqb_neq _ _)) by lia. destruct (HMAC_Init_ex_rewind c prk S) as (c1 & E1 & R1).
    rewrite E1. cbn [mbind option_bind fst snd Z.eqb].
    pose proof (length_rfc_hmac prk (T prk info i ++ info ++ [Z.of_nat (Datatypes.S i)])) as L.
    rewrite firstn_all2 by (cbn [rfc_T]; lia).
    destruct (HMAC_Update_spec prk [] (T prk info (Datatypes.S i)) c1 Hp ltac:(constructor) ltac:(apply hash_piece) R1) as (c2 & E2 & R2).
    eauto.
Qed.

(** The output so far is a prefix of the blocks. *)
Lemma add_block prk info i L : Z.of_nat i * md_size (method t) < L -> L < 2 ^ 32 -> 
  let done := firstn (Z.to_nat L) (blocks prk info i) in
  let len := md_size (method t) in
  done ++ firstn (Z.to_nat (if L <? size_t (Z.of_nat (length done) + len) then L - Z.of_nat (length done) else len)) (T prk info (S i)) =
  firstn (Z.to_nat L) (blocks prk info (S i)).
Proof.
  intros Hi HL. cbv zeta. pose proof (length_blocks prk info i) as Lb. destruct sizes_ok as (H0 & Hs & _). unfold EVP_MAX_MD_SIZE in Hs.
  rewrite (firstn_all2 (n := Z.to_nat L)) by lia. rewrite wrap_small by (unfold word_ok; nia). rewrite Lb.
  pose proof (length_rfc_hmac prk (T prk info i ++ info ++ [Z.of_nat (S i)])) as Lt. change (rfc_hmac _ _ prk _) with (T prk info (S i)) in Lt.
  rewrite blocks_S, firstn_app, (firstn_all2 (n := Z.to_nat L)) by lia. f_equal.
  destruct (Z.ltb_spec L (Z.of_nat i * md_size (method t) + md_size (method t))); [f_equal; lia|].
  rewrite !firstn_all2 by lia. reflexivity.
Qed.

Lemma expand_loop_spec prk info n L : bytes_ok prk -> piece_ok info -> (n <= 255)%nat ->
  (Z.of_nat n - 1) * md_size (method t) < L -> L < 2 ^ 32 ->
  forall fuel i c, (n < fuel + i)%nat -> (i <= n)%nat ->
  (if (i =? 0)%nat then hmac_holds prk [] c else keyed prk c) ->
  expand_loop method raw alloc fuel (Z.of_nat i) (Z.of_nat n) c (md_size (method t)) L (T prk info i) info (firstn (Z.to_nat L) (blocks prk info i)) =
  Some (Some (firstn (Z.to_nat L) (blocks prk info n))).
Proof.
  intros Hp Hinfo Hn HL HL' fuel. induction fuel as [|fuel IH]; intros i c Hf Hi S; [lia|]. cbn [expand_loop].
  destruct (Z.ltb_spec (Z.of_nat i) (Z.of_nat n)) as [Lt|Ge]; [|now replace i with n by lia].
  destruct (expand_start prk info i c Hp S) as (c1 & E1 & R1). rewrite E1. cbn [mbind option_bind fst snd Z.eqb]. clear S E1.
  destruct (HMAC_Update_spec prk _ info c1 Hp (T_bytes prk info i) Hinfo R1) as (c2 & E2 & R2). rewrite E2. cbn [mbind option_bind fst snd Z.eqb].
  rewrite (wrap_small 8 (Z.of_nat i + 1)) by (unfold word_ok; lia). replace (Z.of_nat i + 1) with (Z.of_nat (Datatypes.S i)) by lia.
  assert (Bm : bytes_ok (T prk info i ++ info)) by (apply Forall_app; split; [apply T_bytes|apply Hinfo]).
  assert (Bc : piece_ok [Z.of_nat (Datatypes.S i)]) by (split; [repeat constructor; unfold word_ok; lia|reflexivity]).
  destruct (HMAC_Update_spec prk _ _ c2 Hp Bm Bc R2) as (c3 & E3 & R3). rewrite E3. cbn [mbind option_bind fst snd Z.eqb].
  destruct (HMAC_Final_spec prk _ c3 false Hp ltac:(apply Forall_app; split; [exact Bm|apply Bc]) R3) as (c4 & E4 & K4).
  rewrite E4. cbn [mbind option_bind fst snd]. rewrite <- app_assoc. change (rfc_hmac hash B prk (T prk info i ++ info ++ _)) with (T prk info (Datatypes.S i)).
  destruct sizes_ok as (H0 & _). rewrite add_block by (assumption || nia). apply IH; [lia|lia|exact K4].
Qed.

Lemma HKDF_expand_spec L prk info : piece_ok prk -> piece_ok info -> 0 <= L < 2 ^ 64 ->
  HKDF_expand method raw alloc L t prk info =
  if 255 * md_size (method t) <? L then Some None
  else Some (Some (firstn (Z.to_nat L) (blocks prk info (Z.to_nat ((L + md_size (method t) - 1) / md_size (method t)))))).
Proof.
  intros Hp Hinfo HL. destruct sizes_ok as (H0 & Hs & _). unfold EVP_MAX_MD_SIZE in Hs. set (len := md_size (method t)) in *.
  unfold HKDF_expand, EVP_MD_size. fold len. cbv zeta.
  destruct (Z.lt_ge_cases (L + len) (2 ^ 64)) as [W|W].
  - rewrite !wrap_small by (unfold word_ok; rewrite ?wrap_small; unfold word_ok; lia).
    assert (N : 255 <? (L + len - 1) / len = (255 * len <? L)).
    { pose proof (Z.div_mod (L + len - 1) len ltac:(lia)). pose proof (Z.mod_pos_bound (L + len - 1) len ltac:(lia)).
      apply eq_true_iff_eq. rewrite !Z.ltb_lt. nia. }
    rewrite (proj2 (Z.ltb_ge (L + len) L)) by lia. cbn [orb]. rewrite N. destruct (Z.ltb_spec (255 * len) L); [reflexivity|].
    destruct (HMAC_start (Some prk) Hp) as (c1 & E1 & R1). rewrite E1. cbn [mbind option_bind fst snd Z.eqb].
    set (n := (L + len - 1) / len) in *. assert (Hn : 0 <= n <= 255 /\ (n - 1) * len < L).
    { apply Z.ltb_ge in N. pose proof (Z.div_mod (L + len - 1) len ltac:(lia)). pose proof (Z.mod_pos_bound (L + len - 1) len ltac:(lia)).
      fold n in H1. pose proof (Z.div_pos (L + len - 1) len ltac:(lia) ltac:(lia)). fold n in H3. nia. }
    pose proof (expand_loop_spec prk info (Z.to_nat n) L (proj1 Hp) Hinfo ltac:(lia) ltac:(fold len; nia) ltac:(nia)
      (S (Z.to_nat n)) 0%nat c1 ltac:(lia) ltac:(lia) R1) as E. rewrite Z2Nat.id in E by lia. rewrite <- E. now rewrite firstn_nil.
  - assert (S1 : size_t (L + len) = L + len - 2 ^ 64) by (symmetry; apply (Z.mod_unique _ _ 1); lia).
    rewrite S1, (proj2 (Z.ltb_lt (L + len - 2 ^ 64) L)) by lia. cbn [orb]. rewrite (proj2 (Z.ltb_lt (255 * len) L)) by lia. reflexivity.
Qed.
End Laws.
