(* ===== verification/Digests.v ===== *)
(** * The tables of the digests ([crypto/fipsmodule/digest/digests.c])

    The tables [EVP_md4] to [EVP_md5_sha1] for [Digest] and [Hmac], and that
    they promise the hashes of their standards: with this, HMAC and HKDF are
    those of RFC 2104 and RFC 5869 for every digest there is.

    The memory of a context is one of the structs, or the bytes that [malloc]
    gave or that the clearing left.  A function that is called for another
    struct than its own, or whose result the code's [CHECK] refuses, has no
    value. *)

From Stdlib Require Import ZArith Lia Bool List.
From stdpp Require Import base option decidable.
From S2P Require Md4 Md5 Sha1 Sha256 Sha512.
From S2P Require Import Prelude Endian Md32 Digest Hmac.
Import ListNotations.

#[local] Open Scope Z_scope.

(** ** Definitions *)

Inductive hash_data : Type :=
| Raw (l : list Z)
| Md32Data (c : md32)
| Sha256Data (c : Sha256.SHA256_CTX)
| Sha512Data (c : Sha512.SHA512_CTX)
| Md5Sha1Data (md5 sha1 : md32).

(** The bytes of [p], at its offset in a [SHA512_CTX] *)
Definition buffer_of (d : hash_data) : list Z :=
  match d with
  | Raw l => firstn 128 (skipn 80 l)
  | Sha512Data c => Sha512.p c
  | _ => []
  end.

Definition md4_init (d : hash_data) : hash_data := Md32Data Md4.MD4_Init.

Definition md4_update (d : hash_data) (data : list Z) : option hash_data :=
  match d with Md32Data c => Some (Md32Data (Md4.MD4_Update c data)) | _ => None end.

Definition md4_final (d : hash_data) : option (list Z * hash_data) :=
  match d with Md32Data c => let '(out, c) := Md4.MD4_Final c in Some (out, Md32Data c) | _ => None end.

Definition EVP_md4 : EVP_MD hash_data :=
  mk_evp_md 257 Md4.MD4_DIGEST_LENGTH 0 md4_init md4_update md4_final 64 92.

Definition md5_init (d : hash_data) : hash_data := Md32Data Md5.MD5_Init.

Definition md5_update (d : hash_data) (data : list Z) : option hash_data :=
  match d with Md32Data c => Some (Md32Data (Md5.MD5_Update c data)) | _ => None end.

Definition md5_final (d : hash_data) : option (list Z * hash_data) :=
  match d with Md32Data c => let '(out, c) := Md5.MD5_Final c in Some (out, Md32Data c) | _ => None end.

Definition EVP_md5 : EVP_MD hash_data :=
  mk_evp_md 4 Md5.MD5_DIGEST_LENGTH 0 md5_init md5_update md5_final 64 92.

Definition sha1_init (d : hash_data) : hash_data := Md32Data Sha1.SHA1_Init.

Definition sha1_update (d : hash_data) (data : list Z) : option hash_data :=
  match d with Md32Data c => Some (Md32Data (Sha1.SHA1_Update c data)) | _ => None end.

Definition sha1_final (d : hash_data) : option (list Z * hash_data) :=
  match d with Md32Data c => let '(out, c) := Sha1.SHA1_Final c in Some (out, Md32Data c) | _ => None end.

Definition EVP_sha1 : EVP_MD hash_data :=
  mk_evp_md 64 Sha1.SHA_DIGEST_LENGTH 0 sha1_init sha1_update sha1_final 64 96.

Definition sha224_init (d : hash_data) : hash_data := Sha256Data Sha256.SHA224_Init.

Definition sha224_update (d : hash_data) (data : list Z) : option hash_data :=
  match d with Sha256Data c => Some (Sha256Data (Sha256.SHA224_Update c data)) | _ => None end.

Definition sha224_final (d : hash_data) : option (list Z * hash_data) :=
  match d with
  | Sha256Data c => match Sha256.SHA224_Final c with (Some out, c) => Some (out, Sha256Data c) | (None, _) => None end
  | _ => None
  end.

Definition EVP_sha224 : EVP_MD hash_data :=
  mk_evp_md 675 Sha256.SHA224_DIGEST_LENGTH 0 sha224_init sha224_update sha224_final 64 112.

Definition sha256_init (d : hash_data) : hash_data := Sha256Data Sha256.SHA256_Init.

Definition sha256_update (d : hash_data) (data : list Z) : option hash_data :=
  match d with Sha256Data c => Some (Sha256Data (Sha256.SHA256_Update c data)) | _ => None end.

Definition sha256_final (d : hash_data) : option (list Z * hash_data) :=
  match d with
  | Sha256Data c => match Sha256.SHA256_Final c with (Some out, c) => Some (out, Sha256Data c) | (None, _) => None end
  | _ => None
  end.

Definition EVP_sha256 : EVP_MD hash_data :=
  mk_evp_md 672 Sha256.SHA256_DIGEST_LENGTH 0 sha256_init sha256_update sha256_final 64 112.

Definition sha384_init (d : hash_data) : hash_data := Sha512Data (Sha512.SHA384_Init (buffer_of d)).

Definition sha384_update (d : hash_data) (data : list Z) : option hash_data :=
  match d with Sha512Data c => Some (Sha512Data (Sha512.SHA384_Update c data)) | _ => None end.

Definition sha384_final (d : hash_data) : option (list Z * hash_data) :=
  match d with
  | Sha512Data c => match Sha512.SHA384_Final true c with (Some out, c) => Some (out, Sha512Data c) | (None, _) => None end
  | _ => None
  end.

Definition EVP_sha384 : EVP_MD hash_data :=
  mk_evp_md 673 Sha512.SHA384_DIGEST_LENGTH 0 sha384_init sha384_update sha384_final 128 216.

Definition sha512_init (d : hash_data) : hash_data := Sha512Data (Sha512.SHA512_Init (buffer_of d)).

Definition sha512_update (d : hash_data) (data : list Z) : option hash_data :=
  match d with Sha512Data c => Some (Sha512Data (Sha512.SHA512_Update c data)) | _ => None end.

Definition sha512_final (d : hash_data) : option (list Z * hash_data) :=
  match d with
  | Sha512Data c => match Sha512.SHA512_Final true c with (Some out, c) => Some (out, Sha512Data c) | (None, _) => None end
  | _ => None
  end.

Definition EVP_sha512 : EVP_MD hash_data :=
  mk_evp_md 674 Sha512.SHA512_DIGEST_LENGTH 0 sha512_init sha512_update sha512_final 128 216.

Definition sha512_256_init (d : hash_data) : hash_data := Sha512Data (Sha512.SHA512_256_Init (buffer_of d)).

Definition sha512_256_update (d : hash_data) (data : list Z) : option hash_data :=
  match d with Sha512Data c => Some (Sha512Data (Sha512.SHA512_256_Update c data)) | _ => None end.

Definition sha512_256_final (d : hash_data) : option (list Z * hash_data) :=
  match d with
  | Sha512Data c => match Sha512.SHA512_256_Final true c with (Some out, c) => Some (out, Sha512Data c) | (None, _) => None end
  | _ => None
  end.

Definition EVP_sha512_256 : EVP_MD hash_data :=
  mk_evp_md 962 Sha512.SHA512_256_DIGEST_LENGTH 0 sha512_256_init sha512_256_update sha512_256_final 128 216.

Definition md5_sha1_init (d : hash_data) : hash_data := Md5Sha1Data Md5.MD5_Init Sha1.SHA1_Init.

Definition md5_sha1_update (d : hash_data) (data : list Z) : option hash_data :=
  match d with Md5Sha1Data c s => Some (Md5Sha1Data (Md5.MD5_Update c data) (Sha1.SHA1_Update s data)) | _ => None end.

Definition md5_sha1_final (d : hash_data) : option (list Z * hash_data) :=
  match d with
  | Md5Sha1Data c s =>
      let '(out1, c) := Md5.MD5_Final c in
      let '(out2, s) := Sha1.SHA1_Final s in
      Some (out1 ++ out2, Md5Sha1Data c s)
  | _ => None
  end.

Definition EVP_md5_sha1 : EVP_MD hash_data :=
  mk_evp_md 114 (Md5.MD5_DIGEST_LENGTH + Sha1.SHA_DIGEST_LENGTH) 0 md5_sha1_init md5_sha1_update md5_sha1_final 64 188.

(** The tables there are, by their addresses *)
Inductive digests : Type := D_md4 | D_md5 | D_sha1 | D_sha224 | D_sha256 | D_sha384 | D_sha512 | D_sha512_256 | D_md5_sha1.

#[export] Instance digests_eq_dec : EqDecision digests.
Proof. solve_decision. Defined.

Definition method (t : digests) : EVP_MD hash_data :=
  match t with
  | D_md4 => EVP_md4
  | D_md5 => EVP_md5
  | D_sha1 => EVP_sha1
  | D_sha224 => EVP_sha224
  | D_sha256 => EVP_sha256
  | D_sha384 => EVP_sha384
  | D_sha512 => EVP_sha512
  | D_sha512_256 => EVP_sha512_256
  | D_md5_sha1 => EVP_md5_sha1
  end.

(** The hash of each, by its standard *)
Definition standard (t : digests) : list Z -> list Z :=
  match t with
  | D_md4 => Md4.md4_hash
  | D_md5 => Md5.md5_hash
  | D_sha1 => Sha1.sha1_hash
  | D_sha224 => Sha256.sha224_hash
  | D_sha256 => Sha256.sha256_hash
  | D_sha384 => Sha512.sha384_hash
  | D_sha512 => Sha512.sha512_hash
  | D_sha512_256 => Sha512.sha512_256_hash
  | D_md5_sha1 => fun m => Md5.md5_hash m ++ Sha1.sha1_hash m
  end.

(** ** The tables keep their promise *)

Lemma concat_size (f : Z -> list Z) n l : (forall v, length (f v) = n) -> length (concat (map f l)) = (length l * n)%nat.
Proof. intros H. induction l as [|x l IH]; [reflexivity|]. cbn [map concat length Nat.mul]. now rewrite length_app, H, IH. Qed.

Lemma concat_bytes (f : Z -> list Z) l : (forall v, bytes_ok (f v)) -> bytes_ok (concat (map f l)).
Proof. intros H. induction l as [|x l IH]; cbn [map concat]; [constructor|]. apply Forall_app. auto. Qed.

Lemma length_md5_hash m : length (Md5.md5_hash m) = 16%nat.
Proof.
  unfold Md5.md5_hash. rewrite (concat_size _ 4) by apply length_le_bytes.
  now rewrite (hash_blocks_forall (fun h => length h = 4%nat)) by (reflexivity || apply Md5.md5_compress_4).
Qed.

Lemma length_md4_hash m : length (Md4.md4_hash m) = 16%nat.
Proof.
  unfold Md4.md4_hash. rewrite (concat_size _ 4) by apply length_le_bytes.
  now rewrite (hash_blocks_forall (fun h => length h = 4%nat)) by (reflexivity || apply Md4.md4_compress_4).
Qed.

Lemma length_sha1_hash m : length (Sha1.sha1_hash m) = 20%nat.
Proof.
  unfold Sha1.sha1_hash. rewrite (concat_size _ 4) by apply length_be_bytes.
  now rewrite (hash_blocks_forall (fun h => length h = 5%nat)) by (reflexivity || apply Sha1.sha1_compress_5).
Qed.

Lemma sha1_bytes m : bytes_ok (Sha1.sha1_hash m).
Proof. apply concat_bytes. intros v. apply be_bytes_ok. Qed.

Lemma md5_bytes m : bytes_ok (Md5.md5_hash m).
Proof. apply concat_bytes. intros v. apply le_bytes_ok. Qed.

Lemma length_sha512_hash n iv m : (n <= length iv)%nat -> length (concat (map (be_bytes 8) (firstn n (Sha512.sha512_words iv m)))) = (n * 8)%nat.
Proof. intros L. rewrite (concat_size _ 8) by apply length_be_bytes. rewrite length_firstn, Sha512.length_sha512_words. lia. Qed.

Lemma length_sha256_hash n iv m : (n <= length iv)%nat -> length (concat (map (be_bytes 4) (firstn n (Sha256.sha256_words iv m)))) = (n * 4)%nat.
Proof. intros L. rewrite (concat_size _ 4) by apply length_be_bytes. rewrite length_firstn, Sha256.length_sha256_words. lia. Qed.

Lemma sha256_hash_words m : Sha256.sha256_hash m = concat (map (be_bytes 4) (firstn 8 (Sha256.sha256_words Sha256.IV256 m))).
Proof. rewrite firstn_all2 by (rewrite Sha256.length_sha256_words; apply le_n). reflexivity. Qed.

Lemma sha512_hash_words m : Sha512.sha512_hash m = concat (map (be_bytes 8) (firstn 8 (Sha512.sha512_words Sha512.IV512 m))).
Proof. rewrite firstn_all2 by (rewrite Sha512.length_sha512_words; apply le_n). reflexivity. Qed.

Definition sizes_fit (md : EVP_MD hash_data) : Prop :=
  0 < md_size md /\ md_size md <= EVP_MAX_MD_SIZE /\ md_size md <= block_size md /\ block_size md <= EVP_MAX_MD_BLOCK_SIZE /\ 0 < ctx_size md.

(** A table whose contexts are determined by the message they have absorbed *)
Section Exact.
Context (md : EVP_MD hash_data) (ctx_of : list Z -> hash_data) (h : list Z -> list Z).
Context (fit : sizes_fit md).
Context (inits : forall d, init md d = ctx_of []).
Context (updates : forall m p, bytes_ok m -> piece_ok p -> update md (ctx_of m) p = Some (ctx_of (m ++ p))).
Context (finals : forall m, bytes_ok m -> option_map fst (final md (ctx_of m)) = Some (h m)).
Context (h_size : forall m, Z.of_nat (length (h m)) = md_size md) (h_bytes : forall m, bytes_ok (h m)).

Lemma exact_final m d : bytes_ok m -> d = ctx_of m -> exists d', final md d = Some (h m, d').
Proof.
  intros Hm ->. specialize (finals m Hm). destruct (final md (ctx_of m)) as [[out d']|]; [|discriminate finals].
  injection finals as <-. eauto.
Qed.

Lemma exact_update m p d : bytes_ok m -> piece_ok p -> d = ctx_of m -> exists d', update md d p = Some d' /\ d' = ctx_of (m ++ p).
Proof. intros Hm Hp ->. eauto. Qed.

Definition exact_promise : Hash Raw md := {|
  hash := h;
  rep m d := d = ctx_of m;
  space d := True;
  sizes_ok := fit;
  raw_space l _ _ := Logic.I;
  rep_space m d _ := Logic.I;
  init_rep d _ := inits d;
  update_rep := exact_update;
  final_rep := exact_final;
  hash_size := h_size;
  hash_bytes := h_bytes
|}.
End Exact.

Ltac fits := repeat split; reflexivity || (intros [=]).

#[export] Instance md4_promise : Hash Raw EVP_md4.
Proof.
  refine (exact_promise EVP_md4 (fun m => Md32Data (Md4.md4_of m)) Md4.md4_hash _ _ _ _ _ _).
  - fits.
  - intros d. cbn [init EVP_md4]. unfold md4_init. now rewrite Md4.md4_init_of.
  - intros m p Hm Hp. cbn [update EVP_md4 md4_update]. now rewrite Md4.md4_update_of.
  - intros m Hm. cbn [final EVP_md4 md4_final]. rewrite <- (Md4.md4_final_of m Hm). now destruct (Md4.MD4_Final (Md4.md4_of m)).
  - intros m. now rewrite length_md4_hash.
  - intros m. apply concat_bytes. intros v. apply le_bytes_ok.
Defined.

#[export] Instance md5_promise : Hash Raw EVP_md5.
Proof.
  refine (exact_promise EVP_md5 (fun m => Md32Data (Md5.md5_of m)) Md5.md5_hash _ _ _ _ _ md5_bytes).
  - fits.
  - intros d. cbn [init EVP_md5]. unfold md5_init. now rewrite Md5.md5_init_of.
  - intros m p Hm Hp. cbn [update EVP_md5 md5_update]. now rewrite Md5.md5_update_of.
  - intros m Hm. cbn [final EVP_md5 md5_final]. rewrite <- (Md5.md5_final_of m Hm). now destruct (Md5.MD5_Final (Md5.md5_of m)).
  - intros m. now rewrite length_md5_hash.
Defined.

#[export] Instance sha1_promise : Hash Raw EVP_sha1.
Proof.
  refine (exact_promise EVP_sha1 (fun m => Md32Data (Sha1.sha1_of m)) Sha1.sha1_hash _ _ _ _ _ sha1_bytes).
  - fits.
  - intros d. cbn [init EVP_sha1]. unfold sha1_init. now rewrite Sha1.sha1_init_of.
  - intros m p Hm Hp. cbn [update EVP_sha1 sha1_update]. now rewrite Sha1.sha1_update_of.
  - intros m Hm. cbn [final EVP_sha1 sha1_final]. rewrite <- (Sha1.sha1_final_of m Hm). now destruct (Sha1.SHA1_Final (Sha1.sha1_of m)).
  - intros m. now rewrite length_sha1_hash.
Defined.

#[export] Instance md5_sha1_promise : Hash Raw EVP_md5_sha1.
Proof.
  refine (exact_promise EVP_md5_sha1 (fun m => Md5Sha1Data (Md5.md5_of m) (Sha1.sha1_of m)) (standard D_md5_sha1) _ _ _ _ _ _).
  - fits.
  - intros d. cbn [init EVP_md5_sha1]. unfold md5_sha1_init. now rewrite Md5.md5_init_of, Sha1.sha1_init_of.
  - intros m p Hm Hp. cbn [update EVP_md5_sha1 md5_sha1_update]. now rewrite Md5.md5_update_of, Sha1.sha1_update_of.
  - intros m Hm. cbn [final EVP_md5_sha1 md5_sha1_final standard]. rewrite <- (Md5.md5_final_of m Hm), <- (Sha1.sha1_final_of m Hm).
    destruct (Md5.MD5_Final (Md5.md5_of m)), (Sha1.SHA1_Final (Sha1.sha1_of m)). reflexivity.
  - intros m. cbn [standard]. rewrite length_app, length_md5_hash, length_sha1_hash. reflexivity.
  - intros m. cbn [standard]. apply Forall_app. split; [apply md5_bytes|apply sha1_bytes].
Defined.

(** The two hashes over [SHA256_CTX] *)
Lemma sha256_final_data len iv m : length iv = 8%nat -> forallb (fun x => (0 <=? x) && (x <? 2 ^ 32)) iv = true ->
  bytes_ok m -> len <= Sha256.SHA256_DIGEST_LENGTH ->
  option_map fst (match Sha256.sha256_final_impl (Sha256.sha256_of iv len m) with (Some out, c) => Some (out, Sha256Data c) | (None, _) => None end) =
  Some (concat (map (be_bytes 4) (firstn (Z.to_nat (len / 4)) (Sha256.sha256_words iv m)))).
Proof.
  intros Li Wi Hm Hl. pose proof (Sha256.sha256_final_of iv len m Li (word_list_check 32 iv Wi) Hm Hl) as E.
  destruct (Sha256.sha256_final_impl _) as [[out|] c]; cbn [fst] in E; [|discriminate E]. injection E as ->. reflexivity.
Qed.

#[export] Instance sha224_promise : Hash Raw EVP_sha224.
Proof.
  refine (exact_promise EVP_sha224 (fun m => Sha256Data (Sha256.sha256_of Sha256.IV224 Sha256.SHA224_DIGEST_LENGTH m)) Sha256.sha224_hash _ _ _ _ _ _).
  - fits.
  - intros d. reflexivity.
  - intros m p Hm Hp. cbn [update EVP_sha224 sha224_update]. unfold Sha256.SHA224_Update. now rewrite Sha256.sha256_update_of.
  - intros m Hm. exact (sha256_final_data Sha256.SHA224_DIGEST_LENGTH Sha256.IV224 m eq_refl eq_refl Hm ltac:(easy)).
  - intros m. unfold Sha256.sha224_hash. now rewrite (length_sha256_hash 7 Sha256.IV224) by (cbn; lia).
  - intros m. apply concat_bytes. intros v. apply be_bytes_ok.
Defined.

#[export] Instance sha256_promise : Hash Raw EVP_sha256.
Proof.
  refine (exact_promise EVP_sha256 (fun m => Sha256Data (Sha256.sha256_of Sha256.IV256 Sha256.SHA256_DIGEST_LENGTH m)) Sha256.sha256_hash _ _ _ _ _ _).
  - fits.
  - intros d. reflexivity.
  - intros m p Hm Hp. cbn [update EVP_sha256 sha256_update]. now rewrite Sha256.sha256_update_of.
  - intros m Hm. rewrite sha256_hash_words.
    exact (sha256_final_data Sha256.SHA256_DIGEST_LENGTH Sha256.IV256 m eq_refl eq_refl Hm ltac:(easy)).
  - intros m. rewrite sha256_hash_words. now rewrite length_sha256_hash by (cbn; lia).
  - intros m. apply concat_bytes. intros v. apply be_bytes_ok.
Defined.

(** A table over [SHA512_CTX], whose initialisation leaves the buffer as it is *)
Section Over512.
Context (md : EVP_MD hash_data) (iv : list Z) (len : Z) (h : list Z -> list Z).
Context (fit : sizes_fit md) (big : ctx_size md = 216).
Context (inits : forall d, init md d = Sha512Data (Sha512.mk_sha512 iv 0 0 (buffer_of d) 0 len)).
Context (updates : forall c p, update md (Sha512Data c) p = Some (Sha512Data (Sha512.SHA512_Update c p))).
Context (finals : forall c, Sha512.md_len c = len ->
  final md (Sha512Data c) = match Sha512.sha512_final_impl true c with (Some out, c) => Some (out, Sha512Data c) | (None, _) => None end).
Context (iv_ok : forallb (fun x => (0 <=? x) && (x <? 2 ^ 64)) iv = true) (iv_8 : length iv = 8%nat).
Context (h_words : forall m, h m = concat (map (be_bytes 8) (firstn (Z.to_nat (len / 8)) (Sha512.sha512_words iv m)))).
Context (h_size : forall m, Z.of_nat (length (h m)) = md_size md).

Definition rep512 (m : list Z) (d : hash_data) : Prop := exists c, d = Sha512Data c /\ bytes_ok m /\ Sha512.sha512_rep iv len m c.

Definition room (d : hash_data) : Prop := length (buffer_of d) = 128%nat /\ bytes_ok (buffer_of d).

Lemma room_raw l : Z.of_nat (length l) = ctx_size md -> bytes_ok l -> room (Raw l).
Proof. intros L H. split; cbn [buffer_of]; [rewrite length_firstn, length_skipn; lia|bytes]. Qed.

Lemma room_rep m d : rep512 m d -> room d.
Proof.
  intros (c & -> & Hm & t & -> & L & Ht). split; [exact L|]. cbn [buffer_of Sha512.p].
  apply Forall_app. split; [|exact Ht]. now apply absorb_bytes.
Qed.

Lemma init_512 d : room d -> rep512 [] (init md d).
Proof. intros [L H]. rewrite inits. eexists. split; [reflexivity|]. split; [constructor|]. now apply Sha512.sha512_init_rep. Qed.

Lemma update_512 m p d : bytes_ok m -> piece_ok p -> rep512 m d -> exists d', update md d p = Some d' /\ rep512 (m ++ p) d'.
Proof.
  intros Hm Hp (c & -> & _ & R). rewrite updates. eexists. split; [reflexivity|]. eexists. split; [reflexivity|].
  split; [destruct Hp; apply Forall_app; auto|]. now apply Sha512.sha512_update_rep.
Qed.

Lemma final_512 m d : bytes_ok m -> rep512 m d -> exists d', final md d = Some (h m, d').
Proof.
  intros Hm (c & -> & _ & R). destruct (Sha512.sha512_final_rep iv len m c iv_ok iv_8 Hm R) as [E El].
  rewrite (finals c El), h_words. destruct (Sha512.sha512_final_impl true c) as [[out|] c']; cbn [fst] in E; [|discriminate E].
  injection E as ->. eauto.
Qed.

Lemma bytes_512 m : bytes_ok (h m).
Proof. rewrite h_words. apply concat_bytes. intros v. apply be_bytes_ok. Qed.

Definition promise_512 : Hash Raw md := {|
  hash := h;
  rep := rep512;
  space := room;
  sizes_ok := fit;
  raw_space := room_raw;
  rep_space := room_rep;
  init_rep := init_512;
  update_rep := update_512;
  final_rep := final_512;
  hash_size := h_size;
  hash_bytes := bytes_512
|}.
End Over512.

#[export] Instance sha384_promise : Hash Raw EVP_sha384.
Proof.
  refine (promise_512 EVP_sha384 Sha512.IV384 Sha512.SHA384_DIGEST_LENGTH Sha512.sha384_hash _ eq_refl _ _ _ eq_refl eq_refl _ _).
  - fits.
  - intros d. reflexivity.
  - intros c p. reflexivity.
  - intros c E. cbn [final EVP_sha384 sha384_final]. unfold Sha512.SHA384_Final. rewrite E. reflexivity.
  - intros m. reflexivity.
  - intros m. unfold Sha512.sha384_hash. now rewrite length_sha512_hash by (cbn; lia).
Defined.

#[export] Instance sha512_promise : Hash Raw EVP_sha512.
Proof.
  refine (promise_512 EVP_sha512 Sha512.IV512 Sha512.SHA512_DIGEST_LENGTH Sha512.sha512_hash _ eq_refl _ _ _ eq_refl eq_refl _ _).
  - fits.
  - intros d. reflexivity.
  - intros c p. reflexivity.
  - intros c E. cbn [final EVP_sha512 sha512_final]. unfold Sha512.SHA512_Final. reflexivity.
  - intros m. apply sha512_hash_words.
  - intros m. rewrite sha512_hash_words. now rewrite length_sha512_hash by (cbn; lia).
Defined.

#[export] Instance sha512_256_promise : Hash Raw EVP_sha512_256.
Proof.
  refine (promise_512 EVP_sha512_256 Sha512.IV512_256 Sha512.SHA512_256_DIGEST_LENGTH Sha512.sha512_256_hash _ eq_refl _ _ _ eq_refl eq_refl _ _).
  - fits.
  - intros d. reflexivity.
  - intros c p. reflexivity.
  - intros c E. cbn [final EVP_sha512_256 sha512_256_final]. unfold Sha512.SHA512_256_Final. rewrite E. reflexivity.
  - intros m. reflexivity.
  - intros m. unfold Sha512.sha512_256_hash. now rewrite length_sha512_hash by (cbn; lia).
Defined.

#[export] Instance promise (t : digests) : Hash Raw (method t).
Proof. destruct t; exact _. Defined.

Lemma promise_standard (t : digests) : @hash _ _ _ (promise t) = standard t.
Proof. destruct t; reflexivity. Qed.

(** ** Digests of messages, one after the other in one context *)

(** [malloc] may fail, but what it gives are bytes. *)
Definition alloc_sound (alloc : Z -> option (list Z)) : Prop :=
  forall n l, alloc n = Some l -> Z.of_nat (length l) = n /\ bytes_ok l.

(** An update with each of the pieces *)
Definition digest_updates (c : EVP_MD_CTX hash_data digests) (pieces : list (list Z)) : option (EVP_MD_CTX hash_data digests) :=
  fold_left (fun s p => c ← s; r ← EVP_DigestUpdate method c p; if fst r =? 0 then None else Some (snd r)) pieces (Some c).

(** For each of the messages, with its digest: [EVP_DigestInit_ex], the updates
    and [EVP_DigestFinal_ex] *)
Fixpoint digest_all (alloc : Z -> option (list Z)) (c : EVP_MD_CTX hash_data digests) (jobs : list (digests * list (list Z))) : option (list (list Z * Z)) :=
  match jobs with
  | [] => Some []
  | (t, pieces) :: jobs =>
      r ← EVP_DigestInit_ex method Raw alloc c t;
      if fst r =? 0 then None
      else
        c ← digest_updates (snd r) pieces;
        r ← EVP_DigestFinal_ex method Raw c;
        outs ← digest_all alloc (snd r) jobs;
        Some (fst r :: outs)
  end.

Lemma digest_updates_spec t pieces : Forall piece_ok pieces -> forall m c, bytes_ok m -> holds method Raw t m c ->
  exists c', digest_updates c pieces = Some c' /\ holds method Raw t (m ++ concat pieces) c'.
Proof.
  unfold digest_updates. induction 1 as [|p l Hp Hl IH]; intros m c Hm R; cbn [fold_left concat]; [exists c; now rewrite app_nil_r|].
  destruct (DigestUpdate_spec method Raw t m p c Hm Hp R) as (c1 & E1 & R1). cbn [mbind option_bind]. rewrite E1. cbn [fst snd Z.eqb].
  rewrite app_assoc. apply IH; [|assumption]. destruct Hp. apply Forall_app. auto.
Qed.

Lemma digest_all_spec alloc : alloc_total alloc -> forall jobs c, (forall t, usable method Raw t c) -> Forall (fun j => Forall piece_ok (snd j)) jobs ->
  digest_all alloc c jobs = Some (map (fun j => (standard (fst j) (concat (snd j)), md_size (method (fst j)))) jobs).
Proof.
  intros Ha. induction jobs as [|[t pieces] jobs IH]; intros c U F; cbn [digest_all map]; [reflexivity|].
  apply Forall_cons_iff in F as [Hp F]. cbn [snd fst] in *.
  destruct (DigestInit_ex_spec method Raw alloc t Ha c (U t)) as (c1 & E1 & R1). rewrite E1. cbn [mbind option_bind fst snd Z.eqb].
  destruct (digest_updates_spec t pieces Hp [] c1 ltac:(constructor) R1) as (c2 & E2 & R2). rewrite E2. cbn [mbind option_bind].
  destruct (DigestFinal_ex_spec method Raw t (concat pieces) c2 (pieces_bytes pieces Hp) R2) as (c3 & E3 & U3 & D3). rewrite E3. cbn [mbind option_bind fst snd].
  rewrite IH; [now rewrite promise_standard| |assumption].
  intros t'. destruct (decide (t' = t)) as [->|N]; [exact U3|]. intros E. rewrite D3 in E. injection E as E. congruence.
Qed.

Lemma EVP_Digest_spec alloc t data : alloc_sound alloc -> piece_ok data ->
  EVP_Digest method Raw alloc data t =
  Some (match alloc (ctx_size (method t)) with None => None | Some _ => Some (standard t data, md_size (method t)) end).
Proof.
  intros Ha Hd. unfold EVP_Digest. assert (R0 : forall l, alloc (ctx_size (method t)) = Some l -> holds method Raw t [] (mk_ctx (Some t) (Some (init (method t) (Raw l))))).
  { intros l E. destruct (Ha _ _ E). eexists. split; [reflexivity|]. now apply init_rep, raw_space. }
  unfold EVP_DigestInit_ex, EVP_MD_CTX_init at 1. cbn [digest].
  destruct (decide (None = Some t)) as [[=]|_]. destruct (alloc (ctx_size (method t))) as [l|]; [|reflexivity].
  cbn [digest md_data mbind option_bind fst snd Z.eqb].
  destruct (DigestUpdate_spec method Raw t [] data _ ltac:(constructor) Hd (R0 l eq_refl)) as (c2 & E2 & R2). rewrite E2. cbn [mbind option_bind fst snd Z.eqb].
  destruct (DigestFinal_ex_spec method Raw t _ c2 (proj1 Hd) R2) as (c3 & E3 & _). rewrite E3. cbn [mbind option_bind fst snd].
  now rewrite promise_standard.
Qed.

(** C28: for all nine tables and all messages, cut into pieces at will and
    digested one after the other in ONE context, under tables in any order, each
    digest is the standard's for the table (FIPS 180-4, RFC 1320, RFC 1321, and
    MD5 followed by SHA-1 for TLS), with the table's size: nothing of a message
    is left in the context for the next one, whether its memory is kept or
    replaced.  The one-shot [EVP_Digest] gives the same, or 0 exactly when
    [malloc] fails. *)
Theorem EVP_Digest_correct (alloc : Z -> option (list Z)) (alloc_ok : alloc_sound alloc) (jobs : list (digests * list (list Z)))
    (jobs_ok : Forall (fun j => Forall piece_ok (snd j)) jobs) :
  (alloc_total alloc ->
   digest_all alloc EVP_MD_CTX_init jobs = Some (map (fun j => (standard (fst j) (concat (snd j)), md_size (method (fst j)))) jobs)) /\
  (forall t data, piece_ok data -> EVP_Digest method Raw alloc data t =
     Some (match alloc (ctx_size (method t)) with None => None | Some _ => Some (standard t data, md_size (method t)) end)).
Proof.
  split.
  - intros Ht. apply digest_all_spec; [assumption| |assumption]. intros t. apply init_usable.
  - intros t data Hd. now apply EVP_Digest_spec.
Qed.

(** A [malloc] that always has memory *)
Definition some_memory (n : Z) : option (list Z) := Some (repeat 7 (Z.to_nat n)).

Lemma repeat_7_bytes n : bytes_ok (repeat 7 n).
Proof. apply Forall_forall. intros x Hx. apply repeat_spec in Hx. subst x. now split. Qed.

Lemma some_memory_total : alloc_total some_memory.
Proof. intros n Hn. eexists. split; [reflexivity|]. split; [rewrite repeat_length; lia|apply repeat_7_bytes]. Qed.

Lemma EVP_Digest_correct_witness :
  digest_all (fun n => if n <? 0 then None else some_memory n) EVP_MD_CTX_init [(D_sha512, [[97]; [98; 99]]); (D_md5_sha1, [[97]])] =
  Some [(Sha512.sha512_hash [97; 98; 99], 64); (Md5.md5_hash [97] ++ Sha1.sha1_hash [97], 36)].
Proof.
  etransitivity; [refine (proj1 (EVP_Digest_correct (fun n => if n <? 0 then None else some_memory n) _
    [(D_sha512, [[97]; [98; 99]]); (D_md5_sha1, [[97]])] _) _)|].
  4: { cbn [map fst snd standard concat app method EVP_sha512 EVP_md5_sha1 md_size]. reflexivity. }
  - intros n l. destruct (Z.ltb_spec n 0) as [L|L]; intros [= <-]. split; [rewrite repeat_length; lia|apply repeat_7_bytes].
  - repeat apply Forall_cons; try apply Forall_nil; split; now (apply bytes_ok_check || vm_compute).
  - intros n Hn. destruct (Z.ltb_spec n 0) as [L|L]; [lia|]. apply some_memory_total. exact Hn.
Defined.

(** ** HMAC and HKDF with the digests there are *)

(** A context that has the key, for each of the messages: an update with each of
    the pieces, [HMAC_Final], and [HMAC_Init_ex] without a key *)
Fixpoint hmac_all (alloc : Z -> option (list Z)) (c : HMAC_CTX hash_data digests) (messages : list (list (list Z))) : option (list (list Z * Z)) :=
  match messages with
  | [] => Some []
  | pieces :: messages =>
      c ← fold_left (fun s p => c ← s; r ← HMAC_Update method c p; if fst r =? 0 then None else Some (snd r)) pieces (Some c);
      r ← HMAC_Final method Raw alloc c true;
      out ← fst r;
      r ← HMAC_Init_ex method Raw alloc (snd r) None None;
      if fst r =? 0 then None
      else outs ← hmac_all alloc (snd r) messages; Some (out :: outs)
  end.

Lemma hmac_all_spec alloc t key : alloc_total alloc -> bytes_ok key ->
  forall messages c, hmac_holds method Raw t key [] c -> Forall (Forall piece_ok) messages ->
  hmac_all alloc c messages = Some (map (fun pieces => (rfc_hmac (standard t) (block_size (method t)) key (concat pieces), md_size (method t))) messages).
Proof.
  intros Ha Hk. induction messages as [|pieces l IH]; intros c R F; cbn [hmac_all map]; [reflexivity|].
  apply Forall_cons_iff in F as [Hp F].
  destruct (HMAC_updates method Raw t key pieces Hk Hp [] c ltac:(constructor) R) as (c1 & E1 & R1). rewrite E1. cbn [mbind option_bind].
  destruct (HMAC_Final_spec method Raw alloc t Ha key (concat pieces) c1 true Hk (pieces_bytes pieces Hp) R1) as (c2 & E2 & K2). rewrite E2. cbn [mbind option_bind fst snd].
  destruct (HMAC_Init_ex_rewind method Raw alloc t Ha c2 key K2) as (c3 & E3 & R3). rewrite E3. cbn [mbind option_bind fst snd Z.eqb].
  rewrite IH by assumption. now rewrite promise_standard.
Qed.

(** RFC 4231, test case 1: "Hi There" *)
Example hmac_rfc4231 : HMAC method Raw some_memory D_sha256 (Some (repeat 11 20)) [72; 105; 32; 84; 104; 101; 114; 101] =
  Some (Some (be_bytes 32 0xb0344c61d8db38535ca8afceaf0bf12b881dc200c9833da726e9376c2e32cff7, 32)).
Proof. vm_compute. reflexivity. Qed.

(** C29: for every digest, key (or NULL) and messages cut into pieces at will,
    [HMAC_Init_ex] with the key succeeds, and the updates and [HMAC_Final] for
    each of the messages, with the context rewound to its key in between by
    [HMAC_Init_ex] with NULL, write the HMAC of RFC 2104 over the standard's
    hash - a key longer than a block is hashed first -, as does the one-shot
    [HMAC]. *)
Theorem HMAC_correct (alloc : Z -> option (list Z)) (alloc_ok : alloc_total alloc) (t : digests) (key : option (list Z))
    (messages : list (list (list Z))) (key_ok : piece_ok (key_bytes key)) (messages_ok : Forall (Forall piece_ok) messages) :
  let mac m := (rfc_hmac (standard t) (block_size (method t)) (key_bytes key) m, md_size (method t)) in
  (exists c, HMAC_Init_ex method Raw alloc HMAC_CTX_init key (Some t) = Some (1, c) /\
     hmac_all alloc c messages = Some (map (fun pieces => mac (concat pieces)) messages)) /\
  (forall data, piece_ok data -> HMAC method Raw alloc t key data = Some (Some (mac data))).
Proof.
  cbv zeta. split.
  - destruct (HMAC_start method Raw alloc t alloc_ok key key_ok) as (c & E & R). exists c. split; [exact E|].
    apply hmac_all_spec; [assumption|apply key_ok|assumption..].
  - intros data Hd. rewrite (HMAC_spec method Raw alloc t alloc_ok key data key_ok Hd). now rewrite promise_standard.
Qed.

Lemma HMAC_correct_witness :
  HMAC method Raw some_memory D_sha256 (Some (repeat 11 20)) [72; 105] =
  Some (Some (rfc_hmac Sha256.sha256_hash 64 (repeat 11 20) [72; 105], 32)).
Proof.
  refine (proj2 (HMAC_correct some_memory some_memory_total D_sha256 (Some (repeat 11 20)) [] _ _) [72; 105] _).
  - split; now (apply bytes_ok_check || vm_compute).
  - apply Forall_nil.
  - split; now (apply bytes_ok_check || vm_compute).
Defined.

(** RFC 5869: without a salt, zeros of the hash's size *)
Definition rfc_extract (t : digests) (salt : option (list Z)) (secret : list Z) : list Z :=
  let salt := match salt with Some s => s | None => repeat 0 (Z.to_nat (md_size (method t))) end in
  rfc_hmac (standard t) (block_size (method t)) salt secret.

Definition rfc_expand (t : digests) (prk info : list Z) (L : Z) : list Z :=
  let N := (L + md_size (method t) - 1) / md_size (method t) in
  firstn (Z.to_nat L) (rfc_blocks (standard t) (block_size (method t)) prk info (Z.to_nat N)).

Lemma no_salt t secret : rfc_hmac (standard t) (block_size (method t)) [] secret = rfc_extract t None secret.
Proof. destruct t; reflexivity. Qed.

Lemma extract_salt t salt secret : rfc_hmac (standard t) (block_size (method t)) (key_bytes salt) secret = rfc_extract t salt secret.
Proof. destruct salt; [reflexivity|apply no_salt]. Qed.

Lemma HKDF_extract_spec alloc t secret salt : alloc_total alloc -> piece_ok (key_bytes salt) -> piece_ok secret ->
  HKDF_extract method Raw alloc t secret salt = Some (Some (rfc_extract t salt secret)).
Proof.
  intros Ha Hs Hsec. unfold HKDF_extract. rewrite (HMAC_spec method Raw alloc t Ha salt secret Hs Hsec). cbn [mbind option_bind].
  rewrite Z.eqb_refl, promise_standard, extract_salt. reflexivity.
Qed.

Lemma extract_piece t salt secret : piece_ok (rfc_extract t salt secret).
Proof. unfold rfc_extract, rfc_hmac. cbv zeta. rewrite <- promise_standard. apply (hash_piece method Raw t). Qed.

(** RFC 5869, test case 3: no salt and no info *)
Example hkdf_rfc5869 : HKDF method Raw some_memory 42 D_sha256 (repeat 11 22) None [] =
  Some (Some (be_bytes 42 0x8da4e775a563c18f715f802a063c5a31b8a11f5c5ee1879ec3454e5f3c738d2d9d201395faa4b61a96c8)).
Proof. vm_compute. reflexivity. Qed.

(** C30: for every digest, [HKDF_extract], [HKDF_expand] and [HKDF] compute the
    key derivation of RFC 5869 - the extraction with its default salt, and the
    first [out_len] bytes of the chain of blocks T(1), T(2), ... with their
    one-byte counters -, and refuse exactly the lengths the RFC does, those above
    255 blocks, also where the sum of the length and the block size wraps. *)
Theorem HKDF_correct (alloc : Z -> option (list Z)) (alloc_ok : alloc_total alloc) (t : digests) (secret info : list Z)
    (salt : option (list Z)) (out_len : Z)
    (inputs_ok : piece_ok secret /\ piece_ok info /\ piece_ok (key_bytes salt)) (out_len_ok : 0 <= out_len < 2 ^ 64) :
  HKDF_extract method Raw alloc t secret salt = Some (Some (rfc_extract t salt secret)) /\
  (forall prk, piece_ok prk ->
     HKDF_expand method Raw alloc out_len t prk info =
     Some (if 255 * md_size (method t) <? out_len then None else Some (rfc_expand t prk info out_len))) /\
  HKDF method Raw alloc out_len t secret salt info =
  Some (if 255 * md_size (method t) <? out_len then None else Some (rfc_expand t (rfc_extract t salt secret) info out_len)).
Proof.
  destruct inputs_ok as (Hsec & Hi & Hs). assert (X := HKDF_extract_spec alloc t secret salt alloc_ok Hs Hsec).
  assert (E : forall prk, piece_ok prk -> HKDF_expand method Raw alloc out_len t prk info =
     Some (if 255 * md_size (method t) <? out_len then None else Some (rfc_expand t prk info out_len))).
  { intros prk Hp. rewrite (HKDF_expand_spec method Raw alloc t alloc_ok out_len prk info Hp Hi out_len_ok), promise_standard.
    now destruct (255 * md_size (method t) <? out_len). }
  split; [exact X|]. split; [exact E|]. unfold HKDF. rewrite X. cbn [mbind option_bind]. apply E, extract_piece.
Qed.

Lemma HKDF_correct_witness :
  HKDF method Raw some_memory 42 D_sha256 (repeat 11 22) None [] = Some (Some (rfc_expand D_sha256 (rfc_extract D_sha256 None (repeat 11 22)) [] 42)).
Proof.
  refine (proj2 (proj2 (HKDF_correct some_memory some_memory_total D_sha256 (repeat 11 22) [] None 42 _ _))).
  - repeat split; now (apply bytes_ok_check || vm_compute).
  - now split.
Defined.
