(* ===== verification/Aead.v ===== *)
(** * Authenticated encryption: BoringSSL's [fipsmodule/cipher/aead.c] and
    [cipher_extra/e_chacha20poly1305.c]

    [EVP_AEAD] is the table of an algorithm's functions; the [EVP_AEAD_CTX_*]
    functions check their arguments, call the table and clear the output when
    it fails.  ChaCha20-Poly1305 and its variant with long nonces are two
    tables, built on [ChaCha] and [Poly1305].

    A buffer that is read is the list of its bytes, with its length; a buffer
    that is written is the list of its contents before, and comes back as its
    contents after.  Where the code compares pointers, the addresses are
    arguments.  A function of a table returns what it writes from the start of
    its output buffers, or [None] for failure; what a failed call has left in
    them is overwritten by the callers.  The additional data and the nonce are
    not in the output buffers, as the code demands.  [stack] is what the
    uninitialised buffer of the Poly1305 state happens to hold. *)

From Stdlib Require Import ZArith Lia ZifyBool List Bool.
From S2P Require Import Prelude ConstTime Mem Poly1305 ChaCha.
Import ListNotations.

Definition len (l : list Z) : Z := Z.of_nat (length l).

(** ** The tables and the contexts *)

(** What the functions of a table see of a context *)
Record ctx_data := mk_data { state : list Z; ctx_tag_len : Z }.

Record EVP_AEAD := mk_aead {
  key_len : Z;
  nonce_len : Z;
  overhead : Z;
  max_tag_len : Z;
  seal_scatter_supports_extra_in : bool;
  init : option (list Z -> Z -> option ctx_data);
  init_with_direction : option (list Z -> Z -> bool -> option ctx_data);
  aead_open : option (ctx_data -> Z -> list Z -> list Z -> list Z -> option (list Z * Z));
  seal_scatter : ctx_data -> Z -> list Z -> list Z -> list Z -> list Z -> option (list Z * list Z * Z);
  open_gather : option (ctx_data -> list Z -> list Z -> list Z -> list Z -> option (list Z));
  get_iv : option (ctx_data -> option (list Z));
  aead_tag_len : option (ctx_data -> Z -> Z -> Z)
}.

(** A context whose [aead] is not null; [None] stands for the others, which
    may be initialised and cleaned up only. *)
Record EVP_AEAD_CTX := mk_ctx { aead : EVP_AEAD; data : ctx_data }.

Definition EVP_AEAD_CTX_init_with_direction (a : EVP_AEAD) (key : list Z) (tag_len : Z) (dir : bool) : option EVP_AEAD_CTX :=
  if negb (len key =? key_len a) then None
  else
    let ok :=
      match init a, init_with_direction a with
      | Some f, _ => f key tag_len
      | None, Some f => f key tag_len dir
      | None, None => None
      end in
    option_map (mk_ctx a) ok.

(** [evp_aead_open] is the direction 0. *)
Definition EVP_AEAD_CTX_init (a : EVP_AEAD) (key : list Z) (tag_len : Z) : option EVP_AEAD_CTX :=
  match init a with
  | None => None
  | Some _ => EVP_AEAD_CTX_init_with_direction a key tag_len false
  end.

Definition EVP_AEAD_CTX_cleanup (ctx : option EVP_AEAD_CTX) : option EVP_AEAD_CTX :=
  match ctx with None => None | Some _ => None end.

Definition buffers_alias (a a_len b b_len : Z) : bool := (b <? u64 (a + a_len)) && (a <? u64 (b + b_len)).

Definition check_alias (inp in_len out out_len : Z) : bool :=
  if negb (buffers_alias inp in_len out out_len) then true else inp =? out.

Definition zeros (l : list Z) : list Z := repeat 0 (length l).

(** [max_out_len] is the length of [out]; the results are the return value,
    the contents of [out] and [*out_len]. *)
Definition EVP_AEAD_CTX_seal (ctx : EVP_AEAD_CTX) (out_p : Z) (out nonce : list Z) (in_p : Z) (inp ad : list Z) : bool * list Z * Z :=
  let error := (false, zeros out, 0) in
  if u64 (len inp + overhead (aead ctx)) <? len inp then error
  else if len out <? len inp then error
  else if negb (check_alias in_p (len inp) out_p (len out)) then error
  else
    match seal_scatter (aead ctx) (data ctx) (len out - len inp) nonce inp [] ad with
    | Some (written, tag, out_tag_len) => (true, splice (length inp) tag (splice 0 written out), len inp + out_tag_len)
    | None => error
    end.

(** [out] has the length of [inp]. *)
Definition EVP_AEAD_CTX_seal_scatter (ctx : EVP_AEAD_CTX) (out_p : Z) (out : list Z) (tag_p : Z) (out_tag nonce : list Z)
    (in_p : Z) (inp extra_in ad : list Z) : bool * list Z * list Z * Z :=
  let error := (false, splice 0 (zeros inp) out, zeros out_tag, 0) in
  if negb (check_alias in_p (len inp) out_p (len inp)) || buffers_alias out_p (len inp) tag_p (len out_tag) ||
     buffers_alias in_p (len inp) tag_p (len out_tag) then error
  else if negb (seal_scatter_supports_extra_in (aead ctx)) && negb (len extra_in =? 0) then error
  else
    match seal_scatter (aead ctx) (data ctx) (len out_tag) nonce inp extra_in ad with
    | Some (written, tag, out_tag_len) => (true, splice 0 written out, splice 0 tag out_tag, out_tag_len)
    | None => error
    end.

Definition EVP_AEAD_CTX_open_gather (ctx : EVP_AEAD_CTX) (out_p : Z) (out nonce : list Z) (in_p : Z) (inp in_tag ad : list Z) : bool * list Z :=
  let error := (false, splice 0 (zeros inp) out) in
  if negb (check_alias in_p (len inp) out_p (len inp)) then error
  else
    match open_gather (aead ctx) with
    | None => error
    | Some f =>
        match f (data ctx) nonce inp in_tag ad with
        | Some written => (true, splice 0 written out)
        | None => error
        end
    end.

Definition EVP_AEAD_CTX_open (ctx : EVP_AEAD_CTX) (out_p : Z) (out nonce : list Z) (in_p : Z) (inp ad : list Z) : bool * list Z * Z :=
  let error := (false, zeros out, 0) in
  let tag_len := ctx_tag_len (data ctx) in
  if negb (check_alias in_p (len inp) out_p (len out)) then error
  else
    match aead_open (aead ctx) with
    | Some f =>
        match f (data ctx) (len out) nonce inp ad with
        | Some (written, out_len) => (true, splice 0 written out, out_len)
        | None => error
        end
    | None =>
        if len inp <? tag_len then error
        else
          let plaintext_len := len inp - tag_len in
          if len out <? plaintext_len then error
          else
            let n := Z.to_nat plaintext_len in
            let (ok, out) := EVP_AEAD_CTX_open_gather ctx out_p out nonce in_p (firstn n inp) (firstn (Z.to_nat tag_len) (skipn n inp)) ad in
            if ok then (true, out, plaintext_len) else (false, zeros out, 0)
    end.

Definition EVP_AEAD_CTX_get_iv (ctx : EVP_AEAD_CTX) : option (list Z) :=
  match get_iv (aead ctx) with None => None | Some f => f (data ctx) end.

Definition EVP_AEAD_CTX_tag_len (ctx : EVP_AEAD_CTX) (in_len extra_in_len : Z) : option Z :=
  match aead_tag_len (aead ctx) with
  | Some f => Some (f (data ctx) in_len extra_in_len)
  | None =>
      let n := u64 (extra_in_len + ctx_tag_len (data ctx)) in
      if n <? extra_in_len then None else Some n
  end.

(** ** ChaCha20-Poly1305 *)

Definition POLY1305_TAG_LEN : Z := 16.

Definition aead_chacha20_poly1305_init (key : list Z) (tag_len : Z) : option ctx_data :=
  let tag_len := if tag_len =? 0 then POLY1305_TAG_LEN else tag_len in
  if POLY1305_TAG_LEN <? tag_len then None
  else if negb (len key =? 32) then None
  else Some (mk_data key tag_len).

(** The bytes of the length, the lowest first *)
Fixpoint length_bytes (n : nat) (data_len : Z) : list Z :=
  match n with
  | O => []
  | S n => u8 data_len :: length_bytes n (Z.shiftr data_len 8)
  end.

Definition poly1305_update_length (st : poly1305_state) (data_len : Z) : poly1305_state :=
  CRYPTO_poly1305_update st (length_bytes 8 data_len) 8.

Definition update (st : poly1305_state) (inp : list Z) : poly1305_state := CRYPTO_poly1305_update st inp (len inp).

(** Zeros up to a multiple of sixteen *)
Definition update_padding (st : poly1305_state) (n : Z) : poly1305_state :=
  if negb (n mod 16 =? 0) then CRYPTO_poly1305_update st (repeat 0 16) (16 - n mod 16) else st.

Section ChaCha20Poly1305.
Context (stack : list Z).

Definition calc_tag (key nonce ad ciphertext ciphertext_extra : list Z) : list Z :=
  let poly1305_key := CRYPTO_chacha_20 (repeat 0 32) 32 key nonce 0 in
  let ctx := CRYPTO_poly1305_init stack poly1305_key in
  let ctx := update ctx ad in
  let ctx := update_padding ctx (len ad) in
  let ctx := update ctx ciphertext in
  let ctx := update ctx ciphertext_extra in
  let ciphertext_total := u64 (len ciphertext + len ciphertext_extra) in
  let ctx := update_padding ctx ciphertext_total in
  let ctx := poly1305_update_length ctx (len ad) in
  let ctx := poly1305_update_length ctx ciphertext_total in
  CRYPTO_poly1305_finish ctx.

(** The extra input, block by block; [offset] bytes of the first block are
    used up. *)
Fixpoint extra_loop (fuel : nat) (key nonce : list Z) (block_counter : Z) (offset : nat) (extra_in : list Z) : list Z :=
  match fuel with
  | O => []
  | S fuel =>
      match extra_in with
      | [] => []
      | _ =>
          let block := CRYPTO_chacha_20 (repeat 0 64) 64 key nonce block_counter in
          let n := Nat.min (64 - offset) (length extra_in) in
          xor_bytes (firstn n extra_in) (skipn offset block) ++
          extra_loop fuel key nonce (u32 (block_counter + 1)) 0 (skipn n extra_in)
      end
  end.

Definition MAX_IN_LEN : Z := 2 ^ 32 * 64 - 64.

Definition chacha20_poly1305_seal_scatter (key : list Z) (max_out_tag_len : Z) (nonce inp extra_in ad : list Z) (tag_len : Z)
    : option (list Z * list Z * Z) :=
  if u64 (len extra_in + tag_len) <? tag_len then None
  else if max_out_tag_len <? u64 (tag_len + len extra_in) then None
  else if negb (len nonce =? 12) then None
  else if MAX_IN_LEN <=? len inp then None
  else if max_out_tag_len <? tag_len then None
  else
    let extra := extra_loop (length extra_in) key nonce (u32 (1 + len inp / 64)) (Z.to_nat (len inp mod 64)) extra_in in
    let out := CRYPTO_chacha_20 inp (len inp) key nonce 1 in
    let tag := calc_tag key nonce ad out extra in
    Some (out, extra ++ firstn (Z.to_nat tag_len) tag, u64 (len extra_in + tag_len)).

Definition chacha20_poly1305_open_gather (key nonce inp in_tag ad : list Z) (tag_len : Z) : option (list Z) :=
  if negb (len nonce =? 12) then None
  else if negb (len in_tag =? tag_len) then None
  else if MAX_IN_LEN <=? len inp then None
  else
    let tag := calc_tag key nonce ad inp [] in
    let out := CRYPTO_chacha_20 inp (len inp) key nonce 1 in
    if negb (CRYPTO_memcmp tag in_tag tag_len =? 0) then None else Some out.

(** The key and the nonce that a long nonce stands for *)
Definition derived_key (key nonce : list Z) : list Z := CRYPTO_hchacha20 key nonce.

Definition derived_nonce (nonce : list Z) : list Z := repeat 0 4 ++ firstn 8 (skipn 16 nonce).

Definition aead_chacha20_poly1305_seal_scatter (ctx : ctx_data) (max_out_tag_len : Z) (nonce inp extra_in ad : list Z) : option (list Z * list Z * Z) :=
  chacha20_poly1305_seal_scatter (firstn 32 (state ctx)) max_out_tag_len nonce inp extra_in ad (ctx_tag_len ctx).

Definition aead_xchacha20_poly1305_seal_scatter (ctx : ctx_data) (max_out_tag_len : Z) (nonce inp extra_in ad : list Z) : option (list Z * list Z * Z) :=
  if negb (len nonce =? 24) then None
  else
    chacha20_poly1305_seal_scatter (derived_key (firstn 32 (state ctx)) nonce) max_out_tag_len (derived_nonce nonce) inp extra_in ad (ctx_tag_len ctx).

Definition aead_chacha20_poly1305_open_gather (ctx : ctx_data) (nonce inp in_tag ad : list Z) : option (list Z) :=
  chacha20_poly1305_open_gather (firstn 32 (state ctx)) nonce inp in_tag ad (ctx_tag_len ctx).

Definition aead_xchacha20_poly1305_open_gather (ctx : ctx_data) (nonce inp in_tag ad : list Z) : option (list Z) :=
  if negb (len nonce =? 24) then None
  else chacha20_poly1305_open_gather (derived_key (firstn 32 (state ctx)) nonce) (derived_nonce nonce) inp in_tag ad (ctx_tag_len ctx).

Definition aead_chacha20_poly1305 : EVP_AEAD :=
  mk_aead 32 12 POLY1305_TAG_LEN POLY1305_TAG_LEN true (Some aead_chacha20_poly1305_init) None None
    aead_chacha20_poly1305_seal_scatter (Some aead_chacha20_poly1305_open_gather) None None.

Definition aead_xchacha20_poly1305 : EVP_AEAD :=
  mk_aead 32 24 POLY1305_TAG_LEN POLY1305_TAG_LEN true (Some aead_chacha20_poly1305_init) None None
    aead_xchacha20_poly1305_seal_scatter (Some aead_xchacha20_poly1305_open_gather) None None.
End ChaCha20Poly1305.

(** ** What an algorithm promises *)

Definition same_bytes (x y : list Z) : bool := if list_eq_dec Z.eq_dec x y then true else false.

(** The interface between the [EVP_AEAD_CTX_*] functions and a table: a cipher
    on bytes that [decrypt] undoes, and an authenticator of the ciphertext.
    [seal_scatter] and [open_gather] are these two, with the failures the
    interface documents. *)
Class Sealing (a : EVP_AEAD) := {
  keyed : ctx_data -> Prop;
  max_len : Z;
  encrypt : ctx_data -> list Z -> list Z -> list Z;
  decrypt : ctx_data -> list Z -> list Z -> list Z;
  authenticate : ctx_data -> list Z -> list Z -> list Z -> list Z;
  max_len_small : 0 <= max_len <= 2 ^ 62;
  tag_small c : keyed c -> 0 <= ctx_tag_len c <= overhead a /\ overhead a <= 255;
  encrypt_length c nonce m : length (encrypt c nonce m) = length m;
  decrypt_encrypt c nonce m : decrypt c nonce (encrypt c nonce m) = m;
  encrypt_decrypt c nonce m : encrypt c nonce (decrypt c nonce m) = m;
  decrypt_length c nonce m : length (decrypt c nonce m) = length m;
  authenticate_length c nonce ad m : keyed c -> len (authenticate c nonce ad m) = ctx_tag_len c;
  authenticate_bytes c nonce ad m : bytes_ok (authenticate c nonce ad m);
  no_open : aead_open a = None;
  seal_law c max_out nonce inp extra ad : keyed c -> len inp + len extra < max_len -> len ad < 2 ^ 62 ->
    seal_scatter a c max_out nonce inp extra ad =
    if (max_out <? ctx_tag_len c + len extra) || negb (len nonce =? nonce_len a) then None
    else
      let m := encrypt c nonce (inp ++ extra) in
      Some (firstn (length inp) m, skipn (length inp) m ++ authenticate c nonce ad m, len extra + ctx_tag_len c);
  open_law : exists f, open_gather a = Some f /\ forall c nonce inp tag ad, keyed c -> len ad < 2 ^ 62 -> bytes_ok tag ->
    f c nonce inp tag ad =
    if (len nonce =? nonce_len a) && (len inp <? max_len) && same_bytes tag (authenticate c nonce ad inp)
    then Some (decrypt c nonce inp) else None
}.

Lemma same_bytes_iff x y : same_bytes x y = true <-> x = y.
Proof. unfold same_bytes. destruct (list_eq_dec Z.eq_dec x y); split; congruence. Qed.

(** ** The authenticator *)

Definition one_time_key (key nonce : list Z) : list Z := CRYPTO_chacha_20 (repeat 0 32) 32 key nonce 0.

(** RFC 8439, section 2.8: what is authenticated *)
Definition padding (l : list Z) : list Z := repeat 0 (Z.to_nat ((16 - len l mod 16) mod 16)).

Definition mac_input (ad ciphertext : list Z) : list Z :=
  ad ++ padding ad ++ ciphertext ++ padding ciphertext ++ le_bytes 8 (len ad) ++ le_bytes 8 (len ciphertext).

(** The authenticator of a message in one call *)
Definition mac (key msg : list Z) : list Z := CRYPTO_poly1305_finish (update (CRYPTO_poly1305_init (repeat 0 16) key) msg).

Lemma closing_buf st b u msg : closing (with_buf st b u) msg = closing st msg.
Proof.
  unfold closing. cbv zeta. rewrite absorb_buf. set (st' := absorb _ _ _). clearbody st'. set (rest := skipn _ _).
  assert (L : (length rest < 16)%nat) by (subst rest; rewrite length_skipn; pose proof (Nat.div_mod_eq (length msg) 16); pose proof (Nat.mod_upper_bound (length msg) 16); lia).
  destruct (Nat.eqb_spec (length rest) 0) as [E|E]; [apply finish_buf|].
  unfold poly1305_update. rewrite Z.div_small by lia. cbn [Z.to_nat update_loop]. destruct (Z.leb_spec 16 (Z.of_nat (length rest))); [lia|].
  destruct (Z.eqb_spec (Z.of_nat (length rest)) 0); [lia|]. rewrite block_buf. apply finish_buf.
Qed.

Lemma init_buf stack key : CRYPTO_poly1305_init stack key = with_buf (CRYPTO_poly1305_init (repeat 0 16) key) stack 0.
Proof. unfold CRYPTO_poly1305_init, with_buf. cbv zeta. reflexivity. Qed.

Lemma finish_mac stack key msg st : len msg < 2 ^ 64 -> after (CRYPTO_poly1305_init stack key) msg st -> CRYPTO_poly1305_finish st = mac key msg.
Proof.
  intros L A. rewrite (finish_after _ _ _ A), init_buf, closing_buf. symmetry. apply finish_after.
  exact (after_update _ [] _ msg (after_init (repeat 0 16) key eq_refl) L).
Qed.

Lemma length_bytes_spec n v : length_bytes n v = le_bytes n v.
Proof.
  revert v. induction n as [|n IH]; intros v; [reflexivity|]. cbn [length_bytes le_bytes]. rewrite IH, Z.shiftr_div_pow2 by lia. reflexivity.
Qed.

Lemma after_length st0 msg st n : after st0 msg st -> after st0 (msg ++ le_bytes 8 n) (poly1305_update_length st n).
Proof. intros A. unfold poly1305_update_length. rewrite length_bytes_spec. now apply (after_update st0 msg st (le_bytes 8 n)). Qed.

(** The bytes behind the length are not read. *)
Lemma update_firstn st inp n : 0 <= n < 16 -> 0 <= buf_used st < 16 -> CRYPTO_poly1305_update st inp n = CRYPTO_poly1305_update st (firstn (Z.to_nat n) inp) n.
Proof.
  intros Hn Hu. unfold CRYPTO_poly1305_update, fill_buffer. destruct (buf_used st =? 0).
  { destruct (Z.leb_spec 16 n); [lia|]. rewrite firstn_firstn, Nat.min_id. reflexivity. }
  cbv zeta. set (todo := if n <? _ then _ else _). assert (T : 0 <= todo <= n) by (subst todo; destruct (Z.ltb_spec n (16 - buf_used st)); lia).
  clearbody todo. rewrite firstn_firstn, Nat.min_l by lia. set (st1 := with_buf st _ _). clearbody st1.
  destruct (Z.leb_spec 16 (n - todo)); [lia|]. rewrite skipn_firstn_comm, firstn_firstn, Nat.min_l by lia. reflexivity.
Qed.

Lemma firstn_repeat (x : Z) n m : firstn n (repeat x m) = repeat x (Nat.min n m).
Proof. revert m. induction n as [|n IH]; intros [|m]; cbn; [reflexivity..|]. now rewrite IH. Qed.

Lemma after_padding st0 msg st l : after st0 msg st -> after st0 (msg ++ padding l) (update_padding st (len l)).
Proof.
  intros A. unfold update_padding, padding. pose proof (Z.mod_pos_bound (len l) 16 ltac:(lia)) as B.
  destruct (Z.eqb_spec (len l mod 16) 0) as [E|E]; cbn [negb].
  - rewrite E, app_nil_r. exact A.
  - rewrite (Z.mod_small (16 - _)) by lia. set (n := 16 - len l mod 16) in *. assert (Hn : 0 <= n < 16) by lia. clearbody n.
    rewrite update_firstn, firstn_repeat, Nat.min_l by (lia || (destruct A as (? & ? & ? & ? & ? & _); assumption)).
    pose proof (after_update st0 msg st (repeat 0 (Z.to_nat n)) A) as X. rewrite repeat_length, Z2Nat.id in X by lia. apply X. lia.
Qed.

Lemma padding_length l l' : len l = len l' -> padding l = padding l'.
Proof. unfold padding. now intros ->. Qed.

Lemma len_app x y : len (x ++ y) = len x + len y.
Proof. unfold len. rewrite length_app. lia. Qed.

Lemma len_padding l : 0 <= len (padding l) < 16.
Proof. unfold padding, len. rewrite repeat_length. pose proof (Z.mod_pos_bound (16 - Z.of_nat (length l) mod 16) 16 ltac:(lia)). lia. Qed.

(** The tag does not depend on the stack, nor on the cut of the ciphertext. *)
Lemma calc_tag_spec stack key nonce ad ct extra : length stack = 16%nat -> len ad < 2 ^ 62 -> len ct + len extra < 2 ^ 62 ->
  calc_tag stack key nonce ad ct extra = mac (one_time_key key nonce) (mac_input ad (ct ++ extra)).
Proof.
  intros Ls La Lc. unfold calc_tag, one_time_key. cbv zeta. generalize (CRYPTO_chacha_20 (repeat 0 32) 32 key nonce 0). intros k.
  assert (0 <= len ct) by (unfold len; lia). assert (0 <= len extra) by (unfold len; lia). assert (0 <= len ad) by (unfold len; lia).
  rewrite (wrap_small 64 (_ + _)) by (unfold word_ok; lia). rewrite <- len_app.
  apply (finish_mac stack).
  - unfold mac_input. rewrite !len_app. pose proof (len_padding ad). pose proof (len_padding (ct ++ extra)). replace (len (le_bytes 8 (len ad))) with 8 by reflexivity. replace (len (le_bytes 8 (len ct + len extra))) with 8 by reflexivity. lia.
  - unfold mac_input. rewrite !app_assoc. apply after_length, after_length, after_padding.
    apply after_update; [|unfold len in *; lia]. apply after_update; [|unfold len in *; lia]. apply after_padding.
    apply (after_update _ []); [now apply after_init|unfold len in *; lia].
Qed.

(** ** The cipher *)

Definition chacha_encrypt (key nonce m : list Z) : list Z := CRYPTO_chacha_20 m (len m) key nonce 1.

Lemma chacha_encrypt_spec key nonce m :
  length (chacha_encrypt key nonce m) = length m /\
  forall i, (i < length m)%nat -> nth i (chacha_encrypt key nonce m) 0 = Z.lxor (nth i m 0) (keystream key nonce 1 i).
Proof.
  destruct (chacha_20_spec m (len m) key nonce 1 ltac:(unfold word_ok; lia) ltac:(unfold len; lia)) as (L & N).
  unfold len in *. rewrite Nat2Z.id in *. exact (conj L N).
Qed.

Lemma length_chacha_encrypt key nonce m : length (chacha_encrypt key nonce m) = length m.
Proof. apply chacha_encrypt_spec. Qed.

Lemma nth_chacha_encrypt key nonce m i : (i < length m)%nat -> nth i (chacha_encrypt key nonce m) 0 = Z.lxor (nth i m 0) (keystream key nonce 1 i).
Proof. apply chacha_encrypt_spec. Qed.

Lemma chacha_encrypt_involutive key nonce m : chacha_encrypt key nonce (chacha_encrypt key nonce m) = m.
Proof.
  apply list_eq_nth; [now rewrite !length_chacha_encrypt|]. intros i Hi. rewrite !length_chacha_encrypt in Hi.
  rewrite !nth_chacha_encrypt, Z.lxor_assoc, Z.lxor_nilpotent, Z.lxor_0_r by (rewrite ?length_chacha_encrypt; exact Hi). reflexivity.
Qed.

Lemma chacha_encrypt_prefix key nonce m m' : firstn (length m) (chacha_encrypt key nonce (m ++ m')) = chacha_encrypt key nonce m.
Proof.
  assert (L : length (firstn (length m) (chacha_encrypt key nonce (m ++ m'))) = length m) by (rewrite length_firstn, length_chacha_encrypt, length_app; lia).
  apply list_eq_nth; [now rewrite L, length_chacha_encrypt|]. rewrite L. intros i Hi.
  rewrite nth_firstn. destruct (Nat.ltb_spec i (length m)); [|lia]. rewrite !nth_chacha_encrypt by (rewrite ?length_app; lia). now rewrite app_nth1.
Qed.

(** The loop over the extra input takes the stream up where the input ended. *)
Lemma extra_loop_spec key nonce fuel : forall counter offset extra, (length extra <= fuel)%nat -> (offset < 64)%nat -> word_ok 32 counter ->
  let out := extra_loop fuel key nonce counter offset extra in
  length out = length extra /\
  forall i, (i < length extra)%nat -> nth i out 0 = Z.lxor (nth i extra 0) (keystream key nonce counter (offset + i)).
Proof.
  induction fuel as [|fuel IH]; intros counter offset extra Lf Ho Hc; cbv zeta.
  { destruct extra; [|cbn in Lf; lia]. split; [reflexivity|]. intros i Hi. cbn in Hi. lia. }
  destruct extra as [|e extra']; [split; [reflexivity|intros i Hi; cbn in Hi; lia]|]. cbn [extra_loop].
  set (extra := e :: extra') in *. assert (Le : (0 < length extra)%nat) by (cbn; lia). clearbody extra.
  destruct (chacha_20_spec (repeat 0 64) 64 key nonce counter Hc ltac:(cbn; lia)) as (Lb & Nb).
  set (block := CRYPTO_chacha_20 _ _ _ _ _) in *. clearbody block. change (Z.to_nat 64) with 64%nat in *.
  set (n := Nat.min (64 - offset) (length extra)). assert (Hn : (0 < n <= length extra /\ n <= 64 - offset /\ (n = length extra \/ n = 64 - offset))%nat) by (subst n; lia).
  clearbody n. destruct (IH (u32 (counter + 1)) O (skipn n extra) ltac:(rewrite length_skipn; lia) ltac:(lia) ltac:(apply wrap_range; lia)) as (L & N).
  set (rest := extra_loop _ _ _ _ _ _) in *. clearbody rest. rewrite length_skipn in L, N.
  assert (L1 : length (xor_bytes (firstn n extra) (skipn offset block)) = n) by (rewrite length_xor_bytes, length_firstn, length_skipn; lia).
  split; [rewrite length_app, L1, L; lia|]. intros i Hi. destruct (Nat.lt_ge_cases i n) as [I|I].
  - rewrite app_nth1, nth_xor_bytes, nth_skipn_Z, Nb, nth_firstn by (rewrite ?L1, ?length_firstn, ?length_skipn; lia).
    destruct (Nat.ltb_spec i n); [|lia]. now rewrite nth_repeat, Z.lxor_0_l.
  - rewrite app_nth2, L1, N, nth_skipn_Z by lia. f_equal; [f_equal; lia|].
    assert (E : (offset + i = 64 * 1 + (0 + (i - n)))%nat) by lia. rewrite E, keystream_block. reflexivity.
Qed.

Lemma extra_spec key nonce inp extra :
  extra_loop (length extra) key nonce (u32 (1 + len inp / 64)) (Z.to_nat (len inp mod 64)) extra =
  skipn (length inp) (chacha_encrypt key nonce (inp ++ extra)).
Proof.
  pose proof (Z.mod_pos_bound (len inp) 64 ltac:(lia)) as B.
  destruct (extra_loop_spec key nonce (length extra) (u32 (1 + len inp / 64)) (Z.to_nat (len inp mod 64)) extra (le_n _) ltac:(lia) ltac:(apply wrap_range; lia)) as (L & N).
  set (out := extra_loop _ _ _ _ _ _) in *. clearbody out.
  apply list_eq_nth; [rewrite L, length_skipn, length_chacha_encrypt, length_app; lia|]. rewrite L. intros i Hi.
  rewrite N, nth_skipn_Z, nth_chacha_encrypt by (rewrite ?length_app; lia). rewrite app_nth2 by lia. f_equal; [f_equal; lia|].
  assert (E : (length inp + i = 64 * Z.to_nat (len inp / 64) + (Z.to_nat (len inp mod 64) + i))%nat).
  { pose proof (Z.div_mod (len inp) 64 ltac:(lia)). pose proof (Z.div_pos (len inp) 64 ltac:(unfold len; lia) ltac:(lia)). unfold len in *. lia. }
  rewrite E, keystream_block, Z2Nat.id by (apply Z.div_pos; [unfold len|]; lia). reflexivity.
Qed.

(** ** The two tables keep the promise *)

Lemma length_add_key st : length (add_key st) = 16%nat.
Proof. reflexivity. Qed.

Lemma add_key_bytes st : bytes_ok (add_key st).
Proof. unfold add_key, U32TO8_LE. cbv zeta. repeat (apply Forall_app; split); apply le_bytes_ok. Qed.

Lemma mac_16 key msg : length (mac key msg) = 16%nat /\ bytes_ok (mac key msg).
Proof. split; [apply length_add_key|apply add_key_bytes]. Qed.

Definition chacha_tag (key nonce ad ct : list Z) (tag_len : Z) : list Z :=
  firstn (Z.to_nat tag_len) (mac (one_time_key key nonce) (mac_input ad ct)).

Lemma length_chacha_tag key nonce ad ct tag_len : 0 <= tag_len <= 16 -> len (chacha_tag key nonce ad ct tag_len) = tag_len.
Proof. intros H. unfold len, chacha_tag. rewrite length_firstn, (proj1 (mac_16 _ _)). lia. Qed.

Lemma chacha_tag_bytes key nonce ad ct tag_len : bytes_ok (chacha_tag key nonce ad ct tag_len).
Proof. apply bytes_ok_firstn, mac_16. Qed.

Lemma seal_scatter_spec stack key max_out nonce inp extra ad tag_len : length stack = 16%nat -> 0 <= tag_len <= 16 ->
  len inp + len extra < MAX_IN_LEN -> len ad < 2 ^ 62 ->
  chacha20_poly1305_seal_scatter stack key max_out nonce inp extra ad tag_len =
  if (max_out <? tag_len + len extra) || negb (len nonce =? 12) then None
  else
    let m := chacha_encrypt key nonce (inp ++ extra) in
    Some (firstn (length inp) m, skipn (length inp) m ++ chacha_tag key nonce ad m tag_len, len extra + tag_len).
Proof.
  intros Hs Ht Hl Ha. unfold MAX_IN_LEN in Hl. assert (0 <= len inp /\ 0 <= len extra) by (unfold len; lia).
  unfold chacha20_poly1305_seal_scatter, MAX_IN_LEN. cbv zeta. rewrite (wrap_small 64 (len extra + tag_len)), (wrap_small 64 (tag_len + len extra)) by (unfold word_ok; lia).
  destruct (Z.ltb_spec (len extra + tag_len) tag_len); [lia|]. destruct (Z.ltb_spec max_out (tag_len + len extra)); [reflexivity|].
  cbn [orb]. destruct (negb (len nonce =? 12)); [reflexivity|]. destruct (Z.leb_spec (2 ^ 32 * 64 - 64) (len inp)); [lia|].
  destruct (Z.ltb_spec max_out tag_len); [lia|]. rewrite extra_spec. fold (chacha_encrypt key nonce inp).
  rewrite calc_tag_spec; [|exact Hs|exact Ha|unfold len in *; rewrite length_skipn, !length_chacha_encrypt, length_app; lia].
  rewrite <- (chacha_encrypt_prefix key nonce inp extra), firstn_skipn. reflexivity.
Qed.

Lemma open_gather_spec stack key nonce inp tag ad tag_len : length stack = 16%nat -> 0 <= tag_len <= 16 -> len ad < 2 ^ 62 -> bytes_ok tag ->
  chacha20_poly1305_open_gather stack key nonce inp tag ad tag_len =
  if (len nonce =? 12) && (len inp <? MAX_IN_LEN) && same_bytes tag (chacha_tag key nonce ad inp tag_len)
  then Some (chacha_encrypt key nonce inp) else None.
Proof.
  intros Hs Ht Ha Hb. unfold chacha20_poly1305_open_gather. cbv zeta. destruct (len nonce =? 12); [|reflexivity]. cbn [negb andb].
  pose proof (length_chacha_tag key nonce ad inp tag_len Ht) as Lt. pose proof (same_bytes_iff tag (chacha_tag key nonce ad inp tag_len)) as Sb.
  destruct (Z.eqb_spec (len tag) tag_len) as [E|E]; cbn [negb].
  2:{ destruct (same_bytes tag _); [|now rewrite andb_false_r]. rewrite (proj1 Sb eq_refl) in E. contradiction. }
  destruct (Z.leb_spec MAX_IN_LEN (len inp)), (Z.ltb_spec (len inp) MAX_IN_LEN); try lia; [reflexivity|]. cbn [andb].
  rewrite calc_tag_spec, app_nil_r by (assumption || (unfold MAX_IN_LEN, len in *; cbn [length]; lia)).
  destruct (mac_16 (one_time_key key nonce) (mac_input ad inp)) as (Lm & Bm).
  pose proof (crypto_memcmp_equal _ tag (Z.to_nat tag_len) Bm Hb ltac:(rewrite Lm; lia) ltac:(unfold len in E; lia)) as C.
  rewrite Z2Nat.id in C by lia. rewrite (firstn_all2 tag) in C by (unfold len in E; lia). fold (chacha_tag key nonce ad inp tag_len) in C.
  fold (chacha_encrypt key nonce inp). destruct (Z.eqb_spec (CRYPTO_memcmp (mac (one_time_key key nonce) (mac_input ad inp)) tag tag_len) 0) as [M|M]; cbn [negb].
  - now rewrite (proj2 Sb (eq_sym (proj1 C M))).
  - destruct (same_bytes tag _); [|reflexivity]. exfalso. apply M, C. symmetry. now apply Sb.
Qed.

Definition chacha_keyed (c : ctx_data) : Prop := 0 <= ctx_tag_len c <= 16.

#[local] Obligation Tactic := idtac.

#[export] Program Instance chacha20_poly1305_sealing (stack : list Z) (Hstack : length stack = 16%nat) : Sealing (aead_chacha20_poly1305 stack) := {|
  keyed := chacha_keyed;
  max_len := MAX_IN_LEN;
  encrypt c := chacha_encrypt (firstn 32 (state c));
  decrypt c := chacha_encrypt (firstn 32 (state c));
  authenticate c nonce ad ct := chacha_tag (firstn 32 (state c)) nonce ad ct (ctx_tag_len c)
|}.
Next Obligation. unfold MAX_IN_LEN. lia. Qed.
Next Obligation. intros. unfold chacha_keyed in *. cbn. unfold POLY1305_TAG_LEN. lia. Qed.
Next Obligation. intros. apply length_chacha_encrypt. Qed.
Next Obligation. intros. apply chacha_encrypt_involutive. Qed.
Next Obligation. intros. apply chacha_encrypt_involutive. Qed.
Next Obligation. intros. apply length_chacha_encrypt. Qed.
Next Obligation. intros. now apply length_chacha_tag. Qed.
Next Obligation. intros. apply chacha_tag_bytes. Qed.
Next Obligation. reflexivity. Qed.
Next Obligation. intros. now apply seal_scatter_spec. Qed.
Next Obligation. intros. eexists. split; [reflexivity|]. intros. now apply open_gather_spec. Qed.

Lemma len_derived_nonce nonce : len nonce = 24 -> len (derived_nonce nonce) = 12.
Proof. unfold len, derived_nonce. intros H. rewrite length_app, repeat_length, length_firstn, length_skipn. lia. Qed.

#[export] Program Instance xchacha20_poly1305_sealing (stack : list Z) (Hstack : length stack = 16%nat) : Sealing (aead_xchacha20_poly1305 stack) := {|
  keyed := chacha_keyed;
  max_len := MAX_IN_LEN;
  encrypt c nonce := chacha_encrypt (derived_key (firstn 32 (state c)) nonce) (derived_nonce nonce);
  decrypt c nonce := chacha_encrypt (derived_key (firstn 32 (state c)) nonce) (derived_nonce nonce);
  authenticate c nonce ad ct := chacha_tag (derived_key (firstn 32 (state c)) nonce) (derived_nonce nonce) ad ct (ctx_tag_len c)
|}.
Next Obligation. unfold MAX_IN_LEN. lia. Qed.
Next Obligation. intros. unfold chacha_keyed in *. cbn. unfold POLY1305_TAG_LEN. lia. Qed.
Next Obligation. intros. apply length_chacha_encrypt. Qed.
Next Obligation. intros. apply chacha_encrypt_involutive. Qed.
Next Obligation. intros. apply chacha_encrypt_involutive. Qed.
Next Obligation. intros. apply length_chacha_encrypt. Qed.
Next Obligation. intros. now apply length_chacha_tag. Qed.
Next Obligation. intros. apply chacha_tag_bytes. Qed.
Next Obligation. reflexivity. Qed.
Next Obligation.
  intros. cbn [seal_scatter aead_xchacha20_poly1305 nonce_len]. unfold aead_xchacha20_poly1305_seal_scatter.
  destruct (Z.eqb_spec (len nonce) 24) as [E|E]; cbn [negb]; [|now rewrite orb_true_r].
  rewrite seal_scatter_spec, (len_derived_nonce nonce E) by assumption. reflexivity.
Qed.
Next Obligation.
  intros. eexists. split; [reflexivity|]. intros. cbn [aead_xchacha20_poly1305 nonce_len]. unfold aead_xchacha20_poly1305_open_gather.
  destruct (Z.eqb_spec (len nonce) 24) as [E|E]; cbn [negb]; [|reflexivity].
  rewrite open_gather_spec, (len_derived_nonce nonce E) by assumption. reflexivity.
Qed.

(** ** Over any algorithm *)

Lemma splice_all src p : length src = length p -> splice 0 src p = src.
Proof. intros L. unfold splice. cbn [firstn app Nat.add]. rewrite L, skipn_all. apply app_nil_r. Qed.

Section Contexts.
Context (a : EVP_AEAD) {Hseal : Sealing a}.

(** What sealing makes of a message *)
Definition sealed (c : ctx_data) (nonce ad m : list Z) : list Z :=
  let ct := encrypt c nonce m in ct ++ authenticate c nonce ad ct.

Lemma len_sealed c nonce ad m : keyed c -> len (sealed c nonce ad m) = len m + ctx_tag_len c.
Proof. intros K. unfold sealed. cbv zeta. rewrite len_app, authenticate_length by exact K. unfold len. now rewrite encrypt_length. Qed.

(** Sealing succeeds exactly when the nonce has its length, the output does
    not overlap the input, and the sealed message fits. *)
Lemma seal_spec c out_p out nonce in_p inp ad : keyed c -> len inp < max_len -> len ad < 2 ^ 62 ->
  EVP_AEAD_CTX_seal (mk_ctx a c) out_p out nonce in_p inp ad =
  if (len nonce =? nonce_len a) && (len inp + ctx_tag_len c <=? len out) && check_alias in_p (len inp) out_p (len out)
  then (true, splice 0 (sealed c nonce ad inp) out, len inp + ctx_tag_len c)
  else (false, zeros out, 0).
Proof.
  intros K L La. unfold EVP_AEAD_CTX_seal. cbn [aead data]. pose proof (tag_small c K) as T. pose proof max_len_small as M. assert (0 <= len inp) by (unfold len; lia).
  rewrite (wrap_small 64) by (unfold word_ok; lia). destruct (Z.ltb_spec (len inp + overhead a) (len inp)); [lia|].
  destruct (Z.leb_spec (len inp + ctx_tag_len c) (len out)) as [F|F], (Z.ltb_spec (len out) (len inp)); try lia; rewrite ?andb_false_r, ?andb_true_r; [|reflexivity|].
  - destruct (check_alias _ _ _ _); cbn [negb]; [|now rewrite andb_false_r]. rewrite seal_law by (assumption || (change (len []) with 0; lia)).
    change (len []) with 0. rewrite Z.add_0_r, app_nil_r. destruct (Z.ltb_spec (len out - len inp) (ctx_tag_len c)); [lia|].
    destruct (len nonce =? nonce_len a); cbn [negb orb andb]; [|reflexivity]. cbv zeta.
    pose proof (encrypt_length c nonce inp) as E. rewrite <- E at 1 2 3. rewrite firstn_all, skipn_all. cbn [app].
    pose proof (authenticate_length c nonce ad (encrypt c nonce inp) K) as EA. unfold len in EA, F.
    f_equal. f_equal. unfold sealed, splice. cbv zeta. cbn [firstn Nat.add app]. rewrite firstn_app_length, length_app, skipn_app.
    rewrite skipn_all2 by lia. rewrite <- app_assoc. cbn [app]. f_equal. f_equal. rewrite skipn_skipn. f_equal. lia.
  - destruct (check_alias _ _ _ _); cbn [negb]; [|reflexivity]. rewrite seal_law by (assumption || (change (len []) with 0; lia)).
    change (len []) with 0. destruct (Z.ltb_spec (len out - len inp) (ctx_tag_len c + 0)); [reflexivity|lia].
Qed.

Lemma check_alias_shorter inp in_len out out_len n :
  0 <= inp -> inp + in_len < 2 ^ 64 -> 0 <= out -> out + out_len < 2 ^ 64 -> 0 <= n <= in_len -> n <= out_len ->
  check_alias inp in_len out out_len = true -> check_alias inp n out n = true.
Proof.
  intros A B C D E F. unfold check_alias, buffers_alias. rewrite !(wrap_small 64) by (unfold word_ok; lia).
  destruct (Z.eqb_spec inp out) as [->|N]; [intros _; now destruct (negb _)|]. intros G.
  destruct (Z.ltb_spec out (inp + n)), (Z.ltb_spec inp (out + n)); try reflexivity. exfalso.
  destruct (Z.ltb_spec out (inp + in_len)); [|lia]. destruct (Z.ltb_spec inp (out + out_len)); [|lia]. discriminate.
Qed.

Definition room (in_p : Z) (inp : list Z) (out_p : Z) (out : list Z) : Prop :=
  0 <= in_p /\ in_p + len inp < 2 ^ 64 /\ 0 <= out_p /\ out_p + len out < 2 ^ 64.

(** Opening succeeds exactly when the arguments are in order and the input is
    what sealing makes of a message, which is then the output. *)
Lemma open_spec c out_p out nonce in_p inp ad : keyed c -> len ad < 2 ^ 62 -> bytes_ok inp -> room in_p inp out_p out ->
  let n := (length inp - Z.to_nat (ctx_tag_len c))%nat in
  let ct := firstn n inp in
  EVP_AEAD_CTX_open (mk_ctx a c) out_p out nonce in_p inp ad =
  if (len nonce =? nonce_len a) && check_alias in_p (len inp) out_p (len out) && (ctx_tag_len c <=? len inp) &&
     (len inp - ctx_tag_len c <=? len out) && (len inp - ctx_tag_len c <? max_len) && same_bytes (skipn n inp) (authenticate c nonce ad ct)
  then (true, splice 0 (decrypt c nonce ct) out, len inp - ctx_tag_len c)
  else (false, zeros out, 0).
Proof.
  intros K La Bi (R1 & R2 & R3 & R4). cbv zeta. unfold EVP_AEAD_CTX_open. cbn [aead data]. rewrite no_open. pose proof (tag_small c K) as T.
  destruct (check_alias in_p (len inp) out_p (len out)) eqn:Al; cbn [negb]; [|now rewrite andb_false_r].
  destruct (Z.leb_spec (ctx_tag_len c) (len inp)) as [F|F], (Z.ltb_spec (len inp) (ctx_tag_len c)); try lia; [|now rewrite !andb_false_r].
  destruct (Z.leb_spec (len inp - ctx_tag_len c) (len out)) as [G|G], (Z.ltb_spec (len out) (len inp - ctx_tag_len c)); try lia; [|now rewrite !andb_false_r].
  rewrite !andb_true_r. assert (En : Z.to_nat (len inp - ctx_tag_len c) = (length inp - Z.to_nat (ctx_tag_len c))%nat) by (unfold len; lia).
  rewrite En. set (n := (length inp - Z.to_nat (ctx_tag_len c))%nat) in *. unfold EVP_AEAD_CTX_open_gather. cbn [aead data].
  assert (Lc : len (firstn n inp) = len inp - ctx_tag_len c) by (unfold len in *; rewrite length_firstn; lia).
  rewrite Lc, (check_alias_shorter in_p (len inp) out_p (len out) (len inp - ctx_tag_len c) R1 R2 R3 R4 ltac:(lia) G Al). cbn [negb].
  destruct open_law as (f & -> & Lf). rewrite (firstn_all2 (skipn n inp)) by (rewrite length_skipn; lia).
  rewrite Lf, Lc by (assumption || now apply bytes_ok_skipn).
  destruct (_ && _ && _); [reflexivity|]. f_equal. f_equal. unfold zeros. rewrite length_splice; [reflexivity|].
  rewrite repeat_length. unfold len in *. lia.
Qed.

Lemma sealed_parts c nonce ad inp : keyed c -> ctx_tag_len c <= len inp ->
  let n := (length inp - Z.to_nat (ctx_tag_len c))%nat in
  same_bytes (skipn n inp) (authenticate c nonce ad (firstn n inp)) = true <-> inp = sealed c nonce ad (decrypt c nonce (firstn n inp)).
Proof.
  intros K L. cbv zeta. set (n := (_ - _)%nat). rewrite same_bytes_iff. unfold sealed. rewrite encrypt_decrypt. split; intros E.
  - now rewrite <- E, firstn_skipn.
  - apply (f_equal (skipn n)) in E. rewrite skipn_app, skipn_firstn_comm in E. rewrite E at 1.
    assert (Ln : length (firstn n inp) = n) by (rewrite length_firstn; subst n; lia). rewrite Ln, Nat.sub_diag. reflexivity.
Qed.

Lemma sealed_length c nonce ad m inp : keyed c -> inp = sealed c nonce ad m ->
  len inp = len m + ctx_tag_len c /\ decrypt c nonce (firstn (length inp - Z.to_nat (ctx_tag_len c))%nat inp) = m.
Proof.
  intros K ->. pose proof (tag_small c K). pose proof (len_sealed c nonce ad m K) as L. split; [exact L|].
  assert (E : (length (sealed c nonce ad m) - Z.to_nat (ctx_tag_len c))%nat = length (encrypt c nonce m)) by (rewrite encrypt_length; unfold len in L; lia).
  rewrite E. unfold sealed. cbv zeta. now rewrite firstn_app_length, decrypt_encrypt.
Qed.
End Contexts.

(** ** The two algorithms *)

Variant nonces := Short | Long.

Definition aead_of (k : nonces) (stack : list Z) : EVP_AEAD :=
  match k with Short => aead_chacha20_poly1305 stack | Long => aead_xchacha20_poly1305 stack end.

Definition nonce_bytes (k : nonces) : Z := match k with Short => 12 | Long => 24 end.

(** RFC 8439, section 2.8, and its extension to nonces of 24 bytes *)
Definition chacha_sealed (k : nonces) (ctx : ctx_data) (nonce ad m : list Z) : list Z :=
  let key := match k with Short => firstn 32 (state ctx) | Long => derived_key (firstn 32 (state ctx)) nonce end in
  let nonce := match k with Short => nonce | Long => derived_nonce nonce end in
  let ct := chacha_encrypt key nonce m in
  ct ++ chacha_tag key nonce ad ct (ctx_tag_len ctx).

Definition aead_sealing (k : nonces) (stack : list Z) (H : length stack = 16%nat) : Sealing (aead_of k stack) :=
  match k with Short => chacha20_poly1305_sealing stack H | Long => xchacha20_poly1305_sealing stack H end.

Lemma sealed_of k stack (H : length stack = 16%nat) c nonce ad m : @sealed _ (aead_sealing k stack H) c nonce ad m = chacha_sealed k c nonce ad m.
Proof. now destruct k. Qed.

Lemma max_len_of k stack (H : length stack = 16%nat) : @max_len _ (aead_sealing k stack H) = MAX_IN_LEN.
Proof. now destruct k. Qed.

Lemma keyed_of k stack (H : length stack = 16%nat) c : chacha_keyed c -> @keyed _ (aead_sealing k stack H) c.
Proof. now destruct k. Qed.

Lemma nonce_len_of k stack : nonce_len (aead_of k stack) = nonce_bytes k.
Proof. destruct k; reflexivity. Qed.

Lemma init_inv k stack key tag_len ctx : 0 <= tag_len -> EVP_AEAD_CTX_init (aead_of k stack) key tag_len = Some ctx ->
  let c := mk_data key (if tag_len =? 0 then 16 else tag_len) in ctx = mk_ctx (aead_of k stack) c /\ chacha_keyed c /\ len key = 32.
Proof.
  intros T E. cbv zeta. assert (I : init (aead_of k stack) = Some aead_chacha20_poly1305_init /\ key_len (aead_of k stack) = 32) by (now destruct k).
  unfold EVP_AEAD_CTX_init, EVP_AEAD_CTX_init_with_direction in E. destruct I as (I & Ik). rewrite I, Ik in E.
  destruct (Z.eqb_spec (len key) 32) as [L|]; cbn [negb] in E; [|discriminate].
  unfold aead_chacha20_poly1305_init in E. rewrite L in E. unfold POLY1305_TAG_LEN in E. set (t := if tag_len =? 0 then 16 else tag_len) in *.
  assert (Ht : 0 <= t) by (subst t; destruct (tag_len =? 0); lia). clearbody t. destruct (Z.ltb_spec 16 t); cbn [option_map negb Z.eqb] in E; [discriminate|].
  injection E as <-. split; [reflexivity|]. split; [unfold chacha_keyed; cbn; lia|exact L].
Qed.

Lemma seal_scatter_of k stack ctx max_out nonce inp extra ad : length stack = 16%nat -> chacha_keyed ctx ->
  len inp + len extra < MAX_IN_LEN -> len ad < 2 ^ 62 -> len nonce = nonce_bytes k -> ctx_tag_len ctx + len extra <= max_out ->
  exists written tag, seal_scatter (aead_of k stack) ctx max_out nonce inp extra ad = Some (written, tag, len extra + ctx_tag_len ctx) /\
    written ++ tag = chacha_sealed k ctx nonce ad (inp ++ extra) /\ length written = length inp.
Proof.
  intros Hs K Hl Ha Hn Hm. pose (I := aead_sealing k stack Hs).
  pose proof (@seal_law _ I ctx max_out nonce inp extra ad (keyed_of k stack Hs ctx K)) as E. rewrite (max_len_of k stack Hs : @max_len _ I = _) in E. specialize (E Hl Ha).
  rewrite nonce_len_of, Hn, Z.eqb_refl in E. destruct (Z.ltb_spec max_out (ctx_tag_len ctx + len extra)); [lia|]. cbn [orb negb] in E. cbv zeta in E.
  eexists _, _. split; [exact E|]. rewrite app_assoc, firstn_skipn. split; [rewrite <- (sealed_of k stack Hs); reflexivity|].
  rewrite length_firstn, (@encrypt_length _ I), length_app. lia.
Qed.

Lemma sealed_bytes k c nonce ad m : bytes_ok m -> bytes_ok (chacha_sealed k c nonce ad m).
Proof.
  intros B. unfold chacha_sealed. cbv zeta. apply Forall_app. split; [|apply chacha_tag_bytes].
  apply chacha_20_bytes; [unfold word_ok; lia|exact B|unfold len; lia].
Qed.

(** A call of [EVP_AEAD_CTX_open] that is in order but for the message *)
Definition open_ok (k : nonces) (c : ctx_data) (out_p : Z) (out nonce : list Z) (in_p : Z) (inp : list Z) : Prop :=
  len nonce = nonce_bytes k /\ check_alias in_p (len inp) out_p (len out) = true /\
  len inp - ctx_tag_len c <= len out /\ len inp - ctx_tag_len c < MAX_IN_LEN.

Lemma open_of k stack c out_p out nonce in_p inp ad : length stack = 16%nat -> chacha_keyed c -> len ad < 2 ^ 62 -> bytes_ok inp ->
  room in_p inp out_p out ->
  let r := EVP_AEAD_CTX_open (mk_ctx (aead_of k stack) c) out_p out nonce in_p inp ad in
  (exists m, open_ok k c out_p out nonce in_p inp /\ inp = chacha_sealed k c nonce ad m /\ r = (true, splice 0 m out, len m)) \/
  (~ (open_ok k c out_p out nonce in_p inp /\ exists m, inp = chacha_sealed k c nonce ad m) /\ r = (false, zeros out, 0)).
Proof.
  intros Hs K Ha B R. cbv zeta. pose proof (keyed_of k stack Hs c K) as K'.
  pose proof (open_spec (aead_of k stack) c out_p out nonce in_p inp ad K' Ha B R) as O. cbv zeta in O.
  rewrite O, max_len_of. clear O. unfold open_ok.
  rewrite (nonce_len_of k stack).
  pose proof (sealed_parts (aead_of k stack) c nonce ad inp K') as P. cbv zeta in P.
  set (n := (length inp - Z.to_nat (ctx_tag_len c))%nat) in *. set (m := decrypt c nonce (firstn n inp)) in *.
  match goal with |- context [if ?b then _ else _] => destruct b eqn:E end.
  - left. apply andb_prop in E as (E & E6). apply andb_prop in E as (E & E5%Z.ltb_lt). apply andb_prop in E as (E & E4%Z.leb_le).
    apply andb_prop in E as (E & E3%Z.leb_le). apply andb_prop in E as (E1%Z.eqb_eq & E2). apply (P E3) in E6. exists m.
    split; [easy|]. split; [rewrite <- (sealed_of k stack Hs); exact E6|]. f_equal.
    destruct (sealed_length _ _ _ _ _ _ K' E6) as (L & _). lia.
  - right. split; [|reflexivity]. intros ((E1 & E2 & E3 & E4) & m' & Em). rewrite <- (sealed_of k stack Hs) in Em.
    destruct (sealed_length _ _ _ _ _ _ K' Em) as (L & D). fold n in D. fold m in D. subst m'.
    assert (E5 : ctx_tag_len c <= len inp) by (unfold len in *; lia). rewrite (proj2 (P E5) Em) in E.
    rewrite E1, Z.eqb_refl, E2 in E. destruct (Z.leb_spec (ctx_tag_len c) (len inp)), (Z.leb_spec (len inp - ctx_tag_len c) (len out)),
      (Z.ltb_spec (len inp - ctx_tag_len c) MAX_IN_LEN); try lia; discriminate.
Qed.

Lemma chacha_sealed_inj k c nonce ad m m' : chacha_keyed c -> chacha_sealed k c nonce ad m = chacha_sealed k c nonce ad m' -> m = m'.
Proof.
  intros K E. pose proof (eq_refl : length (repeat 0 16) = 16%nat) as Hs. rewrite <- !(sealed_of k (repeat 0 16) Hs) in E.
  pose proof (keyed_of k (repeat 0 16) Hs c K) as K'. destruct (sealed_length _ _ _ _ _ _ K' (eq_refl (sealed _ c nonce ad m))) as (_ & D).
  destruct (sealed_length _ _ _ _ _ _ K' E) as (_ & D'). congruence.
Qed.

Lemma len_chacha_sealed k c nonce ad m : chacha_keyed c -> len (chacha_sealed k c nonce ad m) = len m + ctx_tag_len c.
Proof.
  intros K. pose proof (eq_refl : length (repeat 0 16) = 16%nat) as Hs. rewrite <- (sealed_of k (repeat 0 16) Hs).
  apply len_sealed, keyed_of, K.
Qed.

(** C23: What [EVP_AEAD_CTX_seal_scatter] writes - the ciphertext of [in] to
    [out], that of [extra_in] and the tag to [out_tag] - put together is a
    message that [EVP_AEAD_CTX_open] opens to [in] and [extra_in], for both
    algorithms, every key, nonce, additional data and tag length, up to the
    cipher's 256 GB, with whatever the two calls find on their stacks. *)
Theorem EVP_AEAD_seal_open_roundtrip (k : nonces) (stack stack' key nonce ad inp extra : list Z) (tag_len : Z) (ctx ctx' : EVP_AEAD_CTX)
  (out out_tag buf : list Z) (in_p out_p tag_p msg_p buf_p : Z)
  (Hstack : length stack = 16%nat /\ length stack' = 16%nat) (Htag : 0 <= tag_len)
  (Hctx : EVP_AEAD_CTX_init (aead_of k stack) key tag_len = Some ctx) (Hctx' : EVP_AEAD_CTX_init (aead_of k stack') key tag_len = Some ctx')
  (Hnonce : len nonce = nonce_bytes k) (Had : len ad < 2 ^ 62) (Hlen : len inp + len extra < MAX_IN_LEN)
  (Hbytes : bytes_ok inp /\ bytes_ok extra)
  (Hout : length out = length inp) (Hroom : len extra + ctx_tag_len (data ctx) <= len out_tag)
  (Halias : check_alias in_p (len inp) out_p (len inp) = true /\ buffers_alias out_p (len inp) tag_p (len out_tag) = false /\
            buffers_alias in_p (len inp) tag_p (len out_tag) = false) :
  let '(ok, out', tag', n) := EVP_AEAD_CTX_seal_scatter ctx out_p out tag_p out_tag nonce in_p inp extra ad in
  let msg := out' ++ firstn (Z.to_nat n) tag' in
  ok = true /\ n = len extra + ctx_tag_len (data ctx) /\
  (room msg_p msg buf_p buf -> check_alias msg_p (len msg) buf_p (len buf) = true -> len inp + len extra <= len buf ->
   EVP_AEAD_CTX_open ctx' buf_p buf nonce msg_p msg ad = (true, splice 0 (inp ++ extra) buf, len inp + len extra)).
Proof.
  destruct Hstack as (Hs & Hs'), Halias as (A1 & A2 & A3), Hbytes as (Bi & Be).
  destruct (init_inv _ _ _ _ _ Htag Hctx) as (-> & K & _), (init_inv _ _ _ _ _ Htag Hctx') as (-> & _).
  set (c := mk_data _ _) in *. clearbody c. clear Hctx Hctx'. cbn [data] in *.
  destruct (seal_scatter_of k stack c (len out_tag) nonce inp extra ad Hs K Hlen Had Hnonce ltac:(lia)) as (written & tag & E & Em & Lw).
  unfold EVP_AEAD_CTX_seal_scatter. cbn [aead data]. rewrite A1, A2, A3. cbn [negb orb].
  replace (seal_scatter_supports_extra_in (aead_of k stack)) with true by (destruct k; reflexivity). cbn [negb andb]. rewrite E. cbv zeta.
  split; [reflexivity|]. split; [reflexivity|].
  pose proof (len_chacha_sealed k c nonce ad (inp ++ extra) K) as L. rewrite <- Em, !len_app in L.
  assert (Lt : len tag = len extra + ctx_tag_len c) by (unfold len in *; lia).
  rewrite splice_all by congruence. pose proof (firstn_splice 0 tag out_tag ltac:(unfold len in *; lia)) as X. cbn [Nat.add firstn app] in X.
  replace (Z.to_nat (len extra + ctx_tag_len c)) with (length tag) by (unfold len in *; lia). rewrite X, Em. intros R Al G.
  destruct (open_of k stack' c buf_p buf nonce msg_p _ ad Hs' K Had (sealed_bytes k c nonce ad (inp ++ extra) ltac:(now apply Forall_app)) R) as [(m & _ & Sm & O)|(N & _)].
  - apply (chacha_sealed_inj _ _ _ _ _ _ K) in Sm as <-. rewrite O, len_app. reflexivity.
  - exfalso. apply N. unfold open_ok. rewrite len_chacha_sealed, len_app by exact K.
    split; [|now eexists]. split; [exact Hnonce|]. split; [|lia]. now rewrite len_chacha_sealed, len_app in Al by exact K.
Qed.

(** The context of the examples: the key of RFC 8439, section 2.8.2 *)
Definition example_key : list Z := map (fun i => 128 + Z.of_nat i) (seq 0 32).

Definition example_nonce : list Z := [7; 0; 0; 0; 64; 65; 66; 67; 68; 69; 70; 71].

Definition example_ad : list Z := [80; 81; 82; 83; 192; 193; 194; 195; 196; 197; 198; 199].

Definition example_ctx (k : nonces) (byte : Z) : EVP_AEAD_CTX := mk_ctx (aead_of k (repeat byte 16)) (mk_data example_key 16).

Lemma EVP_AEAD_seal_open_roundtrip_witness :
  let '(ok, out', tag', n) := EVP_AEAD_CTX_seal_scatter (example_ctx Short 1) 100 [0; 0] 200 (repeat 0 20) example_nonce 100 [76; 97] [100; 105; 101] example_ad in
  let msg := out' ++ firstn (Z.to_nat n) tag' in
  ok = true /\ n = 19 /\
  (room 300 msg 400 (repeat 0 30) -> check_alias 300 (len msg) 400 30 = true -> 5 <= 30 ->
   EVP_AEAD_CTX_open (example_ctx Short 2) 400 (repeat 0 30) example_nonce 300 msg example_ad = (true, splice 0 [76; 97; 100; 105; 101] (repeat 0 30), 5)).
Proof.
  exact (EVP_AEAD_seal_open_roundtrip Short (repeat 1 16) (repeat 2 16) example_key example_nonce example_ad [76; 97] [100; 105; 101] 0
    (example_ctx Short 1) (example_ctx Short 2) [0; 0] (repeat 0 20) (repeat 0 30) 100 100 200 300 400
    ltac:(now split) ltac:(lia) eq_refl eq_refl eq_refl eq_refl eq_refl
    ltac:(split; now apply bytes_ok_check) eq_refl ltac:(cbn; lia) ltac:(split; [|split]; reflexivity)).
Defined.

(** C24: [EVP_AEAD_CTX_open] opens exactly the messages that sealing makes
    with the same key, nonce and additional data - the RFC's ciphertext with
    its tag - and writes their plaintext; a message with any other tag, a
    wrong nonce length, too small an output or an overlap clears the whole
    output and leaves the length 0. *)
Theorem EVP_AEAD_CTX_open_exact (k : nonces) (stack key nonce ad inp out : list Z) (tag_len : Z) (ctx : EVP_AEAD_CTX) (in_p out_p : Z)
  (Hstack : length stack = 16%nat) (Htag : 0 <= tag_len) (Hctx : EVP_AEAD_CTX_init (aead_of k stack) key tag_len = Some ctx)
  (Had : len ad < 2 ^ 62) (Hbytes : bytes_ok inp) (Hroom : room in_p inp out_p out) :
  let r := EVP_AEAD_CTX_open ctx out_p out nonce in_p inp ad in
  (exists m, open_ok k (data ctx) out_p out nonce in_p inp /\ inp = chacha_sealed k (data ctx) nonce ad m /\ r = (true, splice 0 m out, len m)) \/
  (~ (open_ok k (data ctx) out_p out nonce in_p inp /\ exists m, inp = chacha_sealed k (data ctx) nonce ad m) /\ r = (false, zeros out, 0)).
Proof. destruct (init_inv _ _ _ _ _ Htag Hctx) as (-> & K & _). now apply open_of. Qed.

(** A changed bit *)
Lemma EVP_AEAD_CTX_open_exact_witness :
  let c := mk_data example_key 16 in
  let inp := Z.lxor 1 (hd 0 (chacha_sealed Long c (repeat 5 24) [] [1; 2])) :: tl (chacha_sealed Long c (repeat 5 24) [] [1; 2]) in
  (exists m, open_ok Long c 4096 [9; 9; 9] (repeat 5 24) 8192 inp /\ inp = chacha_sealed Long c (repeat 5 24) [] m /\
     EVP_AEAD_CTX_open (example_ctx Long 3) 4096 [9; 9; 9] (repeat 5 24) 8192 inp [] = (true, splice 0 m [9; 9; 9], len m)) \/
  (~ (open_ok Long c 4096 [9; 9; 9] (repeat 5 24) 8192 inp /\ exists m, inp = chacha_sealed Long c (repeat 5 24) [] m) /\
     EVP_AEAD_CTX_open (example_ctx Long 3) 4096 [9; 9; 9] (repeat 5 24) 8192 inp [] = (false, [0; 0; 0], 0)).
Proof.
  exact (EVP_AEAD_CTX_open_exact Long (repeat 3 16) example_key (repeat 5 24) []
    (Z.lxor 1 (hd 0 (chacha_sealed Long (mk_data example_key 16) (repeat 5 24) [] [1; 2])) :: tl (chacha_sealed Long (mk_data example_key 16) (repeat 5 24) [] [1; 2]))
    [9; 9; 9] 16 (example_ctx Long 3) 8192 4096 eq_refl ltac:(lia) eq_refl eq_refl
    ltac:(apply bytes_ok_check; vm_compute; reflexivity) ltac:(vm_compute; repeat split; discriminate)).
Defined.

(** [EVP_AEAD_CTX_seal] succeeds exactly when the nonce has its length,
    the message and its tag fit into the output, and the two buffers do not
    overlap in part; it then writes the RFC's ciphertext and tag and leaves
    the bytes behind them, and otherwise clears the whole output. *)
Theorem EVP_AEAD_CTX_seal_exact (k : nonces) (stack key nonce ad inp out : list Z) (tag_len : Z) (ctx : EVP_AEAD_CTX) (in_p out_p : Z)
  (Hstack : length stack = 16%nat) (Htag : 0 <= tag_len) (Hctx : EVP_AEAD_CTX_init (aead_of k stack) key tag_len = Some ctx)
  (Had : len ad < 2 ^ 62) (Hlen : len inp < MAX_IN_LEN) :
  EVP_AEAD_CTX_seal ctx out_p out nonce in_p inp ad =
  if (len nonce =? nonce_bytes k) && (len inp + ctx_tag_len (data ctx) <=? len out) && check_alias in_p (len inp) out_p (len out)
  then (true, splice 0 (chacha_sealed k (data ctx) nonce ad inp) out, len inp + ctx_tag_len (data ctx))
  else (false, zeros out, 0).
Proof.
  destruct (init_inv _ _ _ _ _ Htag Hctx) as (-> & K & _). set (c := mk_data _ _) in *. clearbody c. cbn [data].
  pose proof (seal_spec (aead_of k stack) c out_p out nonce in_p inp ad (keyed_of k stack Hstack c K)) as S.
  rewrite max_len_of, nonce_len_of, sealed_of in S. now apply S.
Qed.

Lemma EVP_AEAD_CTX_seal_exact_witness :
  EVP_AEAD_CTX_seal (example_ctx Short 9) 1000 (repeat 7 24) example_nonce 1000 [76; 97; 100; 105; 101] example_ad =
    (true, chacha_sealed Short (mk_data example_key 16) example_nonce example_ad [76; 97; 100; 105; 101] ++ [7; 7; 7], 21) /\
  firstn 5 (chacha_sealed Short (mk_data example_key 16) example_nonce example_ad [76; 97; 100; 105; 101]) = [211; 26; 141; 52; 100].
Proof.
  split; [|vm_compute; reflexivity].
  exact (eq_trans (EVP_AEAD_CTX_seal_exact Short (repeat 9 16) example_key example_nonce example_ad [76; 97; 100; 105; 101] (repeat 7 24) 0 (example_ctx Short 9) 1000 1000
    eq_refl ltac:(lia) eq_refl eq_refl eq_refl) ltac:(vm_compute; reflexivity)).
Defined.

(** The check of the input's length leaves the extra input out: behind an
    input of [2^38 - 128] bytes the block counter wraps round to 0, and from
    the 65th byte on the extra input is encrypted with the block whose first
    half is the key of the authenticator. *)
Lemma extra_in_reuses_key_block key nonce inp extra i : len inp = MAX_IN_LEN - 64 -> (64 <= i < length extra)%nat -> (i < 128)%nat ->
  nth i (extra_loop (length extra) key nonce (u32 (1 + len inp / 64)) (Z.to_nat (len inp mod 64)) extra) 0 =
  Z.lxor (nth i extra 0) (keystream key nonce 0 (i - 64)).
Proof.
  intros L Hi Hj. rewrite L. change (u32 (1 + (MAX_IN_LEN - 64) / 64)) with (2 ^ 32 - 1). change (Z.to_nat ((MAX_IN_LEN - 64) mod 64)) with O.
  destruct (extra_loop_spec key nonce (length extra) (2 ^ 32 - 1) 0 extra (le_n _) ltac:(lia) ltac:(unfold word_ok; lia)) as (_ & N).
  rewrite N by lia. f_equal. replace (0 + i)%nat with (64 * 1 + (i - 64))%nat by lia. rewrite keystream_block. reflexivity.
Qed.
