(* ===== verification/BnWords.v ===== *)
(** * Arithmetic on words of big numbers

    BoringSSL's [fipsmodule/bn]: the loops of [generic.c] over arrays of
    64-bit words, the products of [mul.c] for small sizes, the reductions and
    comparisons of [div.c], [bn.c] and [cmp.c] that run in constant time.  The
    app's platform has 128-bit integers and no assembly, so these are the
    loops it runs.  An array is the list of its words, the lowest first; a
    function returns the words it writes. *)

From Stdlib Require Import ZArith Lia ZifyBool List Bool.
From S2P Require Import Prelude ConstTime.
Import ListNotations.

(** ** Definitions *)

Definition BN_BITS2 : Z := 64.

(** [BN_ULLONG] *)
Definition u128 (x : Z) : Z := wrap 128 x.

Definition Lw (t : Z) : Z := u64 t.

Definition Hw (t : Z) : Z := u64 (Z.shiftr t BN_BITS2).

(** The loops take four words at a time while there are four, then one. *)
Fixpoint while4 {A} (fuel : nat) (step : A -> A) (n : Z) (s : A) : A * Z :=
  match fuel with
  | O => (s, n)
  | S fuel =>
      if Z.land n (SIZE_MAX - 3) =? 0 then (s, n)
      else while4 fuel step (n - 4) (step (step (step (step s))))
  end.

Fixpoint while1 {A} (fuel : nat) (step : A -> A) (n : Z) (s : A) : A :=
  match fuel with
  | O => s
  | S fuel => if n =? 0 then s else while1 fuel step (n - 1) (step s)
  end.

Definition unrolled {A} (step : A -> A) (n : Z) (s : A) : A :=
  let (s, n) := while4 (S (Z.to_nat (n / 4))) step n s in
  while1 (S (Z.to_nat n)) step n s.

(** *** Products with a word *)

Definition mul_add (r a w c : Z) : Z * Z :=
  let t := u128 (u128 (u128 (w * a) + r) + c) in
  (Lw t, Hw t).

Definition mul (a w c : Z) : Z * Z :=
  let t := u128 (u128 (w * a) + c) in
  (Lw t, Hw t).

Definition sqr (a : Z) : Z * Z :=
  let t := u128 (a * a) in
  (Lw t, Hw t).

(** The words written so far, the pointers, the carry *)
Record cursor := mk_cursor { out : list Z; rp : list Z; ap : list Z; c1 : Z }.

Definition mul_add_step (w : Z) (s : cursor) : cursor :=
  let (r, c) := mul_add (hd 0 (rp s)) (hd 0 (ap s)) w (c1 s) in
  mk_cursor (out s ++ [r]) (tl (rp s)) (tl (ap s)) c.

Definition mul_step (w : Z) (s : cursor) : cursor :=
  let (r, c) := mul (hd 0 (ap s)) w (c1 s) in
  mk_cursor (out s ++ [r]) (tl (rp s)) (tl (ap s)) c.

Definition sqr_step (s : cursor) : cursor :=
  let (r0, r1) := sqr (hd 0 (ap s)) in
  mk_cursor (out s ++ [r0; r1]) (tl (tl (rp s))) (tl (ap s)) (c1 s).

(** The words and the carry *)
Definition bn_mul_add_words (r a : list Z) (num w : Z) : list Z * Z :=
  if num =? 0 then ([], 0)
  else let s := unrolled (mul_add_step w) num (mk_cursor [] r a 0) in (out s, c1 s).

Definition bn_mul_words (a : list Z) (num w : Z) : list Z * Z :=
  if num =? 0 then ([], 0)
  else let s := unrolled (mul_step w) num (mk_cursor [] [] a 0) in (out s, c1 s).

Definition bn_sqr_words (a : list Z) (n : Z) : list Z :=
  if n =? 0 then [] else out (unrolled sqr_step n (mk_cursor [] [] a 0)).

(** *** Sums and differences *)

(** [rp] is the second operand. *)
Definition add_step (s : cursor) : cursor :=
  let ll := u128 (c1 s + u128 (hd 0 (ap s) + hd 0 (rp s))) in
  mk_cursor (out s ++ [u64 ll]) (tl (rp s)) (tl (ap s)) (Z.shiftr ll BN_BITS2).

Definition bn_add_words (a b : list Z) (n : Z) : list Z * Z :=
  if n =? 0 then ([], 0)
  else let s := unrolled add_step n (mk_cursor [] b a 0) in (out s, u64 (c1 s)).

Definition sub_step (s : cursor) : cursor :=
  let t1 := hd 0 (ap s) in
  let t2 := hd 0 (rp s) in
  let c := c1 s in
  mk_cursor (out s ++ [u64 (u64 (t1 - t2) - c)]) (tl (rp s)) (tl (ap s))
    (if negb (t1 =? t2) then (if t1 <? t2 then 1 else 0) else c).

Definition bn_sub_words (a b : list Z) (n : Z) : list Z * Z :=
  if n =? 0 then ([], 0)
  else let s := unrolled sub_step n (mk_cursor [] b a 0) in (out s, c1 s).

(** *** Products of four and eight words *)

(** A three-word accumulator, lowest word first *)
Definition mul_add_c (a b : Z) (c : Z * Z * Z) : Z * Z * Z :=
  let '(c0, c1, c2) := c in
  let t := u128 (a * b) in
  let t := u128 (t + c0) in
  let c0 := Lw t in
  let hi := Hw t in
  let c1 := u64 (c1 + hi) in
  (c0, c1, if c1 <? hi then u64 (c2 + 1) else c2).

Definition mul_add_c2 (a b : Z) (c : Z * Z * Z) : Z * Z * Z :=
  let '(c0, c1, c2) := c in
  let t := u128 (a * b) in
  let tt := u128 (t + c0) in
  let c0 := Lw tt in
  let hi := Hw tt in
  let c1 := u64 (c1 + hi) in
  let c2 := if c1 <? hi then u64 (c2 + 1) else c2 in
  let t := u128 (t + c0) in
  let c0 := Lw t in
  let hi := Hw t in
  let c1 := u64 (c1 + hi) in
  (c0, c1, if c1 <? hi then u64 (c2 + 1) else c2).

(** [Once i j] is [mul_add_c(a[i], b[j], ...)], or [sqr_add_c(a, i, ...)] of a
    square; [Twice i j] is [sqr_add_c2(a, i, j, ...)]. *)
Inductive term := Once (i j : Z) | Twice (i j : Z).

Definition add_term (a b : list Z) (c : Z * Z * Z) (t : term) : Z * Z * Z :=
  match t with
  | Once i j => mul_add_c (at_ a i) (at_ b j) c
  | Twice i j => mul_add_c2 (at_ a i) (at_ b j) c
  end.

(** The columns in the order of the code: the macros of a column, the store of
    the lowest word; then the three words change their places and the highest
    becomes 0.  The word after the last column is stored too. *)
Fixpoint comba (a b : list Z) (columns : list (list term)) (c : Z * Z * Z) : list Z :=
  match columns with
  | [] => let '(c0, _, _) := c in [c0]
  | column :: columns =>
      let '(c0, c1, c2) := fold_left (add_term a b) column c in
      c0 :: comba a b columns (c1, c2, 0)
  end.

Definition mul_comba8_columns : list (list term) :=
  [[Once 0 0];
   [Once 0 1; Once 1 0];
   [Once 2 0; Once 1 1; Once 0 2];
   [Once 0 3; Once 1 2; Once 2 1; Once 3 0];
   [Once 4 0; Once 3 1; Once 2 2; Once 1 3; Once 0 4];
   [Once 0 5; Once 1 4; Once 2 3; Once 3 2; Once 4 1; Once 5 0];
   [Once 6 0; Once 5 1; Once 4 2; Once 3 3; Once 2 4; Once 1 5; Once 0 6];
   [Once 0 7; Once 1 6; Once 2 5; Once 3 4; Once 4 3; Once 5 2; Once 6 1; Once 7 0];
   [Once 7 1; Once 6 2; Once 5 3; Once 4 4; Once 3 5; Once 2 6; Once 1 7];
   [Once 2 7; Once 3 6; Once 4 5; Once 5 4; Once 6 3; Once 7 2];
   [Once 7 3; Once 6 4; Once 5 5; Once 4 6; Once 3 7];
   [Once 4 7; Once 5 6; Once 6 5; Once 7 4];
   [Once 7 5; Once 6 6; Once 5 7];
   [Once 6 7; Once 7 6];
   [Once 7 7]].

Definition mul_comba4_columns : list (list term) :=
  [[Once 0 0];
   [Once 0 1; Once 1 0];
   [Once 2 0; Once 1 1; Once 0 2];
   [Once 0 3; Once 1 2; Once 2 1; Once 3 0];
   [Once 3 1; Once 2 2; Once 1 3];
   [Once 2 3; Once 3 2];
   [Once 3 3]].

Definition sqr_comba8_columns : list (list term) :=
  [[Once 0 0];
   [Twice 1 0];
   [Once 1 1; Twice 2 0];
   [Twice 3 0; Twice 2 1];
   [Once 2 2; Twice 3 1; Twice 4 0];
   [Twice 5 0; Twice 4 1; Twice 3 2];
   [Once 3 3; Twice 4 2; Twice 5 1; Twice 6 0];
   [Twice 7 0; Twice 6 1; Twice 5 2; Twice 4 3];
   [Once 4 4; Twice 5 3; Twice 6 2; Twice 7 1];
   [Twice 7 2; Twice 6 3; Twice 5 4];
   [Once 5 5; Twice 6 4; Twice 7 3];
   [Twice 7 4; Twice 6 5];
   [Once 6 6; Twice 7 5];
   [Twice 7 6];
   [Once 7 7]].

Definition sqr_comba4_columns : list (list term) :=
  [[Once 0 0];
   [Twice 1 0];
   [Once 1 1; Twice 2 0];
   [Twice 3 0; Twice 2 1];
   [Once 2 2; Twice 3 1];
   [Twice 3 2];
   [Once 3 3]].

Definition bn_mul_comba8 (a b : list Z) : list Z := comba a b mul_comba8_columns (0, 0, 0).
Definition bn_mul_comba4 (a b : list Z) : list Z := comba a b mul_comba4_columns (0, 0, 0).
Definition bn_sqr_comba8 (a : list Z) : list Z := comba a a sqr_comba8_columns (0, 0, 0).
Definition bn_sqr_comba4 (a : list Z) : list Z := comba a a sqr_comba4_columns (0, 0, 0).

(** *** Products of any size *)

(** The rows from [b[i]] on: row [i] is added to [r] at [i], its carry goes to
    the word behind it. *)
Fixpoint mul_rows (r : list Z) (i : nat) (a : list Z) (na : Z) (b : list Z) : list Z :=
  match b with
  | [] => r
  | w :: b =>
      let (row, carry) := bn_mul_add_words (skipn i r) a na w in
      mul_rows (firstn i r ++ row ++ [carry]) (S i) a na b
  end.

(** All the words of [r] are written. *)
Definition bn_mul_normal (a : list Z) (na : Z) (b : list Z) (nb : Z) : list Z :=
  let '(a, na, b, nb) := if na <? nb then (b, nb, a, na) else (a, na, b, nb) in
  if nb =? 0 then repeat 0 (Z.to_nat na)
  else
    let (r, carry) := bn_mul_words a na (hd 0 b) in
    mul_rows (r ++ [carry]) 1 a na (firstn (Z.to_nat (nb - 1)) (tl b)).

(** [None] is [abort]. *)
Definition bn_mul_small (num_r : Z) (a : list Z) (num_a : Z) (b : list Z) (num_b : Z) : option (list Z) :=
  if negb (num_r =? u64 (num_a + num_b)) then None
  else if (num_a =? 8) && (num_b =? 8) then Some (bn_mul_comba8 a b)
  else Some (bn_mul_normal a num_a b num_b).

(** The rows of [a[i] * a[j]] for [i < j]; row [k] starts at the word
    [1 + 2 * k] of [r].  [i] is the length of the row. *)
Fixpoint sqr_rows (r : list Z) (k : nat) (ap : list Z) (i : nat) : list Z :=
  match i with
  | O => r
  | S i' =>
      let ap' := tl ap in
      let (row, carry) := bn_mul_add_words (skipn (1 + 2 * k) r) ap' (Z.of_nat i) (hd 0 ap) in
      sqr_rows (firstn (1 + 2 * k) r ++ row ++ [carry] ++ skipn (1 + 2 * k + i + 1) r) (S k) ap' i'
  end.

(** [r] is what the result held before. *)
Definition bn_sqr_normal (r a : list Z) (n : Z) : list Z :=
  if n =? 0 then r
  else
    let max := Z.to_nat (n * 2) in
    let r := set_nth (max - 1) 0 (set_nth 0 0 r) in
    let r :=
      if 1 <? n then
        let (row, carry) := bn_mul_words (tl a) (n - 1) (hd 0 a) in
        firstn 1 r ++ row ++ [carry] ++ skipn (1 + Z.to_nat (n - 1) + 1) r
      else r in
    let r := if 2 <? n then sqr_rows r 1 (tl a) (Z.to_nat (n - 2)) else r in
    let (r, _) := bn_add_words r r (n * 2) in
    let tmp := bn_sqr_words a n in
    fst (bn_add_words r tmp (n * 2)).

Definition BN_SMALL_MAX_WORDS : Z := 9.

Definition bn_sqr_small (r : list Z) (num_r : Z) (a : list Z) (num_a : Z) : option (list Z) :=
  if negb (num_r =? u64 (2 * num_a)) || (BN_SMALL_MAX_WORDS <? num_a) then None
  else if num_a =? 4 then Some (bn_sqr_comba4 a)
  else if num_a =? 8 then Some (bn_sqr_comba8 a)
  else Some (bn_sqr_normal r a num_a).

(** *** In constant time *)

Fixpoint select_loop (num : nat) (mask : Z) (a b : list Z) : list Z :=
  match num with
  | O => []
  | S num => constant_time_select_w mask (hd 0 a) (hd 0 b) :: select_loop num mask (tl a) (tl b)
  end.

Definition bn_select_words (mask : Z) (a b : list Z) (num : Z) : list Z := select_loop (Z.to_nat num) mask a b.

(** The words and the mask returned *)
Definition bn_reduce_once (a : list Z) (carry : Z) (m : list Z) (num : Z) : list Z * Z :=
  let (r, borrow) := bn_sub_words a m num in
  let carry := u64 (carry - borrow) in
  (bn_select_words carry a r num, carry).

Definition bn_reduce_once_in_place (r : list Z) (carry : Z) (m : list Z) (num : Z) : list Z * Z :=
  let (tmp, borrow) := bn_sub_words r m num in
  let carry := u64 (carry - borrow) in
  (bn_select_words carry r tmp num, carry).

Definition bn_mod_sub_words (a b m : list Z) (num : Z) : list Z :=
  let (r, borrow) := bn_sub_words a b num in
  let (tmp, _) := bn_add_words r m num in
  bn_select_words (u64 (0 - borrow)) tmp r num.

Definition bn_mod_add_words (a b m : list Z) (num : Z) : list Z :=
  let (r, carry) := bn_add_words a b num in
  fst (bn_reduce_once_in_place r carry m num).

Definition bn_abs_sub_words (a b : list Z) (num : Z) : list Z :=
  let (tmp, borrow) := bn_sub_words a b num in
  let (r, _) := bn_sub_words b a num in
  bn_select_words (u64 (0 - borrow)) r tmp num.

Fixpoint cmp_loop (min : nat) (ret : Z) (a b : list Z) : Z :=
  match min with
  | O => ret
  | S min =>
      let eq := constant_time_eq_w (hd 0 a) (hd 0 b) in
      let lt := constant_time_lt_w (hd 0 a) (hd 0 b) in
      cmp_loop min (constant_time_select_int eq ret (constant_time_select_int lt (-1) 1)) (tl a) (tl b)
  end.

Definition bn_cmp_words_consttime (a : list Z) (a_len : Z) (b : list Z) (b_len : Z) : Z :=
  let min := if a_len <? b_len then a_len else b_len in
  let ret := cmp_loop (Z.to_nat min) 0 a b in
  let or_words l from to := fold_left Z.lor (firstn (Z.to_nat (to - from)) (skipn (Z.to_nat from) l)) 0 in
  if a_len <? b_len then
    constant_time_select_int (constant_time_is_zero_w (or_words b a_len b_len)) ret (-1)
  else if b_len <? a_len then
    constant_time_select_int (constant_time_is_zero_w (or_words a b_len a_len)) ret 1
  else ret.

Definition bn_less_than_words (a b : list Z) (len : Z) : bool := bn_cmp_words_consttime a len b len <? 0.

(** ** Values *)

Definition B : Z := 2 ^ 64.

Fixpoint bn_val (l : list Z) : Z :=
  match l with
  | [] => 0
  | x :: l => x + B * bn_val l
  end.

Notation words_ok := (Forall (word_ok 64)).

Lemma bn_val_app l r : bn_val (l ++ r) = bn_val l + B ^ Z.of_nat (length l) * bn_val r.
Proof.
  induction l as [|x l IH]; cbn [app bn_val length]; [rewrite Z.pow_0_r; lia|].
  rewrite IH, Nat2Z.inj_succ, Z.pow_succ_r by lia. lia.
Qed.

Lemma bn_val_bound l : words_ok l -> 0 <= bn_val l < B ^ Z.of_nat (length l).
Proof.
  induction 1 as [|x l Hx _ IH]; cbn [bn_val length]; [rewrite Z.pow_0_r; lia|].
  rewrite Nat2Z.inj_succ, Z.pow_succ_r by lia. unfold word_ok, B in *. lia.
Qed.

Lemma bn_val_split k l : (k <= length l)%nat -> bn_val l = bn_val (firstn k l) + B ^ Z.of_nat k * bn_val (skipn k l).
Proof. intros Hk. rewrite <- (firstn_skipn k l) at 1. rewrite bn_val_app, length_firstn, Nat.min_l by exact Hk. reflexivity. Qed.

Lemma bn_val_inj l r : words_ok l -> words_ok r -> length l = length r -> bn_val l = bn_val r -> l = r.
Proof.
  intros Hl. revert r. induction Hl as [|x l Hx _ IH]; intros r Hr L E; destruct r as [|y r]; try discriminate; [reflexivity|].
  inversion Hr as [|? ? Hy Hr']; subst. cbn [bn_val] in E. unfold word_ok, B in *.
  assert (x = y) as -> by lia. f_equal. apply IH; [exact Hr'|now injection L|]. lia.
Qed.

Lemma bn_val_zeros n : bn_val (repeat 0 n) = 0.
Proof. induction n as [|n IH]; cbn [repeat bn_val]; [reflexivity|]. rewrite IH. lia. Qed.

Lemma B_pos k : 0 <= k -> 0 < B ^ k.
Proof. intros Hk. apply Z.pow_pos_nonneg; [reflexivity|exact Hk]. Qed.

(** ** The loops *)

Lemma land_four n : 0 <= n < 2 ^ 64 -> Z.land n (SIZE_MAX - 3) = n - n mod 4.
Proof.
  intros Hn. assert (E : n = n mod 4 + 2 ^ 2 * (n / 4)) by (pose proof (Z.div_mod n 4 ltac:(lia)); lia).
  assert (Q : 0 <= n / 4 < 2 ^ 62) by lia_div. assert (R : 0 <= n mod 4 < 2 ^ 2) by (apply Z.mod_pos_bound; lia).
  rewrite E at 1. change (SIZE_MAX - 3) with (0 + 2 ^ 2 * (2 ^ 62 - 1)). rewrite land_split by lia. rewrite Z.land_0_r, land_mask, Z.mod_small by lia. lia.
Qed.

Lemma while1_iter {A} (step : A -> A) fuel : forall n s, 0 <= n < Z.of_nat fuel -> while1 fuel step n s = Nat.iter (Z.to_nat n) step s.
Proof.
  induction fuel as [|fuel IH]; intros n s Hn; [lia|]. cbn [while1]. destruct (Z.eqb_spec n 0) as [->|N]; [reflexivity|].
  rewrite IH by lia. replace (Z.to_nat n) with (S (Z.to_nat (n - 1))) by lia. now rewrite Nat.iter_succ_r.
Qed.

Lemma while4_iter {A} (step : A -> A) fuel : forall n s, 0 <= n < 2 ^ 64 -> n / 4 < Z.of_nat fuel ->
  while4 fuel step n s = (Nat.iter (Z.to_nat (n - n mod 4)) step s, n mod 4).
Proof.
  induction fuel as [|fuel IH]; intros n s Hn Hf; [lia_div|]. cbn [while4]. rewrite land_four by exact Hn.
  destruct (Z.eqb_spec (n - n mod 4) 0) as [E|N].
  - rewrite E. cbn [Z.to_nat Nat.iter nat_rect]. f_equal. lia.
  - assert (4 <= n) by lia_div. rewrite IH by lia_div.
    assert (M : (n - 4) mod 4 = n mod 4) by lia_div. rewrite M.
    replace (Z.to_nat (n - n mod 4)) with (S (S (S (S (Z.to_nat (n - 4 - n mod 4)))))) by lia_div. now rewrite !Nat.iter_succ_r.
Qed.

(** The unrolled loop does one step per word. *)
Lemma unrolled_iter {A} (step : A -> A) n s : 0 <= n < 2 ^ 64 -> unrolled step n s = Nat.iter (Z.to_nat n) step s.
Proof.
  intros Hn. unfold unrolled. rewrite while4_iter by (exact Hn || lia_div). pose proof (Z.mod_pos_bound n 4 ltac:(lia)) as R.
  rewrite while1_iter by lia. rewrite <- Nat.iter_add. f_equal. lia_div.
Qed.

(** A loop that carries: word by word, [x + sg * B * c'] is [sg * c] and a
    value of the operands. *)
Section Carrying.
Variable op : Z -> Z -> Z -> Z * Z.
Variable step : cursor -> cursor.
Variable sg bound : Z.
Variable v : Z -> Z -> Z.
Hypothesis Hstep : forall s, step s = let (x, c) := op (hd 0 (rp s)) (hd 0 (ap s)) (c1 s) in mk_cursor (out s ++ [x]) (tl (rp s)) (tl (ap s)) c.
Hypothesis Hop : forall r a c, word_ok 64 r -> word_ok 64 a -> 0 <= c < bound ->
  let (x, c') := op r a c in word_ok 64 x /\ 0 <= c' < bound /\ x + sg * B * c' = sg * c + v r a.

Fixpoint vsum (k : nat) (r a : list Z) : Z :=
  match k with
  | O => 0
  | S k => v (hd 0 r) (hd 0 a) + B * vsum k (tl r) (tl a)
  end.

Lemma words_ok_hd l : words_ok l -> word_ok 64 (hd 0 l).
Proof. destruct 1; [cbn; unfold word_ok; lia|assumption]. Qed.

Lemma words_ok_tl l : words_ok l -> words_ok (tl l).
Proof. destruct 1; [constructor|assumption]. Qed.

Lemma carrying k : forall s, words_ok (rp s) -> words_ok (ap s) -> 0 <= c1 s < bound ->
  exists o, out (Nat.iter k step s) = out s ++ o /\ length o = k /\ words_ok o /\ 0 <= c1 (Nat.iter k step s) < bound /\
    bn_val o + sg * B ^ Z.of_nat k * c1 (Nat.iter k step s) = sg * c1 s + vsum k (rp s) (ap s).
Proof.
  induction k as [|k IH]; intros s Hr Ha Hc.
  - exists []. cbn [Nat.iter nat_rect]. rewrite app_nil_r. split; [reflexivity|]. split; [reflexivity|]. split; [constructor|]. split; [exact Hc|]. cbn [bn_val vsum]. rewrite Z.pow_0_r. lia.
  - rewrite Nat.iter_succ_r. pose proof (Hop _ _ _ (words_ok_hd _ Hr) (words_ok_hd _ Ha) Hc) as H. specialize (Hstep s).
    destruct (op _ _ _) as [x c]. destruct H as (Hx & Hc' & E). rewrite Hstep.
    destruct (IH (mk_cursor (out s ++ [x]) (tl (rp s)) (tl (ap s)) c)) as (o & E1 & L & W & C & E2); [now apply words_ok_tl..|exact Hc'|].
    cbn [out rp ap c1] in *. exists (x :: o). rewrite E1, <- app_assoc. split; [reflexivity|]. split; [cbn [length]; lia|]. split; [now constructor|].
    split; [exact C|]. cbn [bn_val vsum]. rewrite Nat2Z.inj_succ, Z.pow_succ_r by lia. lia.
Qed.
End Carrying.

Lemma vsum_linear x y k : forall r a, (k <= length r)%nat \/ x = 0 -> (k <= length a)%nat -> 
  vsum (fun r a => x * r + y * a) k r a = x * bn_val (firstn k r) + y * bn_val (firstn k a).
Proof.
  induction k as [|k IH]; intros r a Hr Ha; [cbn; lia|]. destruct a as [|a0 a]; [cbn in Ha; lia|]. cbn [vsum hd tl firstn bn_val].
  destruct r as [|r0 r].
  - destruct Hr as [Hr| ->]; [cbn in Hr; lia|]. cbn [hd tl]. rewrite (IH [] a) by (cbn [length] in *; lia). cbn [bn_val]. lia.
  - cbn [hd tl bn_val]. rewrite (IH r a) by (cbn [length] in *; lia). lia.
Qed.

(** ** What each loop computes *)

Lemma halves t : 0 <= t < 2 ^ 128 -> word_ok 64 (Lw t) /\ word_ok 64 (Hw t) /\ Lw t + B * Hw t = t.
Proof.
  intros Ht. unfold Lw, Hw, BN_BITS2, B. rewrite Z.shiftr_div_pow2 by lia.
  rewrite (wrap_small 64 (t / 2 ^ 64)) by (unfold word_ok; lia_div). split; [apply wrap_range; lia|]. unfold word_ok, wrap. lia_div.
Qed.

Lemma mul_add_ok w r a c : word_ok 64 w -> word_ok 64 r -> word_ok 64 a -> word_ok 64 c ->
  let (x, c') := mul_add r a w c in word_ok 64 x /\ word_ok 64 c' /\ x + B * c' = c + (r + w * a).
Proof.
  unfold word_ok. intros Hw Hr Ha Hc. unfold mul_add, u128. assert (P : 0 <= w * a <= (2 ^ 64 - 1) * (2 ^ 64 - 1)) by (apply prod_bound; lia).
  rewrite (wrap_small 128 (w * a)), (wrap_small 128 (w * a + r)), wrap_small by (unfold word_ok; lia).
  destruct (halves (w * a + r + c)) as (H1 & H2 & H3); [lia|]. split; [exact H1|]. split; [exact H2|]. lia.
Qed.

Lemma mul_ok w a c : word_ok 64 w -> word_ok 64 a -> word_ok 64 c ->
  let (x, c') := mul a w c in word_ok 64 x /\ word_ok 64 c' /\ x + B * c' = c + w * a.
Proof.
  unfold word_ok. intros Hw Ha Hc. unfold mul, u128. assert (P : 0 <= w * a <= (2 ^ 64 - 1) * (2 ^ 64 - 1)) by (apply prod_bound; lia).
  rewrite (wrap_small 128 (w * a)), wrap_small by (unfold word_ok; lia).
  destruct (halves (w * a + c)) as (H1 & H2 & H3); [lia|]. split; [exact H1|]. split; [exact H2|]. lia.
Qed.

(** One of the loops from the beginning *)
Lemma run_loop (op : Z -> Z -> Z -> Z * Z) (step : cursor -> cursor) (sg bound : Z) (v : Z -> Z -> Z) (k : nat) (r a : list Z) :
  (forall s, step s = let (x, c) := op (hd 0 (rp s)) (hd 0 (ap s)) (c1 s) in mk_cursor (out s ++ [x]) (tl (rp s)) (tl (ap s)) c) ->
  (forall r a c, word_ok 64 r -> word_ok 64 a -> 0 <= c < bound ->
    let (x, c') := op r a c in word_ok 64 x /\ 0 <= c' < bound /\ x + sg * B * c' = sg * c + v r a) ->
  0 < bound -> words_ok r -> words_ok a -> Z.of_nat k < 2 ^ 64 ->
  let s := unrolled step (Z.of_nat k) (mk_cursor [] r a 0) in
  length (out s) = k /\ words_ok (out s) /\ 0 <= c1 s < bound /\ bn_val (out s) + sg * B ^ Z.of_nat k * c1 s = vsum v k r a.
Proof.
  intros Hstep Hop Hb Hr Ha Hk. rewrite unrolled_iter, Nat2Z.id by lia.
  destruct (carrying op step sg bound v Hstep Hop k (mk_cursor [] r a 0) Hr Ha ltac:(cbn; lia)) as (o & E & L & W & C & V).
  cbn [out rp ap c1 app] in *. cbv zeta. rewrite E. split; [exact L|]. split; [exact W|]. split; [exact C|]. lia.
Qed.

Lemma bn_mul_add_words_spec r a k w : words_ok r -> words_ok a -> word_ok 64 w -> (k <= length r)%nat -> (k <= length a)%nat -> Z.of_nat k < 2 ^ 64 ->
  let (o, c) := bn_mul_add_words r a (Z.of_nat k) w in
  length o = k /\ words_ok o /\ word_ok 64 c /\ bn_val o + B ^ Z.of_nat k * c = bn_val (firstn k r) + w * bn_val (firstn k a).
Proof.
  intros Hr Ha Hw Lr La Hk. unfold bn_mul_add_words. destruct (Z.eqb_spec (Z.of_nat k) 0) as [E|E].
  - assert (k = O) as -> by lia. cbn [firstn bn_val length]. split; [reflexivity|]. split; [constructor|]. split; [unfold word_ok; lia|]. lia.
  - destruct (run_loop (fun r a c => mul_add r a w c) (mul_add_step w) 1 (2 ^ 64) (fun r a => 1 * r + w * a) k r a) as (L & W & C & V); try assumption; [reflexivity| |lia|].
    + intros r0 a0 c H1 H2 H3. pose proof (mul_add_ok w r0 a0 c Hw H1 H2 H3) as M. destruct (mul_add r0 a0 w c). destruct M as (M1 & M2 & M3). split; [exact M1|]. split; [exact M2|]. lia.
    + split; [exact L|]. split; [exact W|]. split; [exact C|]. rewrite vsum_linear in V by (now left || assumption). lia.
Qed.

Lemma bn_mul_words_spec a k w : words_ok a -> word_ok 64 w -> (k <= length a)%nat -> Z.of_nat k < 2 ^ 64 ->
  let (o, c) := bn_mul_words a (Z.of_nat k) w in
  length o = k /\ words_ok o /\ word_ok 64 c /\ bn_val o + B ^ Z.of_nat k * c = w * bn_val (firstn k a).
Proof.
  intros Ha Hw La Hk. unfold bn_mul_words. destruct (Z.eqb_spec (Z.of_nat k) 0) as [E|E].
  - assert (k = O) as -> by lia. cbn [firstn bn_val length]. split; [reflexivity|]. split; [constructor|]. split; [unfold word_ok; lia|]. lia.
  - destruct (run_loop (fun r a c => mul a w c) (mul_step w) 1 (2 ^ 64) (fun r a => 0 * r + w * a) k [] a) as (L & W & C & V); try assumption; [reflexivity| |lia|constructor|].
    + intros r0 a0 c H1 H2 H3. pose proof (mul_ok w a0 c Hw H2 H3) as M. destruct (mul a0 w c). destruct M as (M1 & M2 & M3). split; [exact M1|]. split; [exact M2|]. lia.
    + split; [exact L|]. split; [exact W|]. split; [exact C|]. rewrite vsum_linear in V by (now right || assumption). lia.
Qed.

Lemma bn_add_words_spec a b k : words_ok a -> words_ok b -> (k <= length a)%nat -> (k <= length b)%nat -> Z.of_nat k < 2 ^ 64 ->
  let (o, c) := bn_add_words a b (Z.of_nat k) in
  length o = k /\ words_ok o /\ 0 <= c <= 1 /\ bn_val o + B ^ Z.of_nat k * c = bn_val (firstn k a) + bn_val (firstn k b).
Proof.
  intros Ha Hb La Lb Hk. unfold bn_add_words. destruct (Z.eqb_spec (Z.of_nat k) 0) as [E|E].
  - assert (k = O) as -> by lia. cbn [firstn bn_val length]. split; [reflexivity|]. split; [constructor|]. split; lia.
  - destruct (run_loop (fun r a c => let ll := u128 (c + u128 (a + r)) in (u64 ll, Z.shiftr ll BN_BITS2)) add_step 1 2 (fun r a => 1 * r + 1 * a) k b a) as (L & W & C & V); try assumption; [reflexivity| |lia|].
    + intros r0 a0 c H1 H2 H3. unfold word_ok in *. unfold u128, BN_BITS2, B. rewrite (wrap_small 128 (a0 + r0)), (wrap_small 128 (c + (a0 + r0))) by (unfold word_ok; lia).
      rewrite Z.shiftr_div_pow2 by lia. split; [apply wrap_range; lia|]. unfold wrap. lia_div.
    + rewrite vsum_linear in V by (now left || assumption). split; [exact L|]. split; [exact W|]. rewrite wrap_small by (unfold word_ok; lia). split; lia.
Qed.

Lemma bn_sub_words_spec a b k : words_ok a -> words_ok b -> (k <= length a)%nat -> (k <= length b)%nat -> Z.of_nat k < 2 ^ 64 ->
  let (o, c) := bn_sub_words a b (Z.of_nat k) in
  length o = k /\ words_ok o /\ 0 <= c <= 1 /\ bn_val o - B ^ Z.of_nat k * c = bn_val (firstn k a) - bn_val (firstn k b).
Proof.
  intros Ha Hb La Lb Hk. unfold bn_sub_words. destruct (Z.eqb_spec (Z.of_nat k) 0) as [E|E].
  - assert (k = O) as -> by lia. cbn [firstn bn_val length]. split; [reflexivity|]. split; [constructor|]. split; lia.
  - destruct (run_loop (fun t2 t1 c => (u64 (u64 (t1 - t2) - c), if negb (t1 =? t2) then (if t1 <? t2 then 1 else 0) else c)) sub_step (-1) 2 (fun r a => -1 * r + 1 * a) k b a) as (L & W & C & V); try assumption; [reflexivity| |lia|].
    + intros t2 t1 c H1 H2 H3. unfold word_ok in *. unfold B. split; [apply wrap_range; lia|].
      unfold wrap. destruct (Z.eqb_spec t1 t2) as [->|N]; cbn [negb]; [|destruct (Z.ltb_spec t1 t2)]; lia_div.
    + rewrite vsum_linear in V by (now left || assumption). split; [exact L|]. split; [exact W|]. split; lia.
Qed.

(** ** Products *)

Lemma Forall_firstn' {A} (P : A -> Prop) k l : Forall P l -> Forall P (firstn k l).
Proof. intros H. rewrite <- (firstn_skipn k l) in H. now apply Forall_app in H. Qed.

Lemma Forall_skipn' {A} (P : A -> Prop) k l : Forall P l -> Forall P (skipn k l).
Proof. intros H. rewrite <- (firstn_skipn k l) in H. now apply Forall_app in H. Qed.

#[local] Hint Resolve Forall_firstn' Forall_skipn' words_ok_tl words_ok_hd : core.

Lemma mul_rows_spec a b : words_ok a -> words_ok b -> Z.of_nat (length a) < 2 ^ 64 -> forall r i, words_ok r -> length r = (i + length a)%nat ->
  let o := mul_rows r i a (Z.of_nat (length a)) b in
  length o = (length r + length b)%nat /\ words_ok o /\ bn_val o = bn_val r + B ^ Z.of_nat i * (bn_val a * bn_val b).
Proof.
  intros Ha Hb La. induction Hb as [|w b Hw Hb IH]; intros r i Hr Lr; cbn [mul_rows]; [cbn [length bn_val]; split; [lia|split; [exact Hr|lia]]|].
  pose proof (bn_mul_add_words_spec (skipn i r) a (length a) w (Forall_skipn' _ i r Hr) Ha Hw ltac:(rewrite length_skipn; lia) (le_n _) La) as M.
  destruct (bn_mul_add_words _ _ _ _) as [row carry]. destruct M as (L & W & C & V).
  destruct (IH (firstn i r ++ row ++ [carry]) (S i)) as (L' & W' & V').
  - apply Forall_app. split; [auto|]. apply Forall_app. split; [exact W|]. constructor; [exact C|constructor].
  - rewrite !length_app, length_firstn, L. cbn [length]. lia.
  - split; [rewrite L', !length_app, length_firstn, L; cbn [length]; lia|]. split; [exact W'|]. rewrite V'.
    rewrite !bn_val_app, length_firstn, Nat.min_l, L by lia. cbn [bn_val]. rewrite Z.mul_0_r, Z.add_0_r.
    rewrite firstn_all, (firstn_all2 (skipn i r)) in V by (rewrite length_skipn; lia).
    rewrite V, (bn_val_split i r) by lia. rewrite Nat2Z.inj_succ, Z.pow_succ_r by lia. ring.
Qed.

Lemma mul_normal_ordered a b : words_ok a -> words_ok b -> Z.of_nat (length a) < 2 ^ 64 -> (1 <= length b)%nat ->
  let '(r, carry) := bn_mul_words a (Z.of_nat (length a)) (hd 0 b) in
  let o := mul_rows (r ++ [carry]) 1 a (Z.of_nat (length a)) (firstn (Z.to_nat (Z.of_nat (length b) - 1)) (tl b)) in
  length o = (length a + length b)%nat /\ words_ok o /\ bn_val o = bn_val a * bn_val b.
Proof.
  intros Ha Hb La Lb. pose proof (bn_mul_words_spec a (length a) (hd 0 b) Ha ltac:(auto) (le_n _) La) as M.
  destruct (bn_mul_words _ _ _) as [r carry]. destruct M as (L & W & C & V). destruct b as [|w b]; [cbn in Lb; lia|]. cbn [hd tl] in *.
  rewrite firstn_all2 by (cbn [length]; lia). inversion Hb as [|? ? Hw Hb']; subst.
  destruct (mul_rows_spec a b Ha Hb' La (r ++ [carry]) 1) as (L' & W' & V').
  - apply Forall_app. split; [exact W|]. now constructor.
  - rewrite length_app, L. cbn [length]. lia.
  - split; [rewrite L', length_app, L; cbn [length]; lia|]. split; [exact W'|]. rewrite V', bn_val_app, L. cbn [bn_val].
    rewrite firstn_all in V. rewrite Z.mul_0_r, Z.add_0_r, V. change (B ^ Z.of_nat 1) with B. ring.
Qed.

Lemma bn_mul_normal_spec a b : words_ok a -> words_ok b -> Z.of_nat (length a) < 2 ^ 64 -> Z.of_nat (length b) < 2 ^ 64 ->
  let o := bn_mul_normal a (Z.of_nat (length a)) b (Z.of_nat (length b)) in
  length o = (length a + length b)%nat /\ words_ok o /\ bn_val o = bn_val a * bn_val b.
Proof.
  intros Ha Hb La Lb. cbv zeta. unfold bn_mul_normal. destruct (Z.ltb_spec (Z.of_nat (length a)) (Z.of_nat (length b))) as [O|O].
  - destruct (Z.eqb_spec (Z.of_nat (length a)) 0) as [E|E].
    + destruct a; [|cbn in E; lia]. rewrite Nat2Z.id, repeat_length, bn_val_zeros. split; [reflexivity|]. split; [|cbn [bn_val]; lia].
      apply Forall_forall. intros x Hx. apply repeat_spec in Hx as ->. unfold word_ok. lia.
    + pose proof (mul_normal_ordered b a Hb Ha Lb ltac:(lia)) as M. destruct (bn_mul_words _ _ _) as [r c]. destruct M as (M1 & M2 & M3). split; [lia|]. split; [exact M2|lia].
  - destruct (Z.eqb_spec (Z.of_nat (length b)) 0) as [E|E].
    + destruct b; [|cbn in E; lia]. rewrite Nat2Z.id, repeat_length, bn_val_zeros. split; [cbn [length]; lia|]. split; [|cbn [bn_val]; lia].
      apply Forall_forall. intros x Hx. apply repeat_spec in Hx as ->. unfold word_ok. lia.
    + pose proof (mul_normal_ordered a b Ha Hb La ltac:(lia)) as M. destruct (bn_mul_words _ _ _) as [r c]. destruct M as (M1 & M2 & M3). split; [lia|]. split; [exact M2|lia].
Qed.

(** *** Columns *)

Definition acc_val (c : Z * Z * Z) : Z := let '(c0, c1, c2) := c in c0 + B * c1 + B * B * c2.

Definition acc_ok (c : Z * Z * Z) : Prop := let '(c0, c1, c2) := c in word_ok 64 c0 /\ word_ok 64 c1 /\ word_ok 64 c2.

Lemma mul_add_c_spec a b c : word_ok 64 a -> word_ok 64 b -> acc_ok c -> acc_val c + a * b < 2 ^ 192 ->
  acc_ok (mul_add_c a b c) /\ acc_val (mul_add_c a b c) = acc_val c + a * b.
Proof.
  destruct c as [[c0 c1] c2]. unfold acc_ok, acc_val, mul_add_c, word_ok, u128, B. intros Ha Hb (H0 & H1 & H2) Hm.
  assert (P : 0 <= a * b <= (2 ^ 64 - 1) * (2 ^ 64 - 1)) by (apply prod_bound; lia).
  rewrite (wrap_small 128 (a * b)), (wrap_small 128 (a * b + c0)) by (unfold word_ok; lia).
  destruct (halves (a * b + c0) ltac:(lia)) as (L & U & E). set (lo := Lw _) in *. set (hi := Hw _) in *. clearbody lo hi. unfold word_ok, B in *.
  destruct (Z.lt_ge_cases (c1 + hi) (2 ^ 64)) as [S|S].
  - rewrite (wrap_small 64 (c1 + hi)) by (unfold word_ok; lia). rewrite (proj2 (Z.ltb_ge _ _)) by lia. split; [repeat split; lia|lia].
  - assert (W : u64 (c1 + hi) = c1 + hi - 2 ^ 64) by (unfold wrap; lia_div). rewrite W. rewrite (proj2 (Z.ltb_lt _ _)) by lia.
    rewrite wrap_small by (unfold word_ok; lia). split; [repeat split; lia|lia].
Qed.

Lemma mul_add_c2_twice a b c : mul_add_c2 a b c = mul_add_c a b (mul_add_c a b c).
Proof. now destruct c as [[c0 c1] c2]. Qed.

Definition term_val (a b : list Z) (t : term) : Z :=
  match t with
  | Once i j => at_ a i * at_ b j
  | Twice i j => 2 * (at_ a i * at_ b j)
  end.

Definition column_val (a b : list Z) (column : list term) : Z := fold_right (fun t acc => term_val a b t + acc) 0 column.

Lemma at_word l i : words_ok l -> word_ok 64 (at_ l i).
Proof.
  intros H. unfold at_. destruct (nth_in_or_default (Z.to_nat i) l 0) as [N|E]; [exact (proj1 (Forall_forall _ _) H _ N)|rewrite E; unfold word_ok; lia].
Qed.

Lemma term_val_bound a b t : words_ok a -> words_ok b -> 0 <= term_val a b t <= 2 * 2 ^ 128.
Proof.
  intros Ha Hb. destruct t as [i j|i j]; cbn [term_val]; pose proof (at_word a i Ha) as Wa; pose proof (at_word b j Hb) as Wb; unfold word_ok in *;
    assert (P : 0 <= at_ a i * at_ b j <= (2 ^ 64 - 1) * (2 ^ 64 - 1)) by (apply prod_bound; lia); lia.
Qed.

Lemma add_term_spec a b c t : words_ok a -> words_ok b -> acc_ok c -> acc_val c + term_val a b t < 2 ^ 192 ->
  acc_ok (add_term a b c t) /\ acc_val (add_term a b c t) = acc_val c + term_val a b t.
Proof.
  intros Ha Hb Hc Hm. destruct t as [i j|i j]; cbn [term_val add_term] in *; pose proof (at_word a i Ha) as Wa; pose proof (at_word b j Hb) as Wb.
  - now apply mul_add_c_spec.
  - assert (0 <= at_ a i * at_ b j) by (unfold word_ok in *; lia). rewrite mul_add_c2_twice.
    destruct (mul_add_c_spec _ _ c Wa Wb Hc ltac:(lia)) as (O1 & E1). destruct (mul_add_c_spec _ _ _ Wa Wb O1 ltac:(lia)) as (O2 & E2). split; [exact O2|lia].
Qed.

Lemma column_spec a b column : words_ok a -> words_ok b -> forall c, acc_ok c -> acc_val c + 2 ^ 130 * Z.of_nat (length column) < 2 ^ 192 ->
  acc_ok (fold_left (add_term a b) column c) /\ acc_val (fold_left (add_term a b) column c) = acc_val c + column_val a b column.
Proof.
  intros Ha Hb. induction column as [|t column IH]; intros c Hc Hm; cbn [fold_left column_val fold_right length] in *; [split; [exact Hc|lia]|].
  pose proof (term_val_bound a b t Ha Hb) as T. destruct (add_term_spec a b c t Ha Hb Hc ltac:(lia)) as (O & E).
  destruct (IH _ O ltac:(lia)) as (O' & E'). fold (column_val a b column). split; [exact O'|lia].
Qed.

Fixpoint columns_val (a b : list Z) (columns : list (list term)) : Z :=
  match columns with
  | [] => 0
  | column :: columns => column_val a b column + B * columns_val a b columns
  end.

Lemma column_val_bound a b column : words_ok a -> words_ok b -> 0 <= column_val a b column <= 2 ^ 130 * Z.of_nat (length column).
Proof.
  intros Ha Hb. induction column as [|t column IH]; cbn [column_val fold_right length]; [lia|]. pose proof (term_val_bound a b t Ha Hb). fold (column_val a b column). lia.
Qed.

(** The words of the columns, up to what leaves the highest word *)
Lemma comba_spec a b columns : words_ok a -> words_ok b -> Forall (fun column => (length column <= 8)%nat) columns ->
  forall c, acc_ok c -> acc_val c < 2 ^ 135 ->
  words_ok (comba a b columns c) /\ length (comba a b columns c) = S (length columns) /\
  exists k, 0 <= k /\ bn_val (comba a b columns c) + B ^ Z.of_nat (S (length columns)) * k = acc_val c + columns_val a b columns.
Proof.
  intros Ha Hb Hcols. induction Hcols as [|column columns Hl _ IH]; intros c Hc Hm; cbn [comba].
  - destruct c as [[c0 c1] c2]. destruct Hc as (H0 & H1 & H2). split; [now constructor|]. split; [reflexivity|]. exists (c1 + B * c2).
    unfold word_ok, B in *. split; [lia|]. cbn [bn_val columns_val acc_val length]. change ((2 ^ 64) ^ Z.of_nat 1) with (2 ^ 64). unfold B. lia.
  - destruct (column_spec a b column Ha Hb c Hc ltac:(lia)) as (O & E). pose proof (column_val_bound a b column Ha Hb) as Bc.
    destruct (fold_left _ column c) as [[c0 c1] c2]. destruct O as (H0 & H1 & H2). cbn [acc_val] in E.
    assert (O' : acc_ok (c1, c2, 0)) by (cbn; unfold word_ok in *; lia).
    assert (M' : acc_val (c1, c2, 0) < 2 ^ 135) by (cbn [acc_val]; unfold word_ok, B in *; lia).
    destruct (IH _ O' M') as (W & L & k & Hk & V). split; [now constructor|]. split; [cbn [length]; now rewrite L|]. exists k. split; [exact Hk|].
    cbn [bn_val columns_val length] in *. rewrite (Nat2Z.inj_succ (S _)), Z.pow_succ_r by lia. cbn [acc_val] in V. rewrite <- Z.mul_assoc. lia.
Qed.

(** A complete product fits. *)
Lemma comba_exact a b columns n : words_ok a -> words_ok b -> Forall (fun column => (length column <= 8)%nat) columns -> n = S (length columns) ->
  columns_val a b columns < B ^ Z.of_nat n ->
  let o := comba a b columns (0, 0, 0) in words_ok o /\ length o = n /\ bn_val o = columns_val a b columns.
Proof.
  intros Ha Hb Hc -> Hm. destruct (comba_spec a b columns Ha Hb Hc (0, 0, 0)) as (W & L & k & Hk & V); [cbn; unfold word_ok; lia|reflexivity|].
  split; [exact W|]. split; [exact L|]. cbn [acc_val] in V. pose proof (bn_val_bound _ W) as Bo. rewrite L in Bo.
  set (M := B ^ Z.of_nat (S (length columns))) in *. assert (k = 0) by nia. subst k. lia.
Qed.

Ltac eight l := destruct l as [|? [|? [|? [|? [|? [|? [|? [|? [|? l]]]]]]]]]; try discriminate.
Ltac four l := destruct l as [|? [|? [|? [|? [|? l]]]]]; try discriminate.
Ltac columns := lazy [columns_val column_val fold_right term_val mul_comba8_columns mul_comba4_columns sqr_comba8_columns sqr_comba4_columns
  at_ nth Z.to_nat Pos.to_nat Pos.iter_op Nat.add bn_val]; ring.

Lemma mul_comba8_value a b : length a = 8%nat -> length b = 8%nat -> columns_val a b mul_comba8_columns = bn_val a * bn_val b.
Proof. intros La Lb. eight a. eight b. columns. Qed.

Lemma mul_comba4_value a b : length a = 4%nat -> length b = 4%nat -> columns_val a b mul_comba4_columns = bn_val a * bn_val b.
Proof. intros La Lb. four a. four b. columns. Qed.

Lemma sqr_comba8_value a : length a = 8%nat -> columns_val a a sqr_comba8_columns = bn_val a * bn_val a.
Proof. intros La. eight a. columns. Qed.

Lemma sqr_comba4_value a : length a = 4%nat -> columns_val a a sqr_comba4_columns = bn_val a * bn_val a.
Proof. intros La. four a. columns. Qed.

Lemma product_bound a b : words_ok a -> words_ok b -> bn_val a * bn_val b < B ^ Z.of_nat (length a + length b).
Proof.
  intros Ha Hb. pose proof (bn_val_bound a Ha). pose proof (bn_val_bound b Hb). rewrite Nat2Z.inj_add, Z.pow_add_r by lia. nia.
Qed.

(** A correct product of two arrays *)
Definition product (o a b : list Z) : Prop := words_ok o /\ length o = (length a + length b)%nat /\ bn_val o = bn_val a * bn_val b.

Lemma product_unique o o' a b : product o a b -> product o' a b -> o = o'.
Proof. intros (W & L & V) (W' & L' & V'). apply bn_val_inj; congruence. Qed.

Lemma comba_product a b columns : words_ok a -> words_ok b -> Forall (fun column => (length column <= 8)%nat) columns ->
  (length a + length b)%nat = S (length columns) -> columns_val a b columns = bn_val a * bn_val b -> product (comba a b columns (0, 0, 0)) a b.
Proof.
  intros Ha Hb Hc L V. pose proof (product_bound a b Ha Hb) as P. rewrite <- V in P.
  destruct (comba_exact a b columns _ Ha Hb Hc L P) as (W & L' & V'). split; [exact W|]. split; [exact L'|]. now rewrite V'.
Qed.

Lemma columns_short (columns : list (list term)) : forallb (fun column => (length column <=? 8)%nat) columns = true -> Forall (fun column => (length column <= 8)%nat) columns.
Proof. intros H. apply Forall_forall. intros c Hc. rewrite forallb_forall in H. specialize (H c Hc). now apply Nat.leb_le. Qed.

Lemma bn_mul_comba8_spec a b : words_ok a -> words_ok b -> length a = 8%nat -> length b = 8%nat -> product (bn_mul_comba8 a b) a b.
Proof. intros Ha Hb La Lb. apply comba_product; [exact Ha|exact Hb|now apply columns_short|now rewrite La, Lb|now apply mul_comba8_value]. Qed.

Lemma bn_mul_comba4_spec a b : words_ok a -> words_ok b -> length a = 4%nat -> length b = 4%nat -> product (bn_mul_comba4 a b) a b.
Proof. intros Ha Hb La Lb. apply comba_product; [exact Ha|exact Hb|now apply columns_short|now rewrite La, Lb|now apply mul_comba4_value]. Qed.

Lemma bn_sqr_comba8_spec a : words_ok a -> length a = 8%nat -> product (bn_sqr_comba8 a) a a.
Proof. intros Ha La. apply comba_product; [exact Ha|exact Ha|now apply columns_short|now rewrite La|now apply sqr_comba8_value]. Qed.

Lemma bn_sqr_comba4_spec a : words_ok a -> length a = 4%nat -> product (bn_sqr_comba4 a) a a.
Proof. intros Ha La. apply comba_product; [exact Ha|exact Ha|now apply columns_short|now rewrite La|now apply sqr_comba4_value]. Qed.

(** *** Squares *)

(** The sum of the products of different words *)
Fixpoint cross (a : list Z) : Z :=
  match a with
  | [] => 0
  | x :: a => x * bn_val a + B * B * cross a
  end.

Fixpoint squares (a : list Z) : Z :=
  match a with
  | [] => 0
  | x :: a => x * x + B * B * squares a
  end.

Lemma square_split a : bn_val a * bn_val a = 2 * B * cross a + squares a.
Proof. induction a as [|x a IH]; cbn [bn_val cross squares]; [reflexivity|]. replace (B * bn_val a * (B * bn_val a)) with (B * B * (bn_val a * bn_val a)) by ring.
  replace ((x + B * bn_val a) * (x + B * bn_val a)) with (x * x + 2 * B * (x * bn_val a) + B * B * (bn_val a * bn_val a)) by ring. rewrite IH. ring. Qed.

Lemma sqr_rows_spec : forall i ap k p q, words_ok ap -> words_ok p -> words_ok q -> length ap = S i -> length p = (1 + 2 * k + i)%nat -> (i <= length q)%nat ->
  Z.of_nat (length ap) < 2 ^ 64 ->
  exists p', sqr_rows (p ++ q) k ap i = p' ++ skipn i q /\ length p' = (length p + i)%nat /\ words_ok p' /\
    bn_val p' = bn_val p + B ^ Z.of_nat (1 + 2 * k) * cross ap.
Proof.
  induction i as [|i IH]; intros ap k p q Ha Hp Hq La Lp Lq Hs; (destruct ap as [|x ap]; [discriminate|]); cbn [sqr_rows].
  - destruct ap; [|discriminate]. exists p. cbn [skipn cross bn_val]. split; [reflexivity|]. split; [lia|]. split; [exact Hp|lia].
  - inversion Ha as [|? ? Hx Ha']; subst. cbn [hd tl]. cbn [length] in La, Hs. injection La as La.
    destruct q as [|y q]; [cbn in Lq; lia|]. set (o := (1 + 2 * k)%nat) in *.
    assert (Ep : p = firstn o p ++ skipn o p) by (symmetry; apply firstn_skipn). set (p1 := firstn o p) in *. set (p2 := skipn o p) in *.
    assert (L1 : length p1 = o) by (subst p1; rewrite length_firstn; lia). assert (L2 : length p2 = S i) by (subst p2; rewrite length_skipn; lia).
    assert (W1 : words_ok p1) by (now apply Forall_firstn'). assert (W2 : words_ok p2) by (now apply Forall_skipn'). clearbody p1 p2. subst p. clear Hp.
    inversion Hq as [|? ? Hy Hq']; subst.
    rewrite <- app_assoc, (skipn_app o), skipn_all2, L1, Nat.sub_diag, skipn_O by lia. cbn [app].
    assert (W3 : words_ok (p2 ++ y :: q)) by (apply Forall_app; split; assumption).
    assert (L3 : (S i <= length (p2 ++ y :: q))%nat) by (rewrite length_app, L2; lia).
    assert (L4 : (S i <= length ap)%nat) by (rewrite La; apply le_n).
    assert (L5 : Z.of_nat (S i) < 2 ^ 64) by (rewrite <- La; lia).
    pose proof (bn_mul_add_words_spec (p2 ++ y :: q) ap (S i) x W3 Ha' Hx L3 L4 L5) as Row.
    destruct (bn_mul_add_words _ _ _ _) as [row carry]. destruct Row as (L & W & C & V).
    rewrite firstn_app, L2, Nat.sub_diag, firstn_O, app_nil_r, firstn_all2, (firstn_all2 ap) in V by lia.
    rewrite firstn_app, firstn_all2, L1, Nat.sub_diag, firstn_O, app_nil_r by lia.
    rewrite skipn_app, (skipn_all2 p1), L1 by lia. replace (o + S i + 1 - o)%nat with (S (S i)) by lia. cbn [app].
    rewrite skipn_app, (skipn_all2 p2), L2 by lia. replace (S (S i) - S i)%nat with 1%nat by lia. cbn [app skipn].
    destruct (IH ap (S k) (p1 ++ row ++ [carry]) q Ha') as (p' & E & Lp' & Wp' & Vp').
    + apply Forall_app. split; [exact W1|]. apply Forall_app. split; [exact W|now constructor].
    + exact Hq'.
    + exact La.
    + rewrite !length_app, L1, L. cbn [length]. lia.
    + cbn [length] in Lq. lia.
    + lia.
    + exists p'. rewrite <- !app_assoc in E. split; [exact E|].
      split; [rewrite Lp', !length_app, L1, L, L2; cbn [length]; lia|]. split; [exact Wp'|]. rewrite Vp', !bn_val_app, L1, L. cbn [bn_val cross].
      rewrite Z.mul_0_r, Z.add_0_r, V. replace (Z.of_nat (1 + 2 * S k)) with (Z.of_nat o + 2) by lia. rewrite Z.pow_add_r by lia. change (B ^ 2) with (B * B). ring.
Qed.

Lemma bn_sqr_words_spec a : words_ok a -> Z.of_nat (length a) < 2 ^ 64 ->
  words_ok (bn_sqr_words a (Z.of_nat (length a))) /\ length (bn_sqr_words a (Z.of_nat (length a))) = (2 * length a)%nat /\
  bn_val (bn_sqr_words a (Z.of_nat (length a))) = squares a.
Proof.
  intros Ha La. unfold bn_sqr_words. destruct (Z.eqb_spec (Z.of_nat (length a)) 0) as [E|E]; [destruct a; [|cbn in E; lia]; split; [constructor|now split]|].
  rewrite unrolled_iter, Nat2Z.id by lia.
  assert (G : forall a s, words_ok a -> ap s = a -> exists o, out (Nat.iter (length a) sqr_step s) = out s ++ o /\ words_ok o /\ length o = (2 * length a)%nat /\ bn_val o = squares a).
  { clear. induction a as [|x a IH]; intros s Ha Es.
    - exists []. cbn [length Nat.iter nat_rect]. rewrite app_nil_r. split; [reflexivity|]. split; [constructor|now split].
    - inversion Ha as [|? ? Hx Ha']; subst. cbn [length]. rewrite Nat.iter_succ_r.
      assert (P : 0 <= x * x < 2 ^ 128) by (unfold word_ok in Hx; assert (0 <= x * x <= (2 ^ 64 - 1) * (2 ^ 64 - 1)) by (apply prod_bound; lia); lia).
      destruct (halves (x * x) P) as (H1 & H2 & H3). assert (E2 : u128 (x * x) = x * x) by (unfold u128; apply wrap_small; exact P).
      destruct (IH (sqr_step s) Ha') as (o & E & W & L & V); [unfold sqr_step; rewrite Es; reflexivity|].
      rewrite E. unfold sqr_step. rewrite Es. cbn [hd sqr out]. rewrite E2, <- app_assoc. exists (Lw (x * x) :: Hw (x * x) :: o). split; [reflexivity|].
      split; [now constructor; [|constructor]|]. split; [cbn [length]; lia|]. cbn [bn_val squares]. rewrite V. lia. }
  destruct (G a (mk_cursor [] [] a 0) Ha eq_refl) as (o & Eo & W & L & V). cbn [out app] in Eo. rewrite Eo. split; [exact W|]. now split.
Qed.

(** The triangle: the rows fill the words but the first and the last. *)
Lemma sqr_triangle r x ap : words_ok r -> words_ok (x :: ap) -> length r = (2 * S (length ap))%nat -> Z.of_nat (S (length ap)) < 2 ^ 63 ->
  let n := Z.of_nat (S (length ap)) in
  let r0 := set_nth (2 * S (length ap) - 1) 0 (set_nth 0 0 r) in
  let r1 :=
    if 1 <? n then
      let (row, carry) := bn_mul_words ap (n - 1) x in
      firstn 1 r0 ++ row ++ [carry] ++ skipn (1 + Z.to_nat (n - 1) + 1) r0
    else r0 in
  let r2 := if 2 <? n then sqr_rows r1 1 ap (Z.to_nat (n - 2)) else r1 in
  words_ok r2 /\ length r2 = length r /\ bn_val r2 = B * cross (x :: ap).
Proof.
  intros Hr Ha Lr La. inversion Ha as [|? ? Hx Ha']; subst. cbv zeta.
  destruct r as [|y r]; [cbn in Lr; lia|]. destruct (rev_last_case r) as [->|(mid & z & ->)]; [cbn in Lr; lia|].
  cbn [length] in Lr. rewrite length_app in Lr. cbn [length] in Lr. inversion Hr as [|? ? _ Hr']; subst. apply Forall_app in Hr' as (Wm & _).
  change (set_nth 0 0 (y :: mid ++ [z])) with ((0 :: mid) ++ [z]).
  replace (2 * S (length ap) - 1)%nat with (length (0 :: mid)) by (cbn [length]; lia). rewrite set_nth_app. cbn [app].
  assert (W0 : word_ok 64 0) by (unfold word_ok; lia). assert (Wr : words_ok (0 :: mid ++ [0])) by (constructor; [exact W0|apply Forall_app; split; [exact Wm|now constructor]]).
  destruct ap as [|x2 ap].
  { cbn [length] in *. destruct mid; [|cbn in Lr; lia]. change (words_ok [0; 0] /\ 2%nat = 2%nat /\ bn_val [0; 0] = B * cross [x]).
    split; [exact Wr|]. split; [reflexivity|]. cbn [bn_val cross]. lia. }
  set (ap' := x2 :: ap) in *. assert (Lap : length ap' = S (length ap)) by reflexivity.
  rewrite (proj2 (Z.ltb_lt 1 _)) by lia. replace (Z.of_nat (S (length ap')) - 1) with (Z.of_nat (length ap')) by lia.
  pose proof (bn_mul_words_spec ap' (length ap') x Ha' Hx (le_n _) ltac:(lia)) as M. destruct (bn_mul_words _ _ _) as [row carry]. destruct M as (L & W & C & V).
  rewrite firstn_all in V. rewrite Nat2Z.id. set (q := skipn (1 + length ap' + 1) (0 :: mid ++ [0])).
  assert (Lq : length q = length ap') by (subst q; rewrite length_skipn; cbn [length]; rewrite length_app; cbn [length]; lia).
  assert (Eq : skipn (length ap) q = [0]).
  { subst q. rewrite skipn_skipn. replace (length ap + (1 + length ap' + 1))%nat with (length (0 :: mid)) by (cbn [length]; lia).
    change (0 :: mid ++ [0]) with ((0 :: mid) ++ [0]). apply skipn_app_length. }
  assert (Wq : words_ok q) by now apply Forall_skipn'. clearbody q.
  set (r1 := firstn 1 (0 :: mid ++ [0]) ++ row ++ carry :: q). assert (E1 : r1 = ([0] ++ row ++ [carry]) ++ q) by (subst r1; rewrite <- !app_assoc; reflexivity).
  assert (E2 : (if 2 <? Z.of_nat (S (length ap')) then sqr_rows r1 1 ap' (Z.to_nat (Z.of_nat (S (length ap')) - 2)) else r1) = sqr_rows r1 1 ap' (length ap)).
  { replace (Z.to_nat (Z.of_nat (S (length ap')) - 2)) with (length ap) by lia. destruct (Z.ltb_spec 2 (Z.of_nat (S (length ap')))); [reflexivity|].
    replace (length ap) with O by lia. reflexivity. }
  rewrite E2, E1. destruct (sqr_rows_spec (length ap) ap' 1 ([0] ++ row ++ [carry]) q) as (p' & E & Lp & Wp & Vp);
    [exact Ha'|constructor; [exact W0|apply Forall_app; split; [exact W|now constructor]]|exact Wq|exact Lap|rewrite !length_app, L; cbn [length]; lia|lia|lia|].
  rewrite E, Eq. split; [apply Forall_app; split; [exact Wp|now constructor]|].
  split; [rewrite length_app, Lp, !length_app, L; cbn [length]; rewrite length_app; cbn [length]; lia|].
  rewrite bn_val_app, Vp. cbn [app bn_val cross]. rewrite bn_val_app, L. cbn [bn_val]. change (B ^ Z.of_nat (1 + 2 * 1)) with (B * B * B).
  fold (cross ap'). fold (bn_val ap'). rewrite !Z.mul_0_r, !Z.add_0_r. cbn [cross ap']. fold ap'. rewrite V. cbn [bn_val ap']. unfold ap'. cbn [cross bn_val]. ring.
Qed.

(** [r] held any words. *)
Lemma bn_sqr_normal_spec r a : words_ok r -> words_ok a -> length r = (2 * length a)%nat -> Z.of_nat (length a) < 2 ^ 63 ->
  product (bn_sqr_normal r a (Z.of_nat (length a))) a a.
Proof.
  intros Hr Ha Lr La. unfold bn_sqr_normal. destruct (Z.eqb_spec (Z.of_nat (length a)) 0) as [E|E].
  { destruct a; [|cbn in E; lia]. destruct r; [|cbn in Lr; lia]. now split. }
  replace (Z.to_nat (Z.of_nat (length a) * 2)) with (2 * length a)%nat by lia. replace (Z.of_nat (length a) * 2) with (Z.of_nat (2 * length a)) by lia.
  set (r1 := if 1 <? Z.of_nat (length a) then _ else _). set (r2 := if 2 <? Z.of_nat (length a) then _ else r1).
  assert (R2 : words_ok r2 /\ length r2 = (2 * length a)%nat /\ bn_val r2 = B * cross a).
  { destruct a as [|x ap]; [cbn in E; lia|]. pose proof (sqr_triangle r x ap Hr Ha Lr La) as T. cbv zeta in T. rewrite Lr in T. exact T. }
  destruct R2 as (W2 & L2 & V2). clearbody r2. clear r1.
  pose proof (bn_add_words_spec r2 r2 (2 * length a) W2 W2 ltac:(lia) ltac:(lia) ltac:(lia)) as A. destruct (bn_add_words r2 r2 _) as [r3 c3]. destruct A as (L3 & W3 & C3 & V3).
  rewrite firstn_all2 in V3 by lia. destruct (bn_sqr_words_spec a Ha ltac:(lia)) as (Ws & Ls & Vs).
  pose proof (bn_add_words_spec r3 (bn_sqr_words a (Z.of_nat (length a))) (2 * length a) W3 Ws ltac:(lia) ltac:(lia) ltac:(lia)) as A. destruct (bn_add_words r3 _ _) as [r4 c4]. destruct A as (L4 & W4 & C4 & V4).
  rewrite !firstn_all2, Vs in V4 by lia. cbn [fst]. split; [exact W4|]. split; [lia|].
  pose proof (product_bound a a Ha Ha) as P. rewrite square_split in *. pose proof (bn_val_bound r3 W3). pose proof (bn_val_bound r4 W4). rewrite L3 in *. rewrite L4 in *.
  replace (length a + length a)%nat with (2 * length a)%nat in P by lia. set (M := B ^ Z.of_nat (2 * length a)) in *.
  assert (0 <= squares a) by (rewrite <- Vs; now apply bn_val_bound). assert (c3 = 0) by nia. assert (c4 = 0) by nia. subst. lia.
Qed.

(** ** Selections and reductions *)

Lemma bn_select_words_spec c a b k : words_ok a -> words_ok b -> (k <= length a)%nat -> (k <= length b)%nat ->
  bn_select_words (mask 64 c) a b (Z.of_nat k) = firstn k (if c then a else b).
Proof.
  unfold bn_select_words. rewrite Nat2Z.id. revert a b. induction k as [|k IH]; intros a b Ha Hb La Lb; [reflexivity|].
  destruct a as [|x a]; [cbn in La; lia|]. destruct b as [|y b]; [cbn in Lb; lia|]. inversion Ha; inversion Hb; subst. cbn [select_loop hd tl length] in *.
  rewrite constant_time_select_w_spec, IH by (assumption || lia). now destruct c.
Qed.

Lemma borrow_mask c : c = 0 \/ c = 1 -> u64 (0 - c) = mask 64 (c =? 1).
Proof. intros [-> | ->]; reflexivity. Qed.

(** The difference or, if it is negative, the number itself *)
Lemma reduce_choice a carry m k : words_ok a -> words_ok m -> length a = k -> length m = k -> Z.of_nat k < 2 ^ 64 ->
  0 <= carry <= 1 -> bn_val a + B ^ Z.of_nat k * carry < 2 * bn_val m ->
  let (r, borrow) := bn_sub_words a m (Z.of_nat k) in
  length r = k /\ words_ok r /\ exists neg, u64 (carry - borrow) = mask 64 neg /\
    bn_val (if neg then a else r) = (bn_val a + B ^ Z.of_nat k * carry) mod bn_val m /\
    neg = (bn_val a + B ^ Z.of_nat k * carry <? bn_val m).
Proof.
  intros Ha Hm La Lm Hk Hc Hlt. pose proof (bn_sub_words_spec a m k Ha Hm ltac:(lia) ltac:(lia) Hk) as S. rewrite !firstn_all2 in S by lia.
  destruct (bn_sub_words a m _) as [r borrow]. destruct S as (L & W & Bw & V). split; [exact L|]. split; [exact W|].
  pose proof (bn_val_bound r W) as Br. pose proof (bn_val_bound a Ha) as Ba. pose proof (bn_val_bound m Hm) as Bm. rewrite L in Br. rewrite La in Ba. rewrite Lm in Bm.
  set (M := B ^ Z.of_nat k) in *. exists (bn_val a + M * carry <? bn_val m).
  destruct (Z.ltb_spec (bn_val a + M * carry) (bn_val m)) as [N|N].
  - assert (carry = 0) as -> by nia. assert (borrow = 1) as -> by nia. split; [reflexivity|]. split; [|reflexivity]. rewrite Z.mod_small; lia.
  - assert (carry = borrow) as -> by nia. rewrite Z.sub_diag. split; [reflexivity|]. split; [|reflexivity].
    apply (Z.mod_unique _ _ 1); [left; nia|nia].
Qed.

Lemma bn_reduce_once_spec a carry m k : words_ok a -> words_ok m -> length a = k -> length m = k -> Z.of_nat k < 2 ^ 64 ->
  0 <= carry <= 1 -> bn_val a + B ^ Z.of_nat k * carry < 2 * bn_val m ->
  let (r, c) := bn_reduce_once a carry m (Z.of_nat k) in
  length r = k /\ words_ok r /\ bn_val r = (bn_val a + B ^ Z.of_nat k * carry) mod bn_val m /\
  c = mask 64 (bn_val a + B ^ Z.of_nat k * carry <? bn_val m).
Proof.
  intros Ha Hm La Lm Hk Hc Hlt. unfold bn_reduce_once. pose proof (reduce_choice a carry m k Ha Hm La Lm Hk Hc Hlt) as C.
  destruct (bn_sub_words a m _) as [r borrow]. destruct C as (L & W & neg & E & V & En). rewrite E.
  rewrite bn_select_words_spec by (assumption || lia). rewrite firstn_all2 by (destruct neg; lia).
  split; [destruct neg; assumption|]. split; [destruct neg; assumption|]. split; [exact V|now rewrite En].
Qed.

Lemma bn_reduce_once_in_place_eq r carry m num : bn_reduce_once_in_place r carry m num = bn_reduce_once r carry m num.
Proof. reflexivity. Qed.

Lemma bn_mod_add_words_spec a b m k : words_ok a -> words_ok b -> words_ok m -> length a = k -> length b = k -> length m = k -> Z.of_nat k < 2 ^ 64 ->
  bn_val a < bn_val m -> bn_val b < bn_val m ->
  let r := bn_mod_add_words a b m (Z.of_nat k) in length r = k /\ words_ok r /\ bn_val r = (bn_val a + bn_val b) mod bn_val m.
Proof.
  intros Ha Hb Hm La Lb Lm Hk Aa Ab. unfold bn_mod_add_words. pose proof (bn_add_words_spec a b k Ha Hb ltac:(lia) ltac:(lia) Hk) as S. rewrite !firstn_all2 in S by lia.
  destruct (bn_add_words a b _) as [s c]. destruct S as (L & W & C & V). rewrite bn_reduce_once_in_place_eq.
  pose proof (bn_reduce_once_spec s c m k W Hm L Lm Hk C ltac:(lia)) as R. destruct (bn_reduce_once _ _ _ _) as [r c']. destruct R as (Lr & Wr & Vr & _).
  cbv zeta. cbn [fst]. rewrite Vr, V. split; [exact Lr|]. split; [exact Wr|reflexivity].
Qed.

Lemma bn_mod_sub_words_spec a b m k : words_ok a -> words_ok b -> words_ok m -> length a = k -> length b = k -> length m = k -> Z.of_nat k < 2 ^ 64 ->
  bn_val a < bn_val m -> bn_val b < bn_val m ->
  let r := bn_mod_sub_words a b m (Z.of_nat k) in length r = k /\ words_ok r /\ bn_val r = (bn_val a - bn_val b) mod bn_val m.
Proof.
  intros Ha Hb Hm La Lb Lm Hk Aa Ab. cbv zeta. unfold bn_mod_sub_words. pose proof (bn_sub_words_spec a b k Ha Hb ltac:(lia) ltac:(lia) Hk) as S. rewrite !firstn_all2 in S by lia.
  destruct (bn_sub_words a b _) as [r c]. destruct S as (L & W & C & V). pose proof (bn_add_words_spec r m k W Hm ltac:(lia) ltac:(lia) Hk) as T. rewrite !firstn_all2 in T by lia.
  destruct (bn_add_words r m _) as [t c']. destruct T as (Lt & Wt & Ct & Vt). rewrite borrow_mask by lia.
  rewrite bn_select_words_spec by (assumption || lia). rewrite firstn_all2 by (destruct (c =? 1); lia).
  pose proof (bn_val_bound r W) as Br. pose proof (bn_val_bound a Ha) as Ba. pose proof (bn_val_bound b Hb) as Bb. pose proof (bn_val_bound m Hm) as Bm. pose proof (bn_val_bound t Wt) as Bt.
  rewrite L in Br. rewrite La in Ba. rewrite Lb in Bb. rewrite Lm in Bm. rewrite Lt in Bt. set (M := B ^ Z.of_nat k) in *.
  destruct (Z.eqb_spec c 1) as [->|N].
  - split; [exact Lt|]. split; [exact Wt|]. assert (c' = 1) as -> by nia. apply (Z.mod_unique _ _ (-1)); [left; nia|nia].
  - assert (c = 0) as -> by lia. split; [exact L|]. split; [exact W|]. rewrite Z.mod_small; lia.
Qed.

(** ** Comparison *)

Definition sign (c : comparison) : Z := match c with Eq => 0 | Lt => -1 | Gt => 1 end.

Lemma select_int_spec c x y : -1 <= x <= 1 -> -1 <= y <= 1 -> constant_time_select_int (mask 64 c) x y = if c then x else y.
Proof.
  intros Hx Hy. unfold constant_time_select_int. rewrite constant_time_select_w_spec by (apply wrap_range; lia).
  assert (forall z, -1 <= z <= 1 -> sint 32 (u32 (u64 z)) = z) as S.
  { intros z Hz. assert (z = -1 \/ z = 0 \/ z = 1) as [-> | [-> | ->]] by lia; reflexivity. }
  destruct c; now apply S.
Qed.

Lemma cmp_loop_spec k : forall a b ret, words_ok a -> words_ok b -> (k <= length a)%nat -> (k <= length b)%nat -> -1 <= ret <= 1 ->
  cmp_loop k ret a b = match Z.compare (bn_val (firstn k a)) (bn_val (firstn k b)) with Eq => ret | c => sign c end.
Proof.
  induction k as [|k IH]; intros a b ret Ha Hb La Lb R; [reflexivity|].
  destruct a as [|x a]; [cbn in La; lia|]. destruct b as [|y b]; [cbn in Lb; lia|].
  apply Forall_cons_iff in Ha as [Hx Ha], Hb as [Hy Hb]. cbn [cmp_loop hd tl length firstn bn_val] in *.
  rewrite constant_time_eq_w_spec, constant_time_lt_w_spec by assumption.
  rewrite (select_int_spec (x <? y) (-1) 1) by lia. rewrite select_int_spec by (lia || (destruct (x <? y); lia)).
  rewrite IH by (assumption || lia || (destruct (x =? y), (x <? y); lia)).
  unfold word_ok in Hx, Hy. fold B in Hx, Hy. set (u := bn_val (firstn k a)). set (v := bn_val (firstn k b)).
  assert (0 < B) by reflexivity.
  destruct (Z.compare_spec u v) as [E|E|E].
  - rewrite E. destruct (Z.compare_spec (x + B * v) (y + B * v)) as [D|D|D]; destruct (Z.eqb_spec x y), (Z.ltb_spec x y); cbn [sign]; lia.
  - assert (B * u <= B * (v - 1)) by (apply Z.mul_le_mono_nonneg_l; lia).
    destruct (Z.compare_spec (x + B * u) (y + B * v)); cbn [sign]; lia.
  - assert (B * v <= B * (u - 1)) by (apply Z.mul_le_mono_nonneg_l; lia).
    destruct (Z.compare_spec (x + B * u) (y + B * v)); cbn [sign]; lia.
Qed.

Lemma or_words_spec l : words_ok l -> forall m, word_ok 64 m ->
  word_ok 64 (fold_left Z.lor l m) /\ (fold_left Z.lor l m =? 0) = (m =? 0) && (bn_val l =? 0).
Proof.
  induction 1 as [|x l Hx Hl IH]; intros m Hm; cbn [fold_left bn_val]; [split; [exact Hm|now rewrite Z.eqb_refl, andb_true_r]|].
  destruct (IH (Z.lor m x)) as [W E]; [now apply lor_ok|]. split; [exact W|]. rewrite E. pose proof (bn_val_bound l Hl).
  assert ((Z.lor m x =? 0) = (m =? 0) && (x =? 0)) as ->.
  { apply eq_iff_eq_true. rewrite andb_true_iff, !Z.eqb_eq. apply Z.lor_eq_0_iff. }
  rewrite <- andb_assoc. f_equal. unfold word_ok, B in *. lia.
Qed.

(** The words beyond the shorter array *)
Lemma tail_spec l k : words_ok l -> (k <= length l)%nat ->
  constant_time_is_zero_w (fold_left Z.lor (firstn (Z.to_nat (Z.of_nat (length l) - Z.of_nat k)) (skipn k l)) 0) =
  mask 64 (bn_val (skipn k l) =? 0).
Proof.
  intros Hl Hk. rewrite firstn_all2 by (rewrite length_skipn; lia).
  destruct (or_words_spec (skipn k l) (Forall_skipn' _ _ _ Hl) 0) as [W E]; [split; [lia|reflexivity]|].
  rewrite constant_time_is_zero_w_spec by exact W. now rewrite E.
Qed.

Lemma cmp_words_spec a b : words_ok a -> words_ok b -> Z.of_nat (length a) < 2 ^ 64 -> Z.of_nat (length b) < 2 ^ 64 ->
  bn_cmp_words_consttime a (Z.of_nat (length a)) b (Z.of_nat (length b)) = sign (Z.compare (bn_val a) (bn_val b)).
Proof.
  intros Ha Hb La Lb. unfold bn_cmp_words_consttime. assert (0 < B) by reflexivity.
  assert (forall l k, words_ok l -> (k <= length l)%nat -> 0 <= bn_val (firstn k l) < B ^ Z.of_nat k) as F.
  { intros l k Hl Hk. pose proof (bn_val_bound (firstn k l) (Forall_firstn' _ k l Hl)) as Q. now rewrite length_firstn, Nat.min_l in Q by exact Hk. }
  assert (forall k (u v : list Z), -1 <= match bn_val (firstn k u) ?= bn_val (firstn k v) with Eq => 0 | c => sign c end <= 1) as S.
  { intros k u v. destruct (_ ?= _); cbn [sign]; lia. }
  assert (forall l k, words_ok l -> 0 <= bn_val (skipn k l)) as Nn by (intros l k Hl; apply bn_val_bound, Forall_skipn', Hl).
  destruct (Z.ltb_spec (Z.of_nat (length a)) (Z.of_nat (length b))) as [C|C]; [|destruct (Z.ltb_spec (Z.of_nat (length b)) (Z.of_nat (length a))) as [D|D]].
  - rewrite Nat2Z.id, cmp_loop_spec, tail_spec, select_int_spec by (assumption || apply S || lia).
    rewrite (bn_val_split (length a) b) by lia. rewrite firstn_all. pose proof (Nn b (length a) Hb). pose proof (F b (length a) Hb ltac:(lia)). pose proof (bn_val_bound a Ha).
    destruct (Z.eqb_spec (bn_val (skipn (length a) b)) 0) as [->|N]; [rewrite Z.mul_0_r, Z.add_0_r; now destruct (_ ?= _)|].
    destruct (Z.compare_spec (bn_val a) (bn_val (firstn (length a) b) + B ^ Z.of_nat (length a) * bn_val (skipn (length a) b))); cbn [sign]; nia.
  - rewrite Nat2Z.id, cmp_loop_spec, tail_spec, select_int_spec by (assumption || apply S || lia).
    rewrite (bn_val_split (length b) a) by lia. rewrite firstn_all. pose proof (Nn a (length b) Ha). pose proof (F a (length b) Ha ltac:(lia)). pose proof (bn_val_bound b Hb).
    destruct (Z.eqb_spec (bn_val (skipn (length b) a)) 0) as [->|N]; [rewrite Z.mul_0_r, Z.add_0_r; now destruct (_ ?= _)|].
    destruct (Z.compare_spec (bn_val (firstn (length b) a) + B ^ Z.of_nat (length b) * bn_val (skipn (length b) a)) (bn_val b)); cbn [sign]; nia.
  - assert (length a = length b) as L by lia. rewrite Nat2Z.id, cmp_loop_spec by (assumption || lia). rewrite !firstn_all2 by lia.
    now destruct (_ ?= _).
Qed.

(** [bn_cmp_words_consttime], which reads every word of both arrays
    whatever they hold, gives the sign of the comparison of the two numbers:
    the highest differing word decides, and an array that is longer wins
    exactly if one of its extra words is not zero. *)
Theorem bn_cmp_words_consttime_correct (a b : list Z) (Ha : words_ok a) (Hb : words_ok b)
  (La : Z.of_nat (length a) < 2 ^ 64) (Lb : Z.of_nat (length b) < 2 ^ 64) :
  bn_cmp_words_consttime a (Z.of_nat (length a)) b (Z.of_nat (length b)) = sign (Z.compare (bn_val a) (bn_val b)).
Proof. now apply cmp_words_spec. Qed.

Lemma bn_cmp_words_consttime_correct_witness :
  bn_cmp_words_consttime [5; 7] 2 [9; 6; 0] 3 = 1 /\ bn_cmp_words_consttime [5; 7] 2 [5; 7; 1] 3 = -1.
Proof.
  split.
  - apply (bn_cmp_words_consttime_correct [5; 7] [9; 6; 0]); repeat constructor; discriminate.
  - apply (bn_cmp_words_consttime_correct [5; 7] [5; 7; 1]); repeat constructor; discriminate.
Defined.

Lemma bn_less_than_words_spec a b k : words_ok a -> words_ok b -> (k <= length a)%nat -> (k <= length b)%nat ->
  bn_less_than_words a b (Z.of_nat k) = (bn_val (firstn k a) <? bn_val (firstn k b)).
Proof.
  intros Ha Hb La Lb. unfold bn_less_than_words, bn_cmp_words_consttime. rewrite !Z.ltb_irrefl, Nat2Z.id, cmp_loop_spec by (assumption || lia).
  rewrite (Z.ltb_compare (bn_val _)). now destruct (_ ?= _).
Qed.

(** ** The absolute difference *)

Lemma bn_abs_sub_words_spec a b k : words_ok a -> words_ok b -> length a = k -> length b = k -> Z.of_nat k < 2 ^ 64 ->
  let r := bn_abs_sub_words a b (Z.of_nat k) in length r = k /\ words_ok r /\ bn_val r = Z.abs (bn_val a - bn_val b).
Proof.
  intros Ha Hb La Lb Hk. cbv zeta. unfold bn_abs_sub_words.
  pose proof (bn_sub_words_spec a b k Ha Hb ltac:(lia) ltac:(lia) Hk) as S. pose proof (bn_sub_words_spec b a k Hb Ha ltac:(lia) ltac:(lia) Hk) as T. rewrite !firstn_all2 in S, T by lia.
  destruct (bn_sub_words a b _) as [d c]. destruct (bn_sub_words b a _) as [d' c']. destruct S as (L & W & C & V). destruct T as (L' & W' & C' & V').
  rewrite borrow_mask by lia. rewrite bn_select_words_spec by (assumption || lia). rewrite firstn_all2 by (destruct (c =? 1); lia).
  pose proof (bn_val_bound d W) as Bd. pose proof (bn_val_bound d' W') as Bd'. pose proof (bn_val_bound a Ha) as Ba. pose proof (bn_val_bound b Hb) as Bb.
  rewrite L in Bd. rewrite L' in Bd'. rewrite La in Ba. rewrite Lb in Bb. set (M := B ^ Z.of_nat k) in *.
  destruct (Z.eqb_spec c 1) as [->|N].
  - split; [exact L'|]. split; [exact W'|]. assert (c' = 0) as -> by nia. lia.
  - assert (c = 0) as -> by lia. split; [exact L|]. split; [exact W|]. lia.
Qed.

(** ** Small products *)

Lemma bn_mul_small_spec a b : words_ok a -> words_ok b -> Z.of_nat (length a + length b) < 2 ^ 64 ->
  exists o, bn_mul_small (Z.of_nat (length a + length b)) a (Z.of_nat (length a)) b (Z.of_nat (length b)) = Some o /\ product o a b.
Proof.
  intros Ha Hb L. unfold bn_mul_small. rewrite Nat2Z.inj_add in *. rewrite wrap_small by (unfold word_ok; lia). rewrite Z.eqb_refl. cbn [negb].
  destruct ((Z.of_nat (length a) =? 8) && (Z.of_nat (length b) =? 8)) eqn:E.
  - apply andb_true_iff in E. exists (bn_mul_comba8 a b). split; [reflexivity|]. apply bn_mul_comba8_spec; assumption || lia.
  - exists (bn_mul_normal a (Z.of_nat (length a)) b (Z.of_nat (length b))). split; [reflexivity|].
    destruct (bn_mul_normal_spec a b Ha Hb ltac:(lia) ltac:(lia)) as (Lo & W & V). now split.
Qed.

Lemma bn_sqr_small_spec r a : words_ok r -> words_ok a -> length r = (2 * length a)%nat -> Z.of_nat (length a) <= BN_SMALL_MAX_WORDS ->
  exists o, bn_sqr_small r (Z.of_nat (length r)) a (Z.of_nat (length a)) = Some o /\ product o a a.
Proof.
  intros Hr Ha L M. unfold BN_SMALL_MAX_WORDS in M. unfold bn_sqr_small. rewrite L, Nat2Z.inj_mul, wrap_small by (unfold word_ok; lia). rewrite Z.eqb_refl.
  destruct (Z.ltb_spec BN_SMALL_MAX_WORDS (Z.of_nat (length a))) as [C|_]; [unfold BN_SMALL_MAX_WORDS in C; lia|]. cbn [negb orb].
  destruct (Z.eqb_spec (Z.of_nat (length a)) 4) as [E|_]; [|destruct (Z.eqb_spec (Z.of_nat (length a)) 8) as [E|_]].
  - exists (bn_sqr_comba4 a). split; [reflexivity|]. apply bn_sqr_comba4_spec; [assumption|lia].
  - exists (bn_sqr_comba8 a). split; [reflexivity|]. apply bn_sqr_comba8_spec; [assumption|lia].
  - exists (bn_sqr_normal r a (Z.of_nat (length a))). split; [reflexivity|]. apply bn_sqr_normal_spec; assumption || lia.
Qed.

(** [bn_sqr_small] and [bn_mul_small] agree: for every number of at most
    nine words, whatever the buffer for the square held before, the square
    (the unrolled columns for four and eight words, otherwise half of the
    cross products doubled and the squares of the words added to them) has
    exactly the words of the product of the number with itself, and these
    are the square's value. *)
Theorem bn_sqr_small_correct (r a : list Z) (Hr : words_ok r) (Ha : words_ok a) (L : length r = (2 * length a)%nat)
  (M : Z.of_nat (length a) <= BN_SMALL_MAX_WORDS) :
  exists o, let n := Z.of_nat (length a) in
    bn_sqr_small r (2 * n) a n = Some o /\ bn_mul_small (2 * n) a n a n = Some o /\
    words_ok o /\ length o = (2 * length a)%nat /\ bn_val o = bn_val a ^ 2.
Proof.
  destruct (bn_sqr_small_spec r a Hr Ha L M) as (o & E & P).
  destruct (bn_mul_small_spec a a Ha Ha) as (o' & E' & P'); [unfold BN_SMALL_MAX_WORDS in M; lia|].
  pose proof (product_unique o o' a a P P') as <-. exists o. cbv zeta. rewrite L, Nat2Z.inj_mul in E.
  replace (length a + length a)%nat with (2 * length a)%nat in E' by lia. rewrite Nat2Z.inj_mul in E'.
  destruct P as (W & Lo & V). rewrite Z.pow_2_r. repeat split; try assumption; lia.
Qed.

Lemma bn_sqr_small_correct_witness :
  exists o, bn_sqr_small (repeat 7 10) 10 (repeat UINT64_MAX 5) 5 = Some o /\ bn_mul_small 10 (repeat UINT64_MAX 5) 5 (repeat UINT64_MAX 5) 5 = Some o /\
    words_ok o /\ length o = 10%nat /\ bn_val o = bn_val (repeat UINT64_MAX 5) ^ 2.
Proof.
  apply (bn_sqr_small_correct (repeat 7 10) (repeat UINT64_MAX 5)); [repeat constructor; discriminate|repeat constructor; discriminate|reflexivity|discriminate].
Defined.
