(* ===== verification/BnMont.v ===== *)
(** * Montgomery arithmetic and exponentiation

    BoringSSL's [fipsmodule/bn/montgomery_inv.c], [montgomery.c] and the
    exponentiation for small fields of [exponentiation.c].  The app's platform
    has no assembly, so a Montgomery product is the product of [mul.c] followed
    by the reduction of [montgomery.c].  [abort] and an error are [None]. *)

From Stdlib Require Import ZArith Lia ZifyBool List Bool Znumtheory Zpow_facts.
From Stdlib Require ZmodInv.
From S2P Require Import Prelude ConstTime BnWords.
Import ListNotations.

(** ** Definitions *)

(** [alpha], half of the word size's power [r] *)
Definition alpha : Z := Z.shiftl 1 63.

Definition inv_step (beta : Z) (s : Z * Z) : Z * Z :=
  let (u, v) := s in
  let u_is_odd := u64 (0 - Z.land u 1) in
  let beta_if_u_is_odd := Z.land beta u_is_odd in
  let u := u64 (Z.shiftr (Z.lxor u beta_if_u_is_odd) 1 + Z.land u beta_if_u_is_odd) in
  let alpha_if_u_is_odd := Z.land alpha u_is_odd in
  (u, u64 (Z.shiftr v 1 + alpha_if_u_is_odd)).

Definition bn_neg_inv_mod_r_u64 (n : Z) : Z := snd (Nat.iter 64 (inv_step n) (1, 0)).

Definition bn_mont_n0 (n : list Z) : Z := bn_neg_inv_mod_r_u64 (hd 0 n).

(** The modulus is stored in minimal form, so its words are its width. *)
Record BN_MONT_CTX := mk_mont { RR : list Z; N : list Z; n0 : Z }.

Definition width (l : list Z) : Z := Z.of_nat (length l).

(** [a] is the array from the row's first word on; the word the row clears is
    not read again. *)
Fixpoint from_rows (rows : nat) (a n : list Z) (num_n n0 carry : Z) : list Z * Z :=
  match rows with
  | O => (a, carry)
  | S rows =>
      let (row, v) := bn_mul_add_words a n num_n (u64 (hd 0 a * n0)) in
      let hi := nth (Z.to_nat num_n) a 0 in
      let v := u64 (v + u64 (carry + hi)) in
      let carry := Z.lor carry (Z.b2z (negb (v =? hi))) in
      let carry := Z.land carry (Z.b2z (v <=? hi)) in
      from_rows rows (tl row ++ v :: skipn (S (Z.to_nat num_n)) a) n num_n n0 carry
  end.

Definition bn_from_montgomery_in_place (num_r : Z) (a : list Z) (num_a : Z) (mont : BN_MONT_CTX) : option (list Z) :=
  let n := N mont in
  let num_n := width n in
  if negb (num_r =? num_n) || negb (num_a =? u64 (2 * num_n)) then None
  else
    let (a, carry) := from_rows (Z.to_nat num_n) a n num_n (n0 mont) 0 in
    Some (fst (bn_reduce_once a carry n num_n)).

Definition bn_from_montgomery_small (num_r : Z) (a : list Z) (num_a : Z) (mont : BN_MONT_CTX) : option (list Z) :=
  if negb (num_r =? width (N mont)) || (BN_SMALL_MAX_WORDS <? num_r) || (u64 (2 * num_r) <? num_a) then None
  else
    let tmp := firstn (Z.to_nat num_a) a ++ repeat 0 (Z.to_nat (BN_SMALL_MAX_WORDS * 2 - num_a)) in
    bn_from_montgomery_in_place num_r (firstn (Z.to_nat (2 * num_r)) tmp) (u64 (2 * num_r)) mont.

(** [same] tells whether the pointers [a] and [b] are equal; [tmp] is what the
    buffer for the product holds when it is declared. *)
Definition bn_mod_mul_montgomery_small (tmp : list Z) (same : bool) (a b : list Z) (num : Z) (mont : BN_MONT_CTX) : option (list Z) :=
  if negb (num =? width (N mont)) || (BN_SMALL_MAX_WORDS <? num) then None
  else
    let product :=
      if same then bn_sqr_small (firstn (Z.to_nat (2 * num)) tmp) (u64 (2 * num)) a num
      else bn_mul_small (u64 (2 * num)) a num b num in
    match product with
    | Some tmp => bn_from_montgomery_in_place num tmp (u64 (2 * num)) mont
    | None => None
    end.

Definition bn_to_montgomery_small (tmp : list Z) (a : list Z) (num : Z) (mont : BN_MONT_CTX) : option (list Z) :=
  bn_mod_mul_montgomery_small tmp false a (RR mont) num mont.

(** *** Bits of the exponent *)

Definition num_bits_step (s : Z) (st : Z * Z) : Z * Z :=
  let (bits, l) := st in
  let x := Z.shiftr l s in
  let mask := u64 (0 - x) in
  let mask := u64 (0 - Z.shiftr mask (BN_BITS2 - 1)) in
  (bits + Z.land s mask, Z.lxor l (Z.land (Z.lxor x l) mask)).

(** After the last block only the count is used. *)
Definition BN_num_bits_word (l : Z) : Z :=
  let bits := Z.b2z (negb (l =? 0)) in
  fst (num_bits_step 1 (num_bits_step 2 (num_bits_step 4 (num_bits_step 8 (num_bits_step 16 (num_bits_step 32 (bits, l))))))).

Definition bn_is_bit_set_words (a : list Z) (num : Z) (bit : Z) : Z :=
  let i := bit / BN_BITS2 in
  let j := bit mod BN_BITS2 in
  if num <=? i then 0 else Z.land (Z.shiftr (nth (Z.to_nat i) a 0) j) 1.

Definition BN_window_bits_for_exponent_size (b : Z) : Z :=
  if 671 <? b then 6 else if 239 <? b then 5 else if 79 <? b then 4 else if 23 <? b then 3 else 1.

Definition TABLE_BITS_SMALL : Z := 5.

(** *** Exponentiation *)

Fixpoint skip_high_zeros (fuel : nat) (p : list Z) (num_p : Z) : Z :=
  match fuel with
  | O => num_p
  | S fuel =>
      if negb (num_p =? 0) && (nth (Z.to_nat (num_p - 1)) p 0 =? 0) then skip_high_zeros fuel p (num_p - 1) else num_p
  end.

(** The largest window that starts at [wstart]: its value and its size less
    one.  [i] is the next bit to look at. *)
Fixpoint scan_window (fuel : nat) (p : list Z) (num_p window wstart i wvalue wsize : Z) : Z * Z :=
  match fuel with
  | O => (wvalue, wsize)
  | S fuel =>
      if (i <? window) && (i <=? wstart) then
        if negb (bn_is_bit_set_words p num_p (wstart - i) =? 0) then
          scan_window fuel p num_p window wstart (i + 1) (Z.lor (u32 (Z.shiftl wvalue (i - wsize))) 1) i
        else scan_window fuel p num_p window wstart (i + 1) wvalue wsize
      else (wvalue, wsize)
  end.

Section Exponentiation.

Context (tmp : list Z) (num : Z) (mont : BN_MONT_CTX).

(** [val[i] = val[i - 1] * d] for the remaining entries *)
Fixpoint fill_table (entries : nat) (last d : list Z) : option (list (list Z)) :=
  match entries with
  | O => Some []
  | S entries =>
      match bn_mod_mul_montgomery_small tmp false last d num mont with
      | Some v => option_map (cons v) (fill_table entries v d)
      | None => None
      end
  end.

Fixpoint square_times (times : nat) (r : list Z) : option (list Z) :=
  match times with
  | O => Some r
  | S times =>
      match bn_mod_mul_montgomery_small tmp true r r num mont with
      | Some r => square_times times r
      | None => None
      end
  end.

(** [r] is [None] while [r_is_one]. *)
Fixpoint exp_loop (fuel : nat) (p : list Z) (num_p window wstart : Z) (val : list (list Z)) (r : option (list Z)) : option (list Z) :=
  match fuel with
  | O => None
  | S fuel =>
      if bn_is_bit_set_words p num_p wstart =? 0 then
        match r with
        | None => if wstart =? 0 then None else exp_loop fuel p num_p window (wstart - 1) val None
        | Some x =>
            match square_times 1 x with
            | None => None
            | Some x => if wstart =? 0 then Some x else exp_loop fuel p num_p window (wstart - 1) val (Some x)
            end
        end
      else
        let (wvalue, wsize) := scan_window (Z.to_nat window) p num_p window wstart 1 1 0 in
        let entry := nth (Z.to_nat (Z.shiftr wvalue 1)) val [] in
        let r :=
          match r with
          | None => Some entry
          | Some x =>
              match square_times (Z.to_nat (wsize + 1)) x with
              | Some x => bn_mod_mul_montgomery_small tmp false x entry num mont
              | None => None
              end
          end in
        match r with
        | None => None
        | Some x => if wstart =? wsize then Some x else exp_loop fuel p num_p window (wstart - (wsize + 1)) val (Some x)
        end
  end.

Definition bn_mod_exp_mont_small (a p : list Z) (num_p : Z) : option (list Z) :=
  if negb (num =? width (N mont)) || (BN_SMALL_MAX_WORDS <? num) then None
  else
    let num_p := skip_high_zeros (Z.to_nat num_p) p num_p in
    if num_p =? 0 then bn_from_montgomery_small num (RR mont) num mont
    else
      let bits := u32 (BN_num_bits_word (nth (Z.to_nat (num_p - 1)) p 0) + (num_p - 1) * BN_BITS2) in
      let window := BN_window_bits_for_exponent_size (sint 32 bits) in
      let window := if TABLE_BITS_SMALL <? window then TABLE_BITS_SMALL else window in
      let val :=
        if 1 <? window then
          match bn_mod_mul_montgomery_small tmp true a a num mont with
          | Some d => option_map (cons a) (fill_table (Z.to_nat (2 ^ (window - 1) - 1)) a d)
          | None => None
          end
        else Some [a] in
      match val with
      | Some val => exp_loop (Z.to_nat bits) p num_p window (bits - 1) val None
      | None => None
      end.

(** The borrow of [p - 2] below the lowest word *)
Fixpoint borrow_words (l : list Z) : list Z :=
  match l with
  | [] => []
  | x :: l => if negb (x =? 0) then u64 (x - 1) :: l else u64 (x - 1) :: borrow_words l
  end.

Definition minus_two (p : list Z) : list Z :=
  match p with
  | [] => []
  | x :: l => if 2 <=? x then u64 (x - 2) :: l else u64 (x - 2) :: borrow_words l
  end.

Definition bn_mod_inverse0_prime_mont_small (a : list Z) : option (list Z) :=
  if negb (num =? width (N mont)) || (BN_SMALL_MAX_WORDS <? num) then None
  else bn_mod_exp_mont_small a (minus_two (firstn (Z.to_nat num) (N mont))) num.

End Exponentiation.

(** ** The inverse of the modulus *)

Lemma low_bit_mask u : 0 <= u -> u64 (0 - Z.land u 1) = mask 64 (Z.odd u).
Proof.
  intros Hu. change 1 with (2 ^ 1 - 1). rewrite land_mask by lia. change (2 ^ 1) with 2. rewrite Zmod_odd. now destruct (Z.odd u).
Qed.

Lemma inv_step_spec beta u v i : word_ok 64 beta -> Z.odd beta = true -> word_ok 64 u -> word_ok 64 v -> 0 < i ->
  2 ^ i = u * 2 ^ 64 - v * beta ->
  let (u', v') := inv_step beta (u, v) in word_ok 64 u' /\ word_ok 64 v' /\ 2 ^ (i - 1) = u' * 2 ^ 64 - v' * beta.
Proof.
  intros Hb Ob Hu Hv Hi E. assert (0 <= u) as Nu by (unfold word_ok in Hu; lia). unfold inv_step. rewrite low_bit_mask by exact Nu.
  rewrite !(Z.land_comm _ (mask 64 _)), !land_mask_word by (lia || assumption || (unfold word_ok; change alpha with (2 ^ 63); lia)).
  replace i with (Z.succ (i - 1)) in E by lia. rewrite Z.pow_succ_r in E by lia. set (P := 2 ^ (i - 1)) in *. change alpha with (2 ^ 63).
  rewrite !Z.shiftr_div_pow2, !Z.pow_1_r by lia.
  assert (D : forall y, Z.lxor u y / 2 + Z.land u y = (u + y) / 2).
  { intros y. rewrite <- (Z.add_lxor_2land u y), (Z.mul_comm 2), Z.div_add by lia. reflexivity. }
  rewrite D. clear D. pose proof (Z.div_mod u 2 ltac:(lia)) as Du. pose proof (Z.div_mod v 2 ltac:(lia)) as Dv. pose proof (Z.div_mod beta 2 ltac:(lia)) as Db.
  rewrite Zmod_odd in Du, Dv, Db. rewrite Ob in Db. unfold word_ok in *.
  assert (Z.odd v = Z.odd (v * beta)) as Ov by (rewrite Z.odd_mul, Ob; now destruct (Z.odd v)).
  replace (v * beta) with (2 * (u * 2 ^ 63 - P)) in Ov by lia. rewrite Z.odd_mul in Ov. cbn [Z.odd andb] in Ov. rewrite Ov in Dv.
  set (v2 := v / 2) in *. clearbody v2. clear Ov. destruct (Z.odd u); cbv iota in Du, Dv, Db.
  - assert ((u + beta) / 2 = u / 2 + beta / 2 + 1) as -> by (symmetry; apply Z.div_unique with 0; lia). set (u2 := u / 2) in *. set (b2 := beta / 2) in *. clearbody u2 b2.
    rewrite !wrap_small by (unfold word_ok; lia). split; [lia|]. split; [lia|]. subst v. rewrite Du, Db in *. lia.
  - rewrite !Z.add_0_r. set (u2 := u / 2) in *. clearbody u2. rewrite !wrap_small by (unfold word_ok; lia). split; [lia|]. split; [lia|]. subst v. lia.
Qed.

Lemma inv_steps beta k : word_ok 64 beta -> Z.odd beta = true -> (k <= 64)%nat ->
  let (u, v) := Nat.iter k (inv_step beta) (1, 0) in word_ok 64 u /\ word_ok 64 v /\ 2 ^ (64 - Z.of_nat k) = u * 2 ^ 64 - v * beta.
Proof.
  intros Hb Ob. induction k as [|k IH]; intros Hk; [split; [split; [lia|reflexivity]|]; split; [split; [lia|reflexivity]|]; cbn [Nat.iter]; lia|].
  rewrite Nat.iter_succ. destruct (Nat.iter k _ _) as [u v]. destruct IH as (Hu & Hv & E); [lia|].
  pose proof (inv_step_spec beta u v (64 - Z.of_nat k) Hb Ob Hu Hv ltac:(lia) E) as Q. destruct (inv_step beta (u, v)). replace (64 - Z.of_nat (S k)) with (64 - Z.of_nat k - 1) by lia. exact Q.
Qed.

Lemma bn_neg_inv_mod_r_u64_spec n : word_ok 64 n -> Z.odd n = true ->
  word_ok 64 (bn_neg_inv_mod_r_u64 n) /\ exists u, word_ok 64 u /\ u * B - bn_neg_inv_mod_r_u64 n * n = 1.
Proof.
  intros Hn On. unfold bn_neg_inv_mod_r_u64. pose proof (inv_steps n 64 Hn On ltac:(lia)) as S.
  destruct (Nat.iter 64 _ _) as [u v]. destruct S as (Hu & Hv & E). cbn [snd]. split; [exact Hv|]. exists u. split; [exact Hu|]. symmetry. exact E.
Qed.

(** [bn_neg_inv_mod_r_u64] computes the negative inverse without a
    multiplication or a division and without overflow: for every odd word [n]
    the word [v] it returns satisfies [u * 2^64 - v * n = 1] for a word [u],
    as the comment of the loop says, and it is the only word with
    [n * v = -1] modulo [2^64]. *)
Theorem bn_neg_inv_mod_r_u64_correct (n : Z) (Hn : word_ok 64 n) (On : Z.odd n = true) :
  (exists u, word_ok 64 u /\ u * 2 ^ 64 - bn_neg_inv_mod_r_u64 n * n = 1) /\
  forall v, word_ok 64 v -> (n * v + 1) mod 2 ^ 64 = 0 <-> v = bn_neg_inv_mod_r_u64 n.
Proof.
  destruct (bn_neg_inv_mod_r_u64_spec n Hn On) as (W & u & Hu & E). set (x := bn_neg_inv_mod_r_u64 n) in *. clearbody x. split; [now exists u|].
  intros v Hv. change B with (2 ^ 64) in E. split; [|intros ->; rewrite Z.mul_comm, <- (Z.mod_mul u (2 ^ 64)) by lia; f_equal; lia].
  intros D. apply Z.mod_divide in D; [|lia]. assert ((2 ^ 64 | n * (v - x))) as D'.
  { replace (n * (v - x)) with (n * v + 1 - u * 2 ^ 64) by lia. apply Z.divide_sub_r; [exact D|apply Z.divide_factor_r]. }
  apply Gauss in D'; [|apply bezout_rel_prime, (Bezout_intro _ _ _ u (- x)); lia].
  destruct D' as [q Hq]. unfold word_ok in *. nia.
Qed.

Lemma bn_neg_inv_mod_r_u64_correct_witness :
  (exists u, word_ok 64 u /\ u * 2 ^ 64 - bn_neg_inv_mod_r_u64 17 * 17 = 1) /\
  forall v, word_ok 64 v -> (17 * v + 1) mod 2 ^ 64 = 0 <-> v = bn_neg_inv_mod_r_u64 17.
Proof. apply (bn_neg_inv_mod_r_u64_correct 17); [split; [discriminate|reflexivity]|reflexivity]. Defined.

(** ** The reduction *)

(** What [bn_mont_ctx_set_N_and_n0] and [BN_MONT_CTX_set] establish *)
Record mont_ok (mont : BN_MONT_CTX) : Prop := mk_mont_ok {
  N_words : words_ok (N mont);
  N_odd : Z.odd (bn_val (N mont)) = true;
  N_small : width (N mont) <= BN_SMALL_MAX_WORDS;
  n0_set : n0 mont = bn_mont_n0 (N mont);
  RR_words : words_ok (RR mont);
  RR_width : length (RR mont) = length (N mont);
  RR_set : bn_val (RR mont) = (B ^ width (N mont)) ^ 2 mod bn_val (N mont) }.

Lemma odd_head l : Z.odd (bn_val l) = Z.odd (hd 0 l).
Proof.
  destruct l as [|x l]; [reflexivity|]. cbn [bn_val hd]. rewrite Z.odd_add, Z.odd_mul. change (Z.odd B) with false. apply xorb_false_r.
Qed.

(** Adding the multiple of [n] that [n0] gives clears the lowest word. *)
Lemma row_cleared x n w : word_ok 64 (hd 0 n) -> Z.odd (hd 0 n) = true -> word_ok 64 x -> w = u64 (x * bn_mont_n0 n) ->
  (x + w * hd 0 n) mod B = 0.
Proof.
  intros Wn On Hx ->. unfold bn_mont_n0. destruct (bn_neg_inv_mod_r_u64_spec (hd 0 n) Wn On) as (_ & u & _ & E).
  set (v := bn_neg_inv_mod_r_u64 (hd 0 n)) in *. clearbody v. set (h := hd 0 n) in *. clearbody h. unfold wrap. fold B. assert (B <> 0) by discriminate.
  rewrite Z.add_mod, Z.mul_mod, Zmod_mod, <- Z.mul_mod, <- Z.add_mod by assumption.
  rewrite <- (Z.mod_mul (x * u) B) by assumption. f_equal.
  rewrite <- !Z.mul_assoc. replace (v * h) with (u * B - 1) by lia. lia.
Qed.

(** The word above the row, with the carry of the row before it *)
Lemma carry_word c carry hi : word_ok 64 c -> 0 <= carry <= 1 -> word_ok 64 hi ->
  let v := u64 (c + u64 (carry + hi)) in
  let carry' := Z.land (Z.lor carry (Z.b2z (negb (v =? hi)))) (Z.b2z (v <=? hi)) in
  word_ok 64 v /\ 0 <= carry' <= 1 /\ v + B * carry' = c + carry + hi.
Proof.
  intros Hc Hk Hh v carry'. assert (Ev : v = (c + carry + hi) mod B).
  { subst v. unfold wrap. fold B. rewrite Zplus_mod_idemp_r. f_equal. lia. }
  assert (word_ok 64 v) as Hv by (apply wrap_range; lia). split; [exact Hv|]. clearbody v.
  assert (exists q, 0 <= q <= 1 /\ c + carry + hi = v + B * q) as (q & Hq & E).
  { exists ((c + carry + hi) / B). pose proof (Z.div_mod (c + carry + hi) B ltac:(discriminate)). unfold word_ok, B in *. lia. }
  assert (carry' = q) as ->; [|lia]. subst carry'. unfold word_ok in *. fold B in *. clear Ev.
  assert (q = 0 \/ q = 1) as [-> | ->] by lia; assert (carry = 0 \/ carry = 1) as [-> | ->] by lia;
    destruct (Z.eqb_spec v hi), (Z.leb_spec v hi); cbn [negb Z.b2z Z.lor Z.land Pos.lor Pos.land]; try reflexivity; lia.
Qed.

Lemma split_at {A} (d : A) k : forall l, (k < length l)%nat -> l = firstn k l ++ nth k l d :: skipn (S k) l.
Proof.
  induction k as [|k IH]; intros l L; (destruct l as [|x l]; [cbn in L; lia|]); [reflexivity|].
  cbn [firstn nth app length] in *. f_equal. rewrite (IH l) at 1 by lia. reflexivity.
Qed.

(** A row that [bn_mul_add_words] adds has a lowest word of zero. *)
Lemma row_head a n row c : words_ok a -> words_ok n -> words_ok row -> Z.odd (bn_val n) = true -> (length n <= length a)%nat -> length row = length n ->
  bn_val row + B ^ width n * c = bn_val (firstn (length n) a) + u64 (hd 0 a * bn_mont_n0 n) * bn_val n -> row = 0 :: tl row.
Proof.
  intros Ha Hn Hr On La Lr V. rewrite odd_head in On. set (w := u64 _) in V.
  pose proof (row_cleared (hd 0 a) n w (words_ok_hd n Hn) On (words_ok_hd a Ha) eq_refl) as Z0. clearbody w.
  destruct n as [|z n]; [discriminate|]. destruct row as [|y row]; [cbn in Lr; lia|]. destruct a as [|x a]; [cbn in La; lia|].
  unfold width in V. cbn [hd tl length firstn bn_val] in *. apply Forall_cons_iff in Hr as [Hy _]. f_equal.
  rewrite Nat2Z.inj_succ, Z.pow_succ_r in V by lia. apply Z.mod_divide in Z0 as [k Hk]; [|discriminate].
  rewrite <- (Z.mod_small y B) by exact Hy.
  replace y with ((k + bn_val (firstn (length n) a) + w * bn_val n - B ^ Z.of_nat (length n) * c - bn_val row) * B) by lia.
  apply Z.mod_mul. discriminate.
Qed.

Lemma from_rows_spec n : words_ok n -> Z.odd (bn_val n) = true -> Z.of_nat (length n) < 2 ^ 64 ->
  forall rows a carry, words_ok a -> length a = (length n + rows)%nat -> 0 <= carry <= 1 ->
  let (r, c) := from_rows rows a n (width n) (bn_mont_n0 n) carry in
  length r = length n /\ words_ok r /\ 0 <= c <= 1 /\ exists q, 0 <= q < B ^ Z.of_nat rows /\
  B ^ Z.of_nat rows * (bn_val r + B ^ width n * c) = bn_val a + B ^ width n * carry + q * bn_val n.
Proof.
  intros Hn On Wn. induction rows as [|rows IH]; intros a carry Ha La Hc.
  { cbn [from_rows]. split; [lia|]. split; [exact Ha|]. split; [exact Hc|]. exists 0. rewrite Z.pow_0_r. lia. }
  cbn [from_rows]. assert (1 <= length n)%nat as Ln by (destruct n; [discriminate|cbn [length]; lia]).
  set (w := u64 (hd 0 a * bn_mont_n0 n)). assert (word_ok 64 w) as Hw by (apply wrap_range; lia).
  pose proof (bn_mul_add_words_spec a n (length n) w Ha Hn Hw ltac:(lia) ltac:(lia) Wn) as S. fold (width n) in S.
  destruct (bn_mul_add_words a n (width n) w) as [row c]. destruct S as (Lr & Wr & Hcw & V). rewrite (firstn_all n) in V.
  pose proof (row_head a n row c Ha Hn Wr On ltac:(lia) Lr V) as Er.
  replace (Z.to_nat (width n)) with (length n) by (unfold width; lia). set (hi := nth (length n) a 0).
  assert (word_ok 64 hi) as Hh by (apply (proj1 (Forall_nth (word_ok 64) a) Ha); lia).
  destruct (carry_word c carry hi Hcw Hc Hh) as (Hv & Hc' & Ec). cbv zeta.
  set (v := u64 (c + _)) in *. set (carry' := Z.land _ _) in *. clearbody v carry'.
  pose proof (split_at 0 (length n) a ltac:(lia)) as Sa. fold hi in Sa.
  set (rest := skipn (Datatypes.S (length n)) a) in *. set (mid := firstn (length n) a) in *.
  assert (length mid = length n) as Lm by (subst mid; rewrite length_firstn; lia).
  assert (length rest = rows) as Lrest by (subst rest; rewrite length_skipn; lia).
  assert (words_ok rest) as Wrest by (apply Forall_skipn', Ha). clearbody rest mid hi.
  assert (length row = Datatypes.S (length (tl row))) as Lt by (rewrite Er at 1; reflexivity).
  assert (bn_val row = B * bn_val (tl row)) as Vt by (rewrite Er at 1; cbn [bn_val]; lia).
  specialize (IH (tl row ++ v :: rest) carry'). destruct (from_rows rows _ n _ _ carry') as [r c'].
  destruct IH as (Lr' & Wr' & Hc'' & q & Hq & E); [apply Forall_app; split; [apply words_ok_tl, Wr|now constructor]|rewrite length_app; cbn [length]; lia|exact Hc'|].
  split; [exact Lr'|]. split; [exact Wr'|]. split; [exact Hc''|]. exists (w + B * q).
  rewrite Nat2Z.inj_succ, Z.pow_succ_r by lia. split; [unfold word_ok in Hw; fold B in Hw; nia|].
  rewrite Sa, bn_val_app in *. cbn [bn_val] in *. rewrite Lm in *. unfold width in *.
  replace (Z.of_nat (length n)) with (Z.succ (Z.of_nat (length (tl row)))) in * by lia. rewrite Z.pow_succ_r in * by lia.
  set (M := B ^ Z.of_nat (length (tl row))) in *. set (P := B ^ Z.of_nat rows) in *. clearbody M P.
  rewrite <- Z.mul_assoc, E. clear E. replace hi with (v + B * carry' - c - carry) by lia. nia.
Qed.

Lemma firstn_zeros k m : firstn k (repeat 0 m) = repeat 0 (Nat.min k m).
Proof. revert m. induction k as [|k IH]; intros [|m]; cbn [firstn repeat Nat.min]; [reflexivity..|now rewrite IH]. Qed.

Section Context.

Context (mont : BN_MONT_CTX) (OK : mont_ok mont).

#[local] Notation n := (N mont).
#[local] Notation R := (B ^ width n).

(** A number of the field: as many words as the modulus, less than it *)
Definition reduced (r : list Z) : Prop := length r = length n /\ words_ok r /\ bn_val r < bn_val n.

Lemma n_pos : 0 < bn_val n.
Proof.
  pose proof (bn_val_bound n (N_words _ OK)). pose proof (N_odd _ OK) as O. destruct (bn_val n); [discriminate|lia|lia].
Qed.

Lemma n_short : (1 <= length n <= 9)%nat.
Proof.
  pose proof (N_small _ OK) as S. unfold width, BN_SMALL_MAX_WORDS in S. pose proof (N_odd _ OK). destruct n; [discriminate|cbn [length] in *; lia].
Qed.

Lemma R_pos : 0 < R.
Proof. apply Z.pow_pos_nonneg; [reflexivity|apply Nat2Z.is_nonneg]. Qed.

Lemma in_place_spec a : words_ok a -> length a = (2 * length n)%nat -> bn_val a < bn_val n * R ->
  exists r, bn_from_montgomery_in_place (width n) a (u64 (2 * width n)) mont = Some r /\ reduced r /\
  (bn_val r * R) mod bn_val n = bn_val a mod bn_val n.
Proof.
  intros Ha La Lt. pose proof n_short as Sn. pose proof n_pos as Np. pose proof R_pos as Rp. unfold bn_from_montgomery_in_place. rewrite !Z.eqb_refl. cbn [negb orb].
  rewrite (n0_set _ OK). replace (Z.to_nat (width n)) with (length n) by (unfold width; lia).
  pose proof (from_rows_spec n (N_words _ OK) (N_odd _ OK) ltac:(lia) (length n) a 0 Ha ltac:(lia) ltac:(lia)) as S.
  destruct (from_rows _ _ _ _ _ _) as [r c]. destruct S as (Lr & Wr & Hc & q & Hq & E). fold (width n) in *. rewrite Z.mul_0_r, Z.add_0_r in E.
  assert (bn_val r + R * c < 2 * bn_val n) as Hlt by (apply (Z.mul_lt_mono_pos_l R); [exact Rp|rewrite E; nia]).
  pose proof (bn_reduce_once_spec r c n (length n) Wr (N_words _ OK) Lr eq_refl ltac:(lia) Hc Hlt) as D. fold (width n) in D.
  destruct (bn_reduce_once _ _ _ _) as [o m]. destruct D as (Lo & Wo & Vo & _). exists o. cbn [fst].
  split; [reflexivity|]. split; [split; [exact Lo|]; split; [exact Wo|]; rewrite Vo; apply Z.mod_pos_bound; exact Np|].
  rewrite Vo, Zmult_mod_idemp_l, Z.mul_comm, E. apply Z.mod_add. lia.
Qed.

Lemma from_small_spec a num_a : words_ok a -> num_a = Z.of_nat (length a) -> num_a <= 2 * width n -> bn_val a < bn_val n * R ->
  exists r, bn_from_montgomery_small (width n) a num_a mont = Some r /\ reduced r /\
  (bn_val r * R) mod bn_val n = bn_val a mod bn_val n.
Proof.
  intros Ha -> La Lt. pose proof n_short as Sn. unfold bn_from_montgomery_small. rewrite Z.eqb_refl.
  destruct (Z.ltb_spec BN_SMALL_MAX_WORDS (width n)) as [C|_]; [pose proof (N_small _ OK); lia|].
  rewrite (wrap_small 64) by (unfold word_ok, width; lia). destruct (Z.ltb_spec (2 * width n) (Z.of_nat (length a))) as [C|_]; [lia|]. cbn [negb orb].
  rewrite Nat2Z.id, firstn_all, firstn_app, firstn_all2 by (unfold width in *; lia). set (pad := firstn _ (repeat _ _)).
  assert (pad = repeat 0 (2 * length n - length a)) as ->.
  { subst pad. rewrite firstn_zeros. f_equal. unfold width, BN_SMALL_MAX_WORDS in *. lia. }
  assert (bn_val (a ++ repeat 0 (2 * length n - length a)) = bn_val a) as V by (rewrite bn_val_app, bn_val_zeros; lia).
  rewrite <- V. set (l := a ++ _) in *. pose proof (in_place_spec l) as Q. rewrite (wrap_small 64) in Q by (unfold word_ok, width; lia). apply Q; clear Q; subst l.
  - apply Forall_app. split; [exact Ha|]. apply Forall_forall. intros x Hx. apply repeat_spec in Hx as ->. split; [lia|reflexivity].
  - rewrite length_app, repeat_length. unfold width in La. lia.
  - now rewrite V.
Qed.

(** The product of two numbers of the field, one of them possibly [RR] *)
Lemma mul_mont_spec tmp same a b : words_ok tmp -> length tmp = 18%nat -> reduced a -> words_ok b -> length b = length n -> (same = true -> a = b) ->
  exists r, bn_mod_mul_montgomery_small tmp same a b (width n) mont = Some r /\ reduced r /\
  (bn_val r * R) mod bn_val n = (bn_val a * bn_val b) mod bn_val n.
Proof.
  intros Ht Lt (La & Wa & Va) Wb Lb Hs. pose proof n_short as Sn. pose proof (N_small _ OK) as Sm. pose proof (bn_val_bound b Wb) as Bb. pose proof (bn_val_bound a Wa) as Ba. rewrite Lb in Bb. fold (width n) in Bb.
  unfold bn_mod_mul_montgomery_small. rewrite Z.eqb_refl. destruct (Z.ltb_spec BN_SMALL_MAX_WORDS (width n)) as [C|_]; [lia|]. cbn [negb orb].
  assert (exists o, (if same then bn_sqr_small (firstn (Z.to_nat (2 * width n)) tmp) (u64 (2 * width n)) a (width n) else bn_mul_small (u64 (2 * width n)) a (width n) b (width n)) = Some o /\ product o a b) as (o & E & P).
  { rewrite wrap_small by (unfold word_ok, width; lia). destruct same.
    - rewrite (Hs eq_refl) in *. pose proof (bn_sqr_small_spec (firstn (Z.to_nat (2 * width n)) tmp) b (Forall_firstn' _ _ _ Ht) Wb) as Q.
      rewrite length_firstn, Nat.min_l, Lb in Q by (unfold width; lia). fold (width n) in Q.
      rewrite Z2Nat.id in Q by (unfold width; lia). apply Q; [unfold width; lia|exact Sm].
    - pose proof (bn_mul_small_spec a b Wa Wb) as Q. rewrite La, Lb in Q. fold (width n) in Q.
      replace (Z.of_nat (length n + length n)) with (2 * width n) in Q by (unfold width; lia). apply Q. unfold width. lia. }
  rewrite E. destruct P as (Wo & Lo & Vo). rewrite <- Vo. apply in_place_spec; [exact Wo|lia|]. rewrite Vo. apply Z.mul_lt_mono_nonneg; lia.
Qed.

(** *** Montgomery form *)

Lemma rel_prime_R : rel_prime R (bn_val n).
Proof.
  apply rel_prime_sym, rel_prime_Zpower_r; [apply Nat2Z.is_nonneg|]. unfold B. apply rel_prime_Zpower_r; [lia|].
  apply rel_prime_sym, bezout_rel_prime. pose proof (Z.div_mod (bn_val n) 2 ltac:(lia)) as D. rewrite Zmod_odd, (N_odd _ OK) in D.
  apply (Bezout_intro _ _ _ (- (bn_val n / 2)) 1). lia.
Qed.

Lemma cancel_R x y : (x * R) mod bn_val n = (y * R) mod bn_val n -> x mod bn_val n = y mod bn_val n.
Proof.
  pose proof n_pos as Np. intros E.
  assert ((bn_val n | R * (x - y))) as D.
  { apply Z.mod_divide; [lia|]. rewrite Z.mul_sub_distr_l, Zminus_mod, !(Z.mul_comm R), E, Z.sub_diag. apply Z.mod_0_l. lia. }
  apply Gauss in D; [|apply rel_prime_sym, rel_prime_R]. destruct D as [k Hk]. replace x with (y + k * bn_val n) by lia. apply Z.mod_add. lia.
Qed.

(** [r] holds [x] in Montgomery form. *)
Definition enc (x : Z) (r : list Z) : Prop := reduced r /\ bn_val r = (x * R) mod bn_val n.

Lemma reduced_unique r s : reduced r -> reduced s -> bn_val r mod bn_val n = bn_val s mod bn_val n -> r = s.
Proof.
  intros (Lr & Wr & Vr) (Ls & Ws & Vs) E. pose proof (bn_val_bound r Wr). pose proof (bn_val_bound s Ws).
  rewrite !Z.mod_small in E by lia. apply bn_val_inj; congruence.
Qed.

Lemma enc_exists r : reduced r -> exists x, enc x r.
Proof.
  intros Hr. pose proof n_pos as Np. destruct (rel_prime_bezout _ _ rel_prime_R) as [u v E]. exists (bn_val r * u). split; [exact Hr|].
  destruct Hr as (_ & W & V). pose proof (bn_val_bound r W). replace (bn_val r * u * R) with (bn_val r + (- (bn_val r * v)) * bn_val n) by nia.
  rewrite Z.mod_add by lia. symmetry. apply Z.mod_small. lia.
Qed.

Lemma enc_mul tmp same a b x y : words_ok tmp -> length tmp = 18%nat -> enc x a -> enc y b -> (same = true -> a = b) ->
  exists r, bn_mod_mul_montgomery_small tmp same a b (width n) mont = Some r /\ enc (x * y) r.
Proof.
  intros Ht Lt [Ha Ea] [Hb Eb] Hs. pose proof n_pos as Np. destruct Hb as (Lb & Wb & Vb).
  destruct (mul_mont_spec tmp same a b Ht Lt Ha Wb Lb Hs) as (r & E & Hr & V). exists r. split; [exact E|]. split; [exact Hr|].
  rewrite <- (Z.mod_small (bn_val r) (bn_val n)) by (destruct Hr as (_ & W & B); pose proof (bn_val_bound r W); lia).
  apply cancel_R. rewrite V, Ea, Eb, <- Z.mul_mod by lia. f_equal. lia.
Qed.

Lemma enc_one : exists r, bn_from_montgomery_small (width n) (RR mont) (width n) mont = Some r /\ enc 1 r.
Proof.
  pose proof n_pos as Np. pose proof R_pos as Rp. pose proof n_short as Sn. pose proof (RR_width _ OK) as Lr. pose proof (bn_val_bound _ (RR_words _ OK)) as Br.
  assert (bn_val (RR mont) < bn_val n) as Lt by (rewrite (RR_set _ OK); apply Z.mod_pos_bound, Np).
  destruct (from_small_spec (RR mont) (width n) (RR_words _ OK)) as (r & E & Hr & V); [unfold width; lia|unfold width; lia|nia|].
  exists r. split; [exact E|]. split; [exact Hr|].
  rewrite <- (Z.mod_small (bn_val r) (bn_val n)) by (destruct Hr as (_ & W & B); pose proof (bn_val_bound r W); lia).
  apply cancel_R. rewrite V, (RR_set _ OK), Zmod_mod. f_equal. lia.
Qed.

Lemma to_mont_spec tmp a : words_ok tmp -> length tmp = 18%nat -> reduced a ->
  exists r, bn_to_montgomery_small tmp a (width n) mont = Some r /\ enc (bn_val a) r.
Proof.
  intros Ht Lt Ha. pose proof n_pos as Np. destruct (mul_mont_spec tmp false a (RR mont) Ht Lt Ha (RR_words _ OK) (RR_width _ OK)) as (r & E & Hr & V); [discriminate|].
  exists r. split; [exact E|]. split; [exact Hr|].
  rewrite <- (Z.mod_small (bn_val r) (bn_val n)) by (destruct Hr as (_ & W & B); pose proof (bn_val_bound r W); lia).
  apply cancel_R. rewrite V, (RR_set _ OK), Zmult_mod_idemp_r. f_equal. lia.
Qed.

Lemma from_mont_spec a x : enc x a ->
  exists r, bn_from_montgomery_small (width n) a (width n) mont = Some r /\ reduced r /\ bn_val r = x mod bn_val n.
Proof.
  intros [(La & Wa & Va) Ea]. pose proof n_pos as Np. pose proof R_pos as Rp. pose proof n_short as Sn. pose proof (bn_val_bound _ Wa) as Ba.
  destruct (from_small_spec a (width n) Wa) as (r & E & Hr & V); [unfold width; lia|unfold width; lia|nia|]. exists r. split; [exact E|]. split; [exact Hr|].
  rewrite <- (Z.mod_small (bn_val r) (bn_val n)) by (destruct Hr as (_ & W & B); pose proof (bn_val_bound r W); lia).
  apply cancel_R. rewrite V, Ea, Zmod_mod. reflexivity.
Qed.

End Context.

(** ** The bits of the exponent *)

Lemma num_bits_step_spec s bits l : s = 1 \/ s = 2 \/ s = 4 \/ s = 8 \/ s = 16 \/ s = 32 -> word_ok 64 l -> l < 2 ^ (2 * s) ->
  num_bits_step s (bits, l) = if l <? 2 ^ s then (bits, l) else (bits + s, Z.shiftr l s).
Proof.
  intros Hs Hl L. unfold num_bits_step. assert (0 <= s <= 32 /\ 2 ^ s <= 2 ^ 32) as [S P] by (split; [lia|apply Z.pow_le_mono_r; lia]).
  assert (0 < 2 ^ s) as P0 by (apply Z.pow_pos_nonneg; lia). rewrite (Z.shiftr_div_pow2 l s) by lia. set (x := l / 2 ^ s).
  assert (0 <= x < 2 ^ 32) as Hx.
  { subst x. split; [apply Z.div_pos; unfold word_ok in Hl; lia|]. apply Z.div_lt_upper_bound; [lia|]. apply Z.lt_le_trans with (1 := L).
    replace (2 * s) with (s + s) by lia. rewrite Z.pow_add_r by lia. nia. }
  assert (M : u64 (0 - Z.shiftr (u64 (0 - x)) (BN_BITS2 - 1)) = mask 64 (negb (l <? 2 ^ s))).
  { assert ((x =? 0) = (l <? 2 ^ s)) as <-.
    { subst x. unfold word_ok in Hl. destruct (Z.ltb_spec l (2 ^ s)); [now rewrite Z.div_small by lia|]. apply Z.eqb_neq. assert (1 <= l / 2 ^ s); [apply Z.div_le_lower_bound; lia|lia]. }
    destruct (Z.eqb_spec x 0) as [->|N]; [reflexivity|]. cbn [negb mask].
    assert (u64 (0 - x) = 2 ^ 64 - x) as -> by (unfold wrap; symmetry; apply (Z.mod_unique _ _ (-1)); lia).
    change (BN_BITS2 - 1) with 63. rewrite Z.shiftr_div_pow2 by lia.
    assert ((2 ^ 64 - x) / 2 ^ 63 = 1) as -> by (symmetry; apply (Z.div_unique _ _ 1 (2 ^ 63 - x)); lia). reflexivity. }
  rewrite M. assert (word_ok 64 s) by (unfold word_ok; lia). assert (word_ok 64 (Z.lxor x l)) by (apply lxor_ok; unfold word_ok; lia || assumption).
  rewrite !(Z.land_comm _ (mask _ _)), !land_mask_word by (lia || assumption).
  destruct (l <? 2 ^ s); cbn [negb]; [now rewrite Z.add_0_r, Z.lxor_0_r|].
  rewrite (Z.lxor_comm x l), <- Z.lxor_assoc, Z.lxor_nilpotent, Z.lxor_0_l. reflexivity.
Qed.

Lemma num_bits_step_log s bits l : s = 1 \/ s = 2 \/ s = 4 \/ s = 8 \/ s = 16 \/ s = 32 -> word_ok 64 l -> 0 < l -> l < 2 ^ (2 * s) ->
  let (bits', l') := num_bits_step s (bits, l) in bits' + Z.log2 l' = bits + Z.log2 l /\ word_ok 64 l' /\ 0 < l' < 2 ^ s.
Proof.
  intros Hs Hl P L. assert (0 <= s) by lia. rewrite num_bits_step_spec by assumption. destruct (Z.ltb_spec l (2 ^ s)) as [C|C]; [split; [reflexivity|split; [exact Hl|lia]]|].
  assert (s <= Z.log2 l) by (now apply Z.log2_le_pow2). rewrite Z.log2_shiftr, Z.max_r by lia. split; [lia|].
  rewrite Z.shiftr_div_pow2 by lia. assert (0 < 2 ^ s) by (apply Z.pow_pos_nonneg; lia).
  assert (1 <= l / 2 ^ s) by (apply Z.div_le_lower_bound; lia). assert (l / 2 ^ s < 2 ^ s).
  { apply Z.div_lt_upper_bound; [lia|]. rewrite <- Z.pow_add_r by lia. now replace (s + s) with (2 * s) by lia. }
  split; [|lia]. unfold word_ok in *. split; [lia|]. apply Z.le_lt_trans with l; [|lia]. apply Z.div_le_upper_bound; nia.
Qed.

Lemma BN_num_bits_word_spec l : word_ok 64 l -> BN_num_bits_word l = if l =? 0 then 0 else Z.log2 l + 1.
Proof.
  intros Hl. destruct (Z.eqb_spec l 0) as [->|N]; [reflexivity|]. unfold BN_num_bits_word. rewrite (proj2 (Z.eqb_neq l 0) N). cbn [negb Z.b2z].
  assert (0 < l) as P by (unfold word_ok in Hl; lia). assert (l < 2 ^ (2 * 32)) as L by apply Hl.
  pose proof (num_bits_step_log 32 1 l ltac:(lia) Hl P L) as S. destruct (num_bits_step 32 _) as [b l1]. destruct S as (E1 & W1 & P1 & L1).
  pose proof (num_bits_step_log 16 b l1 ltac:(lia) W1 P1 L1) as S. destruct (num_bits_step 16 _) as [b2 l2]. destruct S as (E2 & W2 & P2 & L2).
  pose proof (num_bits_step_log 8 b2 l2 ltac:(lia) W2 P2 L2) as S. destruct (num_bits_step 8 _) as [b3 l3]. destruct S as (E3 & W3 & P3 & L3).
  pose proof (num_bits_step_log 4 b3 l3 ltac:(lia) W3 P3 L3) as S. destruct (num_bits_step 4 _) as [b4 l4]. destruct S as (E4 & W4 & P4 & L4).
  pose proof (num_bits_step_log 2 b4 l4 ltac:(lia) W4 P4 L4) as S. destruct (num_bits_step 2 _) as [b5 l5]. destruct S as (E5 & W5 & P5 & L5).
  pose proof (num_bits_step_log 1 b5 l5 ltac:(lia) W5 P5 L5) as S. destruct (num_bits_step 1 _) as [b6 l6]. destruct S as (E6 & W6 & P6 & L6).
  cbn [fst]. assert (l6 = 1) as -> by (change (2 ^ 1) with 2 in L6; lia). change (Z.log2 1) with 0 in E6. lia.
Qed.

(** The words of an array are the bits of its value. *)
Lemma bn_is_bit_set_words_spec p bit : words_ok p -> 0 <= bit ->
  bn_is_bit_set_words p (width p) bit = Z.b2z (Z.testbit (bn_val p) bit).
Proof.
  unfold bn_is_bit_set_words, width, BN_BITS2. intros Hp Hb. revert bit Hb. induction Hp as [|x p Hx Hp IH]; intros bit Hb; cbn [length bn_val].
  - rewrite Z.testbit_0_l. destruct (Z.leb_spec (Z.of_nat 0) (bit / 64)); [reflexivity|]. pose proof (Z.div_pos bit 64). lia.
  - assert (A : x + B * bn_val p = Z.lor (Z.shiftl (bn_val p) 64) x) by (rewrite shiftl_lor_add; [unfold B; lia|lia|exact Hx]).
    rewrite A, Z.lor_spec, Z.shiftl_spec by lia. destruct (Z.lt_ge_cases bit 64) as [C|C].
    + rewrite Z.div_small, Z.mod_small by lia. destruct (Z.leb_spec (Z.of_nat (S (length p))) 0); [lia|]. cbn [Z.to_nat nth].
      rewrite (Z.testbit_neg_r _ (bit - 64)) by lia. cbn [orb]. change 1 with (2 ^ 1 - 1). rewrite land_mask, Z.testbit_spec' by lia. now rewrite Z.shiftr_div_pow2 by lia.
    + rewrite <- (wrap_small 64 x) at 2 by exact Hx. unfold wrap. rewrite Z.mod_pow2_bits_high, orb_false_r, <- IH by lia.
      set (b := bit - 64) in *. replace bit with (b + 1 * 64) by lia. rewrite Z.div_add, Z.mod_add by lia.
      pose proof (Z.div_pos b 64 ltac:(lia) ltac:(lia)). set (i := b / 64) in *. clearbody i.
      replace (Z.to_nat (i + 1)) with (S (Z.to_nat i)) by lia. cbn [nth].
      destruct (Z.leb_spec (Z.of_nat (S (length p))) (i + 1)), (Z.leb_spec (Z.of_nat (length p)) i); try lia; reflexivity.
Qed.

(** ** Sliding windows *)

Lemma shiftr_bit P k : 0 <= k -> Z.shiftr P k = 2 * Z.shiftr P (k + 1) + Z.b2z (Z.testbit P k).
Proof.
  intros Hk. rewrite <- (Z.shiftr_shiftr P k 1), Z.testbit_spec', <- Z.shiftr_div_pow2, (Z.shiftr_div_pow2 _ 1) by lia.
  change (2 ^ 1) with 2. pose proof (Z.div_mod (Z.shiftr P k) 2 ltac:(lia)). lia.
Qed.

Section Window.

Context (p : list Z) (num_p P : Z) (HP : 0 <= P) (bit_set : forall bit, 0 <= bit -> bn_is_bit_set_words p num_p bit = Z.b2z (Z.testbit P bit)).

(** [v] is the window of [s + 1] bits that starts at [wstart] and ends on a set bit. *)
Definition window_of (wstart v s : Z) : Prop :=
  0 <= s /\ Z.odd v = true /\ 0 < v < 2 ^ (s + 1) /\ Z.shiftr P (wstart - s) = v + 2 ^ (s + 1) * Z.shiftr P (wstart + 1).

Lemma scan_window_spec window wstart : window <= 5 -> forall fuel i v s, s < i -> 1 <= i <= wstart + 1 -> s < window -> window_of wstart v s ->
  Z.shiftr P (wstart - (i - 1)) = Z.shiftr P (wstart - s) * 2 ^ (i - 1 - s) ->
  let (v', s') := scan_window fuel p num_p window wstart i v s in window_of wstart v' s' /\ s' <= wstart /\ s' < window.
Proof.
  intros Hw. induction fuel as [|fuel IH]; intros i v s Hs Hi Sw W Z0; cbn [scan_window]; [repeat split; [apply W..|lia|lia]|].
  destruct (Z.ltb_spec i window) as [Iw|Iw], (Z.leb_spec i wstart) as [Is|Is]; cbn [andb]; try (split; [exact W|lia]).
  rewrite bit_set by lia. pose proof (shiftr_bit P (wstart - i) ltac:(lia)) as Sb. replace (wstart - i + 1) with (wstart - (i - 1)) in Sb by lia. rewrite Z0 in Sb.
  replace (i - s) with (Z.succ (i - 1 - s)) in * by lia. destruct W as (S0 & Ov & Bv & Wv). assert (2 ^ (i - s) = 2 * 2 ^ (i - 1 - s)) as E2 by (rewrite <- Z.pow_succ_r by lia; f_equal; lia).
  destruct (Z.testbit P (wstart - i)); cbn [Z.b2z] in *.
  - cbn [Z.eqb negb]. assert (2 ^ (i + 1) = 2 ^ (i - s) * 2 ^ (s + 1)) as E3 by (rewrite <- Z.pow_add_r by lia; f_equal; lia).
    assert (2 ^ (i + 1) <= 2 ^ 5) by (apply Z.pow_le_mono_r; lia). assert (0 < 2 ^ (i - 1 - s)) by (apply Z.pow_pos_nonneg; lia).
    assert (v * 2 ^ (i - s) + 1 < 2 ^ (i + 1)) as Bv' by (rewrite E3; nia).
    replace (Z.succ (i - 1 - s)) with (i - s) by lia. rewrite Z.shiftl_mul_pow2, wrap_small, <- Z.shiftl_mul_pow2, shiftl_lor_add by (unfold word_ok; lia).
    apply IH; [lia|lia|lia| |].
    + split; [lia|]. split; [rewrite Z.odd_add, Z.odd_mul, E2, Z.odd_mul; now destruct (Z.odd v)|]. split; [nia|].
      rewrite Sb, Wv, E2, E3, E2. ring.
    + replace (i + 1 - 1) with i by lia. rewrite Z.sub_diag. cbn. lia.
  - cbn [Z.eqb negb]. apply IH; [lia|lia|lia|now repeat split|]. replace (i + 1 - 1) with i by lia. rewrite Sb, E2. ring.
Qed.

Lemma first_window wstart : 0 <= wstart -> Z.testbit P wstart = true -> window_of wstart 1 0.
Proof.
  intros Hw T. split; [lia|]. split; [reflexivity|]. split; [lia|]. rewrite Z.sub_0_r, (shiftr_bit P wstart), T by lia. cbn [Z.b2z]. change (2 ^ (0 + 1)) with 2. lia.
Qed.

Context (mont : BN_MONT_CTX) (OK : mont_ok mont) (tmp : list Z) (Ht : words_ok tmp) (Lt : length tmp = 18%nat) (g : Z).

#[local] Notation n := (N mont).
#[local] Notation power e := (enc mont (g ^ e)).

Lemma power_mul same a b e f : 0 <= e -> 0 <= f -> power e a -> power f b -> (same = true -> a = b) ->
  exists r, bn_mod_mul_montgomery_small tmp same a b (width n) mont = Some r /\ power (e + f) r.
Proof. intros He Hf Ha Hb Hs. rewrite Z.pow_add_r by assumption. now apply enc_mul. Qed.

Lemma square_times_spec t : forall e a, 0 <= e -> power e a -> exists r, square_times tmp (width n) mont t a = Some r /\ power (2 ^ Z.of_nat t * e) r.
Proof.
  induction t as [|t IH]; intros e a He Ha; cbn [square_times]; [exists a; split; [reflexivity|]; now rewrite Z.mul_1_l|].
  destruct (power_mul true a a e e He He Ha Ha (fun _ => eq_refl)) as (r & -> & Hr). destruct (IH (e + e) r ltac:(lia) Hr) as (r' & E & Hr'). exists r'. split; [exact E|].
  replace (2 ^ Z.of_nat (S t) * e) with (2 ^ Z.of_nat t * (e + e)); [exact Hr'|]. rewrite Nat2Z.inj_succ, Z.pow_succ_r by lia. lia.
Qed.

Lemma fill_table_spec d : power 2 d -> forall k last e, 0 <= e -> power e last ->
  exists val, fill_table tmp (width n) mont k last d = Some val /\ length val = k /\ forall i, (i < k)%nat -> power (e + 2 * Z.of_nat (S i)) (nth i val []).
Proof.
  intros Hd. induction k as [|k IH]; intros last e He Hl; cbn [fill_table]; [exists []; split; [reflexivity|]; split; [reflexivity|]; intros; lia|].
  destruct (power_mul false last d e 2 He ltac:(lia) Hl Hd ltac:(discriminate)) as (v & -> & Hv). destruct (IH v (e + 2) ltac:(lia) Hv) as (val & -> & L & T).
  exists (v :: val). split; [reflexivity|]. split; [cbn [length]; lia|]. intros [|i] Hi; cbn [nth]; [exact Hv|].
  replace (e + 2 * Z.of_nat (S (S i))) with (e + 2 + 2 * Z.of_nat (S i)) by lia. apply T. lia.
Qed.

(** *** The loop over the exponent *)

Definition table (window : Z) (val : list (list Z)) : Prop := forall v, 0 < v < 2 ^ window -> Z.odd v = true -> power v (nth (Z.to_nat (Z.shiftr v 1)) val []).

(** While [r_is_one] the bits seen are zeros. *)
Definition so_far (wstart : Z) (r : option (list Z)) : Prop :=
  match r with None => Z.shiftr P (wstart + 1) = 0 | Some x => power (Z.shiftr P (wstart + 1)) x end.

Lemma exp_loop_spec window val : 0 < P -> 1 <= window <= 5 -> table window val -> forall fuel wstart r, 0 <= wstart < Z.of_nat fuel -> so_far wstart r ->
  exists x, exp_loop tmp (width n) mont fuel p num_p window wstart val r = Some x /\ power P x.
Proof.
  intros P0 Hw T. assert (Sp : forall k, 0 <= Z.shiftr P k) by (intros k; apply Z.shiftr_nonneg, HP).
  induction fuel as [|fuel IH]; intros wstart r Hs I; [lia|]. cbn [exp_loop]. rewrite bit_set by lia. pose proof (shiftr_bit P wstart ltac:(lia)) as Sb.
  destruct (Z.testbit P wstart) eqn:Bt; cbn [Z.b2z Z.eqb] in *.
  - pose proof (scan_window_spec window wstart ltac:(lia) (Z.to_nat window) 1 1 0 ltac:(lia) ltac:(lia) ltac:(lia) (first_window wstart ltac:(lia) Bt) ltac:(change (1 - 1 - 0) with 0; change (1 - 1) with 0; now rewrite Z.pow_0_r, Z.mul_1_r)) as S.
    destruct (scan_window _ _ _ _ _ _ _ _) as [v s]. destruct S as ((S0 & Ov & Bv & Wv) & Sw & Sl).
    assert (power v (nth (Z.to_nat (Z.shiftr v 1)) val [])) as Hv.
    { apply T; [|exact Ov]. split; [lia|]. apply Z.lt_le_trans with (1 := proj2 Bv). apply Z.pow_le_mono_r; lia. }
    set (entry := nth _ val []) in *. clearbody entry.
    assert (exists x, match r with None => Some entry | Some x => match square_times tmp (width n) mont (Z.to_nat (s + 1)) x with Some x => bn_mod_mul_montgomery_small tmp false x entry (width n) mont | None => None end end = Some x /\ power (Z.shiftr P (wstart - s)) x) as (x & -> & Hx).
    { rewrite Wv. destruct r as [x|]; cbn [so_far] in I; [|exists entry; split; [reflexivity|]; rewrite I, Z.mul_0_r, Z.add_0_r; exact Hv].
      destruct (square_times_spec (Z.to_nat (s + 1)) _ x (Sp _) I) as (y & -> & Hy). rewrite Z2Nat.id in Hy by lia.
      rewrite Z.add_comm. apply power_mul; [apply Z.mul_nonneg_nonneg; [apply Z.pow_nonneg; lia|apply Sp]|lia|exact Hy|exact Hv|discriminate]. }
    destruct (Z.eqb_spec wstart s) as [->|N0]; [exists x; split; [reflexivity|]; now rewrite Z.sub_diag, Z.shiftr_0_r in Hx|].
    apply IH; [lia|]. cbn [so_far]. now replace (wstart - (s + 1) + 1) with (wstart - s) by lia.
  - rewrite Z.add_0_r in Sb. destruct r as [x|]; cbn [so_far] in I.
    + destruct (square_times_spec 1 _ x (Sp _) I) as (y & -> & Hy). change (2 ^ Z.of_nat 1) with 2 in Hy. rewrite <- Sb in Hy.
      destruct (Z.eqb_spec wstart 0) as [->|N0]; [exists y; split; [reflexivity|]; now rewrite Z.shiftr_0_r in Hy|].
      apply IH; [lia|]. cbn [so_far]. now replace (wstart - 1 + 1) with wstart by lia.
    + destruct (Z.eqb_spec wstart 0) as [->|N0]; [rewrite Z.shiftr_0_r in Sb; lia|].
      apply IH; [lia|]. cbn [so_far]. replace (wstart - 1 + 1) with wstart by lia. lia.
Qed.

Lemma table_spec window a : 1 < window -> power 1 a ->
  exists d val, bn_mod_mul_montgomery_small tmp true a a (width n) mont = Some d /\
    fill_table tmp (width n) mont (Z.to_nat (2 ^ (window - 1) - 1)) a d = Some val /\ table window (a :: val).
Proof.
  intros Hw Ha. destruct (power_mul true a a 1 1 ltac:(lia) ltac:(lia) Ha Ha (fun _ => eq_refl)) as (d & E & Hd).
  destruct (fill_table_spec d Hd (Z.to_nat (2 ^ (window - 1) - 1)) a 1 ltac:(lia) Ha) as (val & F & L & T). exists d, val. split; [exact E|]. split; [exact F|].
  intros v Bv Ov. assert (v = 2 * Z.shiftr v 1 + 1) as Ev.
  { rewrite Z.shiftr_div_pow2 by lia. change (2 ^ 1) with 2. pose proof (Z.div_mod v 2 ltac:(lia)) as D. rewrite Zmod_odd, Ov in D. exact D. }
  set (h := Z.shiftr v 1) in *. clearbody h. replace window with (Z.succ (window - 1)) in Bv by lia. rewrite Z.pow_succ_r in Bv by lia.
  destruct (Z.to_nat h) as [|i] eqn:Ei; cbn [nth]; [replace v with 1 by lia; exact Ha|].
  replace v with (1 + 2 * Z.of_nat (S i)) by lia. apply T. lia.
Qed.

End Window.

(** ** The exponentiation *)

Lemma bn_val_firstn_last p k : (1 <= k <= length p)%nat -> bn_val (firstn k p) = bn_val (firstn (k - 1) p) + B ^ Z.of_nat (k - 1) * nth (k - 1) p 0.
Proof.
  intros Hk. assert (firstn k p = firstn (k - 1) p ++ [nth (k - 1) p 0]) as ->.
  { destruct k as [|k]; [lia|]. replace (S k - 1)%nat with k by lia. rewrite (split_at 0 k p) at 1 by lia.
    rewrite firstn_app, length_firstn, Nat.min_l, firstn_all2 by (rewrite ?length_firstn; lia). replace (S k - k)%nat with 1%nat by lia. reflexivity. }
  rewrite bn_val_app, length_firstn, Nat.min_l by lia. cbn [bn_val]. lia.
Qed.

Lemma skip_high_zeros_spec fuel : forall p k, words_ok p -> (k <= fuel)%nat -> (k <= length p)%nat ->
  exists k', skip_high_zeros fuel p (Z.of_nat k) = Z.of_nat k' /\ (k' <= k)%nat /\ bn_val (firstn k' p) = bn_val (firstn k p) /\
  (k' = O \/ nth (k' - 1) p 0 <> 0).
Proof.
  induction fuel as [|fuel IH]; intros p k Hp Hf Hk; cbn [skip_high_zeros]; [exists k; repeat split; lia|].
  destruct (Z.eqb_spec (Z.of_nat k) 0) as [E|E]; cbn [negb andb]; [exists k; repeat split; lia|].
  replace (Z.to_nat (Z.of_nat k - 1)) with (k - 1)%nat by lia. destruct (Z.eqb_spec (nth (k - 1) p 0) 0) as [Z0|Z0]; [|exists k; repeat split; [lia|now right]].
  replace (Z.of_nat k - 1) with (Z.of_nat (k - 1)) by lia. destruct (IH p (k - 1)%nat Hp ltac:(lia) ltac:(lia)) as (k' & -> & L & V & D). exists k'. split; [reflexivity|]. split; [lia|]. split; [|exact D].
  rewrite V. rewrite (bn_val_firstn_last p k) by lia. rewrite Z0. lia.
Qed.

Lemma bits_bound p k : words_ok p -> (1 <= k <= length p)%nat -> Z.of_nat k < 2 ^ 24 -> nth (k - 1) p 0 <> 0 ->
  let bits := BN_num_bits_word (nth (k - 1) p 0) + (Z.of_nat k - 1) * BN_BITS2 in
  0 < bits < 2 ^ 31 /\ bn_val (firstn k p) < 2 ^ bits.
Proof.
  intros Hp Hk S N0. cbv zeta. set (t := nth (k - 1) p 0) in *. assert (word_ok 64 t) as Ht by (apply (proj1 (Forall_nth (word_ok 64) p) Hp); lia).
  rewrite BN_num_bits_word_spec, (proj2 (Z.eqb_neq t 0) N0) by exact Ht. assert (0 < t) by (unfold word_ok in Ht; lia). unfold BN_BITS2.
  pose proof (Z.log2_nonneg t). assert (Z.log2 t < 64) by (apply log2_word; [lia|exact Ht]). split; [lia|].
  rewrite Z.pow_add_r by lia. rewrite (Z.mul_comm (Z.of_nat k - 1)), Z.pow_mul_r by lia. fold B.
  assert (bn_val (firstn k p) = bn_val (firstn (k - 1) p) + B ^ (Z.of_nat k - 1) * t) as ->.
  { rewrite bn_val_firstn_last by lia. replace (Z.of_nat (k - 1)) with (Z.of_nat k - 1) by lia. reflexivity. }
  pose proof (bn_val_bound _ (Forall_firstn' _ (k - 1) _ Hp)) as Bl. rewrite length_firstn, Nat.min_l in Bl by lia. replace (Z.of_nat (k - 1)) with (Z.of_nat k - 1) in Bl by lia.
  pose proof (Z.log2_spec t ltac:(lia)) as [_ L]. replace (Z.log2 t + 1) with (Z.succ (Z.log2 t)) by lia. set (M := B ^ (Z.of_nat k - 1)) in *. nia.
Qed.

Lemma bit_set_firstn p k : words_ok p -> (k <= length p)%nat -> forall bit, 0 <= bit ->
  bn_is_bit_set_words p (Z.of_nat k) bit = Z.b2z (Z.testbit (bn_val (firstn k p)) bit).
Proof.
  intros Hp Hk bit Hb. rewrite <- bn_is_bit_set_words_spec by (assumption || now apply Forall_firstn'). unfold bn_is_bit_set_words, width.
  rewrite length_firstn, Nat.min_l by exact Hk. destruct (Z.leb_spec (Z.of_nat k) (bit / BN_BITS2)) as [L|L]; [reflexivity|].
  rewrite nth_firstn. pose proof (Z.div_pos bit BN_BITS2 Hb eq_refl). destruct (Nat.ltb_spec (Z.to_nat (bit / BN_BITS2)) k); [reflexivity|lia].
Qed.

Lemma mod_exp_spec mont tmp a p x : mont_ok mont -> words_ok tmp -> length tmp = 18%nat -> words_ok p -> width p < 2 ^ 24 -> enc mont x a ->
  exists r, bn_mod_exp_mont_small tmp (width (N mont)) mont a p (width p) = Some r /\ enc mont (x ^ bn_val p) r.
Proof.
  intros OK Ht Lt Hp Lp Ha. unfold bn_mod_exp_mont_small. rewrite Z.eqb_refl. destruct (Z.ltb_spec BN_SMALL_MAX_WORDS (width (N mont))) as [C|_]; [pose proof (N_small _ OK); lia|]. cbn [negb orb].
  unfold width in Lp. destruct (skip_high_zeros_spec (Z.to_nat (width p)) p (length p) Hp ltac:(unfold width; lia) ltac:(lia)) as (k & Ek & Lk & Vk & Dk). fold (width p) in Ek. rewrite Ek. rewrite firstn_all in Vk.
  destruct (Z.eqb_spec (Z.of_nat k) 0) as [Z0|Z0].
  { assert (k = O) as -> by lia. rewrite <- Vk. cbn [firstn bn_val]. rewrite Z.pow_0_r. now apply enc_one. }
  destruct Dk as [->|Dk]; [lia|]. destruct (bits_bound p k Hp ltac:(lia) ltac:(lia) Dk) as [Bb Pb]. rewrite Vk in Pb. replace (Z.to_nat (Z.of_nat k - 1)) with (k - 1)%nat by lia.
  set (bits := BN_num_bits_word _ + _) in *. clearbody bits. rewrite wrap_small by (unfold word_ok; lia).
  assert (0 < bn_val p) as P0.
  { rewrite <- Vk, bn_val_firstn_last by lia. pose proof (bn_val_bound _ (Forall_firstn' _ (k - 1) _ Hp)). assert (word_ok 64 (nth (k - 1) p 0)) as W by (apply (proj1 (Forall_nth (word_ok 64) p) Hp); lia).
    assert (0 < B ^ Z.of_nat (k - 1)) by (apply B_pos; lia). unfold word_ok in W. nia. }
  set (window := if TABLE_BITS_SMALL <? BN_window_bits_for_exponent_size (sint 32 bits) then TABLE_BITS_SMALL else BN_window_bits_for_exponent_size (sint 32 bits)). assert (1 <= window <= 5) as Hw.
  { subst window. unfold BN_window_bits_for_exponent_size. set (b := sint 32 bits). destruct (671 <? b), (239 <? b), (79 <? b), (23 <? b); vm_compute; split; discriminate. }
  clearbody window. assert (enc mont (x ^ 1) a) as Ha1 by (now rewrite Z.pow_1_r).
  pose proof (exp_loop_spec p (Z.of_nat k) (bn_val p) ltac:(lia) ltac:(rewrite <- Vk; apply bit_set_firstn; [exact Hp|lia]) mont OK tmp Ht Lt x window) as Q.
  assert (so_far (bn_val p) mont x (bits - 1) None) as I.
  { cbn [so_far]. replace (bits - 1 + 1) with bits by lia. rewrite Z.shiftr_div_pow2 by lia. apply Z.div_small. lia. }
  destruct (Z.ltb_spec 1 window) as [W1|W1].
  - destruct (table_spec mont OK tmp Ht Lt x window a W1 Ha1) as (d & val & -> & -> & T). cbn [option_map]. apply (Q (a :: val)); [exact P0|exact Hw|exact T|lia|exact I].
  - apply (Q [a]); [exact P0|exact Hw| |lia|exact I]. intros v Bv Ov. replace window with 1 in Bv by lia. assert (v = 1) as -> by lia. exact Ha1.
Qed.

(** C35: [bn_mod_exp_mont_small] computes modular powers.  For every odd modulus
    of at most nine words with the context [BN_MONT_CTX_set] gives it, every
    number [a] less than it and every exponent [p] (zero, or with leading zero
    words, included): converting [a] to Montgomery form, raising it with
    sliding windows and converting the result back succeeds, whatever the
    uninitialised buffers hold, and gives [a ^ p] modulo the modulus, fully
    reduced. *)
Theorem bn_mod_exp_mont_small_correct (mont : BN_MONT_CTX) (tmp a p : list Z) (OK : mont_ok mont)
  (Ht : words_ok tmp) (Lt : length tmp = 18%nat) (Ha : reduced mont a) (Hp : words_ok p) (Lp : width p < 2 ^ 24) :
  let num := width (N mont) in
  exists m r o,
    bn_to_montgomery_small tmp a num mont = Some m /\
    bn_mod_exp_mont_small tmp num mont m p (width p) = Some r /\
    bn_from_montgomery_small num r num mont = Some o /\
    reduced mont o /\ bn_val o = bn_val a ^ bn_val p mod bn_val (N mont).
Proof.
  cbv zeta. destruct (to_mont_spec mont OK tmp a Ht Lt Ha) as (m & E & Em). destruct (mod_exp_spec mont tmp m p _ OK Ht Lt Hp Lp Em) as (r & F & Er).
  destruct (from_mont_spec mont OK r _ Er) as (o & G & Ho & V). exists m, r, o.
  split; [exact E|]. split; [exact F|]. split; [exact G|]. split; [exact Ho|exact V].
Qed.

(** The Mersenne prime [2^89 - 1] has two words. *)
Definition mersenne89 : BN_MONT_CTX := mk_mont [0; 2 ^ 14] [2 ^ 64 - 1; 2 ^ 25 - 1] 1.

(** A Fermat prime *)
Definition fermat17 : BN_MONT_CTX := mk_mont [1] [17] (bn_mont_n0 [17]).

Lemma mersenne89_ok : mont_ok mersenne89.
Proof. split; try reflexivity; try discriminate; repeat constructor; discriminate. Qed.

Lemma fermat17_ok : mont_ok fermat17.
Proof. split; try reflexivity; try discriminate; repeat constructor; discriminate. Qed.

Lemma bn_mod_exp_mont_small_correct_witness :
  exists m r o,
    bn_to_montgomery_small (repeat 7 18) [5; 3] 2 mersenne89 = Some m /\
    bn_mod_exp_mont_small (repeat 7 18) 2 mersenne89 m [1; 77; 0] 3 = Some r /\
    bn_from_montgomery_small 2 r 2 mersenne89 = Some o /\
    reduced mersenne89 o /\ bn_val o = bn_val [5; 3] ^ bn_val [1; 77; 0] mod bn_val (N mersenne89).
Proof.
  apply (bn_mod_exp_mont_small_correct mersenne89 (repeat 7 18) [5; 3] [1; 77; 0]).
  - exact mersenne89_ok.
  - repeat constructor; discriminate.
  - reflexivity.
  - split; [reflexivity|]. split; [repeat constructor; discriminate|reflexivity].
  - repeat constructor; discriminate.
  - reflexivity.
Defined.

(** ** The inverse modulo a prime *)

Lemma borrow_words_spec l : words_ok l -> 1 <= bn_val l -> words_ok (borrow_words l) /\ length (borrow_words l) = length l /\ bn_val (borrow_words l) = bn_val l - 1.
Proof.
  induction 1 as [|x l Hx Hl IH]; cbn [bn_val borrow_words length]; intros P; [lia|]. unfold word_ok in Hx. fold B in Hx.
  destruct (Z.eqb_spec x 0) as [->|N0]; cbn [negb length bn_val].
  - destruct IH as (W & L & V); [unfold B in *; lia|]. split; [constructor; [split; [discriminate|reflexivity]|exact W]|]. split; [now rewrite L|]. rewrite V. change (u64 (0 - 1)) with (B - 1). lia.
  - rewrite wrap_small by (unfold word_ok, B in *; lia). split; [constructor; [unfold word_ok, B in *; lia|exact Hl]|]. split; [reflexivity|lia].
Qed.

Lemma minus_two_spec l : words_ok l -> 2 <= bn_val l -> words_ok (minus_two l) /\ length (minus_two l) = length l /\ bn_val (minus_two l) = bn_val l - 2.
Proof.
  destruct 1 as [|x l Hx Hl]; cbn [bn_val minus_two length]; intros P; [lia|]. pose proof Hx as Hx'. unfold word_ok in Hx. fold B in Hx.
  destruct (Z.leb_spec 2 x) as [C|C]; cbn [length bn_val].
  - rewrite wrap_small by (unfold word_ok, B in *; lia). split; [constructor; [unfold word_ok, B in *; lia|exact Hl]|]. split; [reflexivity|lia].
  - destruct (borrow_words_spec l Hl) as (W & L & V); [unfold B in *; lia|]. rewrite L, V.
    assert (u64 (x - 2) = x - 2 + B) as -> by (assert (x = 0 \/ x = 1) as [-> | ->] by lia; reflexivity).
    split; [constructor; [unfold word_ok, B in *; lia|exact W]|]. split; [reflexivity|lia].
Qed.

(** [bn_mod_inverse0_prime_mont_small] inverts modulo a prime, by Fermat's
    little theorem: for every odd prime of at most nine words and every number
    [a] that is not zero, converting [a] to Montgomery form, inverting and
    converting back succeeds and gives the reduced number [o] with
    [a * o = 1] modulo the prime. *)
Theorem bn_mod_inverse0_prime_mont_small_correct (mont : BN_MONT_CTX) (tmp a : list Z) (OK : mont_ok mont) (Pr : Z.prime (bn_val (N mont)))
  (Ht : words_ok tmp) (Lt : length tmp = 18%nat) (Ha : reduced mont a) (Na : bn_val a <> 0) :
  let num := width (N mont) in
  exists m r o,
    bn_to_montgomery_small tmp a num mont = Some m /\
    bn_mod_inverse0_prime_mont_small tmp num mont m = Some r /\
    bn_from_montgomery_small num r num mont = Some o /\
    reduced mont o /\ (bn_val a * bn_val o) mod bn_val (N mont) = 1.
Proof.
  cbv zeta. pose proof (Z.prime_ge_2 _ Pr) as P2. destruct (to_mont_spec mont OK tmp a Ht Lt Ha) as (m & E & Em).
  unfold bn_mod_inverse0_prime_mont_small. rewrite Z.eqb_refl. destruct (Z.ltb_spec BN_SMALL_MAX_WORDS (width (N mont))) as [C|_]; [pose proof (N_small _ OK); lia|]. cbn [negb orb].
  replace (firstn (Z.to_nat (width (N mont))) (N mont)) with (N mont) by (unfold width; now rewrite Nat2Z.id, firstn_all).
  destruct (minus_two_spec (N mont) (N_words _ OK) P2) as (W & L & V). pose proof (n_short mont OK).
  destruct (mod_exp_spec mont tmp m (minus_two (N mont)) _ OK Ht Lt W ltac:(unfold width; lia) Em) as (r & F & Er). unfold width in F at 2. rewrite L in F. fold (width (N mont)) in F.
  destruct (from_mont_spec mont OK r _ Er) as (o & G & Ho & Vo). exists m, r, o. split; [exact E|]. split; [exact F|]. split; [exact G|]. split; [exact Ho|].
  rewrite Vo, V, Zmult_mod_idemp_r, <- Z.pow_succ_r by lia. replace (Z.succ (bn_val (N mont) - 2)) with (bn_val (N mont) - 1) by lia.
  apply ZmodInv.Z.fermat_nz; [exact Pr|]. destruct Ha as (_ & Wa & Va). pose proof (bn_val_bound a Wa). rewrite Z.mod_small; lia.
Qed.

Lemma prime17 : Z.prime 17.
Proof.
  apply prime_alt, prime_intro; [reflexivity|]. intros k Hk. apply rel_prime_iff_coprime.
  assert (k = 1 \/ k = 2 \/ k = 3 \/ k = 4 \/ k = 5 \/ k = 6 \/ k = 7 \/ k = 8 \/ k = 9 \/ k = 10 \/ k = 11 \/ k = 12 \/ k = 13 \/ k = 14 \/ k = 15 \/ k = 16) as D by lia.
  repeat (destruct D as [->|D]; [reflexivity|]). subst k. reflexivity.
Qed.

Lemma bn_mod_inverse0_prime_mont_small_correct_witness :
  exists m r o,
    bn_to_montgomery_small (repeat 7 18) [5] 1 fermat17 = Some m /\
    bn_mod_inverse0_prime_mont_small (repeat 7 18) 1 fermat17 m = Some r /\
    bn_from_montgomery_small 1 r 1 fermat17 = Some o /\
    reduced fermat17 o /\ (bn_val [5] * bn_val o) mod bn_val (N fermat17) = 1.
Proof.
  apply (bn_mod_inverse0_prime_mont_small_correct fermat17 (repeat 7 18) [5]).
  - exact fermat17_ok.
  - exact prime17.
  - repeat constructor; discriminate.
  - reflexivity.
  - split; [reflexivity|]. split; [repeat constructor; discriminate|reflexivity].
  - discriminate.
Defined.
