(* ===== verification/Bignum.v ===== *)
(** * Big numbers

    BoringSSL's [BIGNUM] ([fipsmodule/bn/bn.c], [cmp.c], [add.c], [bytes.c],
    [shift.c], parts of [div.c], [montgomery.c] and [montgomery_inv.c]).  A
    number is its words in use, the words allocated for it, its sign and
    whether its words are static data.  A function that returns 0 or [NULL]
    gives [None]; one that changes its argument gives the changed number.  The
    result [r] may be one of the arguments: only its allocation is used, for
    every loop reads the word it is about to write first.  [malloc] is a
    parameter; a [BN_CTX] gives the scratch numbers that are arguments here. *)

From Stdlib Require Import ZArith Lia ZifyBool List Bool.
From S2P Require Import Prelude ConstTime Mem BnWords BnMont.
Import ListNotations.

(** ** Definitions *)

Record BIGNUM := mk_bn { d : list Z; dmax : Z; neg : bool; static_data : bool }.

#[local] Notation "'let*' x := m 'in' k" := (match m with Some x => k | None => None end) (at level 200, x name, m at level 100, k at level 200).

Definition bn_width (bn : BIGNUM) : Z := width (d bn).

(** [bn] with other words and another sign *)
Definition with_d (bn : BIGNUM) (words : list Z) : BIGNUM := mk_bn words (dmax bn) (neg bn) (static_data bn).

Definition with_neg (bn : BIGNUM) (neg : bool) : BIGNUM := mk_bn (d bn) (dmax bn) neg (static_data bn).

Definition BN_init : BIGNUM := mk_bn [] 0 false false.

Definition BN_zero (bn : BIGNUM) : BIGNUM := with_neg (with_d bn []) false.

Definition BN_is_negative (bn : BIGNUM) : bool := neg bn.

(** *** [bn.c] *)

Fixpoint minimal_width_loop (fuel : nat) (words : list Z) (ret : Z) : Z :=
  match fuel with
  | O => ret
  | S fuel => if (0 <? ret) && (nth (Z.to_nat (ret - 1)) words 0 =? 0) then minimal_width_loop fuel words (ret - 1) else ret
  end.

Definition bn_minimal_width (bn : BIGNUM) : Z := minimal_width_loop (length (d bn)) (d bn) (bn_width bn).

Definition bn_set_minimal_width (bn : BIGNUM) : BIGNUM :=
  let bn := with_d bn (firstn (Z.to_nat (bn_minimal_width bn)) (d bn)) in
  if bn_width bn =? 0 then with_neg bn false else bn.

Definition BN_num_bits (bn : BIGNUM) : Z :=
  let width := bn_minimal_width bn in
  if width =? 0 then 0 else u32 ((width - 1) * BN_BITS2 + BN_num_bits_word (nth (Z.to_nat (width - 1)) (d bn) 0)).

Definition BN_num_bytes (bn : BIGNUM) : Z := u32 (BN_num_bits bn + 7) / 8.

Definition bn_fits_in_words (bn : BIGNUM) (num : Z) : bool :=
  fold_left Z.lor (skipn (Z.to_nat num) (d bn)) 0 =? 0.

Definition BN_is_zero (bn : BIGNUM) : bool := bn_fits_in_words bn 0.

Definition BN_set_negative (bn : BIGNUM) (sign : bool) : BIGNUM := with_neg bn (sign && negb (BN_is_zero bn)).

(** The words copied, [num] of them *)
Definition bn_copy_words (num : Z) (bn : BIGNUM) : option (list Z) :=
  if neg bn then None
  else
    let width := bn_width bn in
    if (num <? width) && negb (bn_fits_in_words bn num) then None
    else
      let width := if num <? width then num else width in
      Some (firstn (Z.to_nat width) (d bn) ++ repeat 0 (Z.to_nat (num - width))).

Section Allocation.

Context (malloc : Z -> option (list Z)).

Definition bn_wexpand (bn : BIGNUM) (words : Z) : option BIGNUM :=
  if words <=? dmax bn then Some bn
  else if INT_MAX / (4 * BN_BITS2) <? words then None
  else if static_data bn then None
  else let* _ := OPENSSL_malloc malloc (8 * words) in Some (mk_bn (d bn) words (neg bn) false).

Definition bn_expand (bn : BIGNUM) (bits : Z) : option BIGNUM :=
  if size_t (bits + (BN_BITS2 - 1)) <? bits then None else bn_wexpand bn ((bits + (BN_BITS2 - 1)) / BN_BITS2).

Definition bn_resize_words (bn : BIGNUM) (words : Z) : option BIGNUM :=
  if bn_width bn <=? words then
    let* bn := bn_wexpand bn words in Some (with_d bn (d bn ++ repeat 0 (Z.to_nat (words - bn_width bn))))
  else if negb (bn_fits_in_words bn words) then None
  else Some (with_d bn (firstn (Z.to_nat words) (d bn))).

Definition BN_copy (dest src : BIGNUM) : option BIGNUM :=
  let* dest := bn_wexpand dest (bn_width src) in Some (with_neg (with_d dest (d src)) (neg src)).

Definition BN_set_word (bn : BIGNUM) (value : Z) : option BIGNUM :=
  if value =? 0 then Some (BN_zero bn)
  else let* bn := bn_wexpand bn 1 in Some (with_neg (with_d bn [value]) false).

Definition BN_one (bn : BIGNUM) : option BIGNUM := BN_set_word bn 1.

Definition bn_set_words (bn : BIGNUM) (words : list Z) (num : Z) : option BIGNUM :=
  let* bn := bn_wexpand bn num in Some (with_neg (with_d bn (firstn (Z.to_nat num) words)) false).

(** *** [cmp.c] *)

Definition BN_ucmp (a b : BIGNUM) : Z := bn_cmp_words_consttime (d a) (bn_width a) (d b) (bn_width b).

(** [None] is [NULL]. *)
Definition BN_cmp (a b : option BIGNUM) : Z :=
  match a, b with
  | Some _, None => -1
  | None, Some _ => 1
  | None, None => 0
  | Some a, Some b =>
      if negb (Bool.eqb (neg a) (neg b)) then (if neg a then -1 else 1)
      else let ret := BN_ucmp a b in if neg a then - ret else ret
  end.

Definition BN_abs_is_word (bn : BIGNUM) (w : Z) : bool :=
  match d bn with
  | [] => w =? 0
  | x :: l => fold_left Z.lor l (Z.lxor x w) =? 0
  end.

Definition BN_cmp_word (a : BIGNUM) (b : Z) : Z :=
  BN_cmp (Some a) (Some (mk_bn (if 0 <? b then [b] else []) 1 false true)).

Definition BN_is_one (bn : BIGNUM) : bool := negb (neg bn) && BN_abs_is_word bn 1.

Definition BN_is_word (bn : BIGNUM) (w : Z) : bool := BN_abs_is_word bn w && ((w =? 0) || negb (neg bn)).

Definition BN_is_odd (bn : BIGNUM) : bool := (0 <? bn_width bn) && (Z.land (nth 0 (d bn) 0) 1 =? 1).

Definition BN_is_pow2 (bn : BIGNUM) : bool :=
  let width := bn_minimal_width bn in
  if (width =? 0) || neg bn then false
  else
    forallb (Z.eqb 0) (firstn (Z.to_nat (width - 1)) (d bn)) &&
    (let top := nth (Z.to_nat (width - 1)) (d bn) 0 in 0 =? Z.land top (u64 (top - 1))).

(** The words both have, then the signs *)
Definition BN_equal_consttime (a b : BIGNUM) : bool :=
  let mask := fold_left Z.lor (skipn (length (d a)) (d b)) 0 in
  let mask := fold_left Z.lor (skipn (length (d b)) (d a)) mask in
  let mask := fold_left (fun m xy => Z.lor m (Z.lxor (fst xy) (snd xy))) (combine (d a) (d b)) mask in
  Z.lor mask (Z.b2z (xorb (neg a) (neg b))) =? 0.

(** *** [add.c] *)

(** The carry through the words of the longer number; it is the last word. *)
Fixpoint uadd_tail (carry : Z) (l : list Z) : list Z :=
  match l with
  | [] => [carry]
  | x :: l => let tmp := u64 (carry + x) in tmp :: uadd_tail (Z.b2z (tmp <? x)) l
  end.

Definition bn_uadd_consttime (r a b : BIGNUM) : option BIGNUM :=
  let (a, b) := if bn_width a <? bn_width b then (b, a) else (a, b) in
  let max := bn_width a in
  let min := bn_width b in
  let* r := bn_wexpand r (max + 1) in
  let (words, carry) := bn_add_words (d a) (d b) min in
  Some (with_d r (words ++ uadd_tail carry (skipn (Z.to_nat min) (d a)))).

Definition BN_uadd (r a b : BIGNUM) : option BIGNUM :=
  let* r := bn_uadd_consttime r a b in Some (bn_set_minimal_width r).

Fixpoint usub_tail (borrow : Z) (l : list Z) : list Z * Z :=
  match l with
  | [] => ([], borrow)
  | x :: l => let y := u64 (x - borrow) in let (words, borrow) := usub_tail (Z.b2z (x <? y)) l in (y :: words, borrow)
  end.

Definition bn_usub_consttime (r a b : BIGNUM) : option BIGNUM :=
  if (bn_width a <? bn_width b) && negb (bn_fits_in_words b (bn_width a)) then None
  else
    let b_width := if bn_width a <? bn_width b then bn_width a else bn_width b in
    let* r := bn_wexpand r (bn_width a) in
    let (words, borrow) := bn_sub_words (d a) (d b) b_width in
    let (words', borrow) := usub_tail borrow (skipn (Z.to_nat b_width) (d a)) in
    if negb (borrow =? 0) then None else Some (with_neg (with_d r (words ++ words')) false).

Definition BN_usub (r a b : BIGNUM) : option BIGNUM :=
  let* r := bn_usub_consttime r a b in Some (bn_set_minimal_width r).

(** The smaller number is subtracted from the larger one. *)
Definition usub_signed (r a b : BIGNUM) : option BIGNUM :=
  if BN_ucmp a b <? 0 then let* r := BN_usub r b a in Some (with_neg r true)
  else let* r := BN_usub r a b in Some (with_neg r false).

Definition BN_add (r a b : BIGNUM) : option BIGNUM :=
  let a_neg := neg a in
  if xorb a_neg (neg b) then
    let (a, b) := if a_neg then (b, a) else (a, b) in usub_signed r a b
  else let* r := BN_uadd r a b in Some (with_neg r a_neg).

Definition BN_sub (r a b : BIGNUM) : option BIGNUM :=
  let '(a, b, add, negative) :=
    if neg a then (if neg b then (b, a, false, false) else (a, b, true, true))
    else if neg b then (a, b, true, false) else (a, b, false, false) in
  if add : bool then let* r := BN_uadd r a b in Some (with_neg r negative)
  else usub_signed r a b.

(** The words after the addition, and what is left to add *)
Fixpoint add_word_loop (l : list Z) (w : Z) : list Z * Z :=
  match l with
  | [] => ([], w)
  | x :: l' =>
      if w =? 0 then (l, w)
      else let y := u64 (x + w) in let (words, w) := add_word_loop l' (if y <? w then 1 else 0) in (y :: words, w)
  end.

(** The loop ends inside the number, or reads beyond it ([None]); the index it
    ends at comes with the words. *)
Fixpoint sub_word_loop (l : list Z) (i w : Z) : option (list Z * Z) :=
  match l with
  | [] => None
  | x :: l =>
      if w <=? x then Some (u64 (x - w) :: l, i)
      else match sub_word_loop l (i + 1) 1 with Some (words, i) => Some (u64 (x - w) :: words, i) | None => None end
  end.

(** Each calls the other for a negative number only, with the sign cleared. *)
Definition add_word_with (sub_word : BIGNUM -> Z -> option BIGNUM) (a : BIGNUM) (w : Z) : option BIGNUM :=
  if w =? 0 then Some a
  else if BN_is_zero a then BN_set_word a w
  else if neg a then
    let* a := sub_word (with_neg a false) w in
    Some (if negb (BN_is_zero a) then with_neg a (negb (neg a)) else a)
  else
    let (words, w) := add_word_loop (d a) w in
    if negb (w =? 0) then
      let* a := bn_wexpand a (bn_width a + 1) in Some (with_d a (words ++ [w]))
    else Some (with_d a words).

Definition sub_word_with (add_word : BIGNUM -> Z -> option BIGNUM) (a : BIGNUM) (w : Z) : option BIGNUM :=
  if w =? 0 then Some a
  else if BN_is_zero a then let* a := BN_set_word a w in Some (BN_set_negative a true)
  else if neg a then let* a := add_word (with_neg a false) w in Some (with_neg a true)
  else if (bn_minimal_width a =? 1) && (nth 0 (d a) 0 <? w) then
    Some (with_neg (with_d a (set_nth 0 (u64 (w - nth 0 (d a) 0)) (d a))) true)
  else
    match sub_word_loop (d a) 0 w with
    | None => None
    | Some (words, i) =>
        let width := if (nth (Z.to_nat i) words 0 =? 0) && (i =? bn_width a - 1) then bn_width a - 1 else bn_width a in
        Some (with_d a (firstn (Z.to_nat width) words))
    end.

Definition BN_add_word : BIGNUM -> Z -> option BIGNUM := add_word_with (sub_word_with (fun _ _ => None)).

Definition BN_sub_word : BIGNUM -> Z -> option BIGNUM := sub_word_with (add_word_with (fun _ _ => None)).

(** *** [bytes.c] *)

(** The words in the order they are written, the highest first; [m] bytes are
    missing in the current word behind the next one. *)
Fixpoint bin_words (inp : list Z) (word m : Z) : list Z :=
  match inp with
  | [] => []
  | b :: inp =>
      let word := Z.lor (u64 (Z.shiftl word 8)) b in
      if m =? 0 then word :: bin_words inp 0 7 else bin_words inp word (m - 1)
  end.

(** With [ret] a number of the caller; for [NULL] it is [BN_init]. *)
Definition BN_bin2bn (inp : list Z) (len : Z) (ret : BIGNUM) : option BIGNUM :=
  if len =? 0 then Some (with_d ret [])
  else
    let num_words := (len - 1) / 8 + 1 in
    let m := (len - 1) mod 8 in
    let* ret := bn_wexpand ret num_words in
    Some (with_neg (with_d ret (rev (bin_words (firstn (Z.to_nat len) inp) 0 m))) false).

(** Words as they lie in memory *)
Fixpoint words_of_bytes (num_words : nat) (bytes : list Z) : list Z :=
  match num_words with
  | O => []
  | S n => le_val (firstn 8 bytes) :: words_of_bytes n (skipn 8 bytes)
  end.

Definition bytes_of_words (words : list Z) : list Z := flat_map (le_bytes 8) words.

Definition BN_le2bn (inp : list Z) (len : Z) (ret : BIGNUM) : option BIGNUM :=
  if len =? 0 then Some (with_neg (with_d ret []) false)
  else
    let num_words := (len - 1) / 8 + 1 in
    let* ret := bn_wexpand ret num_words in
    Some (with_d ret (words_of_bytes (Z.to_nat num_words) (firstn (Z.to_nat len) inp))).

(** [i] bytes are left, the highest first. *)
Fixpoint bn2bin_loop (i : nat) (words : list Z) : list Z :=
  match i with
  | O => []
  | S i => Z.land (u8 (Z.shiftr (nth (i / 8) words 0) (8 * (Z.of_nat i mod 8)))) 255 :: bn2bin_loop i words
  end.

Definition BN_bn2bin (bn : BIGNUM) : list Z := bn2bin_loop (Z.to_nat (BN_num_bytes bn)) (d bn).

Definition fits_in_bytes (bytes : list Z) (num_bytes len : Z) : bool :=
  fold_left Z.lor (firstn (Z.to_nat (num_bytes - len)) (skipn (Z.to_nat len) bytes)) 0 =? 0.

(** The bytes of the number that are copied *)
Definition padded_bytes (len : Z) (bn : BIGNUM) : option (list Z) :=
  let bytes := bytes_of_words (d bn) in
  let num_bytes := bn_width bn * 8 in
  if (len <? num_bytes) && negb (fits_in_bytes bytes num_bytes len) then None
  else Some (firstn (Z.to_nat (if len <? num_bytes then len else num_bytes)) bytes).

Definition BN_bn2le_padded (len : Z) (bn : BIGNUM) : option (list Z) :=
  let* bytes := padded_bytes len bn in Some (bytes ++ repeat 0 (Z.to_nat len - length bytes)).

Definition BN_bn2bin_padded (len : Z) (bn : BIGNUM) : option (list Z) :=
  let* bytes := padded_bytes len bn in Some (repeat 0 (Z.to_nat len - length bytes) ++ rev bytes).

Definition BN_get_word (bn : BIGNUM) : Z :=
  let width := bn_minimal_width bn in
  if width =? 0 then 0 else if width =? 1 then nth 0 (d bn) 0 else UINT64_MAX.

Definition BN_get_u64 (bn : BIGNUM) : option Z :=
  let width := bn_minimal_width bn in
  if width =? 0 then Some 0 else if width =? 1 then Some (nth 0 (d bn) 0) else None.

(** *** [shift.c] *)

(** Each word takes the high bits of the word below it; the code goes from the
    highest word down, so that [r] may be [a]. *)
Fixpoint lshift_loop (lb : Z) (below : Z) (l : list Z) : list Z :=
  match l with
  | [] => [below]
  | x :: l => Z.lor (u64 (Z.shiftl x lb)) below :: lshift_loop lb (Z.shiftr x (BN_BITS2 - lb)) l
  end.

Definition BN_lshift (r a : BIGNUM) (n : Z) : option BIGNUM :=
  if n <? 0 then None
  else
    let nw := n / BN_BITS2 in
    let* r := bn_wexpand r (bn_width a + nw + 1) in
    let lb := n mod BN_BITS2 in
    let words := if lb =? 0 then d a ++ [0] else lshift_loop lb 0 (d a) in
    Some (bn_set_minimal_width (with_neg (with_d r (repeat 0 (Z.to_nat nw) ++ words)) (neg a))).

(** The words and the bit shifted out *)
Fixpoint lshift1_loop (c : Z) (l : list Z) : list Z * Z :=
  match l with
  | [] => ([], c)
  | t :: l => let (words, c') := lshift1_loop (Z.shiftr t (BN_BITS2 - 1)) l in (Z.lor (u64 (Z.shiftl t 1)) c :: words, c')
  end.

Definition BN_lshift1 (r a : BIGNUM) : option BIGNUM :=
  let* r := bn_wexpand r (bn_width a + 1) in
  let (words, c) := lshift1_loop 0 (d a) in
  Some (with_neg (with_d r (if negb (c =? 0) then words ++ [1] else words)) (neg a)).

Fixpoint rshift_loop (shift_bits : Z) (l : list Z) : list Z :=
  match l with
  | [] => []
  | x :: l =>
      match l with
      | [] => [Z.shiftr x shift_bits]
      | y :: _ => Z.lor (Z.shiftr x shift_bits) (u64 (Z.shiftl y (BN_BITS2 - shift_bits))) :: rshift_loop shift_bits l
      end
  end.

Definition bn_rshift_words (a : list Z) (shift num : Z) : list Z :=
  let shift_bits := shift mod BN_BITS2 in
  let shift_words := shift / BN_BITS2 in
  if num <=? shift_words then repeat 0 (Z.to_nat num)
  else
    let a := skipn (Z.to_nat shift_words) (firstn (Z.to_nat num) a) in
    (if shift_bits =? 0 then a else rshift_loop shift_bits a) ++ repeat 0 (Z.to_nat shift_words).

Definition BN_rshift (r a : BIGNUM) (n : Z) : option BIGNUM :=
  if n <? 0 then None
  else
    let* r := bn_wexpand r (bn_width a) in
    Some (bn_set_minimal_width (with_neg (with_d r (bn_rshift_words (d a) n (bn_width a))) (neg a))).

Definition bn_rshift1_words (a : list Z) (num : Z) : list Z := rshift_loop 1 (firstn (Z.to_nat num) a).

Definition BN_rshift1 (r a : BIGNUM) : option BIGNUM :=
  let* r := bn_wexpand r (bn_width a) in
  Some (bn_set_minimal_width (with_neg (with_d r (bn_rshift1_words (d a) (bn_width a))) (neg a))).

(** [i] counts the bits of the shift; an [unsigned] has no more than 32. *)
Fixpoint secret_shift_loop (fuel : nat) (i max_bits n num : Z) (r : list Z) : list Z :=
  match fuel with
  | O => r
  | S fuel =>
      if Z.shiftr max_bits i =? 0 then r
      else
        let mask := u64 (0 - Z.land (Z.shiftr n i) 1) in
        let tmp := bn_rshift_words r (u32 (Z.shiftl 1 i)) num in
        secret_shift_loop fuel (i + 1) max_bits n num (bn_select_words mask tmp r num)
  end.

Definition BN_set_bit (a : BIGNUM) (n : Z) : option BIGNUM :=
  if n <? 0 then None
  else
    let i := n / BN_BITS2 in
    let j := n mod BN_BITS2 in
    let* a := if bn_width a <=? i then let* a := bn_wexpand a (i + 1) in Some (with_d a (d a ++ repeat 0 (Z.to_nat (i + 1 - bn_width a)))) else Some a in
    Some (with_d a (set_nth (Z.to_nat i) (Z.lor (nth (Z.to_nat i) (d a) 0) (u64 (Z.shiftl 1 j))) (d a))).

Definition BN_clear_bit (a : BIGNUM) (n : Z) : option BIGNUM :=
  if n <? 0 then None
  else
    let i := n / BN_BITS2 in
    let j := n mod BN_BITS2 in
    if bn_width a <=? i then None
    else Some (bn_set_minimal_width (with_d a (set_nth (Z.to_nat i) (Z.land (nth (Z.to_nat i) (d a) 0) (not_w 64 (u64 (Z.shiftl 1 j)))) (d a)))).

Definition BN_is_bit_set (a : BIGNUM) (n : Z) : Z := if n <? 0 then 0 else bn_is_bit_set_words (d a) (bn_width a) n.

Definition BN_mask_bits (a : BIGNUM) (n : Z) : option BIGNUM :=
  if n <? 0 then None
  else
    let w := n / BN_BITS2 in
    let b := n mod BN_BITS2 in
    if bn_width a <=? w then Some a
    else
      let a :=
        if b =? 0 then with_d a (firstn (Z.to_nat w) (d a))
        else with_d a (firstn (Z.to_nat w) (d a) ++ [Z.land (nth (Z.to_nat w) (d a) 0) (not_w 64 (u64 (Z.shiftl UINT64_MAX b)))]) in
      Some (bn_set_minimal_width a).

Definition low_zero_step (s : Z) (st : Z * Z) : Z * Z :=
  let (bits, l) := st in
  let mask := constant_time_is_zero_w (u64 (Z.shiftl l (BN_BITS2 - s))) in
  (bits + Z.land s mask, constant_time_select_w mask (Z.shiftr l s) l).

Definition bn_count_low_zero_bits_word (l : Z) : Z :=
  fst (low_zero_step 1 (low_zero_step 2 (low_zero_step 4 (low_zero_step 8 (low_zero_step 16 (low_zero_step 32 (0, l))))))).

Fixpoint count_low_zero_loop (l : list Z) (i ret saw_nonzero : Z) : Z :=
  match l with
  | [] => ret
  | x :: l =>
      let nonzero := not_w 64 (constant_time_is_zero_w x) in
      let first_nonzero := Z.land (not_w 64 saw_nonzero) nonzero in
      let saw_nonzero := Z.lor saw_nonzero nonzero in
      let bits := bn_count_low_zero_bits_word x in
      count_low_zero_loop l (i + 1) (Z.lor ret (Z.land first_nonzero (i * BN_BITS2 + bits))) saw_nonzero
  end.

Definition BN_count_low_zero_bits (bn : BIGNUM) : Z := count_low_zero_loop (d bn) 0 0 0.

(** *** Division and reduction of [div.c] *)

(** What [BN_CTX_get] gives: [NULL], or a number whose words are not read
    before they are written *)
Context (BN_CTX_get : option BIGNUM).

Definition bn_rshift_secret_shift (r a : BIGNUM) (n : Z) : option BIGNUM :=
  let* tmp := BN_CTX_get in
  let* r := BN_copy r a in
  let* _ := bn_wexpand tmp (bn_width r) in
  Some (with_d r (secret_shift_loop 32 0 (u32 (BN_BITS2 * bn_width r)) n (bn_width r) (d r))).

Definition bn_scratch_space_from_ctx (width : Z) : option BIGNUM :=
  let* ret := BN_CTX_get in
  let* ret := bn_wexpand ret width in Some (with_neg (with_d ret (repeat 0 (Z.to_nat width))) false).

Definition bn_resized_from_ctx (bn : BIGNUM) (width : Z) : option BIGNUM :=
  if width <=? bn_width bn then Some bn
  else
    let* ret := bn_scratch_space_from_ctx width in
    let* ret := BN_copy ret bn in
    bn_resize_words ret width.

Definition bn_mod_add_consttime (r a b m : BIGNUM) : option BIGNUM :=
  let* a := bn_resized_from_ctx a (bn_width m) in
  let* b := bn_resized_from_ctx b (bn_width m) in
  let* _ := bn_scratch_space_from_ctx (bn_width m) in
  let* r := bn_wexpand r (bn_width m) in
  Some (with_neg (with_d r (bn_mod_add_words (d a) (d b) (d m) (bn_width m))) false).

Definition bn_mod_sub_consttime (r a b m : BIGNUM) : option BIGNUM :=
  let* a := bn_resized_from_ctx a (bn_width m) in
  let* b := bn_resized_from_ctx b (bn_width m) in
  let* _ := bn_scratch_space_from_ctx (bn_width m) in
  let* r := bn_wexpand r (bn_width m) in
  Some (with_neg (with_d r (bn_mod_sub_words (d a) (d b) (d m) (bn_width m))) false).

Definition bn_mod_lshift1_consttime (r a m : BIGNUM) : option BIGNUM := bn_mod_add_consttime r a a m.

Fixpoint lshift_times (n : nat) (r m : BIGNUM) : option BIGNUM :=
  match n with
  | O => Some r
  | S n => let* r := bn_mod_lshift1_consttime r r m in lshift_times n r m
  end.

Definition bn_mod_lshift_consttime (r a : BIGNUM) (n : Z) (m : BIGNUM) : option BIGNUM :=
  let* r := BN_copy r a in lshift_times (Z.to_nat n) r m.

(** One bit of the numerator: the remainder's words, and the quotient's bit *)
Definition div_bit (m : list Z) (num : Z) (r : list Z) (bit : Z) : list Z * Z :=
  let (r, carry) := bn_add_words r r num in
  let r := set_nth 0 (Z.lor (nth 0 r 0) bit) r in
  let (r, subtracted) := bn_reduce_once_in_place r carry m num in
  (r, Z.land (not_w 64 subtracted) 1).

(** The bits [bit - 1] to 0 of the numerator's word [x]; [q] is the
    quotient's word. *)
Fixpoint div_word (m : list Z) (num : Z) (x : Z) (bit : nat) (r : list Z) (q : Z) : list Z * Z :=
  match bit with
  | O => (r, q)
  | S bit =>
      let (r, b) := div_bit m num r (Z.land (Z.shiftr x (Z.of_nat bit)) 1) in
      div_word m num x bit r (Z.lor q (u64 (Z.shiftl b (Z.of_nat bit))))
  end.

(** The words [i - 1] to 0 of the numerator *)
Fixpoint div_words (m : list Z) (num : Z) (numerator : list Z) (i : nat) (r q : list Z) : list Z * list Z :=
  match i with
  | O => (r, q)
  | S i =>
      let (r, w) := div_word m num (nth i numerator 0) 64 r (nth i q 0) in
      div_words m num numerator i r (set_nth i w q)
  end.

(** [quotient] and [remainder] are [None] for [NULL]; they are not the numerator
    or the divisor. *)
Definition bn_div_consttime (quotient remainder : option BIGNUM) (numerator divisor : BIGNUM) (divisor_min_bits : Z) : option (BIGNUM * BIGNUM) :=
  if BN_is_negative numerator || BN_is_negative divisor then None
  else if BN_is_zero divisor then None
  else
    let* q := match quotient with Some q => Some q | None => BN_CTX_get end in
    let* r := match remainder with Some r => Some r | None => BN_CTX_get end in
    let* tmp := BN_CTX_get in
    let* q := bn_wexpand q (bn_width numerator) in
    let* r := bn_wexpand r (bn_width divisor) in
    let* _ := bn_wexpand tmp (bn_width divisor) in
    let q0 := repeat 0 (Z.to_nat (bn_width numerator)) in
    let r0 := repeat 0 (Z.to_nat (bn_width divisor)) in
    let initial_words :=
      if 0 <? divisor_min_bits then
        let initial_words := (divisor_min_bits - 1) / BN_BITS2 in
        if bn_width numerator <? initial_words then bn_width numerator else initial_words
      else 0 in
    let rest := Z.to_nat (bn_width numerator - initial_words) in
    let r0 := skipn rest (d numerator) ++ skipn (Z.to_nat initial_words) r0 in
    let (r', q') := div_words (d divisor) (bn_width divisor) (d numerator) rest r0 q0 in
    Some (with_neg (with_d q q') false, with_neg (with_d r r') false).

(** *** The context of [montgomery.c] *)

Definition bn_mod_exp_base_2_consttime (r : BIGNUM) (p : Z) (n : BIGNUM) : option BIGNUM :=
  let r := BN_zero r in
  let n_bits := BN_num_bits n in
  if n_bits =? 1 then Some r
  else
    let* r := BN_set_bit r (n_bits - 1) in
    bn_mod_lshift_consttime r r (p - (n_bits - 1)) n.

(** [mont->N] and [mont->n0] *)
Definition bn_mont_ctx_set_N_and_n0 (N : BIGNUM) (modulus : BIGNUM) : option (BIGNUM * Z) :=
  if BN_is_zero modulus then None
  else if negb (BN_is_odd modulus) then None
  else if BN_is_negative modulus then None
  else
    let* N := BN_copy N modulus in
    let N := bn_set_minimal_width N in
    Some (N, bn_mont_n0 (d N)).

(** The context itself takes 64 bytes. *)
Definition BN_MONT_CTX_new_consttime (modulus : BIGNUM) : option BN_MONT_CTX :=
  let* _ := OPENSSL_malloc malloc 64 in
  match bn_mont_ctx_set_N_and_n0 BN_init modulus with
  | None => None
  | Some (N, n0) =>
      let lgBigR := u32 (bn_width N * BN_BITS2) in
      let* RR := bn_mod_exp_base_2_consttime BN_init (u32 (lgBigR * 2)) N in
      let* RR := bn_resize_words RR (bn_width N) in
      Some (mk_mont (d RR) (d N) n0)
  end.

End Allocation.

(** ** Values *)

Definition mag (bn : BIGNUM) : Z := bn_val (d bn).

Definition value (bn : BIGNUM) : Z := if neg bn then - mag bn else mag bn.

(** No negative zero *)
Definition canonical (bn : BIGNUM) : Prop := neg bn = true -> mag bn <> 0.

(** No zero word on top *)
Definition minimal (l : list Z) : Prop := l <> [] -> last l 0 <> 0.

Record bn_ok (bn : BIGNUM) : Prop := mk_bn_ok { words : words_ok (d bn); short : bn_width bn < 2 ^ 25 }.

(** A number as the arithmetic functions return it *)
Record normal (bn : BIGNUM) : Prop := mk_normal { norm_words : words_ok (d bn); norm_minimal : minimal (d bn); norm_canonical : canonical bn }.

Lemma width_nonneg bn : 0 <= bn_width bn.
Proof. apply Nat2Z.is_nonneg. Qed.

Lemma mag_bound bn : words_ok (d bn) -> 0 <= mag bn < B ^ bn_width bn.
Proof. apply bn_val_bound. Qed.

Lemma bn_wexpand_spec malloc r n r' : bn_wexpand malloc r n = Some r' -> d r' = d r /\ neg r' = neg r.
Proof.
  unfold bn_wexpand. destruct (n <=? dmax r); [now intros [= <-]|]. destruct (_ <? n); [discriminate|]. destruct (static_data r); [discriminate|].
  destruct (OPENSSL_malloc malloc _); [|discriminate]. now intros [= <-].
Qed.

(** *** Widths *)

Lemma minimal_width_loop_eq fuel : forall l k, 0 <= k -> minimal_width_loop fuel l k = skip_high_zeros fuel l k.
Proof.
  induction fuel as [|fuel IH]; intros l k Hk; cbn [minimal_width_loop skip_high_zeros]; [reflexivity|].
  assert ((0 <? k) = negb (k =? 0)) as -> by lia. destruct (Z.eqb_spec k 0); cbn [negb andb]; [reflexivity|].
  destruct (_ =? 0); [apply IH; lia|reflexivity].
Qed.

Lemma bn_minimal_width_spec bn : words_ok (d bn) ->
  exists k, bn_minimal_width bn = Z.of_nat k /\ (k <= length (d bn))%nat /\ bn_val (firstn k (d bn)) = mag bn /\ (k = O \/ nth (k - 1) (d bn) 0 <> 0).
Proof.
  intros W. unfold bn_minimal_width. rewrite minimal_width_loop_eq by apply width_nonneg.
  destruct (skip_high_zeros_spec (length (d bn)) (d bn) (length (d bn)) W) as (k & E & L & V & D); [lia|lia|].
  exists k. rewrite firstn_all in V. now repeat split.
Qed.

Lemma minimal_firstn l k : (k <= length l)%nat -> k = O \/ nth (k - 1) l 0 <> 0 -> minimal (firstn k l).
Proof.
  intros L D N0. destruct D as [->|D]; [now destruct N0|]. assert (k <> O) by (intros ->; now apply N0).
  destruct k as [|k]; [lia|]. replace (S k - 1)%nat with k in D by lia. rewrite (split_at 0 k l) by lia.
  rewrite firstn_app, length_firstn, Nat.min_l, firstn_all2 by (rewrite ?length_firstn; lia). replace (S k - k)%nat with 1%nat by lia. cbn [firstn]. now rewrite last_last.
Qed.

Lemma bn_set_minimal_width_spec bn : words_ok (d bn) ->
  let m := bn_set_minimal_width bn in words_ok (d m) /\ minimal (d m) /\ mag m = mag bn /\ neg m = (if mag bn =? 0 then false else neg bn) /\ (length (d m) <= length (d bn))%nat.
Proof.
  intros W. cbv zeta. destruct (bn_minimal_width_spec bn W) as (k & E & L & V & D). unfold bn_set_minimal_width. rewrite E, Nat2Z.id.
  assert (words_ok (firstn k (d bn))) as Wk by (now apply Forall_firstn'). pose proof (minimal_firstn (d bn) k L D) as M.
  unfold bn_width, width. cbn [with_d d]. rewrite length_firstn, Nat.min_l by exact L.
  assert ((mag bn =? 0) = (Z.of_nat k =? 0)) as Z0.
  { destruct D as [->|D]; [rewrite <- V; reflexivity|]. destruct k as [|k]; [rewrite <- V; reflexivity|].
    rewrite <- V, bn_val_firstn_last by lia. assert (word_ok 64 (nth (S k - 1) (d bn) 0)) as Wn by (apply (proj1 (Forall_nth (word_ok 64) _) W); lia).
    pose proof (bn_val_bound _ (Forall_firstn' _ (S k - 1) _ W)). pose proof (B_pos (Z.of_nat (S k - 1)) ltac:(lia)). unfold word_ok in Wn.
    assert (0 < B ^ Z.of_nat (S k - 1) * nth (S k - 1) (d bn) 0) by (apply Z.mul_pos_pos; lia). lia. }
  rewrite Z0. destruct (Z.of_nat k =? 0); unfold with_neg, with_d, mag; cbn [d neg]; rewrite length_firstn; repeat split; try assumption; lia.
Qed.

Lemma last_nth (l : list Z) : last l 0 = nth (length l - 1) l 0.
Proof. induction l as [|x [|y l] IH]; [reflexivity..|]. change (last (x :: y :: l) 0) with (last (y :: l) 0). rewrite IH. cbn [length]. now replace (S (S (length l)) - 1)%nat with (S (S (length l) - 1)) by lia. Qed.

Lemma minimal_width_minimal bn : minimal (d bn) -> bn_minimal_width bn = bn_width bn.
Proof.
  unfold bn_minimal_width, bn_width, width. intros M. destruct (d bn) as [|x l] eqn:E; [reflexivity|]. cbn [length minimal_width_loop].
  destruct (Z.ltb_spec 0 (Z.of_nat (S (length l)))); [|reflexivity]. replace (Z.to_nat (Z.of_nat (S (length l)) - 1)) with (length (x :: l) - 1)%nat by (cbn [length]; lia).
  rewrite <- (last_nth (x :: l)). destruct (Z.eqb_spec (last (x :: l) 0) 0) as [Z0|]; [|reflexivity]. now destruct (M ltac:(discriminate)).
Qed.

(** ** Comparison *)

Lemma fits_spec bn k : words_ok (d bn) -> bn_fits_in_words bn (Z.of_nat k) = (bn_val (skipn k (d bn)) =? 0).
Proof.
  intros W. unfold bn_fits_in_words. rewrite Nat2Z.id. destruct (or_words_spec (skipn k (d bn)) (Forall_skipn' _ _ _ W) 0) as [_ E]; [split; [lia|reflexivity]|]. exact E.
Qed.

Lemma BN_is_zero_spec bn : words_ok (d bn) -> BN_is_zero bn = (mag bn =? 0).
Proof. intros W. unfold BN_is_zero. change 0 with (Z.of_nat 0) at 1. now rewrite fits_spec. Qed.

Lemma BN_is_odd_spec bn : words_ok (d bn) -> BN_is_odd bn = Z.odd (mag bn).
Proof.
  intros W. unfold BN_is_odd, mag. rewrite odd_head. unfold bn_width, width. destruct (d bn) as [|x l]; [reflexivity|]. cbn [length nth hd].
  change 1 with (2 ^ 1 - 1) at 1. rewrite land_mask by lia. change (2 ^ 1) with 2. rewrite Zmod_odd. now destruct (Z.odd x).
Qed.

Lemma BN_ucmp_spec a b : bn_ok a -> bn_ok b -> BN_ucmp a b = sign (Z.compare (mag a) (mag b)).
Proof. intros [Wa Sa] [Wb Sb]. unfold BN_ucmp, bn_width, width in *. apply cmp_words_spec; assumption || lia. Qed.

(** ** Addition and subtraction *)

Lemma uadd_tail_spec l : words_ok l -> forall c, 0 <= c <= 1 ->
  let r := uadd_tail c l in words_ok r /\ length r = S (length l) /\ bn_val r = c + bn_val l.
Proof.
  induction 1 as [|x l Hx Hl IH]; intros c Hc; cbn [uadd_tail bn_val length]; [split; [constructor; [unfold word_ok; lia|constructor]|]; split; [reflexivity|lia]|].
  cbv zeta. assert (E : u64 (c + x) + B * Z.b2z (u64 (c + x) <? x) = c + x /\ 0 <= Z.b2z (u64 (c + x) <? x) <= 1).
  { unfold word_ok in Hx. unfold wrap. fold B in *. destruct (Z.lt_ge_cases (c + x) B) as [L|L].
    - rewrite Z.mod_small by lia. destruct (Z.ltb_spec (c + x) x); cbn [Z.b2z]; lia.
    - assert ((c + x) mod B = 0) as -> by (symmetry; apply (Z.mod_unique _ _ 1); unfold B in *; lia). destruct (Z.ltb_spec 0 x); cbn [Z.b2z]; unfold B in *; lia. }
  destruct E as [E Hb]. destruct (IH _ Hb) as (W & L & V). split; [constructor; [apply wrap_range; lia|exact W]|]. split; [now rewrite L|]. rewrite V. lia.
Qed.

Lemma usub_tail_spec l : words_ok l -> forall b, 0 <= b <= 1 ->
  let (r, b') := usub_tail b l in words_ok r /\ length r = length l /\ 0 <= b' <= 1 /\ bn_val r - B ^ Z.of_nat (length l) * b' = bn_val l - b.
Proof.
  induction 1 as [|x l Hx Hl IH]; intros b Hb; cbn [usub_tail bn_val length]; [split; [constructor|]; split; [reflexivity|]; rewrite Z.pow_0_r; lia|].
  assert (E : u64 (x - b) - B * Z.b2z (x <? u64 (x - b)) = x - b /\ 0 <= Z.b2z (x <? u64 (x - b)) <= 1).
  { unfold word_ok in Hx. unfold wrap. fold B in *. destruct (Z.lt_ge_cases (x - b) 0) as [L|L].
    - assert ((x - b) mod B = B - 1) as -> by (symmetry; apply (Z.mod_unique _ _ (-1)); unfold B in *; lia). destruct (Z.ltb_spec x (B - 1)); cbn [Z.b2z]; unfold B in *; lia.
    - rewrite Z.mod_small by lia. destruct (Z.ltb_spec x (x - b)); cbn [Z.b2z]; lia. }
  destruct E as [E Hb']. specialize (IH _ Hb'). destruct (usub_tail _ l) as [r b']. destruct IH as (W & L & H' & V). cbn [bn_val length].
  split; [constructor; [apply wrap_range; lia|exact W]|]. split; [now rewrite L|]. split; [exact H'|]. rewrite Nat2Z.inj_succ, Z.pow_succ_r by lia. lia.
Qed.

Section Results.

Context (malloc : Z -> option (list Z)).

(** There is room for [n] words, or it can be made. *)
Definition room (r : BIGNUM) (n : Z) : Prop := forall m, m <= n -> bn_wexpand malloc r m <> None.

Lemma room_spec r n m : room r n -> m <= n -> exists r', bn_wexpand malloc r m = Some r' /\ d r' = d r /\ neg r' = neg r.
Proof.
  intros H L. specialize (H m L). destruct (bn_wexpand malloc r m) as [r'|] eqn:E; [|easy]. exists r'. split; [reflexivity|]. now apply (bn_wexpand_spec malloc r m).
Qed.

Lemma room_le r n m : room r n -> m <= n -> room r m.
Proof. intros H L k Hk. apply H. lia. Qed.

Lemma uadd_spec r a b : bn_ok a -> bn_ok b -> room r (Z.max (bn_width a) (bn_width b) + 1) ->
  exists s, BN_uadd malloc r a b = Some s /\ words_ok (d s) /\ minimal (d s) /\ mag s = mag a + mag b.
Proof.
  intros [Wa Sa] [Wb Sb] Rm. unfold BN_uadd, bn_uadd_consttime.
  assert (exists a' b', (if bn_width a <? bn_width b then (b, a) else (a, b)) = (a', b') /\ words_ok (d a') /\ words_ok (d b') /\ bn_width b' <= bn_width a' < 2 ^ 25 /\
    bn_width a' = Z.max (bn_width a) (bn_width b) /\ mag a' + mag b' = mag a + mag b) as (a' & b' & -> & Wa' & Wb' & Le & Em & Es).
  { destruct (Z.ltb_spec (bn_width a) (bn_width b)); eexists _, _; (split; [reflexivity|]); repeat split; try assumption; lia. }
  rewrite <- Em in Rm. destruct (room_spec _ _ _ Rm (Z.le_refl _)) as (r' & -> & _ & _). rewrite <- Es. clear Em Es Rm Wa Wb Sa Sb a b. unfold mag, bn_width, width in *.
  pose proof (bn_add_words_spec (d a') (d b') (length (d b')) Wa' Wb' ltac:(lia) ltac:(lia) ltac:(lia)) as S. rewrite firstn_all in S.
  destruct (bn_add_words _ _ _) as [lo c]. destruct S as (L & W & C & V). rewrite Nat2Z.id.
  destruct (uadd_tail_spec (skipn (length (d b')) (d a')) (Forall_skipn' _ _ _ Wa') c C) as (Wt & Lt & Vt).
  set (s := with_d r' _). assert (words_ok (d s)) as Ws by (apply Forall_app; now split).
  destruct (bn_set_minimal_width_spec s Ws) as (Wm & Mm & Vm & _). exists (bn_set_minimal_width s). split; [reflexivity|]. split; [exact Wm|]. split; [exact Mm|].
  unfold mag in Vm. rewrite Vm. cbn [s with_d d]. rewrite bn_val_app, L, Vt. pose proof (bn_val_split (length (d b')) (d a') ltac:(lia)). nia.
Qed.

Lemma usub_spec r a b : bn_ok a -> bn_ok b -> mag b <= mag a -> room r (bn_width a) ->
  exists s, BN_usub malloc r a b = Some s /\ words_ok (d s) /\ minimal (d s) /\ neg s = false /\ mag s = mag a - mag b.
Proof.
  intros [Wa Sa] [Wb Sb] Le Rm. unfold BN_usub, bn_usub_consttime. destruct (room_spec _ _ _ Rm (Z.le_refl _)) as (r' & -> & _ & _). clear Rm.
  pose proof (mag_bound a Wa) as Ba. unfold mag, bn_width, width in *.
  set (k := Nat.min (length (d a)) (length (d b))).
  assert ((Z.of_nat (length (d a)) <? Z.of_nat (length (d b))) && negb (bn_fits_in_words b (Z.of_nat (length (d a)))) = false /\
    (if Z.of_nat (length (d a)) <? Z.of_nat (length (d b)) then Z.of_nat (length (d a)) else Z.of_nat (length (d b))) = Z.of_nat k /\ bn_val (firstn k (d b)) = bn_val (d b)) as (E1 & E2 & Vb).
  { destruct (Z.ltb_spec (Z.of_nat (length (d a))) (Z.of_nat (length (d b)))) as [C|C].
    - rewrite fits_spec by exact Wb. replace k with (length (d a)) by lia. pose proof (bn_val_split (length (d a)) (d b) ltac:(lia)) as S.
      pose proof (bn_val_bound _ (Forall_firstn' _ (length (d a)) _ Wb)). pose proof (bn_val_bound _ (Forall_skipn' _ (length (d a)) _ Wb)).
      assert (bn_val (skipn (length (d a)) (d b)) = 0) as Z0 by (pose proof (B_pos (Z.of_nat (length (d a))) ltac:(lia)); nia). rewrite Z0 in *. repeat split; lia.
    - replace k with (length (d b)) by lia. rewrite firstn_all. repeat split. }
  rewrite E1, E2. clear E1 E2.
  pose proof (bn_sub_words_spec (d a) (d b) k Wa Wb ltac:(lia) ltac:(lia) ltac:(lia)) as S. rewrite Vb in S.
  destruct (bn_sub_words _ _ _) as [lo c]. destruct S as (L & W & C & V). rewrite Nat2Z.id.
  pose proof (usub_tail_spec (skipn k (d a)) (Forall_skipn' _ _ _ Wa) c C) as T. destruct (usub_tail _ _) as [hi c']. destruct T as (Wt & Lt & Ct & Vt).
  pose proof (bn_val_split k (d a) ltac:(lia)) as Sp. assert (words_ok (lo ++ hi)) as Ws by (apply Forall_app; now split).
  pose proof (bn_val_bound _ Ws) as Bs. rewrite length_app, L, Lt, length_skipn in Bs. replace (k + (length (d a) - k))%nat with (length (d a)) in Bs by lia.
  assert (bn_val (lo ++ hi) - B ^ Z.of_nat (length (d a)) * c' = bn_val (d a) - bn_val (d b)) as E.
  { rewrite bn_val_app, L. rewrite length_skipn in Vt. replace (Z.of_nat (length (d a))) with (Z.of_nat k + Z.of_nat (length (d a) - k)) by lia. rewrite Z.pow_add_r by lia.
    set (M := B ^ Z.of_nat k) in *. set (M' := B ^ Z.of_nat (length (d a) - k)) in *. clearbody M M'. rewrite Sp. nia. }
  assert (c' = 0) as -> by nia. cbn [Z.eqb negb]. rewrite Z.mul_0_r, Z.sub_0_r in E.
  set (s := with_neg _ _). destruct (bn_set_minimal_width_spec s Ws) as (Wm & Mm & Vm & Nm & _). exists (bn_set_minimal_width s).
  split; [reflexivity|]. split; [exact Wm|]. split; [exact Mm|]. split; [rewrite Nm; now destruct (_ =? 0)|]. unfold mag in Vm. rewrite Vm. exact E.
Qed.

Lemma usub_signed_spec r a b : bn_ok a -> bn_ok b -> room r (Z.max (bn_width a) (bn_width b)) ->
  exists s, usub_signed malloc r a b = Some s /\ normal s /\ value s = mag a - mag b.
Proof.
  intros Ha Hb Rm. unfold usub_signed. rewrite BN_ucmp_spec by assumption.
  destruct (Z.compare_spec (mag a) (mag b)) as [C|C|C]; cbn [sign Z.ltb Z.compare].
  - destruct (usub_spec r a b Ha Hb ltac:(lia) (room_le _ _ (bn_width a) Rm ltac:(lia))) as (s & -> & W & M & _ & V). exists (with_neg s false). split; [reflexivity|]. split; [now split|]. cbn [value neg with_neg]. exact V.
  - destruct (usub_spec r b a Hb Ha ltac:(lia) (room_le _ _ (bn_width b) Rm ltac:(lia))) as (s & -> & W & M & _ & V). exists (with_neg s true). unfold value, mag in *. cbn [d neg with_neg]. rewrite V.
    split; [reflexivity|]. split; [|lia]. split; [exact W|exact M|]. unfold canonical, mag. cbn [d with_neg]. lia.
  - destruct (usub_spec r a b Ha Hb ltac:(lia) (room_le _ _ (bn_width a) Rm ltac:(lia))) as (s & -> & W & M & _ & V). exists (with_neg s false). split; [reflexivity|]. split; [now split|]. cbn [value neg with_neg]. exact V.
Qed.

Lemma uadd_signed_spec r a b sg : bn_ok a -> bn_ok b -> room r (Z.max (bn_width a) (bn_width b) + 1) -> (sg = true -> 0 < mag a + mag b) ->
  exists s, match BN_uadd malloc r a b with Some r => Some (with_neg r sg) | None => None end = Some s /\ normal s /\ value s = (if sg then -1 else 1) * (mag a + mag b).
Proof.
  intros Ha Hb Rm Hs. destruct (uadd_spec r a b Ha Hb Rm) as (s & -> & W & M & V). exists (with_neg s sg). unfold value, mag in *. cbn [d neg with_neg]. rewrite V.
  split; [reflexivity|]. split; [|destruct sg; lia]. split; [exact W|exact M|]. unfold canonical, mag. cbn [d neg with_neg]. intros E. specialize (Hs E). lia.
Qed.

End Results.

(** An allocator that has room for everything of a gigabyte or less *)
Definition generous (malloc : Z -> option (list Z)) : Prop := forall n, 0 <= n < 2 ^ 30 -> malloc n <> None.

Lemma generous_room malloc r n : generous malloc -> static_data r = false -> 0 <= dmax r -> n <= 2 ^ 23 - 1 -> room malloc r n.
Proof.
  intros G S D L m Hm. unfold bn_wexpand. destruct (Z.leb_spec m (dmax r)); [discriminate|]. rewrite S.
  destruct (Z.ltb_spec (INT_MAX / (4 * BN_BITS2)) m) as [C|_]; [change (INT_MAX / (4 * BN_BITS2)) with (2 ^ 23 - 1) in C; lia|].
  unfold OPENSSL_malloc, OPENSSL_MALLOC_PREFIX. rewrite wrap_small by (unfold word_ok; lia). destruct (Z.ltb_spec (8 * m + 8) (8 * m)); [lia|].
  destruct (malloc (8 * m + 8)) eqn:E; [discriminate|]. exfalso. apply (G (8 * m + 8)); [lia|exact E].
Qed.

Lemma zero_malloc_generous : generous zero_malloc.
Proof. intros n Hn. unfold zero_malloc. destruct (Z.ltb_spec n 0); [lia|discriminate]. Qed.

(** C33: [BN_add] and [BN_sub] are the addition and the subtraction of signed
    numbers: for numbers of any widths and signs, even with leading zero words,
    they succeed if there is room for the result, and give a number without a
    leading zero word, and not a negative zero. *)
Theorem BN_add_sub_correct (malloc : Z -> option (list Z)) (r a b : BIGNUM) (Ha : bn_ok a) (Hb : bn_ok b) (Ca : canonical a) (Cb : canonical b)
  (Rm : room malloc r (Z.max (bn_width a) (bn_width b) + 1)) :
  exists s t, BN_add malloc r a b = Some s /\ BN_sub malloc r a b = Some t /\
    value s = value a + value b /\ value t = value a - value b /\ normal s /\ normal t.
Proof.
  pose proof (mag_bound a (words _ Ha)) as Ba. pose proof (mag_bound b (words _ Hb)) as Bb. unfold canonical in *.
  pose proof (room_le _ _ _ (Z.max (bn_width a) (bn_width b)) Rm (Z.le_succ_diag_r _)) as Rm'. pose proof (usub_signed_spec malloc r a b Ha Hb Rm') as Sab.
  pose proof (usub_signed_spec malloc r b a Hb Ha) as Sba. rewrite Z.max_comm in Sba. specialize (Sba Rm').
  pose proof (fun sg => uadd_signed_spec malloc r a b sg Ha Hb Rm) as U. unfold BN_add, BN_sub, value.
  destruct (neg a) eqn:Na, (neg b) eqn:Nb; cbn [xorb].
  - destruct (U true) as (s & -> & Ns & Vs); [lia|]. destruct Sba as (t & -> & Nt & Vt). exists s, t. unfold value in *. repeat split; try assumption; try reflexivity; lia || apply Ns || apply Nt.
  - destruct Sba as (s & -> & Ns & Vs). destruct (U true) as (t & -> & Nt & Vt); [lia|]. exists s, t. unfold value in *. repeat split; try assumption; try reflexivity; lia || apply Ns || apply Nt.
  - destruct Sab as (s & -> & Ns & Vs). destruct (U false) as (t & -> & Nt & Vt); [discriminate|]. exists s, t. unfold value in *. repeat split; try assumption; try reflexivity; lia || apply Ns || apply Nt.
  - destruct (U false) as (s & -> & Ns & Vs); [discriminate|]. destruct Sab as (t & -> & Nt & Vt). exists s, t. unfold value in *. repeat split; try assumption; try reflexivity; lia || apply Ns || apply Nt.
Qed.

Lemma BN_add_sub_correct_witness :
  exists s t, let a := mk_bn [5; 0; 1; 0] 4 true false in let b := mk_bn [7; 2] 2 false true in
    BN_add zero_malloc BN_init a b = Some s /\ BN_sub zero_malloc BN_init a b = Some t /\
    value s = value a + value b /\ value t = value a - value b /\ normal s /\ normal t.
Proof.
  apply (BN_add_sub_correct zero_malloc BN_init (mk_bn [5; 0; 1; 0] 4 true false) (mk_bn [7; 2] 2 false true)).
  - split; [repeat constructor; discriminate|reflexivity].
  - split; [repeat constructor; discriminate|reflexivity].
  - intros _. discriminate.
  - discriminate.
  - now apply generous_room; [apply zero_malloc_generous|..].
Defined.

(** ** Numbers and bytes *)

Lemma B_256 k : 0 <= k -> B ^ k = 256 ^ (8 * k).
Proof. intros Hk. change B with (256 ^ 8). now rewrite Z.pow_mul_r by lia. Qed.

(** The quotient and the remainder by [n] as unknowns for [lia] *)
Ltac divide x n :=
  pose proof (Z.div_mod x n ltac:(lia)); pose proof (Z.mod_pos_bound x n ltac:(lia)).

Lemma bin_words_spec inp : bytes_ok inp -> forall word m, m = (Z.of_nat (length inp) - 1) mod 8 -> 0 <= word < 256 ^ (7 - m) ->
  let l := rev (bin_words inp word m) in words_ok l /\ Z.of_nat (length l) = (Z.of_nat (length inp) + 7) / 8 /\ bn_val l = word * 256 ^ Z.of_nat (length inp) + be_val inp.
Proof.
  induction 1 as [|b inp Hb Hi IH]; intros word m Em Hw; cbv zeta.
  { subst m. change ((Z.of_nat (length (@nil Z)) - 1) mod 8) with 7 in Hw. assert (word = 0) as -> by (change (256 ^ (7 - 7)) with 1 in Hw; lia). repeat split. constructor. }
  cbn [bin_words length] in *. rewrite Nat2Z.inj_succ in *. replace (Z.succ (Z.of_nat (length inp)) - 1) with (Z.of_nat (length inp)) in Em by lia.
  assert (0 <= m <= 7) by (divide (Z.of_nat (length inp)) 8; lia). rewrite be_val_cons. set (L := Z.of_nat (length inp)) in *.
  assert (256 ^ (8 - m) = 256 * 256 ^ (7 - m)) as E8 by (rewrite <- Z.pow_succ_r by lia; f_equal; lia).
  assert (256 ^ (8 - m) <= 256 ^ 8) as L8 by (apply Z.pow_le_mono_r; lia).  unfold word_ok in Hb.
  assert (Z.lor (u64 (Z.shiftl word 8)) b = word * 256 + b) as ->.
  { rewrite Z.shiftl_mul_pow2, wrap_small by (unfold word_ok; lia). rewrite <- Z.shiftl_mul_pow2, shiftl_lor_add by lia. reflexivity. }
  rewrite Z.pow_succ_r by lia. destruct (Z.eqb_spec m 0) as [Z0|Z0].
  - divide L 8. divide (L - 1) 8. divide (L + 7) 8. divide (Z.succ L + 7) 8.
    destruct (IH 0 7) as (W & Ln & V); [lia|cbn; lia|]. cbn [rev]. rewrite length_app, bn_val_app, V, Ln. cbn [length bn_val].
    split; [apply Forall_app; split; [exact W|constructor; [unfold word_ok; change (2 ^ 64) with (256 ^ 8); lia|constructor]]|]. split; [lia|].
    rewrite B_256 by lia. replace (8 * ((L + 7) / 8)) with L by lia. lia.
  - divide L 8. divide (L - 1) 8. divide (L + 7) 8. divide (Z.succ L + 7) 8.
    destruct (IH (word * 256 + b) (m - 1)) as (W & Ln & V); [lia|replace (7 - (m - 1)) with (8 - m) by lia; lia|]. rewrite V, Ln. split; [exact W|]. split; [lia|]. lia.
Qed.

Lemma be_bytes_step i v : be_bytes (S i) v = v / 256 ^ Z.of_nat i mod 256 :: be_bytes i v.
Proof.
  revert v. induction i as [|i IH]; intros v; [cbn; now rewrite Z.div_1_r|].
  change (be_bytes (S (S i)) v) with (be_bytes (S i) (v / 256) ++ [v mod 256]). rewrite IH. change (be_bytes (S i) v) with (be_bytes i (v / 256) ++ [v mod 256]).
  rewrite Z.div_div, Nat2Z.inj_succ, Z.pow_succ_r by lia. reflexivity.
Qed.

(** A byte of a word is a byte of the number. *)
Lemma byte_of_words l : words_ok l -> forall i, Z.land (u8 (Z.shiftr (nth (i / 8) l 0) (8 * (Z.of_nat i mod 8)))) 255 = bn_val l / 256 ^ Z.of_nat i mod 256.
Proof.
  intros Hl i. change 255 with (2 ^ 8 - 1). rewrite land_mask by lia. unfold wrap. change (2 ^ 8) with 256. rewrite Zmod_mod.
  revert i. induction Hl as [|x l Hx Hl IH]; intros i; cbn [bn_val].
  - rewrite Z.div_0_l by (apply Z.pow_nonzero; lia). destruct (i / 8)%nat; cbn [nth]; now rewrite Z.shiftr_0_l.
  - pose proof (bn_val_bound l Hl) as Bl. unfold word_ok in Hx. fold B in Hx. destruct (Nat.lt_ge_cases i 8) as [C|C].
    + rewrite Nat.div_small by exact C. cbn [nth]. rewrite (Z.mod_small (Z.of_nat i) 8) by lia. rewrite Z.shiftr_div_pow2, Z.pow_mul_r by lia. change (2 ^ 8) with 256.
      assert (B = 256 ^ (7 - Z.of_nat i) * 256 * 256 ^ Z.of_nat i) as E by (rewrite <- Z.mul_assoc, (Z.mul_comm 256), Z.mul_assoc, <- Z.pow_add_r by lia; replace (7 - Z.of_nat i + Z.of_nat i) with 7 by lia; reflexivity).
      rewrite E. set (P := 256 ^ Z.of_nat i). assert (P <> 0) by (apply Z.pow_nonzero; lia).
      replace (x + 256 ^ (7 - Z.of_nat i) * 256 * P * bn_val l) with (x + 256 ^ (7 - Z.of_nat i) * 256 * bn_val l * P) by lia. rewrite Z.div_add by assumption.
      replace (256 ^ (7 - Z.of_nat i) * 256 * bn_val l) with (256 ^ (7 - Z.of_nat i) * bn_val l * 256) by lia. now rewrite Z.mod_add by lia.
    + replace i with (1 * 8 + (i - 8))%nat by lia. rewrite Nat.div_add_l by lia. cbn [Nat.add nth].
      replace (Z.of_nat (1 * 8 + (i - 8)) mod 8) with (Z.of_nat (i - 8) mod 8) by (rewrite Nat2Z.inj_add, Z.add_comm; change (Z.of_nat (1 * 8)) with (1 * 8); rewrite Z.mod_add by lia; reflexivity).
      rewrite IH, Nat2Z.inj_add, Z.pow_add_r by lia. rewrite <- Z.div_div by lia. f_equal. f_equal. change (256 ^ Z.of_nat (1 * 8)) with B.
      rewrite (Z.mul_comm B), Z.div_add, Z.div_small by (unfold B in *; lia). reflexivity.
Qed.

Lemma bn2bin_loop_spec l i : words_ok l -> bn2bin_loop i l = be_bytes i (bn_val l).
Proof.
  intros Hl. induction i as [|i IH]; [reflexivity|]. cbn [bn2bin_loop]. rewrite byte_of_words, IH, be_bytes_step by exact Hl. reflexivity.
Qed.

Lemma le_bytes_app n m v : le_bytes (n + m) v = le_bytes n v ++ le_bytes m (v / 256 ^ Z.of_nat n).
Proof.
  revert v. induction n as [|n IH]; intros v; cbn [Nat.add le_bytes app]; [now rewrite Z.div_1_r|]. rewrite IH, Nat2Z.inj_succ, Z.pow_succ_r, Z.div_div by lia. reflexivity.
Qed.

Lemma le_bytes_mod n v : le_bytes n (v mod 256 ^ Z.of_nat n) = le_bytes n v.
Proof.
  revert v. induction n as [|n IH]; intros v; cbn [le_bytes]; [reflexivity|]. rewrite Nat2Z.inj_succ, Z.pow_succ_r by lia. set (M := 256 ^ Z.of_nat n) in *. assert (0 < M) by (apply Z.pow_pos_nonneg; lia).
  rewrite Z.rem_mul_r by lia. f_equal; [rewrite Z.mul_comm, Z.mod_add, Zmod_mod by lia; reflexivity|].
  rewrite (Z.mul_comm 256), Z.div_add, (Z.div_small (v mod 256)) by (lia || (apply Z.mod_pos_bound; lia)). apply IH.
Qed.

Lemma bytes_of_words_spec l : words_ok l -> bytes_of_words l = le_bytes (8 * length l) (bn_val l).
Proof.
  induction 1 as [|x l Hx Hl IH]; [reflexivity|]. unfold bytes_of_words in *. cbn [flat_map length bn_val]. rewrite IH. replace (8 * S (length l))%nat with (8 + 8 * length l)%nat by lia.
  rewrite le_bytes_app. f_equal.
  - rewrite <- (le_bytes_mod 8 (x + B * bn_val l)). change (256 ^ Z.of_nat 8) with B. rewrite Z.mul_comm, Z.mod_add by discriminate. now rewrite Z.mod_small by exact Hx.
  - f_equal. change (256 ^ Z.of_nat 8) with B. rewrite Z.mul_comm, Z.div_add, Z.div_small by (exact Hx || discriminate). reflexivity.
Qed.

Lemma le_bytes_zeros n m : le_bytes (n + m) 0 = le_bytes n 0 ++ repeat 0 m.
Proof.
  rewrite le_bytes_app. f_equal. rewrite Z.div_0_l by (apply Z.pow_nonzero; lia). induction m as [|m IH]; [reflexivity|]. cbn [le_bytes repeat]. now f_equal.
Qed.

Lemma le_bytes_pad n m v : 0 <= v < 256 ^ Z.of_nat n -> le_bytes (n + m) v = le_bytes n v ++ repeat 0 m.
Proof. intros Hv. rewrite le_bytes_app, Z.div_small by exact Hv. f_equal. exact (le_bytes_zeros 0 m). Qed.

Lemma or_bytes l : bytes_ok l -> (fold_left Z.lor l 0 =? 0) = (le_val l =? 0).
Proof.
  intros Hl. assert (forall m, 0 <= m -> (fold_left Z.lor l m =? 0) = (m =? 0) && (le_val l =? 0)) as G; [|apply (G 0); lia].
  induction Hl as [|x l Hx Hl IH]; intros m Hm; cbn [fold_left le_val]; [now rewrite andb_true_r|]. rewrite byte_ok_iff in Hx. pose proof (le_val_bound l Hl).
  rewrite IH by (apply Z.lor_nonneg; lia). assert ((Z.lor m x =? 0) = (m =? 0) && (x =? 0)) as ->; [|lia].
  apply eq_iff_eq_true. rewrite andb_true_iff, !Z.eqb_eq. apply Z.lor_eq_0_iff.
Qed.

(** The bytes that [BN_bn2le_padded] and [BN_bn2bin_padded] copy *)
Lemma padded_bytes_spec bn len : words_ok (d bn) ->
  match padded_bytes (Z.of_nat len) bn with
  | None => 256 ^ Z.of_nat len <= mag bn
  | Some bytes => mag bn < 256 ^ Z.of_nat len /\ (length bytes <= len)%nat /\ bytes ++ repeat 0 (len - length bytes) = le_bytes len (mag bn)
  end.
Proof.
  intros W. unfold padded_bytes, bn_width, width. rewrite bytes_of_words_spec by exact W. fold (mag bn). pose proof (mag_bound bn W) as Bm. rewrite B_256 in Bm by apply width_nonneg. unfold bn_width, width in Bm.
  set (n := (8 * length (d bn))%nat). replace (Z.of_nat (length (d bn)) * 8) with (Z.of_nat n) by lia. replace (8 * Z.of_nat (length (d bn))) with (Z.of_nat n) in Bm by lia. clearbody n.
  destruct (Z.ltb_spec (Z.of_nat len) (Z.of_nat n)) as [C|C]; cbn [andb].
  - replace n with (len + (n - len))%nat in * by lia. rewrite le_bytes_app. unfold fits_in_bytes. set (q := mag bn / 256 ^ Z.of_nat len).
    replace (skipn (Z.to_nat (Z.of_nat len)) (le_bytes len (mag bn) ++ le_bytes (n - len) q)) with (le_bytes (n - len) q) by (rewrite Nat2Z.id, skipn_app, skipn_all2, length_le_bytes, Nat.sub_diag by (rewrite length_le_bytes; lia); reflexivity).
    rewrite firstn_all2 by (rewrite length_le_bytes; lia). rewrite or_bytes, le_val_le_bytes by apply le_bytes_ok.
    rewrite Nat2Z.inj_add, Z.pow_add_r in Bm by lia. assert (0 < 256 ^ Z.of_nat len) by (apply Z.pow_pos_nonneg; lia).
    assert (0 <= q < 256 ^ Z.of_nat (n - len)) as Hq by (subst q; split; [apply Z.div_pos; lia|apply Z.div_lt_upper_bound; lia]). rewrite Z.mod_small by exact Hq.
    pose proof (Z.div_mod (mag bn) (256 ^ Z.of_nat len) ltac:(lia)) as D. fold q in D. pose proof (Z.mod_pos_bound (mag bn) (256 ^ Z.of_nat len) ltac:(lia)).
    destruct (Z.eqb_spec q 0) as [Z0|Z0]; cbn [negb]; [|nia]. split; [nia|]. rewrite Nat2Z.id, firstn_app, length_le_bytes, Nat.sub_diag, firstn_O, app_nil_r, firstn_all2, length_le_bytes by (rewrite length_le_bytes; lia).
    split; [lia|]. rewrite Nat.sub_diag. apply app_nil_r.
  - rewrite Nat2Z.id, firstn_all2, length_le_bytes by (rewrite length_le_bytes; lia). split; [|split; [lia|]].
    + apply Z.lt_le_trans with (1 := proj2 Bm). apply Z.pow_le_mono_r; lia.
    + rewrite <- le_bytes_pad by exact Bm. f_equal. lia.
Qed.

Lemma BN_num_bits_spec bn : bn_ok bn -> BN_num_bits bn = if mag bn =? 0 then 0 else Z.log2 (mag bn) + 1.
Proof.
  intros [W S]. destruct (bn_minimal_width_spec bn W) as (k & E & L & V & D). unfold BN_num_bits. rewrite E. unfold bn_width, width in S.
  destruct D as [->|D]; [rewrite <- V; reflexivity|]. destruct (Z.eqb_spec (Z.of_nat k) 0) as [Z0|Z0]; [assert (k = O) as -> by lia; rewrite <- V; reflexivity|].
  replace (Z.to_nat (Z.of_nat k - 1)) with (k - 1)%nat by lia. rewrite <- V, bn_val_firstn_last by lia. set (t := nth (k - 1) (d bn) 0) in *.
  assert (word_ok 64 t) as Wt by (apply (proj1 (Forall_nth (word_ok 64) _) W); lia). rewrite BN_num_bits_word_spec, (proj2 (Z.eqb_neq t 0) D) by exact Wt.
  pose proof (bn_val_bound _ (Forall_firstn' _ (k - 1) _ W)) as Bl. rewrite length_firstn, Nat.min_l in Bl by lia. set (lo := bn_val (firstn (k - 1) (d bn))) in *.
  assert (0 < t) by (unfold word_ok in Wt; lia). pose proof (Z.log2_nonneg t). pose proof (log2_word 64 t ltac:(lia) Wt). unfold BN_BITS2.
  replace (Z.of_nat k - 1) with (Z.of_nat (k - 1)) by lia. set (j := Z.of_nat (k - 1)) in *. rewrite wrap_small by (unfold word_ok; lia).
  assert (B ^ j = 2 ^ (64 * j)) as Ep by (unfold B; rewrite <- Z.pow_mul_r by lia; reflexivity).
  assert (Z.log2 (lo + B ^ j * t) = 64 * j + Z.log2 t) as ->.
  { apply Z.log2_unique; [lia|]. rewrite <- Z.add_succ_r, !Z.pow_add_r, <- Ep by lia. pose proof (Z.log2_spec t ltac:(lia)). nia. }
  pose proof (B_pos j ltac:(lia)). destruct (Z.eqb_spec (lo + B ^ j * t) 0); [nia|lia].
Qed.

Lemma words_of_bytes_spec n : forall bytes, bytes_ok bytes -> (length bytes <= 8 * n)%nat ->
  let l := words_of_bytes n bytes in words_ok l /\ length l = n /\ bn_val l = le_val bytes.
Proof.
  induction n as [|n IH]; intros bytes Hb L; cbv zeta; cbn [words_of_bytes].
  { destruct bytes; [|cbn in L; lia]. repeat split. constructor. }
  destruct (IH (skipn 8 bytes) (bytes_ok_skipn 8 _ Hb)) as (W & Ln & V); [rewrite length_skipn; lia|]. cbn [length bn_val]. rewrite V.
  pose proof (le_val_bound _ (bytes_ok_firstn 8 _ Hb)) as Bf. assert (256 ^ Z.of_nat (length (firstn 8 bytes)) <= 256 ^ 8) as P by (apply Z.pow_le_mono_r; rewrite ?length_firstn; lia).
  split; [constructor; [unfold word_ok; change (2 ^ 64) with (256 ^ 8); lia|exact W]|]. split; [now rewrite Ln|].
  rewrite <- (firstn_skipn 8 bytes) at 3. rewrite le_val_app. destruct (Nat.le_gt_cases 8 (length bytes)).
  - rewrite length_firstn, Nat.min_l by lia. reflexivity.
  - rewrite skipn_all2 by lia. cbn [le_val]. lia.
Qed.

(** The fixed-length conversions are exact, in both byte orders: they
    succeed for the numbers that fit in [len] bytes, whatever the number of
    words they are stored in, and only for these, and give the [len] bytes of
    the magnitude. *)
Theorem BN_bn2bin_padded_exact (bn : BIGNUM) (len : nat) (W : words_ok (d bn)) :
  BN_bn2bin_padded (Z.of_nat len) bn = (if mag bn <? 256 ^ Z.of_nat len then Some (be_bytes len (mag bn)) else None) /\
  BN_bn2le_padded (Z.of_nat len) bn = (if mag bn <? 256 ^ Z.of_nat len then Some (le_bytes len (mag bn)) else None).
Proof.
  unfold BN_bn2bin_padded, BN_bn2le_padded. pose proof (padded_bytes_spec bn len W) as S. destruct (padded_bytes _ bn) as [bytes|].
  - destruct S as (V & L & E). rewrite (proj2 (Z.ltb_lt _ _) V), Nat2Z.id, <- rev_le_bytes, <- E, rev_app_distr. split; [|reflexivity].
    f_equal. f_equal. symmetry. apply rev_repeat.
  - destruct (Z.ltb_spec (mag bn) (256 ^ Z.of_nat len)); [lia|]. now split.
Qed.

Lemma BN_bn2bin_padded_exact_witness :
  let bn := mk_bn [2 ^ 64 - 1; 1; 0] 3 false false in
  BN_bn2bin_padded 9 bn = (if mag bn <? 256 ^ 9 then Some (be_bytes 9 (mag bn)) else None) /\
  BN_bn2le_padded 9 bn = (if mag bn <? 256 ^ 9 then Some (le_bytes 9 (mag bn)) else None).
Proof. apply (BN_bn2bin_padded_exact (mk_bn [2 ^ 64 - 1; 1; 0] 3 false false) 9). repeat constructor; discriminate. Defined.

Lemma BN_bin2bn_spec malloc inp ret : bytes_ok inp -> (1 <= length inp)%nat -> room malloc ret ((Z.of_nat (length inp) - 1) / 8 + 1) ->
  exists bn, BN_bin2bn malloc inp (Z.of_nat (length inp)) ret = Some bn /\ words_ok (d bn) /\ neg bn = false /\ mag bn = be_val inp /\ bn_width bn = (Z.of_nat (length inp) + 7) / 8.
Proof.
  intros Hi L Rm. unfold BN_bin2bn. destruct (Z.eqb_spec (Z.of_nat (length inp)) 0); [lia|]. rewrite Nat2Z.id, firstn_all.
  destruct (room_spec _ _ _ _ Rm (Z.le_refl _)) as (r' & -> & _ & _). destruct (bin_words_spec inp Hi 0 _ eq_refl) as (W & Ln & V).
  - split; [lia|]. apply Z.pow_pos_nonneg; [lia|]. pose proof (Z.mod_pos_bound (Z.of_nat (length inp) - 1) 8). lia.
  - eexists. split; [reflexivity|]. cbn [with_neg with_d d neg]. split; [exact W|]. split; [reflexivity|]. split; [exact V|exact Ln].
Qed.

Lemma num_bytes_bound bn : bn_ok bn -> let n := BN_num_bytes bn in
  mag bn < 256 ^ n /\ 0 <= n /\ (0 < n -> 256 ^ (n - 1) <= mag bn).
Proof.
  intros Ok. cbv zeta. unfold BN_num_bytes. rewrite BN_num_bits_spec by exact Ok. destruct Ok as [W S]. pose proof (mag_bound bn W) as Bm.
  destruct (Z.eqb_spec (mag bn) 0) as [->|N0]; [cbn; lia|]. pose proof (Z.log2_nonneg (mag bn)). pose proof (Z.log2_spec (mag bn) ltac:(lia)) as [Lo Hi].
  assert (Z.log2 (mag bn) < 64 * bn_width bn) as Ub by (apply Z.log2_lt_pow2; [lia|]; rewrite Z.pow_mul_r by (lia || apply width_nonneg); exact (proj2 Bm)).
  pose proof (width_nonneg bn). rewrite wrap_small by (unfold word_ok; lia). set (b := Z.log2 (mag bn)) in *. clearbody b. set (n := (b + 1 + 7) / 8). assert (8 * n - 8 <= b < 8 * n /\ 1 <= n) as Hn by (subst n; lia_div). clearbody n.
  change 256 with (2 ^ 8). split; [|split; [lia|intros _]].
  - rewrite <- Z.pow_mul_r by lia. apply Z.lt_le_trans with (1 := Hi). apply Z.pow_le_mono_r; lia.
  - rewrite <- Z.pow_mul_r by lia. apply Z.le_trans with (2 := Lo). apply Z.pow_le_mono_r; lia.
Qed.

(** C34: Bytes survive the conversion to a number and back: [BN_bin2bn] reads
    them as a big-endian number; [BN_bn2bin_padded] writes the same bytes
    again, and [BN_bn2bin] writes them without their leading zeros. *)
Theorem BN_bytes_roundtrip (malloc : Z -> option (list Z)) (inp : list Z) (ret : BIGNUM) (Hi : bytes_ok inp) (L : 1 <= Z.of_nat (length inp) < 2 ^ 25)
  (Rm : room malloc ret ((Z.of_nat (length inp) - 1) / 8 + 1)) :
  exists bn zeros, BN_bin2bn malloc inp (Z.of_nat (length inp)) ret = Some bn /\ value bn = be_val inp /\
    BN_bn2bin_padded (Z.of_nat (length inp)) bn = Some inp /\
    inp = repeat 0 zeros ++ BN_bn2bin bn /\ hd 1 (BN_bn2bin bn) <> 0.
Proof.
  destruct (BN_bin2bn_spec malloc inp ret Hi ltac:(lia) Rm) as (bn & E & W & Nn & V & Wd). assert (bn_ok bn) as Ok by (split; [exact W|rewrite Wd; lia_div]).
  destruct (num_bytes_bound bn Ok) as (Ub & N0 & Lb). pose proof (be_val_bound inp Hi) as Bi. set (n := BN_num_bytes bn) in *.
  assert (n <= Z.of_nat (length inp)) as Le.
  { destruct (Z.le_gt_cases n (Z.of_nat (length inp))) as [|C]; [assumption|]. assert (256 ^ Z.of_nat (length inp) <= 256 ^ (n - 1)) by (apply Z.pow_le_mono_r; lia). lia. }
  assert (BN_bn2bin bn = be_bytes (Z.to_nat n) (be_val inp)) as E2 by (unfold BN_bn2bin; rewrite bn2bin_loop_spec by exact W; now rewrite <- V).
  exists bn, (length inp - Z.to_nat n)%nat. split; [exact E|]. split; [unfold value; now rewrite Nn|].
  pose proof (be_bytes_be_val inp Hi) as Eb. rewrite E2. split; [|split].
  - unfold BN_bn2bin_padded. pose proof (padded_bytes_spec bn (length inp) W) as S. destruct (padded_bytes _ bn) as [bytes|]; [|lia]. destruct S as (_ & Lb' & S).
    rewrite Nat2Z.id. f_equal. rewrite <- Eb at 2. rewrite <- V, <- rev_le_bytes, <- S, rev_app_distr. f_equal. symmetry. apply rev_repeat.
  - rewrite <- Eb at 1. rewrite <- !rev_le_bytes. replace (length inp) with (Z.to_nat n + (length inp - Z.to_nat n))%nat at 1 by lia.
    rewrite le_bytes_pad by (rewrite Z2Nat.id by lia; lia). rewrite rev_app_distr. f_equal. apply rev_repeat.
  - destruct (Z.to_nat n) as [|k] eqn:Ek; [cbn; lia|]. rewrite be_bytes_step. cbn [hd]. replace (Z.of_nat k) with (n - 1) by lia.
    specialize (Lb ltac:(lia)). rewrite V in *. replace n with (Z.succ (n - 1)) in Ub by lia. rewrite Z.pow_succ_r in Ub by lia. set (M := 256 ^ (n - 1)) in *. assert (0 < M) by (apply Z.pow_pos_nonneg; lia).
    assert (1 <= be_val inp / M < 256) by (split; [apply Z.div_le_lower_bound; lia|apply Z.div_lt_upper_bound; lia]). rewrite Z.mod_small; lia.
Qed.

Lemma BN_bytes_roundtrip_witness :
  exists bn zeros, BN_bin2bn zero_malloc [0; 0; 1; 2; 3; 4; 5; 6; 7; 8; 9] 11 BN_init = Some bn /\ value bn = be_val [0; 0; 1; 2; 3; 4; 5; 6; 7; 8; 9] /\
    BN_bn2bin_padded 11 bn = Some [0; 0; 1; 2; 3; 4; 5; 6; 7; 8; 9] /\
    [0; 0; 1; 2; 3; 4; 5; 6; 7; 8; 9] = repeat 0 zeros ++ BN_bn2bin bn /\ hd 1 (BN_bn2bin bn) <> 0.
Proof.
  apply (BN_bytes_roundtrip zero_malloc [0; 0; 1; 2; 3; 4; 5; 6; 7; 8; 9] BN_init).
  - repeat constructor; discriminate.
  - cbn; lia.
  - apply generous_room; [apply zero_malloc_generous|reflexivity|reflexivity|discriminate].
Defined.

(** [BN_le2bn] does not set the sign and [BN_bin2bn] does not set it for an
    empty input: read into a negative number, little-endian bytes give the
    negative of their value, and no bytes give a negative zero, which
    [BN_cmp] takes for less than zero. *)
Theorem BN_conversions_keep_sign (malloc : Z -> option (list Z)) (inp : list Z) (ret : BIGNUM) (Hi : bytes_ok inp) (L : 1 <= Z.of_nat (length inp))
  (N0 : neg ret = true) (Rm : room malloc ret ((Z.of_nat (length inp) - 1) / 8 + 1)) :
  (exists bn, BN_le2bn malloc inp (Z.of_nat (length inp)) ret = Some bn /\ value bn = - le_val inp) /\
  (exists bn, BN_bin2bn malloc [] 0 ret = Some bn /\ BN_is_zero bn = true /\ BN_is_negative bn = true /\ BN_cmp (Some bn) (Some BN_init) = -1).
Proof.
  split.
  - unfold BN_le2bn. destruct (Z.eqb_spec (Z.of_nat (length inp)) 0); [lia|]. destruct (room_spec _ _ _ _ Rm (Z.le_refl _)) as (r' & -> & _ & Nr). rewrite Nat2Z.id, firstn_all.
    destruct (words_of_bytes_spec (Z.to_nat ((Z.of_nat (length inp) - 1) / 8 + 1)) inp Hi) as (W & Lw & V); [lia_div|].
    eexists. split; [reflexivity|]. unfold value, mag. cbn [with_d d neg]. rewrite Nr, N0. now rewrite V.
  - exists (with_d ret []). split; [reflexivity|]. split; [reflexivity|]. split; [exact N0|]. unfold BN_cmp. cbn [with_d neg BN_init]. now rewrite N0.
Qed.

Lemma BN_conversions_keep_sign_witness :
  (exists bn, BN_le2bn zero_malloc [3] 1 (mk_bn [1] 1 true false) = Some bn /\ value bn = - le_val [3]) /\
  (exists bn, BN_bin2bn zero_malloc [] 0 (mk_bn [1] 1 true false) = Some bn /\ BN_is_zero bn = true /\ BN_is_negative bn = true /\ BN_cmp (Some bn) (Some BN_init) = -1).
Proof.
  apply (BN_conversions_keep_sign zero_malloc [3] (mk_bn [1] 1 true false)).
  - repeat constructor; discriminate.
  - cbn; lia.
  - reflexivity.
  - apply generous_room; [apply zero_malloc_generous|reflexivity|discriminate|discriminate].
Defined.

(** ** Division *)

Lemma even_word_bit x c : word_ok 64 x -> Z.even x = true -> c = 0 \/ c = 1 -> Z.lor x c = x + c /\ word_ok 64 (x + c).
Proof.
  intros Hx Ev Hc. apply Z.even_spec in Ev as [y ->]. unfold word_ok in *. split; [|lia].
  pose proof (shiftl_lor_add y c 1 ltac:(lia) ltac:(lia)) as E. rewrite Z.shiftl_mul_pow2 in E by lia. change (2 ^ 1) with 2 in E. rewrite (Z.mul_comm 2). exact E.
Qed.

Lemma div_bit_spec m r bit k : words_ok m -> words_ok r -> length m = k -> length r = k -> (1 <= k)%nat -> Z.of_nat k < 2 ^ 64 -> bn_val r < bn_val m -> bit = 0 \/ bit = 1 ->
  let (r', b) := div_bit m (Z.of_nat k) r bit in
  words_ok r' /\ length r' = k /\ bn_val r' = (2 * bn_val r + bit) mod bn_val m /\ b = (2 * bn_val r + bit) / bn_val m /\ (b = 0 \/ b = 1).
Proof.
  intros Wm Wr Lm Lr K1 K Lt Hb. unfold div_bit. pose proof (bn_add_words_spec r r k Wr Wr ltac:(lia) ltac:(lia) K) as S. rewrite !firstn_all2 in S by lia.
  destruct (bn_add_words r r _) as [s c]. destruct S as (Ls & Ws & Hc & V). destruct s as [|x s]; [cbn in Ls; lia|]. cbn [set_nth nth] in *.
  apply Forall_cons_iff in Ws as [Hx Ws]. cbn [bn_val length] in V, Ls.
  assert (B ^ Z.of_nat k = B * B ^ Z.of_nat (length s)) as Ek by (rewrite <- Z.pow_succ_r by lia; f_equal; lia). rewrite Ek in V.
  assert (Z.even x = true) as Ev.
  { rewrite <- (Z.even_add_mul_2 x (2 ^ 63 * (bn_val s + B ^ Z.of_nat (length s) * c))). replace (x + 2 * _) with (2 * bn_val r) by (unfold B in *; lia). now rewrite Z.even_mul. }
  destruct (even_word_bit x bit Hx Ev Hb) as [-> Hx']. rewrite bn_reduce_once_in_place_eq.
  pose proof (bn_reduce_once_spec ((x + bit) :: s) c m k) as R. cbn [bn_val length] in R. rewrite Ek in R. replace (x + bit + B * bn_val s + B * B ^ Z.of_nat (length s) * c) with (2 * bn_val r + bit) in R by lia.
  specialize (R ltac:(now constructor) Wm ltac:(lia) Lm K Hc ltac:(lia)). destruct (bn_reduce_once _ _ _ _) as [r' sub]. destruct R as (Lr' & Wr' & Vr' & ->).
  split; [exact Wr'|]. split; [exact Lr'|]. split; [exact Vr'|]. pose proof (bn_val_bound r Wr). set (y := 2 * bn_val r + bit) in *. rewrite not_mask.
  destruct (Z.ltb_spec y (bn_val m)) as [C|C]; cbn [negb mask].
  - rewrite Z.land_0_l, Z.div_small by lia. lia.
  - assert (y / bn_val m = 1) as -> by (symmetry; apply (Z.div_unique _ _ 1 (y - bn_val m)); lia). split; [reflexivity|now right].
Qed.

Lemma div_word_spec m k x : words_ok m -> length m = k -> (1 <= k)%nat -> Z.of_nat k < 2 ^ 64 -> word_ok 64 x -> forall j r q, (j <= 64)%nat -> words_ok r -> length r = k -> bn_val r < bn_val m ->
  0 <= q -> q * 2 ^ Z.of_nat j + 2 ^ Z.of_nat j <= 2 ^ 64 ->
  let y := bn_val r * 2 ^ Z.of_nat j + x mod 2 ^ Z.of_nat j in
  let (r', q') := div_word m (Z.of_nat k) x j r (q * 2 ^ Z.of_nat j) in
  words_ok r' /\ length r' = k /\ bn_val r' = y mod bn_val m /\ q' = q * 2 ^ Z.of_nat j + y / bn_val m.
Proof.
  intros Wm Lm K1 K Hx. induction j as [|j IH]; intros r q Hj Wr Lr Lt Q0 Q1; cbn [div_word]; cbv zeta.
  { change (2 ^ Z.of_nat 0) with 1. rewrite Z.mod_1_r, Z.add_0_r, !Z.mul_1_r. pose proof (bn_val_bound r Wr). rewrite Z.mod_small, Z.div_small by lia. repeat split; try assumption; lia. }
  set (b := Z.land (Z.shiftr x (Z.of_nat j)) 1). assert (b = x / 2 ^ Z.of_nat j mod 2) as Eb by (subst b; change 1 with (2 ^ 1 - 1); rewrite land_mask, Z.shiftr_div_pow2 by lia; reflexivity).
  assert (b = 0 \/ b = 1) as Hb by (pose proof (Z.mod_pos_bound (x / 2 ^ Z.of_nat j) 2 ltac:(lia)); lia).
  pose proof (div_bit_spec m r b k Wm Wr Lm Lr K1 K Lt Hb) as S. destruct (div_bit _ _ _ _) as [r1 c]. destruct S as (Wr1 & Lr1 & Vr1 & Vc & Hc).
  rewrite Nat2Z.inj_succ, Z.pow_succ_r in * by lia. set (P := 2 ^ Z.of_nat j) in *. assert (0 < P) by (apply Z.pow_pos_nonneg; lia). pose proof (bn_val_bound r Wr) as Br. assert (0 < bn_val m) by lia.
  assert (0 <= c * P < 2 ^ 64) by (destruct Hc as [-> | ->]; nia).
  assert (Z.lor (q * (2 * P)) (u64 (Z.shiftl c (Z.of_nat j))) = (2 * q + c) * P) as ->.
  { rewrite Z.shiftl_mul_pow2 by lia. fold P. rewrite wrap_small by (unfold word_ok; lia). replace (q * (2 * P)) with (q * 2 ^ Z.of_nat (S j)) by (rewrite Nat2Z.inj_succ, Z.pow_succ_r by lia; reflexivity).
    rewrite <- Z.shiftl_mul_pow2, shiftl_lor_add by (rewrite ?Nat2Z.inj_succ, ?Z.pow_succ_r by lia; fold P; destruct Hc as [-> | ->]; lia).
    rewrite Nat2Z.inj_succ, Z.pow_succ_r by lia. fold P. lia. }
  assert (bn_val r1 < bn_val m) as Lt1 by (rewrite Vr1; apply Z.mod_pos_bound; lia).
  specialize (IH r1 (2 * q + c) ltac:(lia) Wr1 Lr1 Lt1 ltac:(lia) ltac:(destruct Hc as [-> | ->]; nia)). cbv zeta in IH. destruct (div_word _ _ _ _ _ _) as [r' q']. destruct IH as (Wr' & Lr' & Vr' & Vq').
  split; [exact Wr'|]. split; [exact Lr'|].
  assert (bn_val r * (2 * P) + x mod (2 * P) = (bn_val r1 * P + x mod P) + (c * P) * bn_val m) as ->.
  { rewrite (Z.mul_comm 2 P), Z.rem_mul_r, <- Eb by lia. pose proof (Z.div_mod (2 * bn_val r + b) (bn_val m) ltac:(lia)) as D. rewrite <- Vc, <- Vr1 in D. nia. }
  rewrite Z.mod_add, Z.div_add by lia. split; [exact Vr'|]. rewrite Vq'. lia.
Qed.

Lemma div_words_spec m k num : words_ok m -> length m = k -> (1 <= k)%nat -> Z.of_nat k < 2 ^ 64 -> words_ok num -> forall i r qs, (i <= length num)%nat -> words_ok r -> length r = k -> bn_val r < bn_val m ->
  let y := bn_val r * B ^ Z.of_nat i + bn_val (firstn i num) in
  let (r', q') := div_words m (Z.of_nat k) num i r (repeat 0 i ++ qs) in
  words_ok r' /\ length r' = k /\ bn_val r' = y mod bn_val m /\ exists ws, q' = ws ++ qs /\ length ws = i /\ words_ok ws /\ bn_val ws = y / bn_val m.
Proof.
  intros Wm Lm K1 K Wn. induction i as [|i IH]; intros r qs Hi Wr Lr Lt; cbn [div_words]; cbv zeta.
  { change (B ^ Z.of_nat 0) with 1. cbn [firstn bn_val repeat app]. rewrite Z.mul_1_r, Z.add_0_r. pose proof (bn_val_bound r Wr). rewrite Z.mod_small, Z.div_small by lia.
    split; [exact Wr|]. split; [exact Lr|]. split; [reflexivity|]. exists []. repeat split. constructor. }
  set (x := nth i num 0). assert (word_ok 64 x) as Hx by (apply (proj1 (Forall_nth (word_ok 64) num) Wn); lia).
  replace (nth i (repeat 0 (S i) ++ qs) 0) with (0 * 2 ^ Z.of_nat 64) by (rewrite app_nth1 by (rewrite repeat_length; lia); symmetry; apply nth_repeat).
  pose proof (div_word_spec m k x Wm Lm K1 K Hx 64 r 0 ltac:(lia) Wr Lr Lt ltac:(lia) ltac:(reflexivity || discriminate)) as S. cbv zeta in S.
  destruct (div_word _ _ _ _ _ _) as [r1 w]. destruct S as (Wr1 & Lr1 & Vr1 & Vw). change (2 ^ Z.of_nat 64) with B in *. rewrite (Z.mod_small x) in * by exact Hx. rewrite Z.mul_0_l, Z.add_0_l in Vw.
  pose proof (bn_val_bound r Wr) as Br. assert (0 < bn_val m) by lia. unfold word_ok in Hx. fold B in Hx.
  assert (word_ok 64 w) as Ww by (unfold word_ok; fold B; rewrite Vw; split; [apply Z.div_pos; nia|apply Z.div_lt_upper_bound; [lia|nia]]).
  assert (set_nth i w (repeat 0 (S i) ++ qs) = repeat 0 i ++ w :: qs) as ->.
  { replace (S i) with (i + 1)%nat by lia. rewrite repeat_app, <- app_assoc. rewrite <- (repeat_length 0 i) at 1. apply set_nth_app. }
  assert (bn_val r1 < bn_val m) as Lt1 by (rewrite Vr1; apply Z.mod_pos_bound; lia).
  specialize (IH r1 (w :: qs) ltac:(lia) Wr1 Lr1 Lt1). cbv zeta in IH. destruct (div_words _ _ _ _ _ _) as [r' q']. destruct IH as (Wr' & Lr' & Vr' & ws & -> & Lws & Wws & Vws).
  split; [exact Wr'|]. split; [exact Lr'|]. rewrite Nat2Z.inj_succ, Z.pow_succ_r, (bn_val_firstn_last num) by lia. replace (S i - 1)%nat with i by lia. fold x.
  set (P := B ^ Z.of_nat i) in *.
  assert (bn_val r * (B * P) + (bn_val (firstn i num) + P * x) = (bn_val r1 * P + bn_val (firstn i num)) + (w * P) * bn_val m) as ->.
  { pose proof (Z.div_mod (bn_val r * B + x) (bn_val m) ltac:(lia)) as D. rewrite <- Vw, <- Vr1 in D. nia. }
  rewrite Z.mod_add, Z.div_add by lia. split; [exact Vr'|]. exists (ws ++ [w]). split; [now rewrite <- app_assoc|]. split; [rewrite length_app; cbn; lia|].
  split; [apply Forall_app; split; [exact Wws|now constructor]|]. rewrite bn_val_app, Lws, Vws. cbn [bn_val]. fold P. lia.
Qed.

Lemma bn_val_repeat_app k l : bn_val (repeat 0 k ++ l) = B ^ Z.of_nat k * bn_val l.
Proof. rewrite bn_val_app, bn_val_zeros, repeat_length. lia. Qed.

Lemma zeros_ok k : words_ok (repeat 0 k).
Proof. apply Forall_forall. intros x Hx. apply repeat_spec in Hx as ->. split; [lia|reflexivity]. Qed.

(** The numerator's words that are less than the divisor, whatever it is *)
Lemma initial_words_spec dmb num divisor : bn_ok num -> bn_ok divisor -> mag divisor <> 0 -> 0 <= dmb <= BN_num_bits divisor ->
  exists w, (if 0 <? dmb then let w := (dmb - 1) / BN_BITS2 in if bn_width num <? w then bn_width num else w else 0) = Z.of_nat w /\
  (w <= length (d num))%nat /\ (w <= length (d divisor))%nat /\ forall l, words_ok l -> length l = w -> bn_val l < mag divisor.
Proof.
  intros On Od N0 Hb. rewrite BN_num_bits_spec, (proj2 (Z.eqb_neq _ 0) N0) in Hb by exact Od. destruct On as [Wn Sn], Od as [Wd Sd]. pose proof (mag_bound divisor Wd) as Bd.
  pose proof (Z.log2_spec (mag divisor) ltac:(lia)) as [Lo _]. pose proof (Z.log2_nonneg (mag divisor)).
  assert (Z.log2 (mag divisor) < 64 * bn_width divisor) as Ub by (apply Z.log2_lt_pow2; [lia|]; rewrite Z.pow_mul_r by (lia || apply width_nonneg); exact (proj2 Bd)).
  assert (forall w, 64 * Z.of_nat w <= Z.log2 (mag divisor) -> forall l, words_ok l -> length l = w -> bn_val l < mag divisor) as Small.
  { intros w Hw l Wl Ll. pose proof (bn_val_bound l Wl) as Bl. rewrite Ll in Bl. apply Z.lt_le_trans with (1 := proj2 Bl). apply Z.le_trans with (2 := Lo). unfold B. rewrite <- Z.pow_mul_r by lia. apply Z.pow_le_mono_r; lia. }
  unfold BN_BITS2, bn_width, width in *. destruct (Z.ltb_spec 0 dmb) as [P|P].
  - set (w := (dmb - 1) / 64). assert (0 <= w /\ 64 * w <= dmb - 1) as Hw by (subst w; lia_div). cbv zeta. destruct (Z.ltb_spec (Z.of_nat (length (d num))) w) as [C|C].
    + exists (length (d num)). split; [reflexivity|]. split; [lia|]. split; [lia|]. apply Small. lia.
    + exists (Z.to_nat w). split; [lia|]. split; [lia|]. split; [lia|]. apply Small. lia.
  - exists O. split; [reflexivity|]. split; [lia|]. split; [lia|]. apply Small. lia.
Qed.

(** C31: [bn_div_consttime] divides: it rejects negative numbers and a divisor
    of zero; for all others it gives the quotient and the remainder, whatever
    the true lower bound [divisor_min_bits] on the divisor's size lets it
    skip, and whatever the widths of the numbers. *)
Theorem bn_div_consttime_correct (malloc : Z -> option (list Z)) (q r tmp num divisor : BIGNUM) (dmb : Z) (On : bn_ok num) (Od : bn_ok divisor)
  (Rq : room malloc q (bn_width num)) (Rr : room malloc r (bn_width divisor)) (Rt : room malloc tmp (bn_width divisor)) (Hb : 0 <= dmb <= BN_num_bits divisor) :
  if neg num || neg divisor || (mag divisor =? 0) then bn_div_consttime malloc (Some tmp) (Some q) (Some r) num divisor dmb = None
  else exists q' r', bn_div_consttime malloc (Some tmp) (Some q) (Some r) num divisor dmb = Some (q', r') /\
    value q' = value num / value divisor /\ value r' = value num mod value divisor /\ bn_ok q' /\ bn_ok r'.
Proof.
  unfold bn_div_consttime, BN_is_negative. rewrite BN_is_zero_spec by apply Od. destruct (neg num) eqn:Nn; [reflexivity|]. destruct (neg divisor) eqn:Nd; [reflexivity|]. cbn [orb].
  destruct (Z.eqb_spec (mag divisor) 0) as [Z0|N0]; [reflexivity|]. destruct (initial_words_spec dmb num divisor On Od N0 Hb) as (w & Ei & Lw & Lw' & Small). cbv zeta in *.
  destruct (room_spec _ _ _ _ Rq (Z.le_refl _)) as (q1 & -> & _). destruct (room_spec _ _ _ _ Rr (Z.le_refl _)) as (r1 & -> & _). destruct (room_spec _ _ _ _ Rt (Z.le_refl _)) as (t1 & -> & _). rewrite Ei. clear Ei.
  destruct On as [Wn Sn], Od as [Wd Sd]. unfold bn_width, width in *. rewrite !Nat2Z.id. replace (Z.to_nat (Z.of_nat (length (d num)) - Z.of_nat w)) with (length (d num) - w)%nat by lia.
  set (rest := (length (d num) - w)%nat). set (top := skipn rest (d num)). assert (words_ok top) as Wt by (apply Forall_skipn', Wn). assert (length top = w) as Lt by (subst top rest; rewrite length_skipn; lia).
  assert (skipn w (repeat 0 (length (d divisor))) = repeat 0 (length (d divisor) - w)) as ->.
  { replace (length (d divisor)) with (w + (length (d divisor) - w))%nat at 1 by lia. rewrite repeat_app, skipn_app, skipn_all2, repeat_length, Nat.sub_diag by (rewrite repeat_length; lia). reflexivity. }
  set (r0 := top ++ _). assert (words_ok r0) as Wr0 by (apply Forall_app; split; [exact Wt|apply zeros_ok]). assert (length r0 = length (d divisor)) as Lr0 by (subst r0; rewrite length_app, repeat_length; lia).
  assert (bn_val r0 = bn_val top) as Vr0 by (subst r0; rewrite bn_val_app, bn_val_zeros; lia). pose proof (Small top Wt Lt) as Lt0.
  assert (1 <= length (d divisor))%nat as L1 by (unfold mag in N0; destruct (d divisor); [now destruct N0|cbn; lia]).
  assert (repeat 0 (length (d num)) = repeat 0 rest ++ repeat 0 w) as -> by (rewrite <- repeat_app; f_equal; lia).
  pose proof (div_words_spec (d divisor) (length (d divisor)) (d num) Wd eq_refl L1 ltac:(lia) Wn rest r0 (repeat 0 w) ltac:(lia) Wr0 Lr0 ltac:(rewrite Vr0; exact Lt0)) as S. cbv zeta in S.
  destruct (div_words _ _ _ _ _ _) as [r' q']. destruct S as (Wr' & Lr' & Vr' & ws & -> & Lws & Wws & Vws).
  assert (bn_val r0 * B ^ Z.of_nat rest + bn_val (firstn rest (d num)) = mag num) as Ey by (unfold mag; rewrite Vr0, (bn_val_split rest (d num)) by lia; subst top; lia). rewrite Ey in *.
  eexists _, _. split; [reflexivity|]. unfold value, mag in *. cbn [with_neg with_d d neg]. rewrite Nn, Nd, bn_val_app, bn_val_zeros, Vws, Vr', Z.mul_0_r, Z.add_0_r.
  split; [reflexivity|]. split; [reflexivity|]. split; split; unfold bn_width, width; cbn [with_neg with_d d].
  - apply Forall_app. split; [exact Wws|apply zeros_ok].
  - rewrite length_app, repeat_length. lia.
  - exact Wr'.
  - lia.
Qed.

Lemma bn_div_consttime_correct_witness :
  let num := mk_bn [3; 5; 7; 0] 4 false false in let divisor := mk_bn [9; 2; 0] 3 false false in
  exists q r, bn_div_consttime zero_malloc (Some BN_init) (Some BN_init) (Some BN_init) num divisor 66 = Some (q, r) /\
    value q = value num / value divisor /\ value r = value num mod value divisor /\ bn_ok q /\ bn_ok r.
Proof.
  apply (bn_div_consttime_correct zero_malloc BN_init BN_init BN_init (mk_bn [3; 5; 7; 0] 4 false false) (mk_bn [9; 2; 0] 3 false false) 66).
  - split; [repeat constructor; discriminate|reflexivity].
  - split; [repeat constructor; discriminate|reflexivity].
  - apply generous_room; [apply zero_malloc_generous|reflexivity|discriminate|discriminate].
  - apply generous_room; [apply zero_malloc_generous|reflexivity|discriminate|discriminate].
  - apply generous_room; [apply zero_malloc_generous|reflexivity|discriminate|discriminate].
  - vm_compute. split; discriminate.
Defined.

(** ** The context for Montgomery arithmetic *)

Definition dynamic (bn : BIGNUM) : Prop := static_data bn = false /\ 0 <= dmax bn.

Lemma set_nth_zeros k x l : set_nth k x (repeat 0 k ++ 0 :: l) = repeat 0 k ++ x :: l.
Proof. rewrite <- (repeat_length 0 k) at 1. apply set_nth_app. Qed.

(** The number of bits of a number without leading zero words *)
Lemma log2_width bn : words_ok (d bn) -> minimal (d bn) -> mag bn <> 0 -> Z.log2 (mag bn) / BN_BITS2 + 1 = bn_width bn.
Proof.
  intros W M N0. pose proof (mag_bound bn W) as Bm. unfold BN_BITS2, bn_width, width in *. assert (d bn <> []) as Ne by (intros E; apply N0; unfold mag; now rewrite E).
  pose proof (M Ne) as Tn. rewrite last_nth in Tn. assert (1 <= length (d bn))%nat as L1 by (destruct (d bn); [easy|cbn; lia]).
  pose proof (bn_val_firstn_last (d bn) (length (d bn)) ltac:(lia)) as V. rewrite firstn_all in V. fold (mag bn) in V. set (t := nth _ _ 0) in *.
  assert (word_ok 64 t) as Wt by (apply (proj1 (Forall_nth (word_ok 64) _) W); lia). pose proof (bn_val_bound _ (Forall_firstn' _ (length (d bn) - 1) _ W)). unfold word_ok in Wt.
  set (k := Z.of_nat (length (d bn))) in *. replace (Z.of_nat (length (d bn) - 1)) with (k - 1) in * by lia. pose proof (B_pos (k - 1) ltac:(lia)).
  assert (B ^ (k - 1) * 1 <= B ^ (k - 1) * t) as Lb by (apply Z.mul_le_mono_nonneg_l; lia).
  assert (B ^ (k - 1) <= mag bn) as Lm by lia. clear V Lb. unfold B in Lm, Bm. rewrite <- Z.pow_mul_r in Lm, Bm by lia.
  assert (64 * (k - 1) <= Z.log2 (mag bn)) by (apply Z.log2_le_pow2; lia). assert (Z.log2 (mag bn) < 64 * k) by (apply Z.log2_lt_pow2; lia). set (b := Z.log2 (mag bn)) in *.
  assert (k - 1 = b / 64) as <- by (apply Z.div_unique with (b - 64 * (k - 1)); lia). lia.
Qed.

Section Generous.

Context (malloc : Z -> option (list Z)) (G : generous malloc).

Lemma wexpand_generous r n : dynamic r -> n <= 2 ^ 23 - 1 -> exists r', bn_wexpand malloc r n = Some r' /\ d r' = d r /\ neg r' = neg r /\ dynamic r'.
Proof.
  intros [S D] L. destruct (room_spec malloc r n n (generous_room malloc r n G S D L) (Z.le_refl _)) as (r' & E & Ed & En). exists r'. rewrite E. repeat split; try assumption.
  all: unfold bn_wexpand in E; destruct (Z.leb_spec n (dmax r)); [injection E as <-; assumption|]; destruct (_ <? n); [discriminate|]; rewrite S in E; destruct (OPENSSL_malloc malloc _); [|discriminate]; injection E as <-; cbn; lia || reflexivity.
Qed.

Lemma BN_copy_generous dest src : dynamic dest -> bn_width src <= 2 ^ 23 - 1 -> exists r, BN_copy malloc dest src = Some r /\ d r = d src /\ neg r = neg src /\ dynamic r.
Proof.
  intros D L. unfold BN_copy. destruct (wexpand_generous dest (bn_width src) D L) as (r & -> & _ & _ & Dr). eexists. split; [reflexivity|]. now repeat split; try apply Dr.
Qed.

Lemma BN_set_bit_zero r n : dynamic r -> d r = [] -> 0 <= n -> n / BN_BITS2 + 1 <= 2 ^ 23 - 1 ->
  exists s, BN_set_bit malloc r n = Some s /\ words_ok (d s) /\ bn_width s = n / BN_BITS2 + 1 /\ mag s = 2 ^ n /\ neg s = neg r /\ dynamic s.
Proof.
  intros D Ed Hn L. unfold BN_set_bit. destruct (Z.ltb_spec n 0); [lia|]. unfold bn_width, width. rewrite Ed. cbn [length].
  set (i := n / BN_BITS2) in *. set (j := n mod BN_BITS2). assert (0 <= i /\ 0 <= j < 64 /\ n = 64 * i + j) as (Hi & Hj & En) by (subst i j; unfold BN_BITS2; lia_div). clearbody i j.
  destruct (Z.leb_spec (Z.of_nat 0) i); [|lia]. destruct (wexpand_generous r (i + 1) D L) as (r' & -> & Ed' & En' & D'). cbn [with_d d]. rewrite Ed', Ed. cbn [app length]. rewrite Z.sub_0_r.
  replace (Z.to_nat (i + 1)) with (Z.to_nat i + 1)%nat by lia. rewrite repeat_app. cbn [repeat]. rewrite app_nth2, repeat_length, Nat.sub_diag by (rewrite repeat_length; lia). cbn [nth]. rewrite Z.lor_0_l.
  rewrite set_nth_zeros. assert (word_ok 64 (2 ^ j)) as Wj by (split; [apply Z.pow_nonneg; lia|apply Z.pow_lt_mono_r; lia]).
  rewrite Z.shiftl_1_l, wrap_small by exact Wj. eexists. split; [reflexivity|]. cbn [with_d d neg]. split; [apply Forall_app; split; [apply zeros_ok|now constructor]|].
  split; [rewrite length_app, repeat_length; cbn; lia|]. split; [|split; [exact En'|exact D']].
  unfold mag. cbn [with_d d]. rewrite bn_val_repeat_app. cbn [bn_val]. rewrite Z2Nat.id, Z.mul_0_r, Z.add_0_r, En, Z.pow_add_r, Z.pow_mul_r by lia. reflexivity.
Qed.

Context (tmp : BIGNUM) (Dt : dynamic tmp) (m : BIGNUM) (Om : bn_ok m) (M0 : mag m <> 0) (Sm : bn_width m <= 2 ^ 23 - 1).

(** As wide as the modulus, and reduced *)
Definition residue (r : BIGNUM) (v : Z) : Prop := words_ok (d r) /\ bn_width r = bn_width m /\ neg r = false /\ dynamic r /\ mag r = v mod mag m.

Lemma m_pos : 0 < mag m.
Proof. pose proof (mag_bound m (words _ Om)). lia. Qed.

Lemma scratch_generous : exists t, bn_scratch_space_from_ctx malloc (Some tmp) (bn_width m) = Some t.
Proof. unfold bn_scratch_space_from_ctx. destruct (wexpand_generous tmp (bn_width m) Dt Sm) as (t & -> & _). eexists. reflexivity. Qed.

Lemma mod_add_spec r a b x y : dynamic r -> residue a x -> residue b y -> exists s, bn_mod_add_consttime malloc (Some tmp) r a b m = Some s /\ residue s (x + y).
Proof.
  intros D (Wa & La & Na & Da & Va) (Wb & Lb & Nb & Db & Vb). pose proof m_pos. destruct Om as [Wm Km]. unfold bn_mod_add_consttime, bn_resized_from_ctx. rewrite La, Lb, !Z.leb_refl. destruct scratch_generous as (t & ->).
  destruct (wexpand_generous r (bn_width m) D Sm) as (r' & -> & _ & _ & D'). eexists. split; [reflexivity|]. unfold bn_width, width in *.
  destruct (bn_mod_add_words_spec (d a) (d b) (d m) (length (d m)) Wa Wb Wm ltac:(lia) ltac:(lia) eq_refl ltac:(lia)) as (L & W & V).
  - fold (mag a) (mag m). rewrite Va. apply Z.mod_pos_bound. lia.
  - fold (mag b) (mag m). rewrite Vb. apply Z.mod_pos_bound. lia.
  - split; [exact W|]. split; [unfold bn_width, width; cbn [with_neg with_d d]; lia|]. split; [reflexivity|]. split; [exact D'|]. unfold mag at 1. cbn [with_neg with_d d]. rewrite V. fold (mag a) (mag b) (mag m). rewrite Va, Vb. symmetry. apply Z.add_mod. lia.
Qed.

Lemma lshift_times_spec k : forall r x, residue r x -> exists s, lshift_times malloc (Some tmp) k r m = Some s /\ residue s (2 ^ Z.of_nat k * x).
Proof.
  induction k as [|k IH]; intros r x Hr; cbn [lshift_times]; [exists r; split; [reflexivity|]; now rewrite Z.mul_1_l|].
  unfold bn_mod_lshift1_consttime. destruct (mod_add_spec r r r x x) as (s & -> & Hs); [apply Hr|exact Hr|exact Hr|]. destruct (IH s _ Hs) as (t & E & Ht). exists t. split; [exact E|].
  rewrite Nat2Z.inj_succ, Z.pow_succ_r by lia. replace (2 * 2 ^ Z.of_nat k * x) with (2 ^ Z.of_nat k * (x + x)) by lia. exact Ht.
Qed.

Lemma exp_base_2_spec r p : Z.odd (mag m) = true -> minimal (d m) -> dynamic r -> BN_num_bits m <= p ->
  exists s, bn_mod_exp_base_2_consttime malloc (Some tmp) r p m = Some s /\ words_ok (d s) /\ bn_width s <= bn_width m /\ neg s = false /\ dynamic s /\ mag s = 2 ^ p mod mag m.
Proof.
  intros Od Mm D Hp. pose proof m_pos as Mp. unfold bn_mod_exp_base_2_consttime. rewrite BN_num_bits_spec, (proj2 (Z.eqb_neq _ 0) M0) in * by exact Om.
  pose proof (Z.log2_nonneg (mag m)). pose proof (Z.log2_spec (mag m) Mp) as [Lo Hi]. set (b := Z.log2 (mag m)) in *.
  destruct (Z.eqb_spec (b + 1) 1) as [E1|E1].
  - assert (b = 0) as E0 by lia. rewrite E0 in Hi. assert (mag m = 1) as -> by (cbn in Hi; lia). eexists. split; [reflexivity|]. rewrite Z.mod_1_r. split; [constructor|]. split; [apply width_nonneg|]. repeat split; apply D.
  - assert (b / BN_BITS2 + 1 = bn_width m) as Ew.
    { apply log2_width; [apply Om|exact Mm|exact M0]. }
    replace (b + 1 - 1) with b by lia. destruct (BN_set_bit_zero (BN_zero r) b) as (s & -> & Ws & Ls & Vs & Ns & Ds); [exact D|reflexivity|lia|rewrite Ew; exact Sm|].
    unfold bn_mod_lshift_consttime. destruct (BN_copy_generous s s Ds) as (c & -> & Ec & Nc & Dc); [lia|].
    assert (2 ^ b <> mag m) as Nb.
    { intros E. rewrite <- E in Od. replace b with (Z.succ (b - 1)) in Od by lia. rewrite Z.pow_succ_r, Z.odd_mul in Od by lia. discriminate. }
    destruct (lshift_times_spec (Z.to_nat (p - b)) c (2 ^ b)) as (t & E & Wt & Lt & Nt & Dt' & Vt).
    + split; [now rewrite Ec|]. unfold mag, bn_width, width in *. rewrite Ec. split; [lia|]. split; [now rewrite Nc, Ns|]. split; [exact Dc|]. rewrite Z.mod_small; lia.
    + rewrite E. exists t. split; [reflexivity|]. split; [exact Wt|]. split; [lia|]. split; [exact Nt|]. split; [exact Dt'|]. rewrite Vt, Z2Nat.id, <- Z.pow_add_r by lia. do 2 f_equal. lia.
Qed.

End Generous.

Lemma minimal_width_le l k : words_ok l -> minimal l -> bn_val l < B ^ Z.of_nat k -> (length l <= k)%nat.
Proof.
  intros W M Lt. destruct (Nat.le_gt_cases (length l) k) as [|C]; [assumption|]. exfalso. assert (l <> []) as Ne by (intros ->; cbn in C; lia).
  pose proof (M Ne) as Tn. rewrite last_nth in Tn. pose proof (bn_val_firstn_last l (length l) ltac:(lia)) as V. rewrite firstn_all in V. set (t := nth _ _ 0) in *.
  assert (word_ok 64 t) as Wt by (apply (proj1 (Forall_nth (word_ok 64) _) W); lia). unfold word_ok in Wt. pose proof (bn_val_bound _ (Forall_firstn' _ (length l - 1) _ W)).
  assert (B ^ Z.of_nat k <= B ^ Z.of_nat (length l - 1)) by (apply Z.pow_le_mono_r; [reflexivity|lia]). pose proof (B_pos (Z.of_nat (length l - 1)) ltac:(lia)).
  assert (B ^ Z.of_nat (length l - 1) * 1 <= B ^ Z.of_nat (length l - 1) * t) by (apply Z.mul_le_mono_nonneg_l; lia). lia.
Qed.

Lemma generous_malloc malloc n : generous malloc -> 0 <= n < 2 ^ 29 -> exists b, OPENSSL_malloc malloc n = Some b.
Proof.
  intros G Hn. unfold OPENSSL_malloc, OPENSSL_MALLOC_PREFIX. rewrite wrap_small by (unfold word_ok; lia). destruct (Z.ltb_spec (n + 8) n); [lia|].
  destruct (malloc (n + 8)) eqn:E; [eexists; reflexivity|]. exfalso. apply (G (n + 8)); [lia|exact E].
Qed.

(** C32: [BN_MONT_CTX_new_consttime] gives a context exactly for the odd
    positive moduli (here of at most nine words, the limit of the functions
    for small fields): it rejects zero, even and negative numbers, and the
    context it makes of any other number, even one with leading zero words,
    has the modulus in minimal form, the inverse of its lowest word and the
    square of [R] modulo it, so that it is one that the products, powers and
    inverses in Montgomery form are correct for. *)
Theorem BN_MONT_CTX_new_consttime_correct (malloc : Z -> option (list Z)) (tmp modulus : BIGNUM) (G : generous malloc) (Dt : dynamic tmp)
  (Om : bn_ok modulus) (Sm : bn_width modulus <= 2 ^ 23 - 1) (Lm : mag modulus < B ^ 9) :
  if (mag modulus =? 0) || negb (Z.odd (mag modulus)) || neg modulus then BN_MONT_CTX_new_consttime malloc (Some tmp) modulus = None
  else exists mont, BN_MONT_CTX_new_consttime malloc (Some tmp) modulus = Some mont /\ mont_ok mont /\ bn_val (N mont) = value modulus.
Proof.
  unfold BN_MONT_CTX_new_consttime, bn_mont_ctx_set_N_and_n0, BN_is_negative. destruct (generous_malloc malloc 64 G) as (b & ->); [lia|]. rewrite BN_is_zero_spec, BN_is_odd_spec by apply Om.
  destruct (Z.eqb_spec (mag modulus) 0) as [Z0|Z0]; [reflexivity|]. destruct (Z.odd (mag modulus)) eqn:Od; [|reflexivity]. destruct (neg modulus) eqn:Nm; [reflexivity|]. cbn [orb negb].
  destruct (BN_copy_generous malloc G BN_init modulus) as (c & -> & Ec & Nc & Dc); [now split|lia|]. assert (words_ok (d c)) as Wc by (rewrite Ec; apply Om).
  destruct (bn_set_minimal_width_spec c Wc) as (Wn & Mn & Vn & Nn & Ln). set (n := bn_set_minimal_width c) in *. assert (mag c = mag modulus) as Vc by (unfold mag; now rewrite Ec). rewrite Vc in *.
  assert (length (d n) <= 9)%nat as L9 by (apply minimal_width_le; [exact Wn|exact Mn|]; fold (mag n); rewrite Vn; exact Lm).
  assert (bn_ok n) as On by (split; [exact Wn|unfold bn_width, width; lia]). assert (bn_width n <= 9) as Wn9 by (unfold bn_width, width; lia). pose proof (width_nonneg n) as W0.
  unfold BN_BITS2. rewrite !wrap_small by (unfold word_ok; lia || (rewrite wrap_small; unfold word_ok; lia)). rewrite <- Vn in Z0, Od.
  destruct (exp_base_2_spec malloc G tmp Dt n On Z0 ltac:(lia) BN_init (bn_width n * 64 * 2)) as (rr & -> & Wr & Lr & _ & Dr & Vr); [exact Od|exact Mn|now split| |].
  { rewrite BN_num_bits_spec, (proj2 (Z.eqb_neq _ 0) Z0) by exact On. pose proof (log2_width n Wn Mn Z0) as E. unfold BN_BITS2 in E. revert E. generalize (Z.log2 (mag n)). intros z E. rewrite <- E. lia_div. }
  unfold bn_resize_words. destruct (Z.leb_spec (bn_width rr) (bn_width n)); [|lia]. destruct (wexpand_generous malloc G rr (bn_width n) Dr ltac:(lia)) as (r' & -> & Ed & _). eexists. split; [reflexivity|].
  cbn [with_d d]. rewrite Ed. unfold bn_width, width in *. rewrite Ed.
  assert (bn_val (d rr ++ repeat 0 (Z.to_nat (Z.of_nat (length (d n)) - Z.of_nat (length (d rr))))) = bn_val (d rr)) as Vp by (rewrite bn_val_app, bn_val_zeros; lia).
  split; [split; unfold width; cbn [N RR n0]|].
  - exact Wn.
  - exact Od.
  - unfold BN_SMALL_MAX_WORDS. lia.
  - reflexivity.
  - apply Forall_app. split; [exact Wr|apply zeros_ok].
  - rewrite length_app, repeat_length. lia.
  - rewrite Vp. fold (mag rr) (mag n). rewrite Vr. unfold B. rewrite <- !Z.pow_mul_r by lia. do 2 f_equal. lia.
  - cbn [N]. fold (mag n). unfold value. now rewrite Nm, Vn.
Qed.

Lemma BN_MONT_CTX_new_consttime_correct_witness :
  exists mont, BN_MONT_CTX_new_consttime zero_malloc (Some BN_init) (mk_bn [2 ^ 64 - 1; 2 ^ 25 - 1; 0] 3 false false) = Some mont /\ mont_ok mont /\ bn_val (N mont) = 2 ^ 89 - 1.
Proof.
  apply (BN_MONT_CTX_new_consttime_correct zero_malloc BN_init (mk_bn [2 ^ 64 - 1; 2 ^ 25 - 1; 0] 3 false false)).
  - apply zero_malloc_generous.
  - split; [reflexivity|discriminate].
  - split; [repeat constructor; discriminate|reflexivity].
  - discriminate.
  - reflexivity.
Defined.

(** ** Shifts *)

Lemma shift_split s : 0 < s < 64 -> 0 < 2 ^ s /\ 0 < 2 ^ (64 - s) /\ B = 2 ^ s * 2 ^ (64 - s).
Proof. intros Hs. split; [apply Z.pow_pos_nonneg; lia|]. split; [apply Z.pow_pos_nonneg; lia|]. unfold B. rewrite <- Z.pow_add_r by lia. f_equal. lia. Qed.

Lemma lshift_loop_spec lb l : 0 < lb < 64 -> words_ok l -> forall below, 0 <= below < 2 ^ lb ->
  let r := lshift_loop lb below l in words_ok r /\ length r = S (length l) /\ bn_val r = below + 2 ^ lb * bn_val l.
Proof.
  intros Hlb. destruct (shift_split lb Hlb) as (P1 & P2 & EB). assert (2 ^ lb <= 2 ^ 64) as Pm by (apply Z.pow_le_mono_r; lia).
  induction 1 as [|x l Hx Hl IH]; intros below Hb; cbn [lshift_loop bn_val length]; cbv zeta.
  { split; [constructor; [unfold word_ok; lia|constructor]|]. split; [reflexivity|lia]. }
  unfold word_ok in Hx. fold B in Hx. unfold BN_BITS2. rewrite Z.shiftr_div_pow2 by lia.
  assert (u64 (Z.shiftl x lb) = Z.shiftl (x mod 2 ^ (64 - lb)) lb) as -> by (rewrite !Z.shiftl_mul_pow2 by lia; unfold wrap; fold B; rewrite EB, (Z.mul_comm (2 ^ lb)), Z.mul_mod_distr_r by lia; reflexivity).
  rewrite shiftl_lor_add by lia. pose proof (Z.div_mod x (2 ^ (64 - lb)) ltac:(lia)) as D. pose proof (Z.mod_pos_bound x (2 ^ (64 - lb)) P2) as M.
  assert (0 <= x / 2 ^ (64 - lb) < 2 ^ lb) as Q by (split; [apply Z.div_pos; lia|apply Z.div_lt_upper_bound; lia]).
  destruct (IH _ Q) as (W & L & V). set (lo := x mod 2 ^ (64 - lb)) in *. set (hi := x / 2 ^ (64 - lb)) in *. clearbody lo hi.
  split; [constructor; [unfold word_ok; fold B; rewrite EB; nia|exact W]|]. split; [now rewrite L|]. rewrite V, D. replace (B * (hi + 2 ^ lb * bn_val l)) with (2 ^ lb * 2 ^ (64 - lb) * hi + 2 ^ lb * B * bn_val l) by (rewrite EB at 2; lia). lia.
Qed.

Lemma rshift_loop_spec sb l : 0 < sb < 64 -> words_ok l -> let r := rshift_loop sb l in words_ok r /\ length r = length l /\ bn_val r = bn_val l / 2 ^ sb.
Proof.
  intros Hs. destruct (shift_split sb Hs) as (P1 & P2 & EB). induction 1 as [|x l Hx Hl IH]; cbv zeta; [split; [constructor|]; split; [reflexivity|]; symmetry; apply Z.div_0_l; lia|].
  unfold word_ok in Hx. fold B in Hx. assert (0 <= x / 2 ^ sb < 2 ^ (64 - sb)) as Q by (split; [apply Z.div_pos; lia|apply Z.div_lt_upper_bound; lia]).
  assert (2 ^ (64 - sb) <= B) as Pm by (unfold B; apply Z.pow_le_mono_r; lia).
  destruct l as [|y l]; cbn [rshift_loop].
  { rewrite Z.shiftr_div_pow2 by lia. cbn [bn_val length]. rewrite Z.mul_0_r, !Z.add_0_r. split; [constructor; [unfold word_ok; fold B; lia|constructor]|]. now split. }
  cbv zeta in IH. change (match l with [] => [Z.shiftr y sb] | z :: _ => Z.lor (Z.shiftr y sb) (u64 (Z.shiftl z (BN_BITS2 - sb))) :: rshift_loop sb l end) with (rshift_loop sb (y :: l)).
  destruct IH as (W & L & V). set (V0 := bn_val (y :: l)) in *. cbn [bn_val]. change (y + B * bn_val l) with V0. rewrite V. assert (V0 mod 2 ^ sb = y mod 2 ^ sb) as Ey by (subst V0; cbn [bn_val]; rewrite EB, <- Z.mul_assoc, (Z.mul_comm (2 ^ sb)), Z.mod_add by lia; reflexivity).
  assert (Z.lor (Z.shiftr x sb) (u64 (Z.shiftl y (BN_BITS2 - sb))) = x / 2 ^ sb + (y mod 2 ^ sb) * 2 ^ (64 - sb)) as ->.
  { unfold BN_BITS2. assert (u64 (Z.shiftl y (64 - sb)) = Z.shiftl (y mod 2 ^ sb) (64 - sb)) as -> by (rewrite !Z.shiftl_mul_pow2 by lia; unfold wrap; fold B; rewrite EB, Z.mul_mod_distr_r by lia; reflexivity).
    rewrite Z.lor_comm, Z.shiftr_div_pow2, shiftl_lor_add by lia. lia. }
  pose proof (Z.mod_pos_bound y (2 ^ sb) P1) as My. split; [constructor; [unfold word_ok; fold B; rewrite EB; nia|exact W]|]. split; [cbn [length] in *; now rewrite L|].
  replace (x + B * V0) with (x + (2 ^ (64 - sb) * V0) * 2 ^ sb) by (rewrite EB; lia). rewrite Z.div_add by lia. pose proof (Z.div_mod V0 (2 ^ sb) ltac:(lia)) as D. rewrite Ey in D. rewrite D at 2. rewrite EB. lia.
Qed.

Lemma bn_rshift_words_spec a shift : words_ok a -> 0 <= shift ->
  let r := bn_rshift_words a shift (width a) in words_ok r /\ length r = length a /\ bn_val r = bn_val a / 2 ^ shift.
Proof.
  intros Ha Hs. cbv zeta. unfold bn_rshift_words, width. set (sw := shift / BN_BITS2). set (sb := shift mod BN_BITS2). assert (0 <= sw /\ 0 <= sb < 64 /\ shift = 64 * sw + sb) as (W0 & S0 & E) by (subst sw sb; unfold BN_BITS2; lia_div). clearbody sw sb. subst shift.
  rewrite Z.pow_add_r, Z.pow_mul_r by lia. change (2 ^ 64) with B. pose proof (bn_val_bound a Ha) as Ba. assert (0 < 2 ^ sb) as P by (apply Z.pow_pos_nonneg; lia). pose proof (B_pos sw W0) as Pw.
  destruct (Z.leb_spec (Z.of_nat (length a)) sw) as [C|C].
  - split; [apply zeros_ok|]. split; [rewrite repeat_length; lia|]. rewrite bn_val_zeros. symmetry. apply Z.div_small. split; [lia|]. apply Z.lt_le_trans with (1 := proj2 Ba).
    assert (B ^ Z.of_nat (length a) <= B ^ sw) by (apply Z.pow_le_mono_r; [reflexivity|lia]). nia.
  - rewrite Nat2Z.id, firstn_all. set (hi := skipn (Z.to_nat sw) a). assert (words_ok hi) as Wh by (apply Forall_skipn', Ha). assert (length hi = (length a - Z.to_nat sw)%nat) as Lh by apply length_skipn.
    assert (bn_val a / B ^ sw = bn_val hi) as Vh.
    { pose proof (bn_val_bound _ (Forall_firstn' _ (Z.to_nat sw) _ Ha)) as Bl. rewrite length_firstn, Nat.min_l, Z2Nat.id in Bl by lia. pose proof (bn_val_split (Z.to_nat sw) a ltac:(lia)) as D. rewrite Z2Nat.id in D by lia. fold hi in D.
      symmetry. apply (Z.div_unique _ _ _ (bn_val (firstn (Z.to_nat sw) a))); lia. }
    rewrite <- Z.div_div, Vh by lia.
    assert (exists t, (if sb =? 0 then hi else rshift_loop sb hi) = t /\ words_ok t /\ length t = length hi /\ bn_val t = bn_val hi / 2 ^ sb) as (t & -> & Wt & Lt & Vt).
    { destruct (Z.eqb_spec sb 0) as [->|N0]; [exists hi; rewrite Z.div_1_r; now repeat split|]. eexists. split; [reflexivity|]. apply rshift_loop_spec; [lia|exact Wh]. }
    split; [apply Forall_app; split; [exact Wt|apply zeros_ok]|]. split; [rewrite length_app, repeat_length; lia|]. rewrite bn_val_app, bn_val_zeros, Vt. lia.
Qed.

Lemma secret_shift_loop_spec max_bits n fuel : forall i r V, 0 <= n -> word_ok 32 max_bits -> 0 <= i -> Z.of_nat fuel + i = 32 -> words_ok r -> bn_val r = V / 2 ^ (n mod 2 ^ i) -> 0 <= V ->
  Z.of_nat (length r) < 2 ^ 64 ->
  let s := secret_shift_loop fuel i max_bits n (width r) r in
  words_ok s /\ length s = length r /\ exists j, i <= j <= 32 /\ (Z.shiftr max_bits j = 0 \/ j = 32) /\ (i < j -> Z.shiftr max_bits (j - 1) <> 0) /\ bn_val s = V / 2 ^ (n mod 2 ^ j).
Proof.
  induction fuel as [|fuel IH]; intros i r V Hn Hm Hi Hf Wr Vr V0 Lr; cbv zeta; cbn [secret_shift_loop].
  { split; [exact Wr|]. split; [reflexivity|]. exists i. repeat split; try assumption; lia. }
  destruct (Z.eqb_spec (Z.shiftr max_bits i) 0) as [Z0|Z0].
  { split; [exact Wr|]. split; [reflexivity|]. exists i. repeat split; try assumption; lia. }
  assert (word_ok 32 (2 ^ i)) as Wi by (split; [apply Z.pow_nonneg; lia|apply Z.pow_lt_mono_r; lia]). rewrite Z.shiftl_1_l, (wrap_small 32) by exact Wi.
  destruct (bn_rshift_words_spec r (2 ^ i) Wr) as (Wt & Lt & Vt); [apply Wi|]. set (t := bn_rshift_words r (2 ^ i) (width r)) in *.
  set (b := Z.land (Z.shiftr n i) 1). assert (b = n / 2 ^ i mod 2) as Eb by (subst b; change 1 with (2 ^ 1 - 1); rewrite land_mask, Z.shiftr_div_pow2 by lia; reflexivity).
  assert (b = 0 \/ b = 1) as Hb by (pose proof (Z.mod_pos_bound (n / 2 ^ i) 2 ltac:(lia)); lia). rewrite (borrow_mask b Hb). set (r' := if b =? 1 then t else r).
  assert (bn_select_words (mask 64 (b =? 1)) t r (width r) = r') as -> by (unfold width; rewrite bn_select_words_spec by (assumption || lia); apply firstn_all2; subst r'; destruct (b =? 1); lia).
  assert (words_ok r' /\ length r' = length r) as [Wr' Lr'] by (subst r'; destruct (b =? 1); now split).
  assert (bn_val r' = V / 2 ^ (n mod 2 ^ (i + 1))) as Vr'.
  { rewrite Z.pow_add_r, Z.pow_1_r, Z.rem_mul_r, <- Eb by lia. pose proof (Z.mod_pos_bound n (2 ^ i) ltac:(apply Z.pow_pos_nonneg; lia)) as M. subst r'. destruct Hb as [E1|E1]; rewrite E1; cbn [Z.eqb Pos.eqb].
    - now rewrite Z.mul_0_r, Z.add_0_r.
    - rewrite Z.mul_1_r, Vt, Vr, Z.pow_add_r, Z.div_div by (try apply Z.pow_nonzero; try apply Z.pow_pos_nonneg; lia). reflexivity. }
  assert (width r = width r') as -> by (unfold width; now rewrite Lr').
  destruct (IH (i + 1) r' V) as (W & L & j & Hj & Hs & Hp & Vs); try assumption; try lia. split; [exact W|]. split; [lia|]. exists j. split; [lia|]. split; [exact Hs|]. split; [|exact Vs].
  intros _. destruct (Z.eq_dec (i + 1) j) as [<-|]; [now replace (i + 1 - 1) with i by lia|apply Hp; lia].
Qed.

(** The shifts of big numbers: [BN_lshift] multiplies by a power of two;
    [BN_rshift] divides the magnitude, rounding to zero, and never leaves a
    negative zero; [bn_rshift_secret_shift], whose steps do not depend on the
    shift, gives the same magnitude for every shift up to the number's width. *)
Theorem BN_shifts_correct (malloc : Z -> option (list Z)) (r tmp a : BIGNUM) (n : Z) (Oa : bn_ok a) (Ca : canonical a) (Hn : 0 <= n < 2 ^ 31)
  (Rl : room malloc r (bn_width a + n / BN_BITS2 + 1)) (Rt : room malloc tmp (bn_width a)) :
  exists s t u, BN_lshift malloc r a n = Some s /\ BN_rshift malloc r a n = Some t /\ bn_rshift_secret_shift malloc (Some tmp) r a n = Some u /\
    value s = value a * 2 ^ n /\ normal s /\
    mag t = mag a / 2 ^ n /\ (neg t = true -> neg a = true) /\ normal t /\
    (n <= BN_BITS2 * bn_width a -> mag u = mag t /\ neg u = neg a).
Proof.
  unfold BN_lshift, BN_rshift, bn_rshift_secret_shift, BN_copy. destruct (Z.ltb_spec n 0); [lia|]. destruct Oa as [Wa Sa]. pose proof (width_nonneg a) as W0. assert (0 <= n / BN_BITS2) as Nw by (apply Z.div_pos; [lia|reflexivity]).
  destruct (room_spec _ _ _ _ Rl (Z.le_refl _)) as (rl & -> & _ & _). destruct (room_spec _ _ _ (bn_width a) Rl ltac:(lia)) as (rr & -> & _ & _).
  assert (bn_width (with_neg (with_d rr (d a)) (neg a)) = bn_width a) as -> by reflexivity. destruct (room_spec _ _ _ _ Rt (Z.le_refl _)) as (rt & -> & _ & _).
  set (sw := n / BN_BITS2) in *. set (sb := n mod BN_BITS2). assert (0 <= sb < 64 /\ n = 64 * sw + sb) as (S0 & E) by (subst sw sb; unfold BN_BITS2; lia_div).
  assert (exists l, (if sb =? 0 then d a ++ [0] else lshift_loop sb 0 (d a)) = l /\ words_ok l /\ bn_val l = 2 ^ sb * mag a) as (l & -> & Wl & Vl).
  { eexists. split; [reflexivity|]. destruct (Z.eqb_spec sb 0) as [->|N0].
    - split; [apply Forall_app; split; [exact Wa|constructor; [split; [lia|reflexivity]|constructor]]|]. rewrite bn_val_app. cbn [bn_val]. fold (mag a). rewrite Z.pow_0_r. lia.
    - destruct (lshift_loop_spec sb (d a) ltac:(lia) Wa 0) as (W & _ & V); [split; [lia|apply Z.pow_pos_nonneg; lia]|]. split; [exact W|]. rewrite V. reflexivity. }
  set (s := with_neg (with_d rl _) (neg a)). assert (words_ok (d s)) as Ws by (apply Forall_app; split; [apply zeros_ok|exact Wl]).
  assert (mag s = mag a * 2 ^ n) as Vs by (unfold mag at 1; cbn [s with_neg with_d d]; rewrite bn_val_repeat_app, Vl, E, Z.pow_add_r, Z.pow_mul_r, Z2Nat.id by lia; change (2 ^ 64) with B; ring).
  destruct (bn_rshift_words_spec (d a) n Wa ltac:(lia)) as (Wr & Lr & Vr). set (t := with_neg (with_d rr _) (neg a)).
  destruct (bn_set_minimal_width_spec s Ws) as (Ws' & Ms & Vs' & Ns & _). destruct (bn_set_minimal_width_spec t Wr) as (Wt' & Mt & Vt & Nt & _).
  change (mag t) with (bn_val (bn_rshift_words (d a) n (bn_width a))) in *. unfold bn_width in Vt, Nt. rewrite Vr in Vt, Nt. fold (mag a) in Vt, Nt. cbn [neg s t with_neg] in Ns, Nt.
  assert (0 < 2 ^ n) as Pn by (apply Z.pow_pos_nonneg; lia). pose proof (mag_bound a Wa) as Ba.
  eexists _, _, _. split; [reflexivity|]. split; [reflexivity|]. split; [reflexivity|]. fold s t. split; [|split; [|split; [|split; [|split]]]].
  - unfold value. rewrite Ns, Vs', Vs. destruct (Z.eqb_spec (mag a * 2 ^ n) 0) as [Z0|Z0]; [assert (mag a = 0) as Za by nia; rewrite Za; destruct (neg a); lia|destruct (neg a); lia].
  - split; [exact Ws'|exact Ms|]. unfold canonical. rewrite Ns, Vs'. destruct (Z.eqb_spec (mag s) 0); [discriminate|easy].
  - exact Vt.
  - rewrite Nt. destruct (mag a / 2 ^ n =? 0); [discriminate|tauto].
  - split; [exact Wt'|exact Mt|]. unfold canonical. rewrite Nt, Vt. destruct (Z.eqb_spec (mag a / 2 ^ n) 0); [discriminate|easy].
  - intros Le. cbn [with_neg with_d neg d]. split; [|reflexivity]. rewrite Vt. unfold mag at 1. cbn [with_d with_neg d]. unfold BN_BITS2 in *. rewrite (wrap_small 32) by (unfold word_ok; lia).
    destruct (secret_shift_loop_spec (64 * bn_width a) n 32 0 (d a) (mag a)) as (_ & _ & j & Hj & Hs & _ & V); try (assumption || reflexivity || lia).
    + unfold word_ok. lia.
    + rewrite Z.mod_1_r, Z.pow_0_r, Z.div_1_r. reflexivity.
    + unfold bn_width, width in Sa. lia.
    + unfold bn_width in *. rewrite V. f_equal. f_equal. apply Z.mod_small. split; [lia|].
      destruct Hs as [Hs| ->]; [|lia]. rewrite Z.shiftr_div_pow2 in Hs by lia. apply Z.div_small_iff in Hs; [lia|apply Z.pow_nonzero; lia].
Qed.

Lemma BN_shifts_correct_witness :
  let a := mk_bn [2 ^ 64 - 1; 5] 2 true false in
  exists s t u, BN_lshift zero_malloc BN_init a 67 = Some s /\ BN_rshift zero_malloc BN_init a 67 = Some t /\ bn_rshift_secret_shift zero_malloc (Some BN_init) BN_init a 67 = Some u /\
    value s = value a * 2 ^ 67 /\ normal s /\ mag t = mag a / 2 ^ 67 /\ (neg t = true -> neg a = true) /\ normal t /\
    (67 <= BN_BITS2 * bn_width a -> mag u = mag t /\ neg u = neg a).
Proof.
  apply (BN_shifts_correct zero_malloc BN_init BN_init (mk_bn [2 ^ 64 - 1; 5] 2 true false) 67).
  - split; [repeat constructor; discriminate|reflexivity].
  - intros _. discriminate.
  - lia.
  - apply generous_room; [apply zero_malloc_generous|reflexivity|discriminate|discriminate].
  - apply generous_room; [apply zero_malloc_generous|reflexivity|discriminate|discriminate].
Defined.

(** A larger shift has bits that [bn_rshift_secret_shift] never looks at:
    shifted by 128, a number of one word is as it was, and its right shift is
    zero. *)
Example bn_rshift_secret_shift_large :
  option_map value (bn_rshift_secret_shift zero_malloc (Some BN_init) BN_init (mk_bn [5] 1 false false) 128) = Some 5 /\
  option_map value (BN_rshift zero_malloc BN_init (mk_bn [5] 1 false false) 128) = Some 0.
Proof. split; reflexivity. Qed.

(** ** Adding and subtracting words *)

Lemma add_word_loop_spec l : words_ok l -> forall w, word_ok 64 w ->
  let (r, w') := add_word_loop l w in words_ok r /\ length r = length l /\ word_ok 64 w' /\ bn_val r + B ^ Z.of_nat (length l) * w' = bn_val l + w.
Proof.
  induction 1 as [|x l Hx Hl IH]; intros w Hw; cbn [add_word_loop length bn_val].
  { split; [constructor|]. split; [reflexivity|]. split; [exact Hw|]. rewrite Z.pow_0_r. lia. }
  destruct (Z.eqb_spec w 0) as [->|N0]; [split; [now constructor|]; split; [reflexivity|]; split; [exact Hw|]; cbn [bn_val]; lia|].
  unfold word_ok in Hx, Hw. fold B in *. set (c := if u64 (x + w) <? w then 1 else 0).
  assert (u64 (x + w) + B * c = x + w /\ (c = 0 \/ c = 1)) as [E Hc].
  { subst c. unfold wrap. fold B. destruct (Z.lt_ge_cases (x + w) B) as [L|L].
    - rewrite Z.mod_small by lia. destruct (Z.ltb_spec (x + w) w); lia.
    - assert ((x + w) mod B = x + w - B) as -> by (symmetry; apply (Z.mod_unique _ _ 1); lia). destruct (Z.ltb_spec (x + w - B) w); lia. }
  assert (word_ok 64 c) as Wc by (unfold word_ok; lia). specialize (IH c Wc). destruct (add_word_loop l c) as [r w']. destruct IH as (W & L & W' & V). cbn [bn_val length].
  split; [constructor; [apply wrap_range; lia|exact W]|]. split; [now rewrite L|]. split; [exact W'|]. rewrite Nat2Z.inj_succ, Z.pow_succ_r by lia. lia.
Qed.

Lemma sub_word_loop_spec l : words_ok l -> forall i w, word_ok 64 w -> w <= bn_val l ->
  l = [] \/ exists r j, sub_word_loop l i w = Some (r, j) /\ words_ok r /\ length r = length l /\ bn_val r = bn_val l - w /\ i <= j < i + Z.of_nat (length l).
Proof.
  induction 1 as [|x l Hx Hl IH]; intros i w Hw Le; [now left|]. right. cbn [sub_word_loop bn_val length] in *. pose proof Hx as Hx'. unfold word_ok in Hx', Hw. fold B in *.
  destruct (Z.leb_spec w x) as [C|C].
  - rewrite wrap_small by (unfold word_ok, B in *; lia). eexists _, _. split; [reflexivity|]. cbn [bn_val length]. split; [constructor; [unfold word_ok; fold B; lia|exact Hl]|]. split; [reflexivity|]. lia.
  - pose proof (bn_val_bound l Hl). destruct (IH (i + 1) 1) as [->|(r & j & -> & W & L & V & J)]; [unfold word_ok; lia|unfold B in *; lia|cbn [bn_val] in *; lia|].
    assert (u64 (x - w) = x - w + B) as -> by (unfold wrap; fold B; symmetry; apply (Z.mod_unique _ _ (-1)); lia).
    eexists _, _. split; [reflexivity|]. cbn [bn_val length]. rewrite L, V. split; [constructor; [unfold word_ok; fold B; lia|exact W]|]. split; [reflexivity|]. lia.
Qed.

Section Words.

Context (malloc : Z -> option (list Z)).

Lemma add_word_pos f a w : bn_ok a -> mag a <> 0 -> neg a = false -> word_ok 64 w -> w <> 0 -> room malloc a (bn_width a + 1) ->
  exists s, add_word_with malloc f a w = Some s /\ words_ok (d s) /\ neg s = false /\ mag s = mag a + w.
Proof.
  intros [Wa Sa] M0 Na Hw W0 Rm. unfold add_word_with. rewrite (proj2 (Z.eqb_neq w 0) W0), BN_is_zero_spec, (proj2 (Z.eqb_neq _ 0) M0), Na by exact Wa.
  pose proof (add_word_loop_spec (d a) Wa w Hw) as S. destruct (add_word_loop (d a) w) as [l c]. destruct S as (Wl & Ll & Wc & V). unfold mag in *.
  destruct (Z.eqb_spec c 0) as [->|C0]; cbn [negb].
  - eexists. split; [reflexivity|]. cbn [with_d d neg]. split; [exact Wl|]. split; [exact Na|]. lia.
  - destruct (room_spec _ _ _ _ Rm (Z.le_refl _)) as (r & -> & _ & Nr). eexists. split; [reflexivity|]. cbn [with_d d neg]. rewrite Nr, bn_val_app, Ll. cbn [bn_val].
    split; [apply Forall_app; split; [exact Wl|now constructor]|]. split; [exact Na|]. lia.
Qed.

Lemma firstn_drop_zero l k : words_ok l -> (1 <= k)%nat -> length l = k -> nth (k - 1) l 0 = 0 -> bn_val (firstn (k - 1) l) = bn_val l.
Proof. intros W K L Z0. rewrite <- (firstn_all l) at 2. rewrite L, (bn_val_firstn_last l k), Z0 by lia. lia. Qed.

Lemma sub_word_pos f a w : bn_ok a -> mag a <> 0 -> neg a = false -> word_ok 64 w -> w <> 0 ->
  exists s, sub_word_with malloc f a w = Some s /\ words_ok (d s) /\ canonical s /\ value s = mag a - w.
Proof.
  intros [Wa Sa] M0 Na Hw W0. unfold sub_word_with. rewrite (proj2 (Z.eqb_neq w 0) W0), BN_is_zero_spec, (proj2 (Z.eqb_neq _ 0) M0), Na by exact Wa.
  destruct (bn_minimal_width_spec a Wa) as (k & Ek & Lk & Vk & Dk). rewrite Ek.
  destruct (Z.eqb_spec (Z.of_nat k) 1) as [K1|K1]; cbn [andb].
  - assert (k = 1%nat) as -> by lia. destruct (d a) as [|x l] eqn:Ed; [cbn in Lk; lia|]. cbn [firstn nth bn_val set_nth] in *. apply Forall_cons_iff in Wa as [Hx Wl]. unfold word_ok in Hx, Hw.
    assert (mag a = x) as Vx by lia. pose proof Vx as Vx'. unfold mag in Vx'. rewrite Ed in Vx'. cbn [bn_val] in Vx'.
    destruct (Z.ltb_spec x w) as [C|C].
    + eexists. split; [reflexivity|]. unfold canonical, value, mag. cbn [with_neg with_d d neg bn_val]. rewrite wrap_small by (unfold word_ok; lia).
      split; [constructor; [unfold word_ok; lia|exact Wl]|]. fold (mag a). rewrite Vx. split; lia.
    + cbn [sub_word_loop]. destruct (Z.leb_spec w x); [|lia]. rewrite wrap_small by (unfold word_ok; lia). change (Z.to_nat 0) with O. cbn [nth]. unfold bn_width, width. rewrite Ed. cbn [length].
      eexists. split; [reflexivity|]. unfold canonical, value, mag. cbn [with_d d neg]. rewrite Na. fold (mag a). rewrite Vx.
      destruct (Z.eqb_spec (x - w) 0) as [Z0|Z0], (Z.eqb_spec 0 (Z.of_nat (S (length l)) - 1)) as [Z1|Z1]; cbn [andb].
      * replace (Z.to_nat (Z.of_nat (S (length l)) - 1)) with O by lia. cbn [firstn bn_val]. split; [constructor|]. split; [discriminate|lia].
      * rewrite Nat2Z.id. rewrite firstn_all2 by (cbn; lia). cbn [bn_val]. split; [constructor; [unfold word_ok; lia|exact Wl]|]. split; [discriminate|lia].
      * rewrite Nat2Z.id. rewrite firstn_all2 by (cbn; lia). cbn [bn_val]. split; [constructor; [unfold word_ok; lia|exact Wl]|]. split; [discriminate|lia].
      * rewrite Nat2Z.id. rewrite firstn_all2 by (cbn; lia). cbn [bn_val]. split; [constructor; [unfold word_ok; lia|exact Wl]|]. split; [discriminate|lia].
  - destruct Dk as [->|Dk]; [rewrite <- Vk in M0; now destruct M0|]. assert (2 <= k)%nat as K2 by (destruct k as [|[|k]]; [rewrite <- Vk in M0; now destruct M0|lia|lia]).
    assert (w <= mag a) as Le.
    { rewrite <- Vk, bn_val_firstn_last by lia. assert (word_ok 64 (nth (k - 1) (d a) 0)) as Wt by (apply (proj1 (Forall_nth (word_ok 64) _) Wa); lia). unfold word_ok in Wt, Hw.
      pose proof (bn_val_bound _ (Forall_firstn' _ (k - 1) _ Wa)). assert (B ^ 1 <= B ^ Z.of_nat (k - 1)) by (apply Z.pow_le_mono_r; [reflexivity|lia]). rewrite Z.pow_1_r in *. unfold B in *. nia. }
    destruct (sub_word_loop_spec (d a) Wa 0 w Hw Le) as [E|(r & j & -> & Wr & Lr & Vr & J)]; [rewrite E in Lk; cbn in Lk; lia|].
    eexists. split; [reflexivity|]. unfold canonical, value, mag. cbn [with_d d neg]. rewrite Na. fold (mag a) in Vr. fold (mag a). rewrite <- Vr. unfold bn_width, width in *.
    destruct (Z.eqb_spec (nth (Z.to_nat j) r 0) 0) as [Z0|Z0], (Z.eqb_spec j (Z.of_nat (length (d a)) - 1)) as [Z1|Z1]; cbn [andb].
    + replace (Z.to_nat (Z.of_nat (length (d a)) - 1)) with (length (d a) - 1)%nat by lia. split; [now apply Forall_firstn'|]. split; [discriminate|]. apply firstn_drop_zero; [exact Wr|lia|exact Lr|]. replace (length (d a) - 1)%nat with (Z.to_nat j) by lia. exact Z0.
    + rewrite Nat2Z.id, firstn_all2 by lia. split; [exact Wr|]. now split.
    + rewrite Nat2Z.id, firstn_all2 by lia. split; [exact Wr|]. now split.
    + rewrite Nat2Z.id, firstn_all2 by lia. split; [exact Wr|]. now split.
Qed.

Lemma set_word_spec a w : word_ok 64 w -> w <> 0 -> room malloc a 1 -> exists s, BN_set_word malloc a w = Some s /\ words_ok (d s) /\ neg s = false /\ mag s = w.
Proof.
  intros Hw W0 Rm. unfold BN_set_word. rewrite (proj2 (Z.eqb_neq w 0) W0). destruct (room_spec _ _ _ _ Rm (Z.le_refl _)) as (r & -> & _ & _). eexists. split; [reflexivity|].
  split; [now constructor|]. split; [reflexivity|]. unfold mag. cbn. lia.
Qed.

End Words.

Lemma flip_sign s : words_ok (d s) -> canonical s -> let s' := if negb (BN_is_zero s) then with_neg s (negb (neg s)) else s in value s' = - value s /\ canonical s' /\ words_ok (d s').
Proof.
  intros W C. cbv zeta. rewrite BN_is_zero_spec by exact W. unfold canonical, value, mag in *. destruct (Z.eqb_spec (bn_val (d s)) 0) as [Z0|Z0]; cbn [negb with_neg neg d]; destruct (neg s); cbn [negb]; repeat split; try assumption; try lia; try easy.
Qed.

(** [BN_add_word] and [BN_sub_word] add and subtract a word to and from a
    number of any sign and width: the borrow never leaves the number's words,
    the sign changes where the result passes zero, and there is no negative
    zero. *)
Theorem BN_add_word_sub_word_correct (malloc : Z -> option (list Z)) (a : BIGNUM) (w : Z) (Oa : bn_ok a) (Ca : canonical a) (Hw : word_ok 64 w)
  (Rm : room malloc a (bn_width a + 1)) :
  exists s t, BN_add_word malloc a w = Some s /\ BN_sub_word malloc a w = Some t /\
    value s = value a + w /\ canonical s /\ words_ok (d s) /\ value t = value a - w /\ canonical t /\ words_ok (d t).
Proof.
  unfold BN_add_word, BN_sub_word. destruct (Z.eq_dec w 0) as [->|W0]; [exists a, a; split; [reflexivity|]; split; [reflexivity|]; pose proof (words _ Oa); repeat split; try assumption; lia|].
  pose proof (width_nonneg a). pose proof (words _ Oa) as Wa. pose proof (mag_bound a Wa) as Ba. destruct (Z.eq_dec (mag a) 0) as [M0|M0].
  { destruct (set_word_spec malloc a w Hw W0 (room_le malloc a _ 1 Rm ltac:(lia))) as (s & Es & Ws & Ns & Vs). unfold add_word_with, sub_word_with. rewrite (proj2 (Z.eqb_neq w 0) W0), BN_is_zero_spec, M0, Es by exact Wa. cbn [Z.eqb].
    assert (value a = 0) as -> by (unfold value; rewrite M0; now destruct (neg a)). unfold BN_set_negative. rewrite BN_is_zero_spec, Vs, (proj2 (Z.eqb_neq w 0) W0) by exact Ws.
    eexists _, _. split; [reflexivity|]. split; [reflexivity|]. unfold value, canonical, mag in *. cbn [with_neg neg d negb andb]. rewrite Ns, Vs. repeat split; try assumption; lia. }
  destruct (neg a) eqn:Na.
  - set (a' := with_neg a false). assert (bn_ok a') as Oa' by exact (mk_bn_ok a' (words _ Oa) (short _ Oa)). assert (room malloc a' (bn_width a' + 1)) as Rm'.
    { intros m Hm E. apply (Rm m Hm). unfold bn_wexpand in *. cbn [a' with_neg dmax static_data] in E. destruct (m <=? dmax a); [discriminate|]. destruct (_ <? m); [reflexivity|]. destruct (static_data a); [reflexivity|]. destruct (OPENSSL_malloc malloc _); [discriminate|reflexivity]. }
    destruct (sub_word_pos malloc (fun _ _ => None) a' w Oa' M0 eq_refl Hw W0) as (s & Es & Ws & Cs & Vs). destruct (add_word_pos malloc (fun _ _ => None) a' w Oa' M0 eq_refl Hw W0 Rm') as (t & Et & Wt & Nt & Vt).
    unfold add_word_with at 1, sub_word_with at 2. rewrite (proj2 (Z.eqb_neq w 0) W0), BN_is_zero_spec, (proj2 (Z.eqb_neq _ 0) M0), Na by exact Wa. fold a'. rewrite Es, Et. change (mag a') with (mag a) in *.
    destruct (flip_sign s Ws Cs) as (Vf & Cf & Wf). eexists _, _. split; [reflexivity|]. split; [reflexivity|]. rewrite Vf, Vs. split; [unfold value; rewrite Na; lia|]. split; [exact Cf|]. split; [exact Wf|].
    unfold value, canonical, mag in *. rewrite Na. cbn [with_neg neg d]. rewrite Vt. repeat split; [lia|unfold word_ok in Hw; lia|exact Wt].
  - destruct (add_word_pos malloc (sub_word_with malloc (fun _ _ => None)) a w Oa M0 Na Hw W0 Rm) as (s & -> & Ws & Ns & Vs). destruct (sub_word_pos malloc (add_word_with malloc (fun _ _ => None)) a w Oa M0 Na Hw W0) as (t & -> & Wt & Ct & Vt).
    exists s, t. unfold value in *. rewrite Na, Ns. split; [reflexivity|]. split; [reflexivity|]. split; [exact Vs|]. split; [unfold canonical; now rewrite Ns|]. now repeat split.
Qed.

Lemma BN_add_word_sub_word_correct_witness :
  let a := mk_bn [0; 1] 3 false false in
  exists s t, BN_add_word zero_malloc a 7 = Some s /\ BN_sub_word zero_malloc a 7 = Some t /\
    value s = value a + 7 /\ canonical s /\ words_ok (d s) /\ value t = value a - 7 /\ canonical t /\ words_ok (d t).
Proof.
  apply (BN_add_word_sub_word_correct zero_malloc (mk_bn [0; 1] 3 false false) 7).
  - split; [repeat constructor; discriminate|reflexivity].
  - discriminate.
  - split; [discriminate|reflexivity].
  - apply generous_room; [apply zero_malloc_generous|reflexivity|discriminate|discriminate].
Defined.

(** ** The order of numbers *)

(** [BN_cmp] is the order of the numbers, if neither is a negative zero. *)
Theorem BN_cmp_correct (a b : BIGNUM) (Oa : bn_ok a) (Ob : bn_ok b) (Ca : canonical a) (Cb : canonical b) :
  BN_cmp (Some a) (Some b) = sign (Z.compare (value a) (value b)).
Proof.
  pose proof (mag_bound a (words _ Oa)). pose proof (mag_bound b (words _ Ob)). unfold BN_cmp, value, canonical in *. rewrite BN_ucmp_spec by assumption.
  destruct (neg a), (neg b); cbn [Bool.eqb negb].
  - rewrite Z.compare_opp, (Z.compare_antisym (mag a)). now destruct (mag a ?= mag b).
  - symmetry. change (-1) with (sign Lt). f_equal. apply Z.compare_lt_iff. specialize (Ca eq_refl). lia.
  - symmetry. change 1 with (sign Gt). f_equal. apply Z.compare_gt_iff. specialize (Cb eq_refl). lia.
  - reflexivity.
Qed.

Lemma mul_above M x : x <> 0 -> 0 <= x -> 0 < M -> M <= M * x.
Proof. intros N0 Hx HM. rewrite <- (Z.mul_1_r M) at 1. apply Z.mul_le_mono_nonneg_l; lia. Qed.

Lemma BN_equal_consttime_spec a b : words_ok (d a) -> words_ok (d b) -> BN_equal_consttime a b = (mag a =? mag b) && Bool.eqb (neg a) (neg b).
Proof.
  intros Wa Wb. unfold BN_equal_consttime, mag.
  assert (Gen : forall u v m, words_ok u -> words_ok v -> word_ok 64 m ->
    let r := fold_left (fun m xy => Z.lor m (Z.lxor (fst xy) (snd xy))) (combine u v) m in
    word_ok 64 r /\ (r =? 0) = (m =? 0) && (bn_val (firstn (length v) u) =? bn_val (firstn (length u) v))).
  { intros u v m Wu. revert v m. induction Wu as [|x u Hx Wu IH]; intros v m Wv Hm; cbv zeta; cbn [combine fold_left]; [split; [exact Hm|]; rewrite !firstn_nil; cbn; now rewrite andb_true_r|].
    destruct Wv as [|y v Hy Wv]; cbn [combine fold_left]; [split; [exact Hm|]; cbn; now rewrite andb_true_r|]. cbn [length firstn bn_val fst snd].
    destruct (IH v (Z.lor m (Z.lxor x y)) Wv) as [W E]; [apply lor_ok; [lia|exact Hm|apply lxor_ok; [lia|assumption|assumption]]|]. split; [exact W|]. rewrite E.
    pose proof (bn_val_bound _ (Forall_firstn' _ (length v) _ Wu)). pose proof (bn_val_bound _ (Forall_firstn' _ (length u) _ Wv)). unfold word_ok, B in *.
    assert ((Z.lor m (Z.lxor x y) =? 0) = (m =? 0) && (x =? y)) as ->; [apply eq_iff_eq_true; rewrite andb_true_iff, !Z.eqb_eq, Z.lor_eq_0_iff, Z.lxor_eq_0_iff; reflexivity|]. lia. }
  destruct (or_words_spec (skipn (length (d a)) (d b)) (Forall_skipn' _ _ _ Wb) 0) as [W1 E1]; [split; [lia|reflexivity]|].
  destruct (or_words_spec (skipn (length (d b)) (d a)) (Forall_skipn' _ _ _ Wa) _ W1) as [W2 E2].
  destruct (Gen (d a) (d b) _ Wa Wb W2) as [W3 E3]. set (m := fold_left _ (combine _ _) _) in *. clearbody m.
  assert ((Z.lor m (Z.b2z (xorb (neg a) (neg b))) =? 0) = (m =? 0) && Bool.eqb (neg a) (neg b)) as ->.
  { apply eq_iff_eq_true. rewrite andb_true_iff, !Z.eqb_eq, Z.lor_eq_0_iff. destruct (neg a), (neg b); cbn; intuition congruence. }
  rewrite E3, E2, E1. f_equal. cbn [Z.eqb andb]. clear E1 E2 E3 W1 W2 W3 Gen m.
  pose proof (bn_val_bound _ (Forall_skipn' _ (length (d a)) _ Wb)). pose proof (bn_val_bound _ (Forall_skipn' _ (length (d b)) _ Wa)).
  destruct (Nat.le_ge_cases (length (d a)) (length (d b))) as [L|L].
  - rewrite (skipn_all2 (d a)), (firstn_all2 (d a)) by lia. cbn [bn_val Z.eqb]. rewrite andb_true_r. pose proof (bn_val_split (length (d a)) (d b) L) as S.
    pose proof (bn_val_bound (d a) Wa) as Ba. pose proof (bn_val_bound _ (Forall_firstn' _ (length (d a)) _ Wb)) as Bf. rewrite length_firstn, Nat.min_l in Bf by lia.
    destruct (Z.eqb_spec (bn_val (skipn (length (d a)) (d b))) 0) as [Z0|Z0]; cbn [andb]; [rewrite S, Z0, Z.mul_0_r, Z.add_0_r; reflexivity|symmetry; apply Z.eqb_neq; pose proof (mul_above (B ^ Z.of_nat (length (d a))) _ Z0 ltac:(lia) ltac:(lia)); lia].
  - rewrite (skipn_all2 (d b)), (firstn_all2 (d b)) by lia. cbn [bn_val Z.eqb andb]. pose proof (bn_val_split (length (d b)) (d a) L) as S.
    pose proof (bn_val_bound (d b) Wb) as Bb. pose proof (bn_val_bound _ (Forall_firstn' _ (length (d b)) _ Wa)) as Bf. rewrite length_firstn, Nat.min_l in Bf by lia.
    destruct (Z.eqb_spec (bn_val (skipn (length (d b)) (d a))) 0) as [Z0|Z0]; cbn [andb]; [rewrite S, Z0, Z.mul_0_r, Z.add_0_r; reflexivity|symmetry; apply Z.eqb_neq; pose proof (mul_above (B ^ Z.of_nat (length (d b))) _ Z0 ltac:(lia) ltac:(lia)); lia].
Qed.
