(* ===== verification/UvIdna.v ===== *)
(** * Host names in libuv ([idna.c], [strscpy.c])

    The UTF-8 decoder, the conversion of host names to their ASCII form
    (Punycode labels) and the bounded string copy.  A [const char*] into the
    input is an index into the memory [mem] that holds it; [pe] and [se] are
    indices too.  The destination [*d .. de] is the list of bytes written so
    far and the capacity [cap = de - ds]: a store through [d] guarded by
    [*d < de] is [put].  [unsigned] is 32 bits wide. *)

From Stdlib Require Import ZArith Lia List Bool.
From S2P Require Import Prelude CStr.
Import ListNotations.

(** Error codes: negated [errno]s of the platform. *)
Definition UV_E2BIG : Z := -7.
Definition UV_EINVAL : Z := -22.

(** [(unsigned) -1] *)
Definition UINT_MAX : Z := 2 ^ 32 - 1.

(** ** [uv__strscpy] *)

Definition SSIZE_MAX : Z := 2 ^ 63 - 1.

(** The loop from index [i]; [n] is what is left of the size.  The result is
    the destination and either the index of the NUL or the final [i]. *)
Fixpoint strscpy_loop (d s : list Z) (i : Z) (n : nat) : list Z * (Z + Z) :=
  match n with
  | O => (d, inr i)
  | S n =>
      let c := at_ s i in
      let d := set_nth (Z.to_nat i) c d in
      if c =? 0 then (d, inl i) else strscpy_loop d s (i + 1) n
  end.

Definition uv__strscpy (d s : list Z) (n : Z) : list Z * Z :=
  match strscpy_loop d s 0 (Z.to_nat n) with
  | (d, inl i) => (d, if SSIZE_MAX <? i then UV_E2BIG else i)
  | (d, inr i) =>
      if i =? 0 then (d, 0)
      else (set_nth (Z.to_nat (i - 1)) 0 d, UV_E2BIG)
  end.

(** ** UTF-8 *)

(** [(value, *p)]; [p] is already past the first byte [a].  The [switch] is on
    [*p - pe], with its cases falling through. *)
Definition uv__utf8_decode1_slow (mem : list Z) (p pe a : Z) : Z * Z :=
  if 247 <? a then (UINT_MAX, p)
  else
    let case := p - pe in
    let check (a b c d min p : Z) : Z * Z :=
      if negb (Z.land 192 (Z.lxor (Z.lxor b c) d) =? 128) then (UINT_MAX, p)
      else
        let b := Z.land b 63 in
        let c := Z.land c 63 in
        let d := Z.land d 63 in
        let a := Z.lor (Z.lor (Z.lor (u32 (Z.shiftl a 18)) (Z.shiftl b 12)) (Z.shiftl c 6)) d in
        if a <? min then (UINT_MAX, p)
        else if 1114111 <? a then (UINT_MAX, p)
        else if (55296 <=? a) && (a <=? 57343) then (UINT_MAX, p)
        else (a, p) in
    if negb (case =? 2) && negb (case =? 1) && (239 <? a) then
      check (Z.land a 7) (at_ mem p) (at_ mem (p + 1)) (at_ mem (p + 2)) 65536 (p + 3)
    else if negb (case =? 1) && (223 <? a) then
      check 0 (Z.lor 128 (Z.land a 15)) (at_ mem p) (at_ mem (p + 1)) 2048 (p + 2)
    else if 191 <? a then
      check 0 128 (Z.lor 128 (Z.land a 31)) (at_ mem p) 128 (p + 1)
    else (UINT_MAX, p).

Definition uv__utf8_decode1 (mem : list Z) (p pe : Z) : Z * Z :=
  let a := at_ mem p in
  let p := p + 1 in
  if a <? 128 then (a, p) else uv__utf8_decode1_slow mem p pe a.

(** The code points a [foreach_codepoint(c, &p, pe)] loop visits.  Every round
    moves [p] forward, so [pe - p + 2] rounds are never used up. *)
Fixpoint foreach_codepoint (fuel : nat) (mem : list Z) (p pe : Z) : list Z :=
  match fuel with
  | O => []
  | S fuel =>
      if pe <? p then []
      else
        let (c, p) := uv__utf8_decode1 mem p pe in
        if pe <? p then [] else c :: foreach_codepoint fuel mem p pe
  end.

Definition codepoints (mem : list Z) (p pe : Z) : list Z :=
  foreach_codepoint (Z.to_nat (pe - p + 2)) mem p pe.

(** ** Punycode *)

Definition put (cap c : Z) (out : list Z) : list Z :=
  if Z.of_nat (length out) <? cap then out ++ [c] else out.

(** "abcdefghijklmnopqrstuvwxyz0123456789" *)
Definition alphabet : list Z := map Z.of_nat (seq 97 26) ++ map Z.of_nat (seq 48 10).

(** The first loop: [h] ASCII code points, [todo] others, or UV_EINVAL. *)
Fixpoint count_codepoints (cps : list Z) (h todo : Z) : option (Z * Z) :=
  match cps with
  | [] => Some (h, todo)
  | c :: cps =>
      if c <? 128 then count_codepoints cps (u32 (h + 1)) todo
      else if c =? UINT_MAX then None
      else count_codepoints cps h (u32 (todo + 1))
  end.

(** The second: copy the ASCII ones. *)
Fixpoint copy_ascii (cap h : Z) (cps : list Z) (x : Z) (out : list Z) : list Z :=
  match cps with
  | [] => out
  | c :: cps =>
      if 127 <? c then copy_ascii cap h cps x out
      else
        let out := put cap c out in
        if u32 (x + 1) =? h then out else copy_ascii cap h cps (u32 (x + 1)) out
  end.

(** The smallest code point not below [n]. *)
Definition next_codepoint (n : Z) (cps : list Z) : Z :=
  fold_left (fun m c => if (n <=? c) && (c <? m) then c else m) cps UINT_MAX.

(** The variable-length integer: the [for (k = 36, q = delta; ; k += 36)]
    loop.  [q] is divided by 10 or more in every round. *)
Fixpoint put_delta (fuel : nat) (cap bias k q : Z) (out : list Z) : list Z * Z :=
  match fuel with
  | O => (out, q)
  | S fuel =>
      let t := 1 in
      let t := if bias <? k then u32 (k - bias) else t in
      let t := if 26 <? t then 26 else t in
      if q <? t then (out, q)
      else
        let x := q - t in
        let y := 36 - t in
        let q := x / y in
        let t := t + x mod y in
        put_delta fuel cap bias (u32 (k + 36)) q (put cap (at_ alphabet t) out)
  end.

(** [for (bias = 0; delta > 35 * 26 / 2; bias += 36) delta /= 35;] *)
Fixpoint adapt_loop (fuel : nat) (delta bias : Z) : Z * Z :=
  match fuel with
  | O => (delta, bias)
  | S fuel => if 455 <? delta then adapt_loop fuel (delta / 35) (u32 (bias + 36)) else (delta, bias)
  end.

Record puny := mk_puny {
  pn_out : list Z;
  pn_delta : Z;
  pn_h : Z;
  pn_bias : Z;
  pn_todo : Z;
  pn_first : bool
}.

(** What follows the digits of a code point that was written. *)
Definition adapt (out : list Z) (s : puny) : puny :=
  let delta := pn_delta s / 2 in
  let delta := if pn_first s then delta / 350 else delta in
  let h := u32 (pn_h s + 1) in
  let delta := u32 (delta + delta / h) in
  let (delta, bias) := adapt_loop 8 delta 0 in
  let bias := u32 (bias + u32 (36 * delta) / (delta + 38)) in
  mk_puny out 0 h bias (u32 (pn_todo s - 1)) false.

(** The inner loop over the label; [None] is UV_E2BIG. *)
Fixpoint insert_loop (cap n : Z) (cps : list Z) (s : puny) : option puny :=
  match cps with
  | [] => Some s
  | c :: cps =>
      let delta := if c <? n then u32 (pn_delta s + 1) else pn_delta s in
      if (c <? n) && (delta =? 0) then None
      else
        let s := mk_puny (pn_out s) delta (pn_h s) (pn_bias s) (pn_todo s) (pn_first s) in
        if negb (c =? n) then insert_loop cap n cps s
        else
          let (out, q) := put_delta 12 cap (pn_bias s) 36 (pn_delta s) (pn_out s) in
          let out := put cap (at_ alphabet q) out in
          insert_loop cap n cps (adapt out s)
  end.

(** [while (todo > 0)]: every round writes one code point or more. *)
Fixpoint todo_loop (fuel : nat) (cap n : Z) (cps : list Z) (s : puny) : option puny :=
  match fuel with
  | O => None
  | S fuel =>
      if negb (0 <? pn_todo s) then Some s
      else
        let m := next_codepoint n cps in
        let x := u32 (m - n) in
        let y := u32 (pn_h s + 1) in
        if (UINT_MAX - pn_delta s) / y <? x then None
        else
          let s := mk_puny (pn_out s) (u32 (pn_delta s + x * y)) (pn_h s) (pn_bias s) (pn_todo s) (pn_first s) in
          match insert_loop cap m cps s with
          | None => None
          | Some s =>
              let s := mk_puny (pn_out s) (u32 (pn_delta s + 1)) (pn_h s) (pn_bias s) (pn_todo s) (pn_first s) in
              todo_loop fuel cap (u32 (m + 1)) cps s
          end
  end.

(** [(return value, destination)] *)
Definition uv__idna_toascii_label (mem : list Z) (s se cap : Z) (out : list Z) : Z * list Z :=
  let cps := codepoints mem s se in
  match count_codepoints cps 0 0 with
  | None => (UV_EINVAL, out)
  | Some (h, todo) =>
      let out :=
        if 0 <? todo then put cap 45 (put cap 45 (put cap 110 (put cap 120 out))) else out in
      let out := copy_ascii cap h cps 0 out in
      if todo =? 0 then (h, out)
      else
        let out := if 0 <? h then put cap 45 out else out in
        match todo_loop (S (Z.to_nat todo)) cap 128 cps (mk_puny out 0 h 72 todo true) with
        | None => (UV_E2BIG, out)
        | Some st => (0, pn_out st)
        end
  end.

(** The label separators: '.', U+3002, U+FF0E, U+FF61. *)
Definition is_dot (c : Z) : bool := (c =? 46) || (c =? 12290) || (c =? 65294) || (c =? 65377).

(** The loop of [uv__idna_toascii]: [inl] an error, [inr (s, out)] the start
    of the last label and what has been written. *)
Fixpoint toascii_loop (fuel : nat) (mem : list Z) (s si se cap : Z) (out : list Z) : Z + Z * list Z :=
  match fuel with
  | O => inr (s, out)
  | S fuel =>
      if si <? se then
        let st := si in
        let (c, si) := uv__utf8_decode1 mem si se in
        if negb (is_dot c) then toascii_loop fuel mem s si se cap out
        else
          let (rc, out) := uv__idna_toascii_label mem s st cap out in
          if rc <? 0 then inl rc
          else toascii_loop fuel mem si si se cap (put cap 46 out)
      else inr (s, out)
  end.

(** The return value, and what was written unless it is an error. *)
Definition uv__idna_toascii (mem : list Z) (s se cap : Z) : Z * list Z :=
  match toascii_loop (S (Z.to_nat (se - s))) mem s s se cap [] with
  | inl rc => (rc, [])
  | inr (s, out) =>
      let last (out : list Z) :=
        let out := put cap 0 out in (Z.of_nat (length out), out) in
      if s <? se then
        let (rc, out) := uv__idna_toascii_label mem s se cap out in
        if rc <? 0 then (rc, []) else last out
      else last out
  end.

(** ** The decoder against the UTF-8 encoding *)

(** The UTF-8 encoding of a scalar value. *)
Definition utf8 (c : Z) : list Z :=
  if c <? 128 then [c]
  else if c <? 2048 then [192 + c / 64; 128 + c mod 64]
  else if c <? 65536 then [224 + c / 4096; 128 + c / 64 mod 64; 128 + c mod 64]
  else [240 + c / 262144; 128 + c / 4096 mod 64; 128 + c / 64 mod 64; 128 + c mod 64].

Definition scalar (c : Z) : Prop := 0 <= c < 55296 \/ 57343 < c <= 1114111.

(** What the decoder does with three bytes whose top bits pass its test. *)
Definition utf8_value (a b c d min p : Z) : Z * Z :=
  let v := a * 262144 + b mod 64 * 4096 + c mod 64 * 64 + d mod 64 in
  if v <? min then (UINT_MAX, p)
  else if 1114111 <? v then (UINT_MAX, p)
  else if (55296 <=? v) && (v <=? 57343) then (UINT_MAX, p)
  else (v, p).

Definition tops_ok (b c d : Z) : bool := Z.land 192 (Z.lxor (Z.lxor b c) d) =? 128.

Lemma lor_parts a b c d :
  0 <= a < 8 -> 0 <= b < 64 -> 0 <= c < 64 -> 0 <= d < 64 ->
  Z.lor (Z.lor (Z.lor (u32 (Z.shiftl a 18)) (Z.shiftl b 12)) (Z.shiftl c 6)) d
    = a * 262144 + b * 4096 + c * 64 + d.
Proof.
  intros Ha Hb Hc Hd.
  rewrite wrap_small by (unfold word_ok; rewrite Z.shiftl_mul_pow2; lia).
  rewrite (Z.shiftl_mul_pow2 b), (Z.shiftl_mul_pow2 c) by lia.
  rewrite shiftl_lor_add by lia.
  replace (a * 2 ^ 18 + b * 2 ^ 12) with (Z.shiftl (a * 64 + b) 12) by (rewrite Z.shiftl_mul_pow2; lia).
  rewrite shiftl_lor_add by lia.
  replace ((a * 64 + b) * 2 ^ 12 + c * 2 ^ 6) with (Z.shiftl ((a * 64 + b) * 64 + c) 6)
    by (rewrite Z.shiftl_mul_pow2; lia).
  rewrite shiftl_lor_add by lia. lia.
Qed.

Lemma low_bits b : Z.land b 63 = b mod 64 /\ Z.land b 7 = b mod 8 /\ Z.land b 15 = b mod 16 /\ Z.land b 31 = b mod 32.
Proof.
  repeat split; [apply (land_mask b 6)|apply (land_mask b 3)|apply (land_mask b 4)|apply (land_mask b 5)]; lia.
Qed.

Lemma lor_128 x : 0 <= x < 64 -> Z.lor 128 x = 128 + x.
Proof. intros. change 128 with (Z.shiftl 1 7) at 1. rewrite shiftl_lor_add by lia. lia. Qed.

Lemma land_lxor_192 b c d :
  Z.land 192 (Z.lxor (Z.lxor b c) d) = Z.lxor (Z.lxor (Z.land 192 b) (Z.land 192 c)) (Z.land 192 d).
Proof.
  apply Z.bits_inj'. intros i Hi. rewrite ?Z.land_spec, ?Z.lxor_spec, ?Z.land_spec, ?Z.lxor_spec.
  destruct (Z.testbit 192 i), (Z.testbit b i), (Z.testbit c i), (Z.testbit d i); reflexivity.
Qed.

(** The slow path, arithmetically. *)
Lemma decode1_slow_spec mem p pe a :
  0 <= a < 256 -> p <= pe ->
  uv__utf8_decode1_slow mem p pe a =
    if 247 <? a then (UINT_MAX, p)
    else if 239 <? a then
      if tops_ok (at_ mem p) (at_ mem (p + 1)) (at_ mem (p + 2))
      then utf8_value (a mod 8) (at_ mem p) (at_ mem (p + 1)) (at_ mem (p + 2)) 65536 (p + 3)
      else (UINT_MAX, p + 3)
    else if 223 <? a then
      if tops_ok 128 (at_ mem p) (at_ mem (p + 1))
      then utf8_value 0 (a mod 16) (at_ mem p) (at_ mem (p + 1)) 2048 (p + 2)
      else (UINT_MAX, p + 2)
    else if 191 <? a then
      if tops_ok 128 128 (at_ mem p)
      then utf8_value 0 0 (a mod 32) (at_ mem p) 128 (p + 1)
      else (UINT_MAX, p + 1)
    else (UINT_MAX, p).
Proof.
  intros Ha Hp. unfold uv__utf8_decode1_slow. destruct (247 <? a); [reflexivity|].
  destruct (Z.eqb_spec (p - pe) 2); [lia|]. destruct (Z.eqb_spec (p - pe) 1); [lia|]. cbn [negb andb].
  destruct (low_bits a) as (_ & -> & -> & ->).
  assert (T : forall x, 0 <= x < 64 -> Z.land 192 (128 + x) = 128).
  { intros x Hx. apply Z.eqb_eq. assert (B : byte_ok (128 + x)) by (unfold word_ok; lia).
    assert (G : forall b, byte_ok b -> ((b <? 128) || (191 <? b) || (Z.land 192 b =? 128)) = true)
      by (apply byte_cases; vm_compute; reflexivity).
    specialize (G _ B). destruct (Z.ltb_spec (128 + x) 128), (Z.ltb_spec 191 (128 + x)); lia || exact G. }
  destruct (239 <? a); [|destruct (223 <? a); [|destruct (191 <? a); [|reflexivity]]].
  - unfold tops_ok. destruct (Z.eqb_spec (Z.land 192 (Z.lxor (Z.lxor (at_ mem p) (at_ mem (p + 1))) (at_ mem (p + 2)))) 128);
      cbn [negb]; [|reflexivity].
    rewrite !(fun b => proj1 (low_bits b)), lor_parts by lia_div. reflexivity.
  - rewrite lor_128 by lia_div. unfold tops_ok.
    replace (Z.land 192 (Z.lxor (Z.lxor (128 + a mod 16) (at_ mem p)) (at_ mem (p + 1))))
      with (Z.land 192 (Z.lxor (Z.lxor 128 (at_ mem p)) (at_ mem (p + 1)))).
    2: { rewrite !land_lxor_192. now rewrite T by lia_div. }
    destruct (Z.land 192 _ =? 128); cbn [negb]; [|reflexivity].
    rewrite !(fun b => proj1 (low_bits b)). replace ((128 + a mod 16) mod 64) with (a mod 16) by lia_div.
    rewrite lor_parts by lia_div. unfold utf8_value. now rewrite (Z.mod_small (a mod 16) 64) by lia_div.
  - rewrite lor_128 by lia_div. unfold tops_ok.
    replace (Z.land 192 (Z.lxor (Z.lxor 128 (128 + a mod 32)) (at_ mem p)))
      with (Z.land 192 (Z.lxor (Z.lxor 128 128) (at_ mem p))).
    2: { rewrite !land_lxor_192. now rewrite T by lia_div. }
    destruct (Z.land 192 _ =? 128); cbn [negb]; [|reflexivity].
    rewrite !(fun b => proj1 (low_bits b)). replace ((128 + a mod 32) mod 64) with (a mod 32) by lia_div.
    change (128 mod 64) with 0. rewrite lor_parts by lia_div. unfold utf8_value.
    now rewrite (Z.mod_small (a mod 32) 64) by lia_div.
Qed.

(** The bytes of [mem] from [p] on. *)
Definition reads (mem : list Z) (p : Z) (l : list Z) : Prop :=
  forall i, (i < length l)%nat -> at_ mem (p + Z.of_nat i) = nth i l 0.

Lemma reads_app pre l post : reads (pre ++ l ++ post) (Z.of_nat (length pre)) l.
Proof.
  intros i Hi. unfold at_. replace (Z.to_nat (Z.of_nat (length pre) + Z.of_nat i)) with (length pre + i)%nat by lia.
  rewrite app_nth2 by lia. replace (length pre + i - length pre)%nat with i by lia. now apply app_nth1.
Qed.

Lemma tops_cont b c d : 128 <= b < 192 -> 128 <= c < 192 -> 128 <= d < 192 -> tops_ok b c d = true.
Proof.
  assert (T : forall x, 128 <= x < 192 -> Z.land 192 x = 128).
  { intros x Hx. apply Z.eqb_eq. assert (B : byte_ok x) by (unfold word_ok; lia).
    assert (G : forall b, byte_ok b -> ((b <? 128) || (191 <? b) || (Z.land 192 b =? 128)) = true)
      by (apply byte_cases; vm_compute; reflexivity).
    specialize (G _ B). destruct (Z.ltb_spec x 128), (Z.ltb_spec 191 x); lia || exact G. }
  intros Hb Hc Hd. unfold tops_ok. rewrite land_lxor_192, !T by assumption. reflexivity.
Qed.

Lemma utf8_value_ok a b c d min p v :
  a * 262144 + b mod 64 * 4096 + c mod 64 * 64 + d mod 64 = v -> min <= v -> scalar v ->
  utf8_value a b c d min p = (v, p).
Proof.
  intros E Hm Hs. unfold utf8_value. rewrite E. unfold scalar in Hs.
  destruct (Z.ltb_spec v min); [lia|]. destruct (Z.ltb_spec 1114111 v); [lia|].
  destruct (Z.leb_spec 55296 v), (Z.leb_spec v 57343); cbn [andb]; reflexivity || lia.
Qed.

(** The UTF-8 decoder decodes every valid character: at the encoding of a
    Unicode scalar value inside the string it returns that value and advances
    over exactly its bytes. *)
Theorem utf8_decode_valid (mem : list Z) (p pe c : Z)
  (Hc : scalar c) (Hr : reads mem p (utf8 c)) (Hp : p < pe) :
  uv__utf8_decode1 mem p pe = (c, p + Z.of_nat (length (utf8 c))).
Proof.
  assert (H0 : at_ mem p = nth 0 (utf8 c) 0).
  { rewrite <- (Z.add_0_r p). apply (Hr 0%nat). unfold utf8. destruct (c <? 128), (c <? 2048), (c <? 65536); cbn [length]; lia. }
  assert (H1 : (1 < length (utf8 c))%nat -> at_ mem (p + 1) = nth 1 (utf8 c) 0) by apply (Hr 1%nat).
  assert (H2 : (2 < length (utf8 c))%nat -> at_ mem (p + 1 + 1) = nth 2 (utf8 c) 0)
    by (rewrite <- Z.add_assoc; apply (Hr 2%nat)).
  assert (H3 : (3 < length (utf8 c))%nat -> at_ mem (p + 1 + 2) = nth 3 (utf8 c) 0)
    by (rewrite <- Z.add_assoc; apply (Hr 3%nat)).
  clear Hr. unfold scalar in Hc. unfold uv__utf8_decode1. unfold utf8 in *.
  destruct (Z.ltb_spec c 128).
  { cbn [nth length] in *. rewrite H0. destruct (Z.ltb_spec c 128); [reflexivity|lia]. }
  destruct (Z.ltb_spec c 2048); [|destruct (Z.ltb_spec c 65536)]; cbn [nth length] in *;
    rewrite ?H1, ?H2, ?H3 in * by lia; rewrite H0;
    (match goal with |- context [?a <? 128] => destruct (Z.ltb_spec a 128); [lia_div|] end);
    rewrite decode1_slow_spec by lia_div; rewrite ?H1, ?H2, ?H3 by lia.
  - destruct (Z.ltb_spec 247 (192 + c / 64)), (Z.ltb_spec 239 (192 + c / 64)),
      (Z.ltb_spec 223 (192 + c / 64)), (Z.ltb_spec 191 (192 + c / 64)); try lia_div.
    rewrite tops_cont by lia_div.
    rewrite (utf8_value_ok _ _ _ _ _ _ c); [f_equal; lia|lia_div|lia|unfold scalar; lia].
  - destruct (Z.ltb_spec 247 (224 + c / 4096)), (Z.ltb_spec 239 (224 + c / 4096)),
      (Z.ltb_spec 223 (224 + c / 4096)); try lia_div.
    rewrite tops_cont by lia_div.
    rewrite (utf8_value_ok _ _ _ _ _ _ c); [f_equal; lia|lia_div|lia|unfold scalar; lia].
  - destruct (Z.ltb_spec 247 (240 + c / 262144)), (Z.ltb_spec 239 (240 + c / 262144)); try lia_div.
    rewrite tops_cont by lia_div.
    rewrite (utf8_value_ok _ _ _ _ _ _ c); [f_equal; lia|lia_div|lia|unfold scalar; lia].
Qed.

Lemma utf8_decode_valid_witness :
  uv__utf8_decode1 [97; 226; 130; 172; 0] 1 4 = (8364, 4).
Proof.
  assert (R : reads [97; 226; 130; 172; 0] 1 (utf8 8364)).
  { replace (utf8 8364) with [226; 130; 172] by (vm_compute; reflexivity).
    exact (reads_app [97] [226; 130; 172] [0]). }
  assert (S : scalar 8364) by (left; split; [discriminate|reflexivity]).
  pose proof (utf8_decode_valid [97; 226; 130; 172; 0] 1 4 8364 S R eq_refl) as H.
  rewrite H. reflexivity.
Defined.

Lemma utf8_value_inv a b c d min p v p' :
  utf8_value a b c d min p = (v, p') -> v <> UINT_MAX ->
  p' = p /\ v = a * 262144 + b mod 64 * 4096 + c mod 64 * 64 + d mod 64 /\
  min <= v <= 1114111 /\ ~ 55296 <= v <= 57343.
Proof.
  unfold utf8_value. intros E N. cbv zeta in E.
  remember (a * 262144 + b mod 64 * 4096 + c mod 64 * 64 + d mod 64) as x. clear Heqx.
  destruct (Z.ltb_spec x min); [congruence|]. destruct (Z.ltb_spec 1114111 x); [congruence|].
  destruct (Z.leb_spec 55296 x), (Z.leb_spec x 57343); cbn [andb] in E; try congruence;
    assert (v = x /\ p' = p) as [-> ->] by (split; congruence); repeat split; auto; lia.
Qed.

(** What the decoder accepts is a Unicode scalar value in its shortest
    form: a result other than -1 is never a surrogate, never above U+10FFFF,
    and the decoder has advanced over as many bytes as its shortest encoding
    takes (no overlong sequences). *)
Theorem utf8_decode_sound (mem : list Z) (p pe c p' : Z)
  (Hm : byte_ok (at_ mem p)) (Hp : p < pe)
  (E : uv__utf8_decode1 mem p pe = (c, p')) (Hc : c <> UINT_MAX) :
  scalar c /\ p' = p + Z.of_nat (length (utf8 c)).
Proof.
  unfold uv__utf8_decode1 in E. unfold word_ok in Hm. cbv zeta in E.
  destruct (Z.ltb_spec (at_ mem p) 128).
  { injection E as <- <-. split; [unfold scalar; lia|]. unfold utf8. destruct (Z.ltb_spec (at_ mem p) 128); cbn; lia. }
  rewrite decode1_slow_spec in E by lia. unfold scalar, utf8.
  destruct (Z.ltb_spec 247 (at_ mem p)); [congruence|].
  destruct (Z.ltb_spec 239 (at_ mem p));
    [|destruct (Z.ltb_spec 223 (at_ mem p)); [|destruct (Z.ltb_spec 191 (at_ mem p)); [|congruence]]];
    (destruct (tops_ok _ _ _); [|congruence]);
    apply utf8_value_inv in E as (-> & V & R & S); try assumption;
    (split; [lia|]);
    destruct (Z.ltb_spec c 128), (Z.ltb_spec c 2048), (Z.ltb_spec c 65536); cbn [length]; lia || lia_div.
Qed.

Lemma utf8_decode_sound_witness :
  scalar 233 /\ 2 = 0 + Z.of_nat (length (utf8 233)).
Proof.
  exact (utf8_decode_sound [195; 169; 0] 0 2 233 2 ltac:(split; [discriminate|reflexivity]) eq_refl eq_refl
    ltac:(discriminate)).
Defined.

(** The bound [pe] does not bound the decoder.  The switch that should stop
    a sequence at the end of the string is on [*p - pe], which is never 1 or 2
    inside the string, so the result does not depend on [pe] at all: a lead
    byte at the very end makes it read, and advance over, up to three bytes
    beyond the end. *)
Theorem utf8_decode_ignores_end :
  (forall mem p pe pe', byte_ok (at_ mem p) -> p < pe -> p < pe' ->
     uv__utf8_decode1 mem p pe = uv__utf8_decode1 mem p pe') /\
  uv__utf8_decode1 [240; 159; 152; 128] 0 1 = (128512, 4) /\
  uv__utf8_decode1 [240; 159; 152; 129] 0 1 = (128513, 4).
Proof.
  split; [|split; reflexivity]. intros mem p pe pe' Hb H1 H2. unfold uv__utf8_decode1. unfold word_ok in Hb.
  destruct (at_ mem p <? 128); [reflexivity|]. now rewrite !decode1_slow_spec by lia.
Qed.

(** The continuation-byte test of the decoder looks at the exclusive or of
    the bytes only, so sequences whose last two bytes are no continuation
    bytes are accepted: the bytes E1 41 41 (an invalid lead followed by "AA")
    decode as U+1041. *)
Theorem utf8_decode_accepts_malformed :
  (forall mem p pe x y, reads mem p [225; x; y] -> p < pe -> 64 <= x < 128 -> 64 <= y < 128 ->
     uv__utf8_decode1 mem p pe = (4096 + (x - 64) * 64 + (y - 64), p + 3)) /\
  uv__utf8_decode1 [225; 65; 65] 0 3 = (4161, 3).
Proof.
  split; [|reflexivity]. intros mem p pe x y Hr Hp Hx Hy.
  pose proof (Hr 0%nat ltac:(cbn; lia)) as H0. pose proof (Hr 1%nat ltac:(cbn; lia)) as H1.
  pose proof (Hr 2%nat ltac:(cbn; lia)) as H2. cbn [nth Z.of_nat] in *. rewrite Z.add_0_r in H0.
  change (Z.pos (Pos.of_succ_nat 0)) with 1 in H1. change (Z.pos (Pos.of_succ_nat 1)) with 2 in H2.
  unfold uv__utf8_decode1. rewrite H0. cbv zeta. change (225 <? 128) with false. cbv iota.
  rewrite decode1_slow_spec, <- (Z.add_assoc p 1 1), H1, (H2 : at_ mem (p + (1 + 1)) = y) by lia.
  change (247 <? 225) with false. change (239 <? 225) with false. change (223 <? 225) with true. cbv iota.
  assert (T : forall z, 64 <= z < 128 -> Z.land 192 z = 64).
  { intros z Hz. apply Z.eqb_eq. assert (B : byte_ok z) by (unfold word_ok; lia).
    assert (G : forall b, byte_ok b -> ((b <? 64) || (127 <? b) || (Z.land 192 b =? 64)) = true)
      by (apply byte_cases; vm_compute; reflexivity).
    specialize (G _ B). destruct (Z.ltb_spec z 64), (Z.ltb_spec 127 z); lia || exact G. }
  unfold tops_ok. rewrite land_lxor_192, (T x), (T y) by assumption. cbn [Z.eqb Pos.eqb]. change (225 mod 16) with 1.
  change (Z.lxor (Z.lxor (Z.land 192 128) 64) 64 =? 128) with true. cbv iota.
  rewrite (utf8_value_ok _ _ _ _ _ _ (4096 + (x - 64) * 64 + (y - 64))); [f_equal; lia| |lia|unfold scalar; lia].
  change (1 mod 64) with 1. replace (x mod 64) with (x - 64) by lia_div. replace (y mod 64) with (y - 64) by lia_div. lia.
Qed.

Lemma utf8_decode_ignores_end_witness :
  uv__utf8_decode1 [240; 159; 152; 128; 0] 0 1 = uv__utf8_decode1 [240; 159; 152; 128; 0] 0 4.
Proof.
  exact (proj1 utf8_decode_ignores_end [240; 159; 152; 128; 0] 0 1 4
    ltac:(split; [discriminate|reflexivity]) eq_refl eq_refl).
Defined.

Lemma utf8_decode_accepts_malformed_witness :
  uv__utf8_decode1 [225; 65; 65; 0] 0 3 = (4096 + (65 - 64) * 64 + (65 - 64), 0 + 3).
Proof.
  assert (R : reads [225; 65; 65; 0] 0 [225; 65; 65]) by exact (reads_app [] [225; 65; 65] [0]).
  exact (proj1 utf8_decode_accepts_malformed [225; 65; 65; 0] 0 3 65 65 R eq_refl
    ltac:(split; [discriminate|reflexivity]) ltac:(split; [discriminate|reflexivity])).
Defined.

(** ** ASCII host names *)

(** [put] keeps the longest prefix that fits. *)
Lemma put_firstn cap c l : 0 <= cap -> put cap c (firstn (Z.to_nat cap) l) = firstn (Z.to_nat cap) (l ++ [c]).
Proof.
  intros Hc. unfold put. rewrite length_firstn.
  destruct (Z.ltb_spec (Z.of_nat (Nat.min (Z.to_nat cap) (length l))) cap).
  - rewrite !firstn_all2; rewrite ?length_app; cbn [length]; try lia. reflexivity.
  - rewrite firstn_app. replace (Z.to_nat cap - length l)%nat with 0%nat by lia.
    now rewrite firstn_O, app_nil_r.
Qed.

Definition ascii (l : list Z) : Prop := Forall (fun b => 0 <= b < 128) l.

Lemma decode1_ascii mem p pe b : at_ mem p = b -> 0 <= b < 128 -> uv__utf8_decode1 mem p pe = (b, p + 1).
Proof. intros E H. unfold uv__utf8_decode1. rewrite E. destruct (Z.ltb_spec b 128); [reflexivity|lia]. Qed.

Lemma decode1_advances mem p pe : p < snd (uv__utf8_decode1 mem p pe).
Proof.
  unfold uv__utf8_decode1, uv__utf8_decode1_slow.
  repeat match goal with |- context [if ?t then _ else _] => destruct t end; cbn [snd]; lia.
Qed.

(** A loop over an ASCII label visits its bytes. *)
Lemma foreach_ascii l : forall fuel mem p,
  ascii l -> reads mem p l -> (length l + 2 <= fuel)%nat ->
  foreach_codepoint fuel mem p (p + Z.of_nat (length l)) = l.
Proof.
  induction l as [|b l IH]; intros fuel mem p Ha Hr Hf; (destruct fuel as [|fuel]; [lia|]); cbn [foreach_codepoint].
  - cbn [length]. rewrite Z.add_0_r. destruct (Z.ltb_spec p p); [lia|].
    pose proof (decode1_advances mem p p) as A. destruct (uv__utf8_decode1 mem p p) as [c p1]. cbn [snd] in A.
    now destruct (Z.ltb_spec p p1); [|lia].
  - inversion Ha as [|? ? Hb Ha']; subst. cbn [length] in *.
    destruct (Z.ltb_spec (p + Z.of_nat (S (length l))) p); [lia|].
    pose proof (Hr 0%nat ltac:(cbn; lia)) as H0. rewrite Z.add_0_r in H0. cbn [nth] in H0.
    rewrite (decode1_ascii mem p _ b H0 Hb).
    destruct (Z.ltb_spec (p + Z.of_nat (S (length l))) (p + 1)); [lia|]. f_equal.
    replace (p + Z.of_nat (S (length l))) with (p + 1 + Z.of_nat (length l)) by lia.
    apply IH; auto; [|lia]. intros i Hi. pose proof (Hr (S i) ltac:(cbn [length]; lia)) as Hs.
    cbn [nth] in Hs. rewrite <- Hs. f_equal. lia.
Qed.

Lemma count_ascii l : forall h, ascii l -> 0 <= h -> h + Z.of_nat (length l) < 2 ^ 32 ->
  count_codepoints l h 0 = Some (h + Z.of_nat (length l), 0).
Proof.
  induction l as [|b l IH]; intros h Ha Hh L; cbn [count_codepoints length] in *; [now rewrite Z.add_0_r|].
  inversion Ha as [|? ? Hb Ha']; subst. destruct (Z.ltb_spec b 128); [|lia].
  rewrite wrap_small by (unfold word_ok; lia). rewrite IH by (assumption || lia). do 2 f_equal. lia.
Qed.

Lemma copy_ascii_all cap l : forall x out pre,
  ascii l -> 0 <= cap -> 0 <= x -> x + Z.of_nat (length l) < 2 ^ 32 -> out = firstn (Z.to_nat cap) pre ->
  copy_ascii cap (x + Z.of_nat (length l)) l x out = firstn (Z.to_nat cap) (pre ++ l).
Proof.
  induction l as [|b l IH]; intros x out pre Ha Hc Hx L ->; cbn [copy_ascii]; [now rewrite app_nil_r|].
  inversion Ha as [|? ? Hb Ha']; subst. cbn [length] in *. destruct (Z.ltb_spec 127 b); [lia|].
  rewrite put_firstn, wrap_small by (assumption || (unfold word_ok; lia)).
  destruct (Z.eqb_spec (x + 1) (x + Z.of_nat (S (length l)))).
  - destruct l; [reflexivity|cbn [length] in *; lia].
  - replace (x + Z.of_nat (S (length l))) with (x + 1 + Z.of_nat (length l)) by lia.
    rewrite (IH (x + 1) _ (pre ++ [b])) by (assumption || reflexivity || lia). now rewrite <- app_assoc.
Qed.

Lemma label_ascii mem s l cap pre :
  ascii l -> reads mem s l -> Z.of_nat (length l) < 2 ^ 31 -> 0 <= cap ->
  uv__idna_toascii_label mem s (s + Z.of_nat (length l)) cap (firstn (Z.to_nat cap) pre)
    = (Z.of_nat (length l), firstn (Z.to_nat cap) (pre ++ l)).
Proof.
  intros Ha Hr L Hc. unfold uv__idna_toascii_label, codepoints. rewrite foreach_ascii by (assumption || lia).
  rewrite count_ascii by (assumption || lia). rewrite Z.add_0_l. cbn [Z.ltb Z.compare Z.eqb].
  rewrite (copy_ascii_all cap l 0 _ pre) by (assumption || reflexivity || lia). reflexivity.
Qed.

Lemma reads_split mem p l1 l2 : reads mem p (l1 ++ l2) -> reads mem p l1 /\ reads mem (p + Z.of_nat (length l1)) l2.
Proof.
  intros H. split; intros i Hi.
  - rewrite H by (rewrite length_app; lia). now apply app_nth1.
  - rewrite <- Z.add_assoc, <- Nat2Z.inj_add, H by (rewrite length_app; lia).
    rewrite app_nth2 by lia. f_equal. lia.
Qed.

Lemma is_dot_ascii b : 0 <= b < 128 -> is_dot b = (b =? 46).
Proof.
  intros H. unfold is_dot. destruct (Z.eqb_spec b 12290), (Z.eqb_spec b 65294), (Z.eqb_spec b 65377); lia.
Qed.

(** The loop with [cur] the label read so far, [rest] what is to come and
    [done] what has been copied. *)
Lemma toascii_loop_ascii mem cap rest : forall fuel s cur done,
  ascii cur -> ascii rest -> reads mem s (cur ++ rest) -> 0 <= cap ->
  Z.of_nat (length (cur ++ rest)) < 2 ^ 31 -> (length rest < fuel)%nat ->
  exists s' last copied,
    toascii_loop fuel mem s (s + Z.of_nat (length cur)) (s + Z.of_nat (length (cur ++ rest))) cap
      (firstn (Z.to_nat cap) done) = inr (s', firstn (Z.to_nat cap) copied) /\
    done ++ cur ++ rest = copied ++ last /\ ascii last /\ reads mem s' last /\
    s + Z.of_nat (length (cur ++ rest)) = s' + Z.of_nat (length last) /\ Z.of_nat (length last) < 2 ^ 31.
Proof.
  induction rest as [|b rest IH]; intros fuel s cur done Hcur Hrest Hr Hc L Hf;
    (destruct fuel as [|fuel]; [cbn [length] in Hf; lia|]); cbn [toascii_loop].
  - rewrite app_nil_r in *. destruct (Z.ltb_spec (s + Z.of_nat (length cur)) (s + Z.of_nat (length cur))); [lia|].
    exists s, cur, done. auto 7.
  - inversion Hrest as [|? ? Hb Hrest']; subst. rewrite length_app in *. cbn [length] in *.
    destruct (Z.ltb_spec (s + Z.of_nat (length cur)) (s + Z.of_nat (length cur + S (length rest)))); [|lia].
    destruct (reads_split _ _ _ _ Hr) as [Hr1 Hr2].
    pose proof (Hr2 0%nat ltac:(cbn; lia)) as H0. rewrite Z.add_0_r in H0. cbn [nth] in H0.
    rewrite (decode1_ascii mem _ _ b H0 Hb), (is_dot_ascii b Hb).
    assert (E : cur ++ b :: rest = (cur ++ [b]) ++ rest) by (now rewrite <- app_assoc).
    destruct (Z.eqb_spec b 46) as [->|N]; cbn [negb].
    + rewrite label_ascii by (assumption || lia). destruct (Z.ltb_spec (Z.of_nat (length cur)) 0); [lia|].
      rewrite put_firstn by assumption.
      replace (s + Z.of_nat (length cur + S (length rest))) with
        ((s + Z.of_nat (length cur) + 1) + Z.of_nat (length ([] ++ rest))) by (cbn [app]; lia).
      destruct (IH fuel (s + Z.of_nat (length cur) + 1) [] ((done ++ cur) ++ [46])) as (s' & last & copied & R1 & R2 & R3);
        try assumption; try lia; [constructor| |cbn [app]; lia|].
      { rewrite E in Hr. apply reads_split in Hr as [_ Hr]. rewrite length_app in Hr. cbn [length] in Hr.
        replace (s + Z.of_nat (length cur) + 1) with (s + Z.of_nat (length cur + 1)) by lia. exact Hr. }
      change (Z.of_nat (length (@nil Z))) with 0 in R1. rewrite Z.add_0_r in R1.
      exists s', last, copied. split; [exact R1|]. split; [|exact R3].
      rewrite <- R2, <- !app_assoc. reflexivity.
    + replace (s + Z.of_nat (length cur) + 1) with (s + Z.of_nat (length (cur ++ [b])))
        by (rewrite length_app; cbn [length]; lia).
      replace (length cur + S (length rest))%nat with (length ((cur ++ [b]) ++ rest))
        by (rewrite !length_app; cbn [length]; lia).
      rewrite E in *. apply IH; try assumption; try lia; [|rewrite !length_app; cbn [length]; lia].
      apply Forall_app; auto.
Qed.

(** ASCII host names are copied as they are: for a name of ASCII bytes,
    dots included, the destination receives the name and a NUL, or as much of
    that as fits, and the return value counts what was written; no byte is
    written past [de]. *)
Theorem idna_toascii_ascii (name tail : list Z) (cap : Z)
  (Ha : ascii name) (Hl : Z.of_nat (length name) < 2 ^ 31) (Hc : 0 <= cap) :
  let out := firstn (Z.to_nat cap) (name ++ [0]) in
  uv__idna_toascii (name ++ tail) 0 (Z.of_nat (length name)) cap = (Z.of_nat (length out), out).
Proof.
  cbv zeta. unfold uv__idna_toascii. rewrite Z.sub_0_r.
  assert (Hr : reads (name ++ tail) 0 ([] ++ name)) by exact (reads_app [] name tail).
  destruct (toascii_loop_ascii (name ++ tail) cap name (S (Z.to_nat (Z.of_nat (length name)))) 0 [] [])
    as (s' & last & copied & R1 & R2 & R3 & R4 & R5 & R6); auto; [constructor|cbn [app]; lia|].
  rewrite firstn_nil in R1. cbn [app length Z.of_nat Z.add] in R1, R2, R5. rewrite R1.
  destruct (Z.ltb_spec s' (Z.of_nat (length name))).
  - rewrite R5, label_ascii by (assumption || lia).
    destruct (Z.ltb_spec (Z.of_nat (length last)) 0); [lia|].
    rewrite put_firstn, <- R2 by assumption. reflexivity.
  - destruct last; [|cbn [length] in R5; lia]. rewrite app_nil_r in R2.
    rewrite put_firstn, <- R2 by assumption. reflexivity.
Qed.

Lemma idna_toascii_ascii_witness :
  uv__idna_toascii [97; 46; 98; 0] 0 3 10 = (4, [97; 46; 98; 0]).
Proof.
  exact (idna_toascii_ascii [97; 46; 98] [0] 10 ltac:(repeat constructor; discriminate) eq_refl ltac:(discriminate)).
Defined.

(** ** The bounded copy *)

Lemma set_nth_at {A} (l : list A) i x : (i < length l)%nat -> set_nth i x l = firstn i l ++ x :: skipn (S i) l.
Proof.
  revert i. induction l as [|a l IH]; intros [|i] L; cbn [length] in L; try lia; [reflexivity|].
  cbn [set_nth firstn skipn app]. rewrite IH by lia. reflexivity.
Qed.

Lemma strscpy_loop_spec n : forall pd d ps s,
  length ps = length pd -> (n <= length d)%nat -> In 0 s ->
  strscpy_loop (pd ++ d) (ps ++ s) (Z.of_nat (length pd)) n =
    if strlen s <? Z.of_nat n
    then (pd ++ firstn (Z.to_nat (strlen s)) s ++ 0 :: skipn (Z.to_nat (strlen s + 1)) d,
          inl (Z.of_nat (length pd) + strlen s))
    else (pd ++ firstn n s ++ skipn n d, inr (Z.of_nat (length pd) + Z.of_nat n)).
Proof.
  induction n as [|n IH]; intros pd d ps s El L Hs.
  - cbn [strscpy_loop]. pose proof (strlen_nonneg s). destruct (Z.ltb_spec (strlen s) (Z.of_nat 0)); [lia|].
    cbn [firstn skipn app]. do 2 f_equal. lia.
  - destruct d as [|x d]; [cbn in L; lia|]. destruct s as [|c s]; [contradiction|].
    assert (Ec : at_ (ps ++ c :: s) (Z.of_nat (length pd)) = c).
    { unfold at_. rewrite Nat2Z.id, <- El. apply nth_middle. }
    cbn [strscpy_loop]. rewrite Ec, Nat2Z.id, set_nth_app. cbn [length] in L. cbn [strlen]. pose proof (strlen_nonneg s).
    destruct (Z.eqb_spec c 0) as [->|N].
    + destruct (Z.ltb_spec 0 (Z.of_nat (S n))); [|lia]. cbn. now rewrite Z.add_0_r.
    + destruct Hs as [->|Hs]; [contradiction|].
      replace (pd ++ c :: d) with ((pd ++ [c]) ++ d) by (now rewrite <- app_assoc).
      replace (ps ++ c :: s) with ((ps ++ [c]) ++ s) by (now rewrite <- app_assoc).
      replace (Z.of_nat (length pd) + 1) with (Z.of_nat (length (pd ++ [c]))) by (rewrite length_app; cbn [length]; lia).
      rewrite IH by (rewrite ?length_app; cbn [length]; lia || assumption).
      rewrite length_app. cbn [length].
      destruct (Z.ltb_spec (strlen s) (Z.of_nat n)), (Z.ltb_spec (1 + strlen s) (Z.of_nat (S n))); try lia.
      * replace (Z.to_nat (1 + strlen s)) with (S (Z.to_nat (strlen s))) by lia.
        replace (Z.to_nat (1 + strlen s + 1)) with (S (Z.to_nat (strlen s + 1))) by lia.
        cbn [firstn skipn]. rewrite <- !app_assoc. cbn [app]. do 2 f_equal. lia.
      * cbn [firstn skipn]. rewrite <- !app_assoc. cbn [app]. do 2 f_equal. lia.
Qed.

Lemma strscpy_copies d s n :
  0 <= n <= Z.of_nat (length d) -> n <= SSIZE_MAX -> In 0 s ->
  uv__strscpy d s n =
    if n =? 0 then (d, 0)
    else if strlen s <? n
    then (firstn (Z.to_nat (strlen s)) s ++ [0] ++ skipn (Z.to_nat (strlen s + 1)) d, strlen s)
    else (firstn (Z.to_nat (n - 1)) s ++ [0] ++ skipn (Z.to_nat n) d, UV_E2BIG).
Proof.
  intros Hn Hm Hs. unfold uv__strscpy. pose proof (strscpy_loop_spec (Z.to_nat n) [] d [] s eq_refl ltac:(lia) Hs) as E.
  cbn [app length Z.of_nat] in E. rewrite E, Z2Nat.id by lia. clear E. pose proof (strlen_nonneg s) as Hl.
  destruct (Z.eqb_spec n 0) as [->|N].
  - destruct (Z.ltb_spec (strlen s) 0); [lia|]. reflexivity.
  - destruct (Z.ltb_spec (strlen s) n); rewrite Z.add_0_l.
    + destruct (Z.ltb_spec SSIZE_MAX (strlen s)); [unfold SSIZE_MAX in *; lia|]. reflexivity.
    + destruct (Z.eqb_spec n 0); [lia|]. f_equal.
      assert (L : (Z.to_nat n <= length s)%nat).
      { apply Nat2Z.inj_le. rewrite Z2Nat.id by lia. transitivity (strlen s); [lia|].
        clear. induction s as [|c s IH]; cbn [strlen length]; [lia|]. destruct (c =? 0); lia. }
      rewrite set_nth_at by (rewrite length_app, length_firstn; lia).
      replace (Z.to_nat n) with (S (Z.to_nat (n - 1))) by lia. set (m := Z.to_nat (n - 1)) in *.
      rewrite firstn_app, length_firstn, firstn_firstn, Nat.min_l by lia.
      replace (m - Nat.min (S m) (length s))%nat with 0%nat by lia.
      rewrite firstn_O, app_nil_r. f_equal. cbn [app]. f_equal.
      rewrite skipn_app, skipn_all2 by (rewrite length_firstn; lia).
      rewrite length_firstn. now replace (S m - Nat.min (S m) (length s))%nat with 0%nat by lia.
Qed.

(** [uv__strscpy] copies a C string into [n] bytes of [d] and never
    touches the bytes after them: if the string and its NUL fit it copies them
    and returns the length, otherwise it cuts the copy to [n - 1] bytes, writes
    the NUL and returns [UV_E2BIG]; with [n = 0] it does nothing. *)
Theorem uv__strscpy_bounded (d s : list Z) (n : Z)
  (Hn : 0 <= n <= Z.of_nat (length d)) (Hm : n <= SSIZE_MAX) (Hs : In 0 s) :
  let (d', r) := uv__strscpy d s n in
  length d' = length d /\ skipn (Z.to_nat n) d' = skipn (Z.to_nat n) d /\
  r = (if n =? 0 then 0 else if strlen s <? n then strlen s else UV_E2BIG) /\
  (0 < n -> strlen d' = Z.min (strlen s) (n - 1) /\
            firstn (Z.to_nat (strlen d')) d' = firstn (Z.to_nat (strlen d')) s).
Proof.
  rewrite strscpy_copies by assumption. pose proof (strlen_nonneg s) as Hl.
  pose proof (strlen_le_length s) as Hle.
  destruct (Z.eqb_spec n 0) as [->|N]; [repeat split; intros; lia|].
  destruct (Z.ltb_spec (strlen s) n).
  - assert (Ls : length (firstn (Z.to_nat (strlen s)) s) = Z.to_nat (strlen s)) by (rewrite length_firstn; lia).
    split; [rewrite !length_app, length_skipn, Ls; cbn [length]; lia|].
    split. { rewrite skipn_app, skipn_all2, skipn_app, skipn_all2, skipn_skipn, Ls; cbn [length app]; [f_equal; lia|lia|lia]. }
    split; [reflexivity|]. intros _.
    assert (El : strlen (firstn (Z.to_nat (strlen s)) s ++ [0] ++ skipn (Z.to_nat (strlen s + 1)) d) = strlen s).
    { rewrite <- (strlen_prefix s (strlen s)) at 3 by lia. now apply strlen_app_nul. }
    rewrite El. split; [lia|]. rewrite <- Ls at 1. apply firstn_app_length.
  - assert (Ls : length (firstn (Z.to_nat (n - 1)) s) = Z.to_nat (n - 1)) by (rewrite length_firstn; lia).
    split; [rewrite !length_app, length_skipn, Ls; cbn [length]; lia|].
    split. { rewrite skipn_app, skipn_all2, skipn_app, skipn_all2, skipn_skipn, Ls; cbn [length app]; [f_equal; lia|lia|lia]. }
    split; [reflexivity|]. intros _.
    assert (El : strlen (firstn (Z.to_nat (n - 1)) s ++ [0] ++ skipn (Z.to_nat n) d) = n - 1).
    { rewrite <- (strlen_prefix s (n - 1)) at 2 by lia. now apply strlen_app_nul. }
    rewrite El. split; [lia|]. rewrite <- Ls at 1. apply firstn_app_length.
Qed.

Lemma uv__strscpy_bounded_witness :
  uv__strscpy [9; 9; 9; 9] [104; 105; 33; 0] 3 = ([104; 105; 0; 9], UV_E2BIG) /\
  strlen [104; 105; 0; 9] = Z.min (strlen [104; 105; 33; 0]) (3 - 1).
Proof.
  pose proof (uv__strscpy_bounded [9; 9; 9; 9] [104; 105; 33; 0] 3 ltac:(cbn; lia) ltac:(discriminate)
    ltac:(cbn; auto)) as H.
  split; [reflexivity|]. destruct H as (_ & _ & _ & H). apply H. reflexivity.
Defined.
