(* ===== verification/UvInet.v ===== *)
(** * Textual addresses in libuv ([inet.c])

    [uv_inet_ntop] and [uv_inet_pton].  A [const char*] that moves along a
    string is the list of the bytes from it on; where the NUL is missing the
    model reads 0.  An output block is a list that is written in place. *)

From Stdlib Require Import ZArith Lia List Bool.
From S2P Require Import Prelude CStr UvIdna.
Import ListNotations.

(** ** Definitions *)

(** Constants of the platform (Darwin). *)
Definition AF_INET : Z := 2.
Definition AF_INET6 : Z := 30.
Definition UV_ENOSPC : Z := -28.
Definition UV_EAFNOSUPPORT : Z := -47.

Definition UV__INET_ADDRSTRLEN : Z := 16.
Definition UV__INET6_ADDRSTRLEN : Z := 46.

(** The text of "%u.%u.%u.%u" *)
Definition dotted_quad (src : list Z) : list Z :=
  decimal (at_ src 0) ++ [46] ++ decimal (at_ src 1) ++ [46] ++
  decimal (at_ src 2) ++ [46] ++ decimal (at_ src 3).

(** [(return value, dst)]; [snprintf] cuts the text so that a NUL fits. *)
Definition inet_ntop4 (src dst : list Z) (size : Z) : Z * list Z :=
  let text := dotted_quad src in
  let tmp := firstn (Z.to_nat (UV__INET_ADDRSTRLEN - 1)) text ++ [0] in
  let l := Z.of_nat (length text) in
  if (l <=? 0) || (size <=? l) then (UV_ENOSPC, dst)
  else (0, fst (uv__strscpy dst tmp size)).

(** [words[i / 2] |= src[i] << ((1 - (i % 2)) << 3)] for the 16 bytes. *)
Definition words_of (src : list Z) : list Z :=
  fold_left
    (fun words i =>
       set_nth (i / 2)
         (Z.lor (nth (i / 2) words 0)
            (Z.shiftl (nth i src 0) (Z.shiftl (1 - Z.of_nat i mod 2) 3)))
         words)
    (seq 0 16) (repeat 0 8).

Record run := { base : Z; len : Z }.

(** [if (best.base == -1 || cur.len > best.len) best = cur;] *)
Definition longer (best cur : run) : run :=
  if (base best =? -1) || (len best <? len cur) then cur else best.

(** The scan for runs of zero words, from index [i]. *)
Fixpoint scan_runs (i : Z) (words : list Z) (best cur : run) : run * run :=
  match words with
  | [] => (best, cur)
  | w :: words =>
      if w =? 0 then
        scan_runs (i + 1) words best
          (if base cur =? -1 then {| base := i; len := 1 |}
           else {| base := base cur; len := len cur + 1 |})
      else if negb (base cur =? -1) then
        scan_runs (i + 1) words (longer best cur) {| base := -1; len := len cur |}
      else scan_runs (i + 1) words best cur
  end.

Definition best_run (words : list Z) : run :=
  let (best, cur) := scan_runs 0 words {| base := -1; len := 0 |} {| base := -1; len := 0 |} in
  let best := if negb (base cur =? -1) then longer best cur else best in
  if negb (base best =? -1) && (len best <? 2) then {| base := -1; len := len best |} else best.

(** The formatting loop from index [i], where [ws] is [words] from [i] on,
    [out] is [tmp .. tp] and [tmp] the rest of the 46 bytes, indeterminate. *)
Fixpoint format_words (src tmp words : list Z) (best : run) (i : Z) (ws out : list Z) : Z + list Z :=
  match ws with
  | [] => inr out
  | w :: ws =>
      if negb (base best =? -1) && (base best <=? i) && (i <? base best + len best) then
        format_words src tmp words best (i + 1) ws (if i =? base best then out ++ [58] else out)
      else
        let out := if negb (i =? 0) then out ++ [58] else out in
        if (i =? 6) && (base best =? 0) &&
           ((len best =? 6) ||
            ((len best =? 7) && negb (at_ words 7 =? 1)) ||
            ((len best =? 5) && (at_ words 5 =? 65535)))
        then
          let '(err, tp) :=
            inet_ntop4 (skipn 12 src) (skipn (length out) tmp)
              (UV__INET6_ADDRSTRLEN - Z.of_nat (length out)) in
          if negb (err =? 0) then inl err
          else inr (out ++ firstn (Z.to_nat (strlen tp)) tp)
        else format_words src tmp words best (i + 1) ws (out ++ hexadecimal w)
  end.

Definition inet_ntop6 (tmp src dst : list Z) (size : Z) : Z * list Z :=
  let words := words_of src in
  let best := best_run words in
  match format_words src tmp words best 0 words [] with
  | inl err => (err, dst)
  | inr out =>
      let out := if negb (base best =? -1) && (base best + len best =? 8) then out ++ [58] else out in
      let '(dst, r) := uv__strscpy dst (out ++ [0]) size in
      if r =? UV_E2BIG then (UV_ENOSPC, dst) else (0, dst)
  end.

Definition uv_inet_ntop (tmp : list Z) (af : Z) (src dst : list Z) (size : Z) : Z * list Z :=
  if af =? AF_INET then inet_ntop4 src dst size
  else if af =? AF_INET6 then inet_ntop6 tmp src dst size
  else (UV_EAFNOSUPPORT, dst).

(** "0123456789", "0123456789abcdef", "0123456789ABCDEF" *)
Definition digits : list Z := map Z.of_nat (seq 48 10).
Definition xdigits_l : list Z := digits ++ map Z.of_nat (seq 97 6).
Definition xdigits_u : list Z := digits ++ map Z.of_nat (seq 65 6).

(** The loop of [inet_pton4]: [tmp] holds the bytes before [tp], [cur] is
    [*tp].  None is UV_EINVAL. *)
Fixpoint pton4_loop (src tmp : list Z) (cur octets : Z) (saw_digit : bool) : option (list Z) :=
  let finish := if octets <? 4 then None else Some (tmp ++ [cur]) in
  match src with
  | [] => finish
  | ch :: src =>
      if ch =? 0 then finish
      else
        match strchr digits ch with
        | Some pch =>
            let nw := u32 (cur * 10 + pch) in
            if saw_digit && (cur =? 0) then None
            else if 255 <? nw then None
            else if negb saw_digit then
              if 4 <? octets + 1 then None
              else pton4_loop src tmp (u8 nw) (octets + 1) true
            else pton4_loop src tmp (u8 nw) octets saw_digit
        | None =>
            if (ch =? 46) && saw_digit then
              if octets =? 4 then None
              else pton4_loop src (tmp ++ [cur]) 0 octets false
            else None
        end
  end.

Definition inet_pton4 (src dst : list Z) : Z * list Z :=
  match pton4_loop src [] 0 0 false with
  | None => (UV_EINVAL, dst)
  | Some tmp => (0, splice 0 (firstn 4 tmp) dst)
  end.

(** The locals of [inet_pton6]: the 16 bytes [tmp], the offsets of [tp] and
    [colonp] in it, [curtok], [seen_xdigits] and [val]. *)
Record pton6_state := {
  tmp : list Z;
  tp : Z;
  colonp : option Z;
  curtok : list Z;
  seen_xdigits : Z;
  val : Z
}.

(** [*tp++ = (val >> 8) & 0xff; *tp++ = val & 0xff;] *)
Definition put_word (s : pton6_state) : pton6_state :=
  {| tmp := set_nth (Z.to_nat (tp s + 1)) (Z.land (u8 (val s)) 255)
              (set_nth (Z.to_nat (tp s)) (Z.land (u8 (Z.shiftr (val s) 8)) 255) (tmp s));
     tp := tp s + 2; colonp := colonp s; curtok := curtok s;
     seen_xdigits := seen_xdigits s; val := val s |}.

Definition xdigit (ch : Z) : option Z :=
  match strchr xdigits_l ch with
  | Some pch => Some pch
  | None => strchr xdigits_u ch
  end.

Fixpoint pton6_loop (src : list Z) (s : pton6_state) : option pton6_state :=
  match src with
  | [] => Some s
  | ch :: src =>
      if ch =? 0 then Some s
      else
        match xdigit ch with
        | Some pch =>
            let v := Z.lor (u32 (Z.shiftl (val s) 4)) pch in
            let seen := seen_xdigits s + 1 in
            if 4 <? seen then None
            else pton6_loop src {| tmp := tmp s; tp := tp s; colonp := colonp s; curtok := curtok s;
                                   seen_xdigits := seen; val := v |}
        | None =>
            if ch =? 58 then
              if seen_xdigits s =? 0 then
                match colonp s with
                | Some _ => None
                | None =>
                    pton6_loop src {| tmp := tmp s; tp := tp s; colonp := Some (tp s); curtok := src;
                                      seen_xdigits := seen_xdigits s; val := val s |}
                end
              else if at_ src 0 =? 0 then None
              else if 16 <? tp s + 2 then None
              else
                let s := put_word s in
                pton6_loop src {| tmp := tmp s; tp := tp s; colonp := colonp s; curtok := src;
                                  seen_xdigits := 0; val := 0 |}
            else if (ch =? 46) && (tp s + 4 <=? 16) then
              let '(err, quad) := inet_pton4 (curtok s) (skipn (Z.to_nat (tp s)) (tmp s)) in
              if err =? 0 then
                Some {| tmp := firstn (Z.to_nat (tp s)) (tmp s) ++ quad; tp := tp s + 4; colonp := colonp s;
                        curtok := curtok s; seen_xdigits := 0; val := val s |}
              else None
            else None
        end
  end.

(** [endp[- i] = colonp[n - i]; colonp[n - i] = 0;] for [i] up to [n]; [k]
    counts the rounds left, so that [i = n - k + 1]. *)
Fixpoint shift_run (k : nat) (colonp n : Z) (tmp : list Z) : list Z :=
  match k with
  | O => tmp
  | S k =>
      let i := n - Z.of_nat k in
      let tmp := set_nth (Z.to_nat (16 - i)) (at_ tmp (colonp + (n - i))) tmp in
      shift_run k colonp n (set_nth (Z.to_nat (colonp + (n - i))) 0 tmp)
  end.

(** What follows the loop; None is UV_EINVAL. *)
Definition pton6_finish (s : pton6_state) : option (list Z) :=
  if negb (seen_xdigits s =? 0) && (16 <? tp s + 2) then None
  else
    let s := if negb (seen_xdigits s =? 0) then put_word s else s in
    match colonp s with
    | Some c =>
        let n := tp s - c in
        if tp s =? 16 then None else Some (shift_run (Z.to_nat n) c n (tmp s))
    | None => if negb (tp s =? 16) then None else Some (tmp s)
    end.

Definition pton6_start (src : list Z) : pton6_state :=
  {| tmp := repeat 0 16; tp := 0; colonp := None; curtok := src; seen_xdigits := 0; val := 0 |}.

Definition inet_pton6 (src dst : list Z) : Z * list Z :=
  if (at_ src 0 =? 58) && negb (at_ (skipn 1 src) 0 =? 58) then (UV_EINVAL, dst)
  else
    let src := if at_ src 0 =? 58 then skipn 1 src else src in
    match pton6_loop src (pton6_start src) with
    | None => (UV_EINVAL, dst)
    | Some s =>
        match pton6_finish s with
        | None => (UV_EINVAL, dst)
        | Some tmp => (0, splice 0 tmp dst)
        end
    end.

(** [src] and [dst] may be NULL. *)
Definition uv_inet_pton (af : Z) (src dst : option (list Z)) : Z * option (list Z) :=
  match src, dst with
  | Some src, Some d =>
      let ret (r : Z * list Z) := (fst r, Some (snd r)) in
      if af =? AF_INET then ret (inet_pton4 src d)
      else if af =? AF_INET6 then
        match strchr src 37 with
        | Some len =>
            if UV__INET6_ADDRSTRLEN - 1 <? len then (UV_EINVAL, dst)
            else ret (inet_pton6 (firstn (Z.to_nat len) src ++ [0]) d)
        | None => ret (inet_pton6 src d)
        end
      else (UV_EAFNOSUPPORT, dst)
  | _, _ => (UV_EINVAL, dst)
  end.

Example ntop6_ex : uv_inet_ntop (repeat 7 46) AF_INET6 [32;1;13;184;0;0;0;0;0;0;0;0;0;0;0;1] (repeat 9 46) 46
  = (0, [50;48;48;49;58;100;98;56;58;58;49;0] ++ repeat 9 34).
Proof. vm_compute. reflexivity. Qed.

Example ntop6_ex4 : firstn 20 (snd (uv_inet_ntop (repeat 7 46) AF_INET6 [0;0;0;0;0;0;0;0;0;0;255;255;1;2;3;4] (repeat 9 46) 46))
  = [58;58;102;102;102;102;58;49;46;50;46;51;46;52;0;9;9;9;9;9].
Proof. vm_compute. reflexivity. Qed.

Example pton6_ex : uv_inet_pton AF_INET6 (Some [58;58;102;102;102;102;58;49;46;50;46;51;46;52;37;0]) (Some (repeat 9 16))
 = (0, Some [0;0;0;0;0;0;0;0;0;0;255;255;1;2;3;4]).
Proof. vm_compute. reflexivity. Qed.

(** ** Dotted quads *)

Lemma strchr_digits d : 0 <= d < 10 -> strchr digits (48 + d) = Some d.
Proof. intros H. assert (d = 0 \/ d = 1 \/ d = 2 \/ d = 3 \/ d = 4 \/ d = 5 \/ d = 6 \/ d = 7 \/ d = 8 \/ d = 9) by lia.
  intuition (subst; reflexivity). Qed.

Lemma strchr_digits_inv ch d : strchr digits ch = Some d -> 0 <= d < 10 /\ ch = 48 + d.
Proof.
  intros H%strchr_in. destruct H as [B E]. cbn [length digits map seq] in B. split; [lia|]. rewrite <- E.
  assert (d = 0 \/ d = 1 \/ d = 2 \/ d = 3 \/ d = 4 \/ d = 5 \/ d = 6 \/ d = 7 \/ d = 8 \/ d = 9) by lia.
  intuition (subst; reflexivity).
Qed.

(** Another digit of the number that [cur] is. *)
Lemma pton4_more_digit d src tmp cur octets :
  0 <= d < 10 -> 0 < cur -> cur * 10 + d < 256 ->
  pton4_loop (48 + d :: src) tmp cur octets true = pton4_loop src tmp (cur * 10 + d) octets true.
Proof.
  intros Hd Hc L. cbn [pton4_loop]. destruct (Z.eqb_spec (48 + d) 0); [lia|]. rewrite strchr_digits by lia.
  rewrite (wrap_small 32) by (unfold word_ok; lia). destruct (Z.eqb_spec cur 0); [lia|].
  destruct (Z.ltb_spec 255 (cur * 10 + d)); [lia|]. cbn [andb negb]. now rewrite wrap_small by (unfold word_ok; lia).
Qed.

Lemma pton4_first_digit d src tmp octets :
  0 <= d < 10 -> octets < 4 ->
  pton4_loop (48 + d :: src) tmp 0 octets false = pton4_loop src tmp d (octets + 1) true.
Proof.
  intros Hd L. cbn [pton4_loop]. destruct (Z.eqb_spec (48 + d) 0); [lia|]. rewrite strchr_digits by lia.
  cbn [andb negb]. rewrite Z.mul_0_l, Z.add_0_l, (wrap_small 32) by (unfold word_ok; lia).
  destruct (Z.ltb_spec 255 d); [lia|]. destruct (Z.ltb_spec 4 (octets + 1)); [lia|].
  now rewrite wrap_small by (unfold word_ok; lia).
Qed.

Lemma pton4_decimal v src tmp octets :
  byte_ok v -> octets < 4 ->
  pton4_loop (decimal v ++ src) tmp 0 octets false = pton4_loop src tmp v (octets + 1) true.
Proof.
  intros Hv L. unfold word_ok in Hv. change (2 ^ 8) with 256 in Hv.
  destruct (Z.lt_ge_cases v 10); [rewrite decimal_digit by lia; apply pton4_first_digit; lia|].
  rewrite decimal_step' by lia. rewrite <- app_assoc. cbn [app].
  destruct (Z.lt_ge_cases (v / 10) 10) as [H2|H2].
  - rewrite decimal_digit by lia_div. cbn [app]. rewrite pton4_first_digit by lia_div.
    rewrite pton4_more_digit by lia_div. f_equal. lia_div.
  - rewrite decimal_step' by lia_div. rewrite <- app_assoc. cbn [app].
    rewrite decimal_digit by lia_div. cbn [app]. rewrite pton4_first_digit by lia_div.
    rewrite !pton4_more_digit by lia_div. f_equal. lia_div.
Qed.

Lemma pton4_dot src tmp cur octets :
  octets < 4 -> pton4_loop (46 :: src) tmp cur octets true = pton4_loop src (tmp ++ [cur]) 0 octets false.
Proof. intros L. cbn [pton4_loop]. change (strchr digits 46) with (@None Z). cbn. destruct (Z.eqb_spec octets 4); [lia|reflexivity]. Qed.

Lemma dotted_quad_eq b0 b1 b2 b3 :
  dotted_quad [b0; b1; b2; b3] =
    decimal b0 ++ [46] ++ decimal b1 ++ [46] ++ decimal b2 ++ [46] ++ decimal b3.
Proof. reflexivity. Qed.

Definition bytes4 (a : list Z) : Prop := length a = 4%nat /\ bytes_ok a.

Lemma bytes4_inv a : bytes4 a -> exists b0 b1 b2 b3, a = [b0; b1; b2; b3] /\ byte_ok b0 /\ byte_ok b1 /\ byte_ok b2 /\ byte_ok b3.
Proof.
  intros [L H]. destruct a as [|b0 [|b1 [|b2 [|b3 [|]]]]]; try discriminate L.
  repeat match goal with H : Forall _ (_ :: _) |- _ => inversion H; clear H; subst end. eauto 9.
Qed.

(** The parser on a dotted quad that a NUL, or the end, follows. *)
Lemma pton4_dotted_quad a src : bytes4 a -> at_ src 0 = 0 -> pton4_loop (dotted_quad a ++ src) [] 0 0 false = Some a.
Proof.
  intros (b0 & b1 & b2 & b3 & -> & H0 & H1 & H2 & H3)%bytes4_inv Hs. rewrite dotted_quad_eq.
  rewrite <- !app_assoc. cbn [app].
  repeat (rewrite pton4_decimal by (assumption || lia); try (rewrite pton4_dot by lia)). cbn [app Z.add Pos.add].
  destruct src as [|c src]; cbn in Hs |- *; [reflexivity|]. now subst.
Qed.

(** *** What the parser accepts *)

Definition dots (vs : list Z) : list Z := flat_map (fun v => 46 :: decimal v) vs.

(** The C string at [src] *)
Definition cstr (src : list Z) : list Z := firstn (Z.to_nat (strlen src)) src.

Lemma cstr_cons c src : c <> 0 -> cstr (c :: src) = c :: cstr src.
Proof.
  intros N. unfold cstr. cbn [strlen]. destruct (Z.eqb_spec c 0); [contradiction|].
  pose proof (strlen_nonneg src). now replace (Z.to_nat (1 + strlen src)) with (S (Z.to_nat (strlen src))) by lia.
Qed.

Lemma cstr_split src : exists r, src = cstr src ++ r /\ at_ r 0 = 0.
Proof.
  induction src as [|c src [r [E R]]]; [now exists []|]. destruct (Z.eq_dec c 0) as [->|N].
  - exists (0 :: src). auto.
  - exists r. rewrite cstr_cons by assumption. cbn [app]. rewrite <- E. auto.
Qed.

(** Why the parser stopped, or how it went on. *)
Lemma pton4_loop_sound src : forall tmp cur octets saw t,
  0 <= cur < 256 -> bytes_ok tmp -> 0 <= octets <= 4 ->
  (saw = false -> cur = 0 /\ octets < 4) ->
  pton4_loop src tmp cur octets saw = Some t ->
  exists v vs, bytes_ok (v :: vs) /\ t = tmp ++ v :: vs /\
    octets + (if saw then 0 else 1) + Z.of_nat (length vs) = 4 /\
    (if saw then decimal cur else []) ++ cstr src = decimal v ++ dots vs.
Proof.
  induction src as [|ch src IH]; intros tmp cur octets saw t Hcur Htmp Ho Hsaw H.
  { assert (F : pton4_loop [] tmp cur octets saw = if octets <? 4 then None else Some (tmp ++ [cur])) by reflexivity.
    rewrite F in H. destruct (Z.ltb_spec octets 4); [discriminate|]. apply some_inj in H. subst t.
    destruct saw; [|destruct Hsaw; [reflexivity|lia]].
    exists cur, []. split; [|split; [|split]]; [constructor; [exact Hcur|constructor]|reflexivity|cbn [length]; lia|cbn; now rewrite !app_nil_r]. }
  cbn [pton4_loop] in H. destruct (Z.eqb_spec ch 0) as [->|N].
  { destruct (Z.ltb_spec octets 4); [discriminate|]. apply some_inj in H. subst t.
    destruct saw; [|destruct Hsaw; [reflexivity|lia]].
    exists cur, []. split; [|split; [|split]]; [constructor; [exact Hcur|constructor]|reflexivity|cbn [length]; lia|cbn; now rewrite !app_nil_r]. }
  rewrite cstr_cons by assumption. destruct (strchr digits ch) as [d|] eqn:E.
  - apply strchr_digits_inv in E as [Hd ->]. rewrite (wrap_small 32) in H by (unfold word_ok; lia).
    destruct saw; cbn [andb negb] in H.
    + destruct (Z.eqb_spec cur 0); [discriminate|]. destruct (Z.ltb_spec 255 (cur * 10 + d)); [discriminate|].
      rewrite wrap_small in H by (unfold word_ok; lia).
      apply IH in H as (v & vs & Hv & -> & L & T); try assumption; try lia.
      exists v, vs. repeat split; auto. rewrite <- T, decimal_step, <- app_assoc by lia. reflexivity.
    + destruct Hsaw as [-> Ho4]; [reflexivity|]. rewrite Z.mul_0_l, Z.add_0_l in H.
      destruct (255 <? d); [discriminate|]. destruct (4 <? octets + 1); [discriminate|].
      rewrite wrap_small in H by (unfold word_ok; lia).
      apply IH in H as (v & vs & Hv & -> & L & T); try assumption; try lia.
      exists v, vs. repeat split; auto; [lia|]. rewrite decimal_digit in T by lia. exact T.
  - destruct (Z.eqb_spec ch 46) as [->|]; [|discriminate]. destruct saw; [|discriminate].
    cbn [andb] in H. destruct (Z.eqb_spec octets 4); [discriminate|].
    apply IH in H as (v & vs & Hv & -> & L & T); try lia; [|apply Forall_app; auto].
    exists cur, (v :: vs). repeat split; [now constructor|now rewrite <- app_assoc|cbn [length]; lia|].
    cbn [app] in T. rewrite T. reflexivity.
Qed.

Lemma dotted_quad_dots v vs : length vs = 3%nat -> dotted_quad (v :: vs) = decimal v ++ dots vs.
Proof.
  destruct vs as [|b1 [|b2 [|b3 [|]]]]; try discriminate. intros _.
  rewrite dotted_quad_eq. unfold dots. cbn [flat_map app]. now rewrite app_nil_r.
Qed.

(** The accepted strings and their values. *)
Lemma pton4_loop_iff src a :
  pton4_loop src [] 0 0 false = Some a <-> bytes4 a /\ cstr src = dotted_quad a.
Proof.
  split.
  - intros H. apply pton4_loop_sound in H as (v & vs & Hv & -> & L & T); try lia; [|constructor].
    cbn [app] in *. rewrite dotted_quad_dots by lia. split; [split; [cbn [length]; lia|assumption]|assumption].
  - intros [Ha E]. destruct (cstr_split src) as (r & -> & R). rewrite E. now apply pton4_dotted_quad.
Qed.

(** [uv_inet_pton] for IPv4 accepts exactly the canonical dotted quads: if
    the string is the decimal text of four bytes with single dots and no
    leading zeros it writes these four bytes and nothing else; any other
    string is [UV_EINVAL] and nothing is written. *)
Theorem inet_pton4_exact (src dst : list Z) :
  let r := uv_inet_pton AF_INET (Some src) (Some dst) in
  (exists a, bytes4 a /\ cstr src = dotted_quad a /\ r = (0, Some (a ++ skipn 4 dst))) \/
  ((forall a, bytes4 a -> cstr src <> dotted_quad a) /\ r = (UV_EINVAL, Some dst)).
Proof.
  cbv zeta. change (uv_inet_pton AF_INET (Some src) (Some dst)) with
    (fst (inet_pton4 src dst), Some (snd (inet_pton4 src dst))).
  unfold inet_pton4. destruct (pton4_loop src [] 0 0 false) as [a|] eqn:E; cbn [fst snd].
  - left. apply pton4_loop_iff in E as [Ha E]. exists a. split; [exact Ha|]. split; [exact E|].
    destruct Ha as [L _]. rewrite <- L, firstn_all. reflexivity.
  - right. split; [|reflexivity]. intros a Ha Ea.
    assert (pton4_loop src [] 0 0 false = Some a) by (now apply pton4_loop_iff). congruence.
Qed.

(** The quads as text: 7 to 15 characters. *)
Lemma length_decimal_byte v : byte_ok v -> (1 <= length (decimal v) <= 3)%nat.
Proof.
  intros Hv. unfold word_ok in Hv. change (2 ^ 8) with 256 in Hv.
  destruct (Z.lt_ge_cases v 10); [rewrite decimal_digit by lia; cbn; lia|].
  rewrite decimal_step', length_app by lia. cbn [length].
  destruct (Z.lt_ge_cases (v / 10) 10); [rewrite decimal_digit by lia_div; cbn; lia|].
  rewrite decimal_step', length_app by lia_div. cbn [length].
  rewrite decimal_digit by lia_div. cbn. lia.
Qed.

Lemma length_dotted_quad a : bytes4 a -> (7 <= length (dotted_quad a) <= 15)%nat.
Proof.
  intros (b0 & b1 & b2 & b3 & -> & H0 & H1 & H2 & H3)%bytes4_inv. rewrite dotted_quad_eq. rewrite !length_app. cbn [length].
  apply length_decimal_byte in H0, H1, H2, H3. lia.
Qed.

Lemma dotted_quad_no_nul a : bytes4 a -> Forall (fun b => b <> 0) (dotted_quad a).
Proof.
  intros (b0 & b1 & b2 & b3 & -> & H0 & H1 & H2 & H3)%bytes4_inv. rewrite dotted_quad_eq.
  assert (D : forall b, byte_ok b -> Forall (fun b => b <> 0) (decimal b)).
  { intros b Hb. unfold word_ok in Hb. eapply Forall_impl; [|apply decimal_ok; lia]. cbn. intros. lia. }
  repeat first [apply D; assumption | apply Forall_app; split | constructor; [discriminate|] | constructor].
Qed.

(** What [inet_ntop4] writes for an address. *)
Lemma inet_ntop4_spec a dst size :
  bytes4 a -> 0 <= size <= Z.of_nat (length dst) -> size <= SSIZE_MAX ->
  inet_ntop4 a dst size =
    if Z.of_nat (length (dotted_quad a)) <? size
    then (0, dotted_quad a ++ [0] ++ skipn (S (length (dotted_quad a))) dst)
    else (UV_ENOSPC, dst).
Proof.
  intros Ha Hs Hm. pose proof (length_dotted_quad a Ha) as L. pose proof (strlen_no_nul _ (dotted_quad_no_nul a Ha)) as S.
  unfold inet_ntop4. change (Z.to_nat (UV__INET_ADDRSTRLEN - 1)) with 15%nat. rewrite firstn_all2 by lia.
  set (t := dotted_quad a) in *. destruct (Z.leb_spec (Z.of_nat (length t)) 0); [lia|]. cbn [orb].
  destruct (Z.leb_spec size (Z.of_nat (length t))), (Z.ltb_spec (Z.of_nat (length t)) size); try lia; [reflexivity|].
  rewrite strscpy_copies by (assumption || (apply in_or_app; right; left; reflexivity)).
  rewrite S. destruct (Z.eqb_spec size 0); [lia|]. destruct (Z.ltb_spec (Z.of_nat (length t)) size); [|lia].
  cbn [fst]. replace (Z.to_nat (Z.of_nat (length t) + 1)) with (Datatypes.S (length t)) by lia.
  now rewrite Nat2Z.id, firstn_app_length.
Qed.

(** [uv_inet_ntop] for IPv4 writes the dotted quad and its NUL if they fit
    in [size] bytes, and nothing but [UV_ENOSPC] is the answer if they do not;
    what it wrote, [uv_inet_pton] reads back as the address, whatever the
    bytes after it. *)
Theorem inet_ntop4_roundtrip (tmp a dst : list Z) (size : Z)
  (Ha : bytes4 a) (Hs : 0 <= size <= Z.of_nat (length dst)) (Hm : size <= SSIZE_MAX) :
  let (r, dst') := uv_inet_ntop tmp AF_INET a dst size in
  length dst' = length dst /\ (size < 8 -> r = UV_ENOSPC) /\ (16 <= size -> r = 0) /\
  (r = 0 -> cstr dst' = dotted_quad a /\
     uv_inet_pton AF_INET (Some dst') (Some (repeat 0 4)) = (0, Some a)) /\
  (r <> 0 -> dst' = dst).
Proof.
  change (uv_inet_ntop tmp AF_INET a dst size) with (inet_ntop4 a dst size).
  rewrite inet_ntop4_spec by assumption. pose proof (length_dotted_quad a Ha) as L.
  destruct (Z.ltb_spec (Z.of_nat (length (dotted_quad a))) size) as [H|H].
  2: { unfold UV_ENOSPC. repeat split; intros; lia || discriminate || reflexivity. }
  assert (C : cstr (dotted_quad a ++ [0] ++ skipn (S (length (dotted_quad a))) dst) = dotted_quad a).
  { unfold cstr. rewrite strlen_app_nul, (strlen_no_nul _ (dotted_quad_no_nul a Ha)), Nat2Z.id.
    apply firstn_app_length. }
  split; [rewrite !length_app, length_skipn; cbn [length]; lia|]. split; [lia|]. split; [auto|].
  split; [|congruence]. intros _. split; [exact C|].
  change (uv_inet_pton AF_INET (Some ?s) (Some ?d)) with (fst (inet_pton4 s d), Some (snd (inet_pton4 s d))).
  unfold inet_pton4. rewrite (proj2 (pton4_loop_iff _ a) (conj Ha C)). cbn [fst snd].
  destruct Ha as [La _]. rewrite <- La, firstn_all. unfold splice. cbn [firstn app].
  now rewrite skipn_all2, app_nil_r by (rewrite repeat_length; lia).
Qed.

Lemma inet_ntop4_roundtrip_witness :
  uv_inet_ntop [] AF_INET [10; 0; 2; 255] (repeat 7 16) 16
    = (0, [49; 48; 46; 48; 46; 50; 46; 50; 53; 53; 0; 7; 7; 7; 7; 7]) /\
  uv_inet_pton AF_INET (Some [49; 48; 46; 48; 46; 50; 46; 50; 53; 53; 0; 7; 7; 7; 7; 7]) (Some (repeat 0 4))
    = (0, Some [10; 0; 2; 255]).
Proof.
  split; [vm_compute; reflexivity|].
  apply (inet_ntop4_roundtrip [] [10; 0; 2; 255] (repeat 7 16) 16 ltac:(repeat constructor; discriminate)
    ltac:(split; discriminate) ltac:(discriminate)). reflexivity.
Defined.

(** ** IPv6: the longest run of zero words *)

Definition zero_run (ws : list Z) (i n : nat) : bool :=
  forallb (fun j => nth j ws 1 =? 0) (seq i n).

(** [b] is the first of the longest runs of two or more zero words of [ws]. *)
Definition first_longest (ws : list Z) (b : run) : bool :=
  forallb (fun i => forallb (fun n =>
      negb (zero_run ws i n) || (n <? 2)%nat ||
      ((0 <=? base b) && ((Z.of_nat n <? len b) || (Z.of_nat n =? len b) && (base b <=? Z.of_nat i))))
    (seq 0 9)) (seq 0 9) &&
  ((base b =? -1) ||
   ((0 <=? base b) && (2 <=? len b) && (base b + len b <=? 8) &&
    zero_run ws (Z.to_nat (base b)) (Z.to_nat (len b)))).

Lemma forallb_eq {A} (f g : A -> bool) l : (forall a, f a = g a) -> forallb f l = forallb g l.
Proof. intros E. induction l as [|a l IH]; [reflexivity|]. cbn [forallb]. now rewrite E, IH. Qed.

(** Only which words are zero matters. *)
Definition mask (ws : list Z) : list Z := map (fun w => if w =? 0 then 0 else 1) ws.

Lemma scan_runs_mask ws : forall i best cur, scan_runs i (mask ws) best cur = scan_runs i ws best cur.
Proof.
  induction ws as [|w ws IH]; intros i best cur; [reflexivity|]. cbn [mask map scan_runs].
  destruct (w =? 0); cbn [Z.eqb]; rewrite !IH; reflexivity.
Qed.

Lemma nth_mask ws j : nth j (mask ws) 1 = if nth j ws 1 =? 0 then 0 else 1.
Proof. revert j. induction ws as [|w ws IH]; intros [|j]; cbn; auto. Qed.

Lemma zero_run_mask ws i n : zero_run (mask ws) i n = zero_run ws i n.
Proof.
  unfold zero_run. apply forallb_eq. intros j.
  rewrite nth_mask. now destruct (nth j ws 1 =? 0).
Qed.

Lemma first_longest_mask ws b : first_longest (mask ws) b = first_longest ws b.
Proof.
  unfold first_longest. rewrite zero_run_mask. f_equal. apply forallb_eq. intros i. apply forallb_eq. intros n.
  now rewrite zero_run_mask.
Qed.

Fixpoint masks (n : nat) : list (list Z) :=
  match n with
  | O => [[]]
  | S n => flat_map (fun m => [0 :: m; 1 :: m]) (masks n)
  end.

Lemma in_masks ws : In (mask ws) (masks (length ws)).
Proof.
  induction ws as [|w ws IH]; [now left|]. cbn [masks length]. apply in_flat_map. exists (mask ws). split; [exact IH|].
  cbn [mask map]. fold (mask ws). destruct (w =? 0); cbn; auto.
Qed.

(** [inet_ntop6]'s scan finds the run that is to be written [::]. *)
Lemma best_run_ok ws : length ws = 8%nat -> first_longest ws (best_run ws) = true.
Proof.
  intros L. rewrite <- first_longest_mask. replace (best_run ws) with (best_run (mask ws)).
  2: { unfold best_run. now rewrite scan_runs_mask. }
  assert (A : forallb (fun m => first_longest m (best_run m)) (masks 8) = true) by (vm_compute; reflexivity).
  rewrite forallb_forall in A. apply A. rewrite <- L. apply in_masks.
Qed.

Lemma zero_run_spec ws i n : zero_run ws i n = true <-> forall j, (i <= j < i + n)%nat -> nth j ws 1 = 0.
Proof.
  unfold zero_run. rewrite forallb_forall. split; intros H j Hj.
  - apply Z.eqb_eq, H, in_seq. lia.
  - apply in_seq in Hj. now apply Z.eqb_eq, H.
Qed.

(** The shorthand [::] of [inet_ntop6] stands for the right words: the run
    it picks is a run of two or more zero words, no run of zero words is
    longer, and the runs as long as it come after it; if it picks none, no two
    adjacent words are zero. *)
Theorem ntop6_picks_first_longest_run (ws : list Z) (L : length ws = 8%nat) :
  let b := best_run ws in
  let zeros i n := forall j, (i <= j < i + n)%nat -> nth j ws 1 = 0 in
  (base b = -1 -> forall i, (i < 7)%nat -> ~ zeros i 2%nat) /\
  (base b <> -1 -> 0 <= base b /\ 2 <= len b /\ base b + len b <= 8 /\
     zeros (Z.to_nat (base b)) (Z.to_nat (len b)) /\
     forall i n, (2 <= n)%nat -> (i + n <= 8)%nat -> zeros i n ->
       Z.of_nat n < len b \/ Z.of_nat n = len b /\ base b <= Z.of_nat i).
Proof.
  cbv zeta. pose proof (best_run_ok ws L) as H. set (b := best_run ws) in *. unfold first_longest in H.
  apply andb_prop in H as [H1 H2]. rewrite forallb_forall in H1.
  assert (M : forall i n, (i < 9)%nat -> (2 <= n < 9)%nat -> (forall j, (i <= j < i + n)%nat -> nth j ws 1 = 0) ->
    0 <= base b /\ (Z.of_nat n < len b \/ Z.of_nat n = len b /\ base b <= Z.of_nat i)).
  { intros i n Hi Hn Hz. specialize (H1 i ltac:(apply in_seq; lia)). rewrite forallb_forall in H1.
    specialize (H1 n ltac:(apply in_seq; lia)). apply zero_run_spec in Hz. rewrite Hz in H1.
    destruct (Nat.ltb_spec n 2); [lia|]. cbn [negb orb] in H1. lia. }
  split.
  - intros E i Hi Hz. destruct (M i 2%nat ltac:(lia) ltac:(lia) Hz). lia.
  - intros N. destruct (Z.eqb_spec (base b) (-1)) as [|_]; [contradiction|]. cbn [orb] in H2.
    apply andb_prop in H2 as [H2 Z0]. split; [lia|]. split; [lia|]. split; [lia|].
    split; [now apply zero_run_spec|]. intros i n Hn Hin Hz. apply (M i n); lia || assumption.
Qed.

Lemma ntop6_picks_first_longest_run_witness :
  best_run [1; 0; 0; 2; 0; 0; 3; 0] = {| base := 1; len := 2 |} /\ 0 <= 1.
Proof.
  split; [reflexivity|].
  apply (ntop6_picks_first_longest_run [1; 0; 0; 2; 0; 0; 3; 0] eq_refl). discriminate.
Defined.

(** ** IPv6: reading back *)

(** The parser after [wr] has been written: the state of [tmp], [tp]. *)
Definition parsing (wr : list Z) (c : option Z) (k : list Z) (seen v : Z) : pton6_state :=
  {| tmp := wr ++ repeat 0 (16 - length wr); tp := Z.of_nat (length wr); colonp := c; curtok := k;
     seen_xdigits := seen; val := v |}.

Definition word_bytes (w : Z) : list Z := [w / 256; w mod 256].

Lemma land_255 x : 0 <= x -> Z.land (u8 x) 255 = x mod 256.
Proof. intros. change 255 with (2 ^ 8 - 1). rewrite land_mask by lia. unfold wrap. now rewrite Zmod_mod. Qed.

Lemma put_word_parsing wr c k seen v :
  (length wr + 2 <= 16)%nat -> word_ok 16 v ->
  put_word (parsing wr c k seen v) = parsing (wr ++ word_bytes v) c k seen v.
Proof.
  intros L Hv. unfold word_ok in Hv. unfold put_word, parsing. cbn [tmp tp colonp curtok seen_xdigits val].
  rewrite Z.shiftr_div_pow2, !land_255 by (try apply Z.div_pos; lia). change (2 ^ 8) with 256.
  rewrite (Z.mod_small (v / 256)) by (lia_div). f_equal.
  - assert (R : repeat 0 (16 - length wr) = 0 :: 0 :: repeat 0 (16 - length (wr ++ word_bytes v))).
    { rewrite length_app. cbn [length word_bytes].
      now replace (16 - length wr)%nat with (S (S (16 - (length wr + 2)))) by lia. }
    replace (Z.to_nat (Z.of_nat (length wr) + 1)) with (length (wr ++ [v / 256])) by (rewrite length_app; cbn [length]; lia).
    rewrite R, Nat2Z.id, set_nth_app. change (v / 256 :: 0 :: ?r) with ([v / 256] ++ 0 :: r).
    rewrite (app_assoc wr), set_nth_app. unfold word_bytes. now rewrite <- !app_assoc.
  - rewrite length_app. cbn [length word_bytes]. lia.
Qed.

Lemma xdigit_hex d : 0 <= d < 16 -> xdigit (hex_digit d) = Some d.
Proof.
  intros H. assert (A : forallb (fun d => match xdigit (hex_digit d) with Some e => e =? d | None => false end)
    (map Z.of_nat (seq 0 16)) = true) by (vm_compute; reflexivity).
  rewrite forallb_forall in A. specialize (A d).
  destruct (xdigit (hex_digit d)); [apply Z.eqb_eq in A; [congruence|]|discriminate A];
    apply in_map_iff; exists (Z.to_nat d); rewrite in_seq; lia.
Qed.

Lemma hex_digit_nz d : 0 <= d -> hex_digit d <> 0.
Proof. unfold hex_digit. destruct (d <? 10); lia. Qed.

Lemma pton6_digit d rest wr c k seen v :
  0 <= d < 16 -> 0 <= v < 2 ^ 12 -> seen < 4 ->
  pton6_loop (hex_digit d :: rest) (parsing wr c k seen v) = pton6_loop rest (parsing wr c k (seen + 1) (v * 16 + d)).
Proof.
  intros Hd Hv Hs. cbn [pton6_loop]. destruct (Z.eqb_spec (hex_digit d) 0) as [E|_]; [now apply hex_digit_nz in E; lia|].
  rewrite xdigit_hex by assumption. cbn [parsing tmp tp colonp curtok seen_xdigits val].
  destruct (Z.ltb_spec 4 (seen + 1)); [lia|]. unfold parsing. do 2 f_equal.
  rewrite wrap_small by (rewrite Z.shiftl_mul_pow2 by lia; unfold word_ok; lia).
  rewrite shiftl_lor_add by lia. reflexivity.
Qed.

Lemma word16_cases w : word_ok 16 w -> 0 <= w /\ (w < 16 \/ 16 <= w < 256 \/ 256 <= w < 4096 \/ 4096 <= w < 65536).
Proof. unfold word_ok. lia. Qed.

Lemma length_hexadecimal w : word_ok 16 w -> (1 <= length (hexadecimal w) <= 4)%nat.
Proof.
  intros [H0 [D|[D|[D|D]]]]%word16_cases;
    rewrite ?(hexadecimal_step w), ?(hexadecimal_step (w / 16)), ?(hexadecimal_step (w / 16 / 16)) by lia_div;
    rewrite hexadecimal_digit by lia_div; cbn; lia.
Qed.

(** A printed word is read as it is. *)
Lemma pton6_hex w rest wr c k :
  word_ok 16 w ->
  pton6_loop (hexadecimal w ++ rest) (parsing wr c k 0 0)
    = pton6_loop rest (parsing wr c k (Z.of_nat (length (hexadecimal w))) w).
Proof.
  intros [H0 [D|[D|[D|D]]]]%word16_cases.
  - rewrite hexadecimal_digit by lia. cbn [app]. now rewrite pton6_digit by lia.
  - rewrite hexadecimal_step, hexadecimal_digit by lia_div. cbn [app]. rewrite !pton6_digit by lia_div.
    cbn [length Z.of_nat]. do 2 f_equal. lia_div.
  - rewrite (hexadecimal_step w), hexadecimal_step, hexadecimal_digit by lia_div. cbn [app].
    rewrite !pton6_digit by lia_div. cbn [length Z.of_nat]. do 2 f_equal. lia_div.
  - rewrite (hexadecimal_step w), (hexadecimal_step (w / 16)), hexadecimal_step, hexadecimal_digit by lia_div. cbn [app].
    rewrite !pton6_digit by lia_div. cbn [length Z.of_nat]. do 2 f_equal. lia_div.
Qed.

(** [:] after a word: the word is stored. *)
Lemma pton6_colon r rest wr c k seen v :
  0 < seen -> word_ok 16 v -> r <> 0 -> (length wr + 2 <= 16)%nat ->
  pton6_loop (58 :: r :: rest) (parsing wr c k seen v)
    = pton6_loop (r :: rest) (parsing (wr ++ word_bytes v) c (r :: rest) 0 0).
Proof.
  intros Hs Hv Hr L. cbn [pton6_loop].
  change (58 =? 0) with false. change (xdigit 58) with (@None Z). change (58 =? 58) with true. cbv iota.
  cbn [parsing seen_xdigits tp]. destruct (Z.eqb_spec seen 0); [lia|].
  change (at_ (r :: rest) 0) with r. destruct (Z.eqb_spec r 0); [contradiction|].
  destruct (Z.ltb_spec 16 (Z.of_nat (length wr) + 2)); [lia|].
  fold (parsing wr c k seen v). rewrite put_word_parsing by assumption. reflexivity.
Qed.

(** The [:] of a [::] whose first colon, if any, has been read. *)
Lemma pton6_gap rest wr k :
  pton6_loop (58 :: rest) (parsing wr None k 0 0)
    = pton6_loop rest (parsing wr (Some (Z.of_nat (length wr))) rest 0 0).
Proof. reflexivity. Qed.

Lemma pton6_nul rest s : pton6_loop (0 :: rest) s = Some s.
Proof. reflexivity. Qed.

(** Words joined by colons *)
Fixpoint join (ws : list Z) : list Z :=
  match ws with
  | [] => []
  | [w] => hexadecimal w
  | w :: ws => hexadecimal w ++ 58 :: join ws
  end.

Abbreviation words_ok := (Forall (word_ok 16)).

Definition bytes_of (ws : list Z) : list Z := flat_map word_bytes ws.

Lemma length_bytes_of ws : length (bytes_of ws) = (2 * length ws)%nat.
Proof. induction ws as [|w ws IH]; [reflexivity|]. cbn [bytes_of flat_map word_bytes app length] in *. unfold bytes_of in IH. lia. Qed.

Lemma bytes_of_app a b : bytes_of (a ++ b) = bytes_of a ++ bytes_of b.
Proof. apply flat_map_app. Qed.

Lemma join_cons w w' ws : join (w :: w' :: ws) = hexadecimal w ++ 58 :: join (w' :: ws).
Proof. reflexivity. Qed.

Lemma hexadecimal_head w : word_ok 16 w -> exists h t, hexadecimal w = h :: t /\ h <> 0 /\ h <> 58.
Proof.
  intros Hw. assert (D : Forall (fun h => h <> 0 /\ h <> 58) (hexadecimal w)).
  { unfold word_ok in Hw. unfold hexadecimal. generalize 8%nat. intros f. assert (H : 0 <= w) by lia. clear Hw. revert w H.
    induction f as [|f IH]; intros w H; cbn [hex_digits]; [constructor|]. apply Forall_app. split.
    - destruct (w <? 16); [constructor|apply IH; lia_div].
    - constructor; [|constructor]. unfold hex_digit. pose proof (Z.mod_pos_bound w 16 eq_refl). destruct (Z.ltb_spec (w mod 16) 10); lia. }
  pose proof (length_hexadecimal w Hw) as L. destruct (hexadecimal w) as [|h t]; [cbn in L; lia|].
  inversion D; subst. eauto.
Qed.

Lemma join_head w ws : word_ok 16 w -> exists h t, join (w :: ws) = h :: t /\ h <> 0 /\ h <> 58.
Proof.
  intros Hw. destruct (hexadecimal_head w Hw) as (h & t & E & N).
  destruct ws; [exists h, t; auto|]. rewrite join_cons, E. cbn [app]. eauto.
Qed.

(** All the words of a [join] but the last are stored when the text after it
    is reached, and the last one is pending. *)
Lemma pton6_join ws : forall w rest wr c k,
  words_ok (ws ++ [w]) -> (length wr + 2 * length ws <= 16)%nat ->
  exists k' seen, 0 < seen /\
    pton6_loop (join (ws ++ [w]) ++ rest) (parsing wr c k 0 0)
      = pton6_loop rest (parsing (wr ++ bytes_of ws) c k' seen w).
Proof.
  induction ws as [|w0 ws IH]; intros w rest wr c k Hw L.
  - cbn [app join bytes_of flat_map]. inversion Hw as [|? ? Hw0 _]; subst.
    rewrite pton6_hex, app_nil_r by assumption. exists k, (Z.of_nat (length (hexadecimal w))).
    pose proof (length_hexadecimal w Hw0). split; [lia|reflexivity].
  - cbn [app length] in *. inversion Hw as [|? ? Hw0 Hws]; subst.
    assert (E : exists w1 ws1, ws ++ [w] = w1 :: ws1 /\ word_ok 16 w1).
    { destruct ws; cbn [app] in *; inversion Hws; subst; eauto. }
    destruct E as (w1 & ws1 & E & H1). rewrite E, join_cons, <- app_assoc, pton6_hex by assumption.
    destruct (join_head w1 ws1 H1) as (h & t & Eh & Nh & _). cbn [app]. rewrite Eh. cbn [app].
    pose proof (length_hexadecimal w0 Hw0). rewrite pton6_colon by (assumption || lia).
    change (h :: t ++ rest) with ((h :: t) ++ rest). rewrite <- Eh, <- E.
    destruct (IH w rest (wr ++ word_bytes w0) c (join (ws ++ [w]) ++ rest)) as (k' & seen & P & R);
      [assumption|rewrite length_app; cbn [length word_bytes]; lia|].
    exists k', seen. split; [exact P|]. rewrite R. change (bytes_of (w0 :: ws)) with (word_bytes w0 ++ bytes_of ws). now rewrite <- app_assoc.
Qed.

(** *** The end of the string *)

(** One step of moving the bytes after [::] to the end. *)
Lemma shift_run_step A x m B :
  set_nth (length A) 0 (set_nth (length A + S m) x (A ++ x :: repeat 0 (S m) ++ B)) = A ++ repeat 0 (S m) ++ x :: B.
Proof.
  replace (A ++ x :: repeat 0 (S m) ++ B) with ((A ++ x :: repeat 0 m) ++ 0 :: B).
  2: { rewrite <- app_assoc. cbn [app]. do 2 f_equal. replace (S m) with (m + 1)%nat by lia. rewrite repeat_app, <- app_assoc. reflexivity. }
  replace (length A + S m)%nat with (length (A ++ x :: repeat 0 m)) by (rewrite length_app; cbn [length]; rewrite repeat_length; lia).
  rewrite set_nth_app, <- app_assoc. cbn [app]. rewrite set_nth_app. reflexivity.
Qed.

Lemma shift_run_spec A T : forall B m,
  (length A + length T + S m + length B = 16)%nat ->
  shift_run (length T) (Z.of_nat (length A)) (Z.of_nat (length T + length B)) (A ++ T ++ repeat 0 (S m) ++ B)
    = A ++ repeat 0 (S m) ++ T ++ B.
Proof.
  induction T as [|x T IH] using rev_ind; intros B m L; [reflexivity|].
  rewrite length_app in *. cbn [length] in *. replace (length T + 1)%nat with (S (length T)) in * by lia.
  cbn [shift_run].
  replace (Z.of_nat (S (length T) + length B) - (Z.of_nat (S (length T) + length B) - Z.of_nat (length T))) with (Z.of_nat (length T)) by lia.
  replace (Z.to_nat (16 - (Z.of_nat (S (length T) + length B) - Z.of_nat (length T)))) with (length (A ++ T) + S m)%nat
    by (rewrite length_app; lia).
  replace (Z.to_nat (Z.of_nat (length A) + Z.of_nat (length T))) with (length (A ++ T)) by (rewrite length_app; lia).
  replace (A ++ (T ++ [x]) ++ repeat 0 (S m) ++ B) with ((A ++ T) ++ x :: repeat 0 (S m) ++ B) by (rewrite <- !app_assoc; reflexivity).
  assert (Ex : at_ ((A ++ T) ++ x :: repeat 0 (S m) ++ B) (Z.of_nat (length A) + Z.of_nat (length T)) = x).
  { unfold at_. replace (Z.to_nat (Z.of_nat (length A) + Z.of_nat (length T))) with (length (A ++ T)) by (rewrite length_app; lia).
    apply nth_middle. }
  rewrite Ex, shift_run_step.
  replace (S (length T) + length B)%nat with (length T + length (x :: B))%nat by (cbn [length]; lia).
  rewrite <- app_assoc. rewrite IH by (cbn [length]; lia). now rewrite <- !app_assoc.
Qed.

Lemma finish_plain wr k seen v :
  0 < seen -> word_ok 16 v -> length wr = 14%nat ->
  pton6_finish (parsing wr None k seen v) = Some (wr ++ word_bytes v).
Proof.
  intros Hs Hv L. unfold pton6_finish. rewrite put_word_parsing by (assumption || lia).
  assert (H16 : length (wr ++ word_bytes v) = 16%nat) by (rewrite length_app, L; reflexivity).
  cbn [parsing seen_xdigits tp colonp tmp]. destruct (Z.eqb_spec seen 0); [lia|].
  destruct (Z.ltb_spec 16 (Z.of_nat (length wr) + 2)); [lia|]. cbn [negb andb parsing tp colonp tmp].
  rewrite H16. cbn. apply f_equal, app_nil_r.
Qed.

(** With a [::], what was read after it moves to the end. *)
Lemma finish_gap A T k v :
  (length A + length T < 16)%nat ->
  pton6_finish (parsing (A ++ T) (Some (Z.of_nat (length A))) k 0 v)
    = Some (A ++ repeat 0 (16 - (length A + length T)) ++ T).
Proof.
  intros L. unfold pton6_finish, parsing. cbn [seen_xdigits tp colonp tmp Z.eqb negb andb].
  rewrite length_app. destruct (Z.eqb_spec (Z.of_nat (length A + length T)) 16); [lia|].
  replace (Z.of_nat (length A + length T) - Z.of_nat (length A)) with (Z.of_nat (length T + length (@nil Z))) by (cbn [length]; lia).
  replace (Z.to_nat (Z.of_nat (length T + length (@nil Z)))) with (length T) by (cbn [length]; lia).
  destruct (16 - (length A + length T))%nat as [|m] eqn:Em; [lia|].
  replace ((A ++ T) ++ repeat 0 (S m)) with (A ++ T ++ repeat 0 (S m) ++ []) by (now rewrite app_nil_r, app_assoc).
  rewrite shift_run_spec by (cbn [length]; lia). now rewrite app_nil_r.
Qed.

Lemma finish_gap_pending A T k seen v :
  0 < seen -> word_ok 16 v -> (length A + length T + 2 < 16)%nat ->
  pton6_finish (parsing (A ++ T) (Some (Z.of_nat (length A))) k seen v)
    = Some (A ++ repeat 0 (16 - (length A + length (T ++ word_bytes v))) ++ T ++ word_bytes v).
Proof.
  intros Hs Hv L. rewrite <- (finish_gap A (T ++ word_bytes v) k v) by (rewrite length_app; cbn [length word_bytes]; lia).
  unfold pton6_finish. rewrite put_word_parsing by (rewrite ?length_app; assumption || lia).
  cbn [parsing seen_xdigits tp colonp tmp]. rewrite length_app.
  destruct (Z.eqb_spec seen 0); [lia|]. destruct (Z.ltb_spec 16 (Z.of_nat (length A + length T) + 2)); [lia|].
  cbn [negb andb Z.eqb parsing tp colonp tmp]. now rewrite <- !app_assoc.
Qed.

(** From the second colon of a [::] on. *)
Lemma pton6_after_gap A post junk k :
  words_ok post -> (length A + 2 * length post < 16)%nat ->
  exists s, pton6_loop (58 :: join post ++ 0 :: junk) (parsing A None k 0 0) = Some s /\
    pton6_finish s = Some (A ++ repeat 0 (16 - (length A + 2 * length post)) ++ bytes_of post).
Proof.
  intros Hp L. rewrite pton6_gap. destruct (rev_last_case post) as [->|(ws & w & ->)].
  - cbn [join app]. eexists. split; [reflexivity|]. rewrite <- (app_nil_r A) at 1.
    rewrite finish_gap by (cbn [length]; lia). reflexivity.
  - destruct (pton6_join ws w (0 :: junk) A (Some (Z.of_nat (length A))) (join (ws ++ [w]) ++ 0 :: junk))
      as (k' & seen & P & R); [assumption|rewrite length_app in L; cbn [length] in L; lia|].
    rewrite R. eexists. split; [reflexivity|]. apply Forall_app in Hp as [_ Hw]. inversion Hw; subst.
    rewrite length_app in L. cbn [length] in L.
    rewrite finish_gap_pending by (rewrite ?length_bytes_of; assumption || lia).
    rewrite bytes_of_app, !length_app, length_bytes_of. cbn [bytes_of flat_map app length word_bytes].
    do 3 f_equal. f_equal. lia.
Qed.

Lemma splice_16 x dst : length x = 16%nat -> splice 0 x dst = x ++ skipn 16 dst.
Proof. intros L. unfold splice. now rewrite L. Qed.

Lemma length_gap A p q : (length A + q < 16)%nat -> length p = q -> length (A ++ repeat 0 (16 - (length A + q)) ++ p) = 16%nat.
Proof. intros L <-. rewrite !length_app, repeat_length. lia. Qed.

(** Eight words *)
Lemma pton6_plain ws junk dst :
  words_ok ws -> length ws = 8%nat ->
  inet_pton6 (join ws ++ 0 :: junk) dst = (0, bytes_of ws ++ skipn 16 dst).
Proof.
  intros Hw L. destruct (rev_last_case ws) as [->|(ws' & w & ->)]; [discriminate|].
  rewrite length_app in L. cbn [length] in L.
  assert (Hd : exists h t, join (ws' ++ [w]) = h :: t /\ h <> 0 /\ h <> 58).
  { destruct ws' as [|w1 ws']; [cbn in L; lia|]. cbn [app] in *. inversion Hw; subst. now apply join_head. }
  destruct Hd as (h & t & E & Nh & Nc). unfold inet_pton6.
  replace (at_ (join (ws' ++ [w]) ++ 0 :: junk) 0) with h by (now rewrite E).
  destruct (Z.eqb_spec h 58); [contradiction|]. cbn [andb].
  destruct (pton6_join ws' w (0 :: junk) [] None (join (ws' ++ [w]) ++ 0 :: junk)) as (k' & seen & P & R);
    [assumption|cbn [length]; lia|].
  change (pton6_start (join (ws' ++ [w]) ++ 0 :: junk)) with (parsing [] None (join (ws' ++ [w]) ++ 0 :: junk) 0 0).
  rewrite R, pton6_nul. cbn [app]. apply Forall_app in Hw as [_ Hw']. inversion Hw'; subst.
  rewrite finish_plain by (rewrite ?length_bytes_of; assumption || lia).
  assert (B : bytes_of ws' ++ word_bytes w = bytes_of (ws' ++ [w])) by (now rewrite bytes_of_app).
  rewrite B, splice_16; [reflexivity|]. rewrite length_bytes_of, length_app. cbn [length]. lia.
Qed.

(** Words on both sides of a [::] *)
Lemma pton6_gapped pre post junk dst :
  words_ok pre -> words_ok post -> (length pre + length post < 8)%nat ->
  inet_pton6 (join pre ++ [58; 58] ++ join post ++ 0 :: junk) dst
    = (0, bytes_of pre ++ repeat 0 (16 - 2 * (length pre + length post)) ++ bytes_of post ++ skipn 16 dst).
Proof.
  intros Ha Hp L. destruct (pton6_after_gap (bytes_of pre) post junk (58 :: join post ++ 0 :: junk) Hp) as (s & S1 & S2);
    [rewrite length_bytes_of; lia|].
  assert (Fin : forall x, x = bytes_of pre ++ repeat 0 (16 - (length (bytes_of pre) + 2 * length post)) ++ bytes_of post ->
    (0, splice 0 x dst) = (0, bytes_of pre ++ repeat 0 (16 - 2 * (length pre + length post)) ++ bytes_of post ++ skipn 16 dst)).
  { intros x ->. rewrite splice_16 by (apply length_gap; rewrite ?length_bytes_of; lia).
    rewrite <- !app_assoc, length_bytes_of. do 4 f_equal. lia. }
  unfold inet_pton6. destruct (rev_last_case pre) as [->|(ws & w & ->)].
  - change (at_ (join [] ++ [58; 58] ++ join post ++ 0 :: junk) 0) with 58.
    change (skipn 1 (join [] ++ [58; 58] ++ join post ++ 0 :: junk)) with (58 :: join post ++ 0 :: junk).
    change (at_ (58 :: join post ++ 0 :: junk) 0) with 58. change (58 =? 58) with true. cbn [andb negb].
    change (pton6_start (58 :: join post ++ 0 :: junk)) with (parsing (bytes_of []) None (58 :: join post ++ 0 :: junk) 0 0).
    rewrite S1, S2. now apply Fin.
  - assert (Hd : exists h t, join (ws ++ [w]) = h :: t /\ h <> 0 /\ h <> 58).
    { destruct ws; cbn [app] in *; inversion Ha; subst; now apply join_head. }
    destruct Hd as (h & t & E & Nh & Nc).
    replace (at_ (join (ws ++ [w]) ++ [58; 58] ++ join post ++ 0 :: junk) 0) with h by (now rewrite E).
    destruct (Z.eqb_spec h 58); [contradiction|]. cbn [andb].
    set (src := join (ws ++ [w]) ++ [58; 58] ++ join post ++ 0 :: junk) in *.
    rewrite length_app in L. cbn [length] in L.
    destruct (pton6_join ws w ([58; 58] ++ join post ++ 0 :: junk) [] None src) as (k' & seen & P & R);
      [assumption|cbn [length]; lia|].
    change (pton6_start src) with (parsing [] None src 0 0). fold src in R. rewrite R. cbn [app].
    apply Forall_app in Ha as [_ Hw']. inversion Hw'; subst.
    rewrite pton6_colon by (rewrite ?length_bytes_of; assumption || lia).
    assert (B : bytes_of ws ++ word_bytes w = bytes_of (ws ++ [w])) by (now rewrite bytes_of_app).
    rewrite B, S1, S2. now apply Fin.
Qed.

(** An IPv4 address in the place of the last two words. *)
Lemma pton6_decimal b rest wr c k :
  byte_ok b -> exists seen v, pton6_loop (decimal b ++ rest) (parsing wr c k 0 0) = pton6_loop rest (parsing wr c k seen v).
Proof.
  intros Hb. unfold word_ok in Hb. change (2 ^ 8) with 256 in Hb.
  assert (D : forall d, 0 <= d < 10 -> 48 + d = hex_digit d).
  { intros d Hd. unfold hex_digit. destruct (Z.ltb_spec d 10); lia. }
  destruct (Z.lt_ge_cases b 10).
  { rewrite decimal_digit, D by lia. cbn [app]. rewrite pton6_digit by lia. eauto. }
  rewrite decimal_step' by lia. destruct (Z.lt_ge_cases (b / 10) 10).
  { rewrite decimal_digit, !D by lia_div. cbn [app]. rewrite !pton6_digit by lia_div. eauto. }
  rewrite decimal_step', decimal_digit, !D by lia_div. cbn [app]. rewrite !pton6_digit by lia_div. eauto.
Qed.

Lemma skipn_repeat {A} n m (x : A) : skipn n (repeat x m) = repeat x (m - n).
Proof. revert m. induction n as [|n IH]; intros [|m]; cbn [skipn repeat Nat.sub]; auto. Qed.

Lemma pton6_quad a junk wr c k :
  bytes4 a -> (length wr + 4 <= 16)%nat -> k = dotted_quad a ++ 0 :: junk ->
  exists v, pton6_loop k (parsing wr c k 0 0) = Some (parsing (wr ++ a) c k 0 v).
Proof.
  intros Ha L Ek. pose proof (bytes4_inv a Ha) as (b0 & b1 & b2 & b3 & E & H0 & _).
  destruct (pton6_decimal b0 (([46] ++ decimal b1 ++ [46] ++ decimal b2 ++ [46] ++ decimal b3) ++ 0 :: junk) wr c k H0)
    as (seen & v & E1).
  rewrite app_assoc, <- dotted_quad_eq, <- E, <- Ek in E1. rewrite E1. clear E1.
  exists v. cbn [app pton6_loop]. change (46 =? 0) with false. change (xdigit 46) with (@None Z).
  change (46 =? 58) with false. change (46 =? 46) with true. cbn [andb]. cbn [parsing tp colonp curtok tmp val seen_xdigits].
  destruct (Z.leb_spec (Z.of_nat (length wr) + 4) 16); [|lia]. rewrite Nat2Z.id, skipn_app_length, firstn_app_length.
  unfold inet_pton4. rewrite Ek at 1. rewrite pton4_dotted_quad by (assumption || reflexivity). cbn [Z.eqb].
  destruct Ha as [La _]. unfold parsing. rewrite <- La, firstn_all. unfold splice. cbn [firstn app].
  rewrite length_app, La. do 2 f_equal; [|lia]. rewrite <- app_assoc. do 2 f_equal.
  cbn [Nat.add]. rewrite skipn_repeat. f_equal. lia.
Qed.

(** What [inet_ntop6] prints, up to the NUL. *)
Definition is_quad (ws : list Z) (b : run) : bool :=
  (base b =? 0) && ((len b =? 6) || ((len b =? 5) && (nth 5 ws 0 =? 65535))).

Definition text6 (quad ws : list Z) (b : run) : list Z :=
  if base b =? -1 then join ws
  else
    join (firstn (Z.to_nat (base b)) ws) ++ [58; 58] ++
    (if is_quad ws b then (if len b =? 5 then hexadecimal 65535 ++ [58] else []) ++ quad
     else join (skipn (Z.to_nat (base b + len b)) ws)).

Definition run_ok (ws : list Z) (b : run) : Prop :=
  0 <= base b /\ 2 <= len b /\ base b + len b <= 8 /\ zero_run ws (Z.to_nat (base b)) (Z.to_nat (len b)) = true.

Lemma best_run_cases ws : length ws = 8%nat -> base (best_run ws) = -1 \/ run_ok ws (best_run ws).
Proof.
  intros L. pose proof (best_run_ok ws L) as H. unfold first_longest in H. apply andb_prop in H as [_ H].
  destruct (Z.eqb_spec (base (best_run ws)) (-1)); [now left|]. right. unfold run_ok.
  cbn [orb] in H. apply andb_prop in H as [H Z0]. repeat split; lia || assumption.
Qed.

(** All the runs there can be. *)
Definition runs : list run :=
  flat_map (fun i => map (fun n => {| base := Z.of_nat i; len := Z.of_nat n |}) (seq 2 (7 - i))) (seq 0 7).

Lemma in_runs b : 0 <= base b -> 2 <= len b -> base b + len b <= 8 -> In b runs.
Proof.
  intros H1 H2 H3. apply in_flat_map. exists (Z.to_nat (base b)). rewrite in_seq. split; [lia|].
  apply in_map_iff. exists (Z.to_nat (len b)). rewrite in_seq. split; [|lia].
  destruct b as [i n]. cbn [base len] in *. now rewrite !Z2Nat.id by lia.
Qed.

Lemma ntop4_in_tmp src tmp n :
  bytes4 (skipn 12 src) -> length tmp = 46%nat -> (n <= 30)%nat ->
  exists r, inet_ntop4 (skipn 12 src) (skipn n tmp) (UV__INET6_ADDRSTRLEN - Z.of_nat n)
    = (0, dotted_quad (skipn 12 src) ++ [0] ++ r).
Proof.
  intros Ha L Hn. pose proof (length_dotted_quad _ Ha). unfold UV__INET6_ADDRSTRLEN.
  rewrite inet_ntop4_spec by (assumption || (rewrite ?length_skipn; unfold SSIZE_MAX; lia)).
  destruct (Z.ltb_spec (Z.of_nat (length (dotted_quad (skipn 12 src)))) (46 - Z.of_nat n)); [eauto|lia].
Qed.

Lemma strlen_quad a r : bytes4 a ->
  firstn (Z.to_nat (strlen (dotted_quad a ++ [0] ++ r))) (dotted_quad a ++ [0] ++ r) = dotted_quad a.
Proof.
  intros Ha. rewrite strlen_app_nul, (strlen_no_nul _ (dotted_quad_no_nul a Ha)), Nat2Z.id. apply firstn_app_length.
Qed.

(** Compute the indices in a goal. *)
Ltac eval_indices :=
  repeat match goal with
  | |- context [Pos.to_nat ?p] => let n := eval compute in (Pos.to_nat p) in change (Pos.to_nat p) with n
  end.

Lemma format_words_text src tmp ws b :
  bytes4 (skipn 12 src) -> length tmp = 46%nat -> length ws = 8%nat -> (base b = -1 \/ In b runs) ->
  exists out, format_words src tmp ws b 0 ws [] = inr out /\
    (if negb (base b =? -1) && (base b + len b =? 8) then out ++ [58] else out) = text6 (dotted_quad (skipn 12 src)) ws b.
Proof.
  intros Ha Lt L Hb. destruct ws as [|w0 [|w1 [|w2 [|w3 [|w4 [|w5 [|w6 [|w7 [|]]]]]]]]]; try discriminate L. clear L.
  destruct Hb as [Hb|Hb].
  - destruct b as [bb bl]. cbn [base] in Hb. subst. eexists. split.
    + cbn -[hexadecimal inet_ntop4 dotted_quad skipn UV__INET6_ADDRSTRLEN strlen firstn]. reflexivity.
    + unfold text6. cbn -[hexadecimal]. rewrite <- !app_assoc. reflexivity.
  - cbn [In runs flat_map map seq app Nat.sub] in Hb.
    repeat match goal with H : _ \/ _ |- _ => destruct H as [H|H] end; try contradiction; subst b;
      unfold text6, is_quad; cbn -[hexadecimal inet_ntop4 dotted_quad UV__INET6_ADDRSTRLEN strlen firstn skipn];
      eval_indices; cbv iota;
      try (eexists; split; [reflexivity|]; cbn -[hexadecimal]; do 8 (rewrite <- ?app_assoc; cbn [app]); reflexivity).
    + destruct (Z.eqb_spec w5 65535) as [->|].
      2: { eexists; split; [reflexivity|]; cbn -[hexadecimal]; rewrite <- ?app_assoc; reflexivity. }
      change (length (hexadecimal 65535 ++ [58])) with 5%nat.
      destruct (ntop4_in_tmp src tmp 7 Ha Lt ltac:(lia)) as [r E]. change (inet_ntop4 _ _ _) with
        (inet_ntop4 (skipn 12 src) (skipn 7 tmp) (UV__INET6_ADDRSTRLEN - Z.of_nat 7)).
      rewrite E. cbn [Z.eqb negb]. rewrite strlen_quad by assumption.
      eexists. split; [reflexivity|]. cbn [firstn join app]. now rewrite <- !app_assoc.
    + destruct (ntop4_in_tmp src tmp 2 Ha Lt ltac:(lia)) as [r E]. change (inet_ntop4 _ _ _) with
        (inet_ntop4 (skipn 12 src) (skipn 2 tmp) (UV__INET6_ADDRSTRLEN - Z.of_nat 2)).
      rewrite E. cbn [Z.eqb negb]. rewrite strlen_quad by assumption. eexists. split; reflexivity.
Qed.

Lemma Forall_cut {A} (P : A -> Prop) n l : Forall P l -> Forall P (firstn n l) /\ Forall P (skipn n l).
Proof. intros H. apply Forall_app. now rewrite firstn_skipn. Qed.

(** The address as eight words *)
Definition bytes16 (a : list Z) : Prop := length a = 16%nat /\ bytes_ok a.

Lemma word_of_bytes h l : byte_ok h -> byte_ok l ->
  let w := Z.lor (Z.lor 0 (Z.shiftl h 8)) l in word_ok 16 w /\ word_bytes w = [h; l].
Proof.
  intros Hh Hl w. unfold word_ok in *. unfold w. rewrite Z.lor_0_l, shiftl_lor_add by lia.
  change (2 ^ 8) with 256 in *. change (2 ^ 16) with 65536. split; [lia|].
  unfold word_bytes. rewrite Z.div_add_l, Z.div_small by lia. f_equal; [lia|]. f_equal.
  rewrite Z.add_comm, Z_mod_plus_full. apply Z.mod_small. lia.
Qed.

Lemma words_of_spec src : bytes16 src ->
  length (words_of src) = 8%nat /\ words_ok (words_of src) /\ bytes_of (words_of src) = src.
Proof.
  intros [L H].
  do 16 (destruct src as [|? src]; [discriminate L|]). destruct src; [|discriminate L]. clear L.
  repeat match goal with H : Forall _ (_ :: _) |- _ => inversion H; clear H; subst end.
  split; [reflexivity|].
  match goal with |- words_ok ?w /\ _ => let w' := eval cbn -[Z.lor Z.shiftl] in w in change w with w' end.
  rewrite !Z.shiftl_0_r. change (Z.shiftl 1 3) with 8.
  split.
  - repeat (constructor; [now apply word_of_bytes|]). constructor.
  - unfold bytes_of. cbn [flat_map].
    repeat match goal with Hh : byte_ok ?h, Hl : byte_ok ?l |- context [word_bytes (Z.lor (Z.lor 0 (Z.shiftl ?h 8)) ?l)] =>
      rewrite (proj2 (word_of_bytes h l Hh Hl)) end. reflexivity.
Qed.

(** The text of an address, with an IPv4 suffix. *)
Lemma pton6_mapped (mapped : bool) a junk dst :
  bytes4 a ->
  inet_pton6 ([58; 58] ++ (if mapped then hexadecimal 65535 ++ [58] else []) ++ dotted_quad a ++ 0 :: junk) dst
    = (0, (if mapped then repeat 0 10 ++ [255; 255] else repeat 0 12) ++ a ++ skipn 16 dst).
Proof.
  intros Ha. set (q := dotted_quad a ++ 0 :: junk).
  assert (Hd : exists h t, q = h :: t /\ h <> 0).
  { pose proof (dotted_quad_no_nul a Ha) as N. pose proof (length_dotted_quad a Ha) as L. unfold q.
    destruct (dotted_quad a) as [|h t]; [cbn in L; lia|]. inversion N; subst. cbn [app]. eauto. }
  destruct Hd as (h & t & Eq & Nh). pose proof Ha as [La _].
  set (rest := (if mapped then hexadecimal 65535 ++ [58] else []) ++ q).
  unfold inet_pton6. change (at_ ([58; 58] ++ rest) 0) with 58. change (skipn 1 ([58; 58] ++ rest)) with (58 :: rest).
  change (at_ (58 :: rest) 0) with 58. change (58 =? 58) with true. cbn [andb negb].
  change (pton6_start (58 :: rest)) with (parsing [] None (58 :: rest) 0 0). rewrite pton6_gap.
  change (Z.of_nat (length (@nil Z))) with 0. unfold rest. destruct mapped.
  - rewrite <- app_assoc, pton6_hex by (unfold word_ok; lia). cbn [app]. rewrite Eq, pton6_colon
      by (assumption || (unfold word_ok; lia) || reflexivity || (cbn [length]; lia)).
    rewrite <- Eq. cbn [app]. destruct (pton6_quad a junk (word_bytes 65535) (Some 0) q Ha ltac:(cbn; lia) eq_refl) as [v E].
    rewrite E. change (parsing (word_bytes 65535 ++ a) (Some 0) q 0 v) with
      (parsing ([] ++ (word_bytes 65535 ++ a)) (Some (Z.of_nat (length (@nil Z)))) q 0 v).
    rewrite finish_gap by (rewrite length_app, La; cbn; lia).
    rewrite splice_16 by (rewrite !length_app, La; reflexivity). rewrite length_app, La.
    cbn [length word_bytes Nat.add Nat.sub app]. change (word_bytes 65535) with [255; 255].
    now rewrite <- !app_assoc.
  - cbn [app]. destruct (pton6_quad a junk [] (Some 0) q Ha ltac:(cbn; lia) eq_refl) as [v E].
    rewrite E. change (parsing ([] ++ a) (Some 0) q 0 v) with (parsing ([] ++ a) (Some (Z.of_nat (length (@nil Z)))) q 0 v).
    rewrite finish_gap by (rewrite La; cbn; lia).
    rewrite splice_16 by (rewrite !length_app, La; reflexivity). rewrite La. cbn [length Nat.add Nat.sub app].
    now rewrite <- !app_assoc.
Qed.

(** A run of zero words cuts the list. *)
Lemma zero_run_cut ws i n :
  zero_run ws i n = true -> (i + n <= length ws)%nat -> ws = firstn i ws ++ repeat 0 n ++ skipn (i + n) ws.
Proof.
  intros Hz L. rewrite <- (firstn_skipn i ws) at 1. f_equal. rewrite <- (firstn_skipn n (skipn i ws)) at 1.
  rewrite skipn_skipn, (Nat.add_comm n i). f_equal.
  pose proof (proj1 (zero_run_spec ws i n) Hz) as Z0.
  apply (nth_ext _ _ 1 0); [rewrite length_firstn, length_skipn, repeat_length; lia|].
  intros j Hj. rewrite length_firstn, length_skipn in Hj.
  rewrite nth_repeat, nth_firstn, nth_skipn. destruct (Nat.ltb_spec j n); [apply Z0; lia|lia].
Qed.

Lemma bytes_of_zeros n : bytes_of (repeat 0 n) = repeat 0 (2 * n).
Proof.
  induction n as [|n IH]; [reflexivity|]. cbn [repeat]. change (bytes_of (0 :: repeat 0 n)) with ([0; 0] ++ bytes_of (repeat 0 n)).
  rewrite IH. now replace (2 * S n)%nat with (S (S (2 * n))) by lia.
Qed.

(** The run and what is around it *)
Lemma run_cut ws b : length ws = 8%nat -> run_ok ws b ->
  ws = firstn (Z.to_nat (base b)) ws ++ repeat 0 (Z.to_nat (len b)) ++ skipn (Z.to_nat (base b + len b)) ws /\
  length (firstn (Z.to_nat (base b)) ws) = Z.to_nat (base b) /\
  length (skipn (Z.to_nat (base b + len b)) ws) = (8 - Z.to_nat (base b + len b))%nat.
Proof.
  intros L (P0 & P1 & P2 & P3). split; [|rewrite length_firstn, length_skipn; lia].
  rewrite Z2Nat.inj_add by lia. apply zero_run_cut; [assumption|lia].
Qed.

Lemma quad_bytes ws b :
  length ws = 8%nat -> run_ok ws b -> is_quad ws b = true ->
  firstn 12 (bytes_of ws) = if len b =? 5 then repeat 0 10 ++ [255; 255] else repeat 0 12.
Proof.
  intros L R Q. destruct (run_cut ws b L R) as (C & _ & _). unfold is_quad in Q.
  apply andb_prop in Q as [Q0 Q]. apply Z.eqb_eq in Q0. rewrite Q0 in C. cbn [Z.to_nat firstn app Z.add] in C.
  destruct ws as [|w0 [|w1 [|w2 [|w3 [|w4 [|w5 [|w6 [|w7 [|]]]]]]]]]; try discriminate L.
  cbn [nth] in Q. apply orb_prop in Q as [Q|Q].
  - apply Z.eqb_eq in Q. rewrite Q in *. injection C as -> -> -> -> -> ->. reflexivity.
  - apply andb_prop in Q as [Q5 Q]. apply Z.eqb_eq in Q5, Q. rewrite Q5 in *. subst w5.
    injection C as -> -> -> -> ->. reflexivity.
Qed.

(** Reading back what was printed *)
Lemma pton6_text6 src junk dst :
  bytes16 src ->
  inet_pton6 (text6 (dotted_quad (skipn 12 src)) (words_of src) (best_run (words_of src)) ++ 0 :: junk) dst
    = (0, src ++ skipn 16 dst).
Proof.
  intros Hs. destruct (words_of_spec src Hs) as (L & W & B). pose proof (best_run_cases _ L) as Hb.
  generalize dependent (best_run (words_of src)). generalize dependent (words_of src). intros ws L W B b Hb.
  unfold text6. destruct (Z.eqb_spec (base b) (-1)) as [E|N].
  { rewrite pton6_plain by assumption. now rewrite B. }
  destruct Hb as [|R]; [contradiction|]. destruct (is_quad ws b) eqn:Q.
  - assert (Ha : bytes4 (skipn 12 src)).
    { destruct Hs as [Ls Hb]. split; [rewrite length_skipn; lia|now apply Forall_cut]. }
    pose proof (quad_bytes ws b L R Q) as E. rewrite B in E.
    unfold is_quad in Q. apply andb_prop in Q as [Q0 _]. apply Z.eqb_eq in Q0. rewrite Q0.
    change (join (firstn (Z.to_nat 0) ws)) with (@nil Z). rewrite app_nil_l, <- !app_assoc.
    rewrite (pton6_mapped (len b =? 5) (skipn 12 src) junk dst Ha), <- E, app_assoc, firstn_skipn. reflexivity.
  - destruct (run_cut ws b L R) as (C & L1 & L2). destruct R as (P0 & P1 & P2 & _).
    rewrite <- !app_assoc. rewrite pton6_gapped by (lia || now apply Forall_cut).
    rewrite L1, L2. rewrite <- B. rewrite C at 3. rewrite !bytes_of_app, bytes_of_zeros, <- !app_assoc.
    do 4 f_equal. lia.
Qed.

(** The text itself: no NUL, no percent sign, 45 characters at most. *)
Definition plain (c : Z) : Prop := c <> 0 /\ c <> 37.

Lemma plain_hex w : word_ok 16 w -> Forall plain (hexadecimal w).
Proof.
  unfold word_ok, hexadecimal. generalize 8%nat. intros f Hw. assert (H : 0 <= w) by lia. clear Hw. revert w H.
  induction f as [|f IH]; intros w H; cbn [hex_digits]; [constructor|]. apply Forall_app. split.
  - destruct (w <? 16); [constructor|apply IH; lia_div].
  - constructor; [|constructor]. unfold plain, hex_digit. pose proof (Z.mod_pos_bound w 16 eq_refl).
    destruct (Z.ltb_spec (w mod 16) 10); lia.
Qed.

Lemma plain_colon : plain 58.
Proof. split; discriminate. Qed.

Lemma plain_join ws : words_ok ws -> Forall plain (join ws) /\ (length (join ws) <= 5 * length ws)%nat.
Proof.
  induction 1 as [|w ws Hw Hws [IH L]]; [split; [constructor|cbn; lia]|].
  pose proof (plain_hex w Hw). pose proof (length_hexadecimal w Hw). destruct ws as [|w' ws].
  - cbn [join length]. split; [assumption|lia].
  - rewrite join_cons, length_app. cbn [length] in *. split; [|lia].
    apply Forall_app. split; [assumption|]. constructor; [exact plain_colon|assumption].
Qed.

Lemma plain_quad a : bytes4 a -> Forall plain (dotted_quad a).
Proof.
  intros (b0 & b1 & b2 & b3 & -> & H0 & H1 & H2 & H3)%bytes4_inv. rewrite dotted_quad_eq.
  assert (D : forall b, byte_ok b -> Forall plain (decimal b)).
  { intros b Hb. unfold word_ok in Hb. eapply Forall_impl; [|apply decimal_ok; lia]. unfold plain. cbn. intros. lia. }
  assert (Dot : Forall plain [46]) by (repeat constructor; discriminate).
  repeat first [apply D; assumption | exact Dot | apply Forall_app; split].
Qed.

Lemma plain_text6 a ws b :
  bytes4 a -> words_ok ws -> length ws = 8%nat -> base b = -1 \/ run_ok ws b ->
  Forall plain (text6 (dotted_quad a) ws b) /\ (length (text6 (dotted_quad a) ws b) <= 45)%nat.
Proof.
  intros Ha Hw L Hb. unfold text6. destruct (Z.eqb_spec (base b) (-1)) as [E|N].
  { destruct (plain_join ws Hw). split; [assumption|lia]. }
  destruct Hb as [|R]; [contradiction|]. destruct (run_cut ws b L R) as (_ & L1 & L2). destruct R as (P0 & P1 & P2 & _).
  destruct (plain_join _ (proj1 (Forall_cut _ (Z.to_nat (base b)) ws Hw))) as [F1 F2].
  destruct (plain_join _ (proj2 (Forall_cut _ (Z.to_nat (base b + len b)) ws Hw))) as [G1 G2].
  assert (Gap : Forall plain [58; 58]) by (repeat constructor; discriminate).
  pose proof (plain_quad a Ha) as Q. pose proof (length_dotted_quad a Ha) as LQ.
  rewrite L1 in F2. rewrite L2 in G2. rewrite !length_app. cbn [length].
  destruct (is_quad ws b) eqn:I.
  - unfold is_quad in I. apply andb_prop in I as [I0 _].
    assert (M : Forall plain (if len b =? 5 then hexadecimal 65535 ++ [58] else []) /\
      le (length (if len b =? 5 then hexadecimal 65535 ++ [58] else [])) 5).
    { destruct (len b =? 5); [|split; [constructor|cbn; lia]].
      split; [apply Forall_app; split; [apply plain_hex; unfold word_ok; lia|repeat constructor; discriminate]|].
      vm_compute. lia. }
    destruct M as [M1 M2]. rewrite length_app. split; [|lia].
    repeat first [assumption | apply Forall_app; split].
  - split; [|lia]. repeat first [assumption | apply Forall_app; split].
Qed.

Lemma plain_no_nul t : Forall plain t -> strlen (t ++ [0]) = Z.of_nat (length t).
Proof. intros H. apply strlen_no_nul. eapply Forall_impl; [|exact H]. now intros c [Hc _]. Qed.

Lemma plain_no_percent t r : Forall plain t -> strchr (t ++ 0 :: r) 37 = None.
Proof.
  induction 1 as [|c t [H0 H37] _ IH]; [reflexivity|]. cbn [app strchr].
  destruct (Z.eqb_spec c 37); [contradiction|]. destruct (Z.eqb_spec c 0); [contradiction|]. now rewrite IH.
Qed.

(** What [inet_ntop6] prints *)
Definition address6 (src : list Z) : list Z :=
  text6 (dotted_quad (skipn 12 src)) (words_of src) (best_run (words_of src)).

Lemma address6_plain src : bytes16 src -> Forall plain (address6 src) /\ (length (address6 src) <= 45)%nat.
Proof.
  intros Hs. destruct (words_of_spec src Hs) as (L & W & _). apply plain_text6; try assumption; [|now apply best_run_cases].
  destruct Hs as [Ls Hb]. split; [rewrite length_skipn; lia|now apply Forall_cut].
Qed.

Lemma inet_ntop6_spec tmp src dst size :
  bytes16 src -> length tmp = 46%nat -> 0 < size <= Z.of_nat (length dst) -> size <= SSIZE_MAX ->
  inet_ntop6 tmp src dst size =
    if Z.of_nat (length (address6 src)) <? size
    then (0, address6 src ++ [0] ++ skipn (S (length (address6 src))) dst)
    else (UV_ENOSPC, firstn (Z.to_nat (size - 1)) (address6 src) ++ [0] ++ skipn (Z.to_nat size) dst).
Proof.
  intros Hs Lt Hz Hm. destruct (address6_plain src Hs) as [Pl Ll]. destruct (words_of_spec src Hs) as (L & W & _).
  assert (Ha : bytes4 (skipn 12 src)).
  { destruct Hs as [Ls Hb]. split; [rewrite length_skipn; lia|now apply Forall_cut]. }
  assert (Hb : base (best_run (words_of src)) = -1 \/ In (best_run (words_of src)) runs).
  { destruct (best_run_cases _ L) as [|(P0 & P1 & P2 & _)]; [now left|right; now apply in_runs]. }
  destruct (format_words_text src tmp _ _ Ha Lt L Hb) as (out & F & E). unfold inet_ntop6.
  rewrite F, (E : _ = address6 src). clear E. set (t := address6 src) in *. rewrite strscpy_copies by (lia || (apply in_or_app; right; now left)).
  rewrite plain_no_nul by assumption. destruct (Z.eqb_spec size 0); [lia|].
  destruct (Z.ltb_spec (Z.of_nat (length t)) size).
  - destruct (Z.eqb_spec (Z.of_nat (length t)) UV_E2BIG); [unfold UV_E2BIG in *; lia|].
    replace (Z.to_nat (Z.of_nat (length t) + 1)) with (S (length t)) by lia. now rewrite Nat2Z.id, firstn_app_length.
  - cbn [Z.eqb UV_E2BIG Pos.eqb]. rewrite firstn_app. replace (Z.to_nat (size - 1) - length t)%nat with 0%nat by lia.
    now rewrite firstn_O, app_nil_r.
Qed.

(** C39: IPv6 addresses survive printing and parsing: for every address and
    every buffer of at least one byte, [uv_inet_ntop] either answers
    [UV_ENOSPC], which it never does with 46 bytes or more, or writes a string
    that [uv_inet_pton] reads back as the same 16 bytes; nothing is written
    beyond [size]. *)
Theorem inet6_roundtrip (tmp src dst : list Z) (size : Z)
  (Hs : bytes16 src) (Lt : length tmp = 46%nat) (Hz : 0 < size <= Z.of_nat (length dst)) (Hm : size <= SSIZE_MAX) :
  let (r, dst') := uv_inet_ntop tmp AF_INET6 src dst size in
  (r = 0 \/ r = UV_ENOSPC) /\ (46 <= size -> r = 0) /\
  length dst' = length dst /\ skipn (Z.to_nat size) dst' = skipn (Z.to_nat size) dst /\
  (r = 0 -> uv_inet_pton AF_INET6 (Some dst') (Some (repeat 0 16)) = (0, Some src)).
Proof.
  change (uv_inet_ntop tmp AF_INET6 src dst size) with (inet_ntop6 tmp src dst size).
  rewrite inet_ntop6_spec by assumption. destruct (address6_plain src Hs) as [Pl Ll].
  destruct (Z.ltb_spec (Z.of_nat (length (address6 src))) size) as [H|H].
  - split; [auto|]. split; [auto|]. split; [rewrite !length_app, length_skipn; cbn [length]; lia|].
    split. { rewrite !skipn_app, skipn_all2, (skipn_all2 (n := _) [0]), skipn_skipn by (cbn [length]; lia). cbn [app length]. f_equal. lia. }
    intros _. change (uv_inet_pton AF_INET6 (Some ?s) (Some ?d)) with
      (match strchr s 37 with
       | Some n => if UV__INET6_ADDRSTRLEN - 1 <? n then (UV_EINVAL, Some d)
                   else (fst (inet_pton6 (firstn (Z.to_nat n) s ++ [0]) d), Some (snd (inet_pton6 (firstn (Z.to_nat n) s ++ [0]) d)))
       | None => (fst (inet_pton6 s d), Some (snd (inet_pton6 s d)))
       end).
    cbn [app]. rewrite plain_no_percent by assumption. unfold address6. rewrite pton6_text6 by assumption.
    cbn [fst snd]. rewrite skipn_repeat. cbn [Nat.sub repeat]. now rewrite app_nil_r.
  - unfold UV_ENOSPC. split; [auto|]. split; [lia|].
    assert (Lf : length (firstn (Z.to_nat (size - 1)) (address6 src)) = Z.to_nat (size - 1)) by (rewrite length_firstn; lia).
    split; [rewrite !length_app, length_skipn, Lf; cbn [length]; lia|].
    split; [|discriminate]. rewrite !skipn_app, skipn_all2, (skipn_all2 (n := _) [0]), skipn_skipn, Lf by (cbn [length]; lia).
    cbn [app length]. f_equal. lia.
Qed.

Lemma inet6_roundtrip_witness :
  let a := [32; 1; 13; 184; 0; 0; 0; 0; 0; 0; 0; 0; 0; 0; 0; 1] in
  let (r, dst') := uv_inet_ntop (repeat 7 46) AF_INET6 a (repeat 9 46) 46 in
  r = 0 /\ firstn 12 dst' = [50; 48; 48; 49; 58; 100; 98; 56; 58; 58; 49; 0] /\
  uv_inet_pton AF_INET6 (Some dst') (Some (repeat 0 16)) = (0, Some a).
Proof.
  intros a. pose proof (inet6_roundtrip (repeat 7 46) a (repeat 9 46) 46
    ltac:(split; [reflexivity|repeat constructor; discriminate]) eq_refl ltac:(split; [reflexivity|discriminate]) ltac:(discriminate)) as H.
  destruct (uv_inet_ntop (repeat 7 46) AF_INET6 a (repeat 9 46) 46) as [r dst'] eqn:E.
  destruct H as (_ & H0 & _ & _ & H). assert (R : r = 0) by (apply H0; discriminate).
  split; [exact R|]. split; [|exact (H R)]. vm_compute in E. injection E as <- <-. reflexivity.
Defined.

(** With a buffer of no bytes [uv_inet_ntop] reports success for IPv6,
    although it has written nothing, not even a NUL, while for IPv4 it answers
    [UV_ENOSPC]. *)
Theorem inet_ntop6_empty_buffer :
  uv_inet_ntop (repeat 0 46) AF_INET6 (repeat 0 16) [] 0 = (0, []) /\
  uv_inet_ntop (repeat 0 46) AF_INET (repeat 0 4) [] 0 = (UV_ENOSPC, []).
Proof. split; vm_compute; reflexivity. Qed.

(** ** IPv6: any input *)

(** The parser's block and offsets are in range. *)
Definition pton6_ok (s : pton6_state) : Prop :=
  bytes16 (tmp s) /\ 0 <= tp s <= 16 /\ (forall c, colonp s = Some c -> 0 <= c <= tp s).

Lemma set_nth_bytes n b l : byte_ok b -> bytes_ok l -> bytes_ok (set_nth n b l).
Proof.
  intros Hb. revert n. induction l as [|x l IH]; intros [|n] Hl; cbn [set_nth]; try assumption;
    inversion Hl; subst; constructor; auto.
Qed.

Lemma set_nth_bytes16 n b l : byte_ok b -> bytes16 l -> bytes16 (set_nth n b l).
Proof. intros Hb [L H]. split; [now rewrite length_set_nth|now apply set_nth_bytes]. Qed.

Lemma land_255_ok x : byte_ok (Z.land (u8 x) 255).
Proof.
  change 255 with (2 ^ 8 - 1). rewrite land_mask by lia. apply (Z.mod_pos_bound _ (2 ^ 8)). lia.
Qed.

Lemma put_word_ok s : pton6_ok s -> tp s + 2 <= 16 -> pton6_ok (put_word s).
Proof.
  intros (T & P & C) L. unfold pton6_ok, put_word. cbn [tmp tp colonp].
  split; [auto using set_nth_bytes16, land_255_ok|]. split; [lia|]. intros c E. specialize (C c E). lia.
Qed.

Lemma pton6_loop_ok src : forall s s', pton6_ok s -> pton6_loop src s = Some s' -> pton6_ok s'.
Proof.
  induction src as [|ch src IH]; intros s s' Hs E; cbn [pton6_loop] in E; [congruence|].
  destruct (ch =? 0); [congruence|]. destruct (xdigit ch) as [d|].
  { destruct (4 <? _); [discriminate|]. revert E. apply IH. exact Hs. }
  destruct (ch =? 58).
  - destruct (seen_xdigits s =? 0).
    + destruct (colonp s) eqn:Ec; [discriminate|]. revert E. apply IH. destruct Hs as (T & P & _).
      split; [exact T|]. split; [exact P|]. cbn [colonp tp]. intros c [= <-]. lia.
    + destruct (at_ src 0 =? 0); [discriminate|]. destruct (Z.ltb_spec 16 (tp s + 2)); [discriminate|].
      revert E. apply IH. apply (put_word_ok s Hs). assumption.
  - destruct (ch =? 46); [|discriminate]. cbn [andb] in E. destruct (Z.leb_spec (tp s + 4) 16) as [L|]; [|discriminate].
    unfold inet_pton4 in E. destruct (pton4_loop (curtok s) [] 0 0 false) as [a|] eqn:Ea; [|discriminate].
    apply pton4_loop_iff in Ea as [[La Ba] _]. cbn [Z.eqb] in E. apply some_inj in E. subst s'.
    destruct Hs as ((Lt & Bt) & P & C). rewrite <- La, firstn_all. unfold splice. cbn [firstn app Nat.add].
    rewrite skipn_skipn. unfold pton6_ok. cbn [tmp tp colonp].
    split; [split; [rewrite !length_app, length_firstn, length_skipn; lia|]|].
    + repeat (apply Forall_app; split); try assumption; now apply Forall_cut.
    + split; [lia|]. intros c Ec. specialize (C c Ec). lia.
Qed.

Lemma at_byte l i : bytes_ok l -> byte_ok (at_ l i).
Proof.
  intros H. unfold at_. destruct (Nat.lt_ge_cases (Z.to_nat i) (length l)) as [L|L].
  - rewrite Forall_forall in H. now apply H, nth_In.
  - rewrite nth_overflow by assumption. unfold word_ok. lia.
Qed.

Lemma shift_run_bytes16 k : forall c n t, bytes16 t -> bytes16 (shift_run k c n t).
Proof.
  induction k as [|k IH]; intros c n t H; [exact H|]. cbn [shift_run]. apply IH.
  apply set_nth_bytes16; [unfold word_ok; lia|]. apply set_nth_bytes16; [apply at_byte, H|exact H].
Qed.

Lemma pton6_finish_bytes16 s t : pton6_ok s -> pton6_finish s = Some t -> bytes16 t.
Proof.
  intros Hs. unfold pton6_finish. destruct (negb (seen_xdigits s =? 0)); cbn [andb].
  2: { destruct Hs as (H & _). destruct (colonp s), (tp s =? 16); cbn [negb]; try discriminate;
       intros E; apply some_inj in E; subst t; auto using shift_run_bytes16. }
  destruct (Z.ltb_spec 16 (tp s + 2)); [discriminate|].
  assert (T : bytes16 (tmp (put_word s))) by (apply (put_word_ok s Hs); assumption).
  destruct (colonp (put_word s)), (tp (put_word s) =? 16); cbn [negb]; try discriminate;
    intros E; apply some_inj in E; subst t; auto using shift_run_bytes16.
Qed.

(** [inet_pton6] is safe on any string: it either fails and leaves the
    destination alone or succeeds and writes sixteen bytes, leaving the rest
    of the destination as it was. *)
Theorem inet_pton6_all_or_nothing (src dst : list Z) :
  (exists a, bytes16 a /\ inet_pton6 src dst = (0, a ++ skipn 16 dst)) \/ inet_pton6 src dst = (UV_EINVAL, dst).
Proof.
  unfold inet_pton6. destruct (_ && _); [now right|]. set (src' := if at_ src 0 =? 58 then skipn 1 src else src).
  assert (S : pton6_ok (pton6_start src')).
  { split; [split; [reflexivity|repeat constructor; discriminate]|]. split; [cbn; lia|discriminate]. }
  destruct (pton6_loop src' (pton6_start src')) as [s|] eqn:E; [|now right].
  apply pton6_loop_ok in E; [|exact S]. destruct (pton6_finish s) as [t|] eqn:F; [|now right].
  apply pton6_finish_bytes16 in F; [|exact E]. left. exists t. split; [exact F|]. now rewrite splice_16 by apply F.
Qed.
