(* ===== verification/UvHeap.v ===== *)
(** * The binary heap of libuv ([heap-inl.h])

    The heap is a pointer structure: every node knows its children and its
    parent.  Here the memory is a finite map from addresses to nodes, a
    pointer is an [option] of an address (NULL is [None]), and the operations
    are in the option monad: [None] is a dereference of NULL or of something
    that is not a node, or a loop that ran out of its fuel.  The theorems show
    that neither happens and that the pointers implement a complete tree in
    the array order, in heap order, over exactly the inserted nodes. *)

From Stdlib Require Import ZArith Lia ZifyNat Bool.
From stdpp Require Import gmap list.
From S2P Require Import Prelude.

#[local] Open Scope Z_scope.

(** ** Definitions *)

Abbreviation loc := positive.

(** [struct heap_node] *)
Record node := mk_node { left : option loc; right : option loc; parent : option loc }.

#[global] Instance node_eq_dec : EqDecision node.
Proof. solve_decision. Defined.

Definition set_left (v : option loc) (n : node) : node := mk_node v (right n) (parent n).
Definition set_right (v : option loc) (n : node) : node := mk_node (left n) v (parent n).
Definition set_parent (v : option loc) (n : node) : node := mk_node (left n) (right n) v.

(** [struct heap] and the memory of the nodes *)
Record heap := mk_heap { min : option loc; nelts : Z; mem : gmap loc node }.

Definition with_mem (h : heap) (m : gmap loc node) : heap := mk_heap (min h) (nelts h) m.

(** [a->field = v], through a pointer that may be bad. *)
Definition store (f : node -> node) (a : loc) (m : gmap loc node) : option (gmap loc node) :=
  n ← m !! a; Some (<[a := f n]> m).

(** [if (p != NULL) p->field = v] *)
Definition store_opt (f : node -> node) (p : option loc) (m : gmap loc node) : option (gmap loc node) :=
  match p with
  | None => Some m
  | Some a => store f a m
  end.

Definition heap_init (h : heap) : heap := mk_heap None 0 (mem h).

Definition heap_min (h : heap) : option loc := min h.

(** Swap [p] with its child [c]; the statements in the order of the code. *)
Definition heap_node_swap (h : heap) (p c : loc) : option heap :=
  let m := mem h in
  np ← m !! p;
  nc ← m !! c;
  let m := <[p := nc]> m in
  let m := <[c := np]> m in
  m ← store (set_parent (Some c)) p m;
  nc ← m !! c;
  ms ←
    (if decide (left nc = Some c) then
       m ← store (set_left (Some p)) c m; Some (m, right nc)
     else
       m ← store (set_right (Some p)) c m; Some (m, left nc));
  let '(m, sibling) := ms in
  m ← store_opt (set_parent (Some c)) sibling m;
  np ← m !! p;
  m ← store_opt (set_parent (Some p)) (left np) m;
  m ← store_opt (set_parent (Some p)) (right np) m;
  nc ← m !! c;
  match parent nc with
  | None => Some (mk_heap (Some c) (nelts h) m)
  | Some q =>
      nq ← m !! q;
      m ← (if decide (left nq = Some p) then store (set_left (Some c)) q m
           else store (set_right (Some c)) q m);
      Some (with_mem h m)
  end.

(** A [struct heap_node**]: [&heap->min] or the address of a child field. *)
Inductive slot := Root | Left (a : loc) | Right (a : loc).

Definition read (h : heap) (s : slot) : option (option loc) :=
  match s with
  | Root => Some (min h)
  | Left a => left <$> mem h !! a
  | Right a => right <$> mem h !! a
  end.

Definition write (h : heap) (s : slot) (v : option loc) : option heap :=
  match s with
  | Root => Some (mk_heap v (nelts h) (mem h))
  | Left a => with_mem h <$> store (set_left v) a (mem h)
  | Right a => with_mem h <$> store (set_right v) a (mem h)
  end.

(** [for (k = 0, n = ...; n >= 2; k += 1, n /= 2) path = (path << 1) | (n & 1)];
    a 32-bit [n] is halved at most 31 times. *)
Fixpoint path_loop (fuel : nat) (n path k : Z) : Z * Z :=
  match fuel with
  | O => (path, k)
  | S fuel =>
      if 2 <=? n then path_loop fuel (n / 2) (Z.lor (u32 (Z.shiftl path 1)) (Z.land n 1)) (u32 (k + 1))
      else (path, k)
  end.

(** Follow [k] bits of the path; [(parent, child)] are the last two slots. *)
Fixpoint walk (h : heap) (k : nat) (path : Z) (par child : slot) : option (slot * slot) :=
  match k with
  | O => Some (par, child)
  | S k =>
      p ← read h child;
      a ← p;
      walk h k (Z.shiftr path 1) child (if negb (Z.land path 1 =? 0) then Right a else Left a)
  end.

(** Put [child] in the place of [x]. *)
Definition replace_node (h : heap) (x child : loc) : option heap :=
  nx ← mem h !! x;
  m ← store (fun _ => nx) child (mem h);
  m ← store_opt (set_parent (Some child)) (left nx) m;
  m ← store_opt (set_parent (Some child)) (right nx) m;
  match parent nx with
  | None => Some (mk_heap (Some child) (nelts h) m)
  | Some q =>
      nq ← m !! q;
      m ← (if decide (left nq = Some x) then store (set_left (Some child)) q m
           else store (set_right (Some child)) q m);
      Some (with_mem h m)
  end.

Section Compare.
Context (less_than : loc -> loc -> bool).

(** [while (x->parent != NULL && less_than(x, x->parent)) swap] *)
Fixpoint sift_up (fuel : nat) (h : heap) (x : loc) : option heap :=
  match fuel with
  | O => None
  | S fuel =>
      n ← mem h !! x;
      match parent n with
      | None => Some h
      | Some p =>
          if less_than x p then h ← heap_node_swap h p x; sift_up fuel h x else Some h
      end
  end.

Definition smaller (p : option loc) (smallest : loc) : loc :=
  match p with
  | Some a => if less_than a smallest then a else smallest
  | None => smallest
  end.

(** The loop that walks down from [child]. *)
Fixpoint sift_down (fuel : nat) (h : heap) (child : loc) : option heap :=
  match fuel with
  | O => None
  | S fuel =>
      n ← mem h !! child;
      let smallest := smaller (right n) (smaller (left n) child) in
      if decide (smallest = child) then Some h
      else h ← heap_node_swap h child smallest; sift_down fuel h child
  end.

Definition heap_insert (h : heap) (newnode : loc) : option heap :=
  let h := with_mem h (<[newnode := mk_node None None None]> (mem h)) in
  let '(path, k) := path_loop 32 (u32 (1 + nelts h)) 0 0 in
  slots ← walk h (Z.to_nat k) path Root Root;
  let '(par, child) := slots in
  p ← read h par;
  m ← store (set_parent p) newnode (mem h);
  h ← write (with_mem h m) child (Some newnode);
  let h := mk_heap (min h) (u32 (nelts h + 1)) (mem h) in
  sift_up (S (Z.to_nat (nelts h))) h newnode.

Definition heap_remove (h : heap) (x : loc) : option heap :=
  if nelts h =? 0 then Some h
  else
    let '(path, k) := path_loop 32 (nelts h) 0 0 in
    slots ← walk h (Z.to_nat k) path Root Root;
    let '(_, max) := slots in
    let h := mk_heap (min h) (u32 (nelts h - 1)) (mem h) in
    c ← read h max;
    h ← write h max None;
    child ← c;
    if decide (child = x) then
      Some (if decide (Some child = min h) then mk_heap None (nelts h) (mem h) else h)
    else
      h ← replace_node h x child;
      h ← sift_down (S (Z.to_nat (nelts h))) h child;
      sift_up (S (Z.to_nat (nelts h))) h child.

Definition heap_dequeue (h : heap) : option heap :=
  match min h with
  | Some x => heap_remove h x
  | None => if nelts h =? 0 then Some h else None
  end.
End Compare.

(** Five nodes in, the least first. *)
Definition heap_of (l : list loc) : option heap :=
  foldl (fun h x => h ← h; heap_insert Pos.ltb h x) (Some (mk_heap None 0 ∅)) l.

Example heap_of_min : (heap_min <$> heap_of [5; 3; 8; 1; 4]%positive) = Some (Some 1%positive).
Proof. reflexivity. Qed.

Example heap_remove_min :
  (h ← heap_of [5; 3; 8; 1; 4]%positive; h ← heap_remove Pos.ltb h 1%positive; heap_min h) = Some 3%positive.
Proof. reflexivity. Qed.

(** ** The array behind the pointers *)

(** The element at position [i], counted from 1; the children of position [i]
    are at [2 * i] and [2 * i + 1]. *)
Definition el (arr : list loc) (i : nat) : option loc :=
  match i with
  | O => None
  | S j => arr !! j
  end.

Record rep (h : heap) (arr : list loc) : Prop := {
  rep_nodup : NoDup arr;
  rep_min : min h = el arr 1;
  rep_nelts : nelts h = Z.of_nat (length arr);
  rep_node : forall i a, el arr i = Some a ->
    mem h !! a = Some (mk_node (el arr (2 * i)) (el arr (2 * i + 1)) (el arr (i / 2)))
}.

Lemma el_inj arr i j a : NoDup arr -> el arr i = Some a -> el arr j = Some a -> i = j.
Proof. destruct i, j; cbn; try discriminate. intros N Hi Hj. f_equal. by eapply NoDup_lookup. Qed.

Lemma el_some arr i : (1 <= i <= length arr)%nat -> is_Some (el arr i).
Proof. destruct i; [lia|]. cbn. intros H. apply lookup_lt_is_Some. lia. Qed.

Lemma el_none arr i : (length arr < i)%nat -> el arr i = None.
Proof. destruct i; [lia|]. cbn. intros H. apply lookup_ge_None. lia. Qed.

Lemma el_range arr i a : el arr i = Some a -> (1 <= i <= length arr)%nat.
Proof. destruct i; [discriminate|]. cbn. intros H%lookup_lt_Some. lia. Qed.

Lemma el_in arr i a : el arr i = Some a -> a ∈ arr.
Proof. destruct i; [discriminate|]. cbn. apply list_elem_of_lookup_2. Qed.

Lemma in_el arr a : a ∈ arr -> exists i, el arr i = Some a.
Proof. intros [i H]%list_elem_of_lookup_1. by exists (S i). Qed.

(** [alter] through a pointer that may be NULL *)
Definition alter_opt (f : node -> node) (o : option loc) (m : gmap loc node) : gmap loc node :=
  match o with
  | Some a => alter f a m
  | None => m
  end.

Lemma store_alter f a m : is_Some (m !! a) -> store f a m = Some (alter f a m).
Proof.
  intros [n E]. unfold store. rewrite E. cbn. f_equal. apply map_eq. intros b.
  destruct (decide (a = b)) as [->|]; [by rewrite lookup_insert_eq, lookup_alter_eq, E|].
  by rewrite lookup_insert_ne, lookup_alter_ne.
Qed.

Lemma store_opt_alter f o m : (forall a, o = Some a -> is_Some (m !! a)) -> store_opt f o m = Some (alter_opt f o m).
Proof. destruct o as [a|]; [|done]. intros H. apply store_alter. by apply H. Qed.

Lemma alter_opt_is_some f o m b : is_Some (m !! b) -> is_Some (alter_opt f o m !! b).
Proof.
  intros [n E]. destruct o as [a|]; cbn; [|by eauto]. rewrite lookup_alter. case_decide; subst; rewrite E; eauto.
Qed.

Lemma alter_opt_other f o m b : o <> Some b -> alter_opt f o m !! b = m !! b.
Proof. destruct o as [a|]; [|done]. intros N. cbn. rewrite lookup_alter_ne; congruence. Qed.

(** Reading position [j] after an [alter] at position [k] *)
Lemma alter_at arr f k j b m : NoDup arr -> el arr j = Some b ->
  alter_opt f (el arr k) m !! b = if decide (k = j) then f <$> m !! b else m !! b.
Proof.
  intros N E. case_decide as D; [subst k; rewrite E; apply lookup_alter_eq|].
  apply alter_opt_other. intros E'. by eapply D, el_inj.
Qed.

(** The array with position [i] and its parent exchanged *)
Definition swap_up (i : nat) (arr : list loc) : list loc :=
  match el arr i, el arr (i / 2) with
  | Some c, Some p => <[i / 2 - 1 := c]> (<[i - 1 := p]> arr)
  | _, _ => arr
  end%nat.

Lemma length_swap_up i arr : length (swap_up i arr) = length arr.
Proof. unfold swap_up. destruct (el arr i), (el arr (i / 2)); rewrite ?length_insert; done. Qed.

Lemma el_insert arr i x j : (1 <= i <= length arr)%nat ->
  el (<[(i - 1)%nat := x]> arr) j = if decide (j = i) then Some x else el arr j.
Proof.
  intros L. destruct j; cbn; [case_decide; [lia|done]|]. case_decide; [subst; cbn|].
  - rewrite Nat.sub_0_r. apply list_lookup_insert_eq. lia.
  - apply list_lookup_insert_ne. lia.
Qed.

Lemma el_swap_up i arr c p j : el arr i = Some c -> el arr (i / 2) = Some p ->
  el (swap_up i arr) j = if decide (j = i / 2)%nat then Some c else if decide (j = i) then Some p else el arr j.
Proof.
  intros Ec Ep. unfold swap_up. rewrite Ec, Ep. apply el_range in Ec, Ep.
  rewrite el_insert by (rewrite length_insert; lia). case_decide; [done|]. by apply el_insert.
Qed.

Lemma swap_up_perm i arr : swap_up i arr ≡ₚ arr.
Proof.
  unfold swap_up. destruct (el arr i) as [c|] eqn:Ec; [|done]. destruct (el arr (i / 2)) as [p|] eqn:Ep; [|done].
  destruct i as [|i]; [done|]. destruct (S i / 2)%nat as [|q] eqn:Eq; [done|]. cbn [el] in *.
  replace (S q - 1)%nat with q by lia. replace (S i - 1)%nat with i by lia. by apply Permutation_insert_swap.
Qed.

(** Decide equalities of positions. *)
Ltac decide_pos :=
  repeat match goal with
  | |- context [decide (?x = ?y :> nat)] =>
      first [rewrite (decide_True (P := x = y)) by lia | rewrite (decide_False (P := x = y)) by lia]
  end.

(** Exchanging the node at position [i] and its parent [q = i / 2]: [below] is
    the memory before the link from above is set, [swapped] the final one. *)
Section Swap.
Context (arr : list loc) (i : nat) (p c : loc).
Let q := (i / 2)%nat.
Let is_left := (i =? 2 * q)%nat.
Let s := if is_left then (2 * q + 1)%nat else (2 * q)%nat.
Let np := mk_node (el arr (2 * q)) (el arr (2 * q + 1)) (el arr (q / 2)).
Let nc := mk_node (el arr (2 * i)) (el arr (2 * i + 1)) (Some p).

Definition below (m : gmap loc node) : gmap loc node :=
  let m := <[c := np]> (<[p := nc]> m) in
  let m := alter_opt (set_parent (Some c)) (el arr q) m in
  let m := alter_opt (if is_left then set_left (Some p) else set_right (Some p)) (el arr i) m in
  let m := alter_opt (set_parent (Some c)) (el arr s) m in
  let m := alter_opt (set_parent (Some p)) (el arr (2 * i)) m in
  alter_opt (set_parent (Some p)) (el arr (2 * i + 1)) m.

Definition swapped (m : gmap loc node) : gmap loc node :=
  alter_opt (if (q =? 2 * (q / 2))%nat then set_left (Some c) else set_right (Some c)) (el arr (q / 2)) (below m).

Context (m : gmap loc node).
Hypothesis N : NoDup arr.
Hypothesis Ec : el arr i = Some c.
Hypothesis Ep : el arr q = Some p.
Hypothesis Hm : forall k b, el arr k = Some b -> m !! b = Some (mk_node (el arr (2 * k)) (el arr (2 * k + 1)) (el arr (k / 2))).

Lemma swap_positions : (1 <= q)%nat /\ q = (i / 2)%nat /\ p <> c /\
  ((is_left = true /\ i = 2 * q /\ s = 2 * q + 1) \/ (is_left = false /\ i = 2 * q + 1 /\ s = 2 * q))%nat.
Proof.
  pose proof (el_range _ _ _ Ep). split; [lia|]. split; [done|]. split.
  - intros ->. pose proof (el_inj _ _ _ _ N Ec Ep). unfold q in *. lia.
  - unfold s, is_left. destruct (Nat.eqb_spec i (2 * q)); unfold q in *; [left|right]; repeat split; lia.
Qed.

(** Reading [below] at position [k] *)
Lemma below_at k b : el arr k = Some b ->
  below m !! b = Some (mk_node
    (if decide (k = q) then el arr (2 * i) else if decide (k = i) then (if is_left then Some p else el arr (2 * q)) else el arr (2 * k))
    (if decide (k = q) then el arr (2 * i + 1) else if decide (k = i) then (if is_left then el arr (2 * q + 1) else Some p) else el arr (2 * k + 1))
    (if decide (k = q) then Some c else if decide (k = i) then el arr (q / 2) else if decide (k = s) then Some c
     else if decide (k / 2 = i)%nat then Some p else el arr (k / 2))).
Proof.
  intros Ek. destruct swap_positions as (Hq & Eq & Npc & D). unfold below.
  rewrite !(alter_at arr _ _ k) by done. rewrite !lookup_insert.
  assert (I : forall j, el arr j = Some b -> k = j) by (intros j Hj; by eapply el_inj). rewrite (Hm k b Ek).
  assert (Bc : c = b <-> k = i) by (split; [intros ->; by apply I|intros ->; congruence]).
  assert (Bp : p = b <-> k = q) by (split; [intros ->; by apply I|intros ->; congruence]).
  rewrite (decide_ext _ _ _ _ Bc), (decide_ext _ _ _ _ Bp).
  assert (K : (k = q \/ k = i \/ k = s \/ (k = 2 * i \/ k = 2 * i + 1) \/ (k <> q /\ k <> i /\ k <> s /\ k / 2 <> i))%nat) by lia.
  clear Bc Bp I.
  destruct D as [(-> & Ei & Es)|(-> & Ei & Es)]; destruct K as [K|[K|[K|[[K|K]|K]]]];
    by decide_pos.
Qed.

Lemma below_other b : b ∉ arr -> below m !! b = m !! b.
Proof.
  intros Hb. assert (E : forall k, el arr k <> Some b) by (intros k Hk%el_in; done).
  unfold below. rewrite !alter_opt_other by done. rewrite !lookup_insert_ne; [done| |]; intros ->; by eapply Hb, el_in.
Qed.
End Swap.

Lemma rep_some h arr k b : rep h arr -> el arr k = Some b -> is_Some (mem h !! b).
Proof. intros R Hk. rewrite (rep_node _ _ R _ _ Hk). eauto. Qed.

(** The statements of [heap_node_swap] up to the last link compute [below]. *)
Lemma swap_runs h arr i p c :
  rep h arr -> el arr i = Some c -> el arr (i / 2) = Some p ->
  heap_node_swap h p c =
    Some (mk_heap (if decide (i / 2 = 1)%nat then Some c else min h) (nelts h) (swapped arr i p c (mem h))).
Proof.
  intros R Ec Ep. pose proof (rep_node _ _ R _ _ Ec) as Mc. pose proof (rep_node _ _ R _ _ Ep) as Mp.
  pose proof (rep_nodup _ _ R) as N. rewrite Ep in Mc.
  destruct (swap_positions arr i p c N Ec Ep) as (Hq & Eq & Npc & Par).
  pose proof (below_at arr i p c (mem h) N Ec Ep (rep_node _ _ R)) as B.
  unfold heap_node_swap, swapped. rewrite Mp, Mc. cbn [mbind option_bind]. revert B. unfold below.
  set (q := (i / 2)%nat) in *. intros B.
  match goal with |- context [<[c := ?np]> (<[p := ?nc]> (mem h))] =>
    set (np0 := np) in *; set (nc0 := nc) in *; set (m0 := <[c := np0]> (<[p := nc0]> (mem h))) in * end.
  assert (D : forall k b, el arr k = Some b -> is_Some (m0 !! b)).
  { intros k b Hk. unfold m0. rewrite !lookup_insert. repeat case_decide; eauto using rep_some. }
  assert (Mc0 : m0 !! c = Some np0) by apply lookup_insert_eq.
  assert (Mp0 : m0 !! p = Some nc0) by (unfold m0; by rewrite lookup_insert_ne, lookup_insert_eq).
  clearbody m0. rewrite store_alter by eauto. cbn [mbind option_bind].
  rewrite lookup_alter_ne, Mc0 by done. cbn [mbind option_bind].
  replace (alter (set_parent (Some c)) p m0) with (alter_opt (set_parent (Some c)) (el arr q) m0) by (by rewrite Ep).
  set (m1 := alter_opt (set_parent (Some c)) (el arr q) m0) in *.
  set (m2 := alter_opt _ (el arr i) m1) in *. set (s := if (i =? 2 * q)%nat then _ else _) in *.
  match goal with |- ?e ≫= _ = _ => assert (E2 : e = Some (m2, el arr s)) end.
  { unfold m2, s. rewrite Ec. change (left np0) with (el arr (2 * q)). change (right np0) with (el arr (2 * q + 1)).
    destruct (Nat.eqb_spec i (2 * q)) as [E|E].
    - rewrite <- E, Ec. rewrite decide_True by done. rewrite store_alter by (apply alter_opt_is_some; eauto). done.
    - assert (i = 2 * q + 1)%nat by lia. rewrite decide_False by (intros E'; by eapply E, el_inj).
      rewrite store_alter by (apply alter_opt_is_some; eauto). done. }
  rewrite E2. clear E2. cbn [mbind option_bind].
  assert (S2 : forall k b, el arr k = Some b -> is_Some (m2 !! b)) by (intros; repeat apply alter_opt_is_some; eauto).
  assert (M2 : m2 !! p = Some (set_parent (Some c) nc0)).
  { unfold m2, m1. rewrite !(alter_at arr _ _ q), Mp0 by done. rewrite decide_False by lia. by rewrite decide_True. }
  clearbody m2. clear m1. rewrite store_opt_alter by eauto. cbn [mbind option_bind].
  rewrite (alter_at arr _ _ q), decide_False, M2 by (done || unfold s; destruct (_ =? _)%nat eqn:E; lia).
  cbn [mbind option_bind]. change (left (set_parent (Some c) nc0)) with (el arr (2 * i)).
  change (right (set_parent (Some c) nc0)) with (el arr (2 * i + 1)).
  rewrite store_opt_alter by (intros; apply alter_opt_is_some; eauto). cbn [mbind option_bind].
  rewrite store_opt_alter by (intros; repeat apply alter_opt_is_some; eauto). cbn [mbind option_bind].
  match goal with |- ?m !! c ≫= _ = _ => set (m5 := m) in * end.
  rewrite (B i c Ec). cbn [mbind option_bind parent]. rewrite decide_False, decide_True by lia.
  destruct (decide (q = 1)%nat) as [->|Nq1]; [done|].
  destruct (el_some arr (q / 2)) as [g Eg]; [apply el_range in Ep; lia|]. rewrite Eg, (B _ g Eg).
  cbn [mbind option_bind left]. rewrite !(decide_False (P := (q / 2 = q)%nat)), !(decide_False (P := (q / 2 = i)%nat)) by lia.
  cbn [alter_opt]. assert (Sg : is_Some (m5 !! g)) by (rewrite (B _ g Eg); eauto).
  destruct (Nat.eqb_spec q (2 * (q / 2))) as [E|E].
  - rewrite <- E, decide_True, store_alter by done. done.
  - rewrite decide_False, store_alter; [done|done|]. intros E'. pose proof (el_inj _ _ _ _ N E' Ep). lia.
Qed.

(** A swap exchanges two positions of the array, and touches no other node. *)
Lemma swap_rep h arr i p c :
  rep h arr -> el arr i = Some c -> el arr (i / 2) = Some p ->
  exists h', heap_node_swap h p c = Some h' /\ rep h' (swap_up i arr) /\
    forall b, b ∉ arr -> mem h' !! b = mem h !! b.
Proof.
  intros R Ec Ep. eexists. split; [by apply swap_runs|]. pose proof (rep_nodup _ _ R) as N.
  destruct (swap_positions arr i p c N Ec Ep) as (Hq & Eq & Npc & Par).
  pose proof (below_at arr i p c (mem h) N Ec Ep (rep_node _ _ R)) as B.
  assert (ES : forall j, el (swap_up i arr) j = _) by (intros j; exact (el_swap_up i arr c p j Ec Ep)).
  split; [split|].
  - by rewrite swap_up_perm.
  - cbn [min]. rewrite ES, (rep_min _ _ R). case_decide; [by rewrite decide_True by lia|].
    by rewrite !decide_False by lia.
  - cbn [nelts]. by rewrite length_swap_up, (rep_nelts _ _ R).
  - intros j a Ej. cbn [mem]. rewrite ES in Ej.
    assert (K : exists k, el arr k = Some a /\ j = if decide (k = i) then (i / 2)%nat else if decide (k = i / 2)%nat then i else k).
    { repeat case_decide; simplify_eq; [exists i|exists (i / 2)%nat|exists j]; (split; [done|]);
        repeat case_decide; lia. }
    destruct K as (k & Ek & ->). clear Ej. unfold swapped.
    rewrite (alter_at arr _ _ k), (B k a Ek) by done. clear B.
    rewrite !ES. set (q := (i / 2)%nat) in *. clear ES Ek. clearbody q.
    set (s := if (i =? 2 * q)%nat then _ else _) in *. clearbody s.
    assert (K : (k = q \/ k = i \/ k = s \/ (k = 2 * i \/ k = 2 * i + 1) \/ k = q / 2 \/
      (k <> q /\ k <> i /\ k <> s /\ k / 2 <> i /\ k <> q / 2))%nat) by lia.
    assert (Q : (q = 2 * (q / 2) /\ (q =? 2 * (q / 2)) = true \/ q = 2 * (q / 2) + 1 /\ (q =? 2 * (q / 2)) = false)%nat)
      by (destruct (Nat.eqb_spec q (2 * (q / 2))); [left|right]; split; done || lia).
    destruct Par as [(-> & Ei & Es)|(-> & Ei & Es)]; destruct K as [K|[K|[K|[[K|K]|[K|K]]]]]; decide_pos; try done.
    all: destruct Q as [[Q ->]|[Q ->]]; decide_pos; done.
  - intros b Hb. cbn [mem]. unfold swapped. rewrite alter_opt_other; [by apply below_other|].
    intros E. by eapply Hb, el_in.
Qed.

(** ** Heap order *)

(** What the loops ask of a comparison: [~ b < a] is a total preorder. *)
Class LessOrder (less_than : loc -> loc -> bool) : Prop := {
  less_asym : forall a b, less_than a b = true -> less_than b a = false;
  less_trans : forall a b c, less_than b a = false -> less_than c b = false -> less_than c a = false
}.

Section Order.
Context (less_than : loc -> loc -> bool) `{!LessOrder less_than}.

(** No element is less than its parent: at position [i], everywhere. *)
Definition edge_ok (arr : list loc) (i : nat) : Prop :=
  forall a p, el arr i = Some a -> el arr (i / 2) = Some p -> less_than a p = false.

Definition ordered (arr : list loc) : Prop := forall i, edge_ok arr i.

(** The children of position [i] are not less than its parent. *)
Definition grand_ok (arr : list loc) (i : nat) : Prop :=
  forall j a g, (j / 2 = i)%nat -> el arr j = Some a -> el arr (i / 2) = Some g -> less_than a g = false.

(** Ordered but for position [i] and its parent; or, for [down_inv], its
    children too. *)
Definition up_inv (arr : list loc) (i : nat) : Prop :=
  (forall j, j <> i -> edge_ok arr j) /\ grand_ok arr i.

Definition down_inv (arr : list loc) (i : nat) : Prop :=
  (forall j, j <> i -> (j / 2 <> i)%nat -> edge_ok arr j) /\ grand_ok arr i.

Lemma up_inv_ordered arr i : up_inv arr i -> edge_ok arr i -> ordered arr.
Proof. intros [U _] E j. destruct (decide (j = i)) as [->|]; auto. Qed.

(** The shape of what one exchange of [x] at [i] with [p] leaves *)
Lemma el_cases arr i x p j :
  el arr i = Some x -> el arr (i / 2) = Some p ->
  (1 <= i / 2)%nat /\ el (swap_up i arr) (i / 2) = Some x /\ el (swap_up i arr) i = Some p /\
  (j <> i -> j <> (i / 2)%nat -> el (swap_up i arr) j = el arr j).
Proof.
  intros Ex Ep. pose proof (el_range _ _ _ Ep) as Rp. split; [lia|].
  rewrite !(el_swap_up i arr x p _ Ex Ep). decide_pos. repeat split; try done. intros. by decide_pos.
Qed.

Lemma up_inv_step arr i x p :
  up_inv arr i -> el arr i = Some x -> el arr (i / 2) = Some p -> less_than x p = true ->
  up_inv (swap_up i arr) (i / 2).
Proof.
  intros [U G] Ex Ep L. pose proof (less_asym _ _ L) as Lp.
  destruct (el_cases arr i x p 0 Ex Ep) as (Hq & Sx & Sp & _).
  assert (S : forall j, j <> i -> j <> (i / 2)%nat -> el (swap_up i arr) j = el arr j) by (intros j; apply (el_cases arr i x p j Ex Ep)).
  assert (Sib : forall j a, (j / 2 = i / 2)%nat -> j <> i -> el arr j = Some a -> less_than a p = false).
  { intros j a E N Ea. apply (U j N a p Ea). by rewrite E. }
  split.
  - intros j Nj a b Ea Eb. destruct (decide (j = i)) as [->|Ni]; [congruence|].
    rewrite S in Ea by done. destruct (decide (j / 2 = i / 2)%nat) as [E|E].
    + rewrite E, Sx in Eb. simplify_eq. eapply less_trans; [exact Lp|by eapply Sib].
    + destruct (decide (j / 2 = i)%nat) as [E'|E'].
      * rewrite E', Sp in Eb. simplify_eq. by eapply (G j).
      * rewrite S in Eb by done. by apply (U j Ni).
  - intros j a g E Ea Eg. rewrite S in Eg by lia. assert (Epg : less_than p g = false) by (apply (U (i / 2)%nat); [lia|done|done]).
    destruct (decide (j = i)) as [->|Ni]; [congruence|]. rewrite S in Ea by lia.
    eapply less_trans; [exact Epg|by eapply Sib].
Qed.

(** One step down, to the lesser child *)
Lemma down_inv_step arr i k x y :
  down_inv arr i -> el arr i = Some x -> (k / 2 = i)%nat -> el arr k = Some y -> less_than y x = true ->
  (forall j z, (j / 2 = i)%nat -> el arr j = Some z -> less_than z y = false) ->
  down_inv (swap_up k arr) k.
Proof.
  intros [D G] Ex Ek Ey L Least. subst i.
  destruct (el_cases arr k y x 0 Ey Ex) as (Hq & Sy & Sx & _).
  assert (S : forall j, j <> k -> j <> (k / 2)%nat -> el (swap_up k arr) j = el arr j) by (intros j; apply (el_cases arr k y x j Ey Ex)).
  split.
  - intros j Nj Nk a b Ea Eb. destruct (decide (j = k / 2)%nat) as [->|Ni].
    + rewrite Sy in Ea. simplify_eq. rewrite S in Eb by lia. by eapply (G k).
    + rewrite S in Ea by done. destruct (decide (j / 2 = k / 2)%nat) as [E|E].
      * rewrite E, Sy in Eb. simplify_eq. by eapply Least.
      * rewrite S in Eb by done. by apply (D j).
  - intros j a g E Ea Eg. rewrite Sy in Eg. simplify_eq. rewrite S in Ea by lia.
    apply (D j); [lia|lia|done|done].
Qed.

(** *** The loops *)

(** The outcome of a loop: the same nodes in another order, and nothing else
    in memory touched. *)
Definition arranged (h : heap) (arr : list loc) (h' : heap) (arr' : list loc) : Prop :=
  rep h' arr' /\ arr' ≡ₚ arr /\ forall b, b ∉ arr -> mem h' !! b = mem h !! b.

Lemma arranged_refl h arr : rep h arr -> arranged h arr h arr.
Proof. intros R. split; [done|]. by split. Qed.

Lemma arranged_trans h arr h1 arr1 h2 arr2 :
  arranged h arr h1 arr1 -> arranged h1 arr1 h2 arr2 -> arranged h arr h2 arr2.
Proof.
  intros (_ & P1 & F1) (R2 & P2 & F2). split; [done|]. split; [by rewrite P2|].
  intros b Hb. rewrite F2; [by apply F1|]. by rewrite P1.
Qed.

Lemma sift_up_spec fuel : forall h arr i x,
  rep h arr -> up_inv arr i -> el arr i = Some x -> (i < fuel)%nat ->
  exists h' arr', sift_up less_than fuel h x = Some h' /\ arranged h arr h' arr' /\ ordered arr'.
Proof.
  induction fuel as [|fuel IH]; intros h arr i x R U Ex L; [lia|]. cbn [sift_up].
  rewrite (rep_node _ _ R _ _ Ex). cbn [mbind option_bind parent].
  destruct (el arr (i / 2)) as [p|] eqn:Ep.
  - destruct (less_than x p) eqn:E.
    + destruct (swap_rep h arr i p x R Ex Ep) as (h1 & -> & R1 & F1). cbn [mbind option_bind].
      destruct (el_cases arr i x p 0 Ex Ep) as (Hq & Sx & _).
      destruct (IH h1 (swap_up i arr) (i / 2)%nat x R1 (up_inv_step _ _ _ _ U Ex Ep E) Sx ltac:(lia)) as (h' & arr' & -> & A & O).
      exists h', arr'. split; [done|]. split; [|done]. eapply arranged_trans; [|exact A].
      split; [done|]. split; [apply swap_up_perm|done].
    + exists h, arr. split; [done|]. split; [by apply arranged_refl|].
      apply (up_inv_ordered _ i U). intros a b Ea Eb. congruence.
  - exists h, arr. split; [done|]. split; [by apply arranged_refl|].
    apply (up_inv_ordered _ i U). intros a b Ea Eb. congruence.
Qed.

(** The child chosen by the loop down *)
Lemma smaller_spec arr i x :
  NoDup arr -> el arr i = Some x ->
  let y := smaller less_than (el arr (2 * i + 1)) (smaller less_than (el arr (2 * i)) x) in
  (y = x /\ (forall j z, (j / 2 = i)%nat -> el arr j = Some z -> less_than z x = false)) \/
  (y <> x /\ less_than y x = true /\ (exists k, (k / 2 = i)%nat /\ el arr k = Some y) /\
   forall j z, (j / 2 = i)%nat -> el arr j = Some z -> less_than z y = false).
Proof.
  intros N Ex y. pose proof (el_range _ _ _ Ex) as Rx.
  assert (J : forall j, (j / 2 = i)%nat -> j = (2 * i)%nat \/ j = (2 * i + 1)%nat) by (intros; lia).
  assert (I : forall j, j <> i -> el arr j <> Some x) by (intros j Nj E; by eapply Nj, el_inj).
  assert (refl : forall a, less_than a a = false).
  { intros a. destruct (less_than a a) eqn:E; [|done]. by rewrite (less_asym a a E) in E. }
  unfold y. clear y. destruct (el arr (2 * i)) as [l|] eqn:El; cbn [smaller].
  - assert (l <> x) by (intros ->; by eapply (I (2 * i)%nat); [lia|]).
    destruct (less_than l x) eqn:Lx; destruct (el arr (2 * i + 1)) as [r|] eqn:Er; cbn [smaller].
    + assert (r <> x) by (intros ->; by eapply (I (2 * i + 1)%nat); [lia|]).
      destruct (less_than r l) eqn:Lr; right.
      * split; [done|]. split; [|split; [exists (2 * i + 1)%nat; split; [lia|done]|]].
        { destruct (less_than r x) eqn:E; [done|]. 
          pose proof (less_trans x r l E (less_asym _ _ Lr)). congruence. }
        intros j z Hj Ez. destruct (J j Hj) as [->| ->]; simplify_eq; [by apply less_asym|done].
      * split; [done|]. split; [done|]. split; [exists (2 * i)%nat; split; [lia|done]|].
        intros j z Hj Ez. destruct (J j Hj) as [->| ->]; by simplify_eq.
    + right. split; [done|]. split; [done|]. split; [exists (2 * i)%nat; split; [lia|done]|].
      intros j z Hj Ez. destruct (J j Hj) as [->| ->]; by simplify_eq.
    + assert (r <> x) by (intros ->; by eapply (I (2 * i + 1)%nat); [lia|]).
      destruct (less_than r x) eqn:Rx'; [right|left].
      * split; [done|]. split; [done|]. split; [exists (2 * i + 1)%nat; split; [lia|done]|].
        intros j z Hj Ez. destruct (J j Hj) as [->| ->]; simplify_eq; [|done].
        eapply less_trans; [|exact Lx]. by apply less_asym.
      * split; [done|]. intros j z Hj Ez. destruct (J j Hj) as [->| ->]; by simplify_eq.
    + left. split; [done|]. intros j z Hj Ez. destruct (J j Hj) as [->| ->]; by simplify_eq.
  - left. rewrite (el_none arr (2 * i + 1)); [|].
    + split; [done|]. intros j z Hj Ez. destruct (J j Hj) as [->| ->]; [congruence|].
      rewrite el_none in Ez; [done|]. destruct (decide (2 * i <= length arr)%nat); [|lia].
      destruct (el_some arr (2 * i)) as [? ?]; [lia|congruence].
    + destruct (decide (2 * i <= length arr)%nat); [|lia]. destruct (el_some arr (2 * i)) as [? ?]; [lia|congruence].
Qed.

Lemma sift_down_spec fuel : forall h arr i x,
  rep h arr -> down_inv arr i -> el arr i = Some x -> (length arr - i < fuel)%nat ->
  exists h' arr' i', sift_down less_than fuel h x = Some h' /\ arranged h arr h' arr' /\
    up_inv arr' i' /\ el arr' i' = Some x.
Proof.
  induction fuel as [|fuel IH]; intros h arr i x R D Ex L; [lia|]. cbn [sift_down].
  rewrite (rep_node _ _ R _ _ Ex). cbn [mbind option_bind left right].
  destruct (smaller_spec arr i x (rep_nodup _ _ R) Ex) as [[E C]|(Ny & Ly & (k & Hk & Ey) & C)].
  - rewrite decide_True by done. exists h, arr, i. split; [done|]. split; [by apply arranged_refl|]. split; [|done].
    split; [|apply D]. intros j Nj. destruct (decide (j / 2 = i)%nat) as [E'|E']; [|by apply D].
    intros a p Ea Ep. rewrite E' in Ep. simplify_eq. by eapply C.
  - rewrite decide_False by done. set (y := smaller _ _ _) in *. clearbody y.
    assert (Ex' : el arr (k / 2) = Some x) by (by rewrite Hk).
    destruct (swap_rep h arr k x y R Ey Ex') as (h1 & -> & R1 & F1). cbn [mbind option_bind].
    destruct (el_cases arr k y x 0 Ey Ex') as (Hq & _ & Sx & _). pose proof (el_range _ _ _ Ey).
    destruct (IH h1 (swap_up k arr) k x R1 (down_inv_step arr i k x y D Ex Hk Ey Ly C) Sx) as (h' & arr' & i' & -> & A & U & E).
    { rewrite length_swap_up. lia. }
    exists h', arr', i'. split; [done|]. split; [|done]. eapply arranged_trans; [|exact A].
    split; [done|]. split; [apply swap_up_perm|done].
Qed.
End Order.

(** ** Finding a position from the root *)

Definition bit (path : Z) : nat := if negb (Z.land path 1 =? 0) then 1 else 0.

(** The position [k] steps below [p] *)
Fixpoint steps (k : nat) (path : Z) (p : nat) : nat :=
  match k with
  | O => p
  | S k => steps k (Z.shiftr path 1) (2 * p + bit path)
  end.

Lemma land_1 n : Z.land n 1 = n mod 2.
Proof. exact (land_mask n 1 ltac:(lia)). Qed.

Lemma bit_mod path : Z.of_nat (bit path) = path mod 2.
Proof.
  unfold bit. rewrite land_1.
  destruct (Z.eqb_spec (path mod 2) 0); cbn [negb]; lia.
Qed.

(** The bits collected by [path_loop] lead from the root to position [n]. *)
Lemma path_loop_spec fuel : forall n acc k,
  1 <= n < 2 ^ Z.of_nat fuel -> 0 <= k -> 0 <= acc < 2 ^ k -> n * 2 ^ k < 2 ^ 32 ->
  let '(path, k') := path_loop fuel n acc k in
  0 <= k' /\ steps (Z.to_nat k') path 1 = steps (Z.to_nat k) acc (Z.to_nat n).
Proof.
  induction fuel as [|fuel IH]; intros n acc k Hn Hk Ha L; [change (2 ^ Z.of_nat 0) with 1 in Hn; lia|].
  cbn [path_loop]. destruct (Z.leb_spec 2 n) as [H2|H2].
  - assert (P : 2 ^ (k + 1) = 2 * 2 ^ k) by (rewrite Z.pow_add_r by lia; lia).
    assert (K : k + 1 < 32) by (apply (Z.pow_lt_mono_r_iff 2); nia).
    rewrite land_1.
    assert (E : Z.lor (u32 (Z.shiftl acc 1)) (n mod 2) = 2 * acc + n mod 2).
    { rewrite wrap_small by (rewrite Z.shiftl_mul_pow2 by lia; unfold word_ok; nia).
      rewrite shiftl_lor_add by lia. lia. }
    rewrite E, (wrap_small 32 (k + 1)) by (unfold word_ok; lia).
    specialize (IH (n / 2) (2 * acc + n mod 2) (k + 1)).
    destruct (path_loop fuel (n / 2) (2 * acc + n mod 2) (k + 1)) as [path k'].
    destruct IH as [K' ->]; [|lia|nia|nia|].
    { rewrite Nat2Z.inj_succ, Z.pow_succ_r in Hn by lia. lia. }
    split; [done|]. replace (Z.to_nat (k + 1)) with (S (Z.to_nat k)) by lia. cbn [steps].
    rewrite Z.shiftr_div_pow2 by lia. change (2 ^ 1) with 2. f_equal; [lia|].
    pose proof (bit_mod (2 * acc + n mod 2)). lia.
  - split; [done|]. by replace (Z.to_nat n) with 1%nat by lia.
Qed.

Lemma path_of n : (1 <= n)%nat -> Z.of_nat n < 2 ^ 32 ->
  let '(path, k) := path_loop 32 (Z.of_nat n) 0 0 in steps (Z.to_nat k) path 1 = n.
Proof.
  intros H L. pose proof (path_loop_spec 32 (Z.of_nat n) 0 0) as P.
  destruct (path_loop 32 (Z.of_nat n) 0 0) as [path k]. destruct P as [_ ->]; try lia. apply Nat2Z.id.
Qed.

(** The slot that holds position [p] *)
Definition slot_for (arr : list loc) (p : nat) : slot :=
  match el arr (p / 2) with
  | Some a => if (p =? 2 * (p / 2))%nat then Left a else Right a
  | None => Root
  end.

Lemma read_slot h arr p : rep h arr -> (1 <= p)%nat -> (p / 2 <= length arr)%nat -> read h (slot_for arr p) = Some (el arr p).
Proof.
  intros R Hp L. unfold slot_for. destruct (el arr (p / 2)) as [a|] eqn:E.
  - pose proof (el_range _ _ _ E). destruct (Nat.eqb_spec p (2 * (p / 2))) as [Ev|Od]; cbn [read];
      rewrite (rep_node _ _ R _ _ E); cbn [fmap option_fmap option_map left right]; do 2 f_equal; lia.
  - assert (p = 1)%nat as ->.
    { destruct (decide (1 <= p / 2)%nat); [|lia]. destruct (el_some arr (p / 2)) as [? ?]; [lia|congruence]. }
    cbn [read]. by rewrite (rep_min _ _ R).
Qed.

Lemma steps_ge k : forall path p, (p <= steps k path p)%nat.
Proof. induction k as [|k IH]; intros path p; cbn [steps]; [done|]. specialize (IH (Z.shiftr path 1) (2 * p + bit path)%nat). lia. Qed.

Lemma walk_spec h arr : rep h arr -> forall k path p par,
  (1 <= p)%nat -> (steps k path p / 2 <= length arr)%nat ->
  par = (if decide (p = 1)%nat then Root else slot_for arr (p / 2)) ->
  let n := steps k path p in
  walk h k path par (slot_for arr p) = Some (if decide (n = 1)%nat then Root else slot_for arr (n / 2), slot_for arr n).
Proof.
  intros R. induction k as [|k IH]; intros path p par Hp L ->; [done|]. cbn [walk steps] in *.
  pose proof (steps_ge k (Z.shiftr path 1) (2 * p + bit path)) as G.
  rewrite (read_slot h arr p) by (done || lia). cbn [mbind option_bind].
  destruct (el_some arr p) as [a Ea]; [lia|]. rewrite Ea. cbn [mbind option_bind].
  assert (Hb : (bit path <= 1)%nat) by (unfold bit; destruct (negb _); lia).
  replace (if negb (Z.land path 1 =? 0) then Right a else Left a) with (slot_for arr (2 * p + bit path)).
  - apply IH; [lia|done|]. rewrite decide_False by lia. f_equal. lia.
  - unfold slot_for. replace ((2 * p + bit path) / 2)%nat with p by lia. rewrite Ea. unfold bit.
    destruct (negb _); destruct (Nat.eqb_spec (2 * p + 1) (2 * p)), (Nat.eqb_spec (2 * p + 0) (2 * p)); done || lia.
Qed.

(** The walk of [heap_insert] and [heap_remove] *)
Lemma walk_to h arr n : rep h arr -> (1 <= n)%nat -> (n / 2 <= length arr)%nat -> Z.of_nat n < 2 ^ 32 ->
  let '(path, k) := path_loop 32 (Z.of_nat n) 0 0 in
  walk h (Z.to_nat k) path Root Root = Some (if decide (n = 1)%nat then Root else slot_for arr (n / 2), slot_for arr n).
Proof.
  intros R Hn L B. pose proof (path_of n Hn B) as P. destruct (path_loop 32 (Z.of_nat n) 0 0) as [path k].
  pose proof (walk_spec h arr R (Z.to_nat k) path 1 Root) as W. rewrite P in W. by apply W.
Qed.

(** Writing through the slot of position [n] *)
Definition set_child (n : nat) (v : option loc) : node -> node :=
  if (n =? 2 * (n / 2))%nat then set_left v else set_right v.

Lemma write_slot h arr n v : (n / 2 <= length arr)%nat -> (1 <= n)%nat ->
  (forall k b, el arr k = Some b -> is_Some (mem h !! b)) ->
  write h (slot_for arr n) v =
    Some (mk_heap (if decide (n = 1)%nat then v else min h) (nelts h) (alter_opt (set_child n v) (el arr (n / 2)) (mem h))).
Proof.
  intros L Hn D. unfold slot_for, set_child. destruct (el arr (n / 2)) as [a|] eqn:E.
  - pose proof (el_range _ _ _ E). rewrite decide_False by lia.
    destruct (n =? 2 * (n / 2))%nat; cbn [write]; rewrite store_alter by eauto; done.
  - assert (n = 1)%nat as ->; [|done].
    destruct (decide (1 <= n / 2)%nat); [|lia]. destruct (el_some arr (n / 2)) as [? ?]; [lia|congruence].
Qed.

(** ** The operations *)

Lemma el_app arr x j :
  el (arr ++ [x]) j = if decide (j = S (length arr)) then Some x else el arr j.
Proof.
  destruct j as [|j]; cbn; [by rewrite decide_False by lia|]. case_decide as D.
  - simplify_eq. apply list_lookup_middle. done.
  - rewrite lookup_app. destruct (arr !! j) as [a|] eqn:E; [done|].
    apply lookup_ge_None in E. destruct (j - length arr)%nat eqn:E'; [lia|done].
Qed.

Lemma el_not_in arr x j : x ∉ arr -> el arr j <> Some x.
Proof. intros N H. by eapply N, el_in. Qed.

(** *** Insertion, up to the walk upwards *)
Lemma link_rep h arr x :
  rep h arr -> x ∉ arr -> Z.of_nat (length arr) + 1 < 2 ^ 32 ->
  let n := S (length arr) in
  let m := <[x := mk_node None None (el arr (n / 2))]> (mem h) in
  rep (mk_heap (if decide (n = 1)%nat then Some x else min h) (u32 (nelts h + 1))
         (alter_opt (set_child n (Some x)) (el arr (n / 2)) m)) (arr ++ [x]).
Proof.
  intros R Hx L n m. pose proof (rep_nodup _ _ R) as N. split; cbn [min nelts mem].
  - apply NoDup_app. split; [done|]. split; [|apply NoDup_singleton]. intros a Ha ->%list_elem_of_singleton. done.
  - rewrite el_app. fold n. rewrite (rep_min _ _ R). repeat case_decide; try lia; done.
  - rewrite (rep_nelts _ _ R), length_app, wrap_small by (unfold word_ok; lia). cbn. lia.
  - intros j a Ej. rewrite el_app in Ej. rewrite !el_app. fold n. fold n in Ej. case_decide as D.
    + simplify_eq. rewrite alter_opt_other by (by apply el_not_in). unfold m. rewrite lookup_insert_eq.
      decide_pos. rewrite (el_none arr (2 * n)), (el_none arr (2 * n + 1)) by lia. done.
    + pose proof (el_range _ _ _ Ej). rewrite (alter_at arr _ _ j) by done. unfold m.
      rewrite lookup_insert_ne by (intros ->; by eapply el_not_in).
      rewrite (rep_node _ _ R _ _ Ej). unfold set_child.
      assert (K : (n = 2 * j \/ n = 2 * j + 1 \/ (n <> 2 * j /\ n <> 2 * j + 1))%nat) by lia.
      destruct K as [K|[K|K]]; decide_pos; try done;
        destruct (Nat.eqb_spec n (2 * (n / 2))); done || lia.
Qed.

Section Operations.
Context (less_than : loc -> loc -> bool) `{!LessOrder less_than}.

Lemma heap_insert_rep h arr x :
  rep h arr -> ordered less_than arr -> x ∉ arr -> Z.of_nat (length arr) + 1 < 2 ^ 32 ->
  exists h' arr', heap_insert less_than h x = Some h' /\ rep h' arr' /\ ordered less_than arr' /\
    arr' ≡ₚ x :: arr /\ forall b, b ∉ x :: arr -> mem h' !! b = mem h !! b.
Proof.
  intros R O Hx L. unfold heap_insert. set (m0 := <[x := mk_node None None None]> (mem h)).
  assert (R0 : rep (with_mem h m0) arr).
  { destruct R as [R1 R2 R3 R4]. split; try done. intros i a Ea. cbn [mem with_mem]. unfold m0.
    rewrite lookup_insert_ne; [by apply R4|]. intros ->. by eapply el_not_in. }
  set (n := S (length arr)). cbn [nelts with_mem].
  replace (u32 (1 + nelts h)) with (Z.of_nat n)
    by (rewrite (rep_nelts _ _ R), wrap_small by (unfold word_ok; lia); unfold n; lia).
  pose proof (walk_to (with_mem h m0) arr n R0 ltac:(lia) ltac:(lia) ltac:(lia)) as W.
  destruct (path_loop 32 (Z.of_nat n) 0 0) as [path k]. rewrite W. clear W. cbn [mbind option_bind].
  assert (Rp : read (with_mem h m0) (if decide (n = 1)%nat then Root else slot_for arr (n / 2)) = Some (el arr (n / 2))).
  { case_decide as D.
    - cbn [read with_mem min]. rewrite (rep_min _ _ R), D. f_equal. rewrite el_none by lia. done.
    - apply read_slot; [done|lia|lia]. }
  rewrite Rp. cbn [mbind option_bind with_mem mem].
  rewrite store_alter by (unfold m0; rewrite lookup_insert_eq; eauto). cbn [mbind option_bind].
  assert (Ea : alter (set_parent (el arr (n / 2))) x m0 = <[x := mk_node None None (el arr (n / 2))]> (mem h)).
  { unfold m0. by rewrite alter_insert_eq. }
  assert (D1 : forall k b, el arr k = Some b -> is_Some (<[x := mk_node None None (el arr (n / 2))]> (mem h) !! b)).
  { intros i b Hb. rewrite lookup_insert. destruct (decide (x = b)); [by eexists|by eapply rep_some]. }
  rewrite Ea, write_slot by (lia || done).
  cbn [mbind option_bind min nelts mem with_mem].
  pose proof (link_rep h arr x R Hx ltac:(lia)) as R1. cbv zeta in R1. fold n in R1.
  match type of R1 with rep ?h1 _ => set (h1' := h1) in * end.
  assert (U : up_inv less_than (arr ++ [x]) n).
  { split.
    - intros j Nj a p Ej Ep. rewrite el_app in Ej, Ep. fold n in Ej, Ep. rewrite decide_False in Ej by done.
      pose proof (el_range _ _ _ Ej). rewrite decide_False in Ep by lia. by apply (O j).
    - intros j a g E Ej. apply el_range in Ej. rewrite length_app in Ej. cbn [length] in Ej. lia. }
  destruct (sift_up_spec less_than (S (Z.to_nat (nelts h1'))) h1' (arr ++ [x]) n x R1 U) as (h' & arr' & E & (R' & P & F) & O').
  - rewrite el_app. by rewrite decide_True.
  - rewrite (rep_nelts _ _ R1), length_app. cbn [length]. lia.
  - exists h', arr'. split; [exact E|]. split; [done|]. split; [done|].
    assert (P' : arr' ≡ₚ x :: arr) by (rewrite P; symmetry; apply Permutation_cons_append). split; [done|].
    intros b Hb. rewrite not_elem_of_cons in Hb. destruct Hb as [Nb Hb].
    rewrite F by (rewrite elem_of_app, list_elem_of_singleton; tauto).
    unfold h1'. cbn [mem]. rewrite alter_opt_other by (by apply el_not_in). by rewrite lookup_insert_ne.
Qed.

(** *** Removal *)

Lemma el_take arr j : (1 <= length arr)%nat ->
  el (take (length arr - 1) arr) j = if decide (j = length arr) then None else el arr j.
Proof.
  intros L. destruct j as [|j]; cbn; [by case_decide|]. case_decide.
  - apply lookup_ge_None. rewrite length_take. lia.
  - destruct (decide (j < length arr - 1)%nat); [by rewrite lookup_take_lt|].
    rewrite !(proj2 (lookup_ge_None _ _)); [done|lia|rewrite length_take; lia].
Qed.

(** Unlinking the last node *)
Lemma unlink_rep h arr : rep h arr -> (1 <= length arr)%nat -> Z.of_nat (length arr) < 2 ^ 32 ->
  let n := length arr in
  rep (mk_heap (if decide (n = 1)%nat then None else min h) (u32 (nelts h - 1))
         (alter_opt (set_child n None) (el arr (n / 2)) (mem h))) (take (n - 1) arr).
Proof.
  intros R Hn L n. pose proof (rep_nodup _ _ R) as N. split; cbn [min nelts mem].
  - eapply sublist_NoDup; [done|apply sublist_take].
  - unfold n. rewrite el_take by done. rewrite (rep_min _ _ R). repeat case_decide; try lia; done.
  - rewrite (rep_nelts _ _ R), wrap_small, length_take by (unfold word_ok; lia). lia.
  - intros j a Ej. subst n. rewrite el_take in Ej by done. rewrite !el_take by done. case_decide as D; [done|].
    pose proof (el_range _ _ _ Ej). rewrite (alter_at arr _ _ j), (rep_node _ _ R _ _ Ej) by done. unfold set_child.
    set (n := length arr) in *.
    assert (K : (n = 2 * j \/ n = 2 * j + 1 \/ (n <> 2 * j /\ n <> 2 * j + 1))%nat) by lia.
    destruct K as [K|[K|K]]; decide_pos; try done; destruct (Nat.eqb_spec n (2 * (n / 2))); done || lia.
Qed.

(** [child], not in the heap, takes the place of [x] at position [i]. *)
Lemma replace_rep h arr i x child :
  rep h arr -> el arr i = Some x -> child ∉ arr -> is_Some (mem h !! child) ->
  exists h', replace_node h x child = Some h' /\ rep h' (<[(i - 1)%nat := child]> arr) /\ nelts h' = nelts h /\
    forall b, b ∉ child :: arr -> mem h' !! b = mem h !! b.
Proof.
  intros R Ex Nc Dc. pose proof (rep_nodup _ _ R) as N. pose proof (el_range _ _ _ Ex) as Rx.
  set (m1 := alter (fun _ => mk_node (el arr (2 * i)) (el arr (2 * i + 1)) (el arr (i / 2))) child (mem h)).
  set (m3 := alter_opt (set_parent (Some child)) (el arr (2 * i + 1)) (alter_opt (set_parent (Some child)) (el arr (2 * i)) m1)).
  set (m4 := alter_opt (set_child i (Some child)) (el arr (i / 2)) m3).
  assert (D : forall k b, el arr k = Some b -> m1 !! b = Some (mk_node (el arr (2 * k)) (el arr (2 * k + 1)) (el arr (k / 2)))).
  { intros k b Hb. unfold m1. rewrite lookup_alter_ne by (intros ->; by eapply el_not_in). by apply (rep_node _ _ R). }
  assert (Dn : forall k b, el arr k = Some b -> is_Some (m1 !! b)) by (intros k b Hb; rewrite (D k b Hb); by eexists).
  exists (mk_heap (if decide (i = 1)%nat then Some child else min h) (nelts h) m4). split; [|split; [|split; [done|]]].
  - unfold replace_node. rewrite (rep_node _ _ R _ _ Ex). cbn [mbind option_bind left right parent].
    rewrite store_alter by done. cbn [mbind option_bind]. fold m1.
    rewrite store_opt_alter by eauto. cbn [mbind option_bind].
    rewrite store_opt_alter by (intros; apply alter_opt_is_some; eauto). cbn [mbind option_bind]. fold m3. unfold m4.
    destruct (el arr (i / 2)) as [q|] eqn:Eq.
    + pose proof (el_range _ _ _ Eq). rewrite decide_False by lia.
      assert (M3 : m3 !! q = Some (mk_node (el arr (2 * (i / 2))) (el arr (2 * (i / 2) + 1)) (el arr (i / 2 / 2)))).
      { unfold m3. rewrite !(alter_at arr _ _ (i / 2)), (D _ q Eq) by done. by decide_pos. }
      rewrite M3. cbn [mbind option_bind left]. unfold set_child. destruct (Nat.eqb_spec i (2 * (i / 2))) as [E|E].
      * rewrite decide_True by (by rewrite <- E). rewrite store_alter by (rewrite M3; by eexists). done.
      * rewrite decide_False by (intros E'; by eapply E, el_inj). rewrite store_alter by (rewrite M3; by eexists). done.
    + assert (i = 1)%nat as ->; [|by rewrite decide_True].
      destruct (decide (1 <= i / 2)%nat); [|lia]. destruct (el_some arr (i / 2)) as [? ?]; [lia|congruence].
  - assert (ES : forall j, el (<[(i - 1)%nat := child]> arr) j = if decide (j = i) then Some child else el arr j)
      by (intros j; by apply el_insert).
    assert (Dc4 : m4 !! child = Some (mk_node (el arr (2 * i)) (el arr (2 * i + 1)) (el arr (i / 2)))).
    { unfold m4, m3. rewrite !alter_opt_other by (by apply el_not_in). unfold m1. destruct Dc as [nd E].
      by rewrite lookup_alter_eq, E. }
    split; cbn [min nelts mem].
    + apply NoDup_alt. intros j1 j2 a H1 H2. assert (E1 := ES (S j1)). assert (E2 := ES (S j2)). cbn [el] in E1, E2.
      rewrite H1 in E1. rewrite H2 in E2. repeat case_decide; simplify_eq; try lia.
      3: { enough (S j1 = S j2) by lia. apply (el_inj arr _ _ a N); cbn; congruence. }
      all: exfalso; match goal with E : Some ?c = ?l !! ?j, Nc : ?c ∉ ?l |- _ => by apply (el_not_in l c (S j) Nc) end.
    + rewrite ES, (rep_min _ _ R). repeat case_decide; try lia; done.
    + by rewrite length_insert, (rep_nelts _ _ R).
    + intros j a Ej. rewrite ES in Ej. rewrite !ES. case_decide as Dj.
      * simplify_eq. rewrite Dc4. by decide_pos.
      * pose proof (el_range _ _ _ Ej). unfold m4, m3. rewrite !(alter_at arr _ _ j), (D j a Ej) by done. unfold set_child.
        assert (K : (j / 2 = i \/ j = i / 2 \/ (j / 2 <> i /\ j <> i / 2))%nat) by lia.
        assert (K2 : (j = 2 * i \/ j = 2 * i + 1 \/ j / 2 <> i)%nat) by lia.
        destruct K as [K|[K|K]]; destruct K2 as [K2|[K2|K2]]; try lia; decide_pos; try done;
          destruct (Nat.eqb_spec i (2 * (i / 2))); decide_pos; done || lia.
  - intros b [Nb Hb]%not_elem_of_cons. unfold m4, m3. cbn [mem].
    rewrite !alter_opt_other by (by apply el_not_in). unfold m1. by rewrite lookup_alter_ne.
Qed.

Lemma insert_perm (arr : list loc) k x y : arr !! k = Some x -> x :: <[k := y]> arr ≡ₚ y :: arr.
Proof.
  intros H. pose proof (lookup_lt_Some _ _ _ H). rewrite insert_take_drop by done.
  rewrite <- (take_drop_middle arr k x H) at 3. rewrite <- !Permutation_middle. apply Permutation_swap.
Qed.

(** The order once [last] stands for [x] *)
Lemma replaced_down_inv arr i x last :
  ordered less_than arr -> el arr i = Some x -> down_inv less_than (<[(i - 1)%nat := last]> arr) i.
Proof.
  intros O Ex. pose proof (el_range _ _ _ Ex) as Rx.
  assert (ES : forall j, el (<[(i - 1)%nat := last]> arr) j = if decide (j = i) then Some last else el arr j)
    by (intros j; by apply el_insert).
  split.
  - intros j N1 N2 a p Ea Ep. rewrite ES in Ea, Ep. rewrite decide_False in Ea by done.
    rewrite decide_False in Ep by done. by apply (O j).
  - intros j a g E Ea Eg. rewrite ES in Ea, Eg. rewrite decide_False in Ea by lia.
    rewrite decide_False in Eg by lia.
    eapply less_trans; [by apply (O i)|]. apply (O j); [done|]. by rewrite E.
Qed.

Lemma ordered_take arr : ordered less_than arr -> (1 <= length arr)%nat -> ordered less_than (take (length arr - 1) arr).
Proof.
  intros O L j a p Ea Ep. rewrite el_take in Ea, Ep by done. repeat case_decide; try done. by apply (O j).
Qed.

Lemma take_last arr last : el arr (length arr) = Some last -> arr = take (length arr - 1) arr ++ [last].
Proof.
  intros E. destruct (length arr) as [|k] eqn:L; [done|]. cbn [el] in E.
  rewrite <- (take_drop_middle arr k last E) at 1. rewrite drop_ge by lia. by replace (S k - 1)%nat with k by lia.
Qed.

Lemma heap_remove_rep h arr x :
  rep h arr -> ordered less_than arr -> x ∈ arr -> Z.of_nat (length arr) < 2 ^ 32 ->
  exists h' arr', heap_remove less_than h x = Some h' /\ rep h' arr' /\ ordered less_than arr' /\
    arr ≡ₚ x :: arr' /\ forall b, b ∉ arr -> mem h' !! b = mem h !! b.
Proof.
  intros R O Hx L. pose proof (rep_nodup _ _ R) as N. destruct (in_el arr x Hx) as [i Ei].
  pose proof (el_range _ _ _ Ei) as Ri. set (n := length arr) in *. unfold heap_remove.
  rewrite (rep_nelts _ _ R). fold n. destruct (Z.eqb_spec (Z.of_nat n) 0); [lia|].
  pose proof (walk_to h arr n R ltac:(lia) ltac:(unfold n; lia) ltac:(lia)) as W.
  destruct (path_loop 32 (Z.of_nat n) 0 0) as [path k]. rewrite W. clear W. cbn [mbind option_bind].
  set (h1 := mk_heap (min h) (u32 (Z.of_nat n - 1)) (mem h)).
  assert (Rd : read h1 (slot_for arr n) = Some (el arr n)).
  { assert (Er : read h1 (slot_for arr n) = read h (slot_for arr n)) by (by destruct (slot_for arr n)).
    rewrite Er. apply read_slot; [done|lia|unfold n; lia]. }
  rewrite Rd. cbn [mbind option_bind].
  rewrite write_slot by (try (unfold n; lia); unfold h1; cbn [mem]; eauto using rep_some).
  cbn [mbind option_bind nelts mem]. 
  pose proof (unlink_rep h arr R ltac:(lia) L) as R2. cbv zeta in R2. fold n in R2. rewrite (rep_nelts _ _ R) in R2.
  cbn [min nelts mem] in R2 |- *. unfold h1. cbn [min nelts mem].
  fold n in R2. match type of R2 with rep ?h2 _ => set (h2' := h2) in *; change (rep h2' (take (n - 1) arr)) in R2 end.
  destruct (el_some arr n) as [last El]; [lia|]. rewrite El. cbn [mbind option_bind].
  pose proof (take_last arr last El) as Et. fold n in Et. set (arr1 := take (n - 1) arr) in *.
  pose proof (ordered_take arr O ltac:(lia)) as O1. fold n in O1. fold arr1 in O1.
  assert (P1 : arr ≡ₚ last :: arr1) by (rewrite Et; symmetry; apply Permutation_cons_append).
  assert (Nl : last ∉ arr1) by (rewrite P1 in N; by apply NoDup_cons in N as [? _]).
  assert (F2 : forall b, b ∉ arr -> mem h2' !! b = mem h !! b).
  { intros b Hb. apply alter_opt_other. by apply el_not_in. }
  destruct (decide (last = x)) as [->|Nx].
  - exists h2', arr1. rewrite decide_False; [done|]. case_decide as D1; [done|].
    rewrite (rep_min _ _ R). intros E. apply D1. symmetry. by eapply el_inj.
  - assert (Ei1 : el arr1 i = Some x).
    { unfold arr1, n. rewrite el_take by lia. rewrite decide_False; [done|]. fold n. intros ->. congruence. }
    destruct (replace_rep h2' arr1 i x last R2 Ei1 Nl) as (h3 & -> & R3 & S3 & F3).
    { eapply alter_opt_is_some, rep_some; [exact R|exact El]. }
    cbn [mbind option_bind]. set (arr3 := <[(i - 1)%nat := last]> arr1) in *.
    assert (E3 : el arr3 i = Some last).
    { unfold arr3. rewrite el_insert by (by eapply el_range). by rewrite decide_True. }
    destruct (sift_down_spec less_than (S (Z.to_nat (nelts h3))) h3 arr3 i last R3) as (h4 & arr4 & i4 & -> & (R4 & P4 & F4) & U4 & E4);
      [by eapply replaced_down_inv|done|rewrite (rep_nelts _ _ R3); lia|]. cbn [mbind option_bind].
    pose proof (el_range _ _ _ E4).
    destruct (sift_up_spec less_than (S (Z.to_nat (nelts h4))) h4 arr4 i4 last R4 U4 E4) as (h5 & arr5 & -> & (R5 & P5 & F5) & O5);
      [rewrite (rep_nelts _ _ R4); lia|].
    assert (P3 : x :: arr3 ≡ₚ arr).
    { rewrite P1. apply insert_perm. destruct i as [|i]; [done|]. by replace (S i - 1)%nat with i by lia. }
    exists h5, arr5. split; [done|]. split; [done|]. split; [done|]. split; [by rewrite P5, P4|].
    intros b Hb. rewrite <- P3 in Hb. apply not_elem_of_cons in Hb as [Nb Hb].
    rewrite F5 by (by rewrite P4). rewrite F4 by done. rewrite F3, F2; [done| |].
    + rewrite <- P3. by apply not_elem_of_cons.
    + rewrite <- P1, <- P3. by apply not_elem_of_cons.
Qed.
End Operations.

(** ** The heap as a priority queue *)

(** What the heap promises its clients: a set of nodes with a least one.  The
    comparison may read state of the nodes, so that it is an argument; only
    its values on the members matter. *)
Class PriorityQueue (Q : Type) := {
  pq_is : (loc -> loc -> bool) -> Q -> gset loc -> Prop;
  pq_min : Q -> option loc;
  pq_insert : (loc -> loc -> bool) -> Q -> loc -> option Q;
  pq_remove : (loc -> loc -> bool) -> Q -> loc -> option Q;
  pq_is_ext : forall less less' q S,
    (forall a b, a ∈ S -> b ∈ S -> less a b = less' a b) -> pq_is less q S -> pq_is less' q S;
  pq_min_law : forall less `{!LessOrder less} q S, pq_is less q S ->
    match pq_min q with
    | None => S = ∅
    | Some a => a ∈ S /\ forall b, b ∈ S -> less b a = false
    end;
  pq_insert_law : forall less `{!LessOrder less} q S x, pq_is less q S -> x ∉ S ->
    Z.of_nat (size S) + 1 < 2 ^ 32 ->
    exists q', pq_insert less q x = Some q' /\ pq_is less q' ({[x]} ∪ S);
  pq_remove_law : forall less `{!LessOrder less} q S x, pq_is less q S -> x ∈ S ->
    Z.of_nat (size S) < 2 ^ 32 ->
    exists q', pq_remove less q x = Some q' /\ pq_is less q' (S ∖ {[x]})
}.

(** [h] is a heap of the nodes [S]. *)
Definition is_heap (less_than : loc -> loc -> bool) (h : heap) (S : gset loc) : Prop :=
  exists arr, rep h arr /\ ordered less_than arr /\ list_to_set arr = S.

Lemma size_rep h arr : rep h arr -> size (list_to_set arr : gset loc) = length arr.
Proof. intros R. apply size_list_to_set, (rep_nodup _ _ R). Qed.

Lemma is_heap_ext less less' h S :
  (forall a b, a ∈ S -> b ∈ S -> less a b = less' a b) -> is_heap less h S -> is_heap less' h S.
Proof.
  intros E (arr & R & O & <-). exists arr. split; [done|]. split; [|done]. intros i a p Ea Ep.
  rewrite <- E; [by apply (O i)| |]; apply elem_of_list_to_set; by eapply el_in.
Qed.

Lemma ordered_root less_than `{!LessOrder less_than} arr r :
  ordered less_than arr -> el arr 1 = Some r -> forall i a, el arr i = Some a -> less_than a r = false.
Proof.
  intros O Er. induction i as [i IH] using lt_wf_ind. intros a Ea. pose proof (el_range _ _ _ Ea).
  destruct (decide (i = 1)%nat) as [->|N1].
  - simplify_eq. destruct (less_than r r) eqn:E; [|done]. by rewrite (less_asym r r E) in E.
  - destruct (el_some arr (i / 2)) as [p Ep]; [lia|]. eapply less_trans; [by apply (IH (i / 2)%nat); [lia|]|by apply (O i)].
Qed.

Lemma is_heap_min less_than `{!LessOrder less_than} h S : is_heap less_than h S ->
  match heap_min h with
  | None => S = ∅
  | Some a => a ∈ S /\ forall b, b ∈ S -> less_than b a = false
  end.
Proof.
  intros (arr & R & O & <-). unfold heap_min. rewrite (rep_min _ _ R). destruct (el arr 1) as [r|] eqn:E.
  - split; [apply elem_of_list_to_set; by eapply el_in|]. intros b [i Hi]%elem_of_list_to_set%in_el. by eapply ordered_root.
  - destruct arr; [done|discriminate].
Qed.

Lemma is_heap_insert less_than `{!LessOrder less_than} h S x :
  is_heap less_than h S -> x ∉ S -> Z.of_nat (size S) + 1 < 2 ^ 32 ->
  exists h', heap_insert less_than h x = Some h' /\ is_heap less_than h' ({[x]} ∪ S) /\
    forall b, b ∉ S -> b <> x -> mem h' !! b = mem h !! b.
Proof.
  intros (arr & R & O & <-) Hx L. rewrite (size_rep h arr R) in L. rewrite elem_of_list_to_set in Hx.
  destruct (heap_insert_rep less_than h arr x R O Hx L) as (h' & arr' & E & R' & O' & P & F).
  exists h'. split; [done|]. split; [exists arr'; split; [done|]; split; [done|]; rewrite P; done|].
  intros b Hb Nb. rewrite elem_of_list_to_set in Hb. apply F. by apply not_elem_of_cons.
Qed.

Lemma is_heap_remove less_than `{!LessOrder less_than} h S x :
  is_heap less_than h S -> x ∈ S -> Z.of_nat (size S) < 2 ^ 32 ->
  exists h', heap_remove less_than h x = Some h' /\ is_heap less_than h' (S ∖ {[x]}) /\
    forall b, b ∉ S -> mem h' !! b = mem h !! b.
Proof.
  intros (arr & R & O & <-) Hx L. rewrite (size_rep h arr R) in L. rewrite elem_of_list_to_set in Hx.
  destruct (heap_remove_rep less_than h arr x R O Hx L) as (h' & arr' & E & R' & O' & P & F).
  exists h'. split; [done|]. split; [|intros b Hb; rewrite elem_of_list_to_set in Hb; by apply F].
  exists arr'. split; [done|]. split; [done|]. pose proof (rep_nodup _ _ R) as N. rewrite P in N |- *.
  apply NoDup_cons in N as [Nx _]. cbn. apply set_eq. intros b. rewrite elem_of_list_to_set. set_solver.
Qed.

#[export] Instance heap_queue : PriorityQueue heap.
Proof.
  refine (Build_PriorityQueue heap is_heap heap_min heap_insert heap_remove is_heap_ext is_heap_min _ _).
  - intros less LO q S x Q Hx L. destruct (is_heap_insert less q S x Q Hx L) as (q' & E & I & _). by exists q'.
  - intros less LO q S x Q Hx L. destruct (is_heap_remove less q S x Q Hx L) as (q' & E & I & _). by exists q'.
Defined.

(** *** Claims *)

(** [heap_insert] adds a node: on every heap of fewer than [2^32 - 1] nodes
    it runs without dereferencing a bad pointer and leaves a heap, complete,
    ordered and with consistent pointers, of the old nodes and the new one;
    the other nodes in memory keep their fields. *)
Theorem heap_insert_correct (less_than : loc -> loc -> bool) (LO : LessOrder less_than)
  (h : heap) (S : gset loc) (x : loc)
  (Hh : is_heap less_than h S) (Hx : x ∉ S) (L : Z.of_nat (size S) + 1 < 2 ^ 32) :
  exists h', heap_insert less_than h x = Some h' /\ is_heap less_than h' ({[x]} ∪ S) /\
    nelts h' = Z.of_nat (size S) + 1 /\ forall b, b ∉ S -> b <> x -> mem h' !! b = mem h !! b.
Proof.
  destruct (is_heap_insert less_than h S x Hh Hx L) as (h' & E & I & F). exists h'. split; [done|]. split; [done|].
  split; [|done]. destruct I as (arr & R & _ & Es). rewrite (rep_nelts _ _ R), <- (size_rep h' arr R), Es.
  rewrite size_union, size_singleton by set_solver. lia.
Qed.

(** C12: [heap_remove] takes any member out, the least or not: the result is a
    heap of the others, and nodes outside the heap keep their fields. *)
Theorem heap_remove_correct (less_than : loc -> loc -> bool) (LO : LessOrder less_than)
  (h : heap) (S : gset loc) (x : loc)
  (Hh : is_heap less_than h S) (Hx : x ∈ S) (L : Z.of_nat (size S) < 2 ^ 32) :
  exists h', heap_remove less_than h x = Some h' /\ is_heap less_than h' (S ∖ {[x]}) /\
    nelts h' = Z.of_nat (size S) - 1 /\ forall b, b ∉ S -> mem h' !! b = mem h !! b.
Proof.
  destruct (is_heap_remove less_than h S x Hh Hx L) as (h' & E & I & F). exists h'. split; [done|]. split; [done|].
  split; [|done]. destruct I as (arr & R & _ & Es). rewrite (rep_nelts _ _ R), <- (size_rep h' arr R), Es.
  rewrite size_difference, size_singleton by set_solver.
  assert (size S <> 0)%nat by (rewrite size_non_empty_iff; set_solver). lia.
Qed.

(** Take the least node until the heap is empty. *)
Fixpoint drain (less_than : loc -> loc -> bool) (fuel : nat) (h : heap) : option (list loc) :=
  match fuel with
  | O => None
  | S fuel =>
      match heap_min h with
      | None => Some []
      | Some x => h ← heap_dequeue less_than h; l ← drain less_than fuel h; Some (x :: l)
      end
  end.

Lemma drain_S less_than f h : drain less_than (S f) h =
  match heap_min h with
  | None => Some []
  | Some x => h ← heap_dequeue less_than h; l ← drain less_than f h; Some (x :: l)
  end.
Proof. done. Qed.

(** [heap_min] is the least node, always: taking it out with
    [heap_dequeue] until none is left gives every node of the heap once, in
    order. *)
Theorem heap_drain_sorted (less_than : loc -> loc -> bool) (LO : LessOrder less_than)
  (h : heap) (S : gset loc) (Hh : is_heap less_than h S) (L : Z.of_nat (size S) < 2 ^ 32) :
  exists l, drain less_than (1 + size S) h = Some l /\ NoDup l /\ list_to_set l = S /\
    forall i j a b, (i <= j)%nat -> l !! i = Some a -> l !! j = Some b -> less_than b a = false.
Proof.
  remember (size S) as n eqn:En. revert h S Hh L En. induction n as [|n IH]; intros h S Hh L En; cbn [Nat.add]; rewrite drain_S.
  - assert (S = ∅) as -> by (by apply leibniz_equiv, size_empty_inv).
    pose proof (is_heap_min less_than h ∅ Hh) as M. destruct (heap_min h) as [a|]; [set_solver|].
    exists []. repeat split; [constructor|done].
  - pose proof (is_heap_min less_than h S Hh) as M. destruct (heap_min h) as [x|] eqn:Ex.
    2: { subst S. by rewrite size_empty in En. }
    destruct M as [Hx Least]. unfold heap_dequeue. unfold heap_min in Ex. rewrite Ex. cbn [mbind option_bind].
    destruct (is_heap_remove less_than h S x Hh Hx ltac:(lia)) as (h' & -> & I & _). cbn [mbind option_bind].
    assert (En' : n = size (S ∖ {[x]})) by (rewrite size_difference, size_singleton by set_solver; lia).
    destruct (IH h' (S ∖ {[x]}) I ltac:(lia) En') as (l & El & N & Es & O). cbn [Nat.add] in El. rewrite El.
    cbn [mbind option_bind]. exists (x :: l).
    assert (Hl : forall b, b ∈ l <-> b ∈ S /\ b <> x) by (intros b; rewrite <- (elem_of_list_to_set (C := gset loc)), Es; set_solver).
    split; [done|]. split; [constructor; [rewrite Hl; tauto|done]|]. split.
    + cbn. rewrite Es. apply set_eq. intros b. destruct (decide (b = x)); set_solver.
    + intros [|i] [|j] a b Hij Ha Hb; cbn in Ha, Hb; try lia; simplify_eq.
      * by apply Least.
      * apply Least. apply list_elem_of_lookup_2, Hl in Hb. tauto.
      * by apply (O i j); [lia| |].
Qed.

(** *** The claims at work *)

#[export] Instance pos_ltb_order : LessOrder Pos.ltb.
Proof. split; intros *; rewrite ?Pos.ltb_lt, ?Pos.ltb_ge; lia. Qed.

Lemma is_heap_init less_than h : is_heap less_than (heap_init h) ∅.
Proof. exists []. split; [split; [constructor|done|done|by intros [|[|i]]]|]. by split; [intros [|[|i]]|]. Qed.

(** A heap of three nodes *)
Definition three : heap :=
  mk_heap (Some 3%positive) 3
    (<[3%positive := mk_node (Some 5%positive) (Some 8%positive) None]>
      (<[5%positive := mk_node None None (Some 3%positive)]>
        (<[8%positive := mk_node None None (Some 3%positive)]> ∅))).

Lemma three_nodes : is_heap Pos.ltb three {[3; 5; 8]}%positive.
Proof.
  exists [3; 5; 8]%positive. split; [|split].
  - split; [by apply NoDup_ListNoDup; repeat constructor; cbn; intuition congruence|done|done|].
    intros [|[|[|[|i]]]] a; cbn [el lookup list_lookup]; try discriminate; intros E; apply some_inj in E; subst a;
      unfold three; cbn [mem]; by rewrite ?lookup_insert_eq, ?lookup_insert_ne, ?lookup_insert_eq by done.
  - intros [|[|[|[|i]]]] a p; cbn [el lookup list_lookup]; try discriminate; intros E E2; apply some_inj in E; subst a;
      cbn in E2; try discriminate; apply some_inj in E2; by subst p.
  - cbn [list_to_set]. set_solver.
Qed.

Lemma heap_insert_correct_witness : exists h',
  heap_insert Pos.ltb three 4%positive = Some h' /\ is_heap Pos.ltb h' ({[4%positive]} ∪ {[3; 5; 8]}%positive) /\ nelts h' = 4.
Proof.
  destruct (heap_insert_correct Pos.ltb pos_ltb_order three {[3; 5; 8]}%positive 4%positive three_nodes ltac:(set_solver) ltac:(done))
    as (h' & E & I & Nn & _).
  exists h'. split; [exact E|]. split; [exact I|exact Nn].
Defined.

Lemma heap_remove_correct_witness : exists h',
  heap_remove Pos.ltb three 3%positive = Some h' /\ is_heap Pos.ltb h' ({[3; 5; 8]} ∖ {[3]})%positive /\ nelts h' = 2.
Proof.
  destruct (heap_remove_correct Pos.ltb pos_ltb_order three {[3; 5; 8]}%positive 3%positive three_nodes ltac:(set_solver) ltac:(done))
    as (h' & E & I & Nn & _).
  exists h'. split; [exact E|]. split; [exact I|exact Nn].
Defined.

Lemma heap_drain_sorted_witness :
  drain Pos.ltb 4 three = Some [3; 5; 8]%positive /\ NoDup [3; 5; 8]%positive.
Proof.
  destruct (heap_drain_sorted Pos.ltb pos_ltb_order three {[3; 5; 8]}%positive three_nodes ltac:(done)) as (l & E & N & _).
  assert (D : drain Pos.ltb 4 three = Some [3; 5; 8]%positive) by (vm_compute; reflexivity).
  change (1 + size _)%nat with 4%nat in E. rewrite D in E. apply some_inj in E. subst l. split; [exact D|exact N].
Defined.
