(* ===== verification/UvQueue.v ===== *)
(** * The queues of libuv ([queue.h])

    A queue is a ring of nodes that are embedded in the structs they link; the
    head is a node like the others.  The memory of nodes is a finite map from
    addresses to the two pointers, and an access to an address that is not a
    node is [None].  [rings m R] says what the memory means: each head of [R]
    has its list, the lists are disjoint, and following the pointers goes once
    around.  The macros then are the operations of lists, whichever of the
    queues a node is in. *)

From Stdlib Require Import ZArith Lia.
From stdpp Require Import gmap list.
From S2P Require Import Prelude UvHeap.

#[local] Open Scope nat_scope.

(** ** Definitions *)

(** [QUEUE]: the next and the previous node *)
Abbreviation qmem := (gmap loc (loc * loc)).

Definition QUEUE_NEXT (m : qmem) (q : loc) : option loc := fst <$> m !! q.

Definition QUEUE_PREV (m : qmem) (q : loc) : option loc := snd <$> m !! q.

Definition set_next (q v : loc) (m : qmem) : option qmem := p ← m !! q; Some (<[q := (v, snd p)]> m).

Definition set_prev (q v : loc) (m : qmem) : option qmem := p ← m !! q; Some (<[q := (fst p, v)]> m).

Definition QUEUE_EMPTY (m : qmem) (q : loc) : option bool := n ← QUEUE_NEXT m q; Some (bool_decide (q = n)).

Definition QUEUE_HEAD (m : qmem) (q : loc) : option loc := QUEUE_NEXT m q.

Definition QUEUE_INIT (q : loc) (m : qmem) : option qmem := m ← set_next q q m; set_prev q q m.

Definition QUEUE_ADD (h n : loc) (m : qmem) : option qmem :=
  hp ← QUEUE_PREV m h;
  nn ← QUEUE_NEXT m n;
  m ← set_next hp nn m;
  nn ← QUEUE_NEXT m n;
  hp ← QUEUE_PREV m h;
  m ← set_prev nn hp m;
  np ← QUEUE_PREV m n;
  m ← set_prev h np m;
  hp ← QUEUE_PREV m h;
  set_next hp h m.

Definition QUEUE_SPLIT (h q n : loc) (m : qmem) : option qmem :=
  hp ← QUEUE_PREV m h;
  m ← set_prev n hp m;
  np ← QUEUE_PREV m n;
  m ← set_next np n m;
  m ← set_next n q m;
  qp ← QUEUE_PREV m q;
  m ← set_prev h qp m;
  hp ← QUEUE_PREV m h;
  m ← set_next hp h m;
  set_prev q n m.

Definition QUEUE_MOVE (h n : loc) (m : qmem) : option qmem :=
  e ← QUEUE_EMPTY m h;
  if e : bool then QUEUE_INIT n m
  else
    q ← QUEUE_HEAD m h;
    QUEUE_SPLIT h q n m.

Definition QUEUE_INSERT_HEAD (h q : loc) (m : qmem) : option qmem :=
  hn ← QUEUE_NEXT m h;
  m ← set_next q hn m;
  m ← set_prev q h m;
  qn ← QUEUE_NEXT m q;
  m ← set_prev qn q m;
  set_next h q m.

Definition QUEUE_INSERT_TAIL (h q : loc) (m : qmem) : option qmem :=
  m ← set_next q h m;
  hp ← QUEUE_PREV m h;
  m ← set_prev q hp m;
  qp ← QUEUE_PREV m q;
  m ← set_next qp q m;
  set_prev h q m.

Definition QUEUE_REMOVE (q : loc) (m : qmem) : option qmem :=
  qp ← QUEUE_PREV m q;
  qn ← QUEUE_NEXT m q;
  m ← set_next qp qn m;
  qn ← QUEUE_NEXT m q;
  qp ← QUEUE_PREV m q;
  set_prev qn qp m.

(** [QUEUE_FOREACH]: the nodes it visits from [q] on *)
Fixpoint QUEUE_FOREACH (fuel : nat) (m : qmem) (h q : loc) : option (list loc) :=
  match fuel with
  | O => None
  | S fuel =>
      if bool_decide (q = h) then Some []
      else
        n ← QUEUE_NEXT m q;
        l ← QUEUE_FOREACH fuel m h n;
        Some (q :: l)
  end.

(** ** The meaning of a memory *)

(** [y] is behind [x]. *)
Definition link (m : qmem) (x y : loc) : Prop := QUEUE_NEXT m x = Some y /\ QUEUE_PREV m y = Some x.

(** From [x] through [l] to [y] *)
Fixpoint chain (m : qmem) (x : loc) (l : list loc) (y : loc) : Prop :=
  match l with
  | [] => link m x y
  | z :: l => link m x z /\ chain m z l y
  end.

(** The queues by their heads *)
Record rings (m : qmem) (R : gmap loc (list loc)) : Prop := {
  rings_chain : forall h xs, R !! h = Some xs -> chain m h xs h;
  rings_nodup : forall h xs, R !! h = Some xs -> NoDup (h :: xs);
  rings_disj : forall h xs h' xs' x, R !! h = Some xs -> R !! h' = Some xs' -> x ∈ h :: xs -> x ∈ h' :: xs' -> h = h'
}.

(** A node of none of the queues *)
Definition free (m : qmem) (R : gmap loc (list loc)) (q : loc) : Prop :=
  is_Some (m !! q) /\ forall h xs, R !! h = Some xs -> q ∉ h :: xs.

(** *** Reading and writing *)

Lemma next_set_next m m' q v x : set_next q v m = Some m' -> QUEUE_NEXT m' x = if decide (q = x) then Some v else QUEUE_NEXT m x.
Proof.
  unfold set_next, QUEUE_NEXT. destruct (m !! q) as [p|] eqn:E; cbn [mbind option_bind]; [|done]. intros [= <-].
  rewrite lookup_insert. by case_decide.
Qed.

Lemma prev_set_next m m' q v x : set_next q v m = Some m' -> QUEUE_PREV m' x = QUEUE_PREV m x.
Proof.
  unfold set_next, QUEUE_PREV. destruct (m !! q) as [p|] eqn:E; cbn [mbind option_bind]; [|done]. intros [= <-].
  rewrite lookup_insert. case_decide; [|done]. subst. by rewrite E.
Qed.

Lemma prev_set_prev m m' q v x : set_prev q v m = Some m' -> QUEUE_PREV m' x = if decide (q = x) then Some v else QUEUE_PREV m x.
Proof.
  unfold set_prev, QUEUE_PREV. destruct (m !! q) as [p|] eqn:E; cbn [mbind option_bind]; [|done]. intros [= <-].
  rewrite lookup_insert. by case_decide.
Qed.

Lemma next_set_prev m m' q v x : set_prev q v m = Some m' -> QUEUE_NEXT m' x = QUEUE_NEXT m x.
Proof.
  unfold set_prev, QUEUE_NEXT. destruct (m !! q) as [p|] eqn:E; cbn [mbind option_bind]; [|done]. intros [= <-].
  rewrite lookup_insert. case_decide; [|done]. subst. by rewrite E.
Qed.

(** *** Chains *)

Lemma chain_app m l1 : forall x y l2 z, chain m x (l1 ++ y :: l2) z <-> chain m x l1 y /\ chain m y l2 z.
Proof. induction l1 as [|a l1 IH]; intros x y l2 z; cbn [app chain]; [done|]. rewrite IH. tauto. Qed.

Lemma chain_frame m m' l : forall x y,
  (forall a, a ∈ x :: l -> QUEUE_NEXT m' a = QUEUE_NEXT m a) -> (forall a, a ∈ l ++ [y] -> QUEUE_PREV m' a = QUEUE_PREV m a) ->
  chain m x l y -> chain m' x l y.
Proof.
  induction l as [|z l IH]; intros x y N P; cbn [chain].
  - intros [L1 L2]. split; [rewrite N by set_solver; done|rewrite P by set_solver; done].
  - intros [[L1 L2] C]. split; [split; [rewrite N by set_solver; done|rewrite P by set_solver; done]|].
    apply IH; [|intros; apply P; set_solver|done]. intros. apply N. set_solver.
Qed.

(** The node before the end is on the chain. *)
Lemma chain_last m l : forall x y p, chain m x l y -> QUEUE_PREV m y = Some p -> p ∈ x :: l /\ QUEUE_NEXT m p = Some y.
Proof.
  induction l as [|z l IH]; intros x y p; cbn [chain].
  - intros [L1 L2] E. rewrite L2 in E. injection E as <-. split; [set_solver|done].
  - intros [_ C] E. destruct (IH _ _ _ C E). split; [set_solver|done].
Qed.

Lemma chain_prev m x l y : chain m x l y -> exists p, QUEUE_PREV m y = Some p.
Proof. revert x. induction l as [|z l IH]; intros x; cbn [chain]; [intros [_ ?]; by eexists|]. intros [_ C]. by eapply IH. Qed.

(** The last node [p] of a chain is linked to another end. *)
Lemma chain_relink m m' l : forall x y n p,
  NoDup (x :: l) -> chain m x l y -> QUEUE_PREV m y = Some p ->
  (forall a, a ∈ x :: l -> a <> p -> QUEUE_NEXT m' a = QUEUE_NEXT m a) -> (forall a, a ∈ l -> QUEUE_PREV m' a = QUEUE_PREV m a) ->
  QUEUE_NEXT m' p = Some n -> QUEUE_PREV m' n = Some p -> chain m' x l n.
Proof.
  induction l as [|z l IH]; intros x y n p Nd C E N P En Ep; cbn [chain] in *.
  - destruct C as [_ C]. rewrite C in E. injection E as ->. done.
  - destruct C as [[L1 L2] C]. destruct (chain_last _ _ _ _ _ C E) as [Hp _]. inversion Nd as [|? ? Nx Nd']; subst.
    assert (x <> p) by congruence. split; [split; [rewrite N by set_solver; done|rewrite P by set_solver; done]|].
    apply (IH z y n p); try done; intros; [apply N|apply P]; set_solver.
Qed.

Lemma chain_mem m l x y a : chain m x l y -> a ∈ x :: l -> is_Some (QUEUE_NEXT m a).
Proof.
  revert x. induction l as [|z l IH]; intros x; cbn [chain].
  - intros [L _] ->%list_elem_of_singleton. by eexists.
  - intros [[L _] C] [->|Ha]%elem_of_cons; [by eexists|]. by eapply IH.
Qed.

(** *** Queues that are not touched *)

(** A memory with the same pointers in all nodes of a queue still has it. *)
Lemma rings_change m m' R R' :
  rings m R ->
  (forall h xs, R' !! h = Some xs -> chain m' h xs h \/ R !! h = Some xs /\
     forall a, a ∈ h :: xs -> QUEUE_NEXT m' a = QUEUE_NEXT m a /\ QUEUE_PREV m' a = QUEUE_PREV m a) ->
  (forall h xs, R' !! h = Some xs -> NoDup (h :: xs)) ->
  (forall h xs h' xs' x, R' !! h = Some xs -> R' !! h' = Some xs' -> x ∈ h :: xs -> x ∈ h' :: xs' -> h = h') ->
  rings m' R'.
Proof.
  intros I C N D. split; [|done..]. intros h xs E. destruct (C h xs E) as [|[E0 F]]; [done|].
  apply (chain_frame m); [intros a Ha; by apply F|intros a Ha; apply F; set_solver|by apply (rings_chain _ _ I)].
Qed.

Lemma free_not_head m R q h xs : free m R q -> R !! h = Some xs -> q <> h /\ q ∉ xs.
Proof. intros [_ F] E. specialize (F h xs E). set_solver. Qed.

Lemma rings_lookup_next m R h xs : rings m R -> R !! h = Some xs -> QUEUE_NEXT m h = Some (hd h xs).
Proof. intros I E. pose proof (rings_chain _ _ I _ _ E) as C. destruct xs; cbn [chain hd] in *; apply C. Qed.

(** *** The operations *)

Lemma empty_spec m R h xs : rings m R -> R !! h = Some xs -> QUEUE_EMPTY m h = Some (bool_decide (xs = [])).
Proof.
  intros I E. unfold QUEUE_EMPTY. rewrite (rings_lookup_next _ _ _ _ I E). cbn [mbind option_bind]. f_equal.
  apply bool_decide_ext. pose proof (rings_nodup _ _ I _ _ E) as N. destruct xs as [|x xs]; cbn [hd]; [done|].
  split; [|done]. intros ->. inversion N. set_solver.
Qed.

Lemma head_spec m R h x xs : rings m R -> R !! h = Some (x :: xs) -> QUEUE_HEAD m h = Some x.
Proof. intros I E. exact (rings_lookup_next _ _ _ _ I E). Qed.

(** The pointers after a sequence of writes *)
Ltac reads :=
  repeat match goal with
  | W : set_next _ _ _ = Some ?m |- context [QUEUE_NEXT ?m _] => rewrite (next_set_next _ _ _ _ _ W)
  | W : set_prev _ _ _ = Some ?m |- context [QUEUE_NEXT ?m _] => rewrite (next_set_prev _ _ _ _ _ W)
  | W : set_next _ _ _ = Some ?m |- context [QUEUE_PREV ?m _] => rewrite (prev_set_next _ _ _ _ _ W)
  | W : set_prev _ _ _ = Some ?m |- context [QUEUE_PREV ?m _] => rewrite (prev_set_prev _ _ _ _ _ W)
  end.

Lemma set_next_some m q v : q ∈ dom m -> exists m', set_next q v m = Some m' /\ dom m' = dom m.
Proof.
  intros [p E]%elem_of_dom. unfold set_next. rewrite E. cbn [mbind option_bind]. eexists. split; [done|].
  apply elem_of_dom_2 in E. rewrite dom_insert_L. set_solver.
Qed.

Lemma set_prev_some m q v : q ∈ dom m -> exists m', set_prev q v m = Some m' /\ dom m' = dom m.
Proof.
  intros [p E]%elem_of_dom. unfold set_prev. rewrite E. cbn [mbind option_bind]. eexists. split; [done|].
  apply elem_of_dom_2 in E. rewrite dom_insert_L. set_solver.
Qed.

Lemma next_dom m q v : QUEUE_NEXT m q = Some v -> q ∈ dom m.
Proof. unfold QUEUE_NEXT. intros E. apply elem_of_dom. by destruct (m !! q). Qed.

Lemma prev_dom m q v : QUEUE_PREV m q = Some v -> q ∈ dom m.
Proof. unfold QUEUE_PREV. intros E. apply elem_of_dom. by destruct (m !! q). Qed.

Lemma dom_next m q : q ∈ dom m -> exists v, QUEUE_NEXT m q = Some v.
Proof. unfold QUEUE_NEXT. intros [p ->]%elem_of_dom. by eexists. Qed.

Lemma dom_prev m q : q ∈ dom m -> exists v, QUEUE_PREV m q = Some v.
Proof. unfold QUEUE_PREV. intros [p ->]%elem_of_dom. by eexists. Qed.

(** One write after the other *)
Ltac write :=
  match goal with
  | |- context [set_next ?q ?v ?m] =>
      let m' := fresh "m" in let E := fresh "W" in let D := fresh "D" in
      destruct (set_next_some m q v) as (m' & E & D); [|rewrite E; cbn [mbind option_bind]]
  | |- context [set_prev ?q ?v ?m] =>
      let m' := fresh "m" in let E := fresh "W" in let D := fresh "D" in
      destruct (set_prev_some m q v) as (m' & E & D); [|rewrite E; cbn [mbind option_bind]]
  end.

(** The nodes around a node of a queue *)
Lemma around m R h l1 q l2 : rings m R -> R !! h = Some (l1 ++ q :: l2) ->
  exists p, QUEUE_PREV m q = Some p /\ QUEUE_NEXT m q = Some (hd h l2) /\ p ∈ h :: l1 /\ chain m h l1 q /\ chain m q l2 h.
Proof.
  intros I E. pose proof (rings_chain _ _ I _ _ E) as C. apply chain_app in C as [C1 C2].
  destruct (chain_prev _ _ _ _ C1) as [p P]. exists p. split; [done|]. split; [destruct l2; cbn [chain hd] in *; apply C2|].
  split; [by eapply chain_last|done].
Qed.

(** One queue has a new list, of its nodes and free ones. *)
Lemma rings_set m m' R h xs ys :
  rings m R -> R !! h = Some xs -> chain m' h ys h -> NoDup (h :: ys) -> (forall a, a ∈ ys -> a ∈ xs \/ free m R a) ->
  (forall a, a ∉ h :: xs -> ~ free m R a -> QUEUE_NEXT m' a = QUEUE_NEXT m a /\ QUEUE_PREV m' a = QUEUE_PREV m a) ->
  rings m' (<[h := ys]> R).
Proof.
  intros I E C Nd Sub K.
  assert (Other : forall h' xs' a, h <> h' -> R !! h' = Some xs' -> a ∈ h' :: xs' -> a ∉ h :: xs /\ ~ free m R a).
  { intros h' xs' a N E' Ha. split; [intros Hb; apply N; by apply (rings_disj _ _ I h xs h' xs' a)|]. intros [_ F]. by apply (F h' xs'). }
  assert (New : forall h' xs' a, h <> h' -> R !! h' = Some xs' -> a ∈ h :: ys -> a ∈ h' :: xs' -> False).
  { intros h' xs' a N E' Ha Hb. destruct (Other h' xs' a N E' Hb) as [O1 O2]. apply elem_of_cons in Ha as [->|Ha]; [set_solver|].
    destruct (Sub a Ha); [set_solver|done]. }
  apply (rings_change m m' R); [done|..].
  - intros h' xs'. rewrite lookup_insert. case_decide as X; [intros [= <-]; subst; by left|]. intros E'. right. split; [done|].
    intros a Ha. by apply K; apply (Other h' xs').
  - intros h' xs'. rewrite lookup_insert. case_decide; [intros [= <-]; by subst|apply (rings_nodup _ _ I)].
  - intros h1 xs1 h2 xs2 x. rewrite !lookup_insert.
    destruct (decide (h = h1)) as [<-|N1], (decide (h = h2)) as [<-|N2]; intros E1 E2 H1 H2; [done|..].
    + injection E1 as <-. by destruct (New h2 xs2 x).
    + injection E2 as <-. by destruct (New h1 xs1 x).
    + by apply (rings_disj _ _ I h1 xs1 h2 xs2 x).
Qed.

Lemma nodup_middle (h q : loc) l1 l2 : NoDup (h :: l1 ++ q :: l2) ->
  q ∉ h :: l1 /\ q ∉ l2 /\ NoDup (h :: l1) /\ NoDup (h :: l1 ++ l2) /\ NoDup (h :: l2) /\ (forall a, a ∈ h :: l1 -> a ∉ l2).
Proof.
  intros Nd. rewrite !app_comm_cons in *. apply NoDup_app in Nd as (A1 & A2 & A3). apply NoDup_cons in A3 as (A3 & A4).
  assert (D : forall a, a ∈ h :: l1 -> a ∉ l2) by (intros a Ha Hb; apply (A2 a Ha); set_solver).
  split; [intros X; by apply (A2 q X), list_elem_of_here|]. split; [done|]. split; [done|]. split; [by apply NoDup_app|].
  split; [constructor; [apply D, list_elem_of_here|done]|done].
Qed.

Lemma rings_remove m R h l1 q l2 : rings m R -> R !! h = Some (l1 ++ q :: l2) ->
  exists m', QUEUE_REMOVE q m = Some m' /\ rings m' (<[h := l1 ++ l2]> R) /\ free m' (<[h := l1 ++ l2]> R) q /\ dom m' = dom m.
Proof.
  intros I E. destruct (around _ _ _ _ _ _ I E) as (p & Pq & Nq & Hp & C1 & C2).
  destruct (nodup_middle _ _ _ _ (rings_nodup _ _ I _ _ E)) as (Q1 & Q2 & Nd1 & Nd12 & Nd2 & Dj). set (n := hd h l2) in *.
  assert (Np : q <> p) by set_solver. assert (Hn : n ∈ h :: l2) by (subst n; destruct l2; cbn [hd]; set_solver).
  assert (Nn : q <> n) by set_solver.
  unfold QUEUE_REMOVE. rewrite Pq, Nq. cbn [mbind option_bind]. write; [apply (next_dom m p q); by eapply chain_last|].
  assert (Nq1 : QUEUE_NEXT m0 q = Some n) by (reads; by rewrite decide_False).
  assert (Pq1 : QUEUE_PREV m0 q = Some p) by (by reads). rewrite Nq1, Pq1. cbn [mbind option_bind]. write.
  { rewrite D. subst n. destruct l2 as [|z l2]; cbn [hd chain] in *; [apply (prev_dom m h q), C2|apply (prev_dom m z q), C2]. }
  assert (FN : forall a, QUEUE_NEXT m1 a = if decide (p = a) then Some n else QUEUE_NEXT m a) by (intros; by reads).
  assert (FP : forall a, QUEUE_PREV m1 a = if decide (n = a) then Some p else QUEUE_PREV m a) by (intros; by reads).
  exists m1. split; [done|]. assert (Hq : q ∈ dom m) by (by eapply next_dom). assert (Dm : dom m1 = dom m) by congruence.
  clear D W D0 W0 Nq1 Pq1 m0.
  split; [|split; [|done]].
  - apply (rings_set m m1 R h _ _ I E); [|done|set_solver|].
    + assert (Rl : forall y, QUEUE_NEXT m1 p = Some y -> QUEUE_PREV m1 y = Some p -> n = y -> chain m1 h l1 y).
      { intros y Ey Py <-. apply (chain_relink m m1 l1 h q n p); try done; intros a Ha; [intros Na; by rewrite FN, decide_False|].
        rewrite FP, decide_False; [done|]. intros <-. apply NoDup_cons in Nd1 as (B & _).
        destruct l2 as [|z l2']; cbn [hd] in n; subst n; [done|]. apply (Dj z); set_solver. }
      destruct l2 as [|z l2]; cbn [hd] in n; subst n.
      * rewrite app_nil_r. apply Rl; [by rewrite FN, decide_True|by rewrite FP, decide_True|done].
      * apply chain_app. destruct C2 as [_ C2]. split; [apply Rl; [by rewrite FN, decide_True|by rewrite FP, decide_True|done]|].
        apply (chain_frame m); [|..|done]; intros a Ha; [rewrite FN, decide_False; [done|]; intros <-; by apply (Dj p)|].
        rewrite FP, decide_False; [done|]. intros <-. apply NoDup_cons in Nd2 as (B1 & B2). apply NoDup_cons in B2 as (B2 & _). set_solver.
    + intros a Ha _. rewrite FN, FP, !decide_False; [done|set_solver..].
  - split; [apply elem_of_dom; by rewrite Dm|]. intros h' xs'. rewrite lookup_insert. case_decide as X; [intros [= <-]; set_solver|].
    intros E' H'. apply X. apply (rings_disj _ _ I h _ h' xs' q E E'); set_solver.
Qed.

Lemma free_apart m R q h xs : free m R q -> R !! h = Some xs -> q ∉ h :: xs /\ q ∈ dom m.
Proof. intros [D F] E. split; [by apply (F h xs)|by apply elem_of_dom]. Qed.

(** The last node of a queue, or its head *)
Lemma ring_prev m R h xs : rings m R -> R !! h = Some xs ->
  exists p, QUEUE_PREV m h = Some p /\ p ∈ h :: xs /\ p ∈ dom m /\ h ∈ dom m.
Proof.
  intros I E. pose proof (rings_chain _ _ I _ _ E) as C. destruct (chain_prev _ _ _ _ C) as [p P]. exists p.
  destruct (chain_last _ _ _ _ _ C P) as [Hp Np]. split; [done|]. split; [done|]. split; [by eapply next_dom|by eapply prev_dom].
Qed.

Lemma rings_insert_tail m R h xs q : rings m R -> R !! h = Some xs -> free m R q ->
  exists m', QUEUE_INSERT_TAIL h q m = Some m' /\ rings m' (<[h := xs ++ [q]]> R) /\ dom m' = dom m.
Proof.
  intros I E F. destruct (ring_prev _ _ _ _ I E) as (p & P & Hp & Dp & Dh). destruct (free_apart _ _ _ _ _ F E) as [Q Dq].
  pose proof (rings_nodup _ _ I _ _ E) as Nd. pose proof (rings_chain _ _ I _ _ E) as C.
  assert (N1 : q <> p) by set_solver. assert (N2 : q <> h) by set_solver.
  unfold QUEUE_INSERT_TAIL. write; [done|]. assert (P0 : QUEUE_PREV m0 h = Some p) by (by reads). rewrite P0. cbn [mbind option_bind].
  write; [congruence|]. assert (P1 : QUEUE_PREV m1 q = Some p) by (reads; by rewrite decide_True). rewrite P1. cbn [mbind option_bind].
  write; [congruence|]. write; [congruence|].
  assert (FN : forall a, QUEUE_NEXT m3 a = if decide (p = a) then Some q else if decide (q = a) then Some h else QUEUE_NEXT m a) by (intros; by reads).
  assert (FP : forall a, QUEUE_PREV m3 a = if decide (h = a) then Some q else if decide (q = a) then Some p else QUEUE_PREV m a) by (intros; by reads).
  exists m3. split; [done|]. split; [|congruence]. apply (rings_set m m3 R h xs _ I E).
  - apply chain_app. split; [|split; [rewrite FN, decide_False, decide_True by congruence; done|by rewrite FP, decide_True]].
    apply (chain_relink m m3 xs h h q p); try done.
    + intros a Ha Na. rewrite FN, !decide_False; [done|set_solver|congruence].
    + intros a Ha. apply NoDup_cons in Nd as (B & _). rewrite FP, !decide_False; [done|set_solver..].
    + by rewrite FN, decide_True.
    + rewrite FP, decide_False, decide_True by congruence. done.
  - rewrite app_comm_cons. apply NoDup_app. split; [done|]. split; [set_solver|apply NoDup_singleton].
  - intros a [?| ->%list_elem_of_singleton]%elem_of_app; [by left|by right].
  - intros a Ha Fa. assert (q <> a) by congruence. rewrite FN, FP, !decide_False; [done|set_solver..].
Qed.

Lemma rings_insert_head m R h xs q : rings m R -> R !! h = Some xs -> free m R q ->
  exists m', QUEUE_INSERT_HEAD h q m = Some m' /\ rings m' (<[h := q :: xs]> R) /\ dom m' = dom m.
Proof.
  intros I E F. destruct (free_apart _ _ _ _ _ F E) as [Q Dq]. pose proof (rings_lookup_next _ _ _ _ I E) as Nx.
  pose proof (rings_nodup _ _ I _ _ E) as Nd. pose proof (rings_chain _ _ I _ _ E) as C. set (n := hd h xs) in *.
  assert (Hn : n ∈ h :: xs) by (subst n; destruct xs; cbn [hd]; set_solver).
  assert (N1 : q <> n) by set_solver. assert (N2 : q <> h) by set_solver.
  unfold QUEUE_INSERT_HEAD. rewrite Nx. cbn [mbind option_bind]. write; [done|]. write; [congruence|].
  assert (X : QUEUE_NEXT m1 q = Some n) by (reads; by rewrite decide_True). rewrite X. cbn [mbind option_bind].
  write. { rewrite D0, D. subst n. destruct xs as [|z xs]; cbn [hd chain] in *; [apply (prev_dom m h h), C|apply (prev_dom m z h), C]. }
  write; [rewrite D1, D0, D; by eapply next_dom|].
  assert (FN : forall a, QUEUE_NEXT m3 a = if decide (h = a) then Some q else if decide (q = a) then Some n else QUEUE_NEXT m a) by (intros; by reads).
  assert (FP : forall a, QUEUE_PREV m3 a = if decide (n = a) then Some q else if decide (q = a) then Some h else QUEUE_PREV m a) by (intros; by reads).
  exists m3. split; [done|]. split; [|congruence]. apply (rings_set m m3 R h xs _ I E).
  - cbn [chain]. split; [split; [by rewrite FN, decide_True|rewrite FP, decide_False, decide_True by congruence; done]|].
    destruct xs as [|z xs]; cbn [hd chain] in *; subst n.
    + split; [rewrite FN, decide_False, decide_True by congruence; done|by rewrite FP, decide_True].
    + split; [split; [rewrite FN, decide_False, decide_True by congruence; done|by rewrite FP, decide_True]|].
      destruct C as [_ C]. apply NoDup_cons in Nd as (B1 & B2). apply NoDup_cons in B2 as (B2 & _).
      apply (chain_frame m); [..|done]; intros a Ha; [rewrite FN, !decide_False; [done|set_solver..]|].
      rewrite FP, !decide_False; [done| |]; intros <-; set_solver.
  - constructor; [|constructor; [by intros ?; apply Q; right|by apply NoDup_cons in Nd as (_ & ?)]].
    apply NoDup_cons in Nd as (? & _). set_solver.
  - intros a [->|?]%elem_of_cons; [by right|by left].
  - intros a Ha Fa. assert (q <> a) by congruence. rewrite FN, FP, !decide_False; [done|set_solver..].
Qed.

(** A free node becomes an empty queue. *)
Lemma rings_init m R q : rings m R -> free m R q ->
  exists m', QUEUE_INIT q m = Some m' /\ rings m' (<[q := []]> R) /\ dom m' = dom m.
Proof.
  intros I F. pose proof F as [Dq%elem_of_dom Fq]. unfold QUEUE_INIT. write; [done|]. write; [congruence|].
  assert (FN : forall a, QUEUE_NEXT m1 a = if decide (q = a) then Some q else QUEUE_NEXT m a) by (intros; by reads).
  assert (FP : forall a, QUEUE_PREV m1 a = if decide (q = a) then Some q else QUEUE_PREV m a) by (intros; by reads).
  exists m1. split; [done|]. split; [|congruence]. apply (rings_change m m1 R); [done|..].
  - intros h xs. rewrite lookup_insert. case_decide as X.
    + intros [= <-]. subst. left. split; [by rewrite FN, decide_True|by rewrite FP, decide_True].
    + intros E. right. split; [done|]. intros a Ha. assert (q <> a) by (intros <-; by apply (Fq h xs)). by rewrite FN, FP, !decide_False.
  - intros h xs. rewrite lookup_insert. case_decide; [intros [= <-]; apply NoDup_singleton|apply (rings_nodup _ _ I)].
  - intros h1 xs1 h2 xs2 x. rewrite !lookup_insert.
    destruct (decide (q = h1)) as [<-|N1], (decide (q = h2)) as [<-|N2]; intros E1 E2 H1 H2; [done|..].
    + injection E1 as <-. apply list_elem_of_singleton in H1 as ->. by destruct (Fq h2 xs2).
    + injection E2 as <-. apply list_elem_of_singleton in H2 as ->. by destruct (Fq h1 xs1).
    + by apply (rings_disj _ _ I h1 xs1 h2 xs2 x).
Qed.

(** All nodes of [h] go over to [n]. *)
Lemma rings_move m R h n xs : rings m R -> R !! h = Some xs -> free m R n ->
  exists m', QUEUE_MOVE h n m = Some m' /\ rings m' (<[n := xs]> (<[h := []]> R)) /\ dom m' = dom m.
Proof.
  intros I E F. unfold QUEUE_MOVE. rewrite (empty_spec _ _ _ _ I E). cbn [mbind option_bind].
  destruct xs as [|q xs].
  { rewrite bool_decide_true by done. destruct (rings_init _ _ _ I F) as (m' & Ei & Ri & Di). exists m'. split; [done|].
    by rewrite (insert_id R h []). }
  rewrite bool_decide_false, (head_spec _ _ _ _ _ I E) by done. cbn [mbind option_bind].
  destruct (ring_prev _ _ _ _ I E) as (p & P & Hp & Dp & Dh). destruct (free_apart _ _ _ _ _ F E) as [Q Dn].
  pose proof (rings_nodup _ _ I _ _ E) as Nd. pose proof (rings_chain _ _ I _ _ E) as [[L1 L2] C].
  apply NoDup_cons in Nd as [B1 Nd]. assert (Hp' : p ∈ q :: xs) by (by eapply chain_last).
  assert (N1 : n <> h) by set_solver. assert (N2 : n <> p) by set_solver. assert (N3 : n <> q) by set_solver. assert (N4 : h <> q) by set_solver.
  assert (N5 : h <> p) by set_solver.
  unfold QUEUE_SPLIT. rewrite P. cbn [mbind option_bind]. write; [done|].
  assert (X : QUEUE_PREV m0 n = Some p) by (reads; by rewrite decide_True). rewrite X. cbn [mbind option_bind].
  write; [congruence|]. write; [congruence|].
  assert (Y : QUEUE_PREV m2 q = Some h) by (reads; by rewrite decide_False). rewrite Y. cbn [mbind option_bind].
  write; [congruence|]. assert (Z : QUEUE_PREV m3 h = Some h) by (reads; by rewrite decide_True). rewrite Z. cbn [mbind option_bind].
  write; [congruence|]. write; [rewrite D3, D2, D1, D0, D; by eapply prev_dom|].
  assert (FN : forall a, QUEUE_NEXT m5 a = if decide (h = a) then Some h else if decide (n = a) then Some q else if decide (p = a) then Some n else QUEUE_NEXT m a) by (intros; by reads).
  assert (FP : forall a, QUEUE_PREV m5 a = if decide (q = a) then Some n else if decide (h = a) then Some h else if decide (n = a) then Some p else QUEUE_PREV m a) by (intros; by reads).
  exists m5. split; [done|]. split; [|congruence]. clear X Y Z W W0 W1 W2 W3 W4.
  apply (rings_change m m5 R); [done|..].
  - intros h' xs'. rewrite !lookup_insert. case_decide as X1; [|case_decide as X2]; [intros [= <-]; subst h'; left..|].
    + cbn [chain]. split; [split; [rewrite FN, decide_False, decide_True by congruence; done|by rewrite FP, decide_True]|].
      apply (chain_relink m m5 xs q h n p); try done.
      * intros a Ha Na. rewrite FN, !decide_False; [done|congruence|set_solver..].
      * apply NoDup_cons in Nd as [B2 _]. intros a Ha. rewrite FP, !decide_False; [done|set_solver..].
      * rewrite FN, !decide_False, decide_True by congruence. done.
      * rewrite FP, !decide_False, decide_True by congruence. done.
    + split; [by rewrite FN, decide_True|rewrite FP, decide_False, decide_True by congruence; done].
    + intros E'. right. split; [done|]. intros a Ha.
      assert (Na : forall b, b ∈ h :: q :: xs -> b <> a) by (intros b Hb ->; apply X2; by apply (rings_disj _ _ I h _ h' xs' a E E')).
      assert (n <> a) by (intros <-; destruct F as [_ F]; by apply (F h' xs')).
      rewrite FN, FP, !decide_False; first [done|apply Na; first [by left|by right; left|by right]].
  - intros h' xs'. rewrite !lookup_insert. case_decide as X1; [|case_decide as X2]; [intros [= <-]; subst h'..|apply (rings_nodup _ _ I)].
    + constructor; [set_solver|done].
    + apply NoDup_singleton.
  - assert (K : forall h' xs' x, <[n := q :: xs]> (<[h := []]> R) !! h' = Some xs' -> x ∈ h' :: xs' ->
      (h' = n /\ (x = n \/ x ∈ q :: xs)) \/ (h' = h /\ x = h) \/ (h' <> n /\ h' <> h /\ R !! h' = Some xs')).
    { intros h' xs' x. rewrite !lookup_insert. case_decide as X1; [|case_decide as X2].
      - intros [= <-]. subst. set_solver.
      - intros [= <-]. subst. set_solver.
      - intros ? _. right. by right. }
    intros h1 xs1 h2 xs2 x E1 E2 H1 H2.
    assert (Fr : forall h' xs', R !! h' = Some xs' -> n ∉ h' :: xs') by apply F.
    assert (In1 : x ∈ q :: xs -> x ∈ h :: q :: xs) by (intros; by right).
    destruct (K _ _ _ E1 H1) as [(-> & S1)|[(-> & ->)|(A1 & A2 & A3)]], (K _ _ _ E2 H2) as [(-> & S2)|[(-> & S2)|(A4 & A5 & A6)]]; try done.
    + destruct S1 as [->|S1]; [done|]. subst. set_solver.
    + destruct S1 as [->|S1]; [by destruct (Fr _ _ A6)|]. destruct A5. symmetry. by apply (rings_disj _ _ I h _ h2 xs2 x E A6); [apply In1|].
    + destruct S2 as [<-|S2]; [done|]. set_solver.
    + destruct A5. symmetry. apply (rings_disj _ _ I h _ h2 xs2 h E A6); [left|done].
    + destruct S2 as [->|S2]; [by destruct (Fr _ _ A3)|]. destruct A2. symmetry. by apply (rings_disj _ _ I h _ h1 xs1 x E A3); [apply In1|].
    + subst x. destruct A2. symmetry. apply (rings_disj _ _ I h _ h1 xs1 h E A3); [left|done].
    + by apply (rings_disj _ _ I h1 xs1 h2 xs2 x).
Qed.

(** The walk visits the queue in order and ends. *)
Lemma foreach_spec m R h xs : rings m R -> R !! h = Some xs ->
  exists q, QUEUE_NEXT m h = Some q /\ QUEUE_FOREACH (S (length xs)) m h q = Some xs.
Proof.
  intros I E. exists (hd h xs). split; [by eapply rings_lookup_next|].
  pose proof (rings_chain _ _ I _ _ E) as C. pose proof (rings_nodup _ _ I _ _ E) as Nd. apply NoDup_cons in Nd as [B _].
  clear I E R. revert C B. generalize h at 1 as x. induction xs as [|q xs IH]; intros x C B.
  - cbn [length QUEUE_FOREACH hd]. by rewrite bool_decide_true.
  - destruct C as [_ C]. cbn [length hd]. change (QUEUE_FOREACH (S (S (length xs))) m h q) with
      (if bool_decide (q = h) then Some [] else n ← QUEUE_NEXT m q; l ← QUEUE_FOREACH (S (length xs)) m h n; Some (q :: l)).
    rewrite bool_decide_false by set_solver. assert (En : QUEUE_NEXT m q = Some (hd h xs)) by (destruct xs; apply C).
    rewrite En. cbn [mbind option_bind]. rewrite (IH q C) by set_solver. done.
Qed.

(** A queue that is given up leaves free nodes. *)
Lemma rings_delete m R n ys : rings m R -> R !! n = Some ys -> rings m (delete n R) /\ forall a, a ∈ n :: ys -> free m (delete n R) a.
Proof.
  intros I E. split.
  - split.
    + intros h xs [_ E']%lookup_delete_Some. by apply (rings_chain _ _ I).
    + intros h xs [_ E']%lookup_delete_Some. by apply (rings_nodup _ _ I).
    + intros h xs h' xs' x [_ E1]%lookup_delete_Some [_ E2]%lookup_delete_Some. by apply (rings_disj _ _ I h xs h' xs' x).
  - intros a Ha. split.
    + apply elem_of_dom. destruct (chain_mem _ _ _ _ _ (rings_chain _ _ I _ _ E) Ha) as [v Ev]. by eapply next_dom.
    + intros h xs [N E']%lookup_delete_Some Hb. apply N. by apply (rings_disj _ _ I n ys h xs a).
Qed.

(** The nodes of [n] are put behind those of [h]. *)
Lemma rings_add m R h xs n f ys : rings m R -> R !! h = Some xs -> R !! n = Some (f :: ys) -> h <> n ->
  exists m', QUEUE_ADD h n m = Some m' /\ rings m' (<[h := xs ++ f :: ys]> (delete n R)) /\ dom m' = dom m.
Proof.
  intros I E En Nhn. destruct (ring_prev _ _ _ _ I E) as (p & P & Hp & Dp & Dh). destruct (ring_prev _ _ _ _ I En) as (e & P' & He & De & Dn).
  pose proof (rings_nodup _ _ I _ _ E) as Nd. pose proof (rings_chain _ _ I _ _ E) as C.
  pose proof (rings_nodup _ _ I _ _ En) as Nd'. pose proof (rings_chain _ _ I _ _ En) as [[L1 L2] C'].
  assert (Dj : forall a, a ∈ h :: xs -> a ∈ n :: f :: ys -> False) by (intros a Ha Hb; apply Nhn; by apply (rings_disj _ _ I h xs n (f :: ys) a)).
  apply NoDup_cons in Nd' as [B1 Nd']. assert (He' : e ∈ f :: ys) by (by eapply chain_last).
  assert (Nf : forall a, a ∈ h :: xs -> a <> f /\ a <> e /\ a <> n).
  { intros a Ha. split; [|split]; intros ->; apply (Dj _ Ha); [right; left|by right|left]. }
  assert (Nn : n <> f /\ n <> e) by (split; intros ->; [apply B1; left|done]).
  destruct (Nf p Hp) as (F1 & F2 & F3). destruct (Nf h (list_elem_of_here _ _)) as (F4 & F5 & F6). assert (F7 : f <> n) by (destruct Nn; congruence).
  unfold QUEUE_ADD. rewrite P, L1. cbn [mbind option_bind]. write; [done|].
  assert (X : QUEUE_NEXT m0 n = Some f) by (reads; by rewrite decide_False). assert (Y : QUEUE_PREV m0 h = Some p) by (by reads).
  rewrite X, Y. cbn [mbind option_bind]. write; [rewrite D; by eapply prev_dom|].
  assert (Z : QUEUE_PREV m1 n = Some e) by (reads; by rewrite decide_False). rewrite Z. cbn [mbind option_bind]. write; [congruence|].
  assert (V : QUEUE_PREV m2 h = Some e) by (reads; by rewrite decide_True). rewrite V. cbn [mbind option_bind]. write; [congruence|].
  assert (FN : forall a, QUEUE_NEXT m3 a = if decide (e = a) then Some h else if decide (p = a) then Some f else QUEUE_NEXT m a) by (intros; by reads).
  assert (FP : forall a, QUEUE_PREV m3 a = if decide (h = a) then Some e else if decide (f = a) then Some p else QUEUE_PREV m a) by (intros; by reads).
  exists m3. split; [done|]. split; [|congruence]. destruct (rings_delete _ _ _ _ I En) as [I1 Fr]. clear X Y Z V W W0 W1 W2.
  apply (rings_set m m3 (delete n R) h xs _ I1); [by rewrite lookup_delete_ne|..].
  - apply chain_app. split.
    + apply (chain_relink m m3 xs h h f p); try done.
      * intros a Ha Na. rewrite FN, !decide_False; [done|congruence|]. intros <-. by destruct (Nf e Ha) as (_ & ? & _).
      * intros a Ha. apply NoDup_cons in Nd as [B _]. rewrite FP, !decide_False; [done| |congruence]. intros <-. by destruct (Nf f ltac:(by right)).
      * rewrite FN, decide_False, decide_True by congruence. done.
      * rewrite FP, decide_False, decide_True by congruence. done.
    + apply (chain_relink m m3 ys f n h e); try done.
      * intros a Ha Na. rewrite FN, !decide_False; [done| |congruence]. intros <-. apply (Dj p Hp). by right.
      * intros a Ha. apply NoDup_cons in Nd' as [B2 _]. rewrite FP, !decide_False; [done|congruence|]. intros <-. apply (Dj h); [left|right; by right].
      * by rewrite FN, decide_True.
      * by rewrite FP, decide_True.
  - rewrite app_comm_cons. apply NoDup_app. split; [done|]. split; [|done]. intros a Ha Hb. apply (Dj a Ha). by right.
  - intros a [Ha|Ha]%elem_of_app; [by left|]. right. apply Fr. by right.
  - intros a Ha Fa. rewrite FN, FP, !decide_False; [done|..]; intros <-; first [by apply Ha|by apply Ha; left|by apply Fa, Fr; right|by apply Fa, Fr; right; left].
Qed.

(** ** Correctness *)

(** C15: On a memory that holds queues, the macros of [queue.h] are the
    operations of lists, and every other queue stays as it is:
    [QUEUE_INSERT_HEAD] and [QUEUE_INSERT_TAIL] add a free node at an end,
    [QUEUE_REMOVE] takes a node out of the queue it is in, wherever it is, and
    frees it, [QUEUE_MOVE] empties one queue into a free head, and
    [QUEUE_FOREACH] visits the nodes in order and ends. *)
Theorem QUEUE_correct (m : qmem) (R : gmap loc (list loc)) (h : loc) (xs : list loc) (I : rings m R) (E : R !! h = Some xs) :
  QUEUE_EMPTY m h = Some (bool_decide (xs = [])) /\
  (forall q, free m R q ->
     (exists m', QUEUE_INSERT_HEAD h q m = Some m' /\ rings m' (<[h := q :: xs]> R)) /\
     (exists m', QUEUE_INSERT_TAIL h q m = Some m' /\ rings m' (<[h := xs ++ [q]]> R)) /\
     (exists m', QUEUE_MOVE h q m = Some m' /\ rings m' (<[q := xs]> (<[h := []]> R)))) /\
  (forall l1 q l2, xs = l1 ++ q :: l2 ->
     exists m', QUEUE_REMOVE q m = Some m' /\ rings m' (<[h := l1 ++ l2]> R) /\ free m' (<[h := l1 ++ l2]> R) q) /\
  exists q, QUEUE_NEXT m h = Some q /\ QUEUE_FOREACH (S (length xs)) m h q = Some xs.
Proof.
  split; [by eapply empty_spec|]. split; [|split; [|by eapply foreach_spec]].
  - intros q F. destruct (rings_insert_head _ _ _ _ _ I E F) as (m1 & ? & ? & _). destruct (rings_insert_tail _ _ _ _ _ I E F) as (m2 & ? & ? & _).
    destruct (rings_move _ _ _ _ _ I E F) as (m3 & ? & ? & _). split; [|split]; by eexists.
  - intros l1 q l2 ->. destruct (rings_remove _ _ _ _ _ _ I E) as (m' & ? & ? & ? & _). by exists m'.
Qed.

(** A queue of two nodes and a free node *)
Definition two_nodes : qmem :=
  list_to_map [(1, (2, 3)); (2, (3, 1)); (3, (1, 2)); (4, (9, 9))]%positive.

Definition one_queue : gmap loc (list loc) := {[1%positive := [2%positive; 3%positive]]}.

Lemma two_nodes_rings : rings two_nodes one_queue.
Proof.
  unfold one_queue. split.
  - intros h xs [<- <-]%lookup_singleton_Some. vm_compute. done.
  - intros h xs [<- <-]%lookup_singleton_Some. apply (bool_decide_unpack _). vm_compute. done.
  - by intros h xs h' xs' x [<- <-]%lookup_singleton_Some [<- <-]%lookup_singleton_Some.
Qed.

Lemma QUEUE_correct_witness :
  QUEUE_EMPTY two_nodes 1%positive = Some false /\
  (exists m', QUEUE_REMOVE 2%positive two_nodes = Some m' /\ rings m' (<[1%positive := [3%positive]]> one_queue)) /\
  exists m', QUEUE_INSERT_TAIL 1%positive 4%positive two_nodes = Some m' /\ rings m' (<[1%positive := [2%positive; 3%positive; 4%positive]]> one_queue).
Proof.
  destruct (QUEUE_correct two_nodes one_queue 1%positive [2; 3]%positive two_nodes_rings eq_refl) as (A & B & C & _).
  split; [exact A|]. split.
  - destruct (C [] 2%positive [3]%positive eq_refl) as (m' & X & Y & _). exists m'. split; [exact X|exact Y].
  - destruct (B 4%positive) as (_ & X & _).
    + split; [by eexists|]. unfold one_queue. intros h xs [<- <-]%lookup_singleton_Some. apply (bool_decide_unpack _). vm_compute. done.
    + exact X.
Defined.
