(* ===== verification/UvTimer.v ===== *)
(** * Timers of the event loop ([timer.c])

    The timers of a libuv loop, over any priority queue ([PriorityQueue]; the
    binary heap of [heap-inl.h] is one).  A handle and its [heap_node] have one
    address, since [container_of] only converts between them.  An operation
    is in the option monad: [None] is an access to something that is not a
    timer handle, or a failure of the queue; the theorems show that neither
    happens.  Of [uv__handle_init] and the handle flags the model has what
    timers use: the flags CLOSING, CLOSED, ACTIVE and REF, the queue of handles and the
    counter of active handles. *)

From Stdlib Require Import ZArith Lia Bool Sorted.
From stdpp Require Import gmap list.
From S2P Require Import Prelude UvHeap.

#[local] Open Scope Z_scope.

(** ** Definitions *)

Definition UV_EINVAL : Z := -22.
Definition UV_HANDLE_CLOSING : Z := 1.
Definition UV_HANDLE_CLOSED : Z := 2.
Definition UV_HANDLE_ACTIVE : Z := 4.
Definition UV_HANDLE_REF : Z := 8.

(** [uv_timer_t]; a callback is a number, 0 is NULL. *)
Record timer := mk_timer { flags : Z; timer_cb : Z; timeout : Z; repeat : Z; start_id : Z }.

Definition with_flags (f : Z) (t : timer) : timer := mk_timer f (timer_cb t) (timeout t) (repeat t) (start_id t).
Definition with_repeat (r : Z) (t : timer) : timer := mk_timer (flags t) (timer_cb t) (timeout t) r (start_id t).

(** [uv_loop_t] and the memory of its timers; [others] is the rest of the
    loop, which timers do not touch but their callbacks may. *)
Record loop (Q X : Type) := mk_loop {
  time : Z;
  timer_counter : Z;
  active_handles : Z;
  handle_queue : list loc;
  timer_heap : Q;
  timers : gmap loc timer;
  others : X
}.
Arguments mk_loop {Q X}.
Arguments time {Q X}.
Arguments timer_counter {Q X}.
Arguments active_handles {Q X}.
Arguments handle_queue {Q X}.
Arguments timer_heap {Q X}.
Arguments timers {Q X}.
Arguments others {Q X}.

(** The keys the comparison reads; nothing but timers is compared. *)
Definition key (ts : gmap loc timer) (a : loc) : Z * Z :=
  match ts !! a with
  | Some t => (timeout t, start_id t)
  | None => (0, 0)
  end.

Definition timer_less_than (ts : gmap loc timer) (ha hb : loc) : bool :=
  let (a_timeout, a_start_id) := key ts ha in
  let (b_timeout, b_start_id) := key ts hb in
  if a_timeout <? b_timeout then true
  else if b_timeout <? a_timeout then false
  else a_start_id <? b_start_id.

Definition uv__is_active (t : timer) : bool := negb (Z.land (flags t) UV_HANDLE_ACTIVE =? 0).
Definition uv__is_closing (t : timer) : bool :=
  negb (Z.land (flags t) (Z.lor UV_HANDLE_CLOSING UV_HANDLE_CLOSED) =? 0).
Definition has_ref (t : timer) : bool := negb (Z.land (flags t) UV_HANDLE_REF =? 0).

Section Timers.
Context {Q X : Type} `{PriorityQueue Q}.

Definition set_timer (h : loc) (t : timer) (l : loop Q X) : loop Q X :=
  mk_loop (time l) (timer_counter l) (active_handles l) (handle_queue l) (timer_heap l) (<[h := t]> (timers l)) (others l).

Definition set_heap (q : Q) (l : loop Q X) : loop Q X :=
  mk_loop (time l) (timer_counter l) (active_handles l) (handle_queue l) q (timers l) (others l).

Definition set_active_handles (n : Z) (l : loop Q X) : loop Q X :=
  mk_loop (time l) (timer_counter l) n (handle_queue l) (timer_heap l) (timers l) (others l).

(** [uv__handle_start], [uv__handle_stop] *)
Definition uv__handle_start (h : loc) (l : loop Q X) : option (loop Q X) :=
  t ← timers l !! h;
  if uv__is_active t then Some l
  else
    let l := set_timer h (with_flags (Z.lor (flags t) UV_HANDLE_ACTIVE) t) l in
    Some (if has_ref t then set_active_handles (u32 (active_handles l + 1)) l else l).

Definition uv__handle_stop (h : loc) (l : loop Q X) : option (loop Q X) :=
  t ← timers l !! h;
  if negb (uv__is_active t) then Some l
  else
    let l := set_timer h (with_flags (Z.land (flags t) (Z.lxor UV_HANDLE_ACTIVE (2 ^ 32 - 1))) t) l in
    Some (if has_ref t then set_active_handles (u32 (active_handles l - 1)) l else l).

Definition uv_timer_init (h : loc) (l : loop Q X) : option (Z * loop Q X) :=
  t ← timers l !! h;
  let l := mk_loop (time l) (timer_counter l) (active_handles l) (handle_queue l ++ [h]) (timer_heap l) (timers l) (others l) in
  Some (0, set_timer h (mk_timer UV_HANDLE_REF 0 (timeout t) 0 (start_id t)) l).

Definition uv_timer_stop (h : loc) (l : loop Q X) : option (Z * loop Q X) :=
  t ← timers l !! h;
  if negb (uv__is_active t) then Some (0, l)
  else
    q ← pq_remove (timer_less_than (timers l)) (timer_heap l) h;
    l ← uv__handle_stop h (set_heap q l);
    Some (0, l).

Definition uv_timer_start (h : loc) (cb timeout_ms repeat_ms : Z) (l : loop Q X) : option (Z * loop Q X) :=
  t ← timers l !! h;
  if uv__is_closing t || (cb =? 0) then Some (UV_EINVAL, l)
  else
    l ← (if uv__is_active t then snd <$> uv_timer_stop h l else Some l);
    t ← timers l !! h;
    let clamped_timeout := u64 (time l + timeout_ms) in
    let clamped_timeout := if clamped_timeout <? timeout_ms then UINT64_MAX else clamped_timeout in
    let t := mk_timer (flags t) cb clamped_timeout repeat_ms (timer_counter l) in
    let l := mk_loop (time l) (u64 (timer_counter l + 1)) (active_handles l) (handle_queue l) (timer_heap l)
               (<[h := t]> (timers l)) (others l) in
    q ← pq_insert (timer_less_than (timers l)) (timer_heap l) h;
    l ← uv__handle_start h (set_heap q l);
    Some (0, l).

Definition uv_timer_again (h : loc) (l : loop Q X) : option (Z * loop Q X) :=
  t ← timers l !! h;
  if timer_cb t =? 0 then Some (UV_EINVAL, l)
  else if negb (repeat t =? 0) then
    r ← uv_timer_stop h l;
    r ← uv_timer_start h (timer_cb t) (repeat t) (repeat t) (snd r);
    Some (0, snd r)
  else Some (0, l).

Definition uv_timer_set_repeat (h : loc) (r : Z) (l : loop Q X) : option (loop Q X) :=
  t ← timers l !! h; Some (set_timer h (with_repeat r t) l).

Definition uv_timer_get_repeat (h : loc) (l : loop Q X) : option Z := repeat <$> timers l !! h.

Definition uv__next_timeout (l : loop Q X) : option Z :=
  match pq_min (timer_heap l) with
  | None => Some (-1)
  | Some h =>
      t ← timers l !! h;
      if timeout t <=? time l then Some 0
      else
        let diff := u64 (timeout t - time l) in
        Some (if INT_MAX <? diff then INT_MAX else diff)
  end.

Definition uv__timer_close (h : loc) (l : loop Q X) : option (loop Q X) := snd <$> uv_timer_stop h l.

(** [uv__run_timers]: [call cb h] is the effect of the callback [cb] on the
    loop, the program's own code.  The handles called are returned.  [None] is
    also the result when the fuel runs out: callbacks that keep starting
    timers that are due keep the loop from ending. *)
Fixpoint uv__run_timers (call : Z -> loc -> loop Q X -> option (loop Q X)) (fuel : nat) (l : loop Q X)
  : option (list loc * loop Q X) :=
  match fuel with
  | O => None
  | S fuel =>
      match pq_min (timer_heap l) with
      | None => Some ([], l)
      | Some h =>
          t ← timers l !! h;
          if time l <? timeout t then Some ([], l)
          else
            r ← uv_timer_stop h l;
            r ← uv_timer_again h (snd r);
            t ← timers (snd r) !! h;
            l ← call (timer_cb t) h (snd r);
            r ← uv__run_timers call fuel l;
            Some (h :: fst r, snd r)
      end
  end.
End Timers.

(** ** Flags and keys *)

Lemma land_pow2 x n : 0 <= n -> Z.land x (2 ^ n) = if Z.testbit x n then 2 ^ n else 0.
Proof.
  intros Hn. apply Z.bits_inj'. intros i Hi. rewrite Z.land_spec, Z.pow2_bits_eqb by done.
  destruct (Z.eqb_spec n i) as [->|N].
  - destruct (Z.testbit x i); [by rewrite Z.pow2_bits_true|by rewrite Z.bits_0].
  - rewrite andb_false_r. destruct (Z.testbit x n); [by rewrite Z.pow2_bits_false|by rewrite Z.bits_0].
Qed.

Lemma is_active_bit t : uv__is_active t = Z.testbit (flags t) 2.
Proof. unfold uv__is_active. change UV_HANDLE_ACTIVE with (2 ^ 2). rewrite land_pow2 by done. by destruct (Z.testbit (flags t) 2). Qed.

(** The flags after [uv__handle_start] and [uv__handle_stop] *)
Definition activate (t : timer) : timer := with_flags (Z.lor (flags t) UV_HANDLE_ACTIVE) t.
Definition deactivate (t : timer) : timer :=
  with_flags (Z.land (flags t) (Z.lxor UV_HANDLE_ACTIVE (2 ^ 32 - 1))) t.

Lemma activate_active t : uv__is_active (activate t) = true.
Proof. rewrite is_active_bit. cbn [flags activate with_flags]. rewrite Z.lor_spec. apply orb_true_r. Qed.

Lemma deactivate_inactive t : uv__is_active (deactivate t) = false.
Proof. rewrite is_active_bit. cbn [flags deactivate with_flags]. rewrite Z.land_spec. apply andb_false_r. Qed.

(** A flag other than ACTIVE stays as it is. *)
Lemma activate_bit t n : 0 <= n < 32 -> n <> 2 -> Z.testbit (flags (activate t)) n = Z.testbit (flags t) n.
Proof.
  intros Hn N. cbn [flags activate with_flags]. rewrite Z.lor_spec. change UV_HANDLE_ACTIVE with (2 ^ 2).
  rewrite Z.pow2_bits_false by lia. apply orb_false_r.
Qed.

Lemma deactivate_bit t n : 0 <= n < 32 -> n <> 2 -> Z.testbit (flags (deactivate t)) n = Z.testbit (flags t) n.
Proof.
  intros Hn N. cbn [flags deactivate with_flags]. rewrite Z.land_spec, Z.lxor_spec. change UV_HANDLE_ACTIVE with (2 ^ 2).
  rewrite Z.pow2_bits_false by lia. change (2 ^ 32 - 1) with (Z.ones 32). rewrite Z.ones_spec_low by lia. apply andb_true_r.
Qed.

Lemma is_closing_bits t : uv__is_closing t = Z.testbit (flags t) 0 || Z.testbit (flags t) 1.
Proof.
  unfold uv__is_closing. change (Z.lor UV_HANDLE_CLOSING UV_HANDLE_CLOSED) with (Z.lor (2 ^ 0) (2 ^ 1)).
  rewrite Z.land_lor_distr_r, !land_pow2 by done.
  by destruct (Z.testbit (flags t) 0), (Z.testbit (flags t) 1).
Qed.

Lemma has_ref_bit t : has_ref t = Z.testbit (flags t) 3.
Proof. unfold has_ref. change UV_HANDLE_REF with (2 ^ 3). rewrite land_pow2 by done. by destruct (Z.testbit (flags t) 3). Qed.

Lemma activate_other t : has_ref (activate t) = has_ref t /\ uv__is_closing (activate t) = uv__is_closing t.
Proof. rewrite !has_ref_bit, !is_closing_bits, !activate_bit by lia. done. Qed.

Lemma deactivate_other t : has_ref (deactivate t) = has_ref t /\ uv__is_closing (deactivate t) = uv__is_closing t.
Proof. rewrite !has_ref_bit, !is_closing_bits, !deactivate_bit by lia. done. Qed.

(** The comparison is a total preorder on keys. *)
#[export] Instance timer_order ts : LessOrder (timer_less_than ts).
Proof.
  split; intros *; unfold timer_less_than; repeat destruct (key ts _);
    repeat match goal with |- context [?x <? ?y] => destruct (Z.ltb_spec x y) end; done || lia.
Qed.

Lemma less_ext ts ts' a b : key ts a = key ts' a -> key ts b = key ts' b -> timer_less_than ts a b = timer_less_than ts' a b.
Proof. intros Ea Eb. unfold timer_less_than. by rewrite Ea, Eb. Qed.

Lemma key_insert ts h t a : key (<[h := t]> ts) a = if decide (h = a) then (timeout t, start_id t) else key ts a.
Proof. unfold key. rewrite lookup_insert. by case_decide. Qed.

Section Facts.
Context {Q X : Type} `{PriorityQueue Q}.

(** ** The invariant of a loop

    The queue holds exactly the active timers, ordered by their keys; an
    active timer is not closing and has a callback. *)
Record timers_ok (l : loop Q X) (S : gset loc) : Prop := {
  ok_queue : pq_is (timer_less_than (timers l)) (timer_heap l) S;
  ok_active : forall h, h ∈ S <-> exists t, timers l !! h = Some t /\ uv__is_active t = true;
  ok_open : forall h t, h ∈ S -> timers l !! h = Some t -> uv__is_closing t = false /\ timer_cb t <> 0 /\ word_ok 64 (timeout t);
  ok_words : word_ok 64 (time l) /\ word_ok 64 (timer_counter l) /\
    forall h t, timers l !! h = Some t -> word_ok 64 (repeat t);
  ok_few : Z.of_nat (size (dom (timers l))) + 1 < 2 ^ 32
}.

Lemma ok_size l S : timers_ok l S -> Z.of_nat (size S) + 1 < 2 ^ 32.
Proof.
  intros I. pose proof (ok_few _ _ I). enough (size S <= size (dom (timers l)))%nat by lia.
  apply subseteq_size. intros h Hh. apply (ok_active _ _ I) in Hh as (t & E & _). by apply elem_of_dom_2 in E.
Qed.

Lemma ok_mem l S h : timers_ok l S -> h ∈ S -> exists t, timers l !! h = Some t /\ uv__is_active t = true.
Proof. intros I. apply (ok_active _ _ I). Qed.

Lemma ok_not_active l S h t : timers_ok l S -> timers l !! h = Some t -> uv__is_active t = false -> h ∉ S.
Proof. intros I E A Hh. destruct (ok_mem l S h I Hh) as (t' & E' & A'). congruence. Qed.

Lemma dom_insert_same (ts : gmap loc timer) h t t' : ts !! h = Some t -> dom (<[h := t']> ts) = dom ts.
Proof. intros E. rewrite dom_insert_L. apply elem_of_dom_2 in E. set_solver. Qed.

(** *** Stopping *)
Lemma stop_spec l S h t :
  timers_ok l S -> timers l !! h = Some t ->
  exists l', uv_timer_stop h l = Some (0, l') /\ timers_ok l' (S ∖ {[h]}) /\
    timers l' = (if uv__is_active t then <[h := deactivate t]> (timers l) else timers l) /\
    time l' = time l /\ timer_counter l' = timer_counter l /\ handle_queue l' = handle_queue l /\
    active_handles l' = (if uv__is_active t && has_ref t then u32 (active_handles l - 1) else active_handles l).
Proof.
  intros I E. unfold uv_timer_stop. rewrite E. cbn [mbind option_bind].
  destruct (uv__is_active t) eqn:A; cbn [negb andb].
  2: { exists l. split; [done|]. split; [|done]. pose proof (ok_not_active l S h t I E A).
       by replace (S ∖ {[h]}) with S by set_solver. }
  assert (Hh : h ∈ S) by (apply (ok_active _ _ I); eauto).
  destruct (pq_remove_law _ _ _ h (ok_queue _ _ I) Hh ltac:(pose proof (ok_size _ _ I); lia)) as (q & -> & Iq).
  cbn [mbind option_bind]. unfold uv__handle_stop. cbn [timers set_heap]. rewrite E. cbn [mbind option_bind]. rewrite A. cbn [negb].
  assert (Iq' : pq_is (timer_less_than (<[h := deactivate t]> (timers l))) q (S ∖ {[h]})).
  { eapply pq_is_ext; [|exact Iq]. intros a b Ha Hb.
    apply less_ext; rewrite key_insert, decide_False by set_solver; done. }
  eexists. split; [reflexivity|]. fold (deactivate t).
  split; [|destruct (has_ref t); done].
  destruct I as [I1 I2 I3 I4 I5]. destruct (deactivate_other t) as [_ Cl].
  assert (OK : forall n, timers_ok (mk_loop (time l) (timer_counter l) n (handle_queue l) q (<[h := deactivate t]> (timers l)) (others l)) (S ∖ {[h]})).
  { intros n. split; cbn [time timer_counter timers timer_heap].
    - done.
    - intros a. rewrite lookup_insert, elem_of_difference, elem_of_singleton, I2. case_decide as D.
      + subst. split; [intros [_ []]; done|]. intros (t' & [= <-] & A'). by rewrite deactivate_inactive in A'.
      + split; [intros [? _]; done|]. intros Hex. split; [done|congruence].
    - intros a t' [Ha Na]%elem_of_difference. rewrite lookup_insert_ne by set_solver. by apply I3.
    - destruct I4 as (? & ? & R). split; [done|]. split; [done|]. intros a t' E'. rewrite lookup_insert in E'.
      case_decide; [simplify_eq; by apply (R _ t E)|by eapply R].
    - by rewrite (dom_insert_same _ _ _ _ E). }
  destruct (has_ref t); apply OK.
Qed.

Lemma u32_down_up n : word_ok 32 n -> u32 (u32 (n - 1) + 1) = n.
Proof.
  intros W. unfold wrap. rewrite Z.add_mod_idemp_l by done. replace (n - 1 + 1) with n by lia. by apply Z.mod_small.
Qed.

(** *** Starting *)

(** The timeout, which saturates instead of overflowing *)
Definition expiry (now timeout_ms : Z) : Z := Z.min (now + timeout_ms) UINT64_MAX.

Definition started (l : loop Q X) (cb timeout_ms repeat_ms : Z) (t : timer) : timer :=
  mk_timer (Z.lor (flags t) UV_HANDLE_ACTIVE) cb (expiry (time l) timeout_ms) repeat_ms (timer_counter l).

Lemma clamp_expiry now ms : word_ok 64 now -> word_ok 64 ms ->
  (if u64 (now + ms) <? ms then UINT64_MAX else u64 (now + ms)) = expiry now ms.
Proof.
  unfold word_ok, expiry, UINT64_MAX, wrap. intros Hn Hm.
  destruct (Z.lt_ge_cases (now + ms) (2 ^ 64)) as [L|L].
  - rewrite Z.mod_small by lia. destruct (Z.ltb_spec (now + ms) ms); lia.
  - replace ((now + ms) mod 2 ^ 64) with (now + ms - 2 ^ 64).
    + destruct (Z.ltb_spec (now + ms - 2 ^ 64) ms); lia.
    + symmetry. rewrite <- (Z_mod_plus_full (now + ms) (-1) (2 ^ 64)). apply Z.mod_small. lia.
Qed.

Lemma expiry_ok now ms : word_ok 64 now -> word_ok 64 ms -> word_ok 64 (expiry now ms).
Proof. unfold word_ok, expiry, UINT64_MAX. lia. Qed.

(** The handle is stopped and starts. *)
Lemma start_inactive_spec l S h t cb ms rep :
  timers_ok l S -> timers l !! h = Some t -> uv__is_active t = false -> uv__is_closing t = false -> cb <> 0 ->
  word_ok 64 ms -> word_ok 64 rep ->
  exists l', uv_timer_start h cb ms rep l = Some (0, l') /\ timers_ok l' ({[h]} ∪ S) /\
    timers l' = <[h := started l cb ms rep t]> (timers l) /\
    time l' = time l /\ timer_counter l' = u64 (timer_counter l + 1) /\ handle_queue l' = handle_queue l /\
    active_handles l' = (if has_ref t then u32 (active_handles l + 1) else active_handles l).
Proof.
  intros I E A C Ncb Wm Wr. unfold uv_timer_start. rewrite E. cbn [mbind option_bind]. rewrite C, A.
  destruct (Z.eqb_spec cb 0); [done|]. cbn [orb mbind option_bind]. rewrite E. cbn [mbind option_bind].
  destruct (ok_words _ _ I) as (Wt & Wc & Wrep). rewrite clamp_expiry by done.
  set (t1 := mk_timer (flags t) cb (expiry (time l) ms) rep (timer_counter l)). cbn [timers timer_heap].
  pose proof (ok_not_active l S h t I E A) as Nh.
  assert (Iq : pq_is (timer_less_than (<[h := t1]> (timers l))) (timer_heap l) S).
  { eapply pq_is_ext; [|exact (ok_queue _ _ I)]. intros a b Ha Hb.
    apply less_ext; rewrite key_insert, decide_False by set_solver; done. }
  destruct (pq_insert_law _ _ _ h Iq Nh ltac:(by eapply ok_size)) as (q & -> & Iq1). cbn [mbind option_bind].
  unfold uv__handle_start. cbn [timers set_heap]. rewrite lookup_insert_eq. cbn [mbind option_bind].
  assert (A1 : uv__is_active t1 = false) by done. rewrite A1. fold (activate t1).
  assert (Et : activate t1 = started l cb ms rep t) by done.
  assert (Iq2 : pq_is (timer_less_than (<[h := activate t1]> (timers l))) q ({[h]} ∪ S)).
  { eapply pq_is_ext; [|exact Iq1]. intros a b Ha Hb. apply less_ext; rewrite !key_insert; case_decide; done. }
  eexists. split; [reflexivity|]. change (has_ref t1) with (has_ref t).
  assert (OK : forall n, timers_ok (mk_loop (time l) (u64 (timer_counter l + 1)) n (handle_queue l) q (<[h := activate t1]> (timers l)) (others l)) ({[h]} ∪ S)).
  { destruct I as [I1 I2 I3 I4 I5]. intros n1. split; cbn [time timer_counter timers timer_heap].
    - done.
    - intros a. rewrite lookup_insert, elem_of_union, elem_of_singleton, I2. case_decide as D.
      + subst. split; [|by left]. intros _. eexists. split; [done|apply activate_active].
      + split; [intros [?|?]; [congruence|done]|by right].
    - intros a t' Ha. rewrite lookup_insert. case_decide.
      + intros [= <-]. destruct (activate_other t1) as [_ ->]. split; [exact C|]. split; [done|]. by apply expiry_ok.
      + apply I3. set_solver.
    - split; [done|]. split; [by apply wrap_range|]. intros a t' E'. rewrite lookup_insert in E'.
      case_decide; [by simplify_eq|by eapply Wrep].
    - by rewrite (dom_insert_same _ _ _ _ E). }
  unfold set_timer, set_active_handles, set_heap. cbn [time timer_counter active_handles handle_queue timer_heap timers].
  rewrite !insert_insert_eq, <- Et. destruct (has_ref t); (split; [apply OK|done]).
Qed.

(** Stopping, whatever the state, leaves an inactive handle. *)
Definition stopped (t : timer) : timer := if uv__is_active t then deactivate t else t.

Lemma stopped_inactive t : uv__is_active (stopped t) = false.
Proof. unfold stopped. destruct (uv__is_active t) eqn:A; [apply deactivate_inactive|done]. Qed.

Lemma stopped_closing t : uv__is_closing (stopped t) = uv__is_closing t.
Proof. unfold stopped. destruct (uv__is_active t); [apply deactivate_other|done]. Qed.

Lemma stop_lookup l S h t l' r :
  timers_ok l S -> timers l !! h = Some t -> uv_timer_stop h l = Some (r, l') ->
  timers_ok l' (S ∖ {[h]}) /\ timers l' = <[h := stopped t]> (timers l) /\
  time l' = time l /\ timer_counter l' = timer_counter l.
Proof.
  intros I E R. destruct (stop_spec l S h t I E) as (l1 & E1 & I1 & T1 & Tm & Tc & _).
  rewrite E1 in R. apply some_inj in R. injection R as _ <-. split; [done|]. split; [|done].
  rewrite T1. unfold stopped. destruct (uv__is_active t); [done|]. by rewrite insert_id.
Qed.

(** Starting a handle in any state *)
Lemma start_spec l S h t cb ms rep :
  timers_ok l S -> timers l !! h = Some t -> uv__is_closing t = false -> cb <> 0 ->
  word_ok 64 ms -> word_ok 64 rep ->
  exists l', uv_timer_start h cb ms rep l = Some (0, l') /\ timers_ok l' ({[h]} ∪ S) /\
    timers l' = <[h := started l cb ms rep (stopped t)]> (timers l) /\
    time l' = time l /\ timer_counter l' = u64 (timer_counter l + 1) /\
    active_handles l' = (if has_ref t then u32 ((if uv__is_active t then u32 (active_handles l - 1) else active_handles l) + 1)
                         else active_handles l).
Proof.
  intros I E C Ncb Wm Wr. unfold stopped. destruct (uv__is_active t) eqn:A.
  2: { destruct (start_inactive_spec l S h t cb ms rep I E A C Ncb Wm Wr) as (l' & R & I' & T & Tm & Tc & _ & Ah). by exists l'. }
  destruct (stop_spec l S h t I E) as (l1 & E1 & I1 & T1 & Tm1 & Tc1 & _ & Ah1).
  rewrite A in T1, Ah1.
  assert (El : timers l1 !! h = Some (deactivate t)) by (rewrite T1; apply lookup_insert_eq).
  destruct (deactivate_other t) as [Hr Cl]. rewrite C in Cl.
  destruct (start_inactive_spec l1 (S ∖ {[h]}) h (deactivate t) cb ms rep I1 El (deactivate_inactive t) Cl Ncb Wm Wr)
    as (l' & R & I' & T & Tm & Tc & _ & Ah).
  exists l'. split.
  - rewrite <- R. unfold uv_timer_start. rewrite E, El. cbn [mbind option_bind].
    rewrite C, Cl, A, deactivate_inactive, E1. destruct (Z.eqb_spec cb 0); [done|].
    cbn [orb fmap option_fmap option_map snd mbind option_bind]. by rewrite El.
  - rewrite Tm, Tc, Ah, Hr, Tm1, Tc1, Ah1. split; [|split; [|by destruct (has_ref t)]].
    + replace ({[h]} ∪ S) with ({[h]} ∪ S ∖ {[h]}); [done|]. apply set_eq. intros b. destruct (decide (b = h)); set_solver.
    + rewrite T, T1, insert_insert_eq. unfold started. by rewrite Tm1, Tc1.
Qed.

(** [uv_timer_again]: a repeating timer restarts, another is left alone. *)
Lemma again_spec l S h t :
  timers_ok l S -> timers l !! h = Some t -> timer_cb t <> 0 -> uv__is_closing t = false ->
  exists l', uv_timer_again h l = Some (0, l') /\ time l' = time l /\
    if repeat t =? 0 then l' = l
    else timers_ok l' ({[h]} ∪ S) /\ timers l' = <[h := started l (timer_cb t) (repeat t) (repeat t) (stopped t)]> (timers l).
Proof.
  intros I E Ncb C. unfold uv_timer_again. rewrite E. cbn [mbind option_bind].
  destruct (Z.eqb_spec (timer_cb t) 0); [done|]. destruct (Z.eqb_spec (repeat t) 0); cbn [negb]; [by exists l|].
  destruct (stop_spec l S h t I E) as (l1 & E1 & _). destruct (stop_lookup l S h t l1 0 I E E1) as (I1 & T1 & Tm1 & Tc1).
  rewrite E1. cbn [mbind option_bind snd].
  assert (El : timers l1 !! h = Some (stopped t)) by (rewrite T1; apply lookup_insert_eq).
  pose proof (proj2 (proj2 (ok_words _ _ I)) h t E) as Wr.
  destruct (start_spec l1 (S ∖ {[h]}) h (stopped t) (timer_cb t) (repeat t) (repeat t) I1 El
    ltac:(by rewrite stopped_closing) ltac:(done) Wr Wr) as (l' & -> & I' & T & Tm & Tc & _).
  cbn [mbind option_bind snd]. exists l'. split; [done|]. split; [congruence|]. split.
  - replace ({[h]} ∪ S) with ({[h]} ∪ S ∖ {[h]}); [done|]. apply set_eq. intros b. destruct (decide (b = h)); set_solver.
  - rewrite T, T1, insert_insert_eq. unfold started, stopped at 1. rewrite stopped_inactive, Tm1, Tc1. done.
Qed.

(** ** What the loop waits for *)
Lemma next_timeout_spec l S :
  timers_ok l S ->
  match uv__next_timeout l with
  | None => False
  | Some w =>
      (w = -1 /\ S = ∅) \/
      exists h t, h ∈ S /\ timers l !! h = Some t /\ w = Z.min INT_MAX (Z.max 0 (timeout t - time l)) /\
        forall h' t', h' ∈ S -> timers l !! h' = Some t' -> timeout t <= timeout t'
  end.
Proof.
  intros I. unfold uv__next_timeout. pose proof (pq_min_law _ _ _ (ok_queue _ _ I)) as M.
  destruct (pq_min (timer_heap l)) as [h|]; [|by left]. destruct M as [Hh Least].
  destruct (ok_mem l S h I Hh) as (t & E & A). rewrite E. cbn [mbind option_bind].
  destruct (ok_open _ _ I h t Hh E) as (_ & _ & Wt). destruct (ok_words _ _ I) as (Wn & _).
  assert (L : forall h' t', h' ∈ S -> timers l !! h' = Some t' -> timeout t <= timeout t').
  { intros h' t' Hh' E'. specialize (Least h' Hh'). unfold timer_less_than, key in Least. rewrite E, E' in Least.
    destruct (Z.ltb_spec (timeout t') (timeout t)); [done|lia]. }
  unfold word_ok in *. destruct (Z.leb_spec (timeout t) (time l)).
  - right. exists h, t. repeat split; try done. unfold INT_MAX. lia.
  - right. exists h, t. split; [done|]. split; [done|]. split; [|done]. rewrite wrap_small by (unfold word_ok; lia).
    destruct (Z.ltb_spec INT_MAX (timeout t - time l)); unfold INT_MAX in *; lia.
Qed.

(** ** Running the due timers *)

Definition due (l : loop Q X) (h : loc) : Prop := exists t, timers l !! h = Some t /\ uv__is_active t = true /\ timeout t <= time l.

Definition is_due (l : loop Q X) (p : loc * timer) : bool := uv__is_active (snd p) && (timeout (snd p) <=? time l).
Definition due_set (l : loop Q X) : gset loc := dom (filter (is_due l) (timers l)).

Lemma elem_of_due_set l h : h ∈ due_set l <-> due l h.
Proof.
  unfold due_set, due. rewrite elem_of_dom. split.
  - intros [t [E D]%map_lookup_filter_Some]. apply Is_true_true, andb_prop in D as [A L%Z.leb_le]. by exists t.
  - intros (t & E & A & L). exists t. apply map_lookup_filter_Some. split; [done|]. apply Is_true_true. unfold is_due.
    cbn [snd]. rewrite A. by apply Z.leb_le.
Qed.

(** A fired timer, before its callback: stopped, and started again if it
    repeats. *)
Definition fired (l l' : loop Q X) (h : loc) (t : timer) : Prop :=
  exists t', timers l' !! h = Some t' /\ timer_cb t' = timer_cb t /\ repeat t' = repeat t /\
    if repeat t =? 0 then uv__is_active t' = false
    else uv__is_active t' = true /\ timeout t' = expiry (time l) (repeat t).

(** One round *)
Lemma fire_spec l S h t :
  timers_ok l S -> timers l !! h = Some t -> h ∈ S -> time l < UINT64_MAX ->
  exists l1 l2, uv_timer_stop h l = Some (0, l1) /\ uv_timer_again h l1 = Some (0, l2) /\
    time l2 = time l /\ fired l l2 h t /\ (forall a, a <> h -> timers l2 !! a = timers l !! a) /\
    timers_ok l2 (if repeat t =? 0 then S ∖ {[h]} else S).
Proof.
  intros I E Hh Tl. destruct (ok_open _ _ I h t Hh E) as (C & Ncb & Wt).
  destruct (stop_spec l S h t I E) as (l1 & E1 & _). destruct (stop_lookup l S h t l1 0 I E E1) as (I1 & T1 & Tm1 & Tc1).
  assert (El : timers l1 !! h = Some (stopped t)) by (rewrite T1; apply lookup_insert_eq).
  assert (Sr : timer_cb (stopped t) = timer_cb t /\ repeat (stopped t) = repeat t) by (unfold stopped; by destruct (uv__is_active t)).
  destruct Sr as [Scb Srp].
  destruct (again_spec l1 (S ∖ {[h]}) h (stopped t) I1 El ltac:(congruence) ltac:(by rewrite stopped_closing)) as (l2 & E2 & Tm2 & R2).
  exists l1, l2. split; [done|]. split; [done|]. split; [congruence|]. rewrite Srp in R2. unfold fired.
  destruct (repeat t =? 0).
  - subst l2. split; [exists (stopped t); repeat split; try done; apply stopped_inactive|]. split; [|done].
    intros a Na. by rewrite T1, lookup_insert_ne.
  - destruct R2 as (I2 & T2). split; [|split].
    + eexists. rewrite T2. split; [apply lookup_insert_eq|]. cbn [timer_cb repeat timeout started]. split; [done|].
      split; [done|]. split; [|by rewrite Tm1]. rewrite is_active_bit. cbn [flags started]. rewrite Z.lor_spec. apply orb_true_r.
    + intros a Na. by rewrite T2, T1, !lookup_insert_ne.
    + replace S with ({[h]} ∪ S ∖ {[h]}); [done|]. apply set_eq. intros b. destruct (decide (b = h)); set_solver.
Qed.

Lemma expiry_later now rep : word_ok 64 rep -> rep <> 0 -> now < UINT64_MAX -> now < expiry now rep.
Proof. unfold word_ok, expiry. lia. Qed.

(** The invariant reads only the timers, their queue, the time and the
    counter. *)
Lemma timers_ok_ext l l' S :
  timers l' = timers l -> timer_heap l' = timer_heap l -> time l' = time l -> timer_counter l' = timer_counter l ->
  timers_ok l S -> timers_ok l' S.
Proof. intros E1 E2 E3 E4 [I1 I2 I3 I4 I5]. split; rewrite ?E1, ?E2, ?E3, ?E4; done. Qed.

Lemma not_less_timeout ts a b ta tb :
  ts !! a = Some ta -> ts !! b = Some tb -> timer_less_than ts b a = false -> timeout ta <= timeout tb.
Proof.
  intros Ea Eb. unfold timer_less_than, key. rewrite Ea, Eb. destruct (Z.ltb_spec (timeout tb) (timeout ta)); [done|lia].
Qed.

(** The order in which timers fire *)
Definition fires_before (l : loop Q X) (a b : loc) : Prop := timer_less_than (timers l) b a = false.

(** The same order in terms of the timers: the earlier expiry first, and of
    timers that expire together the one started first *)
Definition by_expiry (l : loop Q X) (a b : loc) : Prop :=
  forall ta tb, timers l !! a = Some ta -> timers l !! b = Some tb ->
    timeout ta < timeout tb \/ (timeout ta = timeout tb /\ start_id ta <= start_id tb).

Lemma sorted_by_expiry l hs : StronglySorted (fires_before l) hs -> StronglySorted (by_expiry l) hs.
Proof.
  induction 1 as [|a hs _ IH F]; constructor; [done|].
  eapply Forall_impl; [exact F|]. intros b Hb ta tb Ea Eb.
  revert Hb. unfold fires_before, timer_less_than, key. rewrite Ea, Eb.
  destruct (Z.ltb_spec (timeout tb) (timeout ta)); [done|]. destruct (Z.ltb_spec (timeout ta) (timeout tb)); [lia|].
  intros ?%Z.ltb_ge. lia.
Qed.

Lemma sorted_ext l l' hs :
  (forall a, a ∈ hs -> key (timers l) a = key (timers l') a) ->
  StronglySorted (fires_before l') hs -> StronglySorted (fires_before l) hs.
Proof.
  intros K SS. induction SS as [|a hs SS IH F]; constructor.
  - apply IH. intros b Hb. apply K. by constructor.
  - rewrite Forall_forall in F |- *. intros b Hb. unfold fires_before.
    rewrite (less_ext _ (timers l')); [by apply F|apply K; by constructor|apply K; by constructor].
Qed.

(** Firing the least due timer leaves the other due timers. *)
Lemma due_after_fire l l' h t (D : gset loc) :
  timers l !! h = Some t -> word_ok 64 (repeat t) -> time l < UINT64_MAX -> time l' = time l -> fired l l' h t ->
  (forall a, a <> h -> timers l' !! a = timers l !! a) ->
  (forall a, a ∈ D <-> due l a) -> forall a, a ∈ D ∖ {[h]} <-> due l' a.
Proof.
  intros E W Tl Tm F Rest HD a. rewrite elem_of_difference, elem_of_singleton, HD. unfold due.
  destruct (decide (a = h)) as [->|N]; [|by rewrite (Rest a N), Tm; naive_solver].
  split; [naive_solver|]. intros (t1 & E1 & A1 & L1). destruct F as (t2 & E2 & _ & _ & Fr). simplify_eq.
  destruct (Z.eqb_spec (repeat t) 0) as [R0|R0]; [congruence|]. destruct Fr as [_ Ex].
  pose proof (expiry_later (time l) (repeat t) W R0 Tl). lia.
Qed.

(** A callback that leaves the timers of the loop alone *)
Definition keeps_timers (call : Z -> loc -> loop Q X -> option (loop Q X)) : Prop :=
  forall cb h l, exists l', call cb h l = Some l' /\ timers l' = timers l /\ timer_heap l' = timer_heap l /\
    time l' = time l /\ timer_counter l' = timer_counter l.

(** What a run leaves behind *)
Record ran (l l' : loop Q X) (hs : list loc) : Prop := {
  ran_nodup : NoDup hs;
  ran_due : forall h, h ∈ hs <-> due l h;
  ran_order : StronglySorted (fires_before l) hs;
  ran_fired : forall h t, timers l !! h = Some t -> due l h -> fired l l' h t;
  ran_rest : forall h, ~ due l h -> timers l' !! h = timers l !! h;
  ran_time : time l' = time l
}.

Lemma ran_nothing l : (forall a, ~ due l a) -> ran l l [].
Proof.
  intros N. split; try done.
  - constructor.
  - intros h. split; [by intros ?%elem_of_nil|]. by intros ?%N.
  - constructor.
  - by intros h t _ ?%N.
Qed.

Lemma ran_cons l l1 l' h t hs :
  timers l !! h = Some t -> due l h -> word_ok 64 (repeat t) -> time l < UINT64_MAX ->
  (forall a, due l a -> fires_before l h a) ->
  fired l l1 h t -> (forall a, a <> h -> timers l1 !! a = timers l !! a) -> time l1 = time l ->
  (forall a, due l1 a <-> due l a /\ a <> h) -> ran l1 l' hs -> ran l l' (h :: hs).
Proof.
  intros E Dh W Tl Least F Rest Tm D1 [Nd Du Or Fi Re Ti]. split.
  - constructor; [|done]. rewrite Du, D1. naive_solver.
  - intros a. rewrite elem_of_cons, Du, D1. destruct (decide (a = h)) as [->|]; naive_solver.
  - constructor.
    + apply (sorted_ext l l1); [|done]. intros a [_ Na]%Du%D1. unfold key. by rewrite Rest.
    + apply Forall_forall. intros a [Da _]%Du%D1. by apply Least.
  - intros a ta Ea Da. destruct (decide (a = h)) as [->|Na].
    + simplify_eq. unfold fired in *. rewrite Re by (rewrite D1; naive_solver). exact F.
    + destruct (Fi a ta) as (t' & ?); [by rewrite Rest|by apply D1|]. exists t'. by rewrite <- Tm.
  - intros a Na. rewrite Re by (rewrite D1; naive_solver). apply Rest. by intros ->.
  - congruence.
Qed.

Lemma run_spec call (Hcall : keeps_timers call) : forall fuel l S (D : gset loc),
  timers_ok l S -> time l < UINT64_MAX -> (forall a, a ∈ D <-> due l a) -> (size D < fuel)%nat ->
  exists hs l' S', uv__run_timers call fuel l = Some (hs, l') /\ timers_ok l' S' /\ ran l l' hs.
Proof.
  induction fuel as [|fuel IH]; intros l S D I Tl HD Sz; [lia|]. cbn [uv__run_timers].
  pose proof (pq_min_law _ _ _ (ok_queue _ _ I)) as M. destruct (pq_min (timer_heap l)) as [h|].
  2: { exists [], l, S. split; [done|]. split; [done|]. apply ran_nothing. intros a (t & E & A & _).
       assert (a ∈ S) by (apply (ok_active _ _ I); eauto). set_solver. }
  destruct M as [Hh Least]. destruct (ok_mem l S h I Hh) as (t & E & A). rewrite E. cbn [mbind option_bind].
  assert (InS : forall a, due l a -> a ∈ S) by (intros a (ta & Ea & Aa & _); apply (ok_active _ _ I); eauto).
  destruct (Z.ltb_spec (time l) (timeout t)) as [L|L].
  { exists [], l, S. split; [done|]. split; [done|]. apply ran_nothing. intros a Da. pose proof (InS a Da) as Ha.
    destruct Da as (ta & Ea & _ & La). pose proof (not_less_timeout _ _ _ _ _ E Ea (Least a Ha)). lia. }
  assert (Dh : due l h) by (by exists t).
  destruct (fire_spec l S h t I E Hh Tl) as (l1 & l2 & E1 & E2 & Tm & F & Rest & I2). rewrite E1. cbn [mbind option_bind snd].
  rewrite E2. cbn [mbind option_bind snd]. destruct F as (t2 & F2 & Fcb & F3). rewrite F2. cbn [mbind option_bind].
  destruct (Hcall (timer_cb t2) h l2) as (l3 & -> & K1 & K2 & K3 & K4). cbn [mbind option_bind].
  pose proof (proj2 (proj2 (ok_words _ _ I)) h t E) as W.
  assert (F' : fired l l3 h t) by (exists t2; by rewrite K1).
  assert (Rest' : forall a, a <> h -> timers l3 !! a = timers l !! a) by (rewrite K1; done).
  pose proof (due_after_fire l l3 h t D E W Tl ltac:(congruence) F' Rest' HD) as HD'.
  destruct (IH l3 _ (D ∖ {[h]}) (timers_ok_ext l2 l3 _ K1 K2 K3 K4 I2) ltac:(by rewrite K3, Tm) HD') as (hs & l' & S' & R & I' & Rn).
  { rewrite size_difference by (apply singleton_subseteq_l, HD, Dh). rewrite size_singleton.
    assert (0 < size D)%nat; [|lia]. apply Nat.neq_0_lt_0. intros Z0%size_empty_inv. apply HD in Dh. set_solver. }
  rewrite R. cbn [mbind option_bind fst snd]. exists (h :: hs), l', S'. split; [done|]. split; [done|].
  apply (ran_cons l l3 l' h t hs E Dh W Tl); [|done|done|congruence| |done].
  - intros a Da. apply Least, InS, Da.
  - intros a. rewrite <- HD', elem_of_difference, elem_of_singleton, HD. done.
Qed.

(** *** Callbacks that use the timers *)

(** The callbacks may start and stop timers, as long as they keep the
    invariant, the timer called and the clock. *)
Definition keeps_invariant (call : Z -> loc -> loop Q X -> option (loop Q X)) : Prop :=
  forall cb h l S, timers_ok l S -> h ∈ dom (timers l) ->
    exists l' S', call cb h l = Some l' /\ timers_ok l' S' /\ time l' = time l.

(** One round of the loop: the least due timer is stopped, restarted if it
    repeats, and called. *)
Definition round (call : Z -> loc -> loop Q X -> option (loop Q X)) (l l' : loop Q X) : Prop :=
  exists h t l2 t2, pq_min (timer_heap l) = Some h /\ timers l !! h = Some t /\ uv__is_active t = true /\
    timeout t <= time l /\ fired l l2 h t /\ timers l2 !! h = Some t2 /\ call (timer_cb t2) h l2 = Some l'.

Lemma run_any_spec call (Hcall : keeps_invariant call) : forall fuel l S,
  timers_ok l S -> time l < UINT64_MAX ->
  (exists hs l' S', uv__run_timers call fuel l = Some (hs, l') /\ nsteps (round call) (length hs) l l' /\
    timers_ok l' S' /\ time l' = time l /\ forall h, ~ due l' h) \/
  (uv__run_timers call fuel l = None /\ exists l', nsteps (round call) fuel l l').
Proof.
  induction fuel as [|fuel IH]; intros l S I Tl; [right; split; [done|by exists l; constructor]|]. cbn [uv__run_timers].
  pose proof (pq_min_law _ _ _ (ok_queue _ _ I)) as M. destruct (pq_min (timer_heap l)) as [h|] eqn:Em.
  2: { left. exists [], l, S. split; [done|]. split; [constructor|]. split; [done|]. split; [done|]. intros a (t & E & A & _).
       assert (a ∈ S) by (apply (ok_active _ _ I); eauto). set_solver. }
  destruct M as [Hh Least]. destruct (ok_mem l S h I Hh) as (t & E & A). rewrite E. cbn [mbind option_bind].
  destruct (Z.ltb_spec (time l) (timeout t)) as [L|L].
  { left. exists [], l, S. split; [done|]. split; [constructor|]. split; [done|]. split; [done|]. intros a (ta & Ea & Aa & La).
    pose proof (not_less_timeout _ _ _ _ _ E Ea (Least a ltac:(apply (ok_active _ _ I); eauto))). lia. }
  destruct (fire_spec l S h t I E Hh Tl) as (l1 & l2 & E1 & E2 & Tm & F & Rest & I2). rewrite E1. cbn [mbind option_bind snd].
  rewrite E2. cbn [mbind option_bind snd]. pose proof F as (t2 & F2 & _). rewrite F2. cbn [mbind option_bind].
  destruct (Hcall (timer_cb t2) h l2 _ I2 (elem_of_dom_2 _ _ _ F2)) as (l3 & S3 & E3 & I3 & Tm3). rewrite E3. cbn [mbind option_bind].
  assert (Rd : round call l l3) by (exists h, t, l2, t2; done).
  destruct (IH l3 S3 I3 ltac:(congruence)) as [(hs & l' & S' & R & N & I' & Ti & Nd)|(R & l' & N)]; rewrite R; cbn [mbind option_bind fst snd].
  - left. exists (h :: hs), l', S'. split; [done|]. split; [by econstructor|]. split; [done|]. split; [congruence|done].
  - right. split; [done|]. exists l'. by econstructor.
Qed.

(** ** The claims *)

(** [uv_timer_start] rejects a closing handle and a null callback with
    UV_EINVAL and no effect.  Otherwise it succeeds: the handle is active
    with a timeout that saturates at the greatest 64-bit value, other timers
    are as they were, the invariant holds, the loop counts the handle once,
    and timers due at the same time that were started before go first. *)
Theorem uv_timer_start_correct (l : loop Q X) (S : gset loc) (h : loc) (t : timer) (cb timeout_ms repeat_ms : Z)
  (I : timers_ok l S) (E : timers l !! h = Some t) (W : word_ok 32 (active_handles l))
  (Wm : word_ok 64 timeout_ms) (Wr : word_ok 64 repeat_ms) :
  if uv__is_closing t || (cb =? 0) then uv_timer_start h cb timeout_ms repeat_ms l = Some (UV_EINVAL, l)
  else exists l', uv_timer_start h cb timeout_ms repeat_ms l = Some (0, l') /\
    timers_ok l' ({[h]} ∪ S) /\ time l' = time l /\
    (exists t', timers l' !! h = Some t' /\ uv__is_active t' = true /\ timer_cb t' = cb /\
      timeout t' = Z.min (time l + timeout_ms) UINT64_MAX /\ repeat t' = repeat_ms /\ start_id t' = timer_counter l) /\
    (forall a, a <> h -> timers l' !! a = timers l !! a) /\
    active_handles l' = (if negb (uv__is_active t) && has_ref t then u32 (active_handles l + 1) else active_handles l) /\
    (forall a ta, a <> h -> timers l !! a = Some ta -> timeout ta <= Z.min (time l + timeout_ms) UINT64_MAX ->
      start_id ta < timer_counter l -> timer_less_than (timers l') a h = true).
Proof.
  destruct (uv__is_closing t) eqn:C; cbn [orb].
  { unfold uv_timer_start. rewrite E. cbn [mbind option_bind]. by rewrite C. }
  destruct (Z.eqb_spec cb 0) as [->|Ncb].
  { unfold uv_timer_start. rewrite E. cbn [mbind option_bind]. by rewrite C. }
  destruct (start_spec l S h t cb timeout_ms repeat_ms I E C Ncb Wm Wr) as (l' & R & I' & T & Tm & Tc & Ah).
  exists l'. split; [done|]. split; [done|]. split; [done|].
  assert (El : timers l' !! h = Some (started l cb timeout_ms repeat_ms (stopped t))) by (rewrite T; apply lookup_insert_eq).
  split; [|split; [|split]].
  - eexists. split; [exact El|]. split; [|done]. rewrite is_active_bit. cbn [flags started]. rewrite Z.lor_spec. apply orb_true_r.
  - intros a Na. by rewrite T, lookup_insert_ne.
  - rewrite Ah. destruct (uv__is_active t), (has_ref t); cbn [negb andb]; try done. by rewrite u32_down_up.
  - intros a ta Na Ea La Ls. unfold timer_less_than, key. rewrite El, T, lookup_insert_ne, Ea by done.
    cbn [timeout start_id started]. unfold expiry.
    destruct (Z.ltb_spec (timeout ta) (Z.min (time l + timeout_ms) UINT64_MAX)); [done|].
    rewrite (proj2 (Z.ltb_ge _ _)) by lia. by apply Z.ltb_lt.
Qed.

(** [uv__next_timeout] is -1 exactly without active timers, and else the
    milliseconds to the first expiry: 0 when that has passed, at most
    INT_MAX. *)
Theorem uv__next_timeout_correct (l : loop Q X) (S : gset loc) (I : timers_ok l S) :
  exists w, uv__next_timeout l = Some w /\ (w = -1 <-> S = ∅) /\
    forall h t, h ∈ S -> timers l !! h = Some t -> 0 <= w <= Z.max 0 (timeout t - time l) /\
      (w < INT_MAX -> exists h' t', h' ∈ S /\ timers l !! h' = Some t' /\ w = Z.max 0 (timeout t' - time l)).
Proof.
  pose proof (next_timeout_spec l S I) as N. destruct (uv__next_timeout l) as [w|]; [|done]. exists w. split; [done|].
  destruct N as [[-> ->]|(h & t & Hh & E & -> & L)]; [split; [done|set_solver]|].
  unfold INT_MAX in *. split; [split; [lia|set_solver]|]. intros h' t' Hh' E'. specialize (L h' t' Hh' E').
  split; [lia|]. intros. exists h, t. split; [done|]. split; [done|]. lia.
Qed.

(** C20: With callbacks that leave the timers alone, and before the last
    millisecond the clock can show, [uv__run_timers] ends, in at most one
    round more than there are due timers.  It calls exactly the due timers,
    each once, the earlier expiry first and of equal ones the timer started
    first;
    those that repeat are active again at one repeat from now and the others
    are stopped, timers that are not due are as they were, and the invariant
    holds again. *)
Theorem uv__run_timers_correct (call : Z -> loc -> loop Q X -> option (loop Q X)) (fuel : nat) (l : loop Q X) (S : gset loc)
  (Hcall : keeps_timers call) (I : timers_ok l S) (Now : time l < UINT64_MAX)
  (Fuel : (size (due_set l) < fuel)%nat) :
  exists hs l' S', uv__run_timers call fuel l = Some (hs, l') /\ timers_ok l' S' /\ time l' = time l /\
    NoDup hs /\ (forall h, h ∈ hs <-> h ∈ due_set l) /\ StronglySorted (by_expiry l) hs /\
    (forall h t, h ∈ due_set l -> timers l !! h = Some t -> exists t', timers l' !! h = Some t' /\
      if repeat t =? 0 then uv__is_active t' = false
      else uv__is_active t' = true /\ timeout t' = Z.min (time l + repeat t) UINT64_MAX) /\
    (forall h, h ∉ due_set l -> timers l' !! h = timers l !! h).
Proof.
  destruct (run_spec call Hcall fuel l S _ I Now (elem_of_due_set l) Fuel) as (hs & l' & S' & R & I' & [Nd Du Or Fi Re Ti]).
  exists hs, l', S'. split; [done|]. split; [done|]. split; [done|]. split; [done|].
  split; [intros h; rewrite Du; symmetry; apply elem_of_due_set|]. split; [by apply sorted_by_expiry|]. split.
  - intros h t Hh E. destruct (Fi h t E) as (t' & ? & _ & _ & ?); [by apply elem_of_due_set|]. by exists t'.
  - intros h Nh. apply Re. intros Dh. by apply Nh, elem_of_due_set.
Qed.

(** Whatever the callbacks do with the timers, as long as they keep the
    invariant, every round of [uv__run_timers] stops the least due timer,
    restarts it if it repeats, and calls it; when the loop ends no timer is
    due.  It never fails: without a result within the fuel there were as many
    rounds as fuel. *)
Theorem uv__run_timers_safe (call : Z -> loc -> loop Q X -> option (loop Q X)) (fuel : nat) (l : loop Q X) (S : gset loc)
  (Hcall : keeps_invariant call) (I : timers_ok l S) (Now : time l < UINT64_MAX) :
  (exists hs l' S', uv__run_timers call fuel l = Some (hs, l') /\ nsteps (round call) (length hs) l l' /\ timers_ok l' S' /\
    forall h t, timers l' !! h = Some t -> uv__is_active t = true -> time l < timeout t) \/
  (uv__run_timers call fuel l = None /\ exists l', nsteps (round call) fuel l l').
Proof.
  destruct (run_any_spec call Hcall fuel l S I Now) as [(hs & l' & S' & R & N & I' & Ti & Nd)|]; [left|by right].
  exists hs, l', S'. split; [done|]. split; [done|]. split; [done|]. intros h t E A.
  destruct (Z.lt_ge_cases (time l) (timeout t)); [done|]. destruct (Nd h). exists t. rewrite Ti. done.
Qed.
End Facts.

(** ** An example: three timers in the heap of [heap-inl.h] *)

Definition idle_timer : timer := mk_timer UV_HANDLE_REF 0 0 0 0.

Definition idle_loop : loop heap unit :=
  mk_loop 100 0 0 [1; 2; 3]%positive (mk_heap None 0 ∅)
    (<[1%positive := idle_timer]> (<[2%positive := idle_timer]> {[3%positive := idle_timer]})) tt.

Definition and_start {X : Type} (l : loop heap X) (h : loc) (ms rep : Z) : loop heap X :=
  default l (snd <$> uv_timer_start h 7 ms rep l).

Definition three_timers : loop heap unit :=
  and_start (and_start (and_start idle_loop 1%positive 10 5) 2%positive 3 0) 3%positive 50 0.

Definition at_time (now : Z) (l : loop heap unit) : loop heap unit :=
  mk_loop now (timer_counter l) (active_handles l) (handle_queue l) (timer_heap l) (timers l) (others l).

Example three_timers_run :
  fst <$> uv__run_timers (fun _ _ l => Some l) 3 (at_time 120 three_timers) = Some [2; 1]%positive.
Proof. vm_compute. reflexivity. Qed.

Lemma idle_ok : timers_ok idle_loop ∅.
Proof.
  assert (T : forall h t, timers idle_loop !! h = Some t -> t = idle_timer).
  { intros h t. cbn [timers idle_loop]. rewrite !lookup_insert, lookup_singleton. by repeat case_decide; intros [= <-]. }
  split.
  - exact (is_heap_init _ (mk_heap None 0 ∅)).
  - intros h. split; [set_solver|]. intros (t & ->%T & A). done.
  - set_solver.
  - split; [done|]. split; [done|]. by intros h t ->%T.
  - vm_compute. reflexivity.
Qed.

Lemma and_start_ok {X : Type} (l : loop heap X) S h t ms rep :
  timers_ok l S -> timers l !! h = Some t -> uv__is_closing t = false -> word_ok 64 ms -> word_ok 64 rep ->
  timers_ok (and_start l h ms rep) ({[h]} ∪ S).
Proof.
  intros I E C Wm Wr. unfold and_start. destruct (start_spec l S h t 7 ms rep I E C ltac:(done) Wm Wr) as (l' & -> & I' & _).
  exact I'.
Qed.

Lemma three_timers_ok : timers_ok three_timers {[1; 2; 3]}%positive.
Proof.
  assert (E : ({[1; 2; 3]}%positive : gset loc) = {[3%positive]} ∪ ({[2%positive]} ∪ ({[1%positive]} ∪ ∅))) by set_solver.
  rewrite E.
  unfold three_timers.
  eapply and_start_ok; [|vm_compute; reflexivity|done..].
  eapply and_start_ok; [|vm_compute; reflexivity|done..].
  eapply and_start_ok; [|vm_compute; reflexivity|done..].
  exact idle_ok.
Qed.

Lemma at_time_ok now l S : word_ok 64 now -> timers_ok l S -> timers_ok (at_time now l) S.
Proof. intros W [I1 I2 I3 I4 I5]. split; try done. split; [done|apply I4]. Qed.

Lemma uv_timer_start_correct_witness : exists l',
  uv_timer_start 2%positive 9 (2 ^ 64 - 1) 1 three_timers = Some (0, l') /\ timers_ok l' ({[2]} ∪ {[1; 2; 3]})%positive.
Proof.
  destruct (uv_timer_start_correct three_timers {[1; 2; 3]}%positive 2%positive (mk_timer 12 7 103 0 1) 9 (2 ^ 64 - 1) 1
    three_timers_ok ltac:(vm_compute; reflexivity) ltac:(done) ltac:(done) ltac:(done)) as (l' & R & I & _).
  exists l'. split; [exact R|exact I].
Defined.

Lemma uv__next_timeout_correct_witness : exists w,
  uv__next_timeout three_timers = Some w /\ (w = -1 <-> ({[1; 2; 3]}%positive : gset loc) = ∅).
Proof.
  destruct (uv__next_timeout_correct three_timers {[1; 2; 3]}%positive three_timers_ok) as (w & E & N & _).
  exists w. split; [exact E|exact N].
Defined.

Lemma uv__run_timers_correct_witness : exists hs l',
  uv__run_timers (fun _ _ l => Some l) 3 (at_time 120 three_timers) = Some (hs, l') /\ NoDup hs /\
    forall h, h ∈ hs <-> h ∈ due_set (at_time 120 three_timers).
Proof.
  destruct (uv__run_timers_correct (fun _ _ l => Some l) 3 (at_time 120 three_timers) {[1; 2; 3]}%positive
    ltac:(intros cb h l; by exists l) (at_time_ok 120 _ _ ltac:(done) three_timers_ok) ltac:(done)
    ltac:(apply Nat.ltb_lt; vm_compute; reflexivity)) as (hs & l' & S' & R & _ & _ & N & D & _).
  exists hs, l'. split; [exact R|]. split; [exact N|exact D].
Defined.

(** A callback that stops another timer *)
Definition stop_first (_ : Z) (_ : loc) (l : loop heap unit) : option (loop heap unit) :=
  if decide (1%positive ∈ dom (timers l)) then snd <$> uv_timer_stop 1%positive l else Some l.

Lemma stop_first_keeps : keeps_invariant stop_first.
Proof.
  intros cb h l S I Hh. unfold stop_first. case_decide as D; [|by exists l, S].
  apply elem_of_dom in D as [t E]. destruct (stop_spec l S 1%positive t I E) as (l' & -> & I' & _ & Tm & _).
  by exists l', (S ∖ {[1%positive]}).
Qed.

Lemma uv__run_timers_safe_witness :
  (exists hs l' S', uv__run_timers stop_first 5 (at_time 120 three_timers) = Some (hs, l') /\
    nsteps (round stop_first) (length hs) (at_time 120 three_timers) l' /\ timers_ok l' S' /\
    forall h t, timers l' !! h = Some t -> uv__is_active t = true -> 120 < timeout t) \/
  (uv__run_timers stop_first 5 (at_time 120 three_timers) = None /\
    exists l', nsteps (round stop_first) 5 (at_time 120 three_timers) l').
Proof.
  exact (uv__run_timers_safe stop_first 5 (at_time 120 three_timers) {[1; 2; 3]}%positive stop_first_keeps
    (at_time_ok 120 _ _ ltac:(done) three_timers_ok) ltac:(done)).
Defined.
