(* ===== verification/UvLoop.v ===== *)
(** * The event loop ([loop-watcher.c] and the loop of [core.c])

    The prepare, check and idle watchers with their queues ([UvQueue]), the
    closing of handles, and [uv_run] with its phases around the timers
    ([UvTimer], of whose loop this file gives the [others]).  A callback is
    any function on the loop; [None] is an access to something that is not a
    handle, or a failed assertion.

    [uv__io_poll] waits in the kernel and calls back what happened there; it
    is a parameter, and so is the clock: [Env] is the state of the world
    outside, which passes as the clock is read and as the loop waits.  Of the
    types of handles the model has timers and the three watchers; an
    [uv__io_t] has the callback that [uv__run_pending] calls.

    The addresses of the heads of the queues in [uv_loop_t] are parameters,
    too, and that of the local head in [uv__run_idle] and its like. *)

From Stdlib Require Import ZArith Lia Bool Sorted.
From stdpp Require Import gmap list.
From S2P Require Import Prelude UvHeap UvQueue UvTimer.

#[local] Open Scope Z_scope.

(** ** Definitions *)

Variant wtype := UV_PREPARE | UV_CHECK | UV_IDLE.

#[export] Instance wtype_eq_dec : EqDecision wtype.
Proof. solve_decision. Defined.

(** [uv_prepare_t], [uv_check_t] and [uv_idle_t]; its [queue] has the address
    of the handle. *)
Record watcher := mk_watcher { w_type : wtype; w_flags : Z; w_cb : Z }.

(** The fields of [uv_loop_t] that timers do not use, the memory of the nodes
    and the watchers, and the [close_cb] of every handle *)
Record rest := mk_rest {
  qnodes : qmem;
  watchers : gmap loc watcher;
  io_cbs : gmap loc Z;
  closing_handles : list loc;
  close_cbs : gmap loc Z;
  active_reqs : Z;
  stop_flag : Z
}.

Definition with_qnodes (m : qmem) (r : rest) : rest :=
  mk_rest m (watchers r) (io_cbs r) (closing_handles r) (close_cbs r) (active_reqs r) (stop_flag r).
Definition with_watchers (ws : gmap loc watcher) (r : rest) : rest :=
  mk_rest (qnodes r) ws (io_cbs r) (closing_handles r) (close_cbs r) (active_reqs r) (stop_flag r).
Definition with_closing (hs : list loc) (r : rest) : rest :=
  mk_rest (qnodes r) (watchers r) (io_cbs r) hs (close_cbs r) (active_reqs r) (stop_flag r).
Definition with_close_cbs (cbs : gmap loc Z) (r : rest) : rest :=
  mk_rest (qnodes r) (watchers r) (io_cbs r) (closing_handles r) cbs (active_reqs r) (stop_flag r).
Definition with_stop_flag (f : Z) (r : rest) : rest :=
  mk_rest (qnodes r) (watchers r) (io_cbs r) (closing_handles r) (close_cbs r) (active_reqs r) f.

(** The part of a watcher that it has in common with a timer *)
Definition w_handle (w : watcher) : timer := mk_timer (w_flags w) 0 0 0 0.

Definition set_w_flags (f : Z) (w : watcher) : watcher := mk_watcher (w_type w) f (w_cb w).

Variant uv_run_mode := UV_RUN_DEFAULT | UV_RUN_ONCE | UV_RUN_NOWAIT.

Section Loop.
Context {Q : Type} `{PriorityQueue Q} {Env : Type}.
Context (head : wtype -> loc) (pending_queue queue : loc).
Context (now : Env -> Z) (tick : Env -> Env).

Definition uv_loop : Type := loop Q rest.

Context (poll : Z -> uv_loop -> Env -> option (uv_loop * Env)).
Context (call : Z -> loc -> uv_loop -> option uv_loop).

Definition set_others (r : rest) (l : uv_loop) : uv_loop :=
  mk_loop (time l) (timer_counter l) (active_handles l) (handle_queue l) (timer_heap l) (timers l) r.

Definition set_time (t : Z) (l : uv_loop) : uv_loop :=
  mk_loop t (timer_counter l) (active_handles l) (handle_queue l) (timer_heap l) (timers l) (others l).

Definition set_handle_queue (hs : list loc) (l : uv_loop) : uv_loop :=
  mk_loop (time l) (timer_counter l) (active_handles l) hs (timer_heap l) (timers l) (others l).

Definition set_watcher (h : loc) (w : watcher) (l : uv_loop) : uv_loop :=
  set_others (with_watchers (<[h := w]> (watchers (others l))) (others l)) l.

(** A macro of [queue.h] on the memory of the loop *)
Definition on_queue (f : qmem -> option qmem) (l : uv_loop) : option uv_loop :=
  m ← f (qnodes (others l)); Some (set_others (with_qnodes m (others l)) l).

(** *** Watchers *)

Definition w_active (w : watcher) : bool := uv__is_active (w_handle w).

(** [uv__handle_start], [uv__handle_stop] *)
Definition watcher_handle_start (h : loc) (l : uv_loop) : option uv_loop :=
  w ← watchers (others l) !! h;
  if w_active w then Some l
  else
    let l := set_watcher h (set_w_flags (Z.lor (w_flags w) UV_HANDLE_ACTIVE) w) l in
    Some (if has_ref (w_handle w) then set_active_handles (u32 (active_handles l + 1)) l else l).

Definition watcher_handle_stop (h : loc) (l : uv_loop) : option uv_loop :=
  w ← watchers (others l) !! h;
  if negb (w_active w) then Some l
  else
    let l := set_watcher h (set_w_flags (Z.land (w_flags w) (Z.lxor UV_HANDLE_ACTIVE (2 ^ 32 - 1))) w) l in
    Some (if has_ref (w_handle w) then set_active_handles (u32 (active_handles l - 1)) l else l).

Definition watcher_init (t : wtype) (h : loc) (l : uv_loop) : option (Z * uv_loop) :=
  w ← watchers (others l) !! h;
  let l := set_handle_queue (handle_queue l ++ [h]) l in
  Some (0, set_watcher h (mk_watcher t UV_HANDLE_REF 0) l).

Definition watcher_start (h : loc) (cb : Z) (l : uv_loop) : option (Z * uv_loop) :=
  w ← watchers (others l) !! h;
  if w_active w then Some (0, l)
  else if cb =? 0 then Some (UV_EINVAL, l)
  else
    l ← on_queue (QUEUE_INSERT_HEAD (head (w_type w)) h) l;
    let l := set_watcher h (mk_watcher (w_type w) (w_flags w) cb) l in
    l ← watcher_handle_start h l;
    Some (0, l).

Definition watcher_stop (h : loc) (l : uv_loop) : option (Z * uv_loop) :=
  w ← watchers (others l) !! h;
  if negb (w_active w) then Some (0, l)
  else
    l ← on_queue (QUEUE_REMOVE h) l;
    l ← watcher_handle_stop h l;
    Some (0, l).

(** The loop of [uv__run_idle], [uv__run_prepare] and [uv__run_check]; the
    handles called are returned. *)
Fixpoint run_watchers_loop (fuel : nat) (t : wtype) (l : uv_loop) : option (list loc * uv_loop) :=
  match fuel with
  | O => None
  | S fuel =>
      e ← QUEUE_EMPTY (qnodes (others l)) queue;
      if e : bool then Some ([], l)
      else
        q ← QUEUE_HEAD (qnodes (others l)) queue;
        l ← on_queue (QUEUE_REMOVE q) l;
        l ← on_queue (QUEUE_INSERT_TAIL (head t) q) l;
        w ← watchers (others l) !! q;
        l ← call (w_cb w) q l;
        r ← run_watchers_loop fuel t l;
        Some (q :: fst r, snd r)
  end.

Definition uv__run_watchers (fuel : nat) (t : wtype) (l : uv_loop) : option (list loc * uv_loop) :=
  l ← on_queue (QUEUE_MOVE (head t) queue) l;
  run_watchers_loop fuel t l.

(** *** Handles of any type *)

Definition handle_flags (h : loc) (l : uv_loop) : option Z :=
  match watchers (others l) !! h with
  | Some w => Some (w_flags w)
  | None => flags <$> timers l !! h
  end.

Definition set_handle_flags (h : loc) (f : Z) (l : uv_loop) : option uv_loop :=
  match watchers (others l) !! h with
  | Some w => Some (set_watcher h (set_w_flags f w) l)
  | None => t ← timers l !! h; Some (set_timer h (with_flags f t) l)
  end.

Definition uv__make_close_pending (h : loc) (l : uv_loop) : option uv_loop :=
  f ← handle_flags h l;
  if Z.land f UV_HANDLE_CLOSING =? 0 then None
  else if negb (Z.land f UV_HANDLE_CLOSED =? 0) then None
  else Some (set_others (with_closing (h :: closing_handles (others l)) (others l)) l).

(** The [switch] of [uv_close] *)
Definition close_handle (h : loc) (l : uv_loop) : option uv_loop :=
  match watchers (others l) !! h with
  | Some _ => snd <$> watcher_stop h l
  | None => uv__timer_close h l
  end.

Definition uv_close (h : loc) (close_cb : Z) (l : uv_loop) : option uv_loop :=
  f ← handle_flags h l;
  if negb (Z.land f (Z.lor UV_HANDLE_CLOSING UV_HANDLE_CLOSED) =? 0) then None
  else
    l ← set_handle_flags h (Z.lor f UV_HANDLE_CLOSING) l;
    let l := set_others (with_close_cbs (<[h := close_cb]> (close_cbs (others l))) (others l)) l in
    l ← close_handle h l;
    uv__make_close_pending h l.

Definition uv__handle_ref (h : loc) (l : uv_loop) : option uv_loop :=
  f ← handle_flags h l;
  if negb (Z.land f UV_HANDLE_REF =? 0) then Some l
  else
    l ← set_handle_flags h (Z.lor f UV_HANDLE_REF) l;
    if negb (Z.land f UV_HANDLE_CLOSING =? 0) then Some l
    else if negb (Z.land f UV_HANDLE_ACTIVE =? 0) then Some (set_active_handles (u32 (active_handles l + 1)) l)
    else Some l.

Definition uv__handle_unref (h : loc) (l : uv_loop) : option uv_loop :=
  f ← handle_flags h l;
  if Z.land f UV_HANDLE_REF =? 0 then Some l
  else
    l ← set_handle_flags h (Z.land f (Z.lxor UV_HANDLE_REF (2 ^ 32 - 1))) l;
    if negb (Z.land f UV_HANDLE_CLOSING =? 0) then Some l
    else if negb (Z.land f UV_HANDLE_ACTIVE =? 0) then Some (set_active_handles (u32 (active_handles l - 1)) l)
    else Some l.

Definition uv__finish_close (h : loc) (l : uv_loop) : option uv_loop :=
  f ← handle_flags h l;
  if Z.land f UV_HANDLE_CLOSING =? 0 then None
  else if negb (Z.land f UV_HANDLE_CLOSED =? 0) then None
  else
    l ← set_handle_flags h (Z.lor f UV_HANDLE_CLOSED) l;
    l ← uv__handle_unref h l;
    let l := set_handle_queue (filter (fun a => a <> h) (handle_queue l)) l in
    cb ← close_cbs (others l) !! h;
    if negb (cb =? 0) then call cb h l else Some l.

Fixpoint finish_all (hs : list loc) (l : uv_loop) : option uv_loop :=
  match hs with
  | [] => Some l
  | h :: hs => l ← uv__finish_close h l; finish_all hs l
  end.

Definition uv__run_closing_handles (l : uv_loop) : option uv_loop :=
  finish_all (closing_handles (others l)) (set_others (with_closing [] (others l)) l).

(** *** Pending I/O callbacks *)

Definition uv__io_feed (w : loc) (l : uv_loop) : option uv_loop :=
  e ← QUEUE_EMPTY (qnodes (others l)) w;
  if e : bool then on_queue (QUEUE_INSERT_TAIL pending_queue w) l else Some l.

Fixpoint run_pending_loop (fuel : nat) (l : uv_loop) : option uv_loop :=
  match fuel with
  | O => None
  | S fuel =>
      e ← QUEUE_EMPTY (qnodes (others l)) queue;
      if e : bool then Some l
      else
        q ← QUEUE_HEAD (qnodes (others l)) queue;
        l ← on_queue (QUEUE_REMOVE q) l;
        l ← on_queue (QUEUE_INIT q) l;
        cb ← io_cbs (others l) !! q;
        l ← call cb q l;
        run_pending_loop fuel l
  end.

Definition uv__run_pending (fuel : nat) (l : uv_loop) : option (bool * uv_loop) :=
  e ← QUEUE_EMPTY (qnodes (others l)) pending_queue;
  if e : bool then Some (false, l)
  else
    l ← on_queue (QUEUE_MOVE pending_queue queue) l;
    l ← run_pending_loop fuel l;
    Some (true, l).

(** *** The loop *)

Definition uv__has_active_handles (l : uv_loop) : bool := 0 <? active_handles l.

Definition uv__has_active_reqs (l : uv_loop) : bool := 0 <? active_reqs (others l).

Definition uv__loop_alive (l : uv_loop) : bool :=
  uv__has_active_handles l || uv__has_active_reqs l || negb (bool_decide (closing_handles (others l) = [])).

Definition uv_stop (l : uv_loop) : uv_loop := set_others (with_stop_flag 1 (others l)) l.

Definition uv__update_time (l : uv_loop) (e : Env) : uv_loop * Env := (set_time (now e) l, tick e).

Definition uv_backend_timeout (l : uv_loop) : option Z :=
  idle ← QUEUE_EMPTY (qnodes (others l)) (head UV_IDLE);
  pending ← QUEUE_EMPTY (qnodes (others l)) pending_queue;
  if negb (stop_flag (others l) =? 0) then Some 0
  else if negb (uv__has_active_handles l) && negb (uv__has_active_reqs l) then Some 0
  else if negb (idle : bool) then Some 0
  else if negb (pending : bool) then Some 0
  else if negb (bool_decide (closing_handles (others l) = [])) then Some 0
  else uv__next_timeout l.

(** One iteration; the timers and the watchers called are returned.  [fuel]
    bounds the loops of the phases. *)
Definition uv_run_once (fuel : nat) (mode : uv_run_mode) (l : uv_loop) (e : Env) : option (list loc * uv_loop * Env) :=
  let '(l, e) := uv__update_time l e in
  r ← uv__run_timers call fuel l;
  let '(fired, l) := r in
  r ← uv__run_pending fuel l;
  let '(ran_pending, l) := r in
  r ← uv__run_watchers fuel UV_IDLE l;
  let '(idle, l) := r in
  r ← uv__run_watchers fuel UV_PREPARE l;
  let '(prepare, l) := r in
  timeout ← match mode with
            | UV_RUN_DEFAULT => uv_backend_timeout l
            | UV_RUN_ONCE => if ran_pending : bool then Some 0 else uv_backend_timeout l
            | UV_RUN_NOWAIT => Some 0
            end;
  r ← poll timeout l e;
  let '(l, e) := r in
  r ← uv__run_watchers fuel UV_CHECK l;
  let '(check, l) := r in
  l ← uv__run_closing_handles l;
  let log := fired ++ idle ++ prepare ++ check in
  match mode with
  | UV_RUN_ONCE =>
      let '(l, e) := uv__update_time l e in
      r ← uv__run_timers call fuel l;
      Some (log ++ fst r, snd r, e)
  | _ => Some (log, l, e)
  end.

(** The [while] of [uv_run], from a loop that is alive; [None] also when
    [rounds] are not enough. *)
Fixpoint uv_run_loop (rounds fuel : nat) (mode : uv_run_mode) (r : bool) (l : uv_loop) (e : Env) : option (bool * list loc * uv_loop * Env) :=
  if r && (stop_flag (others l) =? 0) then
    match rounds with
    | O => None
    | S rounds =>
        s ← uv_run_once fuel mode l e;
        let '(log, l, e) := s in
        let r := uv__loop_alive l in
        match mode with
        | UV_RUN_DEFAULT =>
            s ← uv_run_loop rounds fuel mode r l e;
            let '(r, log', l, e) := s in
            Some (r, log ++ log', l, e)
        | _ => Some (r, log, l, e)
        end
    end
  else Some (r, [], l, e).

Definition uv_run (rounds fuel : nat) (mode : uv_run_mode) (l : uv_loop) (e : Env) : option (bool * list loc * uv_loop * Env) :=
  let r := uv__loop_alive l in
  let '(l, e) := if r then (l, e) else uv__update_time l e in
  s ← uv_run_loop rounds fuel mode r l e;
  let '(r, log, l, e) := s in
  Some (r, log, if negb (stop_flag (others l) =? 0) then set_others (with_stop_flag 0 (others l)) l else l, e).
End Loop.

(** ** What callbacks do

    A callback is a program of the calls below.  It may look at the loop to
    choose them. *)

Variant op :=
  | WatcherStart (h : loc) (cb : Z)
  | WatcherStop (h : loc)
  | TimerStart (h : loc) (cb timeout_ms repeat_ms : Z)
  | TimerStop (h : loc)
  | CloseWatcher (h : loc) (cb : Z)
  | Ref (h : loc)
  | Unref (h : loc)
  | StopLoop.

Section Ops.
Context {Q : Type} `{PriorityQueue Q}.
Context (head : wtype -> loc) (queue : loc).

Implicit Type l : uv_loop (Q := Q).

Definition run_op (o : op) (l : uv_loop (Q := Q)) : option uv_loop :=
  match o with
  | WatcherStart h cb => snd <$> watcher_start head h cb l
  | WatcherStop h => snd <$> watcher_stop h l
  | TimerStart h cb ms rep => snd <$> uv_timer_start h cb ms rep l
  | TimerStop h => snd <$> uv_timer_stop h l
  | CloseWatcher h cb => uv_close h cb l
  | Ref h => uv__handle_ref h l
  | Unref h => uv__handle_unref h l
  | StopLoop => Some (uv_stop l)
  end.

Fixpoint run_ops (os : list op) (l : uv_loop) : option uv_loop :=
  match os with
  | [] => Some l
  | o :: os => l ← run_op o l; run_ops os l
  end.

(** What the code may take for granted: the handles are initialised, the
    numbers have their width, and no handle is closed twice. *)
Definition op_ok (o : op) (l : uv_loop (Q := Q)) : Prop :=
  match o with
  | WatcherStart h _ | WatcherStop h => h ∈ dom (watchers (others l))
  | TimerStart h _ ms rep => h ∈ dom (timers l) /\ word_ok 64 ms /\ word_ok 64 rep
  | TimerStop h => h ∈ dom (timers l)
  | CloseWatcher h _ => exists w, watchers (others l) !! h = Some w /\ uv__is_closing (w_handle w) = false
  | Ref h | Unref h => h ∈ dom (watchers (others l))
  | StopLoop => True
  end.

Fixpoint ops_ok (os : list op) (l : uv_loop) : Prop :=
  match os with
  | [] => True
  | o :: os => op_ok o l /\ forall l', run_op o l = Some l' -> ops_ok os l'
  end.

(** The watcher is stopped or closed. *)
Definition stops (h : loc) (o : op) : Prop := o = WatcherStop h \/ exists cb, o = CloseWatcher h cb.

(** ** The invariant of the watchers

    [R] is what the memory of the nodes means; [t] is the type of the watchers
    that are being run and wait in the local queue. *)
Record watchers_ok (l : uv_loop (Q := Q)) (R : gmap loc (list loc)) (t : wtype) : Prop := {
  w_rings : rings (qnodes (others l)) R;
  w_heads : forall k, exists xs, R !! head k = Some xs;
  w_where : forall h w, watchers (others l) !! h = Some w ->
    if w_active w then exists a xs, R !! a = Some xs /\ h ∈ xs /\ (a = head (w_type w) \/ a = queue)
    else free (qnodes (others l)) R h;
  w_nodes : forall a xs h k, R !! a = Some xs -> h ∈ xs -> a = head k \/ a = queue /\ k = t ->
    exists w, watchers (others l) !! h = Some w /\ w_type w = k /\ w_active w = true;
  w_timers : exists S, timers_ok l S
}.

(** A step keeps what is not stopped in the local queue, in its order. *)
Definition keeps (R R' : gmap loc (list loc)) (stopped : loc -> Prop) : Prop :=
  forall xs, R !! queue = Some xs -> exists xs', R' !! queue = Some xs' /\ xs' `sublist_of` xs /\
    forall h, h ∈ xs -> stopped h \/ h ∈ xs'.

Lemma keeps_refl R stopped : keeps R R stopped.
Proof. intros xs E. exists xs. split; [done|]. split; [done|]. intros. by right. Qed.

Lemma keeps_trans R R' R'' (s s' s'' : loc -> Prop) : (forall h, s h -> s'' h) -> (forall h, s' h -> s'' h) -> keeps R R' s -> keeps R' R'' s' -> keeps R R'' s''.
Proof.
  intros S1 S2 K1 K2 xs E. destruct (K1 xs E) as (xs' & E' & Sb & M). destruct (K2 xs' E') as (xs'' & E'' & Sb' & M').
  exists xs''. split; [done|]. split; [by etrans|]. intros h Hh. destruct (M h Hh) as [?|Hh']; [left; by apply S1|].
  destruct (M' h Hh'); [left; by apply S2|by right].
Qed.

Context (Hhead : forall k k', head k = head k' -> k = k') (Hqueue : forall k, head k <> queue).

(** Only the nodes, the types and the activity of the watchers, and the timers
    matter. *)
Lemma watchers_ok_ext l l' R t :
  qnodes (others l') = qnodes (others l) ->
  (forall h, (fun w => (w_type w, w_active w)) <$> watchers (others l') !! h = (fun w => (w_type w, w_active w)) <$> watchers (others l) !! h) ->
  (forall S, timers_ok l S -> exists S', timers_ok l' S') -> watchers_ok l R t -> watchers_ok l' R t.
Proof.
  intros Em Ew Et [I1 I2 I3 I4 [S I5]]. split; rewrite ?Em; [done..| | |exact (Et S I5)].
  - intros h w' E'. specialize (Ew h). rewrite E' in Ew. destruct (watchers (others l) !! h) as [w|] eqn:E; [|done].
    injection Ew as Et' Ea. rewrite Et', Ea. by apply I3.
  - intros a xs h k Ea Hh Hk. destruct (I4 a xs h k Ea Hh Hk) as (w & E & T & A). specialize (Ew h). rewrite E in Ew.
    destruct (watchers (others l') !! h) as [w'|]; [|done]. injection Ew as Et' Ea'. exists w'. by rewrite Et', Ea'.
Qed.

(** The part of the timers does not see the rest of the loop. *)
Lemma timers_ok_others l l' S : timers l' = timers l -> timer_heap l' = timer_heap l -> time l' = time l -> timer_counter l' = timer_counter l ->
  timers_ok l S -> exists S', timers_ok l' S'.
Proof. intros E1 E2 E3 E4 I. exists S. by apply (timers_ok_ext l l' S). Qed.

(** A watcher with other flags, of the same activity *)
Lemma set_flags_ok l R t h w f : watchers_ok l R t -> watchers (others l) !! h = Some w ->
  w_active (set_w_flags f w) = w_active w -> watchers_ok (set_watcher h (set_w_flags f w) l) R t.
Proof.
  intros I E A. apply (watchers_ok_ext l); [done| | |done].
  - intros a. cbn [others set_watcher set_others watchers with_watchers]. rewrite lookup_insert. case_decide; [subst; by rewrite E; cbn; rewrite A|done].
  - intros S. by apply timers_ok_others.
Qed.

Lemma free_elsewhere m m' R a xs ys h q : free m R q -> R !! a = Some xs -> dom m' = dom m -> (forall x, x ∈ ys -> x ∈ xs \/ x = h) -> q <> h ->
  free m' (<[a := ys]> R) q.
Proof.
  intros [D F] E Dm Sub N. split; [apply elem_of_dom; rewrite Dm; by apply elem_of_dom|].
  intros b zs. rewrite lookup_insert. case_decide as X; [|by apply F]. intros [= <-]. subst b. specialize (F a xs E).
  intros [->|Hq]%elem_of_cons; [apply F; left|]. destruct (Sub q Hq) as [?| ->]; [apply F; by right|done].
Qed.

(** A watcher [h] becomes active in the queue of its type. *)
Lemma activate_ok l l' R t h w w' xs :
  watchers_ok l R t -> watchers (others l) !! h = Some w -> w_active w = false -> R !! head (w_type w) = Some xs ->
  rings (qnodes (others l')) (<[head (w_type w) := h :: xs]> R) -> dom (qnodes (others l')) = dom (qnodes (others l)) ->
  watchers (others l') = <[h := w']> (watchers (others l)) -> w_type w' = w_type w -> w_active w' = true ->
  (exists S, timers_ok l' S) -> watchers_ok l' (<[head (w_type w) := h :: xs]> R) t.
Proof.
  intros [I1 I2 I3 I4 I5] E A Ex Rg Dm Ew Tw Aw Et. split; [done|..|done].
  - intros k. rewrite lookup_insert. case_decide; [by eexists|apply I2].
  - intros a wa. rewrite Ew, lookup_insert. case_decide as X.
    + intros [= <-]. subst a. rewrite Aw, Tw. exists (head (w_type w)), (h :: xs). rewrite lookup_insert_eq. split; [done|]. split; [left|by left].
    + intros Ea. specialize (I3 a wa Ea). destruct (w_active wa).
      * destruct I3 as (b & ys & Eb & Hb & Hk). destruct (decide (b = head (w_type w))) as [->|N].
        -- exists (head (w_type w)), (h :: xs). rewrite lookup_insert_eq. split; [done|]. split; [right; congruence|done].
        -- exists b, ys. by rewrite lookup_insert_ne.
      * apply (free_elsewhere (qnodes (others l)) _ R _ xs _ h); [done..| |congruence]. intros x [->|?]%elem_of_cons; [by right|by left].
  - intros a ys b k. rewrite lookup_insert, Ew. case_decide as X.
    + intros [= <-] Hb Hk. subst a. apply elem_of_cons in Hb as [->|Hb].
      * exists w'. rewrite lookup_insert_eq, Tw. split; [done|]. split; [|done]. destruct Hk as [Hk|[Hk _]]; [by apply Hhead|by destruct (Hqueue (w_type w))].
      * destruct (I4 _ xs b k Ex Hb Hk) as (wb & Eb & Tb & Ab). exists wb. rewrite lookup_insert_ne; [done|]. intros <-. congruence.
    + intros Ea Hb Hk. destruct (I4 a ys b k Ea Hb Hk) as (wb & Eb & Tb & Ab). exists wb. rewrite lookup_insert_ne; [done|]. intros <-. congruence.
Qed.

(** A watcher [h] becomes inactive. *)
Lemma deactivate_ok l l' R t h w w' a (l1 l2 : list loc) :
  watchers_ok l R t -> watchers (others l) !! h = Some w -> R !! a = Some (l1 ++ h :: l2) ->
  rings (qnodes (others l')) (<[a := l1 ++ l2]> R) -> free (qnodes (others l')) (<[a := l1 ++ l2]> R) h -> dom (qnodes (others l')) = dom (qnodes (others l)) ->
  watchers (others l') = <[h := w']> (watchers (others l)) -> w_active w' = false ->
  (exists S, timers_ok l' S) -> watchers_ok l' (<[a := l1 ++ l2]> R) t.
Proof.
  intros [I1 I2 I3 I4 I5] E Ea Rg Fh Dm Ew Aw Et.
  assert (Sub : forall x, x ∈ l1 ++ l2 -> x ∈ l1 ++ h :: l2) by (intros x; rewrite !elem_of_app, elem_of_cons; tauto).
  assert (Nh : forall b ys, <[a := l1 ++ l2]> R !! b = Some ys -> h ∉ ys) by (intros b ys Eb Hb; destruct Fh as [_ F]; apply (F b ys Eb); by right).
  split; [done|..|done].
  - intros k. rewrite lookup_insert. case_decide; [by eexists|apply I2].
  - intros b wb. rewrite Ew, lookup_insert. case_decide as X; [intros [= <-]; subst b; by rewrite Aw|].
    intros Eb. specialize (I3 b wb Eb). destruct (w_active wb).
    + destruct I3 as (c & ys & Ec & Hc & Hk). destruct (decide (c = a)) as [->|N]; [|exists c, ys; by rewrite lookup_insert_ne].
      exists a, (l1 ++ l2). rewrite lookup_insert_eq. split; [done|]. split; [|done]. simplify_eq.
      rewrite elem_of_app, elem_of_cons in Hc. rewrite elem_of_app. naive_solver.
    + apply (free_elsewhere (qnodes (others l)) _ R a (l1 ++ h :: l2) _ h); try done. intros x Hx. left. by apply Sub.
  - intros b ys c k Eb Hc Hk. assert (c <> h) by (intros ->; by apply (Nh b ys Eb)). rewrite Ew, lookup_insert_ne by done.
    rewrite lookup_insert in Eb. case_decide as X; [|by apply (I4 b ys)]. injection Eb as <-. subst b. apply (I4 a (l1 ++ h :: l2)); [done|by apply Sub|done].
Qed.

(** *** The activity flag *)

Lemma active_bit w : w_active w = Z.testbit (w_flags w) 2.
Proof. apply is_active_bit. Qed.

(** Flags that agree with those of [w] in the bit of the activity *)
Lemma same_activity f w : Z.testbit f 2 = Z.testbit (w_flags w) 2 -> w_active (set_w_flags f w) = w_active w.
Proof. intros E. by rewrite !active_bit. Qed.

Lemma lor_bit f k : 0 <= k -> k <> 2 -> Z.testbit (Z.lor f (2 ^ k)) 2 = Z.testbit f 2.
Proof. intros Hk N. rewrite Z.lor_spec, Z.pow2_bits_false by done. apply orb_false_r. Qed.

Lemma unset_bit f k : 0 <= k < 32 -> k <> 2 -> Z.testbit (Z.land f (Z.lxor (2 ^ k) (2 ^ 32 - 1))) 2 = Z.testbit f 2.
Proof.
  intros Hk N. rewrite Z.land_spec, Z.lxor_spec, Z.pow2_bits_false by done. change (2 ^ 32 - 1) with (Z.ones 32).
  rewrite Z.ones_spec_low by lia. apply andb_true_r.
Qed.

(** *** The operations *)

(** What an operation leaves: the invariant for another meaning of the nodes,
    in which only a watcher it stops is missing from the local queue, and the
    same handles *)
Definition stepped (o : op) l (R : gmap loc (list loc)) (t : wtype) l' : Prop :=
  exists R', watchers_ok l' R' t /\ keeps R R' (fun h => stops h o) /\
    dom (watchers (others l')) = dom (watchers (others l)) /\ dom (timers l') = dom (timers l).

Lemma stepped_same o l R t l' : watchers_ok l' R t -> dom (watchers (others l')) = dom (watchers (others l)) -> dom (timers l') = dom (timers l) -> stepped o l R t l'.
Proof. intros I D1 D2. exists R. split; [done|]. split; [apply keeps_refl|done]. Qed.

Lemma set_watcher_dom l h w w' : watchers (others l) !! h = Some w -> dom (watchers (others (set_watcher h w' l))) = dom (watchers (others l)).
Proof. intros E%elem_of_dom_2. cbn [others set_watcher set_others watchers with_watchers]. rewrite dom_insert_L. set_solver. Qed.

Lemma set_active_ok n l R t : watchers_ok l R t -> watchers_ok (set_active_handles n l) R t.
Proof. apply watchers_ok_ext; [done..|]. intros S. by apply timers_ok_others. Qed.

Lemma start_step h cb l R t : watchers_ok l R t -> h ∈ dom (watchers (others l)) ->
  exists l' n, watcher_start head h cb l = Some (n, l') /\ stepped (WatcherStart h cb) l R t l'.
Proof.
  intros I [w E]%elem_of_dom. unfold watcher_start. rewrite E. cbn [mbind option_bind].
  destruct (w_active w) eqn:A; [exists l, 0; split; [done|by apply stepped_same]|].
  destruct (Z.eqb_spec cb 0); [exists l, UV_EINVAL; split; [done|by apply stepped_same]|].
  destruct (w_heads _ _ _ I (w_type w)) as [xs Ex]. pose proof (w_where _ _ _ I h w E) as F. rewrite A in F.
  destruct (rings_insert_head _ _ _ _ _ (w_rings _ _ _ I) Ex F) as (m' & Em & Rg & Dm).
  unfold on_queue. rewrite Em. cbn [mbind option_bind]. set (w1 := mk_watcher (w_type w) (w_flags w) cb).
  unfold watcher_handle_start. cbn [others set_watcher set_others watchers with_watchers with_qnodes]. rewrite lookup_insert_eq. cbn [mbind option_bind].
  assert (A1 : w_active w1 = false) by (by rewrite active_bit in *). rewrite A1. set (w2 := set_w_flags (Z.lor (w_flags w1) UV_HANDLE_ACTIVE) w1).
  set (l2 := set_watcher h w2 _).
  assert (I2 : watchers_ok l2 (<[head (w_type w) := h :: xs]> R) t).
  { apply (activate_ok l l2 R t h w w2 xs); try done.
    - subst l2. cbn [others set_watcher set_others watchers with_watchers with_qnodes]. by rewrite insert_insert_eq.
    - apply (activate_active (w_handle w1)).
    - destruct (w_timers _ _ _ I) as [S It]. by apply (timers_ok_others l l2 S). }
  assert (D2 : dom (watchers (others l2)) = dom (watchers (others l))).
  { subst l2. cbn [others set_watcher set_others watchers with_watchers with_qnodes]. rewrite insert_insert_eq, dom_insert_L.
    apply elem_of_dom_2 in E. set_solver. }
  assert (K : keeps R (<[head (w_type w) := h :: xs]> R) (fun a => stops a (WatcherStart h cb))).
  { intros ys Ey. exists ys. rewrite lookup_insert_ne by apply Hqueue. split; [done|]. split; [done|]. intros. by right. }
  destruct (has_ref (w_handle w1)); eexists _, 0; (split; [reflexivity|]); exists (<[head (w_type w) := h :: xs]> R);
    (split; [first [by apply set_active_ok|done]|done]).
Qed.

(** Where an active watcher is *)
Lemma active_place l R t h w : watchers_ok l R t -> watchers (others l) !! h = Some w -> w_active w = true ->
  exists a (l1 l2 : list loc), R !! a = Some (l1 ++ h :: l2).
Proof.
  intros I E A. pose proof (w_where _ _ _ I h w E) as F. rewrite A in F. destruct F as (a & xs & Ea & Hh & _).
  apply list_elem_of_split in Hh as (l1 & l2 & ->). by exists a, l1, l2.
Qed.

Lemma keeps_remove R a (l1 l2 : list loc) h (stopped : loc -> Prop) : R !! a = Some (l1 ++ h :: l2) -> stopped h -> keeps R (<[a := l1 ++ l2]> R) stopped.
Proof.
  intros Ea Sh xs Ex. destruct (decide (a = queue)) as [->|N]; [|exists xs; rewrite lookup_insert_ne by done; split; [done|]; split; [done|]; intros; by right].
  simplify_eq. exists (l1 ++ l2). rewrite lookup_insert_eq. split; [done|].
  split; [apply sublist_app; [done|by apply sublist_cons]|]. intros b. rewrite !elem_of_app, elem_of_cons. naive_solver.
Qed.

Lemma stop_step o h w l R t : watchers_ok l R t -> watchers (others l) !! h = Some w -> stops h o ->
  exists l' n w', watcher_stop h l = Some (n, l') /\ stepped o l R t l' /\ watchers (others l') !! h = Some w' /\
    forall i, 0 <= i < 32 -> i <> 2 -> Z.testbit (w_flags w') i = Z.testbit (w_flags w) i.
Proof.
  intros I E So. unfold watcher_stop. rewrite E. cbn [mbind option_bind].
  destruct (w_active w) eqn:A; cbn [negb]; [|exists l, 0, w; split; [done|]; split; [by apply stepped_same|done]].
  destruct (active_place _ _ _ _ _ I E A) as (a & l1 & l2 & Ea).
  destruct (rings_remove _ _ _ _ _ _ (w_rings _ _ _ I) Ea) as (m' & Em & Rg & Fr & Dm).
  unfold on_queue. rewrite Em. cbn [mbind option_bind]. unfold watcher_handle_stop. cbn [others set_others watchers with_qnodes]. rewrite E. cbn [mbind option_bind].
  rewrite A. cbn [negb]. set (w2 := set_w_flags _ w). set (l3 := set_watcher h w2 _).
  assert (I3 : watchers_ok l3 (<[a := l1 ++ l2]> R) t).
  { apply (deactivate_ok l l3 R t h w w2 a l1 l2); try done; [apply (deactivate_inactive (w_handle w))|].
    destruct (w_timers _ _ _ I) as [S It]. by apply (timers_ok_others l l3 S). }
  assert (D3 : dom (watchers (others l3)) = dom (watchers (others l))).
  { subst l3. cbn [others set_watcher set_others watchers with_watchers with_qnodes]. rewrite dom_insert_L. apply elem_of_dom_2 in E. set_solver. }
  pose proof (keeps_remove R a l1 l2 h (fun b => stops b o) Ea So) as K.
  assert (E3 : watchers (others l3) !! h = Some w2) by apply lookup_insert_eq.
  destruct (has_ref (w_handle w)); eexists _, 0, w2; (split; [reflexivity|]);
    (split; [|split; [exact E3|intros i; apply (deactivate_bit (w_handle w))]]); exists (<[a := l1 ++ l2]> R);
    (split; [first [by apply set_active_ok|done]|done]).
Qed.

(** Flags that leave the activity alone, and the counter *)
Lemma flags_step o h w f n l R t : watchers_ok l R t -> watchers (others l) !! h = Some w -> Z.testbit f 2 = Z.testbit (w_flags w) 2 ->
  stepped o l R t (set_watcher h (set_w_flags f w) l) /\ stepped o l R t (set_active_handles n (set_watcher h (set_w_flags f w) l)).
Proof.
  intros I E B. assert (I' : watchers_ok (set_watcher h (set_w_flags f w) l) R t) by (apply set_flags_ok; [done..|by apply same_activity]).
  pose proof (set_watcher_dom l h w (set_w_flags f w) E) as D.
  split; apply stepped_same; try done. by apply set_active_ok.
Qed.

Lemma ref_step h l R t : watchers_ok l R t -> h ∈ dom (watchers (others l)) ->
  (exists l', uv__handle_ref h l = Some l' /\ stepped (Ref h) l R t l') /\ exists l', uv__handle_unref h l = Some l' /\ stepped (Unref h) l R t l'.
Proof.
  intros I [w E]%elem_of_dom. unfold uv__handle_ref, uv__handle_unref, handle_flags, set_handle_flags. rewrite E. cbn [mbind option_bind].
  split.
  - destruct (negb _); [exists l; split; [done|by apply stepped_same]|]. cbn [mbind option_bind].
    assert (B : Z.testbit (Z.lor (w_flags w) UV_HANDLE_REF) 2 = Z.testbit (w_flags w) 2) by (by apply (lor_bit _ 3)).
    set (l1 := set_watcher h _ l). destruct (flags_step (Ref h) h w _ (u32 (active_handles l1 + 1)) l R t I E B) as [S1 S2].
    destruct (negb _); [by exists l1|]. destruct (negb _); by eexists.
  - destruct (_ =? 0); [exists l; split; [done|by apply stepped_same]|]. cbn [mbind option_bind].
    assert (B : Z.testbit (Z.land (w_flags w) (Z.lxor UV_HANDLE_REF (2 ^ 32 - 1))) 2 = Z.testbit (w_flags w) 2) by (by apply (unset_bit _ 3)).
    set (l1 := set_watcher h _ l). destruct (flags_step (Unref h) h w _ (u32 (active_handles l1 - 1)) l R t I E B) as [S1 S2].
    destruct (negb _); [by exists l1|]. destruct (negb _); by eexists.
Qed.

(** A handle with the flag CLOSING and not CLOSED goes to the list. *)
Lemma close_pending_spec h w l : watchers (others l) !! h = Some w -> Z.testbit (w_flags w) 0 = true -> Z.testbit (w_flags w) 1 = false ->
  uv__make_close_pending h l = Some (set_others (with_closing (h :: closing_handles (others l)) (others l)) l).
Proof.
  intros E B0 B1. unfold uv__make_close_pending, handle_flags. rewrite E. cbn [mbind option_bind].
  change UV_HANDLE_CLOSING with (2 ^ 0). change UV_HANDLE_CLOSED with (2 ^ 1). by rewrite !land_pow2, B0, B1.
Qed.

Lemma close_step h cb l R t : watchers_ok l R t -> op_ok (CloseWatcher h cb) l ->
  exists l', uv_close h cb l = Some l' /\ stepped (CloseWatcher h cb) l R t l'.
Proof.
  intros I (w & E & C). unfold uv_close, handle_flags at 1, set_handle_flags. rewrite E. cbn [mbind option_bind].
  pose proof C as Cb. rewrite is_closing_bits in Cb. apply orb_false_elim in Cb as [_ Cb]. cbn [flags w_handle] in Cb.
  unfold uv__is_closing, w_handle in C. cbn [flags] in C. rewrite C. cbn [mbind option_bind].
  assert (B : Z.testbit (Z.lor (w_flags w) UV_HANDLE_CLOSING) 2 = Z.testbit (w_flags w) 2) by (by apply (lor_bit _ 0)).
  set (w1 := set_w_flags (Z.lor (w_flags w) UV_HANDLE_CLOSING) w). destruct (flags_step (CloseWatcher h cb) h w _ 0 l R t I E B) as [(R1 & I1 & K1 & D1 & T1) _].
  fold w1 in I1, D1, T1. set (l1 := set_watcher h w1 l) in *. set (l2 := set_others (with_close_cbs _ _) l1).
  assert (E2 : watchers (others l2) !! h = Some w1) by apply lookup_insert_eq. unfold close_handle. rewrite E2.
  assert (I2 : watchers_ok l2 R1 t) by (apply (watchers_ok_ext l1); [done..| |done]; intros S; by apply timers_ok_others).
  destruct (stop_step (CloseWatcher h cb) h w1 l2 R1 t I2 E2) as (l3 & n & w3 & E3 & (R3 & I3 & K3 & D3 & T3) & W3 & F3); [right; by eexists|].
  rewrite E3. cbn [fmap option_fmap option_map snd mbind option_bind]. rewrite (close_pending_spec h w3 l3 W3).
  2: { rewrite F3 by done. cbn [w1 w_flags set_w_flags]. rewrite Z.lor_spec. apply orb_true_r. }
  2: { rewrite F3 by done. cbn [w1 w_flags set_w_flags]. by rewrite Z.lor_spec, Cb. }
  eexists. split; [done|]. exists R3. split; [|split].
  - apply (watchers_ok_ext l3); [done..| |done]. intros S. by apply timers_ok_others.
  - by apply (keeps_trans R R1 R3 _ _ _ (fun a x => x) (fun a x => x)).
  - split; [transitivity (dom (watchers (others l3))); [done|]; rewrite D3; exact D1|]. transitivity (dom (timers l3)); [done|]. rewrite T3. exact T1.
Qed.

Lemma timer_step o l R t l' S : watchers_ok l R t -> others l' = others l -> timers_ok l' S -> dom (timers l') = dom (timers l) -> stepped o l R t l'.
Proof.
  intros I Eo It D. apply stepped_same; [|by rewrite Eo|done]. apply (watchers_ok_ext l); [by rewrite Eo|intros a; by rewrite Eo|intros; by exists S|done].
Qed.

(** The timers' operations leave the rest of the loop alone. *)
Lemma timer_stop_others h l l' n : uv_timer_stop h l = Some (n, l') -> others l' = others l.
Proof.
  unfold uv_timer_stop, uv__handle_stop. intros E. destruct (timers l !! h) as [tm|]; [|done]. cbn [mbind option_bind] in E.
  destruct (negb _); [by injection E as _ <-|]. destruct (pq_remove _ _ _) as [q|]; [|done]. cbn [mbind option_bind timers set_heap] in E.
  destruct (timers l !! h) as [tm'|]; [|done]. cbn [mbind option_bind] in E. destruct (negb _), (has_ref tm'); by injection E as _ <-.
Qed.

Lemma timer_start_others h cb ms rep l l' n : uv_timer_start h cb ms rep l = Some (n, l') -> others l' = others l.
Proof.
  unfold uv_timer_start. intros E. destruct (timers l !! h) as [tm|]; [|done]. cbn [mbind option_bind] in E. destruct (_ || _); [by injection E as _ <-|].
  assert (S : forall l1, (if uv__is_active tm then snd <$> uv_timer_stop h l else Some l) = Some l1 -> others l1 = others l).
  { intros l1 E1. destruct (uv__is_active tm); [|by injection E1 as <-]. destruct (uv_timer_stop h l) as [[n1 l2]|] eqn:E2; [|done].
    injection E1 as <-. exact (timer_stop_others h l l2 n1 E2). }
  destruct (if uv__is_active tm then _ else _) as [l1|]; [|done]. specialize (S l1 eq_refl). cbn [mbind option_bind] in E.
  destruct (timers l1 !! h) as [tm'|]; [|done]. cbn [mbind option_bind timers timer_heap] in E.
  destruct (pq_insert _ _ _) as [q|]; [|done]. cbn [mbind option_bind] in E. unfold uv__handle_start in E. cbn [timers set_heap] in E. rewrite lookup_insert_eq in E.
  cbn [mbind option_bind] in E. destruct (uv__is_active _); [|destruct (has_ref _)]; injection E as _ <-; exact S.
Qed.

Lemma timer_dom l h tm tm' : timers l !! h = Some tm -> dom (<[h := tm']> (timers l)) = dom (timers l).
Proof. apply dom_insert_same. Qed.

Lemma op_step o l R t : watchers_ok l R t -> op_ok o l -> exists l', run_op o l = Some l' /\ stepped o l R t l'.
Proof.
  intros I Ok. destruct o; cbn [run_op op_ok] in *.
  - destruct (start_step h cb l R t I Ok) as (l' & n & -> & S). by exists l'.
  - apply elem_of_dom in Ok as [w E]. destruct (stop_step (WatcherStop h) h w l R t I E ltac:(by left)) as (l' & n & w' & -> & S & _). by exists l'.
  - destruct Ok as ([tm E]%elem_of_dom & W1 & W2). destruct (w_timers _ _ _ I) as [S It].
    destruct (uv__is_closing tm || (cb =? 0)) eqn:C.
    + exists l. unfold uv_timer_start. rewrite E. cbn [mbind option_bind]. rewrite C. split; [done|]. by apply stepped_same.
    + apply orb_false_elim in C as [C Ncb%Z.eqb_neq].
      destruct (start_spec l S h tm cb timeout_ms repeat_ms It E C Ncb W1 W2) as (l' & R' & I' & T & _). rewrite R'. exists l'. split; [done|].
      apply (timer_step _ _ _ _ _ _ I (timer_start_others _ _ _ _ _ _ _ R') I'). rewrite T. by apply (timer_dom l h tm).
  - apply elem_of_dom in Ok as [tm E]. destruct (w_timers _ _ _ I) as [S It].
    destruct (stop_spec l S h tm It E) as (l' & R' & I' & T & _). rewrite R'. exists l'. split; [done|].
    apply (timer_step _ _ _ _ _ _ I (timer_stop_others _ _ _ _ R') I'). rewrite T. destruct (uv__is_active tm); [by apply (timer_dom l h tm)|done].
  - by apply close_step.
  - by apply (ref_step h l R t I Ok).
  - by apply (ref_step h l R t I Ok).
  - exists (uv_stop l). split; [done|]. apply stepped_same; [|done..]. apply (watchers_ok_ext l); [done..| |done]. intros S. by apply timers_ok_others.
Qed.

(** What a program of operations leaves; [s] are the watchers it may stop. *)
Definition ran_ops l (R : gmap loc (list loc)) (t : wtype) l' (s : loc -> Prop) : Prop :=
  exists R', watchers_ok l' R' t /\ keeps R R' s /\ dom (watchers (others l')) = dom (watchers (others l)) /\ dom (timers l') = dom (timers l).

Lemma ops_step os : forall l R t, watchers_ok l R t -> ops_ok os l ->
  exists l', run_ops os l = Some l' /\ ran_ops l R t l' (fun h => exists o, o ∈ os /\ stops h o).
Proof.
  induction os as [|o os IH]; intros l R t I Ok; cbn [run_ops ops_ok] in *.
  - exists l. split; [done|]. exists R. split; [done|]. split; [apply keeps_refl|done].
  - destruct Ok as [Ok Oks]. destruct (op_step o l R t I Ok) as (l1 & E1 & R1 & I1 & K1 & D1 & T1). rewrite E1. cbn [mbind option_bind].
    destruct (IH l1 R1 t I1 (Oks l1 E1)) as (l2 & E2 & R2 & I2 & K2 & D2 & T2). exists l2. split; [done|]. exists R2. split; [done|].
    split; [|split; congruence]. eapply keeps_trans; [| |exact K1|exact K2]; cbn beta.
    + intros h Sh. exists o. split; [left|done].
    + intros h (o' & Ho & Sh). exists o'. split; [by right|done].
Qed.

(** *** The run *)

(** The queues when the head [q] of the local one has moved *)
Definition requeued (R : gmap loc (list loc)) (t : wtype) (q : loc) (xs ys : list loc) : gmap loc (list loc) :=
  <[head t := ys ++ [q]]> (<[queue := xs]> R).

(** Where a node of a queue is then *)
Lemma requeued_to R t q (xs ys : list loc) a zs h : R !! queue = Some (q :: xs) -> R !! head t = Some ys -> R !! a = Some zs -> h ∈ zs ->
  exists b zs', requeued R t q xs ys !! b = Some zs' /\ h ∈ zs' /\ (b = a \/ b = head t /\ a = queue).
Proof.
  intros Eq Ey Ea Hh. unfold requeued. destruct (decide (a = head t)) as [->|Na].
  { exists (head t), (ys ++ [q]). rewrite lookup_insert_eq. rewrite Ey in Ea. injection Ea as <-. split; [done|].
    split; [apply elem_of_app; by left|by left]. }
  destruct (decide (a = queue)) as [->|Nq]; [|exists a, zs; rewrite !lookup_insert_ne by done; split; [done|]; split; [done|by left]].
  rewrite Eq in Ea. injection Ea as <-. apply elem_of_cons in Hh as [->|Hh].
  - exists (head t), (ys ++ [q]). rewrite lookup_insert_eq. split; [done|]. split; [apply elem_of_app; right; left|by right].
  - exists queue, xs. rewrite lookup_insert_ne, lookup_insert_eq by done. split; [done|]. split; [done|by left].
Qed.

(** Where it was *)
Lemma requeued_from R t q (xs ys : list loc) a zs : R !! queue = Some (q :: xs) -> R !! head t = Some ys -> requeued R t q xs ys !! a = Some zs ->
  exists zs', R !! a = Some zs' /\ forall h, h ∈ zs -> h ∈ zs' \/ h = q.
Proof.
  intros Eq Ey. unfold requeued. rewrite !lookup_insert. case_decide; [|case_decide; [|by eauto]].
  - intros [= <-]. subst a. exists ys. split; [done|]. intros h [?|?%list_elem_of_singleton]%elem_of_app; [by left|by right].
  - intros [= <-]. subst a. exists (q :: xs). split; [done|]. intros h Hh. left. by right.
Qed.

(** The head of the local queue moves to the end of the queue of its type. *)
Lemma requeue_ok l R t q (xs : list loc) : watchers_ok l R t -> R !! queue = Some (q :: xs) ->
  exists w l1 l2, watchers (others l) !! q = Some w /\ w_type w = t /\ on_queue (QUEUE_REMOVE q) l = Some l1 /\ on_queue (QUEUE_INSERT_TAIL (head t) q) l1 = Some l2 /\
    watchers (others l2) = watchers (others l) /\ timers l2 = timers l /\
    exists R', watchers_ok l2 R' t /\ R' !! queue = Some xs.
Proof.
  intros I Eq. destruct (w_nodes _ _ _ I queue _ q t Eq (list_elem_of_here _ _) ltac:(by right)) as (w & Ew & Tw & Aw).
  destruct (rings_remove _ _ _ [] q xs (w_rings _ _ _ I) Eq) as (m1 & E1 & Rg1 & F1 & Dm1). cbn [app] in *.
  destruct (w_heads _ _ _ I t) as [ys Ey]. assert (Ey1 : <[queue := xs]> R !! head t = Some ys) by (rewrite lookup_insert_ne; [done|by intros ?%eq_sym%Hqueue]).
  destruct (rings_insert_tail _ _ _ _ _ Rg1 Ey1 F1) as (m2 & E2 & Rg2 & Dm2).
  exists w. unfold on_queue. rewrite E1. cbn [mbind option_bind]. eexists _, _. split; [done|]. split; [done|]. split; [reflexivity|].
  cbn [others set_others qnodes with_qnodes]. rewrite E2. cbn [mbind option_bind]. split; [reflexivity|]. split; [done|]. split; [done|].
  set (R2 := requeued R t q xs ys) in *. exists R2.
  split; [|unfold R2, requeued; rewrite lookup_insert_ne by apply Hqueue; apply lookup_insert_eq].
  pose proof (fun a zs h => requeued_to R t q xs ys a zs h Eq Ey) as Fw. pose proof (fun a zs => requeued_from R t q xs ys a zs Eq Ey) as Bw. fold R2 in Fw, Bw.
  destruct I as [J1 J2 J3 J4 [S It]]. split; cbn [others set_others qnodes watchers with_qnodes timers].
  - exact Rg2.
  - intros k. unfold R2, requeued. rewrite !lookup_insert. repeat case_decide; by eauto.
  - intros h wh Eh. specialize (J3 h wh Eh). destruct (w_active wh) eqn:Ah.
    + destruct J3 as (a & zs & Ea & Hh & Hk). destruct (Fw a zs h Ea Hh) as (b & zs' & Eb & Hb & Hab). exists b, zs'. split; [done|]. split; [done|].
      destruct Hab as [->|[-> ->]]; [done|]. left. f_equal. destruct Hk as [Hk|_]; [by destruct (Hqueue (w_type wh))|].
      destruct (J4 queue zs h t Ea Hh ltac:(by right)) as (w' & E' & T' & _). congruence.
    + destruct J3 as [D F]. split; [apply elem_of_dom; rewrite Dm2, Dm1; by apply elem_of_dom|]. intros b zs Eb [->|Hb]%elem_of_cons.
      * destruct (Bw b zs Eb) as (zs' & Eb' & _). apply (F b zs' Eb'). left.
      * destruct (Bw b zs Eb) as (zs' & Eb' & M). destruct (M h Hb) as [Hh| ->]; [apply (F b zs' Eb'); by right|congruence].
  - intros a zs h k Ea Hh Hk. destruct (Bw a zs Ea) as (zs' & Ea' & M). destruct (M h Hh) as [Hh'| ->]; [by apply (J4 a zs')|].
    destruct Hk as [->|[-> ->]].
    + exists w. split; [done|]. split; [|done]. rewrite Tw. destruct (decide (k = t)) as [->|Nk]; [done|]. exfalso.
      unfold R2, requeued in Ea. rewrite !lookup_insert_ne in Ea; [|by intros ?%eq_sym%Hqueue|by intros ?%Hhead; congruence].
      apply (Hqueue k). symmetry. apply (rings_disj _ _ J1 _ _ _ _ q Eq Ea); [right; left|by right].
    + exists w. done.
  - by apply (timers_ok_others l _ S).
Qed.

(** The queue of a type becomes the local one. *)
Lemma start_run_ok l R t (xs : list loc) : watchers_ok l R t -> R !! head t = Some xs -> free (qnodes (others l)) R queue -> queue ∉ dom (watchers (others l)) ->
  exists l1, on_queue (QUEUE_MOVE (head t) queue) l = Some l1 /\ watchers (others l1) = watchers (others l) /\ timers l1 = timers l /\
    watchers_ok l1 (<[queue := xs]> (<[head t := []]> R)) t.
Proof.
  intros I Ex F Nw. destruct (rings_move _ _ _ _ _ (w_rings _ _ _ I) Ex F) as (m' & Em & Rg & Dm). unfold on_queue. rewrite Em. cbn [mbind option_bind].
  eexists. split; [reflexivity|]. split; [done|]. split; [done|]. destruct I as [J1 J2 J3 J4 [S It]].
  assert (Nq : R !! queue = None) by (destruct (R !! queue) as [zs|] eqn:Eq; [|done]; destruct F as [_ F]; destruct (F queue zs Eq); left).
  split; cbn [others set_others qnodes watchers with_qnodes timers].
  - exact Rg.
  - intros k. rewrite !lookup_insert. repeat case_decide; by eauto.
  - intros h wh Eh. specialize (J3 h wh Eh). destruct (w_active wh).
    + destruct J3 as (a & zs & Ea & Hh & [Hk|Hk]); [|congruence]. destruct (decide (a = head t)) as [X|N].
      * exists queue, xs. rewrite lookup_insert_eq. split; [done|]. split; [congruence|by right].
      * exists a, zs. rewrite !lookup_insert_ne by congruence. split; [done|]. split; [done|by left].
    + destruct J3 as [D Fr]. split; [apply elem_of_dom; rewrite Dm; by apply elem_of_dom|]. intros b zs. rewrite !lookup_insert.
      case_decide; [|case_decide; [|by apply Fr]].
      * intros [= <-] [->|Hh]%elem_of_cons; [|apply (Fr _ _ Ex); by right]. subst b.
        by apply elem_of_dom_2 in Eh.
      * intros [= <-] [->|Hh]%elem_of_cons; [|by apply elem_of_nil in Hh]. apply (Fr _ _ Ex). subst b. left.
  - intros a zs h k. rewrite !lookup_insert. case_decide as X1; [|case_decide as X2].
    + intros [= <-] Hh [Hk|[_ ->]]; [by destruct (Hqueue k); congruence|]. apply (J4 _ xs h t Ex Hh). by left.
    + by intros [= <-] ?%elem_of_nil.
    + intros Ea Hh Hk. by apply (J4 a zs).
  - by apply (timers_ok_others l _ S).
Qed.

(** A callback is a program of operations that may be carried out. *)
Definition call_ops (prog : Z -> loc -> uv_loop (Q := Q) -> list op) (cb : Z) (h : loc) (l : uv_loop) : option uv_loop := run_ops (prog cb h l) l.

Definition prog_ok (prog : Z -> loc -> uv_loop (Q := Q) -> list op) (t : wtype) (ws ts : gset loc) : Prop :=
  forall cb h l R, watchers_ok l R t -> dom (watchers (others l)) = ws -> dom (timers l) = ts -> ops_ok (prog cb h l) l.

(** One of the callbacks of [hs] stops or closes [h]. *)
Definition stopped_by (prog : Z -> loc -> uv_loop (Q := Q) -> list op) (hs : list loc) (h : loc) : Prop :=
  exists cb q l o, q ∈ hs /\ o ∈ prog cb q l /\ stops h o.

Lemma stopped_by_mono prog hs hs' h : (forall q, q ∈ hs -> q ∈ hs') -> stopped_by prog hs h -> stopped_by prog hs' h.
Proof. intros M (cb & q & l & o & Hq & Ho & S). exists cb, q, l, o. split; [by apply M|done]. Qed.

Lemma run_loop_spec prog t ws ts (P : prog_ok prog t ws ts) : forall fuel l R (xs : list loc),
  watchers_ok l R t -> dom (watchers (others l)) = ws -> dom (timers l) = ts -> R !! queue = Some xs -> (length xs < fuel)%nat ->
  exists hs l' R', run_watchers_loop head queue (call_ops prog) fuel t l = Some (hs, l') /\ watchers_ok l' R' t /\ R' !! queue = Some [] /\
    hs `sublist_of` xs /\ (forall h, h ∈ xs -> h ∈ hs \/ stopped_by prog hs h) /\ dom (watchers (others l')) = ws /\ dom (timers l') = ts.
Proof.
  induction fuel as [|fuel IH]; intros l R xs I Dw Dt Eq Fu; [lia|]. cbn [run_watchers_loop].
  rewrite (empty_spec _ _ _ _ (w_rings _ _ _ I) Eq). cbn [mbind option_bind]. destruct xs as [|q xs].
  { rewrite bool_decide_true by done. exists [], l, R. split; [done|]. split; [done|]. split; [done|]. split; [done|].
    split; [|done]. by intros h ?%elem_of_nil. }
  rewrite bool_decide_false by done. rewrite (head_spec _ _ _ _ _ (w_rings _ _ _ I) Eq). cbn [mbind option_bind].
  destruct (requeue_ok l R t q xs I Eq) as (w & l1 & l2 & Ew & _ & E1 & E2 & W2 & T2 & R2 & I2 & Eq2).
  rewrite E1. cbn [mbind option_bind]. rewrite E2. cbn [mbind option_bind]. rewrite W2, Ew. cbn [mbind option_bind].
  change (call_ops prog (w_cb w) q l2) with (run_ops (prog (w_cb w) q l2) l2).
  assert (Ok : ops_ok (prog (w_cb w) q l2) l2) by (apply (P _ _ _ R2); [done|by rewrite W2|by rewrite T2]).
  destruct (ops_step _ l2 R2 t I2 Ok) as (l3 & E3 & R3 & I3 & K3 & D3 & T3). rewrite E3. cbn [mbind option_bind].
  destruct (K3 xs Eq2) as (xs' & Eq3 & Sb & M). cbn [length] in Fu. pose proof (sublist_length _ _ Sb).
  destruct (IH l3 R3 xs' I3 ltac:(congruence) ltac:(congruence) Eq3 ltac:(lia)) as (hs & l' & R' & E' & I' & Eq' & Sb' & M' & D' & T').
  rewrite E'. cbn [mbind option_bind fst snd]. exists (q :: hs), l', R'. split; [done|]. split; [done|]. split; [done|].
  split; [apply sublist_skip; by etrans|]. split; [|done]. intros h [->|Hh]%elem_of_cons; [left; left|].
  destruct (M h Hh) as [(o & Ho & So)|Hh']; [right; exists (w_cb w), q, l2, o; split; [left|done]|].
  destruct (M' h Hh') as [?|S]; [left; by right|right]. eapply stopped_by_mono; [|exact S]. intros; by right.
Qed.

(** The local head goes out of use. *)
Lemma end_run_ok l R t : watchers_ok l R t -> R !! queue = Some [] -> watchers_ok l (delete queue R) t /\ free (qnodes (others l)) (delete queue R) queue.
Proof.
  intros I E. destruct (rings_delete _ _ _ _ (w_rings _ _ _ I) E) as [Rg F]. split; [|apply F; left].
  destruct I as [J1 J2 J3 J4 J5]. split; [done|..|done].
  - intros k. rewrite lookup_delete_ne by (intros ?%eq_sym; by apply (Hqueue k)). apply J2.
  - intros h w Ew. specialize (J3 h w Ew). destruct (w_active w).
    + destruct J3 as (a & xs & Ea & Hh & Hk). exists a, xs. rewrite lookup_delete_ne; [done|]. intros <-. rewrite E in Ea. injection Ea as <-.
      by apply elem_of_nil in Hh.
    + destruct J3 as [D Fr]. split; [done|]. intros b zs [_ Eb]%lookup_delete_Some. by apply Fr.
  - intros a xs h k [_ Ea]%lookup_delete_Some. by apply J4.
Qed.

(** ** The claims *)

(** C14: [uv__run_idle], [uv__run_prepare] and [uv__run_check] with any
    callbacks that start, stop, close, ref and unref watchers, start and stop
    timers and stop the loop.  Of the watchers of the type that are active at
    the start each is called once, in the order of the queue, and none is left
    out but by a callback of the run that stops or closes it; a watcher that a
    callback starts waits for the next iteration, so the run ends.  The
    invariant holds again, and the local queue is out of use. *)
Theorem uv__run_watchers_correct (prog : Z -> loc -> uv_loop (Q := Q) -> list op) (fuel : nat) (t : wtype) (l : uv_loop (Q := Q))
  (R : gmap loc (list loc)) (xs : list loc) (I : watchers_ok l R t) (Ex : R !! head t = Some xs) (F : free (qnodes (others l)) R queue)
  (Nw : queue ∉ dom (watchers (others l))) (P : prog_ok prog t (dom (watchers (others l))) (dom (timers l))) (Fuel : (length xs < fuel)%nat) :
  exists hs l' R', uv__run_watchers head queue (call_ops prog) fuel t l = Some (hs, l') /\
    hs `sublist_of` xs /\ NoDup hs /\ (forall h, h ∈ xs -> h ∈ hs \/ stopped_by prog hs h) /\
    watchers_ok l' R' t /\ free (qnodes (others l')) R' queue /\
    dom (watchers (others l')) = dom (watchers (others l)) /\ dom (timers l') = dom (timers l).
Proof.
  destruct (start_run_ok l R t xs I Ex F Nw) as (l1 & E1 & W1 & T1 & I1). unfold uv__run_watchers. rewrite E1. cbn [mbind option_bind].
  destruct (run_loop_spec prog t _ _ P fuel l1 _ xs I1 ltac:(by rewrite W1) ltac:(by rewrite T1) (lookup_insert_eq _ _ _) Fuel)
    as (hs & l' & R' & E' & I' & Eq & Sb & M & D & T). destruct (end_run_ok l' R' t I' Eq) as [I2 F2].
  exists hs, l', (delete queue R'). split; [done|]. split; [done|].
  split; [|done]. eapply sublist_NoDup; [|exact Sb]. pose proof (rings_nodup _ _ (w_rings _ _ _ I) _ _ Ex) as Nd. by apply NoDup_cons in Nd as [_ Nd].
Qed.
End Ops.

(** ** A loop that only has timers *)
Section Quiet.
Context {Q : Type} `{PriorityQueue Q} {Env : Type}.
Context (head : wtype -> loc) (pending_queue queue : loc).
Context (now : Env -> Z) (tick : Env -> Env).
Context (poll : Z -> uv_loop (Q := Q) -> Env -> option (uv_loop (Q := Q) * Env)).

Implicit Type l : uv_loop (Q := Q).

(** Callbacks that do nothing to the loop *)
Definition quiet (_ : Z) (_ : loc) (l : uv_loop (Q := Q)) : option (uv_loop (Q := Q)) := Some l.

(** Nothing but timers is active: the queues of the watchers and of pending
    callbacks are empty, nothing is being closed and no request is open. *)
Record calm (R : gmap loc (list loc)) (r : rest) : Prop := {
  calm_rings : rings (qnodes r) R;
  calm_heads : forall k, R !! head k = Some [];
  calm_pending : R !! pending_queue = Some [];
  calm_local : free (qnodes r) R queue;
  calm_closing : closing_handles r = [];
  calm_reqs : active_reqs r = 0;
  calm_stop : stop_flag r = 0
}.

(** The active timers, which are referenced and do not repeat, are what the
    loop counts. *)
Record counted (l : uv_loop (Q := Q)) (S : gset loc) : Prop := {
  counted_ok : timers_ok l S;
  counted_size : active_handles l = Z.of_nat (size S);
  counted_once : forall h tm, h ∈ S -> timers l !! h = Some tm -> repeat tm = 0 /\ has_ref tm = true
}.

Lemma counted_ext l l' S : timers l' = timers l -> timer_heap l' = timer_heap l -> time l' = time l -> timer_counter l' = timer_counter l ->
  active_handles l' = active_handles l -> counted l S -> counted l' S.
Proof. intros E1 E2 E3 E4 E5 [I1 I2 I3]. split; [by apply (timers_ok_ext l)|congruence|]. intros h tm Hh. rewrite E1. by apply I3. Qed.

Lemma counted_set_time n l S : word_ok 64 n -> counted l S -> counted (set_time n l) S.
Proof. intros W [[J1 J2 J3 (J4 & J5) J6] I2 I3]. split; [|done|done]. split; try done. Qed.

(** The phases of the watchers only write the local head. *)
Lemma quiet_watchers R l k fuel : calm R (others l) ->
  exists r, uv__run_watchers head queue quiet (S fuel) k l = Some ([], set_others r l) /\ calm R r.
Proof.
  intros I. pose proof (calm_local _ _ I) as F. destruct (rings_move _ _ _ _ _ (calm_rings _ _ I) (calm_heads _ _ I k) F) as (m' & Em & Rg & Dm).
  rewrite (insert_id R) in Rg by apply (calm_heads _ _ I k).
  assert (Nq : R !! queue = None) by (destruct (R !! queue) as [zs|] eqn:Eq; [|done]; destruct F as [_ F]; destruct (F queue zs Eq); left).
  unfold uv__run_watchers, on_queue. rewrite Em. cbn [mbind option_bind run_watchers_loop others set_others qnodes with_qnodes].
  rewrite (empty_spec _ _ _ _ Rg (lookup_insert_eq _ _ _)). cbn [mbind option_bind]. rewrite bool_decide_true by done.
  exists (with_qnodes m' (others l)). split; [done|].
  destruct (rings_delete _ _ _ _ Rg (lookup_insert_eq _ _ _)) as [Rg' F']. rewrite delete_insert_id in Rg', F' by done.
  destruct I. split; try done. apply F'. left.
Qed.

Lemma quiet_pending R l fuel : calm R (others l) -> uv__run_pending pending_queue queue quiet fuel l = Some (false, l).
Proof.
  intros I. unfold uv__run_pending. rewrite (empty_spec _ _ _ _ (calm_rings _ _ I) (calm_pending _ _ I)). cbn [mbind option_bind].
  by rewrite bool_decide_true.
Qed.

Lemma quiet_closing R l : calm R (others l) -> exists r, uv__run_closing_handles quiet l = Some (set_others r l) /\ calm R r.
Proof.
  intros I. unfold uv__run_closing_handles. rewrite (calm_closing _ _ I). exists (with_closing [] (others l)). split; [done|].
  destruct I. by split.
Qed.

(** Fired timers are no longer counted. *)
Lemma quiet_timers fuel : forall l S hs l', counted l S -> time l < UINT64_MAX -> uv__run_timers quiet fuel l = Some (hs, l') ->
  others l' = others l /\ exists S', counted l' S'.
Proof.
  induction fuel as [|fuel IH]; intros l S hs l' I Tl E; [done|]. cbn [uv__run_timers] in E. pose proof (counted_ok _ _ I) as It.
  pose proof (pq_min_law _ _ _ (ok_queue _ _ It)) as M. destruct (pq_min (timer_heap l)) as [h|]; [|injection E as _ <-; eauto].
  destruct M as [Hh _]. destruct (ok_mem l S h It Hh) as (tm & Eh & A). rewrite Eh in E. cbn [mbind option_bind] in E.
  destruct (time l <? timeout tm); [injection E as _ <-; eauto|]. destruct (counted_once _ _ I h tm Hh Eh) as [Rp Rf].
  destruct (ok_open _ _ It h tm Hh Eh) as (C & Ncb & _). destruct (stop_spec l S h tm It Eh) as (l1 & E1 & I1 & T1 & Tm1 & Tc1 & _ & A1).
  pose proof (timer_stop_others h l l1 0 E1) as O1. rewrite E1 in E. cbn [mbind option_bind snd] in E. rewrite A in T1, A1. rewrite Rf in A1. cbn [andb] in A1.
  assert (L1 : timers l1 !! h = Some (deactivate tm)) by (rewrite T1; apply lookup_insert_eq).
  destruct (again_spec l1 _ h (deactivate tm) I1 L1 Ncb ltac:(by destruct (deactivate_other tm) as [_ ->])) as (l2 & E2 & _ & R2).
  cbn [repeat deactivate with_flags] in R2. rewrite Rp in R2. cbn [Z.eqb] in R2. subst l2. rewrite E2 in E. cbn [mbind option_bind snd] in E.
  rewrite L1 in E. cbn [mbind option_bind quiet] in E. destruct (uv__run_timers quiet fuel l1) as [[hs' l3]|] eqn:E3; [|done].
  injection E as _ <-. rewrite <- O1. apply (IH l1 (S ∖ {[h]}) hs' l3); [|congruence|done].
  split; [done| |].
  - assert (Hs : (0 < size S)%nat) by (apply Nat.neq_0_lt_0; intros ?%size_empty_inv; set_solver). pose proof (ok_size _ _ It).
    rewrite A1, (counted_size _ _ I), size_difference, size_singleton by set_solver. rewrite wrap_small by (unfold word_ok; lia). lia.
  - intros a ta [Ha Na]%elem_of_difference. rewrite T1, lookup_insert_ne by set_solver. by apply I.
Qed.

(** *** One iteration *)

Definition timers_set (S : gset loc) l (P : timer -> Prop) : Prop := forall h tm, h ∈ S -> timers l !! h = Some tm -> P tm.

(** Between two iterations: [S] are the active timers, in a loop that has
    nothing else. *)
Record ready (R : gmap loc (list loc)) (S : gset loc) l : Prop := {
  ready_counted : counted l S;
  ready_calm : calm R (others l);
  ready_finite : timers_set S l (fun tm => timeout tm < UINT64_MAX)
}.

(** What an iteration at the time [n] leaves: it fires [hs], the timers that are due *)
Record iterated (n : Z) (S : gset loc) l (hs : list loc) (S' : gset loc) l' : Prop := {
  it_nodup : NoDup hs;
  it_due : forall h tm, h ∈ S -> timers l !! h = Some tm -> h ∈ hs <-> timeout tm <= n;
  it_order : StronglySorted (fires_before l) hs;
  it_split : forall h, h ∈ S <-> h ∈ hs \/ h ∈ S';
  it_apart : forall h, h ∈ hs -> h ∈ S' -> False;
  it_rest : forall h, h ∉ hs -> timers l' !! h = timers l !! h;
  it_fired : forall h tm, h ∈ hs -> timers l' !! h = Some tm -> uv__is_active tm = false
}.

Context (Clock : forall e, 0 <= now e < UINT64_MAX) (Tick : forall e, now e <= now (tick e)).
Context (Poll : forall ms l e, 0 <= ms -> exists n e', poll ms l e = Some (set_time n l, e') /\ word_ok 64 n /\
  Z.min (now e + ms) (UINT64_MAX - 1) <= now e').

Lemma alive_counted R S l : ready R S l -> uv__loop_alive l = bool_decide (S <> ∅).
Proof.
  intros [I C _]. unfold uv__loop_alive, uv__has_active_handles, uv__has_active_reqs. rewrite (counted_size _ _ I), (calm_reqs _ _ C), (calm_closing _ _ C).
  rewrite (bool_decide_true ([] = [])) by done. cbn [negb]. rewrite !orb_false_r. destruct (decide (S = ∅)) as [->|N].
  - rewrite bool_decide_false by auto. by rewrite size_empty.
  - rewrite bool_decide_true by done. apply Z.ltb_lt. enough (size S <> 0%nat) by lia. by intros ?%size_empty_inv%leibniz_equiv.
Qed.

(** The timeout of the poll: none without timers, and else at most the time
    to the first of those that are not due *)
Lemma quiet_timeout R S l : ready R S l -> timers_set S l (fun tm => time l < timeout tm) ->
  exists ms, uv_backend_timeout head pending_queue l = Some ms /\ 0 <= ms /\ (S <> ∅ -> 0 < ms).
Proof.
  intros [I C _] L. unfold uv_backend_timeout, uv__has_active_reqs, uv__has_active_handles.
  rewrite (empty_spec _ _ _ _ (calm_rings _ _ C) (calm_heads _ _ C UV_IDLE)), (empty_spec _ _ _ _ (calm_rings _ _ C) (calm_pending _ _ C)).
  rewrite (calm_stop _ _ C), (calm_reqs _ _ C), (calm_closing _ _ C), (counted_size _ _ I). cbn [mbind option_bind].
  rewrite !bool_decide_true by done. cbn [negb Z.eqb Z.ltb Z.compare andb].
  destruct (Z.ltb_spec 0 (Z.of_nat (size S))) as [P|P]; cbn [negb andb].
  2: { exists 0. split; [done|]. split; [done|]. intros N. destruct N. apply leibniz_equiv, size_empty_inv. lia. }
  pose proof (next_timeout_spec l S (counted_ok _ _ I)) as N. destruct (uv__next_timeout l) as [w|]; [|done]. exists w. split; [done|].
  destruct N as [[-> ->]|(h & tm & Hh & E & -> & _)]; [by rewrite size_empty in P|]. specialize (L h tm Hh E). cbn beta in L. unfold INT_MAX. lia.
Qed.

Lemma ran_iterated S l hs S' l' : counted l S -> counted l' S' -> ran l l' hs -> iterated (time l) S l hs S' l'.
Proof.
  intros I I' Rn. pose proof (counted_ok _ _ I) as K. pose proof (counted_ok _ _ I') as K'.
  assert (Hin : forall h, h ∈ hs -> h ∈ S) by (intros h (tm & E & A & _)%(ran_due _ _ _ Rn); apply (ok_active _ _ K); eauto).
  assert (Off : forall h tm, h ∈ hs -> timers l' !! h = Some tm -> uv__is_active tm = false).
  { intros h tm Hh E. pose proof (proj1 (ran_due _ _ _ Rn h) Hh) as Dh. destruct (ok_mem _ _ h K (Hin h Hh)) as (t0 & E0 & _).
    destruct (ran_fired _ _ _ Rn h t0 E0 Dh) as (t1 & E1 & _ & _ & F). destruct (counted_once _ _ I h t0 (Hin h Hh) E0) as [Rp _].
    rewrite Rp in F. cbn [Z.eqb] in F. congruence. }
  assert (Rest : forall h, h ∉ hs -> timers l' !! h = timers l !! h) by (intros h Nh; apply (ran_rest _ _ _ Rn); by rewrite <- (ran_due _ _ _ Rn)).
  split; [exact (ran_nodup _ _ _ Rn)| |exact (ran_order _ _ _ Rn)| | |done|done].
  - intros h tm Hh E. rewrite (ran_due _ _ _ Rn). destruct (ok_mem _ _ h K Hh) as (tm' & E' & A). split.
    + intros (t2 & E2 & _ & L). congruence.
    + intros L. exists tm. split; [done|]. split; [congruence|done].
  - intros h. destruct (decide (h ∈ hs)) as [Hh|Nh]; [split; [by left|by intros; apply Hin]|].
    rewrite (ok_active _ _ K), (ok_active _ _ K'), (Rest h Nh). naive_solver.
  - intros h Hh Hs. apply (ok_active _ _ K') in Hs as (tm & E & A). by rewrite (Off h tm Hh E) in A.
Qed.

Lemma iterated_later n S l hs S' l' : iterated n S l hs S' l' -> timers_set S l (fun tm => timeout tm < UINT64_MAX) ->
  timers_set S' l' (fun tm => n < timeout tm /\ timeout tm < UINT64_MAX).
Proof.
  intros It B h tm Hh E. assert (Nh : h ∉ hs) by (intros X; by apply (it_apart _ _ _ _ _ _ It h)). rewrite (it_rest _ _ _ _ _ _ It h Nh) in E.
  assert (HS : h ∈ S) by (apply (it_split _ _ _ _ _ _ It); by right). split; [|by apply (B h tm)].
  destruct (Z.lt_ge_cases n (timeout tm)); [done|]. destruct Nh. by apply (it_due _ _ _ _ _ _ It h tm HS E).
Qed.

Lemma run_once_spec R S l e fuel : ready R S l -> (size S < Datatypes.S fuel)%nat ->
  exists hs l' e' S', uv_run_once head pending_queue queue now tick poll quiet (Datatypes.S fuel) UV_RUN_DEFAULT l e = Some (hs, l', e') /\
    ready R S' l' /\ iterated (now e) S l hs S' l' /\ (S' <> ∅ -> now e < now e').
Proof.
  intros [I C B] Fu. unfold uv_run_once, uv__update_time. pose proof (Clock e) as Ce. set (l0 := set_time (now e) l).
  assert (Tl0 : time l0 < UINT64_MAX) by exact (proj2 Ce).
  assert (I0 : counted l0 S) by (apply counted_set_time; [unfold word_ok, UINT64_MAX in *; lia|done]).
  assert (Sz : (size (due_set l0) <= size S)%nat).
  { apply subseteq_size. intros h (tm & E & A & _)%elem_of_due_set. apply (ok_active _ _ (counted_ok _ _ I0)). eauto. }
  destruct (run_spec quiet (fun cb h l => ex_intro _ l (conj eq_refl (conj eq_refl (conj eq_refl (conj eq_refl eq_refl))))) (Datatypes.S fuel) l0 S (due_set l0)
    (counted_ok _ _ I0) Tl0 (elem_of_due_set l0) ltac:(lia)) as (hs & l1 & S0 & E1 & _ & Rn).
  destruct (quiet_timers _ _ _ _ _ I0 Tl0 E1) as (O1 & S1 & I1). rewrite E1. cbn [mbind option_bind].
  assert (C1 : calm R (others l1)) by (by rewrite O1).
  rewrite (quiet_pending _ _ _ C1). cbn [mbind option_bind].
  destruct (quiet_watchers _ _ UV_IDLE fuel C1) as (r2 & E2 & C2). rewrite E2. cbn [mbind option_bind]. set (l2 := set_others r2 l1) in *.
  destruct (quiet_watchers _ l2 UV_PREPARE fuel C2) as (r3 & E3 & C3). rewrite E3. cbn [mbind option_bind]. set (l3 := set_others r3 l2) in *.
  assert (It : iterated (now e) S l hs S1 l1) by (destruct (ran_iterated S l0 hs S1 l1 I0 I1 Rn); by split).
  pose proof (iterated_later _ _ _ _ _ _ It B) as Later.
  assert (Y3 : ready R S1 l3).
  { split; [by apply (counted_ext l1)|done|]. intros h tm Hh E. by apply (Later h tm). }
  destruct (quiet_timeout R S1 l3 Y3) as (ms & E4 & P1 & P2).
  { intros h tm Hh E. change (time l3) with (time l1). rewrite (ran_time _ _ _ Rn). by apply (Later h tm). }
  rewrite E4. cbn [mbind option_bind]. destruct (Poll ms l3 (tick e) P1) as (n & e' & E5 & Wn & Adv). rewrite E5. cbn [mbind option_bind].
  destruct (quiet_watchers R (set_time n l3) UV_CHECK fuel C3) as (r6 & E6 & C6). rewrite E6. cbn [mbind option_bind]. set (l6 := set_others r6 _).
  destruct (quiet_closing R l6 C6) as (r7 & E7 & C7). rewrite E7. cbn [mbind option_bind]. rewrite !app_nil_r.
  exists hs, (set_others r7 l6), e', S1. split; [done|]. split; [|split].
  - split; [|done|].
    + apply (counted_ext (set_time n l1)); [done..|]. by apply counted_set_time.
    + intros h tm Hh E. by apply (Later h tm).
  - destruct It. by split.
  - intros N. specialize (P2 N). apply set_choose_L in N as [h Hh]. destruct (ok_mem _ _ h (counted_ok _ _ I1) Hh) as (tm & E & _).
    pose proof (Later h tm Hh E) as Lt. cbn beta in Lt. pose proof (Tick e). lia.
Qed.

(** *** All iterations *)

Lemma sorted_app l (hs hs' : list loc) : StronglySorted (fires_before l) hs -> StronglySorted (fires_before l) hs' ->
  (forall a b, a ∈ hs -> b ∈ hs' -> fires_before l a b) -> StronglySorted (fires_before l) (hs ++ hs').
Proof.
  intros S1 S2 M. induction S1 as [|a hs S1 IH F]; [done|]. cbn [app]. constructor.
  - apply IH. intros b c Hb. apply M. by right.
  - rewrite Forall_forall in F |- *. intros b [Hb|Hb]%elem_of_app; [by apply F|]. apply M; [left|done].
Qed.

(** What is due is before what is not. *)
Lemma due_first n S l hs S' l' a b : iterated n S l hs S' l' -> counted l S -> a ∈ hs -> b ∈ S' -> fires_before l a b.
Proof.
  intros It I Ha Hb. pose proof (counted_ok _ _ I) as K. destruct (it_split _ _ _ _ _ _ It a) as [_ Sa]. destruct (it_split _ _ _ _ _ _ It b) as [_ Sb].
  destruct (ok_mem _ _ a K (Sa ltac:(by left))) as (ta & Ea & _). destruct (ok_mem _ _ b K (Sb ltac:(by right))) as (tb & Eb & _).
  pose proof (proj1 (it_due _ _ _ _ _ _ It a ta (Sa ltac:(by left)) Ea) Ha) as La.
  assert (Lb : ~ timeout tb <= n).
  { intros L. apply (it_apart _ _ _ _ _ _ It b); [|done]. by apply (it_due _ _ _ _ _ _ It b tb (Sb ltac:(by right)) Eb). }
  unfold fires_before, timer_less_than, key. rewrite Ea, Eb.
  rewrite (proj2 (Z.ltb_ge (timeout tb) (timeout ta))), (proj2 (Z.ltb_lt (timeout ta) (timeout tb))) by lia. done.
Qed.

Lemma run_loop_fires R fuel : forall rounds S l e, ready R S l -> (size S < Datatypes.S fuel)%nat -> (S <> ∅ -> (0 < rounds)%nat) ->
  timers_set S l (fun tm => timeout tm < now e + Z.of_nat rounds) ->
  exists hs l' e', uv_run_loop head pending_queue queue now tick poll quiet rounds (Datatypes.S fuel) UV_RUN_DEFAULT (uv__loop_alive l) l e = Some (false, hs, l', e') /\
    NoDup hs /\ (forall h, h ∈ hs <-> h ∈ S) /\ StronglySorted (fires_before l) hs /\ ready R ∅ l'.
Proof.
  induction rounds as [|rounds IH]; intros S l e Y Fu Rs T; pose proof (ready_calm _ _ _ Y) as C; cbn [uv_run_loop]; rewrite (calm_stop _ _ C), (alive_counted _ _ _ Y);
    (destruct (decide (S = ∅)) as [->|N]; [rewrite bool_decide_false by auto; cbn [andb]; exists [], l, e;
       split; [done|]; split; [constructor|]; split; [set_solver|]; split; [constructor|done]|]).
  { specialize (Rs N). lia. }
  rewrite bool_decide_true by done. cbn [andb Z.eqb].
  destruct (run_once_spec R S l e fuel Y Fu) as (hs & l1 & e1 & S1 & E1 & Y1 & It & Adv). rewrite E1. cbn [mbind option_bind].
  pose proof (iterated_later _ _ _ _ _ _ It (ready_finite _ _ _ Y)) as Later.
  assert (T1 : timers_set S1 l1 (fun tm => timeout tm < now e + Z.of_nat (Datatypes.S rounds))).
  { intros h tm Hh E. apply (T h); [apply (it_split _ _ _ _ _ _ It); by right|].
    rewrite <- (it_rest _ _ _ _ _ _ It h); [done|]. intros X. by apply (it_apart _ _ _ _ _ _ It h). }
  assert (Sz : (size S1 <= size S)%nat) by (apply subseteq_size; intros h Hh; apply (it_split _ _ _ _ _ _ It); by right).
  destruct (IH S1 l1 e1 Y1 ltac:(lia)) as (hs' & l' & e' & E' & Nd & M & So & Y').
  { intros N1. specialize (Adv N1). apply set_choose_L in N1 as [h Hh]. destruct (ok_mem _ _ h (counted_ok _ _ (ready_counted _ _ _ Y1)) Hh) as (tm & E & _).
    pose proof (Later h tm Hh E) as L1. pose proof (T1 h tm Hh E) as L2. cbn beta in L1, L2. lia. }
  { intros h tm Hh E. assert (N1 : S1 <> ∅) by set_solver. specialize (Adv N1). pose proof (T1 h tm Hh E) as L2. cbn beta in L2. lia. }
  rewrite E'. cbn [mbind option_bind]. exists (hs ++ hs'), l', e'. split; [done|]. split; [|split; [|split; [|done]]].
  - apply NoDup_app. split; [exact (it_nodup _ _ _ _ _ _ It)|]. split; [|done]. intros h Hh Hh'%M. by apply (it_apart _ _ _ _ _ _ It h).
  - intros h. rewrite elem_of_app, M, (it_split _ _ _ _ _ _ It h). done.
  - apply sorted_app; [exact (it_order _ _ _ _ _ _ It)| |].
    + apply (sorted_ext l l1); [|done]. intros h Hh%M. unfold key. rewrite (it_rest _ _ _ _ _ _ It h); [done|]. intros X. by apply (it_apart _ _ _ _ _ _ It h).
    + intros a b Ha Hb%M. by apply (due_first _ _ _ _ _ _ _ _ It (ready_counted _ _ _ Y)).
Qed.

(** C13: A loop with active timers only, which are referenced and do not
    repeat, and with callbacks that do nothing: [uv_run] in the
    default mode returns, with 0, after it has fired every timer, each once and
    in the order of their expiry and their start.  No timer is active then, and
    the loop is not alive.  This takes as many iterations at most as
    milliseconds pass to the last expiry, provided that the clock does not go
    back and that the poll waits for as long as it is told to: then each
    iteration that leaves timers active ends later than it began. *)
Theorem uv_run_fires_all (rounds fuel : nat) (R : gmap loc (list loc)) (S : gset loc) (l : uv_loop (Q := Q)) (e : Env)
  (Y : ready R S l) (Fu : (size S < fuel)%nat) (Rs : (0 < rounds)%nat)
  (T : forall h tm, h ∈ S -> timers l !! h = Some tm -> timeout tm < now e + Z.of_nat rounds) :
  exists hs l' e', uv_run head pending_queue queue now tick poll quiet rounds fuel UV_RUN_DEFAULT l e = Some (false, hs, l', e') /\
    NoDup hs /\ (forall h, h ∈ hs <-> h ∈ S) /\ StronglySorted (by_expiry l) hs /\
    (forall h tm, timers l' !! h = Some tm -> uv__is_active tm = false) /\ uv__loop_alive l' = false.
Proof.
  assert (Done : forall l', ready R ∅ l' -> (forall h tm, timers l' !! h = Some tm -> uv__is_active tm = false) /\ uv__loop_alive l' = false).
  { intros l' Y'. split; [|rewrite (alive_counted _ _ _ Y'); by rewrite bool_decide_false by auto].
    intros h tm E. destruct (uv__is_active tm) eqn:A; [|done].
    assert (X : h ∈ (∅ : gset loc)) by (apply (ok_active _ _ (counted_ok _ _ (ready_counted _ _ _ Y'))); eauto). by apply elem_of_empty in X. }
  destruct fuel as [|fuel]; [lia|]. unfold uv_run. pose proof (alive_counted _ _ _ Y) as Al.
  assert (Go : forall l1 e1, ready R S l1 -> uv__loop_alive l1 = uv__loop_alive l -> timers l1 = timers l ->
    timers_set S l1 (fun tm => timeout tm < now e1 + Z.of_nat rounds) -> exists hs l' e',
    (s ← uv_run_loop head pending_queue queue now tick poll quiet rounds (Datatypes.S fuel) UV_RUN_DEFAULT (uv__loop_alive l) l1 e1;
     let '(r, log, l', e') := s in Some (r, log, if negb (stop_flag (others l') =? 0) then set_others (with_stop_flag 0 (others l')) l' else l', e')) = Some (false, hs, l', e') /\
    NoDup hs /\ (forall h, h ∈ hs <-> h ∈ S) /\ StronglySorted (by_expiry l) hs /\
    (forall h tm, timers l' !! h = Some tm -> uv__is_active tm = false) /\ uv__loop_alive l' = false).
  { intros l1 e1 Y1 <- Et T1. destruct (run_loop_fires R fuel rounds S l1 e1 Y1 Fu (fun _ => Rs) T1) as (hs & l' & e' & E & Nd & M & So & Y'). rewrite E. cbn [mbind option_bind].
    rewrite (calm_stop _ _ (ready_calm _ _ _ Y')). cbn [Z.eqb negb]. exists hs, l', e'. split; [done|]. split; [done|]. split; [done|].
    split; [|by apply Done]. apply sorted_by_expiry, (sorted_ext l l1); [by rewrite Et|done]. }
  destruct (uv__loop_alive l) eqn:A; cbn [uv__update_time]; apply Go; try done.
  - destruct Y as [Y1 Y2 Y3]. split; [|done|done]. apply counted_set_time; [|done]. pose proof (Clock e). unfold word_ok, UINT64_MAX in *. lia.
  - apply eq_sym, bool_decide_eq_false in Al. intros h tm Hh. destruct Al. set_solver.
Qed.
End Quiet.

(** ** An example: the queues of a loop at 1 to 5 and three idle watchers *)

Definition example_head (t : wtype) : loc :=
  match t with UV_PREPARE => 1%positive | UV_CHECK => 2%positive | UV_IDLE => 3%positive end.
#[local] Notation example_pending := 4%positive.
#[local] Notation example_queue := 5%positive.

Lemma example_head_inj k k' : example_head k = example_head k' -> k = k'.
Proof. by destruct k, k'. Qed.

Lemma example_head_queue k : example_head k <> example_queue.
Proof. by destruct k. Qed.

Definition example_nodes : qmem :=
  list_to_map [(1, (1, 1)); (2, (2, 2)); (3, (6, 7)); (4, (4, 4)); (5, (9, 9)); (6, (7, 3)); (7, (3, 6)); (8, (9, 9))]%positive.

Definition example_rings : gmap loc (list loc) := list_to_map [(1, []); (2, []); (3, [6; 7]); (4, [])]%positive.

(** The watchers 6 and 7 are active and 8 is not. *)
Definition example_watchers : gmap loc watcher :=
  list_to_map [(6, mk_watcher UV_IDLE 12 1); (7, mk_watcher UV_IDLE 12 2); (8, mk_watcher UV_IDLE 8 0)]%positive.

Definition example_loop : uv_loop (Q := heap) :=
  mk_loop 100 0 2 [6; 7; 8]%positive (mk_heap None 0 ∅) ∅ (mk_rest example_nodes example_watchers ∅ [] ∅ 0 0).

(** The callback of 6 stops 7 and starts 8. *)
Definition example_prog (cb : Z) (_ : loc) (_ : uv_loop (Q := heap)) : list op :=
  if cb =? 1 then [WatcherStop 7%positive; WatcherStart 8%positive 3] else [].

Example example_run :
  fst <$> uv__run_watchers example_head example_queue (call_ops example_head example_prog) 3 UV_IDLE example_loop = Some [6]%positive.
Proof. vm_compute. reflexivity. Qed.

(** The cases of a lookup in a map that is given by its list *)
#[local] Ltac map_cases E :=
  apply elem_of_list_to_map_2 in E; repeat (apply elem_of_cons in E as [E|E]; [injection E as -> ->|]); [..|by apply elem_of_nil in E].

Lemma example_rings_ok : rings example_nodes example_rings.
Proof.
  assert (Nd : forall h xs, example_rings !! h = Some xs -> NoDup (h :: xs) /\ forall x, x ∈ xs -> x ∉ dom example_rings).
  { intros h xs E. map_cases E; (split; [apply (bool_decide_unpack _); vm_compute; done|]); apply Forall_forall, (bool_decide_unpack _); vm_compute; done. }
  split.
  - intros h xs E. map_cases E; vm_compute; done.
  - intros h xs E. by apply Nd.
  - intros h xs h' xs' x E E'. destruct (Nd h xs E) as [N D], (Nd h' xs' E') as [N' D']. apply elem_of_dom_2 in E as De, E' as De'.
    intros [->|X]%elem_of_cons [->|X']%elem_of_cons; [done|by destruct (D' h)|by destruct (D h')|].
    map_cases E; map_cases E'; first [done|by apply elem_of_nil in X|by apply elem_of_nil in X'].
Qed.

Lemma empty_timers_ok (t c n : Z) (hs : list loc) (r : rest) : word_ok 64 t -> word_ok 64 c -> timers_ok (mk_loop t c n hs (mk_heap None 0 ∅) ∅ r) ∅.
Proof.
  intros Wt Wc. split.
  - exact (is_heap_init _ (mk_heap None 0 ∅)).
  - intros h. split; [set_solver|]. by intros (tm & E & _).
  - set_solver.
  - split; [done|]. split; [done|]. by intros h tm E.
  - cbn [timers]. rewrite dom_empty_L, size_empty. lia.
Qed.

Lemma example_free (h : loc) : h ∈ dom example_nodes -> bool_decide (h ∉ dom example_rings /\ h ∉ [6; 7]%positive) = true -> free example_nodes example_rings h.
Proof.
  intros D B. apply bool_decide_eq_true in B as [B1 B2]. split; [by apply elem_of_dom|]. intros a xs E [->|X]%elem_of_cons.
  - by apply elem_of_dom_2 in E.
  - map_cases E; first [done|by apply elem_of_nil in X].
Qed.

Lemma example_watchers_ok : watchers_ok example_head example_queue example_loop example_rings UV_IDLE.
Proof.
  split.
  - exact example_rings_ok.
  - intros k. destruct k; by eexists.
  - intros h w E. cbn [others example_loop watchers] in E. map_cases E; cbn [w_active].
    + exists 3%positive, [6; 7]%positive. split; [done|]. split; [left|by left].
    + exists 3%positive, [6; 7]%positive. split; [done|]. split; [right; left|by left].
    + apply example_free; [apply (bool_decide_unpack _)|]; vm_compute; done.
  - intros a xs h k E Hh Hk. map_cases E; try (by apply elem_of_nil in Hh). assert (k = UV_IDLE) as -> by (destruct Hk as [Hk|[_ ->]]; [by destruct k|done]).
    apply elem_of_cons in Hh as [->|[->|Hh]%elem_of_cons]; [by eexists|by eexists|by apply elem_of_nil in Hh].
  - exists ∅. by apply empty_timers_ok.
Qed.

Lemma example_prog_ok : prog_ok example_head example_queue example_prog UV_IDLE (dom (watchers (others example_loop))) (dom (timers example_loop)).
Proof.
  intros cb h l R I D T. unfold example_prog. destruct (cb =? 1); [|done]. cbn [ops_ok op_ok]. rewrite D.
  split; [apply (bool_decide_unpack _); vm_compute; done|]. intros l' E.
  destruct (op_step example_head example_queue example_head_inj example_head_queue (WatcherStop 7%positive) l R UV_IDLE I) as (l2 & E2 & R2 & _ & _ & D2 & _).
  { cbn [op_ok]. rewrite D. apply (bool_decide_unpack _). vm_compute. done. }
  rewrite E in E2. injection E2 as <-. split; [|done]. rewrite D2, D. apply (bool_decide_unpack _). vm_compute. done.
Qed.

Lemma uv__run_watchers_correct_witness : exists hs l' R',
  uv__run_watchers example_head example_queue (call_ops example_head example_prog) 3 UV_IDLE example_loop = Some (hs, l') /\
  hs `sublist_of` [6; 7]%positive /\ watchers_ok example_head example_queue l' R' UV_IDLE.
Proof.
  destruct (uv__run_watchers_correct example_head example_queue example_head_inj example_head_queue example_prog 3 UV_IDLE example_loop example_rings [6; 7]%positive
    example_watchers_ok eq_refl) as (hs & l' & R' & E & Sb & _ & _ & I & _).
  - apply example_free; [apply (bool_decide_unpack _)|]; vm_compute; done.
  - intros X%(bool_decide_pack _). vm_compute in X. done.
  - exact example_prog_ok.
  - cbn [length]. lia.
  - exists hs, l', R'. split; [exact E|]. split; [exact Sb|exact I].
Defined.

(** *** A loop with two timers, the second of which is due first *)

Definition quiet_nodes : qmem := list_to_map [(1, (1, 1)); (2, (2, 2)); (3, (3, 3)); (4, (4, 4)); (5, (9, 9))]%positive.

Definition quiet_rings : gmap loc (list loc) := list_to_map [(1, []); (2, []); (3, []); (4, [])]%positive.

Definition quiet_rest : rest := mk_rest quiet_nodes ∅ ∅ [] ∅ 0 0.

Definition no_timers : uv_loop (Q := heap) :=
  mk_loop 100 0 0 [10; 11]%positive (mk_heap None 0 ∅) (list_to_map [(10, idle_timer); (11, idle_timer)]%positive) quiet_rest.

Definition two_timers : uv_loop (Q := heap) := and_start (and_start no_timers 10%positive 10 0) 11%positive 3 0.

(** The world is a number of milliseconds; the clock stops at its greatest
    value. *)
Definition example_now (e : Z) : Z := Z.max 0 (Z.min e (UINT64_MAX - 1)).

Definition example_poll (ms : Z) (l : uv_loop (Q := heap)) (e : Z) : option (uv_loop (Q := heap) * Z) :=
  Some (set_time (example_now (example_now e + ms)) l, example_now e + ms).

Example two_timers_run :
  (fun r => (r.1.1.1, r.1.1.2, r.2)) <$>
    uv_run example_head example_pending example_queue example_now (Z.add 1) example_poll quiet 20 3 UV_RUN_DEFAULT two_timers 100 =
  Some (false, [11; 10]%positive, 112).
Proof. vm_compute. reflexivity. Qed.

Lemma no_timers_ok : timers_ok no_timers ∅.
Proof.
  assert (T : forall h tm, timers no_timers !! h = Some tm -> tm = idle_timer) by (intros h tm E; cbn [timers no_timers] in E; by map_cases E).
  split.
  - exact (is_heap_init _ (mk_heap None 0 ∅)).
  - intros h. split; [set_solver|]. by intros (tm & ->%T & A).
  - set_solver.
  - split; [done|]. split; [done|]. by intros h tm ->%T.
  - vm_compute. reflexivity.
Qed.

Lemma two_timers_ok : timers_ok two_timers {[11; 10]}%positive.
Proof.
  assert (E : ({[11; 10]}%positive : gset loc) = {[11%positive]} ∪ ({[10%positive]} ∪ ∅)) by set_solver. rewrite E. unfold two_timers.
  eapply and_start_ok; [|vm_compute; reflexivity|done..].
  eapply and_start_ok; [|vm_compute; reflexivity|done..].
  exact no_timers_ok.
Qed.

Lemma two_timers_known h tm : h ∈ ({[11; 10]}%positive : gset loc) -> timers two_timers !! h = Some tm -> repeat tm = 0 /\ has_ref tm = true /\ timeout tm <= 110.
Proof. intros [->%elem_of_singleton| ->%elem_of_singleton]%elem_of_union E; vm_compute in E; injection E as <-; done. Qed.

Lemma quiet_rings_ok : rings quiet_nodes quiet_rings /\ free quiet_nodes quiet_rings example_queue.
Proof.
  assert (Nil : forall h xs, quiet_rings !! h = Some xs -> xs = []) by (intros h xs E; by map_cases E).
  split; [split|split; [by eexists|]].
  - intros h xs E. map_cases E; vm_compute; done.
  - intros h xs ->%Nil. apply NoDup_singleton.
  - by intros h xs h' xs' x ->%Nil ->%Nil ->%list_elem_of_singleton ->%list_elem_of_singleton.
  - intros h xs E. by map_cases E; intros X%list_elem_of_singleton.
Qed.

Lemma two_timers_ready : ready example_head example_pending example_queue quiet_rings {[11; 10]}%positive two_timers.
Proof.
  destruct quiet_rings_ok as [Rg F]. split.
  - split; [exact two_timers_ok|vm_compute; reflexivity|]. intros h tm Hh E. destruct (two_timers_known h tm Hh E) as (? & ? & _). done.
  - split; try done. by intros [].
  - intros h tm Hh E. destruct (two_timers_known h tm Hh E) as (_ & _ & L). unfold UINT64_MAX. lia.
Qed.

Lemma uv_run_fires_all_witness : exists hs l' e',
  uv_run example_head example_pending example_queue example_now (Z.add 1) example_poll quiet 20 3 UV_RUN_DEFAULT two_timers 100 = Some (false, hs, l', e') /\
  forall h, h ∈ hs <-> h ∈ ({[11; 10]}%positive : gset loc).
Proof.
  destruct (uv_run_fires_all example_head example_pending example_queue example_now (Z.add 1) example_poll
    ltac:(unfold example_now, UINT64_MAX; lia) ltac:(unfold example_now, UINT64_MAX; lia)
    ltac:(intros ms l e P; exists (example_now (example_now e + ms)), (example_now e + ms); split; [done|]; unfold word_ok, example_now, UINT64_MAX; lia)
    20 3 quiet_rings {[11; 10]}%positive two_timers 100 two_timers_ready) as (hs & l' & e' & E & _ & M & _).
  - apply Nat.ltb_lt. vm_compute. reflexivity.
  - lia.
  - intros h tm Hh E. destruct (two_timers_known h tm Hh E) as (_ & _ & L). change (example_now 100) with 100. lia.
  - exists hs, l', e'. split; [exact E|exact M].
Defined.
