(* ===== verification/PbStream.v ===== *)
(** * Protocol Buffers on the wire: the streams of nanopb

    The input and output streams of [pb_decode.c] and [pb_encode.c] and the
    wire primitives on them: varints, fixed-width words, tags, strings,
    substreams and the skipping of fields.  A stream's [state] belongs to its
    callback, which is a class ([Reader], [Writer]); [buf_read] and [buf_write]
    are the instances the library brings, and the theorems hold for every
    callback that keeps the contract of [pb_decode.h] and [pb_encode.h]
    ([ReaderLaws], [WriterLaws]).  A function that returns [bool] is an [SE]
    program on the stream; [None] is [false]. *)

From Stdlib Require Import ZArith Lia ZifyNat List Bool.
From S2P Require Import Prelude.
Import ListNotations.

#[local] Open Scope se_scope.

(** ** Definitions *)

(** The constant strings [errmsg] points to *)
Inductive message :=
  | end_of_stream | io_error | varint_overflow | invalid_wire_type | parent_stream_too_short
  | stream_full | invalid_data_size | integer_too_large | bytes_overflow | size_too_large
  | string_overflow | bytes_size_exceeded | incorrect_fixed_length_bytes_size
  | array_max_size_exceeded | missing_required_field | callback_error | invalid_field_type
  | invalid_field_descriptor | submsg_size_changed | array_overflow | callback_failed | invalid_union_tag
  | iterator_error | wrong_size_for_fixed_count_field | too_many_array_entries | invalid_size | realloc_failed.

(** [pb_wire_type_t]; a tag can hold other values. *)
Definition PB_WT_VARINT : Z := 0.
Definition PB_WT_64BIT : Z := 1.
Definition PB_WT_STRING : Z := 2.
Definition PB_WT_32BIT : Z := 5.

Record pb_istream_t (St : Type) := mk_istream { state : St; bytes_left : Z; errmsg : option message }.
Arguments mk_istream {St}.
Arguments state {St}.
Arguments bytes_left {St}.
Arguments errmsg {St}.

(** [stream->callback]; [is_buf_read] is [stream->callback == buf_read]. *)
Class Reader (St : Type) := {
  read_callback : Z -> SE (pb_istream_t St) (list Z);
  is_buf_read : bool
}.

(** [callback] is [None] for NULL, a stream that only counts. *)
Record pb_ostream_t (St : Type) := mk_ostream {
  sizing : bool; o_state : St; max_size : Z; bytes_written : Z; o_errmsg : option message
}.
Arguments mk_ostream {St}.
Arguments sizing {St}.
Arguments o_state {St}.
Arguments max_size {St}.
Arguments bytes_written {St}.
Arguments o_errmsg {St}.

Class Writer (St : Type) := { write_callback : list Z -> SE (pb_ostream_t St) unit }.

(** [PB_SET_ERROR]: the first message stays. *)
Definition set_error (e : option message) (msg : message) : option message :=
  match e with
  | Some _ => e
  | None => Some msg
  end.

(** Memory streams.  The state of an input stream is the memory from its
    pointer on, the state of an output stream what was written before its
    pointer. *)
Definition buf_read (count : Z) : SE (pb_istream_t (list Z)) (list Z) := fun s =>
  (Some (firstn (Z.to_nat count) (state s)),
   mk_istream (skipn (Z.to_nat count) (state s)) (bytes_left s) (errmsg s)).

#[export] Instance buf_reader : Reader (list Z) := {| read_callback := buf_read; is_buf_read := true |}.

Definition pb_istream_from_buffer (buf : list Z) (bufsize : Z) : pb_istream_t (list Z) :=
  mk_istream buf bufsize None.

Definition buf_write (buf : list Z) : SE (pb_ostream_t (list Z)) unit := fun s =>
  (Some tt, mk_ostream (sizing s) (o_state s ++ buf) (max_size s) (bytes_written s) (o_errmsg s)).

#[export] Instance buf_writer : Writer (list Z) := {| write_callback := buf_write |}.

Definition pb_ostream_from_buffer (bufsize : Z) : pb_ostream_t (list Z) := mk_ostream false [] bufsize 0 None.

(** [PB_OSTREAM_SIZING] *)
Definition PB_OSTREAM_SIZING {St} (st : St) : pb_ostream_t St := mk_ostream true st 0 0 None.

(** *** Input *)
Section Input.
Context {St : Type} `{Reader St}.

(** [PB_RETURN_ERROR] *)
Definition PB_RETURN_ERROR {A} (msg : message) : SE (pb_istream_t St) A := fun s =>
  (None, mk_istream (state s) (bytes_left s) (set_error (errmsg s) msg)).

Definition with_left (n : Z) (s : pb_istream_t St) : pb_istream_t St := mk_istream (state s) n (errmsg s).

(** The part of [pb_read] that calls the callback *)
Definition read_checked (count : Z) : SE (pb_istream_t St) (list Z) :=
  s <- get ;;
  if bytes_left s <? count then PB_RETURN_ERROR end_of_stream
  else fun s =>
    match read_callback count s with
    | (None, s) => PB_RETURN_ERROR io_error s
    | (Some bytes, s) => (Some bytes, with_left (size_t (bytes_left s - count)) s)
    end.

(** Skip the input sixteen bytes at a time. *)
Fixpoint skip_chunks (fuel : nat) (count : Z) : SE (pb_istream_t St) (list Z) :=
  match fuel with
  | O => fail
  | S fuel =>
      if 16 <? count then read_checked 16 ;;; skip_chunks fuel (count - 16)
      else if count =? 0 then ret [] else read_checked count
  end.

(** [pb_read]; [null] is [buf == NULL], and the bytes are then dropped. *)
Definition pb_read (null : bool) (count : Z) : SE (pb_istream_t St) (list Z) :=
  if count =? 0 then ret []
  else if null && negb is_buf_read then skip_chunks (S (Z.to_nat (count / 16))) count
  else read_checked count.

Definition pb_readbyte : SE (pb_istream_t St) Z :=
  s <- get ;;
  if bytes_left s =? 0 then PB_RETURN_ERROR end_of_stream
  else fun s =>
    match read_callback 1 s with
    | (None, s) => PB_RETURN_ERROR io_error s
    | (Some bytes, s) => (Some (at_ bytes 0), with_left (size_t (bytes_left s - 1)) s)
    end.

(** The loop over the bytes of a varint from the second on; [uint_fast8_t] has
    eight bits. *)
Fixpoint varint32_loop (fuel : nat) (result bitpos : Z) : SE (pb_istream_t St) Z :=
  match fuel with
  | O => fail
  | S fuel =>
      byte <- pb_readbyte ;;
      result <-
        (if 32 <=? bitpos then
           let sign_extension := if bitpos <? 63 then 255 else 1 in
           if negb (Z.land byte 127 =? 0) && ((Z.shiftr result 31 =? 0) || negb (byte =? sign_extension))
           then PB_RETURN_ERROR varint_overflow else ret result
         else ret (Z.lor result (u32 (Z.shiftl (Z.land byte 127) bitpos)))) ;;
      let bitpos := u8 (bitpos + 7) in
      if negb (Z.land byte 128 =? 0) then varint32_loop fuel result bitpos
      else if (bitpos =? 35) && negb (Z.land byte 112 =? 0) then PB_RETURN_ERROR varint_overflow
      else ret result
  end.

(** [pb_decode_varint32_eof]: the state is the stream and [*eof].  The loop
    reads a byte in every round, so the bytes of the stream are enough fuel. *)
Definition pb_decode_varint32_eof : SE (pb_istream_t St * bool) Z := fun '(s, eof) =>
  match pb_readbyte s with
  | (None, s) => (None, (s, if bytes_left s =? 0 then true else eof))
  | (Some byte, s) =>
      let (r, s) :=
        (if Z.land byte 128 =? 0 then ret byte
         else varint32_loop (S (Z.to_nat (bytes_left s))) (Z.land byte 127) 7) s in
      (r, (s, eof))
  end.

Definition pb_decode_varint32 : SE (pb_istream_t St) Z := fun s =>
  let (r, se) := pb_decode_varint32_eof (s, false) in (r, fst se).

Fixpoint varint_loop (fuel : nat) (result bitpos : Z) : SE (pb_istream_t St) Z :=
  match fuel with
  | O => fail
  | S fuel =>
      if 64 <=? bitpos then PB_RETURN_ERROR varint_overflow
      else
        byte <- pb_readbyte ;;
        let result := Z.lor result (u64 (Z.shiftl (Z.land byte 127) bitpos)) in
        let bitpos := u8 (bitpos + 7) in
        if negb (Z.land byte 128 =? 0) then varint_loop fuel result bitpos else ret result
  end.

(** [pb_decode_varint]: the eleventh round fails. *)
Definition pb_decode_varint : SE (pb_istream_t St) Z := varint_loop 11 0 0.

Fixpoint skip_varint_loop (fuel : nat) : SE (pb_istream_t St) unit :=
  match fuel with
  | O => fail
  | S fuel =>
      byte <- pb_read false 1 ;;
      if negb (Z.land (at_ byte 0) 128 =? 0) then skip_varint_loop fuel else ret tt
  end.

Definition pb_skip_varint : SE (pb_istream_t St) unit :=
  s <- get ;; skip_varint_loop (S (Z.to_nat (bytes_left s))).

Definition pb_skip_string : SE (pb_istream_t St) unit :=
  length <- pb_decode_varint32 ;;
  pb_read true length ;;;
  ret tt.

(** [pb_decode_tag] returns the tag and the wire type. *)
Definition pb_decode_tag : SE (pb_istream_t St * bool) (Z * Z) := fun '(s, _) =>
  match pb_decode_varint32_eof (s, false) with
  | (None, se) => (None, se)
  | (Some temp, (s, eof)) =>
      if temp =? 0 then (None, (s, true))
      else (Some (Z.shiftr temp 3, Z.land temp 7), (s, eof))
  end.

Definition pb_skip_field (wire_type : Z) : SE (pb_istream_t St) unit :=
  if wire_type =? PB_WT_VARINT then pb_skip_varint
  else if wire_type =? PB_WT_64BIT then pb_read true 8 ;;; ret tt
  else if wire_type =? PB_WT_STRING then pb_skip_string
  else if wire_type =? PB_WT_32BIT then pb_read true 4 ;;; ret tt
  else PB_RETURN_ERROR invalid_wire_type.

(** The bytes of a varint, at most [fuel] *)
Fixpoint raw_varint_loop (fuel : nat) : SE (pb_istream_t St) (list Z) :=
  match fuel with
  | O => fail
  | S fuel =>
      byte <- pb_read false 1 ;;
      if negb (Z.land (at_ byte 0) 128 =? 0) then rest <- raw_varint_loop fuel ;; ret (byte ++ rest)
      else ret byte
  end.

(** [read_raw_value] returns the bytes; their number is [*size]. *)
Definition read_raw_value (wire_type max_size : Z) : SE (pb_istream_t St) (list Z) :=
  if wire_type =? PB_WT_VARINT then raw_varint_loop (Z.to_nat max_size)
  else if wire_type =? PB_WT_64BIT then pb_read false 8
  else if wire_type =? PB_WT_32BIT then pb_read false 4
  else PB_RETURN_ERROR invalid_wire_type.

(** Returns the substream. *)
Definition pb_make_string_substream : SE (pb_istream_t St) (pb_istream_t St) :=
  size <- pb_decode_varint32 ;;
  s <- get ;;
  if bytes_left s <? size then PB_RETURN_ERROR parent_stream_too_short
  else put (with_left (size_t (bytes_left s - size)) s) ;;; ret (with_left size s).

Definition pb_close_string_substream (substream : pb_istream_t St) : SE (pb_istream_t St) unit := fun s =>
  match (if negb (bytes_left substream =? 0) then pb_read true (bytes_left substream) else ret []) substream with
  | (None, _) => (None, s)
  | (Some _, substream) => (Some tt, mk_istream (state substream) (bytes_left s) (errmsg substream))
  end.

(** An [int64_t] is a [Z]. *)
Definition pb_decode_svarint : SE (pb_istream_t St) Z :=
  value <- pb_decode_varint ;;
  ret (sint 64 (if negb (Z.land value 1 =? 0) then Z.lxor (Z.shiftr value 1) UINT64_MAX else Z.shiftr value 1)).

Definition pb_decode_fixed32 : SE (pb_istream_t St) Z :=
  bytes <- pb_read false 4 ;;
  ret (Z.lor (Z.lor (Z.lor (Z.shiftl (at_ bytes 0) 0) (Z.shiftl (at_ bytes 1) 8))
                    (Z.shiftl (at_ bytes 2) 16)) (Z.shiftl (at_ bytes 3) 24)).

Definition pb_decode_fixed64 : SE (pb_istream_t St) Z :=
  bytes <- pb_read false 8 ;;
  ret (Z.lor (Z.lor (Z.lor (Z.lor (Z.lor (Z.lor (Z.lor
    (Z.shiftl (at_ bytes 0) 0) (Z.shiftl (at_ bytes 1) 8)) (Z.shiftl (at_ bytes 2) 16)) (Z.shiftl (at_ bytes 3) 24))
    (Z.shiftl (at_ bytes 4) 32)) (Z.shiftl (at_ bytes 5) 40)) (Z.shiftl (at_ bytes 6) 48)) (Z.shiftl (at_ bytes 7) 56)).

Definition pb_dec_bool : SE (pb_istream_t St) bool :=
  value <- pb_decode_varint32 ;; ret (negb (value =? 0)).
End Input.

(** *** Output *)
Section Output.
Context {St : Type} `{Writer St}.

Definition o_error {A} (msg : message) : SE (pb_ostream_t St) A := fun s =>
  (None, mk_ostream (sizing s) (o_state s) (max_size s) (bytes_written s) (set_error (o_errmsg s) msg)).

(** [stream->bytes_written += count] *)
Definition count_written (count : Z) : SE (pb_ostream_t St) unit := fun s =>
  (Some tt, mk_ostream (sizing s) (o_state s) (max_size s) (size_t (bytes_written s + count)) (o_errmsg s)).

Definition pb_write (buf : list Z) (count : Z) : SE (pb_ostream_t St) unit :=
  s <- get ;;
  if (0 <? count) && negb (sizing s) then
    if (size_t (bytes_written s + count) <? bytes_written s) || (max_size s <? size_t (bytes_written s + count))
    then o_error stream_full
    else fun s =>
      match write_callback (firstn (Z.to_nat count) buf) s with
      | (None, s) => o_error io_error s
      | (Some _, s) => count_written count s
      end
  else count_written count.

(** The 7-bit groups of a value, the least significant first *)
Fixpoint varint_groups (fuel : nat) (value : Z) : list Z :=
  match fuel with
  | O => []
  | S fuel => if value =? 0 then [] else u8 (Z.lor (Z.land value 127) 128) :: varint_groups fuel (Z.shiftr value 7)
  end.

(** A 64-bit value has at most ten groups. *)
Definition pb_encode_varint (value : Z) : SE (pb_ostream_t St) unit :=
  if value <=? 127 then pb_write [u8 value] 1
  else
    let buffer := varint_groups 10 value in
    let i := Z.of_nat (length buffer) in
    pb_write (set_nth (Z.to_nat (i - 1)) (Z.land (at_ buffer (i - 1)) 127) buffer) i.

Definition pb_encode_svarint (value : Z) : SE (pb_ostream_t St) unit :=
  pb_encode_varint
    (if value <? 0 then Z.lxor (u64 (Z.shiftl (u64 value) 1)) UINT64_MAX else u64 (Z.shiftl value 1)).

Definition pb_encode_fixed32 (val : Z) : SE (pb_ostream_t St) unit :=
  pb_write [u8 (Z.land val 255); u8 (Z.land (Z.shiftr val 8) 255);
            u8 (Z.land (Z.shiftr val 16) 255); u8 (Z.land (Z.shiftr val 24) 255)] 4.

Definition pb_encode_fixed64 (val : Z) : SE (pb_ostream_t St) unit :=
  pb_write [u8 (Z.land val 255); u8 (Z.land (Z.shiftr val 8) 255);
            u8 (Z.land (Z.shiftr val 16) 255); u8 (Z.land (Z.shiftr val 24) 255);
            u8 (Z.land (Z.shiftr val 32) 255); u8 (Z.land (Z.shiftr val 40) 255);
            u8 (Z.land (Z.shiftr val 48) 255); u8 (Z.land (Z.shiftr val 56) 255)] 8.

Definition pb_encode_tag (wiretype field_number : Z) : SE (pb_ostream_t St) unit :=
  pb_encode_varint (Z.lor (u64 (Z.shiftl field_number 3)) wiretype).

Definition pb_encode_string (buffer : list Z) (size : Z) : SE (pb_ostream_t St) unit :=
  pb_encode_varint size ;;; pb_write buffer size.
End Output.

(** A trial run: field 5, the string "hi", written and read. *)
Example string_field_bytes :
  o_state (snd ((pb_encode_tag PB_WT_STRING 5 ;;; pb_encode_string [104; 105] 2) (pb_ostream_from_buffer 8)))
  = [42; 2; 104; 105].
Proof. vm_compute. reflexivity. Qed.

Example string_field_skipped :
  (let (r, se) := pb_decode_tag (pb_istream_from_buffer [42; 2; 104; 105; 7] 5, false) in
   (r, bytes_left (snd (pb_skip_field PB_WT_STRING (fst se))))) = (Some (5, 2), 1).
Proof. vm_compute. reflexivity. Qed.

(** ** Groups of seven bits *)

(** The value of a varint, whatever its length *)
Fixpoint leb_val (bs : list Z) : Z :=
  match bs with
  | [] => 0
  | b :: bs => b mod 128 + 128 * leb_val bs
  end.

(** All bytes but the last have bit 7 set. *)
Fixpoint is_varint (bs : list Z) : Prop :=
  match bs with
  | [] => False
  | [b] => 0 <= b < 128
  | b :: bs => 128 <= b < 256 /\ is_varint bs
  end.

(** The shortest varint of a value below [128 ^ fuel] *)
Fixpoint leb_bytes (fuel : nat) (v : Z) : list Z :=
  match fuel with
  | O => []
  | S fuel => if v <? 128 then [v] else v mod 128 + 128 :: leb_bytes fuel (v / 128)
  end.

Definition varint (v : Z) : list Z := leb_bytes 10 v.

Lemma is_varint_cons b bs : bs <> [] -> is_varint (b :: bs) <-> 128 <= b < 256 /\ is_varint bs.
Proof. destruct bs; [congruence|reflexivity]. Qed.

Lemma is_varint_pos bs : is_varint bs -> (0 < length bs)%nat.
Proof. destruct bs; cbn; [tauto|lia]. Qed.

Lemma is_varint_bytes bs : is_varint bs -> bytes_ok bs.
Proof.
  induction bs as [|b bs IH]; [intros []|]. destruct bs as [|c bs]; [cbn; intros; constructor; [unfold word_ok; lia|constructor]|].
  intros [Hb Hbs]. constructor; [unfold word_ok; lia|auto].
Qed.

Lemma leb_val_bound bs : 0 <= leb_val bs < 128 ^ Z.of_nat (length bs).
Proof.
  induction bs as [|b bs IH]; cbn [leb_val length]; [lia|].
  rewrite Nat2Z.inj_succ, Z.pow_succ_r by lia. pose proof (Z.mod_pos_bound b 128). lia.
Qed.

Lemma leb_bytes_spec fuel : forall v, 0 <= v < 128 ^ Z.of_nat fuel -> (0 < fuel)%nat ->
  is_varint (leb_bytes fuel v) /\ leb_val (leb_bytes fuel v) = v /\ (length (leb_bytes fuel v) <= fuel)%nat.
Proof.
  induction fuel as [|fuel IH]; intros v Hv Hf; [lia|]. cbn [leb_bytes].
  destruct (Z.ltb_spec v 128) as [L|L].
  - cbn [is_varint leb_val length]. rewrite Z.mod_small by lia. repeat split; lia.
  - rewrite Nat2Z.inj_succ, Z.pow_succ_r in Hv by lia.
    assert (0 < fuel)%nat by (destruct fuel; [cbn in Hv|]; lia).
    destruct (IH (v / 128)) as (G & E & Ln); [lia_div|assumption|].
    assert (leb_bytes fuel (v / 128) <> []) by (destruct fuel; [lia|]; cbn; destruct (_ <? _); discriminate).
    rewrite is_varint_cons by assumption. cbn [leb_val length]. rewrite E. repeat split; try lia_div. assumption.
Qed.

Lemma varint_spec v : word_ok 64 v -> is_varint (varint v) /\ leb_val (varint v) = v /\ (length (varint v) <= 10)%nat.
Proof. unfold word_ok. intros. apply leb_bytes_spec; [|lia]. change (128 ^ Z.of_nat 10) with (2 ^ 70). lia. Qed.

(** What the encoder builds: groups with bit 7 set, cleared in the last. *)
Lemma varint_groups_last fuel : forall v, 0 < v < 128 ^ Z.of_nat fuel ->
  set_nth (length (varint_groups fuel v) - 1) (Z.land (nth (length (varint_groups fuel v) - 1) (varint_groups fuel v) 0) 127)
    (varint_groups fuel v) = leb_bytes fuel v.
Proof.
  induction fuel as [|fuel IH]; intros v Hv; [cbn in Hv; lia|]. cbn [varint_groups leb_bytes].
  destruct (Z.eqb_spec v 0); [lia|].
  assert (E : u8 (Z.lor (Z.land v 127) 128) = v mod 128 + 128).
  { change 127 with (2 ^ 7 - 1). rewrite land_mask by lia. rewrite Z.lor_comm. change 128 with (Z.shiftl 1 7) at 1.
    change (2 ^ 7) with 128. rewrite shiftl_lor_add by (pose proof (Z.mod_pos_bound v 128); lia).
    rewrite wrap_small; [lia|unfold word_ok]. pose proof (Z.mod_pos_bound v 128). lia. }
  rewrite E, Z.shiftr_div_pow2 by lia. change (2 ^ 7) with 128.
  rewrite Nat2Z.inj_succ, Z.pow_succ_r in Hv by lia. destruct (Z.ltb_spec v 128) as [L|L].
  - rewrite (Z.div_small v 128) by lia. replace (varint_groups fuel 0) with (@nil Z) by (destruct fuel; reflexivity).
    cbn [length Nat.sub nth set_nth]. rewrite (Z.mod_small v 128) by lia. change 127 with (2 ^ 7 - 1). rewrite land_mask by lia.
    f_equal. change (2 ^ 7) with 128. lia_div.
  - assert (Hd : 0 < v / 128 < 128 ^ Z.of_nat fuel) by lia_div. specialize (IH (v / 128) Hd).
    destruct (varint_groups fuel (v / 128)) as [|g gs] eqn:Eg.
    + destruct fuel; [cbn in Hd; lia|]. cbn in Eg. destruct (Z.eqb_spec (v / 128) 0); [lia|discriminate].
    + cbn [length Nat.sub nth set_nth] in *. rewrite Nat.sub_0_r in IH. rewrite <- IH. reflexivity.
Qed.

(** ** Reading *)

(** The contract of an input callback: it delivers the next bytes of its
    source and leaves the stream's own fields alone. *)
Class ReaderLaws (St : Type) `{Reader St} := {
  pending : St -> list Z;
  read_law : forall n s, 0 <= n <= Z.of_nat (length (pending (state s))) ->
    exists st, read_callback n s = (Some (firstn (Z.to_nat n) (pending (state s))), mk_istream st (bytes_left s) (errmsg s)) /\
      pending st = skipn (Z.to_nat n) (pending (state s))
}.

#[export] Instance buf_reader_laws : ReaderLaws (list Z).
Proof. exists (fun m => m). intros n s _. now exists (skipn (Z.to_nat n) (state s)). Defined.

Section Reading.
Context {St : Type} `{ReaderLaws St}.

(** The stream has the bytes [l] left, and [beyond] follows them in its
    source. *)
Definition holds (s : pb_istream_t St) (l beyond : list Z) : Prop :=
  pending (state s) = l ++ beyond /\ bytes_left s = Z.of_nat (length l) /\ Z.of_nat (length l) < 2 ^ 64.

(** [m] consumes exactly [l] and returns [v], whatever follows. *)
Definition yields {A} (m : SE (pb_istream_t St) A) (l : list Z) (v : A) : Prop :=
  forall s rest beyond, holds s (l ++ rest) beyond ->
    exists s', m s = (Some v, s') /\ holds s' rest beyond /\ errmsg s' = errmsg s.

Lemma yields_ret {A} (v : A) : yields (ret v) [] v.
Proof. intros s rest beyond Hs. now exists s. Qed.

Lemma yields_bind {A B} (m : SE (pb_istream_t St) A) (k : A -> SE (pb_istream_t St) B) l1 l2 a b :
  yields m l1 a -> yields (k a) l2 b -> yields (bind m k) (l1 ++ l2) b.
Proof.
  intros Hm Hk s rest beyond Hs. rewrite <- app_assoc in Hs. destruct (Hm _ _ _ Hs) as (s1 & E1 & Hs1 & M1).
  destruct (Hk _ _ _ Hs1) as (s2 & E2 & Hs2 & M2). exists s2. rewrite (bind_some _ _ _ _ _ E1). split; [exact E2|].
  split; [exact Hs2|congruence].
Qed.

Lemma yields_map {A B} (m : SE (pb_istream_t St) A) (f : A -> B) l a :
  yields m l a -> yields (x <- m ;; ret (f x)) l (f a).
Proof. intros Hm. rewrite <- (app_nil_r l). eapply yields_bind; [exact Hm|apply yields_ret]. Qed.

Lemma yields_get {A} (k : pb_istream_t St -> SE (pb_istream_t St) A) l v :
  (forall s rest beyond, holds s (l ++ rest) beyond ->
    exists s', k s s = (Some v, s') /\ holds s' rest beyond /\ errmsg s' = errmsg s) -> yields (s <- get ;; k s) l v.
Proof. intros Hk s rest beyond Hs. exact (Hk s rest beyond Hs). Qed.

(** A callback run on a stream that holds enough *)
Lemma callback_spec s l rest beyond : holds s (l ++ rest) beyond ->
  exists s', read_callback (Z.of_nat (length l)) s = (Some l, s') /\
    bytes_left s' = bytes_left s /\ errmsg s' = errmsg s /\
    holds (with_left (size_t (bytes_left s - Z.of_nat (length l))) s') rest beyond.
Proof.
  intros (P & L & B). rewrite <- app_assoc in P. rewrite length_app in L, B.
  destruct (read_law (Z.of_nat (length l)) s) as (st & E & Pst); [rewrite P, length_app; lia|].
  rewrite P, Nat2Z.id, skipn_app_length in Pst. rewrite P, Nat2Z.id, firstn_app_length in E.
  exists (mk_istream st (bytes_left s) (errmsg s)). split; [exact E|]. split; [reflexivity|]. split; [reflexivity|].
  split; [exact Pst|]. cbn [with_left bytes_left]. rewrite wrap_small by (unfold word_ok; lia). lia.
Qed.

Lemma yields_checked l : yields (read_checked (Z.of_nat (length l))) l l.
Proof.
  unfold read_checked. apply yields_get. intros s rest beyond Hs. destruct (callback_spec _ _ _ _ Hs) as (s' & E & L' & M & Hs').
  destruct Hs as (_ & L & _). rewrite length_app in L.
  rewrite (proj2 (Z.ltb_ge _ _)) by lia. rewrite E, L'. eexists. split; [reflexivity|]. split; [exact Hs'|exact M].
Qed.

Lemma yields_readbyte b : yields pb_readbyte [b] b.
Proof.
  unfold pb_readbyte. apply yields_get. intros s rest beyond Hs.
  destruct (callback_spec s [b] rest beyond Hs) as (s' & E & L' & M & Hs').
  destruct Hs as (_ & L & _). rewrite length_app in L. cbn [length] in L, E.
  destruct (Z.eqb_spec (bytes_left s) 0) as [Z0|_]; [lia|]. change (Z.of_nat 1) with 1 in *. rewrite E, L'.
  eexists. split; [reflexivity|]. split; [exact Hs'|exact M].
Qed.

Lemma yields_read l : yields (pb_read false (Z.of_nat (length l))) l l.
Proof.
  unfold pb_read. destruct (Z.eqb_spec (Z.of_nat (length l)) 0) as [E|_]; [|apply yields_checked].
  destruct l; [apply yields_ret|discriminate].
Qed.

(** Skipping, in one piece or in chunks *)
Lemma yields_skip_chunks fuel : forall l, (0 < length l)%nat -> (length l <= 16 * fuel)%nat ->
  exists v, yields (skip_chunks fuel (Z.of_nat (length l))) l v.
Proof.
  induction fuel as [|fuel IH]; intros l Hl Hf; [lia|]. cbn [skip_chunks].
  destruct (Z.ltb_spec 16 (Z.of_nat (length l))) as [L|L].
  - assert (L1 : length (firstn 16 l) = 16%nat) by (rewrite length_firstn; lia).
    destruct (IH (skipn 16 l)) as [v Hv]; [rewrite length_skipn; lia..|]. exists v.
    pose proof (yields_checked (firstn 16 l)) as H1. rewrite L1 in H1.
    pose proof (yields_bind _ (fun _ => skip_chunks fuel (Z.of_nat (length (skipn 16 l)))) _ _ _ _ H1 Hv) as Y.
    rewrite firstn_skipn, length_skipn in Y. replace (Z.of_nat (length l) - 16) with (Z.of_nat (length l - 16)) by lia.
    exact Y.
  - destruct (Z.eqb_spec (Z.of_nat (length l)) 0); [lia|]. exists l. apply yields_checked.
Qed.

Lemma yields_skip l : exists v, yields (pb_read true (Z.of_nat (length l))) l v.
Proof.
  unfold pb_read. destruct (Z.eqb_spec (Z.of_nat (length l)) 0) as [E|N].
  - exists []. destruct l; [apply yields_ret|discriminate].
  - cbn [andb]. destruct (negb is_buf_read); [|exists l; apply yields_checked].
    apply yields_skip_chunks; [lia|]. zify. lia_div.
Qed.

Lemma yields_skip_unit l : yields (pb_read true (Z.of_nat (length l)) ;;; ret tt) l tt.
Proof. destruct (yields_skip l) as [v Hv]. apply (yields_map _ (fun _ => tt) _ _ Hv). Qed.

(** *** Varints *)

Lemma continues_ge b : byte_ok b -> negb (Z.land b 128 =? 0) = (128 <=? b).
Proof. intros Hb. exact (eqb_prop _ _ (byte_cases (fun b => Bool.eqb (negb (Z.land b 128 =? 0)) (128 <=? b)) eq_refl b Hb)). Qed.

Lemma land_127 b : Z.land b 127 = b mod 128.
Proof. exact (land_mask b 7 ltac:(lia)). Qed.

(** A group joins the value so far; bits beyond the word fall off. *)
Lemma join_group w r x n : 0 <= n <= w -> 0 <= r < 2 ^ n -> 0 <= x ->
  Z.lor r (wrap w (Z.shiftl x n)) = wrap w (r + 2 ^ n * x).
Proof.
  intros Hn Hr Hx. unfold wrap. rewrite Z.shiftl_mul_pow2 by lia.
  assert (E : 2 ^ w = 2 ^ n * 2 ^ (w - n)) by (rewrite <- Z.pow_add_r by lia; f_equal; lia).
  assert (P : 0 < 2 ^ n) by (apply Z.pow_pos_nonneg; lia). assert (P' : 0 < 2 ^ (w - n)) by (apply Z.pow_pos_nonneg; lia).
  rewrite E, (Z.mul_comm x), Z.mul_mod_distr_l by lia.
  pose proof (Z.mod_pos_bound x (2 ^ (w - n)) P') as Hm. pose proof (Z.div_mod x (2 ^ (w - n)) ltac:(lia)) as D.
  rewrite (Z.mul_comm (2 ^ n) (x mod _)), <- Z.shiftl_mul_pow2, Z.lor_comm, shiftl_lor_add by lia.
  apply (Z.mod_unique _ _ (x / 2 ^ (w - n))); [left|]; nia.
Qed.

Lemma join_group_small w r x n : 0 <= n -> n + 7 <= w -> 0 <= r < 2 ^ n -> 0 <= x < 128 ->
  Z.lor r (wrap w (Z.shiftl x n)) = r + 2 ^ n * x /\ 0 <= r + 2 ^ n * x < 2 ^ (n + 7).
Proof.
  intros Hn Hw Hr Hx. assert (P : 2 ^ (n + 7) <= 2 ^ w) by (apply Z.pow_le_mono_r; lia).
  rewrite Z.pow_add_r in * by lia. change (2 ^ 7) with 128 in *.
  assert (0 <= r + 2 ^ n * x < 2 ^ n * 128) by nia.
  split; [|lia]. rewrite join_group by lia. apply wrap_small. unfold word_ok. lia.
Qed.

Lemma varint_loop_yields bs : forall fuel i r, is_varint bs -> (length bs <= fuel)%nat -> 0 <= i ->
  i + Z.of_nat (length bs) <= 10 -> 0 <= r < 2 ^ (7 * i) ->
  yields (varint_loop fuel r (7 * i)) bs (u64 (r + 2 ^ (7 * i) * leb_val bs)).
Proof.
  induction bs as [|b bs IH]; intros fuel i r G Hf Hi Hlen Hr; [destruct G|].
  cbn [length] in Hf, Hlen. destruct fuel as [|fuel]; [lia|]. cbn [varint_loop].
  destruct (Z.leb_spec 64 (7 * i)); [lia|]. cbn [leb_val].
  change (b :: bs) with ([b] ++ bs). eapply yields_bind; [apply yields_readbyte|]. cbn beta zeta. rewrite land_127.
  pose proof (Z.mod_pos_bound b 128 ltac:(lia)) as Hx. destruct bs as [|c bs].
  - cbn in G. rewrite continues_ge by (unfold word_ok; lia). rewrite (proj2 (Z.leb_gt _ _)) by lia.
    rewrite (join_group 64) by lia. cbn [leb_val]. rewrite Z.mul_0_r, Z.add_0_r. apply yields_ret.
  - destruct G as [Hb G]. rewrite continues_ge by (unfold word_ok; lia). rewrite (proj2 (Z.leb_le _ _)) by lia.
    cbn [length] in Hf, Hlen. destruct (join_group_small 64 r (b mod 128) (7 * i)) as [-> B]; [lia..|].
    rewrite (wrap_small 8) by (unfold word_ok; lia). replace (7 * i + 7) with (7 * (i + 1)) in * by lia.
    replace (u64 (r + 2 ^ (7 * i) * (b mod 128 + 128 * leb_val (c :: bs))))
      with (u64 (r + 2 ^ (7 * i) * (b mod 128) + 2 ^ (7 * (i + 1)) * leb_val (c :: bs))).
    + apply IH; [exact G|cbn [length]; lia|lia|cbn [length]; lia|exact B].
    + f_equal. replace (7 * (i + 1)) with (7 * i + 7) by lia. rewrite Z.pow_add_r by lia. lia.
Qed.

(** Up to ten bytes are a varint, whose value loses what is beyond bit 63. *)
Lemma yields_varint bs : is_varint bs -> (length bs <= 10)%nat -> yields pb_decode_varint bs (u64 (leb_val bs)).
Proof.
  intros G L. pose proof (varint_loop_yields bs 11 0 0 G ltac:(lia) ltac:(lia) ltac:(lia) ltac:(cbn; lia)) as Y.
  change (2 ^ (7 * 0)) with 1 in Y. rewrite Z.mul_1_l in Y. exact Y.
Qed.

(** *** 32-bit varints *)

Lemma varint32_loop_yields bs : forall fuel i r, is_varint bs -> (length bs <= fuel)%nat -> 0 < i ->
  i + Z.of_nat (length bs) <= 5 -> 0 <= r < 2 ^ (7 * i) -> r + 2 ^ (7 * i) * leb_val bs < 2 ^ 32 ->
  yields (varint32_loop fuel r (7 * i)) bs (r + 2 ^ (7 * i) * leb_val bs).
Proof.
  induction bs as [|b bs IH]; intros fuel i r G Hf Hi Hlen Hr Hv; [destruct G|].
  cbn [length] in Hf, Hlen. destruct fuel as [|fuel]; [lia|]. cbn [varint32_loop].
  cbn [leb_val] in Hv |- *. change (b :: bs) with ([b] ++ bs). eapply yields_bind; [apply yields_readbyte|]. cbn beta.
  destruct (Z.leb_spec 32 (7 * i)); [lia|]. rewrite land_127.
  pose proof (Z.mod_pos_bound b 128 ltac:(lia)) as Hx. destruct bs as [|c bs].
  - cbn in G. eapply (yields_bind _ _ []); [apply yields_ret|]. cbn beta zeta.
    rewrite continues_ge by (unfold word_ok; lia). rewrite (proj2 (Z.leb_gt _ _)) by lia.
    cbn [leb_val] in Hv |- *. rewrite Z.mul_0_r, Z.add_0_r in *.
    assert (P : 0 < 2 ^ (7 * i)) by (apply Z.pow_pos_nonneg; lia). rewrite (join_group 32) by lia.
    rewrite (wrap_small 32) by (unfold word_ok; nia).
    destruct ((u8 (7 * i + 7) =? 35) && negb (Z.land b 112 =? 0)) eqn:T; [|apply yields_ret]. exfalso.
    apply andb_prop in T as [T1 T2]. rewrite wrap_small in T1 by (unfold word_ok; lia). apply Z.eqb_eq in T1.
    assert (i = 4) by lia. subst i. change (2 ^ (7 * 4)) with (2 ^ 28) in *. rewrite Z.mod_small in Hv by lia.
    assert (b < 16) by lia. assert (T3 : forallb (fun b => (Z.land b 112 =? 0) || (16 <=? b)) all_bytes = true) by reflexivity.
    pose proof (byte_cases _ T3 b ltac:(unfold word_ok; lia)) as T4. cbn beta in T4.
    apply orb_prop in T4 as [T4|T4%Z.leb_le]; [rewrite T4 in T2; discriminate|lia].
  - destruct G as [Hb G]. eapply (yields_bind _ _ []); [apply yields_ret|]. cbn beta zeta.
    rewrite continues_ge by (unfold word_ok; lia). rewrite (proj2 (Z.leb_le _ _)) by lia.
    cbn [length] in Hf, Hlen. rewrite (wrap_small 8) by (unfold word_ok; lia).
    destruct (join_group_small 32 r (b mod 128) (7 * i)) as [-> B]; [lia..|].
    replace (7 * i + 7) with (7 * (i + 1)) in * by lia.
    assert (E : 2 ^ (7 * (i + 1)) = 2 ^ (7 * i) * 128)
      by (replace (7 * (i + 1)) with (7 * i + 7) by lia; rewrite Z.pow_add_r by lia; reflexivity).
    replace (r + 2 ^ (7 * i) * (b mod 128 + 128 * leb_val (c :: bs)))
      with (r + 2 ^ (7 * i) * (b mod 128) + 2 ^ (7 * (i + 1)) * leb_val (c :: bs)) in * by (rewrite E; lia).
    apply IH; [exact G|cbn [length]; lia|lia|cbn [length]; lia|exact B|exact Hv].
Qed.

(** Any varint of at most five bytes with a 32-bit value *)
Lemma varint32_eof_yields bs eof : is_varint bs -> (length bs <= 5)%nat -> leb_val bs < 2 ^ 32 ->
  forall s rest beyond, holds s (bs ++ rest) beyond ->
  exists s', pb_decode_varint32_eof (s, eof) = (Some (leb_val bs), (s', eof)) /\ holds s' rest beyond /\ errmsg s' = errmsg s.
Proof.
  intros G L B s rest beyond Hs. unfold pb_decode_varint32_eof. destruct bs as [|b bs]; [destruct G|].
  destruct (yields_readbyte b s (bs ++ rest) beyond Hs) as (s1 & -> & Hs1 & M1).
  cbn [leb_val length] in L, B |- *. destruct bs as [|c bs].
  - cbn in G. cbn [leb_val]. pose proof (continues_ge b ltac:(unfold word_ok; lia)) as C.
    rewrite (proj2 (Z.leb_gt 128 b)) in C by lia. apply negb_false_iff in C. rewrite C.
    exists s1. rewrite Z.mul_0_r, Z.add_0_r, Z.mod_small by lia. easy.
  - destruct G as [Hb G]. pose proof (continues_ge b ltac:(unfold word_ok; lia)) as C.
    rewrite (proj2 (Z.leb_le 128 b)) in C by lia. apply negb_true_iff in C. rewrite C, land_127.
    pose proof (Z.mod_pos_bound b 128 ltac:(lia)) as Hx. destruct Hs1 as (P1 & L1 & B1). cbn [length] in L. rewrite length_app in L1.
    pose proof (varint32_loop_yields (c :: bs) (S (Z.to_nat (bytes_left s1))) 1 (b mod 128) G) as Y.
    change (7 * 1) with 7 in Y. change (2 ^ 7) with 128 in Y.
    destruct (Y ltac:(lia) ltac:(lia) ltac:(cbn [length]; lia) Hx ltac:(lia) s1 rest beyond) as (s2 & -> & Hs2 & M2);
      [split; [exact P1|]; split; [rewrite L1, length_app; lia|exact B1]|].
    exists s2. split; [reflexivity|]. split; [assumption|congruence].
Qed.

Lemma yields_varint32 bs : is_varint bs -> (length bs <= 5)%nat -> leb_val bs < 2 ^ 32 -> yields pb_decode_varint32 bs (leb_val bs).
Proof.
  intros G L B s rest beyond Hs. unfold pb_decode_varint32.
  destruct (varint32_eof_yields bs false G L B s rest beyond Hs) as (s' & -> & Hs' & M). now exists s'.
Qed.

(** The shortest varint of a 32-bit value has at most five bytes. *)
Lemma leb_bytes_short fuel : forall v k, 0 <= v < 128 ^ Z.of_nat k -> (0 < k)%nat -> (length (leb_bytes fuel v) <= k)%nat.
Proof.
  induction fuel as [|fuel IH]; intros v k Hv Hk; cbn [leb_bytes]; [cbn; lia|]. destruct (Z.ltb_spec v 128); [cbn; lia|].
  destruct k as [|k]; [lia|]. rewrite Nat2Z.inj_succ, Z.pow_succ_r in Hv by lia. cbn [length].
  enough (length (leb_bytes fuel (v / 128)) <= k)%nat by lia. destruct k as [|k]; [cbn in Hv; lia|]. apply IH; [lia_div|lia].
Qed.

Lemma varint32_spec v : word_ok 32 v -> is_varint (varint v) /\ leb_val (varint v) = v /\ (length (varint v) <= 5)%nat.
Proof.
  unfold word_ok. intros Hv. destruct (varint_spec v) as (G & E & _); [unfold word_ok; lia|]. split; [exact G|]. split; [exact E|].
  apply leb_bytes_short; [change (128 ^ Z.of_nat 5) with (2 ^ 35)|]; lia.
Qed.

Lemma yields_varint32_of v : word_ok 32 v -> yields pb_decode_varint32 (varint v) v.
Proof.
  intros Hv. destruct (varint32_spec v Hv) as (G & E & L). rewrite <- E at 2. apply yields_varint32; try assumption.
  rewrite E. apply Hv.
Qed.

Lemma yields_varint_of v : word_ok 64 v -> yields pb_decode_varint (varint v) v.
Proof.
  intros Hv. destruct (varint_spec v Hv) as (G & E & L). rewrite <- (wrap_small 64 v Hv) at 2. rewrite <- E at 2. now apply yields_varint.
Qed.

(** *** When there is no varint *)

Lemma readbyte_empty s beyond : holds s [] beyond ->
  exists s', pb_readbyte s = (None, s') /\ errmsg s' = set_error (errmsg s) end_of_stream /\ bytes_left s' = 0.
Proof.
  intros (_ & L & _). unfold pb_readbyte, bind, get. rewrite L. eexists. split; [reflexivity|]. split; [reflexivity|exact L].
Qed.

Lemma varint_split n : forall l, bytes_ok l ->
  (exists bs rest, l = bs ++ rest /\ is_varint bs /\ (length bs <= n)%nat) \/
  (exists ts rest, l = ts ++ rest /\ Forall (fun b => 128 <= b < 256) ts /\ (length ts <= n)%nat /\ (rest = [] \/ length ts = n)).
Proof.
  induction n as [|n IH]; intros l Hl.
  { right. exists [], l. repeat split; auto. }
  destruct Hl as [|b l Hb Hl]; [right; exists [], []; repeat split; auto; cbn; lia|]. unfold word_ok in Hb.
  destruct (Z.lt_ge_cases b 128) as [L|L].
  - left. exists [b], l. repeat split; cbn; lia.
  - destruct (IH l Hl) as [(bs & rest & -> & G & Ln)|(ts & rest & -> & F & Ln & E)].
    + left. exists (b :: bs), rest. split; [reflexivity|]. split; [|cbn; lia].
      apply is_varint_cons; [intros ->; destruct G|split; [lia|exact G]].
    + right. exists (b :: ts), rest. split; [reflexivity|]. split; [constructor; [lia|exact F]|]. cbn. split; [lia|]. destruct E; auto.
Qed.

(** Ten bytes with bit 7 set, or fewer and then nothing *)
Lemma varint_loop_fails ts : forall fuel i r s rest beyond, holds s (ts ++ rest) beyond ->
  Forall (fun b => 128 <= b < 256) ts -> 0 <= i -> (i + Z.of_nat (length ts) <= 10) ->
  (rest = [] /\ i + Z.of_nat (length ts) < 10 \/ i + Z.of_nat (length ts) = 10) -> (length ts < fuel)%nat ->
  exists s', varint_loop fuel r (7 * i) s = (None, s') /\
    errmsg s' = set_error (errmsg s) (if i + Z.of_nat (length ts) <? 10 then end_of_stream else varint_overflow).
Proof.
  induction ts as [|b ts IH]; intros fuel i r s rest beyond Hs F Hi Hl Hend Hf; (destruct fuel as [|fuel]; [cbn in Hf; lia|]);
    cbn [varint_loop length] in *.
  - rewrite Z.add_0_r in *. destruct (Z.ltb_spec i 10) as [L|L].
    + destruct Hend as [[-> _]|]; [|lia]. destruct (Z.leb_spec 64 (7 * i)); [lia|]. destruct (readbyte_empty s beyond Hs) as (s' & E & M & _).
      rewrite (bind_none _ _ _ _ E). now exists s'.
    + destruct (Z.leb_spec 64 (7 * i)); [|lia]. now eexists.
  - inversion F as [|? ? Hb F']; subst. destruct (Z.leb_spec 64 (7 * i)); [lia|].
    destruct (yields_readbyte b s (ts ++ rest) beyond Hs) as (s1 & E1 & Hs1 & M1).
    rewrite (bind_some _ _ _ _ _ E1). cbn zeta. rewrite continues_ge by (unfold word_ok; lia).
    rewrite (proj2 (Z.leb_le _ _)) by lia. rewrite (wrap_small 8) by (unfold word_ok; lia).
    replace (7 * i + 7) with (7 * (i + 1)) by lia.
    destruct (IH fuel (i + 1) (Z.lor r (u64 (Z.shiftl (Z.land b 127) (7 * i)))) s1 rest beyond Hs1 F') as (s' & -> & M').
    + lia.
    + lia.
    + destruct Hend as [[-> ?]|?]; [left; split; [reflexivity|lia]|right; lia].
    + lia.
    + exists s'. split; [reflexivity|]. rewrite M', M1.
      now replace (i + Z.of_nat (S (length ts))) with (i + 1 + Z.of_nat (length ts)) by lia.
Qed.

Lemma is_varint_last bs : is_varint bs -> exists last, In last bs /\ last < 128.
Proof.
  induction bs as [|b bs IH]; [intros []|]. destruct bs as [|c bs]; [exists b; cbn in *; split; [now left|lia]|].
  intros [_ G]. destruct (IH G) as (x & Hx & ?). exists x. split; [now right|assumption].
Qed.

Lemma varint_no_prefix ts rest : Forall (fun b => 128 <= b < 256) ts -> (rest = [] \/ (10 <= length ts)%nat) ->
  ~ exists bs tail, ts ++ rest = bs ++ tail /\ is_varint bs /\ (length bs <= 10)%nat.
Proof.
  intros F E (bs & tail & Eq & G & L).
  assert (Lt : (length bs <= length ts)%nat).
  { destruct E as [->|]; [|lia]. rewrite app_nil_r in Eq. apply (f_equal (@length Z)) in Eq. rewrite length_app in Eq. lia. }
  pose proof (app_prefix bs ts tail rest (eq_sym Eq) Lt) as Ets.
  destruct (is_varint_last bs G) as (last & Hin & Hl). rewrite Forall_forall in F.
  specialize (F last ltac:(rewrite Ets; apply in_or_app; now left)). lia.
Qed.

(** *** Skipping *)

Lemma skip_varint_yields bs : forall fuel, is_varint bs -> (length bs <= fuel)%nat -> yields (skip_varint_loop fuel) bs tt.
Proof.
  induction bs as [|b bs IH]; intros fuel G Hf; [destruct G|]. cbn [length] in Hf. destruct fuel as [|fuel]; [lia|].
  cbn [skip_varint_loop]. change (b :: bs) with ([b] ++ bs). eapply yields_bind; [exact (yields_read [b])|].
  change (at_ [b] 0) with b. destruct bs as [|c bs].
  - cbn in G. rewrite continues_ge by (unfold word_ok; lia). rewrite (proj2 (Z.leb_gt _ _)) by lia. apply yields_ret.
  - destruct G as [Hb G]. rewrite continues_ge by (unfold word_ok; lia). rewrite (proj2 (Z.leb_le _ _)) by lia.
    apply IH; [exact G|lia].
Qed.

Lemma yields_skip_varint bs : is_varint bs -> yields pb_skip_varint bs tt.
Proof.
  intros G. unfold pb_skip_varint. apply yields_get. intros s rest beyond Hs.
  refine (skip_varint_yields bs _ G _ s rest beyond Hs). destruct Hs as (_ & L & _). rewrite L, length_app. lia.
Qed.

Lemma yields_skip_string l : Z.of_nat (length l) < 2 ^ 32 -> yields pb_skip_string (varint (Z.of_nat (length l)) ++ l) tt.
Proof.
  intros L. unfold pb_skip_string. eapply yields_bind; [apply yields_varint32_of; unfold word_ok; lia|apply yields_skip_unit].
Qed.

Lemma yields_raw_varint bs : forall fuel, is_varint bs -> (length bs <= fuel)%nat -> yields (raw_varint_loop fuel) bs bs.
Proof.
  induction bs as [|b bs IH]; intros fuel G Hf; [destruct G|]. cbn [length] in Hf. destruct fuel as [|fuel]; [lia|].
  cbn [raw_varint_loop]. change (b :: bs) with ([b] ++ bs) at 1. eapply yields_bind; [exact (yields_read [b])|].
  change (at_ [b] 0) with b. destruct bs as [|c bs].
  - cbn in G. rewrite continues_ge by (unfold word_ok; lia). rewrite (proj2 (Z.leb_gt _ _)) by lia. apply yields_ret.
  - destruct G as [Hb G]. rewrite continues_ge by (unfold word_ok; lia). rewrite (proj2 (Z.leb_le _ _)) by lia.
    apply (yields_map _ (fun rest => [b] ++ rest)). apply IH; [exact G|lia].
Qed.

(** *** Tags *)

(** A tag of a field number is what [pb_decode_tag] reads. *)
Definition tag_word (wire_type number : Z) : Z := 8 * number + wire_type.

Lemma decode_tag_spec s wire_type number eof rest beyond :
  0 <= wire_type < 8 -> 0 < tag_word wire_type number < 2 ^ 32 ->
  holds s (varint (tag_word wire_type number) ++ rest) beyond ->
  exists s', pb_decode_tag (s, eof) = (Some (number, wire_type), (s', false)) /\ holds s' rest beyond /\ errmsg s' = errmsg s.
Proof.
  intros Hw Hn Hs. unfold tag_word in *. destruct (varint32_spec (8 * number + wire_type)) as (G & E & L); [unfold word_ok; lia|].
  destruct (varint32_eof_yields _ false G L ltac:(rewrite E; lia) s rest beyond Hs) as (s' & R & Hs' & M).
  exists s'. unfold pb_decode_tag. rewrite R, E. destruct (Z.eqb_spec (8 * number + wire_type) 0); [lia|].
  split; [|easy]. rewrite Z.shiftr_div_pow2 by lia. change 7 with (2 ^ 3 - 1). rewrite land_mask by lia.
  change (2 ^ 3) with 8. do 3 f_equal; lia_div.
Qed.

(** An empty stream and a zero byte end a message. *)
Lemma decode_tag_end s eof rest beyond : (rest = [] \/ exists r, rest = 0 :: r) -> holds s rest beyond ->
  exists s', pb_decode_tag (s, eof) = (None, (s', true)).
Proof.
  intros E Hs. unfold pb_decode_tag, pb_decode_varint32_eof. destruct E as [->|[r ->]].
  - destruct (readbyte_empty s beyond Hs) as (s' & -> & _ & ->). now exists s'.
  - destruct (yields_readbyte 0 s r beyond Hs) as (s' & -> & _). now exists s'.
Qed.

(** ** Substreams *)

Lemma make_substream_spec l s rest beyond :
  Z.of_nat (length l) < 2 ^ 32 -> holds s ((varint (Z.of_nat (length l)) ++ l) ++ rest) beyond ->
  exists sub s', pb_make_string_substream s = (Some sub, s') /\ holds sub l (rest ++ beyond) /\
    bytes_left s' = Z.of_nat (length rest) /\ errmsg sub = errmsg s /\ errmsg s' = errmsg s.
Proof.
  intros L Hs. rewrite <- app_assoc in Hs. unfold pb_make_string_substream.
  destruct (yields_varint32_of (Z.of_nat (length l)) ltac:(unfold word_ok; lia) s (l ++ rest) beyond Hs) as (s1 & E1 & Hs1 & M1).
  rewrite (bind_some _ _ _ _ _ E1). unfold bind, get. destruct Hs1 as (P1 & L1 & B1). rewrite length_app in L1, B1.
  rewrite (proj2 (Z.ltb_ge _ _)) by lia. cbn [put ret]. eexists _, _. split; [reflexivity|].
  cbn [with_left bytes_left errmsg]. rewrite wrap_small by (unfold word_ok; lia).
  split; [split; [cbn [with_left state]; rewrite P1; apply app_assoc_reverse|cbn [with_left bytes_left]; lia]|].
  split; [lia|]. now rewrite M1.
Qed.

Lemma close_substream_spec sub s l rest beyond : Z.of_nat (length rest) < 2 ^ 64 ->
  holds sub l (rest ++ beyond) -> bytes_left s = Z.of_nat (length rest) ->
  exists s', pb_close_string_substream sub s = (Some tt, s') /\ holds s' rest beyond /\ errmsg s' = errmsg sub.
Proof.
  intros Lr Hsub Ls. unfold pb_close_string_substream. pose proof Hsub as (P & L & B).
  destruct (Z.eqb_spec (bytes_left sub) 0) as [E|N]; cbn [negb].
  - destruct l; [|cbn in L; lia]. eexists. split; [reflexivity|]. split; [|reflexivity]. now repeat split.
  - destruct (yields_skip l) as [v Hv]. rewrite L. destruct (Hv sub [] (rest ++ beyond)) as (sub' & -> & (P' & _) & M');
      [now rewrite app_nil_r|]. eexists. split; [reflexivity|]. split; [now repeat split|exact M'].
Qed.

(** *** Signed and fixed-width values *)

Lemma lxor_ones n x : 0 <= n -> 0 <= x < 2 ^ n -> Z.lxor x (2 ^ n - 1) = 2 ^ n - 1 - x.
Proof.
  intros Hn Hx. replace (2 ^ n - 1) with (Z.ones n) by (rewrite Z.ones_equiv; lia). rewrite Z.sub_nocarry_ldiff.
  - apply Z.bits_inj'. intros i Hi. rewrite Z.lxor_spec, Z.ldiff_spec. destruct (Z.lt_ge_cases i n) as [L|L].
    + rewrite Z.ones_spec_low by lia. now destruct (Z.testbit x i).
    + rewrite Z.ones_spec_high by lia. rewrite <- (Z.mod_small x (2 ^ n)), Z.mod_pow2_bits_high by lia. reflexivity.
  - apply Z.bits_inj'. intros i Hi. rewrite Z.ldiff_spec, Z.bits_0. destruct (Z.lt_ge_cases i n) as [L|L].
    + rewrite Z.ones_spec_low by lia. apply andb_false_r.
    + rewrite <- (Z.mod_small x (2 ^ n)), Z.mod_pow2_bits_high by lia. reflexivity.
Qed.

Lemma lor_above a b n : 0 <= n -> 0 <= a < 2 ^ n -> Z.lor a (Z.shiftl b n) = a + 2 ^ n * b.
Proof. intros. rewrite Z.lor_comm, shiftl_lor_add by assumption. lia. Qed.

Lemma sint64_range v : word_ok 64 v -> sint 64 v = if v <? 2 ^ 63 then v else v - 2 ^ 64.
Proof.
  intros Hv. rewrite sint_spec by (assumption || lia). change (64 - 1) with 63.
  destruct (Z.leb_spec (2 ^ 63) v), (Z.ltb_spec v (2 ^ 63)); lia.
Qed.

Definition zigzag (v : Z) : Z := if v <? 0 then - 2 * v - 1 else 2 * v.

Lemma zigzag_ok v : - 2 ^ 63 <= v < 2 ^ 63 -> word_ok 64 (zigzag v).
Proof. unfold zigzag, word_ok. intros. destruct (Z.ltb_spec v 0); lia. Qed.

Lemma yields_map_eq {A B} (m : SE (pb_istream_t St) A) (f : A -> B) l a v :
  yields m l a -> f a = v -> yields (x <- m ;; ret (f x)) l v.
Proof. intros Hm <-. now apply yields_map. Qed.

Lemma yields_svarint v : - 2 ^ 63 <= v < 2 ^ 63 -> yields pb_decode_svarint (varint (zigzag v)) v.
Proof.
  intros Hv. pose proof (zigzag_ok v Hv) as Hz. eapply yields_map_eq; [now apply yields_varint_of|]. cbn beta.
  change 1 with (2 ^ 1 - 1) at 1. rewrite land_mask, Z.shiftr_div_pow2 by lia. change (2 ^ 1) with 2. unfold word_ok in Hz.
  unfold UINT64_MAX. unfold zigzag in *. destruct (Z.ltb_spec v 0).
  - replace ((- 2 * v - 1) mod 2) with 1 by lia_div. cbn [Z.eqb negb]. rewrite lxor_ones by (try lia; lia_div).
    replace ((- 2 * v - 1) / 2) with (- v - 1) by lia_div. rewrite sint64_range by (unfold word_ok; lia).
    destruct (Z.ltb_spec (2 ^ 64 - 1 - (- v - 1)) (2 ^ 63)); lia.
  - replace ((2 * v) mod 2) with 0 by lia_div. cbn [Z.eqb negb]. replace (2 * v / 2) with v by lia_div.
    rewrite sint64_range by (unfold word_ok; lia). destruct (Z.ltb_spec v (2 ^ 63)); lia.
Qed.

Lemma lor4 a b c d : bytes_ok [a; b; c; d] ->
  Z.lor (Z.lor (Z.lor (Z.shiftl a 0) (Z.shiftl b 8)) (Z.shiftl c 16)) (Z.shiftl d 24) = le_val [a; b; c; d] /\
  0 <= le_val [a; b; c; d] < 2 ^ 32.
Proof.
  intros B. repeat match goal with B : Forall _ (_ :: _) |- _ => inversion_clear B end. unfold word_ok in *.
  rewrite Z.shiftl_0_r, (lor_above a b), (lor_above _ c), (lor_above _ d) by lia. cbn [le_val]. lia.
Qed.

Lemma lor8 a b c d e f g h : bytes_ok [a; b; c; d; e; f; g; h] ->
  Z.lor (Z.lor (Z.lor (Z.lor (Z.lor (Z.lor (Z.lor (Z.shiftl a 0) (Z.shiftl b 8)) (Z.shiftl c 16)) (Z.shiftl d 24))
    (Z.shiftl e 32)) (Z.shiftl f 40)) (Z.shiftl g 48)) (Z.shiftl h 56) = le_val [a; b; c; d; e; f; g; h].
Proof.
  intros B. repeat match goal with B : Forall _ (_ :: _) |- _ => inversion_clear B end. unfold word_ok in *.
  rewrite Z.shiftl_0_r, (lor_above a b), (lor_above _ c), (lor_above _ d), (lor_above _ e), (lor_above _ f), (lor_above _ g),
    (lor_above _ h) by lia. cbn [le_val]. lia.
Qed.

Lemma yields_fixed32 v : word_ok 32 v -> yields pb_decode_fixed32 (le_bytes 4 v) v.
Proof.
  intros Hv. pose proof (yields_read (le_bytes 4 v)) as R. rewrite length_le_bytes in R. eapply yields_map_eq; [exact R|]. cbn beta.
  transitivity (le_val (le_bytes 4 v)); [exact (proj1 (lor4 _ _ _ _ (le_bytes_ok 4 v)))|].
  rewrite le_val_le_bytes. now apply Z.mod_small.
Qed.

Lemma yields_fixed64 v : word_ok 64 v -> yields pb_decode_fixed64 (le_bytes 8 v) v.
Proof.
  intros Hv. pose proof (yields_read (le_bytes 8 v)) as R. rewrite length_le_bytes in R. eapply yields_map_eq; [exact R|]. cbn beta.
  transitivity (le_val (le_bytes 8 v)); [exact (lor8 _ _ _ _ _ _ _ _ (le_bytes_ok 8 v))|].
  rewrite le_val_le_bytes. now apply Z.mod_small.
Qed.
End Reading.

(** ** Writing *)

(** The contract of an output callback *)
Class WriterLaws (St : Type) `{Writer St} := {
  written : St -> list Z;
  write_law : forall buf s, exists st,
    write_callback buf s = (Some tt, mk_ostream (sizing s) st (max_size s) (bytes_written s) (o_errmsg s)) /\
    written st = written (o_state s) ++ buf
}.

#[export] Instance buf_writer_laws : WriterLaws (list Z).
Proof. exists (fun m => m). intros buf s. now exists (o_state s ++ buf). Defined.

Section Writing.
Context {St : Type} `{WriterLaws St}.

(** [m] writes [bs], as far as there is room; a stream that only counts
    counts the bytes. *)
Definition emits (m : SE (pb_ostream_t St) unit) (bs : list Z) : Prop :=
  forall st max n e, 0 <= n -> n + Z.of_nat (length bs) < 2 ^ 64 ->
    m (mk_ostream true st max n e) = (Some tt, mk_ostream true st max (n + Z.of_nat (length bs)) e) /\
    (n + Z.of_nat (length bs) <= max -> exists st',
      m (mk_ostream false st max n e) = (Some tt, mk_ostream false st' max (n + Z.of_nat (length bs)) e) /\
      written st' = written st ++ bs) /\
    (n <= max < n + Z.of_nat (length bs) -> exists st' p tail, bs = p ++ tail /\
      m (mk_ostream false st max n e) = (None, mk_ostream false st' max (n + Z.of_nat (length p)) (set_error e stream_full)) /\
      written st' = written st ++ p /\ n + Z.of_nat (length p) <= max).

Lemma emits_write buf count : count = Z.of_nat (length buf) -> emits (pb_write buf count) buf.
Proof.
  intros -> st max n e Hn Hl. unfold pb_write, bind, get. cbn [sizing]. rewrite andb_false_r, andb_true_r. cbn [bytes_written max_size].
  rewrite (wrap_small 64 (n + _)) by (unfold word_ok; lia). rewrite Nat2Z.id, firstn_all.
  split; [unfold count_written; cbn [sizing o_state max_size bytes_written o_errmsg]; now rewrite wrap_small by (unfold word_ok; lia)|].
  rewrite (proj2 (Z.ltb_ge (n + _) n)) by lia. cbn [orb].
  assert (CW : forall z (st' : St), count_written (Z.of_nat (length buf)) (mk_ostream z st' max n e) =
    (Some tt, mk_ostream z st' max (n + Z.of_nat (length buf)) e)).
  { intros z st1. unfold count_written. cbn [sizing o_state max_size bytes_written o_errmsg]. now rewrite wrap_small by (unfold word_ok; lia). }
  split; intros Hm.
  - destruct (Z.ltb_spec 0 (Z.of_nat (length buf))) as [L|L].
    + rewrite (proj2 (Z.ltb_ge max _)) by lia. destruct (write_law buf (mk_ostream false st max n e)) as (st' & -> & W).
      cbn [sizing o_state max_size bytes_written o_errmsg]. rewrite CW. now exists st'.
    + rewrite CW. exists st. split; [reflexivity|]. destruct buf; [now rewrite app_nil_r|cbn in L; lia].
  - rewrite (proj2 (Z.ltb_lt 0 _)) by lia. rewrite (proj2 (Z.ltb_lt max _)) by lia.
    exists st, [], buf. split; [reflexivity|]. cbn [length]. rewrite Z.add_0_r, app_nil_r. split; [reflexivity|]. split; [reflexivity|lia].
Qed.

Lemma emits_seq m k l1 l2 : emits m l1 -> emits k l2 -> emits (m ;;; k) (l1 ++ l2).
Proof.
  intros Hm Hk st max n e Hn Hl. rewrite length_app in *. rewrite Nat2Z.inj_add, Z.add_assoc in *.
  destruct (Hm st max n e Hn ltac:(lia)) as (S1 & W1 & F1).
  split; [|split].
  - destruct (Hk st max (n + Z.of_nat (length l1)) e ltac:(lia) Hl) as (S2 & _). now rewrite (bind_some _ _ _ _ _ S1).
  - intros Hr. destruct W1 as (st1 & E1 & P1); [lia|]. rewrite (bind_some _ _ _ _ _ E1).
    destruct (Hk st1 max (n + Z.of_nat (length l1)) e ltac:(lia) Hl) as (_ & W2 & _). destruct (W2 Hr) as (st2 & E2 & P2).
    exists st2. split; [exact E2|]. now rewrite P2, P1, app_assoc.
  - intros Hr. destruct (Z.le_gt_cases (n + Z.of_nat (length l1)) max) as [L|L].
    + destruct (W1 L) as (st1 & E1 & P1). rewrite (bind_some _ _ _ _ _ E1).
      destruct (Hk st1 max (n + Z.of_nat (length l1)) e ltac:(lia) Hl) as (_ & _ & F2).
      destruct F2 as (st2 & p & tail & -> & E2 & P2 & B2); [lia|]. exists st2, (l1 ++ p), tail.
      rewrite length_app, Nat2Z.inj_add, Z.add_assoc. split; [apply app_assoc|]. split; [exact E2|].
      split; [now rewrite P2, P1, app_assoc|exact B2].
    + destruct F1 as (st1 & p & tail & -> & E1 & P1 & B1); [lia|]. exists st1, p, (tail ++ l2).
      rewrite (bind_none _ _ _ _ E1). split; [apply app_assoc_reverse|]. now split.
Qed.

Lemma emits_varint v : word_ok 64 v -> emits (pb_encode_varint v) (varint v).
Proof.
  unfold word_ok. intros Hv. unfold pb_encode_varint. destruct (Z.leb_spec v 127) as [L|L].
  - rewrite wrap_small by (unfold word_ok; lia). unfold varint. cbn [leb_bytes]. rewrite (proj2 (Z.ltb_lt v 128)) by lia. now apply emits_write.
  - pose proof (varint_groups_last 10 v ltac:(change (128 ^ Z.of_nat 10) with (2 ^ 70); lia)) as E.
    remember (varint_groups 10 v) as buffer eqn:Eb. fold (varint v) in E. cbv zeta.
    replace (Z.to_nat (Z.of_nat (length buffer) - 1)) with (length buffer - 1)%nat by lia.
    unfold at_. replace (Z.to_nat (Z.of_nat (length buffer) - 1)) with (length buffer - 1)%nat by lia.
    rewrite E. apply emits_write. rewrite <- E. now rewrite length_set_nth.
Qed.

Lemma emits_svarint v : - 2 ^ 63 <= v < 2 ^ 63 -> emits (pb_encode_svarint v) (varint (zigzag v)).
Proof.
  intros Hv. unfold pb_encode_svarint, zigzag. pose proof (zigzag_ok v Hv) as Hz. unfold zigzag, word_ok in Hz.
  destruct (Z.ltb_spec v 0) as [L|L].
  - replace (Z.lxor (u64 (Z.shiftl (u64 v) 1)) UINT64_MAX) with (- 2 * v - 1); [now apply emits_varint|].
    unfold UINT64_MAX. rewrite lxor_ones by (try lia; apply Z.mod_pos_bound; lia). rewrite Z.shiftl_mul_pow2 by lia.
    unfold wrap. rewrite Z.mul_mod_idemp_l by lia. change (2 ^ 1) with 2.
    replace ((v * 2) mod 2 ^ 64) with (v * 2 + 2 ^ 64); [lia|]. symmetry.
    rewrite <- (Z_mod_plus_full (v * 2) 1 (2 ^ 64)). apply Z.mod_small. lia.
  - rewrite Z.shiftl_mul_pow2 by lia. change (2 ^ 1) with 2. rewrite wrap_small, Z.mul_comm by (unfold word_ok; lia). now apply emits_varint.
Qed.

Lemma byte_at_shift v k : 0 <= k -> u8 (Z.land (Z.shiftr v k) 255) = (v / 2 ^ k) mod 256.
Proof.
  intros Hk. change 255 with (2 ^ 8 - 1). rewrite land_mask, Z.shiftr_div_pow2 by lia. apply wrap_wrap.
Qed.

Lemma emits_fixed32 v : emits (pb_encode_fixed32 v) (le_bytes 4 v).
Proof.
  assert (E : [u8 (Z.land v 255); u8 (Z.land (Z.shiftr v 8) 255); u8 (Z.land (Z.shiftr v 16) 255); u8 (Z.land (Z.shiftr v 24) 255)]
    = le_bytes 4 v).
  { rewrite <- (Z.shiftr_0_r v) at 1. rewrite !byte_at_shift by lia. cbn [le_bytes]. rewrite !Z.div_div by lia.
    change (2 ^ 0) with 1. now rewrite Z.div_1_r. }
  unfold pb_encode_fixed32. rewrite E. apply emits_write. now rewrite length_le_bytes.
Qed.

Lemma emits_fixed64 v : emits (pb_encode_fixed64 v) (le_bytes 8 v).
Proof.
  assert (E : [u8 (Z.land v 255); u8 (Z.land (Z.shiftr v 8) 255); u8 (Z.land (Z.shiftr v 16) 255); u8 (Z.land (Z.shiftr v 24) 255);
      u8 (Z.land (Z.shiftr v 32) 255); u8 (Z.land (Z.shiftr v 40) 255); u8 (Z.land (Z.shiftr v 48) 255); u8 (Z.land (Z.shiftr v 56) 255)]
    = le_bytes 8 v).
  { rewrite <- (Z.shiftr_0_r v) at 1. rewrite !byte_at_shift by lia. cbn [le_bytes]. rewrite !Z.div_div by lia.
    change (2 ^ 0) with 1. now rewrite Z.div_1_r. }
  unfold pb_encode_fixed64. rewrite E. apply emits_write. now rewrite length_le_bytes.
Qed.

Lemma emits_tag wire_type number : 0 <= wire_type < 8 -> 0 <= number < 2 ^ 32 ->
  emits (pb_encode_tag wire_type number) (varint (tag_word wire_type number)).
Proof.
  intros Hw Hn. unfold pb_encode_tag, tag_word.
  replace (Z.lor (u64 (Z.shiftl number 3)) wire_type) with (8 * number + wire_type); [apply emits_varint; unfold word_ok; lia|].
  rewrite wrap_small by (rewrite Z.shiftl_mul_pow2 by lia; unfold word_ok; lia). rewrite shiftl_lor_add by lia. lia.
Qed.

Lemma emits_string l : Z.of_nat (length l) < 2 ^ 64 ->
  emits (pb_encode_string l (Z.of_nat (length l))) (varint (Z.of_nat (length l)) ++ l).
Proof. intros L. apply emits_seq; [apply emits_varint; unfold word_ok; lia|now apply emits_write]. Qed.
End Writing.

(** ** 32-bit varints that are too long *)

Lemma last_cons_ne {A} (a : A) l d : l <> [] -> last (a :: l) d = last l d.
Proof. destruct l; [congruence|reflexivity]. Qed.

Lemma leb_bytes_last fuel : forall v, 0 < v < 128 ^ Z.of_nat fuel ->
  leb_bytes fuel v <> [] /\ 0 < last (leb_bytes fuel v) 0 /\
  v < 128 ^ Z.of_nat (length (leb_bytes fuel v) - 1) * (last (leb_bytes fuel v) 0 + 1).
Proof.
  induction fuel as [|fuel IH]; intros v Hv; [cbn in Hv; lia|]. cbn [leb_bytes].
  rewrite Nat2Z.inj_succ, Z.pow_succ_r in Hv by lia. destruct (Z.ltb_spec v 128) as [L|L].
  - cbn [last length Nat.sub]. change (128 ^ Z.of_nat 0) with 1. split; [discriminate|lia].
  - destruct (IH (v / 128)) as (N & P & B); [lia_div|]. split; [discriminate|]. rewrite last_cons_ne by exact N. split; [exact P|].
    cbn [length]. replace (S (length (leb_bytes fuel (v / 128))) - 1)%nat with (S (length (leb_bytes fuel (v / 128)) - 1)).
    + rewrite Nat2Z.inj_succ, Z.pow_succ_r by lia. pose proof (Z.div_mod v 128 ltac:(lia)). pose proof (Z.mod_pos_bound v 128 ltac:(lia)).
      set (K := 128 ^ _) in *. clearbody K. nia.
    + destruct (leb_bytes fuel (v / 128)); [congruence|cbn; lia].
Qed.

Section TooLong.
Context {St : Type} `{ReaderLaws St}.

(** The last byte does not fit, wherever it stands below bit 63. *)
Lemma varint32_loop_rejects bs : forall fuel i r s rest beyond, is_varint bs -> (length bs <= fuel)%nat -> 0 < i ->
  5 <= i + Z.of_nat (length bs) <= 9 -> 0 < last bs 0 -> (i + Z.of_nat (length bs) = 5 -> 16 <= last bs 0) ->
  holds s (bs ++ rest) beyond ->
  exists s', varint32_loop fuel r (7 * i) s = (None, s') /\ errmsg s' = set_error (errmsg s) varint_overflow.
Proof.
  induction bs as [|b bs IH]; intros fuel i r s rest beyond G Hf Hi Hl P P5 Hs; [destruct G|].
  cbn [length] in *. destruct fuel as [|fuel]; [lia|]. cbn [varint32_loop].
  destruct (yields_readbyte b s (bs ++ rest) beyond Hs) as (s1 & E1 & Hs1 & M1). rewrite (bind_some _ _ _ _ _ E1).
  pose proof (Z.mod_pos_bound b 128 ltac:(lia)) as Hx. destruct bs as [|c bs].
  - cbn [is_varint last length] in *. destruct (Z.leb_spec 32 (7 * i)).
    + rewrite land_127, Z.mod_small by lia. destruct (Z.eqb_spec b 0); [lia|]. cbn [negb andb].
      replace (b =? (if 7 * i <? 63 then 255 else 1)) with false by (symmetry; destruct (Z.ltb_spec (7 * i) 63); [apply Z.eqb_neq|]; lia).
      cbn [negb]. rewrite orb_true_r. eexists. split; [reflexivity|]. cbn [errmsg]. now rewrite M1.
    + cbn beta zeta iota. unfold bind at 1. cbn [ret]. rewrite continues_ge by (unfold word_ok; lia). rewrite (proj2 (Z.leb_gt _ _)) by lia.
      assert (i = 4) by lia. subst i. change (u8 (7 * 4 + 7) =? 35) with true. cbn [andb].
      specialize (P5 ltac:(lia)). assert (T : forallb (fun b => (b <? 16) || (128 <=? b) || negb (Z.land b 112 =? 0)) all_bytes = true) by reflexivity.
      pose proof (byte_cases _ T b ltac:(unfold word_ok; lia)) as T'. cbn beta in T'.
      rewrite (proj2 (Z.ltb_ge b 16)), (proj2 (Z.leb_gt 128 b)) in T' by lia. cbn [orb] in T'. rewrite T'.
      eexists. split; [reflexivity|]. cbn [errmsg]. now rewrite M1.
  - destruct G as [Hb G]. rewrite last_cons_ne in P, P5 by discriminate.
    match goal with |- context [bind ?m ?k s1] => destruct (m s1) as [[r'|] s2] eqn:E2 end.
    + assert (s2 = s1).
      { destruct (32 <=? 7 * i); [|now injection E2]. destruct (_ && _); [discriminate E2|now injection E2]. }
      subst s2. rewrite (bind_some _ _ _ _ _ E2). cbn zeta. rewrite continues_ge by (unfold word_ok; lia).
      rewrite (proj2 (Z.leb_le _ _)) by lia. cbn [length] in *. rewrite (wrap_small 8) by (unfold word_ok; lia).
      replace (7 * i + 7) with (7 * (i + 1)) by lia.
      destruct (IH fuel (i + 1) r' s1 rest beyond G) as (s' & R & M'); try lia; [exact Hs1|]. exists s'. split; [exact R|]. now rewrite M', M1.
    + rewrite (bind_none _ _ _ _ E2). destruct (32 <=? 7 * i); [|discriminate E2]. destruct (_ && _); [|discriminate E2].
      injection E2 as <-. eexists. split; [reflexivity|]. cbn [errmsg]. now rewrite M1.
Qed.

Lemma varint32_rejects v s rest beyond : 2 ^ 32 <= v < 2 ^ 63 -> holds s (varint v ++ rest) beyond ->
  exists s', pb_decode_varint32 s = (None, s') /\ errmsg s' = set_error (errmsg s) varint_overflow.
Proof.
  intros Hv Hs. destruct (varint_spec v) as (G & E & _); [unfold word_ok; lia|].
  destruct (leb_bytes_last 10 v) as (_ & P & B); [change (128 ^ Z.of_nat 10) with (2 ^ 70); lia|]. fold (varint v) in P, B.
  assert (L9 : (length (varint v) <= 9)%nat) by (apply leb_bytes_short; [change (128 ^ Z.of_nat 9) with (2 ^ 63)|]; lia).
  pose proof (leb_val_bound (varint v)) as V. rewrite E in V. unfold pb_decode_varint32, pb_decode_varint32_eof.
  destruct (varint v) as [|b bs]; [destruct G|]. destruct (yields_readbyte b s (bs ++ rest) beyond Hs) as (s1 & -> & Hs1 & M1).
  assert (L5 : (5 <= length (b :: bs))%nat).
  { destruct (Nat.le_gt_cases 5 (length (b :: bs))) as [|L]; [assumption|]. exfalso.
    assert (128 ^ Z.of_nat (length (b :: bs)) <= 128 ^ 4) by (apply Z.pow_le_mono_r; lia). lia. }
  destruct bs as [|c bs]; [cbn in L5; lia|]. destruct G as [Hb G]. rewrite last_cons_ne in P, B by discriminate.
  pose proof (continues_ge b ltac:(unfold word_ok; lia)) as C.
  rewrite (proj2 (Z.leb_le 128 b)) in C by lia. apply negb_true_iff in C. rewrite C. cbn [length] in *.
  pose proof (varint32_loop_rejects (c :: bs) (S (Z.to_nat (bytes_left s1))) 1 (Z.land b 127) s1 rest beyond G) as R.
  change (7 * 1) with 7 in R. destruct R as (s' & -> & M'); [| |cbn [length]; lia|exact P| |exact Hs1|].
  - destruct Hs1 as (_ & L1 & _). rewrite L1, length_app. cbn [length]. lia.
  - lia.
  - intros L. cbn [length] in L. replace (S (S (length bs)) - 1)%nat with 4%nat in B by lia. change (128 ^ Z.of_nat 4) with (2 ^ 28) in B. lia.
  - exists s'. split; [reflexivity|]. now rewrite M', M1.
Qed.
End TooLong.

(** ** Claims *)

(** A value as the wire carries it *)
Inductive wire_value := WVarint (v : Z) | WSvarint (v : Z) | WFixed64 (v : Z) | WFixed32 (v : Z) | WString (l : list Z).

Definition wire_ok (w : wire_value) : Prop :=
  match w with
  | WVarint v | WFixed64 v => word_ok 64 v
  | WFixed32 v => word_ok 32 v
  | WSvarint v => - 2 ^ 63 <= v < 2 ^ 63
  | WString l => Z.of_nat (length l) < 2 ^ 32
  end.

Definition wire_type (w : wire_value) : Z :=
  match w with
  | WVarint _ | WSvarint _ => PB_WT_VARINT
  | WFixed64 _ => PB_WT_64BIT
  | WFixed32 _ => PB_WT_32BIT
  | WString _ => PB_WT_STRING
  end.

(** The call that writes the value after its tag *)
Definition encode_value {St} `{Writer St} (w : wire_value) : SE (pb_ostream_t St) unit :=
  match w with
  | WVarint v => pb_encode_varint v
  | WSvarint v => pb_encode_svarint v
  | WFixed64 v => pb_encode_fixed64 v
  | WFixed32 v => pb_encode_fixed32 v
  | WString l => pb_encode_string l (Z.of_nat (length l))
  end.

Definition encode_wire_field {St} `{Writer St} (number : Z) (w : wire_value) : SE (pb_ostream_t St) unit :=
  pb_encode_tag (wire_type w) number ;;; encode_value w.

(** The bytes of the value *)
Definition value_bytes (w : wire_value) : list Z :=
  match w with
  | WVarint v => varint v
  | WSvarint v => varint (zigzag v)
  | WFixed64 v => le_bytes 8 v
  | WFixed32 v => le_bytes 4 v
  | WString l => varint (Z.of_nat (length l)) ++ l
  end.

Lemma wire_type_range w : 0 <= wire_type w < 8.
Proof. destruct w; cbn; unfold PB_WT_VARINT, PB_WT_64BIT, PB_WT_32BIT, PB_WT_STRING; lia. Qed.

Lemma emits_value {St} `{WriterLaws St} w : wire_ok w -> emits (encode_value w) (value_bytes w).
Proof.
  destruct w; cbn [wire_ok encode_value value_bytes]; intros; auto using emits_varint, emits_svarint, emits_fixed64, emits_fixed32.
  apply emits_string. lia.
Qed.

Lemma emits_field {St} `{WriterLaws St} number w : wire_ok w -> 0 <= number < 2 ^ 32 ->
  emits (encode_wire_field number w) (varint (tag_word (wire_type w) number) ++ value_bytes w).
Proof. intros Hw Hn. apply emits_seq; [apply emits_tag; [apply wire_type_range|exact Hn]|now apply emits_value]. Qed.

Lemma yields_skip_value {St} `{ReaderLaws St} w : wire_ok w -> yields (pb_skip_field (wire_type w)) (value_bytes w) tt.
Proof.
  destruct w as [v|v|v|v|l]; cbn [wire_ok wire_type value_bytes]; intros Hw; unfold pb_skip_field; cbn [Z.eqb PB_WT_VARINT PB_WT_64BIT PB_WT_32BIT PB_WT_STRING].
  - apply yields_skip_varint, varint_spec, Hw.
  - apply yields_skip_varint, varint_spec, zigzag_ok, Hw.
  - pose proof (yields_skip_unit (le_bytes 8 v)) as Y. rewrite length_le_bytes in Y. exact Y.
  - pose proof (yields_skip_unit (le_bytes 4 v)) as Y. rewrite length_le_bytes in Y. exact Y.
  - now apply yields_skip_string.
Qed.

(** The value read from the stream [s] is [w], and [rest] is left. *)
Definition value_read {St} `{ReaderLaws St} (w : wire_value) (s : pb_istream_t St) (rest beyond : list Z) : Prop :=
  match w with
  | WVarint v => exists s', pb_decode_varint s = (Some v, s') /\ holds s' rest beyond
  | WSvarint v => exists s', pb_decode_svarint s = (Some v, s') /\ holds s' rest beyond
  | WFixed64 v => exists s', pb_decode_fixed64 s = (Some v, s') /\ holds s' rest beyond
  | WFixed32 v => exists s', pb_decode_fixed32 s = (Some v, s') /\ holds s' rest beyond
  | WString l => exists sub s1, pb_make_string_substream s = (Some sub, s1) /\ holds sub l (rest ++ beyond) /\
      forall sub' l', holds sub' l' (rest ++ beyond) ->
        exists s', pb_close_string_substream sub' s1 = (Some tt, s') /\ holds s' rest beyond
  end.

Lemma value_read_spec {St} `{ReaderLaws St} w s rest beyond :
  wire_ok w -> holds s (value_bytes w ++ rest) beyond -> value_read w s rest beyond.
Proof.
  intros Hw Hs. pose proof Hs as (_ & _ & B). rewrite length_app in B.
  destruct w as [v|v|v|v|l]; cbn [wire_ok value_bytes value_read] in *.
  - destruct (yields_varint_of v Hw s rest beyond Hs) as (s' & ? & ? & _). exists s'. split; assumption.
  - destruct (yields_svarint v Hw s rest beyond Hs) as (s' & ? & ? & _). exists s'. split; assumption.
  - destruct (yields_fixed64 v Hw s rest beyond Hs) as (s' & ? & ? & _). exists s'. split; assumption.
  - destruct (yields_fixed32 v Hw s rest beyond Hs) as (s' & ? & ? & _). exists s'. split; assumption.
  - destruct (make_substream_spec l s rest beyond Hw Hs) as (sub & s1 & E & Hsub & L & _). exists sub, s1. split; [exact E|].
    split; [exact Hsub|]. intros sub' l' Hsub'. destruct (close_substream_spec sub' s1 l' rest beyond ltac:(lia) Hsub' L) as (s' & ? & ? & _).
    exists s'. split; assumption.
Qed.

(** C9: A field comes back from the wire: over any reader and any writer that
    keep their contracts, the tag and the value that [pb_encode_tag] and the
    encoder of the value write are read back by [pb_decode_tag] and the
    decoder, [pb_skip_field] skips exactly the value, and after a string's
    substream is closed, however much of it was read, the stream stands
    behind the string. *)
Theorem pb_field_roundtrip {R W : Type} `{ReaderLaws R} `{WriterLaws W} (number : Z) (w : wire_value)
  (Hn : 0 < number < 2 ^ 29) (Hw : wire_ok w) :
  exists bs, emits (St := W) (encode_wire_field number w) bs /\
    forall (s : pb_istream_t R) rest beyond eof, holds s (bs ++ rest) beyond ->
      exists s1, pb_decode_tag (s, eof) = (Some (number, wire_type w), (s1, false)) /\
        value_read w s1 rest beyond /\
        exists s2, pb_skip_field (wire_type w) s1 = (Some tt, s2) /\ holds s2 rest beyond /\ errmsg s2 = errmsg s.
Proof.
  exists (varint (tag_word (wire_type w) number) ++ value_bytes w). split; [apply emits_field; [exact Hw|lia]|].
  intros s rest beyond eof Hs. rewrite <- app_assoc in Hs. pose proof (wire_type_range w) as Ht.
  destruct (decode_tag_spec s (wire_type w) number eof _ beyond Ht ltac:(unfold tag_word; lia) Hs) as (s1 & E & Hs1 & M1).
  exists s1. split; [exact E|]. split; [now apply value_read_spec|].
  destruct (yields_skip_value w Hw s1 rest beyond Hs1) as (s2 & E2 & Hs2 & M2). exists s2. split; [exact E2|]. split; [exact Hs2|congruence].
Qed.

(** C10: A field is written entirely or the stream reports it full: the
    counting stream tells the size beforehand, a buffer of at least that size
    receives exactly that many bytes, and in a smaller buffer encoding fails
    with "stream full" without a byte beyond its end. *)
Theorem pb_encode_fits (number : Z) (w : wire_value) (bufsize : Z)
  (Hn : 0 <= number < 2 ^ 32) (Hw : wire_ok w) (Hb : word_ok 64 bufsize) :
  exists size, encode_wire_field number w (PB_OSTREAM_SIZING []) = (Some tt, mk_ostream true [] 0 size None) /\
    if size <=? bufsize then exists bs, Z.of_nat (length bs) = size /\
      encode_wire_field number w (pb_ostream_from_buffer bufsize) = (Some tt, mk_ostream false bs bufsize size None)
    else exists bs, Z.of_nat (length bs) <= bufsize /\
      encode_wire_field number w (pb_ostream_from_buffer bufsize) =
        (None, mk_ostream false bs bufsize (Z.of_nat (length bs)) (Some stream_full)).
Proof.
  pose proof (emits_field (St := list Z) number w Hw Hn) as E. set (bs := varint _ ++ value_bytes w) in E.
  assert (L : Z.of_nat (length bs) < 2 ^ 64).
  { subst bs. rewrite length_app. destruct (varint_spec (tag_word (wire_type w) number)) as (_ & _ & L1).
    { pose proof (wire_type_range w). unfold tag_word, word_ok. lia. }
    destruct w as [v|v|v|v|l]; cbn [wire_ok value_bytes] in *; rewrite ?length_le_bytes; try lia.
    - pose proof (varint_spec v Hw) as (_ & _ & L2). lia.
    - pose proof (varint_spec (zigzag v) (zigzag_ok v Hw)) as (_ & _ & L2). lia.
    - rewrite length_app. destruct (varint_spec (Z.of_nat (length l))) as (_ & _ & L2); [unfold word_ok; lia|]. lia. }
  exists (Z.of_nat (length bs)). split; [apply (E [] 0 0 None); lia|].
  destruct (E [] bufsize 0 None ltac:(lia) ltac:(lia)) as (_ & Fits & Full). cbn [Z.add] in *.
  unfold word_ok in Hb. destruct (Z.leb_spec (Z.of_nat (length bs)) bufsize) as [Le|Gt].
  - destruct (Fits Le) as (st & R & P). cbn in P. subst st. now exists bs.
  - destruct (Full ltac:(lia)) as (st & p & tail & _ & R & P & B). cbn in P. subst st. now exists p.
Qed.

(** C11: [pb_decode_varint] succeeds exactly when the stream starts with a
    varint of at most ten bytes; the result is its value modulo [2^64] and
    exactly its bytes are consumed.  Otherwise the message is "varint
    overflow" if ten bytes were there and "end-of-stream" if not. *)
Theorem pb_decode_varint_exact {R : Type} `{ReaderLaws R} (s : pb_istream_t R) (l beyond : list Z)
  (Hs : holds s l beyond) (Hl : bytes_ok l) :
  match pb_decode_varint s with
  | (Some v, s') => exists bs rest, l = bs ++ rest /\ is_varint bs /\ (length bs <= 10)%nat /\
      v = u64 (leb_val bs) /\ holds s' rest beyond
  | (None, s') => (~ exists bs rest, l = bs ++ rest /\ is_varint bs /\ (length bs <= 10)%nat) /\
      errmsg s' = set_error (errmsg s) (if (length l <? 10)%nat then end_of_stream else varint_overflow)
  end.
Proof.
  destruct (varint_split 10 l Hl) as [(bs & rest & -> & G & L)|(ts & rest & -> & F & L & E)].
  - destruct (yields_varint bs G L s rest beyond Hs) as (s' & -> & Hs' & _). now exists bs, rest.
  - destruct (varint_loop_fails ts 11 0 0 s rest beyond Hs F) as (s' & R1 & M); [lia..| |lia|].
    + destruct E as [->|E]; [|right; lia]. destruct (Nat.eq_dec (length ts) 10); [right; lia|left; split; [reflexivity|lia]].
    + change (pb_decode_varint s) with (varint_loop 11 0 (7 * 0) s). rewrite R1.
      split; [apply varint_no_prefix; [exact F|]; destruct E; [now left|right; lia]|].
      rewrite M. replace (0 + Z.of_nat (length ts) <? 10) with (length (ts ++ rest) <? 10)%nat; [reflexivity|].
      rewrite length_app. destruct (Nat.ltb_spec (length ts + length rest) 10), (Z.ltb_spec (0 + Z.of_nat (length ts)) 10);
        try reflexivity; destruct E as [->|E]; cbn [length] in *; lia.
Qed.

(** [pb_decode_varint32] of the varint of a value is that value below
    [2^32], and the error "varint overflow" from there to [2^63]. *)
Theorem pb_decode_varint32_range {R : Type} `{ReaderLaws R} (v : Z) (s : pb_istream_t R) (rest beyond : list Z)
  (Hv : 0 <= v < 2 ^ 63) (Hs : holds s (varint v ++ rest) beyond) :
  exists s', if v <? 2 ^ 32 then pb_decode_varint32 s = (Some v, s') /\ holds s' rest beyond
    else pb_decode_varint32 s = (None, s') /\ errmsg s' = set_error (errmsg s) varint_overflow.
Proof.
  destruct (Z.ltb_spec v (2 ^ 32)).
  - destruct (yields_varint32_of v ltac:(unfold word_ok; lia) s rest beyond Hs) as (s' & ? & ? & _). exists s'. split; assumption.
  - apply (varint32_rejects v s rest beyond); [lia|exact Hs].
Qed.

(** [pb_decode_varint32] does not see every overflow: a value of [7 * 2^32]
    in six bytes reads as 0, [2^63 + 2^31] reads as [2^31], and since the
    position of the bits is a byte that wraps around, after 36 bytes 80 the
    bits of the next ones are taken for low bits again, so that 37 bytes 80
    and a 1 read as 8. *)
Theorem pb_decode_varint32_misses_overflow :
  let stream bs := pb_istream_from_buffer bs (Z.of_nat (length bs)) in
  let long := [128; 128; 128; 128; 240; 0] in
  let high := varint (2 ^ 63 + 2 ^ 31) in
  let wrapped := repeat 128 37 ++ [1] in
  is_varint long /\ leb_val long = 7 * 2 ^ 32 /\ fst (pb_decode_varint32 (stream long)) = Some 0 /\
  leb_val high = 2 ^ 63 + 2 ^ 31 /\ fst (pb_decode_varint32 (stream high)) = Some (2 ^ 31) /\
  leb_val wrapped = 2 ^ 259 /\ fst (pb_decode_varint32 (stream wrapped)) = Some 8.
Proof. cbv zeta. repeat split; vm_compute; congruence. Qed.

(** *** The claims at work *)

(** A source that is not a memory stream: it hands out the bytes of a file. *)
Record file := mk_file { contents : list Z }.

#[export] Instance file_reader : Reader file := {|
  read_callback := fun n s =>
    (Some (firstn (Z.to_nat n) (contents (state s))),
     mk_istream (mk_file (skipn (Z.to_nat n) (contents (state s)))) (bytes_left s) (errmsg s));
  is_buf_read := false
|}.

#[export] Instance file_reader_laws : ReaderLaws file.
Proof. exists contents. intros n s _. now exists (mk_file (skipn (Z.to_nat n) (contents (state s)))). Defined.

Definition from_file (bs : list Z) : pb_istream_t file := mk_istream (mk_file bs) (Z.of_nat (length bs)) None.

Lemma from_file_holds bs : Z.of_nat (length bs) < 2 ^ 64 -> holds (from_file bs) bs [].
Proof. intros L. split; [symmetry; apply app_nil_r|]. split; [reflexivity|exact L]. Qed.

Lemma pb_field_roundtrip_witness : exists bs, emits (St := list Z) (encode_wire_field 5 (WString [104; 105])) bs /\
  forall (s : pb_istream_t file) rest beyond eof, holds s (bs ++ rest) beyond ->
    exists s1, pb_decode_tag (s, eof) = (Some (5, PB_WT_STRING), (s1, false)) /\ value_read (WString [104; 105]) s1 rest beyond.
Proof.
  destruct (pb_field_roundtrip (R := file) (W := list Z) 5 (WString [104; 105]) ltac:(lia) ltac:(cbn [wire_ok length]; lia)) as (bs & E & F).
  exists bs. split; [exact E|]. intros s rest beyond eof Hs. destruct (F s rest beyond eof Hs) as (s1 & D & V & _).
  exists s1. split; [exact D|exact V].
Defined.

Lemma pb_encode_fits_witness : exists size,
  encode_wire_field 5 (WSvarint (-3)) (PB_OSTREAM_SIZING []) = (Some tt, mk_ostream true [] 0 size None) /\ size = 2.
Proof.
  destruct (pb_encode_fits 5 (WSvarint (-3)) 1 ltac:(lia) ltac:(unfold wire_ok; lia) ltac:(unfold word_ok; lia)) as (size & E & _).
  exists size. split; [exact E|]. vm_compute in E. congruence.
Defined.

Lemma pb_decode_varint_exact_witness : match pb_decode_varint (from_file [172; 2; 7]) with
  | (Some v, s') => exists bs rest, [172; 2; 7] = bs ++ rest /\ is_varint bs /\ (length bs <= 10)%nat /\
      v = u64 (leb_val bs) /\ holds s' rest []
  | (None, s') => (~ exists bs rest, [172; 2; 7] = bs ++ rest /\ is_varint bs /\ (length bs <= 10)%nat) /\
      errmsg s' = set_error None (if (length [172; 2; 7] <? 10)%nat then end_of_stream else varint_overflow)
  end.
Proof.
  exact (pb_decode_varint_exact (from_file [172; 2; 7]) [172; 2; 7] [] (from_file_holds [172; 2; 7] ltac:(cbn [length]; lia))
    ltac:(repeat constructor; unfold word_ok; lia)).
Defined.

Lemma pb_decode_varint32_range_witness : exists s',
  pb_decode_varint32 (from_file [128; 128; 128; 128; 16]) = (None, s') /\ errmsg s' = Some varint_overflow.
Proof.
  destruct (pb_decode_varint32_range (2 ^ 32) (from_file [128; 128; 128; 128; 16]) [] [] ltac:(lia)
    (from_file_holds [128; 128; 128; 128; 16] ltac:(cbn [length]; lia))) as (s' & E & M).
  exists s'. split; [exact E|exact M].
Defined.
