(* ===== verification/PbMem.v ===== *)
(** * Protocol Buffers messages in memory: the ground under nanopb

    nanopb reads and writes C structs through tables of field descriptors
    ([pb_field_t]) with offsets and sizes.  Here is what the encoder and the
    decoder share: a byte-addressed memory, the descriptors, and the field
    iterator of [pb_common.c].  An address is a [Z], NULL is 0; words are
    little-endian.  A program has four outcomes ([outcome]): it returns [true]
    with a result, it returns [false], it touches an address that is not
    mapped ([Fault]), or its fuel ends ([Diverged]). *)

From Stdlib Require Import ZArith Lia ZifyNat List Bool.
From S2P Require Import Prelude PbStream.
Import ListNotations.

(** ** Definitions *)

(** *** Memory *)

Definition memory : Type := Z -> option Z.

Fixpoint load_bytes (m : memory) (a : Z) (n : nat) : option (list Z) :=
  match n with
  | O => Some []
  | S n =>
      match m a, load_bytes m (a + 1) n with
      | Some b, Some bs => Some (b :: bs)
      | _, _ => None
      end
  end.

(** A little-endian word of [n] bytes *)
Definition load (m : memory) (a : Z) (n : nat) : option Z := option_map le_val (load_bytes m a n).

Definition mapped (m : memory) (a : Z) (n : nat) : bool := if load_bytes m a n then true else false.

Definition store_bytes (m : memory) (a : Z) (bs : list Z) : option memory :=
  if mapped m a (length bs)
  then Some (fun x => if (a <=? x) && (x <? a + Z.of_nat (length bs)) then Some (at_ bs (x - a)) else m x)
  else None.

Definition store (m : memory) (a : Z) (n : nat) (v : Z) : option memory := store_bytes m a (le_bytes n v).

(** *** Programs *)

Inductive outcome (S A : Type) := Done (a : A) (s : S) | Failed (s : S) | Fault | Diverged.
Arguments Done {S A}.
Arguments Failed {S A}.
Arguments Fault {S A}.
Arguments Diverged {S A}.

Definition M (S A : Type) : Type := S -> outcome S A.

Section Programs.
Context {S : Type}.

Definition m_ret {A} (a : A) : M S A := fun s => Done a s.
Definition m_fail {A} : M S A := fun s => Failed s.
Definition m_fault {A} : M S A := fun _ => Fault.
Definition m_diverged {A} : M S A := fun _ => Diverged.
Definition m_bind {A B} (m : M S A) (k : A -> M S B) : M S B := fun s =>
  match m s with
  | Done a s => k a s
  | Failed s => Failed s
  | Fault => Fault
  | Diverged => Diverged
  end.

(** A stream program that touches no memory *)
Definition lift {A} (m : SE S A) : M S A := fun s =>
  match m s with
  | (Some a, s) => Done a s
  | (None, s) => Failed s
  end.

(** A read that may fault *)
Definition m_opt {A} (o : option A) : M S A :=
  match o with
  | Some a => m_ret a
  | None => m_fault
  end.
End Programs.

Declare Scope m_scope.
Delimit Scope m_scope with m.
Notation "x <- m ;; k" := (m_bind m (fun x => k)) (at level 100, m at next level, right associativity) : m_scope.
Notation "m ;;; k" := (m_bind m (fun _ => k)) (at level 100, right associativity) : m_scope.

(** *** Field descriptors *)

(** [ptr] of a descriptor: the fields of a submessage (the name of their
    table), a default value, or NULL. *)
Inductive field_ptr := ptr_null | ptr_fields (table : Z) | ptr_default (bytes : list Z).

Record pb_field_t := mk_field {
  tag : Z;
  type : Z;
  data_offset : Z;
  size_offset : Z;
  data_size : Z;
  array_size : Z;
  ptr : field_ptr
}.

(** [PB_LAST_FIELD] *)
Definition PB_LAST_FIELD : pb_field_t := mk_field 0 0 0 0 0 0 ptr_null.

Definition PB_LTYPE_BOOL : Z := 0.
Definition PB_LTYPE_VARINT : Z := 1.
Definition PB_LTYPE_UVARINT : Z := 2.
Definition PB_LTYPE_SVARINT : Z := 3.
Definition PB_LTYPE_FIXED32 : Z := 4.
Definition PB_LTYPE_FIXED64 : Z := 5.
Definition PB_LTYPE_LAST_PACKABLE : Z := 5.
Definition PB_LTYPE_BYTES : Z := 6.
Definition PB_LTYPE_STRING : Z := 7.
Definition PB_LTYPE_SUBMESSAGE : Z := 8.
Definition PB_LTYPE_EXTENSION : Z := 9.
Definition PB_LTYPE_FIXED_LENGTH_BYTES : Z := 10.
Definition PB_HTYPE_REQUIRED : Z := 0.
Definition PB_HTYPE_OPTIONAL : Z := 16.
Definition PB_HTYPE_REPEATED : Z := 32.
Definition PB_HTYPE_ONEOF : Z := 48.
Definition PB_ATYPE_STATIC : Z := 0.
Definition PB_ATYPE_POINTER : Z := 128.
Definition PB_ATYPE_CALLBACK : Z := 64.
Definition PB_ATYPE (x : Z) : Z := Z.land x 192.
Definition PB_HTYPE (x : Z) : Z := Z.land x 48.
Definition PB_LTYPE (x : Z) : Z := Z.land x 15.

(** [pb_size_t] is [uint32_t]; [bytes] of [pb_bytes_array_t] has offset 4. *)
Definition PB_SIZE_MAX : Z := 2 ^ 32 - 1.
Definition offsetof_bytes : Z := 4.
Definition sizeof_pointer : Z := 8.

(** *** The field iterator *)

(** [pos] is the index of the descriptor in the table [start]. *)
Record pb_field_iter_t := mk_iter {
  start : list pb_field_t;
  pos : nat;
  required_field_index : Z;
  dest_struct : Z;
  pData : Z;
  pSize : Z
}.

(** The descriptor at an index; the table ends with [PB_LAST_FIELD]. *)
Definition field_at (fields : list pb_field_t) (i : nat) : pb_field_t := nth i fields PB_LAST_FIELD.

Definition iter_field (iter : pb_field_iter_t) : pb_field_t := field_at (start iter) (pos iter).

Definition pb_field_iter_begin (fields : list pb_field_t) (dest : Z) : pb_field_iter_t * bool :=
  let f := field_at fields 0 in
  let data := if dest =? 0 then 0 else dest + data_offset f in
  let size := if dest =? 0 then 0 else data + size_offset f in
  (mk_iter fields 0 0 dest data size, negb (tag f =? 0)).

(** The bytes the previous field takes in the struct *)
Definition prev_size (f : pb_field_t) : Z :=
  if (PB_ATYPE (type f) =? PB_ATYPE_STATIC) && (PB_HTYPE (type f) =? PB_HTYPE_REPEATED)
  then size_t (data_size f * array_size f)
  else if PB_ATYPE (type f) =? PB_ATYPE_POINTER then sizeof_pointer
  else data_size f.

Definition pb_field_iter_next (iter : pb_field_iter_t) : pb_field_iter_t * bool :=
  let prev_field := iter_field iter in
  if tag prev_field =? 0 then (iter, false)
  else
    let f := field_at (start iter) (S (pos iter)) in
    if tag f =? 0 then (fst (pb_field_iter_begin (start iter) (dest_struct iter)), false)
    else if (PB_HTYPE (type prev_field) =? PB_HTYPE_ONEOF) && (PB_HTYPE (type f) =? PB_HTYPE_ONEOF)
              && (data_offset f =? PB_SIZE_MAX)
    then (mk_iter (start iter) (S (pos iter)) (required_field_index iter) (dest_struct iter) (pData iter) (pSize iter), true)
    else
      let index := if PB_HTYPE (type prev_field) =? PB_HTYPE_REQUIRED then u32 (required_field_index iter + 1)
                   else required_field_index iter in
      let data := pData iter + prev_size prev_field + data_offset f in
      (mk_iter (start iter) (S (pos iter)) index (dest_struct iter) data (data + size_offset f), true).

(** The loop of [pb_field_iter_find]: at most once around the table. *)
Fixpoint iter_find_loop (fuel : nat) (first : nat) (t : Z) (iter : pb_field_iter_t) : pb_field_iter_t * bool :=
  match fuel with
  | O => (iter, false)
  | S fuel =>
      if (tag (iter_field iter) =? t) && negb (PB_LTYPE (type (iter_field iter)) =? PB_LTYPE_EXTENSION) then (iter, true)
      else
        let iter := fst (pb_field_iter_next iter) in
        if Nat.eqb (pos iter) first then (iter, false) else iter_find_loop fuel first t iter
  end.

Definition pb_field_iter_find (iter : pb_field_iter_t) (t : Z) : pb_field_iter_t * bool :=
  iter_find_loop (S (length (start iter))) (pos iter) t iter.

(** ** The iterator walks the table

    A table is well formed when it has a field and no tag is 0. *)
Definition fields_ok (fields : list pb_field_t) : Prop :=
  fields <> [] /\ Forall (fun f => tag f <> 0) fields.

(** The iterator after [i] steps *)
Fixpoint iter_at (fields : list pb_field_t) (dest : Z) (i : nat) : pb_field_iter_t :=
  match i with
  | O => fst (pb_field_iter_begin fields dest)
  | S i => fst (pb_field_iter_next (iter_at fields dest i))
  end.

Section Iterator.
Context (fields : list pb_field_t) (dest : Z) (Hf : fields_ok fields).

Lemma tag_in i : (i < length fields)%nat -> tag (field_at fields i) <> 0.
Proof. intros Hi. destruct Hf as [_ F]. rewrite Forall_forall in F. apply F, nth_In, Hi. Qed.

Lemma tag_past i : (length fields <= i)%nat -> tag (field_at fields i) = 0.
Proof. intros Hi. unfold field_at. now rewrite nth_overflow. Qed.

Lemma iter_at_start i : start (iter_at fields dest i) = fields /\ dest_struct (iter_at fields dest i) = dest.
Proof.
  induction i as [|i [IH1 IH2]]; [split; reflexivity|]. cbn [iter_at]. unfold pb_field_iter_next.
  destruct (tag (iter_field _) =? 0); [auto|]. rewrite IH1, IH2. destruct (tag _ =? 0); [split; reflexivity|].
  destruct (_ && _ && _); split; reflexivity.
Qed.

Lemma iter_at_pos i : (i < length fields)%nat -> pos (iter_at fields dest i) = i.
Proof.
  induction i as [|i IH]; intros Hi; [reflexivity|]. cbn [iter_at]. unfold pb_field_iter_next, iter_field.
  destruct (iter_at_start i) as [-> _]. rewrite IH by lia.
  rewrite (proj2 (Z.eqb_neq _ _) (tag_in i ltac:(lia))), (proj2 (Z.eqb_neq _ _) (tag_in (S i) Hi)).
  destruct (_ && _ && _); reflexivity.
Qed.

Lemma iter_at_field i : (i < length fields)%nat -> iter_field (iter_at fields dest i) = field_at fields i.
Proof. intros Hi. unfold iter_field. now rewrite (proj1 (iter_at_start i)), iter_at_pos. Qed.

(** A step from the last field goes back to the first. *)
Lemma next_at i : (i < length fields)%nat ->
  pb_field_iter_next (iter_at fields dest i) =
    if Nat.eqb (S i) (length fields) then (iter_at fields dest 0, false) else (iter_at fields dest (S i), true).
Proof.
  intros Hi. destruct (Nat.eqb_spec (S i) (length fields)) as [E|N]; [|cbn [iter_at]]; unfold pb_field_iter_next;
    rewrite iter_at_field, iter_at_pos by exact Hi; destruct (iter_at_start i) as [-> ->];
    rewrite (proj2 (Z.eqb_neq _ _) (tag_in i Hi)).
  - now rewrite (tag_past (S i)) by lia.
  - rewrite (proj2 (Z.eqb_neq _ _) (tag_in (S i) ltac:(lia))). destruct (_ && _ && _); reflexivity.
Qed.

Definition matches (t : Z) (i : nat) : bool :=
  (tag (field_at fields i) =? t) && negb (PB_LTYPE (type (field_at fields i)) =? PB_LTYPE_EXTENSION).

(** Around the table from [i], [k] fields before the one it started at *)
Lemma iter_find_loop_spec t : forall k fuel first i, (i < length fields)%nat -> (first < length fields)%nat -> (0 < k <= fuel)%nat ->
  (first = if Nat.ltb (i + k) (length fields) then i + k else i + k - length fields)%nat -> (k <= length fields)%nat ->
  match iter_find_loop fuel first t (iter_at fields dest i) with
  | (it, true) => exists j, (j < length fields)%nat /\ it = iter_at fields dest j /\ matches t j = true
  | (it, false) => it = iter_at fields dest first /\
      forall d, (d < k)%nat -> matches t (if Nat.ltb (i + d) (length fields) then i + d else i + d - length fields)%nat = false
  end.
Proof.
  induction k as [|k IH]; intros fuel first i Hi Hfirst Hk Efirst Hkl; [lia|]. destruct fuel as [|fuel]; [lia|]. cbn [iter_find_loop].
  rewrite iter_at_field by exact Hi. change (_ && _) with (matches t i). destruct (matches t i) eqn:E; [now exists i|].
  rewrite next_at by exact Hi.
  set (i' := if Nat.eqb (S i) (length fields) then 0%nat else S i).
  assert (Hi' : (i' < length fields)%nat) by (subst i'; destruct (Nat.eqb_spec (S i) (length fields)); lia).
  assert (Ei : fst (if Nat.eqb (S i) (length fields) then (iter_at fields dest 0, false) else (iter_at fields dest (S i), true))
    = iter_at fields dest i') by (subst i'; destruct (Nat.eqb (S i) (length fields)); reflexivity).
  rewrite Ei, iter_at_pos by exact Hi'.
  assert (Step : forall d, (if Nat.ltb (i + S d) (length fields) then i + S d else i + S d - length fields)%nat =
    (if Nat.ltb (i' + d) (length fields) then i' + d else i' + d - length fields)%nat \/ (length fields <= d)%nat).
  { intros d. subst i'. destruct (Nat.eqb_spec (S i) (length fields)), (Nat.ltb_spec (i + S d) (length fields));
      [lia| | |]; [destruct (Nat.ltb_spec (0 + d) (length fields))|destruct (Nat.ltb_spec (S i + d) (length fields))|
        destruct (Nat.ltb_spec (S i + d) (length fields))]; lia. }
  destruct (Nat.eqb_spec i' first) as [Eq|Ne].
  - split; [now rewrite Eq|]. assert (k = 0)%nat as ->.
    { subst i'. destruct (Nat.eqb_spec (S i) (length fields)), (Nat.ltb_spec (i + S k) (length fields)); lia. }
    intros d Hd. replace d with 0%nat by lia. rewrite Nat.add_0_r, (proj2 (Nat.ltb_lt _ _) Hi). exact E.
  - destruct k as [|k].
    { exfalso. apply Ne. subst i'. destruct (Nat.eqb_spec (S i) (length fields)), (Nat.ltb_spec (i + 1) (length fields)); lia. }
    specialize (IH fuel first i' Hi' Hfirst ltac:(lia)).
    destruct (Step (S k)) as [Es|]; [|lia]. rewrite Es in Efirst. specialize (IH Efirst ltac:(lia)).
    destruct (iter_find_loop fuel first t (iter_at fields dest i')) as [it [|]]; [exact IH|]. destruct IH as [-> IH].
    split; [reflexivity|]. intros [|d] Hd; [rewrite Nat.add_0_r, (proj2 (Nat.ltb_lt _ _) Hi); exact E|].
    destruct (Step d) as [->|]; [apply IH; lia|lia].
Qed.
End Iterator.

(** From wherever the iterator stands in a table, [pb_field_iter_find]
    goes around it at most once: it stops at a field with the tag that is no
    extension field, with the addresses the iterator has after walking there
    from the start, and reports failure, standing where it stood, exactly when
    the table has no such field. *)
Theorem pb_field_iter_find_correct (fields : list pb_field_t) (dest : Z) (i : nat) (t : Z)
  (Hf : fields_ok fields) (Hi : (i < length fields)%nat) :
  match pb_field_iter_find (iter_at fields dest i) t with
  | (it, true) => exists j, (j < length fields)%nat /\ it = iter_at fields dest j /\ iter_field it = field_at fields j /\
      tag (field_at fields j) = t /\ PB_LTYPE (type (field_at fields j)) <> PB_LTYPE_EXTENSION
  | (it, false) => it = iter_at fields dest i /\
      forall f, In f fields -> tag f = t -> PB_LTYPE (type f) = PB_LTYPE_EXTENSION
  end.
Proof.
  unfold pb_field_iter_find. rewrite (proj1 (iter_at_start fields dest i)), iter_at_pos by assumption.
  pose proof (iter_find_loop_spec fields dest Hf t (length fields) (S (length fields)) i i Hi Hi) as S.
  destruct (iter_find_loop _ i t _) as [it [|]].
  - destruct S as (j & Hj & -> & Mj); [lia|destruct (Nat.ltb_spec (i + length fields) (length fields)); lia|lia|].
    exists j. unfold matches in Mj. apply andb_prop in Mj as [M1%Z.eqb_eq M2%negb_true_iff%Z.eqb_neq]. rewrite iter_at_field by assumption. auto.
  - destruct S as [-> N]; [lia|destruct (Nat.ltb_spec (i + length fields) (length fields)); lia|lia|].
    split; [reflexivity|]. intros f Hin Ht. apply (In_nth _ _ PB_LAST_FIELD) in Hin as (j & Hj & Ej).
    destruct (Z.eq_dec (PB_LTYPE (type f)) PB_LTYPE_EXTENSION) as [|Ne]; [assumption|exfalso].
    specialize (N (if Nat.leb i j then j - i else j + length fields - i)%nat).
    assert (Ed : (if Nat.ltb (i + (if Nat.leb i j then j - i else j + length fields - i)) (length fields)
      then i + (if Nat.leb i j then j - i else j + length fields - i)
      else i + (if Nat.leb i j then j - i else j + length fields - i) - length fields)%nat = j).
    { destruct (Nat.leb_spec i j); [replace (i + (j - i))%nat with j by lia; now rewrite (proj2 (Nat.ltb_lt _ _) Hj)|].
      destruct (Nat.ltb_spec (i + (j + length fields - i)) (length fields)); lia. }
    rewrite Ed in N. unfold matches, field_at in N. rewrite Ej, Ht, Z.eqb_refl, (proj2 (Z.eqb_neq _ _) Ne) in N.
    cbn in N. discriminate N. destruct (Nat.leb_spec i j); lia.
Qed.

Definition two_fields : list pb_field_t := [mk_field 1 17 0 0 8 0 ptr_null; mk_field 2 17 0 0 4 0 ptr_null].

Lemma two_fields_ok : fields_ok two_fields.
Proof. split; [discriminate|]. repeat constructor; discriminate. Qed.

(** From the second field the iterator wraps around to the first. *)
Lemma pb_field_iter_find_correct_witness : exists j, (j < 2)%nat /\
  fst (pb_field_iter_find (iter_at two_fields 1000 1) 1) = iter_at two_fields 1000 j /\ tag (field_at two_fields j) = 1.
Proof.
  pose proof (pb_field_iter_find_correct two_fields 1000 1 1 two_fields_ok ltac:(cbn; lia)) as F.
  destruct (pb_field_iter_find (iter_at two_fields 1000 1) 1) as [it found] eqn:E. vm_compute in E. injection E as <- <-.
  destruct F as (j & Hj & Ej & _ & Tj & _). exists j. split; [exact Hj|]. split; [exact Ej|exact Tj].
Defined.
