(* ===== verification/PbEncode.v ===== *)
(** * The message encoder of nanopb ([pb_encode.c])

    The encoder walks a field table and the struct in memory and writes to a
    stream; it does not change the memory.  The functions of the source call
    each other through submessages, so they are written over the encoder for
    one level less ([encode]), and [pb_encode] ties the knot; a table may
    contain itself, so the depth is bounded by fuel.  The tables are generated
    code and the callbacks are the program's own: both are parameters, as is
    the bound on the length of strings and of extension lists in memory
    ([limit]). *)

From Stdlib Require Import ZArith Lia ZifyNat List Bool.
From S2P Require Import Prelude PbStream PbMem.
Import ListNotations.

#[local] Open Scope m_scope.

(** ** Definitions *)

(** The errors of this file beyond those of the stream are "array max size
    exceeded", "missing required field", "callback error", "invalid field
    type", "invalid field descriptor" and "submsg size changed". *)
Section Encode.
Context {St : Type} `{Writer St}.
Context (tables : Z -> list pb_field_t).
Context (mem : memory).
Context (limit : nat).
Context (encode_callback : Z -> pb_field_t -> Z -> M (pb_ostream_t St) unit).
Context (extension_callback : Z -> Z -> M (pb_ostream_t St) unit).

Definition ERROR {A} (msg : message) : M (pb_ostream_t St) A := lift (o_error msg).

Definition read_word (a : Z) (n : nat) : M (pb_ostream_t St) Z := m_opt (load mem a n).

(** [pb_write] from memory; nothing is read when nothing is written. *)
Definition write_memory (a size : Z) : M (pb_ostream_t St) unit := fun s =>
  let total := size_t (bytes_written s + size) in
  if (0 <? size) && negb (sizing s) && negb ((total <? bytes_written s) || (max_size s <? total)) then
    match load_bytes mem a (Z.to_nat size) with
    | Some bytes => lift (pb_write bytes size) s
    | None => Fault
    end
  else lift (pb_write [] size) s.

(** [pb_encode_string] from memory *)
Definition encode_string_at (a size : Z) : M (pb_ostream_t St) unit :=
  lift (pb_encode_varint size) ;;; write_memory a size.

(** [sizeof(bool)] is 1. *)
Definition safe_read_bool (a : Z) : M (pb_ostream_t St) bool :=
  v <- read_word a 1 ;; m_ret (negb (v =? 0)).

Definition pb_encode_tag_for_field (field : pb_field_t) : M (pb_ostream_t St) unit :=
  let ltype := PB_LTYPE (type field) in
  if (ltype =? PB_LTYPE_BOOL) || (ltype =? PB_LTYPE_VARINT) || (ltype =? PB_LTYPE_UVARINT) || (ltype =? PB_LTYPE_SVARINT)
  then lift (pb_encode_tag PB_WT_VARINT (tag field))
  else if ltype =? PB_LTYPE_FIXED32 then lift (pb_encode_tag PB_WT_32BIT (tag field))
  else if ltype =? PB_LTYPE_FIXED64 then lift (pb_encode_tag PB_WT_64BIT (tag field))
  else if (ltype =? PB_LTYPE_BYTES) || (ltype =? PB_LTYPE_STRING) || (ltype =? PB_LTYPE_SUBMESSAGE)
            || (ltype =? PB_LTYPE_FIXED_LENGTH_BYTES)
  then lift (pb_encode_tag PB_WT_STRING (tag field))
  else ERROR invalid_field_type.

Definition pb_enc_bool (field : pb_field_t) (src : Z) : M (pb_ostream_t St) unit :=
  b <- safe_read_bool src ;; lift (pb_encode_varint (if b then 1 else 0)).

(** A signed integer of the field's size *)
Definition read_signed (field : pb_field_t) (src : Z) : M (pb_ostream_t St) Z :=
  if data_size field =? 1 then v <- read_word src 1 ;; m_ret (sint 8 v)
  else if data_size field =? 2 then v <- read_word src 2 ;; m_ret (sint 16 v)
  else if data_size field =? 4 then v <- read_word src 4 ;; m_ret (sint 32 v)
  else if data_size field =? 8 then v <- read_word src 8 ;; m_ret (sint 64 v)
  else ERROR invalid_data_size.

Definition pb_enc_varint (field : pb_field_t) (src : Z) : M (pb_ostream_t St) unit :=
  value <- read_signed field src ;; lift (pb_encode_varint (u64 value)).

Definition pb_enc_uvarint (field : pb_field_t) (src : Z) : M (pb_ostream_t St) unit :=
  if (data_size field =? 1) || (data_size field =? 2) || (data_size field =? 4) || (data_size field =? 8)
  then value <- read_word src (Z.to_nat (data_size field)) ;; lift (pb_encode_varint value)
  else ERROR invalid_data_size.

Definition pb_enc_svarint (field : pb_field_t) (src : Z) : M (pb_ostream_t St) unit :=
  value <- read_signed field src ;; lift (pb_encode_svarint value).

Definition pb_enc_fixed64 (field : pb_field_t) (src : Z) : M (pb_ostream_t St) unit :=
  val <- read_word src 8 ;; lift (pb_encode_fixed64 val).

Definition pb_enc_fixed32 (field : pb_field_t) (src : Z) : M (pb_ostream_t St) unit :=
  val <- read_word src 4 ;; lift (pb_encode_fixed32 val).

Definition pb_enc_bytes (field : pb_field_t) (src : Z) : M (pb_ostream_t St) unit :=
  if src =? 0 then encode_string_at 0 0
  else
    size <- read_word src 4 ;;
    if (PB_ATYPE (type field) =? PB_ATYPE_STATIC) && (size_t (data_size field - offsetof_bytes) <? size)
    then ERROR bytes_size_exceeded
    else encode_string_at (src + offsetof_bytes) size.

(** [while (size < max_size && *p != '\0')] *)
Fixpoint string_size (fuel : nat) (p size max_size : Z) : M (pb_ostream_t St) Z :=
  match fuel with
  | O => m_diverged
  | S fuel =>
      if size <? max_size then
        c <- read_word p 1 ;; if c =? 0 then m_ret size else string_size fuel (p + 1) (size + 1) max_size
      else m_ret size
  end.

Definition pb_enc_string (field : pb_field_t) (src : Z) : M (pb_ostream_t St) unit :=
  let max_size := if PB_ATYPE (type field) =? PB_ATYPE_POINTER then SIZE_MAX else data_size field in
  size <- (if src =? 0 then m_ret 0 else string_size limit src 0 max_size) ;;
  encode_string_at src size.

Definition pb_enc_fixed_length_bytes (field : pb_field_t) (src : Z) : M (pb_ostream_t St) unit :=
  encode_string_at src (data_size field).

(** [PB_OSTREAM_SIZING]; nothing is written, so the state of the callback does
    not matter. *)
Definition sizing_stream (s : pb_ostream_t St) : pb_ostream_t St := PB_OSTREAM_SIZING (o_state s).

(** Over the encoder of one level less *)
Section Level.
Context (encode : list pb_field_t -> Z -> M (pb_ostream_t St) unit).

(** The substream writes through the callback of the stream. *)
Definition write_submessage (fields : list pb_field_t) (src size : Z) : M (pb_ostream_t St) unit := fun s =>
  let back (sub : pb_ostream_t St) :=
    mk_ostream (sizing s) (o_state sub) (max_size s) (size_t (bytes_written s + bytes_written sub)) (o_errmsg sub) in
  match encode fields src (mk_ostream (sizing s) (o_state s) size 0 None) with
  | Done _ sub => if negb (bytes_written sub =? size) then ERROR submsg_size_changed (back sub) else Done tt (back sub)
  | Failed sub => if negb (bytes_written sub =? size) then ERROR submsg_size_changed (back sub) else Failed (back sub)
  | Fault => Fault
  | Diverged => Diverged
  end.

Definition pb_encode_submessage (fields : list pb_field_t) (src : Z) : M (pb_ostream_t St) unit := fun s =>
  match encode fields src (sizing_stream s) with
  | Fault => Fault
  | Diverged => Diverged
  | Failed sub => Failed (mk_ostream (sizing s) (o_state s) (max_size s) (bytes_written s) (o_errmsg sub))
  | Done _ sub =>
      let size := bytes_written sub in
      (lift (pb_encode_varint size) ;;;
       (fun s =>
          if sizing s then lift (pb_write [] size) s
          else if max_size s <? size_t (bytes_written s + size) then ERROR stream_full s
          else write_submessage fields src size s)) s
  end.

Definition pb_enc_submessage (field : pb_field_t) (src : Z) : M (pb_ostream_t St) unit :=
  match ptr field with
  | ptr_null => ERROR invalid_field_descriptor
  | ptr_fields t => pb_encode_submessage (tables t) src
  | ptr_default _ => m_fault
  end.

(** [PB_ENCODERS]; calling the NULL of an extension is a fault. *)
Definition encoder (field : pb_field_t) : Z -> M (pb_ostream_t St) unit :=
  let ltype := PB_LTYPE (type field) in
  if ltype =? PB_LTYPE_BOOL then pb_enc_bool field
  else if ltype =? PB_LTYPE_VARINT then pb_enc_varint field
  else if ltype =? PB_LTYPE_UVARINT then pb_enc_uvarint field
  else if ltype =? PB_LTYPE_SVARINT then pb_enc_svarint field
  else if ltype =? PB_LTYPE_FIXED32 then pb_enc_fixed32 field
  else if ltype =? PB_LTYPE_FIXED64 then pb_enc_fixed64 field
  else if ltype =? PB_LTYPE_BYTES then pb_enc_bytes field
  else if ltype =? PB_LTYPE_STRING then pb_enc_string field
  else if ltype =? PB_LTYPE_SUBMESSAGE then pb_enc_submessage field
  else if ltype =? PB_LTYPE_FIXED_LENGTH_BYTES then pb_enc_fixed_length_bytes field
  else fun _ => m_fault.

(** [for (i = 0; i < count; i++)] over the entries of an array *)
Fixpoint each_entry (count : nat) (p step : Z) (f : Z -> M (pb_ostream_t St) unit) : M (pb_ostream_t St) unit :=
  match count with
  | O => m_ret tt
  | S count => f p ;;; each_entry count (p + step) step f
  end.

(** The size of a packed array *)
Definition packed_size (field : pb_field_t) (data count : Z) : M (pb_ostream_t St) Z :=
  if PB_LTYPE (type field) =? PB_LTYPE_FIXED32 then m_ret (size_t (4 * count))
  else if PB_LTYPE (type field) =? PB_LTYPE_FIXED64 then m_ret (size_t (8 * count))
  else fun s =>
    match each_entry (Z.to_nat count) data (data_size field) (encoder field) (sizing_stream s) with
    | Done _ sub => Done (bytes_written sub) s
    | Failed _ => Failed s
    | Fault => Fault
    | Diverged => Diverged
    end.

Definition encode_array (field : pb_field_t) (data count : Z) : M (pb_ostream_t St) unit :=
  if count =? 0 then m_ret tt
  else if negb (PB_ATYPE (type field) =? PB_ATYPE_POINTER) && (array_size field <? count) then ERROR array_max_size_exceeded
  else if PB_LTYPE (type field) <=? PB_LTYPE_LAST_PACKABLE then
    lift (pb_encode_tag PB_WT_STRING (tag field)) ;;;
    size <- packed_size field data count ;;
    lift (pb_encode_varint size) ;;;
    (fun s => if sizing s then lift (pb_write [] size) s
              else each_entry (Z.to_nat count) data (data_size field) (encoder field) s)
  else
    each_entry (Z.to_nat count) data (data_size field) (fun p =>
      pb_encode_tag_for_field field ;;;
      if (PB_ATYPE (type field) =? PB_ATYPE_POINTER) &&
         ((PB_LTYPE (type field) =? PB_LTYPE_STRING) || (PB_LTYPE (type field) =? PB_LTYPE_BYTES))
      then q <- read_word p 8 ;; encoder field q
      else encoder field p).

(** [while (extension)]: [type], [dest] and [next] of [pb_extension_t] are its
    first three words, [decode], [encode] and [arg] those of
    [pb_extension_type_t].  [arg] of the default handler is a field, named by
    a table. *)
Definition extension_type (extension : Z) : M (pb_ostream_t St) Z := read_word extension 8.
Definition extension_dest (extension : Z) : Z := extension + 8.
Definition extension_next (extension : Z) : M (pb_ostream_t St) Z := read_word (extension + 16) 8.

(** *** Default values in proto3 *)

(** All bytes are 0; the loop stops at the first that is not. *)
Fixpoint all_zero (n : nat) (p : Z) : M (pb_ostream_t St) bool :=
  match n with
  | O => m_ret true
  | S n => b <- read_word p 1 ;; if b =? 0 then all_zero n (p + 1) else m_ret false
  end.

(** Ask every field from the iterator's on; [test] is the question. *)
Fixpoint all_fields (fuel : nat) (iter : pb_field_iter_t) (test : pb_field_t -> Z -> M (pb_ostream_t St) bool)
  : M (pb_ostream_t St) bool :=
  match fuel with
  | O => m_diverged
  | S fuel =>
      b <- test (iter_field iter) (pData iter) ;;
      if negb b then m_ret false
      else let (iter, more) := pb_field_iter_next iter in if more then all_fields fuel iter test else m_ret true
  end.

Fixpoint pb_check_proto3_default_value (fuel : nat) (field : pb_field_t) (data : Z) : M (pb_ostream_t St) bool :=
  match fuel with
  | O => m_diverged
  | S fuel =>
      let ltype := PB_LTYPE (type field) in
      let atype := PB_ATYPE (type field) in
      let htype := PB_HTYPE (type field) in
      let size_at := data + size_offset field in
      let rest :=
        if (atype =? PB_ATYPE_STATIC) && (ltype =? PB_LTYPE_BYTES) then size <- read_word data 4 ;; m_ret (size =? 0)
        else if (atype =? PB_ATYPE_STATIC) && (ltype =? PB_LTYPE_STRING) then c <- read_word data 1 ;; m_ret (c =? 0)
        else if (atype =? PB_ATYPE_STATIC) && (ltype =? PB_LTYPE_FIXED_LENGTH_BYTES) then m_ret (data_size field =? 0)
        else if (atype =? PB_ATYPE_STATIC) && (ltype =? PB_LTYPE_SUBMESSAGE) then
          match ptr field with
          | ptr_fields t =>
              let (iter, some) := pb_field_iter_begin (tables t) data in
              if some then all_fields (S (length (tables t))) iter (pb_check_proto3_default_value fuel) else m_ret true
          | _ => m_fault
          end
        else if (atype =? PB_ATYPE_POINTER) && (PB_LTYPE_LAST_PACKABLE <? ltype) then
          p <- read_word data 8 ;; m_ret (p =? 0)
        else all_zero (Z.to_nat (data_size field)) data in
      if htype =? PB_HTYPE_REQUIRED then m_ret false
      else if htype =? PB_HTYPE_REPEATED then
        if negb (size_offset field =? 0) then count <- read_word size_at 4 ;; m_ret (count =? 0)
        else if atype =? PB_ATYPE_STATIC then m_ret false else rest
      else if htype =? PB_HTYPE_ONEOF then which <- read_word size_at 4 ;; m_ret (which =? 0)
      else if (htype =? PB_HTYPE_OPTIONAL) && negb (size_offset field =? 0) then
        has <- safe_read_bool size_at ;; m_ret (negb has)
      else rest
  end.

(** *** One field *)

(** [pSize] of [encode_basic_field]: an address in the struct, or the local
    [implicit_has]. *)
Inductive size_pointer := in_struct (a : Z) | implicit_has (b : bool).

Definition read_has (p : size_pointer) : M (pb_ostream_t St) bool :=
  match p with
  | in_struct a => safe_read_bool a
  | implicit_has b => m_ret b
  end.

(** A [pb_size_t] through [pSize]; the local is too small for it. *)
Definition read_count (p : size_pointer) : M (pb_ostream_t St) Z :=
  match p with
  | in_struct a => read_word a 4
  | implicit_has _ => m_fault
  end.

Definition encode_basic_field (fuel : nat) (field : pb_field_t) (data : Z) : M (pb_ostream_t St) unit :=
  let htype := PB_HTYPE (type field) in
  size <- (if negb (size_offset field =? 0) then m_ret (in_struct (data + size_offset field))
           else if htype =? PB_HTYPE_OPTIONAL then
             b <- pb_check_proto3_default_value fuel field data ;; m_ret (implicit_has (negb b))
           else m_ret (implicit_has true)) ;;
  pointee <- (if PB_ATYPE (type field) =? PB_ATYPE_POINTER then
                p <- read_word data 8 ;;
                m_ret (p, match size with in_struct a => in_struct a | implicit_has _ => implicit_has (negb (p =? 0)) end)
              else m_ret (data, size)) ;;
  let (data, size) := (pointee : Z * size_pointer) in
  if htype =? PB_HTYPE_REQUIRED then
    if data =? 0 then ERROR missing_required_field
    else pb_encode_tag_for_field field ;;; encoder field data
  else if htype =? PB_HTYPE_OPTIONAL then
    has <- read_has size ;;
    if has then pb_encode_tag_for_field field ;;; encoder field data else m_ret tt
  else if htype =? PB_HTYPE_REPEATED then
    count <- (if negb (size_offset field =? 0) then read_count size else m_ret (array_size field)) ;;
    encode_array field data count
  else
    which <- read_count size ;;
    if which =? tag field then pb_encode_tag_for_field field ;;; encoder field data else m_ret tt.

(** [pb_callback_t]: the function, then [arg], which is passed by address. *)
Definition encode_callback_field (field : pb_field_t) (data : Z) : M (pb_ostream_t St) unit :=
  encode <- read_word data 8 ;;
  if negb (encode =? 0) then
    fun s =>
      match encode_callback encode field (data + 8) s with
      | Failed s => ERROR callback_error s
      | r => r
      end
  else m_ret tt.

Definition encode_field (fuel : nat) (field : pb_field_t) (data : Z) : M (pb_ostream_t St) unit :=
  let atype := PB_ATYPE (type field) in
  if (atype =? PB_ATYPE_STATIC) || (atype =? PB_ATYPE_POINTER) then encode_basic_field fuel field data
  else if atype =? PB_ATYPE_CALLBACK then encode_callback_field field data
  else ERROR invalid_field_type.

Definition default_extension_encoder (fuel : nat) (extension : Z) : M (pb_ostream_t St) unit :=
  t <- extension_type extension ;;
  arg <- read_word (t + 16) 8 ;;
  let field := field_at (tables arg) 0 in
  if PB_ATYPE (type field) =? PB_ATYPE_POINTER then encode_field fuel field (extension_dest extension)
  else dest <- read_word (extension_dest extension) 8 ;; encode_field fuel field dest.

Fixpoint each_extension (bound fuel : nat) (extension : Z) : M (pb_ostream_t St) unit :=
  match bound with
  | O => m_diverged
  | S bound =>
      if extension =? 0 then m_ret tt
      else
        t <- extension_type extension ;;
        encode <- read_word (t + 8) 8 ;;
        (if negb (encode =? 0) then extension_callback encode extension else default_extension_encoder fuel extension) ;;;
        next <- extension_next extension ;;
        each_extension bound fuel next
  end.

Definition encode_extension_field (fuel : nat) (data : Z) : M (pb_ostream_t St) unit :=
  extension <- read_word data 8 ;; each_extension limit fuel extension.

(** *** All fields *)

Fixpoint encode_fields (steps fuel : nat) (iter : pb_field_iter_t) : M (pb_ostream_t St) unit :=
  match steps with
  | O => m_diverged
  | S steps =>
      (if PB_LTYPE (type (iter_field iter)) =? PB_LTYPE_EXTENSION then encode_extension_field fuel (pData iter)
       else encode_field fuel (iter_field iter) (pData iter)) ;;;
      let (iter, more) := pb_field_iter_next iter in
      if more then encode_fields steps fuel iter else m_ret tt
  end.
End Level.

(** The fuel bounds the depth of the message. *)
Fixpoint pb_encode (fuel : nat) (fields : list pb_field_t) (src_struct : Z) : M (pb_ostream_t St) unit :=
  match fuel with
  | O => m_diverged
  | S fuel =>
      let (iter, some) := pb_field_iter_begin fields src_struct in
      if some then encode_fields (pb_encode fuel) (S (length fields)) fuel iter else m_ret tt
  end.

Definition pb_encode_delimited (fuel : nat) (fields : list pb_field_t) (src_struct : Z) : M (pb_ostream_t St) unit :=
  pb_encode_submessage (pb_encode fuel) fields src_struct.

Definition pb_encode_nullterminated (fuel : nat) (fields : list pb_field_t) (src_struct : Z) : M (pb_ostream_t St) unit :=
  pb_encode fuel fields src_struct ;;; lift (pb_write [0] 1).

Definition pb_get_encoded_size (fuel : nat) (fields : list pb_field_t) (src_struct : Z) (st : St) : outcome (pb_ostream_t St) Z :=
  (pb_encode fuel fields src_struct ;;; lift (fun s => (Some (bytes_written s), s))) (PB_OSTREAM_SIZING st).
End Encode.

(** ** The counting run and the writing run

    [pb_encode] runs twice over a submessage, once to count and once to
    write.  [sizes m k a] says what a program does on a stream that only
    counts, [real_ok m k a] what it does on one that writes: it needs [k]
    bytes of room, neither more nor less. *)

Ltac word_tac := first [assumption | apply wrap_range; lia].

Section Agree.
Context {St : Type} `{WriterLaws St}.

Definition counting (st : St) (max n : Z) (e : option message) : pb_ostream_t St := mk_ostream true st max n e.
Definition writing (st : St) (max n : Z) : pb_ostream_t St := mk_ostream false st max n None.

Definition sizes {A} (m : M (pb_ostream_t St) A) (k : Z) (a : A) : Prop :=
  0 <= k /\ forall st max n e, word_ok 64 n -> m (counting st max n e) = Done a (counting st max (size_t (n + k)) e).

Definition real_ok {A} (m : M (pb_ostream_t St) A) (k : Z) (a : A) : Prop :=
  forall st max n, 0 <= n -> n + k < 2 ^ 64 -> max < 2 ^ 64 ->
    (n + k <= max -> m (writing st max n) = Fault \/
      exists st' bs, m (writing st max n) = Done a (writing st' max (n + k)) /\
        written st' = written st ++ bs /\ Z.of_nat (length bs) = k) /\
    (n <= max < n + k -> m (writing st max n) = Fault \/
      exists s bs, m (writing st max n) = Failed s /\ bytes_written s <= max /\
        written (o_state s) = written st ++ bs /\ bytes_written s = n + Z.of_nat (length bs)).

(** The counting run has no result. *)
Definition never {A} (m : M (pb_ostream_t St) A) : Prop :=
  forall st max n e a s, word_ok 64 n -> m (counting st max n e) <> Done a s.

(** The two runs agree, and a result has [P]. *)
Definition agree_for {A} (P : A -> Prop) (m : M (pb_ostream_t St) A) : Prop :=
  (exists k a, P a /\ sizes m k a /\ real_ok m k a) \/ never m.

Definition agree {A} (m : M (pb_ostream_t St) A) : Prop := agree_for (fun _ => True) m.

Lemma sizes_bind {A B} (m : M (pb_ostream_t St) A) (f : A -> M (pb_ostream_t St) B) k1 k2 a b :
  sizes m k1 a -> sizes (f a) k2 b -> sizes (m_bind m f) (k1 + k2) b.
Proof.
  intros [P1 S1] [P2 S2]. split; [lia|]. intros st max n e Hn. unfold m_bind. rewrite S1, S2 by word_tac.
  unfold wrap. now rewrite Z.add_mod_idemp_l, Z.add_assoc by lia.
Qed.

Lemma real_bind {A B} (m : M (pb_ostream_t St) A) (f : A -> M (pb_ostream_t St) B) k1 k2 a b :
  0 <= k1 -> 0 <= k2 -> real_ok m k1 a -> real_ok (f a) k2 b -> real_ok (m_bind m f) (k1 + k2) b.
Proof.
  intros P1 P2 R1 R2 st max n Hn L Hmax. destruct (R1 st max n Hn ltac:(lia) Hmax) as [D1 F1]. unfold m_bind. split; intros Hr.
  - destruct D1 as [->|(st1 & bs1 & -> & W1 & L1)]; [lia|now left|].
    destruct (R2 st1 max (n + k1) ltac:(lia) ltac:(lia) Hmax) as [D2 _].
    destruct D2 as [->|(st2 & bs2 & -> & W2 & L2)]; [lia|now left|]. right. exists st2, (bs1 ++ bs2).
    rewrite Z.add_assoc, W2, W1, length_app, app_assoc. split; [reflexivity|]. split; [reflexivity|lia].
  - destruct (Z.le_gt_cases (n + k1) max) as [Le|Gt].
    + destruct (D1 Le) as [->|(st1 & bs1 & -> & W1 & L1)]; [now left|].
      destruct (R2 st1 max (n + k1) ltac:(lia) ltac:(lia) Hmax) as [_ F2].
      destruct F2 as [->|(s & bs2 & -> & Bd & W2 & L2)]; [lia|now left|]. right. exists s, (bs1 ++ bs2).
      rewrite W2, W1, length_app, app_assoc. split; [reflexivity|]. split; [exact Bd|]. split; [reflexivity|lia].
    + destruct F1 as [->|(s & bs & -> & Bd & W1 & L1)]; [lia|now left|]. right. exists s, bs. auto.
Qed.

Lemma agree_bind_for {A B} (P : A -> Prop) (Q : B -> Prop) (m : M (pb_ostream_t St) A) (f : A -> M (pb_ostream_t St) B) :
  agree_for P m -> (forall a, P a -> agree_for Q (f a)) -> agree_for Q (m_bind m f).
Proof.
  intros [(k1 & a & Pa & S1 & R1)|N] Hf.
  - destruct (Hf a Pa) as [(k2 & b & Qb & S2 & R2)|N].
    + left. exists (k1 + k2), b. split; [exact Qb|]. split; [now apply (sizes_bind _ _ _ _ a)|].
      apply (real_bind _ _ _ _ a); [apply S1|apply S2|exact R1|exact R2].
    + right. intros st max n e b s Hn. unfold m_bind. destruct S1 as [_ ->]; [|exact Hn]. apply N. word_tac.
  - right. intros st max n e b s Hn. unfold m_bind. specialize (N st max n e). destruct (m (counting st max n e)) as [a s'| | |]; try discriminate.
    now destruct (N a s' Hn).
Qed.

Lemma agree_bind {A B} (Q : B -> Prop) (m : M (pb_ostream_t St) A) (f : A -> M (pb_ostream_t St) B) :
  agree m -> (forall a, agree_for Q (f a)) -> agree_for Q (m_bind m f).
Proof. intros Hm Hf. apply (agree_bind_for (fun _ => True)); auto. Qed.

Lemma agree_weaken {A} (P : A -> Prop) (m : M (pb_ostream_t St) A) : agree_for P m -> agree m.
Proof. intros [(k & a & _ & S & R)|N]; [left; now exists k, a|now right]. Qed.

Lemma sizes_ret {A} (a : A) : sizes (m_ret a) 0 a.
Proof. split; [lia|]. intros st max n e Hn. now rewrite Z.add_0_r, wrap_small. Qed.

Lemma real_ret {A} (a : A) : real_ok (m_ret a) 0 a.
Proof.
  intros st max n Hn _ Hm. split; [|lia]. intros _. right. exists st, []. now rewrite Z.add_0_r, app_nil_r.
Qed.

Lemma agree_ret {A} (P : A -> Prop) (a : A) : P a -> agree_for P (m_ret a).
Proof. intros Pa. left. exists 0, a. split; [exact Pa|]. split; [apply sizes_ret|apply real_ret]. Qed.

Lemma agree_opt {A} (P : A -> Prop) (o : option A) : (forall a, o = Some a -> P a) -> agree_for P (m_opt o).
Proof. intros HP. destruct o; [apply agree_ret; auto|]. right. discriminate. Qed.

Lemma agree_fault {A} (P : A -> Prop) : agree_for P m_fault.
Proof. right. discriminate. Qed.

Lemma agree_diverged {A} (P : A -> Prop) : agree_for P m_diverged.
Proof. right. discriminate. Qed.

Lemma agree_error {A} (P : A -> Prop) msg : agree_for P (ERROR msg).
Proof. right. discriminate. Qed.

(** [pb_write] of bytes that are there *)
Lemma write_counting bs count st max n e :
  lift (pb_write bs count) (counting st max n e) = Done tt (counting st max (size_t (n + count)) e).
Proof. unfold lift, pb_write, bind, get. cbn [sizing]. now rewrite andb_false_r. Qed.

Lemma real_write bs : real_ok (lift (pb_write bs (Z.of_nat (length bs)))) (Z.of_nat (length bs)) tt.
Proof.
  intros st max n Hn L Hm.
  pose proof (emits_write (St := St) bs (Z.of_nat (length bs)) eq_refl) as E. unfold lift, writing. split; intros Hr; right.
  - destruct (E st max n None Hn L) as (_ & W & _). destruct (W Hr) as (st' & -> & Ws). exists st', bs. auto.
  - destruct (E st max n None Hn L) as (_ & _ & F). destruct (F Hr) as (st' & p & tail & -> & -> & Ws & Bd).
    exists (mk_ostream false st' max (n + Z.of_nat (length p)) (set_error None stream_full)), p. auto.
Qed.

Lemma sizes_write bs count : 0 <= count -> sizes (lift (pb_write bs count)) count tt.
Proof. intros Hc. split; [exact Hc|]. intros st max n e _. apply write_counting. Qed.

Lemma agree_write bs : agree (lift (pb_write bs (Z.of_nat (length bs)))).
Proof. left. exists (Z.of_nat (length bs)), tt. split; [exact I|]. split; [apply sizes_write; lia|apply real_write]. Qed.

(** Every varint is one [pb_write]. *)
Lemma encode_varint_write v : exists bs, pb_encode_varint (St := St) v = pb_write bs (Z.of_nat (length bs)).
Proof.
  unfold pb_encode_varint. destruct (v <=? 127); [now exists [u8 v]|]. cbv zeta.
  eexists. now rewrite length_set_nth.
Qed.

Lemma agree_varint v : agree (lift (pb_encode_varint v)).
Proof. destruct (encode_varint_write v) as [bs ->]. apply agree_write. Qed.

Lemma varint_sizes v : exists k, sizes (lift (pb_encode_varint v)) k tt /\ real_ok (lift (pb_encode_varint v)) k tt.
Proof.
  destruct (encode_varint_write v) as [bs ->]. exists (Z.of_nat (length bs)). split; [apply sizes_write; lia|apply real_write].
Qed.

(** *** Every function of the encoder agrees *)

(** Descriptor fields have the widths of their C types. *)
Definition desc_ok (f : pb_field_t) : Prop := word_ok 32 (data_size f) /\ word_ok 32 (array_size f).

Lemma desc_ok_at fields i : Forall desc_ok fields -> desc_ok (field_at fields i).
Proof.
  intros F. unfold field_at. destruct (nth_in_or_default i fields PB_LAST_FIELD) as [Hin| ->].
  - rewrite Forall_forall in F. auto.
  - split; unfold word_ok; cbn; lia.
Qed.

Lemma load_bytes_length m : forall n a bs, load_bytes m a n = Some bs -> length bs = n.
Proof.
  induction n as [|n IH]; intros a bs; cbn [load_bytes]; [intros [= <-]; reflexivity|].
  destruct (m a); [|discriminate]. destruct (load_bytes m (a + 1) n) eqn:E; [|discriminate]. intros [= <-]. cbn. f_equal. eauto.
Qed.

Section Functions.
Context (tables : Z -> list pb_field_t) (mem : memory) (limit : nat).
Context (encode_callback : Z -> pb_field_t -> Z -> M (pb_ostream_t St) unit).
Context (extension_callback : Z -> Z -> M (pb_ostream_t St) unit).
Context (Hmem : forall a b, mem a = Some b -> byte_ok b).
Context (Htables : forall t, Forall desc_ok (tables t)).
Context (Hcallback : forall fn f arg, agree (encode_callback fn f arg)).
Context (Hextension : forall fn ext, agree (extension_callback fn ext)).

Lemma load_bytes_ok : forall n a bs, load_bytes mem a n = Some bs -> bytes_ok bs.
Proof.
  induction n as [|n IH]; intros a bs; cbn [load_bytes]; [intros [= <-]; constructor|].
  destruct (mem a) eqn:Ea; [|discriminate]. destruct (load_bytes mem (a + 1) n) eqn:E; [|discriminate]. intros [= <-].
  constructor; [exact (Hmem a z Ea)|eauto].
Qed.

Lemma agree_read a n : agree_for (fun v => 0 <= v < 256 ^ Z.of_nat n) (read_word mem a n).
Proof.
  apply agree_opt. unfold load. intros v. destruct (load_bytes mem a n) as [bs|] eqn:E; [|discriminate]. intros [= <-].
  rewrite <- (load_bytes_length mem n a bs E). apply le_val_bound, (load_bytes_ok n a bs E).
Qed.

(** After a read, with or without use of its range *)
Lemma read_bind {A} (P : A -> Prop) a n (f : Z -> M (pb_ostream_t St) A) :
  (forall v, 0 <= v < 256 ^ Z.of_nat n -> agree_for P (f v)) -> agree_for P (m_bind (read_word mem a n) f).
Proof. intros Hf. eapply agree_bind_for; [apply agree_read|exact Hf]. Qed.

Lemma agree_if {A} (P : A -> Prop) (b : bool) (m1 m2 : M (pb_ostream_t St) A) :
  agree_for P m1 -> agree_for P m2 -> agree_for P (if b then m1 else m2).
Proof. now destruct b. Qed.

Lemma agree_tag w n : agree (lift (pb_encode_tag w n)).
Proof. apply agree_varint. Qed.

Lemma write_memory_real a size : 0 <= size -> real_ok (write_memory mem a size) size tt.
Proof.
  intros Hs st max n Hn L Hmax. unfold write_memory, writing. cbn [sizing bytes_written max_size]. cbn [negb]. rewrite andb_true_r.
  destruct (Z.ltb_spec 0 size) as [P|Z0]; cbn [andb].
  2: { assert (size = 0) by lia. subst size. exact (real_write [] st max n Hn L Hmax). }
  rewrite (wrap_small 64 (n + size)) by (unfold word_ok; lia). rewrite (proj2 (Z.ltb_ge (n + size) n)) by lia. cbn [orb].
  destruct (Z.ltb_spec max (n + size)) as [F|F]; cbn [negb].
  - split; [lia|]. intros Hr. right. exists (mk_ostream false st max n (Some stream_full)), [].
    unfold lift, pb_write, bind, get. cbn [sizing bytes_written max_size]. rewrite (proj2 (Z.ltb_lt 0 size)) by lia. cbn [negb andb].
    rewrite (wrap_small 64 (n + size)) by (unfold word_ok; lia). rewrite (proj2 (Z.ltb_lt max _)), orb_true_r by lia.
    split; [reflexivity|]. cbn [bytes_written o_state length]. rewrite app_nil_r. split; [lia|]. split; [reflexivity|lia].
  - split; [|lia]. intros _. destruct (load_bytes mem a (Z.to_nat size)) as [bs|] eqn:E; [|now left].
    apply load_bytes_length in E. assert (El : size = Z.of_nat (length bs)) by lia. rewrite El.
    destruct (real_write bs st max n Hn ltac:(lia) Hmax) as [D _]. apply D. lia.
Qed.

Lemma agree_write_memory a size : 0 <= size -> agree (write_memory mem a size).
Proof.
  intros Hs. left. exists size, tt. split; [exact I|]. split; [|now apply write_memory_real]. split; [exact Hs|].
  intros st max n e _. unfold write_memory, counting. cbn [sizing negb]. rewrite andb_false_r. apply write_counting.
Qed.

Lemma agree_string_at a size : 0 <= size -> agree (encode_string_at mem a size).
Proof. intros Hs. apply agree_bind; [apply agree_varint|intros _; now apply agree_write_memory]. Qed.

Lemma agree_safe_read_bool {A} (P : A -> Prop) a (f : bool -> M (pb_ostream_t St) A) :
  (forall b, agree_for P (f b)) -> agree_for P (m_bind (safe_read_bool mem a) f).
Proof. intros Hf. eapply agree_bind; [|exact Hf]. apply read_bind. intros. now apply agree_ret. Qed.

Lemma agree_tag_for_field f : agree (pb_encode_tag_for_field f).
Proof. unfold pb_encode_tag_for_field. repeat apply agree_if; try apply agree_tag. apply agree_error. Qed.

Lemma agree_read_signed f a : agree (read_signed mem f a).
Proof. unfold read_signed. repeat apply agree_if; try (apply read_bind; intros; now apply agree_ret). apply agree_error. Qed.

Lemma agree_string_size fuel : forall p size max, 0 <= size -> agree_for (fun v => 0 <= v) (string_size mem fuel p size max).
Proof.
  induction fuel as [|fuel IH]; intros p size max Hs; cbn [string_size]; [apply agree_diverged|].
  apply agree_if; [|now apply agree_ret]. apply read_bind. intros v _. apply agree_if; [now apply agree_ret|apply IH; lia].
Qed.

Lemma agree_enc_fixed32 f a : agree (pb_enc_fixed32 mem f a) /\ real_ok (pb_enc_fixed32 mem f a) 4 tt.
Proof.
  unfold pb_enc_fixed32. split; [apply read_bind; intros; apply agree_write with (bs := [_; _; _; _])|].
  unfold read_word, m_bind, m_opt. destruct (load mem a 4); [|intros st max n _ _ _; split; now left].
  apply real_write with (bs := [_; _; _; _]).
Qed.

Lemma agree_enc_fixed64 f a : agree (pb_enc_fixed64 mem f a) /\ real_ok (pb_enc_fixed64 mem f a) 8 tt.
Proof.
  unfold pb_enc_fixed64. split; [apply read_bind; intros; apply agree_write with (bs := [_; _; _; _; _; _; _; _])|].
  unfold read_word, m_bind, m_opt. destruct (load mem a 8); [|intros st max n _ _ _; split; now left].
  apply real_write with (bs := [_; _; _; _; _; _; _; _]).
Qed.

Section OneLevel.
Context (encode : list pb_field_t -> Z -> M (pb_ostream_t St) unit).
Context (Hencode : forall fields src, Forall desc_ok fields -> agree (encode fields src)).

(** The rest of [pb_encode_submessage] once the size is known *)
Definition submessage_tail (fields : list pb_field_t) (src size : Z) : M (pb_ostream_t St) unit := fun s =>
  if sizing s then lift (pb_write [] size) s
  else if max_size s <? size_t (bytes_written s + size) then ERROR stream_full s
  else write_submessage encode fields src size s.

Lemma submessage_tail_ok fields src k : sizes (encode fields src) k tt -> real_ok (encode fields src) k tt ->
  sizes (submessage_tail fields src (size_t k)) k tt /\ real_ok (submessage_tail fields src (size_t k)) k tt.
Proof.
  intros [P S] R. split.
  - split; [exact P|]. intros st max n e Hn. unfold submessage_tail. cbn [counting sizing]. rewrite write_counting.
    unfold wrap. now rewrite Z.add_mod_idemp_r by lia.
  - intros st max n Hn L Hmax. unfold submessage_tail. cbn [writing sizing max_size bytes_written].
    rewrite (wrap_small 64 k), (wrap_small 64 (n + k)) by (unfold word_ok; lia).
    destruct (Z.ltb_spec max (n + k)) as [F|F].
    + split; [lia|]. intros Hr. right. exists (mk_ostream false st max n (Some stream_full)), [].
      split; [reflexivity|]. cbn [bytes_written o_state length]. rewrite app_nil_r. split; [lia|]. split; [reflexivity|lia].
    + split; [|lia]. intros _. unfold write_submessage. cbn [writing sizing o_state]. change (mk_ostream false st k 0 None) with (writing st k 0).
      destruct (R st k 0 ltac:(lia) ltac:(lia) ltac:(lia)) as [D _].
      destruct D as [->|(st' & bs & -> & W & Lb)]; [lia|now left|]. right. exists st', bs.
      cbn [writing bytes_written o_state sizing max_size o_errmsg]. rewrite Z.add_0_l, Z.eqb_refl. cbn [negb].
      rewrite wrap_small by (unfold word_ok; lia). auto.
Qed.

Lemma agree_submessage fields src : Forall desc_ok fields -> agree (pb_encode_submessage encode fields src).
Proof.
  intros Hf. destruct (Hencode fields src Hf) as [(k & [] & _ & S & R)|N].
  - destruct (submessage_tail_ok fields src k S R) as [St1 Rt]. destruct (varint_sizes (size_t k)) as (kv & Sv & Rv).
    pose proof (sizes_bind _ (fun _ => submessage_tail fields src (size_t k)) _ _ _ _ Sv St1) as Sb.
    pose proof (real_bind _ (fun _ => submessage_tail fields src (size_t k)) _ _ _ _ (proj1 Sv) (proj1 S) Rv Rt) as Rb.
    assert (E : forall s, pb_encode_submessage encode fields src s =
      m_bind (lift (pb_encode_varint (size_t k))) (fun _ => submessage_tail fields src (size_t k)) s).
    { intros s. unfold pb_encode_submessage. change (sizing_stream s) with (counting (o_state s) 0 0 None).
      destruct S as [_ S]. rewrite S by (unfold word_ok; lia). reflexivity. }
    left. exists (kv + k), tt. split; [exact I|]. split.
    + split; [apply Sb|]. intros st max n e Hn. rewrite E. now apply Sb.
    + intros st max n Hn L Hmax. rewrite E. now apply Rb.
  - right. intros st max n e [] s Hn. unfold pb_encode_submessage. specialize (N (o_state (counting st max n e)) 0 0 None).
    unfold sizing_stream, PB_OSTREAM_SIZING. change (mk_ostream true _ 0 0 None) with (counting (o_state (counting st max n e)) 0 0 None).
    destruct (encode fields src _) as [[] s'| | |]; try discriminate. now destruct (N tt s' ltac:(unfold word_ok; lia)).
Qed.

Lemma agree_encoder f a : desc_ok f -> agree (encoder tables mem limit encode f a).
Proof.
  intros [Hd Ha]. unfold encoder. repeat match goal with |- agree ((if ?b then _ else _) a) => destruct b end.
  - apply agree_safe_read_bool. intros. apply agree_varint.
  - eapply agree_bind; [apply agree_read_signed|intros; apply agree_varint].
  - unfold pb_enc_uvarint. apply agree_if; [|apply agree_error]. apply read_bind. intros. apply agree_varint.
  - eapply agree_bind; [apply agree_read_signed|intros v; apply agree_varint].
  - apply agree_enc_fixed32.
  - apply agree_enc_fixed64.
  - unfold pb_enc_bytes. apply agree_if; [apply agree_string_at; lia|]. apply read_bind. intros v Hv.
    apply agree_if; [apply agree_error|apply agree_string_at; lia].
  - unfold pb_enc_string. eapply (agree_bind_for (fun v => 0 <= v)); [|intros v Hv; now apply agree_string_at].
    apply agree_if; [apply agree_ret; lia|apply agree_string_size; lia].
  - unfold pb_enc_submessage. destruct (ptr f); [apply agree_error|apply agree_submessage, Htables|apply agree_fault].
  - apply agree_string_at. unfold word_ok in Hd. lia.
  - apply agree_fault.
Qed.

Lemma agree_each n : forall p step f, (forall p, agree (f p)) -> agree (each_entry (St := St) n p step f).
Proof.
  induction n as [|n IH]; intros p step f Hf; cbn [each_entry]; [now apply agree_ret|].
  apply agree_bind; [apply Hf|intros _; now apply IH].
Qed.

Lemma real_each n : forall p step f c, 0 <= c -> (forall p, real_ok (f p) c tt) ->
  real_ok (each_entry (St := St) n p step f) (Z.of_nat n * c) tt.
Proof.
  induction n as [|n IH]; intros p step f c Hc Hf; cbn [each_entry]; [apply real_ret|].
  replace (Z.of_nat (S n) * c) with (c + Z.of_nat n * c) by lia. eapply real_bind; [lia|nia|apply Hf|now apply IH].
Qed.

(** The data of a packed array, once its size is known *)
Definition packed_tail (f : pb_field_t) (data count size : Z) : M (pb_ostream_t St) unit := fun s =>
  if sizing s then lift (pb_write [] size) s
  else each_entry (Z.to_nat count) data (data_size f) (encoder tables mem limit encode f) s.

Lemma packed_tail_agree f data count k : 0 <= k ->
  real_ok (each_entry (Z.to_nat count) data (data_size f) (encoder tables mem limit encode f)) k tt ->
  agree (m_bind (lift (pb_encode_varint (size_t k))) (fun _ => packed_tail f data count (size_t k))).
Proof.
  intros Hk R. apply agree_bind; [apply agree_varint|intros _]. left. exists k, tt. split; [exact I|]. split; [|exact R].
  split; [exact Hk|]. intros st max n e Hn. unfold packed_tail. cbn [counting sizing]. rewrite write_counting.
  unfold wrap. now rewrite Z.add_mod_idemp_r by lia.
Qed.

Lemma agree_packed f data count : desc_ok f -> word_ok 32 count -> agree
  (size <- packed_size tables mem limit encode f data count ;;
   lift (pb_encode_varint size) ;;; packed_tail f data count size).
Proof.
  intros Hf Hc. unfold packed_size. unfold word_ok in Hc.
  destruct (Z.eqb_spec (PB_LTYPE (type f)) PB_LTYPE_FIXED32) as [E4|N4]; [|destruct (Z.eqb_spec (PB_LTYPE (type f)) PB_LTYPE_FIXED64) as [E8|N8]].
  - unfold m_bind at 1, m_ret. apply packed_tail_agree; [lia|]. replace (4 * count) with (Z.of_nat (Z.to_nat count) * 4) by lia.
    apply real_each; [lia|]. intros p. unfold encoder. rewrite E4. apply agree_enc_fixed32.
  - unfold m_bind at 1, m_ret. apply packed_tail_agree; [lia|]. replace (8 * count) with (Z.of_nat (Z.to_nat count) * 8) by lia.
    apply real_each; [lia|]. intros p. unfold encoder. rewrite E8. apply agree_enc_fixed64.
  - destruct (agree_each (Z.to_nat count) data (data_size f) (encoder tables mem limit encode f)) as [(k & [] & _ & S & R)|N];
      [intros; now apply agree_encoder| |].
    + match goal with |- agree (m_bind ?ps ?g) => assert (E : forall s, m_bind ps g s = g (size_t k) s) end.
      { intros s. unfold m_bind at 1. change (sizing_stream s) with (counting (o_state s) 0 0 None).
        destruct S as [_ S]. rewrite S by (unfold word_ok; lia). reflexivity. }
      destruct (packed_tail_agree f data count k (proj1 S) R) as [(k' & a & _ & S' & R')|N'].
      * left. exists k', a. split; [exact I|]. split; [split; [apply S'|intros; rewrite E; now apply S']|intros ? **; rewrite E; now apply R'].
      * right. intros ? **. rewrite E. now apply N'.
    + right. intros st max n e [] s Hn. unfold m_bind at 1. change (sizing_stream _) with (counting st 0 0 None).
      specialize (N st 0 0 None). destruct (each_entry _ _ _ _ _) as [[] s'| | |]; try discriminate.
      now destruct (N tt s' ltac:(unfold word_ok; lia)).
Qed.

Lemma agree_array f data count : desc_ok f -> word_ok 32 count -> agree (encode_array tables mem limit encode f data count).
Proof.
  intros Hf Hc. unfold encode_array. apply agree_if; [now apply agree_ret|]. apply agree_if; [apply agree_error|]. apply agree_if.
  - apply agree_bind; [apply agree_tag|intros _]. now apply agree_packed.
  - apply agree_each. intros p. apply agree_bind; [apply agree_tag_for_field|intros _].
    apply agree_if; [apply read_bind; intros; now apply agree_encoder|now apply agree_encoder].
Qed.

(** Tables stay the same while the iterator moves. *)
Lemma iter_next_start iter : start (fst (pb_field_iter_next iter)) = start iter.
Proof.
  unfold pb_field_iter_next. destruct (_ =? 0); [reflexivity|]. destruct (_ =? 0); [reflexivity|]. now destruct (_ && _ && _).
Qed.

Lemma agree_all_zero n : forall p, agree (all_zero (St := St) mem n p).
Proof.
  induction n as [|n IH]; intros p; cbn [all_zero]; [now apply agree_ret|]. apply read_bind. intros. apply agree_if; [apply IH|now apply agree_ret].
Qed.

Lemma agree_all_fields test fuel : (forall f a, agree (test f a)) -> forall iter, agree (all_fields (St := St) fuel iter test).
Proof.
  intros Ht. induction fuel as [|fuel IH]; intros iter; cbn [all_fields]; [apply agree_diverged|].
  apply agree_bind; [apply Ht|]. intros b. apply agree_if; [now apply agree_ret|].
  destruct (pb_field_iter_next iter) as [it more]. apply agree_if; [apply IH|now apply agree_ret].
Qed.

Lemma agree_default_value fuel : forall f data, agree (pb_check_proto3_default_value (St := St) tables mem fuel f data).
Proof.
  induction fuel as [|fuel IH]; intros f data; cbn [pb_check_proto3_default_value]; [apply agree_diverged|].
  repeat first [apply agree_if | apply agree_ret; exact I | apply agree_all_zero | apply read_bind; intros |
    apply agree_safe_read_bool; intros].
  all: destruct (ptr f) as [|t|]; try apply agree_fault; destruct (pb_field_iter_begin (tables t) data) as [it some];
    apply agree_if; [apply agree_all_fields, IH|now apply agree_ret].
Qed.

Lemma agree_basic fuel f data : desc_ok f -> agree (encode_basic_field tables mem limit encode fuel f data).
Proof.
  intros Hf. unfold encode_basic_field. apply agree_bind.
  { apply agree_if; [now apply agree_ret|]. apply agree_if; [|now apply agree_ret].
    apply agree_bind; [apply agree_default_value|intros; now apply agree_ret]. }
  intros sp. apply agree_bind; [apply agree_if; [apply read_bind; intros|]; now apply agree_ret|]. intros [d sp'].
  assert (TagThen : agree (pb_encode_tag_for_field f ;;; encoder tables mem limit encode f d))
    by (apply agree_bind; [apply agree_tag_for_field|intros _; now apply agree_encoder]).
  assert (Count : agree_for (fun v => word_ok 32 v) (read_count mem sp')) by (destruct sp' as [a|]; [exact (agree_read a 4)|apply agree_fault]).
  apply agree_if; [apply agree_if; [apply agree_error|exact TagThen]|]. apply agree_if.
  { apply agree_bind; [destruct sp'; [|now apply agree_ret]; apply read_bind; intros; now apply agree_ret|].
    intros has. apply agree_if; [exact TagThen|now apply agree_ret]. }
  apply agree_if.
  - eapply (agree_bind_for (fun v => word_ok 32 v)); [apply agree_if; [exact Count|apply agree_ret, Hf]|].
    intros count Hc. now apply agree_array.
  - eapply agree_bind_for; [exact Count|]. intros which _. apply agree_if; [exact TagThen|now apply agree_ret].
Qed.

(** A failure that gets another message *)
Lemma agree_catch m msg : agree m -> agree (fun s => match m s with Failed s => ERROR (A := unit) msg s | r => r end).
Proof.
  intros [(k & a & _ & S & R)|N].
  - left. exists k, a. split; [exact I|]. split.
    + split; [apply S|]. intros st max n e Hn. destruct S as [_ S]. now rewrite S.
    + intros st max n Hn L Hmax. destruct (R st max n Hn L Hmax) as [D F]. split; intros Hr.
      * destruct (D Hr) as [->|(st' & bs & -> & ?)]; [now left|right]. now exists st', bs.
      * destruct (F Hr) as [->|(s & bs & -> & ?)]; [now left|right].
        now exists (mk_ostream (sizing s) (o_state s) (max_size s) (bytes_written s) (set_error (o_errmsg s) msg)), bs.
  - right. intros st max n e a s Hn. specialize (N st max n e). destruct (m (counting st max n e)) as [b s'| | |]; try discriminate.
    intros [= -> ->]. now destruct (N a s Hn).
Qed.

Lemma agree_field fuel f data : desc_ok f -> agree (encode_field tables mem limit encode_callback encode fuel f data).
Proof.
  intros Hf. unfold encode_field. apply agree_if; [now apply agree_basic|]. apply agree_if; [|apply agree_error].
  unfold encode_callback_field. apply read_bind. intros fn _. apply agree_if; [|now apply agree_ret].
  apply (agree_catch (encode_callback fn f (data + 8)) callback_error). apply Hcallback.
Qed.

Lemma agree_extensions bound fuel : forall ext,
  agree (each_extension tables mem limit encode_callback extension_callback encode bound fuel ext).
Proof.
  induction bound as [|bound IH]; intros ext; cbn [each_extension]; [apply agree_diverged|].
  apply agree_if; [now apply agree_ret|]. apply read_bind. intros t _. apply read_bind. intros fn _.
  apply agree_bind; [|intros _; apply read_bind; intros; apply IH].
  apply agree_if; [apply Hextension|]. unfold default_extension_encoder. apply read_bind. intros t' _. apply read_bind. intros arg _.
  apply agree_if; [apply agree_field, desc_ok_at, Htables|].
  apply read_bind. intros. apply agree_field, desc_ok_at, Htables.
Qed.

Lemma agree_fields steps fuel : forall iter, Forall desc_ok (start iter) ->
  agree (encode_fields tables mem limit encode_callback extension_callback encode steps fuel iter).
Proof.
  induction steps as [|steps IH]; intros iter Hf; cbn [encode_fields]; [apply agree_diverged|].
  apply agree_bind.
  - apply agree_if; [apply read_bind; intros; apply agree_extensions|]. apply agree_field, desc_ok_at, Hf.
  - intros _. pose proof (iter_next_start iter) as E. destruct (pb_field_iter_next iter) as [it more]. cbn [fst] in E.
    apply agree_if; [apply IH; now rewrite E|now apply agree_ret].
Qed.
End OneLevel.

Lemma agree_encode fuel : forall fields src, Forall desc_ok fields ->
  agree (pb_encode tables mem limit encode_callback extension_callback fuel fields src).
Proof.
  induction fuel as [|fuel IH]; intros fields src Hf; cbn [pb_encode]; [apply agree_diverged|].
  destruct (pb_field_iter_begin fields src) as [it some] eqn:E.
  apply agree_if; [apply agree_fields; [exact IH|]|now apply agree_ret]. unfold pb_field_iter_begin in E. now injection E as <- _.
Qed.
End Functions.
End Agree.

(** C4: What [pb_get_encoded_size] counts is what [pb_encode] writes: for every
    message and every field table, submessages, arrays, strings, callbacks and
    extensions included, a stream with that much room receives exactly that
    many bytes, one with less room reports failure inside its room, and
    neither happens otherwise, except that reading the data of a string may
    touch memory that is not mapped.  A size is counted modulo [2^64]. *)
Theorem pb_encode_size_agrees {St : Type} `{WriterLaws St} (tables : Z -> list pb_field_t) (mem : memory) (limit : nat)
  (encode_callback : Z -> pb_field_t -> Z -> M (pb_ostream_t St) unit)
  (extension_callback : Z -> Z -> M (pb_ostream_t St) unit)
  (fuel : nat) (fields : list pb_field_t) (src : Z) (st : St) (size : Z) (s : pb_ostream_t St)
  (Hmem : forall a b, mem a = Some b -> byte_ok b)
  (Htables : forall t, Forall desc_ok (tables t)) (Hfields : Forall desc_ok fields)
  (Hcallback : forall fn f arg, agree (encode_callback fn f arg))
  (Hextension : forall fn ext, agree (extension_callback fn ext))
  (Hsize : pb_get_encoded_size tables mem limit encode_callback extension_callback fuel fields src st = Done size s) :
  exists k, size = size_t k /\ (k < 2 ^ 64 -> forall st' bufsize, word_ok 64 bufsize ->
    let r := pb_encode tables mem limit encode_callback extension_callback fuel fields src (mk_ostream false st' bufsize 0 None) in
    r = Fault \/
    if k <=? bufsize then exists st'' bs, r = Done tt (mk_ostream false st'' bufsize k None) /\
      written st'' = written st' ++ bs /\ Z.of_nat (length bs) = k
    else exists s bs, r = Failed s /\ bytes_written s <= bufsize /\
      written (o_state s) = written st' ++ bs /\ bytes_written s = Z.of_nat (length bs)).
Proof.
  destruct (agree_encode tables mem limit encode_callback extension_callback Hmem Htables Hcallback Hextension fuel fields src Hfields)
    as [(k & [] & _ & S & R)|N]; unfold pb_get_encoded_size, m_bind in Hsize; change (PB_OSTREAM_SIZING st) with (counting st 0 0 None) in Hsize.
  - exists k. destruct S as [P S]. rewrite S in Hsize by (unfold word_ok; lia). split; [now injection Hsize as <- _|].
    intros L st' bufsize Hb r. unfold word_ok in Hb. destruct (R st' bufsize 0 ltac:(lia) ltac:(lia) ltac:(lia)) as [D F].
    destruct (Z.leb_spec k bufsize) as [Le|Gt]; [apply D; lia|apply F; lia].
  - specialize (N st 0 0 None). destruct (pb_encode _ _ _ _ _ _ _ _ _) as [[] s'| | |]; try discriminate Hsize.
    now destruct (N tt s' ltac:(unfold word_ok; lia)).
Qed.

(** *** The claim at work: a document name and a time *)

Definition memory_at (base : Z) (bytes : list Z) : memory := fun a =>
  if (base <=? a) && (a <? base + Z.of_nat (length bytes)) then Some (at_ bytes (a - base)) else None.

Definition both (m1 m2 : memory) : memory := fun a => match m1 a with Some b => Some b | None => m2 a end.

Lemma memory_at_ok base bytes a b : bytes_ok bytes -> memory_at base bytes a = Some b -> byte_ok b.
Proof.
  intros B. unfold memory_at. destruct (Z.leb_spec base a), (Z.ltb_spec a (base + Z.of_nat (length bytes))); cbn [andb]; try discriminate.
  intros [= <-]. rewrite Forall_forall in B. apply B, nth_In. lia.
Qed.

Lemma both_ok m1 m2 : (forall a b, m1 a = Some b -> byte_ok b) -> (forall a b, m2 a = Some b -> byte_ok b) ->
  forall a b, both m1 m2 a = Some b -> byte_ok b.
Proof. intros H1 H2 a b. unfold both. destruct (m1 a) eqn:E; [intros [= <-]; now apply (H1 a)|apply H2]. Qed.

(** [google_protobuf_Timestamp_fields] *)
Definition Timestamp_fields : list pb_field_t := [mk_field 1 17 0 0 8 0 ptr_null; mk_field 2 17 0 0 4 0 ptr_null].

(** [firestore_client_UnknownDocument_fields]: a name by pointer, a version *)
Definition UnknownDocument_fields : list pb_field_t :=
  [mk_field 1 150 0 0 8 0 ptr_null; mk_field 2 24 0 0 16 0 (ptr_fields 1)].

Definition document_tables (t : Z) : list pb_field_t := if t =? 1 then Timestamp_fields else [].

(** The struct at 1000, the name "abc" at 2000, version 300 s and 7 ns *)
Definition document_memory : memory :=
  both (memory_at 1000 (le_bytes 8 2000 ++ le_bytes 8 300 ++ le_bytes 4 7 ++ [0; 0; 0; 0])) (memory_at 2000 (le_bytes 4 3 ++ [97; 98; 99])).

Definition no_callback {A B C S : Type} : A -> B -> C -> M S unit := fun _ _ _ => m_fail.
Definition no_extension {A B S : Type} : A -> B -> M S unit := fun _ _ => m_fail.

Example document_encoded :
  pb_encode document_tables document_memory 8 no_callback no_extension 3 UnknownDocument_fields 1000 (pb_ostream_from_buffer 12) =
  Done tt (mk_ostream false [10; 3; 97; 98; 99; 18; 5; 8; 172; 2; 16; 7] 12 12 None).
Proof. vm_compute. reflexivity. Qed.


Lemma document_memory_ok a b : document_memory a = Some b -> byte_ok b.
Proof.
  apply both_ok; intros a0 b0; apply memory_at_ok, bytes_ok_check; vm_compute; reflexivity.
Qed.

Lemma document_tables_ok t : Forall desc_ok (document_tables t).
Proof. unfold document_tables. destruct (t =? 1); repeat constructor; unfold word_ok; cbn; lia. Qed.

Lemma agree_m_fail : agree (St := list Z) (A := unit) m_fail.
Proof. right. intros ? **. discriminate. Qed.

Lemma pb_encode_size_agrees_witness : exists k, 12 = size_t k /\
  (k < 2 ^ 64 -> forall st' bufsize, word_ok 64 bufsize ->
    let r := pb_encode document_tables document_memory 8 no_callback no_extension 3 UnknownDocument_fields 1000
               (mk_ostream false st' bufsize 0 None) in
    r = Fault \/
    if k <=? bufsize then exists st'' bs, r = Done tt (mk_ostream false st'' bufsize k None) /\
      written st'' = written st' ++ bs /\ Z.of_nat (length bs) = k
    else exists s bs, r = Failed s /\ bytes_written s <= bufsize /\
      written (o_state s) = written st' ++ bs /\ bytes_written s = Z.of_nat (length bs)).
Proof.
  exact (pb_encode_size_agrees document_tables document_memory 8 no_callback no_extension 3 UnknownDocument_fields 1000 [] 12
    (mk_ostream true [] 0 12 None) document_memory_ok document_tables_ok
    ltac:(repeat constructor; unfold word_ok; cbn; lia) (fun _ _ _ => agree_m_fail) (fun _ _ => agree_m_fail)
    ltac:(vm_compute; reflexivity)).
Defined.
