(* ===== verification/PbDecode.v ===== *)
(** * The message decoder of nanopb ([pb_decode.c])

    The decoder reads fields from a stream and stores them into a struct in
    memory as its field table says, allocating what the table makes a pointer.
    Streams are those of [pb_istream_from_buffer].  The generated tables, the
    program's callbacks and the C library's allocator are parameters.  Tables
    may contain themselves, so the depth is bounded by fuel; [limit] bounds
    the lists of extensions and the calls of a callback that does not consume
    its input. *)

From Stdlib Require Import ZArith Lia ZifyNat List Bool.
From S2P Require Import Prelude PbStream PbMem.
Import ListNotations.

#[local] Open Scope m_scope.

(** ** Definitions *)

(** [realloc] gives the block's new address, or nothing; [free]. *)
Class Allocator := {
  pb_realloc : memory -> Z -> Z -> option (Z * memory);
  pb_free : memory -> Z -> memory
}.

(** The stream, the memory, and [fixed_count_size], a local variable of
    [pb_decode_noinit] that an iterator may point to *)
Record decoder := mk_decoder { stream : pb_istream_t (list Z); mem : memory; fixed_count_size : Z }.

(** [pSize] of an iterator *)
Inductive count_pointer := in_memory (a : Z) | fixed_count.

Definition on_stream {A} (m : SE (pb_istream_t (list Z)) A) : M decoder A := fun d =>
  match m (stream d) with
  | (Some a, s) => Done a (mk_decoder s (mem d) (fixed_count_size d))
  | (None, s) => Failed (mk_decoder s (mem d) (fixed_count_size d))
  end.

Definition d_error {A} (msg : message) : M decoder A := on_stream (PB_RETURN_ERROR msg).

Definition get_stream : M decoder (pb_istream_t (list Z)) := fun d => Done (stream d) d.

Definition read (a : Z) (n : nat) : M decoder Z := fun d => m_opt (load (mem d) a n) d.

Definition write_bytes (a : Z) (bs : list Z) : M decoder unit := fun d =>
  match store_bytes (mem d) a bs with
  | Some m => Done tt (mk_decoder (stream d) m (fixed_count_size d))
  | None => Fault
  end.

Definition write (a : Z) (n : nat) (v : Z) : M decoder unit := write_bytes a (le_bytes n v).

(** [memset(p, 0, n)] *)
Definition clear (a n : Z) : M decoder unit := write_bytes a (repeat 0 (Z.to_nat n)).

Definition read_pointee (p : count_pointer) (n : nat) : M decoder Z :=
  match p with
  | in_memory a => read a n
  | fixed_count => fun d => Done (fixed_count_size d) d
  end.

Definition write_count (p : count_pointer) (v : Z) : M decoder unit :=
  match p with
  | in_memory a => write a 4 v
  | fixed_count => fun d => Done tt (mk_decoder (stream d) (mem d) (u32 v))
  end.

(** [pb_read] into memory; a null destination is skipped. *)
Definition read_to (a count : Z) : M decoder unit :=
  bytes <- on_stream (pb_read (a =? 0) count) ;;
  if a =? 0 then m_ret tt else write_bytes a bytes.

(** Run a program on a substream and come back with what became of it. *)
Definition on_substream {A} (sub : pb_istream_t (list Z)) (m : M decoder A) : M decoder (bool * pb_istream_t (list Z)) := fun d =>
  match m (mk_decoder sub (mem d) (fixed_count_size d)) with
  | Done _ d' => Done (true, stream d') (mk_decoder (stream d) (mem d') (fixed_count_size d'))
  | Failed d' => Done (false, stream d') (mk_decoder (stream d) (mem d') (fixed_count_size d'))
  | Fault => Fault
  | Diverged => Diverged
  end.

(** [return status;] *)
Definition m_status (status : bool) : M decoder unit := if status then m_ret tt else m_fail.

Section Decode.
Context `{Allocator}.
Context (tables : Z -> list pb_field_t).
Context (limit : nat).
Context (decode_callback : Z -> pb_field_t -> Z -> M decoder unit).
Context (extension_callback : Z -> Z -> Z -> Z -> M decoder unit).

(** *** Allocation *)

(** [allocate_field]; [pData] is the address of the pointer. *)
Definition allocate_field (data data_size array_size : Z) : M decoder unit :=
  p <- read data 8 ;;
  if (data_size =? 0) || (array_size =? 0) then d_error invalid_size
  else if ((2 ^ 32 <=? data_size) || (2 ^ 32 <=? array_size)) && (SIZE_MAX / array_size <? data_size)
  then d_error size_too_large
  else fun d =>
    match pb_realloc (mem d) p (size_t (array_size * data_size)) with
    | None => d_error realloc_failed d
    | Some (q, m) => write data 8 q (mk_decoder (stream d) m (fixed_count_size d))
    end.

Definition release_block (p : Z) : M decoder unit := fun d =>
  Done tt (mk_decoder (stream d) (pb_free (mem d) p) (fixed_count_size d)).

(** *** Scalars *)

Definition dec_bool (dest : Z) : M decoder unit :=
  b <- on_stream pb_dec_bool ;; write dest 1 (Z.b2z b).

Definition pb_dec_varint (field : pb_field_t) (dest : Z) : M decoder unit :=
  value <- on_stream pb_decode_varint ;;
  let svalue := if data_size field =? 8 then sint 64 value else sint 32 value in
  let store n clamped :=
    write dest n clamped ;;; if negb (clamped =? svalue) then d_error integer_too_large else m_ret tt in
  if data_size field =? 8 then store 8%nat svalue
  else if data_size field =? 4 then store 4%nat (sint 32 svalue)
  else if data_size field =? 2 then store 2%nat (sint 16 svalue)
  else if data_size field =? 1 then store 1%nat (sint 8 svalue)
  else d_error invalid_data_size.

Definition pb_dec_uvarint (field : pb_field_t) (dest : Z) : M decoder unit :=
  value <- on_stream pb_decode_varint ;;
  let store n clamped :=
    write dest n clamped ;;; if negb (clamped =? value) then d_error integer_too_large else m_ret tt in
  if data_size field =? 8 then store 8%nat value
  else if data_size field =? 4 then store 4%nat (u32 value)
  else if data_size field =? 2 then store 2%nat (u16 value)
  else if data_size field =? 1 then store 1%nat (u8 value)
  else d_error invalid_data_size.

Definition pb_dec_svarint (field : pb_field_t) (dest : Z) : M decoder unit :=
  value <- on_stream pb_decode_svarint ;;
  let store n clamped :=
    write dest n clamped ;;; if negb (clamped =? value) then d_error integer_too_large else m_ret tt in
  if data_size field =? 8 then store 8%nat value
  else if data_size field =? 4 then store 4%nat (sint 32 value)
  else if data_size field =? 2 then store 2%nat (sint 16 value)
  else if data_size field =? 1 then store 1%nat (sint 8 value)
  else d_error invalid_data_size.

Definition pb_dec_fixed32 (dest : Z) : M decoder unit := v <- on_stream pb_decode_fixed32 ;; write dest 4 v.
Definition pb_dec_fixed64 (dest : Z) : M decoder unit := v <- on_stream pb_decode_fixed64 ;; write dest 8 v.

(** *** Bytes and strings *)

(** The end of the stream is checked before anything is allocated for it. *)
Definition allocate_checked (dest size alloc_size : Z) : M decoder Z :=
  s <- get_stream ;;
  if bytes_left s <? size then d_error end_of_stream
  else allocate_field dest alloc_size 1 ;;; read dest 8.

Definition pb_dec_bytes (field : pb_field_t) (dest : Z) : M decoder unit :=
  size <- on_stream pb_decode_varint32 ;;
  if PB_SIZE_MAX <? size then d_error bytes_overflow
  else
    let alloc_size := size_t (size + offsetof_bytes) in
    if alloc_size <? size then d_error size_too_large
    else
      bdest <- (if PB_ATYPE (type field) =? PB_ATYPE_POINTER then allocate_checked dest size alloc_size
                else if data_size field <? alloc_size then d_error bytes_overflow else m_ret dest) ;;
      write bdest 4 size ;;;
      read_to (bdest + offsetof_bytes) size.

Definition pb_dec_string (field : pb_field_t) (dest : Z) : M decoder unit :=
  size <- on_stream pb_decode_varint32 ;;
  let alloc_size := u32 (size + 1) in
  if alloc_size <? size then d_error size_too_large
  else
    dest <- (if PB_ATYPE (type field) =? PB_ATYPE_POINTER then allocate_checked dest size alloc_size
             else if data_size field <? alloc_size then d_error string_overflow else m_ret dest) ;;
    (fun d =>
       match read_to dest size d with
       | Done _ d => write (dest + size) 1 0 d
       | Failed d => (write (dest + size) 1 0 ;;; m_fail) d
       | r => r
       end).

Definition pb_dec_fixed_length_bytes (field : pb_field_t) (dest : Z) : M decoder unit :=
  size <- on_stream pb_decode_varint32 ;;
  if PB_SIZE_MAX <? size then d_error bytes_overflow
  else if size =? 0 then clear dest (data_size field)
  else if negb (size =? data_size field) then d_error incorrect_fixed_length_bytes_size
  else read_to dest (data_size field).

(** *** Default values *)

Definition iter_from_extension (extension : Z) : M decoder pb_field_iter_t :=
  t <- read extension 8 ;;
  arg <- read (t + 16) 8 ;;
  dest <- read (extension + 8) 8 ;;
  let iter := fst (pb_field_iter_begin (tables arg) dest) in
  let data := if PB_ATYPE (type (iter_field iter)) =? PB_ATYPE_POINTER then extension + 8 else dest in
  m_ret (mk_iter (start iter) (pos iter) (required_field_index iter) (dest_struct iter) data (extension + 24)).

(** [while (ext != NULL)]: [f] on every extension *)
Fixpoint for_extensions (bound : nat) (ext : Z) (f : Z -> M decoder unit) : M decoder unit :=
  match bound with
  | O => m_diverged
  | S bound =>
      if ext =? 0 then m_ret tt
      else f ext ;;; next <- read (ext + 16) 8 ;; for_extensions bound next f
  end.

(** [do ... while (pb_field_iter_next(&iter))] *)
Fixpoint for_fields (steps : nat) (iter : pb_field_iter_t) (f : pb_field_iter_t -> M decoder unit) : M decoder unit :=
  match steps with
  | O => m_diverged
  | S steps =>
      f iter ;;;
      let (iter, more) := pb_field_iter_next iter in
      if more then for_fields steps iter f else m_ret tt
  end.

(** Every field of a struct; [f] is not called for an empty table. *)
Definition each_field (fields : list pb_field_t) (dest : Z) (f : pb_field_iter_t -> M decoder unit) : M decoder unit :=
  let (iter, some) := pb_field_iter_begin fields dest in
  if some then for_fields (S (length fields)) iter f else m_ret tt.

Fixpoint pb_field_set_to_default (fuel : nat) (iter : pb_field_iter_t) : M decoder unit :=
  match fuel with
  | O => m_diverged
  | S fuel =>
      let field := iter_field iter in
      let ltype := PB_LTYPE (type field) in
      let atype := PB_ATYPE (type field) in
      let htype := PB_HTYPE (type field) in
      if ltype =? PB_LTYPE_EXTENSION then
        ext <- read (pData iter) 8 ;;
        for_extensions limit ext (fun ext =>
          write (ext + 24) 1 0 ;;; it <- iter_from_extension ext ;; pb_field_set_to_default fuel it)
      else if atype =? PB_ATYPE_STATIC then
        let repeated := (htype =? PB_HTYPE_REPEATED) || (htype =? PB_HTYPE_ONEOF) in
        let optional := (htype =? PB_HTYPE_OPTIONAL) && negb (pSize iter =? pData iter) in
        (if optional then write (pSize iter) 1 0
         else if repeated then write (pSize iter) 4 0 else m_ret tt) ;;;
        if negb optional && repeated then m_ret tt
        else if ltype =? PB_LTYPE_SUBMESSAGE then
          match ptr field with
          | ptr_fields t => each_field (tables t) (pData iter) (pb_field_set_to_default fuel)
          | _ => m_fault
          end
        else
          match ptr field with
          | ptr_null => clear (pData iter) (data_size field)
          | ptr_default bytes => write_bytes (pData iter) (firstn (Z.to_nat (data_size field)) bytes)
          | ptr_fields _ => m_fault
          end
      else if atype =? PB_ATYPE_POINTER then
        write (pData iter) 8 0 ;;;
        if (htype =? PB_HTYPE_REPEATED) || (htype =? PB_HTYPE_ONEOF) then write (pSize iter) 4 0 else m_ret tt
      else m_ret tt
  end.

Definition pb_message_set_to_defaults (fuel : nat) (fields : list pb_field_t) (dest : Z) : M decoder unit :=
  each_field fields dest (pb_field_set_to_default fuel).

(** *** Release *)

(** The entries of an array, [step] bytes each *)
Fixpoint for_items (count : nat) (item step : Z) (f : Z -> M decoder unit) : M decoder unit :=
  match count with
  | O => m_ret tt
  | S count => f item ;;; for_items count (item + step) step f
  end.

Fixpoint pb_release_single_field (fuel : nat) (iter : pb_field_iter_t) : M decoder unit :=
  match fuel with
  | O => m_diverged
  | S fuel =>
      let field := iter_field iter in
      let ltype := PB_LTYPE (type field) in
      let atype := PB_ATYPE (type field) in
      let htype := PB_HTYPE (type field) in
      (** [pb_release] of a submessage *)
      let pb_release t item := if item =? 0 then m_ret tt else each_field (tables t) item (pb_release_single_field fuel) in
      let contents :=
        if ltype =? PB_LTYPE_EXTENSION then
          ext <- read (pData iter) 8 ;;
          for_extensions limit ext (fun ext => it <- iter_from_extension ext ;; pb_release_single_field fuel it)
        else if (ltype =? PB_LTYPE_SUBMESSAGE) && negb (atype =? PB_ATYPE_CALLBACK) then
          item <- (if atype =? PB_ATYPE_POINTER then read (pData iter) 8 else m_ret (pData iter)) ;;
          count <-
            (if htype =? PB_HTYPE_REPEATED then
               if (atype =? PB_ATYPE_STATIC) && (pSize iter =? pData iter) then m_ret (array_size field)
               else
                 count <- read (pSize iter) 4 ;;
                 m_ret (if (atype =? PB_ATYPE_STATIC) && (array_size field <? count) then array_size field else count)
             else m_ret 1) ;;
          if item =? 0 then m_ret tt
          else match ptr field with
               | ptr_fields t => for_items (Z.to_nat count) item (data_size field) (pb_release t)
               | _ => m_fault
               end
        else m_ret tt in
      let pointer :=
        if atype =? PB_ATYPE_POINTER then
          (if (htype =? PB_HTYPE_REPEATED) && ((ltype =? PB_LTYPE_STRING) || (ltype =? PB_LTYPE_BYTES)) then
             item <- read (pData iter) 8 ;; count <- read (pSize iter) 4 ;;
             for_items (Z.to_nat count) item 8 (fun item => p <- read item 8 ;; release_block p ;;; write item 8 0)
           else m_ret tt) ;;;
          (if htype =? PB_HTYPE_REPEATED then write (pSize iter) 4 0 else m_ret tt) ;;;
          p <- read (pData iter) 8 ;; release_block p ;;; write (pData iter) 8 0
        else m_ret tt in
      if htype =? PB_HTYPE_ONEOF then
        which <- read (pSize iter) 4 ;;
        if negb (which =? tag field) then m_ret tt else contents ;;; pointer
      else contents ;;; pointer
  end.

Definition pb_release (fuel : nat) (fields : list pb_field_t) (dest : Z) : M decoder unit :=
  if dest =? 0 then m_ret tt else each_field fields dest (pb_release_single_field fuel).

(** The new iterator is part of the result. *)
Definition pb_release_union_field (fuel : nat) (iter : pb_field_iter_t) : M decoder pb_field_iter_t :=
  old_tag <- read (pSize iter) 4 ;;
  let new_tag := tag (iter_field iter) in
  if (old_tag =? 0) || (old_tag =? new_tag) then m_ret iter
  else
    let (iter, found) := pb_field_iter_find iter old_tag in
    if negb found then d_error invalid_union_tag
    else
      pb_release_single_field fuel iter ;;;
      let (iter, found) := pb_field_iter_find iter new_tag in
      if negb found then d_error iterator_error
      else
        (if PB_ATYPE (type (iter_field iter)) =? PB_ATYPE_POINTER then write (pData iter) 8 0 else m_ret tt) ;;;
        m_ret iter.
(** *** One field

    Over [pb_decode_noinit] of one level less, and the fuel for defaults and
    release below it *)
Section Level.
Context (decode_noinit : list pb_field_t -> Z -> M decoder unit).
Context (fuel : nat).

(** [pb_decode], over a [pb_decode_noinit] *)
Definition pb_decode_over (fields : list pb_field_t) (dest : Z) : M decoder unit :=
  pb_message_set_to_defaults fuel fields dest ;;;
  (fun d =>
     match decode_noinit fields dest d with
     | Failed d => (pb_release fuel fields dest ;;; m_fail) d
     | r => r
     end).

Definition pb_dec_submessage (field : pb_field_t) (dest : Z) : M decoder unit :=
  substream <- on_stream pb_make_string_substream ;;
  match ptr field with
  | ptr_null => d_error invalid_field_descriptor
  | ptr_default _ => m_fault
  | ptr_fields t =>
      r <- on_substream substream
             (if PB_HTYPE (type field) =? PB_HTYPE_REPEATED then pb_decode_over (tables t) dest
              else decode_noinit (tables t) dest) ;;
      let (status, substream) := r in
      on_stream (pb_close_string_substream substream) ;;;
      m_status status
  end.

(** [PB_DECODERS]; calling the NULL of an extension is a fault. *)
Definition decoder_for (field : pb_field_t) : Z -> M decoder unit :=
  let ltype := PB_LTYPE (type field) in
  if ltype =? PB_LTYPE_BOOL then dec_bool
  else if ltype =? PB_LTYPE_VARINT then pb_dec_varint field
  else if ltype =? PB_LTYPE_UVARINT then pb_dec_uvarint field
  else if ltype =? PB_LTYPE_SVARINT then pb_dec_svarint field
  else if ltype =? PB_LTYPE_FIXED32 then pb_dec_fixed32
  else if ltype =? PB_LTYPE_FIXED64 then pb_dec_fixed64
  else if ltype =? PB_LTYPE_BYTES then pb_dec_bytes field
  else if ltype =? PB_LTYPE_STRING then pb_dec_string field
  else if ltype =? PB_LTYPE_SUBMESSAGE then pb_dec_submessage field
  else if ltype =? PB_LTYPE_FIXED_LENGTH_BYTES then pb_dec_fixed_length_bytes field
  else fun _ => m_fault.

(** The loop over a packed array, on its substream; every item takes a byte of
    the stream at least. *)
Fixpoint packed_items (steps : nat) (field : pb_field_t) (data : Z) (size : count_pointer) : M decoder unit :=
  match steps with
  | O => m_diverged
  | S steps =>
      s <- get_stream ;;
      if bytes_left s =? 0 then m_ret tt
      else
        n <- read_pointee size 4 ;;
        if array_size field <=? n then m_ret tt
        else
          decoder_for field (data + u32 (data_size field * n)) ;;;
          n <- read_pointee size 4 ;;
          write_count size (u32 (n + 1)) ;;;
          packed_items steps field data size
  end.

Definition decode_static_field (wire_type : Z) (iter : pb_field_iter_t) (size : count_pointer) : M decoder unit :=
  let field := iter_field iter in
  let htype := PB_HTYPE (type field) in
  if htype =? PB_HTYPE_REQUIRED then decoder_for field (pData iter)
  else if htype =? PB_HTYPE_OPTIONAL then
    (if negb (pSize iter =? pData iter) then write (pSize iter) 1 1 else m_ret tt) ;;;
    decoder_for field (pData iter)
  else if htype =? PB_HTYPE_REPEATED then
    if (wire_type =? PB_WT_STRING) && (PB_LTYPE (type field) <=? PB_LTYPE_LAST_PACKABLE) then
      substream <- on_stream pb_make_string_substream ;;
      r <- on_substream substream (packed_items (S (Z.to_nat (bytes_left substream))) field (pData iter) size) ;;
      let (status, substream) := r in
      if negb (bytes_left substream =? 0) then d_error array_overflow
      else on_stream (pb_close_string_substream substream) ;;; m_status status
    else
      n <- read_pointee size 4 ;;
      write_count size (u32 (n + 1)) ;;;
      if array_size field <=? n then d_error array_overflow
      else decoder_for field (pData iter + u32 (data_size field * n))
  else
    which <- read (pSize iter) 4 ;;
    (if (PB_LTYPE (type field) =? PB_LTYPE_SUBMESSAGE) && negb (which =? tag field) then
       clear (pData iter) (data_size field) ;;;
       match ptr field with
       | ptr_fields t => pb_message_set_to_defaults fuel (tables t) (pData iter)
       | _ => m_fault
       end
     else m_ret tt) ;;;
    write (pSize iter) 4 (tag field) ;;;
    decoder_for field (pData iter).

Definition initialize_pointer_field (item : Z) (iter : pb_field_iter_t) : M decoder unit :=
  let field := iter_field iter in
  let ltype := PB_LTYPE (type field) in
  if (ltype =? PB_LTYPE_STRING) || (ltype =? PB_LTYPE_BYTES) then write item 8 0
  else if ltype =? PB_LTYPE_SUBMESSAGE then
    clear item (data_size field) ;;;
    match ptr field with
    | ptr_fields t => pb_message_set_to_defaults fuel (tables t) item
    | _ => m_fault
    end
  else m_ret tt.

(** The loop over a packed array that grows, on its substream.  The error it
    sets on the outer stream does not survive the closing of the substream. *)
Fixpoint packed_pointer_items (steps : nat) (iter : pb_field_iter_t) (size : count_pointer) (allocated_size : Z)
  : M decoder unit :=
  match steps with
  | O => m_diverged
  | S steps =>
      let field := iter_field iter in
      s <- get_stream ;;
      if bytes_left s =? 0 then m_ret tt
      else
        n <- read_pointee size 4 ;;
        if n =? PB_SIZE_MAX then m_fail
        else
          allocated_size <-
            (if allocated_size <? n + 1 then
               if data_size field =? 0 then m_fault
               else
                 let remain := (bytes_left s - 1) / data_size field + 1 in
                 let grown := size_t (if remain <? size_t (PB_SIZE_MAX - allocated_size) then allocated_size + remain
                                      else allocated_size + 1) in
                 allocate_field (pData iter) (data_size field) grown ;;; m_ret grown
             else m_ret allocated_size) ;;
          p <- read (pData iter) 8 ;;
          let item := p + u32 (data_size field * n) in
          if item =? 0 then m_fail
          else
            initialize_pointer_field item iter ;;;
            decoder_for field item ;;;
            n <- read_pointee size 4 ;;
            write_count size (u32 (n + 1)) ;;;
            packed_pointer_items steps iter size allocated_size
  end.

Definition decode_pointer_field (wire_type : Z) (iter : pb_field_iter_t) (size : count_pointer) : M decoder unit :=
  let field := iter_field iter in
  let ltype := PB_LTYPE (type field) in
  let htype := PB_HTYPE (type field) in
  if htype =? PB_HTYPE_REPEATED then
    if (wire_type =? PB_WT_STRING) && (ltype <=? PB_LTYPE_LAST_PACKABLE) then
      allocated_size <- read_pointee size 4 ;;
      substream <- on_stream pb_make_string_substream ;;
      r <- on_substream substream
             (packed_pointer_items (S (Z.to_nat (bytes_left substream))) iter size allocated_size) ;;
      let (status, substream) := r in
      on_stream (pb_close_string_substream substream) ;;; m_status status
    else
      n <- read_pointee size 4 ;;
      if n =? PB_SIZE_MAX then d_error too_many_array_entries
      else
        allocate_field (pData iter) (data_size field) (u32 (n + 1)) ;;;
        p <- read (pData iter) 8 ;;
        n <- read_pointee size 4 ;;
        let item := p + u32 (data_size field * n) in
        write_count size (u32 (n + 1)) ;;;
        initialize_pointer_field item iter ;;;
        decoder_for field item
  else
    (if ltype =? PB_LTYPE_SUBMESSAGE then
       p <- read (pData iter) 8 ;; if negb (p =? 0) then pb_release_single_field fuel iter else m_ret tt
     else m_ret tt) ;;;
    (if htype =? PB_HTYPE_ONEOF then write (pSize iter) 4 (tag field) else m_ret tt) ;;;
    if (ltype =? PB_LTYPE_STRING) || (ltype =? PB_LTYPE_BYTES) then decoder_for field (pData iter)
    else
      allocate_field (pData iter) (data_size field) 1 ;;;
      p <- read (pData iter) 8 ;;
      initialize_pointer_field p iter ;;;
      p <- read (pData iter) 8 ;;
      decoder_for field p.

(** The loop of [decode_callback_field] on the substream; [limit] bounds it. *)
Fixpoint callback_rounds (rounds : nat) (fn : Z) (field : pb_field_t) (arg : Z) : M decoder unit :=
  match rounds with
  | O => m_diverged
  | S rounds =>
      decode_callback fn field arg ;;;
      s <- get_stream ;;
      if bytes_left s =? 0 then m_ret tt else callback_rounds rounds fn field arg
  end.

(** [pb_callback_t]: the function, then [arg], which is passed by address *)
Definition decode_callback_field (wire_type : Z) (iter : pb_field_iter_t) : M decoder unit :=
  let field := iter_field iter in
  fn <- (if pData iter =? 0 then m_ret 0 else read (pData iter) 8) ;;
  if fn =? 0 then on_stream (pb_skip_field wire_type)
  else
    let arg := pData iter + 8 in
    if wire_type =? PB_WT_STRING then
      substream <- on_stream pb_make_string_substream ;;
      r <- on_substream substream (callback_rounds limit fn field arg) ;;
      let (status, substream) := r in
      if negb status then d_error callback_failed
      else on_stream (pb_close_string_substream substream)
    else
      buffer <- on_stream (read_raw_value wire_type 10) ;;
      r <- on_substream (pb_istream_from_buffer buffer (Z.of_nat (length buffer))) (decode_callback fn field arg) ;;
      m_status (fst r).

(** The iterator may be another one after the release of a union. *)
Definition decode_field (wire_type : Z) (iter : pb_field_iter_t) (size : count_pointer) : M decoder pb_field_iter_t :=
  iter <- (if PB_HTYPE (type (iter_field iter)) =? PB_HTYPE_ONEOF then pb_release_union_field fuel iter else m_ret iter) ;;
  let atype := PB_ATYPE (type (iter_field iter)) in
  (if atype =? PB_ATYPE_STATIC then decode_static_field wire_type iter size
   else if atype =? PB_ATYPE_POINTER then decode_pointer_field wire_type iter size
   else if atype =? PB_ATYPE_CALLBACK then decode_callback_field wire_type iter
   else d_error invalid_field_type) ;;;
  m_ret iter.

(** *** Extensions *)

(** [pb_extension_t]: [type], [dest], [next] are words, [found] the byte after
    them; [pb_extension_type_t]: [decode], [encode], [arg] *)
Definition default_extension_decoder (extension t wire_type : Z) : M decoder unit :=
  type <- read extension 8 ;;
  arg <- read (type + 16) 8 ;;
  if negb (tag (field_at (tables arg) 0) =? t) then m_ret tt
  else
    iter <- iter_from_extension extension ;;
    write (extension + 24) 1 1 ;;;
    decode_field wire_type iter (in_memory (pSize iter)) ;;;
    m_ret tt.

(** [while (extension != NULL && pos == stream->bytes_left)] *)
Fixpoint extension_rounds (rounds : nat) (extension before t wire_type : Z) : M decoder unit :=
  match rounds with
  | O => m_diverged
  | S rounds =>
      s <- get_stream ;;
      if (extension =? 0) || negb (before =? bytes_left s) then m_ret tt
      else
        type <- read extension 8 ;;
        fn <- read type 8 ;;
        (if negb (fn =? 0) then extension_callback fn extension t wire_type
         else default_extension_decoder extension t wire_type) ;;;
        next <- read (extension + 16) 8 ;;
        extension_rounds rounds next before t wire_type
  end.

Definition decode_extension (t wire_type : Z) (iter : pb_field_iter_t) : M decoder unit :=
  extension <- read (pData iter) 8 ;;
  s <- get_stream ;;
  extension_rounds limit extension (bytes_left s) t wire_type.

Fixpoint find_extension_loop (steps first : nat) (iter : pb_field_iter_t) : pb_field_iter_t * bool :=
  match steps with
  | O => (iter, false)
  | S steps =>
      if PB_LTYPE (type (iter_field iter)) =? PB_LTYPE_EXTENSION then (iter, true)
      else
        let iter := fst (pb_field_iter_next iter) in
        if Nat.eqb (pos iter) first then (iter, false) else find_extension_loop steps first iter
  end.

Definition find_extension_field (iter : pb_field_iter_t) : pb_field_iter_t * bool :=
  find_extension_loop (S (length (start iter))) (pos iter) iter.

(** *** All fields *)

Definition PB_MAX_REQUIRED_FIELDS : Z := 64.
Definition allbits : Z := 2 ^ 32 - 1.

(** The local variables of [pb_decode_noinit]; [fixed_count_size] is in the
    state.  [iter.pSize] is left alone: that it is [&fixed_count_size] is seen
    from the field. *)
Record locals := mk_locals {
  iter : pb_field_iter_t;
  fields_seen : list Z;
  extension_range_start : Z;
  fixed_count_field : option nat
}.

(** [pb_decode_tag]; nothing at the end of the message *)
Definition next_tag : M decoder (option (Z * Z)) := fun d =>
  match pb_decode_tag (stream d, false) with
  | (Some t, (s, _)) => Done (Some t) (mk_decoder s (mem d) (fixed_count_size d))
  | (None, (s, true)) => Done None (mk_decoder s (mem d) (fixed_count_size d))
  | (None, (s, false)) => Failed (mk_decoder s (mem d) (fixed_count_size d))
  end.

(** A tag that no field has *)
Definition decode_unknown (v : locals) (t wire_type : Z) : M decoder locals :=
  let skip v := on_stream (pb_skip_field wire_type) ;;; m_ret v in
  if extension_range_start v <=? t then
    let (it, found) := find_extension_field (iter v) in
    let range := if found then tag (iter_field it) else 2 ^ 32 - 1 in
    let v := mk_locals it (fields_seen v) range (fixed_count_field v) in
    if range <=? t then
      before <- get_stream ;;
      decode_extension t wire_type it ;;;
      after <- get_stream ;;
      if negb (bytes_left before =? bytes_left after) then m_ret v else skip v
    else skip v
  else skip v.

(** The last fixed count field must be complete. *)
Definition check_fixed_count (v : locals) : M decoder unit := fun d =>
  match fixed_count_field v with
  | Some i =>
      if negb (fixed_count_size d =? array_size (field_at (start (iter v)) i))
      then d_error wrong_size_for_fixed_count_field d
      else Done tt d
  | None => Done tt d
  end.

(** A repeated field without a counter in the struct gets the local one. *)
Definition count_field (v : locals) : M decoder (locals * count_pointer) :=
  let it := iter v in
  if (PB_HTYPE (type (iter_field it)) =? PB_HTYPE_REPEATED) && (pSize it =? pData it) then
    let same := match fixed_count_field v with Some i => Nat.eqb i (pos it) | None => false end in
    if same then m_ret (v, fixed_count)
    else
      check_fixed_count v ;;;
      write_count fixed_count 0 ;;;
      m_ret (mk_locals it (fields_seen v) (extension_range_start v) (Some (pos it)), fixed_count)
  else m_ret (v, in_memory (pSize it)).

Definition see_field (v : locals) : locals :=
  let it := iter v in
  if (PB_HTYPE (type (iter_field it)) =? PB_HTYPE_REQUIRED) && (required_field_index it <? PB_MAX_REQUIRED_FIELDS) then
    let tmp := u32 (Z.shiftl 1 (Z.land (required_field_index it) 31)) in
    let word := Z.shiftr (required_field_index it) 5 in
    mk_locals it (set_nth (Z.to_nat word) (Z.lor (at_ (fields_seen v) word) tmp) (fields_seen v))
      (extension_range_start v) (fixed_count_field v)
  else v.

(** The body of the loop after the tag *)
Definition decode_tagged (v : locals) (t wire_type : Z) : M decoder locals :=
  let (it, found) := pb_field_iter_find (iter v) t in
  let v := mk_locals it (fields_seen v) (extension_range_start v) (fixed_count_field v) in
  if negb found then decode_unknown v t wire_type
  else
    r <- count_field v ;;
    let (v, size) := (r : locals * count_pointer) in
    let v := see_field v in
    it <- decode_field wire_type (iter v) size ;;
    m_ret (mk_locals it (fields_seen v) (extension_range_start v) (fixed_count_field v)).

(** [while (stream->bytes_left)]; a tag takes a byte of the stream at least. *)
Fixpoint decode_loop (steps : nat) (v : locals) : M decoder locals :=
  match steps with
  | O => m_diverged
  | S steps =>
      s <- get_stream ;;
      if bytes_left s =? 0 then m_ret v
      else
        t <- next_tag ;;
        match t with
        | None => m_ret v
        | Some (t, wire_type) => v <- decode_tagged v t wire_type ;; decode_loop steps v
        end
  end.

(** Seek to the end: the last [required_field_index], the last type, and the
    iterator, back at the start *)
Fixpoint last_field (steps : nat) (it : pb_field_iter_t) : Z * Z * pb_field_iter_t :=
  match steps with
  | O => (required_field_index it, type (iter_field it), it)
  | S steps =>
      let (it', more) := pb_field_iter_next it in
      if more then last_field steps it' else (required_field_index it, type (iter_field it), it')
  end.

Definition req_field_count (it : pb_field_iter_t) : Z :=
  let '(req, last_type, it) := last_field (length (start it)) it in
  let req := if (PB_HTYPE last_type =? PB_HTYPE_REQUIRED) && negb (tag (iter_field it) =? 0) then u32 (req + 1) else req in
  if PB_MAX_REQUIRED_FIELDS <? req then PB_MAX_REQUIRED_FIELDS else req.

(** All of the first [req] bits are set. *)
Definition all_seen (seen : list Z) (req : Z) : bool :=
  forallb (fun i => at_ seen (Z.of_nat i) =? allbits) (seq 0 (Z.to_nat (Z.shiftr req 5))) &&
  ((Z.land req 31 =? 0) || (at_ seen (Z.shiftr req 5) =? Z.shiftr allbits (32 - Z.land req 31))).

Definition check_required (v : locals) : M decoder unit :=
  if all_seen (fields_seen v) (req_field_count (iter v)) then m_ret tt else d_error missing_required_field.

(** [fixed_count_size] of the caller comes back. *)
Definition own_count {A} (m : M decoder A) : M decoder A := fun d =>
  match m (mk_decoder (stream d) (mem d) 0) with
  | Done a d' => Done a (mk_decoder (stream d') (mem d') (fixed_count_size d))
  | Failed d' => Failed (mk_decoder (stream d') (mem d') (fixed_count_size d))
  | Fault => Fault
  | Diverged => Diverged
  end.

Definition decode_fields (fields : list pb_field_t) (dest : Z) : M decoder unit :=
  own_count (
    s <- get_stream ;;
    v <- decode_loop (S (Z.to_nat (bytes_left s)))
           (mk_locals (fst (pb_field_iter_begin fields dest)) [0; 0] 0 None) ;;
    check_fixed_count v ;;;
    check_required v).
End Level.

(** The fuel bounds the depth of the message. *)
Fixpoint pb_decode_noinit (fuel : nat) (fields : list pb_field_t) (dest_struct : Z) : M decoder unit :=
  match fuel with
  | O => m_diverged
  | S level => decode_fields (pb_decode_noinit level) fuel fields dest_struct
  end.

Definition pb_decode (fuel : nat) (fields : list pb_field_t) (dest_struct : Z) : M decoder unit :=
  pb_decode_over (pb_decode_noinit fuel) fuel fields dest_struct.

(** [pb_decode_delimited] and its [noinit] variant *)
Definition delimited (decode : M decoder unit) : M decoder unit :=
  substream <- on_stream pb_make_string_substream ;;
  r <- on_substream substream decode ;;
  let (status, substream) := r in
  on_stream (pb_close_string_substream substream) ;;;
  m_status status.

Definition pb_decode_delimited_noinit (fuel : nat) (fields : list pb_field_t) (dest_struct : Z) : M decoder unit :=
  delimited (pb_decode_noinit fuel fields dest_struct).

Definition pb_decode_delimited (fuel : nat) (fields : list pb_field_t) (dest_struct : Z) : M decoder unit :=
  delimited (pb_decode fuel fields dest_struct).

Definition pb_decode_nullterminated (fuel : nat) (fields : list pb_field_t) (dest_struct : Z) : M decoder unit :=
  pb_decode fuel fields dest_struct.
End Decode.
