(* ===== verification/PbSafe.v ===== *)
(** * The message decoder is memory safe

    [pb_decode] reads bytes from wherever the program got them.  For the
    structs that hold all their fields themselves (no pointers, callbacks or
    extensions) and whose tables describe them truly ([message_ok]), it comes
    to an end, stays inside the struct and inside the input, whatever the
    input is.  [reads] says so of a function on streams, [safe] of a program
    of the decoder; each function of [PbStream] and [PbDecode] gets a lemma. *)

From Stdlib Require Import ZArith Lia ZifyNat List Bool.
From S2P Require Import Prelude ConstTime PbStream PbMem PbEncode PbDecode.
Import ListNotations.

(** ** Streams *)

(** The stream has the bytes it promises. *)
Definition stream_ok (s : pb_istream_t (list Z)) : Prop :=
  bytes_ok (state s) /\ 0 <= bytes_left s <= Z.of_nat (length (state s)) /\ Z.of_nat (length (state s)) < 2 ^ 64.

(** From [s] the stream moved forward to [s'], and not past what it counted. *)
Definition moves (s s' : pb_istream_t (list Z)) : Prop :=
  bytes_left s' <= bytes_left s /\
  exists pre, state s = pre ++ state s' /\ Z.of_nat (length pre) <= bytes_left s - bytes_left s'.

Lemma moves_refl s : moves s s.
Proof. split; [lia|]. exists []. split; [reflexivity|cbn; lia]. Qed.

Lemma moves_trans s1 s2 s3 : moves s1 s2 -> moves s2 s3 -> moves s1 s3.
Proof.
  intros [L1 (p1 & E1 & N1)] [L2 (p2 & E2 & N2)]. split; [lia|]. exists (p1 ++ p2).
  rewrite E1, E2, app_assoc, length_app. split; [reflexivity|lia].
Qed.

Lemma moves_ok s s' : stream_ok s -> moves s s' -> 0 <= bytes_left s' -> stream_ok s'.
Proof.
  intros (B & L & N) [L' (pre & E & Np)] P. rewrite E, length_app in L, N. rewrite E in B. apply Forall_app in B as [_ B].
  split; [exact B|lia].
Qed.

(** What [m] returns has [P] and took [n] bytes at least; failing or not, the
    stream stays inside its input. *)
Definition reads {A} (n : Z) (P : A -> Prop) (m : SE (pb_istream_t (list Z)) A) : Prop :=
  forall s, stream_ok s ->
    match m s with
    | (Some a, s') => P a /\ moves s s' /\ 0 <= bytes_left s' /\ bytes_left s' + n <= bytes_left s
    | (None, s') => moves s s' /\ 0 <= bytes_left s'
    end.

Lemma reads_bind {A B} n k (P : A -> Prop) (Q : B -> Prop) (m : SE (pb_istream_t (list Z)) A) f :
  reads n P m -> 0 <= k -> (forall a, P a -> reads k Q (f a)) -> reads (n + k) Q (bind m f).
Proof.
  intros Hm Hk Hf s Hs. unfold bind. specialize (Hm s Hs). destruct (m s) as [[a|] s1]; [|exact Hm].
  destruct Hm as (Pa & M1 & L1 & N1). specialize (Hf a Pa s1 (moves_ok _ _ Hs M1 L1)).
  destruct (f a s1) as [[b|] s2].
  - destruct Hf as (Qb & M2 & L2 & N2). split; [exact Qb|]. split; [now apply moves_trans with s1|]. lia.
  - destruct Hf as (M2 & L2). split; [now apply moves_trans with s1|exact L2].
Qed.

(** The bytes the first action takes are enough. *)
Lemma reads_first {A B} n (P : A -> Prop) (Q : B -> Prop) (m : SE (pb_istream_t (list Z)) A) f :
  reads n P m -> (forall a, P a -> reads 0 Q (f a)) -> reads n Q (bind m f).
Proof. intros Hm Hf. rewrite <- (Z.add_0_r n). now apply reads_bind with P. Qed.

Lemma reads_weaken {A} n k (P Q : A -> Prop) (m : SE (pb_istream_t (list Z)) A) :
  reads n P m -> k <= n -> (forall a, P a -> Q a) -> reads k Q m.
Proof.
  intros Hm Hk HPQ s Hs. specialize (Hm s Hs). destruct (m s) as [[a|] s']; [|exact Hm].
  destruct Hm as (Pa & M & L & N). split; [now apply HPQ|]. split; [exact M|lia].
Qed.

Lemma reads_ret {A} (P : A -> Prop) a : P a -> reads 0 P (ret a).
Proof. intros Pa s Hs. split; [exact Pa|]. split; [apply moves_refl|]. destruct Hs as (_ & ? & _). lia. Qed.

Lemma reads_fail {A} n (P : A -> Prop) : reads n P fail.
Proof. intros s Hs. split; [apply moves_refl|apply Hs]. Qed.

Lemma reads_error {A} n (P : A -> Prop) msg : reads n P (PB_RETURN_ERROR msg).
Proof. intros s Hs. split; [apply (moves_refl s)|apply Hs]. Qed.

Lemma reads_if {A} n (P : A -> Prop) (b : bool) m1 m2 :
  (b = true -> reads n P m1) -> (b = false -> reads n P m2) -> reads n P (if b then m1 else m2).
Proof. destruct b; auto. Qed.

Lemma reads_get {A} n (P : A -> Prop) f : (forall s, stream_ok s -> reads n P (f s)) -> reads n P (bind get f).
Proof. intros Hf s Hs. exact (Hf s Hs s Hs). Qed.

Definition bytes_of (count : Z) (l : list Z) : Prop := bytes_ok l /\ Z.of_nat (length l) = count.

Lemma reads_checked count : 0 <= count -> reads count (bytes_of count) (read_checked count).
Proof.
  intros Hc s Hs. unfold read_checked, bind, get. destruct (Z.ltb_spec (bytes_left s) count).
  - exact (reads_error count (bytes_of count) _ s Hs).
  - destruct Hs as (B & L & N). unfold read_callback, buf_reader, buf_read, with_left. cbn [state bytes_left].
    rewrite wrap_small by (unfold word_ok; lia). repeat split; cbn [state bytes_left]; try lia.
    + now apply bytes_ok_firstn.
    + rewrite length_firstn. lia.
    + exists (firstn (Z.to_nat count) (state s)). rewrite firstn_skipn, length_firstn. split; [reflexivity|lia].
Qed.

Lemma reads_read null count : 0 <= count -> reads count (bytes_of count) (pb_read null count).
Proof.
  intros Hc. unfold pb_read. apply reads_if; intros E.
  - apply Z.eqb_eq in E as ->. apply reads_ret. split; [constructor|reflexivity].
  - rewrite andb_false_r. now apply reads_checked.
Qed.

Lemma reads_readbyte : reads 1 byte_ok pb_readbyte.
Proof.
  intros s Hs. unfold pb_readbyte, bind, get. destruct (Z.eqb_spec (bytes_left s) 0) as [E|N].
  - exact (reads_error 1 byte_ok _ s Hs).
  - pose proof (reads_checked 1 ltac:(lia) s Hs) as R. unfold read_checked, bind, get in R.
    destruct (Z.ltb_spec (bytes_left s) 1); [destruct Hs as (_ & ? & _); lia|]. cbn in R |- *.
    destruct R as ([B L] & R). split; [|exact R]. destruct (state s); [discriminate L|]. now inversion B.
Qed.

Lemma reads_null count : 0 <= count -> reads count (fun _ => True) (pb_read true count ;;; ret tt)%se.
Proof. intros Hc. apply reads_first with (bytes_of count); [now apply reads_read|]. intros. now apply reads_ret. Qed.

Lemma land_low b n : 0 <= n -> word_ok n (Z.land b (2 ^ n - 1)).
Proof. intros. rewrite land_mask by assumption. now apply wrap_range. Qed.

Lemma reads_varint32_loop fuel : forall result bitpos, word_ok 32 result -> reads 0 (word_ok 32) (varint32_loop fuel result bitpos).
Proof.
  induction fuel as [|fuel IH]; intros result bitpos Hr; cbn [varint32_loop]; [apply reads_fail|].
  eapply reads_weaken; [|instantiate (1 := 1); lia|intros a Ha; exact Ha]. eapply reads_first; [apply reads_readbyte|].
  intros byte _. eapply reads_first.
  - apply reads_if; intros _; [apply reads_if; intros _; [apply reads_error|apply reads_ret; exact Hr]|].
    apply reads_ret, lor_ok; [lia|exact Hr|now apply wrap_range].
  - intros r Hr'. apply reads_if; intros _; [now apply IH|]. apply reads_if; intros _; [apply reads_error|now apply reads_ret].
Qed.

(** With [*eof] beside the stream *)
Definition reads_eof {A} (n : Z) (P : A -> Prop) (m : SE (pb_istream_t (list Z) * bool) A) : Prop :=
  forall eof, reads n P (fun s => let (r, se) := m (s, eof) in (r, fst se)).

Lemma reads_varint32_eof : reads_eof 1 (word_ok 32) pb_decode_varint32_eof.
Proof.
  intros eof s Hs. unfold pb_decode_varint32_eof. pose proof (reads_readbyte s Hs) as R.
  destruct (pb_readbyte s) as [[byte|] s1]; [|exact R]. destruct R as (B & M1 & L1 & N1).
  assert (T : reads 0 (word_ok 32) (if Z.land byte 128 =? 0 then ret byte
      else varint32_loop (S (Z.to_nat (bytes_left s1))) (Z.land byte 127) 7)).
  { apply reads_if; intros _; [apply reads_ret; unfold word_ok in *; lia|]. apply reads_varint32_loop.
    pose proof (land_low byte 7 ltac:(lia)) as W. unfold word_ok in *. change (2 ^ 7 - 1) with 127 in W. lia. }
  specialize (T s1 (moves_ok _ _ Hs M1 L1)). revert T. set (m := if _ =? 0 then _ else _). intros T. destruct (m s1) as [[v|] s2]; cbn [fst].
  - destruct T as (W & M2 & L2 & N2). split; [exact W|]. split; [now apply moves_trans with s1|lia].
  - destruct T as (M2 & L2). split; [now apply moves_trans with s1|exact L2].
Qed.

Lemma reads_varint32 : reads 1 (word_ok 32) pb_decode_varint32.
Proof. exact (reads_varint32_eof false). Qed.

Lemma reads_varint_loop fuel : forall result bitpos, reads 0 (fun _ => True) (varint_loop fuel result bitpos).
Proof.
  induction fuel as [|fuel IH]; intros result bitpos; cbn [varint_loop]; [apply reads_fail|].
  apply reads_if; intros _; [apply reads_error|]. eapply reads_weaken; [|instantiate (1 := 1); lia|intros a Ha; exact Ha].
  eapply reads_first; [apply reads_readbyte|]. intros byte _. apply reads_if; intros _; [apply IH|now apply reads_ret].
Qed.

Lemma reads_varint : reads 1 (fun _ => True) pb_decode_varint.
Proof.
  unfold pb_decode_varint. generalize 10%nat. intros fuel. cbn [varint_loop Z.leb Z.compare].
  eapply reads_first; [apply reads_readbyte|]. intros byte _.
  apply reads_if; intros _; [apply reads_varint_loop|now apply reads_ret].
Qed.

Lemma reads_svarint : reads 1 (fun _ => True) pb_decode_svarint.
Proof. eapply reads_first; [apply reads_varint|]. intros. now apply reads_ret. Qed.

Lemma reads_fixed32 : reads 4 (fun _ => True) pb_decode_fixed32.
Proof. eapply reads_first; [now apply reads_read|]. intros. now apply reads_ret. Qed.

Lemma reads_fixed64 : reads 8 (fun _ => True) pb_decode_fixed64.
Proof. eapply reads_first; [now apply reads_read|]. intros. now apply reads_ret. Qed.

Lemma reads_bool : reads 1 (fun _ => True) pb_dec_bool.
Proof. eapply reads_first; [apply reads_varint32|]. intros. now apply reads_ret. Qed.

Lemma reads_skip_varint_loop fuel : reads 0 (fun _ => True) (skip_varint_loop fuel).
Proof.
  induction fuel as [|fuel IH]; cbn [skip_varint_loop]; [apply reads_fail|].
  eapply reads_weaken; [|instantiate (1 := 1); lia|intros a Ha; exact Ha]. eapply reads_first; [now apply reads_read|].
  intros. apply reads_if; intros _; [apply IH|now apply reads_ret].
Qed.

Lemma reads_skip_field wire_type : reads 0 (fun _ => True) (pb_skip_field wire_type).
Proof.
  unfold pb_skip_field. apply reads_if; intros _.
  { apply reads_get. intros. apply reads_skip_varint_loop. }
  apply reads_if; intros _; [eapply reads_weaken; [now apply (reads_null 8)|lia|auto]|].
  apply reads_if; intros _.
  { apply reads_weaken with 1 (fun _ : unit => True); [|lia|auto]. apply reads_first with (word_ok 32); [apply reads_varint32|].
    intros size W. unfold word_ok in W. eapply reads_weaken; [apply (reads_null size); lia|lia|auto]. }
  apply reads_if; intros _; [eapply reads_weaken; [now apply (reads_null 4)|lia|auto]|apply reads_error].
Qed.

(** A tag has 29 bits. *)
Lemma reads_tag : reads_eof 1 (fun t => 0 <= fst t < 2 ^ 29) pb_decode_tag.
Proof.
  intros eof s Hs. unfold pb_decode_tag. pose proof (reads_varint32_eof false s Hs) as R. cbn beta in R.
  destruct (pb_decode_varint32_eof (s, false)) as [[temp|] [s1 e]]; cbn [fst] in R; [|exact R].
  destruct R as (W & M & L & N). destruct (temp =? 0); cbn [fst]; [split; [exact M|exact L]|]. unfold word_ok in W.
  rewrite Z.shiftr_div_pow2 by lia. split; [lia_div|]. split; [exact M|lia].
Qed.

(** *** Substreams

    While a substream is open, the stream has counted its bytes but stands
    before them. *)
Definition opened (s s1 sub : pb_istream_t (list Z)) : Prop :=
  moves s s1 /\ 0 <= bytes_left s1 /\ bytes_left s1 < bytes_left s /\ stream_ok sub /\ state sub = state s1 /\
  Z.of_nat (length (state s)) - bytes_left s <= Z.of_nat (length (state s1)) - bytes_left s1 - bytes_left sub.

Lemma make_substream_opens s : stream_ok s ->
  match pb_make_string_substream s with
  | (Some sub, s1) => opened s s1 sub
  | (None, s1) => moves s s1 /\ 0 <= bytes_left s1
  end.
Proof.
  intros Hs. unfold pb_make_string_substream, bind, get, put, ret. pose proof (reads_varint32 s Hs) as R.
  destruct (pb_decode_varint32 s) as [[size|] s1]; [|exact R]. destruct R as (W & M & L & N). unfold word_ok in W.
  pose proof (moves_ok _ _ Hs M L) as (B1 & L1 & N1). destruct (Z.ltb_spec (bytes_left s1) size); [exact (conj M L)|].
  unfold with_left. cbn [state bytes_left errmsg]. rewrite wrap_small by (unfold word_ok; lia).
  destruct M as [ML (pre & E & Np)]. pose proof (f_equal (fun l => Z.of_nat (length l)) E) as El. cbn beta in El. rewrite length_app in El.
  split; [split; cbn [state bytes_left]; [lia|exists pre; split; [exact E|lia]]|]. cbn [state bytes_left]. split; [lia|]. split; [lia|].
  split; [split; cbn [state bytes_left]; [exact B1|lia]|]. split; [reflexivity|lia].
Qed.

Lemma close_substream_moves s s1 sub sub' : opened s s1 sub -> moves sub sub' -> 0 <= bytes_left sub' ->
  let s2 := snd (pb_close_string_substream sub' s1) in
  moves s s2 /\ 0 <= bytes_left s2 /\ bytes_left s2 < bytes_left s.
Proof.
  intros (M & L & N & Hsub & E & Slack) Msub Lsub. unfold pb_close_string_substream.
  assert (R : reads 0 (fun _ => True) (if negb (bytes_left sub' =? 0) then pb_read true (bytes_left sub') else ret [])).
  { apply reads_if; intros _; [eapply reads_weaken; [apply reads_read; exact Lsub|exact Lsub|auto]|now apply reads_ret]. }
  specialize (R sub' (moves_ok _ _ Hsub Msub Lsub)). match type of R with match ?m with _ => _ end => destruct m as [[b|] sub2] end; cbn [snd]; [|exact (conj M (conj L N))].
  destruct R as (_ & [M2l (p2 & E2 & N2)] & L2 & _). cbn [state bytes_left]. split; [|exact (conj L N)].
  destruct M as [Ml (p & Ep & Np)], Msub as [Msl (p1 & E1 & N1)]. split; cbn [state bytes_left]; [exact Ml|].
  exists (p ++ p1 ++ p2). rewrite Ep, <- E, E1, E2, !app_assoc. split; [reflexivity|].
  rewrite Ep, <- E, E1, E2, !length_app in Slack. rewrite !length_app. lia.
Qed.

(** ** Programs of the decoder *)

Section Region.
Context (lo size : Z).

(** The struct at [lo] is mapped, and the stream is good. *)
Definition mem_ok (m : memory) : Prop := forall x, lo <= x < lo + size -> exists b, m x = Some b /\ byte_ok b.

Definition ok (d : decoder) : Prop := stream_ok (stream d) /\ mem_ok (mem d) /\ word_ok 32 (fixed_count_size d).

(** The stream moved, and the memory outside the struct stayed as it was. *)
Definition step (d d' : decoder) : Prop :=
  moves (stream d) (stream d') /\ 0 <= bytes_left (stream d') /\ mem_ok (mem d') /\ word_ok 32 (fixed_count_size d') /\
  (forall x, x < lo \/ lo + size <= x -> mem d' x = mem d x).

Definition safe {A} (n : Z) (P : A -> Prop) (m : M decoder A) : Prop :=
  forall d, ok d ->
    match m d with
    | Done a d' => P a /\ step d d' /\ bytes_left (stream d') + n <= bytes_left (stream d)
    | Failed d' => step d d'
    | Fault => False
    | Diverged => False
    end.

Lemma step_refl d : ok d -> step d d.
Proof. intros (S & Hm & C). split; [apply moves_refl|]. split; [apply S|]. auto. Qed.

Lemma step_trans d1 d2 d3 : step d1 d2 -> step d2 d3 -> step d1 d3.
Proof.
  intros (M1 & _ & _ & _ & O1) (M2 & L & Hm & C & O2). split; [now apply moves_trans with (stream d2)|].
  split; [exact L|]. split; [exact Hm|]. split; [exact C|]. intros x Hx. rewrite O2, O1; auto.
Qed.

Lemma step_ok d d' : ok d -> step d d' -> ok d'.
Proof. intros (S & _ & _) (M & L & Hm & C & _). split; [now apply moves_ok with (stream d)|]. auto. Qed.

Lemma safe_bind {A B} n (P : A -> Prop) (Q : B -> Prop) (m : M decoder A) f :
  safe n P m -> (forall a, P a -> safe 0 Q (f a)) -> safe n Q (m_bind m f).
Proof.
  intros Hm Hf d Hd. unfold m_bind. specialize (Hm d Hd). destruct (m d) as [a d1|d1| |]; try exact Hm.
  destruct Hm as (Pa & S1 & N1). specialize (Hf a Pa d1 (step_ok _ _ Hd S1)). destruct (f a d1) as [b d2|d2| |]; try exact Hf.
  - destruct Hf as (Qb & S2 & N2). split; [exact Qb|]. split; [now apply step_trans with d1|lia].
  - now apply step_trans with d1.
Qed.

Lemma safe_weaken {A} n k (P Q : A -> Prop) m : safe n P m -> k <= n -> (forall a, P a -> Q a) -> safe k Q m.
Proof.
  intros Hm Hk PQ d Hd. specialize (Hm d Hd). destruct (m d); try exact Hm. destruct Hm as (Pa & S & N).
  split; [now apply PQ|]. split; [exact S|lia].
Qed.

(** A statement without a result *)
Lemma safe_seq {A B} (P : A -> Prop) (Q : B -> Prop) (m : M decoder A) k : safe 0 P m -> safe 0 Q k -> safe 0 Q (m_bind m (fun _ => k)).
Proof. intros Hm Hk. apply safe_bind with P; auto. Qed.

Lemma safe_ret {A} (P : A -> Prop) a : P a -> safe 0 P (m_ret a).
Proof. intros Pa d Hd. split; [exact Pa|]. split; [now apply step_refl|lia]. Qed.

Lemma safe_fail {A} n (P : A -> Prop) : safe n P m_fail.
Proof. intros d Hd. now apply step_refl. Qed.

Lemma safe_if {A} n (P : A -> Prop) (b : bool) m1 m2 :
  (b = true -> safe n P m1) -> (b = false -> safe n P m2) -> safe n P (if b then m1 else m2).
Proof. destruct b; auto. Qed.

Lemma safe_on_stream {A} n (P : A -> Prop) (m : SE (pb_istream_t (list Z)) A) : reads n P m -> safe n P (on_stream m).
Proof.
  intros Hm d (S & Hd & C). specialize (Hm (stream d) S). unfold on_stream. destruct (m (stream d)) as [[a|] s].
  - destruct Hm as (Pa & Mv & L & N). split; [exact Pa|]. split; [|exact N]. repeat (split; [assumption|]). now split.
  - destruct Hm as (Mv & L). repeat (split; [assumption|]). now split.
Qed.

Lemma safe_error {A} n (P : A -> Prop) msg : safe n P (d_error msg).
Proof. apply safe_on_stream, reads_error. Qed.

Lemma safe_get_stream : safe 0 stream_ok get_stream.
Proof. intros d Hd. split; [apply Hd|]. split; [now apply step_refl|lia]. Qed.

Lemma safe_m_status status : safe 0 (fun _ => True) (m_status status).
Proof. destruct status; [now apply safe_ret|apply safe_fail]. Qed.

(** From one state: the program comes to its end, inside the struct. *)
Definition stays {A} (m : M decoder A) (d : decoder) : Prop :=
  match m d with
  | Done _ d' => step d d'
  | Failed d' => step d d'
  | Fault => False
  | Diverged => False
  end.

Lemma safe_stays {A} n (P : A -> Prop) m d : ok d -> safe n P m -> stays m d.
Proof. intros Hd Hm. specialize (Hm d Hd). unfold stays. destruct (m d); try exact Hm. apply Hm. Qed.

Lemma stays_bind {A B} n (P : A -> Prop) (m : M decoder A) (f : A -> M decoder B) d : ok d -> safe n P m ->
  (forall a d', P a -> ok d' -> bytes_left (stream d') + n <= bytes_left (stream d) -> stays (f a) d') -> stays (m_bind m f) d.
Proof.
  intros Hd Hm Hf. specialize (Hm d Hd). unfold stays, m_bind. destruct (m d) as [a d1|d1| |]; try exact Hm.
  destruct Hm as (Pa & S1 & N1). specialize (Hf a d1 Pa (step_ok _ _ Hd S1) N1). unfold stays in Hf.
  destruct (f a d1); try exact Hf; now apply step_trans with d1.
Qed.

Lemma stays_then {A B} (m : M decoder A) (f : A -> M decoder B) (P : B -> Prop) d : ok d -> stays m d ->
  (forall a, safe 0 P (f a)) -> stays (m_bind m f) d.
Proof.
  intros Hd Hm Hf. unfold stays, m_bind in *. destruct (m d) as [a d1|d1| |]; try exact Hm.
  pose proof (safe_stays 0 P (f a) d1 (step_ok _ _ Hd Hm) (Hf a)) as S. unfold stays in S.
  destruct (f a d1); try exact S; now apply step_trans with d1.
Qed.

(** A failure that is cleaned up after *)
Lemma safe_on_failure (m r : M decoder unit) : safe 0 (fun _ => True) m -> safe 0 (fun _ => True) r ->
  safe 0 (fun _ => True) (fun d => match m d with Failed d => m_bind r (fun _ => m_fail) d | x => x end).
Proof.
  intros Hm Hr d Hd. specialize (Hm d Hd). destruct (m d) as [u d'|d'| |]; try exact Hm.
  pose proof (safe_seq (fun _ => True) (fun _ => True) r (m_fail (A := unit)) Hr (safe_fail 0 _) d' (step_ok _ _ Hd Hm)) as S. unfold m_bind, m_fail in S |- *.
  destruct (r d'); try contradiction; now apply step_trans with d'.
Qed.

(** *** Memory *)

Lemma load_region m a n : mem_ok m -> lo <= a -> a + Z.of_nat n <= lo + size ->
  exists bs, load_bytes m a n = Some bs /\ bytes_ok bs /\ length bs = n.
Proof.
  intros Hm. revert a. induction n as [|n IH]; intros a Ha Hn; cbn [load_bytes]; [now exists []|].
  destruct (Hm a ltac:(lia)) as (b & -> & B). destruct (IH (a + 1) ltac:(lia) ltac:(lia)) as (bs & -> & Bs & L).
  exists (b :: bs). split; [reflexivity|]. split; [now constructor|cbn; lia].
Qed.

Lemma safe_read a n : lo <= a -> a + Z.of_nat n <= lo + size -> safe 0 (fun v => 0 <= v < 256 ^ Z.of_nat n) (read a n).
Proof.
  intros Ha Hn d Hd. unfold read, load. destruct (load_region (mem d) a n) as (bs & -> & B & L); [apply Hd|lia|lia|].
  cbn. split; [rewrite <- L; now apply le_val_bound|]. split; [now apply step_refl|lia].
Qed.

Lemma safe_write_bytes a bs : bytes_ok bs -> lo <= a -> a + Z.of_nat (length bs) <= lo + size ->
  safe 0 (fun _ => True) (write_bytes a bs).
Proof.
  intros B Ha Hn d (S & Hm & C). unfold write_bytes, store_bytes, mapped.
  destruct (load_region (mem d) a (length bs)) as (old & -> & _); [assumption|lia|lia|].
  split; [exact I|]. split; [|cbn; lia]. split; [apply moves_refl|]. split; [apply S|]. cbn [mem fixed_count_size]. split.
  - intros x Hx. destruct (Z.leb_spec a x), (Z.ltb_spec x (a + Z.of_nat (length bs))); cbn [andb]; try (now apply Hm).
    exists (at_ bs (x - a)). split; [reflexivity|]. rewrite Forall_forall in B. apply B, nth_In. lia.
  - split; [exact C|]. intros x Hx. destruct (Z.leb_spec a x), (Z.ltb_spec x (a + Z.of_nat (length bs))); cbn [andb]; try reflexivity. lia.
Qed.

Lemma safe_write a n v : lo <= a -> a + Z.of_nat n <= lo + size -> safe 0 (fun _ => True) (write a n v).
Proof. intros. apply safe_write_bytes; [apply le_bytes_ok|lia|now rewrite length_le_bytes]. Qed.

Lemma safe_clear a n : lo <= a -> a + n <= lo + size -> 0 <= n -> safe 0 (fun _ => True) (clear a n).
Proof.
  intros. apply safe_write_bytes; [|lia|rewrite repeat_length; lia].
  apply Forall_forall. intros b Hb%repeat_spec. subst. unfold word_ok. lia.
Qed.

Lemma safe_read_to a count : 0 <= count -> lo <= a -> a + count <= lo + size -> 0 < a -> safe 0 (fun _ => True) (read_to a count).
Proof.
  intros Hc Ha Hn Pa. unfold read_to. rewrite (proj2 (Z.eqb_neq a 0)) by lia. apply safe_weaken with count (fun _ : unit => True); [|lia|auto].
  eapply safe_bind; [apply safe_on_stream, reads_read, Hc|]. intros bs (B & L). apply safe_write_bytes; [exact B|lia|lia].
Qed.

(** The pointer [pSize]: in the struct or the local variable *)
Definition count_ok (p : count_pointer) : Prop :=
  match p with
  | in_memory a => lo <= a /\ a + 4 <= lo + size
  | fixed_count => True
  end.

Lemma safe_read_pointee p : count_ok p -> safe 0 (word_ok 32) (read_pointee p 4).
Proof.
  destruct p as [a|]; cbn [count_ok read_pointee]; [intros []; now apply (safe_read a 4)|]. intros _ d Hd.
  split; [apply Hd|]. split; [now apply step_refl|lia].
Qed.

Lemma safe_write_count p v : count_ok p -> safe 0 (fun _ => True) (write_count p v).
Proof.
  destruct p as [a|]; cbn [count_ok write_count]; [intros []; now apply safe_write|]. intros _ d (S & Hm & C).
  split; [exact I|]. split; [|cbn; lia]. split; [apply moves_refl|]. split; [apply S|]. split; [exact Hm|]. split; [now apply wrap_range|auto].
Qed.
End Region.

Lemma mem_ok_narrow lo size a n m : lo <= a -> a + n <= lo + size -> mem_ok lo size m -> mem_ok a n m.
Proof. intros H1 H2 Hm x Hx. apply Hm. lia. Qed.

(** A program that stays in a part stays in the whole. *)
Lemma step_narrow lo size a n d d' : lo <= a -> a + n <= lo + size -> ok lo size d -> step a n d d' -> step lo size d d'.
Proof.
  intros H1 H2 (_ & Hd & _) (M & L & Hm & C & O). split; [exact M|]. split; [exact L|]. split; [|split; [exact C|]].
  - intros x Hx. destruct (Z.lt_ge_cases x a); [rewrite O by lia; now apply Hd|].
    destruct (Z.lt_ge_cases x (a + n)); [apply Hm; lia|rewrite O by lia; now apply Hd].
  - intros x Hx. apply O. lia.
Qed.

Lemma safe_narrow {A} lo size a n k (P : A -> Prop) m :
  lo <= a -> a + n <= lo + size -> safe a n k P m -> safe lo size k P m.
Proof.
  intros H1 H2 Hm d Hd. pose proof Hd as (S & Hmem & C).
  specialize (Hm d (conj S (conj (mem_ok_narrow _ _ _ _ _ H1 H2 Hmem) C))). destruct (m d) as [r d'|d'| |]; try exact Hm.
  - destruct Hm as (Pa & St & N). split; [exact Pa|]. split; [now apply (step_narrow lo size a n)|exact N].
  - now apply (step_narrow lo size a n).
Qed.

(** The first of two statements *)
Ltac first_do := apply safe_seq with (fun _ : unit => True).

Section Parts.
Context (lo size : Z).

(** What is left to do when a program on a substream is done *)
Definition ends (finish : bool -> pb_istream_t (list Z) -> M decoder unit) : Prop :=
  forall status sub, (exists msg, finish status sub = d_error msg) \/
    finish status sub = (on_stream (pb_close_string_substream sub) ;;; m_status status)%m.

Lemma safe_substream (body : pb_istream_t (list Z) -> M decoder unit) finish : ends finish ->
  (forall d, ok lo size d -> stays lo size (body (stream d)) d) ->
  safe lo size 1 (fun _ => True)
    (substream <- on_stream pb_make_string_substream ;;
     r <- on_substream substream (body substream) ;;
     let (status, substream) := (r : bool * pb_istream_t (list Z)) in finish status substream)%m.
Proof.
  intros Hf Hb d (S & Hd & C). unfold m_bind at 1, on_stream at 1. pose proof (make_substream_opens (stream d) S) as Mk.
  destruct (pb_make_string_substream (stream d)) as [[sub|] s1]; [|now destruct Mk].
  pose proof Mk as (Mv & L & N & Hsub & _). unfold m_bind, on_substream. cbn [mem fixed_count_size stream].
  specialize (Hb (mk_decoder sub (mem d) (fixed_count_size d)) (conj Hsub (conj Hd C))). unfold stays in Hb. cbn [stream] in Hb.
  assert (F : forall st d', step lo size (mk_decoder sub (mem d) (fixed_count_size d)) d' ->
    match finish st (stream d') (mk_decoder s1 (mem d') (fixed_count_size d')) with
    | Done _ e => True /\ step lo size d e /\ bytes_left (stream e) + 1 <= bytes_left (stream d)
    | Failed e => step lo size d e
    | _ => False
    end).
  { intros st d' (M' & L' & Hm' & C' & O'). destruct (Hf st (stream d')) as [[msg ->]| ->].
    - unfold d_error, on_stream, PB_RETURN_ERROR. cbn [stream mem fixed_count_size]. exact (conj Mv (conj L (conj Hm' (conj C' O')))).
    - unfold m_bind, on_stream. cbn [stream mem fixed_count_size].
      destruct (close_substream_moves _ _ _ _ Mk M' L') as (M2 & L2 & N2).
      destruct (pb_close_string_substream (stream d') s1) as [[u|] s2]; cbn [snd] in M2, L2, N2.
      + destruct st; cbn [m_status m_ret m_fail]; [split; [exact I|]; split; [|cbn [stream]; lia]|]; exact (conj M2 (conj L2 (conj Hm' (conj C' O')))).
      + exact (conj M2 (conj L2 (conj Hm' (conj C' O')))). }
  destruct (body sub _) as [u d'|d'| |]; try exact Hb; apply F; apply Hb.
Qed.

(** *** Scalars, strings and bytes *)

(** What the decoder of a field needs beyond [data_size] *)
Definition min_size (f : pb_field_t) : Z :=
  if PB_LTYPE (type f) =? PB_LTYPE_BOOL then 1
  else if PB_LTYPE (type f) =? PB_LTYPE_FIXED32 then 4
  else if PB_LTYPE (type f) =? PB_LTYPE_FIXED64 then 8 else 0.

Definition item_size (f : pb_field_t) : Z := Z.max (data_size f) (min_size f).

(** A field whose value is in the struct itself *)
Definition static_field (f : pb_field_t) : Prop :=
  PB_ATYPE (type f) = PB_ATYPE_STATIC /\ PB_LTYPE (type f) <> PB_LTYPE_EXTENSION /\ PB_LTYPE (type f) <= PB_LTYPE_FIXED_LENGTH_BYTES /\
  word_ok 32 (data_size f) /\ word_ok 32 (array_size f) /\ (forall bs, ptr f = ptr_default bs -> bytes_ok bs).

Definition item_fits (f : pb_field_t) (dest : Z) : Prop := 0 < dest /\ lo <= dest /\ dest + item_size f <= lo + size.

Lemma safe_store a n v (b : bool) msg : lo <= a -> a + Z.of_nat n <= lo + size ->
  safe lo size 0 (fun _ => True) (write a n v ;;; if b then d_error msg else m_ret tt)%m.
Proof.
  intros. eapply safe_seq; [now apply safe_write|]. apply safe_if; intros _; [apply safe_error|now apply safe_ret].
Qed.

(** The four widths of an integer *)
Ltac four_widths :=
  repeat (apply safe_if; [intros ?%Z.eqb_eq; apply safe_store; lia|intros _]); apply safe_error.

Section Scalars.
Context (f : pb_field_t) (dest : Z) (Hf : static_field f) (Hdest : item_fits f dest).

Lemma fits_data : lo <= dest /\ dest + data_size f <= lo + size /\ 0 <= data_size f < 2 ^ 32.
Proof. destruct Hf as (_ & _ & _ & W & _), Hdest as (_ & H1 & H2). unfold item_size, word_ok in *. lia. Qed.

Lemma fits_min n : min_size f = n -> lo <= dest /\ dest + n <= lo + size.
Proof. destruct Hdest as (_ & H1 & H2). unfold item_size in *. lia. Qed.

Lemma safe_dec_bool : min_size f = 1 -> safe lo size 1 (fun _ => True) (dec_bool dest).
Proof.
  intros E%fits_min. eapply safe_bind; [apply safe_on_stream, reads_bool|]. intros b _. now apply safe_write.
Qed.

Lemma safe_dec_varint : safe lo size 1 (fun _ => True) (pb_dec_varint f dest).
Proof.
  pose proof fits_data. eapply safe_bind; [apply safe_on_stream, reads_varint|]. intros v _. four_widths.
Qed.

Lemma safe_dec_uvarint : safe lo size 1 (fun _ => True) (pb_dec_uvarint f dest).
Proof.
  pose proof fits_data. eapply safe_bind; [apply safe_on_stream, reads_varint|]. intros v _. four_widths.
Qed.

Lemma safe_dec_svarint : safe lo size 1 (fun _ => True) (pb_dec_svarint f dest).
Proof.
  pose proof fits_data. eapply safe_bind; [apply safe_on_stream, reads_svarint|]. intros v _. four_widths.
Qed.

Lemma safe_dec_fixed32 : min_size f = 4 -> safe lo size 4 (fun _ => True) (pb_dec_fixed32 dest).
Proof.
  intros E%fits_min. eapply safe_bind; [apply safe_on_stream, reads_fixed32|]. intros v _. now apply safe_write.
Qed.

Lemma safe_dec_fixed64 : min_size f = 8 -> safe lo size 8 (fun _ => True) (pb_dec_fixed64 dest).
Proof.
  intros E%fits_min. eapply safe_bind; [apply safe_on_stream, reads_fixed64|]. intros v _. now apply safe_write.
Qed.

Lemma static_not_pointer : (PB_ATYPE (type f) =? PB_ATYPE_POINTER) = false.
Proof. now destruct Hf as (-> & _). Qed.

Lemma safe_dec_bytes `{Allocator} : safe lo size 1 (fun _ => True) (pb_dec_bytes f dest).
Proof.
  destruct fits_data as (D1 & D2 & D3). destruct Hdest as (Pd & _).
  eapply safe_bind; [apply safe_on_stream, reads_varint32|]. intros n W. unfold word_ok in W.
  apply safe_if; intros E1; [apply safe_error|]. unfold offsetof_bytes. rewrite (wrap_small 64) by (unfold word_ok; lia).
  apply safe_if; intros E2; [apply safe_error|]. rewrite static_not_pointer.
  apply safe_bind with (fun a => a = dest /\ n + 4 <= data_size f).
  { apply safe_if; intros E3; [apply safe_error|]. apply safe_ret. split; [reflexivity|lia]. }
  intros a (-> & Hn). eapply safe_seq; [apply safe_write; lia|]. apply safe_read_to; lia.
Qed.

(** The terminator is written even if the read fails. *)
Lemma safe_then_terminate (m : M decoder unit) a : lo <= a -> a + 1 <= lo + size -> safe lo size 0 (fun _ => True) m ->
  safe lo size 0 (fun _ => True) (fun d =>
    match m d with
    | Done _ d => write a 1 0 d
    | Failed d => (write a 1 0 ;;; m_fail)%m d
    | r => r
    end).
Proof.
  intros H1 H2 Hm d Hd. pose proof (safe_write lo size a 1 0 H1 H2) as Hw.
  pose proof (safe_seq lo size _ _ _ _ (safe_on_failure lo size m (write a 1 0) Hm Hw) Hw d Hd) as S. unfold m_bind in S |- *.
  destruct (m d) as [u d'|d'| |]; try exact S. destruct (write a 1 0 d'); exact S.
Qed.

Lemma safe_dec_string `{Allocator} : safe lo size 1 (fun _ => True) (pb_dec_string f dest).
Proof.
  destruct fits_data as (D1 & D2 & D3). destruct Hdest as (Pd & _).
  eapply safe_bind; [apply safe_on_stream, reads_varint32|]. intros n W. unfold word_ok in W.
  apply safe_if; intros E1; [apply safe_error|]. apply Z.ltb_ge in E1.
  assert (En : u32 (n + 1) = n + 1).
  { apply wrap_small. unfold word_ok. destruct (Z.eq_dec n (2 ^ 32 - 1)) as [->|]; [now destruct E1|lia]. }
  rewrite static_not_pointer, En. apply safe_bind with (fun a => a = dest /\ n + 1 <= data_size f).
  { apply safe_if; intros E3; [apply safe_error|]. apply safe_ret. split; [reflexivity|lia]. }
  intros a (-> & Hn). apply safe_then_terminate; [lia|lia|]. apply safe_read_to; lia.
Qed.

Lemma safe_dec_fixed_length_bytes : safe lo size 1 (fun _ => True) (pb_dec_fixed_length_bytes f dest).
Proof.
  destruct fits_data as (D1 & D2 & D3). destruct Hdest as (Pd & _).
  eapply safe_bind; [apply safe_on_stream, reads_varint32|]. intros n W. unfold word_ok in W.
  apply safe_if; intros _; [apply safe_error|]. apply safe_if; intros _; [apply safe_clear; lia|].
  apply safe_if; intros _; [apply safe_error|]. apply safe_read_to; lia.
Qed.
End Scalars.
End Parts.

(** ** Messages

    A field is where the iterator says: inside the struct of [size] bytes at
    [lo].  The count of an array must have its four bytes even when it is not
    in the struct, since defaults are written there. *)
Definition placed (lo size : Z) (it : pb_field_iter_t) : Prop :=
  let f := iter_field it in
  lo <= pData it /\
  if PB_HTYPE (type f) =? PB_HTYPE_REPEATED then
    item_size f <= data_size f /\ data_size f * array_size f < 2 ^ 32 /\ pData it + data_size f * array_size f <= lo + size /\
    lo <= pSize it /\ pSize it + 4 <= lo + size
  else
    pData it + item_size f <= lo + size /\
    if PB_HTYPE (type f) =? PB_HTYPE_OPTIONAL then pSize it = pData it \/ (lo <= pSize it /\ pSize it + 1 <= lo + size)
    else if PB_HTYPE (type f) =? PB_HTYPE_ONEOF then lo <= pSize it /\ pSize it + 4 <= lo + size
    else True.

(** [msg] tells good tables of submessages. *)
Definition field_ok (tables : Z -> list pb_field_t) (msg : list pb_field_t -> Z -> Prop) (f : pb_field_t) : Prop :=
  static_field f /\
  match ptr f with
  | ptr_fields t => PB_LTYPE (type f) = PB_LTYPE_SUBMESSAGE /\ msg (tables t) (data_size f)
  | _ => PB_LTYPE (type f) <> PB_LTYPE_SUBMESSAGE
  end.

(** A table that describes a struct of [size] bytes, submessages nested at
    most [n] deep.  A struct without fields has a byte all the same. *)
Fixpoint message_ok (tables : Z -> list pb_field_t) (n : nat) (fields : list pb_field_t) (size : Z) : Prop :=
  match n with
  | O => False
  | S n =>
      Forall (fun f => tag f <> 0) fields /\
      (forall lo i, 0 < lo -> (i < Nat.max 1 (length fields))%nat -> placed lo size (iter_at fields lo i)) /\
      Forall (field_ok tables (message_ok tables n)) fields
  end.

(** Where an iterator can stand *)
Definition stands (fields : list pb_field_t) (lo : Z) (it : pb_field_iter_t) : Prop :=
  exists i, (i < Nat.max 1 (length fields))%nat /\ it = iter_at fields lo i.

Section Stands.
Context (fields : list pb_field_t) (lo : Z) (Htags : Forall (fun f => tag f <> 0) fields).

Lemma stands_begin : stands fields lo (fst (pb_field_iter_begin fields lo)).
Proof. exists 0%nat. split; [lia|reflexivity]. Qed.

Lemma stands_next it : stands fields lo it -> stands fields lo (fst (pb_field_iter_next it)).
Proof.
  intros (i & Hi & ->). destruct (le_lt_dec (length fields) 0) as [L|L].
  - assert (E : fields = []) by (apply length_zero_iff_nil; lia). exists 0%nat. replace i with 0%nat by lia. rewrite E. split; [cbn; lia|reflexivity].
  - assert (Hf : fields_ok fields) by (split; [intros E; rewrite E in L; cbn in L; lia|exact Htags]). rewrite next_at by (auto; lia).
    destruct (Nat.eqb_spec (S i) (length fields)); [exists 0%nat|exists (S i)]; (split; [lia|reflexivity]).
Qed.

Lemma stands_field it : stands fields lo it -> In (iter_field it) fields \/ iter_field it = PB_LAST_FIELD.
Proof.
  intros (i & Hi & ->). destruct (le_lt_dec (length fields) i) as [L|L].
  - right. replace i with 0%nat by lia. assert (E : fields = []) by (apply length_zero_iff_nil; lia). now rewrite E.
  - left. rewrite iter_at_field; [now apply nth_In| |exact L]. split; [|exact Htags]. now intros ->.
Qed.

Lemma stands_find_loop t first : forall fuel it, stands fields lo it -> stands fields lo (fst (iter_find_loop fuel first t it)).
Proof.
  induction fuel as [|fuel IH]; intros it Hit; cbn [iter_find_loop]; [exact Hit|]. destruct (_ && _); [exact Hit|].
  destruct (Nat.eqb _ _); [|apply IH]; now apply stands_next.
Qed.

Lemma stands_find t it : stands fields lo it -> stands fields lo (fst (pb_field_iter_find it t)).
Proof. apply stands_find_loop. Qed.

(** A walk over all fields comes to its end. *)
Lemma safe_for_fields L size f : (forall it, stands fields lo it -> safe L size 0 (fun _ => True) (f it)) ->
  fields <> [] -> forall steps i, (i < length fields)%nat -> (length fields - i <= steps)%nat ->
  safe L size 0 (fun _ => True) (for_fields steps (iter_at fields lo i) f).
Proof.
  intros Hsafe Hne. induction steps as [|steps IH]; intros i Hi Hs; [lia|]. cbn [for_fields].
  eapply safe_seq; [apply Hsafe; exists i; split; [lia|reflexivity]|]. rewrite next_at by (auto; now split).
  destruct (Nat.eqb_spec (S i) (length fields)); [now apply safe_ret|apply IH; lia].
Qed.

Lemma safe_each_field L size f : (forall it, stands fields lo it -> safe L size 0 (fun _ => True) (f it)) ->
  safe L size 0 (fun _ => True) (each_field fields lo f).
Proof.
  intros Hsafe. unfold each_field. destruct (pb_field_iter_begin fields lo) as [it some] eqn:E.
  replace it with (iter_at fields lo 0) by (cbn [iter_at]; now rewrite E). destruct some; [|now apply safe_ret].
  assert (fields <> []) by (intros ->; discriminate E). apply safe_for_fields; [assumption..| |lia].
  destruct fields; [contradiction|cbn; lia].
Qed.
End Stands.

Section Messages.
Context `{Allocator} (tables : Z -> list pb_field_t) (limit : nat).

(** What a place of the iterator gives *)
Lemma stands_ok n fields size lo it : message_ok tables (S n) fields size -> 0 < lo -> stands fields lo it ->
  placed lo size it /\ field_ok tables (message_ok tables n) (iter_field it) /\ start it = fields /\ dest_struct it = lo.
Proof.
  intros (T & Pl & F) Hlo Hit. pose proof Hit as (i & Hi & E). split; [rewrite E; now apply Pl|].
  split; [|rewrite E; apply iter_at_start]. destruct (stands_field fields lo T it Hit) as [Hin| ->].
  - rewrite Forall_forall in F. now apply F.
  - split; [|discriminate]. cbn. unfold static_field, word_ok. cbn. repeat split; try lia; discriminate.
Qed.

Lemma ltype_submessage_ok n f : field_ok tables (message_ok tables n) f -> PB_LTYPE (type f) = PB_LTYPE_SUBMESSAGE ->
  exists t, ptr f = ptr_fields t /\ message_ok tables n (tables t) (data_size f).
Proof. intros [_ Hp] E. destruct (ptr f); try contradiction. now exists table. Qed.

Lemma message_ok_tags n fields size : message_ok tables n fields size -> Forall (fun f => tag f <> 0) fields.
Proof. destruct n; [contradiction|]. now intros (? & _). Qed.

(** *** Default values *)

Lemma safe_set_to_default n : forall fuel fields size lo it, (n <= fuel)%nat -> message_ok tables n fields size -> 0 < lo ->
  stands fields lo it -> safe lo size 0 (fun _ => True) (pb_field_set_to_default tables limit fuel it).
Proof.
  induction n as [|n IH]; intros fuel fields size lo it Hfuel Hm Hlo Hit; [contradiction|]. destruct fuel as [|fuel]; [lia|].
  destruct (stands_ok n fields size lo it Hm Hlo Hit) as ((Pl & Ph) & Fk & _). pose proof Fk as ((A & X & _ & W & _ & D) & Hp).
  cbn [pb_field_set_to_default]. rewrite A. set (f := iter_field it) in *. rewrite (proj2 (Z.eqb_neq _ _) X).
  change (PB_ATYPE_STATIC =? PB_ATYPE_STATIC) with true. cbn iota. unfold word_ok in W.
  assert (R : PB_HTYPE (type f) =? PB_HTYPE_REPEATED = true -> pSize it + 4 <= lo + size /\ lo <= pSize it)
    by (intros E; rewrite E in Ph; lia).
  assert (O : PB_HTYPE (type f) =? PB_HTYPE_ONEOF = true -> pSize it + 4 <= lo + size /\ lo <= pSize it).
  { intros E%Z.eqb_eq. rewrite E in Ph. cbn in Ph. lia. }
  assert (P : PB_HTYPE (type f) =? PB_HTYPE_REPEATED = false -> pData it + data_size f <= lo + size)
    by (intros E; rewrite E in Ph; unfold item_size in Ph; lia).
  first_do.
  - apply safe_if; intros E; [|apply safe_if; intros E'; [|now apply safe_ret]].
    + apply andb_prop in E as [E1%Z.eqb_eq E2%negb_true_iff%Z.eqb_neq]. rewrite E1 in Ph. cbn in Ph. apply safe_write; lia.
    + apply orb_prop in E' as [E'|E']; [specialize (R E')|specialize (O E')]; apply safe_write; lia.
  - apply safe_if; intros E; [now apply safe_ret|].
    assert (Rep : PB_HTYPE (type f) =? PB_HTYPE_REPEATED = false).
    { destruct (Z.eqb_spec (PB_HTYPE (type f)) PB_HTYPE_REPEATED) as [Er|]; [rewrite Er in E; discriminate E|reflexivity]. }
    specialize (P Rep). apply safe_if; intros Es.
    + apply Z.eqb_eq in Es. destruct (ltype_submessage_ok n f Fk Es) as (t & -> & Ht).
      apply safe_narrow with (pData it) (data_size f); [lia|lia|].
      apply safe_each_field; [now apply message_ok_tags with n (data_size f)|]. intros it' Hit'. apply IH with (tables t); auto; lia.
    + destruct (ptr f) as [|t|bs] eqn:Ep; [apply safe_clear; lia| |].
      * destruct Hp as [Hp _]. apply Z.eqb_neq in Es. contradiction.
      * apply safe_write_bytes; [apply bytes_ok_firstn, D, eq_refl|lia|]. rewrite length_firstn. lia.
Qed.

Lemma safe_message_set_to_defaults n fuel fields size lo : (n <= fuel)%nat -> message_ok tables n fields size -> 0 < lo ->
  safe lo size 0 (fun _ => True) (pb_message_set_to_defaults tables limit fuel fields lo).
Proof.
  intros Hfuel Hm Hlo. apply safe_each_field; [now apply message_ok_tags with n size|].
  intros it Hit. now apply safe_set_to_default with n fields.
Qed.

(** *** Release

    There is nothing to give back in such a struct; the release only looks. *)
Lemma safe_for_items L S count : forall item stride f, (forall i, 0 <= i < Z.of_nat count -> safe L S 0 (fun _ => True) (f (item + i * stride))) ->
  safe L S 0 (fun _ => True) (for_items count item stride f).
Proof.
  induction count as [|count IH]; intros item stride f Hf; cbn [for_items]; [now apply safe_ret|]. first_do.
  - replace item with (item + 0 * stride) by lia. apply Hf. lia.
  - apply IH. intros i Hi. replace (item + stride + i * stride) with (item + (i + 1) * stride) by lia. apply Hf. lia.
Qed.

Lemma safe_release_single n : forall fuel fields size lo it, (n <= fuel)%nat -> message_ok tables n fields size -> 0 < lo ->
  stands fields lo it -> safe lo size 0 (fun _ => True) (pb_release_single_field tables limit fuel it).
Proof.
  induction n as [|n IH]; intros fuel fields size lo it Hfuel Hm Hlo Hit; [contradiction|]. destruct fuel as [|fuel]; [lia|].
  destruct (stands_ok n fields size lo it Hm Hlo Hit) as ((Pl & Ph) & Fk & _). pose proof Fk as ((A & X & _ & W & Wa & _) & Hp).
  cbn [pb_release_single_field]. rewrite A. set (f := iter_field it) in *. rewrite (proj2 (Z.eqb_neq _ _) X).
  change (PB_ATYPE_STATIC =? PB_ATYPE_POINTER) with false. change (PB_ATYPE_STATIC =? PB_ATYPE_CALLBACK) with false.
  change (PB_ATYPE_STATIC =? PB_ATYPE_STATIC) with true. cbn iota. cbn [andb negb]. unfold word_ok in W, Wa.
  match goal with |- context [(m_bind (if ?c then ?m else m_ret tt) (fun _ => m_ret tt))] =>
    assert (Contents : safe lo size 0 (fun _ => True) (m_bind (if c then m else m_ret tt) (fun _ => m_ret tt))) end.
  - first_do; [|now apply safe_ret]. apply safe_if; intros Es; [|now apply safe_ret]. rewrite andb_true_r in Es. apply Z.eqb_eq in Es.
    destruct (ltype_submessage_ok n f Fk Es) as (t & Ep & Ht). rewrite Ep.
    apply safe_bind with (fun item => item = pData it); [now apply safe_ret|]. intros item ->.
    apply safe_bind with (fun c => forall i, 0 <= i < c -> pData it + i * data_size f + data_size f <= lo + size).
    + destruct (PB_HTYPE (type f) =? PB_HTYPE_REPEATED) eqn:Er.
      * assert (Arr : forall c, c <= array_size f -> forall i, 0 <= i < c -> pData it + i * data_size f + data_size f <= lo + size) by nia.
        apply safe_if; intros _; [apply safe_ret, Arr; lia|]. eapply safe_bind; [apply (safe_read lo size _ 4); lia|].
        intros c Hc. apply safe_ret. apply Arr. destruct (Z.ltb_spec (array_size f) c); lia.
      * apply safe_ret. intros i Hi. unfold item_size in Ph. nia.
    + intros c Hc. apply safe_if; intros _; [now apply safe_ret|]. apply safe_for_items. intros i Hi.
      apply safe_if; intros _; [now apply safe_ret|]. specialize (Hc i ltac:(lia)).
      apply safe_narrow with (pData it + i * data_size f) (data_size f); [nia|lia|].
      apply safe_each_field; [now apply message_ok_tags with n (data_size f)|]. intros it' Hit'. apply IH with (tables t); auto; nia.
  - apply safe_if; intros Eo; [|exact Contents]. apply Z.eqb_eq in Eo. rewrite Eo in Ph. cbn in Ph.
    eapply safe_bind; [apply (safe_read lo size _ 4); lia|]. intros which _. apply safe_if; intros _; [now apply safe_ret|exact Contents].
Qed.

Lemma safe_release n fuel fields size lo : (n <= fuel)%nat -> message_ok tables n fields size -> 0 < lo ->
  safe lo size 0 (fun _ => True) (pb_release tables limit fuel fields lo).
Proof.
  intros Hfuel Hm Hlo. apply safe_if; intros _; [now apply safe_ret|].
  apply safe_each_field; [now apply message_ok_tags with n size|]. intros it Hit. now apply safe_release_single with n fields.
Qed.

(** *** One field

    [msg n] are the submessages that [decode_noinit] is safe for. *)
Section OneLevel.
Context (n fuel : nat) (Hfuel : (S n <= fuel)%nat).
Context (decode_callback : Z -> pb_field_t -> Z -> M decoder unit).
Context (extension_callback : Z -> Z -> Z -> Z -> M decoder unit).
Context (decode_noinit : list pb_field_t -> Z -> M decoder unit).
Context (Hnoinit : forall fields size lo, message_ok tables n fields size -> 0 < lo ->
  safe lo size 0 (fun _ => True) (decode_noinit fields lo)).

Lemma safe_decode_over m fields size lo : (m <= fuel)%nat -> message_ok tables m fields size -> 0 < lo ->
  safe lo size 0 (fun _ => True) (decode_noinit fields lo) ->
  safe lo size 0 (fun _ => True) (pb_decode_over tables limit decode_noinit fuel fields lo).
Proof.
  intros Hm Ok Hlo Hd. first_do; [now apply safe_message_set_to_defaults with m|].
  apply safe_on_failure; [exact Hd|now apply safe_release with m].
Qed.

Lemma ends_close : ends (fun status sub => on_stream (pb_close_string_substream sub) ;;; m_status status)%m.
Proof. intros status sub. now right. Qed.

Lemma safe_dec_submessage f lo size dest : field_ok tables (message_ok tables n) f -> PB_LTYPE (type f) = PB_LTYPE_SUBMESSAGE ->
  item_fits lo size f dest -> safe lo size 1 (fun _ => True) (pb_dec_submessage tables limit decode_noinit fuel f dest).
Proof.
  intros Hf E (Hd & H1 & H2). destruct (ltype_submessage_ok n f Hf E) as (t & Ep & Ht). unfold pb_dec_submessage. rewrite Ep.
  apply safe_substream; [apply ends_close|]. intros d Od. unfold item_size in H2. apply safe_stays with 0 (fun _ : unit => True); [exact Od|].
  apply safe_narrow with dest (data_size f); [lia|lia|]. apply safe_if; intros _; [|now apply Hnoinit].
  apply safe_decode_over with n; [lia|exact Ht|exact Hd|now apply Hnoinit].
Qed.

Lemma ltype_cases f : static_field f -> PB_LTYPE (type f) < 9 \/ PB_LTYPE (type f) = 10.
Proof. intros (_ & X & L & _). unfold PB_LTYPE_EXTENSION, PB_LTYPE_FIXED_LENGTH_BYTES in *. lia. Qed.

Lemma safe_decoder f lo size dest : field_ok tables (message_ok tables n) f -> item_fits lo size f dest ->
  safe lo size 1 (fun _ => True) (decoder_for tables limit decode_noinit fuel f dest).
Proof.
  intros Hf Hd. pose proof Hf as [Sf _]. pose proof (ltype_cases f Sf) as L. unfold decoder_for.
  assert (P : 0 <= PB_LTYPE (type f)) by (unfold PB_LTYPE; apply Z.land_nonneg; right; lia).
  assert (Ms : forall k, PB_LTYPE (type f) = k -> min_size f =
    if k =? PB_LTYPE_BOOL then 1 else if k =? PB_LTYPE_FIXED32 then 4 else if k =? PB_LTYPE_FIXED64 then 8 else 0).
  { intros k <-. reflexivity. }
  destruct (Z.eqb_spec (PB_LTYPE (type f)) PB_LTYPE_BOOL) as [E|N0]; [apply safe_dec_bool with f; [assumption|exact (Ms _ E)]|].
  destruct (Z.eqb_spec (PB_LTYPE (type f)) PB_LTYPE_VARINT) as [E|N1]; [now apply safe_dec_varint|].
  destruct (Z.eqb_spec (PB_LTYPE (type f)) PB_LTYPE_UVARINT) as [E|N2]; [now apply safe_dec_uvarint|].
  destruct (Z.eqb_spec (PB_LTYPE (type f)) PB_LTYPE_SVARINT) as [E|N3]; [now apply safe_dec_svarint|].
  destruct (Z.eqb_spec (PB_LTYPE (type f)) PB_LTYPE_FIXED32) as [E|N4].
  { apply safe_weaken with 4 (fun _ : unit => True); [apply safe_dec_fixed32 with f; [assumption|exact (Ms _ E)]|lia|auto]. }
  destruct (Z.eqb_spec (PB_LTYPE (type f)) PB_LTYPE_FIXED64) as [E|N5].
  { apply safe_weaken with 8 (fun _ : unit => True); [apply safe_dec_fixed64 with f; [assumption|exact (Ms _ E)]|lia|auto]. }
  destruct (Z.eqb_spec (PB_LTYPE (type f)) PB_LTYPE_BYTES) as [E|N6]; [now apply safe_dec_bytes|].
  destruct (Z.eqb_spec (PB_LTYPE (type f)) PB_LTYPE_STRING) as [E|N7]; [now apply safe_dec_string|].
  destruct (Z.eqb_spec (PB_LTYPE (type f)) PB_LTYPE_SUBMESSAGE) as [E|N8]; [now apply safe_dec_submessage|].
  destruct (Z.eqb_spec (PB_LTYPE (type f)) PB_LTYPE_FIXED_LENGTH_BYTES) as [E|N10]; [now apply safe_dec_fixed_length_bytes|].
  unfold PB_LTYPE_BOOL, PB_LTYPE_VARINT, PB_LTYPE_UVARINT, PB_LTYPE_SVARINT, PB_LTYPE_FIXED32, PB_LTYPE_FIXED64, PB_LTYPE_BYTES,
    PB_LTYPE_STRING, PB_LTYPE_SUBMESSAGE, PB_LTYPE_FIXED_LENGTH_BYTES in *. lia.
Qed.

(** [PB_HTYPE] has four values. *)
Lemma htype_cases x : PB_HTYPE x = 0 \/ PB_HTYPE x = 16 \/ PB_HTYPE x = 32 \/ PB_HTYPE x = 48.
Proof.
  assert (E : PB_HTYPE x = PB_HTYPE (Z.land x (2 ^ 8 - 1))) by (unfold PB_HTYPE; now rewrite <- Z.land_assoc).
  rewrite E, land_mask by lia. pose proof (byte_cases (fun b => (PB_HTYPE b =? 0) || (PB_HTYPE b =? 16) || (PB_HTYPE b =? 32) || (PB_HTYPE b =? 48))
    ltac:(vm_compute; reflexivity) (x mod 2 ^ 8) (wrap_range 8 x ltac:(lia))) as C. cbn beta in C. lia.
Qed.

(** The item of an array *)
Lemma item_fits_at f lo size it i : placed lo size it -> iter_field it = f -> 0 < lo -> static_field f ->
  PB_HTYPE (type f) = PB_HTYPE_REPEATED -> 0 <= i < array_size f -> item_fits lo size f (pData it + u32 (data_size f * i)).
Proof.
  intros (Pl & Ph) E Hlo (_ & _ & _ & W & _) Er Hi. rewrite E, Er, Z.eqb_refl in Ph. unfold word_ok in W.
  rewrite wrap_small by (unfold word_ok; nia). unfold item_fits. nia.
Qed.

Lemma safe_packed_items f lo size it p steps : placed lo size it -> iter_field it = f -> 0 < lo ->
  field_ok tables (message_ok tables n) f -> PB_HTYPE (type f) = PB_HTYPE_REPEATED -> count_ok lo size p ->
  forall d, ok lo size d -> bytes_left (stream d) < Z.of_nat steps ->
  stays lo size (packed_items tables limit decode_noinit fuel steps f (pData it) p) d.
Proof.
  intros Pl E Hlo Hf Er Hp. induction steps as [|steps IH]; intros d Hd Hs; [destruct Hd as ((_ & ? & _) & _); lia|].
  cbn [packed_items]. eapply stays_bind; [exact Hd|apply safe_get_stream|]. intros s d1 _ Hd1 N1.
  destruct (bytes_left s =? 0); [now apply safe_stays with 0 (fun _ : unit => True); [|apply safe_ret]|].
  eapply stays_bind; [exact Hd1|now apply safe_read_pointee|]. intros i d2 W Hd2 N2. unfold word_ok in W.
  destruct (Z.leb_spec (array_size f) i) as [|Li]; [now apply safe_stays with 0 (fun _ : unit => True); [|apply safe_ret]|].
  eapply stays_bind; [exact Hd2|apply (safe_decoder f lo size _ Hf (item_fits_at f lo size it i Pl E Hlo (proj1 Hf) Er ltac:(lia)))|].
  intros _ d3 _ Hd3 N3. eapply stays_bind; [exact Hd3|now apply safe_read_pointee|]. intros j d4 _ Hd4 N4.
  eapply stays_bind; [exact Hd4|now apply safe_write_count|]. intros _ d5 _ Hd5 N5. apply IH; [exact Hd5|lia].
Qed.

Lemma ends_packed : ends (fun status sub => if negb (bytes_left sub =? 0) then d_error array_overflow
  else on_stream (pb_close_string_substream sub) ;;; m_status status)%m.
Proof. intros status sub. destruct (negb _); [left; now exists array_overflow|now right]. Qed.

Definition counts (lo size : Z) (it : pb_field_iter_t) (p : count_pointer) : Prop :=
  PB_HTYPE (type (iter_field it)) = PB_HTYPE_REPEATED -> count_ok lo size p.

Lemma safe_static wire_type lo size it p : placed lo size it -> 0 < lo -> field_ok tables (message_ok tables n) (iter_field it) ->
  counts lo size it p -> safe lo size 0 (fun _ => True) (decode_static_field tables limit decode_noinit fuel wire_type it p).
Proof.
  intros Pl Hlo Hf Hp. pose proof Pl as (P1 & P2). set (f := iter_field it) in *. unfold decode_static_field, counts in *. fold f in Hp |- *.
  destruct (Z.eqb_spec (PB_HTYPE (type f)) PB_HTYPE_REPEATED) as [Er|Nr].
  - rewrite Er. cbn [Z.eqb Pos.eqb PB_HTYPE_REPEATED PB_HTYPE_REQUIRED PB_HTYPE_OPTIONAL]. specialize (Hp Er). apply safe_if; intros Ep.
    + apply safe_weaken with 1 (fun _ : unit => True); [|lia|auto]. apply safe_substream; [apply ends_packed|].
      intros d Hd. apply (safe_packed_items f lo size it); auto. destruct Hd as ((_ & ? & _) & _). lia.
    + eapply safe_bind; [now apply safe_read_pointee|]. intros i W. unfold word_ok in W. first_do; [now apply safe_write_count|].
      apply safe_if; intros Ei; [apply safe_error|]. apply Z.leb_gt in Ei.
      apply safe_weaken with 1 (fun _ : unit => True); [|lia|auto]. apply safe_decoder; [exact Hf|].
      apply item_fits_at; auto; [apply Hf|lia].
  - assert (Fits : item_fits lo size f (pData it)) by (unfold item_fits; lia).
    assert (Dec : safe lo size 0 (fun _ => True) (decoder_for tables limit decode_noinit fuel f (pData it)))
      by (apply safe_weaken with 1 (fun _ : unit => True); [now apply safe_decoder|lia|auto]).
    apply safe_if; intros E1; [exact Dec|]. apply safe_if; intros E2.
    + apply Z.eqb_eq in E2. rewrite E2 in P2. cbn in P2. first_do; [|exact Dec]. apply safe_if; intros Es; [|now apply safe_ret].
      apply negb_true_iff, Z.eqb_neq in Es. apply safe_write; lia.
    + assert (Eo : PB_HTYPE (type f) =? PB_HTYPE_ONEOF = true).
      { pose proof (htype_cases (type f)) as C. unfold PB_HTYPE_REQUIRED, PB_HTYPE_OPTIONAL, PB_HTYPE_REPEATED, PB_HTYPE_ONEOF in *. lia. }
      rewrite E2, Eo in P2. eapply safe_bind; [apply (safe_read lo size _ 4); lia|]. intros which _.
      unfold item_fits, item_size in Fits. pose proof Hf as ((_ & _ & _ & W & _) & _). unfold word_ok in W.
      first_do; [|first_do; [apply safe_write; lia|exact Dec]]. apply safe_if; intros Es; [|now apply safe_ret].
      apply andb_prop in Es as [Es%Z.eqb_eq _]. destruct (ltype_submessage_ok n f Hf Es) as (t & -> & Ht).
      first_do; [apply safe_clear; lia|]. apply safe_narrow with (pData it) (data_size f); [lia|lia|].
      apply safe_message_set_to_defaults with n; [lia|exact Ht|lia].
Qed.

Section Table.
Context (fields : list pb_field_t) (size lo : Z) (Hm : message_ok tables (S n) fields size) (Hlo : 0 < lo).

Lemma stands_tags : Forall (fun f => tag f <> 0) fields.
Proof. exact (message_ok_tags (S n) fields size Hm). Qed.

Lemma safe_release_union it : stands fields lo it -> PB_HTYPE (type (iter_field it)) = PB_HTYPE_ONEOF ->
  safe lo size 0 (stands fields lo) (pb_release_union_field tables limit fuel it).
Proof.
  intros Hit E. destruct (stands_ok n fields size lo it Hm Hlo Hit) as ((Pl & Ph) & _). rewrite E in Ph. cbn in Ph.
  unfold pb_release_union_field. eapply safe_bind; [apply (safe_read lo size _ 4); lia|]. intros old _.
  apply safe_if; intros _; [now apply safe_ret|]. pose proof (stands_find fields lo stands_tags old it Hit) as H1.
  destruct (pb_field_iter_find it old) as [it1 found]. cbn [fst] in H1. apply safe_if; intros _; [apply safe_error|].
  apply safe_bind with (fun _ : unit => True); [now apply safe_release_single with (S n) fields|]. intros _ _.
  pose proof (stands_find fields lo stands_tags (tag (iter_field it)) it1 H1) as H2.
  destruct (pb_field_iter_find it1 _) as [it2 found2]. cbn [fst] in H2. apply safe_if; intros _; [apply safe_error|].
  destruct (stands_ok n fields size lo it2 Hm Hlo H2) as (_ & ((A & _) & _) & _). rewrite A.
  apply safe_bind with (fun _ : unit => True); [now apply safe_ret|]. intros. now apply safe_ret.
Qed.

(** A place of the iterator, and the pointer to the count when one is used *)
Definition counted (it : pb_field_iter_t) (p : count_pointer) : Prop :=
  PB_HTYPE (type (iter_field it)) = PB_HTYPE_REPEATED \/ PB_HTYPE (type (iter_field it)) = PB_HTYPE_ONEOF -> count_ok lo size p.

Lemma safe_field wire_type it p : stands fields lo it -> counted it p ->
  safe lo size 0 (stands fields lo) (decode_field tables limit decode_callback decode_noinit fuel wire_type it p).
Proof.
  intros Hit Hp. apply safe_bind with (fun it' => stands fields lo it' /\ counts lo size it' p).
  - apply safe_if; intros E.
    + apply Z.eqb_eq in E. eapply safe_weaken; [now apply safe_release_union|lia|]. intros it' Hit'. split; [exact Hit'|].
      intros _. apply Hp. now right.
    + apply safe_ret. split; [exact Hit|]. intros Er. apply Hp. now left.
  - intros it' (Hit' & Hp'). destruct (stands_ok n fields size lo it' Hm Hlo Hit') as (Pl & Fk & _).
    pose proof Fk as ((A & _) & _). rewrite A. apply safe_bind with (fun _ : unit => True); [now apply safe_static|].
    intros. now apply safe_ret.
Qed.

(** No field is an extension. *)
Lemma find_extension_none it : stands fields lo it ->
  snd (find_extension_field it) = false /\ stands fields lo (fst (find_extension_field it)).
Proof.
  unfold find_extension_field. generalize (S (length (start it))) (pos it). intros steps first. revert it.
  induction steps as [|steps IH]; intros it Hit; cbn [find_extension_loop]; [now split|].
  destruct (stands_ok n fields size lo it Hm Hlo Hit) as (_ & ((_ & X & _) & _) & _). rewrite (proj2 (Z.eqb_neq _ _) X).
  pose proof (stands_next fields lo stands_tags it Hit). destruct (Nat.eqb _ _); [now split|now apply IH].
Qed.

Lemma safe_skip {A} (P : A -> Prop) wire_type a : P a -> safe lo size 0 P (on_stream (pb_skip_field wire_type) ;;; m_ret a)%m.
Proof. intros Pa. eapply safe_bind; [apply safe_on_stream, reads_skip_field|]. intros. now apply safe_ret. Qed.

Lemma safe_unknown v t wire_type : stands fields lo (iter v) -> t < 2 ^ 29 -> safe lo size 0 (fun v => stands fields lo (iter v))
  (decode_unknown tables limit decode_callback extension_callback decode_noinit fuel v t wire_type).
Proof.
  intros Hv Ht. unfold decode_unknown. apply safe_if; intros _; [|now apply safe_skip].
  destruct (find_extension_none (iter v) Hv) as (E & Hit). destruct (find_extension_field (iter v)) as [it found]. cbn [fst snd] in *.
  subst found. rewrite (proj2 (Z.leb_gt (2 ^ 32 - 1) t)) by lia. now apply safe_skip.
Qed.

Lemma safe_check_fixed_count v : safe lo size 0 (fun _ => True) (check_fixed_count v).
Proof.
  intros d Hd. unfold check_fixed_count. destruct (fixed_count_field v) as [i|]; [|now apply (safe_ret lo size (fun _ => True) tt)].
  destruct (negb _); [now apply (safe_error lo size 0 (fun _ : unit => True))|now apply (safe_ret lo size (fun _ => True) tt)].
Qed.

Lemma safe_count_field v : stands fields lo (iter v) ->
  safe lo size 0 (fun r => iter (fst r) = iter v /\ counted (iter v) (snd r)) (count_field v).
Proof.
  intros Hv. destruct (stands_ok n fields size lo _ Hm Hlo Hv) as ((_ & Ph) & _). unfold count_field. apply safe_if; intros E.
  - assert (Zero : safe lo size 0 (fun _ => True) (write_count fixed_count 0)) by now apply safe_write_count.
    set (same := match fixed_count_field v with Some i => _ | None => _ end). apply safe_if; intros _; [apply safe_ret; now split|].
    apply safe_bind with (fun _ : unit => True); [apply safe_check_fixed_count|]. intros _ _.
    apply safe_bind with (fun _ : unit => True); [exact Zero|]. intros _ _. apply safe_ret. now split.
  - apply safe_ret. split; [reflexivity|]. cbn [snd]. intros [Er|Eo]; cbn [count_ok].
    + rewrite Er in Ph. cbn in Ph. lia.
    + rewrite Eo in Ph. cbn in Ph. lia.
Qed.

Lemma see_field_iter v : iter (see_field v) = iter v.
Proof. unfold see_field. now destruct (_ && _). Qed.

Lemma safe_tagged v t wire_type : stands fields lo (iter v) -> t < 2 ^ 29 -> safe lo size 0 (fun v => stands fields lo (iter v))
  (decode_tagged tables limit decode_callback extension_callback decode_noinit fuel v t wire_type).
Proof.
  intros Hv Ht. unfold decode_tagged. pose proof (stands_find fields lo stands_tags t (iter v) Hv) as Hit.
  destruct (pb_field_iter_find (iter v) t) as [it found]. cbn [fst] in Hit. apply safe_if; intros _; [now apply safe_unknown|].
  eapply safe_bind; [now apply safe_count_field|]. intros [v' p] (E & C). cbn [fst snd iter] in E, C.
  apply safe_bind with (stands fields lo); [|intros; now apply safe_ret].
  rewrite see_field_iter, E. now apply safe_field.
Qed.

Lemma safe_next_tag : safe lo size 0 (fun t => match t with Some t => fst t < 2 ^ 29 | None => True end) next_tag /\
  forall d t d', ok lo size d -> next_tag d = Done (Some t) d' -> bytes_left (stream d') + 1 <= bytes_left (stream d).
Proof.
  assert (R : forall d, ok lo size d -> match next_tag d with
    | Done (Some t) d' => fst t < 2 ^ 29 /\ step lo size d d' /\ bytes_left (stream d') + 1 <= bytes_left (stream d)
    | Done None d' => step lo size d d'
    | Failed d' => step lo size d d'
    | _ => False
    end).
  { intros d (S & Hmem & C). unfold next_tag. pose proof (reads_tag false (stream d) S) as R. cbn beta in R.
    destruct (pb_decode_tag (stream d, false)) as [[t|] [s eof]]; cbn [fst] in R.
    - destruct R as (Ht & M & L & N). split; [apply Ht|]. split; [|exact N]. now repeat (split; [assumption|]).
    - destruct R as (M & L). destruct eof; now repeat (split; [assumption|]). }
  split.
  - intros d Hd. specialize (R d Hd). destruct (next_tag d) as [[t|] d'|d'| |]; try exact R.
    + destruct R as (Ht & S & N). split; [exact Ht|]. split; [exact S|lia].
    + split; [exact I|]. split; [exact R|]. destruct R as ((L & _) & _). lia.
  - intros d t d' Hd E. specialize (R d Hd). rewrite E in R. apply R.
Qed.

Lemma stays_loop steps : forall v d, stands fields lo (iter v) -> ok lo size d -> bytes_left (stream d) < Z.of_nat steps ->
  stays lo size (decode_loop tables limit decode_callback extension_callback decode_noinit fuel steps v) d.
Proof.
  induction steps as [|steps IH]; intros v d Hv Hd Hs; [destruct Hd as ((_ & ? & _) & _); lia|]. cbn [decode_loop].
  assert (Ret : forall d, ok lo size d -> stays lo size (m_ret v) d) by (intros d0 Hd0; now apply step_refl).
  eapply stays_bind; [exact Hd|apply safe_get_stream|]. intros s d1 _ Hd1 N1. destruct (bytes_left s =? 0); [now apply Ret|].
  pose proof (proj1 safe_next_tag d1 Hd1) as T. pose proof (fun t d' => proj2 safe_next_tag d1 t d' Hd1) as N.
  unfold stays, m_bind at 1. destruct (next_tag d1) as [[[t wire_type]|] d2|d2| |]; try exact T; [|apply T].
  destruct T as (Ht & S2 & _). specialize (N _ _ eq_refl). cbn [fst] in Ht. pose proof (step_ok _ _ _ _ Hd1 S2) as Hd2.
  assert (St : stays lo size (v <- decode_tagged tables limit decode_callback extension_callback decode_noinit fuel v t wire_type ;;
    decode_loop tables limit decode_callback extension_callback decode_noinit fuel steps v)%m d2).
  { eapply stays_bind; [exact Hd2|now apply safe_tagged|]. intros v' d3 Hv' Hd3 N3. apply IH; [exact Hv'|exact Hd3|lia]. }
  unfold stays in St. destruct (m_bind _ _ d2); try exact St; now apply step_trans with d2.
Qed.

(** The stream of the frame is its own, and so is its count. *)
Lemma safe_fields :
  safe lo size 0 (fun _ => True) (decode_fields tables limit decode_callback extension_callback decode_noinit fuel fields lo).
Proof.
  intros d (S & Hmem & C). unfold decode_fields, own_count. set (d0 := mk_decoder (stream d) (mem d) 0).
  assert (Hd0 : ok lo size d0) by (split; [exact S|split; [exact Hmem|unfold word_ok; cbn; lia]]).
  match goal with |- match (match ?m d0 with _ => _ end) with _ => _ end => assert (St : stays lo size m d0) end.
  { unfold m_bind at 1, get_stream. apply (stays_then lo size _ _ (fun _ => True)); [exact Hd0| |].
    - apply stays_loop; [apply stands_begin|exact Hd0|]. destruct S as (_ & ? & _). cbn [stream]. lia.
    - intros v. first_do; [apply safe_check_fixed_count|]. apply safe_if; intros _; [now apply safe_ret|apply safe_error]. }
  unfold stays in St. destruct (m_bind _ _ d0) as [u d'|d'| |]; try exact St.
  - destruct St as (M & L & Hm' & C' & O). split; [exact I|]. split; [exact (conj M (conj L (conj Hm' (conj C O))))|]. cbn [stream].
    destruct M. cbn [stream d0] in *. lia.
  - destruct St as (M & L & Hm' & C' & O). exact (conj M (conj L (conj Hm' (conj C O)))).
Qed.
End Table.
End OneLevel.

(** *** The whole message *)
Context (decode_callback : Z -> pb_field_t -> Z -> M decoder unit).
Context (extension_callback : Z -> Z -> Z -> Z -> M decoder unit).

Lemma safe_noinit n : forall fuel fields size lo, (n <= fuel)%nat -> message_ok tables n fields size -> 0 < lo ->
  safe lo size 0 (fun _ => True) (pb_decode_noinit tables limit decode_callback extension_callback fuel fields lo).
Proof.
  induction n as [|n IH]; intros fuel fields size lo Hfuel Hm Hlo; [contradiction|]. destruct fuel as [|fuel]; [lia|].
  cbn [pb_decode_noinit]. apply safe_fields with n; auto. intros. apply IH; auto; lia.
Qed.

Lemma safe_decode n fuel fields size lo : (n <= fuel)%nat -> message_ok tables n fields size -> 0 < lo ->
  safe lo size 0 (fun _ => True) (pb_decode tables limit decode_callback extension_callback fuel fields lo).
Proof.
  intros Hfuel Hm Hlo. unfold pb_decode. first_do; [now apply safe_message_set_to_defaults with n|].
  apply safe_on_failure; [now apply safe_noinit with n|now apply safe_release with n].
Qed.
End Messages.

(** C1: Whatever bytes arrive, [pb_decode] comes to an end with success or
    failure, and does not touch memory outside the struct it decodes into nor
    read past the input: for every message whose fields are in the struct
    itself, submessages, arrays, packed arrays, strings, bytes and oneofs
    included, if the field tables describe the struct and an array of fixed
    count has at least four bytes ([pb_decode_fixed_count_overruns] is why). *)
Theorem pb_decode_safe `{Allocator} (tables : Z -> list pb_field_t) (limit : nat)
  (decode_callback : Z -> pb_field_t -> Z -> M decoder unit) (extension_callback : Z -> Z -> Z -> Z -> M decoder unit)
  (n fuel : nat) (fields : list pb_field_t) (size dest : Z) (input : list Z) (m : memory)
  (Hmessage : message_ok tables n fields size) (Hfuel : (n <= fuel)%nat) (Hdest : 0 < dest)
  (Hinput : bytes_ok input) (Hlength : Z.of_nat (length input) < 2 ^ 64) (Hmem : mem_ok dest size m) :
  exists d,
    (let r := pb_decode tables limit decode_callback extension_callback fuel fields dest
                (mk_decoder (pb_istream_from_buffer input (Z.of_nat (length input))) m 0) in
     r = Done tt d \/ r = Failed d) /\
    mem_ok dest size (mem d) /\ (forall x, x < dest \/ dest + size <= x -> mem d x = m x) /\
    exists consumed, input = consumed ++ state (stream d) /\ 0 <= bytes_left (stream d) <= Z.of_nat (length (state (stream d))).
Proof.
  set (d0 := mk_decoder _ m 0).
  assert (Hd0 : ok dest size d0) by (split; [split; [exact Hinput|cbn; lia]|split; [exact Hmem|cbn; unfold word_ok; lia]]).
  pose proof (safe_decode tables limit decode_callback extension_callback n fuel fields size dest Hfuel Hmessage Hdest d0 Hd0) as S.
  destruct (pb_decode _ _ _ _ _ _ _ d0) as [[] d|d| |]; try contradiction; [destruct S as (_ & S & _)|]; exists d;
    (split; [auto|]); destruct S as ((L & pre & E & N) & P & Hm & C & O); (split; [exact Hm|]; split; [exact O|]); exists pre; cbn [stream d0 state bytes_left pb_istream_from_buffer] in *;
    (split; [exact E|]); rewrite E, length_app in N; lia.
Qed.

(** *** The claim at work: a precondition *)

(** [google_firestore_v1_Precondition_fields]: an update time or a flag, in a
    union behind [which_condition_type] *)
Definition Precondition_fields : list pb_field_t :=
  [mk_field 1 48 8 (-8) 1 0 ptr_null; mk_field 2 56 PB_SIZE_MAX (-8) 16 0 (ptr_fields 1)].

#[local] Instance no_heap : Allocator := {| pb_realloc := fun _ _ _ => None; pb_free := fun m _ => m |}.

Definition no_extension_decoder {A B C D S : Type} : A -> B -> C -> D -> M S unit := fun _ _ _ _ => m_fail.

(** Decode into 24 bytes of the value 255 at 1000. *)
Definition decode_precondition (input : list Z) : outcome decoder unit :=
  pb_decode document_tables 8 no_callback no_extension_decoder 2 Precondition_fields 1000
    (mk_decoder (pb_istream_from_buffer input (Z.of_nat (length input))) (memory_at 1000 (repeat 255 24)) 0).

Definition struct_bytes (r : outcome decoder unit) : option (list Z) :=
  match r with
  | Done _ d => load_bytes (mem d) 1000 24
  | _ => None
  end.

(** The flag is overwritten by the time: 300 s and 7 ns. *)
Example precondition_decoded :
  struct_bytes (decode_precondition [8; 1; 18; 5; 8; 172; 2; 16; 7]) =
  Some ([2; 0; 0; 0] ++ repeat 255 4 ++ [44; 1; 0; 0; 0; 0; 0; 0; 7; 0; 0; 0; 0; 0; 0; 0]).
Proof. vm_compute. reflexivity. Qed.

(** The obligations of a concrete table *)
Ltac static_tac := unfold static_field, word_ok; cbn; repeat split; try lia; discriminate.
Ltac placed_tac :=
  intros lo [|[|i]] Hlo Hi; cbn in Hi; try lia; unfold placed; cbn; rewrite (proj2 (Z.eqb_neq lo 0)) by lia; cbn; lia.

Lemma Timestamp_ok : message_ok document_tables 1 Timestamp_fields 16.
Proof.
  split; [repeat constructor; discriminate|]. split; [placed_tac|]. repeat constructor; try discriminate; static_tac.
Qed.

Lemma Precondition_ok : message_ok document_tables 2 Precondition_fields 24.
Proof.
  split; [repeat constructor; discriminate|]. split; [placed_tac|]. constructor; [|constructor; [|constructor]].
  - split; [static_tac|discriminate].
  - split; [static_tac|]. split; [reflexivity|exact Timestamp_ok].
Qed.

Lemma pb_decode_safe_witness : exists d,
  (decode_precondition [8; 1; 18; 5; 8; 172; 2; 16] = Done tt d \/ decode_precondition [8; 1; 18; 5; 8; 172; 2; 16] = Failed d) /\
  mem_ok 1000 24 (mem d) /\ (forall x, x < 1000 \/ 1000 + 24 <= x -> mem d x = memory_at 1000 (repeat 255 24) x) /\
  exists consumed, [8; 1; 18; 5; 8; 172; 2; 16] = consumed ++ state (stream d) /\
    0 <= bytes_left (stream d) <= Z.of_nat (length (state (stream d))).
Proof.
  apply (pb_decode_safe document_tables 8 no_callback no_extension_decoder 2 2 Precondition_fields 24 1000 [8; 1; 18; 5; 8; 172; 2; 16]
    (memory_at 1000 (repeat 255 24))); [exact Precondition_ok|auto|lia|apply bytes_ok_check; reflexivity|cbn; lia|].
  intros x Hx. exists 255. split; [|unfold word_ok; lia]. unfold memory_at. rewrite repeat_length.
  rewrite (proj2 (Z.leb_le 1000 x)), (proj2 (Z.ltb_lt x (1000 + Z.of_nat 24))) by lia. cbn [andb]. f_equal. apply nth_repeat_lt. lia.
Defined.

(** ** Where it is not

    An array with a fixed count has no counter in the struct, and its iterator
    has [pSize = pData]; the defaults write a four byte counter there all the
    same.  Two flags are two bytes, and the write goes two bytes past them. *)
Definition two_flags : pb_field_t := mk_field 1 32 0 0 1 2 ptr_null.

(** Decoding into a struct of two flags with a fixed count writes past the end
    of the struct: a fault where nothing is mapped behind it, and otherwise the
    two bytes there become zero, here for an input of two such fields. *)
Theorem pb_decode_fixed_count_overruns `{Allocator} (tables : Z -> list pb_field_t) (limit : nat)
  (decode_callback : Z -> pb_field_t -> Z -> M decoder unit) (extension_callback : Z -> Z -> Z -> Z -> M decoder unit) (s : pb_istream_t (list Z)) :
  pb_decode tables limit decode_callback extension_callback 1 [two_flags] 1000 (mk_decoder s (memory_at 1000 [255; 255]) 0) = Fault /\
  forall b c, let m := memory_at 1000 [255; 255; b; c] in
    match pb_decode tables limit decode_callback extension_callback 1 [two_flags] 1000 (mk_decoder (pb_istream_from_buffer [8; 1; 8; 1] 4) m 0) with
    | Done _ d => load_bytes (mem d) 1000 4 = Some [1; 1; 0; 0]
    | _ => False
    end.
Proof. split; [reflexivity|]. intros b c. vm_compute. reflexivity. Qed.

(** A message without fields takes a field numbered 0, which Protocol Buffers
    do not allow, for one of its own: the table's end mark has that number. *)
Lemma pb_decode_accepts_field_zero `{Allocator} (tables : Z -> list pb_field_t) (limit : nat)
  (decode_callback : Z -> pb_field_t -> Z -> M decoder unit) (extension_callback : Z -> Z -> Z -> Z -> M decoder unit) :
  match pb_decode tables limit decode_callback extension_callback 1 [] 1000
          (mk_decoder (pb_istream_from_buffer [1; 1] 2) (memory_at 1000 [255]) 0) with
  | Done _ d => load_bytes (mem d) 1000 1 = Some [1]
  | _ => False
  end.
Proof. vm_compute. reflexivity. Qed.
